(* ===== verification/_CoqProject ===== *)
-Q . S2P
Prelude.v
Process.v
CLib.v
PluginApi.v
LibNhh.v
LibTypefile.v
Getopt.v
Search.v
FindFiles.v
Finder.v
FinderRuns.v
LibAvg.v
Entropy.v
LibUuid.v
Lab1Tools.v
Space.v
PollServer.v
Steps.v
Counter.v
CondWork.v
RwLock.v
SelectServer.v
Grid.v
Udp.v
MemTrace.v
Chat.v
Files.v
Prog.v
DbFile.v
Db.v
DbLayout.v
DbChains.v
DbSpec.v
DbSession.v
DirWatch.v
DirPaths.v
DirKernel.v
DirCache.v
DirTrack.v
DirEvents.v
DirChange.v
DirSession.v
Dll.v
PrintState.v
PrintQueue.v
PrintStatus.v
PrintWire.v
PrintDaemon.v
PrintSpool.v
PrintJob.v
PrintRestart.v
PrintFaults.v
PrintRun.v
PrintClient.v
RefCount.v
MemStream.v
Qsort.v
BarrierSort.v
Transfer.v
Semaph.v
ReadLine.v
GetNum.v
InetSockets.v
SeqNum.v
MachineCode.v
Signals.v
Forks.v
Creation.v
MyStdlib.v
Producers.v
Multijoin.v
Intro.v
JobQueue.v
MsgFiles.v
