(* ===== verification/Prelude.v ===== *)
(** * The programs of the course, and what they promise

    The repository is the work of a student in an operating-systems course: three
    laboratory programs with plugin libraries, small programs for each week, and the
    sources of two textbooks.  It is not one system but some sixty programs, which meet
    through files, sockets, threads and shared libraries.  This development models each
    program that has logic of its own, from the bytes of its arguments to its exit status,
    and proves what makes it correct; where a program is not correct it states what
    happens instead.

    ** How C is modelled

    A value of a C integer type is the [Z] it denotes, and conversions wrap around at the
    width of the LP64 target (this file).  A program is a function on explicit state, with
    results in [res]: [Ok a], [Undef e] where C leaves the behaviour undefined (an access
    outside of a block, a [free] of what is not allocated, a null pointer, an overflow of
    [int], a value never written), or
    [NoFuel] for a loop that was cut off.  A statement that a program returns [Ok] thus
    says that it ends and that nothing undefined happens on the way.

    [Process] is the state that a program shares with the system: [errno], the lines it
    printed, and the table [live] of its descriptors, mappings, streams, blocks and loaded
    libraries.  A leak is an entry that is left over, a double [free] a lookup that fails.
    Files and folders are the record [kernel].  [CLib] has the functions of the C library
    that do the work of the programs: [strtoll], [atoi], [sprintf] of numbers, [strlen],
    [memcmp].

    The larger textbook programs have many functions that share one structure and that may
    stop the process.  They are written in the monad of [Prog]: [prog st A] is a function
    from the state to a value and a state, to an exit with a message, to undefined
    behaviour or to a cut-off.  [runs broken p Q s] says that [p] from [s] ends in [Q]; the
    only other way to end is that the process stops itself while [broken] holds.

    Programs with threads, processes or signals ([Counter], [CondWork], [RwLock], [RefCount],
    [BarrierSort], [Transfer], [Semaph], [Signals], [Creation], [Producers], [Multijoin],
    [JobQueue], [MsgFiles]) are systems of [Steps]: a state, and a partial function that makes the step an actor is able to make.  A
    schedule is any list of actors; reachability is an inductive relation, invariants are
    proved by induction on it, and a measure bounds the length of a run.

    Programs that talk to the network ([PollServer], [SelectServer], [Udp], [Chat],
    [InetSockets], [SeqNum]) get
    what each call answers as an argument, a function of the time and of the arguments of
    the call.  The theorems quantify over it, under hypotheses that say what the manual
    pages promise: a new descriptor is none of those that are open, [recv] gives at most
    as many bytes as asked for.

    ** The parts and where they are

    The finder, src/lab1nhhN3249:
    - [PluginApi] is plugin_api.h: the structures, the types of the two functions of a
      plugin, and the class [PluginLaws], the contract between a library and the programs
      that load it.
    - [LibNhh] is libnhhN3249.c and [LibTypefile] is lib_typefile.c.  Both files prove their
      instance of [PluginLaws].
    - [Getopt] has the scanning of the two option passes of lab1nhhN3249.c, [Search] has
      [search_dir] with its check of a file, and [Finder] has [main] with the loading of
      the libraries and the clean-up.  Their theorems use a library through [PluginLaws].
    - [FindFiles] and [FinderRuns] put the finder and its two libraries together.

    The other plugins, src/lab1test and src/lab1:
    - [LibAvg] is lab1test/libavg.c, over a class [DoubleOps] of operations on [double];
      [Entropy] instantiates it by the real numbers.
    - [LibUuid] is lab1/libavg.c.
    - [Lab1Tools] is lab1test/lab1test.c and lab1test/lab1call.c, clients of [PluginLaws].

    Week 1: [Space] is search2.c and the folder search3 (a space of points kept in one
    block), [Grid] is search1.c (the same with nested arrays), [Qsort] is qsort.c and
    qsort_lambda.c, with the class [Sorter] for the sorting of the C library; [MachineCode] is
    01_c/hello_a.c and hello.c, a program that is an array of instructions, and [MyStdlib] is
    03_syscalls/mystdlib with its hello.c, which writes through the system calls of [MachineCode].
    Week 2 and others: [Files] is the folder 01_files, with ex5.c of week 5 and my_lib.c of
    week 3; [Forks] is the folder 02_processes, with 01_create/ex1.c of week 4.
    Week 3: [MemTrace] is 03_preload/libmtr.c, which counts [malloc] and [free].
    Week 4, 02_sync: [Counter] is ex1.c, ex1a.c, ex1mut.c and ex1s.c, [CondWork] is ex2.c,
    [RwLock] is ex3.c.  [Creation] is 01_create: ex2.c, ex3.c, ex4.c and ex_tgid.c.
    [Intro] has what the small programs of weeks 1 and 3 and mem_leak compute.
    Week 5: [Signals] is the folder 01_signals, [PollServer] is ex6.c, [SelectServer] is ex4.c, [Udp] is 02_sockets/ex3s.c and
    ex3c.c, [Chat] is 02_sockets/ex1s.c, ex1c.c, ex2s.c and ex2c.c.

    The database library, src/literature/apue3e/apue.3e/db:
    - [DbFile] has files of bytes: regions, chunks, fields of numbers.
    - [Db] is db.c, function by function.
    - [DbLayout] says what the bytes of the index and data files mean, [DbChains] what the
      pointers mean.
    - [DbSpec] is the abstract specification, a finite map from keys to data, and the
      refinement of each function of the library; [DbSession] composes them into sessions.

    The watcher of directory trees, src/literature/tlpi/inotify/inotify_dtree.c:
    - [DirWatch] is the program, over a class [Inotify] of the calls it makes.
    - [DirPaths] relates pathnames as texts, which the program compares character by
      character, to lists of names.
    - [DirKernel] is an instance of [Inotify] that follows inotify(7), with the changes that
      other programs make in the tree.
    - [DirCache] is what the cache stands for, [DirTrack] the relation between cache, watches
      and tree, [DirEvents] the effect of each event, [DirChange] the effect of each change,
      and [DirSession] puts them together.

    The print spooler, src/literature/apue3e/apue.3e/printer, with lib/writen.c, lib/readn.c,
    sockets/clconn2.c and sockets/initsrv2.c:
    - [PrintState] is the data of print.h, the state of the daemon, the class [World] of what
      the system answers, and the reads and writes of util.c.
    - [PrintQueue] is the list of jobs, with its refinement of a list, and the list of workers;
      [PrintStatus] is [printer_status], which scans the response of the printer; [PrintWire]
      has the structures as bytes and the two headers for the printer.
    - [PrintDaemon] is the rest of printd.c and util.c, from [main] to the threads; [PrintClient]
      is print.c.
    - [PrintSpool] follows a client through the daemon, [PrintJob] a job to the printer,
      [PrintRestart] what a daemon finds when it starts, [PrintFaults] what goes wrong;
      [PrintRun] puts clients and rounds of the printer's thread together, and [PrintClient]
      client and daemon.

    More programs of the textbooks, in src/literature/apue3e/apue.3e:
    - [RefCount] is threads/mutex2.c: objects with counted references in a hash table, two kinds
      of mutexes and any number of threads.
    - [BarrierSort] is threads/barrier.c: eight threads sort, [main] merges; it uses [Sorter].
    - [MemStream] is exercises/fmemopen.c: streams on memory, against a file as specification.
    - [JobQueue] is threads/rwlock.c: a queue of jobs behind a reader-writer lock.  [Dll] has the
      doubly linked lists that it shares with [PrintQueue].
    - [Semaph] is lib/semaph.c: semaphores that count their users and go with the last one.

    And in src/literature/tlpi:
    - [Transfer] is svshm/svshm_xfr_writer.c and svshm_xfr_reader.c with svsem/binary_sems.c: two
      processes hand each other blocks of shared memory.
    - [Producers] is threads/prod_condvar.c and [Multijoin] threads/thread_multijoin.c: [main]
      sleeps on a condition variable until a thread has made something, or has ended.
    - [MsgFiles] is svmsg/svmsg_file_server.c and svmsg_file_client.c: a server forks a child for each
      client that asks for a file, and the child sends it through the queue of the client.
    - [ReadLine] is sockets/read_line.c and read_line_buf.c, [GetNum] is lib/get_num.c and
      [InetSockets] is sockets/inet_sockets.c.  [SeqNum] is the server that gives out numbers and
      its client, is_seqnum_sv.c and is_seqnum_cl.c and their second version; it uses the three.

    ** What the theorems show

    - The finder.  [FinderRuns.main_finds]: on the command line of the exercise [main] prints
      the files that are to be found and leaks nothing.  [Search.search_dir_refines_walk]:
      the recursive search implements a traversal, given the contract of the plugins;
      [Search.search_dir_terminates]: it ends on every file system, with cycles too, and returns
      when the paths fit its buffer; [Finder.main_gives_back]: each path through [main] gives
      back each resource, but for what a search leaves of each folder in which a plugin
      reported an error (the directory stream, the path buffer, and what the plugin itself kept).
      [Search.selects_table] and [Getopt.parse_short_letters] say what the options do, which
      is not what the help says.  [FindFiles.empty_file_ends_folder] is a case of the error path.
    - The plugins.  [LibNhh.bit_seq_match_correct]: the byte loops are substring search;
      [LibNhh.process_literal]: a literal in any of the three bases is found exactly where
      its bytes occur, and the answer is the reverse of the documented one; [LibNhh.process_hex_saturates]: what becomes of one that is too large.
      [LibTypefile.process_txt], [LibAvg.process_entropy] and [Entropy.entropy_in_range] are
      the same for the others, [Lab1Tools.lab1call_reports] for the program that calls them.
    - The space.  [Space.space_get_bijective]: the index arithmetic maps the vectors in range
      one-to-one into the block; [Space.search2_finds]; [Grid.alloc_then_free] and
      [Grid.search_is_first].
    - The servers.  [PollServer.server_keeps_descriptors] and
      [SelectServer.select_server_runs]: the table is the set of open descriptors, and when the
      server leaves an array: [PollServer.server_keeps_descriptors] says that only a full table or
      a full buffer does that; [Udp.reversed_line] and
      [Chat.conversation] run client and server against each other.
    - The threads.  [Counter.counter_exact], [CondWork.all_work_done] and
      [RwLock.no_use_after_free] are invariants over all schedules; [Counter.always_ends] and
      [RwLock.stops_soon] bound the runs; [CondWork.can_hang] is a schedule that hangs.
    - The tracer and the files.  [MemTrace.temp_chunks_disjoint], [MemTrace.counts_calls],
      [MemTrace.early_bytes],
      [Files.getline_prints], [Files.abspath_found].
    - The database.  [DbSession.db_session]: a session answers as a finite map does;
      [DbSession.db_reopen]: the next session finds what was stored;
      [DbSession.store_then_fetch]: a record is not lost through operations on other keys;
      [DbSession.ops_keep_form]: the two files stay well formed; [DbSpec.db_read_all]: an
      enumeration gives each record once.  Every system call may fail in these theorems.
    - The watcher.  [DirSession.watcher_tracks]: after any changes, each followed by the
      reading of its events, the cache lists the directories of the tree, as long as no
      directory is moved in over one of the tree ([DirSession.moved_in_over]);
      [DirSession.rebuild_restores]: it does so too after an overflow of the queue or an
      event that makes no sense.
    - The spooler.  [PrintSpool.accepted_or_refused]: a request is stored in full, or refused
      without a trace when a call is to blame; [PrintJob.printed_or_kept]: what the printer gets, and
      when the files of a job go; [PrintRun.no_accepted_job_lost]: both over any sequence of clients
      and rounds; [PrintClient.file_reaches_spool]: client and daemon together.  In these any call of
      the daemon may fail, and a printer may answer anything; they say that the daemon faults or
      loops only when a printer does not answer with one well-formed piece, or when names do not fit
      ([PrintJob.mishap]).
      [PrintQueue.job_list_is_list], [PrintWire.ipp_header_read_back],
      [PrintRestart.restart_requeues] and [PrintRestart.number_survives] are about the parts;
      [PrintStatus.half_header_hangs], [PrintFaults.second_worker_lost] and
      [PrintFaults.number_used_twice] say where the spooler fails.

    - The smaller textbook programs.  [RefCount.counted]: no schedule touches a freed object, and
      the counters are right, as long as no object has INT_MAX references; [RefCount.find_exact] and [RefCount.calls_return]: what is found,
      and that every call returns; [RefCount.all_released]: nothing leaks.
      [BarrierSort.sorts_all] and [BarrierSort.sort_ends]: every schedule ends with the numbers in
      order.  [MemStream.stream_session]: a stream is a file of bounded size, whatever is called
      on it; [MemStream.written_is_read]: what was written is read back;
      [MemStream.far_write_outside] and [MemStream.seek_wraps]: where an [int] is too small.
      [Qsort.qsort_ints], [Qsort.qsort_prints] and [Qsort.lambda_prints]: the programs of week 1,
      for every sorting algorithm.
      [JobQueue.queue_is_list]: under every schedule the links are the list that the calls make.
    - Processes.  [Transfer.input_arrives] and [Transfer.transfer_ends]: the output is the input
      (of at most INT_MAX bytes), and every schedule ends.  [MsgFiles.each_gets_its_file] and
      [MsgFiles.all_are_served]: each client gets its own file, whole when no read or message
      failed ([MsgFiles.truncated_is_success]), and all are served.  [Semaph.set_stays_in_use], [Semaph.units_come_back] and
      [Semaph.last_user_removes]: the set of semaphores is there while somebody uses it, and what a
      process took comes back when it is killed; [Semaph.last_close_kills_creator] and
      [Semaph.open_races_with_close] are the two races that the code has.
      [Forks.fork_reports] and [Forks.zombies_counted] are about parents and their children.
    - The server of numbers.  [ReadLine.same_lines]: the two ways of reading lines agree;
      [GetNum.getInt_decimal]; [InetSockets.connect_keeps]; [SeqNum.server_counts],
      [SeqNum.servers_serve] and [SeqNum.clients_get_numbers]: no client stops the server, and
      clients get consecutive numbers.  [SeqNum.request_wraps] and [SeqNum.reply_negative] say what
      numbers of another size do.
    - Condition variables.  [Producers.units_accounted] and [Producers.no_lost_wakeup],
      [Multijoin.joined_once] and [Multijoin.joining_ends]: nothing is lost or taken twice, and no
      schedule ends with [main] asleep, although the signal comes after the mutex is given back, for
      arguments that are not negative and a sum from 1 to INT_MAX; [Producers.nothing_to_wait_for]
      and [Producers.negative_cuts_short] are the exceptions.
    - Signals, threads, machine code.  [Signals.signals_do_not_quit], [Signals.lines_whole] and
      [Signals.secret_ends]: what signals change and what they do not, at every moment they may
      come.  [Creation.cancelled_cleans_up]: a cancelled thread cleans up once;
      [Creation.never_ends_well]: ex_tgid.c joins a thread that it never made.
      [MachineCode.array_greets]: the bytes do what their comments say; [MyStdlib.string_is_written].
      [Intro.abs_path_fits] and [Intro.first_number_overflows] are about the small programs.

    Lemmas beside them say what goes wrong outside of their hypotheses: the overruns, leaks
    and wrong messages that the modelling of the programs showed.

    ** Fuel and bounds

    Recursion that is not structural has a fuel, and running out of it is [NoFuel] or
    [loops], never a result.  The theorems above conclude that a result is returned, so each
    shows that its fuel is enough (those of the printer's thread unless a printer misbehaves):
    - Counters of type [int] ([RefCount], [Transfer], [MsgFiles]) stop the model at [INT_MAX], and
      the theorems bound what is counted.
    - [search_dir] gets [path_cap] levels: each level makes the path longer, and the buffer
      of the path has that size.
    - The loops over a block or a file get its length; printing a number gets as many
      rounds as the number has binary digits.
    - [main] of the servers runs for a number of rounds that is an argument, since a server
      does not end of itself; so do the turns of a conversation.
    - The chains of the database are followed for the length of the index file plus one: a
      chain of a well-formed file has no cycle, and each record takes more than one byte.  A
      session has at most 9661 stores ([MAX_STORES]): each makes the index file longer by
      at most 1035 bytes, and a pointer of seven decimal digits reaches 9999999.  Longer
      sessions stop themselves when a pointer does not fit, as the code does.
    - The watcher gets, after a change, four turns and two for each event in the queue and
      each watch: a turn takes one event at least, an event is looked at twice at most, and a
      directory that is dropped adds one event.
    - The spooler reads a client for as many turns as bytes and pieces are to come, and scans a
      response for as many as it has bytes; [PrintStatus.half_header_hangs] is for every fuel.
      Memory that was never written holds the bytes of the parameter [garbage].

    ** What is not modelled, and why

    - Programs that only call the system to show an effect: the examples of week 1 on [make], on
      system calls in assembler and on printing, the programs of week 3 that print addresses or call
      [malloc] and [rand].  They have no state or data of their own.
    - The copies of lab1test.c under src/lab1nhhN3249 (the original is in [Lab1Tools]).
    - The rest of the two textbooks under src/literature, which is not the repository's own
      code.  The programs modelled are those with the most logic in them.
    - Within the modelled programs: the texts of debugging output and of the log of the
      watcher; time stamps and delays; failures of [malloc] where the description of the file
      says so; reads and writes that are interrupted half-way; several processes that use one
      database at a time (the record locks are taken and released in the model, but nobody
      competes for them); changes of the tree while the watcher is in the middle of reading
      the events of an earlier one; threads of the spooler that take turns inside of a request or
      a round.

    ** Left for later

    Several processes on one database, with the record locks as the only order between them;
    changes that come while the watcher reads; the threads of the spooler as a system of [Steps],
    with its locks.

    ** This file

    C integers, the type [res] with its bind, strings, lists of bytes, and the tactics and
    hints that the other files share. *)

From stdpp Require Export base tactics list numbers strings gmap relations.
From Stdlib Require Export ZArith Lia.
From Stdlib Require Import Ascii.

#[export] Set Default Proof Using "Type".

(** ** C integers

    A value of a C integer type is the [Z] it denotes; the conversions below are
    the wrap-around of the 64-bit (LP64) target. *)

Definition u64 (z : Z) : Z := z `mod` 2 ^ 64.
Definition s64 (z : Z) : Z := (z + 2 ^ 63) `mod` 2 ^ 64 - 2 ^ 63.
Definition u32 (z : Z) : Z := z `mod` 2 ^ 32.
Definition s32 (z : Z) : Z := (z + 2 ^ 31) `mod` 2 ^ 32 - 2 ^ 31.
Definition s8 (z : Z) : Z := (z + 2 ^ 7) `mod` 2 ^ 8 - 2 ^ 7.
Definition LLONG_MAX : Z := 2 ^ 63 - 1.
Definition LLONG_MIN : Z := - 2 ^ 63.
Definition INT_MAX : Z := 2 ^ 31 - 1.
Definition INT_MIN : Z := - 2 ^ 31.

Lemma u64_small z : (0 <= z < 2 ^ 64)%Z -> u64 z = z.
Proof. intros ?. apply Z.mod_small. lia. Qed.

Lemma s64_small z : (LLONG_MIN <= z <= LLONG_MAX)%Z -> s64 z = z.
Proof. unfold LLONG_MIN, LLONG_MAX, s64. intros ?. rewrite Z.mod_small; lia. Qed.

Lemma s32_small z : (INT_MIN <= z <= INT_MAX)%Z -> s32 z = z.
Proof. unfold INT_MIN, INT_MAX, s32. intros ?. rewrite Z.mod_small; lia. Qed.

Lemma u64_range z : (0 <= u64 z < 2 ^ 64)%Z.
Proof. apply Z.mod_pos_bound. lia. Qed.

(** ** Results of C code

    [Undef] is undefined behaviour, with its cause; [NoFuel] is a loop cut off by
    the fuel of its model, which the termination theorems exclude. *)

Inductive ub :=
| NullDeref
| OutOfBounds
| BadFree
| IntOverflow
| DivByZero
| UninitRead
| NoReturnValue.

Inductive res (A : Type) :=
| Ok (a : A)
| Undef (u : ub)
| NoFuel.
Arguments Ok {A} a.
Arguments Undef {A} u.
Arguments NoFuel {A}.

Definition rbind {A B} (m : res A) (k : A -> res B) : res B :=
  match m with
  | Ok a => k a
  | Undef u => Undef u
  | NoFuel => NoFuel
  end.

Declare Scope c_scope.
Delimit Scope c_scope with c.
Notation "'let*' x ':=' m 'in' k" := (rbind m (fun x => k))
  (at level 10, x pattern, m at level 100, k at level 200) : c_scope.

Create HintDb cdb.

Lemma rbind_ok {A B} (m : res A) (k : A -> res B) b :
  rbind m k = Ok b <-> exists a, m = Ok a /\ k a = Ok b.
Proof.
  destruct m as [a| |]; simpl; split.
  - eauto.
  - by intros (a' & [= <-] & E).
  - done.
  - by intros (a' & E & _).
  - done.
  - by intros (a' & E & _).
Qed.

Lemma rbind_assoc {A B C} (m : res A) (f : A -> res B) (g : B -> res C) :
  rbind (rbind m f) g = rbind m (fun a => rbind (f a) g).
Proof. by destruct m. Qed.

(** Inverts hypotheses that say a bind returned. *)
Ltac inv_bind :=
  repeat match goal with
  | H : rbind _ _ = Ok _ |- _ =>
      apply rbind_ok in H; let a := fresh "a" in let E := fresh "E" in destruct H as [a [E H]]
  | H : Ok _ = Ok _ |- _ => injection H as H
  | H : Undef _ = Ok _ |- _ => discriminate H
  | H : NoFuel = Ok _ |- _ => discriminate H
  end.

(** Two results of the same call agree. *)
Ltac ok_eq :=
  repeat match goal with
  | H1 : ?t = Ok ?a, H2 : ?t = Ok ?b |- _ =>
      rewrite H1 in H2; injection H2 as H2; subst
  end.

#[export] Instance ub_eq_dec : EqDecision ub.
Proof. solve_decision. Defined.
#[export] Instance res_eq_dec {A} `{EqDecision A} : EqDecision (res A).
Proof. solve_decision. Defined.

(** [m] is not cut off, and what it returns satisfies [Q]. *)
Definition finishes {A} (Q : A -> Prop) (m : res A) : Prop :=
  match m with
  | Ok a => Q a
  | Undef _ => True
  | NoFuel => False
  end.

Lemma finishes_bind {A B} (P : A -> Prop) (Q : B -> Prop) m (k : A -> res B) :
  finishes P m -> (forall a, P a -> finishes Q (k a)) -> finishes Q (rbind m k).
Proof. destruct m; simpl; auto. Qed.

Lemma finishes_mono {A} (P Q : A -> Prop) m :
  finishes P m -> (forall a, P a -> Q a) -> finishes Q m.
Proof. destruct m; simpl; auto. Qed.

(** Takes one bind apart: what the first part guarantees is left to be found. *)
Ltac fin_bind H :=
  lazymatch goal with
  | |- finishes _ (rbind _ _) => eapply finishes_bind; [eapply H|]
  end.

(** ** Strings *)

Lemma append_cons c (a b : string) : String c a +:+ b = String c (a +:+ b).
Proof. reflexivity. Qed.

Lemma append_nil_l (b : string) : EmptyString +:+ b = b.
Proof. reflexivity. Qed.

Lemma append_nil_r (a : string) : a +:+ EmptyString = a.
Proof. induction a; rewrite ?append_cons, ?append_nil_l; congruence. Qed.

Lemma append_assoc (a b c : string) : a +:+ (b +:+ c) = (a +:+ b) +:+ c.
Proof. induction a; rewrite ?append_cons, ?append_nil_l; congruence. Qed.

Lemma length_append (a b : string) :
  String.length (a +:+ b) = (String.length a + String.length b)%nat.
Proof.
  induction a; rewrite ?append_cons, ?append_nil_l; cbn [String.length]; lia.
Qed.

Lemma append_inj_r (a b c : string) : a +:+ c = b +:+ c -> a = b.
Proof.
  revert b. induction a as [|x a IH]; intros [|y b]; rewrite ?append_cons, ?append_nil_l.
  - done.
  - intros E. apply (f_equal String.length) in E. cbn [String.length] in E.
    rewrite length_append in E. lia.
  - intros E. apply (f_equal String.length) in E. cbn [String.length] in E.
    rewrite length_append in E. lia.
  - intros [= -> E]. f_equal. by apply IH.
Qed.

Create Rewrite HintDb cstr.
#[export] Hint Rewrite append_cons append_nil_l append_nil_r length_append : cstr.

(** ** Lists *)

(** [w] stands at offset [q] of [l]. *)
Lemma take_drop_split {A} (l w : list A) q :
  (q + length w <= length l)%nat ->
  take (length w) (drop q l) = w <-> exists b, l = take q l ++ w ++ b.
Proof.
  intros Hq. split.
  - intros E. exists (drop (q + length w) l).
    rewrite <- (take_drop q l) at 1. f_equal.
    rewrite <- (take_drop (length w) (drop q l)), E at 1. by rewrite drop_drop.
  - intros [b E]. rewrite E, drop_app_length'.
    + by rewrite take_app_length.
    + rewrite length_take. lia.
Qed.

Definition infix {A} (w l : list A) : Prop := exists a b, l = a ++ w ++ b.

Lemma infix_offset {A} (w l : list A) :
  infix w l <-> exists q, (q + length w <= length l)%nat /\ take (length w) (drop q l) = w.
Proof.
  split.
  - intros (a & b & ->). exists (length a). rewrite !length_app. split; [lia|].
    by rewrite drop_app_length, take_app_length.
  - intros (q & Hq & E). apply take_drop_split in E; [|done].
    destruct E as [b E]. by exists (take q l), b.
Qed.

(** An executable reading of [infix]. *)
Fixpoint infixb {A} `{EqDecision A} (w l : list A) : bool :=
  bool_decide (take (length w) l = w) ||
  match l with [] => false | _ :: l => infixb w l end.

Lemma infixb_spec {A} `{EqDecision A} (w l : list A) : infixb w l = true <-> infix w l.
Proof.
  rewrite infix_offset. induction l as [|x l IH]; simpl.
  - rewrite orb_false_r, bool_decide_eq_true, take_nil. split.
    + intros <-. exists 0%nat. by split.
    + intros (q & Hq & E). by rewrite drop_nil, take_nil in E.
  - rewrite orb_true_iff, bool_decide_eq_true, IH. split.
    + intros [E|(q & Hq & E)]; [exists 0%nat|exists (S q)].
      * split; [|done]. rewrite <- E at 1. rewrite length_take. simpl. lia.
      * simpl. split; [lia|done].
    + intros ([|q] & Hq & E); [by left|right]. exists q. simpl in *. split; [lia|done].
Qed.

#[export] Instance infix_dec {A} `{EqDecision A} (w l : list A) : Decision (infix w l).
Proof. refine (cast_if (decide (infixb w l = true))); abstract (by rewrite <- infixb_spec). Defined.
