(* ===== verification/Process.v ===== *)
(** * The process and the kernel it calls

    The state a C program of the repository shares with the system: [errno], what
    it printed, and the resources it holds (descriptors, mappings, directory
    streams, heap blocks, loaded libraries).  One table [live] holds every resource
    under a fresh identifier, so that a leak is an identifier left in the table and
    a bad [free]/[close] is a lookup that fails.  The file system is a parameter:
    [kernel] is what [open], [fstat], [mmap] and [readdir] answer. *)

From S2P Require Import Prelude.
Local Open Scope Z_scope.
Local Open Scope c_scope.

Definition ENOENT : Z := 2.
Definition ENOMEM : Z := 12.
Definition EINVAL : Z := 22.
Definition ERANGE : Z := 34.
Definition EXIT_SUCCESS : Z := 0.
Definition EXIT_FAILURE : Z := 1.
Definition PATH_MAX : Z := 4096.

Inductive rkind := RFd | RMap | RDir | RBlk | RDl.

#[export] Instance rkind_eq_dec : EqDecision rkind.
Proof. solve_decision. Defined.

(** What a program prints: [Out] to stdout, [Err] to stderr, [Perror] a call of
    [perror] with the value of [errno] it reads, [OutErrno] and [ErrErrno] a text that
    ends with the [strerror] of a value. *)
Inductive ev :=
| Out (s : string)
| Err (s : string)
| Perror (s : string) (e : Z)
| OutErrno (s : string) (e : Z)
| ErrErrno (s : string) (e : Z).

#[export] Instance ev_eq_dec : EqDecision ev.
Proof. solve_decision. Defined.

Record proc := MkProc {
  errno : Z;
  live : gmap nat rkind;
  next_id : nat;
  log : list ev
}.

Definition proc0 : proc := MkProc 0 ∅ 0 [].

Definition set_errno (e : Z) (p : proc) : proc :=
  MkProc e (live p) (next_id p) (log p).

Definition emit (e : ev) (p : proc) : proc :=
  MkProc (errno p) (live p) (next_id p) (log p ++ [e]).

Definition perror (s : string) (p : proc) : proc := emit (Perror s (errno p)) p.

Definition acquire (k : rkind) (p : proc) : nat * proc :=
  (next_id p, MkProc (errno p) (<[next_id p := k]> (live p)) (S (next_id p)) (log p)).

Definition release (k : rkind) (id : nat) (p : proc) : res proc :=
  match live p !! id with
  | Some k' =>
      if decide (k = k')
      then Ok (MkProc (errno p) (delete id (live p)) (next_id p) (log p))
      else Undef BadFree
  | None => Undef BadFree
  end.

(** [free(NULL)] does nothing. *)
Definition release_opt (k : rkind) (id : option nat) (p : proc) : res proc :=
  match id with
  | Some i => release k i p
  | None => Ok p
  end.

(** ** Files *)

(** A file the program can open: its bytes (values 0..255), and whether [fstat] and
    [mmap] on its descriptor fail, with the [errno] they leave. *)
Record file := MkFile {
  f_content : list Z;
  f_fstat_err : option Z;
  f_mmap_err : option Z
}.

Definition regular (bytes : list Z) : file := MkFile bytes None None.
Definition st_size (f : file) : Z := Z.of_nat (length (f_content f)).

Inductive d_type := DT_REG | DT_DIR | DT_OTHER.

#[export] Instance d_type_eq_dec : EqDecision d_type.
Proof. solve_decision. Defined.

Record dirent := MkDirent { d_kind : d_type; d_name : string }.

Record kernel := MkKernel {
  k_open : string -> file + Z;
  k_opendir : string -> list dirent + Z
}.

(** ** Laws of the resource table *)

(** Identifiers at or above [next_id] are free. *)
Definition proc_wf (p : proc) : Prop :=
  forall id, (next_id p <= id)%nat -> live p !! id = None.

(** [p'] holds the same resources as [p]; the log may have grown. *)
Definition keeps (p p' : proc) : Prop :=
  live p' = live p /\ (next_id p <= next_id p')%nat /\ log p `prefix_of` log p'.

(** [p'] holds the same resources as [p] and printed nothing more. *)
Definition quiet (p p' : proc) : Prop :=
  live p' = live p /\ (next_id p <= next_id p')%nat /\ log p' = log p.

#[export] Instance keeps_preorder : PreOrder keeps.
Proof.
  split.
  - intros p. by repeat split.
  - intros p q r (?&?&?) (?&?&?). repeat split; [congruence|lia|by etrans].
Qed.

#[export] Instance quiet_preorder : PreOrder quiet.
Proof.
  split.
  - intros p. by repeat split.
  - intros p q r (?&?&?) (?&?&?). repeat split; [congruence|lia|congruence].
Qed.

Lemma quiet_keeps p q : quiet p q -> keeps p q.
Proof. intros (?&?&E). repeat split; [done|done|by rewrite E]. Qed.

Lemma quiet_set_errno e p : quiet p (set_errno e p).
Proof. by repeat split. Qed.

Lemma keeps_emit e p : keeps p (emit e p).
Proof. repeat split; simpl; [done|by apply prefix_app_r]. Qed.

(** [p'] differs from [p] in [errno] and in what it printed only. *)
Definition printed (p p' : proc) : Prop :=
  live p' = live p /\ next_id p' = next_id p /\ log p `prefix_of` log p'.

#[export] Instance printed_preorder : PreOrder printed.
Proof.
  split.
  - intros p. by repeat split.
  - intros p q r (?&?&?) (?&?&?). repeat split; [congruence|lia|by etrans].
Qed.

Lemma printed_keeps p q : printed p q -> keeps p q.
Proof. intros (?&?&?). repeat split; [done|lia|done]. Qed.

Lemma printed_set_errno e p : printed p (set_errno e p).
Proof. by repeat split. Qed.

Lemma printed_emit e p : printed p (emit e p).
Proof. repeat split. simpl. by apply prefix_app_r. Qed.

Lemma printed_when_emit (b : bool) e p : printed p (if b then emit e p else p).
Proof. destruct b; [apply printed_emit|done]. Qed.

Lemma printed_when_errno (b : bool) e p : printed p (if b then set_errno e p else p).
Proof. destruct b; [apply printed_set_errno|done]. Qed.

Lemma proc_wf_keeps p q : keeps p q -> proc_wf p -> proc_wf q.
Proof. intros (E & Hle & _) Hwf id Hid. rewrite E. apply Hwf. lia. Qed.

Lemma proc_wf_acquire k p : proc_wf p -> proc_wf (snd (acquire k p)).
Proof.
  intros H id Hid. simpl in *. rewrite lookup_insert_ne by lia. apply H. lia.
Qed.

Lemma release_live k id p :
  live p !! id = Some k ->
  release k id p = Ok (MkProc (errno p) (delete id (live p)) (next_id p) (log p)).
Proof. intros H. unfold release. rewrite H. by rewrite decide_True. Qed.

(** Acquire, do something that keeps the resources, release: nothing changes. *)
Lemma acquire_release k p q :
  proc_wf p -> keeps (snd (acquire k p)) q ->
  exists q', release k (fst (acquire k p)) q = Ok q' /\ live q' = live p /\
    (next_id p <= next_id q')%nat /\ log q' = log q /\ errno q' = errno q.
Proof.
  intros Hwf (Hl & Hn & _). simpl in *.
  rewrite release_live by (rewrite Hl; apply lookup_insert_eq).
  eexists; split; [done|]. simpl. repeat split; [|lia].
  rewrite Hl. apply delete_insert_id, Hwf. lia.
Qed.

(** Giving back a mapping and the descriptor acquired before it. *)
Lemma release_two k1 k2 p q :
  proc_wf p -> live q = <[S (next_id p) := k2]> (<[next_id p := k1]> (live p)) ->
  (next_id p <= next_id q)%nat ->
  exists q1 q2, release k1 (next_id p) q = Ok q1 /\ release k2 (S (next_id p)) q1 = Ok q2 /\
    live q2 = live p /\ (next_id p <= next_id q2)%nat /\ log q2 = log q /\ errno q2 = errno q.
Proof.
  intros Hwf Hq Hid. do 2 eexists.
  rewrite (release_live k1) by (rewrite Hq, lookup_insert_ne by lia; apply lookup_insert_eq).
  split; [done|]. rewrite (release_live k2).
  - split; [done|]. cbn. rewrite Hq. repeat split; [|done].
    rewrite delete_insert_ne by lia.
    rewrite !delete_insert_id; [done|apply Hwf; lia|].
    rewrite delete_insert_id; apply Hwf; lia.
  - cbn. rewrite Hq, lookup_delete_ne by lia. apply lookup_insert_eq.
Qed.

Lemma release_one k p q :
  proc_wf p -> live q = <[next_id p := k]> (live p) -> (next_id p <= next_id q)%nat ->
  exists q1, release k (next_id p) q = Ok q1 /\
    live q1 = live p /\ (next_id p <= next_id q1)%nat /\ log q1 = log q /\ errno q1 = errno q.
Proof.
  intros Hwf Hq Hid.
  rewrite (release_live k) by (rewrite Hq; apply lookup_insert_eq).
  eexists; split; [done|]. cbn. rewrite Hq. repeat split; [|done].
  apply delete_insert_id, Hwf. lia.
Qed.

#[export] Hint Resolve printed_set_errno printed_emit printed_when_emit
  printed_when_errno printed_keeps : cdb.
#[export] Hint Resolve quiet_keeps quiet_set_errno keeps_emit proc_wf_acquire : cdb.

(** ** Ownership

    [holds base L p]: the live resources of [p] are those of [L], each once, and those
    of [base]. *)

Definition holds (base : gmap nat rkind) (L : list (nat * rkind)) (p : proc) : Prop :=
  NoDup L.*1 /\ (forall id, id ∈ L.*1 -> base !! id = None) /\
  live p = list_to_map L ∪ base.

Lemma holds_nil p : holds (live p) [] p.
Proof.
  split; [constructor|]. split; [by intros ? ?%not_elem_of_nil|].
  cbn. by rewrite (left_id_L ∅ (∪)).
Qed.

Lemma holds_base base p : holds base [] p -> live p = base.
Proof. intros (_ & _ & ->). cbn. by rewrite (left_id_L ∅ (∪)). Qed.

Lemma holds_live base L p q : live p = live q -> holds base L p -> holds base L q.
Proof. intros E (?&?&H). repeat split; [done|done|congruence]. Qed.

Lemma holds_perm base L L' p : L ≡ₚ L' -> holds base L p -> holds base L' p.
Proof.
  intros HL (Hnd & Hb & Hl). split; [by rewrite <- HL|]. split.
  - intros id Hid. apply Hb. by rewrite HL.
  - by rewrite Hl, (list_to_map_proper L L').
Qed.

Lemma holds_acquire base L k p :
  proc_wf p -> holds base L p -> holds base ((next_id p, k) :: L) (snd (acquire k p)).
Proof.
  intros Hwf (Hnd & Hb & Hl).
  assert (live p !! next_id p = None) as Hfresh by (by apply Hwf).
  rewrite Hl in Hfresh. apply lookup_union_None in Hfresh as [HL Hbase].
  split; [|split].
  - rewrite fmap_cons. constructor; [|done]. by apply not_elem_of_list_to_map.
  - intros id [-> |Hid]%elem_of_cons; [done|by apply Hb].
  - cbn. by rewrite Hl, insert_union_l.
Qed.

Lemma holds_release base L k id p :
  holds base ((id, k) :: L) p ->
  release k id p = Ok (MkProc (errno p) (delete id (live p)) (next_id p) (log p)) /\
  holds base L (MkProc (errno p) (delete id (live p)) (next_id p) (log p)).
Proof.
  intros (Hnd & Hb & Hl). rewrite fmap_cons in Hnd. apply NoDup_cons in Hnd as [Hid Hnd].
  split.
  - apply release_live. rewrite Hl. cbn. by rewrite <- insert_union_l, lookup_insert_eq.
  - split; [done|]. split; [intros i Hi; apply Hb; by right|].
    cbn. rewrite Hl. cbn. rewrite <- insert_union_l. apply delete_insert_id.
    apply lookup_union_None. split; [by apply not_elem_of_list_to_map_1|].
    apply Hb. by left.
Qed.

(** What a release that succeeded leaves. *)
Lemma release_holds base L k id p q :
  holds base ((id, k) :: L) p -> release k id p = Ok q ->
  holds base L q /\ log q = log p /\ errno q = errno p /\ next_id q = next_id p.
Proof. intros H E. apply holds_release in H as [E' H]. rewrite E' in E. by injection E as <-. Qed.

Lemma proc_wf_release k id p q : proc_wf p -> release k id p = Ok q -> proc_wf q.
Proof.
  intros Hwf H. unfold release in H. destruct (live p !! id) as [k'|]; [|done].
  destruct (decide (k = k')); [|done]. injection H as <-. intros i Hi. cbn in *.
  apply lookup_delete_None. right. by apply Hwf.
Qed.

Lemma holds_middle base A a L p : holds base (A ++ a :: L) p -> holds base (a :: A ++ L) p.
Proof. apply holds_perm. symmetry. apply Permutation_middle. Qed.

(** What is held on top of what is held. *)
Lemma holds_trans base L X p q : holds base L p -> holds (live p) X q -> holds base (X ++ L) q.
Proof.
  intros (Hnd & Hb & Hl) (HndX & HbX & HlX).
  assert (forall id, id ∈ X.*1 -> id ∉ L.*1 /\ base !! id = None) as Hfresh.
  { intros id Hid. apply HbX in Hid. rewrite Hl in Hid.
    apply lookup_union_None in Hid as [HL Hbase]. split; [by apply not_elem_of_list_to_map|done]. }
  split; [|split].
  - rewrite fmap_app. apply NoDup_app. split; [done|]. split; [|done].
    intros id Hid. by apply Hfresh.
  - intros id. rewrite fmap_app. intros [Hid|Hid]%elem_of_app; [by apply Hfresh|by apply Hb].
  - by rewrite list_to_map_app, HlX, Hl, (assoc_L (∪)).
Qed.

(** The things [X] counted as part of the rest. *)
Lemma holds_rest base L X p : holds base (L ++ X) p -> holds (list_to_map X ∪ base) L p.
Proof.
  intros (Hnd & Hb & Hl). rewrite fmap_app in Hnd, Hb. apply NoDup_app in Hnd as (HL & Hd & _).
  split; [done|]. split.
  - intros id Hid. apply lookup_union_None.
    split; [by apply not_elem_of_list_to_map_1, Hd|]. apply Hb, elem_of_app. by left.
  - by rewrite Hl, list_to_map_app, (assoc_L (∪)).
Qed.
