(* ===== verification/CLib.v ===== *)
(** * The C library functions the programs use

    Strings are Rocq strings without NUL; a character array is a text and the
    capacity of its block.  The conversions follow the C standard: [strtoll] skips
    blanks, takes a sign and the [0x] prefix, stops at the first character that is
    no digit of the base, and saturates; [fmt_lld] and [fmt_llx] are the texts that
    [sprintf] writes for [%lld] and [%llx]. *)

From S2P Require Import Prelude.
From Stdlib Require Import Ascii.
Local Open Scope Z_scope.
Local Open Scope c_scope.

Definition code (c : ascii) : Z := Z.of_N (N_of_ascii c).
Definition chr (z : Z) : ascii := ascii_of_N (Z.to_N z).

(** A line feed, which string literals cannot spell readably. *)
Definition nl : string := String (chr 10) EmptyString.
Definition tab : string := String (chr 9) EmptyString.

Definition strlen (s : string) : Z := Z.of_nat (String.length s).

Fixpoint drop_str (n : nat) (s : string) : string :=
  match n, s with
  | S n, String _ s => drop_str n s
  | _, _ => s
  end.

Fixpoint take_str (n : nat) (s : string) : string :=
  match n, s with
  | S n, String c s => String c (take_str n s)
  | _, _ => EmptyString
  end.

(** [strcmp(a, b) == 0] *)
Definition streq (a b : string) : bool := String.eqb a b.

(** [strrchr]: the index of the last occurrence. *)
Fixpoint strrchr (s : string) (c : ascii) : option nat :=
  match s with
  | EmptyString => None
  | String d s' =>
      match strrchr s' c with
      | Some i => Some (S i)
      | None => if Ascii.eqb d c then Some O else None
      end
  end.

(** [strchr]: the index of the first occurrence. *)
Fixpoint strchr (s : string) (c : ascii) : option nat :=
  match s with
  | EmptyString => None
  | String d s' =>
      if Ascii.eqb d c then Some O else S <$> strchr s' c
  end.

(** ** Conversions from text *)

Definition isspace (c : ascii) : bool :=
  let n := code c in (n =? 32) || ((9 <=? n) && (n <=? 13)).

Definition digit_val (c : ascii) : option Z :=
  let n := code c in
  if (48 <=? n) && (n <=? 57) then Some (n - 48)
  else if (97 <=? n) && (n <=? 122) then Some (n - 87)
  else if (65 <=? n) && (n <=? 90) then Some (n - 55)
  else None.

Definition is_digit (base : Z) (c : ascii) : bool :=
  match digit_val c with Some d => d <? base | None => false end.

Definition has_digit (base : Z) (s : string) : bool :=
  match s with String c _ => is_digit base c | EmptyString => false end.

Fixpoint skip_space (s : string) : string :=
  match s with
  | String c s' => if isspace c then skip_space s' else s
  | EmptyString => s
  end.

Definition take_sign (s : string) : bool * string :=
  match s with
  | String c s' =>
      if code c =? 45 then (true, s')
      else if code c =? 43 then (false, s') else (false, s)
  | EmptyString => (false, s)
  end.

(** [0x] or [0X] in front of a hexadecimal digit. *)
Definition hex_prefix (s : string) : bool :=
  match s with
  | String a (String b s') =>
      (code a =? 48) && ((code b =? 120) || (code b =? 88)) && has_digit 16 s'
  | _ => false
  end.

Definition resolve_base (base : Z) (s : string) : Z * string :=
  if base =? 16 then (16, if hex_prefix s then drop_str 2 s else s)
  else if base =? 0 then
    if hex_prefix s then (16, drop_str 2 s)
    else match s with
         | String c _ => if code c =? 48 then (8, s) else (10, s)
         | EmptyString => (10, s)
         end
  else (base, s).

Fixpoint scan_digits (base acc : Z) (s : string) : Z * string :=
  match s with
  | String c s' =>
      match digit_val c with
      | Some d => if d <? base then scan_digits base (acc * base + d) s' else (acc, s)
      | None => (acc, s)
      end
  | EmptyString => (acc, s)
  end.

Record strto := MkStrto { st_value : Z; st_end : string; st_erange : bool }.

(** [strtoll(s, &end, base)]: the value, the text [end] points at, and whether
    [errno] becomes [ERANGE].  [strtol] is the same function on this target. *)
Definition strtoll (s : string) (base : Z) : strto :=
  let '(neg, s2) := take_sign (skip_space s) in
  let '(b, s3) := resolve_base base s2 in
  if has_digit b s3 then
    let '(v, rest) := scan_digits b 0 s3 in
    let z := if neg then - v else v in
    if LLONG_MAX <? z then MkStrto LLONG_MAX rest true
    else if z <? LLONG_MIN then MkStrto LLONG_MIN rest true
    else MkStrto z rest false
  else MkStrto 0 s false.

(** [atol], and [atoi], which converts the result to [int]. *)
Definition atol (s : string) : Z := st_value (strtoll s 10).
Definition atoi (s : string) : Z := s32 (atol s).

(** ** Conversions to text *)

Definition digit_char (d : Z) : ascii := chr (if d <? 10 then 48 + d else 87 + d).

Fixpoint utoa_fuel (fuel : nat) (base n : Z) (acc : string) : string :=
  match fuel with
  | O => acc
  | S fuel =>
      let acc' := String (digit_char (n `mod` base)) acc in
      if n <? base then acc' else utoa_fuel fuel base (n / base) acc'
  end.

(** The digits of [n >= 0] in [base >= 2]; a digit per bit is always enough. *)
Definition utoa (base n : Z) : string :=
  utoa_fuel (S (Z.to_nat (Z.log2 n))) base n EmptyString.

Definition fmt_lld (z : Z) : string :=
  if z <? 0 then String (chr 45) (utoa 10 (- z)) else utoa 10 z.
Definition fmt_llx (z : Z) : string := utoa 16 (u64 z).

(** ** Memory *)

(** The [n] bytes at offset [off] of a block. *)
Definition mem_read (mem : list Z) (off n : Z) : res (list Z) :=
  if (0 <=? off) && (0 <=? n) && (off + n <=? Z.of_nat (length mem))
  then Ok (take (Z.to_nat n) (drop (Z.to_nat off) mem))
  else Undef OutOfBounds.

(** [memcmp(a + aoff, b + boff, n) == 0] *)
Definition memcmp_eq (a : list Z) (aoff : Z) (b : list Z) (boff n : Z) : res bool :=
  let* x := mem_read a aoff n in
  let* y := mem_read b boff n in
  Ok (bool_decide (x = y)).

(** The object representation of an integer: [n] bytes, least significant first. *)
Definition le_bytes (n : nat) (z : Z) : list Z :=
  (fun i => Z.shiftr z (8 * Z.of_nat i) `mod` 256) <$> seq 0 n.

(** A [char] array: what it holds up to the NUL, and the size of its block. *)
Record cbuf := MkCbuf { text : string; cap : Z }.

#[export] Instance cbuf_eq_dec : EqDecision cbuf.
Proof. solve_decision. Defined.

Definition strdup (s : string) : cbuf := MkCbuf s (strlen s + 1).

(** Writing the text [s] and its NUL at offset [off], as [sprintf(b + off, ..)]. *)
Definition cbuf_write (b : cbuf) (off : nat) (s : string) : res cbuf :=
  if Z.of_nat off + strlen s + 1 <=? cap b
  then Ok (MkCbuf (take_str off (text b) +:+ s) (cap b))
  else Undef OutOfBounds.

(** [memcmp(b + off, "xy", 2) == 0] on a character array: two bytes of the block are
    read whether or not the text is that long. *)
Definition memcmp2 (b : cbuf) (off : nat) (x y : ascii) : res bool :=
  if Z.of_nat off + 2 <=? cap b then
    Ok (match drop_str off (text b) with
        | String a (String c _) => Ascii.eqb a x && Ascii.eqb c y
        | _ => false
        end)
  else Undef OutOfBounds.

(** ** Laws *)

Lemma strlen_app a b : strlen (a +:+ b) = strlen a + strlen b.
Proof. unfold strlen. rewrite length_append. lia. Qed.

Lemma length_le_bytes n z : length (le_bytes n z) = n.
Proof. unfold le_bytes. by rewrite length_fmap, length_seq. Qed.

Lemma digit_val_char d : 0 <= d < 36 -> digit_val (digit_char d) = Some d.
Proof.
  intros Hd. unfold digit_val, digit_char, code, chr.
  rewrite N_ascii_embedding by (case_match; lia).
  rewrite Z2N.id by (case_match; lia).
  destruct (Z.ltb_spec d 10).
  - replace ((48 <=? 48 + d) && (48 + d <=? 57)) with true by lia. f_equal. lia.
  - replace ((48 <=? 87 + d) && (87 + d <=? 57)) with false by lia.
    replace ((97 <=? 87 + d) && (87 + d <=? 122)) with true by lia. f_equal. lia.
Qed.

Lemma scan_utoa_fuel base f n acc :
  2 <= base <= 36 -> 0 <= n < 2 ^ Z.of_nat f ->
  scan_digits base 0 (utoa_fuel f base n acc) = scan_digits base n acc.
Proof.
  intros Hb. revert n acc. induction f as [|f IH]; intros n acc Hn.
  { simpl in *. f_equal. lia. }
  pose proof (Z.mod_pos_bound n base ltac:(lia)) as Hm.
  rewrite Nat2Z.inj_succ, Z.pow_succ_r in Hn by lia.
  cbn [utoa_fuel]. destruct (Z.ltb_spec n base).
  - cbn [scan_digits]. rewrite digit_val_char by lia.
    rewrite Z.mod_small by lia. by rewrite (proj2 (Z.ltb_lt n base)) by lia.
  - rewrite IH.
    + cbn [scan_digits]. rewrite digit_val_char by lia.
      rewrite (proj2 (Z.ltb_lt (n mod base) base)) by lia.
      f_equal. pose proof (Z.div_mod n base). lia.
    + split; [apply Z.div_pos; lia|].
      apply Z.div_lt_upper_bound; nia.
Qed.

Lemma scan_utoa base n :
  2 <= base <= 36 -> 0 <= n -> scan_digits base 0 (utoa base n) = (n, EmptyString).
Proof.
  intros Hb Hn. unfold utoa. rewrite scan_utoa_fuel; [done|done|].
  split; [done|]. rewrite Nat2Z.inj_succ, Z2Nat.id by apply Z.log2_nonneg.
  destruct (decide (n = 0)) as [->|]; [done|].
  apply Z.log2_spec. lia.
Qed.

(** *** Shape and length of printed numbers *)

Lemma code_digit_char d :
  0 <= d < 36 -> code (digit_char d) = if d <? 10 then 48 + d else 87 + d.
Proof.
  intros Hd. unfold digit_char, code, chr.
  rewrite N_ascii_embedding by (case_match; lia). apply Z2N.id. case_match; lia.
Qed.

Lemma digit_char_not_blank d :
  0 <= d < 36 ->
  isspace (digit_char d) = false /\ (code (digit_char d) =? 45) = false /\
  (code (digit_char d) =? 43) = false.
Proof.
  intros Hd. unfold isspace. rewrite code_digit_char by done.
  destruct (Z.ltb_spec d 10); repeat split; lia.
Qed.

Lemma utoa_fuel_head f base n acc :
  2 <= base <= 36 ->
  exists d s, 0 <= d < base /\ utoa_fuel (S f) base n acc = String (digit_char d) s.
Proof.
  intros Hb. revert n acc. induction f as [|f IH]; intros n acc.
  all: pose proof (Z.mod_pos_bound n base ltac:(lia)).
  - exists (n `mod` base), acc. cbn. by case_match.
  - cbn [utoa_fuel]. destruct (n <? base); [by eauto|]. apply IH.
Qed.

Lemma utoa_fuel_length base f n acc :
  2 <= base <= 36 -> 0 <= n < 2 ^ Z.of_nat f ->
  exists k, strlen (utoa_fuel f base n acc) = k + strlen acc /\ 0 <= k /\
    (f = O \/ 1 <= k) /\ n < base ^ k /\ (k <= 1 \/ base ^ (k - 1) <= n).
Proof.
  intros Hb. revert n acc. induction f as [|f IH]; intros n acc Hn.
  { exists 0. simpl in *. repeat split; lia. }
  rewrite Nat2Z.inj_succ, Z.pow_succ_r in Hn by lia.
  cbn [utoa_fuel]. destruct (Z.ltb_spec n base).
  - exists 1. unfold strlen. cbn [String.length]. rewrite Z.pow_1_r. repeat split; lia.
  - destruct (IH (n / base) (String (digit_char (n `mod` base)) acc))
      as (k & Hk & Hk0 & Hk1 & Hup & Hlo).
    { split; [apply Z.div_pos; lia|]. apply Z.div_lt_upper_bound; nia. }
    assert (1 <= k).
    { destruct (decide (k = 0)) as [->|]; [|lia].
      rewrite Z.pow_0_r in Hup. pose proof (Z.div_le_lower_bound n base 1). lia. }
    exists (k + 1). unfold strlen in *. cbn [String.length] in Hk.
    pose proof (Z.div_mod n base ltac:(lia)) as Hdm.
    pose proof (Z.mod_pos_bound n base ltac:(lia)).
    repeat split; [lia..| |].
    + rewrite Z.pow_add_r, Z.pow_1_r by lia. nia.
    + right. replace (k + 1 - 1) with (1 + (k - 1)) by lia.
      rewrite Z.pow_add_r, Z.pow_1_r by lia.
      destruct Hlo as [Hlo|Hlo]; [|nia].
      replace (k - 1) with 0 by lia. lia.
Qed.

Lemma utoa_length base n :
  2 <= base <= 36 -> 0 <= n ->
  exists k, strlen (utoa base n) = k /\ 1 <= k /\ n < base ^ k /\
    (k <= 1 \/ base ^ (k - 1) <= n).
Proof.
  intros Hb Hn. unfold utoa.
  destruct (utoa_fuel_length base (S (Z.to_nat (Z.log2 n))) n EmptyString)
    as (k & Hk & _ & [|] & ?); [done| |done|].
  - split; [done|]. rewrite Nat2Z.inj_succ, Z2Nat.id by apply Z.log2_nonneg.
    destruct (decide (n = 0)) as [->|]; [done|]. apply Z.log2_spec. lia.
  - exists k. rewrite Hk. unfold strlen. simpl. split; [lia|done].
Qed.

(** A number has at most as many digits in a larger base, and at most [j] digits
    when it is below [base ^ j]. *)
Lemma utoa_length_le base n j :
  2 <= base <= 36 -> 0 <= n < base ^ j -> 1 <= j -> strlen (utoa base n) <= j.
Proof.
  intros Hb Hn Hj. destruct (utoa_length base n) as (k & -> & Hk & _ & [|Hlo]); [lia..|].
  destruct (Z.le_gt_cases k j); [done|].
  pose proof (Z.pow_le_mono_r base j (k - 1)). lia.
Qed.

Lemma utoa_length_mono b1 b2 n :
  2 <= b1 <= b2 -> b2 <= 36 -> 0 <= n -> strlen (utoa b2 n) <= strlen (utoa b1 n).
Proof.
  intros Hb Hb2 Hn. destruct (utoa_length b1 n) as (k & -> & Hk & Hup & _); [lia..|].
  apply utoa_length_le; [lia| |done].
  pose proof (Z.pow_le_mono_l b1 b2 k). lia.
Qed.

Lemma length_fmt_llx_nonneg z :
  0 <= z <= LLONG_MAX -> strlen (fmt_llx z) <= strlen (fmt_lld z).
Proof.
  intros Hz. unfold fmt_llx, fmt_lld, LLONG_MAX in *.
  rewrite u64_small by lia. rewrite (proj2 (Z.ltb_ge z 0)) by lia.
  apply utoa_length_mono; lia.
Qed.

Lemma length_fmt_llx_neg z : LLONG_MIN <= z < 0 -> strlen (fmt_llx z) = 16.
Proof.
  intros Hz. unfold fmt_llx, LLONG_MIN in *.
  assert (u64 z = z + 2 ^ 64) as ->.
  { unfold u64. symmetry. apply (Z.mod_unique _ _ (-1)); lia. }
  destruct (utoa_length 16 (z + 2 ^ 64)) as (k & -> & Hk & Hup & [|Hlo]); [lia..| |].
  - exfalso. assert (k = 1) as -> by lia. lia.
  - destruct (Z.lt_trichotomy k 16) as [|[|]]; [|done|]; exfalso.
    + pose proof (Z.pow_le_mono_r 16 k 15). lia.
    + pose proof (Z.pow_le_mono_r 16 16 (k - 1)). lia.
Qed.

(** *** Reading back what was printed *)

Lemma utoa_shape base n :
  2 <= base <= 36 ->
  exists d s, 0 <= d < base /\ utoa base n = String (digit_char d) s.
Proof. intros Hb. unfold utoa. by apply utoa_fuel_head. Qed.

Lemma has_digit_utoa base n :
  2 <= base <= 36 -> has_digit base (utoa base n) = true.
Proof.
  intros Hb. destruct (utoa_shape base n Hb) as (d & s & Hd & ->).
  cbn. unfold is_digit. rewrite digit_val_char by lia. lia.
Qed.

Lemma skip_space_utoa base n :
  2 <= base <= 36 -> skip_space (utoa base n) = utoa base n.
Proof.
  intros Hb. destruct (utoa_shape base n Hb) as (d & s & Hd & ->).
  cbn. by rewrite (proj1 (digit_char_not_blank d ltac:(lia))).
Qed.

Lemma take_sign_utoa base n :
  2 <= base <= 36 -> take_sign (utoa base n) = (false, utoa base n).
Proof.
  intros Hb. destruct (utoa_shape base n Hb) as (d & s & Hd & ->).
  destruct (digit_char_not_blank d ltac:(lia)) as (_ & H1 & H2).
  unfold take_sign. by rewrite H1, H2.
Qed.

Lemma resolve_base_plain base s :
  base <> 16 -> base <> 0 -> resolve_base base s = (base, s).
Proof.
  intros ??. unfold resolve_base.
  by rewrite (proj2 (Z.eqb_neq base 16)), (proj2 (Z.eqb_neq base 0)).
Qed.

Lemma strtoll_utoa base n neg :
  base <> 16 -> 2 <= base <= 36 -> 0 <= n ->
  LLONG_MIN <= (if neg : bool then - n else n) <= LLONG_MAX ->
  strtoll (if neg then String (chr 45) (utoa base n) else utoa base n) base =
  MkStrto (if neg then - n else n) EmptyString false.
Proof.
  intros ? Hb Hn Hr. unfold strtoll.
  assert (take_sign (skip_space
    (if neg then String (chr 45) (utoa base n) else utoa base n)) =
    (neg, utoa base n)) as ->.
  { destruct neg; [done|]. by rewrite skip_space_utoa, take_sign_utoa. }
  rewrite resolve_base_plain, has_digit_utoa, scan_utoa by lia. cbv zeta.
  rewrite (proj2 (Z.ltb_ge LLONG_MAX _)), (proj2 (Z.ltb_ge _ LLONG_MIN)) by lia. done.
Qed.

(** [strtoll] reads back exactly what [%lld] printed. *)
Lemma strtoll_fmt_lld z :
  LLONG_MIN <= z <= LLONG_MAX ->
  strtoll (fmt_lld z) 10 = MkStrto z EmptyString false.
Proof.
  intros Hz. unfold fmt_lld. destruct (Z.ltb_spec z 0).
  - rewrite (strtoll_utoa 10 (- z) true) by (rewrite ?Z.opp_involutive; lia).
    by rewrite Z.opp_involutive.
  - by rewrite (strtoll_utoa 10 z false) by lia.
Qed.

(** *** What [strtoll] returns is in range, and bounded by the text it read *)

Lemma strtoll_range s base :
  LLONG_MIN <= st_value (strtoll s base) <= LLONG_MAX.
Proof.
  unfold strtoll. repeat case_match; simpl; unfold LLONG_MIN, LLONG_MAX in *; lia.
Qed.

Lemma scan_digits_bound base s acc v rest :
  2 <= base -> 0 <= acc -> scan_digits base acc s = (v, rest) ->
  0 <= v < (acc + 1) * base ^ (strlen s - strlen rest) /\ strlen rest <= strlen s.
Proof.
  intros Hb. revert acc. induction s as [|c s IH]; intros acc Hacc; cbn [scan_digits].
  - intros [= <- <-]. rewrite Z.sub_diag. lia.
  - assert (0 <= v < (acc + 1) * base ^ (strlen (String c s) - strlen (String c s))
      <-> 0 <= v < acc + 1) as Hself by (rewrite Z.sub_diag; lia).
    destruct (digit_val c) as [d|] eqn:Ed; [|intros [= <- <-]; lia].
    destruct (Z.ltb_spec d base); [|intros [= <- <-]; lia].
    assert (0 <= d) by (revert Ed; unfold digit_val; repeat case_match; intros; simplify_eq; lia).
    intros Hs. destruct (IH (acc * base + d)) as [Hv Hl]; [nia|done|].
    assert (strlen (String c s) = strlen s + 1) as -> by (unfold strlen; cbn [String.length]; lia).
    split; [|lia].
    replace (strlen s + 1 - strlen rest) with (1 + (strlen s - strlen rest)) by lia.
    rewrite Z.pow_add_r, Z.pow_1_r by lia.
    pose proof (Z.pow_pos_nonneg base (strlen s - strlen rest)). nia.
Qed.

Lemma strlen_cons c s : strlen (String c s) = 1 + strlen s.
Proof. unfold strlen. cbn [String.length]. lia. Qed.

Lemma strlen_nonneg s : 0 <= strlen s.
Proof. unfold strlen. lia. Qed.

Lemma strlen_skip_space s : strlen (skip_space s) <= strlen s.
Proof.
  induction s as [|c s IH]; cbn [skip_space]; [done|].
  destruct (isspace c); rewrite ?strlen_cons; lia.
Qed.

Lemma strlen_take_sign s : strlen (snd (take_sign s)) <= strlen s.
Proof.
  destruct s as [|c s]; cbn [take_sign]; [done|].
  repeat case_match; cbn [snd]; rewrite ?strlen_cons; lia.
Qed.

(** A non-negative decimal reading prints back in at most the text it was read from. *)
Lemma length_fmt_lld_strtoll s :
  0 <= st_value (strtoll s 10) ->
  strlen (fmt_lld (st_value (strtoll s 10))) <= Z.max 1 (strlen s).
Proof.
  pose proof (strlen_skip_space s) as H1.
  pose proof (strlen_take_sign (skip_space s)) as H2.
  unfold strtoll. destruct (take_sign (skip_space s)) as [neg t] eqn:Et.
  cbn [snd] in H2. rewrite resolve_base_plain by lia.
  destruct (has_digit 10 t) eqn:Ed; [|cbn [st_value]; intros _; change (strlen (fmt_lld 0)) with 1; lia].
  destruct (scan_digits 10 0 t) as [v rest] eqn:Es.
  apply scan_digits_bound in Es; [|lia..]. destruct Es as [Hv Hrest].
  pose proof (strlen_nonneg rest).
  assert (1 <= strlen t).
  { destruct t as [|c t]; [done|]. rewrite strlen_cons. pose proof (strlen_nonneg t). lia. }
  assert (v < 10 ^ strlen t).
  { pose proof (Z.pow_le_mono_r 10 (strlen t - strlen rest) (strlen t)). lia. }
  intros Hz.
  assert (forall z, 0 <= z -> z <= v -> strlen (fmt_lld z) <= strlen t) as Hfmt.
  { intros z ??. unfold fmt_lld. rewrite (proj2 (Z.ltb_ge z 0)) by lia.
    apply utoa_length_le; lia. }
  enough (forall z, 0 <= z -> z <= v -> strlen (fmt_lld z) <= Z.max 1 (strlen s)) as Hgoal.
  { revert Hz. destruct neg; repeat case_match; simpl; intros Hz; apply Hgoal;
      unfold LLONG_MIN, LLONG_MAX in *; lia. }
  intros z ??. specialize (Hfmt z). lia.
Qed.

(** *** Second characters and prefixes of printed numbers *)

Lemma scan_digits_second base acc c1 c2 s v :
  scan_digits base acc (String c1 (String c2 s)) = (v, EmptyString) ->
  is_digit base c2 = true.
Proof.
  cbn [scan_digits]. unfold is_digit.
  destruct (digit_val c1) as [d1|]; [|done]. destruct (d1 <? base); [|done].
  destruct (digit_val c2) as [d2|]; [|done]. by destruct (d2 <? base).
Qed.

Lemma utoa_second base n c1 c2 s :
  2 <= base <= 36 -> 0 <= n -> utoa base n = String c1 (String c2 s) ->
  is_digit base c2 = true.
Proof.
  intros Hb Hn E. eapply (scan_digits_second base 0 c1 c2 s n). rewrite <- E.
  by apply scan_utoa.
Qed.

Lemma strlen_utoa_pos base n : 2 <= base <= 36 -> 1 <= strlen (utoa base n).
Proof.
  intros Hb. destruct (utoa_shape base n Hb) as (d & s & _ & ->).
  rewrite strlen_cons. pose proof (strlen_nonneg s). lia.
Qed.

(** [0x] and the digits of [n] are read as [n], saturated. *)
Lemma strtoll_hex n :
  0 <= n ->
  strtoll ("0x" +:+ utoa 16 n) 16 =
  MkStrto (Z.min n LLONG_MAX) EmptyString (LLONG_MAX <? n).
Proof.
  intros Hn. unfold strtoll. rewrite !append_cons, append_nil_l.
  cbn [skip_space]. change (isspace "0"%char) with false. cbv iota.
  change (take_sign (String "0" (String "x" (utoa 16 n)))) with
    (false, String "0" (String "x" (utoa 16 n))). cbv iota beta.
  assert (resolve_base 16 (String "0" (String "x" (utoa 16 n))) = (16, utoa 16 n)) as ->.
  { unfold resolve_base. cbn [hex_prefix]. rewrite has_digit_utoa by lia. done. }
  rewrite has_digit_utoa, scan_utoa by lia. cbv iota beta zeta.
  destruct (Z.ltb_spec LLONG_MAX n).
  - by rewrite Z.min_r by lia.
  - rewrite (proj2 (Z.ltb_ge n LLONG_MIN)) by (unfold LLONG_MIN; lia).
    by rewrite Z.min_l by lia.
Qed.

(** Bytes an unsigned number fills, counted from its bits or its hex digits. *)
Lemma digits_bits_hex n :
  0 <= n ->
  (strlen (utoa 2 n) + 7) / 8 = (strlen (utoa 16 n) + 1) / 2.
Proof.
  intros Hn.
  destruct (utoa_length 2 n) as (k2 & -> & H2 & Hup2 & Hlo2); [lia..|].
  destruct (utoa_length 16 n) as (k16 & -> & H16 & Hup16 & Hlo16); [lia..|].
  assert (forall j, 0 <= j -> 16 ^ j = 2 ^ (4 * j)) as Hp.
  { intros j ?. by rewrite (Z.pow_mul_r 2 4 j) by lia. }
  assert (k2 <= 4 * k16).
  { destruct Hlo2 as [|Hlo2]; [lia|]. rewrite Hp in Hup16 by lia.
    enough (k2 - 1 < 4 * k16) by lia. apply (Z.pow_lt_mono_r_iff 2); lia. }
  assert (4 * (k16 - 1) < k2).
  { destruct Hlo16 as [|Hlo16]; [lia|]. rewrite Hp in Hlo16 by lia.
    apply (Z.pow_lt_mono_r_iff 2); lia. }
  Z.div_mod_to_equations. lia.
Qed.

(** ** File name extensions

    Both programs take the extension of a path from its last dot, the dot included,
    unless the dot is its first character. *)

Definition file_ext (s : string) : string :=
  match strrchr s "."%char with
  | None => EmptyString
  | Some O => EmptyString
  | Some i => drop_str i s
  end.

Lemma strrchr_app a c b :
  strrchr b c = None -> strrchr (a +:+ String c b) c = Some (String.length a).
Proof.
  intros Hb. induction a as [|d a IH].
  - rewrite append_nil_l. cbn [strrchr]. by rewrite Hb, Ascii.eqb_refl.
  - rewrite append_cons. cbn [strrchr String.length]. by rewrite IH.
Qed.

Lemma strrchr_split s c i :
  strrchr s c = Some i ->
  exists a b, s = a +:+ String c b /\ String.length a = i /\ drop_str i s = String c b.
Proof.
  revert i. induction s as [|d s IH]; intros i; cbn [strrchr]; [done|].
  destruct (strrchr s c) as [j|] eqn:E.
  - intros [= <-]. destruct (IH j eq_refl) as (a & b & -> & Hl & Hd).
    exists (String d a), b. rewrite append_cons. cbn [String.length drop_str].
    split; [done|]. split; [lia|done].
  - destruct (Ascii.eqb d c) eqn:Ed; [|done]. intros [= <-].
    apply Ascii.eqb_eq in Ed as ->. by exists EmptyString, s.
Qed.

(** A path has the extension [.e] when it is a non-empty stem followed by it. *)
Lemma file_ext_iff s e :
  strrchr e "."%char = None ->
  file_ext s = String "." e <-> exists stem, stem <> EmptyString /\ s = stem +:+ String "." e.
Proof.
  intros He. unfold file_ext. split.
  - destruct (strrchr s "."%char) as [[|i]|] eqn:E; [done| |done].
    apply strrchr_split in E as (a & b & -> & Hl & ->). intros [= ->].
    exists a. split; [|done]. by intros ->.
  - intros (stem & Hne & ->). rewrite strrchr_app by done.
    destruct stem as [|c stem]; [done|]. cbn [String.length].
    rewrite append_cons. cbn [drop_str]. clear Hne.
    induction stem as [|d stem IH]; [done|]. rewrite append_cons. apply IH.
Qed.
