(* ===== verification/PluginApi.v ===== *)
(** * The plugin interface ([plugin_api.h])

    The structures that cross the boundary between a program and a plugin library,
    the types of the two exported functions, and the contract the programs rely on:
    a class of laws that each library's file proves of its own
    [plugin_process_file] and the clients' theorems assume. *)

From S2P Require Import Prelude Process CLib.
Local Open Scope Z_scope.

Definition no_argument : Z := 0.
Definition required_argument : Z := 1.

(** [struct option] of getopt.h.  The plugins use [flag], declared [int *], as a
    [char *] that holds the option's argument. *)
Record copt := MkOpt {
  o_name : string;
  o_has_arg : Z;
  o_flag : option cbuf;
  o_val : Z
}.

#[export] Instance copt_eq_dec : EqDecision copt.
Proof. solve_decision. Defined.

Record plugin_option := MkPluginOption {
  opt : copt;
  opt_descr : string
}.

Record plugin_info := MkPluginInfo {
  plugin_purpose : string;
  plugin_author : string;
  sup_opts_len : Z;
  sup_opts : list plugin_option
}.

(** [plugin_get_info(ppi)]: the return value and what [*ppi] holds afterwards;
    [None] is the null pointer. *)
Definition pgi_func_t : Type :=
  option plugin_info -> proc -> Z * option plugin_info * proc.

(** [plugin_process_file(fname, in_opts, in_opts_len)] on a file system, with the
    [LAB1DEBUG] variable set or not: the return value and the option array
    afterwards, since a plugin can write through [flag]. *)
Definition ppf_func_t : Type :=
  kernel -> bool -> option string -> option (list copt) -> nat -> proc ->
  res (Z * list copt * proc).

(** [%s] of a possibly null [char *]. *)
Definition show_ptr (b : option cbuf) : string :=
  match b with Some b => text b | None => "(null)" end.

Definition set_flag (o : copt) (b : option cbuf) : copt :=
  MkOpt (o_name o) (o_has_arg o) b (o_val o).

(** Two option arrays that differ at most in the text their buffers hold. *)
Definition opt_shape (o : copt) : string * Z * option Z * Z :=
  (o_name o, o_has_arg o, cap <$> o_flag o, o_val o).

Definition same_shape (os os' : list copt) : Prop :=
  opt_shape <$> os = opt_shape <$> os'.

#[export] Instance same_shape_equiv : Equivalence same_shape.
Proof. split; unfold same_shape; repeat intro; congruence. Qed.

(** What the programs need of a library: a call that reports a verdict ([>= 0])
    holds no more resources than before, and no call changes the option array but
    for the texts in its buffers. *)
Class PluginLaws (f : ppf_func_t) := {
  ppf_keeps k d fn os n p ret os' p' :
    f k d fn os n p = Ok (ret, os', p') -> proc_wf p -> 0 <= ret -> keeps p p';
  ppf_shape k d fn os n p ret os' p' :
    f k d fn (Some os) n p = Ok (ret, os', p') -> same_shape os os'
}.

(** What a call on [fname] that reports an error ([< 0]) may leave behind: some [X] with
    [S fname X].  The interface does not forbid it. *)
Definition spills (S : string -> list (nat * rkind) -> Prop) (k : kernel) (f : ppf_func_t) : Prop :=
  forall d fn os n p ret os' p', f k d (Some fn) os n p = Ok (ret, os', p') -> proc_wf p -> ret < 0 ->
  proc_wf p' /\ (next_id p <= next_id p')%nat /\ exists X, S fn X /\ holds (live p) X p'.

Lemma same_shape_length os os' : same_shape os os' -> length os = length os'.
Proof. intros E. apply (f_equal length) in E. by rewrite !length_fmap in E. Qed.

(** Writing an equally large buffer into an option keeps the shape. *)
Lemma same_shape_set_flag os i o b b' :
  os !! i = Some o -> o_flag o = Some b -> cap b' = cap b ->
  same_shape os (<[i := set_flag o (Some b')]> os).
Proof.
  intros Hi Hb Hc. unfold same_shape. rewrite list_fmap_insert.
  symmetry. apply list_insert_id. rewrite list_lookup_fmap, Hi. simpl.
  unfold opt_shape. simpl. by rewrite Hb, Hc.
Qed.
