(* ===== verification/LibNhh.v ===== *)
(** * libnhhN3249.c: the bit-sequence plugin

    [plugin_process_file] reads the [--bit-seq] argument (binary, hexadecimal or
    decimal), takes the bytes of the resulting [long long] from the least significant
    one, and looks for them at every offset of the file. *)

From S2P Require Import Prelude Process CLib PluginApi.
From Stdlib Require Import Ascii.
Local Open Scope Z_scope.
Local Open Scope c_scope.

Definition g_lib_name : string := "libnhhN3249.so".
Definition g_plugin_purpose : string :=
  "Variant 5: Search for files containing a given sequence of bits.".
Definition g_plugin_author : string := "Nguyen Hong Hanh N3249".
Definition OPT_BIT_SEQ : string := "bit-seq".

Definition g_po_arr : list plugin_option :=
  [MkPluginOption (MkOpt OPT_BIT_SEQ required_argument None 0)
     "A sequence of bits, you want to search for"].
Definition g_po_arr_len : Z := Z.of_nat (length g_po_arr).

Definition plugin_get_info : pgi_func_t := fun ppi p =>
  match ppi with
  | None => (-1, None, emit (Err ("ERROR: invalid argument" +:+ nl)) p)
  | Some _ =>
      (0, Some (MkPluginInfo g_plugin_purpose g_plugin_author g_po_arr_len g_po_arr), p)
  end.

(** ** The search *)

(** [while (fSize - pos >= pSize)], in [size_t] arithmetic.  [pattern] is the
    8-byte object whose bytes are compared. *)
Fixpoint match_from (fuel : nat) (buffer pattern : list Z) (pSize fSize pos : Z) : res Z :=
  match fuel with
  | O => NoFuel
  | S fuel =>
      if pSize <=? u64 (fSize - pos) then
        let* eq := memcmp_eq buffer pos pattern 0 pSize in
        if eq then Ok 1
        else match_from fuel buffer pattern pSize fSize (u64 (pos + 1))
      else Ok 0
  end.

(** [pos] only grows and the loop leaves when it passes [fSize]: the buffer's length
    in steps, and one more, is enough (see [bit_seq_match_total]). *)
Definition bit_seq_match (buffer : list Z) (pattern pSize fSize : Z) : res Z :=
  match_from (S (length buffer)) buffer (le_bytes 8 pattern) pSize fSize 0.

(** ** Reading the argument *)

(** The locals of the option loop: [pat] points into the argument of option
    [fst pat], at offset [snd pat]. *)
Record scan := MkScan {
  sc_opts : list copt;
  sc_pat : option (nat * nat);
  sc_size : Z;
  sc_got : bool;
  sc_pattern : Z
}.

Definition pat_buf (os : list copt) (pat : option (nat * nat)) : res (nat * nat * cbuf) :=
  match pat with
  | None => Undef NullDeref
  | Some (i, off) =>
      match os !! i with
      | Some o => match o_flag o with
                  | Some b => Ok (i, off, b)
                  | None => Undef NullDeref
                  end
      | None => Undef OutOfBounds
      end
  end.

Definition store_buf (os : list copt) (i : nat) (b : cbuf) : list copt :=
  match os !! i with
  | Some o => <[i := set_flag o (Some b)]> os
  | None => os
  end.

(** The base the argument's prefix selects, and the offset of the digits handed to
    [strtoll] ([0b] is skipped, [0x] is left for it). *)
Definition pat_base (b : cbuf) (off : nat) : res (Z * nat) :=
  let* x := memcmp2 b off "0"%char "x"%char in
  let* X := memcmp2 b off "0"%char "X"%char in
  if x || X then Ok (16, off) else
  let* y := memcmp2 b off "0"%char "b"%char in
  let* Y := memcmp2 b off "0"%char "B"%char in
  if y || Y then Ok (2, (off + 2)%nat) else Ok (10, off).

(** [ceil(n / d)] on lengths. *)
Definition ceil_div (n d : Z) : Z := (n + d - 1) / d.

(** The end of the loop body: the pattern's size in bytes.  A decimal argument is
    overwritten in place, first in hexadecimal to count digits, then in decimal. *)
Definition pattern_size (os : list copt) (i off : nat) (b : cbuf) (base pattern : Z)
  : res (list copt * nat * Z) :=
  if base =? 16 then
    let off' := (off + 2)%nat in
    Ok (os, off', ceil_div (strlen (drop_str off' (text b))) 2)
  else if base =? 2 then
    Ok (os, off, ceil_div (strlen (drop_str off (text b))) 8)
  else
    let* b1 := cbuf_write b off (fmt_llx pattern) in
    let size := ceil_div (strlen (drop_str off (text b1))) 2 in
    let* b2 := cbuf_write b1 off (fmt_lld pattern) in
    Ok (store_buf os i b2, off, size).

(** One iteration for the option at index [i]; [inl] is the [return -1] on trailing
    characters. *)
Definition scan_option (DEBUG : bool) (i : nat) (s : scan) (p : proc)
  : res ((list copt + scan) * proc) :=
  match sc_opts s !! i with
  | None => Undef OutOfBounds
  | Some o =>
      let pat := if streq (o_name o) OPT_BIT_SEQ
                 then (match o_flag o with Some _ => Some (i, O) | None => None end)
                 else sc_pat s in
      let* (j, off, b) := pat_buf (sc_opts s) pat in
      let* (base, off) := pat_base b off in
      let arg := drop_str off (text b) in
      let r := strtoll arg base in
      let p := if st_erange r then set_errno ERANGE p else p in
      match st_end r with
      | String _ _ =>
          let p := if DEBUG then emit (Err ("DEBUG: " +:+ g_lib_name +:+
                     ": Failed to convert '" +:+ arg +:+ "'" +:+ nl)) p else p in
          Ok (inl (sc_opts s), set_errno EINVAL p)
      | EmptyString =>
          let p := if DEBUG then emit (Err ("DEBUG: " +:+ g_lib_name +:+
                     ": Inputs: bit_seq = " +:+ arg +:+ nl)) p else p in
          let* (os, off, size) := pattern_size (sc_opts s) j off b base (st_value r) in
          Ok (inr (MkScan os (Some (j, off)) size true (st_value r)), p)
      end
  end.

Fixpoint scan_options (DEBUG : bool) (idx : list nat) (s : scan) (p : proc)
  : res ((list copt + scan) * proc) :=
  match idx with
  | [] => Ok (inr s, p)
  | i :: idx =>
      let* (r, p) := scan_option DEBUG i s p in
      match r with
      | inl os => Ok (inl os, p)
      | inr s => scan_options DEBUG idx s p
      end
  end.

Fixpoint debug_options (idx : list nat) (os : list copt) (p : proc) : res proc :=
  match idx with
  | [] => Ok p
  | i :: idx =>
      match os !! i with
      | Some o => debug_options idx os (emit (Err ("DEBUG: " +:+ g_lib_name +:+
          ": Got option '" +:+ o_name o +:+ "' with arg '" +:+ show_ptr (o_flag o) +:+
          "'" +:+ nl)) p)
      | None => Undef OutOfBounds
      end
  end.

(** ** plugin_process_file *)

(** The code at [END]: [errno], the descriptor and the mapping. *)
Definition finish (fd : nat) (map : option nat) (saved_errno ret : Z) (os : list copt)
    (p : proc) : res (Z * list copt * proc) :=
  let p := set_errno saved_errno p in
  let* p := release RFd fd p in
  let* p := release_opt RMap map p in
  Ok (ret, os, p).

(** What follows the option loop. *)
Definition search_file (DEBUG : bool) (f : file) (fd : nat) (s : scan) (p : proc)
  : res (Z * list copt * proc) :=
  if negb (sc_got s) then
    let p := if DEBUG then emit (Err ("DEBUG: " +:+ g_lib_name +:+
               ": Bit sequence value was not supplied." +:+ nl)) p else p in
    Ok (-1, sc_opts s, set_errno EINVAL p)
  else
    match f_mmap_err f with
    | Some e => finish fd None e (-1) (sc_opts s) p
    | None =>
        let '(ptr, p) := acquire RMap p in
        let* ret := bit_seq_match (f_content f) (sc_pattern s) (sc_size s) (st_size f) in
        finish fd (Some ptr) 0 ret (sc_opts s) p
    end.

Definition EFAULT : Z := 14.

Definition plugin_process_file : ppf_func_t := fun k DEBUG fname in_opts in_opts_len p =>
  let os := default [] in_opts in
  match (match fname with Some fn => k_open k fn | None => inr EFAULT end) with
  | inr e => Ok (-1, os, set_errno e p)
  | inl f =>
      let '(fd, p) := acquire RFd p in
      match f_fstat_err f with
      | Some e => finish fd None e (-1) os (set_errno e p)
      | None =>
          if st_size f =? 0 then
            let p := if DEBUG then emit (Err ("DEBUG: " +:+ g_lib_name +:+
                       ": File size should be > 0" +:+ nl)) p else p in
            finish fd None ERANGE (-1) os p
          else
            match fname, in_opts, in_opts_len with
            | Some _, Some os, S _ =>
                let* p := if DEBUG then debug_options (seq 0 in_opts_len) os p else Ok p in
                let* (r, p) := scan_options DEBUG (seq 0 in_opts_len)
                                 (MkScan os None 0 false 0) p in
                match r with
                | inl os => Ok (-1, os, p)
                | inr s => search_file DEBUG f fd s p
                end
            | _, _, _ => Ok (-1, os, set_errno EINVAL p)
            end
      end
  end.

(** ** The search loop *)

Lemma mem_read_ok mem off n :
  0 <= off -> 0 <= n -> off + n <= Z.of_nat (length mem) ->
  mem_read mem off n = Ok (take (Z.to_nat n) (drop (Z.to_nat off) mem)).
Proof.
  intros ???. unfold mem_read.
  rewrite (proj2 (Z.leb_le 0 off)), (proj2 (Z.leb_le 0 n)),
    (proj2 (Z.leb_le (off + n) _)) by lia. done.
Qed.

Lemma match_from_spec fuel buffer pattern pSize fSize pos :
  fSize = Z.of_nat (length buffer) -> fSize < 2 ^ 64 ->
  0 <= pSize <= Z.of_nat (length pattern) ->
  0 <= pos <= fSize -> fSize - pos < Z.of_nat fuel ->
  exists r, match_from fuel buffer pattern pSize fSize pos = Ok r /\ (r = 0 \/ r = 1) /\
    (r = 1 <-> exists q, pos <= q <= fSize - pSize /\
       take (Z.to_nat pSize) (drop (Z.to_nat q) buffer) = take (Z.to_nat pSize) pattern).
Proof.
  intros Hf Hmax Hp. revert pos. induction fuel as [|fuel IH]; intros pos Hpos Hfuel; [lia|].
  cbn [match_from]. rewrite (u64_small (fSize - pos)) by lia.
  destruct (Z.leb_spec pSize (fSize - pos)) as [Hin|Hout].
  - unfold memcmp_eq. rewrite !mem_read_ok by lia. cbn [rbind]. rewrite drop_0.
    case_bool_decide as Heq.
    + exists 1. split; [done|]. split; [by right|]. split; [intros _|done].
      exists pos. split; [lia|done].
    + assert (0 < pSize).
      { destruct (decide (pSize = 0)) as [->|]; [|lia]. by destruct Heq. }
      rewrite u64_small by lia.
      destruct (IH (pos + 1)) as (r & Hr & H01 & Hiff); [lia..|].
      exists r. split; [done|]. split; [done|]. rewrite Hiff.
      split; intros (q & Hq & E); exists q; (split; [|done]); [lia|].
      destruct (decide (q = pos)) as [->|]; [done|lia].
  - exists 0. split; [done|]. split; [by left|]. split; [done|].
    intros (q & Hq & _). lia.
Qed.

(** [bit_seq_match] terminates and stays inside the mapping. *)
Lemma bit_seq_match_total buffer pattern pSize :
  0 <= pSize <= 8 -> Z.of_nat (length buffer) < 2 ^ 64 ->
  exists r, bit_seq_match buffer pattern pSize (Z.of_nat (length buffer)) = Ok r /\
    (r = 0 \/ r = 1) /\
    (r = 1 <-> infix (le_bytes (Z.to_nat pSize) pattern) buffer).
Proof.
  intros Hp Hmax. unfold bit_seq_match.
  destruct (match_from_spec (S (length buffer)) buffer (le_bytes 8 pattern) pSize
    (Z.of_nat (length buffer)) 0) as (r & Hr & H01 & Hiff);
    [done|done|rewrite length_le_bytes; lia|lia|lia|].
  exists r. split; [done|]. split; [done|]. rewrite Hiff, infix_offset, length_le_bytes.
  assert (take (Z.to_nat pSize) (le_bytes 8 pattern) = le_bytes (Z.to_nat pSize) pattern) as ->.
  { unfold le_bytes. rewrite <- fmap_take, take_seq. do 2 f_equal. lia. }
  split; intros (q & Hq & E).
  - exists (Z.to_nat q). split; [lia|done].
  - exists (Z.of_nat q). rewrite Nat2Z.id. split; [lia|done].
Qed.

(** A verdict in terms of its executable reference. *)
Lemma verdict_b2z (r : Z) (w l : list Z) :
  r = 0 \/ r = 1 -> (r = 1 <-> infix w l) -> r = Z.b2z (infixb w l).
Proof.
  intros [-> | ->] Hiff; destruct (infixb w l) eqn:E; try done.
  - apply infixb_spec, Hiff in E. done.
  - assert (infix w l) as H by (by apply Hiff). apply infixb_spec in H. congruence.
Qed.

(** C6. [bit_seq_match] terminates, stays inside the mapping, and for a pattern of at
    most eight bytes equals the reference search: 1 when those bytes of the pattern, least
    significant first, stand somewhere in the buffer, 0 otherwise. *)
Theorem bit_seq_match_correct buffer pattern pSize :
  0 <= pSize <= 8 -> Z.of_nat (length buffer) < 2 ^ 64 ->
  bit_seq_match buffer pattern pSize (Z.of_nat (length buffer)) =
  Ok (Z.b2z (infixb (le_bytes (Z.to_nat pSize) pattern) buffer)).
Proof.
  intros Hp Hmax. destruct (bit_seq_match_total buffer pattern pSize) as (r & -> & H01 & Hiff);
    [done..|]. f_equal. by apply verdict_b2z.
Qed.

Lemma bit_seq_match_correct_witness :
  0 <= 2 <= 8 /\ bit_seq_match [7; 177; 176; 9] 45233 2 4 = Ok 1.
Proof.
  split; [lia|].
  apply (bit_seq_match_correct [7; 177; 176; 9] 45233 2); [lia|reflexivity].
Defined.

(** ** One option, read *)

(** The three spellings of a number that the plugin accepts. *)
Inductive notation := Bin | Dec | Hex.

Definition literal (nt : notation) (n : Z) : string :=
  match nt with
  | Bin => "0b" +:+ utoa 2 n
  | Dec => utoa 10 n
  | Hex => "0x" +:+ utoa 16 n
  end.

(** The bytes of [n] that are searched for. *)
Definition nbytes (n : Z) : Z := ceil_div (strlen (utoa 16 n)) 2.

Lemma nbytes_range n : 0 <= n <= LLONG_MAX -> 0 <= nbytes n <= 8.
Proof.
  unfold LLONG_MAX. intros Hn. unfold nbytes, ceil_div.
  pose proof (utoa_length_le 16 n 16 ltac:(lia) ltac:(lia) ltac:(lia)).
  pose proof (strlen_nonneg (utoa 16 n)). Z.div_mod_to_equations. lia.
Qed.

Lemma memcmp2_strdup c s x y :
  memcmp2 (strdup (String c s)) 0 x y =
  Ok (match s with String d _ => Ascii.eqb c x && Ascii.eqb d y | EmptyString => false end).
Proof.
  unfold memcmp2, strdup. cbn [cap text drop_str]. rewrite strlen_cons.
  pose proof (strlen_nonneg s). rewrite (proj2 (Z.leb_le _ _)) by lia. by destruct s.
Qed.

Lemma pat_base_literal nt n :
  0 <= n ->
  pat_base (strdup (literal nt n)) 0 =
  Ok (match nt with Bin => (2, 2%nat) | Dec => (10, O) | Hex => (16, O) end).
Proof.
  intros Hn. unfold pat_base. destruct nt; cbn [literal].
  - rewrite !append_cons, append_nil_l, !memcmp2_strdup. done.
  - destruct (utoa_shape 10 n ltac:(lia)) as (d & s & _ & E). rewrite E, !memcmp2_strdup.
    destruct s as [|c s]; [done|]. apply utoa_second in E; [|lia..].
    assert (forall y, is_digit 10 y = false -> Ascii.eqb c y = false) as Hc.
    { intros y Hy. apply Ascii.eqb_neq. by intros ->; rewrite Hy in E. }
    rewrite (Hc "x"%char), (Hc "X"%char), (Hc "b"%char), (Hc "B"%char) by done.
    by rewrite !andb_false_r.
  - rewrite !append_cons, append_nil_l, !memcmp2_strdup. done.
Qed.

Lemma cbuf_write_whole b s t :
  strlen t <= strlen s -> cap b = strlen s + 1 ->
  cbuf_write b 0 t = Ok (MkCbuf t (strlen s + 1)).
Proof.
  intros Hl Hc. unfold cbuf_write. rewrite Hc, (proj2 (Z.leb_le _ _)) by lia. done.
Qed.

Lemma store_buf_same o b : o_flag o = Some b -> store_buf [o] 0 b = [o].
Proof. destruct o; simpl. by intros ->. Qed.

(** Reading one [--bit-seq] literal: the base, the value, the size in bytes; the
    option array is as it was, the decimal text included. *)
Lemma scan_option_literal nt n o p :
  0 <= n <= LLONG_MAX -> o_name o = OPT_BIT_SEQ ->
  o_flag o = Some (strdup (literal nt n)) ->
  exists pat, scan_option false 0 (MkScan [o] None 0 false 0) p =
    Ok (inr (MkScan [o] (Some pat) (nbytes n) true n), p).
Proof.
  intros Hn Hname Hflag. unfold scan_option. cbn [sc_opts lookup list_lookup].
  rewrite Hname. change (streq OPT_BIT_SEQ OPT_BIT_SEQ) with true. cbv iota.
  rewrite Hflag. cbn [pat_buf lookup list_lookup]. rewrite Hflag. cbn [rbind].
  rewrite pat_base_literal by lia. cbn [rbind].
  destruct nt; cbn [text strdup literal].
  - change (drop_str 2 ("0b" +:+ utoa 2 n)) with (utoa 2 n).
    rewrite (strtoll_utoa 2 n false) by (unfold LLONG_MIN; lia).
    eexists. cbn [st_erange st_end st_value]. unfold pattern_size.
    change (2 =? 16) with false. change (2 =? 2) with true. cbv iota. cbn [rbind].
    repeat f_equal. cbn [text]. change (drop_str 2 ("0b" +:+ utoa 2 n)) with (utoa 2 n).
    unfold nbytes, ceil_div. pose proof (digits_bits_hex n ltac:(lia)) as E.
    by rewrite <- !Z.add_sub_assoc.
  - cbn [drop_str]. rewrite (strtoll_utoa 10 n false) by (unfold LLONG_MIN; lia).
    eexists. cbn [st_erange st_end st_value]. unfold pattern_size.
    change (10 =? 16) with false. change (10 =? 2) with false. cbv iota.
    pose proof (length_fmt_llx_nonneg n ltac:(lia)) as Hx.
    assert (fmt_lld n = utoa 10 n) as Hd.
    { unfold fmt_lld. by rewrite (proj2 (Z.ltb_ge n 0)) by lia. }
    rewrite Hd in *.
    rewrite (cbuf_write_whole _ (utoa 10 n)) by done. cbn [rbind].
    rewrite (cbuf_write_whole _ (utoa 10 n)) by done. cbn [rbind].
    rewrite store_buf_same by (by rewrite Hflag). repeat f_equal.
    unfold nbytes, fmt_llx. rewrite u64_small by (unfold LLONG_MAX in *; lia). done.
  - cbn [drop_str]. rewrite strtoll_hex by lia.
    rewrite Z.min_l, (proj2 (Z.ltb_ge LLONG_MAX n)) by lia.
    eexists. cbn [st_erange st_end st_value]. unfold pattern_size.
    change (16 =? 16) with true. cbv iota. cbn [rbind]. done.
Qed.

(** ** The whole call *)

(** Giving back the mapping and the descriptor leaves what [p] held. *)
Lemma finish_mapped p q e r os :
  proc_wf p -> live q = <[S (next_id p) := RMap]> (<[next_id p := RFd]> (live p)) ->
  (next_id p <= next_id q)%nat ->
  exists p', finish (next_id p) (Some (S (next_id p))) e r os q = Ok (r, os, p') /\
    live p' = live p /\ (next_id p <= next_id p')%nat /\ log p' = log q /\ errno p' = e.
Proof.
  intros Hwf Hq Hid. unfold finish.
  destruct (release_two RFd RMap p (set_errno e q)) as (q1 & q2 & -> & E2 & ?);
    [done..|].
  cbn [rbind release_opt]. rewrite E2. cbn [rbind]. by eexists.
Qed.

Lemma finish_unmapped p q e r os :
  proc_wf p -> live q = <[next_id p := RFd]> (live p) -> (next_id p <= next_id q)%nat ->
  exists p', finish (next_id p) None e r os q = Ok (r, os, p') /\
    live p' = live p /\ (next_id p <= next_id p')%nat /\ log p' = log q /\ errno p' = e.
Proof.
  intros Hwf Hq Hid. unfold finish.
  destruct (release_one RFd p (set_errno e q)) as (q1 & -> & ?); [done..|].
  cbn [rbind release_opt]. by eexists.
Qed.

Lemma search_file_spec bytes s p q :
  proc_wf p -> live q = <[next_id p := RFd]> (live p) -> next_id q = S (next_id p) ->
  sc_got s = true -> 0 <= sc_size s <= 8 -> Z.of_nat (length bytes) < 2 ^ 64 ->
  exists r p', search_file false (regular bytes) (next_id p) s q = Ok (r, sc_opts s, p') /\
    (r = 0 \/ r = 1) /\
    (r = 1 <-> infix (le_bytes (Z.to_nat (sc_size s)) (sc_pattern s)) bytes) /\
    live p' = live p /\ (next_id p <= next_id p')%nat /\ log p' = log q /\ errno p' = 0.
Proof.
  intros Hwf Hlive Hnext Hgot Hsize Hmax. unfold search_file. rewrite Hgot.
  cbn [negb f_mmap_err regular f_content st_size acquire].
  destruct (bit_seq_match_total bytes (sc_pattern s) (sc_size s)) as (r & Hr & H01 & Hiff);
    [done..|].
  change (st_size (regular bytes)) with (Z.of_nat (length bytes)). rewrite Hr.
  cbn [rbind]. rewrite Hnext.
  destruct (finish_mapped p (MkProc (errno q) (<[S (next_id p):=RMap]> (live q)) (S (S (next_id p))) (log q)) 0 r (sc_opts s))
    as (p' & Hf & ?); [done|cbn; by rewrite Hlive|cbn; lia|].
  exists r, p'. by rewrite Hf.
Qed.

Lemma st_size_regular bytes : bytes <> [] -> (st_size (regular bytes) =? 0) = false.
Proof.
  intros ?. apply Z.eqb_neq. destruct bytes; [done|].
  unfold st_size, regular. cbn [f_content length]. lia.
Qed.

(** What [plugin_process_file] is to do with a [--bit-seq] literal: report whether the
    bytes of the number, least significant first, stand in the file. *)
Definition bit_seq_opt (nt : notation) (n : Z) : copt :=
  MkOpt OPT_BIT_SEQ required_argument (Some (strdup (literal nt n))) 0.

(** The verdict of [plugin_process_file] on a literal. *)
Definition literal_in (n : Z) (bytes : list Z) : bool :=
  infixb (le_bytes (Z.to_nat (nbytes n)) n) bytes.

Lemma process_literal_call k fn bytes nt n p :
  k_open k fn = inl (regular bytes) -> bytes <> [] -> Z.of_nat (length bytes) < 2 ^ 64 ->
  0 <= n <= LLONG_MAX -> proc_wf p ->
  exists p',
    plugin_process_file k false (Some fn) (Some [bit_seq_opt nt n]) 1%nat p =
      Ok (Z.b2z (literal_in n bytes), [bit_seq_opt nt n], p') /\
    quiet p p' /\ errno p' = 0.
Proof.
  intros Hk Hne Hmax Hn Hwf. unfold plugin_process_file. rewrite Hk.
  change (f_fstat_err (regular bytes)) with (@None Z). cbn [acquire].
  rewrite st_size_regular by done.
  cbn [rbind seq scan_options].
  destruct (scan_option_literal nt n (bit_seq_opt nt n)
    (MkProc (errno p) (<[next_id p := RFd]> (live p)) (S (next_id p)) (log p)))
    as (pat & ->); [done..|]. cbn [rbind].
  destruct (search_file_spec bytes (MkScan [bit_seq_opt nt n] (Some pat) (nbytes n) true n) p
    (MkProc (errno p) (<[next_id p := RFd]> (live p)) (S (next_id p)) (log p)))
    as (r & p' & Hs & H01 & Hiff & Hl & Hid & Hlog & He);
    [done..|by apply nbytes_range|done|].
  exists p'. rewrite Hs. unfold literal_in. rewrite <- (verdict_b2z r) by done. by repeat split.
Qed.

(** The answer that plugin_api.h (72-75) and the README document: 0 for a file that meets the
    criterion and, in the README, 1 for one that does not.  The file meets it when it contains
    the bytes of the number. *)
Definition documented (meets : Prop) (r : Z) : Prop := (meets /\ r = 0) \/ (~ meets /\ r = 1).

(** C5. For a number written in binary, decimal or hexadecimal, and a readable,
    non-empty file, [plugin_process_file] decides whether the bytes of the number (least
    significant first, as many as its digits need) stand in the file, whatever the notation, and
    answers the reverse of what the interface and the README document: 1 where they say 0 (the
    file contains the bytes) and 0 where they say 1.  The program that calls it counts 1 as a
    match, so the two agree with each other and not with the documentation.  The call gives back
    its descriptor and its mapping and leaves the option array as it was. *)
Theorem process_literal k fn bytes nt n p :
  k_open k fn = inl (regular bytes) -> bytes <> [] -> Z.of_nat (length bytes) < 2 ^ 64 ->
  0 <= n <= LLONG_MAX -> proc_wf p ->
  exists r p',
    plugin_process_file k false (Some fn) (Some [bit_seq_opt nt n]) 1%nat p =
      Ok (r, [bit_seq_opt nt n], p') /\
    (r = 0 \/ r = 1) /\ (r = 1 <-> infix (le_bytes (Z.to_nat (nbytes n)) n) bytes) /\
    documented (infix (le_bytes (Z.to_nat (nbytes n)) n) bytes) (1 - r) /\
    quiet p p' /\ errno p' = 0.
Proof.
  intros Hk Hne Hmax Hn Hwf.
  destruct (process_literal_call k fn bytes nt n p) as (p' & Hc & Hq & He); [done..|].
  eexists _, p'. split; [exact Hc|]. unfold documented. rewrite <- infixb_spec. unfold literal_in.
  destruct (infixb _ _); cbn;
    (split; [auto|split; [by split|split; [by (left + right)|done]]]).
Qed.

Definition one_file (name : string) (bytes : list Z) : kernel :=
  MkKernel (fun s => if String.eqb s name then inl (regular bytes) else inr ENOENT)
           (fun _ => inr ENOENT).

Lemma process_literal_witness :
  plugin_process_file (one_file "a" [209; 176; 208]) false (Some "a"%string)
    (Some [bit_seq_opt Hex 45265]) 1%nat proc0 =
    Ok (1, [bit_seq_opt Hex 45265], MkProc 0 ∅ 2 []) /\
  exists r p',
    plugin_process_file (one_file "a" [209; 176; 208]) false (Some "a"%string)
      (Some [bit_seq_opt Hex 45265]) 1%nat proc0 = Ok (r, [bit_seq_opt Hex 45265], p') /\
    (r = 0 \/ r = 1) /\
    (r = 1 <-> infix (le_bytes (Z.to_nat (nbytes 45265)) 45265) [209; 176; 208]) /\
    documented (infix (le_bytes (Z.to_nat (nbytes 45265)) 45265) [209; 176; 208]) (1 - r) /\
    quiet proc0 p' /\ errno p' = 0.
Proof.
  split; [vm_compute; reflexivity|].
  apply (process_literal (one_file "a" [209; 176; 208]) "a" [209; 176; 208] Hex 45265 proc0).
  - reflexivity.
  - discriminate.
  - vm_compute. reflexivity.
  - unfold LLONG_MAX. lia.
  - intros id _. reflexivity.
Defined.

(** ** The contract of the interface *)

Lemma pat_buf_lookup os pat i off b :
  pat_buf os pat = Ok (i, off, b) -> exists o, os !! i = Some o /\ o_flag o = Some b.
Proof.
  unfold pat_buf. destruct pat as [[j off']|]; [|done].
  destruct (os !! j) as [o|] eqn:Ho; [|done].
  destruct (o_flag o) eqn:Hf; [|done]. intros [= <- <- <-]. eauto.
Qed.

Lemma cbuf_write_cap b off t b' : cbuf_write b off t = Ok b' -> cap b' = cap b.
Proof. unfold cbuf_write. case_match; [|done]. by intros [= <-]. Qed.

Lemma store_buf_shape os i o b b' :
  os !! i = Some o -> o_flag o = Some b -> cap b' = cap b ->
  same_shape os (store_buf os i b').
Proof.
  intros Hi Hb Hc. unfold store_buf. rewrite Hi. by eapply same_shape_set_flag.
Qed.

Lemma scan_option_frame d i s p r p' :
  scan_option d i s p = Ok (r, p') ->
  printed p p' /\ same_shape (sc_opts s) (match r with inl os => os | inr s' => sc_opts s' end).
Proof.
  unfold scan_option. destruct (sc_opts s !! i) as [o|]; [|done]. intros H. inv_bind.
  destruct a as [[j off] b]. inv_bind. destruct a as [base off']. apply pat_buf_lookup in E as (o' & Ho' & Hf').
  destruct (st_end (strtoll (drop_str off' (text b)) base)).
  - inv_bind. destruct a as [[os off''] size]. inv_bind. simplify_eq. split.
    + etrans; [apply printed_when_errno|apply printed_when_emit].
    + cbn [sc_opts]. unfold pattern_size in E. repeat case_match; inv_bind; simplify_eq; try done.
      eapply store_buf_shape; [done|done|].
      by erewrite cbuf_write_cap, cbuf_write_cap by done.
  - inv_bind. simplify_eq. split; [|done].
    etrans; [apply printed_when_errno|]. etrans; [apply printed_when_emit|].
    apply printed_set_errno.
Qed.

Lemma scan_options_frame d idx s p r p' :
  scan_options d idx s p = Ok (r, p') ->
  printed p p' /\ same_shape (sc_opts s) (match r with inl os => os | inr s' => sc_opts s' end).
Proof.
  revert s p. induction idx as [|i idx IH]; intros s p; cbn [scan_options].
  - by intros [= <- <-].
  - intros H. inv_bind. destruct a as [[os|s1] p1]; apply scan_option_frame in E as [Hp Hs].
    + by inv_bind; simplify_eq.
    + apply IH in H as [Hp1 Hs1]. split; by etrans.
Qed.

Lemma debug_options_printed idx os p p' : debug_options idx os p = Ok p' -> printed p p'.
Proof.
  revert p. induction idx as [|i idx IH]; intros p; cbn [debug_options].
  - by intros [= <-].
  - destruct (os !! i); [|done]. intros H. apply IH in H. by etrans; [apply printed_emit|].
Qed.

Lemma finish_ret fd map e r os p r' os' p' :
  finish fd map e r os p = Ok (r', os', p') -> r' = r /\ os' = os.
Proof. unfold finish. intros H. inv_bind. by simplify_eq. Qed.

Lemma search_file_frame d f fd s p r os p' :
  search_file d f fd s p = Ok (r, os, p') -> os = sc_opts s.
Proof.
  unfold search_file, acquire. repeat case_match; intros H'; inv_bind; simplify_eq; try done.
  - by apply finish_ret in H' as [_ ->].
  - by apply finish_ret in H' as [_ ->].
Qed.

Lemma search_file_keeps d f s p q r os p' :
  search_file d f (next_id p) s q = Ok (r, os, p') -> 0 <= r ->
  proc_wf p -> printed (snd (acquire RFd p)) q -> keeps p p'.
Proof.
  unfold search_file. intros H Hr Hwf (Hl & Hn & Hlog).
  destruct (negb (sc_got s)); [inv_bind; simplify_eq; lia|].
  destruct (f_mmap_err f); [apply finish_ret in H; lia|].
  cbn [acquire] in *. inv_bind. pose proof (finish_ret _ _ _ _ _ _ _ _ _ H) as [-> ->].
  cbn in Hn. rewrite Hn in H.
  destruct (finish_mapped p (MkProc (errno q) (<[S (next_id p):=RMap]> (live q))
    (S (S (next_id p))) (log q)) 0 a (sc_opts s)) as (p2 & Hf & Hl2 & Hid & Hlog2 & _);
    [done|cbn; by rewrite Hl|cbn; lia|].
  rewrite Hf in H. simplify_eq. repeat split; [done|done|]. by rewrite Hlog2.
Qed.

Lemma process_inv k d fname in_opts n p r os' p' :
  plugin_process_file k d fname in_opts n p = Ok (r, os', p') ->
  (r = -1 /\ os' = default [] in_opts) \/
  exists f os q, in_opts = Some os /\ printed (snd (acquire RFd p)) q /\
    ((r = -1 /\ same_shape os os') \/
     exists s, same_shape os (sc_opts s) /\
       search_file d f (next_id p) s q = Ok (r, os', p')).
Proof.
  unfold plugin_process_file.
  destruct (match fname with Some fn => k_open k fn | None => inr EFAULT end) as [f|e];
    [|intros [= <- <- <-]; by left].
  cbn [acquire]. destruct (f_fstat_err f).
  { intros H. apply finish_ret in H as [-> ->]. by left. }
  destruct (st_size f =? 0).
  { intros H. apply finish_ret in H as [-> ->]. by left. }
  destruct fname as [fn|]; [|intros [= <- <- <-]; by left].
  destruct in_opts as [os|]; [|intros [= <- <- <-]; by left].
  destruct n as [|n]; [intros [= <- <- <-]; by left|].
  intros H. inv_bind. destruct a0 as [[os1|s] q]; apply scan_options_frame in E0 as [Hp Hs].
  all: assert (printed (snd (acquire RFd p)) q) by
    (etrans; [|exact Hp]; destruct d; [by apply debug_options_printed in E|by simplify_eq]).
  - inv_bind. simplify_eq. right. exists f, os, p'. split; [done|]. split; [done|]. by left.
  - right. exists f, os, q. split; [done|]. split; [done|]. right. exists s. by split.
Qed.

(** The library keeps the contract of the interface. *)
#[export] Instance plugin_laws : PluginLaws plugin_process_file.
Proof.
  split.
  - intros k d fn os n p ret os' p' H Hwf Hret.
    apply process_inv in H as [[-> _]|(f & os1 & q & _ & Hq & [[-> _]|(s & _ & Hs)])]; [lia..|].
    by eapply search_file_keeps.
  - intros k d fn os n p ret os' p' H.
    apply process_inv in H as [[_ ->]|(f & os1 & q & [= <-] & _ & [[_ ?]|(s & Hs & Hf)])];
      [done|done|].
    by apply search_file_frame in Hf as ->.
Qed.

Lemma match_from_nonneg fuel buffer pattern pSize fSize pos r :
  match_from fuel buffer pattern pSize fSize pos = Ok r -> 0 <= r.
Proof.
  revert pos. induction fuel as [|fuel IH]; intros pos; cbn [match_from]; [done|].
  case_match; [|by intros [= <-]]. intros H'. inv_bind. case_match; [simplify_eq; lia|by eapply IH].
Qed.

(** What an error leaves behind: nothing, or the descriptor of the file. *)
Definition leaves_fd (fn : string) (X : list (nat * rkind)) : Prop :=
  X = [] \/ exists fd, X = [(fd, RFd)].

(** What holds after a call that reported an error. *)
Definition spilt (p p' : proc) : Prop :=
  proc_wf p' /\ (next_id p <= next_id p')%nat /\ exists X, leaves_fd EmptyString X /\ holds (live p) X p'.

Lemma spilt_keeps p p' : proc_wf p -> keeps p p' -> spilt p p'.
Proof.
  intros Hwf Hk. split; [by eapply proc_wf_keeps|]. split; [apply Hk|]. exists []. split; [by left|].
  apply (holds_live _ _ p); [symmetry; apply Hk|apply holds_nil].
Qed.

Lemma spilt_fd p p' : proc_wf p -> printed (snd (acquire RFd p)) p' -> spilt p p'.
Proof.
  intros Hwf (Hl & Hn & _). pose proof (proc_wf_acquire RFd _ Hwf) as Hwf1.
  split; [intros id Hid; rewrite Hl; apply Hwf1; lia|]. split; [cbn in Hn; lia|].
  exists [(next_id p, RFd)]. split; [by right; eexists|].
  apply (holds_live _ _ (snd (acquire RFd p))); [done|]. by apply (holds_acquire _ _ RFd _ Hwf), holds_nil.
Qed.

Lemma spilt_finish p q e r os r' os' p' :
  proc_wf p -> printed (snd (acquire RFd p)) q -> finish (next_id p) None e r os q = Ok (r', os', p') ->
  spilt p p'.
Proof.
  intros Hwf (Hl & Hn & Hlog) H.
  destruct (finish_unmapped p q e r os) as (p2 & E & Hl2 & Hid & Hlog2 & _); [done|done|cbn in Hn; lia|].
  rewrite E in H. simplify_eq. apply spilt_keeps; [done|]. repeat split; [done|lia|by rewrite Hlog2].
Qed.

Lemma spilt_process k d fname in_opts n p r os' p' :
  plugin_process_file k d fname in_opts n p = Ok (r, os', p') -> proc_wf p -> r < 0 -> spilt p p'.
Proof.
  unfold plugin_process_file. intros H Hwf Hr.
  destruct (match fname with Some fn => k_open k fn | None => inr EFAULT end) as [f|e];
    [|simplify_eq; apply spilt_keeps; auto with cdb].
  cbn [acquire] in H. pose proof (spilt_fd p) as Hfd. cbn [acquire snd] in Hfd.
  set (p1 := MkProc _ _ _ _) in *.
  assert (forall e r os q r' os' p', printed p1 q -> finish (next_id p) None e r os q = Ok (r', os', p') ->
    spilt p p') as Hfin by (intros; by eapply spilt_finish).
  destruct (f_fstat_err f); [by eapply Hfin; [|exact H]; apply printed_set_errno|].
  destruct (st_size f =? 0); [by eapply Hfin; [|exact H]; apply printed_when_emit|].
  assert (forall os, Ok (-1, os, set_errno EINVAL p1) = Ok (r, os', p') -> spilt p p') as Hbad.
  { intros os [= _ _ <-]. by apply Hfd, printed_set_errno. }
  destruct fname as [fn|]; [|by apply Hbad in H]. destruct in_opts as [os|]; [|by apply Hbad in H].
  destruct n as [|n]; [by apply Hbad in H|]. clear Hbad.
  inv_bind. destruct a0 as [sr q]. apply scan_options_frame in E0 as [Hq _].
  assert (printed p1 q) as Hpq.
  { etrans; [|exact Hq]. destruct d; [by apply debug_options_printed in E|by simplify_eq]. }
  destruct sr as [os1|s]; [simplify_eq; by apply Hfd|]. unfold search_file in H.
  destruct (negb (sc_got s)).
  { simplify_eq. apply Hfd; [done|]. etrans; [exact Hpq|].
    etrans; [apply printed_when_emit|apply printed_set_errno]. }
  destruct (f_mmap_err f); [by eapply Hfin|]. cbn [acquire] in H. inv_bind.
  apply finish_ret in H as [-> _].
  unfold bit_seq_match in E0. enough (0 <= a0) by lia. by eapply match_from_nonneg.
Qed.

Lemma process_spills_fd k : spills leaves_fd k plugin_process_file.
Proof. intros d fn os n p ret os' p' H Hwf Hr. by eapply spilt_process. Qed.

(** ** Where the code departs from its description *)

(** The call up to the option loop, on a readable non-empty file and one option. *)
Lemma process_one_option k fn bytes o p :
  k_open k fn = inl (regular bytes) -> bytes <> [] ->
  plugin_process_file k false (Some fn) (Some [o]) 1%nat p =
  (let* (r, q) := scan_option false 0 (MkScan [o] None 0 false 0) (snd (acquire RFd p)) in
   match r with
   | inl os => Ok (-1, os, q)
   | inr s => search_file false (regular bytes) (next_id p) s q
   end).
Proof.
  intros Hk Hne. unfold plugin_process_file. rewrite Hk. cbn [acquire].
  change (f_fstat_err (regular bytes)) with (@None Z). cbv iota.
  rewrite st_size_regular by done. cbn [rbind seq scan_options snd].
  by destruct (scan_option _ _ _ _) as [[[os|s] q]| |].
Qed.

(** Reading a hexadecimal number of any length. *)
Lemma scan_option_hex n o p :
  0 <= n -> o_name o = OPT_BIT_SEQ ->
  o_flag o = Some (strdup ("0x" +:+ utoa 16 n)) ->
  exists pat q, scan_option false 0 (MkScan [o] None 0 false 0) p =
    Ok (inr (MkScan [o] (Some pat) (nbytes n) true (Z.min n LLONG_MAX)), q) /\
    live q = live p /\ next_id q = next_id p /\ log q = log p.
Proof.
  intros Hn Hname Hflag. unfold scan_option. cbn [sc_opts lookup list_lookup].
  rewrite Hname. change (streq OPT_BIT_SEQ OPT_BIT_SEQ) with true. cbv iota.
  rewrite Hflag. cbn [pat_buf lookup list_lookup]. rewrite Hflag. cbn [rbind].
  pose proof (pat_base_literal Hex n ltac:(lia)) as Hbase. cbn [literal] in Hbase.
  rewrite Hbase. cbn [rbind drop_str text strdup].
  rewrite strtoll_hex by lia.
  eexists _, _. cbn [st_erange st_end st_value]. unfold pattern_size.
  change (16 =? 16) with true. cbv iota. cbn [rbind]. split; [done|]. by case_match.
Qed.

(** A hexadecimal argument of 16 digits whose top bit is set is not searched for:
    [strtoll] saturates, the code does not look at [errno], and the verdict is about
    the bytes of [LLONG_MAX]. *)
Theorem process_hex_saturates k fn bytes n p :
  k_open k fn = inl (regular bytes) -> bytes <> [] -> Z.of_nat (length bytes) < 2 ^ 64 ->
  LLONG_MAX < n < 2 ^ 64 -> proc_wf p ->
  exists r p',
    plugin_process_file k false (Some fn) (Some [bit_seq_opt Hex n]) 1%nat p =
      Ok (r, [bit_seq_opt Hex n], p') /\
    (r = 1 <-> infix [255; 255; 255; 255; 255; 255; 255; 127] bytes).
Proof.
  intros Hk Hne Hmax Hn Hwf. rewrite (process_one_option _ _ bytes) by done.
  destruct (scan_option_hex n (bit_seq_opt Hex n) (snd (acquire RFd p)))
    as (pat & q & -> & Hl & Hid & Hlog); [unfold LLONG_MAX in *; lia|done..|].
  cbn [rbind]. assert (nbytes n = 8) as Hb.
  { unfold nbytes, ceil_div. unfold LLONG_MAX in Hn.
    pose proof (utoa_length_le 16 n 16 ltac:(lia) ltac:(lia) ltac:(lia)).
    destruct (utoa_length 16 n) as (j & Hj & Hj1 & Hup & _); [lia..|].
    destruct (Z.le_gt_cases j 15).
    - pose proof (Z.pow_le_mono_r 16 j 15). lia.
    - rewrite Hj in *. assert (j = 16) as -> by lia. done. }
  destruct (search_file_spec bytes
    (MkScan [bit_seq_opt Hex n] (Some pat) (nbytes n) true (Z.min n LLONG_MAX)) p q)
    as (r & p' & Hs & _ & Hiff & _); [done..|cbn; lia|done|].
  exists r, p'. rewrite Hs. split; [done|]. rewrite Hiff. cbn [sc_size sc_pattern].
  rewrite Hb, Z.min_r by lia. done.
Qed.

Lemma process_hex_saturates_witness :
  LLONG_MAX < 2 ^ 63 < 2 ^ 64 /\ exists r p',
    plugin_process_file (one_file "a" [0; 0; 0; 0; 0; 0; 0; 128]) false (Some "a"%string)
      (Some [bit_seq_opt Hex (2 ^ 63)]) 1%nat proc0 = Ok (r, [bit_seq_opt Hex (2 ^ 63)], p') /\
    (r = 1 <-> infix [255; 255; 255; 255; 255; 255; 255; 127] [0; 0; 0; 0; 0; 0; 0; 128]).
Proof.
  split; [unfold LLONG_MAX; lia|].
  apply (process_hex_saturates (one_file "a" [0; 0; 0; 0; 0; 0; 0; 128]) "a"
    [0; 0; 0; 0; 0; 0; 0; 128] (2 ^ 63) proc0).
  - reflexivity.
  - discriminate.
  - vm_compute. reflexivity.
  - unfold LLONG_MAX. lia.
  - intros id _. reflexivity.
Defined.

(** A longer hexadecimal argument makes the comparison read past the 8-byte
    [pattern] as soon as the file is as long as the argument asks: undefined. *)
Theorem process_hex_overrun k fn bytes n p :
  k_open k fn = inl (regular bytes) -> 2 ^ 64 <= n ->
  nbytes n <= Z.of_nat (length bytes) < 2 ^ 64 ->
  plugin_process_file k false (Some fn) (Some [bit_seq_opt Hex n]) 1%nat p =
    Undef OutOfBounds.
Proof.
  intros Hk Hn Hlen.
  assert (8 < nbytes n) as Hb.
  { unfold nbytes, ceil_div. destruct (utoa_length 16 n) as (j & -> & Hj1 & Hup & _); [lia..|].
    destruct (Z.le_gt_cases j 16).
    - pose proof (Z.pow_le_mono_r 16 j 16). lia.
    - Z.div_mod_to_equations. lia. }
  assert (bytes <> []) by (intros ->; cbn in Hlen; lia).
  rewrite (process_one_option _ _ bytes) by done.
  destruct (scan_option_hex n (bit_seq_opt Hex n) (snd (acquire RFd p)))
    as (pat & q & -> & _); [lia|done..|].
  cbn [rbind]. unfold search_file. cbn [sc_got negb f_mmap_err regular acquire sc_pattern sc_size].
  unfold bit_seq_match. change (f_content (regular bytes)) with bytes.
  change (st_size (regular bytes)) with (Z.of_nat (length bytes)). cbn [match_from].
  rewrite Z.sub_0_r, u64_small by lia. rewrite (proj2 (Z.leb_le (nbytes n) _)) by lia.
  unfold memcmp_eq. rewrite (mem_read_ok bytes) by lia. cbn [rbind].
  unfold mem_read at 1. rewrite length_le_bytes.
  rewrite (proj2 (Z.leb_gt (0 + nbytes n) _)) by lia. by rewrite andb_false_r.
Qed.

Lemma process_hex_overrun_witness :
  plugin_process_file (one_file "a" (repeat 0 9)) false (Some "a"%string)
    (Some [bit_seq_opt Hex (2 ^ 64)]) 1%nat proc0 = Undef OutOfBounds.
Proof.
  apply (process_hex_overrun (one_file "a" (repeat 0 9)) "a" (repeat 0 9) (2 ^ 64) proc0).
  - reflexivity.
  - lia.
  - vm_compute. split; [discriminate|reflexivity].
Defined.

(** A negative decimal argument shorter than 16 characters is written over the end
    of its block: [sprintf] with [%llx] needs 17 bytes. *)
Theorem process_negative_overflow k fn bytes z p :
  k_open k fn = inl (regular bytes) -> bytes <> [] ->
  LLONG_MIN <= z < 0 -> strlen (fmt_lld z) < 16 ->
  plugin_process_file k false (Some fn)
    (Some [MkOpt OPT_BIT_SEQ required_argument (Some (strdup (fmt_lld z))) 0]) 1%nat p =
    Undef OutOfBounds.
Proof.
  intros Hk Hne Hz Hlen. rewrite (process_one_option _ _ bytes) by done.
  unfold scan_option. cbn [sc_opts lookup list_lookup o_name o_flag].
  change (streq OPT_BIT_SEQ OPT_BIT_SEQ) with true. cbv iota.
  cbn [pat_buf lookup list_lookup o_flag rbind].
  assert (fmt_lld z = String (chr 45) (utoa 10 (- z))) as Hd.
  { unfold fmt_lld. by rewrite (proj2 (Z.ltb_lt z 0)) by lia. }
  assert (pat_base (strdup (fmt_lld z)) 0 = Ok (10, O)) as ->.
  { unfold pat_base. rewrite Hd, !memcmp2_strdup.
    destruct (utoa_shape 10 (- z) ltac:(lia)) as (d & s & _ & ->). done. }
  cbn [rbind drop_str text strdup].
  rewrite strtoll_fmt_lld by (unfold LLONG_MAX; lia). cbn [st_erange st_end st_value].
  unfold pattern_size. change (10 =? 16) with false. change (10 =? 2) with false. cbv iota.
  unfold cbuf_write at 1. rewrite length_fmt_llx_neg by done.
  change (cap (strdup (fmt_lld z))) with (strlen (fmt_lld z) + 1).
  by rewrite (proj2 (Z.leb_gt _ _)) by lia.
Qed.

Lemma process_negative_overflow_witness :
  strlen (fmt_lld (-1)) < 16 /\
  plugin_process_file (one_file "a" [255]) false (Some "a"%string)
    (Some [MkOpt OPT_BIT_SEQ required_argument (Some (strdup (fmt_lld (-1)))) 0]) 1%nat proc0 =
    Undef OutOfBounds.
Proof.
  split; [vm_compute; reflexivity|].
  apply (process_negative_overflow (one_file "a" [255]) "a" [255] (-1) proc0).
  - reflexivity.
  - discriminate.
  - unfold LLONG_MIN. lia.
  - vm_compute. reflexivity.
Defined.

(** An argument with trailing characters is refused with [EINVAL], and the file's
    descriptor stays open. *)
Theorem process_bad_argument_leaks k fn bytes o b base off p :
  k_open k fn = inl (regular bytes) -> bytes <> [] ->
  o_name o = OPT_BIT_SEQ -> o_flag o = Some b -> pat_base b 0 = Ok (base, off) ->
  st_end (strtoll (drop_str off (text b)) base) <> EmptyString ->
  exists p', plugin_process_file k false (Some fn) (Some [o]) 1%nat p = Ok (-1, [o], p') /\
    errno p' = EINVAL /\ live p' = <[next_id p := RFd]> (live p).
Proof.
  intros Hk Hne Hname Hflag Hbase Hend. rewrite (process_one_option _ _ bytes) by done.
  unfold scan_option. cbn [sc_opts lookup list_lookup].
  rewrite Hname. change (streq OPT_BIT_SEQ OPT_BIT_SEQ) with true. cbv iota.
  rewrite Hflag. cbn [pat_buf lookup list_lookup]. rewrite Hflag. cbn [rbind].
  rewrite Hbase. cbn [rbind].
  destruct (st_end (strtoll (drop_str off (text b)) base)) eqn:E; [done|]. cbn [rbind].
  eexists. split; [done|]. split; [done|]. cbn. by case_match.
Qed.

Lemma process_bad_argument_leaks_witness :
  exists p', plugin_process_file (one_file "a" [1]) false (Some "a"%string)
    (Some [MkOpt OPT_BIT_SEQ required_argument (Some (strdup "0x12zz")) 0]) 1%nat proc0 =
      Ok (-1, [MkOpt OPT_BIT_SEQ required_argument (Some (strdup "0x12zz")) 0], p') /\
    errno p' = EINVAL /\ live p' = {[0%nat := RFd]}.
Proof.
  apply (process_bad_argument_leaks (one_file "a" [1]) "a" [1]
    (MkOpt OPT_BIT_SEQ required_argument (Some (strdup "0x12zz")) 0) (strdup "0x12zz") 16 0 proc0).
  - reflexivity.
  - discriminate.
  - reflexivity.
  - reflexivity.
  - reflexivity.
  - vm_compute. discriminate.
Defined.
