(* ===== verification/LibTypefile.v ===== *)
(** * lib_typefile.c: the file-type plugin

    Verdict 1 on a non-empty file whose path ends in [.txt], 0 on another one. *)

From S2P Require Import Prelude Process CLib PluginApi.
From Stdlib Require Import Ascii.
Local Open Scope Z_scope.
Local Open Scope c_scope.

Definition g_lib_name : string := "lib_typefile.so".
Definition g_plugin_purpose : string := "Check type of a file".
Definition g_plugin_author : string := "Nguyen Hong Hanh".
Definition OPT_TEXT : string := "txt".

Definition g_po_arr : list plugin_option :=
  [MkPluginOption (MkOpt OPT_TEXT no_argument None 0) "Text file"].
Definition g_po_arr_len : Z := Z.of_nat (length g_po_arr).

Definition plugin_get_info : pgi_func_t := fun ppi p =>
  match ppi with
  | None => (-1, None, emit (Err ("ERROR: invalid argument" +:+ nl)) p)
  | Some _ =>
      (0, Some (MkPluginInfo g_plugin_purpose g_plugin_author g_po_arr_len g_po_arr), p)
  end.

Definition get_filename_ext (DEBUG : bool) (filename : string) (p : proc) : string * proc :=
  let dot := strrchr filename "."%char in
  let p := if DEBUG
           then emit (Out ("ext of the file " +:+
                  (match dot with Some i => drop_str i filename | None => "(null)" end)
                  +:+ nl)) p
           else p in
  match dot with
  | None => (EmptyString, p)
  | Some O => (EmptyString, p)
  | Some i => (drop_str i filename, p)
  end.

Definition is_txt (DEBUG : bool) (filename : string) (p : proc) : Z * proc :=
  let p := if DEBUG
           then emit (Out ("file name parsed to is_txt() " +:+ filename +:+ nl)) p else p in
  let '(ext, p) := get_filename_ext DEBUG filename p in
  (if streq ext ".txt" then 1 else 0, p).

Fixpoint debug_options (idx : list nat) (os : list copt) (p : proc) : res proc :=
  match idx with
  | [] => Ok p
  | i :: idx =>
      match os !! i with
      | Some o => debug_options idx os (emit (Err ("DEBUG: " +:+ g_lib_name +:+
          ": Got option '" +:+ o_name o +:+ "' " +:+ nl)) p)
      | None => Undef OutOfBounds
      end
  end.

(** The loop over the options: the last [txt] decides. *)
Fixpoint check_options (DEBUG : bool) (fname : string) (idx : list nat) (os : list copt)
    (ret : Z) (p : proc) : res (Z * proc) :=
  match idx with
  | [] => Ok (ret, p)
  | i :: idx =>
      match os !! i with
      | Some o =>
          let '(ret, p) := if streq (o_name o) OPT_TEXT then is_txt DEBUG fname p
                           else (ret, p) in
          check_options DEBUG fname idx os ret p
      | None => Undef OutOfBounds
      end
  end.

(** The code at [END]; the mapping pointer is never set in this library. *)
Definition finish (fd : nat) (saved_errno ret : Z) (os : list copt) (p : proc)
  : res (Z * list copt * proc) :=
  let* p := release RFd fd p in
  Ok (ret, os, set_errno saved_errno p).

Definition plugin_process_file : ppf_func_t := fun k DEBUG fname in_opts in_opts_len p =>
  match fname, in_opts, in_opts_len with
  | Some fn, Some os, S _ =>
      let* p := if DEBUG then debug_options (seq 0 in_opts_len) os p else Ok p in
      match k_open k fn with
      | inr e => Ok (-1, os, set_errno e p)
      | inl f =>
          let '(fd, p) := acquire RFd p in
          match f_fstat_err f with
          | Some e => finish fd e (-1) os (set_errno e p)
          | None =>
              if st_size f =? 0 then
                let p := if DEBUG then emit (Err ("DEBUG: " +:+ g_lib_name +:+
                           ": File size should be > 0" +:+ nl)) p else p in
                finish fd ERANGE (-1) os p
              else
                let* (ret, p) := check_options DEBUG fn (seq 0 in_opts_len) os (-1) p in
                finish fd 0 ret os p
          end
      end
  | _, _, _ => Ok (-1, default [] in_opts, set_errno EINVAL p)
  end.

(** ** The verdict *)

Lemma get_filename_ext_ext d fn p :
  fst (get_filename_ext d fn p) = file_ext fn /\ printed p (snd (get_filename_ext d fn p)).
Proof.
  unfold get_filename_ext, file_ext. split.
  - by destruct (strrchr fn "."%char) as [[|]|].
  - destruct (strrchr fn "."%char) as [[|]|]; apply printed_when_emit.
Qed.

Lemma is_txt_spec d fn p :
  exists r q, is_txt d fn p = (r, q) /\ printed p q /\ (r = 0 \/ r = 1) /\
    (r = 1 <-> exists stem, stem <> EmptyString /\ fn = stem +:+ ".txt").
Proof.
  unfold is_txt.
  pose proof (get_filename_ext_ext d fn
    (if d then emit (Out ("file name parsed to is_txt() " +:+ fn +:+ nl)) p else p)) as [He Hp].
  destruct (get_filename_ext _ _ _) as [ext q]. cbn [fst snd] in *.
  eexists _, q. split; [done|]. split; [by etrans; [apply printed_when_emit|]|].
  split; [destruct (streq ext ".txt"); auto|].
  rewrite <- file_ext_iff by done. rewrite <- He. unfold streq.
  destruct (String.eqb_spec ext ".txt"); by split.
Qed.

Lemma is_txt_quiet fn p : snd (is_txt false fn p) = p.
Proof.
  unfold is_txt, get_filename_ext. by destruct (strrchr fn "."%char) as [[|]|].
Qed.

Definition txt_opt : copt := MkOpt OPT_TEXT no_argument None 0.

Definition has_txt_ext (fn : string) : bool := streq (file_ext fn) ".txt".

Lemma has_txt_ext_iff fn :
  has_txt_ext fn = true <-> exists stem, stem <> EmptyString /\ fn = stem +:+ ".txt".
Proof.
  unfold has_txt_ext, streq. rewrite String.eqb_eq. by apply file_ext_iff.
Qed.

Lemma process_txt_call k fn bytes p :
  k_open k fn = inl (regular bytes) -> bytes <> [] -> proc_wf p ->
  exists p', plugin_process_file k false (Some fn) (Some [txt_opt]) 1%nat p =
      Ok (Z.b2z (has_txt_ext fn), [txt_opt], p') /\
    quiet p p' /\ errno p' = 0.
Proof.
  intros Hk Hne Hwf. unfold plugin_process_file. rewrite Hk. cbn [rbind acquire].
  change (f_fstat_err (regular bytes)) with (@None Z). cbv iota.
  assert ((st_size (regular bytes) =? 0) = false) as ->.
  { apply Z.eqb_neq. destruct bytes; [done|]. unfold st_size, regular. cbn [f_content length]. lia. }
  cbn [seq check_options lookup list_lookup]. change (streq (o_name txt_opt) OPT_TEXT) with true.
  cbv iota.
  set (q := MkProc (errno p) (<[next_id p := RFd]> (live p)) (S (next_id p)) (log p)).
  destruct (is_txt_spec false fn q) as (r & q' & E & _ & H01 & Hiff).
  pose proof (is_txt_quiet fn q) as Hq. rewrite E in *. cbn [snd] in Hq. subst q'.
  cbn [rbind]. unfold finish.
  destruct (release_one RFd p q) as (q1 & -> & Hl & Hid & Hlog & _); [done|done|cbn; lia|].
  cbn [rbind]. exists (set_errno 0 q1). split; [|done].
  rewrite <- has_txt_ext_iff in Hiff.
  assert (r = Z.b2z (has_txt_ext fn)) as ->; [|done].
  destruct H01 as [-> | ->], (has_txt_ext fn); cbn; try done.
  - by apply Hiff.
  - symmetry. exfalso. by apply diff_false_true, Hiff.
Qed.

(** On a readable, non-empty file, [--txt] alone, the plugin answers 1 exactly
    when the path is a non-empty stem followed by [.txt] and 0 otherwise; it gives back
    its descriptor. *)
Theorem process_txt k fn bytes p :
  k_open k fn = inl (regular bytes) -> bytes <> [] -> proc_wf p ->
  exists r p', plugin_process_file k false (Some fn) (Some [txt_opt]) 1%nat p =
      Ok (r, [txt_opt], p') /\
    (r = 0 \/ r = 1) /\
    (r = 1 <-> exists stem, stem <> EmptyString /\ fn = stem +:+ ".txt") /\
    quiet p p' /\ errno p' = 0.
Proof.
  intros Hk Hne Hwf. destruct (process_txt_call k fn bytes p) as (p' & Hc & Hq & He); [done..|].
  eexists _, p'. split; [exact Hc|]. rewrite <- has_txt_ext_iff.
  by destruct (has_txt_ext fn); cbn; (split; [auto|split; [by split|done]]).
Qed.

Lemma process_txt_witness :
  exists r p', plugin_process_file
      (MkKernel (fun _ => inl (regular [1])) (fun _ => inr ENOENT)) false
      (Some "d/a.txt"%string) (Some [txt_opt]) 1%nat proc0 = Ok (r, [txt_opt], p') /\
    (r = 0 \/ r = 1) /\
    (r = 1 <-> exists stem, stem <> EmptyString /\ "d/a.txt"%string = stem +:+ ".txt") /\
    quiet proc0 p' /\ errno p' = 0.
Proof.
  apply (process_txt (MkKernel (fun _ => inl (regular [1])) (fun _ => inr ENOENT))
    "d/a.txt" [1] proc0).
  - reflexivity.
  - discriminate.
  - intros id _. reflexivity.
Defined.

(** ** The contract of the interface *)

Lemma check_options_printed d fn idx os r p r' p' :
  check_options d fn idx os r p = Ok (r', p') -> printed p p'.
Proof.
  revert r p. induction idx as [|i idx IH]; intros r p; cbn [check_options].
  - by intros [= <- <-].
  - destruct (os !! i) as [o|]; [|done].
    destruct (streq (o_name o) OPT_TEXT); [|apply IH].
    destruct (is_txt_spec d fn p) as (r1 & q & -> & Hq & _).
    intros H. apply IH in H. by etrans.
Qed.

Lemma debug_txt_printed idx os p p' : debug_options idx os p = Ok p' -> printed p p'.
Proof.
  revert p. induction idx as [|i idx IH]; intros p; cbn [debug_options].
  - by intros [= <-].
  - destruct (os !! i); [|done]. intros H. apply IH in H. by etrans; [apply printed_emit|].
Qed.

Lemma finish_keeps p q e r os r' os' p' :
  proc_wf p -> finish (next_id p) e r os q = Ok (r', os', p') ->
  printed (snd (acquire RFd p)) q -> keeps p p'.
Proof.
  intros Hwf Hf (Hl & Hn & Hlog). unfold finish in Hf.
  destruct (release_one RFd p q) as (q1 & E1 & Hl1 & Hid1 & Hlog1 & _);
    [done|done|cbn in Hn; lia|].
  rewrite E1 in Hf. cbn [rbind] in Hf. simplify_eq.
  repeat split; cbn; [done|done|by rewrite Hlog1].
Qed.

(** Unlike its sibling, this library gives back its descriptor on every return,
    errors included. *)
Lemma process_keeps k d fname in_opts n p r os' p' :
  plugin_process_file k d fname in_opts n p = Ok (r, os', p') -> proc_wf p -> keeps p p'.
Proof.
  unfold plugin_process_file. intros H Hwf.
  assert (forall e os, Ok (-1, os, set_errno e p) = Ok (r, os', p') -> keeps p p') as Hearly.
  { intros e os [= <- <- <-]. auto with cdb. }
  destruct fname as [fn|]; [|by apply Hearly in H].
  destruct in_opts as [os|]; [|by apply Hearly in H].
  destruct n as [|n]; [by apply Hearly in H|]. clear Hearly.
  inv_bind. assert (printed p a) as Ha.
  { destruct d; [by apply debug_txt_printed in E|by simplify_eq]. }
  assert (proc_wf a) as Hwfa by (eapply proc_wf_keeps; eauto with cdb).
  etrans; [by apply printed_keeps|].
  destruct (k_open k fn) as [f|e]; [|simplify_eq; auto with cdb]. cbn [acquire] in H.
  destruct (f_fstat_err f) as [e|].
  { eapply finish_keeps; [done|exact H|]. apply printed_set_errno. }
  destruct (st_size f =? 0).
  { eapply finish_keeps; [done|exact H|]. apply printed_when_emit. }
  inv_bind. destruct a0 as [r0 q].
  eapply finish_keeps; [done|exact H|]. by eapply check_options_printed.
Qed.

Lemma finish_inv fd e r os p r' os' p' :
  finish fd e r os p = Ok (r', os', p') -> r' = r /\ os' = os.
Proof. unfold finish. intros H. inv_bind. by simplify_eq. Qed.

(** The option array is never written. *)
Lemma process_opts k d fname in_opts n p r os' p' :
  plugin_process_file k d fname in_opts n p = Ok (r, os', p') -> os' = default [] in_opts.
Proof.
  unfold plugin_process_file.
  destruct fname as [fn|]; [|by intros [= _ <- _]].
  destruct in_opts as [os|]; [|by intros [= _ <- _]].
  destruct n as [|n]; [by intros [= _ <- _]|]. intros H. inv_bind.
  destruct (k_open k fn) as [f|e]; [|by simplify_eq]. cbn [acquire] in H.
  destruct (f_fstat_err f); [by apply finish_inv in H as [_ ->]|].
  destruct (st_size f =? 0); [by apply finish_inv in H as [_ ->]|].
  inv_bind. destruct a0. by apply finish_inv in H as [_ ->].
Qed.

#[export] Instance plugin_laws : PluginLaws plugin_process_file.
Proof.
  split.
  - intros k d fn os n p ret os' p' H Hwf _. by eapply process_keeps.
  - intros k d fn os n p ret os' p' H. by rewrite (process_opts _ _ _ _ _ _ _ _ _ H).
Qed.

(** What an error leaves behind: nothing. *)
Definition leaves_none (fn : string) (X : list (nat * rkind)) : Prop := X = [].

Lemma process_spills k : spills leaves_none k plugin_process_file.
Proof.
  intros d fn os n p ret os' p' H Hwf _. apply process_keeps in H as Hk; [|done].
  split; [by eapply proc_wf_keeps|]. split; [apply Hk|]. exists []. split; [done|].
  apply (holds_live _ _ p); [symmetry; apply Hk|apply holds_nil].
Qed.

Lemma debug_options_total idx os p :
  Forall (fun i => (i < length os)%nat) idx -> exists q, debug_options idx os p = Ok q /\ printed p q.
Proof.
  intros H. enough (exists q, debug_options idx os p = Ok q) as [q E].
  { exists q. split; [done|]. by eapply debug_txt_printed. }
  revert p. induction H as [|i idx Hi _ IH]; intros p; cbn [debug_options]; [by eexists|].
  destruct (lookup_lt_is_Some_2 os i Hi) as [o ->]. apply IH.
Qed.

Lemma check_options_total d fn idx os r p :
  Forall (fun i => (i < length os)%nat) idx ->
  exists r' q, check_options d fn idx os r p = Ok (r', q) /\ printed p q.
Proof.
  intros H. enough (exists r' q, check_options d fn idx os r p = Ok (r', q)) as (r' & q & E).
  { exists r', q. split; [done|]. by eapply check_options_printed. }
  revert r p. induction H as [|i idx Hi _ IH]; intros r p; cbn [check_options]; [by do 2 eexists|].
  destruct (lookup_lt_is_Some_2 os i Hi) as [o ->]. destruct (if streq _ _ then _ else _). apply IH.
Qed.

Lemma finish_total p q e r os :
  proc_wf p -> printed (snd (acquire RFd p)) q -> exists x, finish (next_id p) e r os q = Ok x.
Proof.
  intros Hwf (Hl & Hn & _). unfold finish.
  destruct (release_one RFd p q) as (q1 & -> & _); [done|done|cbn in Hn; lia|]. by eexists.
Qed.

(** The library returns on every file. *)
Lemma process_returns k d fn os p :
  proc_wf p -> exists r, plugin_process_file k d (Some fn) (Some os) (length os) p = Ok r.
Proof.
  intros Hwf. unfold plugin_process_file.
  assert (Forall (fun i => (i < length os)%nat) (seq 0 (length os))) as Hidx by (apply Forall_seq; lia).
  destruct (length os) as [|n] eqn:Hn; [by eexists|].
  assert (exists q, (if d then debug_options (seq 0 (Datatypes.S n)) os p else Ok p) = Ok q /\ printed p q)
    as (q & -> & Hq).
  { destruct d; [apply debug_options_total; by rewrite Hn|by exists p]. }
  assert (proc_wf q) as Hwfq by (eapply proc_wf_keeps; eauto with cdb).
  cbn [rbind]. destruct (k_open k fn) as [f|e]; [|by eexists]. cbn [acquire].
  destruct (f_fstat_err f); [apply finish_total; [done|apply printed_set_errno]|].
  destruct (st_size f =? 0); [apply finish_total; [done|apply printed_when_emit]|].
  destruct (check_options_total d fn (seq 0 (Datatypes.S n)) os (-1)
    (MkProc (errno q) (<[next_id q := RFd]> (live q)) (Datatypes.S (next_id q)) (log q)))
    as (r' & q' & -> & Hq'); [by rewrite Hn|]. cbn [rbind]. by apply finish_total.
Qed.
