(* ===== verification/Getopt.v ===== *)
(** * getopt as lab1nhhN3249.c uses it

    The GNU [getopt] with the option string [-AONvhP:] and [getopt_long_only] with an
    empty one, in the order [RETURN_IN_ORDER] that the leading [-] selects and that the
    later calls inherit, since [optind] is reset to 1 and not to 0: arguments that are
    no options come back with the code 1 and nothing is permuted. *)

From S2P Require Import Prelude Process CLib PluginApi.
From Stdlib Require Import Ascii.
Local Open Scope Z_scope.
Local Open Scope c_scope.

(** The locals of [main] that the short options set. *)
Record sopts := MkSopts {
  so_aflag : bool;
  so_oflag : bool;
  so_nflag : bool;
  so_vflag : bool;
  so_hflag : bool;
  so_pvalue : option string
}.

Definition sopts0 : sopts := MkSopts false false false false false None.

(** [need_lib2] is set together with each of the three flags. *)
Definition need_lib2 (o : sopts) : bool := so_aflag o || so_oflag o || so_nflag o.

Definition set_short (c : ascii) (o : sopts) : sopts :=
  let '(MkSopts a oo n v h p) := o in
  if Ascii.eqb c "A" then MkSopts true oo n v h p
  else if Ascii.eqb c "O" then MkSopts a true n v h p
  else if Ascii.eqb c "N" then MkSopts a oo true v h p
  else if Ascii.eqb c "v" then MkSopts a oo n true h p
  else if Ascii.eqb c "h" then MkSopts a oo n v true p
  else o.

Definition set_pvalue (s : string) (o : sopts) : sopts :=
  let '(MkSopts a oo n v h _) := o in MkSopts a oo n v h (Some s).

(** The letters of one argument; [true] when it ends with a [P] that takes the next
    argument. *)
Fixpoint short_chars (s : string) (o : sopts) : sopts * bool :=
  match s with
  | EmptyString => (o, false)
  | String c s' =>
      if Ascii.eqb c "P" then
        match s' with
        | EmptyString => (o, true)
        | String _ _ => (set_pvalue s' o, false)
        end
      else short_chars s' (set_short c o)
  end.

(** What follows the dash of an argument that is an option. *)
Definition option_text (a : string) : option string :=
  match a with
  | String c s =>
      if Ascii.eqb c "-" then match s with EmptyString => None | String _ _ => Some s end
      else None
  | EmptyString => None
  end.

(** The first loop of [main] over [argv[1..]]; [None] when [-P] has no argument. *)
Fixpoint parse_short (args : list string) (o : sopts) : option sopts :=
  match args with
  | [] => Some o
  | a :: args =>
      if streq a "--" then Some o
      else match option_text a with
           | None => parse_short args o
           | Some s =>
               let '(o, wants) := short_chars s o in
               if wants then
                 match args with
                 | [] => None
                 | b :: args => parse_short args (set_pvalue b o)
                 end
               else parse_short args o
           end
  end.

(** ** Long options *)

(** The part before the first [=], and the part after it. *)
Fixpoint split_eq (s : string) : string * option string :=
  match s with
  | EmptyString => (EmptyString, None)
  | String c s =>
      if Ascii.eqb c "=" then (EmptyString, Some s)
      else let '(n, v) := split_eq s in (String c n, v)
  end.

Fixpoint exact_index (name : string) (os : list copt) : option nat :=
  match os with
  | [] => None
  | o :: os => if streq (o_name o) name then Some O else S <$> exact_index name os
  end.

Fixpoint prefix_indices (i : nat) (name : string) (os : list copt) : list nat :=
  match os with
  | [] => []
  | o :: os =>
      if String.prefix name (o_name o) then i :: prefix_indices (S i) name os
      else prefix_indices (S i) name os
  end.

(** An exact match, or the only option the name abbreviates. *)
Definition find_long (name : string) (os : list copt) : option nat :=
  match exact_index name os with
  | Some i => Some i
  | None => match prefix_indices 0 name os with
            | [i] => Some i
            | _ => None
            end
  end.

(** What [getopt_long_only] returns for an argument: the code, [opt_ind], [optarg], and
    whether it took the next argument.  63 is [?]. *)
Record long_ret := MkLongRet {
  lr_code : Z;
  lr_ind : nat;
  lr_arg : option string;
  lr_took : bool
}.

Definition long_unknown : long_ret := MkLongRet 63 0 None false.

(** An option with a [flag] gives 0 and has the value stored through the pointer, which
    is not represented: no library of the repository sets one. *)
Definition long_code (o : copt) : Z :=
  match o_flag o with Some _ => 0 | None => o_val o end.

Definition process_long (os : list copt) (s : string) (next : option string) : long_ret :=
  let '(name, val) := split_eq s in
  match find_long name os with
  | None => long_unknown
  | Some i =>
      match os !! i with
      | None => long_unknown
      | Some o =>
          match val with
          | Some v =>
              if o_has_arg o =? 0 then long_unknown
              else MkLongRet (long_code o) i (Some v) false
          | None =>
              if o_has_arg o =? 1 then
                match next with
                | Some b => MkLongRet (long_code o) i (Some b) true
                | None => long_unknown
                end
              else MkLongRet (long_code o) i None false
          end
      end
  end.

(** The name in an argument: both [--name] and [-name] are long options here. *)
Definition long_text (a : string) : option string :=
  match option_text a with
  | Some (String c s) => if Ascii.eqb c "-" then Some s else Some (String c s)
  | _ => None
  end.

(** ** Facts *)

Lemma option_text_none a : (forall s, a <> String "-" s) -> option_text a = None.
Proof.
  intros H. destruct a as [|c s]; [done|]. cbn [option_text].
  destruct (Ascii.eqb_spec c "-") as [->|]; [|done]. by destruct (H s).
Qed.

Lemma long_text_none a : (forall s, a <> String "-" s) -> long_text a = None.
Proof. intros H. unfold long_text. by rewrite option_text_none. Qed.

(** A letter of a string. *)
Fixpoint has_char (c : ascii) (s : string) : bool :=
  match s with
  | EmptyString => false
  | String d s => Ascii.eqb d c || has_char c s
  end.

Definition short_or (o : sopts) (s : string) : sopts :=
  MkSopts (so_aflag o || has_char "A" s) (so_oflag o || has_char "O" s)
    (so_nflag o || has_char "N" s) (so_vflag o || has_char "v" s)
    (so_hflag o || has_char "h" s) (so_pvalue o).

Lemma short_chars_or s o :
  has_char "P" s = false -> short_chars s o = (short_or o s, false).
Proof.
  revert o. induction s as [|c s IH]; intros o; cbn [has_char short_chars].
  - intros _. unfold short_or. cbn. destruct o; cbn. by rewrite !orb_false_r.
  - rewrite orb_false_iff. intros [-> HP]. rewrite IH by done. f_equal.
    destruct o as [a oo n v h p]. unfold short_or, set_short.
    destruct (Ascii.eqb_spec c "A") as [->|HA]; [by cbn; rewrite orb_true_r|].
    destruct (Ascii.eqb_spec c "O") as [->|HO]; [by cbn; rewrite orb_true_r|].
    destruct (Ascii.eqb_spec c "N") as [->|HN]; [by cbn; rewrite orb_true_r|].
    destruct (Ascii.eqb_spec c "v") as [->|Hv]; [by cbn; rewrite orb_true_r|].
    destruct (Ascii.eqb_spec c "h") as [->|Hh]; [by cbn; rewrite orb_true_r|].
    cbn. rewrite (proj2 (Ascii.eqb_neq c "A") HA), (proj2 (Ascii.eqb_neq c "O") HO),
      (proj2 (Ascii.eqb_neq c "N") HN), (proj2 (Ascii.eqb_neq c "v") Hv),
      (proj2 (Ascii.eqb_neq c "h") Hh). done.
Qed.

(** The letters of every argument that starts with a dash. *)
Definition dashed (args : list string) : string :=
  foldr (fun a t => default EmptyString (option_text a) +:+ t) EmptyString args.

Lemma has_char_app c a b : has_char c (a +:+ b) = has_char c a || has_char c b.
Proof.
  induction a as [|d a IH]; rewrite ?append_cons, ?append_nil_l; [done|].
  cbn [has_char]. by rewrite IH, orb_assoc.
Qed.

Lemma short_or_app o a b : short_or (short_or o a) b = short_or o (a +:+ b).
Proof. unfold short_or. cbn. by rewrite !has_char_app, !orb_assoc. Qed.

Lemma short_or_nil o : short_or o EmptyString = o.
Proof. destruct o; unfold short_or; cbn. by rewrite !orb_false_r. Qed.

(** The first pass reads every argument that starts with a dash letter by letter,
    the names of the plugins' long options included: without a [P] among them and
    without [--], a flag is set exactly when its letter occurs in one of them. *)
Theorem parse_short_letters args o :
  has_char "P" (dashed args) = false -> "--"%string ∉ args ->
  parse_short args o = Some (short_or o (dashed args)).
Proof.
  revert o. induction args as [|a args IH]; intros o HP Hd.
  - cbn. by rewrite short_or_nil.
  - apply not_elem_of_cons in Hd as [Ha Hd]. cbn [parse_short dashed foldr] in *.
    fold (dashed args) in *. rewrite has_char_app, orb_false_iff in HP. destruct HP as [HPa HP].
    unfold streq. rewrite (proj2 (String.eqb_neq a "--")) by done.
    destruct (option_text a) as [s|]; cbn [default] in *.
    + rewrite short_chars_or by done. rewrite IH by done. by rewrite short_or_app.
    + by rewrite IH.
Qed.

(** [--hashes] asks for help and [--eval] for the version. *)
Lemma parse_short_letters_witness :
  parse_short ["--hashes"; "x"; "-A"; "dir"] sopts0 =
    Some (MkSopts true false false false true None).
Proof.
  apply (parse_short_letters ["--hashes"; "x"; "-A"; "dir"]%string sopts0).
  - reflexivity.
  - intros H. repeat (apply elem_of_cons in H as [H|H]; [discriminate H|]).
    by apply elem_of_nil in H.
Defined.
