(* ===== verification/Search.v ===== *)
(** * lab1nhhN3249.c: the recursive search

    [search_dir] walks a directory tree, asks every plugin that was given options
    about every regular file, combines the verdicts under [-A], [-O] and [-N], and
    prints the paths it selects.  The section on its meaning relates it to [walk], the
    list of what a traversal meets, and to [under], reachability in the tree. *)

From S2P Require Import Prelude Process CLib PluginApi.
From Stdlib Require Import Ascii.
Local Open Scope Z_scope.
Local Open Scope c_scope.

(** [struct lib].  [opts_to_pass] is the part of the array that is filled in; its
    capacity is [longopts_len]. *)
Record lib := MkLib {
  opts_to_pass_len : nat;
  opts_to_pass : list copt;
  longopts : list copt;
  longopts_len : Z;
  ppf_func : option ppf_func_t;
  pgi_info : option pgi_func_t
}.

(** The process, the static [count], and the array [plugin]. *)
Record fstate := MkFState {
  f_proc : proc;
  f_count : Z;
  f_libs : list lib
}.

Definition on_proc (g : proc -> proc) (s : fstate) : fstate :=
  MkFState (g (f_proc s)) (f_count s) (f_libs s).

Definition say (DEBUG : bool) (e : ev) (s : fstate) : fstate :=
  if DEBUG then on_proc (emit e) s else s.

(** [strcpy], [strcat], [strcat] into a buffer of [cap] bytes. *)
Definition get_abs_path (cap : Z) (dir fname : string) : res string :=
  let path := dir +:+ "/" +:+ fname in
  if strlen path + 1 <=? cap then Ok path else Undef OutOfBounds.

(** [malloc(sizeof(char) * PATH_MAX * 2)] *)
Definition path_cap : Z := PATH_MAX * 2.

Definition get_filename_ext (filename : string) : string :=
  match strrchr filename "."%char with
  | None => EmptyString
  | Some O => EmptyString
  | Some dot => drop_str dot filename
  end.

Definition is_lib (filename : string) : bool := streq (get_filename_ext filename) ".so".

Definition set_opts (l : lib) (os : list copt) : lib :=
  MkLib (opts_to_pass_len l) os (longopts l) (longopts_len l) (ppf_func l) (pgi_info l).

(** The loop over the plugins for one file; [None] is the [return] on an error. *)
Fixpoint call_plugins (k : kernel) (DEBUG : bool) (path : string) (idx : list nat)
    (call return_true : Z) (s : fstate) : res (option (Z * Z) * fstate) :=
  match idx with
  | [] => Ok (Some (call, return_true), s)
  | i :: idx =>
      match f_libs s !! i with
      | None => Undef OutOfBounds
      | Some l =>
          match opts_to_pass_len l, ppf_func l with
          | O, _ => call_plugins k DEBUG path idx call return_true s
          | S _, None => Undef NullDeref
          | S _, Some f =>
              let* (ret, os, p) :=
                f k DEBUG (Some path) (Some (opts_to_pass l)) (opts_to_pass_len l) (f_proc s) in
              let s := MkFState p (f_count s) (<[i := set_opts l os]> (f_libs s)) in
              let return_true := if ret =? 1 then return_true + 1 else return_true in
              let s := say DEBUG (Out ("plugin_process_file() returned " +:+ fmt_lld ret +:+ nl)) s in
              if ret <? 0 then
                let s := say DEBUG (OutErrno "Error information: " (errno (f_proc s))) s in
                Ok (None, s)
              else call_plugins k DEBUG path idx (call + 1) return_true s
          end
      end
  end.

(** The flags of [main], each 0 or 1 there. *)
Record flags := MkFlags { aflag : bool; oflag : bool; nflag : bool }.

(** The chain of conditions that selects a file. *)
Definition selects (fl : flags) (call return_true : Z) : bool :=
  if negb (call =? 0) then
    if aflag fl && (return_true =? call) then true
    else if aflag fl && nflag fl && (return_true <? call) then true
    else if oflag fl && (0 <? return_true) then true
    else if oflag fl && nflag fl && (return_true =? 0) then true
    else if negb (aflag fl) && negb (oflag fl) && negb (aflag fl) && (return_true =? 1) then true
    else false
  else false.

(** [count++] and the line with the path. *)
Definition found (path : string) (s : fstate) : res fstate :=
  if f_count s <? INT_MAX
  then Ok (MkFState (emit (Out (path +:+ nl)) (f_proc s)) (f_count s + 1) (f_libs s))
  else Undef IntOverflow.

(** The body of the loop for a regular file; [false] is the [return] on an error. *)
Definition check_file (k : kernel) (DEBUG : bool) (fl : flags) (count_lib : nat)
    (folder name : string) (s : fstate) : res (bool * fstate) :=
  let* path := get_abs_path path_cap folder name in
  let s := say DEBUG (Out (nl +:+ "CHECKING FILE: " +:+ path +:+ nl)) s in
  let s := on_proc (set_errno 0) s in
  let* (r, s) := call_plugins k DEBUG path (seq 0 count_lib) 0 0 s in
  match r with
  | None => Ok (false, s)
  | Some (call, return_true) =>
      let s := say DEBUG (Out (nl +:+ "Number of calls that return true " +:+
                 fmt_lld return_true +:+ " / " +:+ fmt_lld call +:+ nl)) s in
      if selects fl call return_true
      then let* s := found path s in Ok (true, s)
      else Ok (true, s)
  end.

(** [strcmp(name, ".") != 0 && strcmp(name, "..") != 0] *)
Definition real_dir (name : string) : bool :=
  negb (streq name ".") && negb (streq name "..").

(** The loop over [readdir]. *)
Fixpoint scan_entries (rec : string -> fstate -> res fstate) (k : kernel) (DEBUG : bool)
    (fl : flags) (count_lib : nat) (folder : string) (ents : list dirent) (s : fstate)
  : res (bool * fstate) :=
  match ents with
  | [] => Ok (true, s)
  | ent :: ents =>
      match d_kind ent with
      | DT_REG =>
          let* (go, s) := check_file k DEBUG fl count_lib folder (d_name ent) s in
          if go : bool then scan_entries rec k DEBUG fl count_lib folder ents s
          else Ok (false, s)
      | DT_DIR =>
          if real_dir (d_name ent) then
            let* path := get_abs_path path_cap folder (d_name ent) in
            let* s := rec path s in
            scan_entries rec k DEBUG fl count_lib folder ents s
          else scan_entries rec k DEBUG fl count_lib folder ents s
      | DT_OTHER => scan_entries rec k DEBUG fl count_lib folder ents s
      end
  end.

Definition acquire_s (r : rkind) (s : fstate) : nat * fstate :=
  let '(id, p) := acquire r (f_proc s) in (id, MkFState p (f_count s) (f_libs s)).

Definition release_s (r : rkind) (id : nat) (s : fstate) : res fstate :=
  let* p := release r id (f_proc s) in Ok (MkFState p (f_count s) (f_libs s)).

(** [fuel] bounds the depth of the recursion: every level makes the path longer and
    the buffer is of fixed size, so [path_cap] levels are enough
    ([search_dir_terminates]). *)
Fixpoint search_dir (fuel : nat) (k : kernel) (DEBUG : bool) (fl : flags) (count_lib : nat)
    (folder : option string) (s : fstate) : res fstate :=
  match fuel with
  | O => NoFuel
  | S fuel =>
      let s := say DEBUG (Out (nl +:+ nl +:+ "WORKING FOLDER " +:+
                 default "(null)" folder +:+ nl)) s in
      match folder with
      | None => Ok s
      | Some folder =>
          match k_opendir k folder with
          | inl ents =>
              let '(dir, s) := acquire_s RDir s in
              let '(file_name0, s) := acquire_s RBlk s in
              let* (completed, s) :=
                scan_entries (fun path => search_dir fuel k DEBUG fl count_lib (Some path))
                  k DEBUG fl count_lib folder ents s in
              if completed : bool then
                let* s := release_s RBlk file_name0 s in
                release_s RDir dir s
              else Ok s
          | inr e =>
              let s := on_proc (set_errno e) s in
              let s := on_proc (perror "Error when open directory: ") s in
              Ok (on_proc (set_errno EXIT_FAILURE) s)
          end
      end
  end.

Definition search_fuel : nat := Z.to_nat path_cap.

(** ** What a traversal meets *)

Inductive visit :=
| VFile (path : string)
| VDenied (e : Z).

(** The path of an entry, when the buffer can hold it. *)
Definition join (folder name : string) : option string :=
  let path := folder +:+ "/" +:+ name in
  if strlen path + 1 <=? path_cap then Some path else None.

Fixpoint walk_entries (rec : string -> option (list visit)) (folder : string)
    (ents : list dirent) : option (list visit) :=
  match ents with
  | [] => Some []
  | ent :: ents =>
      match d_kind ent with
      | DT_REG =>
          path ← join folder (d_name ent);
          rest ← walk_entries rec folder ents;
          Some (VFile path :: rest)
      | DT_DIR =>
          if real_dir (d_name ent) then
            path ← join folder (d_name ent);
            sub ← rec path;
            rest ← walk_entries rec folder ents;
            Some (sub ++ rest)
          else walk_entries rec folder ents
      | DT_OTHER => walk_entries rec folder ents
      end
  end.

(** The visits of a tree in the order of [readdir]; [None] when a path outgrows the
    buffer. *)
Fixpoint walk (fuel : nat) (k : kernel) (folder : string) : option (list visit) :=
  match fuel with
  | O => None
  | S fuel =>
      match k_opendir k folder with
      | inl ents => walk_entries (walk fuel k) folder ents
      | inr e => Some [VDenied e]
      end
  end.

(** The regular file [path] lies under [folder]. *)
Inductive under (k : kernel) : string -> string -> Prop :=
| under_here folder ents name :
    k_opendir k folder = inl ents -> MkDirent DT_REG name ∈ ents ->
    under k folder (folder +:+ "/" +:+ name)
| under_sub folder ents name path :
    k_opendir k folder = inl ents -> MkDirent DT_DIR name ∈ ents ->
    real_dir name = true -> under k (folder +:+ "/" +:+ name) path ->
    under k folder path.

(** The verdicts on a file, one entry per plugin, [None] for a plugin that was given no
    option. *)
Definition n_call (vs : list (option (string -> Z))) : Z := Z.of_nat (length (omap id vs)).

Definition n_true (vs : list (option (string -> Z))) (path : string) : Z :=
  Z.of_nat (length (filter (fun v : string -> Z => v path = 1) (omap id vs))).

Definition chosen (fl : flags) (vs : list (option (string -> Z))) (path : string) : bool :=
  selects fl (n_call vs) (n_true vs path).

Definition report (fl : flags) (vs : list (option (string -> Z))) (v : visit) : list ev :=
  match v with
  | VFile path => if chosen fl vs path then [Out (path +:+ nl)] else []
  | VDenied e => [Perror "Error when open directory: " e]
  end.

Definition hit (fl : flags) (vs : list (option (string -> Z))) (v : visit) : bool :=
  match v with VFile path => chosen fl vs path | VDenied _ => false end.

Fixpoint hits (fl : flags) (vs : list (option (string -> Z))) (l : list visit) : Z :=
  match l with
  | [] => 0
  | v :: l => Z.b2z (hit fl vs v) + hits fl vs l
  end.

(** ** Termination *)

(** No plugin of the array loops on the file system [k]. *)
Definition total_libs (k : kernel) (ls : list lib) : Prop :=
  forall i l f, ls !! i = Some l -> ppf_func l = Some f ->
  forall d fn os n p, f k d fn os n p <> NoFuel.

Lemma total_libs_set k ls i l os :
  ls !! i = Some l -> total_libs k ls -> total_libs k (<[i := set_opts l os]> ls).
Proof.
  intros Hi H j l' f Hj Hf. destruct (decide (i = j)) as [<-|Hne].
  - rewrite list_lookup_insert_eq in Hj by (by eapply lookup_lt_Some). simplify_eq.
    by eapply H.
  - rewrite list_lookup_insert_ne in Hj by done. by eapply H.
Qed.

Lemma f_libs_on_proc g s : f_libs (on_proc g s) = f_libs s.
Proof. done. Qed.

Lemma f_libs_say d e s : f_libs (say d e s) = f_libs s.
Proof. by destruct d. Qed.

Lemma f_count_say d e s : f_count (say d e s) = f_count s.
Proof. by destruct d. Qed.

Lemma call_plugins_finishes k d path idx call rt s :
  total_libs k (f_libs s) ->
  finishes (fun r => total_libs k (f_libs (snd r))) (call_plugins k d path idx call rt s).
Proof.
  revert call rt s. induction idx as [|i idx IH]; intros call rt s Hs; cbn [call_plugins]; [done|].
  destruct (f_libs s !! i) as [l|] eqn:Hi; [|done].
  destruct (opts_to_pass_len l) as [|n]; [by apply IH|].
  destruct (ppf_func l) as [f|] eqn:Hf; [|done].
  pose proof (Hs i l f Hi Hf d (Some path) (Some (opts_to_pass l)) (S n) (f_proc s)).
  destruct (f k d (Some path) (Some (opts_to_pass l)) (S n) (f_proc s)) as [[[ret os] p]| |];
    cbn [rbind]; [|done|done].
  assert (total_libs k (<[i := set_opts l os]> (f_libs s))) by by apply total_libs_set.
  destruct (ret <? 0); [|apply IH]; cbn [finishes snd]; by rewrite !f_libs_say.
Qed.

Lemma check_file_finishes k d fl n folder name s :
  total_libs k (f_libs s) ->
  finishes (fun r => total_libs k (f_libs (snd r))) (check_file k d fl n folder name s).
Proof.
  intros Hs. unfold check_file, get_abs_path. case_match; [|done]. cbn [rbind].
  eapply finishes_bind; [apply call_plugins_finishes; by rewrite f_libs_on_proc, f_libs_say|].
  intros [[[call rt]|] s1] H1; cbn [snd] in H1; [|done].
  destruct (selects fl call rt); [|cbn; by rewrite f_libs_say].
  unfold found. case_match; [|done]. cbn. by rewrite f_libs_say.
Qed.

(** A directory one level down has a longer path. *)
Lemma get_abs_path_ok cap dir fname path :
  get_abs_path cap dir fname = Ok path ->
  path = dir +:+ "/" +:+ fname /\ strlen dir < strlen path < cap.
Proof.
  unfold get_abs_path. destruct (Z.leb_spec (strlen (dir +:+ "/" +:+ fname) + 1) cap); [|done].
  intros [= <-]. split; [done|]. rewrite !strlen_app in *. change (strlen "/") with 1 in *.
  pose proof (strlen_nonneg fname). lia.
Qed.

Lemma scan_entries_finishes (rec : string -> fstate -> res fstate) k d fl n folder ents s :
  (forall path s, strlen folder < strlen path < path_cap -> total_libs k (f_libs s) ->
     finishes (fun s => total_libs k (f_libs s)) (rec path s)) ->
  total_libs k (f_libs s) ->
  finishes (fun r => total_libs k (f_libs (snd r))) (scan_entries rec k d fl n folder ents s).
Proof.
  intros Hrec. revert s. induction ents as [|[kd name] ents IH]; intros s Hs;
    cbn [scan_entries d_kind d_name]; [done|].
  destruct kd; [| |by apply IH].
  - fin_bind check_file_finishes; [done|]. intros [[] s1] H1; [by apply IH|done].
  - destruct (real_dir name); [|by apply IH].
    destruct (get_abs_path path_cap folder name) as [path| |] eqn:Hp; cbn [rbind]; [|done|].
    + apply get_abs_path_ok in Hp as [-> Hlt].
      fin_bind Hrec; [done|done|]. intros s1 H1. by apply IH.
    + unfold get_abs_path in Hp. by case_match.
Qed.

Lemma search_dir_finishes fuel k d fl n folder s :
  path_cap <= Z.of_nat fuel + strlen folder -> strlen folder < path_cap ->
  total_libs k (f_libs s) ->
  finishes (fun s => total_libs k (f_libs s)) (search_dir fuel k d fl n (Some folder) s).
Proof.
  revert folder s. induction fuel as [|fuel IH]; intros folder s Hfuel Hlen Hs; [lia|].
  cbn [search_dir].
  destruct (k_opendir k folder) as [ents|e]; [|cbn; by rewrite f_libs_say].
  unfold acquire_s. cbn [acquire].
  fin_bind scan_entries_finishes.
  - intros path s1 Hp Hs1. apply IH; [lia|lia|done].
  - cbn. by rewrite f_libs_say.
  - intros [[] s1] H1; [|done]. unfold release_s. cbn [snd] in H1.
    destruct (release RBlk _ (f_proc s1)) as [p1| |] eqn:E1; cbn [rbind f_proc finishes]; [|done|].
    + destruct (release RDir _ p1) as [p2| |] eqn:E2; cbn [rbind finishes]; [done|done|].
      unfold release in E2. by repeat case_match.
    + unfold release in E1. by repeat case_match.
Qed.

(** ** The search and the traversal *)

(** What one plugin does about the files of [P]: nothing, when it was given no option;
    otherwise it answers [v path] without printing, leaving its options and the resources
    as they were. *)
Definition answers (k : kernel) (P : string -> Prop) (l : lib) (ov : option (string -> Z))
  : Prop :=
  match ov with
  | None => opts_to_pass_len l = O
  | Some v =>
      (0 < opts_to_pass_len l)%nat /\
      exists f, ppf_func l = Some f /\
        forall path p, P path -> proc_wf p ->
          0 <= v path /\
          exists p', f k false (Some path) (Some (opts_to_pass l)) (opts_to_pass_len l) p =
            Ok (v path, opts_to_pass l, p') /\ quiet p p'
  end.

Lemma set_opts_same l : set_opts l (opts_to_pass l) = l.
Proof. by destruct l. Qed.

Lemma proc_wf_quiet p q : quiet p q -> proc_wf p -> proc_wf q.
Proof. intros H. by apply proc_wf_keeps, quiet_keeps. Qed.

(** The loop over the plugins counts the calls and the verdicts 1. *)
Lemma call_plugins_answers k (P : string -> Prop) path vs m s call rt :
  P path -> proc_wf (f_proc s) -> Forall2 (answers k P) (drop m (f_libs s)) vs ->
  exists p', call_plugins k false path (seq m (length vs)) call rt s =
    Ok (Some (call + n_call vs, rt + n_true vs path), MkFState p' (f_count s) (f_libs s)) /\
    quiet (f_proc s) p'.
Proof.
  intros HP. revert m s call rt. induction vs as [|ov vs IH]; intros m s call rt Hwf Hall.
  - exists (f_proc s). unfold n_call, n_true. cbn. rewrite !Z.add_0_r.
    by destruct s.
  - apply Forall2_cons_inv_r in Hall as (l & ls & Hl & Hls & Hd).
    assert (f_libs s !! m = Some l) as Hm.
    { rewrite <- (Nat.add_0_r m), <- lookup_drop, Hd. done. }
    assert (drop (S m) (f_libs s) = ls) as Hd'.
    { rewrite <- Nat.add_1_r, <- drop_drop, Hd. done. }
    cbn [length seq call_plugins]. rewrite Hm. destruct ov as [v|]; cbn [answers] in Hl.
    + destruct Hl as (Hpos & f & Hf & Hans).
      destruct (opts_to_pass_len l) as [|n] eqn:Hn; [lia|]. rewrite Hf.
      destruct (Hans path (f_proc s) HP Hwf) as (Hv & p1 & -> & Hq). cbn [rbind say].
      rewrite (proj2 (Z.ltb_ge (v path) 0)) by lia.
      rewrite set_opts_same, list_insert_id by done.
      destruct (IH (S m) (MkFState p1 (f_count s) (f_libs s)) (call + 1)
        (if v path =? 1 then rt + 1 else rt)) as (p2 & E & Hq2).
      { by eapply proc_wf_quiet. }
      { cbn [f_libs]. by rewrite Hd'. }
      exists p2. rewrite E. split; [|by etrans].
      cbn [f_count f_libs]. do 3 f_equal.
      * f_equal; unfold n_call, n_true; cbn [omap list_omap id length].
        -- lia.
        -- rewrite filter_cons. cbn [id]. destruct (Z.eqb_spec (v path) 1) as [Hv1|Hv1].
           ++ rewrite decide_True by done. cbn [length]. lia.
           ++ by rewrite decide_False by done.
    + rewrite Hl. destruct (IH (S m) s call rt) as (p2 & E & Hq2); [done|by rewrite Hd'|].
      exists p2. by rewrite E.
Qed.

Lemma join_abs_path folder name path :
  join folder name = Some path -> get_abs_path path_cap folder name = Ok path.
Proof. unfold join, get_abs_path. case_match; [|done]. by intros [= ->]. Qed.

Lemma hits_app fl vs a b : hits fl vs (a ++ b) = hits fl vs a + hits fl vs b.
Proof. induction a; cbn [hits app]; lia. Qed.

Lemma hits_nonneg fl vs l : 0 <= hits fl vs l.
Proof. induction l as [|v l IH]; cbn [hits]; [lia|]. destruct (hit fl vs v); cbn; lia. Qed.

(** The state after [vis] has been visited. *)
Definition visited (fl : flags) (vs : list (option (string -> Z))) (vis : list visit)
    (s s' : fstate) : Prop :=
  f_libs s' = f_libs s /\ f_count s' = f_count s + hits fl vs vis /\
  live (f_proc s') = live (f_proc s) /\ (next_id (f_proc s) <= next_id (f_proc s'))%nat /\
  log (f_proc s') = log (f_proc s) ++ concat (report fl vs <$> vis).

Lemma visited_app fl vs a b s t u :
  visited fl vs a s t -> visited fl vs b t u -> visited fl vs (a ++ b) s u.
Proof.
  intros (?&?&?&?&Ea) (?&?&?&?&Eb). repeat split; [congruence| |congruence|lia|].
  - rewrite hits_app. lia.
  - by rewrite Eb, Ea, fmap_app, concat_app, (assoc_L app).
Qed.

Lemma visited_wf fl vs a s t : visited fl vs a s t -> proc_wf (f_proc s) -> proc_wf (f_proc t).
Proof. intros (_&_&Hl&Hn&_) Hwf id Hid. rewrite Hl. apply Hwf. lia. Qed.

Section Refinement.
Context (k : kernel) (P : string -> Prop) (fl : flags) (vs : list (option (string -> Z))).

(** The state a search starts from and the room its counter needs. *)
Definition ready (vis : list visit) (s : fstate) : Prop :=
  proc_wf (f_proc s) /\ Forall2 (answers k P) (f_libs s) vs /\
  f_count s + hits fl vs vis <= INT_MAX.

Lemma ready_after a b s t :
  ready (a ++ b) s -> visited fl vs a s t -> ready b t.
Proof.
  intros (Hwf & Hls & Hc) Hv. split; [by eapply visited_wf|].
  destruct Hv as (-> & -> & _). split; [done|]. rewrite hits_app in Hc. lia.
Qed.

Lemma ready_before a b s : ready (a ++ b) s -> ready a s.
Proof.
  intros (Hwf & Hls & Hc). repeat split; [done|done|]. rewrite hits_app in Hc.
  pose proof (hits_nonneg fl vs b). lia.
Qed.

Lemma check_file_visited folder name path s :
  join folder name = Some path -> P path -> ready [VFile path] s ->
  exists s', check_file k false fl (length vs) folder name s = Ok (true, s') /\
    visited fl vs [VFile path] s s'.
Proof.
  intros Hj HP (Hwf & Hls & Hc). unfold check_file.
  rewrite (join_abs_path _ _ _ Hj). cbn [rbind say].
  destruct (call_plugins_answers k P path vs 0 (on_proc (set_errno 0) s) 0 0)
    as (p' & -> & Hq & Hn & Hlog); [done|done|done|].
  cbn [rbind]. rewrite !Z.add_0_l.
  change (selects fl (n_call vs) (n_true vs path)) with (chosen fl vs path).
  unfold visited. cbn [hits fmap list_fmap concat report hit] in *. rewrite app_nil_r.
  destruct (chosen fl vs path).
  - unfold found. cbn [f_count on_proc]. rewrite (proj2 (Z.ltb_lt _ _)) by (cbn in Hc; lia).
    eexists; split; [done|]. cbn in *. repeat split; try lia; try done. by rewrite Hlog.
  - eexists; split; [done|]. cbn in *. repeat split; try lia; try done. by rewrite Hlog, app_nil_r.
Qed.

Lemma scan_entries_visited (rec : string -> fstate -> res fstate)
    (wrec : string -> option (list visit)) folder ents vis s :
  (forall path w s, wrec path = Some w -> (forall f, VFile f ∈ w -> P f) -> ready w s ->
     exists s', rec path s = Ok s' /\ visited fl vs w s s') ->
  walk_entries wrec folder ents = Some vis ->
  (forall f, VFile f ∈ vis -> P f) -> ready vis s ->
  exists s', scan_entries rec k false fl (length vs) folder ents s = Ok (true, s') /\
    visited fl vs vis s s'.
Proof.
  intros Hrec. revert vis s. induction ents as [|[kd name] ents IH]; intros vis s Hw HP Hs;
    cbn [walk_entries scan_entries d_kind d_name] in *.
  - simplify_eq. exists s. split; [done|]. unfold visited. cbn. rewrite app_nil_r. repeat split; lia.
  - destruct kd; [| |by apply IH].
    + destruct (join folder name) as [path|] eqn:Hj; [|done]. cbn [mbind option_bind] in Hw.
      destruct (walk_entries wrec folder ents) as [rest|] eqn:Hrest; [|done].
      cbn [mbind option_bind] in Hw. simplify_eq.
      change (VFile path :: rest) with ([VFile path] ++ rest) in *.
      destruct (check_file_visited folder name path s) as (s1 & -> & Hv1);
        [done|apply HP; set_solver|by eapply ready_before|].
      cbn [rbind]. destruct (IH rest s1) as (s2 & E & Hv2);
        [done|set_solver|by eapply ready_after|].
      exists s2. split; [done|]. by eapply visited_app.
    + destruct (real_dir name); [|by apply IH].
      destruct (join folder name) as [path|] eqn:Hj; [|done]. cbn [mbind option_bind] in Hw.
      destruct (wrec path) as [sub|] eqn:Hsub; [|done]. cbn [mbind option_bind] in Hw.
      destruct (walk_entries wrec folder ents) as [rest|] eqn:Hrest; [|done].
      cbn [mbind option_bind] in Hw. simplify_eq.
      rewrite (join_abs_path _ _ _ Hj). cbn [rbind].
      destruct (Hrec path sub s) as (s1 & -> & Hv1);
        [done|set_solver|by eapply ready_before|].
      cbn [rbind]. destruct (IH rest s1) as (s2 & E & Hv2);
        [done|set_solver|by eapply ready_after|].
      exists s2. split; [done|]. by eapply visited_app.
Qed.

Lemma search_dir_visited fuel folder vis s :
  walk fuel k folder = Some vis -> (forall f, VFile f ∈ vis -> P f) -> ready vis s ->
  exists s', search_dir fuel k false fl (length vs) (Some folder) s = Ok s' /\
    visited fl vs vis s s'.
Proof.
  revert folder vis s. induction fuel as [|fuel IH]; intros folder vis s; [done|].
  cbn [walk search_dir say]. intros Hw HP Hs.
  destruct (k_opendir k folder) as [ents|e].
  - unfold acquire_s. cbn [acquire]. set (s0 := MkFState _ _ _).
    assert (proc_wf (f_proc s0)) as Hwf0.
    { destruct Hs as (Hwf & _). apply (proc_wf_acquire RBlk (snd (acquire RDir (f_proc s)))).
      by apply proc_wf_acquire. }
    destruct (scan_entries_visited
      (fun path => search_dir fuel k false fl (length vs) (Some path)) (walk fuel k)
      folder ents vis s0) as (s1 & -> & Hv).
    + intros path w t. apply IH.
    + done.
    + done.
    + destruct Hs as (? & ? & ?). by repeat split.
    + cbn [rbind]. destruct Hs as (Hwf & _). destruct Hv as (Hls & Hc & Hl & Hn & Hlog).
      unfold release_s. cbn [next_id].
      rewrite (release_live RBlk) by (rewrite Hl; apply lookup_insert_eq). cbn [rbind f_proc].
      rewrite (release_live RDir).
      2:{ cbn. rewrite Hl, lookup_delete_ne by lia. cbn.
          rewrite lookup_insert_ne by lia. apply lookup_insert_eq. }
      cbn [rbind]. eexists. split; [done|]. unfold visited. cbn in *.
      repeat split; try lia; try done.
      rewrite Hl. rewrite delete_insert_id.
      * apply delete_insert_id, Hwf. lia.
      * rewrite lookup_insert_ne by lia. apply Hwf. lia.
  - simplify_eq. eexists. split; [done|]. unfold visited. cbn. repeat split; lia.
Qed.
End Refinement.

(** ** What a search leaves behind *)

(** A folder that a plugin's error ended: its directory stream, its path buffer, the file
    the error was about, and what the call that reported it left. *)
Record ended := MkEnded {
  en_dir : nat;
  en_blk : nat;
  en_path : string;
  en_spill : list (nat * rkind)
}.

Definition lost_in (e : ended) : list (nat * rkind) :=
  en_spill e ++ [(en_blk e, RBlk); (en_dir e, RDir)].

Definition lost (es : list ended) : list (nat * rkind) := concat (lost_in <$> es).

Lemma lost_app es es' : lost (es ++ es') = lost es ++ lost es'.
Proof. unfold lost. by rewrite fmap_app, concat_app. Qed.

(** A plugin that keeps the interface's laws and leaves no more than [S] allows when it
    reports an error.  With [S] never true, it reports none. *)
Definition keeps_laws (S : string -> list (nat * rkind) -> Prop) (k : kernel) (f : ppf_func_t) : Prop :=
  PluginLaws f /\ spills S k f.

(** The same entry of [plugin], but for the texts its options hold. *)
Definition lib_like (l l' : lib) : Prop :=
  exists os, l' = set_opts l os /\ same_shape (opts_to_pass l) os.

#[export] Instance lib_like_preorder : PreOrder lib_like.
Proof.
  split.
  - intros l. exists (opts_to_pass l). by rewrite set_opts_same.
  - intros l1 l2 l3 (os & -> & H1) (os' & -> & H2). exists os'. split; [done|].
    by etrans.
Qed.

Lemma keeps_set_errno e p : keeps p (set_errno e p).
Proof. auto with cdb. Qed.

(** The step from [s] to [t] holds [X] more than before and left the array in shape. *)
Record left_over (X : list (nat * rkind)) (s t : fstate) : Prop := MkLeft {
  lo_holds : holds (live (f_proc s)) X (f_proc t);
  lo_wf : proc_wf (f_proc s) -> proc_wf (f_proc t);
  lo_next : (next_id (f_proc s) <= next_id (f_proc t))%nat;
  lo_libs : Forall2 lib_like (f_libs s) (f_libs t);
  lo_count : f_count s <= f_count t
}.

Lemma left_over_trans X Y s t u : left_over X s t -> left_over Y t u -> left_over (Y ++ X) s u.
Proof.
  intros [H1 W1 N1 L1 C1] [H2 W2 N2 L2 C2].
  split; [by eapply holds_trans|by auto|lia|by etrans|lia].
Qed.

Lemma left_over_keeps s t :
  keeps (f_proc s) (f_proc t) -> Forall2 lib_like (f_libs s) (f_libs t) -> f_count s <= f_count t ->
  left_over [] s t.
Proof.
  intros Hk Hl Hc. split; [|by apply proc_wf_keeps|apply Hk|done|done].
  apply (holds_live _ _ (f_proc s)); [symmetry; apply Hk|apply holds_nil].
Qed.

Lemma left_over_refl s : left_over [] s s.
Proof. by apply left_over_keeps. Qed.

Lemma left_over_perm X Y s t : X ≡ₚ Y -> left_over X s t -> left_over Y s t.
Proof. intros HX [H W N L C]. split; try done. by eapply holds_perm. Qed.

(** A step that keeps the resources, before or after. *)
Lemma left_over_then X s t u : left_over X s t -> left_over [] t u -> left_over X s u.
Proof. intros H1 H2. by apply (left_over_trans _ _ _ _ _ H1 H2). Qed.

Lemma left_over_after X s t u : left_over [] s t -> left_over X t u -> left_over X s u.
Proof.
  intros H1 H2. rewrite <- (app_nil_r X). by apply (left_over_trans _ _ _ _ _ H1 H2).
Qed.

Lemma left_over_on_proc g s : (forall p, keeps p (g p)) -> left_over [] s (on_proc g s).
Proof. intros Hg. apply left_over_keeps; [apply Hg|done|done]. Qed.

Lemma left_over_say d e s : left_over [] s (say d e s).
Proof. destruct d; [apply left_over_on_proc; auto with cdb|apply left_over_refl]. Qed.

Lemma left_over_acquire r s :
  proc_wf (f_proc s) -> left_over [(next_id (f_proc s), r)] s (snd (acquire_s r s)).
Proof.
  intros Hwf. unfold acquire_s. cbn [acquire snd]. split; cbn; [|by intros; apply (proc_wf_acquire r)|lia|done|lia].
  by apply (holds_acquire _ _ r _ Hwf), holds_nil.
Qed.

(** Giving back what the step had left. *)
Lemma left_over_release X r id s t u :
  proc_wf (f_proc t) -> left_over ((id, r) :: X) s t -> release_s r id t = Ok u -> left_over X s u.
Proof.
  intros Hwf [H W N L C] Hr. unfold release_s in Hr. inv_bind. simplify_eq.
  pose proof (proc_wf_release _ _ _ _ Hwf E) as Hwf'.
  apply (release_holds _ _ _ _ _ _ H) in E as (H1 & _ & _ & Hn).
  split; cbn; [done|by intros|lia|done|done].
Qed.

Section Leftovers.
Context (S : string -> list (nat * rkind) -> Prop) (k : kernel).

Definition lawful_libs (ls : list lib) : Prop :=
  Forall (fun l => forall f, ppf_func l = Some f -> keeps_laws S k f) ls.

Definition fair (e : ended) : Prop := S (en_path e) (en_spill e).

Lemma left_over_lawful X s t : left_over X s t -> lawful_libs (f_libs s) -> lawful_libs (f_libs t).
Proof.
  intros [_ _ _ Hl _]. unfold lawful_libs. induction Hl as [|l l' ls ls' (os & -> & _) Hl IH]; [done|].
  intros Hs. apply Forall_cons in Hs as [H1 Hs]. apply Forall_cons. split; [exact H1|by apply IH].
Qed.

Lemma call_plugins_left d path idx call rt s r t :
  proc_wf (f_proc s) -> lawful_libs (f_libs s) ->
  call_plugins k d path idx call rt s = Ok (r, t) ->
  exists X, left_over X s t /\ match r with Some _ => X = [] | None => S path X end.
Proof.
  revert call rt s. induction idx as [|i idx IH]; intros call rt s Hwf Hs; cbn [call_plugins].
  - intros [= <- <-]. exists []. split; [apply left_over_refl|done].
  - destruct (f_libs s !! i) as [l|] eqn:Hi; [|done].
    destruct (opts_to_pass_len l) as [|n] eqn:Hn; [by apply IH|].
    destruct (ppf_func l) as [f|] eqn:Hf; [|done]. intros H. inv_bind.
    destruct a as [[ret os] p].
    pose proof (proj1 (Forall_lookup _ _) Hs i l Hi f Hf) as [Hlaws Hsp].
    set (s1 := MkFState p (f_count s) (<[i := set_opts l os]> (f_libs s))) in *.
    assert (Forall2 lib_like (f_libs s) (f_libs s1)) as Hlike.
    { cbn. rewrite <- (list_insert_id (f_libs s) i l) at 1 by done.
      apply Forall2_insert; [done|]. exists os. split; [done|]. by eapply ppf_shape. }
    pose proof (left_over_say d (Out ("plugin_process_file() returned " +:+ fmt_lld ret +:+ nl)) s1) as H2.
    destruct (Z.ltb_spec ret 0) as [Hneg|Hpos].
    + simplify_eq. destruct (Hsp _ _ _ _ _ _ _ _ E Hwf Hneg) as (Hwf1 & Hn1 & X & HX & Hh).
      exists X. split; [|done]. eapply left_over_then; [|apply left_over_say].
      eapply left_over_then; [|exact H2]. by split.
    + assert (left_over [] s s1) as H1.
      { apply left_over_keeps; [by eapply ppf_keeps|done|done]. }
      pose proof (left_over_then _ _ _ _ H1 H2) as H3.
      apply IH in H as (X & Ht & HX); [|by apply (lo_wf _ _ _ H3)|by eapply left_over_lawful].
      exists X. split; [|done]. by eapply left_over_after.
Qed.

Lemma check_file_left d fl n folder name s go t :
  proc_wf (f_proc s) -> lawful_libs (f_libs s) ->
  check_file k d fl n folder name s = Ok (go, t) ->
  exists X, left_over X s t /\ if go : bool then X = [] else exists path, S path X.
Proof.
  intros Hwf Hs H. unfold check_file in H. inv_bind.
  set (s0 := on_proc _ _) in *.
  assert (left_over [] s s0) as H0.
  { eapply left_over_then; [apply left_over_say|]. apply left_over_on_proc, keeps_set_errno. }
  destruct a0 as [r s1].
  apply call_plugins_left in E0 as (X & H1 & HX);
    [|by apply (lo_wf _ _ _ H0)|by eapply left_over_lawful].
  pose proof (left_over_after _ _ _ _ H0 H1) as H2.
  destruct r as [[call rt]|]; [subst X|simplify_eq; by eauto].
  destruct (selects fl call rt); inv_bind; simplify_eq; exists [].
  - split; [|done]. unfold found in E0. case_match; [|done]. simplify_eq.
    eapply left_over_then; [exact H2|]. eapply left_over_then; [apply left_over_say|].
    apply left_over_keeps; [apply keeps_emit|done|cbn; lia].
  - split; [|done]. eapply left_over_then; [exact H2|apply left_over_say].
Qed.

Lemma scan_entries_left (rec : string -> fstate -> res fstate) d fl n folder ents s go t :
  (forall path s t, proc_wf (f_proc s) -> lawful_libs (f_libs s) ->
     rec path s = Ok t -> exists es, left_over (lost es) s t /\ Forall fair es) ->
  proc_wf (f_proc s) -> lawful_libs (f_libs s) ->
  scan_entries rec k d fl n folder ents s = Ok (go, t) ->
  exists es X, left_over (X ++ lost es) s t /\ Forall fair es /\
    if go : bool then X = [] else exists path, S path X.
Proof.
  intros Hrec. revert s. induction ents as [|[kd name] ents IH]; intros s Hwf Hs;
    cbn [scan_entries d_kind d_name].
  { intros [= <- <-]. exists [], []. split; [apply left_over_refl|done]. }
  destruct kd; [| |by apply IH].
  - intros H. inv_bind. destruct a as [go1 s1].
    apply check_file_left in E as (X & H1 & HX); [|done..]. destruct go1; [subst X|].
    + apply IH in H as (es & X & H2 & Hes & HX); [|by apply (lo_wf _ _ _ H1)|by eapply left_over_lawful].
      exists es, X. split; [|done]. by eapply left_over_after.
    + simplify_eq. exists [], X. by rewrite app_nil_r.
  - destruct (real_dir name); [|by apply IH]. intros H. inv_bind.
    apply Hrec in E0 as (es1 & H1 & Hf1); [|done..].
    apply IH in H as (es & X & H2 & Hes & HX); [|by apply (lo_wf _ _ _ H1)|by eapply left_over_lawful].
    exists (es ++ es1), X. split; [|split; [by apply Forall_app|done]].
    rewrite lost_app, (assoc_L app). by eapply left_over_trans.
Qed.

(** All that a search leaves behind is what the folders it gave up had open. *)
Lemma search_dir_left fuel d fl n folder s t :
  proc_wf (f_proc s) -> lawful_libs (f_libs s) ->
  search_dir fuel k d fl n folder s = Ok t ->
  exists es, left_over (lost es) s t /\ Forall fair es.
Proof.
  revert folder s t. induction fuel as [|fuel IH]; intros folder s t Hwf Hs; [done|].
  cbn [search_dir]. intros H.
  set (s0 := say d _ s) in *. assert (left_over [] s s0) as H0 by apply left_over_say.
  destruct folder as [folder|]; [|simplify_eq; by exists []].
  destruct (k_opendir k folder) as [ents|e].
  - pose proof (lo_wf _ _ _ H0 Hwf) as Hwf0.
    pose proof (left_over_acquire RDir s0 Hwf0) as H1. pose proof (lo_wf _ _ _ H1 Hwf0) as Hwf1.
    destruct (acquire_s RDir s0) as [dir s1] eqn:E1. cbn [snd] in *.
    pose proof (left_over_acquire RBlk s1 Hwf1) as H2. pose proof (lo_wf _ _ _ H2 Hwf1) as Hwf2.
    destruct (acquire_s RBlk s1) as [blk s2] eqn:E2. cbn [snd] in *.
    injection E1 as <- _. injection E2 as <- _.
    pose proof (left_over_trans _ _ _ _ _ H1 H2) as H3. cbn [app] in H3.
    pose proof (left_over_after _ _ _ _ H0 H3) as H4.
    inv_bind. destruct a as [go s3].
    apply scan_entries_left in E as (es & X & H5 & Hes & HX);
      [|intros path s4 t4; apply IH|done|by eapply left_over_lawful].
    pose proof (lo_wf _ _ _ H5 Hwf2) as Hwf3.
    pose proof (left_over_trans _ _ _ _ _ H4 H5) as H6. destruct go.
    + subst X. inv_bind. exists es. split; [|done].
      eapply (left_over_perm _ ([(next_id (f_proc s1), RBlk); (next_id (f_proc s0), RDir)] ++ lost es)) in H6;
        [|apply (comm app)].
      assert (proc_wf (f_proc a)) as Hwfa.
      { unfold release_s in E. inv_bind. simplify_eq. by eapply proc_wf_release. }
      eapply left_over_release in E; [|exact Hwf3|exact H6]. by eapply left_over_release.
    + simplify_eq. destruct HX as [path HX].
      exists (MkEnded (next_id (f_proc s0)) (next_id (f_proc s1)) path X :: es).
      split; [|by constructor].
      eapply left_over_perm; [|exact H6]. unfold lost. cbn [fmap list_fmap concat]. fold (lost es).
      unfold lost_in. cbn [en_spill en_blk en_dir]. rewrite <- !(assoc_L app).
      by rewrite (comm app (lost es)).
  - simplify_eq. exists []. split; [|done]. eapply left_over_then; [exact H0|].
    repeat first [eapply left_over_then; [|apply left_over_on_proc, keeps_set_errno]
                 |eapply left_over_then; [|apply left_over_on_proc; intros p; apply keeps_emit]].
    apply left_over_refl.
Qed.
End Leftovers.

Lemma join_path folder name path : join folder name = Some path -> path = folder +:+ "/" +:+ name.
Proof. unfold join. case_match; [|done]. by intros [= <-]. Qed.

(** What lies under a directory, through the entries [ents]. *)
Definition under_ents (k : kernel) (folder : string) (ents : list dirent) (path : string) : Prop :=
  (exists name, MkDirent DT_REG name ∈ ents /\ path = folder +:+ "/" +:+ name) \/
  (exists name, MkDirent DT_DIR name ∈ ents /\ real_dir name = true /\
     under k (folder +:+ "/" +:+ name) path).

Lemma under_iff k folder ents path :
  k_opendir k folder = inl ents -> under k folder path <-> under_ents k folder ents path.
Proof.
  intros Hk. split.
  - destruct 1 as [folder ents' name E Hin|folder ents' name path E Hin Hr Hu];
      rewrite Hk in E; injection E as <-; [left|right]; eauto.
  - intros [(name & Hin & ->)|(name & Hin & Hr & Hu)].
    + by eapply under_here.
    + by eapply under_sub.
Qed.

Lemma under_ents_cons k folder kd name ents path :
  under_ents k folder (MkDirent kd name :: ents) path <->
  (match kd with
   | DT_REG => path = folder +:+ "/" +:+ name
   | DT_DIR => real_dir name = true /\ under k (folder +:+ "/" +:+ name) path
   | DT_OTHER => False
   end) \/ under_ents k folder ents path.
Proof.
  unfold under_ents. split.
  - intros [(n & Hin & E)|(n & Hin & Hr & Hu)]; apply elem_of_cons in Hin as [E'|Hin];
      simplify_eq; eauto 10.
  - intros [H|[(n & Hin & E)|(n & Hin & Hr & Hu)]].
    + destruct kd; [left|right|done].
      * exists name. split; [set_solver|done].
      * destruct H as [Hr Hu]. exists name. split; [set_solver|done].
    + left. exists n. split; [set_solver|done].
    + right. exists n. split; [set_solver|done].
Qed.

Lemma walk_under fuel k folder vis :
  walk fuel k folder = Some vis -> forall path, VFile path ∈ vis <-> under k folder path.
Proof.
  revert folder vis. induction fuel as [|fuel IH]; intros folder vis; [done|]. cbn [walk].
  destruct (k_opendir k folder) as [ents|e] eqn:Hk.
  - intros Hw path. rewrite (under_iff k folder ents path Hk). clear Hk.
    revert vis Hw. induction ents as [|[kd name] ents IHe]; intros vis; cbn [walk_entries d_kind d_name].
    + intros [= <-]. split; [set_solver|].
      intros [(n & Hin & _)|(n & Hin & _)]; by apply elem_of_nil in Hin.
    + rewrite under_ents_cons. destruct kd.
      * destruct (join folder name) as [p|] eqn:Hj; [|done]. apply join_path in Hj as ->.
        destruct (walk_entries (walk fuel k) folder ents) as [rest|]; [|done].
        intros [= <-]. rewrite elem_of_cons, (IHe rest) by done.
        split; (intros [E|?]; [left; congruence|by right]).
      * destruct (real_dir name); [|intros H; rewrite (IHe vis H); intuition done].
        destruct (join folder name) as [p|] eqn:Hj; [|done]. apply join_path in Hj as ->.
        cbn [mbind option_bind].
        destruct (walk fuel k _) as [sub|] eqn:Hsub; [|done]. cbn [mbind option_bind].
        destruct (walk_entries (walk fuel k) folder ents) as [rest|]; [|done].
        intros [= <-]. rewrite elem_of_app, (IHe rest), (IH _ _ Hsub) by done. tauto.
      * intros H. rewrite (IHe vis H). tauto.
  - intros [= <-] path. split; [by intros ?%list_elem_of_singleton|].
    destruct 1 as [? ? ? E|? ? ? ? E]; by rewrite Hk in E.
Qed.

(** C2. On a tree whose paths fit the buffer, with plugins that answer on every file
    below the folder, [search_dir] meets exactly the files below the folder, prints those
    that the flags select in the order of the traversal (and the directories it may not
    open), adds their number to [count], and gives back every directory stream and
    buffer it took. *)
Theorem search_dir_refines_walk k fl vs folder vis s :
  walk search_fuel k folder = Some vis ->
  ready k (under k folder) fl vs vis s ->
  (forall path, VFile path ∈ vis <-> under k folder path) /\
  exists s', search_dir search_fuel k false fl (length vs) (Some folder) s = Ok s' /\
    log (f_proc s') = log (f_proc s) ++ concat (report fl vs <$> vis) /\
    f_count s' = f_count s + hits fl vs vis /\
    live (f_proc s') = live (f_proc s) /\ f_libs s' = f_libs s.
Proof.
  intros Hw Hs. pose proof (walk_under _ _ _ _ Hw) as Hu. split; [done|].
  destruct (search_dir_visited k (under k folder) fl vs search_fuel folder vis s)
    as (s' & E & Hl & Hc & Hlive & _ & Hlog); [done|by intros; apply Hu|done|].
  by exists s'.
Qed.

(** ** The search returns *)

(** A directory that the search comes to. *)
Inductive below (k : kernel) : string -> string -> Prop :=
| below_here d : below k d d
| below_sub d ents name d' :
    k_opendir k d = inl ents -> MkDirent DT_DIR name ∈ ents -> name <> "."%string -> name <> ".."%string ->
    below k (d +:+ "/" +:+ name) d' -> below k d d'.

(** Below [folder] the path of every file and of every directory but [.] and [..] fits the
    buffer. *)
Definition fits (k : kernel) (folder : string) : Prop :=
  forall d ents name, below k folder d -> k_opendir k d = inl ents ->
  MkDirent DT_REG name ∈ ents \/
    MkDirent DT_DIR name ∈ ents /\ name <> "."%string /\ name <> ".."%string ->
  strlen (d +:+ "/" +:+ name) + 1 <= path_cap.

Lemma real_dir_true name : real_dir name = true <-> name <> "."%string /\ name <> ".."%string.
Proof.
  unfold real_dir, streq. rewrite andb_true_iff, !negb_true_iff, !String.eqb_neq. done.
Qed.

Lemma join_fits folder name :
  strlen (folder +:+ "/" +:+ name) + 1 <= path_cap -> join folder name = Some (folder +:+ "/" +:+ name).
Proof. intros H. unfold join. by rewrite (proj2 (Z.leb_le _ _)). Qed.

(** Every level makes the path longer, so the traversal of such a tree is finite. *)
Lemma walk_fits fuel k folder :
  path_cap <= Z.of_nat fuel + strlen folder -> strlen folder < path_cap -> fits k folder ->
  is_Some (walk fuel k folder).
Proof.
  revert folder. induction fuel as [|fuel IH]; intros folder Hf Hlen Hfit; [lia|]. cbn [walk].
  destruct (k_opendir k folder) as [ents|e] eqn:Hk; [|by eexists].
  assert (forall e, e ∈ ents -> e ∈ ents) as Hin by done. revert Hin.
  generalize ents at 1 3 as l. induction l as [|[kd name] l IHl]; intros Hin; cbn [walk_entries d_kind d_name];
    [by eexists|].
  specialize (IHl ltac:(intros; apply Hin; by right)) as [rest Er].
  assert (MkDirent kd name ∈ ents) as Hname by (apply Hin; by left).
  destruct kd; [| |by rewrite Er; eexists].
  - rewrite join_fits by (apply (Hfit folder ents name); [constructor|done|by left]).
    rewrite Er. by eexists.
  - destruct (real_dir name) eqn:Hr; [|by rewrite Er; eexists]. apply real_dir_true in Hr as [H1 H2].
    assert (strlen (folder +:+ "/" +:+ name) + 1 <= path_cap) as Hfits.
    { apply (Hfit folder ents name); [constructor|done|by right]. }
    rewrite join_fits by done. cbn [mbind option_bind].
    destruct (IH (folder +:+ "/" +:+ name)) as [sub Es].
    + rewrite !strlen_app. change (strlen "/") with 1. pose proof (strlen_nonneg name). lia.
    + lia.
    + intros d ents' name' Hb. apply Hfit. by eapply below_sub.
    + rewrite Es. cbn [mbind option_bind]. rewrite Er. by eexists.
Qed.

(** The plugin returns, whatever the file, on an array of options and its length. *)
Definition returns (k : kernel) (f : ppf_func_t) : Prop :=
  forall d fn os p, proc_wf p -> exists r, f k d (Some fn) (Some os) (length os) p = Ok r.

Definition lib_ready (k : kernel) (l : lib) : Prop :=
  opts_to_pass_len l = length (opts_to_pass l) /\
  (opts_to_pass_len l = O \/ exists f, ppf_func l = Some f /\ returns k f).

Section Returns.
Context (S : string -> list (nat * rkind) -> Prop) (k : kernel) (n : nat).

(** The array of [n] plugins is ready to be called. *)
Record set_up (s : fstate) : Prop := MkSetUp {
  su_wf : proc_wf (f_proc s);
  su_laws : lawful_libs S k (f_libs s);
  su_ready : Forall (lib_ready k) (f_libs s);
  su_len : (n <= length (f_libs s))%nat
}.

Lemma left_over_set_up X s t : left_over X s t -> set_up s -> set_up t.
Proof.
  intros H [W L R N]. split; [by apply (lo_wf _ _ _ H)|by eapply left_over_lawful| |].
  - pose proof (lo_libs _ _ _ H) as Hl. clear -R Hl.
    induction Hl as [|l l' ls ls' (os & -> & Hs) Hl IH]; [done|].
    apply Forall_cons in R as [[H1 H2] R]. constructor; [|by apply IH]. split; [|done].
    cbn. by rewrite <- (same_shape_length _ _ Hs).
  - by rewrite <- (Forall2_length _ _ _ (lo_libs _ _ _ H)).
Qed.

Lemma call_plugins_returns d path idx call rt s :
  set_up s -> Forall (fun i => (i < n)%nat) idx ->
  exists r t, call_plugins k d path idx call rt s = Ok (r, t) /\ f_count t = f_count s.
Proof.
  intros Hs Hidx. revert call rt s Hs. induction Hidx as [|i idx Hi Hidx IH]; intros call rt s Hs;
    cbn [call_plugins]; [by do 2 eexists|].
  pose proof (su_len _ Hs).
  destruct (lookup_lt_is_Some_2 (f_libs s) i) as [l Hl]; [lia|]. rewrite Hl.
  destruct (proj1 (Forall_lookup _ _) (su_ready _ Hs) i l Hl) as [Hlen Hcall].
  destruct (opts_to_pass_len l) as [|m] eqn:Hm; [by apply IH|].
  destruct Hcall as [?|(f & Hf & Hret)]; [done|]. rewrite Hf, Hlen.
  destruct (Hret d path (opts_to_pass l) (f_proc s) (su_wf _ Hs)) as [[[ret os] p] E]. rewrite E.
  cbn [rbind]. destruct (Z.ltb_spec ret 0) as [Hneg|Hpos].
  - do 2 eexists. split; [done|]. by rewrite !f_count_say.
  - set (s1 := say d _ _). destruct (IH (call + 1) (if ret =? 1 then rt + 1 else rt) s1) as (r & t & E' & Hc).
    + eapply left_over_set_up; [|exact Hs]. unfold s1.
      eapply left_over_then; [|apply left_over_say].
      destruct (proj1 (Forall_lookup _ _) (su_laws _ Hs) i l Hl f Hf) as [Hlaws _].
      apply left_over_keeps; [eapply ppf_keeps; [exact E|apply Hs|done]| |cbn; lia].
      cbn. rewrite <- (list_insert_id (f_libs s) i l) at 1 by done.
      apply Forall2_insert; [done|]. exists os. split; [done|]. by eapply ppf_shape.
    + exists r, t. split; [exact E'|]. rewrite Hc. unfold s1. by rewrite f_count_say.
Qed.

Lemma check_file_returns d fl folder name path s :
  set_up s -> join folder name = Some path -> f_count s < INT_MAX ->
  exists go t, check_file k d fl n folder name s = Ok (go, t) /\ f_count t <= f_count s + 1.
Proof.
  intros Hs Hj Hc. unfold check_file. rewrite (join_abs_path _ _ _ Hj). cbn [rbind].
  set (s0 := on_proc _ _).
  assert (left_over [] s s0) as H0.
  { eapply left_over_then; [apply left_over_say|]. apply left_over_on_proc, keeps_set_errno. }
  assert (f_count s0 = f_count s) as Hc0 by (by unfold s0; destruct d).
  destruct (call_plugins_returns d path (seq 0 n) 0 0 s0) as ([[call rt]|] & t & E & Ht);
    [by eapply left_over_set_up|apply Forall_seq; lia| |]; rewrite E; cbn [rbind].
  - destruct (selects fl call rt).
    + unfold found. rewrite f_count_say, Ht, Hc0, (proj2 (Z.ltb_lt _ _)) by done. cbn [rbind].
      do 2 eexists. split; [done|]. cbn. lia.
    + do 2 eexists. split; [done|]. rewrite f_count_say. lia.
  - do 2 eexists. split; [done|]. lia.
Qed.

Lemma scan_entries_returns (rec : string -> fstate -> res fstate) w d fl folder ents vis s :
  (forall path sub s, w path = Some sub -> set_up s -> f_count s + Z.of_nat (length sub) <= INT_MAX ->
     exists t, rec path s = Ok t /\ set_up t /\ f_count t <= f_count s + Z.of_nat (length sub)) ->
  walk_entries w folder ents = Some vis -> set_up s -> f_count s + Z.of_nat (length vis) <= INT_MAX ->
  exists go t, scan_entries rec k d fl n folder ents s = Ok (go, t) /\
    f_count t <= f_count s + Z.of_nat (length vis).
Proof.
  intros Hrec. revert vis s. induction ents as [|[kd name] ents IH]; intros vis s Hw Hs Hc;
    cbn [scan_entries walk_entries d_kind d_name] in *.
  { do 2 eexists. split; [done|]. lia. }
  destruct kd; [| |by apply IH].
  - destruct (join folder name) as [path|] eqn:Hj; [|done]. cbn [mbind option_bind] in Hw.
    destruct (walk_entries w folder ents) as [rest|]; [|done]. injection Hw as <-. cbn [length] in *.
    destruct (check_file_returns d fl folder name path s Hs Hj ltac:(lia)) as (go & t & E & Ht).
    pose proof (check_file_left S k _ _ _ _ _ _ _ _ (su_wf _ Hs) (su_laws _ Hs) E) as (X & HX & _).
    rewrite E. cbn [rbind]. destruct go.
    + destruct (IH rest t) as (go & u & E' & Hu);
        [done|by eapply left_over_set_up|lia|]. exists go, u. split; [done|lia].
    + exists false, t. split; [done|lia].
  - destruct (real_dir name); [|by apply IH].
    destruct (join folder name) as [path|] eqn:Hj; [|done]. cbn [mbind option_bind] in Hw.
    destruct (w path) as [sub|] eqn:Hsub; [|done]. cbn [mbind option_bind] in Hw.
    destruct (walk_entries w folder ents) as [rest|]; [|done]. injection Hw as <-.
    rewrite length_app in *. rewrite (join_abs_path _ _ _ Hj). cbn [rbind].
    destruct (Hrec path sub s) as (t & E & Hset & Ht); [done|done|lia|]. rewrite E. cbn [rbind].
    destruct (IH rest t) as (go & u & E' & Hu); [done|done|lia|]. exists go, u. split; [done|lia].
Qed.

Lemma search_dir_returns fuel d fl folder vis s :
  walk fuel k folder = Some vis -> set_up s -> f_count s + Z.of_nat (length vis) <= INT_MAX ->
  exists t, search_dir fuel k d fl n (Some folder) s = Ok t /\ set_up t /\
    f_count t <= f_count s + Z.of_nat (length vis).
Proof.
  intros Hw Hs Hc.
  enough (exists t, search_dir fuel k d fl n (Some folder) s = Ok t /\
    f_count t <= f_count s + Z.of_nat (length vis)) as (t & E & Ht).
  { exists t. split; [done|]. split; [|done].
    destruct (search_dir_left S k _ _ _ _ _ _ _ (su_wf _ Hs) (su_laws _ Hs) E) as (es & H & _).
    by eapply left_over_set_up. }
  revert folder vis s Hw Hs Hc. induction fuel as [|fuel IH]; intros folder vis s Hw Hs Hc; [done|].
  cbn [search_dir walk] in *. set (s0 := say d _ s).
  assert (left_over [] s s0) as H0 by apply left_over_say.
  assert (f_count s0 = f_count s) as Hc0 by apply f_count_say.
  destruct (k_opendir k folder) as [ents|e]; [|eexists; split; [done|]; cbn; lia].
  pose proof (left_over_set_up _ _ _ H0 Hs) as Hs0.
  pose proof (left_over_acquire RDir s0 (su_wf _ Hs0)) as H1.
  assert (f_count (snd (acquire_s RDir s0)) = f_count s) as Hc1 by (by rewrite <- Hc0).
  destruct (acquire_s RDir s0) as [dir s1] eqn:E1. cbn [snd] in *.
  pose proof (left_over_set_up _ _ _ H1 Hs0) as Hs1.
  pose proof (left_over_acquire RBlk s1 (su_wf _ Hs1)) as H2.
  assert (f_count (snd (acquire_s RBlk s1)) = f_count s) as Hc2 by (by rewrite <- Hc1).
  destruct (acquire_s RBlk s1) as [blk s2] eqn:E2. cbn [snd] in *.
  pose proof (left_over_set_up _ _ _ H2 Hs1) as Hs2. injection E1 as <- _. injection E2 as <- _.
  destruct (scan_entries_returns (fun path => search_dir fuel k d fl n (Some path)) (walk fuel k) d fl
    folder ents vis s2) as (go & t & E & Ht); [|done|done|lia|].
  { intros path sub s' Hsub Hs' Hcs. destruct (IH path sub s' Hsub Hs' Hcs) as (t & E & Ht).
    exists t. split; [done|]. split; [|done].
    destruct (search_dir_left S k _ _ _ _ _ _ _ (su_wf _ Hs') (su_laws _ Hs') E) as (es & H & _).
    by eapply left_over_set_up. }
  rewrite E. cbn [rbind]. destruct go; [|exists t; split; [done|lia]].
  destruct (scan_entries_left S k _ _ _ _ _ _ _ _ _
    (fun path s t Hwf Hl => search_dir_left S k fuel d fl n (Some path) s t Hwf Hl)
    (su_wf _ Hs2) (su_laws _ Hs2) E) as (es & X & H3 & _ & ->).
  pose proof (left_over_trans _ _ _ _ _ (left_over_trans _ _ _ _ _ H1 H2) H3) as H4.
  pose proof (lo_holds _ _ _ H4) as Hh. apply holds_middle in Hh.
  unfold release_s. destruct (holds_release _ _ _ _ _ Hh) as [-> Hh1]. cbn [rbind f_proc].
  rewrite app_nil_l in Hh1. apply (holds_middle _ (lost es)) in Hh1.
  destruct (holds_release _ _ _ _ _ Hh1) as [-> _]. cbn [rbind].
  eexists. split; [done|]. cbn. lia.
Qed.
End Returns.

(** C24. The recursive search ends.  On every file system, cycles included, it never needs more
    than [search_fuel] levels, when no plugin loops; and where the paths below the folder fit
    the buffer of 8192 bytes (the entries [.] and [..] are in every directory and are not
    followed), it comes to its end without undefined behaviour: the tree has a finite
    traversal, and with plugins that keep the interface's laws and return, errors included, and
    room in [count], [search_dir] returns. *)
Theorem search_dir_terminates (S : string -> list (nat * rkind) -> Prop) k d fl n folder s :
  strlen folder < path_cap ->
  (total_libs k (f_libs s) -> search_dir search_fuel k d fl n (Some folder) s <> NoFuel) /\
  (fits k folder ->
     exists vis, walk search_fuel k folder = Some vis /\
       (set_up S k n s -> f_count s + Z.of_nat (length vis) <= INT_MAX ->
        exists t, search_dir search_fuel k d fl n (Some folder) s = Ok t)).
Proof.
  intros Hlen.
  assert (path_cap <= Z.of_nat search_fuel + strlen folder) as Hfuel.
  { unfold search_fuel. pose proof (strlen_nonneg folder).
    rewrite Z2Nat.id; [lia|]. unfold path_cap, PATH_MAX. lia. }
  split.
  - intros Hs E. pose proof (search_dir_finishes search_fuel k d fl n folder s) as H.
    rewrite E in H. by apply H.
  - intros Hfit. destruct (walk_fits search_fuel k folder Hfuel Hlen Hfit) as [vis Hw].
    exists vis. split; [done|]. intros Hs Hc.
    destruct (search_dir_returns S k n search_fuel d fl folder vis s Hw Hs Hc) as (t & E & _). by exists t.
Qed.

(** ** How the flags combine the verdicts *)

Lemma selects_plain c t : selects (MkFlags false false false) c t = negb (c =? 0) && (t =? 1).
Proof. unfold selects. cbn. destruct (c =? 0), (t =? 1); done. Qed.

(** What [-A], [-O] and [-N] come to.  For a file on which [c > 0] plugins were
    called and [t] of them answered 1: [-A] selects when all answered 1, [-O] when one
    did; without either a file is selected when exactly one plugin answered 1, and then
    [-N] changes nothing; [-A -N] and [-O -N] select every file, since the inverted
    test is added to the plain one. *)
Theorem selects_table a o n c t :
  0 <= t <= c ->
  selects (MkFlags a o n) c t =
  (0 <? c) &&
  match a, o, n with
  | true, false, false => t =? c
  | false, true, false => 0 <? t
  | true, true, false => (t =? c) || (0 <? t)
  | false, false, _ => t =? 1
  | _, _, true => true
  end.
Proof.
  intros Ht. unfold selects. cbn [aflag oflag nflag].
  destruct a, o, n; cbn [andb negb];
    destruct (Z.eqb_spec c 0), (Z.ltb_spec 0 c), (Z.eqb_spec t c), (Z.ltb_spec t c),
      (Z.ltb_spec 0 t), (Z.eqb_spec t 0), (Z.eqb_spec t 1); cbn; lia || done.
Qed.

Lemma selects_table_witness :
  0 <= 0 <= 2 /\ selects (MkFlags true false true) 2 0 = true /\
  selects (MkFlags true false false) 2 2 = true.
Proof.
  split; [lia|].
  split; [apply (selects_table true false true 2 0); lia
         |apply (selects_table true false false 2 2); lia].
Defined.

(** A tree with a file at two levels and a plugin that accepts everything. *)
Definition demo_kernel : kernel :=
  MkKernel (fun _ => inr ENOENT)
    (fun d => if String.eqb d "."
              then inl [MkDirent DT_DIR "."; MkDirent DT_REG "a"; MkDirent DT_DIR "d"]
              else if String.eqb d "./d" then inl [MkDirent DT_REG "b"] else inr ENOENT).

Definition yes_plugin : ppf_func_t := fun _ _ _ os _ p => Ok (1, default [] os, p).

Definition yes_lib : lib :=
  MkLib 1 [MkOpt "o" no_argument None 0] [MkOpt "o" no_argument None 0] 1 (Some yes_plugin) None.

Lemma search_dir_refines_walk_witness :
  (forall path, VFile path ∈ [VFile "./a"; VFile "./d/b"]%string <-> under demo_kernel "." path) /\
  exists s', search_dir search_fuel demo_kernel false (MkFlags true false false) 1
      (Some "."%string) (MkFState proc0 0 [yes_lib]) = Ok s' /\
    log (f_proc s') = [Out ("./a" +:+ nl); Out ("./d/b" +:+ nl)] /\ f_count s' = 2 /\
    live (f_proc s') = ∅ /\ f_libs s' = [yes_lib].
Proof.
  apply (search_dir_refines_walk demo_kernel (MkFlags true false false) [Some (fun _ => 1)] "."
    [VFile "./a"; VFile "./d/b"] (MkFState proc0 0 [yes_lib])).
  - vm_compute. reflexivity.
  - split; [intros id _; reflexivity|]. split.
    + constructor; [|constructor]. split; [vm_compute; lia|]. exists yes_plugin. split; [done|].
      intros path p _ _. split; [lia|]. exists p. split; [done|]. by repeat split.
    + vm_compute. discriminate.
Defined.
