(* ===== verification/FindFiles.v ===== *)
(** * The finder with its two plugins

    [search_dir] run with the libraries of the repository loaded: what
    [-A --bit-seq <n> --txt] finds, and what one empty file does to a search. *)

From S2P Require Import Prelude Process CLib PluginApi LibNhh LibTypefile Search.
From Stdlib Require Import Ascii.
Local Open Scope Z_scope.
Local Open Scope c_scope.

(** The entries of [plugin] when each library was given its option once. *)
Definition nhh_lib (nt : notation) (n : Z) : lib :=
  MkLib 1 [bit_seq_opt nt n] (opt <$> LibNhh.g_po_arr) 1
    (Some LibNhh.plugin_process_file) (Some LibNhh.plugin_get_info).

Definition txt_lib : lib :=
  MkLib 1 [txt_opt] (opt <$> LibTypefile.g_po_arr) 1
    (Some LibTypefile.plugin_process_file) (Some LibTypefile.plugin_get_info).

Definition content (k : kernel) (path : string) : list Z :=
  match k_open k path with inl f => f_content f | inr _ => [] end.

(** A file both plugins can read to the end. *)
Definition readable (k : kernel) (path : string) : Prop :=
  k_open k path = inl (regular (content k path)) /\ content k path <> [] /\
  Z.of_nat (length (content k path)) < 2 ^ 64.

Definition and_flags : flags := MkFlags true false false.

Definition nhh_verdict (k : kernel) (n : Z) (path : string) : Z :=
  Z.b2z (literal_in n (content k path)).

Definition txt_verdict (path : string) : Z := Z.b2z (has_txt_ext path).

Lemma nhh_answers k (P : string -> Prop) nt n :
  (forall path, P path -> readable k path) -> 0 <= n <= LLONG_MAX ->
  answers k P (nhh_lib nt n) (Some (nhh_verdict k n)).
Proof.
  intros HP Hn. split; [cbn; lia|]. exists LibNhh.plugin_process_file. split; [done|].
  intros path p Hpath Hwf. destruct (HP path Hpath) as (Ho & Hne & Hmax).
  destruct (process_literal_call k path (content k path) nt n p) as (p' & E & Hq & _); [done..|].
  split; [unfold nhh_verdict; destruct (literal_in _ _); cbn; lia|]. by exists p'.
Qed.

Lemma txt_answers k (P : string -> Prop) :
  (forall path, P path -> readable k path) -> answers k P txt_lib (Some txt_verdict).
Proof.
  intros HP. split; [cbn; lia|]. exists LibTypefile.plugin_process_file. split; [done|].
  intros path p Hpath Hwf. destruct (HP path Hpath) as (Ho & Hne & Hmax).
  destruct (process_txt_call k path (content k path) p) as (p' & E & Hq & _); [done..|].
  split; [unfold txt_verdict; destruct (has_txt_ext _); cbn; lia|]. by exists p'.
Qed.

Definition both (k : kernel) (n : Z) : list (option (string -> Z)) :=
  [Some (nhh_verdict k n); Some txt_verdict].

Lemma b2z_is_1 b : Z.b2z b = 1 <-> b = true.
Proof. by destruct b. Qed.

Lemma chosen_both k n path :
  chosen and_flags (both k n) path = literal_in n (content k path) && has_txt_ext path.
Proof.
  unfold chosen, n_call, n_true, both. cbn [omap list_omap id length].
  rewrite !filter_cons, filter_nil. unfold nhh_verdict, txt_verdict.
  destruct (literal_in n (content k path)), (has_txt_ext path);
    repeat (case_decide; [|]); cbn in *; done.
Qed.

Lemma hits_le_length fl vs vis : hits fl vs vis <= Z.of_nat (length vis).
Proof. induction vis as [|v vis IH]; cbn [hits length]; [lia|]. destruct (hit fl vs v); cbn; lia. Qed.

Lemma in_report fl vs vis path :
  Out (path +:+ nl) ∈ concat (report fl vs <$> vis) <->
  VFile path ∈ vis /\ chosen fl vs path = true.
Proof.
  induction vis as [|v vis IH].
  - cbn. split; [by intros ?%not_elem_of_nil|]. by intros [?%not_elem_of_nil _].
  - rewrite fmap_cons. cbn [concat]. rewrite elem_of_app, IH, elem_of_cons. clear IH.
    assert (Out (path +:+ nl) ∈ report fl vs v <-> VFile path = v /\ chosen fl vs path = true)
      as ->; [|tauto].
    destruct v as [q|e]; cbn [report].
    + destruct (chosen fl vs q) eqn:Hc.
      * rewrite list_elem_of_singleton. split; [intros E|by intros [[= ->] _]].
        assert (path = q) as ->; [|done]. injection E as E. by apply append_inj_r in E.
      * split; [by intros ?%not_elem_of_nil|]. intros [[= ->] ?]. congruence.
    + rewrite list_elem_of_singleton. split; [done|]. by intros [? _].
Qed.

(** C25. [-A --bit-seq <n> --txt] on a tree of readable, non-empty files: the lines the
    program prints are the paths of exactly those files below the folder that contain the
    bytes of [n] and whose name ends in [.txt] after a non-empty stem. *)
Theorem find_bits_and_txt k folder nt n vis s :
  walk search_fuel k folder = Some vis -> (forall path, under k folder path -> readable k path) ->
  0 <= n <= LLONG_MAX -> proc_wf (f_proc s) -> f_libs s = [nhh_lib nt n; txt_lib] ->
  f_count s + Z.of_nat (length vis) <= INT_MAX ->
  exists s' printed, search_dir search_fuel k false and_flags 2 (Some folder) s = Ok s' /\
    log (f_proc s') = log (f_proc s) ++ printed /\
    (forall path, Out (path +:+ nl) ∈ printed <->
       under k folder path /\ infix (le_bytes (Z.to_nat (nbytes n)) n) (content k path) /\
       exists stem, stem <> EmptyString /\ path = stem +:+ ".txt") /\
    live (f_proc s') = live (f_proc s) /\ f_libs s' = [nhh_lib nt n; txt_lib].
Proof.
  intros Hw Hr Hn Hwf Hls Hc.
  destruct (search_dir_visited k (under k folder) and_flags (both k n) search_fuel folder vis s)
    as (s' & E & Hl & _ & Hlive & _ & Hlog).
  - done.
  - intros f. by apply (walk_under _ _ _ _ Hw).
  - split; [done|]. split.
    + rewrite Hls. constructor; [by apply nhh_answers|]. constructor; [by apply txt_answers|done].
    + pose proof (hits_le_length and_flags (both k n) vis). lia.
  - exists s', (concat (report and_flags (both k n) <$> vis)). rewrite Hl, Hls.
    split; [done|]. split; [done|]. split; [|done]. intros path.
    rewrite in_report, (walk_under _ _ _ _ Hw), chosen_both, andb_true_iff.
    unfold literal_in. by rewrite infixb_spec, has_txt_ext_iff.
Qed.

(** Two folders: [./a.txt] and [./d/b.txt] hold the bytes [0x12 0x34], [./c] holds them
    under another name. *)
Definition two_txt : kernel :=
  MkKernel (fun p => if String.eqb p "./a.txt" then inl (regular [52; 18])
                     else if String.eqb p "./c" then inl (regular [0; 52; 18])
                     else if String.eqb p "./d/b.txt" then inl (regular [52; 18; 7])
                     else inr ENOENT)
    (fun d => if String.eqb d "."
              then inl [MkDirent DT_REG "a.txt"; MkDirent DT_REG "c"; MkDirent DT_DIR ".";
                        MkDirent DT_DIR "d"]
              else if String.eqb d "./d" then inl [MkDirent DT_REG "b.txt"] else inr ENOENT).

Lemma two_txt_under path :
  under two_txt "." path -> path ∈ ["./a.txt"; "./c"; "./d/b.txt"]%string.
Proof.
  intros H. apply (walk_under search_fuel two_txt "."
    [VFile "./a.txt"; VFile "./c"; VFile "./d/b.txt"] eq_refl) in H. set_solver.
Qed.

Lemma two_txt_readable path : under two_txt "." path -> readable two_txt path.
Proof.
  intros H%two_txt_under. rewrite !elem_of_cons in H.
  destruct H as [-> |[-> |[-> |[]%not_elem_of_nil]]]; by vm_compute.
Qed.

Lemma find_bits_and_txt_witness :
  exists s' printed,
    search_dir search_fuel two_txt false and_flags 2 (Some "."%string)
      (MkFState proc0 0 [nhh_lib Hex 4660; txt_lib]) = Ok s' /\
    log (f_proc s') = [] ++ printed /\
    (forall path, Out (path +:+ nl) ∈ printed <->
       under two_txt "." path /\
       infix (le_bytes (Z.to_nat (nbytes 4660)) 4660) (content two_txt path) /\
       exists stem, stem <> EmptyString /\ path = stem +:+ ".txt") /\
    live (f_proc s') = ∅ /\ f_libs s' = [nhh_lib Hex 4660; txt_lib].
Proof.
  apply (find_bits_and_txt two_txt "." Hex 4660
    [VFile "./a.txt"; VFile "./c"; VFile "./d/b.txt"]
    (MkFState proc0 0 [nhh_lib Hex 4660; txt_lib])).
  - vm_compute. reflexivity.
  - apply two_txt_readable.
  - unfold LLONG_MAX. lia.
  - intros id _. reflexivity.
  - reflexivity.
  - vm_compute. discriminate.
Defined.

(** An empty file makes the plugin answer -1, and [search_dir] then returns from the
    whole folder: whatever entries follow it are not looked at, and the directory stream
    and the path buffer are never given back. *)
Theorem empty_file_ends_folder fuel k fl folder name path post nt n s :
  k_opendir k folder = inl (MkDirent DT_REG name :: post) ->
  join folder name = Some path -> k_open k path = inl (regular []) ->
  proc_wf (f_proc s) -> f_libs s = [nhh_lib nt n] ->
  exists s', search_dir (S fuel) k false fl 1 (Some folder) s = Ok s' /\
    log (f_proc s') = log (f_proc s) /\ f_count s' = f_count s /\
    live (f_proc s') = <[S (next_id (f_proc s)) := RBlk]>
                         (<[next_id (f_proc s) := RDir]> (live (f_proc s))).
Proof.
  intros Hk Hj Ho Hwf Hls. cbn [search_dir say]. rewrite Hk. unfold acquire_s.
  cbn [acquire scan_entries d_kind d_name]. unfold check_file.
  rewrite (join_abs_path _ _ _ Hj). cbn [rbind say seq call_plugins on_proc f_libs f_proc f_count].
  rewrite Hls. cbn [lookup list_lookup nhh_lib opts_to_pass_len ppf_func opts_to_pass].
  unfold LibNhh.plugin_process_file. rewrite Ho. cbn [acquire].
  change (f_fstat_err (regular [])) with (@None Z). change (st_size (regular [])) with 0. cbv iota.
  change (0 =? 0) with true. cbv iota.
  set (p1 := set_errno 0 _).
  destruct (finish_unmapped p1
    (MkProc (errno p1) (<[next_id p1 := RFd]> (live p1)) (S (next_id p1)) (log p1)) ERANGE (-1)
    (default [] (Some [bit_seq_opt nt n]))) as (p2 & E & Hl & _ & Hlog & _).
  - apply (proc_wf_acquire RBlk (snd (acquire RDir (f_proc s)))). by apply proc_wf_acquire.
  - done.
  - cbn. lia.
  - rewrite E. cbn [rbind]. eexists. split; [done|]. cbn. by rewrite Hl, Hlog.
Qed.

Lemma empty_file_ends_folder_witness :
  exists s',
    search_dir 1 (MkKernel (fun _ => inl (regular []))
                    (fun _ => inl [MkDirent DT_REG "empty"; MkDirent DT_REG "match"]))
      false and_flags 1 (Some "."%string) (MkFState proc0 0 [nhh_lib Dec 7]) = Ok s' /\
    log (f_proc s') = [] /\ f_count s' = 0 /\
    live (f_proc s') = <[1%nat := RBlk]> (<[0%nat := RDir]> ∅).
Proof.
  apply (empty_file_ends_folder 0
    (MkKernel (fun _ => inl (regular []))
       (fun _ => inl [MkDirent DT_REG "empty"; MkDirent DT_REG "match"]))
    and_flags "." "empty" "./empty" [MkDirent DT_REG "match"] Dec 7
    (MkFState proc0 0 [nhh_lib Dec 7])).
  - reflexivity.
  - vm_compute. reflexivity.
  - reflexivity.
  - intros id _. reflexivity.
  - reflexivity.
Defined.

(** A tree with the entries [.] and [..] in each directory, a file without bytes (for which the
    plugin reports an error) and a directory that is gone when it is opened. *)
Definition dotted : kernel :=
  MkKernel (fun p => if String.eqb p "./d/empty" then inl (regular []) else inl (regular [1]))
    (fun d => if String.eqb d "." then
                inl [MkDirent DT_DIR "."; MkDirent DT_DIR ".."; MkDirent DT_REG "a.txt"; MkDirent DT_DIR "d";
                     MkDirent DT_DIR "gone"; MkDirent DT_REG "z"]
              else if String.eqb d "./d" then
                inl [MkDirent DT_DIR "."; MkDirent DT_REG "empty"; MkDirent DT_DIR ".."]
              else inr ENOENT).

Lemma dotted_below f d :
  below dotted f d -> f ∈ ["."; "./d"; "./gone"]%string -> d ∈ ["."; "./d"; "./gone"]%string.
Proof.
  induction 1 as [|f ents name d' Hk Hin H1 H2 _ IH]; [done|]. intros Hf. apply IH.
  rewrite !elem_of_cons in Hf. destruct Hf as [-> |[-> |[-> |[]%not_elem_of_nil]]]; cbn in Hk; simplify_eq;
    rewrite !elem_of_cons in Hin; repeat (destruct Hin as [Heq|Hin]; [by simplify_eq; set_solver|]);
    by apply not_elem_of_nil in Hin.
Qed.

Lemma dotted_fits : fits dotted ".".
Proof.
  intros d ents name Hd Hk Hin. apply dotted_below in Hd; [|by left]. rewrite !elem_of_cons in Hd.
  assert (strlen d <= 8) as Hlen by (destruct Hd as [-> |[-> |[-> |[]%not_elem_of_nil]]]; by vm_compute).
  assert (strlen name <= 6) as Hname.
  { assert (exists kd, MkDirent kd name ∈ ents) as [kd He] by (destruct Hin as [?|[? _]]; eauto).
    destruct Hd as [-> |[-> |[-> |[]%not_elem_of_nil]]]; cbn in Hk; simplify_eq;
      rewrite !elem_of_cons in He; repeat (destruct He as [[= _ ->]|He]; [by vm_compute|]);
      by apply not_elem_of_nil in He. }
  rewrite !strlen_app. change (strlen "/") with 1. unfold path_cap, PATH_MAX. lia.
Qed.

(** The search of that tree, with the repository's [lib_typefile]: it returns, and not by way of
    a hypothesis that fails. *)
Lemma search_dir_terminates_witness :
  (exists t, search_dir search_fuel dotted false and_flags 1 (Some "."%string) (MkFState proc0 0 [txt_lib]) = Ok t) /\
  walk search_fuel dotted "." = Some [VFile "./a.txt"; VFile "./d/empty"; VDenied ENOENT; VFile "./z"].
Proof.
  assert (walk search_fuel dotted "." =
    Some [VFile "./a.txt"; VFile "./d/empty"; VDenied ENOENT; VFile "./z"]) as Hw by (vm_compute; reflexivity).
  split; [|exact Hw].
  destruct (search_dir_terminates LibTypefile.leaves_none dotted false and_flags 1 "." (MkFState proc0 0 [txt_lib]))
    as [_ H]; [reflexivity|].
  destruct (H dotted_fits) as (vis & Hv & Hret). rewrite Hw in Hv. injection Hv as <-. apply Hret.
  - split; [intros id _; reflexivity| | |cbn; lia].
    + constructor; [|constructor]. intros f [= <-].
      split; [apply LibTypefile.plugin_laws|apply LibTypefile.process_spills].
    + constructor; [|constructor]. split; [reflexivity|]. right.
      exists LibTypefile.plugin_process_file. split; [reflexivity|].
      intros d fn os p. apply LibTypefile.process_returns.
  - vm_compute. discriminate.
Defined.
