(* ===== verification/Finder.v ===== *)
(** * lab1nhhN3249.c: main

    The whole program: the short options, the search for [.so] files, the loading of the
    libraries, the collection of each library's options, the search, and the clean-up at
    [END].  [env] is what the process is started in. *)

From S2P Require Import Prelude Process CLib PluginApi LibNhh LibTypefile Getopt Search FindFiles.
From Stdlib Require Import Ascii.
Local Open Scope Z_scope.
Local Open Scope c_scope.

(** A loaded library: what [dlsym] finds in it. *)
Record dlib := MkDlib {
  sym_plugin_get_info : option pgi_func_t;
  sym_plugin_process_file : option ppf_func_t
}.

(** [e_debug]: [LAB1DEBUG] is set; [e_getcwd]: the working directory, or the error;
    [e_dlopen]: the library in a file, if it can be loaded; [e_dlerror]: the text that
    [dlerror] gives after a failure. *)
Record env := MkEnv {
  e_debug : bool;
  e_getcwd : string + Z;
  e_fs : kernel;
  e_dlopen : string -> option dlib;
  e_dlerror : string
}.

(** The locals and globals of [main]: [m_fs] holds the process, [count] and [plugin];
    the [m_blk] fields are the blocks the pointers of the same name point to; [m_opt_blks]
    are, per library, the blocks of [longopts], of [opts_to_pass] and of the arguments in
    its [flag] fields. *)
Record mstate := MkM {
  m_fs : fstate;
  m_num_iter : nat;
  m_folder_working : string;
  m_folder_lib : string;
  m_blk_working : option nat;
  m_blk_lib : option nat;
  m_blk_dl : option nat;
  m_dl : list (option (nat * dlib));
  m_blk_plugin : option nat;
  m_opt_blks : list (option nat * option nat * list (option nat));
  m_blk_pi : option nat;
  m_pi : list plugin_info
}.

Definition mstate0 (p : proc) : mstate :=
  MkM (MkFState p 0 []) 0 EmptyString EmptyString None None None [] None [] None [].

Definition set_fs (s : fstate) (m : mstate) : mstate :=
  MkM s (m_num_iter m) (m_folder_working m) (m_folder_lib m) (m_blk_working m) (m_blk_lib m)
    (m_blk_dl m) (m_dl m) (m_blk_plugin m) (m_opt_blks m) (m_blk_pi m) (m_pi m).

Definition on_fs (g : fstate -> fstate) (m : mstate) : mstate := set_fs (g (m_fs m)) m.

Definition print (e : ev) (m : mstate) : mstate := on_fs (on_proc (emit e)) m.

Definition print_if (b : bool) (e : ev) (m : mstate) : mstate := if b then print e m else m.

(** [malloc] and [calloc]: the block they give. *)
Definition new_block (m : mstate) : nat * mstate :=
  let '(id, s) := acquire_s RBlk (m_fs m) in (id, set_fs s m).

(** A part of [main] falls through ([true]) or jumps to [END] ([false]). *)
Definition flow : Type := res (bool * mstate).

Definition go (m : mstate) : flow := Ok (true, m).
Definition goto_END (m : mstate) : flow := Ok (false, m).

Definition andthen (a : flow) (b : mstate -> flow) : flow :=
  let* (c, m) := a in if c : bool then b m else Ok (false, m).

(** [strcpy] into a buffer of [PATH_MAX] bytes. *)
Definition strcpy_path (s : string) : res string :=
  if strlen s + 1 <=? PATH_MAX then Ok s else Undef OutOfBounds.

(** ** The libraries of the plugin folder *)

(** [char file_name0[255]] *)
Definition count_so_cap : Z := 255.

Fixpoint count_so_entries (folder : string) (ents : list dirent) (n : nat) : res nat :=
  match ents with
  | [] => Ok n
  | ent :: ents =>
      match d_kind ent with
      | DT_REG =>
          let* path := get_abs_path count_so_cap folder (d_name ent) in
          count_so_entries folder ents (if is_lib path then S n else n)
      | _ => count_so_entries folder ents n
      end
  end.

Definition opendir_failed (e : Z) (p : proc) : proc :=
  perror "Error opendir(): " (set_errno e p).

Definition count_so (E : env) (folder : string) (p : proc) : res (nat * proc) :=
  match k_opendir (e_fs E) folder with
  | inl ents =>
      let '(dir, p) := acquire RDir p in
      let* n := count_so_entries folder ents 0 in
      let* p := release RDir dir p in
      Ok (n, p)
  | inr e => Ok (O, opendir_failed e p)
  end.

(** The loop of [get_lib]: [dl[i]] for the [i]-th library; [false] is the [return -1],
    which leaves [dl[i]] null. *)
Fixpoint get_lib_entries (E : env) (folder : string) (ents : list dirent) (i : nat)
    (dl : list (option (nat * dlib))) (p : proc)
  : res (bool * list (option (nat * dlib)) * proc) :=
  match ents with
  | [] => Ok (true, dl, p)
  | ent :: ents =>
      match d_kind ent with
      | DT_REG =>
          let* path := get_abs_path path_cap folder (d_name ent) in
          if is_lib path then
            match dl !! i with
            | None => Undef OutOfBounds
            | Some _ =>
                match e_dlopen E path with
                | None =>
                    Ok (false, <[i := None]> dl,
                        emit (Err ("ERROR: dlopen() failed: " +:+ e_dlerror E +:+ nl)) p)
                | Some h =>
                    let '(id, p) := acquire RDl p in
                    let p := if e_debug E then emit (Out (nl +:+ path +:+ " opened")) p else p in
                    get_lib_entries E folder ents (S i) (<[i := Some (id, h)]> dl) p
                end
            end
          else get_lib_entries E folder ents i dl p
      | _ => get_lib_entries E folder ents i dl p
      end
  end.

(** The result, 0 or -1, is not looked at by [main]. *)
Definition get_lib (E : env) (folder : string) (dl : list (option (nat * dlib))) (p : proc)
  : res (Z * list (option (nat * dlib)) * proc) :=
  match k_opendir (e_fs E) folder with
  | inl ents =>
      let '(dir, p) := acquire RDir p in
      let '(file_name0, p) := acquire RBlk p in
      let* (ok, dl, p) := get_lib_entries E folder ents 0 dl p in
      if ok : bool then
        let* p := release RBlk file_name0 p in
        let* p := release RDir dir p in
        Ok (0, dl, p)
      else Ok (-1, dl, p)
  | inr e => Ok (-1, dl, opendir_failed e p)
  end.

(** ** Loading one plugin *)

Definition zero_info : plugin_info := MkPluginInfo "(null)" "(null)" 0 [].
Definition zero_lib : lib := MkLib 0 [] [] 0 None None.

(** [dlsym] on a handle; on the null handle it looks in the program itself, where
    neither name is defined. *)
Definition dlsym {A} (h : option (nat * dlib)) (sym : dlib -> option A) : option A :=
  match h with Some (_, l) => sym l | None => None end.

Definition upd_lib (i : nat) (l : lib) (m : mstate) : mstate :=
  on_fs (fun s => MkFState (f_proc s) (f_count s) (<[i := l]> (f_libs s))) m.

Definition upd_pi (i : nat) (x : plugin_info) (m : mstate) : mstate :=
  MkM (m_fs m) (m_num_iter m) (m_folder_working m) (m_folder_lib m) (m_blk_working m)
    (m_blk_lib m) (m_blk_dl m) (m_dl m) (m_blk_plugin m) (m_opt_blks m) (m_blk_pi m)
    (<[i := x]> (m_pi m)).

Definition upd_blks (i : nat) (b : option nat * option nat * list (option nat)) (m : mstate)
  : mstate :=
  MkM (m_fs m) (m_num_iter m) (m_folder_working m) (m_folder_lib m) (m_blk_working m)
    (m_blk_lib m) (m_blk_dl m) (m_dl m) (m_blk_plugin m) (<[i := b]> (m_opt_blks m))
    (m_blk_pi m) (m_pi m).

(** The copies of the first [n] entries of [sup_opts]. *)
Definition copy_options (n : Z) (po : list plugin_option) : res (list copt) :=
  if n <=? Z.of_nat (length po) then Ok (opt <$> take (Z.to_nat n) po) else Undef OutOfBounds.

(** The body of the loop that fills [plugin[i]] and [pi[i]]. *)
Definition load_plugin (i : nat) (dlerr : string) (m : mstate) : flow :=
  match m_dl m !! i, f_libs (m_fs m) !! i, m_pi m !! i with
  | Some h, Some l, Some info0 =>
      let get_info := dlsym h sym_plugin_get_info in
      let l := MkLib (opts_to_pass_len l) (opts_to_pass l) (longopts l) (longopts_len l)
                 (ppf_func l) get_info in
      let m := upd_lib i l m in
      match get_info with
      | None => goto_END (print (Err ("ERROR: dlsym() failed: " +:+ dlerr +:+ nl)) m)
      | Some f =>
          let '(ret, info, p) := f (Some info0) (f_proc (m_fs m)) in
          let m := on_fs (on_proc (fun _ => p)) m in
          let info := default info0 info in
          let m := upd_pi i info m in
          if ret <? 0 then goto_END (print (Err ("ERROR: plugin_get_info() failed" +:+ nl)) m)
          else if sup_opts_len info =? 0 then
            goto_END (print (Err ("ERROR: library supports no options! How so?" +:+ nl)) m)
          else
            let ppf := dlsym h sym_plugin_process_file in
            let l := MkLib (opts_to_pass_len l) (opts_to_pass l) (longopts l) (longopts_len l)
                       ppf get_info in
            let m := upd_lib i l m in
            match ppf with
            | None =>
                goto_END (print (Err ("ERROR: no plugin_process_file() function found" +:+ nl)) m)
            | Some _ =>
                let '(b1, m) := new_block m in
                let* os := copy_options (sup_opts_len info) (sup_opts info) in
                let '(b2, m) := new_block m in
                let m := upd_lib i (MkLib (opts_to_pass_len l) [] os (sup_opts_len info)
                                      ppf get_info) m in
                go (upd_blks i (Some b1, Some b2, []) m)
            end
      end
  | _, _, _ => Undef OutOfBounds
  end.

Fixpoint load_plugins (idx : list nat) (dlerr : string) (m : mstate) : flow :=
  match idx with
  | [] => go m
  | i :: idx => andthen (load_plugin i dlerr m) (load_plugins idx dlerr)
  end.

(** ** -v and -h *)

Definition option_lines (info : plugin_info) : list ev :=
  (fun o => Out (tab +:+ "--" +:+ o_name (opt o) +:+ tab +:+ tab +:+ opt_descr o +:+ nl)) <$>
  take (Z.to_nat (sup_opts_len info)) (sup_opts info).

Definition version_lines (k : nat) (info : plugin_info) : list ev :=
  [Out ("Plugin " +:+ fmt_lld (Z.of_nat k) +:+ ":" +:+ nl +:+ nl);
   Out ("Plugin purpose:" +:+ tab +:+ tab +:+ plugin_purpose info +:+ nl);
   Out ("Plugin author:" +:+ tab +:+ tab +:+ plugin_author info +:+ nl);
   Out "Supported options: "] ++
  (if 0 <? sup_opts_len info then Out nl :: option_lines info else [Out ("none (!?)" +:+ nl)]).

Definition print_all (es : list ev) (m : mstate) : mstate := fold_left (fun m e => print e m) es m.

Definition print_version (m : mstate) : mstate :=
  print_all (concat (imap version_lines (m_pi m)) ++ [Out nl]) m.

(** The six lines of the help; the source continues its literal over lines, with the
    indentation inside it. *)
Definition help_gap : string := "                    " +:+ nl.
Definition help_head : string :=
  nl +:+ tab +:+ "-P dir" +:+ tab +:+ tab +:+ " Plugin directory." +:+ help_gap +:+
  tab +:+ "-A" +:+ tab +:+ tab +:+ " Combine plugin options using AND operation (default)." +:+ help_gap +:+
  tab +:+ "-O" +:+ tab +:+ tab +:+ " Combine plugin options using OR operation." +:+ help_gap +:+
  tab +:+ "-N" +:+ tab +:+ tab +:+
  " Inverting the search condition (after combining options plugins with -A or -O)." +:+ help_gap +:+
  tab +:+ "-v" +:+ tab +:+ tab +:+
  " Display the version of the program and information about the program (full name performer, group number, laboratory version number)." +:+
  help_gap +:+
  tab +:+ "-h" +:+ tab +:+ tab +:+ " Display help for options." +:+ nl.

(** The loop over the plugins; [false] is the [return -1]. *)
Fixpoint help_lines (infos : list plugin_info) : list ev * bool :=
  match infos with
  | [] => ([], true)
  | info :: infos =>
      if 0 <? sup_opts_len info then
        let '(es, ok) := help_lines infos in (Out nl :: option_lines info ++ es, ok)
      else ([Out ("none (!?)" +:+ nl)], false)
  end.

(** ** Collecting the options given to each library *)

(** What the body of the loop does with an option that [getopt_long_only] found:
    [MkLongRet 0 opt_ind optarg _]. *)
Definition add_option (i : nat) (r : long_ret) (m : mstate) : flow :=
  match f_libs (m_fs m) !! i, m_opt_blks m !! i with
  | Some l, Some (b1, b2, args) =>
      if Z.of_nat (opts_to_pass_len l) =? longopts_len l then
        goto_END (print (Err ("ERROR: too many options!" +:+ nl)) m)
      else
        match longopts l !! lr_ind r with
        | None => Undef OutOfBounds
        | Some o =>
            let add o arg m :=
              go (upd_blks i (b1, b2, args ++ [arg])
                 (upd_lib i (MkLib (S (opts_to_pass_len l)) (opts_to_pass l ++ [o])
                    (longopts l) (longopts_len l) (ppf_func l) (pgi_info l)) m)) in
            if o_has_arg o =? 0 then add o None m
            else match lr_arg r with
                 | None => Undef NullDeref
                 | Some s =>
                     let '(id, m) := new_block m in
                     add (set_flag o (Some (strdup s))) (Some id) m
                 end
        end
  | _, _ => Undef OutOfBounds
  end.

(** The [while (1)] of one library, over the arguments that are left. *)
Fixpoint collect (i : nat) (args : list string) (m : mstate) : flow :=
  match args with
  | [] => go m
  | a :: args =>
      if streq a "--" then go m
      else match long_text a with
           | None => collect i args m
           | Some s =>
               match f_libs (m_fs m) !! i with
               | None => Undef OutOfBounds
               | Some l =>
                   let r := process_long (longopts l) s (head args) in
                   let rest := fun m =>
                     match lr_took r, args with
                     | true, _ :: args => collect i args m
                     | _, _ => collect i args m
                     end in
                   if lr_code r =? 0 then andthen (add_option i r m) rest else rest m
               end
           end
  end.

Fixpoint collect_all (idx : list nat) (args : list string) (m : mstate) : flow :=
  match idx with
  | [] => go m
  | i :: idx => andthen (collect i args m) (collect_all idx args)
  end.

(** ** END *)

Fixpoint free_args (os : list copt) (args : list (option nat)) (p : proc) : res proc :=
  match os, args with
  | o :: os, arg :: args =>
      match o_flag o with
      | None => free_args os args p
      | Some _ =>
          match arg with
          | None => Undef BadFree
          | Some id => let* p := release RBlk id p in free_args os args p
          end
      end
  | _, _ => Ok p
  end.

Fixpoint free_libs (ls : list lib) (blks : list (option nat * option nat * list (option nat)))
    (p : proc) : res proc :=
  match ls, blks with
  | l :: ls, (b1, b2, args) :: blks =>
      let* p := free_args (take (opts_to_pass_len l) (opts_to_pass l)) args p in
      let* p := release_opt RBlk b2 p in
      let* p := release_opt RBlk b1 p in
      free_libs ls blks p
  | _, _ => Ok p
  end.

(** [dlclose(dl[i])]: the null handle is dereferenced. *)
Fixpoint close_libs (n : nat) (dl : list (option (nat * dlib))) (p : proc) : res proc :=
  match n, dl with
  | O, _ => Ok p
  | S n, Some (id, _) :: dl => let* p := release RDl id p in close_libs n dl p
  | S _, _ => Undef NullDeref
  end.

Definition at_END (m : mstate) : res proc :=
  let p := f_proc (m_fs m) in
  let* p := match m_blk_plugin m with
            | None => Ok p
            | Some b =>
                let* p := free_libs (f_libs (m_fs m)) (m_opt_blks m) p in
                release RBlk b p
            end in
  let* p := close_libs (m_num_iter m) (m_dl m) p in
  let* p := release_opt RBlk (m_blk_pi m) p in
  let* p := release_opt RBlk (m_blk_dl m) p in
  let* p := release_opt RBlk (m_blk_working m) p in
  release_opt RBlk (m_blk_lib m) p.

(** ** main *)

Definition c_int (b : bool) : string := if b then "1" else "0".

Definition debug_argv (argv : list string) : list ev :=
  Out (nl +:+ "argv[]: ") :: ((fun a => Out (a +:+ " ")) <$> argv) ++ [Out nl].

Definition debug_short (o : sopts) : ev :=
  Out (nl +:+ "DEBUG: Short options: aflag = " +:+ c_int (so_aflag o) +:+ ", oflag = " +:+
       c_int (so_oflag o) +:+ ", nflag = " +:+ c_int (so_nflag o) +:+ ", vflag = " +:+
       c_int (so_vflag o) +:+ ", hflag = " +:+ c_int (so_hflag o) +:+ ", pvalue = " +:+
       default "(null)" (so_pvalue o) +:+ nl).

Definition debug_options (ls : list lib) : list ev :=
  concat ((fun l =>
    Err ("MAIN DEBUG: opts_to_pass_len = " +:+ fmt_lld (Z.of_nat (opts_to_pass_len l)) +:+ nl) ::
    ((fun o => Err ("DEBUG: passing option '" +:+ o_name o +:+ "' with arg '" +:+
        show_ptr (o_flag o) +:+ "'" +:+ nl)) <$> opts_to_pass l)) <$> ls).

Definition usage : ev :=
  Out ("Usage: ./lab1nhhN3249 --options [value] /path/to/folder " +:+ nl +:+
       "Use ./lab1nhhN3249 -h . for help" +:+ nl).

(** [dl = calloc], [get_lib], [plugin = calloc], [pi = calloc] and the loop that loads
    every plugin. *)
Definition load (E : env) (m : mstate) : flow :=
  let n := m_num_iter m in
  let '(bdl, m) := new_block m in
  let* (_, dl, p) := get_lib E (m_folder_lib m) (replicate n None) (f_proc (m_fs m)) in
  let m := on_fs (on_proc (fun _ => p)) m in
  let '(bpl, m) := new_block m in
  let '(bpi, m) := new_block m in
  let s := m_fs m in
  load_plugins (seq 0 n) (e_dlerror E)
    (MkM (MkFState (f_proc s) (f_count s) (replicate n zero_lib)) n (m_folder_working m)
       (m_folder_lib m) (m_blk_working m) (m_blk_lib m) (Some bdl) dl (Some bpl)
       (replicate n (None, None, [])) (Some bpi) (replicate n zero_info)).

(** From the options to the result line. *)
Definition run_search (E : env) (argv : list string) (o : sopts) (m : mstate) : flow :=
  andthen (collect_all (seq 0 (m_num_iter m)) (drop 1 argv) m) (fun m =>
    let m := if e_debug E then print_all (debug_options (f_libs (m_fs m))) m else m in
    let last := default EmptyString (last argv) in
    let* folder := if streq last "./" || streq last "." then Ok (m_folder_working m)
                   else strcpy_path last in
    let* s := search_dir search_fuel (e_fs E) (e_debug E)
                (MkFlags (so_aflag o) (so_oflag o) (so_nflag o)) (m_num_iter m)
                (Some folder) (m_fs m) in
    go (print (Out (nl +:+ fmt_lld (f_count s) +:+ " file(s) have been found" +:+ nl))
          (set_fs s m))).

(** What follows the short options, up to [END]; [inr] is the [return -1] of [-h]. *)
Definition main_body (E : env) (argv : list string) (o : sopts) (m : mstate)
  : res (mstate + mstate) :=
  let '(bw, m) := new_block m in
  let '(bl, m) := new_block m in
  let m := MkM (m_fs m) 0 EmptyString EmptyString (Some bw) (Some bl) None [] None [] None [] in
  match e_getcwd E with
  | inr e =>
      let m := on_fs (on_proc (set_errno e)) m in
      Ok (inl (if e_debug E then on_fs (on_proc (perror "Error getcwd() : ")) m else m))
  | inl cwd =>
      let m := print_if (e_debug E) (Out ("Current working dir: " +:+ cwd +:+ nl)) m in
      let* folder_lib := match so_pvalue o with Some v => strcpy_path v | None => Ok cwd end in
      let* (n, p) := count_so E folder_lib (f_proc (m_fs m)) in
      let m := MkM (MkFState p 0 []) n cwd folder_lib (Some bw) (Some bl) None [] None [] None [] in
      if (n <? 2)%nat && need_lib2 o then
        Ok (inl (print (Err ("ERROR: The program needs more dynamic libraries (*.so)" +:+ nl)) m))
      else
        let* (ok, m) := load E m in
        if negb ok then Ok (inl m)
        else if so_vflag o then Ok (inl (print_version m))
        else if so_hflag o then
          let '(es, ok) := help_lines (m_pi m) in
          let m := print_all (Out help_head :: es) m in
          Ok (if ok : bool then inl m else inr m)
        else
          let* (_, m) := run_search E argv o m in
          Ok (inl m)
  end.

(** The exit status and the process after [main]. *)
Definition main (E : env) (argv : list string) (p : proc) : res (Z * proc) :=
  if (length argv <? 3)%nat then Ok (0, emit usage p)
  else
    match parse_short (drop 1 argv) sopts0 with
    | None => Ok (-1, emit (Err ("Option -P requires an argument." +:+ nl)) p)
    | Some o =>
        let m := mstate0 p in
        let m := if e_debug E then print_all (debug_argv argv ++ [debug_short o]) m else m in
        let* r := main_body E argv o m in
        match r with
        | inl m => let* p := at_END m in Ok (0, p)
        | inr m => Ok (-1, f_proc (m_fs m))
        end
    end.

(** ** What main owns *)

Definition own (k : rkind) (id : option nat) : list (nat * rkind) :=
  match id with Some i => [(i, k)] | None => [] end.

Fixpoint own_args (os : list copt) (args : list (option nat)) : list (nat * rkind) :=
  match os, args with
  | o :: os, arg :: args =>
      match o_flag o with None => [] | Some _ => own RBlk arg end ++ own_args os args
  | _, _ => []
  end.

Definition own_lib (l : lib) (b : option nat * option nat * list (option nat))
  : list (nat * rkind) :=
  let '(b1, b2, args) := b in
  own_args (take (opts_to_pass_len l) (opts_to_pass l)) args ++ own RBlk b2 ++ own RBlk b1.

Definition own_libs (ls : list lib) (blks : list (option nat * option nat * list (option nat)))
  : list (nat * rkind) := concat (zip_with own_lib ls blks).

Definition own_dl (dl : list (option (nat * dlib))) : list (nat * rkind) :=
  concat ((fun h => own RDl (fst <$> h)) <$> dl).

(** Everything the pointers of [main] lead to, in the order [END] gives it back. *)
Definition owned (m : mstate) : list (nat * rkind) :=
  match m_blk_plugin m with
  | None => []
  | Some b => own_libs (f_libs (m_fs m)) (m_opt_blks m) ++ [(b, RBlk)]
  end ++
  own_dl (m_dl m) ++ own RBlk (m_blk_pi m) ++ own RBlk (m_blk_dl m) ++
  own RBlk (m_blk_working m) ++ own RBlk (m_blk_lib m).

Definition mproc (m : mstate) : proc := f_proc (m_fs m).

Lemma release_opt_holds base k id L p :
  holds base (own k id ++ L) p ->
  exists q, release_opt k id p = Ok q /\ holds base L q /\ log q = log p.
Proof.
  destruct id as [i|]; cbn; [|by eexists]. intros H.
  apply holds_release in H as [E H]. eexists; split; [exact E|done].
Qed.

Lemma free_args_holds base os args L p q :
  holds base (own_args os args ++ L) p -> free_args os args p = Ok q ->
  holds base L q /\ log q = log p.
Proof.
  revert args p. induction os as [|o os IH]; intros args p; [cbn; by intros ? [= <-]|].
  destruct args as [|arg args]; cbn [own_args free_args]; [by intros ? [= <-]|].
  destruct (o_flag o); [|apply IH]. destruct arg as [id|]; [|done]. rewrite <- (assoc_L app).
  intros H E. inv_bind. apply (release_holds _ _ _ _ _ _ H) in E0 as (H1 & <- & _).
  by eapply IH.
Qed.

Lemma free_libs_holds base ls blks L p q :
  holds base (own_libs ls blks ++ L) p -> free_libs ls blks p = Ok q ->
  holds base L q /\ log q = log p.
Proof.
  revert blks p. induction ls as [|l ls IH]; intros blks p; [cbn; by intros ? [= <-]|].
  destruct blks as [|[[b1 b2] args] blks]; cbn [free_libs]; [cbn; by intros ? [= <-]|].
  unfold own_libs. cbn [zip_with concat own_lib]. fold (own_libs ls blks).
  rewrite <- !(assoc_L app). intros H E. inv_bind.
  apply (free_args_holds _ _ _ _ _ _ H) in E0 as [H1 <-].
  apply release_opt_holds in H1 as (q1 & E1' & H2 & <-).
  apply release_opt_holds in H2 as (q2 & E2' & H3 & <-). ok_eq. by eapply IH.
Qed.

Lemma close_libs_holds base dl L p q :
  holds base (own_dl dl ++ L) p -> close_libs (length dl) dl p = Ok q ->
  holds base L q /\ log q = log p.
Proof.
  revert p. induction dl as [|[[id h]|] dl IH]; intros p; [intros H [= <-]; by split| |done].
  unfold own_dl. cbn [length close_libs fmap list_fmap concat option_fmap option_map fst own].
  intros H E. inv_bind. apply (release_holds _ _ _ _ _ _ H) in E0 as (H1 & <- & _).
  by eapply IH.
Qed.

(** If the code at [END] returns, everything [main] owned is given back. *)
Lemma at_END_holds base m q :
  m_num_iter m = length (m_dl m) -> holds base (owned m) (mproc m) -> at_END m = Ok q ->
  live q = base /\ log q = log (mproc m).
Proof.
  intros Hn H E. unfold at_END in E. rewrite Hn in E. fold (mproc m) in E. unfold owned in H.
  inv_bind.
  assert (holds base (own_dl (m_dl m) ++ own RBlk (m_blk_pi m) ++ own RBlk (m_blk_dl m) ++
    own RBlk (m_blk_working m) ++ own RBlk (m_blk_lib m)) a /\ log a = log (mproc m)) as [H1 <-].
  { destruct (m_blk_plugin m) as [b|]; [|by simplify_eq]. rewrite <- (assoc_L app) in H.
    inv_bind.
    match goal with Hf : free_libs _ _ _ = Ok _, Hr : release RBlk b _ = Ok _ |- _ =>
      apply (free_libs_holds _ _ _ _ _ _ H) in Hf as [H1 <-];
      by apply (release_holds _ _ _ _ _ _ H1) in Hr as (H2 & <- & _)
    end. }
  match goal with Hc : close_libs _ _ _ = Ok _ |- _ =>
    apply (close_libs_holds _ _ _ _ _ H1) in Hc as [H2 <-]
  end.
  apply release_opt_holds in H2 as (q1 & E2' & H3 & <-).
  apply release_opt_holds in H3 as (q2 & E3' & H4 & <-).
  apply release_opt_holds in H4 as (q3 & E4' & H5 & <-). ok_eq.
  rewrite <- (app_nil_r (own RBlk (m_blk_lib m))) in H5.
  apply release_opt_holds in H5 as (q4 & E5' & H6 & <-). ok_eq.
  by apply holds_base in H6.
Qed.

Lemma own_libs_update ls blks i l b l' b' :
  ls !! i = Some l -> blks !! i = Some b ->
  exists R, own_libs ls blks ≡ₚ own_lib l b ++ R /\
    own_libs (<[i := l']> ls) (<[i := b']> blks) ≡ₚ own_lib l' b' ++ R.
Proof.
  revert blks i. induction ls as [|l0 ls IH]; intros [|b0 blks] [|i]; cbn; try done.
  - intros [= ->] [= ->]. by exists (own_libs ls blks).
  - intros Hl Hb. destruct (IH blks i Hl Hb) as (R & E1 & E2).
    exists (own_lib l0 b0 ++ R). unfold own_libs in *. cbn [zip_with concat].
    rewrite E1, E2, !(assoc_L app), (comm app (own_lib l0 b0)).
    by rewrite (comm app (own_lib l0 b0) (own_lib l' b')).
Qed.

(** Changing one entry of [plugin] and the blocks behind it. *)
Lemma owned_update m i l b l' b' bp :
  m_blk_plugin m = Some bp -> f_libs (m_fs m) !! i = Some l -> m_opt_blks m !! i = Some b ->
  exists R, owned m ≡ₚ own_lib l b ++ R /\
    owned (upd_blks i b' (upd_lib i l' m)) ≡ₚ own_lib l' b' ++ R.
Proof.
  intros Hp Hl Hb. destruct (own_libs_update _ _ i l b l' b' Hl Hb) as (R & E1 & E2).
  unfold owned. cbn. rewrite Hp. eexists. rewrite E1, E2, <- !(assoc_L app). by split.
Qed.

(** The entries of [plugin] are in step with their blocks. *)
Definition lib_ok (l : lib) (b : option nat * option nat * list (option nat)) : Prop :=
  length (opts_to_pass l) = opts_to_pass_len l /\ length (snd b) = opts_to_pass_len l.

(** The plugins of the array satisfy [W]. *)
Definition all_ppf (W : ppf_func_t -> Prop) (ls : list lib) : Prop :=
  Forall (fun l => forall f, ppf_func l = Some f -> W f) ls.

Record owns (W : ppf_func_t -> Prop) (base : gmap nat rkind) (m : mstate) : Prop := MkOwns {
  owns_wf : proc_wf (mproc m);
  owns_holds : holds base (owned m) (mproc m);
  owns_libs : Forall2 lib_ok (f_libs (m_fs m)) (m_opt_blks m);
  owns_steady : all_ppf W (f_libs (m_fs m));
  owns_blk : is_Some (m_blk_plugin m)
}.

(** Two states with the same [dl], whose handles [END] closes. *)
Definition same_dl (m m' : mstate) : Prop :=
  m_dl m' = m_dl m /\ m_num_iter m' = m_num_iter m.

#[export] Instance same_dl_preorder : PreOrder same_dl.
Proof.
  split; [by intros m|]. intros m1 m2 m3 [??] [??]. split; congruence.
Qed.

(** A part of [main] that keeps the books. *)
Definition keeps_books (W : ppf_func_t -> Prop) (base : gmap nat rkind) (f : mstate -> flow) : Prop :=
  forall m c m', f m = Ok (c, m') -> same_dl m m' /\ (owns W base m -> owns W base m').

Lemma keeps_books_andthen W base f g :
  keeps_books W base f -> keeps_books W base g ->
  keeps_books W base (fun m => andthen (f m) g).
Proof.
  intros Hf Hg m c m' H. unfold andthen in H. inv_bind. destruct a as [[] m1].
  - apply Hf in E as [Hd1 Ho1]. apply Hg in H as [Hd2 Ho2]. split; [by etrans|auto].
  - injection H as <- <-. by eapply Hf.
Qed.

Lemma owns_on_proc W base g m :
  (forall p, keeps p (g p)) -> owns W base m -> owns W base (on_fs (on_proc g) m).
Proof.
  intros Hg [Hwf Hh Hl Hs Hb]. split; try done.
  - eapply proc_wf_keeps; [apply Hg|exact Hwf].
  - eapply holds_live; [|exact Hh]. symmetry. apply Hg.
Qed.

Lemma owns_print W base e m : owns W base m -> owns W base (print e m).
Proof. apply owns_on_proc. auto with cdb. Qed.

Lemma same_dl_on_fs g m : same_dl m (on_fs g m).
Proof. done. Qed.

Lemma print_all_snoc es e m : print_all (es ++ [e]) m = print e (print_all es m).
Proof. unfold print_all. by rewrite fold_left_app. Qed.

Lemma owns_print_all W base es m : owns W base m -> owns W base (print_all es m).
Proof.
  revert m. induction es as [|e es IH]; intros m H; [done|]. cbn. by apply IH, owns_print.
Qed.

Lemma same_dl_print_all es m : same_dl m (print_all es m).
Proof.
  revert m. induction es as [|e es IH]; intros m; [done|]. cbn.
  etrans; [apply (same_dl_on_fs (on_proc (emit e)))|apply IH].
Qed.

(** What [main] needs of [plugin_get_info]. *)
Definition info_laws (f : pgi_func_t) : Prop :=
  forall x p ret x' p', f x p = (ret, x', p') ->
    keeps p p' /\ forall i, x' = Some i -> 0 <= sup_opts_len i.

Definition lawful (W : ppf_func_t -> Prop) (h : dlib) : Prop :=
  (forall f, sym_plugin_get_info h = Some f -> info_laws f) /\
  (forall f, sym_plugin_process_file h = Some f -> W f).

Definition lawful_dl (W : ppf_func_t -> Prop) (dl : list (option (nat * dlib))) : Prop :=
  forall i id h, dl !! i = Some (Some (id, h)) -> lawful W h.

(** [plugin[i]] and [pi[i]] are as [calloc] left them. *)
Definition unloaded (i : nat) (m : mstate) : Prop :=
  m_opt_blks m !! i = Some (None, None, []) /\
  exists l, f_libs (m_fs m) !! i = Some l /\ opts_to_pass_len l = O /\ opts_to_pass l = [] /\
    exists x, m_pi m !! i = Some x /\ 0 <= sup_opts_len x.

Lemma unloaded_upd_lib i j l m : i <> j -> unloaded i m -> unloaded i (upd_lib j l m).
Proof.
  intros Hij (Hb & l0 & Hl & H). split; [done|]. exists l0. cbn.
  by rewrite list_lookup_insert_ne by done.
Qed.

Lemma unloaded_upd_pi i j x m : i <> j -> unloaded i m -> unloaded i (upd_pi j x m).
Proof.
  intros Hij (Hb & l0 & Hl & Hn & Ho & x0 & Hx & Hle). split; [done|]. exists l0.
  repeat split; try done. exists x0. cbn. by rewrite list_lookup_insert_ne by done.
Qed.

Lemma unloaded_upd_blks i j b m : i <> j -> unloaded i m -> unloaded i (upd_blks j b m).
Proof.
  intros Hij (Hb & H). split; [|done]. cbn. by rewrite list_lookup_insert_ne by done.
Qed.

Lemma unloaded_on_proc i g m : unloaded i m -> unloaded i (on_fs (on_proc g) m).
Proof. done. Qed.

(** Replacing [plugin[i]] by an entry that owns nothing either. *)
Lemma owns_upd_lib W base i l l' m :
  owns W base m -> f_libs (m_fs m) !! i = Some l ->
  opts_to_pass_len l' = opts_to_pass_len l -> opts_to_pass l' = opts_to_pass l ->
  (forall f, ppf_func l' = Some f -> W f) ->
  owns W base (upd_lib i l' m).
Proof.
  intros [Hwf Hh Hl Hs [bp Hb]] Hi Hn Ho Hf.
  destruct (Forall2_lookup_l _ _ _ _ _ Hl Hi) as ([[b1 b2] args] & Hbi & Hok).
  destruct (owned_update m i l _ l' (b1, b2, args) bp Hb Hi Hbi) as (R & E1 & E2).
  assert (upd_blks i (b1, b2, args) (upd_lib i l' m) = upd_lib i l' m) as Eu.
  { unfold upd_blks. cbn [m_opt_blks upd_lib on_fs set_fs]. by rewrite list_insert_id. }
  rewrite Eu in E2. split.
  - done.
  - eapply holds_perm; [|exact Hh]. rewrite E1, E2. cbn. by rewrite Hn, Ho.
  - cbn. rewrite <- (list_insert_id (m_opt_blks m) i (b1, b2, args)) by done.
    apply Forall2_insert; [done|]. unfold lib_ok in *. by rewrite Hn, Ho.
  - cbn. by apply Forall_insert.
  - by eexists.
Qed.

Lemma keeps_acquire_log k p : log (snd (acquire k p)) = log p.
Proof. done. Qed.

(** The two blocks of a loaded plugin. *)
Lemma owns_loaded W base i l l' m m1 m2 b1 b2 :
  owns W base m -> f_libs (m_fs m) !! i = Some l -> m_opt_blks m !! i = Some (None, None, []) ->
  opts_to_pass_len l' = O -> opts_to_pass l' = [] ->
  (forall f, ppf_func l' = Some f -> W f) ->
  new_block m = (b1, m1) -> new_block m1 = (b2, m2) ->
  owns W base (upd_blks i (Some b1, Some b2, []) (upd_lib i l' m2)).
Proof.
  intros [Hwf Hh Hl Hs [bp Hb]] Hi Hbi Hn Ho Hf [= <- <-] [= <- <-].
  assert (own_lib l (None, None, []) = []) as Hl0.
  { cbn. by destruct (take _ _). }
  destruct (owned_update m i l _ l' (Some (next_id (mproc m)), Some (S (next_id (mproc m))), [])
    bp Hb Hi Hbi) as (R & E1 & E2). rewrite Hl0 in E1.
  pose proof (holds_acquire _ _ RBlk _ Hwf Hh) as H1.
  apply (holds_acquire _ _ RBlk) in H1; [|by apply proc_wf_acquire].
  split.
  - apply (proc_wf_acquire RBlk (snd (acquire RBlk (mproc m)))). by apply proc_wf_acquire.
  - eapply holds_perm; [|exact H1]. rewrite E1. unfold owned in *. cbn in *. rewrite Hb in *.
    rewrite E2, Hn, Ho. cbn. done.
  - cbn. apply Forall2_insert; [done|]. split; cbn; [by rewrite Ho, Hn|by rewrite Hn].
  - cbn. by apply Forall_insert.
  - by eexists.
Qed.

Lemma new_block_spec m : exists id s, new_block m = (id, set_fs s m).
Proof. unfold new_block. destruct (acquire_s RBlk (m_fs m)) as [id s]. by exists id, s. Qed.

Lemma new_block_libs m id m' :
  new_block m = (id, m') -> f_libs (m_fs m') = f_libs (m_fs m) /\ m_pi m' = m_pi m /\
    m_opt_blks m' = m_opt_blks m /\ same_dl m m'.
Proof. by intros [= <- <-]. Qed.

Lemma unloaded_new_block i m id m' : new_block m = (id, m') -> unloaded i m -> unloaded i m'.
Proof. by intros [= <- <-]. Qed.

Lemma load_plugin_books W base i dlerr m c m' :
  lawful_dl W (m_dl m) -> unloaded i m -> load_plugin i dlerr m = Ok (c, m') ->
  same_dl m m' /\ (owns W base m -> owns W base m') /\
  (forall j, j <> i -> unloaded j m -> unloaded j m') /\
  (forall j, j <> i -> m_pi m' !! j = m_pi m !! j) /\
  (c = true -> exists x, m_pi m' !! i = Some x /\ 0 < sup_opts_len x).
Proof.
  intros Hlaw Hun H. unfold load_plugin in H.
  destruct Hun as (Hbi & l & Hi & Hn & Ho & x & Hx & Hx0).
  destruct (m_dl m !! i) as [h|] eqn:Hh; [|done]. rewrite Hi, Hx in H.
  assert (forall f, dlsym h sym_plugin_get_info = Some f -> info_laws f) as Hgi.
  { intros f Hf. destruct h as [[id h]|]; [|done]. by eapply Hlaw. }
  assert (forall f, dlsym h sym_plugin_process_file = Some f -> W f) as Hst.
  { intros f Hf. destruct h as [[id h]|]; [|done]. by eapply Hlaw. }
  set (l1 := MkLib _ _ _ _ _ (dlsym h sym_plugin_get_info)) in *.
  set (m1 := upd_lib i l1 m) in *.
  assert (owns W base m -> owns W base m1) as H1.
  { intros Hown. eapply owns_upd_lib; [done|exact Hi|done|done|]. cbn. intros f Hf.
    by apply (proj1 (Forall_lookup _ _) (owns_steady _ _ _ Hown) i l Hi). }
  assert (forall j, j <> i -> unloaded j m -> unloaded j m1) as U1.
  { intros j Hj. by apply unloaded_upd_lib. }
  assert (f_libs (m_fs m1) !! i = Some l1) as Hi1.
  { apply list_lookup_insert_eq. by eapply lookup_lt_Some. }
  destruct (dlsym h sym_plugin_get_info) as [f|] eqn:Hf.
  2:{ injection H as <- <-. split; [done|]. split; [intros; by apply owns_print, H1|].
      split; [intros; by apply unloaded_on_proc, U1|]. by split. }
  destruct (f (Some x) (f_proc (m_fs m1))) as [[ret info] p] eqn:Ef.
  destruct (Hgi f eq_refl _ _ _ _ _ Ef) as [Hkeep Hpos].
  set (y := default x info) in *. assert (0 <= sup_opts_len y) as Hy.
  { unfold y. destruct info; [by apply Hpos|done]. }
  set (m2 := upd_pi i y (on_fs (on_proc (fun _ => p)) m1)) in *.
  assert (owns W base m -> owns W base m2) as H2.
  { intros Hown. apply H1 in Hown as [Hwf Hhd Hl Hs Hb]. split; try done.
    - by eapply proc_wf_keeps.
    - eapply holds_live; [|exact Hhd]. symmetry. apply Hkeep. }
  assert (forall j, j <> i -> unloaded j m -> unloaded j m2) as U2.
  { intros j Hj Hu. by apply unloaded_upd_pi, unloaded_on_proc, U1. }
  assert (forall j, j <> i -> m_pi m2 !! j = m_pi m !! j) as P2.
  { intros j Hj. cbn. by rewrite list_lookup_insert_ne. }
  assert (m_pi m2 !! i = Some y) as Py.
  { apply list_lookup_insert_eq. by eapply lookup_lt_Some. }
  assert (forall e, Ok (false, print e m2) = Ok (c, m') ->
    same_dl m m' /\ (owns W base m -> owns W base m') /\
    (forall j, j <> i -> unloaded j m -> unloaded j m') /\
    (forall j, j <> i -> m_pi m' !! j = m_pi m !! j) /\
    (c = true -> exists x, m_pi m' !! i = Some x /\ 0 < sup_opts_len x)) as Hstop.
  { intros e [= <- <-]. split; [done|]. split; [intros; by apply owns_print, H2|].
    split; [intros; by apply unloaded_on_proc, U2|]. by split. }
  destruct (ret <? 0); [by eapply Hstop|].
  destruct (Z.eqb_spec (sup_opts_len y) 0) as [|Hne]; [by eapply Hstop|].
  set (l2 := MkLib _ _ _ _ (dlsym h sym_plugin_process_file) _) in *.
  set (m3 := upd_lib i l2 m2) in *.
  assert (owns W base m -> owns W base m3) as H3.
  { intros Hown. eapply owns_upd_lib; [by apply H2|exact Hi1|done|done|exact Hst]. }
  assert (forall j, j <> i -> unloaded j m -> unloaded j m3) as U3.
  { intros j Hj Hu. by apply unloaded_upd_lib, U2. }
  assert (f_libs (m_fs m3) !! i = Some l2) as Hi3.
  { apply list_lookup_insert_eq. by eapply lookup_lt_Some. }
  destruct (dlsym h sym_plugin_process_file) as [g|] eqn:Hg.
  2:{ injection H as <- <-. split; [done|]. split; [intros; by apply owns_print, H3|].
      split; [intros; by apply unloaded_on_proc, U3|]. by split. }
  destruct (new_block m3) as [b1 m4] eqn:B1.
  destruct (copy_options (sup_opts_len y) (sup_opts y)) as [os| |] eqn:Hc; cbn [rbind] in H;
    [|done|done].
  destruct (new_block m4) as [b2 m5] eqn:B2. injection H as <- <-.
  pose proof (new_block_libs _ _ _ B1) as (_ & Ep4 & _ & Hd4).
  pose proof (new_block_libs _ _ _ B2) as (_ & Ep5 & _ & Hd5).
  split; [exact (transitivity (R:=same_dl) (y:=m4) Hd4 Hd5)|]. split.
  { intros Hown. eapply (owns_loaded W base i l2 _ m3 m4 m5 b1 b2);
      [by apply H3|exact Hi3|exact Hbi|exact Hn|done|exact Hst|done|done]. }
  split.
  { intros j Hj Hu. apply unloaded_upd_blks, unloaded_upd_lib; [done..|].
    by eapply unloaded_new_block, unloaded_new_block, U3. }
  cbn. rewrite Ep5, Ep4. split; [exact P2|]. intros _. exists y. split; [exact Py|lia].
Qed.

Lemma load_plugins_books W base idx dlerr m c m' :
  NoDup idx -> lawful_dl W (m_dl m) -> (forall i, i ∈ idx -> unloaded i m) ->
  load_plugins idx dlerr m = Ok (c, m') ->
  same_dl m m' /\ (owns W base m -> owns W base m') /\
  (forall j, j ∉ idx -> m_pi m' !! j = m_pi m !! j) /\
  (c = true -> forall i, i ∈ idx -> exists x, m_pi m' !! i = Some x /\ 0 < sup_opts_len x).
Proof.
  revert m. induction idx as [|i idx IH]; intros m Hnd Hlaw Hun H; cbn [load_plugins] in H.
  - injection H as <- <-. split; [done|]. split; [done|]. split; [done|].
    by intros _ i ?%not_elem_of_nil.
  - apply NoDup_cons in Hnd as [Hi Hnd]. unfold andthen in H. inv_bind. destruct a as [go1 m1].
    assert (i ∈ i :: idx) as Hin by by left.
    destruct (load_plugin_books W base i dlerr m go1 m1 Hlaw (Hun i Hin) E)
      as (Hd & Ho & Hu & Hp & Hx).
    destruct go1.
    + destruct (IH m1) as (Hd' & Ho' & Hp' & Hx'); [done| | |done|].
      { destruct Hd as [-> _]. done. }
      { intros j Hj. apply Hu; [set_solver|]. apply Hun. by right. }
      split; [by etrans|]. split; [auto|]. split.
      * intros j Hj. apply not_elem_of_cons in Hj as [Hji Hj]. by rewrite Hp', Hp.
      * intros -> j [-> |Hj]%elem_of_cons; [|by apply Hx'].
        rewrite Hp' by done. by apply Hx.
    + injection H as <- <-. split; [done|]. split; [done|]. split; [|done].
      intros j Hj. apply not_elem_of_cons in Hj as [Hji Hj]. by apply Hp.
Qed.

Lemma own_args_snoc os args o arg :
  length os = length args ->
  own_args (os ++ [o]) (args ++ [arg]) =
  own_args os args ++ match o_flag o with None => [] | Some _ => own RBlk arg end.
Proof.
  revert args. induction os as [|o1 os IH]; intros [|a args] Hl; cbn in *; try done.
  - by rewrite app_nil_r.
  - rewrite IH by lia. by rewrite (assoc_L app).
Qed.

Definition add_lib (l : lib) (o : copt) : lib :=
  MkLib (S (opts_to_pass_len l)) (opts_to_pass l ++ [o]) (longopts l) (longopts_len l)
    (ppf_func l) (pgi_info l).

Lemma own_lib_add l b1 b2 args o arg :
  lib_ok l (b1, b2, args) ->
  own_lib (add_lib l o) (b1, b2, args ++ [arg]) ≡ₚ
  match o_flag o with None => [] | Some _ => own RBlk arg end ++ own_lib l (b1, b2, args).
Proof.
  intros [Ho Ha]. cbn in Ha. cbn [own_lib add_lib opts_to_pass opts_to_pass_len].
  rewrite take_ge by (rewrite length_app; cbn; lia).
  rewrite (take_ge (opts_to_pass l)) by lia. rewrite own_args_snoc by lia.
  rewrite (comm app (own_args _ _)). by rewrite <- (assoc_L app).
Qed.

(** One more option in [plugin[i]], whose argument is what [L] says [m] acquired. *)
Lemma owns_add W base i l b1 b2 args o arg p m :
  owns W base m -> f_libs (m_fs m) !! i = Some l -> m_opt_blks m !! i = Some (b1, b2, args) ->
  proc_wf p ->
  holds base (match o_flag o with None => [] | Some _ => own RBlk arg end ++ owned m) p ->
  owns W base (upd_blks i (b1, b2, args ++ [arg])
    (upd_lib i (add_lib l o) (on_fs (on_proc (fun _ => p)) m))).
Proof.
  intros [Hwf Hh Hl Hs [bp Hb]] Hi Hbi Hwfp Hp.
  destruct (owned_update m i l _ (add_lib l o) (b1, b2, args ++ [arg]) bp Hb Hi Hbi)
    as (R & E1 & E2).
  pose proof (Forall2_lookup_lr _ _ _ _ _ _ Hl Hi Hbi) as Hok. split.
  - done.
  - eapply holds_perm; [|exact Hp]. rewrite E1.
    etrans; [|symmetry; exact E2]. rewrite own_lib_add by done. by rewrite <- (assoc_L app).
  - cbn. apply Forall2_insert; [done|]. destruct Hok as [H1 H2]. cbn in H2.
    split; cbn; rewrite length_app; cbn; lia.
  - cbn. apply Forall_insert; [done|]. cbn. by apply (proj1 (Forall_lookup _ _) Hs i l Hi).
  - by eexists.
Qed.

(** The options of a library have no [flag] of their own. *)
Lemma add_option_books W base i r : keeps_books W base (add_option i r).
Proof.
  intros m c m' H. unfold add_option in H.
  destruct (f_libs (m_fs m) !! i) as [l|] eqn:Hi; [|done].
  destruct (m_opt_blks m !! i) as [[[b1 b2] args]|] eqn:Hbi; [|done].
  destruct (_ =? longopts_len l).
  { injection H as <- <-. split; [done|]. by apply owns_print. }
  destruct (longopts l !! lr_ind r) as [o|]; [|done].
  destruct (o_has_arg o =? 0).
  - injection H as <- <-. split; [done|]. intros Hown.
    apply (owns_add W base i l b1 b2 args o None (mproc m) m Hown Hi Hbi).
    + apply Hown.
    + replace (match o_flag o with None => [] | Some _ => own RBlk None end)
        with (@nil (nat * rkind)) by (by destruct (o_flag o)).
      apply Hown.
  - destruct (lr_arg r) as [s|]; [|done]. injection H as <- <-. split; [done|]. intros Hown.
    apply (owns_add W base i l b1 b2 args (set_flag o (Some (strdup s))) _
      (snd (acquire RBlk (mproc m))) m Hown Hi Hbi).
    + apply proc_wf_acquire, Hown.
    + apply holds_acquire; apply Hown.
Qed.

Lemma keeps_books_go W base : keeps_books W base go.
Proof. by intros m c m' [= <- <-]. Qed.

Lemma collect_books W base i args : keeps_books W base (collect i args).
Proof.
  induction args as [args IH] using (induction_ltof1 _ (@length string)).
  unfold ltof in IH. destruct args as [|a args]; cbn [collect]; [apply keeps_books_go|].
  destruct (streq a "--"); [apply keeps_books_go|].
  destruct (long_text a) as [s|]; [|apply IH; cbn; lia].
  intros m c m'. destruct (f_libs (m_fs m) !! i) as [l|]; [|done].
  set (r := process_long (longopts l) s (head args)).
  assert (keeps_books W base (fun m => match lr_took r, args with
    | true, _ :: args => collect i args m | _, _ => collect i args m end)) as Hrest.
  { destruct (lr_took r), args as [|b args]; apply IH; cbn; lia. }
  destruct (lr_code r =? 0); [|apply Hrest].
  apply (keeps_books_andthen W base (add_option i r) _ (add_option_books W base i r) Hrest).
Qed.

Lemma collect_all_books W base idx args : keeps_books W base (collect_all idx args).
Proof.
  induction idx as [|i idx IH]; [apply keeps_books_go|].
  apply (keeps_books_andthen W base _ _ (collect_books W base i args) IH).
Qed.

(** [base'] is [base] and [X] on top of it. *)
Definition on_top (base : gmap nat rkind) (X : list (nat * rkind)) (base' : gmap nat rkind) : Prop :=
  NoDup X.*1 /\ (forall id, id ∈ X.*1 -> base !! id = None) /\ base' = list_to_map X ∪ base.

Lemma on_top_holds base X base' q : on_top base X base' -> live q = base' -> holds base X q.
Proof. intros (Hnd & Hb & E) Hq. split; [done|]. split; [done|]. by rewrite Hq. Qed.

Lemma on_top_nil base : on_top base [] base.
Proof.
  split; [constructor|]. split; [by intros ? ?%not_elem_of_nil|].
  cbn. by rewrite (left_id_L ∅ (∪)).
Qed.

Lemma holds_on_top base L X p : holds base (L ++ X) p -> on_top base X (list_to_map X ∪ base).
Proof.
  intros (Hnd & Hb & _). rewrite fmap_app in Hnd, Hb. apply NoDup_app in Hnd as (_ & _ & Hnd).
  split; [done|]. split; [|done]. intros id Hid. apply Hb, elem_of_app. by right.
Qed.

Section Books.
Context (S : string -> list (nat * rkind) -> Prop).

(** The search changes the process and the texts of the options only; what it leaves
    behind is on top of what was there. *)
Lemma owns_search k base m s es :
  owns (keeps_laws S k) base m -> left_over (lost es) (m_fs m) s ->
  exists base', on_top base (lost es) base' /\ owns (keeps_laws S k) base' (set_fs s m).
Proof.
  intros [Hwf Hh Hl Hs Hb] H. pose proof (lo_libs _ _ _ H) as Hls.
  pose proof (holds_trans _ _ _ _ _ Hh (lo_holds _ _ _ H)) as Hall.
  eapply holds_perm in Hall; [|apply (comm app)].
  eexists. split; [by eapply holds_on_top|]. apply holds_rest in Hall. split.
  - by apply (lo_wf _ _ _ H).
  - assert (own_libs (f_libs s) (m_opt_blks m) = own_libs (f_libs (m_fs m)) (m_opt_blks m)) as E.
    { clear -Hls. generalize (m_opt_blks m) as blks. unfold own_libs.
      induction Hls as [|l l' ls ls' (os & -> & Hsh) Hls IH]; intros blks; [done|].
      destruct blks as [|[[b1 b2] args] blks]; [done|]. cbn. rewrite IH. f_equal. f_equal.
      clear -Hsh. generalize (opts_to_pass_len l) as n.
      revert os args Hsh. generalize (opts_to_pass l) as os1.
      induction os1 as [|o os1 IH]; intros [|o' os] args Hsh n; try done.
      unfold same_shape in Hsh. cbn in Hsh. injection Hsh as H1 H2 H3 H4 Hsh.
      destruct n as [|n], args as [|a args]; try done. cbn.
      rewrite (IH os args Hsh). f_equal. by destruct (o_flag o), (o_flag o'). }
    unfold owned in *. cbn. rewrite E. exact Hall.
  - cbn. clear -Hl Hls. revert Hl. generalize (m_opt_blks m) as blks.
    induction Hls as [|l l' ls ls' (os & -> & Hsh) Hls IH]; intros blks Hl; [done|].
    apply Forall2_cons_inv_l in Hl as (b & blks' & [H1 H2] & Hl & ->). constructor; [|by apply IH].
    split; cbn; [|done]. by rewrite <- (same_shape_length _ _ Hsh).
  - by eapply left_over_lawful.
  - done.
Qed.

Lemma run_search_books E base argv o m c m' :
  run_search E argv o m = Ok (c, m') ->
  same_dl m m' /\ (owns (keeps_laws S (e_fs E)) base m -> exists es base', Forall (fair S) es /\
    on_top base (lost es) base' /\ owns (keeps_laws S (e_fs E)) base' m').
Proof.
  intros H. unfold run_search, andthen in H. inv_bind. destruct a as [[] m0].
  2:{ simplify_eq. apply (collect_all_books (keeps_laws S (e_fs E)) base) in E0 as [Hd Ho]. split; [done|].
      intros Hown. exists [], base. split; [done|]. split; [apply on_top_nil|auto]. }
  apply (collect_all_books (keeps_laws S (e_fs E)) base) in E0 as [Hd0 Ho0].
  set (m1 := if e_debug E then _ else m0) in H.
  assert (same_dl m0 m1 /\ (owns (keeps_laws S (e_fs E)) base m0 -> owns (keeps_laws S (e_fs E)) base m1))
    as [Hd Ho].
  { unfold m1. destruct (e_debug E); [|done].
    split; [apply same_dl_print_all|apply owns_print_all]. }
  inv_bind. injection H as <- <-. split; [etrans; [exact Hd0|exact Hd]|].
  intros Hown. apply Ho0, Ho in Hown.
  match goal with Hs : search_dir _ _ _ _ _ _ _ = Ok _ |- _ =>
    apply (search_dir_left S) in Hs as (es & Hleft & Hfair); [|apply Hown..] end.
  destruct (owns_search _ _ _ _ _ Hown Hleft) as (base' & Htop & Hown').
  exists es, base'. split; [done|]. split; [done|]. by apply owns_print.
Qed.
End Books.

(** ** Opening the libraries *)

Lemma keeps_opendir_failed e p : keeps p (opendir_failed e p).
Proof. unfold opendir_failed, perror. etrans; [apply keeps_set_errno|apply keeps_emit]. Qed.

Lemma count_so_keeps E folder p n q :
  proc_wf p -> count_so E folder p = Ok (n, q) -> keeps p q.
Proof.
  intros Hwf H. unfold count_so in H. destruct (k_opendir (e_fs E) folder) as [ents|e].
  - cbn [acquire] in H. inv_bind. simplify_eq.
    pose proof (holds_acquire _ _ RDir _ Hwf (holds_nil p)) as Hh.
    apply (release_holds _ _ _ _ _ _ Hh) in E1 as (H1 & Hlog & _ & Hn).
    apply holds_base in H1. split; [done|]. rewrite Hlog, Hn. cbn. split; [lia|done].
  - simplify_eq. apply keeps_opendir_failed.
Qed.

Lemma own_dl_insert dl i id h :
  dl !! i = Some None -> own_dl (<[i := Some (id, h)]> dl) ≡ₚ (id, RDl) :: own_dl dl.
Proof.
  revert i. induction dl as [|x dl IH]; intros [|i] H; try done.
  - cbn in H. by simplify_eq.
  - unfold own_dl in *. cbn. rewrite IH by done. cbn. by rewrite Permutation_middle.
Qed.

(** The entries of [dl] from [i] on are still null. *)
Definition null_from (i : nat) (dl : list (option (nat * dlib))) : Prop :=
  forall j x, (i <= j)%nat -> dl !! j = Some x -> x = None.

Lemma null_from_insert i dl x : null_from i dl -> null_from (S i) (<[i := x]> dl).
Proof.
  intros H j y Hj Hy. rewrite list_lookup_insert_ne in Hy by lia. apply (H j); [lia|done].
Qed.

Lemma get_lib_entries_spec E base L folder ents i dl p ok dl' q :
  proc_wf p -> holds base (own_dl dl ++ L) p -> null_from i dl ->
  (forall i id h, dl !! i = Some (Some (id, h)) -> exists path, e_dlopen E path = Some h) ->
  get_lib_entries E folder ents i dl p = Ok (ok, dl', q) ->
  length dl' = length dl /\
  (forall i id h, dl' !! i = Some (Some (id, h)) -> exists path, e_dlopen E path = Some h) /\
  (ok = false -> None ∈ dl') /\
  (ok = true -> proc_wf q /\ holds base (own_dl dl' ++ L) q).
Proof.
  revert i dl p. induction ents as [|[kd name] ents IH]; intros i dl p Hwf Hh Hnull Hdl;
    cbn [get_lib_entries d_kind d_name].
  - intros [= <- <- <-]. split; [done|]. split; [done|]. by split.
  - destruct kd; [|by apply IH|by apply IH]. intros H. inv_bind.
    destruct (is_lib a); [|by eapply IH].
    destruct (dl !! i) as [x|] eqn:Hi; [|done].
    assert (x = None) as -> by (by eapply Hnull).
    destruct (e_dlopen E a) as [h|] eqn:Hopen.
    + cbn [acquire] in H. eapply IH in H as (Hlen & H).
      * split; [by rewrite Hlen, length_insert|exact H].
      * destruct (e_debug E); by apply (proc_wf_acquire RDl p).
      * eapply (holds_live _ _ (snd (acquire RDl p))); [by destruct (e_debug E)|].
        eapply holds_perm; [|by apply holds_acquire]. by rewrite own_dl_insert.
      * by apply null_from_insert.
      * intros j id h' Hj. destruct (decide (i = j)) as [<-|Hne].
        -- rewrite list_lookup_insert_eq in Hj by (by eapply lookup_lt_Some). simplify_eq. eauto.
        -- rewrite list_lookup_insert_ne in Hj by done. by eapply Hdl.
    + simplify_eq. rewrite length_insert. split; [done|]. split.
      * intros j id h Hj. rewrite list_insert_id in Hj by done. by eapply Hdl.
      * split; [|done]. intros _. rewrite list_insert_id by done.
        by eapply list_elem_of_lookup_2.
Qed.

Lemma own_dl_replicate n : own_dl (replicate n None) = [].
Proof. induction n; [done|]. unfold own_dl in *. by cbn. Qed.

Lemma get_lib_spec E base L folder n p ret dl q :
  proc_wf p -> holds base L p ->
  get_lib E folder (replicate n None) p = Ok (ret, dl, q) ->
  length dl = n /\
  (forall i id h, dl !! i = Some (Some (id, h)) -> exists path, e_dlopen E path = Some h) /\
  (None ∈ dl \/ proc_wf q /\ holds base (own_dl dl ++ L) q).
Proof.
  intros Hwf Hh H. unfold get_lib in H.
  assert (forall i id h, replicate n (@None (nat * dlib)) !! i = Some (Some (id, h)) ->
    exists path, e_dlopen E path = Some h) as Hrep.
  { intros i id h Hi. by apply lookup_replicate in Hi as [? _]. }
  destruct (k_opendir (e_fs E) folder) as [ents|e].
  - cbn [acquire] in H. inv_bind. destruct a as [[ok dl1] p1].
    pose proof (holds_acquire _ _ RDir _ Hwf Hh) as H1.
    apply (holds_acquire _ _ RBlk) in H1; [|by apply proc_wf_acquire].
    apply (get_lib_entries_spec E base ((S (next_id p), RBlk) :: (next_id p, RDir) :: L)) in E0
      as (Hlen & Hdl & Hbad & Hok).
    + rewrite length_replicate in Hlen. destruct ok.
      * inv_bind. simplify_eq. split; [done|]. split; [done|]. right.
        destruct (Hok eq_refl) as [Hwf1 Hh1].
        apply holds_middle in Hh1.
        match goal with Hb : release RBlk _ _ = Ok _, Hd : release RDir _ _ = Ok _ |- _ =>
          pose proof (proc_wf_release _ _ _ _ (proc_wf_release _ _ _ _ Hwf1 Hb) Hd);
          apply (release_holds _ _ _ _ _ _ Hh1) in Hb as [Hh2 _]; apply holds_middle in Hh2;
          by apply (release_holds _ _ _ _ _ _ Hh2) in Hd as [Hh3 _]
        end.
      * simplify_eq. split; [done|]. split; [done|]. left. auto.
    + apply (proc_wf_acquire RBlk (snd (acquire RDir p))). by apply proc_wf_acquire.
    + by rewrite own_dl_replicate.
    + intros j x _ Hj. by apply lookup_replicate in Hj as [-> _].
    + done.
  - simplify_eq. rewrite length_replicate. split; [done|]. split; [done|]. right.
    split; [eapply proc_wf_keeps; [apply keeps_opendir_failed|done]|].
    rewrite own_dl_replicate. eapply holds_live; [|exact Hh]. done.
Qed.

(** ** Every way out of main *)

Lemma close_libs_null dl p q : None ∈ dl -> close_libs (length dl) dl p <> Ok q.
Proof.
  revert p. induction dl as [|[[id h]|] dl IH]; intros p Hin; cbn [length close_libs].
  - by apply not_elem_of_nil in Hin.
  - apply elem_of_cons in Hin as [?|Hin]; [done|]. intros H. inv_bind. by eapply IH.
  - done.
Qed.

(** The books are in order, or a null handle waits for [dlclose]. *)
Definition books (W : ppf_func_t -> Prop) (base : gmap nat rkind) (m : mstate) : Prop :=
  m_num_iter m = length (m_dl m) /\ (None ∈ m_dl m \/ owns W base m).

Lemma books_step W base m m' :
  same_dl m m' /\ (owns W base m -> owns W base m') -> books W base m -> books W base m'.
Proof.
  intros [[Hd Hn] Ho] [Hlen Hb]. split; [by rewrite Hd, Hn|]. rewrite Hd.
  destruct Hb; auto.
Qed.

Lemma at_END_books W base m q : books W base m -> at_END m = Ok q -> live q = base.
Proof.
  intros [Hn [Hbad|Hown]] H.
  - unfold at_END in H. inv_bind. rewrite Hn in *.
    match goal with Hc : close_libs _ _ _ = Ok _ |- _ => by apply close_libs_null in Hc end.
  - eapply at_END_holds in H as [H _]; [exact H|done|by apply (owns_holds _ _ _ Hown)].
Qed.

Lemma own_libs_replicate n : own_libs (replicate n zero_lib) (replicate n (None, None, [])) = [].
Proof. induction n as [|n IH]; [done|]. unfold own_libs in *. cbn. done. Qed.

(** [calloc] for [plugin] and [pi]: everything is owned, nothing loaded. *)
Lemma owns_loaded_libs W base n dl bdl bpl bpi m p q :
  proc_wf p -> holds base (own_dl dl ++ (bdl, RBlk) ::
    own RBlk (m_blk_working m) ++ own RBlk (m_blk_lib m)) p ->
  acquire RBlk p = (bpl, q) -> bpi = next_id q ->
  owns W base (MkM (MkFState (snd (acquire RBlk q)) (f_count (m_fs m)) (replicate n zero_lib)) n
    (m_folder_working m) (m_folder_lib m) (m_blk_working m) (m_blk_lib m) (Some bdl) dl
    (Some bpl) (replicate n (None, None, [])) (Some bpi) (replicate n zero_info)).
Proof.
  intros Hwf Hh Hq ->. pose proof (holds_acquire _ _ RBlk _ Hwf Hh) as H1.
  pose proof (proc_wf_acquire RBlk _ Hwf) as Hwf1. rewrite Hq in H1, Hwf1. cbn [snd] in *.
  assert (bpl = next_id p) as -> by (by injection Hq as <- _).
  pose proof (holds_acquire _ _ RBlk _ Hwf1 H1) as H2. split.
  - by apply proc_wf_acquire.
  - eapply holds_perm; [|exact H2]. unfold owned. cbn [m_blk_plugin m_fs f_libs m_opt_blks].
    rewrite own_libs_replicate. cbn [app own m_dl m_blk_pi m_blk_dl m_blk_working m_blk_lib].
    etrans; [apply perm_swap|]. apply perm_skip, Permutation_middle.
  - cbn. apply Forall2_same_length_lookup_2; [by rewrite !length_replicate|].
    intros i l b Hl Hb. apply lookup_replicate in Hl as [-> _], Hb as [-> _]. done.
  - cbn. by apply Forall_replicate.
  - by eexists.
Qed.

Lemma load_books W E base m c m' :
  proc_wf (mproc m) ->
  holds base (own RBlk (m_blk_working m) ++ own RBlk (m_blk_lib m)) (mproc m) ->
  (forall path h, e_dlopen E path = Some h -> lawful W h) ->
  load E m = Ok (c, m') ->
  books W base m' /\ (c = true -> Forall (fun x => 0 < sup_opts_len x) (m_pi m')).
Proof.
  intros Hwf Hh Hlaw H. unfold load in H. unfold new_block, acquire_s in H.
  change (f_proc (m_fs m)) with (mproc m) in H. cbn [acquire] in H. inv_bind.
  destruct a as [[ret dl] p].
  apply (get_lib_spec E base ((next_id (mproc m), RBlk) ::
    own RBlk (m_blk_working m) ++ own RBlk (m_blk_lib m))) in E0 as (Hlen & Hdl & Hok);
    [|by apply (proc_wf_acquire RBlk)|by apply holds_acquire].
  cbn [on_fs on_proc set_fs m_fs f_proc f_count f_libs] in H.
  set (m1 := MkM _ _ _ _ _ _ _ _ _ _ _ _) in H.
  destruct (load_plugins_books W base (seq 0 (m_num_iter m)) (e_dlerror E) m1 c m')
    as (Hsame & Hown & Hout & Hpos).
  - apply NoDup_seq.
  - intros i id h Hi. destruct (Hdl i id h Hi) as [path Hpath]. by eapply Hlaw.
  - intros i Hi. apply elem_of_seq in Hi. split; [apply lookup_replicate; split; [done|lia]|].
    exists zero_lib. split; [apply lookup_replicate; split; [done|lia]|].
    split; [done|]. split; [done|]. exists zero_info.
    split; [apply lookup_replicate; split; [done|lia]|done].
  - done.
  - split.
    + apply (books_step _ _ m1); [by split|]. split; [by symmetry|].
      destruct Hok as [Hbad|[Hwf1 Hh1]]; [by left|right].
      eapply (owns_loaded_libs _ _ _ dl _ _ _ m p); [exact Hwf1|exact Hh1|done|done].
    + intros Hc. apply Forall_lookup. intros i x Hi.
      destruct (decide (i < m_num_iter m)%nat) as [Hlt|Hge].
      * destruct (Hpos Hc i) as (y & Hy & Hp); [apply elem_of_seq; lia|]. by simplify_eq.
      * rewrite Hout in Hi by (rewrite elem_of_seq; lia).
        apply lookup_replicate in Hi as [_ ?]. lia.
Qed.

Lemma help_lines_ok infos :
  Forall (fun x => 0 < sup_opts_len x) infos -> snd (help_lines infos) = true.
Proof.
  induction 1 as [|x infos Hx _ IH]; [done|]. cbn. rewrite (proj2 (Z.ltb_lt _ _)) by done.
  by destruct (help_lines infos).
Qed.

Lemma books_print_all W base es m : books W base m -> books W base (print_all es m).
Proof.
  apply books_step. split; [apply same_dl_print_all|apply owns_print_all].
Qed.

(** Only the two path buffers are live. *)
Lemma at_END_early base bw bl m q :
  m_blk_plugin m = None -> m_blk_pi m = None -> m_blk_dl m = None -> m_dl m = [] ->
  m_blk_working m = Some bw -> m_blk_lib m = Some bl ->
  holds base [(bw, RBlk); (bl, RBlk)] (mproc m) -> at_END m = Ok q -> live q = base.
Proof.
  intros Hp Hi Hd Hdl Hw Hl Hh H. unfold at_END in H. rewrite Hp, Hi, Hd, Hdl, Hw, Hl in H.
  fold (mproc m) in H. cbn [rbind release_opt] in H.
  destruct (m_num_iter m); [|done]. cbn [close_libs rbind] in H. inv_bind.
  apply (release_holds _ _ _ _ _ _ Hh) in E as (H1 & _).
  apply (release_holds _ _ _ _ _ _ H1) in H as (H2 & _). by apply holds_base in H2.
Qed.

Lemma main_body_END S E argv o m r q :
  proc_wf (mproc m) ->
  (forall path h, e_dlopen E path = Some h -> lawful (keeps_laws S (e_fs E)) h) ->
  main_body E argv o m = Ok r ->
  match r with
  | inl m' => at_END m' = Ok q ->
      exists es, Forall (fair S) es /\ holds (live (mproc m)) (lost es) q
  | inr _ => False
  end.
Proof.
  intros Hwf Hlaw H.
  assert (live q = live (mproc m) -> exists es, Forall (fair S) es /\ holds (live (mproc m)) (lost es) q)
    as Hnone by (intros Hq; exists []; split; [done|by eapply on_top_holds; [apply on_top_nil|]]).
  unfold main_body, new_block, acquire_s in H.
  change (f_proc (m_fs m)) with (mproc m) in H. cbn [acquire set_fs m_fs f_proc f_count f_libs] in H.
  pose proof (holds_acquire _ _ RBlk _ Hwf (holds_nil (mproc m))) as H1.
  pose proof (proc_wf_acquire RBlk _ Hwf) as Hwf1.
  pose proof (holds_acquire _ _ RBlk _ Hwf1 H1) as H2.
  pose proof (proc_wf_acquire RBlk _ Hwf1) as Hwf2.
  apply (holds_perm _ _ _ _ (perm_swap _ _ _)) in H2.
  destruct (e_getcwd E) as [cwd|e].
  2:{ injection H as <-. intros Hq. eapply Hnone, at_END_early; try done; destruct (e_debug E); done. }
  inv_bind. destruct a0 as [n p]. set (m1 := MkM (MkFState p 0 []) _ _ _ _ _ _ _ _ _ _ _) in H.
  apply count_so_keeps in E1 as Hk; [|by destruct (e_debug E)].
  assert (live p = live (snd (acquire RBlk (snd (acquire RBlk (mproc m)))))) as Hlp.
  { destruct Hk as [-> _]. by destruct (e_debug E). }
  apply (holds_live _ _ _ p) in H2; [|done].
  assert (proc_wf p) as Hwfp by (eapply proc_wf_keeps; [exact Hk|]; by destruct (e_debug E)).
  destruct ((n <? 2)%nat && need_lib2 o).
  { injection H as <-. intros Hq. apply Hnone. revert Hq. by eapply at_END_early. }
  destruct (load E m1) as [[c m2]| |] eqn:El; cbn [rbind] in H; [|done|done].
  set (W := keeps_laws S (e_fs E)) in *.
  apply (load_books W E (live (mproc m))) in El as [Hb Hpos]; [|done..].
  assert (books W (live (mproc m)) m2 -> at_END m2 = Ok q ->
    exists es, Forall (fair S) es /\ holds (live (mproc m)) (lost es) q) as Hend
    by (intros Hbk Hq; by eapply Hnone, at_END_books).
  destruct c; cbn [negb] in H; [|injection H as <-; auto].
  destruct (so_vflag o).
  { injection H as <-. intros Hq. apply Hnone. revert Hq. by apply (at_END_books W), books_print_all. }
  destruct (so_hflag o).
  - pose proof (help_lines_ok _ (Hpos eq_refl)) as Hok. destruct (help_lines (m_pi m2)) as [es []]; [|done].
    injection H as <-. intros Hq.
    apply Hnone. revert Hq. by apply (at_END_books W), (books_print_all _ _ (Out help_head :: es)).
  - inv_bind. destruct a0 as [c m3]. injection H as <-. intros Hq.
    match goal with Hr : run_search _ _ _ _ = Ok _ |- _ =>
      apply (run_search_books S _ (live (mproc m))) in Hr as [[Hd Hn] Ho] end.
    destruct Hb as [Hlen [Hbad|Hown]].
    + eapply Hnone, (at_END_books W _ m3); [|exact Hq]. split; [by rewrite Hd, Hn|left]. by rewrite Hd.
    + destruct (Ho Hown) as (es & base' & Hfair & Htop & Hown'). exists es. split; [done|].
      eapply on_top_holds; [exact Htop|]. eapply (at_END_books W _ m3); [|exact Hq].
      split; [by rewrite Hd, Hn|by right].
Qed.

(** C3. Whatever the arguments, [LAB1DEBUG] or not, and on every path through [main] (the
    usage text, a missing argument of [-P], [getcwd] failing, too few libraries, a
    library that does not load or lacks a function, [-v], [-h], the search): if [main]
    returns, it has given back every block, directory stream, descriptor and library it
    took but for exactly this: for each folder that a plugin ended by reporting an error
    (a result below 0, which [search_dir] answers by returning at once), the folder's
    directory stream, the buffer of its paths, and what the failing call itself left, which
    is described by [S].  With [S] never true the plugins report no error and nothing is
    left. *)
Theorem main_gives_back (S : string -> list (nat * rkind) -> Prop) E argv p r q :
  proc_wf p ->
  (forall path h, e_dlopen E path = Some h -> lawful (keeps_laws S (e_fs E)) h) ->
  main E argv p = Ok (r, q) ->
  exists es : list ended, Forall (fun e => S (en_path e) (en_spill e)) es /\
    holds (live p) (concat ((fun e => en_spill e ++ [(en_blk e, RBlk); (en_dir e, RDir)]) <$> es)) q.
Proof.
  intros Hwf Hlaw H.
  assert (live q = live p -> exists es, Forall (fair S) es /\ holds (live p) (lost es) q)
    as Hnone by (intros Hq; exists []; split; [done|by eapply on_top_holds; [apply on_top_nil|]]).
  unfold main in H. destruct (length argv <? 3)%nat; [simplify_eq; by apply Hnone|].
  destruct (parse_short (drop 1 argv) sopts0) as [o|]; [|simplify_eq; by apply Hnone]. inv_bind.
  set (m := if e_debug E then _ else _) in E0.
  assert (live (mproc m) = live p /\ proc_wf (mproc m)) as [Hl Hwf1].
  { unfold m. destruct (e_debug E); [|done].
    enough (forall es m0, live (mproc (print_all es m0)) = live (mproc m0) /\
      (proc_wf (mproc m0) -> proc_wf (mproc (print_all es m0)))) as Hp.
    { destruct (Hp (debug_argv argv ++ [debug_short o]) (mstate0 p)) as [E1 E2].
      split; [exact E1|by apply E2]. }
    induction es as [|e es IH]; intros m0; [done|]. apply (IH (print e m0)). }
  destruct a as [m'|m'].
  - inv_bind. simplify_eq. rewrite <- Hl. by apply (main_body_END S E argv o m (inl m') q Hwf1 Hlaw E0).
  - by apply (main_body_END S E argv o m (inr m') q Hwf1 Hlaw) in E0.
Qed.
