(* ===== verification/FinderRuns.v ===== *)
(** * Runs of the finder

    [main] executed on command lines: the search that the exercise asks for, with both
    libraries of the repository, from the arguments to the last line; and the runs that
    end in undefined behaviour. *)

From S2P Require Import Prelude Process CLib PluginApi LibNhh LibTypefile Getopt Search FindFiles Finder.
From Stdlib Require Import Ascii.
Local Open Scope Z_scope.
Local Open Scope c_scope.

Definition nhh_dlib : dlib :=
  MkDlib (Some LibNhh.plugin_get_info) (Some LibNhh.plugin_process_file).
Definition txt_dlib : dlib :=
  MkDlib (Some LibTypefile.plugin_get_info) (Some LibTypefile.plugin_process_file).

(** The paths of the [.so] files of a folder, in the order of [readdir]. *)
Fixpoint so_paths (folder : string) (ents : list dirent) : list string :=
  match ents with
  | [] => []
  | ent :: ents =>
      match d_kind ent with
      | DT_REG =>
          let path := folder +:+ "/" +:+ d_name ent in
          if is_lib path then path :: so_paths folder ents else so_paths folder ents
      | _ => so_paths folder ents
      end
  end.

(** Every regular file's path fits the 255 bytes of [count_so]. *)
Definition short_paths (folder : string) (ents : list dirent) : Prop :=
  Forall (fun e => d_kind e = DT_REG ->
    strlen (folder +:+ "/" +:+ d_name e) + 1 <= count_so_cap) ents.

Lemma get_abs_path_fits cap folder name :
  strlen (folder +:+ "/" +:+ name) + 1 <= cap ->
  get_abs_path cap folder name = Ok (folder +:+ "/" +:+ name).
Proof. intros H. unfold get_abs_path. by rewrite (proj2 (Z.leb_le _ _)). Qed.

Lemma count_so_entries_total folder ents n :
  short_paths folder ents ->
  count_so_entries folder ents n = Ok (n + length (so_paths folder ents))%nat.
Proof.
  intros H. revert n. induction H as [|[kd name] ents Hs _ IH]; intros n;
    cbn [count_so_entries so_paths d_kind d_name] in *.
  - cbn. f_equal. lia.
  - destruct kd; [|by apply IH|by apply IH].
    rewrite get_abs_path_fits by (by apply Hs). cbn [rbind]. rewrite IH.
    destruct (is_lib _); cbn [length]; f_equal; lia.
Qed.

Lemma count_so_total E folder ents p :
  proc_wf p -> k_opendir (e_fs E) folder = inl ents -> short_paths folder ents ->
  exists q, count_so E folder p = Ok (length (so_paths folder ents), q) /\
    live q = live p /\ proc_wf q /\ log q = log p.
Proof.
  intros Hwf Hk Hs. unfold count_so. rewrite Hk. cbn [acquire].
  rewrite count_so_entries_total by done. cbn [rbind].
  pose proof (holds_acquire _ _ RDir _ Hwf (holds_nil p)) as Hh.
  destruct (holds_release _ _ _ _ _ Hh) as [Hr H1]. cbn [acquire snd] in Hr. rewrite Hr.
  cbn [rbind]. eexists. split; [done|]. apply holds_base in H1. cbn [acquire snd] in H1.
  split; [exact H1|]. split; [|done].
  by eapply proc_wf_release; [apply (proc_wf_acquire RDir)|exact Hr].
Qed.

Lemma get_lib_entries_total E folder ents hs i dl p :
  e_debug E = false -> short_paths folder ents ->
  Forall2 (fun path h => e_dlopen E path = Some h) (so_paths folder ents) hs ->
  length dl = (i + length hs)%nat ->
  exists ids q, length ids = length hs /\
    get_lib_entries E folder ents i dl p =
      Ok (true, take i dl ++ zip_with (fun id h => Some (id, h)) ids hs, q) /\ log q = log p.
Proof.
  intros Hd Hs. revert hs i dl p. induction Hs as [|[kd name] ents Hs _ IH]; intros hs i dl p Hh Hl;
    cbn [get_lib_entries so_paths d_kind d_name] in *.
  - apply Forall2_nil_inv_l in Hh as ->. cbn in Hl. exists [], p.
    rewrite take_ge by lia. by rewrite app_nil_r.
  - destruct kd; [|by apply IH|by apply IH].
    rewrite get_abs_path_fits.
    2:{ specialize (Hs eq_refl). unfold count_so_cap in Hs. unfold path_cap, PATH_MAX. lia. }
    cbn [rbind]. destruct (is_lib _); [|by apply IH].
    apply Forall2_cons_inv_l in Hh as (h & hs' & Hopen & Hh & ->). cbn [length] in Hl.
    destruct (lookup_lt_is_Some_2 dl i) as [x ->]; [lia|]. rewrite Hopen, Hd. cbn [acquire].
    destruct (IH hs' (S i) (<[i := Some (next_id p, h)]> dl) (snd (acquire RDl p)))
      as (ids & q & Hids & Hg & Hlog); [done|rewrite length_insert; lia|].
    cbn [acquire snd] in Hg. rewrite Hg.
    exists (next_id p :: ids), q. split; [cbn; lia|]. split; [|done].
    do 2 f_equal. f_equal. rewrite (take_S_r _ _ (Some (next_id p, h)))
      by (apply list_lookup_insert_eq; lia).
    rewrite take_insert_ge by lia. by rewrite <- (assoc_L app).
Qed.

Lemma get_lib_total E base L folder ents hs p :
  e_debug E = false -> proc_wf p -> holds base L p ->
  k_opendir (e_fs E) folder = inl ents -> short_paths folder ents ->
  Forall2 (fun path h => e_dlopen E path = Some h) (so_paths folder ents) hs ->
  exists ids q, length ids = length hs /\
    get_lib E folder (replicate (length hs) None) p =
      Ok (0, zip_with (fun id h => Some (id, h)) ids hs, q) /\ log q = log p.
Proof.
  intros Hd Hwf Hh Hk Hs Hopen. unfold get_lib. rewrite Hk. cbn [acquire].
  set (p2 := MkProc _ _ _ _).
  destruct (get_lib_entries_total E folder ents hs 0 (replicate (length hs) None) p2)
    as (ids & q & Hids & Hg & Hlog); [done|done|done|by rewrite length_replicate|].
  pose proof (holds_acquire _ _ RDir _ Hwf Hh) as H1.
  pose proof (proc_wf_acquire RDir _ Hwf) as Hwf1.
  pose proof (holds_acquire _ _ RBlk _ Hwf1 H1) as H2.
  pose proof (proc_wf_acquire RBlk _ Hwf1) as Hwf2.
  destruct (get_lib_entries_spec E base _ folder ents 0 (replicate (length hs) None) p2
    _ _ _ Hwf2 ltac:(rewrite own_dl_replicate; exact H2)
    ltac:(intros j x _ Hj; by apply lookup_replicate in Hj as [-> _])
    ltac:(intros j id h Hj; by apply lookup_replicate in Hj as [? _]) Hg)
    as (_ & _ & _ & Hok).
  destruct (Hok eq_refl) as [Hwfq Hhq]. rewrite Hg. cbn [rbind].
  apply holds_middle in Hhq.
  destruct (holds_release _ _ _ _ _ Hhq) as [E1 H3]. cbn [acquire snd] in E1. rewrite E1. cbn [rbind].
  apply holds_middle in H3. destruct (holds_release _ _ _ _ _ H3) as [E2 H4]. cbn [acquire snd] in E2. rewrite E2. cbn [rbind].
  exists ids. eexists. split; [done|]. split; [done|]. by cbn.
Qed.

(** ** The command line of the exercise *)

Definition cmdline (prog : string) (nt : notation) (n : Z) (folder : string) : list string :=
  [prog; "-A"; "--bit-seq"; literal nt n; "--txt"; folder].

(** A word that no pass takes for an option. *)
Definition plain_word (s : string) : Prop := forall t, s <> String "-" t.

Lemma literal_plain nt n : 0 <= n -> plain_word (literal nt n).
Proof.
  intros Hn t. destruct nt; cbn [literal]; try done.
  destruct (utoa_shape 10 n ltac:(lia)) as (d & s & Hd & ->). intros [= E _].
  pose proof (digit_char_not_blank d ltac:(lia)) as (_ & H & _). by rewrite E in H.
Qed.

Lemma plain_word_option s : plain_word s -> option_text s = None /\ long_text s = None.
Proof. intros H. split; [by apply option_text_none|by apply long_text_none]. Qed.

Lemma plain_word_dashes s : plain_word s -> streq s "--" = false.
Proof. intros H. apply String.eqb_neq. intros ->. by apply (H "-"%string). Qed.

Lemma cmdline_short prog nt n folder :
  plain_word (literal nt n) -> plain_word folder ->
  parse_short (drop 1 (cmdline prog nt n folder)) sopts0 =
    Some (MkSopts true false false false false None).
Proof.
  intros Hl Hf. apply plain_word_option in Hl as [Hl1 _], Hf as [Hf1 _] .
  cbn [cmdline drop parse_short].
  change (streq "-A" "--") with false. change (streq "--bit-seq" "--") with false.
  change (streq "--txt" "--") with false. cbv iota.
  change (option_text "-A") with (Some "A"%string).
  change (option_text "--bit-seq") with (Some "-bit-seq"%string).
  change (option_text "--txt") with (Some "-txt"%string).
  cbn -[streq option_text literal].
  destruct (streq (literal nt n) "--") eqn:E1.
  { apply String.eqb_eq in E1. by rewrite E1 in Hl1. }
  rewrite Hl1. cbn -[streq option_text].
  destruct (streq folder "--") eqn:E2; [|by rewrite Hf1].
  apply String.eqb_eq in E2. by rewrite E2 in Hf1.
Qed.

(** The state after the two libraries are loaded. *)
Definition loaded (m : mstate) : Prop :=
  m_num_iter m = 2%nat /\
  f_libs (m_fs m) =
    [MkLib 0 [] (opt <$> LibNhh.g_po_arr) 1 (Some LibNhh.plugin_process_file)
       (Some LibNhh.plugin_get_info);
     MkLib 0 [] (opt <$> LibTypefile.g_po_arr) 1 (Some LibTypefile.plugin_process_file)
       (Some LibTypefile.plugin_get_info)] /\
  (exists a b c d, m_opt_blks m = [(Some a, Some b, []); (Some c, Some d, [])]) /\
  (exists i j, m_dl m = [Some (i, nhh_dlib); Some (j, txt_dlib)]).

Definition any_ppf (f : ppf_func_t) : Prop := True.

Lemma pgi_laws_nhh : info_laws LibNhh.plugin_get_info.
Proof.
  intros [x|] p ret x' p'; cbn.
  - intros [= <- <- <-]. split; [done|]. intros i [= <-]. done.
  - intros [= <- <- <-]. split; [apply keeps_emit|done].
Qed.

Lemma pgi_laws_txt : info_laws LibTypefile.plugin_get_info.
Proof.
  intros [x|] p ret x' p'; cbn.
  - intros [= <- <- <-]. split; [done|]. intros i [= <-]. done.
  - intros [= <- <- <-]. split; [apply keeps_emit|done].
Qed.

(** What the search and the clean-up do not look at. *)
Definition same_rest (m m' : mstate) : Prop :=
  log (mproc m') = log (mproc m) /\ f_count (m_fs m') = f_count (m_fs m) /\
  m_folder_working m' = m_folder_working m /\ m_dl m' = m_dl m /\
  m_num_iter m' = m_num_iter m.

#[export] Instance same_rest_preorder : PreOrder same_rest.
Proof.
  split; [by intros m|].
  intros m1 m2 m3 (?&?&?&?&?) (?&?&?&?&?). repeat split; congruence.
Qed.

Lemma load_plugin_total i dlerr m id h l x gi info pf os :
  m_dl m !! i = Some (Some (id, h)) -> f_libs (m_fs m) !! i = Some l -> m_pi m !! i = Some x ->
  sym_plugin_get_info h = Some gi -> (forall p, gi (Some x) p = (0, Some info, p)) ->
  (sup_opts_len info =? 0) = false -> sym_plugin_process_file h = Some pf ->
  copy_options (sup_opts_len info) (sup_opts info) = Ok os ->
  exists a b m', load_plugin i dlerr m = Ok (true, m') /\ same_rest m m' /\
    f_libs (m_fs m') =
      <[i := MkLib (opts_to_pass_len l) [] os (sup_opts_len info) (Some pf) (Some gi)]>
        (f_libs (m_fs m)) /\
    m_opt_blks m' = <[i := (Some a, Some b, [])]> (m_opt_blks m) /\
    m_pi m' = <[i := info]> (m_pi m).
Proof.
  intros Hdl Hl Hx Hgi Hinfo Hpos Hpf Hos. unfold load_plugin. rewrite Hdl, Hl, Hx.
  cbn [dlsym]. rewrite Hgi, Hinfo. change (default x (Some info)) with info. change (0 <? 0) with false. cbv iota.
  rewrite Hpos, Hpf. unfold new_block, acquire_s. cbn [acquire]. rewrite Hos. cbn [rbind].
  do 3 eexists. split; [reflexivity|]. split; [done|]. cbn. by rewrite !list_insert_insert_eq.
Qed.

Lemma load_total E base m ents p1 p2 :
  e_debug E = false -> proc_wf (mproc m) -> m_num_iter m = 2%nat ->
  holds base (own RBlk (m_blk_working m) ++ own RBlk (m_blk_lib m)) (mproc m) ->
  k_opendir (e_fs E) (m_folder_lib m) = inl ents -> short_paths (m_folder_lib m) ents ->
  so_paths (m_folder_lib m) ents = [p1; p2] ->
  e_dlopen E p1 = Some nhh_dlib -> e_dlopen E p2 = Some txt_dlib ->
  exists m', load E m = Ok (true, m') /\ loaded m' /\ log (mproc m') = log (mproc m) /\
    f_count (m_fs m') = f_count (m_fs m) /\ m_folder_working m' = m_folder_working m.
Proof.
  intros Hd Hwf Hn Hh Hk Hs Hso H1 H2. unfold load, new_block, acquire_s. rewrite Hn.
  change (f_proc (m_fs m)) with (mproc m). cbn [acquire].
  destruct (get_lib_total E base ((next_id (mproc m), RBlk) ::
      own RBlk (m_blk_working m) ++ own RBlk (m_blk_lib m)) (m_folder_lib m) ents
      [nhh_dlib; txt_dlib] (snd (acquire RBlk (mproc m))))
    as (ids & q & Hids & Hg & Hlog); [done|by apply proc_wf_acquire|by apply holds_acquire|done..|
      by rewrite Hso; repeat constructor|].
  destruct ids as [|i [|j [|]]]; try done. cbn [acquire snd length zip_with] in Hg.
  cbn [m_folder_lib set_fs m_fs f_proc]. rewrite Hg. cbn [rbind seq load_plugins].
  set (m1 := MkM _ _ _ _ _ _ _ _ _ _ _ _).
  destruct (load_plugin_total 0 (e_dlerror E) m1 i nhh_dlib zero_lib zero_info
    LibNhh.plugin_get_info (MkPluginInfo LibNhh.g_plugin_purpose LibNhh.g_plugin_author 1 LibNhh.g_po_arr)
    LibNhh.plugin_process_file (opt <$> LibNhh.g_po_arr))
    as (a & b & m2 & E2 & (Hlog2 & Hc2 & Hw2 & Hd2 & Hn2) & Hl2 & Hb2 & Hp2); [done..|].
  rewrite E2. cbn [andthen rbind].
  destruct (load_plugin_total 1 (e_dlerror E) m2 j txt_dlib zero_lib zero_info
    LibTypefile.plugin_get_info
    (MkPluginInfo LibTypefile.g_plugin_purpose LibTypefile.g_plugin_author 1 LibTypefile.g_po_arr)
    LibTypefile.plugin_process_file (opt <$> LibTypefile.g_po_arr))
    as (c & d & m3 & E3 & (Hlog3 & Hc3 & Hw3 & Hd3 & Hn3) & Hl3 & Hb3 & Hp3);
    [by rewrite Hd2|by rewrite Hl2|by rewrite Hp2|done..|].
  rewrite E3. cbn [andthen rbind]. exists m3. split; [done|].
  rewrite Hlog3, Hlog2, Hc3, Hc2, Hw3, Hw2. split; [|split; [exact Hlog|done]].
  unfold loaded. rewrite Hn3, Hn2, Hl3, Hl2, Hb3, Hb2, Hd3, Hd2.
  split; [done|]. split; [done|]. split; [by exists a, b, c, d|by exists i, j].
Qed.

(** ** One argument at a time *)

Lemma collect_nil i m : collect i [] m = Ok (true, m).
Proof. reflexivity. Qed.

Lemma collect_all_cons i idx args m :
  collect_all (i :: idx) args m = andthen (collect i args m) (collect_all idx args).
Proof. reflexivity. Qed.

Lemma andthen_go m f : andthen (Ok (true, m)) f = f m.
Proof. reflexivity. Qed.

Lemma collect_word i a args m : plain_word a -> collect i (a :: args) m = collect i args m.
Proof.
  intros H. cbn [collect]. rewrite plain_word_dashes by done.
  by destruct (plain_word_option a H) as [_ ->].
Qed.

Lemma collect_other i a s args m l :
  streq a "--" = false -> long_text a = Some s -> f_libs (m_fs m) !! i = Some l ->
  process_long (longopts l) s (head args) = long_unknown ->
  collect i (a :: args) m = collect i args m.
Proof. intros H1 H2 H3 H4. cbn [collect]. by rewrite H1, H2, H3, H4. Qed.

Lemma collect_found i a s args m l r :
  streq a "--" = false -> long_text a = Some s -> f_libs (m_fs m) !! i = Some l ->
  process_long (longopts l) s (head args) = r -> lr_code r = 0 ->
  collect i (a :: args) m =
  andthen (add_option i r m) (collect i (if lr_took r then tail args else args)).
Proof.
  intros H1 H2 H3 H4 H5. cbn [collect]. rewrite H1, H2, H3, H4, H5.
  change (0 =? 0) with true. cbv iota. destruct (lr_took r), args; done.
Qed.

Lemma add_option_arg i r m l b1 b2 args o s :
  f_libs (m_fs m) !! i = Some l -> m_opt_blks m !! i = Some (b1, b2, args) ->
  (Z.of_nat (opts_to_pass_len l) =? longopts_len l) = false -> longopts l !! lr_ind r = Some o ->
  (o_has_arg o =? 0) = false -> lr_arg r = Some s ->
  exists e m', add_option i r m = Ok (true, m') /\ same_rest m m' /\
    f_libs (m_fs m') = <[i := add_lib l (set_flag o (Some (strdup s)))]> (f_libs (m_fs m)) /\
    m_opt_blks m' = <[i := (b1, b2, args ++ [Some e])]> (m_opt_blks m).
Proof.
  intros H1 H2 H3 H4 H5 H6. unfold add_option. rewrite H1, H2, H3, H4, H5, H6.
  unfold new_block, acquire_s. cbn [acquire]. do 2 eexists. split; [reflexivity|].
  split; [done|]. by split.
Qed.

Lemma add_option_flag i r m l b1 b2 args o :
  f_libs (m_fs m) !! i = Some l -> m_opt_blks m !! i = Some (b1, b2, args) ->
  (Z.of_nat (opts_to_pass_len l) =? longopts_len l) = false -> longopts l !! lr_ind r = Some o ->
  (o_has_arg o =? 0) = true ->
  exists m', add_option i r m = Ok (true, m') /\ same_rest m m' /\
    f_libs (m_fs m') = <[i := add_lib l o]> (f_libs (m_fs m)) /\
    m_opt_blks m' = <[i := (b1, b2, args ++ [None])]> (m_opt_blks m).
Proof.
  intros H1 H2 H3 H4 H5. unfold add_option. rewrite H1, H2, H3, H4, H5.
  eexists. split; [reflexivity|]. split; [done|]. by split.
Qed.

(** Each library takes its own option and leaves the other's. *)
Lemma collect_total prog nt n folder m :
  plain_word (literal nt n) -> plain_word folder -> loaded m ->
  exists a b c d e m',
    collect_all (seq 0 2) (drop 1 (cmdline prog nt n folder)) m = Ok (true, m') /\
    same_rest m m' /\ f_libs (m_fs m') = [nhh_lib nt n; txt_lib] /\
    m_opt_blks m' = [(Some a, Some b, [Some e]); (Some c, Some d, [None])].
Proof.
  intros Hlit Hf (_ & Hl & (a & b & c & d & Hb) & _). cbn [cmdline drop seq].
  rewrite collect_all_cons.
  set (r1 := MkLongRet 0 0 (Some (literal nt n)) true).
  erewrite (collect_other 0 "-A"); [|reflexivity|reflexivity|by rewrite Hl|reflexivity].
  erewrite (collect_found 0 "--bit-seq" _ _ _ _ r1);
    [|reflexivity|reflexivity|by rewrite Hl|reflexivity|reflexivity].
  edestruct (add_option_arg 0 r1 m) as (e & m1 & E1 & Hr1 & Hl1 & Hb1);
    [by rewrite Hl|by rewrite Hb|reflexivity|reflexivity|reflexivity|reflexivity|].
  rewrite E1, andthen_go. cbn [lr_took r1 tail]. rewrite Hl in Hl1. rewrite Hb in Hb1.
  erewrite (collect_other 0 "--txt"); [|reflexivity|reflexivity|by rewrite Hl1|reflexivity].
  rewrite collect_word, collect_nil, andthen_go, collect_all_cons by done.
  set (r2 := MkLongRet 0 0 None false).
  erewrite (collect_other 1 "-A"); [|reflexivity|reflexivity|by rewrite Hl1|reflexivity].
  erewrite (collect_other 1 "--bit-seq"); [|reflexivity|reflexivity|by rewrite Hl1|reflexivity].
  rewrite collect_word by done.
  erewrite (collect_found 1 "--txt" _ _ _ _ r2);
    [|reflexivity|reflexivity|by rewrite Hl1|reflexivity|reflexivity].
  edestruct (add_option_flag 1 r2 m1) as (m2 & E2 & Hr2 & Hl2 & Hb2);
    [by rewrite Hl1|by rewrite Hb1|reflexivity|reflexivity|reflexivity|].
  rewrite E2, andthen_go. cbn [lr_took r2].
  rewrite collect_word, collect_nil, andthen_go by done. cbn [collect_all go].
  exists a, b, c, d, e, m2. split; [done|]. split; [by etrans|].
  rewrite Hl2, Hl1, Hb2, Hb1. by split.
Qed.

(** ** The clean-up of a complete run *)

Lemma free_libs_both nt n a b c d e base L p :
  holds base (own_libs [nhh_lib nt n; txt_lib]
    [(Some a, Some b, [Some e]); (Some c, Some d, [None])] ++ L) p ->
  exists q, free_libs [nhh_lib nt n; txt_lib]
      [(Some a, Some b, [Some e]); (Some c, Some d, [None])] p = Ok q /\
    holds base L q /\ log q = log p.
Proof.
  intros H.
  change (holds base ((e, RBlk) :: (b, RBlk) :: (a, RBlk) :: (d, RBlk) :: (c, RBlk) :: L) p) in H.
  cbn [free_libs nhh_lib txt_lib opts_to_pass_len opts_to_pass take free_args bit_seq_opt
       txt_opt o_flag release_opt].
  destruct (holds_release _ _ _ _ _ H) as [E1 H1]. rewrite E1. cbn [rbind].
  destruct (holds_release _ _ _ _ _ H1) as [E2 H2]. rewrite E2. cbn [rbind].
  destruct (holds_release _ _ _ _ _ H2) as [E3 H3]. rewrite E3. cbn [rbind].
  destruct (holds_release _ _ _ _ _ H3) as [E4 H4]. rewrite E4. cbn [rbind].
  destruct (holds_release _ _ _ _ _ H4) as [E5 H5]. rewrite E5. cbn [rbind].
  eexists. split; [done|]. by split.
Qed.

Lemma close_libs_both i j h1 h2 base L p :
  holds base (own_dl [Some (i, h1); Some (j, h2)] ++ L) p ->
  exists q, close_libs 2 [Some (i, h1); Some (j, h2)] p = Ok q /\ holds base L q /\ log q = log p.
Proof.
  intros H. change (holds base ((i, RDl) :: (j, RDl) :: L) p) in H. cbn [close_libs].
  destruct (holds_release _ _ _ _ _ H) as [E1 H1]. rewrite E1. cbn [rbind].
  destruct (holds_release _ _ _ _ _ H1) as [E2 H2]. rewrite E2. cbn [rbind].
  eexists. split; [done|]. by split.
Qed.

Lemma at_END_total base m bp nt n a b c d e i j :
  m_blk_plugin m = Some bp -> m_num_iter m = 2%nat ->
  f_libs (m_fs m) = [nhh_lib nt n; txt_lib] ->
  m_opt_blks m = [(Some a, Some b, [Some e]); (Some c, Some d, [None])] ->
  m_dl m = [Some (i, nhh_dlib); Some (j, txt_dlib)] ->
  holds base (owned m) (mproc m) ->
  exists q, at_END m = Ok q /\ live q = base /\ log q = log (mproc m).
Proof.
  intros Hbp Hn Hl Hb Hd H. unfold owned in H. rewrite Hbp, Hl, Hb, Hd in H.
  unfold at_END. rewrite Hbp, Hl, Hb, Hd, Hn. fold (mproc m). rewrite <- (assoc_L app) in H.
  destruct (free_libs_both _ _ _ _ _ _ _ _ _ _ H) as (p1 & -> & H1 & L1). cbn [rbind].
  destruct (holds_release _ _ _ _ _ H1) as [E2 H2]. rewrite E2. cbn [rbind].
  destruct (close_libs_both _ _ _ _ _ _ _ H2) as (p3 & -> & H3 & L3). cbn [rbind log] in *.
  destruct (release_opt_holds _ _ _ _ _ H3) as (p4 & -> & H4 & L4). cbn [rbind].
  destruct (release_opt_holds _ _ _ _ _ H4) as (p5 & -> & H5 & L5). cbn [rbind].
  destruct (release_opt_holds _ _ _ _ _ H5) as (p6 & -> & H6 & L6). cbn [rbind].
  rewrite <- (app_nil_r (own RBlk (m_blk_lib m))) in H6.
  destruct (release_opt_holds _ _ _ _ _ H6) as (p7 & -> & H7 & L7).
  exists p7. split; [done|]. split; [by apply holds_base in H7|]. congruence.
Qed.

(** Where a run of [cmdline] starts: two libraries in the working directory, which are
    those of the repository. *)
Record setting (E : env) (cwd : string) (folder : string) (vis : list visit) : Prop := MkSetting {
  set_debug : e_debug E = false;
  set_cwd : e_getcwd E = inl cwd;
  set_libs : exists ents p1 p2,
    k_opendir (e_fs E) cwd = inl ents /\ short_paths cwd ents /\
    so_paths cwd ents = [p1; p2] /\
    e_dlopen E p1 = Some nhh_dlib /\ e_dlopen E p2 = Some txt_dlib;
  set_folder : plain_word folder /\ folder <> "."%string /\ folder <> "./"%string /\
    strlen folder + 1 <= PATH_MAX;
  set_tree : walk search_fuel (e_fs E) folder = Some vis;
  set_files : forall path, under (e_fs E) folder path -> readable (e_fs E) path;
  set_room : Z.of_nat (length vis) <= INT_MAX
}.

Definition count_line (c : Z) : ev := Out (nl +:+ fmt_lld c +:+ " file(s) have been found" +:+ nl).

(** The files the exercise asks for. *)
Definition wanted (k : kernel) (folder : string) (n : Z) (path : string) : Prop :=
  under k folder path /\ infix (le_bytes (Z.to_nat (nbytes n)) n) (content k path) /\
  exists stem, stem <> EmptyString /\ path = stem +:+ ".txt".

(** The part of [main] after the short options. *)
Lemma run_total E cwd folder vis base prog nt n m :
  setting E cwd folder vis -> 0 <= n <= LLONG_MAX -> loaded m -> owns any_ppf base m ->
  f_count (m_fs m) = 0 ->
  exists q c m', run_search E (cmdline prog nt n folder)
      (MkSopts true false false false false None) m = Ok (true, m') /\
    at_END m' = Ok q /\ live q = base /\
    log q = log (mproc m) ++ concat (report and_flags (both (e_fs E) n) <$> vis) ++ [count_line c] /\
    c = hits and_flags (both (e_fs E) n) vis.
Proof.
  intros HS Hn Hld Hown Hc0. pose proof (set_folder _ _ _ _ HS) as (Hplain & Hd1 & Hd2 & Hlen).
  destruct (collect_total prog nt n folder m (literal_plain nt n ltac:(lia)) Hplain Hld)
    as (a & b & c & d & e & m1 & Ec & (Hlog & Hc & Hw & Hdl & Hit) & Hls & Hbl).
  destruct Hld as (Hn2 & _ & _ & (i & j & Hdl0)).
  unfold run_search. rewrite Hn2, Ec. rewrite andthen_go. rewrite (set_debug _ _ _ _ HS).
  change (default EmptyString (last (cmdline prog nt n folder))) with folder.
  unfold streq at 1 2. rewrite (proj2 (String.eqb_neq _ _) Hd1), (proj2 (String.eqb_neq _ _) Hd2).
  cbn [orb]. unfold strcpy_path. rewrite (proj2 (Z.leb_le _ _) Hlen). cbn [rbind].
  pose proof (collect_all_books any_ppf base _ _ _ _ _ Ec) as [_ Ho]. apply Ho in Hown.
  destruct (search_dir_visited (e_fs E) (under (e_fs E) folder) and_flags (both (e_fs E) n)
    search_fuel folder vis (m_fs m1)) as (s' & Es & Hsl & Hsc & Hlive & _ & Hslog).
  - apply (set_tree _ _ _ _ HS).
  - intros f. by apply (walk_under _ _ _ _ (set_tree _ _ _ _ HS)).
  - split; [apply (owns_wf _ _ _ Hown)|]. split.
    + rewrite Hls. constructor; [|constructor; [|constructor]].
      * apply nhh_answers; [apply (set_files _ _ _ _ HS)|done].
      * apply txt_answers, (set_files _ _ _ _ HS).
    + rewrite Hc, Hc0. pose proof (hits_le_length and_flags (both (e_fs E) n) vis).
      pose proof (set_room _ _ _ _ HS). lia.
  - cbn [so_aflag so_oflag so_nflag]. rewrite Hit, Hn2.
    change (length (both (e_fs E) n)) with 2%nat in Es. unfold and_flags in Es. rewrite Es.
    cbn [rbind]. set (m2 := print _ _).
    destruct (owns_blk _ _ _ Hown) as [bp Hbp].
    destruct (at_END_total base m2 bp nt n a b c d e i j) as (q & Eq & Hlq & Hlogq).
    + done.
    + by rewrite <- Hn2, <- Hit.
    + cbn. by rewrite Hsl, Hls.
    + done.
    + by rewrite <- Hdl0, <- Hdl.
    + pose proof (owns_holds _ _ _ Hown) as Hh. unfold owned in *. cbn. rewrite Hsl.
      eapply holds_live; [|exact Hh]. cbn. by rewrite Hlive.
    + eexists q, _, m2. split; [done|]. split; [done|]. split; [done|]. split.
      * rewrite Hlogq. unfold m2, mproc. cbn. rewrite Hslog. fold (mproc m1). rewrite Hlog.
        rewrite <- (assoc_L app). unfold count_line. done.
      * rewrite Hsc, Hc, Hc0. done.
Qed.

(** C1. The program, from its arguments to its exit: [finder -A --bit-seq <n> --txt
    <folder>], with the two libraries in the working directory and a tree of readable
    files below the folder, returns 0, prints the paths of exactly the wanted files, then
    their number, and ends with the resources it started with. *)
Theorem main_finds E cwd prog nt n folder vis p :
  setting E cwd folder vis -> 0 <= n <= LLONG_MAX -> proc_wf p ->
  (forall path h, e_dlopen E path = Some h -> h = nhh_dlib \/ h = txt_dlib) ->
  exists q printed,
    main E (cmdline prog nt n folder) p = Ok (0, q) /\
    log q = log p ++ printed ++ [count_line (hits and_flags (both (e_fs E) n) vis)] /\
    (forall path, Out (path +:+ nl) ∈ printed <-> wanted (e_fs E) folder n path) /\
    live q = live p.
Proof.
  intros HS Hn Hwf Hdls.
  pose proof (set_libs _ _ _ _ HS) as (ents & p1 & p2 & Hk & Hshort & Hso & Ho1 & Ho2).
  pose proof (proj1 (set_folder _ _ _ _ HS)) as Hplain.
  unfold main. change (length (cmdline prog nt n folder) <? 3)%nat with false. cbv iota.
  rewrite cmdline_short by (done || apply literal_plain; lia).
  rewrite (set_debug _ _ _ _ HS). unfold main_body, new_block, acquire_s.
  rewrite (set_cwd _ _ _ _ HS), (set_debug _ _ _ _ HS).
  cbn [mstate0 m_fs f_proc f_count f_libs set_fs acquire so_pvalue rbind print_if].
  pose proof (holds_acquire _ _ RBlk _ Hwf (holds_nil p)) as H1.
  pose proof (proc_wf_acquire RBlk _ Hwf) as Hwf1.
  pose proof (holds_acquire _ _ RBlk _ Hwf1 H1) as H2.
  pose proof (proc_wf_acquire RBlk _ Hwf1) as Hwf2.
  apply (holds_perm _ _ _ _ (perm_swap _ _ _)) in H2.
  destruct (count_so_total E cwd ents _ Hwf2 Hk Hshort) as (p3 & Ec & Hl3 & Hwf3 & Hlog3).
  cbn [acquire snd] in Ec. rewrite Ec, Hso. cbn [rbind length].
  change ((2 <? 2)%nat && need_lib2 _) with false. cbv iota.
  set (m1 := MkM (MkFState p3 0 []) _ _ _ _ _ _ _ _ _ _ _).
  apply (holds_live _ _ _ p3) in H2; [|done].
  destruct (load_total E (live p) m1 ents p1 p2) as (m2 & El & Hld & Hlog & Hc & _); try done.
  { apply (set_debug _ _ _ _ HS). }
  rewrite El. cbn [rbind negb so_vflag so_hflag].
  assert (owns any_ppf (live p) m2) as Hown.
  { destruct (load_books any_ppf E (live p) m1 true m2) as [[_ [Hbad|?]] _]; try done.
    - intros path h Hh. split; [|done].
      intros f Hf. destruct (Hdls path h Hh) as [-> | ->]; injection Hf as <-;
        [apply pgi_laws_nhh|apply pgi_laws_txt].
    - destruct Hld as (_ & _ & _ & (i & j & Hd)). rewrite Hd in Hbad.
      repeat (apply elem_of_cons in Hbad as [?|Hbad]; [done|]).
      by apply not_elem_of_nil in Hbad. }
  destruct (run_total E cwd folder vis (live p) prog nt n m2 HS Hn Hld Hown)
    as (q & c & m3 & Er & Eq & Hlq & Hlogq & ->); [by rewrite Hc|].
  rewrite Er. cbn [rbind]. rewrite Eq. cbn [rbind].
  exists q, (concat (report and_flags (both (e_fs E) n) <$> vis)). split; [done|].
  split; [rewrite Hlogq, Hlog; unfold m1, mproc; cbn; by rewrite Hlog3|]. split; [|done].
  intros path. rewrite in_report, (walk_under _ _ _ _ (set_tree _ _ _ _ HS)), chosen_both,
    andb_true_iff. unfold literal_in, wanted. by rewrite infixb_spec, has_txt_ext_iff.
Qed.

(** One library is not enough for [-A], [-O] or [-N]: the program says so and then
    crashes, since the clean-up closes [dl[0]] of the array it never made. *)
Theorem main_one_library_crashes E argv p cwd ents path o :
  (3 <= length argv)%nat -> parse_short (drop 1 argv) sopts0 = Some o ->
  need_lib2 o = true -> so_pvalue o = None -> e_getcwd E = inl cwd ->
  k_opendir (e_fs E) cwd = inl ents -> short_paths cwd ents -> so_paths cwd ents = [path] ->
  proc_wf p -> main E argv p = Undef NullDeref.
Proof.
  intros Hlen Hp Hneed Hpv Hcwd Hk Hshort Hso Hwf. unfold main.
  rewrite (proj2 (Nat.ltb_ge _ _)) by done. rewrite Hp.
  set (m := if e_debug E then _ else _).
  assert (proc_wf (mproc m)) as Hwfm.
  { unfold m. destruct (e_debug E); [|done].
    enough (forall es m0, proc_wf (mproc m0) -> proc_wf (mproc (print_all es m0))) as Hall
      by by apply Hall.
    induction es as [|e es IH]; intros m0 H0; [done|]. by apply (IH (print e m0)). }
  clearbody m. unfold main_body, new_block, acquire_s. rewrite Hcwd, Hpv.
  fold (mproc m). cbn [acquire set_fs m_fs f_proc f_count f_libs rbind].
  set (m1 := MkM _ _ _ _ _ _ _ _ _ _ _ _).
  set (p1 := f_proc (m_fs (print_if _ _ m1))).
  destruct (count_so_total E cwd ents p1) as (q & Ec & _); [|done..|].
  { unfold p1. destruct (e_debug E); cbn;
      apply (proc_wf_acquire RBlk (snd (acquire RBlk (mproc m)))); by apply proc_wf_acquire. }
  rewrite Ec, Hso. cbn [rbind length]. rewrite Hneed. done.
Qed.

(** ** The theorems on concrete runs *)

(** The libraries are in [/l]; [t/a.txt] and [t/d/b.txt] hold [0x12 0x34], [t/c] too. *)
Definition demo_fs : kernel :=
  MkKernel (fun p => if String.eqb p "t/a.txt" then inl (regular [52; 18])
                     else if String.eqb p "t/c" then inl (regular [0; 52; 18])
                     else if String.eqb p "t/d/b.txt" then inl (regular [52; 18; 7])
                     else inr ENOENT)
    (fun d => if String.eqb d "/l"
              then inl [MkDirent DT_REG "a.so"; MkDirent DT_DIR ".."; MkDirent DT_REG "b.so"]
              else if String.eqb d "t"
              then inl [MkDirent DT_REG "a.txt"; MkDirent DT_REG "c"; MkDirent DT_DIR "d"]
              else if String.eqb d "t/d" then inl [MkDirent DT_REG "b.txt"] else inr ENOENT).

Definition demo_env : env :=
  MkEnv false (inl "/l"%string) demo_fs
    (fun p => if String.eqb p "/l/a.so" then Some nhh_dlib
              else if String.eqb p "/l/b.so" then Some txt_dlib else None) "not found".

Definition demo_vis : list visit := [VFile "t/a.txt"; VFile "t/c"; VFile "t/d/b.txt"].

Lemma demo_setting : setting demo_env "/l" "t" demo_vis.
Proof.
  assert (walk search_fuel demo_fs "t" = Some demo_vis) as Hw by (vm_compute; reflexivity).
  split; [done|done| | |done| |vm_compute; discriminate].
  - exists [MkDirent DT_REG "a.so"; MkDirent DT_DIR ".."; MkDirent DT_REG "b.so"],
      "/l/a.so"%string, "/l/b.so"%string.
    split; [done|]. split; [|done]. repeat constructor; vm_compute; discriminate.
  - split; [intros t; discriminate|]. split; [done|]. split; [done|]. vm_compute. discriminate.
  - intros path H. apply (walk_under _ _ _ _ Hw) in H. unfold demo_vis in H.
    repeat (apply elem_of_cons in H as [[= ->]|H]; [by vm_compute|]).
    by apply not_elem_of_nil in H.
Qed.

Lemma main_finds_witness :
  exists q printed,
    main demo_env (cmdline "finder" Hex 4660 "t") proc0 = Ok (0, q) /\
    log q = [] ++ printed ++ [count_line 2] /\
    (forall path, Out (path +:+ nl) ∈ printed <-> wanted demo_fs "t" 4660 path) /\
    live q = ∅.
Proof.
  apply (main_finds demo_env "/l" "finder" Hex 4660 "t" demo_vis proc0).
  - exact demo_setting.
  - unfold LLONG_MAX. lia.
  - intros id _. reflexivity.
  - intros path h. cbn. destruct (String.eqb path "/l/a.so"); [intros [= <-]; by left|].
    destruct (String.eqb path "/l/b.so"); [intros [= <-]; by right|discriminate].
Defined.

Lemma main_one_library_crashes_witness :
  main (MkEnv false (inl "/l"%string)
          (MkKernel (fun _ => inr ENOENT) (fun _ => inl [MkDirent DT_REG "a.so"]))
          (fun _ => Some nhh_dlib) EmptyString)
    ["finder"; "-O"; "--bit-seq"; "7"; "t"] proc0 = Undef NullDeref.
Proof.
  apply (main_one_library_crashes (MkEnv false (inl "/l"%string)
      (MkKernel (fun _ => inr ENOENT) (fun _ => inl [MkDirent DT_REG "a.so"]))
      (fun _ => Some nhh_dlib) EmptyString)
    ["finder"; "-O"; "--bit-seq"; "7"; "t"]%string proc0 "/l" [MkDirent DT_REG "a.so"] "/l/a.so"
    (MkSopts false true false false false None)).
  - cbn. lia.
  - reflexivity.
  - reflexivity.
  - reflexivity.
  - reflexivity.
  - reflexivity.
  - constructor; [|constructor]. vm_compute. discriminate.
  - reflexivity.
  - intros id _. reflexivity.
Defined.

(** ** The repository's libraries keep the interface's laws *)

Lemma nhh_lawful k : lawful (keeps_laws LibNhh.leaves_fd k) nhh_dlib.
Proof.
  split; intros f [= <-]; [apply pgi_laws_nhh|]. split; [apply LibNhh.plugin_laws|apply LibNhh.process_spills_fd].
Qed.

Lemma txt_lawful k : lawful (keeps_laws LibNhh.leaves_fd k) txt_dlib.
Proof.
  split; intros f [= <-]; [apply pgi_laws_txt|]. split; [apply LibTypefile.plugin_laws|].
  intros d fn os n p ret os' p' H Hwf Hret.
  destruct (LibTypefile.process_spills k d fn os n p ret os' p' H Hwf Hret) as (? & ? & X & -> & ?).
  split; [done|]. split; [done|]. exists []. split; [by left|done].
Qed.

(** The libraries of the repository are in [/l]; [t/d/empty] has no bytes, [t/a.txt] has one. *)
Definition gloomy_env : env :=
  MkEnv false (inl "/l"%string)
    (MkKernel (fun p => if String.eqb p "t/d/empty" then inl (regular []) else inl (regular [7]))
       (fun d => if String.eqb d "/l" then inl [MkDirent DT_REG "a.so"; MkDirent DT_REG "b.so"]
                 else if String.eqb d "t" then
                   inl [MkDirent DT_DIR "d"; MkDirent DT_REG "a.txt"; MkDirent DT_REG "z.txt"]
                 else if String.eqb d "t/d" then inl [MkDirent DT_REG "empty"] else inr ENOENT))
    (fun p => if String.eqb p "/l/a.so" then Some nhh_dlib
              else if String.eqb p "/l/b.so" then Some txt_dlib else None) "not found".

(** A run in which [libnhhN3249] reports two errors: the empty file ends [t/d], and the argument
    [12z], which is no number, ends [t] and leaves the file's descriptor open as well. *)
Lemma main_gives_back_witness :
  exists q, main gloomy_env ["finder"; "-A"; "--bit-seq"; "12z"; "--txt"; "t"] proc0 = Ok (0, q) /\
    (map_to_list (live q)).*2 = [RBlk; RFd; RBlk; RDir; RDir] /\
    exists es : list ended, Forall (fun e => LibNhh.leaves_fd (en_path e) (en_spill e)) es /\
      holds (live proc0) (concat ((fun e => en_spill e ++ [(en_blk e, RBlk); (en_dir e, RDir)]) <$> es)) q.
Proof.
  assert (exists q, main gloomy_env ["finder"; "-A"; "--bit-seq"; "12z"; "--txt"; "t"] proc0 = Ok (0, q) /\
    (map_to_list (live q)).*2 = [RBlk; RFd; RBlk; RDir; RDir]) as (q & Hq & Hlive).
  { eexists. split; [vm_compute; reflexivity|]. vm_compute. reflexivity. }
  exists q. split; [exact Hq|]. split; [exact Hlive|].
  apply (main_gives_back LibNhh.leaves_fd gloomy_env ["finder"; "-A"; "--bit-seq"; "12z"; "--txt"; "t"]%string
    proc0 0 q).
  - intros id _. reflexivity.
  - intros path h. cbn. destruct (String.eqb path "/l/a.so"); [intros [= <-]; apply nhh_lawful|].
    destruct (String.eqb path "/l/b.so"); [intros [= <-]; apply txt_lawful|discriminate].
  - exact Hq.
Defined.
