(* ===== verification/LibAvg.v ===== *)
(** * lab1test/libavg.c: the entropy plugin

    Verdict 1 when the Shannon entropy of a region of the file, in bytes per byte, is at
    least the value given.  The arithmetic on [double] is a parameter: [DoubleOps] lists
    the operations the source uses, [log2], [strtod] and the formatting of [%lf] among
    them; the loops, the table, the offsets and the error paths are the source's. *)

From S2P Require Import Prelude Process CLib PluginApi.
From Stdlib Require Import Ascii QArith.
Local Open Scope Z_scope.
Local Open Scope c_scope.

Class DoubleOps (D : Type) := {
  d_zero : D;
  d_one : D;
  d_eight : D;
  d_of_size : Z -> D;
  d_sub : D -> D -> D;
  d_mul : D -> D -> D;
  d_div : D -> D -> D;
  d_log2 : D -> D;
  d_ltb : D -> D -> bool;
  d_geb : D -> D -> bool;
  d_strtod : string -> D * string;
  d_fmt : D -> string
}.

Definition g_lib_name : string := "libavg.so".
Definition g_plugin_purpose : string :=
  "Check if entropy of a file or its part is less than the given value".
Definition g_plugin_author : string := "Alexei Guirik".
Definition OPT_ENTROPY_STR : string := "entropy".
Definition OPT_OFFSET_FROM_STR : string := "offset-from".
Definition OPT_OFFSET_TO_STR : string := "offset-to".

Definition g_po_arr : list plugin_option :=
  [MkPluginOption (MkOpt OPT_ENTROPY_STR required_argument None 0) "Target value of entropy";
   MkPluginOption (MkOpt OPT_OFFSET_FROM_STR required_argument None 0) "Start offset";
   MkPluginOption (MkOpt OPT_OFFSET_TO_STR required_argument None 0) "End offset"].
Definition g_po_arr_len : Z := Z.of_nat (length g_po_arr).

Definition plugin_get_info : pgi_func_t := fun ppi p =>
  match ppi with
  | None => (-1, None, emit (Err ("ERROR: invalid argument" +:+ nl)) p)
  | Some _ =>
      (0, Some (MkPluginInfo g_plugin_purpose g_plugin_author g_po_arr_len g_po_arr), p)
  end.

(** ** The entropy *)

(** [while (ptr <= pend) freq_table[*ptr++] += 1], on offsets into the mapping. *)
Fixpoint count_bytes (fuel : nat) (mem : list Z) (ptr pend : Z) (freq_table : list Z)
  : res (list Z) :=
  match fuel with
  | O => NoFuel
  | S fuel =>
      if ptr <=? pend then
        match mem !! Z.to_nat ptr with
        | None => Undef OutOfBounds
        | Some b =>
            match freq_table !! Z.to_nat b with
            | None => Undef OutOfBounds
            | Some n =>
                count_bytes fuel mem (ptr + 1) pend (<[Z.to_nat b := u64 (n + 1)]> freq_table)
            end
        end
      else Ok freq_table
  end.

Section Doubles.
Context {D : Type} `{DoubleOps D}.

Definition add_symbol (total_size : Z) (total_entropy : D) (freq : Z) : D :=
  let prob := d_div (d_of_size freq) (d_of_size total_size) in
  if d_ltb d_zero prob then d_sub total_entropy (d_mul prob (d_log2 prob)) else total_entropy.

(** [mem] is the mapping; the pointers stay within it or one past it. *)
Definition calculate_entropy (mem : list Z) (offset_from offset_to : Z) : res D :=
  let* freq_table := count_bytes (S (length mem)) mem offset_from offset_to (replicate 256 0) in
  let total_size := u64 (offset_to - offset_from + 1) in
  Ok (d_div (fold_left (add_symbol total_size) freq_table d_zero) d_eight).

(** ** The options *)

(** The locals of the option loop; a [got_] flag is whether the value is there. *)
Record args := MkArgs {
  ar_entropy : option D;
  ar_from : option Z;
  ar_to : option Z
}.

(** [OPT_CHECK]: [None] is the [return -1] with [EINVAL]. *)
Definition opt_check {A} (DEBUG : bool) (conv : string -> A * string) (got : option A) (o : copt)
    (p : proc) : res (option A * proc) :=
  match got with
  | Some _ =>
      let p := if DEBUG then emit (Err ("DEBUG: " +:+ g_lib_name +:+ ": Option '" +:+ o_name o +:+
                 "' was already supplied" +:+ nl)) p else p in
      Ok (None, set_errno EINVAL p)
  | None =>
      match o_flag o with
      | None => Undef NullDeref
      | Some b =>
          let '(x, rest) := conv (text b) in
          match rest with
          | EmptyString => Ok (Some x, p)
          | String _ _ =>
              let p := if DEBUG then emit (Err ("DEBUG: " +:+ g_lib_name +:+
                         ": Failed to convert '" +:+ text b +:+ "'" +:+ nl)) p else p in
              Ok (None, set_errno EINVAL p)
          end
      end
  end.

(** [strtol(s, &endptr, 0)] stored in a [size_t]. *)
Definition conv_size (s : string) : Z * string :=
  let r := strtoll s 0 in (u64 (st_value r), st_end r).

Definition parse_option (DEBUG : bool) (o : copt) (a : args) (p : proc)
  : res (option args * proc) :=
  if streq (o_name o) OPT_ENTROPY_STR then
    let* (x, p) := opt_check DEBUG d_strtod (ar_entropy a) o p in
    Ok ((fun e => MkArgs (Some e) (ar_from a) (ar_to a)) <$> x, p)
  else if streq (o_name o) OPT_OFFSET_FROM_STR then
    let* (x, p) := opt_check DEBUG conv_size (ar_from a) o p in
    Ok ((fun n => MkArgs (ar_entropy a) (Some n) (ar_to a)) <$> x, p)
  else if streq (o_name o) OPT_OFFSET_TO_STR then
    let* (x, p) := opt_check DEBUG conv_size (ar_to a) o p in
    Ok ((fun n => MkArgs (ar_entropy a) (ar_from a) (Some n)) <$> x, p)
  else Ok (None, set_errno EINVAL p).

Fixpoint parse_options (DEBUG : bool) (idx : list nat) (os : list copt) (a : args) (p : proc)
  : res (option args * proc) :=
  match idx with
  | [] => Ok (Some a, p)
  | i :: idx =>
      match os !! i with
      | None => Undef OutOfBounds
      | Some o =>
          let* (r, p) := parse_option DEBUG o a p in
          match r with
          | None => Ok (None, p)
          | Some a => parse_options DEBUG idx os a p
          end
      end
  end.

Fixpoint debug_options (idx : list nat) (os : list copt) (p : proc) : res proc :=
  match idx with
  | [] => Ok p
  | i :: idx =>
      match os !! i with
      | Some o => debug_options idx os (emit (Err ("DEBUG: " +:+ g_lib_name +:+
          ": Got option '" +:+ o_name o +:+ "' with arg '" +:+ show_ptr (o_flag o) +:+
          "'" +:+ nl)) p)
      | None => Undef OutOfBounds
      end
  end.

(** ** plugin_process_file *)

Definition dbg (DEBUG : bool) (s : string) (p : proc) : proc :=
  if DEBUG then emit (Err ("DEBUG: " +:+ g_lib_name +:+ ": " +:+ s +:+ nl)) p else p.

Definition finish (fd : nat) (map : option nat) (saved_errno ret : Z) (os : list copt)
    (p : proc) : res (Z * list copt * proc) :=
  let* p := release RFd fd p in
  let* p := release_opt RMap map p in
  Ok (ret, os, set_errno saved_errno p).

(** From [open] on. *)
Definition check_file_entropy (k : kernel) (DEBUG : bool) (fname : string) (entropy : D)
    (offset_from offset_to : Z) (os : list copt) (p : proc) : res (Z * list copt * proc) :=
  match k_open k fname with
  | inr e => Ok (-1, os, set_errno e p)
  | inl f =>
      let '(fd, p) := acquire RFd p in
      match f_fstat_err f with
      | Some e => finish fd None e (-1) os (set_errno e p)
      | None =>
          if st_size f =? 0 then
            finish fd None ERANGE (-1) os (dbg DEBUG "File size should be > 0" p)
          else if st_size f <=? offset_from then finish fd None ERANGE (-1) os p
          else
            let fix_to := (offset_to =? 0) || (st_size f <=? offset_to) in
            let offset_to := if fix_to then st_size f - 1 else offset_to in
            let p := if fix_to
                     then dbg DEBUG ("Corrected offset_to to " +:+ fmt_lld (s64 offset_to)) p
                     else p in
            if offset_to <=? offset_from then
              finish fd None ERANGE (-1) os
                (dbg DEBUG ("offset_from (" +:+ fmt_lld (s64 offset_from) +:+
                   ") >= offset_to to (" +:+ fmt_lld (s64 offset_to) +:+ ")") p)
            else
              match f_mmap_err f with
              | Some e => finish fd None e (-1) os (set_errno e p)
              | None =>
                  let '(ptr, p) := acquire RMap p in
                  let* calc := calculate_entropy (f_content f) offset_from offset_to in
                  let p := dbg DEBUG ("Calculated entropy = " +:+ d_fmt calc) p in
                  finish fd (Some ptr) 0 (Z.b2z (d_geb calc entropy)) os p
              end
      end
  end.

Definition plugin_process_file : ppf_func_t := fun k DEBUG fname in_opts in_opts_len p =>
  match fname, in_opts, in_opts_len with
  | Some fn, Some os, S _ =>
      let* p := if DEBUG then debug_options (seq 0 in_opts_len) os p else Ok p in
      let* (r, p) := parse_options DEBUG (seq 0 in_opts_len) os (MkArgs None None None) p in
      match r with
      | None => Ok (-1, os, p)
      | Some a =>
          match ar_entropy a with
          | None =>
              Ok (-1, os, set_errno EINVAL (dbg DEBUG "Entropy value was not supplied." p))
          | Some entropy =>
              if d_ltb entropy d_zero || d_ltb d_one entropy then
                Ok (-1, os, set_errno ERANGE (dbg DEBUG "Entropy should be in [0.0 .. 1.0)" p))
              else
                let offset_from := default 0 (ar_from a) in
                let offset_to := default 0 (ar_to a) in
                let p := dbg DEBUG ("Inputs: entropy = " +:+ d_fmt entropy +:+
                           ", offset_from = " +:+ fmt_lld (s64 offset_from) +:+
                           ", offset_to = " +:+ fmt_lld (s64 offset_to)) p in
                check_file_entropy k DEBUG fn entropy offset_from offset_to os p
          end
      end
  | _, _, _ => Ok (-1, default [] in_opts, set_errno EINVAL p)
  end.

End Doubles.
Arguments args D : clear implicits.

(** ** The table of frequencies *)

(** How often each of the 256 byte values occurs. *)
Definition freq (l : list Z) (b : Z) : Z := Z.of_nat (length (filter (fun x => x = b) l)).
Definition histogram (l : list Z) : list Z := (fun i => freq l (Z.of_nat i)) <$> seq 0 256.

Definition is_byte (b : Z) : Prop := 0 <= b < 256.

Lemma freq_snoc l b c : freq (l ++ [c]) b = freq l b + (if decide (c = b) then 1 else 0).
Proof.
  unfold freq. rewrite filter_app, length_app, Nat2Z.inj_add, filter_cons, filter_nil.
  by destruct (decide (c = b)).
Qed.

Lemma freq_le l b : 0 <= freq l b <= Z.of_nat (length l).
Proof. unfold freq. pose proof (length_filter (fun x => x = b) l). lia. Qed.

Lemma histogram_lookup l b : is_byte b -> histogram l !! Z.to_nat b = Some (freq l b).
Proof.
  intros [H0 H1]. unfold histogram. rewrite list_lookup_fmap, lookup_seq_lt by lia. cbn.
  by rewrite Z2Nat.id.
Qed.

Lemma histogram_snoc l b :
  is_byte b -> Z.of_nat (length l) < 2 ^ 64 - 1 ->
  <[Z.to_nat b := u64 (freq l b + 1)]> (histogram l) = histogram (l ++ [b]).
Proof.
  intros Hb Hl. pose proof (freq_le l b). rewrite u64_small by lia.
  apply list_eq_same_length with (n := 256%nat).
  - unfold histogram. by rewrite length_fmap, length_seq.
  - unfold histogram. by rewrite length_insert, length_fmap, length_seq.
  - intros i x y Hi Hx Hy. unfold histogram in Hy.
    rewrite list_lookup_fmap, lookup_seq_lt in Hy by done. cbn in Hy. simplify_eq.
    rewrite freq_snoc. destruct (decide (b = Z.of_nat i)) as [->|Hne].
    + rewrite Nat2Z.id, list_lookup_insert_eq in Hx by (unfold histogram; by rewrite length_fmap, length_seq).
      by simplify_eq.
    + destruct Hb. rewrite list_lookup_insert_ne in Hx by lia. unfold histogram in Hx.
      rewrite list_lookup_fmap, lookup_seq_lt in Hx by done. cbn in Hx. simplify_eq. lia.
Qed.

(** The bytes from offset [a] to offset [b], both included. *)
Definition region (mem : list Z) (a b : Z) : list Z :=
  take (Z.to_nat (b - a + 1)) (drop (Z.to_nat a) mem).

Lemma region_cons mem a b x :
  0 <= a <= b -> mem !! Z.to_nat a = Some x -> region mem a b = x :: region mem (a + 1) b.
Proof.
  intros Hab Hx. unfold region. rewrite (drop_S _ x _ Hx).
  replace (Z.to_nat (b - a + 1)) with (S (Z.to_nat (b - (a + 1) + 1))) by lia.
  cbn [take]. do 2 f_equal. f_equal. lia.
Qed.

Lemma count_bytes_histogram fuel mem pre a b :
  0 <= a <= b + 1 -> b < Z.of_nat (length mem) -> Forall is_byte mem ->
  b - a + 1 < Z.of_nat fuel -> Z.of_nat (length pre) + (b - a + 1) < 2 ^ 64 ->
  count_bytes fuel mem a b (histogram pre) = Ok (histogram (pre ++ region mem a b)).
Proof.
  intros Ha Hb Hm. revert pre a Ha. induction fuel as [|fuel IH]; intros pre a Ha Hf Hl; [lia|].
  cbn [count_bytes]. destruct (Z.leb_spec a b) as [Hle|Hgt].
  - destruct (lookup_lt_is_Some_2 mem (Z.to_nat a)) as [x Hx]; [lia|]. rewrite Hx.
    pose proof (Forall_lookup_1 _ _ _ _ Hm Hx) as Hbx.
    rewrite histogram_lookup by done. rewrite histogram_snoc by (done || lia).
    rewrite IH by (rewrite ?length_app; cbn; lia).
    rewrite <- (assoc_L app), (region_cons mem a b x) by (done || lia). done.
  - unfold region. replace (Z.to_nat (b - a + 1)) with 0%nat by lia. by rewrite app_nil_r.
Qed.

Lemma histogram_nil : histogram [] = replicate 256 0.
Proof. reflexivity. Qed.

Lemma length_region mem a b :
  0 <= a <= b + 1 -> b < Z.of_nat (length mem) -> Z.of_nat (length (region mem a b)) = b - a + 1.
Proof. intros Ha Hb. unfold region. rewrite length_take, length_drop. lia. Qed.

(** The reference: [0 - p_0 log2 p_0 - p_1 log2 p_1 - ...] over the byte values below [n] that
    occur in [l], where [p_b] is how often [b] occurs in [l] divided by the length of [l]. *)
Fixpoint shannon {D} `{DoubleOps D} (l : list Z) (n : nat) : D :=
  match n with
  | O => d_zero
  | S b =>
      let p := d_div (d_of_size (Z.of_nat (length (filter (fun x => x = Z.of_nat b) l))))
                     (d_of_size (Z.of_nat (length l))) in
      if d_ltb d_zero p then d_sub (shannon l b) (d_mul p (d_log2 p)) else shannon l b
  end.

(** The entropy of a list of bytes, on a scale of 0 to 1. *)
Definition entropy_of {D} `{DoubleOps D} (l : list Z) : D := d_div (shannon l 256) d_eight.

Lemma fold_histogram {D} `{DoubleOps D} l :
  fold_left (add_symbol (Z.of_nat (length l))) (histogram l) d_zero = shannon l 256.
Proof.
  unfold histogram. generalize 256%nat as n. induction n as [|n IH]; [done|].
  rewrite seq_S, fmap_app, fold_left_app, IH. done.
Qed.

Lemma calculate_entropy_region {D} `{DoubleOps D} mem a b :
  0 <= a <= b -> b < Z.of_nat (length mem) < 2 ^ 64 -> Forall is_byte mem ->
  calculate_entropy mem a b = Ok (entropy_of (region mem a b)).
Proof.
  intros Ha Hb Hm. unfold calculate_entropy, entropy_of. rewrite <- fold_histogram, <- histogram_nil.
  rewrite count_bytes_histogram by (done || cbn; lia). cbn [rbind app].
  rewrite length_region by lia. by rewrite u64_small by lia.
Qed.

(** ** One call *)

(** The region the offsets select on a file of [size] bytes: [None] when they are
    refused. *)
Definition bounds (size from to : Z) : option (Z * Z) :=
  let to := if (to =? 0) || (size <=? to) then size - 1 else to in
  if (size <=? from) || (to <=? from) then None else Some (from, to).

Definition opt_of (name arg : string) : copt :=
  MkOpt name required_argument (Some (strdup arg)) 0.

Lemma finish_quiet fd k map e r os p q q' :
  fd = next_id p -> proc_wf p ->
  match map with
  | None => k = 1%nat /\ live q = <[next_id p := RFd]> (live p)
  | Some m => k = 2%nat /\ m = S (next_id p) /\
      live q = <[S (next_id p) := RMap]> (<[next_id p := RFd]> (live p))
  end -> (next_id p <= next_id q)%nat -> printed q q' ->
  exists p', finish fd map e r os q' = Ok (r, os, p') /\ live p' = live p /\
    (next_id p <= next_id p')%nat /\ log p' = log q' /\ errno p' = e.
Proof.
  intros -> Hwf Hmap Hid (Hl & Hn & _). unfold finish. destruct map as [m|].
  - destruct Hmap as (_ & -> & Hq).
    destruct (release_two RFd RMap p q') as (q1 & q2 & -> & E2 & ?); [done|congruence|lia|].
    cbn [rbind release_opt]. rewrite E2. cbn [rbind]. eexists. split; [done|]. cbn. tauto.
  - destruct Hmap as [_ Hq].
    destruct (release_one RFd p q') as (q1 & -> & ?); [done|congruence|lia|].
    cbn [rbind release_opt]. eexists. split; [done|]. cbn. tauto.
Qed.

Section Calls.
Context {D : Type} `{DoubleOps D}.

Lemma parse_three es fs ts (e : D) from to p :
  d_strtod es = (e, EmptyString) -> conv_size fs = (from, EmptyString) ->
  conv_size ts = (to, EmptyString) ->
  parse_options false (seq 0 3)
    [opt_of OPT_ENTROPY_STR es; opt_of OPT_OFFSET_FROM_STR fs; opt_of OPT_OFFSET_TO_STR ts]
    (MkArgs None None None) p = Ok (Some (MkArgs (Some e) (Some from) (Some to)), p).
Proof.
  intros He Hf Ht. cbn [seq parse_options lookup list_lookup]. unfold parse_option.
  cbn [o_name opt_of ar_entropy ar_from ar_to].
  change (streq OPT_ENTROPY_STR OPT_ENTROPY_STR) with true.
  change (streq OPT_OFFSET_FROM_STR OPT_ENTROPY_STR) with false.
  change (streq OPT_OFFSET_FROM_STR OPT_OFFSET_FROM_STR) with true.
  change (streq OPT_OFFSET_TO_STR OPT_ENTROPY_STR) with false.
  change (streq OPT_OFFSET_TO_STR OPT_OFFSET_FROM_STR) with false.
  change (streq OPT_OFFSET_TO_STR OPT_OFFSET_TO_STR) with true. cbv iota.
  unfold opt_check. cbn [o_flag opt_of text strdup]. rewrite He. cbn -[conv_size]. rewrite Hf.
  cbn -[conv_size]. by rewrite Ht.
Qed.

Lemma st_size_pos bytes : bytes <> [] -> 0 < st_size (regular bytes).
Proof. intros ?. unfold st_size. destruct bytes; [done|cbn; lia]. Qed.

(** The verdict and the errors of the part that reads the file. *)
Lemma check_file_entropy_spec k fn bytes (e : D) from to os p :
  k_open k fn = inl (regular bytes) -> bytes <> [] -> Z.of_nat (length bytes) < 2 ^ 64 ->
  Forall is_byte bytes -> 0 <= from -> 0 <= to -> proc_wf p ->
  exists p', check_file_entropy k false fn e from to os p =
    Ok (match bounds (Z.of_nat (length bytes)) from to with
        | Some (a, b) => Z.b2z (d_geb (entropy_of (region bytes a b)) e)
        | None => -1
        end, os, p') /\ quiet p p' /\
    errno p' = match bounds (Z.of_nat (length bytes)) from to with Some _ => 0 | None => ERANGE end.
Proof.
  intros Hk Hne Hmax Hb Hf Ht Hwf. unfold check_file_entropy, bounds. rewrite Hk. cbn [acquire].
  change (f_fstat_err (regular bytes)) with (@None Z). cbv iota.
  change (st_size (regular bytes)) with (Z.of_nat (length bytes)).
  pose proof (st_size_pos bytes Hne) as Hpos.
  change (st_size (regular bytes)) with (Z.of_nat (length bytes)) in Hpos.
  rewrite (proj2 (Z.eqb_neq _ 0)) by lia. unfold dbg. cbv iota.
  set (q := MkProc (errno p) (<[next_id p := RFd]> (live p)) (S (next_id p)) (log p)).
  assert (forall r e os, exists p', finish (next_id p) None e r os q = Ok (r, os, p') /\
    quiet p p' /\ errno p' = e) as Hfin.
  { intros r e' os'. destruct (finish_quiet (next_id p) 1 None e' r os' p q q)
      as (p' & -> & Hl & Hn & Hlog & He); [done|done|done|cbn; lia|done|].
    exists p'. by repeat split. }
  set (to' := if (to =? 0) || (Z.of_nat (length bytes) <=? to) then _ else to).
  replace (if (to =? 0) || _ then q else q) with q by (by destruct (_ || _)).
  destruct (Z.leb_spec (Z.of_nat (length bytes)) from) as [|Hfrom]; [apply Hfin|].
  destruct (Z.leb_spec to' from) as [|Hto]; [apply Hfin|]. cbn [orb f_mmap_err regular].
  assert (to' < Z.of_nat (length bytes)).
  { unfold to'. destruct (Z.eqb_spec to 0), (Z.leb_spec (Z.of_nat (length bytes)) to);
      cbn; lia. }
  change (f_content (regular bytes)) with bytes.
  rewrite calculate_entropy_region by (done || lia). cbn [rbind].
  set (q' := MkProc _ _ _ _).
  destruct (finish_quiet (next_id p) 2 (Some (S (next_id p))) 0
    (Z.b2z (d_geb (entropy_of (region bytes from to')) e)) os p q' q')
    as (p' & Hfi & Hl & Hn & Hlog & He); [done|done|done|cbn; lia|done|].
  exists p'. split; [exact Hfi|]. by repeat split.
Qed.

(** The bytes from offset [a] up to offset [b], which is not included: what the README says
    [--offset-from a --offset-to b] selects. *)
Definition documented_region (bytes : list Z) (a b : Z) : list Z :=
  take (Z.to_nat (b - a)) (drop (Z.to_nat a) bytes).

Lemma region_documented bytes a b :
  0 <= a <= b -> b < Z.of_nat (length bytes) ->
  exists x, bytes !! Z.to_nat b = Some x /\ region bytes a b = documented_region bytes a b ++ [x].
Proof.
  intros Ha Hb. destruct (lookup_lt_is_Some_2 bytes (Z.to_nat b)) as [x Hx]; [lia|].
  exists x. split; [done|]. unfold region, documented_region.
  replace (Z.to_nat (b - a + 1)) with (S (Z.to_nat (b - a))) by lia. apply take_S_r.
  rewrite lookup_drop. by replace (Z.to_nat a + Z.to_nat (b - a))%nat with (Z.to_nat b) by lia.
Qed.

Lemma bounds_range size from to a b :
  0 <= from -> 0 <= to -> 0 < size -> bounds size from to = Some (a, b) -> 0 <= a <= b /\ b < size.
Proof.
  intros Hf Ht Hs. unfold bounds.
  destruct (Z.eqb_spec to 0), (Z.leb_spec size to); cbn [orb]; repeat case_match; intros [= <- <-]; lia.
Qed.

(** C34. [--entropy e --offset-from a --offset-to b] on a readable, non-empty file: the
    verdict is whether the entropy of the bytes from [a] to [b] is at least [e], where the
    entropy is the sum over the 256 byte values of [- p log2 p], [p] the share of the value among
    those bytes, divided by 8.  Both ends are included: the region is the one that the README
    documents, whose end is not included, and the byte at offset [b] after it.  A [b]
    that is 0 or past the end is replaced by the last byte, and an empty or inverted range (one
    byte too) is refused with [ERANGE].  Nothing is leaked or printed. *)
Theorem process_entropy k fn bytes es fs ts (e : D) from to p :
  k_open k fn = inl (regular bytes) -> bytes <> [] -> Z.of_nat (length bytes) < 2 ^ 64 ->
  Forall is_byte bytes -> proc_wf p ->
  d_strtod es = (e, EmptyString) -> d_ltb e d_zero = false -> d_ltb d_one e = false ->
  conv_size fs = (from, EmptyString) -> conv_size ts = (to, EmptyString) ->
  exists p',
    plugin_process_file k false (Some fn)
      (Some [opt_of OPT_ENTROPY_STR es; opt_of OPT_OFFSET_FROM_STR fs;
             opt_of OPT_OFFSET_TO_STR ts]) 3%nat p =
    Ok (match bounds (Z.of_nat (length bytes)) from to with
        | Some (a, b) => Z.b2z (d_geb (entropy_of (region bytes a b)) e)
        | None => -1
        end,
        [opt_of OPT_ENTROPY_STR es; opt_of OPT_OFFSET_FROM_STR fs; opt_of OPT_OFFSET_TO_STR ts],
        p') /\ quiet p p' /\
    errno p' = match bounds (Z.of_nat (length bytes)) from to with Some _ => 0 | None => ERANGE end /\
    forall a b, bounds (Z.of_nat (length bytes)) from to = Some (a, b) ->
      exists x, bytes !! Z.to_nat b = Some x /\ region bytes a b = documented_region bytes a b ++ [x].
Proof.
  intros Hk Hne Hmax Hb Hwf He H0 H1 Hf Ht.
  assert (forall s n, conv_size s = (n, EmptyString) -> 0 <= n) as Hpos.
  { intros s n [= <- _]. apply u64_range. }
  assert (forall a b, bounds (Z.of_nat (length bytes)) from to = Some (a, b) ->
    exists x, bytes !! Z.to_nat b = Some x /\ region bytes a b = documented_region bytes a b ++ [x]) as Hreg.
  { intros a b Hab. pose proof (st_size_pos bytes Hne) as Hs.
    apply bounds_range in Hab as [Hab Hb']; [by apply region_documented|by eapply Hpos..|exact Hs]. }
  unfold plugin_process_file. cbn [rbind].
  rewrite (parse_three es fs ts e from to) by done. cbn [rbind ar_entropy ar_from ar_to default].
  rewrite H0, H1. cbn [orb]. unfold dbg.
  destruct (check_file_entropy_spec k fn bytes e from to
    [opt_of OPT_ENTROPY_STR es; opt_of OPT_OFFSET_FROM_STR fs; opt_of OPT_OFFSET_TO_STR ts] p)
    as (p' & E & Hq & Herr); eauto.
Qed.
End Calls.

(** ** Refused options and the contract of the interface *)

Lemma dbg_printed d s p : printed p (dbg d s p).
Proof. destruct d; [apply printed_emit|done]. Qed.

Lemma debug_entropy_printed idx os p p' : debug_options idx os p = Ok p' -> printed p p'.
Proof.
  revert p. induction idx as [|i idx IH]; intros p; cbn [debug_options].
  - by intros [= <-].
  - destruct (os !! i); [|done]. intros H. apply IH in H. by etrans; [apply printed_emit|].
Qed.

Section Contract.
Context {D : Type} `{DoubleOps D}.

Lemma opt_check_frame {A} d conv (got : option A) o p r p' :
  opt_check d conv got o p = Ok (r, p') ->
  printed p p' /\ (r = None -> errno p' = EINVAL).
Proof.
  unfold opt_check. destruct got.
  - intros [= <- <-]. split; [|done]. etrans; [apply printed_when_emit|apply printed_set_errno].
  - destruct (o_flag o) as [b|]; [|done]. destruct (conv (text b)) as [x rest].
    destruct rest; [by intros [= <- <-]|].
    intros [= <- <-]. split; [|done]. etrans; [apply printed_when_emit|apply printed_set_errno].
Qed.

Lemma opt_check_total {A} d conv (got : option A) o p :
  is_Some (o_flag o) -> exists r p', opt_check d conv got o p = Ok (r, p').
Proof.
  intros [b Hb]. unfold opt_check. rewrite Hb. destruct got; [by do 2 eexists|].
  destruct (conv (text b)) as [x [|c rest]]; by do 2 eexists.
Qed.

Lemma fmap_none {A B} (f : A -> B) (x : option A) : f <$> x = None -> x = None.
Proof. by destruct x. Qed.

Lemma parse_option_frame d o (a : args D) p r p' :
  parse_option d o a p = Ok (r, p') ->
  printed p p' /\ (r = None -> errno p' = EINVAL) /\
  (streq (o_name o) OPT_ENTROPY_STR = false -> forall a', r = Some a' -> ar_entropy a' = ar_entropy a).
Proof.
  unfold parse_option. destruct (streq (o_name o) OPT_ENTROPY_STR).
  - intros E. inv_bind. destruct a0 as [x q]. apply opt_check_frame in E0 as [Hp He]. simplify_eq.
    split; [done|]. split; [|done]. intros ?%fmap_none. auto.
  - destruct (streq (o_name o) OPT_OFFSET_FROM_STR).
    { intros E. inv_bind. destruct a0 as [x q]. apply opt_check_frame in E0 as [Hp He]. simplify_eq.
      split; [done|]. split; [intros ?%fmap_none; auto|]. intros _ a' Ha. destruct x; [|done].
      cbn in Ha. by simplify_eq. }
    destruct (streq (o_name o) OPT_OFFSET_TO_STR); [|by intros [= <- <-]].
    intros E. inv_bind. destruct a0 as [x q]. apply opt_check_frame in E0 as [Hp He]. simplify_eq.
    split; [done|]. split; [intros ?%fmap_none; auto|]. intros _ a' Ha. destruct x; [|done].
    cbn in Ha. by simplify_eq.
Qed.

Lemma parse_option_total d o (a : args D) p :
  is_Some (o_flag o) -> exists r p', parse_option d o a p = Ok (r, p').
Proof.
  intros Hf. unfold parse_option.
  destruct (streq (o_name o) OPT_ENTROPY_STR); [|destruct (streq (o_name o) OPT_OFFSET_FROM_STR);
    [|destruct (streq (o_name o) OPT_OFFSET_TO_STR); [|by do 2 eexists]]].
  - destruct (opt_check_total d d_strtod (ar_entropy a) o p Hf) as (r & q & ->). by do 2 eexists.
  - destruct (opt_check_total d conv_size (ar_from a) o p Hf) as (r & q & ->). by do 2 eexists.
  - destruct (opt_check_total d conv_size (ar_to a) o p Hf) as (r & q & ->). by do 2 eexists.
Qed.

Lemma parse_options_frame d idx os (a : args D) p r p' :
  parse_options d idx os a p = Ok (r, p') -> printed p p' /\ (r = None -> errno p' = EINVAL).
Proof.
  revert a p. induction idx as [|i idx IH]; intros a p; cbn [parse_options].
  - by intros [= <- <-].
  - destruct (os !! i) as [o|]; [|done]. intros E. inv_bind. destruct a0 as [[a1|] q].
    + apply parse_option_frame in E0 as (Hp & _). apply IH in E as [Hp' He].
      split; [by etrans|done].
    + apply parse_option_frame in E0 as (Hp & He & _). by simplify_eq.
Qed.

(** Options other than [entropy] never set the value. *)
Lemma parse_options_no_entropy d idx os (a : args D) p :
  (forall i, i ∈ idx -> exists o, os !! i = Some o /\ is_Some (o_flag o) /\
     streq (o_name o) OPT_ENTROPY_STR = false) ->
  exists r p', parse_options d idx os a p = Ok (r, p') /\
    forall a', r = Some a' -> ar_entropy a' = ar_entropy a.
Proof.
  revert a p. induction idx as [|i idx IH]; intros a p Hi; cbn [parse_options].
  - exists (Some a), p. split; [done|]. by intros a' [= <-].
  - destruct (Hi i) as (o & Ho & Hf & Hn); [by left|]. rewrite Ho.
    destruct (parse_option_total d o a p Hf) as (r & q & E). rewrite E. cbn [rbind].
    apply parse_option_frame in E as (_ & _ & Hkeep). destruct r as [a1|].
    + destruct (IH a1 q) as (r & p' & E & Hr); [intros j Hj; apply Hi; by right|].
      exists r, p'. split; [done|]. intros a' Ha. rewrite (Hr a' Ha). by apply Hkeep.
    + by exists None, q.
Qed.

(** Without an [--entropy] among its options the plugin refuses the call with -1 and
    [EINVAL], before it opens the file. *)
Theorem entropy_required k d fn os n p :
  n <> O -> (forall i, (i < n)%nat -> exists o, os !! i = Some o /\ is_Some (o_flag o) /\
    streq (o_name o) OPT_ENTROPY_STR = false) ->
  exists p', plugin_process_file k d (Some fn) (Some os) n p = Ok (-1, os, p') /\
    errno p' = EINVAL /\ printed p p'.
Proof.
  intros Hn Hos. destruct n as [|n]; [done|]. unfold plugin_process_file.
  assert (exists q, (if d then debug_options (seq 0 (S n)) os p else Ok p) = Ok q /\ printed p q)
    as (q & -> & Hq).
  { destruct d; [|by exists p].
    assert (forall idx p, (forall i, i ∈ idx -> is_Some (os !! i)) ->
      exists q, debug_options idx os p = Ok q) as Hd.
    { induction idx as [|i idx IH]; intros p0 Hi; [by exists p0|]. cbn [debug_options].
      destruct (Hi i) as [o ->]; [by left|]. apply IH. intros j Hj. apply Hi. by right. }
    destruct (Hd (seq 0 (S n)) p) as [q Hq].
    { intros i Hi%elem_of_seq. destruct (Hos i) as (o & -> & _); [lia|by eexists]. }
    exists q. split; [done|]. by eapply debug_entropy_printed. }
  cbn [rbind].
  destruct (parse_options_no_entropy d (seq 0 (S n)) os (MkArgs None None None) q)
    as (r & q' & E & Hr).
  { intros i Hi%elem_of_seq. apply Hos. lia. }
  rewrite E. cbn [rbind]. apply parse_options_frame in E as [Hp He]. destruct r as [a|].
  - rewrite (Hr a eq_refl). eexists. split; [done|]. split; [done|].
    etrans; [exact Hq|]. etrans; [exact Hp|]. etrans; [apply dbg_printed|apply printed_set_errno].
  - eexists. split; [done|]. split; [auto|]. by etrans.
Qed.

Lemma finish_out fd map e r os p r' os' p' :
  finish fd map e r os p = Ok (r', os', p') -> r' = r /\ os' = os.
Proof. unfold finish. intros E. inv_bind. by simplify_eq. Qed.

Lemma check_file_entropy_frame k d fn (e : D) from to os p r os' p' :
  check_file_entropy k d fn e from to os p = Ok (r, os', p') ->
  os' = os /\ (proc_wf p -> keeps p p').
Proof.
  unfold check_file_entropy. destruct (k_open k fn) as [f|e']; [|intros [= <- <- <-]; auto with cdb].
  cbn [acquire]. set (q := MkProc (errno p) _ _ _). intros E.
  assert (forall e r0 q', printed q q' -> finish (next_id p) None e r0 os q' = Ok (r, os', p') ->
    os' = os /\ (proc_wf p -> keeps p p')) as Hfin.
  { intros e0 r0 q' Hq Hf. split; [by apply finish_out in Hf as [_ ->]|]. intros Hwf.
    destruct (finish_quiet (next_id p) 1 None e0 r0 os p q q') as (p1 & E1 & Hl & Hn & Hlog & _);
      [done|done|done|cbn; lia|done|].
    rewrite E1 in Hf. simplify_eq. split; [done|]. split; [done|]. rewrite Hlog. apply Hq. }
  destruct (f_fstat_err f); [by eapply Hfin; [|exact E]; apply printed_set_errno|].
  destruct (st_size f =? 0); [by eapply Hfin; [|exact E]; apply dbg_printed|].
  destruct (st_size f <=? from); [by eapply Hfin; [|exact E]|].
  set (fix_to := (to =? 0) || _) in E. set (to' := if fix_to then _ else _) in E.
  set (q1 := if fix_to then _ else _) in E.
  assert (printed q q1) as Hq1 by (unfold q1; destruct fix_to; [apply dbg_printed|done]).
  destruct (to' <=? from); [eapply Hfin; [|exact E]; etrans; [exact Hq1|apply dbg_printed]|].
  destruct (f_mmap_err f);
    [eapply Hfin; [|exact E]; etrans; [exact Hq1|apply printed_set_errno]|].
  cbn [acquire] in E. inv_bind. split; [by apply finish_out in E as [_ ->]|]. intros Hwf.
  destruct Hq1 as (Hl1 & Hn1 & Hlog1).
  match type of E with finish _ _ _ _ _ (dbg ?d0 ?s0 ?q2) = _ =>
    destruct (finish_quiet (next_id p) 2 (Some (next_id q1)) 0 (Z.b2z (d_geb a e)) os p q2
      (dbg d0 s0 q2)) as (p1 & E1 & Hl & Hn & Hlog & _) end; [done|done| | | |].
  - rewrite Hn1. cbn [next_id q]. split; [done|]. split; [done|]. cbn. by rewrite Hl1.
  - cbn. rewrite Hn1. cbn. lia.
  - apply dbg_printed.
  - rewrite E1 in E. simplify_eq. split; [done|]. split; [done|]. rewrite Hlog.
    etrans; [exact Hlog1|]. destruct d; cbn; [by apply prefix_app_r|done].
Qed.

Lemma process_frame k d fn os n p r os' p' :
  plugin_process_file k d fn os n p = Ok (r, os', p') ->
  os' = default [] os /\ (proc_wf p -> keeps p p').
Proof.
  unfold plugin_process_file.
  assert (forall o, Ok (-1, o, set_errno EINVAL p) = Ok (r, os', p') ->
    os' = o /\ (proc_wf p -> keeps p p')) as Hearly.
  { intros o [= <- <- <-]. auto with cdb. }
  destruct fn as [fn|]; [|apply Hearly]. destruct os as [os|]; [|apply Hearly].
  destruct n as [|n]; [apply Hearly|]. intros E. inv_bind. destruct a0 as [x q].
  assert (printed p a) as Hp.
  { destruct d; [by apply debug_entropy_printed in E0|by simplify_eq]. }
  apply parse_options_frame in E1 as [Hq _].
  assert (printed p q) as Hpq by by etrans.
  assert (forall e s, Ok (-1, os, set_errno e (dbg d s q)) = Ok (r, os', p') ->
    os' = os /\ (proc_wf p -> keeps p p')) as Hstop.
  { intros e s [= <- <- <-]. split; [done|]. intros _. apply printed_keeps. etrans; [exact Hpq|].
    etrans; [apply dbg_printed|apply printed_set_errno]. }
  destruct x as [a1|]; [|simplify_eq; auto with cdb].
  destruct (ar_entropy a1) as [e|]; [|by eapply Hstop].
  destruct (d_ltb e d_zero || d_ltb d_one e); [by eapply Hstop|].
  apply check_file_entropy_frame in E as [-> Hk]. split; [done|]. intros Hwf.
  assert (printed p (dbg d ("Inputs: entropy = " +:+ d_fmt e +:+
    ", offset_from = " +:+ fmt_lld (s64 (default 0 (ar_from a1))) +:+
    ", offset_to = " +:+ fmt_lld (s64 (default 0 (ar_to a1)))) q)) as H1.
  { etrans; [exact Hpq|apply dbg_printed]. }
  apply printed_keeps in H1. etrans; [exact H1|]. apply Hk. by eapply proc_wf_keeps.
Qed.

#[export] Instance plugin_laws : PluginLaws plugin_process_file.
Proof.
  split.
  - intros k d fn os n p ret os' p' E Hwf _. by apply process_frame in E as [_ Hk]; auto.
  - intros k d fn os n p ret os' p' E. by apply process_frame in E as [-> _].
Qed.
End Contract.

(** ** A concrete arithmetic *)

(** Rationals, with a logarithm that is exact on the quotients of powers of two. *)
Definition q_ops : DoubleOps Q := {|
  d_zero := 0%Q;
  d_one := 1%Q;
  d_eight := 8%Q;
  d_of_size := inject_Z;
  d_sub := Qminus;
  d_mul := Qmult;
  d_div := fun a b => Qred (a / b)%Q;
  d_log2 := fun a => inject_Z (Z.log2 (Qnum a) - Z.log2 (Zpos (Qden a)));
  d_ltb := fun a b => negb (Qle_bool b a);
  d_geb := fun a b => Qle_bool b a;
  d_strtod := fun s => let r := strtoll s 10 in (inject_Z (st_value r), st_end r);
  d_fmt := fun a => fmt_lld (Qnum a)
|}.

Definition bytes8 : list Z := [0; 1; 2; 3; 4; 5; 6; 7].

(** Four different bytes, from offset 2 to offset 5: two bits of eight. *)
Lemma process_entropy_witness :
  let k := MkKernel (fun _ => inl (regular bytes8)) (fun _ => inr ENOENT) in
  exists p', @plugin_process_file Q q_ops k false (Some "f"%string)
      (Some [opt_of OPT_ENTROPY_STR "0"; opt_of OPT_OFFSET_FROM_STR "2";
             opt_of OPT_OFFSET_TO_STR "0x5"]) 3%nat proc0 =
    Ok (1, [opt_of OPT_ENTROPY_STR "0"; opt_of OPT_OFFSET_FROM_STR "2";
            opt_of OPT_OFFSET_TO_STR "0x5"], p') /\ quiet proc0 p' /\ errno p' = 0 /\
    region bytes8 2 5 = [2; 3; 4; 5] /\ documented_region bytes8 2 5 = [2; 3; 4].
Proof.
  intros k.
  destruct (@process_entropy Q q_ops k "f" bytes8 "0" "2" "0x5" 0%Q 2 5 proc0)
    as (p' & E & Hq & He & _).
  - reflexivity.
  - discriminate.
  - reflexivity.
  - repeat constructor; lia.
  - intros id _. reflexivity.
  - vm_compute. reflexivity.
  - reflexivity.
  - reflexivity.
  - vm_compute. reflexivity.
  - vm_compute. reflexivity.
  - exists p'. split; [exact E|]. split; [exact Hq|]. split; [exact He|]. split; reflexivity.
Defined.

Lemma entropy_required_witness :
  exists p', @plugin_process_file Q q_ops (MkKernel (fun _ => inr ENOENT) (fun _ => inr ENOENT))
      true (Some "f"%string) (Some [opt_of OPT_OFFSET_FROM_STR "1"]) 1%nat proc0 =
      Ok (-1, [opt_of OPT_OFFSET_FROM_STR "1"], p') /\
    errno p' = EINVAL /\ printed proc0 p'.
Proof.
  apply (@entropy_required Q q_ops (MkKernel (fun _ => inr ENOENT) (fun _ => inr ENOENT))
    true "f" [opt_of OPT_OFFSET_FROM_STR "1"] 1 proc0).
  - discriminate.
  - intros [|i] Hi; [|lia]. exists (opt_of OPT_OFFSET_FROM_STR "1"). split; [reflexivity|].
    split; [by eexists|reflexivity].
Defined.
