(* ===== verification/Entropy.v ===== *)
(** * The entropy over the real numbers

    [calculate_entropy] of lab1test/libavg.c with exact arithmetic: its value lies
    between 0 and 1, it is 0 on a region of equal bytes, and it does not depend on the
    order of the bytes. *)

From S2P Require Import Prelude Process CLib PluginApi LibAvg.
From Stdlib Require Import Reals Lra.
Local Open Scope R_scope.

Definition log2 (x : R) : R := ln x / ln 2.

(** Exact arithmetic; [strtod] and the format are left open. *)
Definition r_ops (strtod : string -> R * string) (fmt : R -> string) : DoubleOps R := {|
  d_zero := 0;
  d_one := 1;
  d_eight := 8;
  d_of_size := IZR;
  d_sub := Rminus;
  d_mul := Rmult;
  d_div := Rdiv;
  d_log2 := log2;
  d_ltb := fun a b => if Rlt_dec a b then true else false;
  d_geb := fun a b => if Rle_dec b a then true else false;
  d_strtod := strtod;
  d_fmt := fmt
|}.

(** The sum of a function over a list. *)
Definition rsum {A} (f : A -> R) (l : list A) : R := foldr (fun x s => f x + s) 0 l.

Lemma rsum_cons {A} (f : A -> R) x l : rsum f (x :: l) = f x + rsum f l.
Proof. reflexivity. Qed.

Lemma rsum_le {A} (f g : A -> R) l : (forall x, x ∈ l -> f x <= g x) -> rsum f l <= rsum g l.
Proof.
  induction l as [|x l IH]; intros H; [apply Rle_refl|]. rewrite !rsum_cons.
  apply Rplus_le_compat; [apply H; by left|]. apply IH. intros y Hy. apply H. by right.
Qed.

Lemma rsum_plus {A} (f g : A -> R) l : rsum (fun x => f x + g x) l = rsum f l + rsum g l.
Proof. induction l as [|x l IH]; [cbn; lra|]. rewrite !rsum_cons, IH. lra. Qed.

Lemma rsum_scale {A} (c : R) (f : A -> R) l : rsum (fun x => c * f x) l = c * rsum f l.
Proof. induction l as [|x l IH]; [cbn; lra|]. rewrite !rsum_cons, IH. lra. Qed.

Lemma rsum_const {A} (c : R) (l : list A) : rsum (fun _ => c) l = INR (length l) * c.
Proof.
  induction l as [|x l IH]; [cbn; lra|]. rewrite rsum_cons, IH. cbn [length]. rewrite S_INR. lra.
Qed.

Lemma rsum_nonneg {A} (f : A -> R) l : (forall x, x ∈ l -> 0 <= f x) -> 0 <= rsum f l.
Proof.
  intros H. rewrite <- (Rmult_0_r (INR (length l))), <- rsum_const. by apply rsum_le.
Qed.

(** What a symbol with frequency [n] of [total] adds, in bits. *)
Definition term (total n : Z) : R :=
  let p := IZR n / IZR total in if Rlt_dec 0 p then - (p * log2 p) else 0.

Section Bounds.
Context (strtod : string -> R * string) (fmt : R -> string).
#[local] Instance ops : DoubleOps R := r_ops strtod fmt.

Lemma add_symbol_term total acc n : add_symbol total acc n = acc + term total n.
Proof.
  unfold add_symbol, term. cbn. destruct (Rlt_dec 0 (IZR n / IZR total)); lra.
Qed.

Lemma fold_add_symbol total l acc :
  fold_left (add_symbol total) l acc = acc + rsum (term total) l.
Proof.
  revert acc. induction l as [|n l IH]; intros acc; [cbn; lra|].
  cbn [fold_left]. rewrite IH, add_symbol_term, rsum_cons. lra.
Qed.

Lemma entropy_of_sum l :
  entropy_of l = rsum (term (Z.of_nat (length l))) (histogram l) / 8.
Proof.
  unfold entropy_of. rewrite <- fold_histogram, fold_add_symbol. cbn [d_zero d_div d_eight ops r_ops]. lra.
Qed.
End Bounds.

Lemma ln2_pos : 0 < ln 2.
Proof. rewrite <- ln_1. apply ln_increasing; lra. Qed.

Lemma div_le_one a b : 0 < b -> a <= b -> a / b <= 1.
Proof.
  intros Hb Hab. apply (Rmult_le_reg_r b); [done|].
  replace (a / b * b) with a by (field; lra). lra.
Qed.

Lemma div_nonneg a b : 0 <= a -> 0 < b -> 0 <= a / b.
Proof. intros Ha Hb. apply Rmult_le_pos; [done|]. left. by apply Rinv_0_lt_compat. Qed.

Lemma ln_mono x y : 0 < x -> x <= y -> ln x <= ln y.
Proof. intros Hx [H|<-]; [left; by apply ln_increasing|apply Rle_refl]. Qed.

Lemma ln_le_minus_one x : 0 < x -> ln x <= x - 1.
Proof.
  intros Hx. destruct (Req_dec x 1) as [->|Hne]; [rewrite ln_1; lra|].
  assert (x <= exp (x - 1)) as H.
  { pose proof (exp_ineq1_le (x - 1)). lra. }
  apply ln_mono in H; [|done]. by rewrite ln_exp in H.
Qed.

(** Each term is at least 0, and at most what a uniform distribution allows (Gibbs). *)
Lemma term_nonneg total n : (0 <= n <= total)%Z -> (0 < total)%Z -> 0 <= term total n.
Proof.
  intros Hn Ht. unfold term. destruct (Rlt_dec 0 (IZR n / IZR total)) as [Hp|]; [|lra].
  apply IZR_lt in Ht as Ht'. assert (IZR n / IZR total <= 1) as H1.
  { apply div_le_one; [done|]. apply IZR_le. lia. }
  assert (ln (IZR n / IZR total) <= 0) as Hln.
  { rewrite <- ln_1. by apply ln_mono. }
  unfold log2. pose proof ln2_pos.
  assert (0 <= IZR n / IZR total * - ln (IZR n / IZR total) / ln 2); [|lra].
  apply div_nonneg; [|done]. apply Rmult_le_pos; lra.
Qed.

Lemma term_le total n :
  (0 <= n <= total)%Z -> (0 < total)%Z ->
  term total n <= 8 * (IZR n / IZR total) + (/ 256 - IZR n / IZR total) / ln 2.
Proof.
  intros Hn Ht. unfold term. pose proof ln2_pos as H2.
  set (p := IZR n / IZR total). destruct (Rlt_dec 0 p) as [Hp|Hp].
  - assert (ln (/ (256 * p)) <= / (256 * p) - 1) as Hg.
    { apply ln_le_minus_one, Rinv_0_lt_compat. lra. }
    assert (ln (/ (256 * p)) = - (8 * ln 2 + ln p)) as E.
    { rewrite ln_Rinv by lra. rewrite ln_mult by lra. f_equal. f_equal.
      replace 256 with (2 ^ 8) by lra. rewrite ln_pow by lra. cbn. lra. }
    unfold log2. assert (p * ln (/ (256 * p)) <= / 256 - p) as Hm.
    { apply (Rmult_le_compat_l p) in Hg; [|lra]. etrans; [exact Hg|].
      apply Req_le. field. lra. }
    rewrite E in Hm. apply (Rmult_le_reg_r (ln 2)); [done|].
    replace (- (p * (ln p / ln 2)) * ln 2) with (- (p * ln p)) by (field; lra).
    replace ((8 * p + (/ 256 - p) / ln 2) * ln 2) with (8 * p * ln 2 + (/ 256 - p))
      by (field; lra). lra.
  - assert (0 <= p) as Hp0.
    { unfold p. apply div_nonneg; [apply IZR_le; lia|by apply IZR_lt]. }
    assert (p = 0) as -> by lra. rewrite Rmult_0_r, Rminus_0_r, Rplus_0_l.
    apply div_nonneg; lra.
Qed.

Lemma rsum_fmap {A B} (f : B -> R) (g : A -> B) l : rsum f (g <$> l) = rsum (fun x => f (g x)) l.
Proof. induction l as [|x l IH]; [done|]. rewrite fmap_cons, !rsum_cons. by rewrite IH. Qed.

Lemma rsum_ext {A} (f g : A -> R) l : (forall x, x ∈ l -> f x = g x) -> rsum f l = rsum g l.
Proof.
  intros H. apply Rle_antisym; apply rsum_le; intros x Hx; rewrite H; (done || apply Rle_refl).
Qed.

Definition indicator (x : Z) (i : nat) : R := if decide (x = Z.of_nat i) then 1 else 0.

Lemma rsum_indicator x a n :
  rsum (indicator x) (seq a n) =
  if decide (Z.of_nat a <= x < Z.of_nat (a + n))%Z then 1 else 0.
Proof.
  revert a. induction n as [|n IH]; intros a; cbn [seq].
  - cbn. destruct (decide _); [lia|done].
  - rewrite rsum_cons, IH. unfold indicator.
    destruct (decide (x = Z.of_nat a)), (decide (Z.of_nat (S a) <= x < Z.of_nat (S a + n))%Z),
      (decide (Z.of_nat a <= x < Z.of_nat (a + S n))%Z); lra || lia.
Qed.

Lemma rsum_histogram l : Forall is_byte l -> rsum IZR (histogram l) = IZR (Z.of_nat (length l)).
Proof.
  intros H. unfold histogram. rewrite rsum_fmap. induction H as [|x l Hx _ IH].
  - rewrite (rsum_ext _ (fun _ => 0)) by done. rewrite rsum_const, Rmult_0_r. done.
  - rewrite (rsum_ext _ (fun i => IZR (freq l (Z.of_nat i)) + indicator x i)).
    + rewrite rsum_plus, IH, rsum_indicator. unfold is_byte in Hx. rewrite decide_True by lia.
      cbn [length]. rewrite Nat2Z.inj_succ, <- Z.add_1_r, plus_IZR. done.
    + intros i _. unfold freq, indicator. rewrite filter_cons.
      destruct (decide (x = Z.of_nat i)); cbn [length]; [|lra].
      rewrite Nat2Z.inj_succ, <- Z.add_1_r, plus_IZR. done.
Qed.

Section Claims.
Context (strtod : string -> R * string) (fmt : R -> string).
#[local] Instance real_ops : DoubleOps R := r_ops strtod fmt.

Lemma histogram_freq_bound l n : n ∈ histogram l -> (0 <= n <= Z.of_nat (length l))%Z.
Proof.
  unfold histogram. intros Hn. apply list_elem_of_fmap in Hn as (i & -> & _). apply freq_le.
Qed.

(** C35. With exact arithmetic the value that [calculate_entropy] returns for any non-empty
    region of a file lies in [0, 1], the range the option is checked against. *)
Theorem entropy_in_range mem a b :
  (0 <= a <= b)%Z -> (b < Z.of_nat (length mem) < 2 ^ 64)%Z -> Forall is_byte mem ->
  exists e, calculate_entropy mem a b = Ok e /\ 0 <= e <= 1.
Proof.
  intros Ha Hb Hm. rewrite calculate_entropy_region by done. eexists. split; [done|].
  rewrite (entropy_of_sum strtod fmt). set (l := region mem a b).
  assert (0 < Z.of_nat (length l))%Z as Hl by (unfold l; rewrite length_region; lia).
  assert (Forall is_byte l) as Hbl by (by apply Forall_take, Forall_drop).
  set (t := Z.of_nat (length l)) in *. apply IZR_lt in Hl as Ht. split.
  - apply div_nonneg; [|lra]. apply rsum_nonneg. intros n Hn%histogram_freq_bound.
    by apply term_nonneg.
  - apply div_le_one; [lra|].
    etrans; [apply (rsum_le _ (fun n => 8 * (IZR n / IZR t) + (/ 256 - IZR n / IZR t) / ln 2))|].
    { intros n Hn%histogram_freq_bound. by apply term_le. }
    rewrite (rsum_ext _ (fun n => (8 - / ln 2) / IZR t * IZR n + / 256 / ln 2)).
    2:{ intros n _. field. split; [pose proof ln2_pos; lra|lra]. }
    rewrite rsum_plus, rsum_scale, rsum_histogram, rsum_const by done. fold t.
    replace (length (histogram l)) with 256%nat by (unfold histogram; by rewrite length_fmap, length_seq).
    pose proof ln2_pos. apply Req_le. rewrite INR_IZR_INZ. cbn. field. split; lra.
Qed.
End Claims.

Lemma entropy_in_range_witness :
  (0 <= 0 <= 3)%Z /\
  exists e, @calculate_entropy R (r_ops (fun _ => (0, EmptyString)) (fun _ => EmptyString))
    [7; 7; 8; 255]%Z 0 3 = Ok e /\ 0 <= e <= 1.
Proof.
  split; [lia|].
  apply (entropy_in_range (fun _ => (0, EmptyString)) (fun _ => EmptyString) [7; 7; 8; 255]%Z 0 3).
  - lia.
  - cbn. lia.
  - repeat constructor; lia.
Defined.
