(* ===== verification/LibUuid.v ===== *)
(** * lab1/libavg.c: the uuid plugin

    The plugin maps the file twice, looks for dashes at the offsets 8, 13, 18 and 23 of
    the second mapping, copies digits and lower-case letters into a 256-byte array on the
    stack, and answers 1 whatever it found. *)

From S2P Require Import Prelude Process CLib PluginApi.
From Stdlib Require Import Ascii.
Local Open Scope Z_scope.
Local Open Scope c_scope.

Definition g_lib_name : string := "libavg.so".
Definition g_plugin_purpose : string := "Check uuids".
Definition g_plugin_author : string := "TRAN".
Definition OPT_UUIDS : string := "uuids".
Definition g_po_arr : list plugin_option :=
  [MkPluginOption (MkOpt OPT_UUIDS 0 None 0) "check uuids"].
Definition g_po_arr_len : Z := Z.of_nat (length g_po_arr).

Definition plugin_get_info : pgi_func_t := fun ppi p =>
  match ppi with
  | None => (-1, None, emit (Err ("ERROR: invalid argument" +:+ nl)) p)
  | Some _ =>
      (0, Some (MkPluginInfo g_plugin_purpose g_plugin_author g_po_arr_len g_po_arr), p)
  end.

(** [mmap] maps whole pages: the bytes past the end of the file, up to the end of its
    last page, read as zero. *)
Definition PAGE : Z := 4096.
Definition mapped (content : list Z) : list Z :=
  content ++ repeat 0 (Z.to_nat ((- Z.of_nat (length content)) `mod` PAGE)).

(** [f[i]], a [char]. *)
Definition char_at (mem : list Z) (i : nat) : res Z :=
  match mem !! i with Some b => Ok (s8 b) | None => Undef OutOfBounds end.

Definition has_dashes (mem : list Z) : res bool :=
  let* a := char_at mem 8 in
  if negb (a =? 45) then Ok false else
  let* b := char_at mem 13 in
  if negb (b =? 45) then Ok false else
  let* c := char_at mem 18 in
  if negb (c =? 45) then Ok false else
  let* d := char_at mem 23 in
  Ok (d =? 45).

Definition uuid_char (c : Z) : bool :=
  ((48 <=? c) && (c <=? 57)) || ((97 <=? c) && (c <=? 122)).

(** [get_uuid]: the array [alloca] gave, [None] where nothing was written yet, or the
    literal it is replaced by. *)
Inductive uuid_ptr :=
| Stack (a : list (option Z))
| Literal (s : string).

Definition alloca_256 : list (option Z) := replicate 256 None.

(** The loop that copies. *)
Fixpoint copy_uuid (mem : list Z) (idx : list nat) (a : list (option Z)) : res (list (option Z)) :=
  match idx with
  | [] => Ok a
  | i :: idx =>
      let* c := char_at mem i in
      if uuid_char c then
        if (i <? length a)%nat then copy_uuid mem idx (<[i := Some c]> a)
        else Undef OutOfBounds
      else copy_uuid mem idx a
  end.

(** [%s] of [get_uuid]: it stops at a byte 0, which the loop never writes. *)
Fixpoint read_text (a : list (option Z)) : res string :=
  match a with
  | [] => Undef OutOfBounds
  | None :: _ => Undef UninitRead
  | Some c :: a => if c =? 0 then Ok EmptyString
                   else let* s := read_text a in Ok (String (chr (c `mod` 256)) s)
  end.

Definition show_uuid (u : uuid_ptr) : res string :=
  match u with Stack a => read_text a | Literal s => Ok s end.

Fixpoint debug_options (idx : list nat) (os : list copt) (p : proc) : res proc :=
  match idx with
  | [] => Ok p
  | i :: idx =>
      match os !! i with
      | Some o => debug_options idx os (emit (Err ("DEBUG: " +:+ g_lib_name +:+
          ": Got option '" +:+ o_name o +:+ "' with arg '" +:+ show_ptr (o_flag o) +:+
          "'" +:+ nl)) p)
      | None => Undef OutOfBounds
      end
  end.

(** The code at [END]; the second mapping is not known there. *)
Definition finish (fd : nat) (ptr : option nat) (saved_errno ret : Z) (os : list copt)
    (p : proc) : res (Z * list copt * proc) :=
  let* p := release RFd fd p in
  let* p := release_opt RMap ptr p in
  Ok (ret, os, set_errno saved_errno p).

Definition plugin_process_file : ppf_func_t := fun k DEBUG fname in_opts in_opts_len p =>
  match fname, in_opts, in_opts_len with
  | Some fn, Some os, S _ =>
      let* p := if DEBUG then debug_options (seq 0 in_opts_len) os p else Ok p in
      match k_open k fn with
      | inr e => Ok (-1, os, set_errno e p)
      | inl f =>
          let '(fd, p) := acquire RFd p in
          match f_fstat_err f with
          | Some e => finish fd None e (-1) os (set_errno e p)
          | None =>
              if st_size f =? 0 then
                let p := if DEBUG then emit (Err ("DEBUG: " +:+ g_lib_name +:+
                           ": File size should be > 0" +:+ nl)) p else p in
                finish fd None ERANGE (-1) os p
              else
                match f_mmap_err f with
                | Some e => finish fd None e (-1) os (set_errno e p)
                | None =>
                    let '(ptr, p) := acquire RMap p in
                    let '(f2, p) := acquire RMap p in
                    let mem := mapped (f_content f) in
                    let* found := has_dashes mem in
                    let* u := if found : bool
                              then let* a := copy_uuid mem (seq 0 (length (f_content f))) alloca_256 in
                                   Ok (Stack a)
                              else Ok (Literal " UUIDS not exist") in
                    let* p := if DEBUG
                              then let* s := show_uuid u in
                                   Ok (emit (Err ("DEBUG: " +:+ g_lib_name +:+
                                     ": value uuids of = " +:+ s +:+ nl)) p)
                              else Ok p in
                    let check := 1 in
                    let uuids := 0 in
                    finish fd (Some ptr) 0 (Z.b2z (uuids <=? check)) os p
                end
          end
      end
  | _, _, _ => Ok (-1, default [] in_opts, set_errno EINVAL p)
  end.

(** ** The mapping *)

Lemma mapped_long content i :
  content <> [] -> (i < 24)%nat -> is_Some (mapped content !! i).
Proof.
  intros Hne Hi. apply lookup_lt_is_Some_2. unfold mapped. rewrite length_app, repeat_length.
  assert (0 < Z.of_nat (length content)) by (destruct content; [done|cbn; lia]).
  unfold PAGE. destruct (decide (24 <= length content)%nat); [lia|].
  assert ((- Z.of_nat (length content)) `mod` 4096 = 4096 - Z.of_nat (length content)) as ->; [|lia].
  rewrite Z.mod_opp_l_nz; [|lia|rewrite Z.mod_small; lia]. rewrite Z.mod_small; lia.
Qed.

Lemma char_at_total content i :
  content <> [] -> (i < 24)%nat -> exists c, char_at (mapped content) i = Ok c.
Proof.
  intros Hne Hi. destruct (mapped_long content i Hne Hi) as [b Hb]. unfold char_at.
  rewrite Hb. by eexists.
Qed.

(** The dashes can be looked for on any non-empty file. *)
Lemma has_dashes_total content : content <> [] -> exists b, has_dashes (mapped content) = Ok b.
Proof.
  intros Hne. unfold has_dashes.
  destruct (char_at_total content 8 Hne) as [a ->]; [lia|]. cbn [rbind].
  destruct (negb (a =? 45)); [by eexists|].
  destruct (char_at_total content 13 Hne) as [b ->]; [lia|]. cbn [rbind].
  destruct (negb (b =? 45)); [by eexists|].
  destruct (char_at_total content 18 Hne) as [c ->]; [lia|]. cbn [rbind].
  destruct (negb (c =? 45)); [by eexists|].
  destruct (char_at_total content 23 Hne) as [e ->]; [lia|]. by eexists.
Qed.

Lemma char_at_content content i :
  (i < length content)%nat -> exists b, content !! i = Some b /\ char_at (mapped content) i = Ok (s8 b).
Proof.
  intros Hi. destruct (lookup_lt_is_Some_2 content i Hi) as [b Hb]. exists b. split; [done|].
  unfold char_at, mapped. by rewrite lookup_app_l, Hb.
Qed.

(** The copy stays inside the array when the file has at most 256 bytes. *)
Lemma copy_uuid_total content idx a :
  (length content <= 256)%nat -> length a = 256%nat ->
  (forall i, i ∈ idx -> (i < length content)%nat) ->
  exists a', copy_uuid (mapped content) idx a = Ok a'.
Proof.
  intros Hc. revert a. induction idx as [|i idx IH]; intros a Ha Hi; [by exists a|].
  cbn [copy_uuid]. destruct (char_at_content content i) as (b & _ & ->); [apply Hi; by left|].
  cbn [rbind]. destruct (uuid_char (s8 b)).
  - rewrite (proj2 (Nat.ltb_lt i (length a))).
    + apply IH; [by rewrite length_insert|]. intros j Hj. apply Hi. by right.
    + specialize (Hi i ltac:(by left)). lia.
  - apply IH; [done|]. intros j Hj. apply Hi. by right.
Qed.

(** A digit or a lower-case letter past the array is written all the same. *)
Lemma copy_uuid_overflow content idx a i b :
  length a = 256%nat -> (forall j, j ∈ idx -> (j < length content)%nat) ->
  i ∈ idx -> (256 <= i)%nat -> content !! i = Some b -> uuid_char (s8 b) = true ->
  copy_uuid (mapped content) idx a = Undef OutOfBounds.
Proof.
  revert a. induction idx as [|j idx IH]; intros a Ha Hi Hin H256 Hb Hc;
    [by apply elem_of_nil in Hin|]. cbn [copy_uuid].
  destruct (char_at_content content j) as (b' & Hb' & ->); [apply Hi; by left|]. cbn [rbind].
  assert (forall k, k ∈ idx -> (k < length content)%nat) as Hi' by (intros k Hk; apply Hi; by right).
  destruct (uuid_char (s8 b')) eqn:Hu.
  - destruct (Nat.ltb_spec j (length a)); [|done].
    apply elem_of_cons in Hin as [-> |Hin]; [lia|]. apply IH; try done. by rewrite length_insert.
  - apply elem_of_cons in Hin as [-> |Hin]; [congruence|]. by apply IH.
Qed.

Definition uuids_opt : copt := MkOpt OPT_UUIDS 0 None 0.

Lemma st_size_uuid bytes : bytes <> [] -> (st_size (regular bytes) =? 0) = false.
Proof. intros ?. apply Z.eqb_neq. unfold st_size. destruct bytes; [done|cbn; lia]. Qed.

(** On every readable, non-empty file of at most 256 bytes the plugin answers 1,
    uuid or not, and leaves the second of its two mappings behind. *)
Theorem uuid_always_matches k fn bytes p :
  k_open k fn = inl (regular bytes) -> bytes <> [] -> (length bytes <= 256)%nat -> proc_wf p ->
  exists p', plugin_process_file k false (Some fn) (Some [uuids_opt]) 1%nat p =
      Ok (1, [uuids_opt], p') /\
    live p' = <[S (S (next_id p)) := RMap]> (live p) /\ log p' = log p /\ errno p' = 0.
Proof.
  intros Hk Hne Hlen Hwf. unfold plugin_process_file. rewrite Hk. cbn [rbind acquire].
  change (f_fstat_err (regular bytes)) with (@None Z).
  change (f_mmap_err (regular bytes)) with (@None Z). rewrite st_size_uuid by done.
  cbn [next_id f_content regular].
  destruct (has_dashes_total bytes Hne) as [found ->]. cbn [rbind].
  assert (exists u, (if found then let* a := copy_uuid (mapped bytes) (seq 0 (length bytes)) alloca_256 in
    Ok (Stack a) else Ok (Literal " UUIDS not exist")) = Ok u) as [u ->].
  { destruct found; [|by eexists].
    destruct (copy_uuid_total bytes (seq 0 (length bytes)) alloca_256) as [a ->];
      [done|done| |by eexists]. intros i Hi%elem_of_seq. lia. }
  cbn [rbind]. unfold finish.
  rewrite release_live.
  2:{ cbn. rewrite !lookup_insert_ne by lia. apply lookup_insert_eq. }
  cbn [rbind release_opt]. rewrite release_live.
  2:{ cbn. rewrite lookup_delete_ne, lookup_insert_ne by lia. apply lookup_insert_eq. }
  cbn [rbind]. eexists. split; [done|]. cbn. split; [|done].
  apply map_eq. intros i.
  destruct (decide (i = S (S (next_id p)))) as [->|H2].
  { rewrite !lookup_delete_ne, !lookup_insert_eq by lia. done. }
  destruct (decide (i = S (next_id p))) as [->|H1].
  { rewrite lookup_delete_eq, lookup_insert_ne by lia. symmetry. apply Hwf. lia. }
  rewrite lookup_delete_ne by done. destruct (decide (i = next_id p)) as [->|H0].
  { rewrite lookup_delete_eq, lookup_insert_ne by lia. symmetry. apply Hwf. lia. }
  by rewrite lookup_delete_ne, !lookup_insert_ne by done.
Qed.

Lemma uuid_always_matches_witness :
  exists p', plugin_process_file (MkKernel (fun _ => inl (regular [65])) (fun _ => inr ENOENT))
      false (Some "f"%string) (Some [uuids_opt]) 1%nat proc0 = Ok (1, [uuids_opt], p') /\
    live p' = <[2%nat := RMap]> ∅ /\ log p' = [] /\ errno p' = 0.
Proof.
  apply (uuid_always_matches (MkKernel (fun _ => inl (regular [65])) (fun _ => inr ENOENT))
    "f" [65] proc0).
  - reflexivity.
  - discriminate.
  - cbn. lia.
  - intros id _. reflexivity.
Defined.

(** A file with the four dashes and a digit or lower-case letter at offset 256 or
    later makes the plugin write past its array. *)
Theorem uuid_overflow k fn bytes p i b :
  k_open k fn = inl (regular bytes) -> has_dashes (mapped bytes) = Ok true ->
  (256 <= i)%nat -> bytes !! i = Some b -> uuid_char (s8 b) = true ->
  plugin_process_file k false (Some fn) (Some [uuids_opt]) 1%nat p = Undef OutOfBounds.
Proof.
  intros Hk Hd Hi Hb Hc. unfold plugin_process_file. rewrite Hk. cbn [rbind acquire].
  change (f_fstat_err (regular bytes)) with (@None Z).
  change (f_mmap_err (regular bytes)) with (@None Z).
  rewrite st_size_uuid by (by intros ->). cbn [f_content regular]. rewrite Hd. cbn [rbind].
  rewrite (copy_uuid_overflow bytes _ alloca_256 i b); [done|done| |by apply elem_of_seq;
    apply lookup_lt_Some in Hb; lia|done|done|done].
  intros j Hj%elem_of_seq. lia.
Qed.

Definition long_uuid : list Z := repeat 45 256 ++ [48].

Lemma uuid_overflow_witness :
  plugin_process_file (MkKernel (fun _ => inl (regular long_uuid)) (fun _ => inr ENOENT))
    false (Some "f"%string) (Some [uuids_opt]) 1%nat proc0 = Undef OutOfBounds.
Proof.
  apply (uuid_overflow (MkKernel (fun _ => inl (regular long_uuid)) (fun _ => inr ENOENT))
    "f" long_uuid proc0 256 48).
  - reflexivity.
  - vm_compute. reflexivity.
  - lia.
  - vm_compute. reflexivity.
  - vm_compute. reflexivity.
Defined.
