(* ===== verification/Lab1Tools.v ===== *)
(** * lab1test/lab1test.c and lab1test/lab1call.c

    The two programs that come with the plugin interface: [lab1test] prints what each
    library says about itself, [lab1call] hands one file and one set of options to one
    library and prints the verdict. *)

From S2P Require Import Prelude Process CLib PluginApi LibTypefile Getopt Search Finder.
From Stdlib Require Import Ascii.
Local Open Scope Z_scope.
Local Open Scope c_scope.

(** What [dlopen] finds, the text of [dlerror], the files, and [LAB1DEBUG]. *)
Record tools_env := MkTools {
  t_debug : bool;
  t_fs : kernel;
  t_dlopen : string -> option dlib;
  t_dlerror : string
}.

Definition out (s : string) (p : proc) : proc := emit (Out s) p.
Definition err (s : string) (p : proc) : proc := emit (Err s) p.
Definition emits (es : list ev) (p : proc) : proc := fold_left (fun p e => emit e p) es p.

(** The block "Plugin info", which the two programs share. *)
Definition info_lines (info : plugin_info) : res (list ev) :=
  let head := [Out ("Plugin purpose:" +:+ tab +:+ tab +:+ plugin_purpose info +:+ nl);
               Out ("Plugin author:" +:+ tab +:+ tab +:+ plugin_author info +:+ nl);
               Out "Supported options: "] in
  if 0 <? sup_opts_len info then
    if sup_opts_len info <=? Z.of_nat (length (sup_opts info))
    then Ok (head ++ Out nl :: option_lines info)
    else Undef OutOfBounds
  else Ok (head ++ [Out ("none (!?)" +:+ nl)]).

(** ** lab1test *)

(** The body of the loop, for a library that was opened as [id]. *)
Definition test_lib (T : tools_env) (h : dlib) (p : proc) : res proc :=
  match sym_plugin_get_info h with
  | None => Ok (err ("ERROR: dlsym() failed: " +:+ t_dlerror T +:+ nl) p)
  | Some f =>
      let '(ret, info, p) := f (Some zero_info) p in
      if ret <? 0 then Ok (err ("ERROR: plugin_get_info() failed" +:+ nl) p)
      else
        let* es := info_lines (default zero_info info) in
        let p := emits es p in
        Ok (match sym_plugin_process_file h with
            | None => err ("WARNING: no plugin_process_file() function found" +:+ nl) p
            | Some _ => p
            end)
  end.

Fixpoint test_libs (T : tools_env) (names : list string) (p : proc) : res proc :=
  match names with
  | [] => Ok p
  | name :: names =>
      let p := out ("Trying " +:+ name +:+ ":" +:+ nl) p in
      match t_dlopen T name with
      | None => test_libs T names (err ("ERROR: dlopen() failed: " +:+ t_dlerror T +:+ nl) p)
      | Some h =>
          let '(dl, p) := acquire RDl p in
          let* p := test_lib T h p in
          let* p := release RDl dl p in
          test_libs T names p
      end
  end.

Definition lab1test_main (T : tools_env) (argv : list string) (p : proc) : res (Z * proc) :=
  if (length argv =? 1)%nat
  then Ok (0, out ("Usage: lab1test /path/to/lib1.so ... libN.so" +:+ nl) p)
  else let* p := test_libs T (drop 1 argv) p in Ok (0, p).

(** ** lab1call *)

(** [opts_to_pass], filled up to [opts_to_pass_len], and the blocks in its [flag]s. *)
Record cstate := MkC {
  c_proc : proc;
  c_opts : list copt;
  c_args : list (option nat)
}.

Definition c_on (g : proc -> proc) (s : cstate) : cstate := MkC (g (c_proc s)) (c_opts s) (c_args s).

(** One option that [getopt_long_only] found; [false] is [goto END]. *)
Definition take_option (longopts : list copt) (sup_opts_len : Z) (r : long_ret) (s : cstate)
  : res (bool * cstate) :=
  if Z.of_nat (length (c_opts s)) =? sup_opts_len then
    Ok (false, c_on (err ("ERROR: too many options!" +:+ nl)) s)
  else
    match longopts !! lr_ind r with
    | None => Undef OutOfBounds
    | Some o =>
        if o_has_arg o =? 0
        then Ok (true, MkC (c_proc s) (c_opts s ++ [o]) (c_args s ++ [None]))
        else match lr_arg r with
             | None => Undef NullDeref
             | Some t =>
                 let '(id, p) := acquire RBlk (c_proc s) in
                 Ok (true, MkC p (c_opts s ++ [set_flag o (Some (strdup t))])
                       (c_args s ++ [Some id]))
             end
    end.

(** The [while (1)]; here the arguments that are no options are permuted to the end and
    never returned, and an unknown option ends the program. *)
Fixpoint take_options (longopts : list copt) (sup_opts_len : Z) (args : list string) (s : cstate)
  : res (bool * cstate) :=
  match args with
  | [] => Ok (true, s)
  | a :: args =>
      if streq a "--" then Ok (true, s)
      else match long_text a with
           | None => take_options longopts sup_opts_len args s
           | Some t =>
               let r := process_long longopts t (head args) in
               if lr_code r =? 0 then
                 let* (go, s) := take_option longopts sup_opts_len r s in
                 if go : bool then
                   match lr_took r, args with
                   | true, _ :: args => take_options longopts sup_opts_len args s
                   | _, _ => take_options longopts sup_opts_len args s
                   end
                 else Ok (false, s)
               else Ok (false, c_on (err ("ERROR: failed to parse options" +:+ nl)) s)
           end
  end.

Definition debug_passing (os : list copt) : list ev :=
  Err ("DEBUG: opts_to_pass_len = " +:+ fmt_lld (Z.of_nat (length os)) +:+ nl) ::
  ((fun o => Err ("DEBUG: passing option '" +:+ o_name o +:+ "' with arg '" +:+
      show_ptr (o_flag o) +:+ "'" +:+ nl)) <$> os).

(** The call of the plugin and the lines after it. *)
Definition call_plugin (T : tools_env) (f : ppf_func_t) (file_name : string) (s : cstate)
  : res cstate :=
  let s := if t_debug T then c_on (emits (debug_passing (c_opts s))) s else s in
  let s := c_on (set_errno 0) s in
  let* (ret, os, p) := f (t_fs T) (t_debug T) (Some file_name) (Some (c_opts s))
                         (length (c_opts s)) (c_proc s) in
  let p := out ("plugin_process_file() returned " +:+ fmt_lld ret +:+ nl) p in
  Ok (MkC (if ret <? 0 then emit (OutErrno "Error information: " (errno p)) p else p)
        os (c_args s)).

(** The pointers that [END] frees, with the options of [s]. *)
Record blocks := MkBlocks {
  k_lib_name : nat;
  k_file_name : nat;
  k_dl : option nat;
  k_longopts : option nat;
  k_opts : option nat
}.

Definition at_END_call (b : blocks) (s : cstate) : res proc :=
  let* p := match k_opts b with
            | Some id =>
                let* p := free_args (c_opts s) (c_args s) (c_proc s) in release RBlk id p
            | None => Ok (c_proc s)
            end in
  let* p := release_opt RBlk (k_longopts b) p in
  let* p := release RBlk (k_lib_name b) p in
  let* p := release RBlk (k_file_name b) p in
  release_opt RDl (k_dl b) p.

(** From the opened library to [END]. *)
Definition with_lib (T : tools_env) (argv : list string) (file_name : string) (h : dlib)
    (b : blocks) (p : proc) : res proc :=
  let fail b msg p := at_END_call b (MkC (err (msg +:+ nl) p) [] []) in
  match sym_plugin_get_info h with
  | None => fail b ("ERROR: dlsym() failed: " +:+ t_dlerror T) p
  | Some gi =>
      let '(ret, info, p) := gi (Some zero_info) p in
      if ret <? 0 then fail b "ERROR: plugin_get_info() failed" p
      else
        let info := default zero_info info in
        let* es := info_lines info in
        let p := emits (es ++ [Out nl]) p in
        if sup_opts_len info =? 0 then fail b "ERROR: library supports no options! How so?" p
        else match sym_plugin_process_file h with
             | None => fail b "ERROR: no plugin_process_file() function found" p
             | Some f =>
                 let '(lo, p) := acquire RBlk p in
                 let* longopts := copy_options (sup_opts_len info) (sup_opts info) in
                 let '(ob, p) := acquire RBlk p in
                 let b := MkBlocks (k_lib_name b) (k_file_name b) (k_dl b) (Some lo) (Some ob) in
                 let* (go, s) := take_options longopts (sup_opts_len info) (drop 1 argv)
                                   (MkC p [] []) in
                 if go : bool then
                   let* s := call_plugin T f file_name s in at_END_call b s
                 else at_END_call b s
             end
  end.

Definition lab1call_main (T : tools_env) (argv : list string) (p : proc) : res (Z * proc) :=
  match argv with
  | _ :: lib :: _ :: _ :: _ =>
      let '(b1, p) := acquire RBlk p in
      let '(b2, p) := acquire RBlk p in
      let file_name := default EmptyString (last argv) in
      let* p := match t_dlopen T lib with
                | None =>
                    at_END_call (MkBlocks b1 b2 None None None)
                      (MkC (err ("ERROR: dlopen() failed: " +:+ t_dlerror T +:+ nl) p) [] [])
                | Some h =>
                    let '(dl, p) := acquire RDl p in
                    with_lib T argv file_name h (MkBlocks b1 b2 (Some dl) None None) p
                end in
      Ok (0, p)
  | _ => Ok (0, out ("Usage: lab1call /path/to/libabcNXXXX.so [options_for_lib] /path/to/file" +:+ nl) p)
  end.

(** ** lab1test *)

Lemma emits_keeps es p : keeps p (emits es p).
Proof.
  revert p. induction es as [|e es IH]; intros p; [done|]. cbn.
  etrans; [apply (keeps_emit e)|apply IH].
Qed.

Lemma emits_spec es p :
  live (emits es p) = live p /\ next_id (emits es p) = next_id p /\
  log (emits es p) = log p ++ es /\ errno (emits es p) = errno p.
Proof.
  revert p. induction es as [|e es IH]; intros p; [by rewrite app_nil_r|].
  destruct (IH (emit e p)) as (H1 & H2 & H3 & H4).
  change (emits (e :: es) p) with (emits es (emit e p)).
  rewrite H1, H2, H3, H4. cbn. by rewrite <- (assoc_L app).
Qed.

(** A library that fills in [plugin_info] properly. *)
Definition info_wf (f : pgi_func_t) : Prop :=
  forall x p ret x' p', f x p = (ret, x', p') ->
    keeps p p' /\ forall i, x' = Some i -> 0 <= sup_opts_len i <= Z.of_nat (length (sup_opts i)).

Definition loads_wf (T : tools_env) : Prop :=
  forall name h f, t_dlopen T name = Some h -> sym_plugin_get_info h = Some f -> info_wf f.

Lemma test_lib_total T h p :
  (forall f, sym_plugin_get_info h = Some f -> info_wf f) ->
  exists q, test_lib T h p = Ok q /\ keeps p q.
Proof.
  intros Hh. unfold test_lib. destruct (sym_plugin_get_info h) as [f|].
  2:{ eexists. split; [done|]. apply keeps_emit. }
  destruct (f (Some zero_info) p) as [[ret info] p1] eqn:Ef.
  destruct (Hh f eq_refl _ _ _ _ _ Ef) as [Hk Hi].
  destruct (ret <? 0). { eexists. split; [done|]. etrans; [exact Hk|apply keeps_emit]. }
  assert (exists es, info_lines (default zero_info info) = Ok es) as [es ->].
  { unfold info_lines. destruct (Z.ltb_spec 0 (sup_opts_len (default zero_info info)));
      [|by eexists].
    destruct info as [i|]; [|done]. rewrite (proj2 (Z.leb_le _ _)); [by eexists|].
    by apply (Hi i). }
  cbn [rbind]. eexists. split; [done|]. etrans; [exact Hk|]. etrans; [apply emits_keeps|].
  destruct (sym_plugin_process_file h); [done|apply keeps_emit].
Qed.

Lemma test_libs_total T names p :
  loads_wf T -> proc_wf p ->
  exists q, test_libs T names p = Ok q /\ keeps p q /\
    (forall name, name ∈ names -> Out ("Trying " +:+ name +:+ ":" +:+ nl) ∈ log q).
Proof.
  intros HT. revert p. induction names as [|name names IH]; intros p Hwf; cbn [test_libs].
  { exists p. split; [done|]. split; [done|]. by intros name ?%not_elem_of_nil. }
  set (p1 := out _ p). assert (keeps p p1) as H1 by apply keeps_emit.
  assert (proc_wf p1) as Hwf1 by by eapply proc_wf_keeps.
  assert (Out ("Trying " +:+ name +:+ ":" +:+ nl) ∈ log p1) as Hin.
  { cbn. rewrite elem_of_app. right. by left. }
  assert (forall q, keeps p1 q -> exists q', test_libs T names q = Ok q' /\ keeps p q' /\
    (forall n, n ∈ name :: names -> Out ("Trying " +:+ n +:+ ":" +:+ nl) ∈ log q')) as Hrest.
  { intros q Hq. destruct (IH q) as (q' & -> & Hq' & Hl); [by eapply proc_wf_keeps|].
    exists q'. split; [done|]. split; [etrans; [exact H1|]; by etrans|].
    intros n [-> |Hn]%elem_of_cons; [|by apply Hl].
    assert (log p1 `prefix_of` log q') as [t ->] by (etrans; [apply Hq|apply Hq']).
    rewrite elem_of_app. by left. }
  destruct (t_dlopen T name) as [h|] eqn:Hh; [|apply Hrest, keeps_emit].
  cbn [acquire].
  destruct (test_lib_total T h (snd (acquire RDl p1))) as (q & E & Hk);
    [intros f Hf; by eapply HT|].
  cbn [acquire snd] in E. rewrite E. cbn [rbind].
  destruct (acquire_release RDl p1 q Hwf1 Hk) as (q1 & E1 & Hl & Hn & Hlog & _).
  cbn [acquire fst] in E1. rewrite E1. cbn [rbind]. apply Hrest.
  split; [done|]. split; [done|]. rewrite Hlog. apply Hk.
Qed.

(** [lab1test] tries every library named on its command line, whatever goes wrong
    with the others, exits with 0 and closes each library it opened. *)
Theorem lab1test_tries_all T prog names p :
  names <> [] -> loads_wf T -> proc_wf p ->
  exists q, lab1test_main T (prog :: names) p = Ok (0, q) /\ live q = live p /\
    forall name, name ∈ names -> Out ("Trying " +:+ name +:+ ":" +:+ nl) ∈ log q.
Proof.
  intros Hne HT Hwf. unfold lab1test_main. destruct names as [|n names]; [done|].
  cbn [length Nat.eqb drop].
  destruct (test_libs_total T (n :: names) p HT Hwf) as (q & -> & [Hl _] & Hin). by exists q.
Qed.

Lemma lab1test_tries_all_witness :
  exists q, lab1test_main
      (MkTools false (MkKernel (fun _ => inr ENOENT) (fun _ => inr ENOENT))
         (fun n => if String.eqb n "b.so" then Some (MkDlib (Some LibTypefile.plugin_get_info) None)
                   else None) "no such file")
      ["lab1test"; "a.so"; "b.so"] proc0 = Ok (0, q) /\ live q = ∅ /\
    forall name, name ∈ ["a.so"; "b.so"]%string ->
      Out ("Trying " +:+ name +:+ ":" +:+ nl) ∈ log q.
Proof.
  apply (lab1test_tries_all
    (MkTools false (MkKernel (fun _ => inr ENOENT) (fun _ => inr ENOENT))
       (fun n => if String.eqb n "b.so" then Some (MkDlib (Some LibTypefile.plugin_get_info) None)
                 else None) "no such file") "lab1test" ["a.so"; "b.so"]%string proc0).
  - discriminate.
  - intros name h f. cbn. destruct (String.eqb name "b.so"); [|discriminate].
    intros [= <-] [= <-] [x|] p ret x' p'; cbn; intros [= <- <- <-].
    + split; [reflexivity|]. intros i [= <-]. vm_compute. split; discriminate.
    + split; [apply keeps_emit|]. discriminate.
  - intros id _. reflexivity.
Defined.

(** ** lab1call *)

(** The options a command line stands for, [None] when it is refused. *)
Fixpoint parsed (longopts : list copt) (args : list string) : option (list copt) :=
  match args with
  | [] => Some []
  | a :: args =>
      if streq a "--" then Some []
      else match long_text a with
           | None => parsed longopts args
           | Some t =>
               let r := process_long longopts t (head args) in
               if lr_code r =? 0 then
                 o ← longopts !! lr_ind r;
                 o ← (if o_has_arg o =? 0 then Some o
                      else (fun t => set_flag o (Some (strdup t))) <$> lr_arg r);
                 os ← match lr_took r, args with
                      | true, _ :: args => parsed longopts args
                      | _, _ => parsed longopts args
                      end;
                 Some (o :: os)
               else None
           end
  end.

(** What [take_options] keeps true of its state: the options and their blocks are in
    step, a flag has a block, and the process owns those blocks and [L]. *)
Record c_ok (base : gmap nat rkind) (L : list (nat * rkind)) (s : cstate) : Prop := MkCOk {
  ok_wf : proc_wf (c_proc s);
  ok_holds : holds base (own_args (c_opts s) (c_args s) ++ L) (c_proc s);
  ok_flags : Forall2 (fun o a => is_Some (o_flag o) -> is_Some a) (c_opts s) (c_args s)
}.

Lemma free_args_total base os args L p :
  Forall2 (fun o (a : option nat) => is_Some (o_flag o) -> is_Some a) os args ->
  holds base (own_args os args ++ L) p ->
  exists q, free_args os args p = Ok q /\ holds base L q /\ log q = log p.
Proof.
  intros Hf. revert p. induction Hf as [|o a os args Ho _ IH]; intros p Hh; [by exists p|].
  cbn [own_args free_args] in *. destruct (o_flag o) as [b|]; [|by apply IH].
  destruct a as [id|]; [|by destruct Ho]. cbn [own app] in Hh.
  destruct (holds_release _ _ _ _ _ Hh) as [E H1]. rewrite E. cbn [rbind].
  destruct (IH _ H1) as (q & -> & Hq & Hlog). by exists q.
Qed.

Lemma take_option_ok base L longopts n r s o o' :
  Forall (fun o => o_flag o = None) longopts ->
  longopts !! lr_ind r = Some o ->
  (if o_has_arg o =? 0 then Some o
   else (fun t => set_flag o (Some (strdup t))) <$> lr_arg r) = Some o' ->
  Z.of_nat (length (c_opts s)) < n -> c_ok base L s ->
  exists s', take_option longopts n r s = Ok (true, s') /\ c_opts s' = c_opts s ++ [o'] /\
    c_ok base L s' /\ log (c_proc s') = log (c_proc s).
Proof.
  intros Hfl Ho Ho' Hn [Hwf Hh Hf]. unfold take_option.
  rewrite (proj2 (Z.eqb_neq _ _)) by lia. rewrite Ho.
  pose proof (Forall2_length _ _ _ Hf) as Hlen.
  pose proof (Forall_lookup_1 _ _ _ _ Hfl Ho) as Hnone. cbn in Hnone.
  destruct (o_has_arg o =? 0).
  - simplify_eq. eexists. split; [done|]. split; [done|]. split; [|done]. split.
    + done.
    + cbn. rewrite own_args_snoc, Hnone, app_nil_r by done. done.
    + cbn. apply Forall2_app; [done|]. constructor; [|done]. rewrite Hnone. by intros [? ?].
  - destruct (lr_arg r) as [t|]; [|done]. cbn in Ho'. simplify_eq. cbn [acquire].
    eexists. split; [done|]. split; [done|]. split; [|done]. split.
    + by apply (proc_wf_acquire RBlk).
    + cbn [c_opts c_args c_proc]. rewrite own_args_snoc by done. cbn [o_flag set_flag own].
      eapply holds_perm; [|exact (holds_acquire _ _ RBlk _ Hwf Hh)].
      rewrite <- (assoc_L app). apply Permutation_middle.
    + cbn. apply Forall2_app; [done|]. constructor; [by eexists|done].
Qed.

Lemma take_options_parsed base L longopts n args os s :
  Forall (fun o => o_flag o = None) longopts -> parsed longopts args = Some os ->
  Z.of_nat (length (c_opts s) + length os) <= n -> c_ok base L s ->
  exists s', take_options longopts n args s = Ok (true, s') /\ c_opts s' = c_opts s ++ os /\
    c_ok base L s' /\ log (c_proc s') = log (c_proc s).
Proof.
  intros Hfl. revert os s.
  induction args as [args IH] using (induction_ltof1 _ (@length string)). unfold ltof in IH.
  intros os s Hp Hn Hs. destruct args as [|a args]; cbn [parsed take_options] in *.
  { simplify_eq. exists s. by rewrite app_nil_r. }
  destruct (streq a "--"). { simplify_eq. exists s. by rewrite app_nil_r. }
  destruct (long_text a) as [t|]; [|apply IH; cbn; done || lia].
  set (r := process_long longopts t (head args)) in *.
  destruct (lr_code r =? 0); [|done].
  destruct (longopts !! lr_ind r) as [o|] eqn:Ho; [|done]. cbn [mbind option_bind] in Hp.
  destruct (if o_has_arg o =? 0 then _ else _) as [o'|] eqn:Ho'; [|done].
  cbn [mbind option_bind] in Hp.
  destruct (match lr_took r with true => _ | false => _ end) as [os'|] eqn:Hos; [|done].
  cbn [mbind option_bind] in Hp. simplify_eq. cbn [length] in Hn.
  destruct (take_option_ok base L longopts n r s o o') as (s1 & -> & Hc1 & Hs1 & Hl1);
    [done|done|done|lia|done|]. cbn [rbind].
  assert (forall args', (length args' <= length args)%nat -> parsed longopts args' = Some os' ->
    exists s', take_options longopts n args' s1 = Ok (true, s') /\
      c_opts s' = c_opts s ++ o' :: os' /\ c_ok base L s' /\ log (c_proc s') = log (c_proc s))
    as Hrest.
  { intros args' Hlen Hp'. destruct (IH args' ltac:(cbn; lia) os' s1 Hp') as (s2 & -> & Hc2 & Hs2 & Hl2);
      [rewrite Hc1, length_app; cbn; lia|done|].
    exists s2. rewrite Hc2, Hc1, <- (assoc_L app), Hl2, Hl1. done. }
  destruct (lr_took r), args as [|b args]; apply Hrest; cbn; done || lia.
Qed.

Lemma own_args_shape os os' args :
  same_shape os os' -> own_args os args = own_args os' args.
Proof.
  unfold same_shape. revert os' args. induction os as [|o os IH]; intros [|o' os'] args E; try done.
  injection E as _ _ Hfl _ E. destruct args as [|a args]; [done|]. cbn.
  rewrite (IH os' args E). by destruct (o_flag o), (o_flag o').
Qed.

Lemma flags_shape os os' (args : list (option nat)) :
  same_shape os os' -> Forall2 (fun o a => is_Some (o_flag o) -> is_Some a) os args ->
  Forall2 (fun o a => is_Some (o_flag o) -> is_Some a) os' args.
Proof.
  unfold same_shape. intros E Hf. revert os' E.
  induction Hf as [|o a os args Ho _ IH]; intros [|o' os'] E; try done.
  injection E as _ _ Hfl _ E. constructor; [|by apply IH].
  intros [b Hb]. apply Ho. rewrite Hb in Hfl. by destruct (o_flag o).
Qed.

Lemma at_END_call_total base b1 b2 dl lo ob s :
  c_ok base [(ob, RBlk); (lo, RBlk); (b1, RBlk); (b2, RBlk); (dl, RDl)] s ->
  exists q, at_END_call (MkBlocks b1 b2 (Some dl) (Some lo) (Some ob)) s = Ok q /\
    live q = base /\ log q = log (c_proc s).
Proof.
  intros [_ Hh Hf]. unfold at_END_call. cbn [k_opts k_longopts k_lib_name k_file_name k_dl].
  destruct (free_args_total _ _ _ _ _ Hf Hh) as (q & -> & H1 & Hlog). cbn [rbind].
  destruct (holds_release _ _ _ _ _ H1) as [E2 H2]. rewrite E2. cbn [rbind release_opt].
  destruct (holds_release _ _ _ _ _ H2) as [E3 H3]. rewrite E3. cbn [rbind].
  destruct (holds_release _ _ _ _ _ H3) as [E4 H4]. rewrite E4. cbn [rbind].
  destruct (holds_release _ _ _ _ _ H4) as [E5 H5]. rewrite E5. cbn [rbind].
  destruct (holds_release _ _ _ _ _ H5) as [E6 H6]. rewrite E6.
  eexists. split; [done|]. split; [by apply holds_base in H6|done].
Qed.

(** A library that [lab1call] can load, with the options [longopts]. *)
Record callable (h : dlib) (info : plugin_info) (f : ppf_func_t) : Prop := MkCallable {
  ca_info : exists gi, sym_plugin_get_info h = Some gi /\
    forall p, gi (Some zero_info) p = (0, Some info, p);
  ca_len : sup_opts_len info = Z.of_nat (length (sup_opts info));
  ca_some : 0 < sup_opts_len info;
  ca_flags : Forall (fun o => o_flag o = None) (opt <$> sup_opts info);
  ca_ppf : sym_plugin_process_file h = Some f
}.

Definition verdict_lines (ret e : Z) : list ev :=
  Out ("plugin_process_file() returned " +:+ fmt_lld ret +:+ nl) ::
  (if ret <? 0 then [OutErrno "Error information: " e] else []).

Lemma info_lines_callable h info f :
  callable h info f -> exists head, info_lines info = Ok head.
Proof.
  intros [_ Hl Hp _ _]. unfold info_lines. rewrite (proj2 (Z.ltb_lt _ _)) by done.
  rewrite (proj2 (Z.leb_le _ _)) by lia. by eexists.
Qed.

Lemma copy_options_callable h info f :
  callable h info f -> copy_options (sup_opts_len info) (sup_opts info) = Ok (opt <$> sup_opts info).
Proof.
  intros [_ Hl _ _ _]. unfold copy_options. rewrite Hl, Z.leb_refl, Nat2Z.id. by rewrite take_ge.
Qed.

(** The part of a run from the options to the exit. *)
Lemma call_run T argv base info f file os b1 b2 dl lo ob p :
  t_debug T = false -> Forall (fun o => o_flag o = None) (opt <$> sup_opts info) ->
  parsed (opt <$> sup_opts info) (drop 1 argv) = Some os ->
  Z.of_nat (length os) <= sup_opts_len info ->
  c_ok base [(ob, RBlk); (lo, RBlk); (b1, RBlk); (b2, RBlk); (dl, RDl)] (MkC p [] []) ->
  (forall p1, proc_wf p1 -> exists ret os' p2,
     f (t_fs T) false (Some file) (Some os) (length os) p1 = Ok (ret, os', p2) /\
     same_shape os os' /\ quiet p1 p2) ->
  exists s s' q ret p1 os' p2,
    take_options (opt <$> sup_opts info) (sup_opts_len info) (drop 1 argv) (MkC p [] []) = Ok (true, s) /\
    call_plugin T f file s = Ok s' /\
    at_END_call (MkBlocks b1 b2 (Some dl) (Some lo) (Some ob)) s' = Ok q /\
    live q = base /\ log q = log p ++ verdict_lines ret (errno p2) /\
    f (t_fs T) false (Some file) (Some os) (length os) p1 = Ok (ret, os', p2) /\ errno p1 = 0.
Proof.
  intros Hd Hfl Hos Hlen Hok Hf.
  destruct (take_options_parsed base
      [(ob, RBlk); (lo, RBlk); (b1, RBlk); (b2, RBlk); (dl, RDl)] _ (sup_opts_len info) (drop 1 argv) os (MkC p [] []) Hfl Hos)
    as (s & E & Hc & Hs & Hl); [done|done|]. cbn [c_opts app] in Hc.
  destruct (Hf (set_errno 0 (c_proc s)) (ok_wf _ _ _ Hs)) as (ret & os' & p2 & Ef & Hsh & Hq).
  pose proof Hs as [Hwf Hh Hfg]. rewrite Hc in Hh, Hfg.
  set (p3 := out ("plugin_process_file() returned " +:+ fmt_lld ret +:+ nl) p2).
  set (p4 := if ret <? 0 then emit (OutErrno "Error information: " (errno p3)) p3 else p3).
  assert (live p4 = live (c_proc s)) as Hl4.
  { unfold p4. destruct (ret <? 0); cbn; apply Hq. }
  assert (log p4 = log p ++ verdict_lines ret (errno p2)) as Hlog4.
  { unfold p4, p3, verdict_lines. destruct Hq as (_ & _ & Hlq). cbn in Hlq, Hl.
    destruct (ret <? 0); cbn; rewrite Hlq, Hl; [by rewrite <- (assoc_L app)|done]. }
  destruct (at_END_call_total base b1 b2 dl lo ob (MkC p4 os' (c_args s)))
    as (q & Eq & Hlq & Hlogq).
  { split.
    - intros id Hid. cbn [c_proc] in *. rewrite Hl4. apply Hwf.
      assert (next_id p4 = next_id p2) as En by (unfold p4; by destruct (ret <? 0)).
      rewrite En in Hid. destruct Hq as (_ & Hn & _). cbn in Hn. lia.
    - cbn [c_opts c_args c_proc]. rewrite <- (own_args_shape os os') by done.
      eapply holds_live; [|exact Hh]. done.
    - cbn. by eapply flags_shape. }
  exists s, (MkC p4 os' (c_args s)), q, ret, (set_errno 0 (c_proc s)), os', p2.
  split; [done|]. split.
  { unfold call_plugin. rewrite Hd. cbn [c_on c_opts c_proc c_args]. by rewrite Hc, Ef. }
  split; [done|]. split; [done|]. split; [by rewrite Hlogq|done].
Qed.

(** [lab1call lib options file]: for a command line that stands for the options [os],
    the program prints what the library says about itself, calls the plugin on the last
    argument with exactly those options, prints the verdict (with the error's text when
    it is negative), and gives everything back. *)
Theorem lab1call_reports T prog lib a b rest h info f os p :
  let argv := prog :: lib :: a :: b :: rest in
  t_debug T = false -> t_dlopen T lib = Some h -> callable h info f ->
  parsed (opt <$> sup_opts info) (drop 1 argv) = Some os ->
  Z.of_nat (length os) <= sup_opts_len info -> proc_wf p ->
  (forall p1, proc_wf p1 -> exists ret os' p2,
     f (t_fs T) false (Some (default EmptyString (last argv))) (Some os) (length os) p1 =
       Ok (ret, os', p2) /\ same_shape os os' /\ quiet p1 p2) ->
  exists q head ret e, lab1call_main T argv p = Ok (0, q) /\ live q = live p /\
    info_lines info = Ok head /\
    log q = log p ++ head ++ [Out nl] ++ verdict_lines ret e /\
    exists p1 os' p2, f (t_fs T) false (Some (default EmptyString (last argv))) (Some os)
      (length os) p1 = Ok (ret, os', p2) /\ errno p1 = 0 /\ errno p2 = e.
Proof.
  intros argv Hd Hopen Hcall Hos Hlen Hwf Hf. unfold lab1call_main, argv.
  cbn [acquire]. rewrite Hopen.
  pose proof (holds_acquire _ _ RBlk _ Hwf (holds_nil p)) as H1.
  pose proof (proc_wf_acquire RBlk _ Hwf) as Hwf1.
  pose proof (holds_acquire _ _ RBlk _ Hwf1 H1) as H2.
  pose proof (proc_wf_acquire RBlk _ Hwf1) as Hwf2.
  pose proof (holds_acquire _ _ RDl _ Hwf2 H2) as H3.
  pose proof (proc_wf_acquire RDl _ Hwf2) as Hwf3.
  set (p3 := snd (acquire RDl _)) in *. cbn [acquire] in H3.
  destruct (info_lines_callable _ _ _ Hcall) as [head Hhead].
  unfold with_lib. destruct (ca_info _ _ _ Hcall) as (gi & -> & Hgi). rewrite Hgi.
  change (0 <? 0) with false. cbv iota. change (default zero_info (Some info)) with info.
  rewrite Hhead. cbn [rbind]. pose proof (ca_some _ _ _ Hcall) as Hsome.
  rewrite (proj2 (Z.eqb_neq (sup_opts_len info) 0)) by lia. rewrite (ca_ppf _ _ _ Hcall).
  match goal with |- context [emits (head ++ [Out nl]) ?x] => change x with p3 end.
  destruct (emits_spec (head ++ [Out nl]) p3) as (Hl4 & Hn4 & Hlog4 & _).
  set (p4 := emits (head ++ [Out nl]) p3) in *.
  assert (proc_wf p4) as Hwf4 by (intros id Hid; rewrite Hl4; apply Hwf3; lia).
  apply (holds_live _ _ _ p4) in H3; [|by rewrite Hl4].
  pose proof (holds_acquire _ _ RBlk _ Hwf4 H3) as H5.
  pose proof (proc_wf_acquire RBlk _ Hwf4) as Hwf5.
  pose proof (holds_acquire _ _ RBlk _ Hwf5 H5) as H6.
  pose proof (proc_wf_acquire RBlk _ Hwf5) as Hwf6.
  cbn [acquire]. rewrite (copy_options_callable _ _ _ Hcall). cbn [rbind k_lib_name k_file_name k_dl].
  destruct (call_run T argv (live p) info f (default EmptyString (last argv)) os (next_id p)
    (S (next_id p)) (S (S (next_id p))) (next_id p4) (S (next_id p4))
    (snd (acquire RBlk (snd (acquire RBlk p4)))) Hd (ca_flags _ _ _ Hcall) Hos Hlen)
    as (s & s' & q & ret & p1 & os' & p2 & E1 & E2 & E3 & Hlq & Hlogq & Ef & He); [|done|].
  { split; [done| |constructor]. cbn [c_opts c_args own_args app]. eapply holds_perm; [|exact H6].
    do 2 apply perm_skip. etrans; [apply (Permutation_rev [_; _; _])|]. done. }
  cbn [acquire snd] in E1. unfold argv in *. rewrite E1. cbn [rbind]. rewrite E2. cbn [rbind].
  match type of E3 with ?x = _ => match goal with |- context [at_END_call ?b s'] =>
    change (at_END_call b s') with x end end. rewrite E3.
  cbn [rbind]. exists q, head, ret, (errno p2). split; [done|]. split; [done|]. split; [done|].
  split; [|by exists p1, os', p2].
  rewrite Hlogq. cbn [acquire snd log]. rewrite Hlog4. cbn [log]. by rewrite <- !(assoc_L app).
Qed.

Definition txt_tools : tools_env :=
  MkTools false (MkKernel (fun _ => inl (regular [1])) (fun _ => inr ENOENT))
    (fun _ => Some (MkDlib (Some LibTypefile.plugin_get_info)
                      (Some LibTypefile.plugin_process_file))) EmptyString.

Definition txt_info : plugin_info :=
  MkPluginInfo LibTypefile.g_plugin_purpose LibTypefile.g_plugin_author 1 LibTypefile.g_po_arr.

Lemma lab1call_reports_witness :
  exists q head ret e,
    lab1call_main txt_tools ["lab1call"; "t.so"; "--txt"; "a.txt"] proc0 = Ok (0, q) /\
    live q = ∅ /\ info_lines txt_info = Ok head /\
    log q = [] ++ head ++ [Out nl] ++ verdict_lines ret e /\
    exists p1 os' p2, LibTypefile.plugin_process_file (t_fs txt_tools) false (Some "a.txt"%string)
      (Some [txt_opt]) 1%nat p1 = Ok (ret, os', p2) /\ errno p1 = 0 /\ errno p2 = e.
Proof.
  apply (lab1call_reports txt_tools "lab1call" "t.so" "--txt" "a.txt" []
    (MkDlib (Some LibTypefile.plugin_get_info) (Some LibTypefile.plugin_process_file)) txt_info
    LibTypefile.plugin_process_file [txt_opt] proc0).
  - reflexivity.
  - reflexivity.
  - split; [|reflexivity|reflexivity| |reflexivity].
    + exists LibTypefile.plugin_get_info. by split.
    + repeat constructor.
  - vm_compute. reflexivity.
  - vm_compute. discriminate.
  - intros id _. reflexivity.
  - intros p1 Hwf.
    destruct (process_txt_call (t_fs txt_tools) "a.txt" [1] p1) as (p2 & E & Hq & _); [done..|].
    do 3 eexists. split; [exact E|]. by split.
Defined.
