(* ===== verification/Space.v ===== *)
(** * week1/examples/01_c: the multidimensional space

    search2.c and search3 (space.c, utils.c, main.c): a space of points of up to 100
    dimensions kept in one flat block, its allocation, its access by a vector of
    indices, and the search for a sample.  search2.c has the functions in one file and
    plants the sample; search3 plants it only when compiled with [TEST_SEARCH], which is
    an argument here.  [rand] is a stream of values with a position; [malloc] succeeds
    on the sizes [mallocs] accepts. *)

From S2P Require Import Prelude Process CLib.
From Stdlib Require Import Ascii.
Local Open Scope Z_scope.
Local Open Scope c_scope.

Definition MAX_DIMS : Z := 100.

(** A double quote. *)
Definition quote : string := String (chr 34) EmptyString.

(** [color_t]'s 32-bit view and [temp_t]. *)
Record point_t := MkPoint { color : Z; temp : Z }.

#[export] Instance point_eq_dec : EqDecision point_t.
Proof. solve_decision. Defined.

Definition sizeof_point : Z := 8.
Definition sizeof_size : Z := 8.

(** [mem] and [dims] are a block's identifier with its contents; a point that was not
    written yet is [None]. *)
Record space_t := MkSpace {
  mem : option (nat * list (option point_t));
  total_size : Z;
  dims_len : Z;
  dims : option (nat * list Z)
}.

Inductive error_t :=
| ERROR_OK
| ERROR_INVALID_ARGS
| ERROR_ALLOC
| ERROR_INVALID_VALUE
| ERROR_INVALID_INDEX.

#[export] Instance error_eq_dec : EqDecision error_t.
Proof. solve_decision. Defined.

(** The process, and how many values of [rand] were used. *)
Record world := MkWorld { w_proc : proc; w_rand : nat }.

Definition on_w (g : proc -> proc) (w : world) : world := MkWorld (g (w_proc w)) (w_rand w).

Section Rand.
Context (rands : nat -> Z) (mallocs : Z -> bool).

Definition rand (w : world) : Z * world :=
  (rands (w_rand w), MkWorld (w_proc w) (S (w_rand w))).

Definition malloc (size : Z) (w : world) : option nat * world :=
  if mallocs size
  then let '(id, p) := acquire RBlk (w_proc w) in (Some id, MkWorld p (w_rand w))
  else (None, w).

Definition free (id : nat) (w : world) : res world :=
  let* p := release RBlk id (w_proc w) in Ok (MkWorld p (w_rand w)).

(** [RND8 << 24 | RND8 << 16 | RND8 << 8 | RND8]; a shift into the sign bit wraps, as gcc
    documents. *)
Definition rand_int32 (w : world) : Z * world :=
  let '(a, w) := rand w in
  let '(b, w) := rand w in
  let '(c, w) := rand w in
  let '(d, w) := rand w in
  (s32 (Z.lor (Z.lor (Z.lor (Z.shiftl (Z.land a 255) 24) (Z.shiftl (Z.land b 255) 16))
                (Z.shiftl (Z.land c 255) 8)) (Z.land d 255)), w).

(** [*pres] is written only on success. *)
Definition str_to_long (str : option string) (w : world) : error_t * option Z * world :=
  match str with
  | None => (ERROR_INVALID_ARGS, None, w)
  | Some s =>
      let r := strtoll s 0 in
      let w := on_w (set_errno (if st_erange r then ERANGE else 0)) w in
      match st_end r with
      | String _ _ => (ERROR_INVALID_VALUE, None, w)
      | EmptyString => if st_erange r then (ERROR_INVALID_VALUE, None, w)
                       else (ERROR_OK, Some (st_value r), w)
      end
  end.

(** The guard that opens every function of the space. *)
Definition bad_space (sp : space_t) : bool :=
  (dims_len sp <=? 0) || (MAX_DIMS <? dims_len sp) || bool_decide (dims sp = None).

(** [total_size *= dims[i]], in [size_t]. *)
Fixpoint product (ds : list Z) (acc : Z) : Z :=
  match ds with
  | [] => acc
  | d :: ds => product ds (u64 (acc * d))
  end.

Definition set_mem (m : option (nat * list (option point_t))) (sp : space_t) : space_t :=
  MkSpace m (total_size sp) (dims_len sp) (dims sp).

Definition space_alloc (sp : option space_t) (w : world) : error_t * option space_t * world :=
  match sp with
  | None => (ERROR_INVALID_ARGS, None, w)
  | Some sp =>
      if bad_space sp then (ERROR_INVALID_ARGS, Some sp, w)
      else
        let ds := match dims sp with Some (_, ds) => ds | None => [] end in
        let total := product (tail ds) (default 0 (head ds)) in
        let sp := MkSpace (mem sp) total (dims_len sp) (dims sp) in
        let bytes := u64 (sizeof_point * total) in
        match malloc bytes w with
        | (None, w) => (ERROR_ALLOC, Some (set_mem None sp), w)
        | (Some id, w) =>
            (ERROR_OK,
             Some (set_mem (Some (id, replicate (Z.to_nat (bytes / sizeof_point)) None)) sp), w)
        end
  end.

(** [for (int i = 0; i < total_size; i++)], writing [mem[i]]; [fuel] is the block's length
    and one more, and the loop leaves the block before it needs more. *)
Fixpoint init_loop (fuel : nat) (i total : Z) (m : list (option point_t)) (w : world)
  : res (list (option point_t) * world) :=
  match fuel with
  | O => NoFuel
  | S fuel =>
      if i <? total then
        if i <? Z.of_nat (length m) then
          let '(c, w) := rand_int32 w in
          let '(t, w) := rand_int32 w in
          let m := <[Z.to_nat i := Some (MkPoint c t)]> m in
          if i =? INT_MAX then Undef IntOverflow else init_loop fuel (i + 1) total m w
        else Undef OutOfBounds
      else Ok (m, w)
  end.

Definition sample_point : point_t := MkPoint (s32 4278255360) 1.

(** [rand() % total_size] and the assignment of the sample. *)
Definition plant (total : Z) (m : list (option point_t)) (w : world)
  : res (list (option point_t) * world) :=
  if total =? 0 then Undef DivByZero
  else
    let '(r, w) := rand w in
    let rand_pos := r `mod` total in
    if rand_pos <? Z.of_nat (length m)
    then Ok (<[Z.to_nat rand_pos := Some sample_point]> m, w)
    else Undef OutOfBounds.

Definition space_init (TEST_SEARCH : bool) (sp : option space_t) (w : world)
  : res (error_t * option space_t * world) :=
  match sp with
  | None => Ok (ERROR_INVALID_ARGS, None, w)
  | Some sp =>
      if bad_space sp then Ok (ERROR_INVALID_ARGS, Some sp, w)
      else match mem sp with
           | None => Ok (ERROR_INVALID_ARGS, Some sp, w)
           | Some (id, m) =>
               let* (m, w) := init_loop (S (length m)) 0 (total_size sp) m w in
               let* (m, w) := if TEST_SEARCH then plant (total_size sp) m w else Ok (m, w) in
               Ok (ERROR_OK, Some (set_mem (Some (id, m)) sp), w)
           end
  end.

Definition space_free (sp : option space_t) (w : world) : res (error_t * option space_t * world) :=
  match sp with
  | None => Ok (ERROR_INVALID_ARGS, None, w)
  | Some sp =>
      if bad_space sp then Ok (ERROR_INVALID_ARGS, Some sp, w)
      else
        let* w := match mem sp with Some (id, _) => free id w | None => Ok w end in
        let* w := match dims sp with Some (id, _) => free id w | None => Ok w end in
        Ok (ERROR_OK, Some (MkSpace None 0 0 None), w)
  end.

(** ** Access by indices *)

(** The inner loop: the product of the dimensions after [i]. *)
Fixpoint sub_product (ds : list Z) (acc : Z) : Z :=
  match ds with
  | [] => acc
  | d :: ds => sub_product ds (u64 (acc * d))
  end.

(** The outer loop, over the indices and the dimensions from [i] on. *)
Fixpoint flat_index (indices ds : list Z) (flat_idx : Z) : Z :=
  match indices, ds with
  | i :: indices, _ :: ds =>
      flat_index indices ds (u64 (flat_idx + u64 (sub_product ds 1 * i)))
  | _, _ => flat_idx
  end.

(** The element found is the index of a point of [mem]. *)
Definition space_get (sp : option space_t) (indices : list Z) (elem_null : bool)
  : error_t * option Z :=
  match sp with
  | None => (ERROR_INVALID_ARGS, None)
  | Some sp =>
      if bad_space sp || negb (Z.of_nat (length indices) =? dims_len sp) || elem_null
      then (ERROR_INVALID_ARGS, None)
      else
        let ds := match dims sp with Some (_, ds) => ds | None => [] end in
        let flat_idx := flat_index indices ds 0 in
        if total_size sp <? flat_idx then (ERROR_INVALID_INDEX, None)
        else (ERROR_OK, Some flat_idx)
  end.

(** ** The search *)

Fixpoint search_loop (fuel : nat) (i total : Z) (m : list (option point_t)) (sample : point_t)
    (elem : option Z) : res (option Z) :=
  match fuel with
  | O => NoFuel
  | S fuel =>
      if i <? total then
        match m !! Z.to_nat i with
        | None => Undef OutOfBounds
        | Some None => Undef UninitRead
        | Some (Some pt) =>
            let elem := if (color pt =? color sample) && (temp pt =? temp sample)
                        then Some i else elem in
            if i =? INT_MAX then Undef IntOverflow else search_loop fuel (i + 1) total m sample elem
        end
      else Ok elem
  end.

Definition space_search (sp : option space_t) (sample : option point_t)
  : res (error_t * option Z) :=
  match sp, sample with
  | Some sp, Some sample =>
      if bad_space sp then Ok (ERROR_INVALID_ARGS, None)
      else
        let m := match mem sp with Some (_, m) => m | None => [] end in
        let* elem := search_loop (S (length m)) 0 (total_size sp) m sample None in
        Ok (ERROR_OK, elem)
  | _, _ => Ok (ERROR_INVALID_ARGS, None)
  end.

(** ** search3: main *)

(** The loop that reads the sizes; [inr] is the [return 1]. *)
Fixpoint read_sizes (args : list string) (ds : list Z) (w : world) : (list Z + Z) * world :=
  match args with
  | [] => (inl ds, w)
  | a :: args =>
      match str_to_long (Some a) w with
      | (ERROR_OK, Some r, w) => read_sizes args (ds ++ [u64 r]) w
      | (_, _, w) =>
          (inr 1, on_w (emit (Err ("Integer required, not " +:+ quote +:+ a +:+ quote +:+ nl))) w)
      end
  end.

Definition report_found (found : option Z) (w : world) : world :=
  on_w (emit (Out ("Sample was " +:+ (match found with Some _ => EmptyString | None => "not " end)
                   +:+ "found!" +:+ nl))) w.

(** From the dimensions to the exit status. *)
Definition run_space (TEST_SEARCH : bool) (sp : space_t) (w : world) : res (Z * world) :=
  let fail msg w := Ok (2, on_w (emit (Err (msg +:+ nl))) w) in
  match space_alloc (Some sp) w with
  | (ERROR_OK, sp, w) =>
      let* (e, sp, w) := space_init TEST_SEARCH sp w in
      match e with
      | ERROR_OK =>
          let* (e, found) := space_search sp (Some sample_point) in
          let w := match e with
                   | ERROR_OK => report_found found w
                   | _ => on_w (emit (Err ("Something went wrong" +:+ nl))) w
                   end in
          let* (_, _, w) := space_free sp w in
          Ok (0, w)
      | _ => fail "Failed to initialize space" w
      end
  | (_, _, w) => fail "Failed to allocate space" w
  end.

Definition search3_main (TEST_SEARCH : bool) (argv : list string) (w : world) : res (Z * world) :=
  match argv with
  | [] | [_] =>
      Ok (1, on_w (emit (Err ("Usage: " +:+ default "(null)" (head argv) +:+
                              " D1 D2 ... DM" +:+ nl)))
               (on_w (emit (Err ("Expected dimension sizes!" +:+ nl))) w))
  | _ :: args =>
      match malloc (u64 (sizeof_size * Z.of_nat (length args))) w with
      | (None, w) => Ok (2, on_w (emit (Err ("malloc failed" +:+ nl))) w)
      | (Some id, w) =>
          match read_sizes args [] w with
          | (inr status, w) => Ok (status, w)
          | (inl ds, w) =>
              run_space TEST_SEARCH (MkSpace None 0 (Z.of_nat (length args)) (Some (id, ds))) w
          end
      end
  end.

(** ** search2.c *)

(** [alloc_and_init_space]: [space_alloc] and [space_init] in one function. *)
Definition alloc_and_init_space (sp : option space_t) (w : world)
  : res (error_t * option space_t * world) :=
  match sp with
  | None => Ok (ERROR_INVALID_ARGS, None, w)
  | Some sp =>
      if bad_space sp then Ok (ERROR_INVALID_ARGS, Some sp, w)
      else
        let ds := match dims sp with Some (_, ds) => ds | None => [] end in
        let total := product (tail ds) (default 0 (head ds)) in
        let sp := MkSpace (mem sp) total (dims_len sp) (dims sp) in
        let bytes := u64 (sizeof_point * total) in
        match malloc bytes w with
        | (None, w) => Ok (ERROR_ALLOC, Some (set_mem None sp), w)
        | (Some id, w) =>
            let m := replicate (Z.to_nat (bytes / sizeof_point)) None in
            let* (m, w) := init_loop (S (length m)) 0 total m w in
            let* (m, w) := plant total m w in
            Ok (ERROR_OK, Some (set_mem (Some (id, m)) sp), w)
        end
  end.

Definition free_space : option space_t -> world -> res (error_t * option space_t * world) :=
  space_free.

Definition search_for_sample : option space_t -> option point_t -> res (error_t * option Z) :=
  space_search.

(** As in search3, with the check that the size is positive. *)
Fixpoint read_positive (args : list string) (ds : list Z) (w : world) : (list Z + Z) * world :=
  match args with
  | [] => (inl ds, w)
  | a :: args =>
      match str_to_long (Some a) w with
      | (ERROR_OK, Some r, w) =>
          if 0 <? r then read_positive args (ds ++ [u64 r]) w
          else (inr 1, on_w (emit (Err ("Dimension size should be > 0" +:+ nl))) w)
      | (_, _, w) =>
          (inr 1, on_w (emit (Err ("Integer required, not " +:+ quote +:+ a +:+ quote +:+ nl))) w)
      end
  end.

Definition search2_main (argv : list string) (w : world) : res (Z * world) :=
  match argv with
  | [] | [_] => Ok (1, on_w (emit (Err ("Expected dimension sizes!" +:+ nl))) w)
  | _ :: args =>
      match malloc (u64 (sizeof_size * Z.of_nat (length args))) w with
      | (None, w) => Ok (2, on_w (emit (Err ("malloc failed" +:+ nl))) w)
      | (Some id, w) =>
          match read_positive args [] w with
          | (inr status, w) => Ok (status, w)
          | (inl ds, w) =>
              let* (e, sp, w) := alloc_and_init_space
                (Some (MkSpace None 0 (Z.of_nat (length args)) (Some (id, ds)))) w in
              match e with
              | ERROR_OK =>
                  let* (e, found) := search_for_sample sp (Some sample_point) in
                  let w := match e with
                           | ERROR_OK => report_found found w
                           | _ => on_w (emit (Err ("Something went wrong" +:+ nl))) w
                           end in
                  let* (_, _, w) := free_space sp w in
                  Ok (0, w)
              | _ => Ok (2, on_w (emit (Err ("Failed to allocate space" +:+ nl))) w)
              end
          end
      end
  end.

End Rand.

(** ** Volumes *)

Definition vol (ds : list Z) : Z := foldr Z.mul 1 ds.

Definition positive (ds : list Z) : Prop := Forall (fun d => 1 <= d) ds.

Lemma vol_pos ds : positive ds -> 1 <= vol ds.
Proof. induction 1 as [|d ds Hd _ IH]; [done|]. change (1 <= d * vol ds). nia. Qed.

Lemma product_vol ds acc :
  positive ds -> 1 <= acc -> acc * vol ds < 2 ^ 64 -> product ds acc = acc * vol ds.
Proof.
  intros Hp. revert acc. induction Hp as [|d ds Hd Hp IH]; intros acc Ha Hm; cbn [product].
  - cbn. lia.
  - change (vol (d :: ds)) with (d * vol ds) in *. pose proof (vol_pos ds Hp).
    rewrite u64_small by nia. rewrite IH by nia. lia.
Qed.

Lemma sub_product_vol ds acc :
  positive ds -> 1 <= acc -> acc * vol ds < 2 ^ 64 -> sub_product ds acc = acc * vol ds.
Proof.
  intros Hp. revert acc. induction Hp as [|d ds Hd Hp IH]; intros acc Ha Hm; cbn [sub_product].
  - cbn. lia.
  - change (vol (d :: ds)) with (d * vol ds) in *. pose proof (vol_pos ds Hp).
    rewrite u64_small by nia. rewrite IH by nia. lia.
Qed.

(** The place of an element in row-major order. *)
Fixpoint row_major (ixs ds : list Z) : Z :=
  match ixs, ds with
  | i :: ixs, _ :: ds => i * vol ds + row_major ixs ds
  | _, _ => 0
  end.

Definition in_range : list Z -> list Z -> Prop := Forall2 (fun i d => 0 <= i < d).

Lemma in_range_positive ixs ds : in_range ixs ds -> positive ds.
Proof. induction 1 as [|i d ixs ds Hi _ IH]; constructor; [lia|done]. Qed.

Lemma row_major_bound ixs ds : in_range ixs ds -> 0 <= row_major ixs ds < vol ds.
Proof.
  induction 1 as [|i d ixs ds Hi H IH]; [cbn; lia|].
  change (vol (d :: ds)) with (d * vol ds). cbn [row_major].
  pose proof (vol_pos ds (in_range_positive _ _ H)). nia.
Qed.

(** Euclid: two index vectors in range with the same place are equal. *)
Lemma row_major_inj ixs js ds :
  in_range ixs ds -> in_range js ds -> row_major ixs ds = row_major js ds -> ixs = js.
Proof.
  intros Hi. revert js. induction Hi as [|i d ixs ds Hid Hi IH]; intros js Hj E.
  - by apply Forall2_nil_inv_r in Hj as ->.
  - apply Forall2_cons_inv_r in Hj as (j & js' & Hjd & Hj & ->). cbn [row_major] in E.
    pose proof (row_major_bound ixs ds Hi). pose proof (row_major_bound js' ds Hj).
    assert (i = j) as -> by nia. f_equal. apply IH; [done|lia].
Qed.

Lemma flat_index_row_major ixs ds f :
  in_range ixs ds -> 0 <= f -> f + vol ds < 2 ^ 64 ->
  flat_index ixs ds f = f + row_major ixs ds.
Proof.
  intros H. revert f. induction H as [|i d ixs ds Hi H IH]; intros f Hf Hm; cbn [flat_index row_major].
  - lia.
  - change (vol (d :: ds)) with (d * vol ds) in Hm.
    pose proof (in_range_positive _ _ H) as Hp. pose proof (vol_pos ds Hp).
    assert (0 <= vol ds * i /\ vol ds * i + vol ds <= d * vol ds) as [Hv1 Hv2] by nia.
    rewrite sub_product_vol by (done || lia). rewrite Z.mul_1_l.
    rewrite (u64_small (vol ds * i)) by lia. rewrite u64_small by lia.
    rewrite IH by lia. lia.
Qed.

(** ** space_get *)

(** A space as [space_alloc] leaves it, for dimensions whose volume is no overflow. *)
Record well_sized (sp : space_t) (ds : list Z) : Prop := MkWellSized {
  ws_dims : exists id, dims sp = Some (id, ds);
  ws_len : dims_len sp = Z.of_nat (length ds);
  ws_range : 1 <= Z.of_nat (length ds) <= MAX_DIMS;
  ws_pos : positive ds;
  ws_total : total_size sp = vol ds;
  ws_small : vol ds < 2 ^ 64
}.

Lemma well_sized_good sp ds : well_sized sp ds -> bad_space sp = false.
Proof.
  intros [[id Hd] Hl Hr _ _ _]. unfold bad_space. rewrite Hd, Hl.
  rewrite (proj2 (Z.leb_gt _ 0)), (proj2 (Z.ltb_ge MAX_DIMS _)) by lia. done.
Qed.

Lemma space_get_in_range sp ds ixs :
  well_sized sp ds -> in_range ixs ds ->
  space_get (Some sp) ixs false = (ERROR_OK, Some (row_major ixs ds)).
Proof.
  intros Hw Hi. unfold space_get. rewrite (well_sized_good sp ds) by done.
  destruct Hw as [[id Hd] Hl _ Hp Ht Hs]. rewrite Hd, Hl, Ht.
  rewrite (Forall2_length _ _ _ Hi), Z.eqb_refl. cbn [orb negb].
  pose proof (row_major_bound ixs ds Hi). rewrite flat_index_row_major by (done || lia).
  rewrite Z.add_0_l. by rewrite (proj2 (Z.ltb_ge _ _)) by lia.
Qed.

(** C38. [space_get] is a bijection between the index vectors in range and the elements:
    each in-range vector is given an element inside the block, in row-major order, and
    two vectors share an element only when they are equal. *)
Theorem space_get_bijective sp ds ixs jxs :
  well_sized sp ds -> in_range ixs ds -> in_range jxs ds ->
  exists e e', space_get (Some sp) ixs false = (ERROR_OK, Some e) /\
    space_get (Some sp) jxs false = (ERROR_OK, Some e') /\
    0 <= e < total_size sp /\ 0 <= e' < total_size sp /\ (e = e' <-> ixs = jxs).
Proof.
  intros Hw Hi Hj. exists (row_major ixs ds), (row_major jxs ds).
  rewrite !(space_get_in_range sp ds) by done. rewrite (ws_total _ _ Hw).
  split; [done|]. split; [done|]. split; [by apply row_major_bound|].
  split; [by apply row_major_bound|]. split; [by apply row_major_inj|by intros ->].
Qed.

Definition cube : space_t := MkSpace None 24 3 (Some (0%nat, [2; 3; 4])).

Lemma space_get_bijective_witness :
  exists e e', space_get (Some cube) [1; 2; 3] false = (ERROR_OK, Some e) /\
    space_get (Some cube) [0; 0; 1] false = (ERROR_OK, Some e') /\
    0 <= e < 24 /\ 0 <= e' < 24 /\ (e = e' <-> [1; 2; 3] = [0; 0; 1]).
Proof.
  apply (space_get_bijective cube [2; 3; 4] [1; 2; 3] [0; 0; 1]).
  - split; [by eexists|reflexivity|vm_compute; split; discriminate
           |repeat constructor; lia|reflexivity|reflexivity].
  - repeat constructor; lia.
  - repeat constructor; lia.
Defined.


Lemma sub_zero ds f : 0 <= f < 2 ^ 64 -> flat_index (replicate (length ds) 0) ds f = f.
Proof.
  revert f. induction ds as [|d ds IH]; intros f Hf; [done|]. cbn [length replicate flat_index].
  rewrite Z.mul_0_r. change (u64 0) with 0. rewrite Z.add_0_r, u64_small by done. by apply IH.
Qed.

(** The bound is off by one: the first index may equal its dimension, and [space_get]
    then answers [ERROR_OK] with the element one past the end of the block. *)
Theorem space_get_past_end sp d ds :
  well_sized sp (d :: ds) ->
  space_get (Some sp) (d :: replicate (length ds) 0) false = (ERROR_OK, Some (total_size sp)).
Proof.
  intros Hw. unfold space_get. rewrite (well_sized_good sp (d :: ds)) by done.
  pose proof Hw as [[id Hd] Hl _ Hp Ht Hs]. rewrite Hd, Hl. cbn [length].
  rewrite length_replicate, Z.eqb_refl. cbn [orb negb flat_index].
  apply Forall_cons in Hp as [Hd1 Hp]. pose proof (vol_pos ds Hp).
  change (vol (d :: ds)) with (d * vol ds) in *.
  rewrite sub_product_vol by (done || nia). rewrite Z.mul_1_l, (u64_small (vol ds * d)) by nia.
  rewrite Z.add_0_l, u64_small by nia. rewrite sub_zero by nia.
  rewrite (proj2 (Z.ltb_ge _ _)) by nia. by rewrite Ht, Z.mul_comm.
Qed.

Lemma space_get_past_end_witness :
  space_get (Some cube) [2; 0; 0] false = (ERROR_OK, Some 24).
Proof.
  apply (space_get_past_end cube 2 [3; 4]).
  split; [by eexists|reflexivity|vm_compute; split; discriminate
         |repeat constructor; lia|reflexivity|reflexivity].
Defined.

(** ** The search *)

(** [i] is the last place of the sample in [pts]. *)
Definition last_place (sample : point_t) (pts : list point_t) (found : option Z) : Prop :=
  match found with
  | Some i => 0 <= i /\ pts !! Z.to_nat i = Some sample /\
      forall j, i < j -> pts !! Z.to_nat j <> Some sample
  | None => sample ∉ pts
  end.

Lemma point_eqb a b : (color a =? color b) && (temp a =? temp b) = bool_decide (a = b).
Proof.
  destruct a as [c t], b as [c' t']. cbn.
  destruct (Z.eqb_spec c c'), (Z.eqb_spec t t'); subst; symmetry;
    (apply bool_decide_eq_true || apply bool_decide_eq_false); cbn; congruence.
Qed.

(** The last place among the first [i] points. *)
Definition last_below (sample : point_t) (pts : list point_t) (i : Z) (found : option Z) : Prop :=
  match found with
  | Some k => 0 <= k < i /\ pts !! Z.to_nat k = Some sample /\
      forall j, k < j < i -> pts !! Z.to_nat j <> Some sample
  | None => forall j, 0 <= j < i -> pts !! Z.to_nat j <> Some sample
  end.

Lemma search_loop_spec fuel i pts sample elem :
  Z.of_nat (length pts) <= INT_MAX -> 0 <= i <= Z.of_nat (length pts) ->
  Z.of_nat (length pts) - i < Z.of_nat fuel -> last_below sample pts i elem ->
  exists found, search_loop fuel i (Z.of_nat (length pts)) (Some <$> pts) sample elem = Ok found /\
    last_below sample pts (Z.of_nat (length pts)) found.
Proof.
  intros Hmax. revert i elem. induction fuel as [|fuel IH]; intros i elem Hi Hf He; [lia|].
  cbn [search_loop]. destruct (Z.ltb_spec i (Z.of_nat (length pts))) as [Hlt|Hge].
  - destruct (lookup_lt_is_Some_2 pts (Z.to_nat i)) as [pt Hpt]; [lia|].
    rewrite list_lookup_fmap, Hpt. cbn [fmap option_fmap option_map].
    rewrite (proj2 (Z.eqb_neq i INT_MAX)) by lia. rewrite point_eqb.
    apply IH; [lia|lia|]. case_bool_decide as Heq.
    + subst pt. split; [lia|]. split; [done|]. intros j Hj. lia.
    + destruct elem as [k|]; cbn in *.
      * destruct He as (Hk & Hks & Hj). split; [lia|]. split; [done|]. intros j Hjk.
        destruct (decide (j = i)) as [->|]; [rewrite Hpt; congruence|apply Hj; lia].
      * intros j Hj. destruct (decide (j = i)) as [->|]; [rewrite Hpt; congruence|apply He; lia].
  - assert (i = Z.of_nat (length pts)) as -> by lia. by exists elem.
Qed.

Lemma last_below_place sample pts found :
  last_below sample pts (Z.of_nat (length pts)) found -> last_place sample pts found.
Proof.
  destruct found as [k|]; cbn.
  - intros (Hk & Hs & Hj). split; [lia|]. split; [done|]. intros j Hkj.
    destruct (decide (j < Z.of_nat (length pts))); [apply Hj; lia|].
    rewrite lookup_ge_None_2 by lia. done.
  - intros Hj Hin. apply list_elem_of_lookup in Hin as [n Hn].
    apply (Hj (Z.of_nat n)); [|by rewrite Nat2Z.id].
    apply lookup_lt_Some in Hn. lia.
Qed.

Lemma space_search_spec sp ds id pts sample :
  well_sized sp ds -> mem sp = Some (id, Some <$> pts) -> Z.of_nat (length pts) = vol ds ->
  vol ds <= INT_MAX ->
  exists found, space_search (Some sp) (Some sample) = Ok (ERROR_OK, found) /\
    last_place sample pts found.
Proof.
  intros Hw Hm Hl Hmax. unfold space_search. rewrite (well_sized_good sp ds) by done.
  rewrite Hm, (ws_total _ _ Hw), <- Hl, length_fmap.
  destruct (search_loop_spec (S (length pts)) 0 pts sample None) as (found & -> & H);
    [lia|lia|lia|cbn; lia|]. exists found. split; [done|]. by apply last_below_place.
Qed.

(** On an initialised space of at most [INT_MAX] points the search terminates inside
    the block and answers [ERROR_OK] with the last place of the sample, or with none when
    no point equals it. *)
Theorem space_search_last sp ds id pts sample :
  well_sized sp ds -> mem sp = Some (id, Some <$> pts) -> Z.of_nat (length pts) = vol ds ->
  vol ds <= INT_MAX ->
  exists found, space_search (Some sp) (Some sample) = Ok (ERROR_OK, found) /\
    (forall i, found = Some i -> 0 <= i /\ pts !! Z.to_nat i = Some sample /\
       forall j, i < j -> pts !! Z.to_nat j <> Some sample) /\
    (found = None <-> sample ∉ pts).
Proof.
  intros Hw Hm Hl Hmax.
  destruct (space_search_spec sp ds id pts sample) as (found & E & H); [done..|].
  exists found. split; [done|]. split; [by intros i ->|]. split; [by intros ->|].
  destruct found as [i|]; [|done]. intros Hnot. destruct Hnot.
  destruct H as (_ & H & _). by eapply list_elem_of_lookup_2.
Qed.

Definition pt (c : Z) : point_t := MkPoint c 1.

Lemma space_search_last_witness :
  exists found,
    space_search (Some (MkSpace (Some (1%nat, Some <$> [pt 5; pt 7; pt 5])) 3 1
      (Some (0%nat, [3])))) (Some (pt 5)) = Ok (ERROR_OK, found) /\
    (forall i, found = Some i -> 0 <= i /\ [pt 5; pt 7; pt 5] !! Z.to_nat i = Some (pt 5) /\
       forall j, i < j -> [pt 5; pt 7; pt 5] !! Z.to_nat j <> Some (pt 5)) /\
    (found = None <-> pt 5 ∉ [pt 5; pt 7; pt 5]).
Proof.
  apply (space_search_last (MkSpace (Some (1%nat, Some <$> [pt 5; pt 7; pt 5])) 3 1
    (Some (0%nat, [3]))) [3] 1 [pt 5; pt 7; pt 5] (pt 5)).
  - split; [by eexists|reflexivity|vm_compute; split; discriminate
           |repeat constructor; lia|reflexivity|reflexivity].
  - reflexivity.
  - reflexivity.
  - vm_compute. discriminate.
Defined.

(** ** search2.c: main *)

Lemma init_loop_spec rands fuel i m w :
  Z.of_nat (length m) <= INT_MAX -> 0 <= i <= Z.of_nat (length m) ->
  Z.of_nat (length m) - i < Z.of_nat fuel ->
  (forall j, (j < Z.to_nat i)%nat -> exists p, m !! j = Some (Some p)) ->
  exists pts w', init_loop rands fuel i (Z.of_nat (length m)) m w = Ok (Some <$> pts, w') /\
    length pts = length m /\ w_proc w' = w_proc w.
Proof.
  intros Hmax. revert i m w Hmax. induction fuel as [|fuel IH]; intros i m w Hmax Hi Hf Hdone; [lia|].
  cbn [init_loop]. destruct (Z.ltb_spec i (Z.of_nat (length m))) as [Hlt|Hge].
  - unfold rand_int32, rand. cbn [w_rand w_proc].
    rewrite (proj2 (Z.eqb_neq i INT_MAX)) by lia.
    match goal with |- context [<[Z.to_nat i := Some ?q]> m] => set (m' := <[Z.to_nat i := Some q]> m) end.
    assert (length m' = length m) as Hl by apply length_insert. rewrite <- Hl.
    match goal with |- context [init_loop _ _ _ _ _ ?w1] =>
      destruct (IH (i + 1) m' w1) as (pts & w' & E & Hlen & Hw) end;
      [by rewrite Hl|rewrite Hl; lia|rewrite Hl; lia| |].
    { intros j Hj. unfold m'. destruct (decide (j = Z.to_nat i)) as [->|].
      - rewrite list_lookup_insert_eq by lia. by eexists.
      - rewrite list_lookup_insert_ne by done. apply Hdone. lia. }
    exists pts, w'. rewrite E. split; [done|]. split; [congruence|done].
  - assert (exists pts, m = Some <$> pts) as [pts ->].
    { clear -Hdone Hge. assert (forall x, x ∈ m -> is_Some x) as H.
      { intros x Hx. apply list_elem_of_lookup in Hx as [j Hj].
        destruct (Hdone j) as [p Hp]; [apply lookup_lt_Some in Hj; lia|].
        rewrite Hj in Hp. simplify_eq. by eexists. }
      clear Hdone Hge. induction m as [|x m IH]; [by exists []|].
      destruct IH as [pts ->]; [intros y Hy; apply H; by right|].
      destruct (H x) as [p ->]; [by left|]. by exists (p :: pts). }
    exists pts, w. split; [done|]. by rewrite length_fmap.
Qed.

Lemma plant_spec rands pts w :
  0 < Z.of_nat (length pts) ->
  exists pts' w', plant rands (Z.of_nat (length pts)) (Some <$> pts) w = Ok (Some <$> pts', w') /\
    length pts' = length pts /\ sample_point ∈ pts' /\ w_proc w' = w_proc w.
Proof.
  intros Hpos. unfold plant. rewrite (proj2 (Z.eqb_neq _ 0)) by lia. unfold rand.
  set (r := rands (w_rand w) `mod` Z.of_nat (length pts)).
  assert (0 <= r < Z.of_nat (length pts)) as Hr by (apply Z.mod_pos_bound; lia).
  rewrite length_fmap, (proj2 (Z.ltb_lt _ _)) by lia.
  exists (<[Z.to_nat r := sample_point]> pts). eexists. rewrite list_fmap_insert. split; [done|].
  split; [by rewrite length_insert|]. split; [|done].
  eapply list_elem_of_lookup_2, list_lookup_insert_eq. lia.
Qed.

(** The command line's words are decimal (or octal, or hexadecimal) sizes. *)
Definition sizes (args : list string) (ds : list Z) : Prop :=
  Forall2 (fun a d => strtoll a 0 = MkStrto d EmptyString false /\ 1 <= d < 2 ^ 64) args ds.

Lemma read_positive_spec args ds pre w :
  sizes args ds ->
  exists w', read_positive args pre w = (inl (pre ++ ds), w') /\
    live (w_proc w') = live (w_proc w) /\ next_id (w_proc w') = next_id (w_proc w) /\
    log (w_proc w') = log (w_proc w) /\ w_rand w' = w_rand w.
Proof.
  intros H. revert pre w. induction H as [|a d args ds [Ha Hd] _ IH]; intros pre w; cbn [read_positive].
  - exists w. by rewrite app_nil_r.
  - unfold str_to_long. rewrite Ha. cbn [st_erange st_end st_value].
    rewrite (proj2 (Z.ltb_lt 0 d)), u64_small by lia.
    destruct (IH (pre ++ [d]) (on_w (set_errno 0) w)) as (w' & -> & H1 & H2 & H3 & H4).
    exists w'. rewrite <- (assoc_L app). by repeat split.
Qed.

Lemma sizes_positive args ds : sizes args ds -> positive ds.
Proof. induction 1 as [|x d xs ds [_ Hd] _ IH]; constructor; [lia|done]. Qed.

(** From the dimensions to the planted space. *)
Lemma alloc_and_init_space_spec rands mallocs dims_id ds w :
  positive ds -> 1 <= Z.of_nat (length ds) <= MAX_DIMS -> vol ds <= INT_MAX ->
  mallocs (u64 (sizeof_point * vol ds)) = true ->
  exists pts w',
    alloc_and_init_space rands mallocs
      (Some (MkSpace None 0 (Z.of_nat (length ds)) (Some (dims_id, ds)))) w =
      Ok (ERROR_OK, Some (MkSpace (Some (next_id (w_proc w), Some <$> pts)) (vol ds)
                            (Z.of_nat (length ds)) (Some (dims_id, ds))), w') /\
    Z.of_nat (length pts) = vol ds /\ sample_point ∈ pts /\
    w_proc w' = snd (acquire RBlk (w_proc w)).
Proof.
  intros Hp Hlen Hvol Hm. destruct ds as [|d ds]; [cbn in Hlen; lia|].
  pose proof (vol_pos _ Hp) as Hv1. unfold INT_MAX in Hvol.
  assert (product ds d = vol (d :: ds)) as Hprod.
  { apply Forall_cons in Hp as [Hd Hp]. pose proof (vol_pos ds Hp).
    change (vol (d :: ds)) with (d * vol ds) in *. apply product_vol; [done|lia|nia]. }
  unfold alloc_and_init_space, bad_space.
  cbn [dims dims_len tail head default from_option id mem].
  rewrite (proj2 (Z.leb_gt _ 0)), (proj2 (Z.ltb_ge MAX_DIMS _)) by lia. cbn [orb].
  rewrite bool_decide_false by done.
  rewrite Hprod. unfold malloc. rewrite Hm. cbn [acquire].
  rewrite u64_small, (Z.mul_comm sizeof_point), Z.div_mul by (unfold sizeof_point; lia).
  set (m0 := replicate (Z.to_nat (vol (d :: ds))) None).
  assert (Z.of_nat (length m0) = vol (d :: ds)) as Hm0.
  { unfold m0. rewrite length_replicate. lia. }
  rewrite <- Hm0.
  match goal with |- context [init_loop _ _ _ _ _ ?w1] => set (w2 := w1) end.
  destruct (init_loop_spec rands (S (length m0)) 0 m0 w2)
    as (pts & w3 & E & Hl & Hw); [unfold INT_MAX; lia|lia|lia|lia|].
  rewrite E. cbn [rbind]. rewrite <- Hl.
  destruct (plant_spec rands pts w3) as (pts' & w4 & E' & Hl' & Hin & Hw'); [lia|].
  rewrite E'. cbn [rbind]. exists pts', w4. split; [done|]. split; [lia|]. split; [done|].
  by rewrite Hw', Hw.
Qed.

(** search2: for one to a hundred positive sizes whose product is at most [INT_MAX],
    when the two allocations succeed, the program finds the sample it has planted, says
    so, exits with 0 and frees what it allocated, whatever [rand] gives. *)
Theorem search2_finds rands mallocs prog args ds w :
  sizes args ds -> 1 <= Z.of_nat (length args) <= MAX_DIMS -> vol ds <= INT_MAX ->
  (forall n, mallocs n = true) -> proc_wf (w_proc w) ->
  exists w', search2_main rands mallocs (prog :: args) w = Ok (0, w') /\
    live (w_proc w') = live (w_proc w) /\
    log (w_proc w') = log (w_proc w) ++ [Out ("Sample was found!" +:+ nl)].
Proof.
  intros Hs Hlen Hvol Hm Hwf.
  assert (length args = length ds) as Hlds by (by eapply Forall2_length).
  destruct args as [|a args]; [cbn in Hlen; lia|]. unfold search2_main.
  set (all := a :: args) in *. unfold malloc at 1. rewrite Hm. cbn [acquire].
  set (w1 := MkWorld _ _).
  destruct (read_positive_spec all ds [] w1 Hs) as (w2 & -> & Hl2 & Hn2 & Hlog2 & _).
  cbn [app]. pose proof (sizes_positive _ _ Hs) as Hp. rewrite Hlds in Hlen |- *.
  destruct (alloc_and_init_space_spec rands mallocs (next_id (w_proc w)) ds w2)
    as (pts & w3 & -> & Hlp & Hin & Hw3); [done..|]. cbn [rbind].
  set (sp := MkSpace _ _ _ _). pose proof (vol_pos _ Hp). unfold INT_MAX in *.
  assert (well_sized sp ds) as Hws by (split; [by eexists|done|done|done|done|lia]).
  destruct (space_search_spec sp ds (next_id (w_proc w2)) pts sample_point)
    as (found & E & Hf); [done..|]. unfold search_for_sample. rewrite E. cbn [rbind].
  destruct found as [k|]; [|done].
  unfold free_space, space_free. rewrite (well_sized_good sp ds) by done.
  cbn [sp mem dims]. unfold free, report_found, on_w. cbn [w_proc w_rand live next_id log emit].
  rewrite Hw3. cbn [acquire snd]. rewrite Hn2, Hl2. cbn [w1 w_proc next_id live emit].
  rewrite (release_live RBlk (S _)) by (cbn; apply lookup_insert_eq). cbn [rbind w_proc w_rand].
  rewrite (release_live RBlk (next_id (w_proc w))).
  2: { cbn. rewrite lookup_delete_ne, lookup_insert_ne by lia. apply lookup_insert_eq. }
  cbn [rbind]. eexists. split; [done|]. cbn. rewrite Hlog2. split; [|done].
  rewrite (delete_insert_id (<[_ := _]> _)); [apply delete_insert_id; by apply Hwf|].
  rewrite lookup_insert_ne by lia. apply Hwf. lia.
Qed.

Lemma search2_finds_witness :
  exists w', search2_main (fun _ => 77) (fun _ => true) ["search2"; "2"; "0x3"]%string
      (MkWorld proc0 0) = Ok (0, w') /\
    live (w_proc w') = ∅ /\
    log (w_proc w') = [Out ("Sample was found!" +:+ nl)].
Proof.
  apply (search2_finds _ _ "search2" ["2"; "0x3"]%string [2; 3] (MkWorld proc0 0)).
  - repeat constructor; lia.
  - vm_compute. split; discriminate.
  - vm_compute. discriminate.
  - done.
  - intros i _. done.
Defined.
