(* ===== verification/PollServer.v ===== *)
(** * week5/ex6.c: the server that uses poll

    The table [fds] of 200 entries, the rounds of the main loop (poll, the scan of the
    table, accept, receive and echo, the compression of the table), the start-up with its
    error exits and the clean-up.  The network is a parameter: what each system call
    answers, as a function of the time (the number of calls made so far) and its
    arguments. *)

From S2P Require Import Prelude Process CLib.
From Stdlib Require Import Ascii.
Local Open Scope Z_scope.
Local Open Scope c_scope.

Definition MAX_BUFF : nat := 1024.
Definition MAX_FDS : nat := 200.
Definition POLLIN : Z := 1.
Definition EWOULDBLOCK : Z := 11.

Record pollfd := MkPollfd { fd : Z; events : Z; revents : Z }.

(** Answers of the system calls: an [inr] and a [Some] of a call that returns nothing are
    failures with their [errno].  [n_poll] answers the [revents] of the descriptors asked,
    [n_accept] knows which descriptors are open, [n_recv] an empty list at end of file. *)
Record net := MkNet {
  n_socket : Z + Z;
  n_setsockopt : option Z;
  n_ioctl : option Z;
  n_bind : option Z;
  n_listen : option Z;
  n_poll : nat -> list Z -> list Z + Z;
  n_accept : nat -> gset Z -> Z + Z;
  n_recv : nat -> Z -> list Z + Z;
  n_send : nat -> Z -> list Z -> option Z
}.

(** The variables of [main], with the open descriptors, the time, the lines printed and
    the data sent. *)
Record srv := MkSrv {
  fds : list pollfd;
  nfds : nat;
  end_server : bool;
  compress_array : bool;
  opened : gset Z;
  time : nat;
  printed_lines : list ev;
  sent : list (Z * list Z)
}.

Definition tick (s : srv) : srv :=
  MkSrv (fds s) (nfds s) (end_server s) (compress_array s) (opened s) (S (time s))
    (printed_lines s) (sent s).

Definition say (e : ev) (s : srv) : srv :=
  MkSrv (fds s) (nfds s) (end_server s) (compress_array s) (opened s) (time s)
    (printed_lines s ++ [e]) (sent s).

Definition printf (t : string) : srv -> srv := say (Out (t +:+ nl)).

Definition set_end (s : srv) : srv :=
  MkSrv (fds s) (nfds s) true (compress_array s) (opened s) (time s) (printed_lines s) (sent s).

Definition set_table (a : list pollfd) (n : nat) (s : srv) : srv :=
  MkSrv a n (end_server s) (compress_array s) (opened s) (time s) (printed_lines s) (sent s).

Definition set_opened (o : gset Z) (s : srv) : srv :=
  MkSrv (fds s) (nfds s) (end_server s) (compress_array s) o (time s) (printed_lines s) (sent s).

Definition set_compress (b : bool) (s : srv) : srv :=
  MkSrv (fds s) (nfds s) (end_server s) b (opened s) (time s) (printed_lines s) (sent s).

Definition record_sent (c : Z) (bytes : list Z) (s : srv) : srv :=
  MkSrv (fds s) (nfds s) (end_server s) (compress_array s) (opened s) (time s)
    (printed_lines s) (sent s ++ [(c, bytes)]).

Definition close (d : Z) (s : srv) : srv := set_opened (opened s ∖ {[d]}) s.

Definition with_fd (d : Z) (x : pollfd) : pollfd := MkPollfd d (events x) (revents x).

(** ** The table *)

(** [for (j = i; j < nfds; j++) fds[j].fd = fds[j+1].fd;], with [n = nfds - j]. *)
Fixpoint shift_down (n j : nat) (a : list pollfd) : res (list pollfd) :=
  match n with
  | O => Ok a
  | S n =>
      match a !! S j with
      | None => Undef OutOfBounds
      | Some x => shift_down n (S j) (alter (with_fd (fd x)) j a)
      end
  end.

(** The loop over [i]; after [i--] and the [i++] of the loop the index is the same. *)
Fixpoint compress (fuel i n : nat) (a : list pollfd) : res (nat * list pollfd) :=
  match fuel with
  | O => NoFuel
  | S fuel =>
      if (i <? n)%nat then
        match a !! i with
        | None => Undef OutOfBounds
        | Some x =>
            if fd x =? -1
            then let* a := shift_down (n - i) i a in compress fuel i (n - 1) a
            else compress fuel (S i) n a
        end
      else Ok (n, a)
  end.

(** [if (compress_array) ..] *)
Definition squeeze (s : srv) : res srv :=
  if compress_array s
  then let* (n, a) := compress (S (nfds s)) 0 (nfds s) (fds s) in
       Ok (set_compress false (set_table a n s))
  else Ok s.

(** [poll] writes [revents] of the entries it was given. *)
Fixpoint put_revents (rs : list Z) (a : list pollfd) : list pollfd :=
  match rs, a with
  | r :: rs, x :: a => MkPollfd (fd x) (events x) r :: put_revents rs a
  | _, _ => a
  end.

(** A C string in a buffer: the bytes before the first NUL. *)
Fixpoint c_string (buffer : list Z) : res string :=
  match buffer with
  | [] => Undef OutOfBounds
  | b :: buffer =>
      if b =? 0 then Ok EmptyString
      else let* t := c_string buffer in Ok (String (chr b) t)
  end.

Section Server.
Context (N : net) (listen_sd : Z).

(** [do .. while (new_sd != -1)] around [accept]. *)
Fixpoint accept_all (fuel : nat) (s : srv) : res srv :=
  match fuel with
  | O => NoFuel
  | S fuel =>
      match n_accept N (time s) (opened s) with
      | inr e =>
          let s := tick s in
          Ok (if e =? EWOULDBLOCK then s else set_end (say (Perror "  accept() failed" e) s))
      | inl new_sd =>
          let s := set_opened ({[new_sd]} ∪ opened s) (tick s) in
          let s := printf ("  New incoming connection - " +:+ fmt_lld new_sd) s in
          match fds s !! nfds s with
          | None => Undef OutOfBounds
          | Some x =>
              let a := <[nfds s := MkPollfd new_sd POLLIN (revents x)]> (fds s) in
              accept_all fuel (set_table a (S (nfds s)) s)
          end
      end
  end.

(** [if (close_conn) ..] *)
Definition close_conn (i : nat) (c : Z) (s : srv) : srv :=
  set_compress true (set_table (alter (with_fd (-1)) i (fds s)) (nfds s) (close c s)).

(** The buffer after [recv] and the test of its last byte. *)
Definition fill (bytes : list Z) : list Z :=
  let len := length bytes in
  let buffer := bytes ++ replicate (MAX_BUFF - len) 0 in
  if decide (buffer !! (len - 1)%nat = Some 10) then <[(len - 1)%nat := 0]> buffer else buffer.

(** A readable connection; [recv] gives at most the size of the buffer. *)
Definition receive (i : nat) (c : Z) (s : srv) : res srv :=
  let s := printf ("  Descriptor " +:+ fmt_lld c +:+ " is readable") s in
  match n_recv N (time s) c with
  | inr e =>
      let s := tick s in
      Ok (if e =? EWOULDBLOCK then s else close_conn i c (say (Perror "  recv() failed" e) s))
  | inl [] => Ok (close_conn i c (printf "  Connection closed" (tick s)))
  | inl bytes =>
      let s := tick s in
      let bytes := take MAX_BUFF bytes in
      let len := length bytes in
      let buffer := fill bytes in
      let* t := c_string buffer in
      let s := printf ("  " +:+ fmt_lld (Z.of_nat len) +:+ " bytes received:[" +:+ t +:+ "]") s in
      match n_send N (time s) c (take len buffer) with
      | Some e => Ok (close_conn i c (say (Perror "  send() failed" e) (tick s)))
      | None => Ok (record_sent c (take len buffer) (tick s))
      end
  end.

(** [for (i = 0; i < current_size; i++)] *)
Fixpoint scan (idx : list nat) (s : srv) : res srv :=
  match idx with
  | [] => Ok s
  | i :: idx =>
      match fds s !! i with
      | None => Undef OutOfBounds
      | Some x =>
          if revents x =? 0 then scan idx s
          else if negb (revents x =? POLLIN) then
            Ok (set_end (printf ("  Error! revents = " +:+ fmt_lld (revents x)) s))
          else
            let* s := if fd x =? listen_sd
                      then accept_all (S MAX_FDS) (printf "  Listening socket is readable" s)
                      else receive i (fd x) s in
            scan idx s
      end
  end.

(** The body of the main loop; [true] when the loop goes on. *)
Definition round (s : srv) : res (bool * srv) :=
  let s := printf "Waiting on poll()..." s in
  match n_poll N (time s) (fd <$> take (nfds s) (fds s)) with
  | inr e => Ok (false, say (Perror "  poll() failed" e) (tick s))
  | inl rs =>
      let s := set_table (put_revents (take (nfds s) rs) (fds s)) (nfds s) (tick s) in
      if decide (Forall (eq 0) rs)
      then Ok (false, printf "  poll() timed out.  End program." s)
      else
        let* s := scan (seq 0 (nfds s)) s in
        let* s := squeeze s in
        Ok (negb (end_server s), s)
  end.

(** The first [n] rounds, or fewer when the loop ends. *)
Fixpoint serve (n : nat) (s : srv) : res (bool * srv) :=
  match n with
  | O => Ok (true, s)
  | S n =>
      let* (go, s) := round s in
      if go : bool then serve n s else Ok (false, s)
  end.

End Server.

(** "Clean up all of the sockets that are open". *)
Fixpoint clean_up (idx : list nat) (s : srv) : res srv :=
  match idx with
  | [] => Ok s
  | i :: idx =>
      match fds s !! i with
      | None => Undef OutOfBounds
      | Some x => clean_up idx (if 0 <=? fd x then close (fd x) s else s)
      end
  end.

Definition start (listen_sd : Z) : srv :=
  MkSrv (MkPollfd listen_sd POLLIN 0 :: replicate (MAX_FDS - 1) (MkPollfd 0 0 0)) 1 false true
    {[listen_sd]} 0 [] [].

Definition exit_with (text : string) (e : Z) (s : srv) : res (option Z * srv) :=
  Ok (Some (-1), say (Perror text e) s).

(** [perror(..); close(listen_sd); exit(-1)] *)
Definition give_up_on (listen_sd : Z) (text : string) (e : Z) (s : srv) : res (option Z * srv) :=
  Ok (Some (-1), close listen_sd (say (Perror text e) s)).

(** [main], with its loop cut off after [n] rounds: the status, or [None] when the server is
    still running. *)
Definition main (N : net) (n : nat) : res (option Z * srv) :=
  let none := MkSrv [] 0 false true ∅ 0 [] [] in
  match n_socket N with
  | inr e => exit_with "socket() failed" e none
  | inl listen_sd =>
      let fail text e := give_up_on listen_sd text e (set_opened ({[listen_sd]} ∪ opened none) none) in
      match n_setsockopt N, n_ioctl N, n_bind N, n_listen N with
      | Some e, _, _, _ => fail "setsockopt() failed" e
      | None, Some e, _, _ => fail "ioctl() failed" e
      | None, None, Some e, _ => fail "bind() failed" e
      | None, None, None, Some e => fail "listen() failed" e
      | None, None, None, None =>
          let* (go, s) := serve N listen_sd n (start listen_sd) in
          if go : bool then Ok (None, s)
          else let* s := clean_up (seq 0 (nfds s)) s in Ok (Some 0, s)
      end
  end.

(** ** The compression of the table *)

(** The descriptors of [l] that are not closed. *)
Definition live_fds (l : list Z) : list Z := filter (fun d => d <> -1) l.

Lemma shift_down_spec n j a :
  (j + n < length a)%nat ->
  exists a', shift_down n j a = Ok a' /\ length a' = length a /\
    events <$> a' = events <$> a /\
    forall k, (fd <$> a') !! k =
      if decide (j <= k < j + n)%nat then (fd <$> a) !! S k else (fd <$> a) !! k.
Proof.
  revert j a. induction n as [|n IH]; intros j a Hj; cbn [shift_down].
  - exists a. repeat split; [done..|]. intros k. by rewrite decide_False by lia.
  - destruct (lookup_lt_is_Some_2 a (S j)) as [x Hx]; [lia|]. rewrite Hx.
    destruct (IH (S j) (alter (with_fd (fd x)) j a)) as (a' & -> & Hl & He & Hk);
      [rewrite length_alter; lia|].
    exists a'. split; [done|]. rewrite length_alter in Hl. split; [done|]. split.
    + rewrite He. apply list_eq. intros k. rewrite !list_lookup_fmap.
      destruct (decide (k = j)) as [->|]; [|by rewrite list_lookup_alter_ne].
      rewrite list_lookup_alter_eq. by destruct (a !! j).
    + intros k. rewrite Hk. rewrite !list_lookup_fmap.
      destruct (decide (k = j)) as [->|Hne].
      * rewrite decide_False, decide_True by lia. rewrite list_lookup_alter_eq, Hx.
        destruct (lookup_lt_is_Some_2 a j) as [y ->]; [lia|]. done.
      * destruct (decide (j <= k < j + S n)%nat).
        -- rewrite decide_True by lia. by rewrite list_lookup_alter_ne by lia.
        -- rewrite decide_False by lia. by rewrite list_lookup_alter_ne by lia.
Qed.

Lemma shift_down_delete n i a :
  (i < n)%nat -> (n < length a)%nat ->
  exists a', shift_down (n - i) i a = Ok a' /\ length a' = length a /\
    events <$> a' = events <$> a /\
    fd <$> take (n - 1) a' = delete i (fd <$> take n a).
Proof.
  intros Hi Hn. destruct (shift_down_spec (n - i) i a) as (a' & -> & Hl & He & Hk); [lia|].
  exists a'. split; [done|]. split; [done|]. split; [done|].
  apply list_eq. intros k. rewrite !fmap_take.
  destruct (decide (k < i)%nat).
  - rewrite list_lookup_delete_lt by done. rewrite !lookup_take_lt by lia. rewrite Hk.
    by rewrite decide_False by lia.
  - rewrite list_lookup_delete_ge by lia. destruct (decide (k < n - 1)%nat).
    + rewrite !lookup_take_lt by lia. rewrite Hk. by rewrite decide_True by lia.
    + by rewrite !lookup_take_ge by lia.
Qed.

Lemma compress_spec fuel i n a :
  (n - i < fuel)%nat -> (i <= n)%nat -> (n < length a)%nat ->
  exists n' a', compress fuel i n a = Ok (n', a') /\ length a' = length a /\ (n' <= n)%nat /\
    events <$> a' = events <$> a /\
    fd <$> take n' a' =
      take i (fd <$> take n a) ++ live_fds (drop i (fd <$> take n a)).
Proof.
  revert i n a. induction fuel as [|fuel IH]; intros i n a Hf Hi Hn; [lia|]. cbn [compress].
  destruct (Nat.ltb_spec i n) as [Hlt|Hge].
  - destruct (lookup_lt_is_Some_2 a i) as [x Hx]; [lia|]. rewrite Hx.
    assert ((fd <$> take n a) !! i = Some (fd x)) as Hw
      by (by rewrite list_lookup_fmap, lookup_take_lt, Hx).
    set (W := fd <$> take n a) in *. destruct (Z.eqb_spec (fd x) (-1)) as [Heq|Hne].
    + destruct (shift_down_delete n i a) as (a1 & -> & Hl1 & He1 & Hd1); [done..|].
      cbn [rbind].
      destruct (IH i (n - 1)%nat a1) as (n' & a' & -> & Hl & Hle & He & Hw'); [lia..|].
      exists n', a'. split; [done|]. split; [lia|]. split; [lia|]. split; [congruence|].
      rewrite Hw', Hd1, delete_take_drop.
      assert (length (take i W) = i) as Hti.
      { rewrite length_take. apply lookup_lt_Some in Hw. lia. }
      rewrite take_app_length', drop_app_length' by done. f_equal.
      rewrite (drop_S _ _ _ Hw). unfold live_fds. rewrite filter_cons_False; [done|]. by intros [].
    + destruct (IH (S i) n a) as (n' & a' & -> & Hl & Hle & He & Hw'); [lia..|].
      exists n', a'. split; [done|]. split; [lia|]. split; [lia|]. split; [done|].
      fold W in Hw'. rewrite Hw', (drop_S _ _ _ Hw), (take_S_r _ _ _ Hw).
      unfold live_fds. rewrite filter_cons_True by done. by rewrite <- (assoc_L app).
  - exists n, a. assert (i = n) as -> by lia. split; [done|]. split; [done|]. split; [done|].
    split; [done|]. assert (length (fd <$> take n a) <= n)%nat as Hlen
      by (rewrite length_fmap, length_take; lia).
    rewrite (drop_ge _ n) by done. rewrite (take_ge (fd <$> _) n) by done.
    unfold live_fds. by rewrite filter_nil, app_nil_r.
Qed.

(** The loop that squeezes the table ends, stays inside the table and leaves exactly
    the descriptors that are not closed, in their order, for every table that is not full. *)
Theorem squeeze_filters s :
  compress_array s = true -> (nfds s < length (fds s))%nat ->
  exists s', squeeze s = Ok s' /\ length (fds s') = length (fds s) /\
    compress_array s' = false /\
    fd <$> take (nfds s') (fds s') = filter (fun d => d <> -1) (fd <$> take (nfds s) (fds s)).
Proof.
  intros Hc Hn. unfold squeeze. rewrite Hc.
  destruct (compress_spec (S (nfds s)) 0 (nfds s) (fds s)) as (n' & a' & -> & Hl & _ & _ & Hw);
    [lia..|]. eexists. split; [done|]. by repeat split.
Qed.

Definition squeeze_example : srv :=
  set_table (MkPollfd (-1) 1 0 :: MkPollfd (-1) 1 0 :: MkPollfd 6 1 1 ::
    replicate 5 (MkPollfd 0 0 0)) 3 (start 3).

Lemma squeeze_filters_witness :
  exists s', squeeze squeeze_example = Ok s' /\ length (fds s') = 8%nat /\
    compress_array s' = false /\
    fd <$> take (nfds s') (fds s') = [6].
Proof. apply (squeeze_filters squeeze_example); [done|cbn; lia]. Defined.

(** ** The table through a round *)

(** [L] are the descriptors of the table: the listening socket first, each once, with -1
    for those closed in this round; they are the open descriptors of the process. *)
Record table (listen_sd : Z) (s : srv) (L : list Z) : Prop := MkTable {
  t_len : length (fds s) = MAX_FDS;
  t_lt : (nfds s <= MAX_FDS)%nat;
  t_fds : fd <$> take (nfds s) (fds s) = L;
  t_events : Forall (fun x => events x = POLLIN) (take (nfds s) (fds s));
  t_listen : head L = Some listen_sd;
  t_nodup : NoDup (live_fds L);
  t_pos : Forall (fun d => 0 <= d) (live_fds L);
  t_open : opened s = list_to_set (live_fds L);
  t_comp : -1 ∈ L -> compress_array s = true
}.

(** What POSIX says of [accept]: the descriptor it gives was not open. *)
Definition accept_fresh (N : net) : Prop :=
  forall t o d, n_accept N t o = inl d -> 0 <= d /\ d ∉ o.

(** Two things the server is not built for, in the round that starts in [s0]: the process has
    as many descriptors as the table has entries, now or after a connection that is accepted
    in addition to those of [s0]; a client sends a message that fills the buffer, with no NUL
    in it and no newline at its end. *)
Definition crowded (N : net) (s0 : srv) : Prop :=
  (MAX_FDS <= size (opened s0))%nat \/
  exists t o d, opened s0 ⊆ o /\ n_accept N t o = inl d /\ (MAX_FDS <= size ({[d]} ∪ o))%nat.

Definition flooded (N : net) (s0 : srv) : Prop :=
  exists t c bytes, c ∈ fd <$> take (nfds s0) (fds s0) /\ n_recv N t c = inl bytes /\
    (MAX_BUFF <= length bytes)%nat /\ (0 ∉ take MAX_BUFF bytes) /\ last (take MAX_BUFF bytes) <> Some 10.

(** [m] gives what [Q] says, or leaves the table or the buffer, and only in such a round. *)
Definition unless_overrun {A} (N : net) (s0 : srv) (Q : A -> Prop) (m : res A) : Prop :=
  match m with
  | Ok a => Q a
  | Undef u => u = OutOfBounds /\ (crowded N s0 \/ flooded N s0)
  | NoFuel => False
  end.

Lemma overrun_bind {A B} N s0 (P : A -> Prop) (Q : B -> Prop) m (k : A -> res B) :
  unless_overrun N s0 P m -> (forall a, P a -> unless_overrun N s0 Q (k a)) -> unless_overrun N s0 Q (rbind m k).
Proof. destruct m; cbn; auto. Qed.

Lemma overrun_mono {A} N s0 (P Q : A -> Prop) m :
  unless_overrun N s0 P m -> (forall a, P a -> Q a) -> unless_overrun N s0 Q m.
Proof. destruct m; cbn; auto. Qed.

Lemma table_say listen_sd e s L : table listen_sd s L -> table listen_sd (say e s) L.
Proof. intros []. by split. Qed.

Lemma table_tick listen_sd s L : table listen_sd s L -> table listen_sd (tick s) L.
Proof. intros []. by split. Qed.

Lemma table_end listen_sd s L : table listen_sd s L -> table listen_sd (set_end s) L.
Proof. intros []. by split. Qed.

Lemma table_sent listen_sd c b s L : table listen_sd s L -> table listen_sd (record_sent c b s) L.
Proof. intros []. by split. Qed.

Create HintDb srv.
#[local] Hint Resolve table_say table_tick table_end table_sent : srv.

Lemma table_length listen_sd s L : table listen_sd s L -> length L = nfds s.
Proof.
  intros [Hl Hlt <- _ _ _ _ _ _]. rewrite length_fmap, length_take. lia.
Qed.

Lemma live_fds_clean L : -1 ∉ L -> live_fds L = L.
Proof.
  intros H. unfold live_fds. induction L as [|d L IH]; [done|].
  apply not_elem_of_cons in H as [Hd H]. rewrite filter_cons_True by done. f_equal. by apply IH.
Qed.

Lemma live_fds_in d L : d ∈ live_fds L <-> d <> -1 /\ d ∈ L.
Proof. unfold live_fds. by rewrite list_elem_of_filter. Qed.

(** Every clean table has as many entries as the process has open descriptors. *)
Lemma table_size listen_sd s L : table listen_sd s L -> -1 ∉ L -> size (opened s) = nfds s.
Proof.
  intros H Hc. rewrite (t_open _ _ _ H), (live_fds_clean L Hc).
  rewrite size_list_to_set; [by eapply table_length|].
  rewrite <- (live_fds_clean L Hc). by eapply t_nodup.
Qed.

Lemma take_insert_end {A} (l : list A) n x :
  (n < length l)%nat -> take (S n) (<[n := x]> l) = take n l ++ [x].
Proof.
  intros Hn. rewrite (take_S_r _ n x) by (by apply list_lookup_insert_eq).
  by rewrite take_insert_ge by lia.
Qed.

Lemma accept_one N listen_sd s L d x :
  accept_fresh N -> table listen_sd s L -> -1 ∉ L -> n_accept N (time s) (opened s) = inl d ->
  fds s !! nfds s = Some x ->
  table listen_sd (set_table (<[nfds s := MkPollfd d POLLIN (revents x)]> (fds s)) (S (nfds s))
    (printf ("  New incoming connection - " +:+ fmt_lld d)
       (set_opened ({[d]} ∪ opened s) (tick s)))) (L ++ [d]) /\ -1 ∉ L ++ [d].
Proof.
  intros HN H Hc Hd Hx. apply HN in Hd as (Hd0 & Hdo). apply lookup_lt_Some in Hx as Hsz.
  assert (-1 ∉ L ++ [d]) as Hc'.
  { rewrite elem_of_app, list_elem_of_singleton. intros [|]; [done|lia]. }
  split; [|done]. rewrite (t_open _ _ _ H), (live_fds_clean L Hc) in Hdo.
  apply not_elem_of_list_to_set in Hdo.
  destruct H as [Hl Hlt Hf He Hh Hn Hp Ho Hco]. rewrite (live_fds_clean L Hc) in *.
  split; cbn [fds nfds set_table printf say set_opened tick opened compress_array].
  - by rewrite length_insert.
  - lia.
  - rewrite take_insert_end by done. by rewrite fmap_app, Hf.
  - rewrite take_insert_end by done. apply Forall_app. split; [done|]. by constructor.
  - destruct L; [done|]. done.
  - rewrite live_fds_clean by done. apply NoDup_app. split; [done|].
    split; [|apply NoDup_singleton]. intros y Hy ->%list_elem_of_singleton. done.
  - rewrite live_fds_clean by done. apply Forall_app. split; [done|]. by constructor.
  - rewrite live_fds_clean by done. rewrite Ho, list_to_set_app_L. cbn. by rewrite (right_id_L ∅ (∪)), (comm_L (∪)).
  - done.
Qed.

Lemma accept_all_table N listen_sd s0 fuel s L :
  accept_fresh N -> table listen_sd s L -> -1 ∉ L -> (MAX_FDS < fuel + nfds s)%nat ->
  opened s0 ⊆ opened s -> (nfds s < MAX_FDS)%nat \/ crowded N s0 ->
  unless_overrun N s0 (fun s' => exists L', table listen_sd s' (L ++ L') /\
    (nfds s <= nfds s')%nat /\ ((nfds s' < MAX_FDS)%nat \/ crowded N s0)) (accept_all N fuel s).
Proof.
  intros HN. revert s L. induction fuel as [|fuel IH]; intros s L H Hc Hf Ho Hroom.
  { pose proof (t_lt _ _ _ H). lia. }
  cbn [accept_all]. destruct (n_accept N (time s) (opened s)) as [d|e] eqn:Ea.
  - cbn [fds nfds printf say set_opened tick]. destruct (fds s !! nfds s) as [x|] eqn:Hx.
    + destruct (accept_one N listen_sd s L d x HN H Hc Ea Hx) as [H' Hc'].
      eapply overrun_mono; [apply (IH _ _ H' Hc')|].
      * cbn. lia.
      * cbn. set_solver.
      * destruct (decide (S (nfds s) < MAX_FDS)%nat) as [|Hge]; [by left|right]. right.
        exists (time s), (opened s), d. split; [done|]. split; [done|].
        pose proof (table_size _ _ _ H' Hc') as E. cbn in E. rewrite E. lia.
      * cbn. intros s' (L' & HT & Hn & Hr). exists ([d] ++ L'). rewrite (assoc_L (++)).
        split; [done|]. split; [lia|done].
    + apply lookup_ge_None in Hx. rewrite (t_len _ _ _ H) in Hx. split; [done|]. left. by destruct Hroom; [lia|].
  - exists []. rewrite app_nil_r. destruct (e =? EWOULDBLOCK); (split; [eauto with srv|by split]).
Qed.

Lemma live_fds_app a b : live_fds (a ++ b) = live_fds a ++ live_fds b.
Proof. apply filter_app. Qed.

(** Closing the [i]-th entry removes its descriptor from the live ones. *)
Lemma live_fds_closed i c L :
  L !! i = Some c ->
  live_fds (<[i := -1]> L) = live_fds (take i L) ++ live_fds (drop (S i) L) /\
  live_fds L = live_fds (take i L) ++ live_fds [c] ++ live_fds (drop (S i) L).
Proof.
  intros Hi. split.
  - rewrite insert_take_drop by (by eapply lookup_lt_Some). rewrite live_fds_app. by f_equal.
  - rewrite <- (take_drop_middle L i c Hi) at 1. by rewrite (cons_middle c), !live_fds_app.
Qed.

Lemma closed_nodup A B c :
  NoDup (A ++ live_fds [c] ++ B) -> NoDup (A ++ B) /\ (c <> -1 -> c ∉ A ++ B).
Proof.
  intros (HA & Hd & (_ & Hc & HB)%NoDup_app)%NoDup_app. split.
  - apply NoDup_app. split; [done|]. split; [|done]. intros y Hy Hy2.
    apply (Hd y Hy), elem_of_app. by right.
  - intros Hne [Hin|Hin]%elem_of_app.
    + apply (Hd c Hin), elem_of_app. left. apply live_fds_in. split; [done|]. by left.
    + apply (Hc c); [|done]. apply live_fds_in. split; [done|]. by left.
Qed.

Lemma opened_closed A B c :
  NoDup (A ++ live_fds [c] ++ B) -> -1 ∉ A ++ B ->
  list_to_set (A ++ live_fds [c] ++ B) ∖ {[c]} = (list_to_set (A ++ B) : gset Z).
Proof.
  intros [_ Hc]%closed_nodup Hclean. apply set_eq. intros y.
  rewrite elem_of_difference, elem_of_singleton, !elem_of_list_to_set, !elem_of_app, live_fds_in.
  rewrite list_elem_of_singleton. rewrite !elem_of_app in Hc, Hclean.
  split; [intuition|]. intros Hy. split; [intuition|]. intros ->.
  destruct (decide (c = -1)) as [->|]; [done|]. by apply Hc.
Qed.

(** Marking an entry of the table. *)
Lemma mark_entry i n a :
  (i < n)%nat -> (n <= length a)%nat ->
  fd <$> take n (alter (with_fd (-1)) i a) = <[i := -1]> (fd <$> take n a) /\
  events <$> take n (alter (with_fd (-1)) i a) = events <$> take n a.
Proof.
  intros Hi Hn. split; apply list_eq; intros k; rewrite ?list_lookup_fmap.
  all: destruct (decide (k < n)%nat) as [Hk|Hk].
  - rewrite lookup_take_lt by done. destruct (decide (k = i)) as [->|].
    + rewrite list_lookup_alter_eq, list_lookup_insert_eq by (rewrite length_fmap, length_take; lia).
      destruct (lookup_lt_is_Some_2 a i) as [y ->]; [lia|]. done.
    + rewrite list_lookup_alter_ne, list_lookup_insert_ne by done.
      by rewrite list_lookup_fmap, lookup_take_lt.
  - rewrite lookup_take_ge by lia. symmetry. apply lookup_ge_None_2.
    rewrite length_insert, length_fmap, length_take. lia.
  - rewrite !lookup_take_lt by done. destruct (decide (k = i)) as [->|].
    + rewrite list_lookup_alter_eq. by destruct (a !! i).
    + by rewrite list_lookup_alter_ne.
  - by rewrite !lookup_take_ge by lia.
Qed.

Lemma Forall_events l : Forall (fun x => events x = POLLIN) l <-> Forall (eq POLLIN) (events <$> l).
Proof. rewrite Forall_fmap. apply Forall_iff. intros x. cbn. by split. Qed.

Lemma close_conn_table listen_sd i c s L :
  table listen_sd s L -> (0 < i)%nat -> L !! i = Some c ->
  table listen_sd (close_conn i c s) (<[i := -1]> L).
Proof.
  intros H Hi0 Hi. pose proof (live_fds_closed i c L Hi) as [E1 E2].
  pose proof (table_length _ _ _ H) as HL. pose proof (lookup_lt_Some _ _ _ Hi) as Hlt.
  destruct H as [Hl Hn Hf He Hh Hnd Hp Ho Hco]. rewrite E2 in *.
  destruct (mark_entry i (nfds s) (fds s)) as [M1 M2]; [lia|lia|].
  assert (-1 ∉ live_fds (take i L) ++ live_fds (drop (S i) L)) as Hclean.
  { by intros [[]%live_fds_in|[]%live_fds_in]%elem_of_app. }
  split; cbn [fds nfds close_conn set_compress set_table close set_opened opened compress_array].
  - by rewrite length_alter.
  - done.
  - by rewrite M1, Hf.
  - apply Forall_events. rewrite M2. by apply Forall_events.
  - destruct L as [|l L]; [done|]. destruct i; [lia|]. done.
  - rewrite E1. by eapply closed_nodup.
  - rewrite E1. apply Forall_app in Hp as [Hp1 [_ Hp2]%Forall_app]. by apply Forall_app.
  - rewrite E1, Ho. by apply opened_closed.
  - done.
Qed.

(** ** A round keeps the table *)

Lemma c_string_ok buffer : 0 ∈ buffer -> exists t, c_string buffer = Ok t.
Proof.
  induction buffer as [|b buffer IH]; intros Hin; [by apply elem_of_nil in Hin|]. cbn.
  destruct (Z.eqb_spec b 0) as [|Hne]; [by eexists|].
  apply elem_of_cons in Hin as [Hin|Hin]; [by destruct Hne|].
  destruct (IH Hin) as [t ->]. by eexists.
Qed.

(** A message shorter than the buffer is followed by a NUL. *)
Lemma fill_nul bytes : (length bytes < MAX_BUFF)%nat -> 0 ∈ fill bytes.
Proof.
  intros Hl. unfold fill.
  assert ((bytes ++ replicate (MAX_BUFF - length bytes) 0) !! length bytes = Some 0) as H0.
  { rewrite lookup_app_r, Nat.sub_diag by lia. apply lookup_replicate_2. lia. }
  destruct (decide _) as [Hd|Hd]; [|by eapply list_elem_of_lookup_2].
  destruct (decide (length bytes = 0)%nat) as [E|E].
  - exfalso. destruct bytes; [|done]. cbn in Hd, H0. done.
  - apply (list_elem_of_lookup_2 _ (length bytes)). rewrite list_lookup_insert_ne by lia. done.
Qed.

Lemma fill_full bytes :
  length bytes = MAX_BUFF -> last bytes = Some 10 -> 0 ∈ fill bytes.
Proof.
  intros Hl Hlast. unfold fill. rewrite Hl, Nat.sub_diag. cbn [replicate]. rewrite app_nil_r.
  rewrite last_lookup, Hl in Hlast. rewrite decide_True by exact Hlast.
  apply (list_elem_of_lookup_2 _ (MAX_BUFF - 1)). apply list_lookup_insert_eq. rewrite Hl. unfold MAX_BUFF. lia.
Qed.

Lemma fill_keeps bytes : last bytes <> Some 10 -> 0 ∈ bytes -> 0 ∈ fill bytes.
Proof.
  intros Hlast Hin. unfold fill. destruct bytes as [|b bs]; [by apply elem_of_nil in Hin|].
  rewrite decide_False; [apply elem_of_app; by left|].
  rewrite lookup_app_l by (cbn; lia). by rewrite Nat.sub_1_r, <- last_lookup.
Qed.

(** What is printed ends in the buffer, but for a message that fills it. *)
Lemma fill_cases bytes :
  (exists t, c_string (fill (take MAX_BUFF bytes)) = Ok t) \/
  (MAX_BUFF <= length bytes)%nat /\ (0 ∉ take MAX_BUFF bytes) /\ last (take MAX_BUFF bytes) <> Some 10.
Proof.
  destruct (decide (length bytes < MAX_BUFF)%nat) as [Hl|Hl].
  { left. rewrite take_ge by lia. by apply c_string_ok, fill_nul. }
  assert (length (take MAX_BUFF bytes) = MAX_BUFF) as Ht by (rewrite length_take; lia).
  destruct (decide (last (take MAX_BUFF bytes) = Some 10)) as [E|E].
  { left. by apply c_string_ok, fill_full. }
  destruct (decide (0 ∈ take MAX_BUFF bytes)) as [H0|H0].
  - left. by apply c_string_ok, fill_keeps.
  - right. split; [lia|done].
Qed.

Lemma c_string_full buffer : 0 ∉ buffer -> c_string buffer = Undef OutOfBounds.
Proof.
  induction buffer as [|b buffer IH]; [done|]. intros [Hb H]%not_elem_of_cons. cbn.
  rewrite (proj2 (Z.eqb_neq b 0)) by done. by rewrite IH.
Qed.

Lemma fill_overrun bytes :
  (MAX_BUFF <= length bytes)%nat -> 0 ∉ take MAX_BUFF bytes -> last (take MAX_BUFF bytes) <> Some 10 ->
  c_string (fill (take MAX_BUFF bytes)) = Undef OutOfBounds.
Proof.
  intros Hl H0 Hlast. apply c_string_full. unfold fill.
  assert (length (take MAX_BUFF bytes) = MAX_BUFF) as Ht by (rewrite length_take; lia).
  rewrite Ht, Nat.sub_diag. cbn [replicate]. rewrite app_nil_r. rewrite decide_False; [done|].
  rewrite last_lookup, Ht in Hlast. exact Hlast.
Qed.

Lemma receive_table N listen_sd s0 i c s L :
  table listen_sd s L -> (0 < i)%nat -> L !! i = Some c -> c ∈ fd <$> take (nfds s0) (fds s0) ->
  unless_overrun N s0 (fun s' => exists L', table listen_sd s' L' /\ nfds s' = nfds s /\
    (L' = L \/ L' = <[i := -1]> L)) (receive N i c s).
Proof.
  intros H Hi0 Hi Hc0. unfold receive.
  assert (table listen_sd (printf ("  Descriptor " +:+ fmt_lld c +:+ " is readable") s) L) as H1
    by (by apply table_say).
  set (s1 := printf _ _) in *. change (nfds s) with (nfds s1).
  destruct (n_recv N (time s1) c) as [[|b bs]|e] eqn:Er.
  - eexists. split; [apply close_conn_table; [by apply table_say, table_tick|done..]|]. split; [done|by right].
  - destruct (fill_cases (b :: bs)) as [[t ->]|(F1 & F2 & F3)].
    + cbn [rbind]. destruct (n_send N _ c _).
      * eexists. split; [apply close_conn_table; [by apply table_say, table_tick, table_say, table_tick|done..]|].
        split; [done|by right].
      * eexists. split; [by apply table_sent, table_tick, table_say, table_tick|]. split; [done|by left].
    + rewrite fill_overrun by done. split; [done|]. right. by exists (time s1), c, (b :: bs).
  - destruct (e =? EWOULDBLOCK).
    + exists L. split; [by apply table_tick|]. split; [done|by left].
    + eexists. split; [apply close_conn_table; [by apply table_say, table_tick|done..]|]. split; [done|by right].
Qed.

(** The descriptor of an entry of the table. *)
Lemma table_entry listen_sd s L i x :
  table listen_sd s L -> (i < nfds s)%nat -> fds s !! i = Some x -> L !! i = Some (fd x).
Proof.
  intros H Hi Hx. rewrite <- (t_fds _ _ _ H). by rewrite list_lookup_fmap, lookup_take_lt, Hx.
Qed.

Lemma listen_once listen_sd s L i d :
  table listen_sd s L -> 0 <= listen_sd -> (0 < i)%nat -> L !! i = Some d -> d <> listen_sd.
Proof.
  intros H Hl Hi Hd ->. pose proof (t_nodup _ _ _ H) as Hn. pose proof (t_listen _ _ _ H) as Hh.
  destruct L as [|l L]; [done|]. injection Hh as ->. destruct i as [|i]; [lia|]. cbn in Hd.
  unfold live_fds in Hn. rewrite filter_cons_True in Hn by lia.
  apply NoDup_cons in Hn as [Hn _]. apply Hn. apply live_fds_in. split; [lia|].
  by eapply list_elem_of_lookup_2.
Qed.

Lemma scan_conns N listen_sd s0 idx s L :
  0 <= listen_sd -> table listen_sd s L -> NoDup idx ->
  Forall (fun i => (0 < i < nfds s)%nat /\ exists c, L !! i = Some c /\ c ∈ fd <$> take (nfds s0) (fds s0)) idx ->
  unless_overrun N s0 (fun s' => exists L', table listen_sd s' L' /\ nfds s' = nfds s) (scan N listen_sd idx s).
Proof.
  intros Hls. revert s L. induction idx as [|i idx IH]; intros s L H Hnd Hidx; cbn [scan].
  { by exists L. }
  apply Forall_cons in Hidx as [((Hi0 & Hi) & c & HLi & Hc) Hidx]. apply NoDup_cons in Hnd as [Hni Hnd].
  destruct (lookup_lt_is_Some_2 (fds s) i) as [x Hx].
  { rewrite (t_len _ _ _ H). pose proof (t_lt _ _ _ H). lia. }
  rewrite Hx. destruct (revents x =? 0); [by eapply IH|].
  destruct (negb (revents x =? POLLIN)).
  { exists L. split; [by apply table_end, table_say|done]. }
  pose proof (table_entry _ _ _ _ _ H Hi Hx) as HLx. rewrite HLi in HLx. injection HLx as ->.
  pose proof (listen_once _ _ _ _ _ H Hls Hi0 HLi) as Hne. rewrite (proj2 (Z.eqb_neq _ _) Hne).
  eapply overrun_bind; [by apply (receive_table N listen_sd s0 i (fd x) s L)|].
  intros s' (L' & H' & Hn & HL'). rewrite <- Hn. apply (IH s' L' H' Hnd).
  apply Forall_forall. intros j Hj. pose proof (proj1 (Forall_forall _ _) Hidx j Hj) as ((? & ?) & c & HLj & Hcj).
  split; [lia|]. exists c. split; [|done]. destruct HL' as [->| ->]; [done|].
  rewrite list_lookup_insert_ne; [done|]. by intros ->.
Qed.

Lemma scan_table N listen_sd s L :
  accept_fresh N -> 0 <= listen_sd -> table listen_sd s L -> -1 ∉ L ->
  unless_overrun N s (fun s' => exists L', table listen_sd s' L' /\ ((nfds s' < MAX_FDS)%nat \/ crowded N s))
    (scan N listen_sd (seq 0 (nfds s)) s).
Proof.
  intros HN Hls H Hc. pose proof (table_length _ _ _ H) as HL. pose proof (t_lt _ _ _ H) as Hlt.
  assert ((nfds s < MAX_FDS)%nat \/ crowded N s) as Hroom.
  { destruct (decide (nfds s < MAX_FDS)%nat); [by left|right]. left. rewrite (table_size _ _ _ H Hc). lia. }
  pose proof (t_listen _ _ _ H) as Hh. destruct L as [|l L]; [done|]. injection Hh as ->.
  cbn in HL. destruct (nfds s) as [|n] eqn:En; [done|]. cbn [seq scan].
  assert (forall s' L', table listen_sd s' L' -> (S n <= nfds s')%nat -> (forall i, (i < S n)%nat -> L' !! i = (listen_sd :: L) !! i) ->
    Forall (fun i => (0 < i < nfds s')%nat /\ exists c, L' !! i = Some c /\ c ∈ fd <$> take (nfds s) (fds s)) (seq 1 n)) as Hseq.
  { intros s' L' _ Hn HLL. apply Forall_seq. intros i Hi. split; [lia|]. rewrite HLL by lia.
    destruct (lookup_lt_is_Some_2 (listen_sd :: L) i) as [c Hci]; [cbn; lia|]. exists c. split; [done|].
    rewrite (t_fds _ _ _ H). by eapply list_elem_of_lookup_2. }
  destruct (lookup_lt_is_Some_2 (fds s) 0) as [x Hx].
  { rewrite (t_len _ _ _ H). unfold MAX_FDS. lia. }
  assert (forall s' L', table listen_sd s' L' -> (S n <= nfds s')%nat -> (forall i, (i < S n)%nat -> L' !! i = (listen_sd :: L) !! i) ->
    (nfds s' < MAX_FDS)%nat \/ crowded N s ->
    unless_overrun N s (fun s' => exists L', table listen_sd s' L' /\ ((nfds s' < MAX_FDS)%nat \/ crowded N s))
      (scan N listen_sd (seq 1 n) s')) as Hrest.
  { intros s' L' H' Hn HLL Hr. eapply overrun_mono; [apply (scan_conns N listen_sd s _ s' L'); [done|done|apply NoDup_seq|by apply Hseq]|].
    intros s2 (L2 & H2 & E2). exists L2. rewrite E2. by split. }
  rewrite Hx. destruct (revents x =? 0); [apply (Hrest s (listen_sd :: L)); [done|lia|done|by rewrite En]|].
  destruct (negb (revents x =? POLLIN)).
  { exists (listen_sd :: L). split; [by apply table_end, table_say|]. cbn. by rewrite En. }
  pose proof (table_entry _ _ _ 0 x H ltac:(lia) Hx) as HL0. injection HL0 as <-.
  rewrite Z.eqb_refl. set (s1 := printf _ s). assert (nfds s1 = S n) as En1 by (exact En).
  eapply overrun_bind.
  - apply (accept_all_table N listen_sd s (S MAX_FDS) s1 (listen_sd :: L)); [done|by apply table_say|done|lia|done|by rewrite En1].
  - intros s' (L' & H' & Hn & Hr). apply (Hrest s' ((listen_sd :: L) ++ L')); [done|lia| |done].
    intros i Hi. apply lookup_app_l. cbn. lia.
Qed.

Lemma compress_clean fuel i n a :
  (n - i < fuel)%nat -> (n <= length a)%nat -> -1 ∉ (fd <$> take n a) -> compress fuel i n a = Ok (n, a).
Proof.
  revert i. induction fuel as [|fuel IH]; intros i Hf Hn Hc; [lia|]. cbn [compress].
  destruct (Nat.ltb_spec i n) as [Hlt|]; [|done].
  destruct (lookup_lt_is_Some_2 a i) as [x Hx]; [lia|]. rewrite Hx.
  destruct (Z.eqb_spec (fd x) (-1)) as [E|]; [|apply IH; [lia|done..]]. exfalso. apply Hc.
  apply list_elem_of_fmap. exists x. split; [done|]. apply (list_elem_of_lookup_2 _ i). by rewrite lookup_take_lt.
Qed.

(** A hole in a full table is filled from behind the table. *)
Lemma shift_down_overrun n j a :
  (j < length a)%nat -> (j + n = length a)%nat -> shift_down n j a = Undef OutOfBounds.
Proof.
  revert j a. induction n as [|n IH]; intros j a Hj Hn; [lia|]. cbn [shift_down].
  destruct (a !! S j) as [x|] eqn:Hx; [|done]. apply lookup_lt_Some in Hx. apply IH; rewrite length_alter; lia.
Qed.

Lemma compress_full fuel i n a :
  (n - i < fuel)%nat -> n = length a -> (exists k, (i <= k < n)%nat /\ (fd <$> a) !! k = Some (-1)) ->
  compress fuel i n a = Undef OutOfBounds.
Proof.
  revert i. induction fuel as [|fuel IH]; intros i Hf Hn (k & Hk & Hx); [lia|]. cbn [compress].
  rewrite (proj2 (Nat.ltb_lt _ _)) by lia. destruct (lookup_lt_is_Some_2 a i) as [y Hy]; [lia|]. rewrite Hy.
  destruct (Z.eqb_spec (fd y) (-1)) as [E|Hne].
  - rewrite shift_down_overrun; [done|lia|lia].
  - apply IH; [lia|done|]. exists k. split; [|done].
    destruct (decide (k = i)) as [->|]; [|lia]. rewrite list_lookup_fmap, Hy in Hx. injection Hx as E. done.
Qed.

Lemma squeeze_table N s0 listen_sd s L :
  table listen_sd s L -> 0 <= listen_sd -> (nfds s < MAX_FDS)%nat \/ crowded N s0 ->
  unless_overrun N s0 (fun s' => table listen_sd s' (live_fds L)) (squeeze s).
Proof.
  intros H Hls Hroom. unfold squeeze. destruct (compress_array s) eqn:Ec.
  - destruct (decide (-1 ∈ L)) as [Hin|Hc].
    + destruct (decide (nfds s < MAX_FDS)%nat) as [Hlt|Hge].
      * destruct (compress_spec (S (nfds s)) 0 (nfds s) (fds s)) as (n' & a' & -> & Hl & Hn & He & Hw).
        { lia. } { lia. } { by rewrite (t_len _ _ _ H). }
        cbn [rbind unless_overrun]. destruct H as [Hlen _ Hf Hev Hh Hnd Hp Ho _].
        cbn [drop take app] in Hw. rewrite Hf in Hw.
        assert (live_fds (live_fds L) = live_fds L) as Hll.
        { apply live_fds_clean. by intros [? _]%live_fds_in. }
        split; cbn [fds nfds set_compress set_table opened compress_array]; rewrite ?Hll.
        -- congruence.
        -- lia.
        -- done.
        -- apply Forall_events. rewrite fmap_take, He, <- fmap_take.
           apply Forall_events. replace (take n' (fds s)) with (take n' (take (nfds s) (fds s)))
             by (rewrite take_take; f_equal; lia). by apply Forall_take.
        -- destruct L as [|l L]; [done|]. injection Hh as ->. unfold live_fds.
           by rewrite filter_cons_True by lia.
        -- done.
        -- done.
        -- done.
        -- by intros [? _]%live_fds_in.
      * pose proof (t_lt _ _ _ H). pose proof (t_len _ _ _ H) as Hlen. pose proof (t_fds _ _ _ H) as Hf.
        rewrite take_ge in Hf by lia. apply list_elem_of_lookup_1 in Hin as [k Hk]. pose proof (lookup_lt_Some _ _ _ Hk) as Hkl.
        rewrite (table_length _ _ _ H) in Hkl.
        rewrite compress_full; [|lia|lia|]; [|exists k; split; [lia|by rewrite Hf]].
        split; [done|]. left. by destruct Hroom; [lia|].
    + rewrite compress_clean; [|lia|rewrite (t_len _ _ _ H); exact (t_lt _ _ _ H)|by rewrite (t_fds _ _ _ H)].
      cbn [rbind unless_overrun]. rewrite (live_fds_clean L Hc). destruct H as [Hlen Hlt Hf Hev Hh Hnd Hp Ho Hco].
      split; try done. 
  - cbn [unless_overrun]. rewrite live_fds_clean; [done|].
    intros Hin. pose proof (t_comp _ _ _ H Hin). congruence.
Qed.

Lemma put_revents_fd rs a :
  fd <$> put_revents rs a = fd <$> a /\ events <$> put_revents rs a = events <$> a.
Proof.
  revert a. induction rs as [|r rs IH]; intros a; [done|]. destruct a as [|x a]; [done|].
  destruct (IH a) as [E1 E2]. cbn [put_revents]. by rewrite !fmap_cons, E1, E2.
Qed.

Lemma put_revents_table listen_sd s L rs :
  table listen_sd s L -> table listen_sd (set_table (put_revents rs (fds s)) (nfds s) s) L.
Proof.
  intros [Hl Hn Hf He Hh Hnd Hp Ho Hco]. destruct (put_revents_fd rs (fds s)) as [E1 E2].
  split; cbn [fds nfds set_table opened compress_array]; try done.
  - by rewrite <- (length_fmap fd), E1, length_fmap.
  - by rewrite fmap_take, E1, <- fmap_take.
  - apply Forall_events. rewrite fmap_take, E2, <- fmap_take. by apply Forall_events.
Qed.

(** A round from a clean table leaves a clean table. *)
Lemma round_table N listen_sd s L :
  accept_fresh N -> 0 <= listen_sd -> table listen_sd s L -> -1 ∉ L ->
  unless_overrun N s (fun r => exists L', table listen_sd r.2 L' /\ -1 ∉ L') (round N listen_sd s).
Proof.
  intros HN Hls H Hc. unfold round. set (s1 := printf _ s).
  assert (table listen_sd s1 L) as H1 by (by apply table_say).
  change (nfds s) with (nfds s1). change (fds s) with (fds s1).
  destruct (n_poll N (time s1) (fd <$> take (nfds s1) (fds s1))) as [rs|e].
  - apply table_tick in H1. apply (put_revents_table _ _ _ (take (nfds s1) rs)) in H1.
    change (fds (tick s1)) with (fds s1) in H1. change (nfds (tick s1)) with (nfds s1) in H1.
    set (s2 := set_table _ _ _) in *. destruct (decide (Forall (eq 0) rs)).
    + exists L. by split; [apply table_say|].
    + change (nfds s1) with (nfds s2).
      assert (forall A (Q : A -> Prop) m, unless_overrun N s2 Q m -> unless_overrun N s Q m) as Hs2.
      { intros A Q m. destruct m; [done| |done]. intros (-> & Hor). split; [done|]. destruct Hor as [Hcr|Hfl]; [by left|right].
        destruct Hfl as (t & c & b & Hin & Hr). exists t, c, b. split; [|done].
        rewrite (t_fds _ _ _ H1) in Hin. by rewrite (t_fds _ _ _ H). }
      apply Hs2. eapply overrun_bind; [by apply (scan_table N listen_sd s2 L)|]. intros s3 (L3 & H3 & Hr).
      eapply overrun_bind; [by apply (squeeze_table N s2 listen_sd s3 L3)|]. intros s4 H4.
      exists (live_fds L3). split; [done|]. by intros [? _]%live_fds_in.
  - exists L. by split; [apply table_say, table_tick|].
Qed.

(** The rounds before the one that goes wrong. *)
Lemma serve_table N listen_sd n s L :
  accept_fresh N -> 0 <= listen_sd -> table listen_sd s L -> -1 ∉ L ->
  match serve N listen_sd n s with
  | Ok (_, s') => exists L', table listen_sd s' L' /\ -1 ∉ L'
  | r => r = Undef OutOfBounds /\ exists m s1 L1, (m < n)%nat /\ serve N listen_sd m s = Ok (true, s1) /\
      table listen_sd s1 L1 /\ (-1 ∉ L1) /\ round N listen_sd s1 = Undef OutOfBounds /\ (crowded N s1 \/ flooded N s1)
  end.
Proof.
  intros HN Hls. revert s L. induction n as [|n IH]; intros s L H Hc; cbn [serve].
  { by exists L. }
  pose proof (round_table N listen_sd s L HN Hls H Hc) as Hr.
  destruct (round N listen_sd s) as [[go s']|u|] eqn:Er; cbn [unless_overrun rbind] in *; [|destruct Hr as [-> Hor]|done].
  - destruct Hr as (L' & H' & Hc'). cbn in H'. destruct go; [|by exists L'].
    specialize (IH s' L' H' Hc'). destruct (serve N listen_sd n s') as [[go s2]|u|] eqn:Es; [done| |].
    all: destruct IH as (E & m & s1 & L1 & Hm & Es1 & Hrest); split; [done|];
      exists (S m), s1, L1; split; [lia|]; split; [cbn [serve]; rewrite Er; cbn [rbind]; exact Es1|exact Hrest].
  - split; [done|]. exists 0%nat, s, L. split; [lia|]. done.
Qed.

Lemma start_table listen_sd : 0 <= listen_sd -> table listen_sd (start listen_sd) [listen_sd].
Proof.
  intros Hls. assert (live_fds [listen_sd] = [listen_sd]) as E.
  { unfold live_fds. by rewrite filter_cons_True by lia. }
  split; rewrite ?E; try done.
  - unfold MAX_FDS. cbn. lia.
  - by constructor.
  - apply NoDup_singleton.
  - by constructor.
  - cbn. by rewrite (right_id_L ∅ (∪)).
Qed.

Lemma clean_up_spec idx s ds :
  Forall2 (fun i d => fd <$> fds s !! i = Some d) idx ds -> Forall (fun d => 0 <= d) ds ->
  exists s', clean_up idx s = Ok s' /\ opened s' = opened s ∖ list_to_set ds.
Proof.
  intros H. revert s H. revert ds. induction idx as [|i idx IH]; intros ds s H Hp.
  - apply Forall2_nil_inv_l in H as ->. exists s. split; [done|]. cbn.
    by rewrite difference_empty_L.
  - apply Forall2_cons_inv_l in H as (d & ds' & Hd & H & ->).
    apply Forall_cons in Hp as [Hd0 Hp]. cbn [clean_up].
    apply fmap_Some in Hd as (x & -> & ->). rewrite (proj2 (Z.leb_le _ _)) by lia.
    destruct (IH ds' (close (fd x) s) H Hp) as (s' & -> & E). exists s'. split; [done|].
    rewrite E. cbn. by rewrite difference_difference_l_L.
Qed.

(** What is true of the server between rounds: the descriptors it polls are the open ones of
    the process, each once, and each is asked for input. *)
Definition books (s : srv) : Prop :=
  (nfds s <= MAX_FDS)%nat /\ NoDup (fd <$> take (nfds s) (fds s)) /\
  opened s = list_to_set (fd <$> take (nfds s) (fds s)) /\
  Forall (fun x => events x = POLLIN) (take (nfds s) (fds s)).

Lemma table_books listen_sd s L : table listen_sd s L -> -1 ∉ L -> books s.
Proof.
  intros [_ Hlt Hf He _ Hnd _ Ho _] Hc. rewrite (live_fds_clean L Hc) in *. subst L. done.
Qed.

(** C7. Whatever the clients do and however the calls fail, for every number of rounds: while the
    server runs, the descriptors it polls are the open ones of the process, each once; when it
    ends, by a time-out, an error of its loop or of its start, every descriptor was closed.
    It leaves an array only in a round that starts with its books in order and in which either
    the process gets to 200 descriptors, as many as the table has entries, or a client sends a
    message that fills the buffer with no NUL in it and no newline at its end. *)
Theorem server_keeps_descriptors N n :
  accept_fresh N -> (forall d, n_socket N = inl d -> 0 <= d) ->
  match main N n with
  | Ok (Some _, s) => opened s = ∅
  | Ok (None, s) => books s
  | r => r = Undef OutOfBounds /\
      exists l m s, n_socket N = inl l /\ (m < n)%nat /\ serve N l m (start l) = Ok (true, s) /\ books s /\
        round N l s = Undef OutOfBounds /\ (crowded N s \/ flooded N s)
  end.
Proof.
  intros HN Hsock. unfold main, exit_with. destruct (n_socket N) as [l|e]; [|done].
  specialize (Hsock l eq_refl).
  assert (forall t e, opened (close l (say (Perror t e) (set_opened ({[l]} ∪ ∅) (MkSrv [] 0 false true ∅ 0 [] [])))) = ∅) as Hshut
    by (intros; cbn; set_solver).
  destruct (n_setsockopt N); [apply Hshut|]. destruct (n_ioctl N); [apply Hshut|].
  destruct (n_bind N); [apply Hshut|]. destruct (n_listen N); [apply Hshut|].
  pose proof (serve_table N l n (start l) [l] HN Hsock (start_table l Hsock)) as Hs.
  destruct (serve N l n (start l)) as [[go s]|u|]; cbn [rbind].
  - destruct Hs as (L & H & Hc); [intros Hin%list_elem_of_singleton; lia|].
    destruct go; [by eapply table_books|]. pose proof (live_fds_clean L Hc) as HL.
    destruct (clean_up_spec (seq 0 (nfds s)) s L) as (s' & -> & E).
    + apply Forall2_same_length_lookup_2; [rewrite length_seq; symmetry; by eapply table_length|].
      intros i j d Hi Hd. apply lookup_seq in Hi as [-> Hi]. cbn.
      rewrite <- (t_fds _ _ _ H), list_lookup_fmap, lookup_take_lt in Hd by done. done.
    + rewrite <- HL. exact (t_pos _ _ _ H).
    + cbn [rbind]. rewrite E, (t_open _ _ _ H), HL. apply difference_diag_L.
  - destruct Hs as (E & m & s1 & L1 & Hm & Es & H1 & Hc1 & Hr); [intros Hin%list_elem_of_singleton; lia|].
    split; [congruence|]. exists l, m, s1. split; [done|]. split; [done|]. split; [done|]. split; [by eapply table_books|done].
  - destruct Hs as (E & _); [intros Hin%list_elem_of_singleton; lia|done].
Qed.

(** A client that connects, says "hi" and stays; then nothing for three minutes. *)
Definition hi_net : net := {|
  n_socket := inl 3;
  n_setsockopt := None; n_ioctl := None; n_bind := None; n_listen := None;
  n_poll t ds := if (t =? 0)%nat then inl [POLLIN] else if (t =? 3)%nat then inl [0; POLLIN] else inl [0; 0];
  n_accept t o := if bool_decide (t = 1%nat /\ o = {[3]}) then inl 4 else inr EWOULDBLOCK;
  n_recv t c := inl [104; 105; 10];
  n_send t c bytes := None
|}.

Lemma hi_net_fresh : accept_fresh hi_net.
Proof.
  intros t o d H. cbn in H. case_bool_decide as Ht; [|done]. destruct Ht as [_ ->].
  injection H as <-. split; [lia|]. by rewrite elem_of_singleton.
Qed.

(** After one round the server polls the client too; after three it has ended. *)
Lemma server_keeps_descriptors_witness :
  match main hi_net 1 with Ok (None, s) => books s /\ nfds s = 2%nat | _ => False end /\
  match main hi_net 3 with Ok (Some _, s) => opened s = ∅ | _ => False end.
Proof.
  split.
  - pose proof (server_keeps_descriptors hi_net 1 hi_net_fresh ltac:(by intros d [= <-])) as H. revert H.
    vm_compute (main hi_net 1). cbv iota. intros H. by split.
  - pose proof (server_keeps_descriptors hi_net 3 hi_net_fresh ltac:(by intros d [= <-])) as H. revert H.
    vm_compute (main hi_net 3). cbv iota. done.
Defined.

(** ** What a connection gets *)

(** The message, with a final newline replaced by a NUL. *)
Definition echo (bytes : list Z) : list Z :=
  if decide (last bytes = Some 10) then take (length bytes - 1) bytes ++ [0] else bytes.

Lemma fill_echo bytes :
  bytes <> [] -> (length bytes <= MAX_BUFF)%nat ->
  take (length bytes) (fill bytes) = echo bytes.
Proof.
  intros Hne Hl. unfold fill, echo.
  assert ((bytes ++ replicate (MAX_BUFF - length bytes) 0) !! (length bytes - 1)%nat = last bytes)
    as ->.
  { rewrite lookup_app_l by (destruct bytes; [done|cbn; lia]). rewrite last_lookup.
    f_equal. lia. }
  destruct (decide _) as [Hd|Hd]; [|by rewrite take_app_length].
  assert (0 < length bytes)%nat by (destruct bytes; [done|cbn; lia]).
  rewrite insert_app_l by lia. rewrite take_app_length' by (by rewrite length_insert).
  rewrite insert_take_drop by lia. by rewrite drop_ge by lia.
Qed.

(** What one readable connection gets, on every branch: an end of file and an error
    other than [EWOULDBLOCK] close it and mark its entry; [EWOULDBLOCK] changes nothing; a
    message is sent back to the same client with its final newline replaced by a NUL, and a
    failure to send closes the connection. *)
Theorem receive_cases N i c s :
  (forall b, n_recv N (time s) c = inl b -> (length b < MAX_BUFF)%nat) ->
  exists s', receive N i c s = Ok s' /\
    let closed := opened s' = opened s ∖ {[c]} /\ fds s' = alter (with_fd (-1)) i (fds s) /\
                  compress_array s' = true /\ sent s' = sent s in
    let kept := opened s' = opened s /\ fds s' = fds s /\ compress_array s' = compress_array s in
    match n_recv N (time s) c with
    | inl [] => closed
    | inl bytes =>
        match n_send N (S (time s)) c (echo bytes) with
        | None => kept /\ sent s' = sent s ++ [(c, echo bytes)]
        | Some _ => closed
        end
    | inr e => if e =? EWOULDBLOCK then kept /\ sent s' = sent s else closed
    end.
Proof.
  intros Hr. unfold receive. cbn [time printf say tick].
  destruct (n_recv N (time s) c) as [[|b bs]|e].
  - eexists. split; [done|]. by repeat split.
  - specialize (Hr _ eq_refl). rewrite (take_ge (b :: bs)) by lia.
    destruct (c_string_ok (fill (b :: bs)) (fill_nul _ Hr)) as [t ->]. cbn [rbind].
    rewrite fill_echo by (done || lia). cbn [time printf say tick].
    destruct (n_send N (S (time s)) c (echo (b :: bs))).
    + eexists. split; [done|]. by repeat split.
    + eexists. split; [done|]. by repeat split.
  - destruct (e =? EWOULDBLOCK); (eexists; split; [done|]; by repeat split).
Qed.

Lemma receive_cases_witness :
  exists s', receive hi_net 1 4 (start 3) = Ok s' /\
    (opened s' = opened (start 3) /\ fds s' = fds (start 3) /\ compress_array s' = true) /\
    sent s' = [(4, [104; 105; 0])].
Proof.
  apply (receive_cases hi_net 1 4 (start 3)). intros b [= <-]. unfold MAX_BUFF. cbn. lia.
Defined.

(** A message that fills the buffer, without a NUL and without a final newline, is
    printed with [%s] from a buffer that has no terminator: it is read past its end. *)
Theorem full_buffer_overrun N i c s bytes :
  n_recv N (time s) c = inl bytes -> (length bytes = MAX_BUFF)%nat -> 0 ∉ bytes ->
  last bytes <> Some 10 ->
  receive N i c s = Undef OutOfBounds.
Proof.
  intros Hr Hl H0 Hlast. unfold receive. cbn [time printf say]. rewrite Hr.
  destruct bytes as [|b bs]; [done|]. rewrite take_ge by lia.
  replace (fill (b :: bs)) with (b :: bs); [by rewrite c_string_full|].
  unfold fill. rewrite Hl, Nat.sub_diag. cbn [replicate]. rewrite app_nil_r.
  rewrite decide_False; [done|]. rewrite <- Hl. rewrite last_lookup in Hlast.
  by rewrite Nat.sub_1_r.
Qed.

Definition flood : net := {|
  n_socket := inl 3;
  n_setsockopt := None; n_ioctl := None; n_bind := None; n_listen := None;
  n_poll t ds := inl [POLLIN];
  n_accept t o := inl (Z.of_nat t + 4);
  n_recv t c := inl (repeat 65 MAX_BUFF);
  n_send t c bytes := None
|}.

Lemma full_buffer_overrun_witness : receive flood 1 4 (start 3) = Undef OutOfBounds.
Proof.
  apply (full_buffer_overrun flood 1 4 (start 3) (repeat 65 MAX_BUFF)); [done|by vm_compute| |].
  - change (repeat 65 MAX_BUFF) with (replicate MAX_BUFF 65). by intros [? _]%elem_of_replicate.
  - vm_compute. discriminate.
Defined.

Lemma accept_all_overflow N fuel s :
  (forall t o, exists d, n_accept N t o = inl d) -> length (fds s) = MAX_FDS ->
  (nfds s <= MAX_FDS)%nat -> (MAX_FDS < fuel + nfds s)%nat ->
  accept_all N fuel s = Undef OutOfBounds.
Proof.
  intros HN. revert s. induction fuel as [|fuel IH]; intros s Hl Hn Hf; [lia|].
  cbn [accept_all]. destruct (HN (time s) (opened s)) as [d ->].
  cbn [fds nfds printf say set_opened tick].
  destruct (fds s !! nfds s) as [x|] eqn:Hx; [|done]. apply lookup_lt_Some in Hx.
  apply IH; cbn; [by rewrite length_insert|lia|lia].
Qed.

(** The table of connections has no bound check: when clients connect faster than
    [accept] runs out of them, the loop around [accept] writes past the end of the table. *)
Theorem connections_overflow N n l :
  n_socket N = inl l -> n_setsockopt N = None -> n_ioctl N = None -> n_bind N = None ->
  n_listen N = None -> n_poll N 0 [l] = inl [POLLIN] ->
  (forall t o, exists d, n_accept N t o = inl d) ->
  main N (S n) = Undef OutOfBounds.
Proof.
  intros E1 E2 E3 E4 E5 Hp HN. unfold main. rewrite E1, E2, E3, E4, E5. cbn [serve].
  unfold round. set (s1 := printf _ (start l)).
  change (fd <$> take (nfds s1) (fds s1)) with [l]. change (time s1) with 0%nat.
  rewrite Hp. rewrite decide_False by (by intros [? _]%Forall_cons).
  set (s2 := set_table _ _ _). change (seq 0 (nfds s2)) with [0%nat]. cbn [scan].
  change (fds s2 !! 0%nat) with (Some (MkPollfd l POLLIN POLLIN)). cbn [revents fd].
  change (POLLIN =? 0) with false. change (negb (POLLIN =? POLLIN)) with false.
  rewrite Z.eqb_refl, accept_all_overflow; [done|done|done| |]; unfold MAX_FDS; cbn; lia.
Qed.

Lemma connections_overflow_witness : main flood 1 = Undef OutOfBounds.
Proof. apply (connections_overflow flood 0 3); try done. intros t o. by eexists. Defined.
