(* ===== verification/Steps.v ===== *)
(** * Systems of steps

    The concurrent programs of week 4 are systems: a state, and a partial function that
    makes the step an actor is able to make.  A schedule is a list of actors.  This file
    holds what they share: runs of a schedule, reachable states and their invariants, the
    bound that a measure puts on the length of a run, and sums over the threads. *)

From S2P Require Import Prelude.
Local Open Scope Z_scope.

Section Steps.
Context {St A : Type} (act : A -> St -> option St).

(** A schedule runs when every step of it can be made. *)
Fixpoint exec (sched : list A) (s : St) : option St :=
  match sched with
  | [] => Some s
  | a :: sched => match act a s with
                  | None => None
                  | Some s => exec sched s
                  end
  end.

Definition reach (init s : St) : Prop := exists sched, exec sched init = Some s.

(** The step relation behind the function. *)
Definition step (s s' : St) : Prop := exists a, act a s = Some s'.

Lemma exec_app a b s :
  exec (a ++ b) s = match exec a s with None => None | Some s => exec b s end.
Proof.
  revert s. induction a as [|x a IH]; intros s; [done|]. cbn. destruct (act x s); [apply IH|done].
Qed.

Lemma exec_rtc s s' : (exists sched, exec sched s = Some s') <-> rtc step s s'.
Proof.
  split.
  - intros [sched E]. revert s E. induction sched as [|a sched IH]; intros s E; cbn in E; [by simplify_eq|].
    destruct (act a s) as [s1|] eqn:Ea; [|done]. eapply rtc_l; [by exists a|by apply IH].
  - induction 1 as [s|s s1 s' [a Ha] _ [sched E]]; [by exists []|].
    exists (a :: sched). cbn. by rewrite Ha.
Qed.

(** Every run from the initial state keeps an invariant of the steps. *)
Lemma reach_inv (P : St -> Prop) init :
  P init -> (forall a s s', P s -> act a s = Some s' -> P s') ->
  forall s, reach init s -> P s.
Proof.
  intros H0 Hs s H. apply exec_rtc in H. revert H0.
  induction H as [s|s s1 s' [a Ha] _ IH]; [done|]. intros H0. by eapply IH, Hs.
Qed.

(** A measure that every step from a good state lowers bounds the length of the runs. *)
Lemma exec_measure (P : St -> Prop) (measure : St -> Z) :
  (forall a s s', P s -> act a s = Some s' -> P s' /\ measure s' < measure s) ->
  forall sched s s', P s -> exec sched s = Some s' ->
    Z.of_nat (length sched) + measure s' <= measure s.
Proof.
  intros Hs sched. induction sched as [|a sched IH]; intros s s' H E; cbn in E; [simplify_eq; cbn; lia|].
  destruct (act a s) as [s1|] eqn:Ea; [|done]. destruct (Hs _ _ _ H Ea) as [H1 Hlt].
  specialize (IH _ _ H1 E). cbn [length]. lia.
Qed.

(** The same where some steps may raise the measure, by an amount that they bring along. *)
Lemma exec_budget (P : St -> Prop) (measure : St -> Z) (extra : A -> Z) :
  (forall a s s', P s -> act a s = Some s' -> P s' /\ measure s' < measure s + extra a) ->
  forall sched s s', P s -> exec sched s = Some s' ->
    P s' /\ Z.of_nat (length sched) + measure s' <= measure s + foldr (fun a n => extra a + n) 0 sched.
Proof.
  intros Hs sched. induction sched as [|a sched IH]; intros s s' H E; cbn in E; [simplify_eq; cbn; split; [done|lia]|].
  destruct (act a s) as [s1|] eqn:Ea; [|done]. destruct (Hs _ _ _ H Ea) as [H1 Hlt].
  destruct (IH _ _ H1 E) as [Hp Hl]. split; [done|]. cbn [length foldr]. lia.
Qed.
End Steps.

(** ** Sums over the threads *)

Definition sum_by {A} (f : A -> Z) (l : list A) : Z := foldr (fun x n => f x + n) 0 l.
#[global] Arguments sum_by : simpl never.

Lemma sum_by_cons {A} (f : A -> Z) x l : sum_by f (x :: l) = f x + sum_by f l.
Proof. done. Qed.

Lemma sum_by_app {A} (f : A -> Z) a b : sum_by f (a ++ b) = sum_by f a + sum_by f b.
Proof. induction a as [|x a IH]; [done|]. cbn [app]. rewrite !sum_by_cons. lia. Qed.

Lemma sum_by_one {A} (f : A -> Z) x : sum_by f [x] = f x.
Proof. apply Z.add_0_r. Qed.

Lemma sum_by_insert {A} (f : A -> Z) l i x y :
  l !! i = Some x -> sum_by f (<[i := y]> l) = sum_by f l - f x + f y.
Proof.
  intros Hi. rewrite insert_take_drop by (by eapply lookup_lt_Some).
  assert (sum_by f l = sum_by f (take i l) + (f x + sum_by f (drop (S i) l))) as ->.
  { rewrite <- (take_drop_middle l i x Hi) at 1. by rewrite sum_by_app. }
  rewrite sum_by_app, sum_by_cons. lia.
Qed.

Lemma sum_by_bound {A} (f : A -> Z) (lo hi : Z) l :
  (forall x, x ∈ l -> lo <= f x <= hi) ->
  lo * Z.of_nat (length l) <= sum_by f l <= hi * Z.of_nat (length l).
Proof.
  induction l as [|x l IH]; intros H; [unfold sum_by; cbn; lia|]. rewrite sum_by_cons. cbn [length].
  pose proof (H x ltac:(left)). specialize (IH ltac:(intros y Hy; apply H; by right)). lia.
Qed.

Lemma sum_by_nonneg {A} (f : A -> Z) l : (forall y, y ∈ l -> 0 <= f y) -> 0 <= sum_by f l.
Proof. induction l as [|z l IH]; intros H; [done|]. rewrite sum_by_cons. pose proof (H z ltac:(left)). specialize (IH ltac:(intros y Hy; apply H; by right)). lia. Qed.

Lemma sum_by_ge_elem {A} (f : A -> Z) l i x : (forall y, y ∈ l -> 0 <= f y) -> l !! i = Some x -> f x <= sum_by f l.
Proof.
  intros Hf Hi. rewrite <- (take_drop_middle l i x Hi), sum_by_app, sum_by_cons.
  assert (0 <= sum_by f (take i l)) by (apply sum_by_nonneg; intros y Hy; apply Hf; by apply elem_of_take in Hy as (j & Hj & _); eapply list_elem_of_lookup_2).
  assert (0 <= sum_by f (drop (S i) l)); [|lia].
  apply sum_by_nonneg. intros y Hy. apply Hf. apply list_elem_of_lookup in Hy as [j Hj]. rewrite lookup_drop in Hj. by eapply list_elem_of_lookup_2.
Qed.

Lemma sum_by_ge {A} (f : A -> Z) l i x : (forall y, 0 <= f y) -> l !! i = Some x -> f x <= sum_by f l.
Proof. intros Hf. by apply sum_by_ge_elem. Qed.

Lemma sum_by_two {A} (f : A -> Z) l i j x y : (forall z, 0 <= f z) -> i <> j -> l !! i = Some x -> l !! j = Some y ->
  f x + f y <= sum_by f l.
Proof.
  intros Hf. revert i j. induction l as [|z l IH]; intros [|i] [|j] Hij Ei Ej; try done; cbn in Ei, Ej; rewrite sum_by_cons.
  - simplify_eq. pose proof (sum_by_ge f l j y Hf Ej). lia.
  - simplify_eq. pose proof (sum_by_ge f l i x Hf Ei). lia.
  - assert (i <> j) as Hij' by congruence. specialize (IH i j Hij' Ei Ej). specialize (Hf z). lia.
Qed.

Lemma sum_by_fmap {A B} (f : B -> Z) (g : A -> B) l : sum_by f (g <$> l) = sum_by (fun x => f (g x)) l.
Proof. induction l as [|x l IH]; [done|]. rewrite fmap_cons, !sum_by_cons. by rewrite IH. Qed.

Lemma sum_by_ext {A} (f g : A -> Z) l : (forall x, x ∈ l -> f x = g x) -> sum_by f l = sum_by g l.
Proof. induction l as [|x l IH]; intros H; [done|]. rewrite !sum_by_cons, (H x), IH; [done| |left]. intros y Hy. apply H. by right. Qed.

Lemma sum_by_zero {A} (f : A -> Z) l : (forall x, x ∈ l -> f x = 0) -> sum_by f l = 0.
Proof. induction l as [|x l IH]; intros H; [done|]. rewrite sum_by_cons, (H x), IH; [done| |left]. intros y Hy. apply H. by right. Qed.

Lemma sum_by_pos {A} (f : A -> Z) l : 0 < sum_by f l -> exists i x, l !! i = Some x /\ 0 < f x.
Proof.
  induction l as [|x l IH]; intros H; [done|]. rewrite sum_by_cons in H. destruct (decide (0 < f x)) as [|Hx]; [by exists 0%nat, x|].
  destruct IH as (i & y & Hi & Hy); [lia|]. by exists (S i), y.
Qed.
