(* ===== verification/Counter.v ===== *)
(** * week4/02_sync: three threads and a counter

    ex1.c (no synchronisation), ex1a.c (atomic increment), ex1mut.c (mutex) and ex1s.c
    (spin lock): the four programs differ in how a thread increments, which is the
    parameter [kind].  A step is one access to shared memory, one operation of a lock or
    one step of [main]; a schedule chooses who moves.  A failed attempt to take a lock
    changes nothing and is no step, so the mutex and the spin lock are the same machine.
    The time stamps that [main] takes and prints are left out. *)

From S2P Require Import Prelude Steps.
Local Open Scope Z_scope.

(** [N], and the bound of the loop of [thread_func]. *)
Definition N : nat := 3.
Definition iterations : Z := 1000000.

Inductive kind := Plain | Atomic | Locked.

#[export] Instance kind_eq_dec : EqDecision kind.
Proof. solve_decision. Defined.

(** Where a thread stands; [i] iterations were completed.  [Read i v]: [counter] was read
    as [v] and the sum is not stored yet. *)
Inductive tpc :=
| Top (i : Z)
| Held (i : Z)
| Read (i v : Z)
| Written (i : Z)
| Finished.

#[export] Instance tpc_eq_dec : EqDecision tpc.
Proof. solve_decision. Defined.

Inductive mpc :=
| Creating
| Joining (j : nat)
| Exited (status : Z).

Record st := MkSt {
  counter : Z;
  lock : option nat;
  threads : list tpc;
  main_at : mpc;
  shown : option Z
}.

Definition init : st := MkSt 0 None [] Creating None.

(** [counter + 1] of an [int]; the bound of the invariants excludes the wrap-around. *)
Definition incr (v : Z) : Z := s32 (v + 1).

(** [thread_func]; [None] when the thread has to wait, or has returned. *)
Definition thread_func (k : kind) (me : nat) (c : Z) (l : option nat) (pc : tpc)
  : option (Z * option nat * tpc) :=
  match pc with
  | Top i =>
      if i <? iterations then
        match k with
        | Plain => Some (c, l, Read i c)
        | Atomic => Some (incr c, l, Top (i + 1))
        | Locked => match l with
                    | None => Some (c, Some me, Held i)
                    | Some _ => None
                    end
        end
      else Some (c, l, Finished)
  | Held i => Some (c, l, Read i c)
  | Read i v =>
      match k with
      | Locked => Some (incr v, l, Written i)
      | _ => Some (incr v, l, Top (i + 1))
      end
  | Written i => Some (c, None, Top (i + 1))
  | Finished => None
  end.

(** Who moves: a thread, [main], or a [pthread_create] that fails. *)
Inductive actor := T (t : nat) | M | CreateFails.

Definition set_main (m : mpc) (s : st) : st :=
  MkSt (counter s) (lock s) (threads s) m (shown s).

Definition main_step (s : st) : option st :=
  match main_at s with
  | Creating =>
      if (length (threads s) <? N)%nat
      then Some (MkSt (counter s) (lock s) (threads s ++ [Top 0]) Creating (shown s))
      else Some (set_main (Joining 0) s)
  | Joining j =>
      if (j <? N)%nat then
        match threads s !! j with
        | Some Finished => Some (set_main (Joining (S j)) s)
        | _ => None
        end
      else Some (MkSt (counter s) (lock s) (threads s) (Exited 0) (Some (counter s)))
  | Exited _ => None
  end.

Definition act (k : kind) (a : actor) (s : st) : option st :=
  match main_at s, a with
  | Exited _, _ => None
  | _, T t =>
      match threads s !! t with
      | None => None
      | Some pc =>
          match thread_func k t (counter s) (lock s) pc with
          | None => None
          | Some (c, l, pc') => Some (MkSt c l (<[t := pc']> (threads s)) (main_at s) (shown s))
          end
      end
  | _, M => main_step s
  | Creating, CreateFails =>
      if (length (threads s) <? N)%nat then Some (set_main (Exited 1) s) else None
  | _, CreateFails => None
  end.

Definition run (k : kind) : list actor -> st -> option st := exec (act k).

Lemma run_app k a b s :
  run k (a ++ b) s = match run k a s with None => None | Some s => run k b s end.
Proof. apply exec_app. Qed.

Definition reachable (k : kind) (s : st) : Prop := reach (act k) init s.

(** ** Bookkeeping *)

Definition in_cs (pc : tpc) : bool :=
  match pc with Held _ | Read _ _ | Written _ => true | _ => false end.

(** The increments a thread has stored. *)
Definition work (pc : tpc) : Z :=
  match pc with
  | Top i | Held i | Read i _ => i
  | Written i => i + 1
  | Finished => iterations
  end.

Definition pc_range (pc : tpc) : Prop :=
  match pc with
  | Top i => 0 <= i <= iterations
  | Held i | Read i _ | Written i => 0 <= i < iterations
  | Finished => True
  end.

Abbreviation total := (sum_by work).

Lemma total_range ts :
  Forall pc_range ts -> 0 <= total ts <= iterations * Z.of_nat (length ts).
Proof.
  induction 1 as [|pc ts Hpc _ IH]; [done|]. rewrite sum_by_cons. cbn [length].
  rewrite Nat2Z.inj_succ. unfold iterations in *. destruct pc; cbn in *; unfold iterations in *; lia.
Qed.

Lemma total_finished ts :
  Forall (eq Finished) ts -> total ts = iterations * Z.of_nat (length ts).
Proof.
  induction 1 as [|pc ts <- _ IH]; [done|]. rewrite sum_by_cons. cbn [length].
  rewrite IH, Nat2Z.inj_succ. cbn. lia.
Qed.

(** What holds of every kind: the loops are in range, and [main] is where its joins
    say. *)
Record shape (s : st) : Prop := MkShape {
  sh_range : Forall pc_range (threads s);
  sh_count : (length (threads s) <= N)%nat;
  sh_main : match main_at s with
            | Creating => shown s = None
            | Joining j => length (threads s) = N /\ (j <= N)%nat /\ shown s = None /\
                Forall (eq Finished) (take j (threads s))
            | Exited status =>
                (status = 1 /\ shown s = None) \/
                (status = 0 /\ shown s = Some (counter s) /\ length (threads s) = N /\
                 Forall (eq Finished) (threads s))
            end
}.

Lemma thread_func_range k me c l pc c' l' pc' :
  thread_func k me c l pc = Some (c', l', pc') -> pc_range pc -> pc_range pc'.
Proof.
  intros H Hr. destruct pc as [i|i|i v|i|]; cbn in H, Hr.
  - destruct (Z.ltb_spec i iterations); [|by simplify_eq].
    destruct k; [| |destruct l]; simplify_eq; cbn; lia.
  - by simplify_eq.
  - destruct k; simplify_eq; cbn; lia.
  - simplify_eq. cbn. lia.
  - done.
Qed.

(** A thread that has returned stays where it is, so the joins stay true. *)
Lemma finished_insert k me c l ts t pc r j :
  ts !! t = Some pc -> thread_func k me c l pc = Some r ->
  forall pc', Forall (eq Finished) (take j ts) -> Forall (eq Finished) (take j (<[t := pc']> ts)).
Proof.
  intros Ht Hf pc' H. destruct (decide (t < j)%nat) as [Hlt|Hge].
  - rewrite Forall_lookup in H. specialize (H t pc). rewrite lookup_take_lt in H by done.
    specialize (H Ht). subst pc. done.
  - by rewrite take_insert_ge by lia.
Qed.

Lemma shape_step k a s s' : shape s -> act k a s = Some s' -> shape s'.
Proof.
  intros [Hr Hc Hm] H. unfold act in H. destruct a as [t| |].
  - assert (exists pc c l pc', threads s !! t = Some pc /\
      thread_func k t (counter s) (lock s) pc = Some (c, l, pc') /\
      s' = MkSt c l (<[t := pc']> (threads s)) (main_at s) (shown s) /\
      (forall z, main_at s <> Exited z)) as (pc & c & l & pc' & Ht & Hf & -> & Hne).
    { destruct (main_at s); [| |done]; destruct (threads s !! t) as [pc|]; [|done| |done];
        (destruct (thread_func k t (counter s) (lock s) pc) as [[[c l] pc']|] eqn:Hf; [|done]);
        simplify_eq; by do 4 eexists. }
    split; cbn.
    + apply Forall_insert; [done|]. eapply thread_func_range; [done|].
      rewrite Forall_lookup in Hr. by eapply Hr.
    + by rewrite length_insert.
    + destruct (main_at s) as [|j|z]; [done| |by destruct (Hne z)].
      destruct Hm as (H1 & H2 & H3 & H4). rewrite length_insert. repeat split; [done..|].
      by eapply finished_insert.
  - unfold main_step in H. destruct (main_at s) as [|j|z] eqn:Em; [| |done].
    + destruct (Nat.ltb_spec (length (threads s)) N) as [Hlt|Hge]; simplify_eq; split; cbn.
      * apply Forall_app. split; [done|]. constructor; [|done]. cbn. unfold iterations. lia.
      * rewrite length_app. cbn. lia.
      * done.
      * done.
      * done.
      * repeat split; [lia|lia|done|]. constructor.
    + destruct Hm as (H1 & H2 & H3 & H4). destruct (Nat.ltb_spec j N) as [Hlt|Hge].
      * destruct (threads s !! j) as [[]|] eqn:Ej; simplify_eq. split; cbn; [done..|].
        repeat split; [done|lia|done|]. rewrite (take_S_r _ _ _ Ej). apply Forall_app. split; [done|].
        by constructor.
      * simplify_eq. split; cbn; [done..|]. right. repeat split; [done|].
        by rewrite take_ge in H4 by lia.
  - destruct (main_at s) as [|j|z] eqn:Em; [|done|done].
    destruct (Nat.ltb_spec (length (threads s)) N); [|done]. simplify_eq.
    split; cbn; [done..|]. by left.
Qed.

Lemma shape_reachable k s : reachable k s -> shape s.
Proof.
  apply reach_inv; [|apply shape_step]. split; cbn; [constructor|lia|done].
Qed.

(** ** The synchronised counters *)

(** The counter is the number of increments stored; who is between its lock and its unlock
    holds the lock, and read the counter as it still is. *)
Record synced (k : kind) (s : st) : Prop := MkSynced {
  sy_count : counter s = total (threads s);
  sy_lock t pc : threads s !! t = Some pc -> in_cs pc = true -> k = Locked /\ lock s = Some t;
  sy_read t i v : threads s !! t = Some (Read i v) -> v = counter s
}.

Lemma incr_small ts t pc :
  Forall pc_range ts -> (length ts <= N)%nat -> ts !! t = Some pc ->
  pc_range pc -> work pc < iterations -> incr (total ts) = total ts + 1.
Proof.
  intros Hr Hl Ht Hp Hw. unfold incr. apply s32_small.
  assert (Forall pc_range (<[t := Finished]> ts)) as Hr' by (by apply Forall_insert).
  apply total_range in Hr, Hr'. rewrite length_insert in Hr'.
  rewrite (sum_by_insert _ _ _ _ _ Ht) in Hr'. cbn in Hr'.
  unfold INT_MIN, INT_MAX, iterations, N in *. lia.
Qed.

(** Two threads between lock and unlock are the same. *)
Lemma synced_same k s t t' pc pc' :
  synced k s -> threads s !! t = Some pc -> threads s !! t' = Some pc' ->
  in_cs pc = true -> in_cs pc' = true -> t = t'.
Proof.
  intros H Ht Ht' Hc Hc'. destruct (sy_lock _ _ H _ _ Ht Hc) as [_ E].
  destruct (sy_lock _ _ H _ _ Ht' Hc') as [_ E']. congruence.
Qed.

(** A thread's step keeps the invariant when it does what its place says. *)
Lemma synced_update k s t pc c l pc' :
  synced k s -> threads s !! t = Some pc ->
  c = counter s - work pc + work pc' ->
  (in_cs pc' = true -> k = Locked /\ l = Some t) ->
  (forall i v, pc' = Read i v -> v = c) ->
  (forall t' q, t' <> t -> threads s !! t' = Some q -> in_cs q = true -> l = lock s /\ c = counter s) ->
  synced k (MkSt c l (<[t := pc']> (threads s)) (main_at s) (shown s)).
Proof.
  intros [Hc Hl Hr] Ht E Hcs Hread Hother. split; cbn.
  - rewrite (sum_by_insert _ _ _ _ _ Ht). by rewrite <- Hc.
  - intros t' q. destruct (decide (t' = t)) as [->|Hne].
    + rewrite list_lookup_insert_eq by (by eapply lookup_lt_Some). intros [= <-]. done.
    + rewrite list_lookup_insert_ne by done. intros Hq Hin.
      destruct (Hother t' q Hne Hq Hin) as [-> _]. by eapply Hl.
  - intros t' i v. destruct (decide (t' = t)) as [->|Hne].
    + rewrite list_lookup_insert_eq by (by eapply lookup_lt_Some). intros [= ->]. by eapply Hread.
    + rewrite list_lookup_insert_ne by done. intros Hq.
      destruct (Hother t' _ Hne Hq eq_refl) as [_ ->]. by eapply Hr.
Qed.

(** Nobody is between lock and unlock when the lock is free, or when it is [t]'s. *)
Lemma synced_nobody k s t pc t' q :
  synced k s -> threads s !! t = Some pc -> in_cs pc = true \/ lock s = None \/ k <> Locked ->
  t' <> t -> threads s !! t' = Some q -> in_cs q = true -> False.
Proof.
  intros H Ht Hc Hne Hq Hin. destruct (sy_lock _ _ H _ _ Hq Hin) as [Hk Hl].
  destruct Hc as [Hc|[Hc|Hc]]; [|congruence|done].
  destruct (sy_lock _ _ H _ _ Ht Hc) as [_ Hl']. congruence.
Qed.

Lemma synced_thread k s t pc c l pc' :
  k <> Plain -> shape s -> synced k s -> threads s !! t = Some pc ->
  thread_func k t (counter s) (lock s) pc = Some (c, l, pc') ->
  synced k (MkSt c l (<[t := pc']> (threads s)) (main_at s) (shown s)).
Proof.
  intros Hk [Hr Hl _] H Ht Hf. pose proof (proj1 (Forall_lookup _ _) Hr _ _ Ht) as Hpc.
  pose proof (incr_small _ _ _ Hr Hl Ht Hpc) as Hincr. rewrite <- (sy_count _ _ H) in Hincr.
  destruct pc as [i|i|i v|i|]; cbn in Hf, Hpc, Hincr.
  - destruct (Z.ltb_spec i iterations) as [Hi|Hi].
    + destruct k; [done| |].
      * simplify_eq. rewrite Hincr by done. eapply synced_update; [done..|cbn; lia|done|done|].
        intros t' q Hne Hq Hin. exfalso. eapply synced_nobody; [done|exact Ht|..]; eauto.
      * destruct (lock s) as [|] eqn:El; [done|]. simplify_eq.
        eapply synced_update; [done..|cbn; lia|done|done|].
        intros t' q Hne Hq Hin. exfalso. eapply synced_nobody; [done|exact Ht|..]; eauto.
    + simplify_eq. eapply synced_update; [done..|cbn; lia|done|done|done].
  - simplify_eq. destruct (sy_lock _ _ H _ _ Ht eq_refl).
    eapply synced_update; [done..|cbn; lia|done| |done]. by intros ? ? [= -> ->].
  - destruct (sy_lock _ _ H _ _ Ht eq_refl) as [-> El]. simplify_eq.
    rewrite (sy_read _ _ H _ _ _ Ht), Hincr by lia.
    eapply synced_update; [done..|cbn; lia|done|done|].
    intros t' q Hne Hq Hin. exfalso. eapply synced_nobody; [done|exact Ht|..]; eauto.
  - simplify_eq. eapply synced_update; [done..|cbn; lia|done|done|].
    intros t' q Hne Hq Hin. exfalso. eapply synced_nobody; [done|exact Ht|..]; eauto.
  - done.
Qed.

Lemma synced_reachable k s : k <> Plain -> reachable k s -> synced k s.
Proof.
  intros Hk Hs. cut (shape s /\ synced k s); [by intros []|]. revert s Hs. apply reach_inv.
  - split; [split; cbn; [constructor|lia|done]|]. by split; cbn; intros; rewrite ?lookup_nil in *.
  - intros a s s' [Hsh Hsy] Ha. split; [by eapply shape_step|]. unfold act in Ha.
    destruct a as [t| |].
    + destruct (main_at s) eqn:Em; [| |done]; rewrite <- Em in *;
        (destruct (threads s !! t) as [pc|] eqn:Ht; [|done]);
        (destruct (thread_func k t (counter s) (lock s) pc) as [[[c l] pc']|] eqn:Hf; [|done]);
        simplify_eq; by eapply synced_thread.
    + destruct (main_at s) eqn:Em; [| |done]; unfold main_step in Ha; rewrite Em in Ha.
      * destruct (length (threads s) <? N)%nat; simplify_eq; destruct Hsy as [H1 H2 H3];
          split; cbn; [|  |  |done..].
        -- rewrite sum_by_app, sum_by_one, H1. cbn. lia.
        -- intros t pc [Hp|[_ Hp]]%lookup_app_Some Hin; [by eapply H2|].
           apply list_lookup_singleton_Some in Hp as [_ <-]. done.
        -- intros t i v [Hp|[_ Hp]]%lookup_app_Some; [by eapply H3|].
           by apply list_lookup_singleton_Some in Hp as [_ ?].
      * destruct (j <? N)%nat; [destruct (threads s !! j) as [[]|]|]; simplify_eq;
          destruct Hsy; by split.
    + destruct (main_at s); [|done|done]. destruct (length (threads s) <? N)%nat; [|done].
      simplify_eq. destruct Hsy. by split.
Qed.

(** C8. With the atomic increment, the mutex or the spin lock no update is lost: at every
    moment the counter is the number of increments stored, and the number that [main]
    prints is 3000000, under every schedule. *)
Theorem counter_exact k s :
  k <> Plain -> reachable k s ->
  counter s = total (threads s) /\ (forall n, shown s = Some n -> n = 3000000).
Proof.
  intros Hk Hs. pose proof (synced_reachable k s Hk Hs) as H.
  split; [by apply sy_count with k|]. intros n Hn. pose proof (shape_reachable k s Hs) as [_ _ Hm].
  destruct (main_at s) as [|j|z]; [congruence|destruct Hm as (_ & _ & ? & _); congruence|].
  destruct Hm as [[_ ?]|(_ & E & Hl & Hf)]; [congruence|].
  rewrite E in Hn. injection Hn as <-. rewrite (sy_count _ _ H), (total_finished _ Hf), Hl. done.
Qed.

(** Two increments of two threads under the mutex. *)
Definition two_increments : list actor :=
  [M; M; M; T 0; T 0; T 0; T 0; T 1; T 1; T 1]%nat.

Lemma counter_exact_witness :
  let s := MkSt 2 (Some 1%nat) [Top 1; Written 0; Top 0] Creating None in
  counter s = total (threads s) /\ (forall n, shown s = Some n -> n = 3000000).
Proof. apply (counter_exact Locked); [done|]. by exists two_increments. Defined.

(** Mutual exclusion: at most one thread is between its lock and its unlock. *)
Theorem mutual_exclusion s t t' pc pc' :
  reachable Locked s -> threads s !! t = Some pc -> threads s !! t' = Some pc' ->
  in_cs pc = true -> in_cs pc' = true -> t = t'.
Proof. intros Hs. apply (synced_same Locked). by apply synced_reachable. Qed.

Lemma mutual_exclusion_witness : 1%nat = 1%nat.
Proof.
  apply (mutual_exclusion (MkSt 2 (Some 1%nat) [Top 1; Written 0; Top 0] Creating None) 1 1
           (Written 0) (Written 0)); [|done..].
  by exists two_increments.
Defined.

(** ** Every run ends *)

(** A bound of the steps a thread has left. *)
Definition steps_left (pc : tpc) : Z :=
  match pc with
  | Top i => 4 * (iterations - i) + 1
  | Held i => 4 * (iterations - i)
  | Read i _ => 4 * (iterations - i) - 1
  | Written i => 4 * (iterations - i) - 2
  | Finished => 0
  end.

Abbreviation all_left := (sum_by steps_left).

Definition main_left (s : st) : Z :=
  match main_at s with
  | Creating => (Z.of_nat N - Z.of_nat (length (threads s))) * (4 * iterations + 2) + 5
  | Joining j => Z.of_nat N - Z.of_nat j + 1
  | Exited _ => 0
  end.

Definition measure (s : st) : Z :=
  match main_at s with Exited _ => 0 | _ => all_left (threads s) + main_left s end.


Lemma all_left_pos ts : Forall pc_range ts -> 0 <= all_left ts.
Proof.
  induction 1 as [|pc ts Hpc _ IH]; [done|]. rewrite sum_by_cons.
  destruct pc; cbn in *; unfold iterations in *; lia.
Qed.

Lemma thread_func_left k me c l pc c' l' pc' :
  thread_func k me c l pc = Some (c', l', pc') -> pc_range pc -> steps_left pc' < steps_left pc.
Proof.
  intros H Hr. destruct pc as [i|i|i v|i|]; cbn in H, Hr.
  - destruct (Z.ltb_spec i iterations); [|simplify_eq; cbn; lia].
    destruct k; [| |destruct l]; simplify_eq; cbn; lia.
  - simplify_eq. cbn. lia.
  - destruct k; simplify_eq; cbn; lia.
  - simplify_eq. cbn. lia.
  - done.
Qed.

Lemma measure_pos s : shape s -> 0 <= measure s.
Proof.
  intros [Hr Hc Hm]. pose proof (all_left_pos _ Hr). unfold measure, main_left.
  destruct (main_at s); [unfold iterations, N in *; lia| |lia]. destruct Hm as (_ & ? & _). lia.
Qed.

Lemma measure_step k a s s' : shape s -> act k a s = Some s' -> measure s' < measure s.
Proof.
  intros Hs H. pose proof (shape_step _ _ _ _ Hs H) as Hs'. destruct Hs as [Hr Hc Hm].
  pose proof (all_left_pos _ Hr) as Hpos. unfold act in H. destruct a as [t| |].
  - destruct (main_at s) as [|j|z] eqn:Em; [| |done];
      (destruct (threads s !! t) as [pc|] eqn:Ht; [|done]);
      (destruct (thread_func k t (counter s) (lock s) pc) as [[[c l] pc']|] eqn:Hf; [|done]);
      simplify_eq; unfold measure, main_left; cbn; rewrite Em, (sum_by_insert _ _ _ _ _ Ht);
      apply thread_func_left in Hf; [rewrite length_insert; lia| |lia| ];
      by eapply (proj1 (Forall_lookup _ _) Hr).
  - unfold main_step in H. destruct (main_at s) as [|j|z] eqn:Em; [| |done].
    + destruct (Nat.ltb_spec (length (threads s)) N) as [Hlt|Hge]; simplify_eq;
        unfold measure, main_left; cbn; rewrite Em.
      * rewrite sum_by_app, length_app. change (all_left [Top 0]) with (4 * iterations + 1 + 0).
        cbn [length]. unfold iterations, N in *. lia.
      * assert (length (threads s) = N) as -> by lia. rewrite Z.sub_diag. unfold N. lia.
    + destruct (Nat.ltb_spec j N) as [Hlt|Hge].
      * destruct (threads s !! j) as [[]|]; simplify_eq. unfold measure, main_left. cbn.
        rewrite Em. lia.
      * simplify_eq. unfold measure, main_left. cbn. rewrite Em.
        destruct Hm as (_ & ? & _). lia.
  - destruct (main_at s) as [|j|z] eqn:Em; [|done|done].
    destruct (Nat.ltb_spec (length (threads s)) N); [|done]. simplify_eq.
    unfold measure, main_left. cbn. rewrite Em. unfold iterations, N in *. lia.
Qed.

Lemma run_length k sched s s' :
  shape s -> run k sched s = Some s' -> Z.of_nat (length sched) + measure s' <= measure s.
Proof.
  apply (exec_measure (act k) shape measure). intros a s0 s1 H E.
  split; [by eapply shape_step|by eapply measure_step].
Qed.

(** A held lock has a holder that can move. *)
Definition lock_held (k : kind) (s : st) : Prop :=
  forall h, lock s = Some h ->
    k = Locked /\ exists pc, threads s !! h = Some pc /\ in_cs pc = true.

(** Who has the lock after a thread's step. *)
Lemma thread_func_lock k me c l pc c' l' pc' h :
  thread_func k me c l pc = Some (c', l', pc') -> l' = Some h ->
  (k = Locked /\ h = me /\ in_cs pc' = true) \/
  (l = Some h /\ (h = me -> k = Locked -> in_cs pc = false)).
Proof.
  intros H ->. destruct pc as [i|i|i v|i|]; cbn in H; [| | | |done].
  - destruct (i <? iterations); [|simplify_eq; by right].
    destruct k; [| |destruct l]; simplify_eq; [by right..|by left].
  - simplify_eq. destruct (decide (h = me)) as [->|]; [|by right].
    destruct k; [by right..|by left].
  - destruct (decide (h = me)) as [->|]; destruct k; simplify_eq; (by left) || by right.
  - simplify_eq.
Qed.

Lemma lock_held_update k s t pc c l pc' m :
  lock_held k s -> threads s !! t = Some pc ->
  thread_func k t (counter s) (lock s) pc = Some (c, l, pc') ->
  lock_held k (MkSt c l (<[t := pc']> (threads s)) m (shown s)).
Proof.
  intros Hs Ht Hf h Hh. cbn in *. pose proof (lookup_lt_Some _ _ _ Ht).
  destruct (thread_func_lock _ _ _ _ _ _ _ _ _ Hf Hh) as [(Hk & -> & Hin)|[Hl Hme]].
  - split; [done|]. exists pc'. by rewrite list_lookup_insert_eq.
  - destruct (Hs h Hl) as (Hk & q & Hq & Hin). split; [done|].
    destruct (decide (h = t)) as [->|Hne].
    + rewrite Ht in Hq. simplify_eq. by rewrite Hme in Hin.
    + exists q. by rewrite list_lookup_insert_ne.
Qed.

Lemma lock_held_reachable k s : reachable k s -> lock_held k s.
Proof.
  apply reach_inv; [done|]. clear s. intros a s s' Hs H. unfold act in H.
  destruct a as [t| |].
  - destruct (main_at s) as [|j|z]; [| |done];
      (destruct (threads s !! t) as [pc|] eqn:Ht; [|done]);
      (destruct (thread_func k t (counter s) (lock s) pc) as [[[c l] pc']|] eqn:Hf; [|done]);
      simplify_eq; by eapply lock_held_update.
  - unfold main_step in H. destruct (main_at s) as [|j|z]; [| |done].
    + destruct (length (threads s) <? N)%nat; simplify_eq; [|exact Hs].
      intros h Hh. cbn in *. destruct (Hs h Hh) as (Hk & pc & Hpc & Hin). split; [done|].
      exists pc. split; [|done]. by apply lookup_app_l_Some.
    + destruct (j <? N)%nat; [destruct (threads s !! j) as [[]|]|]; simplify_eq; exact Hs.
  - destruct (main_at s); [|done|done]. destruct (length (threads s) <? N)%nat; [|done].
    simplify_eq. exact Hs.
Qed.

Lemma thread_moves k s t pc :
  threads s !! t = Some pc -> pc <> Finished -> lock_held k s ->
  exists u q r, threads s !! u = Some q /\ thread_func k u (counter s) (lock s) q = Some r.
Proof.
  intros Ht Hne Hl. destruct (thread_func k t (counter s) (lock s) pc) as [r|] eqn:Hf;
    [by exists t, pc, r|].
  assert (exists h, lock s = Some h) as [h Hh].
  { destruct pc as [i|i|i v|i|]; cbn in Hf; [|done|by destruct k|done|done].
    destruct (i <? iterations); [|done]. destruct k; [done..|]. destruct (lock s); [by eexists|done]. }
  destruct (Hl h Hh) as (_ & q & Hq & Hin).
  destruct (thread_func k h (counter s) (lock s) q) as [r|] eqn:Hf'; [by exists h, q, r|].
  exfalso. destruct q as [i|i|i v|i|]; cbn in Hf', Hin; [done|done|by destruct k|done|done].
Qed.

(** The four programs always end: no schedule is longer than 12000011 steps, and in a
    state where [main] has not returned somebody can move, so the mutex and the spin lock
    do not deadlock. *)
Theorem always_ends k sched s :
  run k sched init = Some s ->
  Z.of_nat (length sched) <= 12000011 /\
  ((exists z, main_at s = Exited z) \/ exists a s', act k a s = Some s').
Proof.
  intros H. assert (reachable k s) as Hs by by exists sched.
  pose proof (shape_reachable k s Hs) as Hsh. split.
  { apply run_length in H; [|split; cbn; [constructor|lia|done]].
    pose proof (measure_pos _ Hsh). change (measure init) with 12000011 in H. lia. }
  destruct (main_at s) as [|j|z] eqn:Em; [right|right|left; by eexists].
  - exists M. cbn. unfold act, main_step. rewrite Em.
    destruct (length (threads s) <? N)%nat; by eexists.
  - pose proof (sh_main _ Hsh) as Hm. rewrite Em in Hm. destruct Hm as (Hl & Hj & _ & _).
    destruct (decide (j < N)%nat) as [Hlt|Hge].
    + destruct (lookup_lt_is_Some_2 (threads s) j) as [pc Hpc]; [lia|].
      destruct (decide (pc = Finished)) as [->|Hne].
      * exists M. unfold act, main_step. rewrite Em, Hpc, (proj2 (Nat.ltb_lt j N) Hlt). by eexists.
      * destruct (thread_moves k s j pc Hpc Hne (lock_held_reachable k s Hs))
          as (u & q & [[c l] q'] & Hq & Hf).
        exists (T u). unfold act. rewrite Em, Hq, Hf. by eexists.
    + exists M. unfold act, main_step. rewrite Em, (proj2 (Nat.ltb_ge j N)) by lia. by eexists.
Qed.

Lemma always_ends_witness :
  Z.of_nat (length two_increments) <= 12000011 /\
  ((exists z, main_at (MkSt 2 (Some 1%nat) [Top 1; Written 0; Top 0] Creating None) = Exited z) \/
   exists a s', act Locked a (MkSt 2 (Some 1%nat) [Top 1; Written 0; Top 0] Creating None) = Some s').
Proof. by apply (always_ends Locked two_increments). Defined.

(** ** The unsynchronised counter *)

(** One round: each thread reads the counter, then each stores. *)
Definition lockstep : list actor := [T 0; T 1; T 2; T 0; T 1; T 2]%nat.

Definition together (i c : Z) : st := MkSt c None [Top i; Top i; Top i] Creating None.

Lemma lockstep_round i c :
  i < iterations -> run Plain lockstep (together i c) = Some (together (i + 1) (incr c)).
Proof.
  intros Hi. apply Z.ltb_lt in Hi. unfold lockstep, together, run. cbn [exec]. unfold act.
  repeat (cbn [main_at threads lookup list_lookup counter lock thread_func insert list_insert shown];
          rewrite ?Hi).
  done.
Qed.

Lemma lockstep_rounds n :
  Z.of_nat n <= iterations ->
  exists sched, run Plain sched (together 0 0) = Some (together (Z.of_nat n) (Z.of_nat n)).
Proof.
  induction n as [|n IH]; intros Hn; [by exists []|].
  destruct IH as [sched E]; [lia|]. exists (sched ++ lockstep). rewrite run_app, E.
  rewrite lockstep_round by lia. unfold incr. rewrite s32_small by (unfold INT_MIN, INT_MAX, iterations in *; lia).
  do 2 f_equal; lia.
Qed.

(** Without synchronisation updates are lost: there is a schedule under which the three
    threads make all their iterations and [main] prints 1000000 instead of 3000000. *)
Theorem updates_lost :
  exists sched s, run Plain sched init = Some s /\ main_at s = Exited 0 /\ shown s = Some 1000000.
Proof.
  destruct (lockstep_rounds (Z.to_nat iterations)) as [sched E].
  { rewrite Z2Nat.id; [done|]. unfold iterations. lia. }
  rewrite Z2Nat.id in E by (unfold iterations; lia).
  set (joins := [T 0; T 1; T 2; M; M; M; M; M]%nat).
  exists ([M; M; M] ++ (sched ++ joins)). eexists. rewrite (run_app _ [M; M; M]).
  change (run Plain [M; M; M] init) with (Some (together 0 0)).
  cbv match. rewrite run_app, E. cbv match. split; [reflexivity|]. by split.
Qed.

(** What a thread read is at most what was stored when it read it. *)
Record bounded (s : st) : Prop := MkBounded {
  bo_count : 0 <= counter s <= total (threads s);
  bo_read t i v : threads s !! t = Some (Read i v) -> 0 <= v <= total (threads s)
}.

Lemma bounded_thread s t pc c l pc' m :
  shape s -> bounded s -> threads s !! t = Some pc ->
  thread_func Plain t (counter s) (lock s) pc = Some (c, l, pc') ->
  bounded (MkSt c l (<[t := pc']> (threads s)) m (shown s)).
Proof.
  intros [Hr Hl _] [Hb Hv] Ht Hf. pose proof (proj1 (Forall_lookup _ _) Hr _ _ Ht) as Hpc.
  pose proof (total_range _ Hr) as Htot. unfold iterations, N in *.
  assert (0 <= c <= total (threads s) - work pc + work pc' /\ work pc <= work pc' /\
    (forall i v, pc' = Read i v -> 0 <= v <= total (threads s))) as (Hc & Hw & Hv').
  { destruct pc as [i|i|i v|i|]; cbn in Hf, Hpc.
    - unfold iterations in *. destruct (Z.ltb_spec i 1000000); simplify_eq; cbn; unfold iterations;
        (split; [lia|]; split; [lia|]; intros ? ? ?; simplify_eq; lia).
    - simplify_eq. cbn. split; [lia|]. split; [lia|]. intros ? ? ?; simplify_eq; lia.
    - simplify_eq. specialize (Hv _ _ _ Ht). cbn. unfold incr, iterations in *.
      rewrite s32_small by (unfold INT_MIN, INT_MAX; lia).
      split; [lia|]. split; [lia|]. done.
    - simplify_eq. cbn. split; [lia|]. split; [lia|]. done.
    - done. }
  split; cbn; rewrite (sum_by_insert _ _ _ _ _ Ht); [done|].
  intros t' i v. destruct (decide (t' = t)) as [->|Hne].
  - rewrite list_lookup_insert_eq by (by eapply lookup_lt_Some). intros [= ->].
    specialize (Hv' i v eq_refl). lia.
  - rewrite list_lookup_insert_ne by done. intros Hq. specialize (Hv _ _ _ Hq). lia.
Qed.

Lemma bounded_reachable s : reachable Plain s -> bounded s.
Proof.
  intros Hs. cut (shape s /\ bounded s); [by intros []|]. revert s Hs. apply reach_inv.
  - split; [split; cbn; [constructor|lia|done]|]. by split; cbn; intros; rewrite ?lookup_nil in *.
  - intros a s s' [Hsh Hb] Ha. split; [by eapply shape_step|]. unfold act in Ha.
    destruct a as [t| |].
    + destruct (main_at s) as [|j|z]; [| |done];
        (destruct (threads s !! t) as [pc|] eqn:Ht; [|done]);
        (destruct (thread_func Plain t (counter s) (lock s) pc) as [[[c l] pc']|] eqn:Hf; [|done]);
        simplify_eq; by eapply bounded_thread.
    + unfold main_step in Ha. destruct (main_at s) as [|j|z]; [| |done].
      * destruct (length (threads s) <? N)%nat; simplify_eq; destruct Hb as [H1 H2];
          split; cbn; rewrite ?sum_by_app, ?sum_by_one; cbn; try lia; try done.
        intros t i v [Hp|[_ Hp]]%lookup_app_Some; [specialize (H2 _ _ _ Hp); lia|].
        by apply list_lookup_singleton_Some in Hp as [_ ?].
      * destruct (j <? N)%nat; [destruct (threads s !! j) as [[]|]|]; simplify_eq;
          destruct Hb; by split.
    + destruct (main_at s); [|done|done]. destruct (length (threads s) <? N)%nat; [|done].
      simplify_eq. destruct Hb. by split.
Qed.

(** Without synchronisation the counter never passes the number of increments made, so
    what is printed is between 0 and 3000000. *)
Theorem racy_bounds s :
  reachable Plain s ->
  0 <= counter s <= total (threads s) /\ (forall n, shown s = Some n -> 0 <= n <= 3000000).
Proof.
  intros Hs. pose proof (bounded_reachable s Hs) as [Hb _]. split; [done|]. intros n Hn.
  pose proof (shape_reachable _ s Hs) as [Hr Hc Hm]. pose proof (total_range _ Hr) as Htot.
  destruct (main_at s) as [|j|z]; [congruence|destruct Hm as (_ & _ & ? & _); congruence|].
  destruct Hm as [[_ ?]|(_ & E & Hl & Hf)]; [congruence|].
  rewrite E in Hn. injection Hn as <-. rewrite Hl in Htot. unfold iterations, N in *. lia.
Qed.

(** Two threads read 0 and both store 1. *)
Lemma racy_bounds_witness :
  let s := MkSt 1 None [Top 1; Top 1] Creating None in
  0 <= counter s <= total (threads s) /\ (forall n, shown s = Some n -> 0 <= n <= 3000000).
Proof. apply racy_bounds. by exists [M; M; T 0; T 1; T 0; T 1]%nat. Defined.
