(* ===== verification/CondWork.v ===== *)
(** * week4/02_sync/ex2.c: consumers and a producer with a condition variable

    Three consumers wait for work under [work_mutex]; [main] adds work ten times, sets
    [polundra], and then signals and joins each consumer in turn.  A step is one operation
    on the mutex or the condition variable, or one read or one write of [work] or [polundra]; a
    schedule chooses who moves, whom a signal wakes, and when a waiter wakes up
    without a signal, which POSIX allows.  The printed lines are left out, but for the
    units of work done. *)

From S2P Require Import Prelude Steps.
Local Open Scope Z_scope.

(** Number of threads and of work adding cycles. *)
Definition N : nat := 3.
Definition M : nat := 10.

Inductive owner := Main | Thread (t : nat).

#[export] Instance owner_eq_dec : EqDecision owner.
Proof. solve_decision. Defined.

(** [thread_func].  All but [Begin], [Waiting], [Woken] and [Returned] hold the mutex. *)
Inductive tpc :=
| Begin            (* before pthread_mutex_lock *)
| Testing          (* at work == 0 in the test of the first inner loop *)
| Asking           (* at !polundra in that test *)
| Waiting          (* in pthread_cond_wait *)
| Woken            (* in pthread_cond_wait, waiting for the mutex *)
| Working          (* at while (work) *)
| Reading          (* at work-- *)
| Counting (n : Z) (* the value n was read for work-- *)
| Leaving          (* at if (polundra) *)
| Unlocking        (* after the loop *)
| Returned.

#[export] Instance tpc_eq_dec : EqDecision tpc.
Proof. solve_decision. Defined.

Inductive mpc :=
| Creating
| Cycle (i : nat)        (* before the lock *)
| Adding (i : nat)
| Storing (i : nat) (n a : Z)  (* n was read for work += a *)
| Signalling (i : nat)
| UnlockingMain (i : nat)
| Polundra               (* at polundra = true *)
| LastSignal (j : nat)
| Joining (j : nat)
| Exited.

Record st := MkSt {
  work : Z;
  polundra : bool;
  mutex : option owner;
  threads : list tpc;
  main_at : mpc;
  added : Z;
  units : Z
}.

Definition init : st := MkSt 0 false None [] Creating 0 0.

Definition set_thread (t : nat) (pc : tpc) (s : st) : st :=
  MkSt (work s) (polundra s) (mutex s) (<[t := pc]> (threads s)) (main_at s) (added s) (units s).
Definition set_mutex (o : option owner) (s : st) : st :=
  MkSt (work s) (polundra s) o (threads s) (main_at s) (added s) (units s).
Definition set_main (m : mpc) (s : st) : st :=
  MkSt (work s) (polundra s) (mutex s) (threads s) m (added s) (units s).
Definition set_polundra (s : st) : st :=
  MkSt (work s) true (mutex s) (threads s) (main_at s) (added s) (units s).
(** The writes of [work += a] and of [work--], where [n] was read before. *)
Definition add_work (n a : Z) (s : st) : st :=
  MkSt (n + a) (polundra s) (mutex s) (threads s) (main_at s) (added s + a) (units s).
Definition do_unit (n : Z) (s : st) : st :=
  MkSt (n - 1) (polundra s) (mutex s) (threads s) (main_at s) (added s) (units s + 1).
Definition create (s : st) : st :=
  MkSt (work s) (polundra s) (mutex s) (threads s ++ [Begin]) (main_at s) (added s) (units s).

(** A step of a consumer. *)
Definition thread_func (t : nat) (s : st) : option st :=
  match threads s !! t with
  | Some Begin | Some Woken =>
      match mutex s with
      | None => Some (set_thread t Testing (set_mutex (Some (Thread t)) s))
      | Some _ => None
      end
  | Some Testing =>
      Some (set_thread t (if work s =? 0 then Asking else Working) s)
  | Some Asking =>
      if polundra s then Some (set_thread t Working s) else Some (set_thread t Waiting (set_mutex None s))
  | Some Working =>
      if work s =? 0 then Some (set_thread t Leaving s) else Some (set_thread t Reading s)
  | Some Reading => Some (set_thread t (Counting (work s)) s)
  | Some (Counting n) => Some (set_thread t Working (do_unit n s))
  | Some Leaving => Some (set_thread t (if polundra s then Unlocking else Testing) s)
  | Some Unlocking => Some (set_thread t Returned (set_mutex None s))
  | Some Waiting | Some Returned | None => None
  end.

(** [pthread_cond_signal]: wakes the waiter [who]; nobody only when nobody waits. *)
Definition signal (who : option nat) (s : st) : option st :=
  match who with
  | Some t => match threads s !! t with
              | Some Waiting => Some (set_thread t Woken s)
              | _ => None
              end
  | None => if decide (Waiting ∈ threads s) then None else Some s
  end.

(** A step of [main]: [rnd] is what [rand()] answers, [who] whom a signal wakes. *)
Definition main_step (rnd : Z) (who : option nat) (s : st) : option st :=
  match main_at s with
  | Creating =>
      if (length (threads s) <? N)%nat then Some (create s) else Some (set_main (Cycle 0) s)
  | Cycle i =>
      if (i <? M)%nat then
        match mutex s with
        | None => Some (set_main (Adding i) (set_mutex (Some Main) s))
        | Some _ => None
        end
      else Some (set_main Polundra s)
  | Adding i => Some (set_main (Storing i (work s) (rnd `mod` 3 + 1)) s)
  | Storing i n a => Some (set_main (Signalling i) (add_work n a s))
  | Signalling i => set_main (UnlockingMain i) <$> signal who s
  | UnlockingMain i => Some (set_main (Cycle (S i)) (set_mutex None s))
  | Polundra => Some (set_main (LastSignal 0) (set_polundra s))
  | LastSignal j =>
      if (j <? N)%nat then set_main (Joining j) <$> signal who s else Some (set_main Exited s)
  | Joining j =>
      match threads s !! j with
      | Some Returned => Some (set_main (LastSignal (S j)) s)
      | _ => None
      end
  | Exited => None
  end.

Inductive actor :=
| T (t : nat)
| Mn (rnd : Z) (who : option nat)
| Spurious (t : nat).

Definition act (a : actor) (s : st) : option st :=
  match main_at s, a with
  | Exited, _ => None
  | _, T t => thread_func t s
  | _, Mn rnd who => main_step rnd who s
  | _, Spurious t => signal (Some t) s
  end.

Definition run : list actor -> st -> option st := exec act.
Definition reachable (s : st) : Prop := reach act init s.

(** ** The invariant *)

Definition holding (pc : tpc) : bool :=
  match pc with Testing | Asking | Working | Reading | Counting _ | Leaving | Unlocking => true | _ => false end.

Definition main_holding (m : mpc) : bool :=
  match m with Adding _ | Storing _ _ _ | Signalling _ | UnlockingMain _ => true | _ => false end.

(** Cycles of work that were added. *)
Definition cycles (m : mpc) : nat :=
  match m with
  | Creating => 0
  | Cycle i | Adding i | Storing i _ _ => i
  | Signalling i | UnlockingMain i => S i
  | _ => M
  end.

Definition after_polundra (m : mpc) : bool :=
  match m with LastSignal _ | Joining _ | Exited => true | _ => false end.

(** Nothing is left to do, and the thread is on its way out. *)
Definition leaving (pc : tpc) : bool :=
  match pc with Unlocking | Returned => true | _ => false end.
Definition past_work (pc : tpc) : bool :=
  match pc with Leaving => true | _ => leaving pc end.

(** [main]'s counters are in range, and the joins it made are true. *)
Definition main_ok (m : mpc) (ts : list tpc) : Prop :=
  match m with
  | Creating => True
  | Cycle i => (i <= M)%nat /\ length ts = N
  | Adding i | Signalling i | UnlockingMain i => (i < M)%nat /\ length ts = N
  | Storing i _ a => (i < M)%nat /\ length ts = N /\ 1 <= a <= 3
  | Polundra => length ts = N
  | LastSignal j | Joining j =>
      (j <= N)%nat /\ length ts = N /\ Forall (eq Returned) (take j ts)
  | Exited => length ts = N /\ Forall (eq Returned) ts
  end.

(** What was read is still true. *)
Definition read_ok (pc : tpc) (w : Z) : Prop :=
  match pc with Reading => w <> 0 | Counting n => n = w /\ w <> 0 | _ => True end.
Definition main_read_ok (m : mpc) (w : Z) : Prop :=
  match m with Storing _ n _ => n = w | _ => True end.

Record inv (s : st) : Prop := MkInv {
  i_thread t pc : threads s !! t = Some pc -> holding pc = true -> mutex s = Some (Thread t);
  i_main : main_holding (main_at s) = true -> mutex s = Some Main;
  i_work : 0 <= work s /\ added s = units s + work s;
  i_added : Z.of_nat (cycles (main_at s)) <= added s <= 3 * Z.of_nat (cycles (main_at s));
  i_polundra : polundra s = after_polundra (main_at s);
  i_left t pc : threads s !! t = Some pc -> (past_work pc = true -> work s = 0) /\
    (leaving pc = true -> polundra s = true);
  i_count : (length (threads s) <= N)%nat;
  i_place : main_ok (main_at s) (threads s);
  i_read t pc : threads s !! t = Some pc -> read_ok pc (work s);
  i_main_read : main_read_ok (main_at s) (work s)
}.

(** Moving one thread, which has the mutex or takes it, or leaves it and the work alone. *)
Lemma inv_update s t pc pc' w o u :
  inv s -> threads s !! t = Some pc -> pc <> Returned ->
  ((mutex s = None \/ mutex s = Some (Thread t)) /\ (o = None \/ o = Some (Thread t)) \/
   o = mutex s /\ w = work s) ->
  (holding pc' = true -> o = Some (Thread t)) ->
  0 <= w /\ added s = u + w ->
  (w = work s \/ work s <> 0) ->
  (past_work pc' = true -> w = 0) /\ (leaving pc' = true -> polundra s = true) -> read_ok pc' w ->
  inv (MkSt w (polundra s) o (<[t := pc']> (threads s)) (main_at s) (added s) u).
Proof.
  intros [H1 H2 H3 H4 H6 H7 H8 H9 H10 H11] Ht Hne Hm Hh Hw Hww Hp Hr.
  pose proof (lookup_lt_Some _ _ _ Ht) as Hlt.
  split; cbn; [| |done|done|done| | | | |].
  - intros t' q. destruct (decide (t' = t)) as [->|Hn].
    + rewrite list_lookup_insert_eq by done. intros [= ->]. done.
    + rewrite list_lookup_insert_ne by done. intros Hq Hin. specialize (H1 t' q Hq Hin).
      destruct Hm as [[[|] _]|[-> _]]; congruence.
  - intros Hmain. specialize (H2 Hmain). destruct Hm as [[[|] _]|[-> _]]; congruence.
  - intros t' q. destruct (decide (t' = t)) as [->|Hn].
    + rewrite list_lookup_insert_eq by done. intros [= ->]. done.
    + rewrite list_lookup_insert_ne by done. intros Hq. destruct (H7 t' q Hq) as [Hz Hl].
      split; [|done]. intros Hpast. specialize (Hz Hpast). destruct Hww; congruence.
  - by rewrite length_insert.
  - assert (forall j, Forall (eq Returned) (take j (threads s)) ->
      Forall (eq Returned) (take j (<[t := pc']> (threads s)))) as Hjoin.
    { intros j Hj. destruct (decide (t < j)%nat) as [Hlt'|Hge];
        [|by rewrite take_insert_ge by lia].
      destruct Hne. symmetry. eapply (proj1 (Forall_lookup _ _) Hj t). by rewrite lookup_take_lt. }
    unfold main_ok in *. rewrite length_insert. destruct (main_at s); [done..| | |].
    + destruct H9 as (? & ? & ?). auto.
    + destruct H9 as (? & ? & ?). auto.
    + destruct H9 as [? Hall]. split; [done|]. specialize (Hjoin (length (threads s))).
      rewrite !take_ge in Hjoin by (rewrite ?length_insert; lia). auto.
  - intros t' q. destruct (decide (t' = t)) as [->|Hn].
    + rewrite list_lookup_insert_eq by done. by intros [= ->].
    + rewrite list_lookup_insert_ne by done. intros Hq. specialize (H10 t' q Hq).
      destruct Hm as [[Hm _]|[_ ->]]; [|done]. specialize (H1 t' q Hq).
      destruct q; try done; specialize (H1 eq_refl); destruct Hm; congruence.
  - destruct Hm as [[Hm _]|[_ ->]]; [|done]. destruct (main_at s); try done; specialize (H2 eq_refl); destruct Hm; congruence.
Qed.

(** Discharges what [inv_update] asks of a step. *)
Ltac update H Ht :=
  unfold set_thread, set_mutex; cbn [work polundra mutex threads main_at added units];
  eapply inv_update; [exact H|exact Ht|done| |cbn; try done| |auto| |];
  cbn; try (split; done); try (split; [lia|lia]); try tauto; try (split; [auto|done]).

Lemma cond_inv_thread t s s' : inv s -> thread_func t s = Some s' -> inv s'.
Proof.
  intros H Hf. unfold thread_func in Hf. destruct (threads s !! t) as [pc|] eqn:Ht; [|done].
  pose proof (i_work _ H) as [Hw Ha]. pose proof (i_thread _ H _ _ Ht) as Hmx.
  pose proof (i_left _ H _ _ Ht) as [Hpast Hleft]. pose proof (i_read _ H _ _ Ht) as Hread.
  destruct pc; cbn in Hmx, Hpast, Hleft, Hread; try done.
  - destruct (mutex s) eqn:Em; [done|]. simplify_eq. update H Ht.
  - destruct (Z.eqb_spec (work s) 0); simplify_eq; update H Ht.
  - destruct (polundra s) eqn:Ep; simplify_eq; update H Ht.
  - destruct (mutex s) eqn:Em; [done|]. simplify_eq. update H Ht.
  - destruct (Z.eqb_spec (work s) 0) as [Hz|Hz]; simplify_eq; update H Ht.
  - simplify_eq. update H Ht.
  - simplify_eq. destruct Hread as [-> Hz]. unfold do_unit. update H Ht.
  - simplify_eq. destruct (polundra s) eqn:Ep; update H Ht.
  - simplify_eq. update H Ht.
Qed.

Lemma inv_signal who s s' : inv s -> signal who s = Some s' -> inv s'.
Proof.
  intros H Hs. unfold signal in Hs. destruct who as [t|].
  - destruct (threads s !! t) as [[]|] eqn:Ht; simplify_eq. pose proof (i_work _ H) as [Hw Ha].
    update H Ht.
  - destruct (decide _); by simplify_eq.
Qed.

(** Moving [main]: its place, and with it the mutex, the work and [polundra]. *)
Lemma cond_inv_main s m o w p a ts :
  inv s ->
  (ts = threads s \/ ts = threads s ++ [Begin]) -> (length ts <= N)%nat ->
  ((mutex s = None \/ mutex s = Some Main) /\ (o = None \/ o = Some Main) \/ o = mutex s) ->
  (main_holding m = true -> o = Some Main) ->
  w - work s = a - added s -> 0 <= w ->
  (w = work s \/ polundra s = false /\ mutex s = Some Main) ->
  Z.of_nat (cycles m) <= a <= 3 * Z.of_nat (cycles m) ->
  p = after_polundra m -> (polundra s = true -> p = true) -> main_ok m ts -> main_read_ok m w ->
  inv (MkSt w p o ts m a (units s)).
Proof.
  intros [H1 H2 H3 H4 H6 H7 H8 H9 H10 H11] Hts Hlen Ho Hm Hwa Hw0 Hw Hcy Hp Hpp Hj Hmr.
  assert (forall t pc, ts !! t = Some pc -> pc = Begin \/ threads s !! t = Some pc) as Hold.
  { intros t pc. destruct Hts as [-> | ->]; [by right|].
    intros [?|[_ Hb]]%lookup_app_Some; [by right|left].
    by apply list_lookup_singleton_Some in Hb as [_ <-]. }
  split; cbn; [|done|lia|done|done| |done|done| |done].
  - intros t pc Hpc Hin. destruct (Hold t pc Hpc) as [-> |Hpc']; [done|].
    specialize (H1 t pc Hpc' Hin). destruct Ho as [[[|] _]| ->]; congruence.
  - intros t pc Hpc. destruct (Hold t pc Hpc) as [-> |Hpc']; [done|].
    destruct (H7 t pc Hpc') as [Hz Hl]. split.
    + intros Hpast. specialize (Hz Hpast). destruct Hw as [-> |[Hnp Hmx]]; [done|]. exfalso.
      destruct pc; cbn in Hpast; try done; cbn in Hl.
      * specialize (H1 t _ Hpc' eq_refl). congruence.
      * specialize (Hl eq_refl). congruence.
      * specialize (Hl eq_refl). congruence.
    + intros Hlv. by apply Hpp, Hl.
  - intros t pc Hpc. destruct (Hold t pc Hpc) as [-> |Hpc']; [done|].
    specialize (H10 t pc Hpc'). destruct Hw as [-> |[_ Hmx]]; [done|].
    specialize (H1 t pc Hpc'). destruct pc; try done; specialize (H1 eq_refl); congruence.
Qed.

(** Discharges what [cond_inv_main] asks. *)
Ltac main_moves :=
  unfold set_main, set_mutex, set_polundra, add_work;
  cbn [work polundra mutex threads main_at added units];
  apply cond_inv_main; cbn [cycles after_polundra main_ok main_holding main_read_ok]; auto; try lia;
  try (split; [lia|assumption]).

Lemma signal_same who s s' :
  signal who s = Some s' ->
  main_at s' = main_at s /\ mutex s' = mutex s /\ polundra s' = polundra s /\
  added s' = added s /\ length (threads s') = length (threads s).
Proof.
  unfold signal. destruct who as [t|].
  - destruct (threads s !! t) as [[]|]; intros; simplify_eq. cbn. by rewrite length_insert.
  - destruct (decide _); intros; by simplify_eq.
Qed.

Lemma cond_inv_main_step rnd who s s' : inv s -> main_step rnd who s = Some s' -> inv s'.
Proof.
  intros H Hs. pose proof (i_work _ H) as [Hw Ha]. pose proof (i_added _ H) as Had.
  pose proof (i_polundra _ H) as Hpo.
  pose proof (i_count _ H) as Hc. pose proof (i_place _ H) as Hj. pose proof (i_main _ H) as Hmain.
  unfold main_step in Hs. destruct (main_at s) as [|i|i|i n a|i|i| |j|j|] eqn:Em;
    cbn [cycles after_polundra main_ok main_holding] in *.
  - destruct (Nat.ltb_spec (length (threads s)) N); simplify_eq; [|main_moves].
    unfold create. rewrite Em. main_moves. rewrite length_app. cbn. lia.
  - destruct Hj. destruct (Nat.ltb_spec i M).
    + destruct (mutex s) eqn:Ex; [done|]. simplify_eq. main_moves.
    + simplify_eq. assert (i = M) as -> by lia. main_moves.
  - simplify_eq. specialize (Hmain eq_refl).
    pose proof (Z.mod_pos_bound rnd 3 ltac:(lia)). destruct Hj. main_moves.
  - simplify_eq. specialize (Hmain eq_refl). pose proof (i_main_read _ H) as Hmr. rewrite Em in Hmr. cbn in Hmr. subst n.
    destruct Hj as (? & ? & ?). main_moves.
  - apply fmap_Some in Hs as (s1 & Hs & ->). pose proof (inv_signal _ _ _ H Hs) as H1.
    apply signal_same in Hs as (E1 & E2 & E3 & E4 & E5). specialize (Hmain eq_refl).
    pose proof (i_work _ H1) as [Hw1 Ha1]. main_moves; rewrite ?E2, ?E3, ?E4, ?E5; auto; try lia.
  - simplify_eq. specialize (Hmain eq_refl). destruct Hj. main_moves.
  - simplify_eq. main_moves. repeat split; [lia|done|constructor].
  - destruct Hj as (Hj1 & Hj2 & Hj3). destruct (Nat.ltb_spec j N).
    + apply fmap_Some in Hs as (s1 & Hs & ->). pose proof (inv_signal _ _ _ H Hs) as H1.
      pose proof (i_place _ H1) as Hp1.
      apply signal_same in Hs as (E1 & E2 & E3 & E4 & E5).
      pose proof (i_work _ H1) as [Hw1 Ha1]. rewrite E1, Em in Hp1.
      main_moves; rewrite ?E2, ?E3, ?E4, ?E5; auto; try lia.
    + simplify_eq. assert (j = N) as -> by lia. rewrite take_ge in Hj3 by lia. main_moves.
  - destruct Hj as (Hj1 & Hj2 & Hj3). destruct (threads s !! j) as [[]|] eqn:Ej; simplify_eq.
    main_moves. apply lookup_lt_Some in Ej as Hlt. split; [lia|]. split; [done|].
    rewrite (take_S_r _ _ _ Ej). apply Forall_app. split; [done|]. by constructor.
  - done.
Qed.

Lemma cond_inv_reachable s : reachable s -> inv s.
Proof.
  apply reach_inv.
  - by split; cbn; intros; rewrite ?lookup_nil in *; try lia; try done.
  - intros a s0 s1 H Ha. unfold act in Ha.
    destruct (main_at s0), a; try done;
      solve [by eapply cond_inv_thread|by eapply cond_inv_main_step|by eapply inv_signal].
Qed.

(** C12. No unit of work is lost or done twice: at every moment the work added is the work
    done and the work left; when [main] has joined the consumers, all of it was done, at
    least ten units and at most thirty. *)
Theorem all_work_done s :
  reachable s ->
  0 <= work s /\ added s = units s + work s /\
  (main_at s = Exited -> work s = 0 /\ units s = added s /\ 10 <= units s <= 30).
Proof.
  intros Hs. pose proof (cond_inv_reachable s Hs) as H. pose proof (i_work _ H) as [Hw Ha].
  split; [done|]. split; [done|]. intros Em. pose proof (i_place _ H) as Hp.
  pose proof (i_added _ H) as Had. rewrite Em in Hp, Had. destruct Hp as [Hl Hall].
  destruct (threads s) as [|pc ts] eqn:Et; [done|].
  apply Forall_cons in Hall as [<- _].
  destruct (i_left _ H 0%nat Returned) as [Hz _]; [by rewrite Et|]. specialize (Hz eq_refl).
  unfold cycles, M in Had. lia.
Qed.

(** [n] steps of one actor. *)
Definition ten_cycles : list actor :=
  concat (replicate M [Mn 1 None; Mn 1 None; Mn 1 None; Mn 1 None; Mn 1 None]).

(** [main] adds its work before the consumers start; the first consumer does it all, and the
    three wait. *)
Definition all_wait : list actor :=
  [Mn 0 None; Mn 0 None; Mn 0 None; Mn 0 None] ++ ten_cycles ++
  [T 0; T 0] ++ replicate 61 (T 0) ++ [T 0; T 0; T 0] ++ [T 1; T 1; T 1] ++ [T 2; T 2; T 2].

Definition waiting_state : st :=
  MkSt 0 false None [Waiting; Waiting; Waiting] (Cycle M) 20 20.

Lemma all_work_done_witness :
  0 <= work waiting_state /\ added waiting_state = units waiting_state + work waiting_state /\
  (main_at waiting_state = Exited ->
   work waiting_state = 0 /\ units waiting_state = added waiting_state /\
   10 <= units waiting_state <= 30).
Proof. apply all_work_done. by exists all_wait. Defined.

(** The mutex excludes: two threads that hold it are the same thread, and none does
    while [main] does. *)
Theorem one_holder s :
  reachable s ->
  (forall t t' pc pc', threads s !! t = Some pc -> threads s !! t' = Some pc' ->
     holding pc = true -> holding pc' = true -> t = t') /\
  (main_holding (main_at s) = true ->
   forall t pc, threads s !! t = Some pc -> holding pc = false).
Proof.
  intros Hs. pose proof (cond_inv_reachable s Hs) as H. split.
  - intros t t' pc pc' Ht Ht' Hh Hh'. pose proof (i_thread _ H _ _ Ht Hh).
    pose proof (i_thread _ H _ _ Ht' Hh'). congruence.
  - intros Hm t pc Ht. pose proof (i_main _ H Hm). destruct (holding pc) eqn:Hh; [|done].
    pose proof (i_thread _ H _ _ Ht Hh). congruence.
Qed.

Lemma one_holder_witness :
  (forall t t' pc pc', threads waiting_state !! t = Some pc ->
     threads waiting_state !! t' = Some pc' ->
     holding pc = true -> holding pc' = true -> t = t') /\
  (main_holding (main_at waiting_state) = true ->
   forall t pc, threads waiting_state !! t = Some pc -> holding pc = false).
Proof. apply one_holder. by exists all_wait. Defined.

(** The program can hang: [polundra] is signalled once before each join, and the signal
    may wake a consumer other than the one joined.  There is a schedule after which [main]
    joins the first consumer, which waits on the condition variable, and nobody can move
    again, but for a wake-up that no signal caused. *)
Theorem can_hang :
  exists sched s, run sched init = Some s /\ main_at s = Joining 0 /\
    threads s !! 0%nat = Some Waiting /\ mutex s = None /\
    forall a s', act a s = Some s' -> exists t, a = Spurious t.
Proof.
  exists (all_wait ++ [Mn 0 None; Mn 0 None; Mn 0 (Some 1%nat); T 1; T 1; T 1; T 1; T 1; T 1]).
  exists (MkSt 0 true None [Waiting; Returned; Waiting] (Joining 0) 20 20).
  split; [vm_compute; reflexivity|]. repeat (split; [reflexivity|]).
  intros [t|rnd who|t] s' H; [|done|by exists t]. exfalso. unfold act in H. cbn [main_at] in H.
  unfold thread_func in H. cbn [threads] in H.
  destruct t as [|[|[|t]]]; cbn in H; done.
Qed.
