(* ===== verification/RwLock.v ===== *)
(** * week4/02_sync/ex3.c: readers, a writer and a read-write lock

    Five readers print [data], a writer replaces its block, until [main] sets [stop].  The
    blocks are a heap: a read of a freed or an unwritten block is a fault, recorded in the
    state.  A step is one operation of a lock, one access to shared memory or one call of
    [main]; [malloc] succeeds. *)

From S2P Require Import Prelude CLib Steps.
Local Open Scope Z_scope.

(** The number of readers; the thread with this index is the writer. *)
Definition READERS : nat := 5.
Definition is_writer (t : nat) : bool := (t =? READERS)%nat.

Inductive owner := Main | Thread (t : nat).

(** [reader_func] and [writer_func]: [Top] is the start of the loop, [SpinHeld] has the spin
    lock, [Flagged] has read [stop], [Want] asks for [arg->lock], [Inside] has it; [Freed],
    [Allocated] and [Filled] are the writer's. *)
Inductive tpc :=
| Top
| SpinHeld
| Flagged (stop_flag : bool)
| Want
| Inside
| Freed
| Allocated
| Filled (rnd : Z)
| Leaving
| Sleeping
| Gone.

Inductive mpc :=
| Starting
| Creating
| FirstChar
| Spin
| Stopping
| Unspin
| SecondChar
| Exited.

(** [readers] and [writer] are the holders of the read-write lock. *)
Record st := MkSt {
  data : nat;
  heap : gmap nat (option string);
  next_block : nat;
  stop : bool;
  spin : option owner;
  readers : gset nat;
  writer : option nat;
  threads : list tpc;
  main_at : mpc;
  lines : list string;
  fault : bool
}.

Definition init : st := MkSt 0 ∅ 0 false None ∅ None [] Starting [] false.

Definition move (t : nat) (pc : tpc) (s : st) : st :=
  MkSt (data s) (heap s) (next_block s) (stop s) (spin s) (readers s) (writer s)
    (<[t := pc]> (threads s)) (main_at s) (lines s) (fault s).
Definition set_spin (o : option owner) (s : st) : st :=
  MkSt (data s) (heap s) (next_block s) (stop s) o (readers s) (writer s) (threads s)
    (main_at s) (lines s) (fault s).
Definition set_rw (r : gset nat) (w : option nat) (s : st) : st :=
  MkSt (data s) (heap s) (next_block s) (stop s) (spin s) r w (threads s) (main_at s)
    (lines s) (fault s).
Definition set_main (m : mpc) (s : st) : st :=
  MkSt (data s) (heap s) (next_block s) (stop s) (spin s) (readers s) (writer s) (threads s)
    m (lines s) (fault s).
Definition set_stop (s : st) : st :=
  MkSt (data s) (heap s) (next_block s) true (spin s) (readers s) (writer s) (threads s)
    (main_at s) (lines s) (fault s).
Definition create (s : st) : st :=
  MkSt (data s) (heap s) (next_block s) (stop s) (spin s) (readers s) (writer s)
    (threads s ++ [Top]) (main_at s) (lines s) (fault s).
Definition print_line (l : string) (s : st) : st :=
  MkSt (data s) (heap s) (next_block s) (stop s) (spin s) (readers s) (writer s) (threads s)
    (main_at s) (lines s ++ [l]) (fault s).
Definition set_fault (s : st) : st :=
  MkSt (data s) (heap s) (next_block s) (stop s) (spin s) (readers s) (writer s) (threads s)
    (main_at s) (lines s) true.
Definition set_heap (h : gmap nat (option string)) (s : st) : st :=
  MkSt (data s) h (next_block s) (stop s) (spin s) (readers s) (writer s) (threads s)
    (main_at s) (lines s) (fault s).

(** [data = malloc(100)] *)
Definition alloc (s : st) : st :=
  MkSt (next_block s) (<[next_block s := None]> (heap s)) (S (next_block s)) (stop s) (spin s)
    (readers s) (writer s) (threads s) (main_at s) (lines s) (fault s).

(** [free(data)]: a fault when [data] is no block. *)
Definition free_data (s : st) : st :=
  match heap s !! data s with
  | Some _ => set_heap (delete (data s) (heap s)) s
  | None => set_fault s
  end.

(** [sprintf(data, ..)] and [strcpy(data, ..)]; the texts are shorter than the block. *)
Definition write_data (t : string) (s : st) : st :=
  match heap s !! data s with
  | Some _ => set_heap (<[data s := Some t]> (heap s)) s
  | None => set_fault s
  end.

Definition reader_name (t : nat) : string := "reader " +:+ fmt_lld (Z.of_nat t + 1).

(** [printf("reader %s [%s]\n", arg->thread_name, data)] *)
Definition print_data (t : nat) (s : st) : st :=
  match heap s !! data s with
  | Some (Some text) => print_line ("reader " +:+ reader_name t +:+ " [" +:+ text +:+ "]") s
  | _ => set_fault s
  end.

(** The loop of a thread; [rnd] is [rand()]. *)
Definition thread_step (rnd : Z) (t : nat) (s : st) : option st :=
  match threads s !! t with
  | Some Top =>
      match spin s with
      | None => Some (move t SpinHeld (set_spin (Some (Thread t)) s))
      | Some _ => None
      end
  | Some SpinHeld => Some (move t (Flagged (stop s)) s)
  | Some (Flagged stop_flag) =>
      Some (move t (if stop_flag then Gone else Want) (set_spin None s))
  | Some Want =>
      match writer s with
      | Some _ => None
      | None =>
          if is_writer t then
            if decide (readers s = ∅) then Some (move t Inside (set_rw ∅ (Some t) s)) else None
          else Some (move t Inside (set_rw ({[t]} ∪ readers s) None s))
      end
  | Some Inside =>
      if is_writer t then Some (move t Freed (free_data s))
      else Some (move t Leaving (print_data t s))
  | Some Freed => Some (move t Allocated (alloc s))
  | Some Allocated =>
      let rnd := rnd `mod` 3 in Some (move t (Filled rnd) (write_data (fmt_lld rnd) s))
  | Some (Filled rnd) =>
      Some (move t Leaving (print_line ("writer writer [" +:+ fmt_lld rnd +:+ "]") s))
  | Some Leaving =>
      Some (move t Sleeping (if is_writer t then set_rw (readers s) None s
                             else set_rw (readers s ∖ {[t]}) (writer s) s))
  | Some Sleeping => Some (move t Top s)
  | Some Gone | None => None
  end.

Definition main_step (s : st) : option st :=
  match main_at s with
  | Starting => Some (set_main Creating (write_data "source" (alloc s)))
  | Creating =>
      if (length (threads s) <? S READERS)%nat then Some (create s)
      else Some (set_main FirstChar s)
  | FirstChar => Some (set_main Spin s)
  | Spin =>
      match spin s with
      | None => Some (set_main Stopping (set_spin (Some Main) s))
      | Some _ => None
      end
  | Stopping => Some (set_main Unspin (set_stop s))
  | Unspin => Some (set_main SecondChar (set_spin None s))
  | SecondChar => Some (set_main Exited s)
  | Exited => None
  end.

Inductive actor := T (t : nat) (rnd : Z) | M.

Definition act (a : actor) (s : st) : option st :=
  match main_at s, a with
  | Exited, _ => None
  | _, T t rnd => thread_step rnd t s
  | _, M => main_step s
  end.

Definition run : list actor -> st -> option st := exec act.
Definition reachable (s : st) : Prop := reach act init s.

(** ** The invariant *)

(** Has the read-write lock. *)
Definition inside (pc : tpc) : bool :=
  match pc with Inside | Freed | Allocated | Filled _ | Leaving => true | _ => false end.

(** The writer is between [free] and [sprintf]. *)
Definition replacing (pc : tpc) : bool :=
  match pc with Freed | Allocated => true | _ => false end.

Definition good_text (t : string) : Prop := t ∈ ["source"; "0"; "1"; "2"]%string.

Record inv (s : st) : Prop := MkInv {
  i_fault : fault s = false;
  i_readers t pc : threads s !! t = Some pc -> is_writer t = false ->
    inside pc = true -> t ∈ readers s;
  i_writer t pc : threads s !! t = Some pc -> is_writer t = true ->
    inside pc = true -> writer s = Some t;
  i_excl : writer s <> None -> readers s = ∅;
  i_kinds t pc : threads s !! t = Some pc -> replacing pc = true -> is_writer t = true;
  i_fresh : main_at s <> Starting -> (data s < next_block s)%nat;
  i_alloc t : threads s !! t = Some Allocated -> is_Some (heap s !! data s);
  i_data : main_at s <> Starting ->
    (forall t pc, threads s !! t = Some pc -> replacing pc = false) ->
    exists text, heap s !! data s = Some (Some text) /\ good_text text;
  i_start : main_at s = Starting -> threads s = []
}.

Lemma writer_unique t t' : is_writer t = true -> is_writer t' = true -> t = t'.
Proof. unfold is_writer. intros H%Nat.eqb_eq H'%Nat.eqb_eq. congruence. Qed.

(** Moving one thread. *)
Lemma inv_move s t pc pc' d h n stp sp r w ls :
  inv s -> threads s !! t = Some pc ->
  (forall t', t' <> t -> is_writer t' = false -> t' ∈ readers s -> t' ∈ r) ->
  (forall t', t' <> t -> writer s = Some t' -> w = Some t') ->
  (w <> None -> r = ∅) ->
  (inside pc' = true -> if is_writer t then w = Some t else t ∈ r) ->
  (replacing pc' = true -> is_writer t = true) ->
  (d < n)%nat ->
  (d = data s /\ h = heap s \/ is_writer t = true) ->
  (pc' = Allocated -> is_Some (h !! d)) ->
  (replacing pc' = false -> (d = data s /\ h = heap s /\ replacing pc = false) \/
     exists text, h !! d = Some (Some text) /\ good_text text) ->
  inv (MkSt d h n stp sp r w (<[t := pc']> (threads s)) (main_at s) ls false).
Proof.
  intros [H1 H2 H3 H4 H5 H6 H7 H8 H9] Ht Hr Hw He Hin Hk Hn Hd Ha Ht'.
  pose proof (lookup_lt_Some _ _ _ Ht) as Hlt.
  assert (main_at s <> Starting) as Hm by (intros E; rewrite H9, lookup_nil in Ht by done; done).
  split; cbn; [done| | |done| |done| | |done].
  - intros t' q. destruct (decide (t' = t)) as [->|Hne].
    + rewrite list_lookup_insert_eq by done. intros [= ->] E Hi. specialize (Hin Hi). by rewrite E in Hin.
    + rewrite list_lookup_insert_ne by done. intros Hq E Hi. apply Hr; [done|done|]. by eapply H2.
  - intros t' q. destruct (decide (t' = t)) as [->|Hne].
    + rewrite list_lookup_insert_eq by done. intros [= ->] E Hi. specialize (Hin Hi). by rewrite E in Hin.
    + rewrite list_lookup_insert_ne by done. intros Hq E Hi. apply Hw; [done|]. by eapply H3.
  - intros t' q. destruct (decide (t' = t)) as [->|Hne].
    + rewrite list_lookup_insert_eq by done. by intros [= ->].
    + rewrite list_lookup_insert_ne by done. apply H5.
  - intros t'. destruct (decide (t' = t)) as [->|Hne].
    + rewrite list_lookup_insert_eq by done. intros [= ->]. by apply Ha.
    + rewrite list_lookup_insert_ne by done. intros Hq.
      destruct Hd as [[-> ->]|Hwt]; [by eapply H7|].
      destruct Hne. apply writer_unique; [|done]. by eapply H5.
  - intros _ Hall. assert (replacing pc' = false) as Hp.
    { apply (Hall t). by rewrite list_lookup_insert_eq. }
    destruct (Ht' Hp) as [(-> & -> & Hpc)|?]; [|done]. apply H8; [done|].
    intros t' q Hq. destruct (decide (t' = t)) as [->|Hne]; [congruence|].
    apply (Hall t'). by rewrite list_lookup_insert_ne.
Qed.

(** While somebody else has the lock to read, nobody replaces the text. *)
Lemma nobody_replaces s t pc :
  inv s -> threads s !! t = Some pc -> is_writer t = false -> inside pc = true ->
  exists text, heap s !! data s = Some (Some text) /\ good_text text.
Proof.
  intros H Ht Hw Hin. apply (i_data _ H).
  - intros E. by rewrite (i_start _ H E), lookup_nil in Ht.
  - intros t' q Hq. destruct (replacing q) eqn:Hr; [|done]. exfalso.
    pose proof (i_kinds _ H _ _ Hq Hr) as Hw'.
    assert (writer s = Some t') as Ew by (eapply (i_writer _ H); [done|done|by destruct q]).
    assert (readers s = ∅) as Er by (apply (i_excl _ H); congruence).
    pose proof (i_readers _ H _ _ Ht Hw Hin) as Hr'. rewrite Er in Hr'. set_solver.
Qed.

(** The block is there when the writer has the lock and has not freed it. *)
Lemma writer_block s t pc :
  inv s -> threads s !! t = Some pc -> is_writer t = true -> replacing pc = false ->
  exists text, heap s !! data s = Some (Some text) /\ good_text text.
Proof.
  intros H Ht Hw Hin. apply (i_data _ H).
  - intros E. by rewrite (i_start _ H E), lookup_nil in Ht.
  - intros t' q Hq. destruct (replacing q) eqn:Hr; [|done]. exfalso.
    pose proof (i_kinds _ H _ _ Hq Hr) as Hw'. pose proof (writer_unique _ _ Hw Hw'). subst t'.
    congruence.
Qed.

Lemma good_rnd rnd : good_text (fmt_lld (rnd `mod` 3)).
Proof.
  pose proof (Z.mod_pos_bound rnd 3 ltac:(lia)) as H. unfold good_text.
  apply list_elem_of_In.
  assert (rnd `mod` 3 = 0 \/ rnd `mod` 3 = 1 \/ rnd `mod` 3 = 2) as [-> |[-> | ->]] by lia;
    vm_compute; tauto.
Qed.

(** Brings a changed state to constructor form. *)
Ltac reduce Hf :=
  unfold move, set_spin, set_rw, set_heap, print_line, alloc;
  cbn [data heap next_block stop spin readers writer threads main_at lines fault];
  rewrite Hf.

Lemma rw_inv_thread rnd t s s' : inv s -> thread_step rnd t s = Some s' -> inv s'.
Proof.
  intros H Hs. unfold thread_step in Hs. destruct (threads s !! t) as [pc|] eqn:Ht; [|done].
  assert (main_at s <> Starting) as Hm.
  { intros E. by rewrite (i_start _ H E), lookup_nil in Ht. }
  pose proof (i_fresh _ H Hm) as Hn. pose proof (i_fault _ H) as Hf. pose proof (i_excl _ H) as He.
  destruct pc as [| |b| | | | |v| | |]; [| | | | | | | | | |done].
  - destruct (spin s); [done|]. simplify_eq. reduce Hf. eapply inv_move; eauto; done.
  - simplify_eq. reduce Hf. eapply inv_move; eauto; done.
  - simplify_eq. reduce Hf. destruct b; (eapply inv_move; eauto; done).
  - destruct (writer s) eqn:Ew; [done|]. destruct (is_writer t) eqn:Et.
    + destruct (decide (readers s = ∅)) as [Er|]; [|done]. simplify_eq. reduce Hf. eapply inv_move; eauto; try done.
      * intros. set_solver.
      * intros. congruence.
      * by rewrite Et.
    + simplify_eq. reduce Hf. eapply inv_move; eauto; try done.
      * intros. set_solver.
      * intros. congruence.
      * rewrite Et. intros. set_solver.
  - destruct (is_writer t) eqn:Et; simplify_eq.
    + destruct (writer_block s t Inside H Ht Et eq_refl) as (x & Hx & _).
      unfold free_data. rewrite Hx. reduce Hf. eapply inv_move; eauto; try done. rewrite Et. intros _. by eapply (i_writer _ H).
    + destruct (nobody_replaces s t Inside H Ht Et eq_refl) as (x & Hx & _).
      unfold print_data. rewrite Hx. reduce Hf. eapply inv_move; eauto; try done. rewrite Et. intros _. by eapply (i_readers _ H).
  - simplify_eq. pose proof (i_kinds _ H _ _ Ht eq_refl) as Et. reduce Hf. eapply inv_move; eauto; try done.
    + rewrite Et. intros _. by eapply (i_writer _ H).
    + intros _. by rewrite lookup_insert_eq.
  - simplify_eq. pose proof (i_kinds _ H _ _ Ht eq_refl) as Et.
    destruct (i_alloc _ H _ Ht) as [x Hx]. unfold write_data. rewrite Hx.
    reduce Hf. eapply inv_move; eauto; try done.
    + rewrite Et. intros _. by eapply (i_writer _ H).
    + intros _. right. eexists. rewrite lookup_insert_eq. split; [done|]. apply good_rnd.
  - simplify_eq. reduce Hf. eapply inv_move; eauto; try done.
    intros _. destruct (is_writer t) eqn:Et; [by eapply (i_writer _ H)|by eapply (i_readers _ H)].
  - simplify_eq. destruct (is_writer t) eqn:Et; reduce Hf; eapply inv_move; eauto; try done.
    + intros t' Hne Hw. pose proof (i_writer _ H _ _ Ht Et eq_refl). congruence.
    + intros. set_solver.
    + intros Hw. rewrite (He Hw). set_solver.
  - simplify_eq. reduce Hf. eapply inv_move; eauto; done.
Qed.

(** A step of [main] after the start leaves the data, the lock and the threads' places. *)
Lemma rw_inv_main s m ts stp sp ls :
  inv s -> main_at s <> Starting -> m <> Starting ->
  ts = threads s \/ ts = threads s ++ [Top] ->
  inv (MkSt (data s) (heap s) (next_block s) stp sp (readers s) (writer s) ts m ls (fault s)).
Proof.
  intros [H1 H2 H3 H4 H5 H6 H7 H8 H9] Hm Hm' Hts.
  assert (forall t pc, ts !! t = Some pc -> pc = Top \/ threads s !! t = Some pc) as Hold.
  { intros t pc. destruct Hts as [-> | ->]; [by right|].
    intros [?|[_ Hb]]%lookup_app_Some; [by right|left].
    by apply list_lookup_singleton_Some in Hb as [_ <-]. }
  split; cbn; [done| | |done| |by intros _; apply H6| | |done].
  - intros t pc Hp Hw Hi. destruct (Hold t pc Hp) as [-> |Hq]; [done|]. by eapply H2.
  - intros t pc Hp Hw Hi. destruct (Hold t pc Hp) as [-> |Hq]; [done|]. by eapply H3.
  - intros t pc Hp Hi. destruct (Hold t pc Hp) as [-> |Hq]; [done|]. by eapply H5.
  - intros t Hp. destruct (Hold t _ Hp) as [?|Hq]; [done|]. by eapply H7.
  - intros _ Hall. apply H8; [done|]. intros t pc Hp. apply (Hall t).
    destruct Hts as [-> | ->]; [done|]. by apply lookup_app_l_Some.
Qed.

Lemma rw_inv_main_step s s' : inv s -> main_step s = Some s' -> inv s'.
Proof.
  intros H Hs. unfold main_step in Hs. destruct (main_at s) eqn:Em.
  - simplify_eq. unfold alloc, write_data. cbn. rewrite lookup_insert_eq.
    pose proof (i_start _ H Em) as E. destruct H as [H1 H2 H3 H4 H5 H6 H7 H8 H9].
    unfold set_heap, set_main. cbn. split; cbn; rewrite ?E; try done.
    + lia.
    + intros _ _. eexists. rewrite lookup_insert_eq. split; [done|]. by left.
  - destruct (length (threads s) <? S READERS)%nat; simplify_eq.
    + unfold create. apply (rw_inv_main s); [done|by rewrite Em|by rewrite Em|by right].
    + apply (rw_inv_main s); [done|by rewrite Em|done|by left].
  - simplify_eq. apply (rw_inv_main s); [done|by rewrite Em|done|by left].
  - destruct (spin s); [done|]. simplify_eq. apply (rw_inv_main s); [done|by rewrite Em|done|by left].
  - simplify_eq. apply (rw_inv_main s); [done|by rewrite Em|done|by left].
  - simplify_eq. apply (rw_inv_main s); [done|by rewrite Em|done|by left].
  - simplify_eq. apply (rw_inv_main s); [done|by rewrite Em|done|by left].
  - done.
Qed.

Lemma rw_inv_reachable s : reachable s -> inv s.
Proof.
  apply reach_inv.
  - split; cbn; try done; intros; by rewrite ?lookup_nil in *.
  - intros a s0 s1 H Ha. unfold act in Ha.
    destruct (main_at s0), a; try done;
      solve [by eapply rw_inv_thread|by eapply rw_inv_main_step].
Qed.

(** What is printed. *)
Definition reader_line (l : string) : Prop :=
  exists t text, good_text text /\ l = "reader " +:+ reader_name t +:+ " [" +:+ text +:+ "]".
Definition writer_line (l : string) : Prop :=
  exists n, 0 <= n < 3 /\ l = "writer writer [" +:+ fmt_lld n +:+ "]".

Definition good_lines (s : st) : Prop :=
  Forall (fun l => reader_line l \/ writer_line l) (lines s) /\
  forall t v, threads s !! t = Some (Filled v) -> 0 <= v < 3.

Lemma good_lines_thread rnd t s s' :
  inv s -> good_lines s -> thread_step rnd t s = Some s' -> good_lines s'.
Proof.
  intros H [Hl Hv] Hs. unfold thread_step in Hs.
  destruct (threads s !! t) as [pc|] eqn:Ht; [|done].
  assert (forall pc' s1, (forall v, pc' = Filled v -> 0 <= v < 3) ->
    threads s1 = threads s -> Forall (fun l => reader_line l \/ writer_line l) (lines s1) ->
    good_lines (move t pc' s1)) as Hgood.
  { intros pc' s1 Hpc Hts Hls. split; [done|]. intros t' v. cbn. rewrite Hts.
    destruct (decide (t' = t)) as [->|Hne].
    - rewrite list_lookup_insert_eq by (by eapply lookup_lt_Some). intros [= ->]. by apply Hpc.
    - rewrite list_lookup_insert_ne by done. apply Hv. }
  destruct pc as [| |b| | | | |v| | |]; [| | | | | | | | | |done].
  - destruct (spin s); simplify_eq. by apply Hgood.
  - simplify_eq. by apply Hgood.
  - simplify_eq. apply Hgood; [by destruct b|done|done].
  - destruct (writer s); [done|]. destruct (is_writer t); [destruct (decide _); [|done]|];
      simplify_eq; by apply Hgood.
  - destruct (is_writer t) eqn:Et; simplify_eq.
    + unfold free_data. destruct (heap s !! data s); by apply Hgood.
    + destruct (nobody_replaces s t Inside H Ht Et eq_refl) as (x & Hx & Hg).
      unfold print_data. rewrite Hx. apply Hgood; [done|done|]. cbn.
      apply Forall_app. split; [done|]. constructor; [|done]. left. by exists t, x.
  - simplify_eq. by apply Hgood.
  - simplify_eq. unfold write_data. pose proof (Z.mod_pos_bound rnd 3 ltac:(lia)).
    destruct (heap s !! data s); (apply Hgood; [by intros ? [= <-]|done|done]).
  - simplify_eq. apply Hgood; [done|done|]. cbn. apply Forall_app. split; [done|].
    constructor; [|done]. right. exists v. split; [by eapply Hv|done].
  - simplify_eq. destruct (is_writer t); by apply Hgood.
  - simplify_eq. by apply Hgood.
Qed.

Lemma good_lines_reachable s : reachable s -> good_lines s.
Proof.
  intros Hs. cut (inv s /\ good_lines s); [by intros []|]. revert s Hs. apply reach_inv.
  - split; [apply rw_inv_reachable; by exists []|]. split; [constructor|]. cbn. by intros.
  - intros a s s' [Hi Hg] Ha. assert (inv s') as Hi'.
    { unfold act in Ha. destruct (main_at s), a; try done;
        solve [by eapply rw_inv_thread|by eapply rw_inv_main_step]. }
    split; [done|]. unfold act in Ha.
    assert (forall rnd t, thread_step rnd t s = Some s' -> good_lines s') as HT
      by (intros rnd t; by apply good_lines_thread).
    assert (main_step s = Some s' -> good_lines s') as HM.
    { unfold main_step. destruct Hg as [Hl Hv]. intros Hm.
      destruct (main_at s); [| |by simplify_eq| |by simplify_eq|by simplify_eq|by simplify_eq|done].
      - simplify_eq. unfold write_data, alloc. cbn. by rewrite lookup_insert_eq.
      - destruct (length (threads s) <? S READERS)%nat; simplify_eq; [|done]. split; [done|].
        intros t v [?|[_ Hb]]%lookup_app_Some; [by eapply Hv|].
        by apply list_lookup_singleton_Some in Hb as [_ ?].
      - destruct (spin s); by simplify_eq. }
    destruct (main_at s), a; try done; eauto.
Qed.

(** C15. No thread reads or frees a block that was freed or was not written, whatever the
    schedule and the numbers drawn; a reader prints the initial text or a number from 0 to
    2, never half of a replacement; and while the writer has the lock no reader does. *)
Theorem no_use_after_free s :
  reachable s ->
  fault s = false /\
  Forall (fun l => reader_line l \/ writer_line l) (lines s) /\
  (forall t t' pc pc', threads s !! t = Some pc -> threads s !! t' = Some pc' ->
     is_writer t = true -> inside pc = true -> inside pc' = true -> t' = t).
Proof.
  intros Hs. pose proof (rw_inv_reachable s Hs) as H. split; [by apply i_fault|].
  split; [by apply good_lines_reachable|]. intros t t' pc pc' Ht Ht' Hw Hi Hi'.
  destruct (is_writer t') eqn:Ew; [symmetry; by apply writer_unique|]. exfalso.
  pose proof (i_writer _ H _ _ Ht Hw Hi) as E.
  assert (readers s = ∅) as Er by (apply (i_excl _ H); congruence).
  pose proof (i_readers _ H _ _ Ht' Ew Hi') as Hr. rewrite Er in Hr.
  by apply elem_of_empty in Hr.
Qed.

(** The six threads run once: a reader prints the first text, the writer replaces it, and a
    reader prints the new one. *)
Definition six_threads : list actor := replicate 8 M.
Definition one_turn (t : nat) : list actor := replicate 6 (T t 2).
Definition a_day : list actor :=
  six_threads ++ one_turn 0 ++ [T 0 0] ++ replicate 9 (T 5 2) ++ one_turn 1.

Lemma no_use_after_free_witness :
  exists s, run a_day init = Some s /\ length (lines s) = 3%nat /\
  fault s = false /\
  Forall (fun l => reader_line l \/ writer_line l) (lines s) /\
  (forall t t' pc pc', threads s !! t = Some pc -> threads s !! t' = Some pc' ->
     is_writer t = true -> inside pc = true -> inside pc' = true -> t' = t).
Proof.
  destruct (run a_day init) as [s|] eqn:E; [|vm_compute in E; discriminate].
  exists s. split; [done|]. split.
  - revert E. vm_compute. intros [= <-]. reflexivity.
  - apply no_use_after_free. by exists a_day.
Defined.

(** ** The end *)

(** The steps a thread has left once [stop] is set. *)
Definition left_over (pc : tpc) : nat :=
  match pc with
  | Flagged false => 11
  | Want => 10
  | Inside => 9
  | Freed => 8
  | Allocated => 7
  | Filled _ => 6
  | Leaving => 5
  | Sleeping => 4
  | Top => 3
  | SpinHeld => 2
  | Flagged true => 1
  | Gone => 0
  end.

Abbreviation all_left := (sum_by (fun pc => Z.of_nat (left_over pc))).

Definition main_left (m : mpc) : nat :=
  match m with Unspin => 2 | SecondChar => 1 | _ => 0 end.

Lemma all_left_bound ts : 0 <= all_left ts <= 11 * Z.of_nat (length ts).
Proof.
  apply (sum_by_bound _ 0 11). intros pc _. destruct pc as [| |[]| | | | | | | |]; cbn; lia.
Qed.

Definition measure (s : st) : Z := all_left (threads s) + Z.of_nat (main_left (main_at s)).

(** [stop] is set by [main] after it has created the threads, and stays set. *)
Definition late (s : st) : Prop :=
  (length (threads s) <= S READERS)%nat /\
  (stop s = true -> main_at s = Unspin \/ main_at s = SecondChar \/ main_at s = Exited).

Lemma thread_step_main rnd t s s' :
  thread_step rnd t s = Some s' ->
  main_at s' = main_at s /\ stop s' = stop s /\
  exists pc pc', threads s !! t = Some pc /\ threads s' = <[t := pc']> (threads s) /\
    (stop s = true -> left_over pc' < left_over pc)%nat.
Proof.
  intros Hs. unfold thread_step in Hs. destruct (threads s !! t) as [pc|] eqn:Ht; [|done].
  destruct pc as [| |b| | | | |v| | |]; [| | | | | | | | | |done].
  - destruct (spin s); simplify_eq. repeat split; do 2 eexists; repeat split; cbn; lia.
  - simplify_eq. repeat split; do 2 eexists; repeat split. intros ->. cbn. lia.
  - simplify_eq. repeat split; do 2 eexists; repeat split. destruct b; cbn; lia.
  - destruct (writer s); [done|]. destruct (is_writer t); [destruct (decide _); [|done]|];
      simplify_eq; repeat split; do 2 eexists; repeat split; cbn; lia.
  - unfold free_data, print_data in Hs.
    destruct (is_writer t), (heap s !! data s) as [[]|]; simplify_eq;
      repeat split; do 2 eexists; repeat split; cbn; lia.
  - simplify_eq. repeat split; do 2 eexists; repeat split; cbn; lia.
  - unfold write_data in Hs. destruct (heap s !! data s); simplify_eq;
      repeat split; do 2 eexists; repeat split; cbn; lia.
  - simplify_eq. repeat split; do 2 eexists; repeat split; cbn; lia.
  - simplify_eq. destruct (is_writer t); repeat split; do 2 eexists; repeat split; cbn; lia.
  - simplify_eq. repeat split; do 2 eexists; repeat split; cbn; lia.
Qed.

Lemma late_step a s s' : late s -> act a s = Some s' -> late s'.
Proof.
  intros [Hl Hm] Ha. unfold act in Ha. destruct (main_at s) eqn:Em, a as [t rnd|]; try done.
  all: try (apply thread_step_main in Ha as (E1 & E2 & pc & pc' & _ & Ets & _);
            split; [by rewrite Ets, length_insert|]; by rewrite E1, E2, Em).
  all: unfold main_step in Ha; rewrite Em in Ha.
  - simplify_eq. unfold write_data, alloc. cbn. rewrite lookup_insert_eq. split; [done|].
    cbn. intros Hstop. destruct (Hm Hstop) as [?|[?|?]]; done.
  - destruct (Nat.ltb_spec (length (threads s)) (S READERS)); simplify_eq; split; cbn.
    + rewrite length_app. cbn. lia.
    + intros Hstop. destruct (Hm Hstop) as [?|[?|?]]; done.
    + done.
    + intros Hstop. destruct (Hm Hstop) as [?|[?|?]]; done.
  - simplify_eq. split; [done|]. cbn. intros Hstop. destruct (Hm Hstop) as [?|[?|?]]; done.
  - destruct (spin s); simplify_eq. split; [done|]. cbn. intros Hstop.
    destruct (Hm Hstop) as [?|[?|?]]; done.
  - simplify_eq. split; [done|]. cbn. auto.
  - simplify_eq. split; [done|]. cbn. auto.
  - simplify_eq. split; [done|]. cbn. auto.
Qed.

Lemma late_reachable s : reachable s -> late s.
Proof. apply reach_inv; [|apply late_step]. split; [cbn; lia|done]. Qed.

Lemma left_step a s s' :
  late s -> stop s = true -> act a s = Some s' -> stop s' = true /\ measure s' < measure s.
Proof.
  intros [_ Hm] Hstop Ha. unfold act in Ha. destruct (Hm Hstop) as [Em|[Em|Em]]; rewrite Em in Ha.
  3: done.
  all: destruct a as [t rnd|].
  all: try (apply thread_step_main in Ha as (E1 & E2 & pc & pc' & Ht & Ets & Hlt);
            split; [congruence|]; unfold measure; rewrite E1, Ets, (sum_by_insert _ _ _ _ _ Ht);
            specialize (Hlt Hstop); lia).
  all: unfold main_step in Ha; rewrite Em in Ha; simplify_eq; split; [done|];
    unfold measure; cbn; rewrite Em; cbn; lia.
Qed.

(** Once [main] has set [stop] the program comes to rest: however the threads are
    scheduled they make at most 66 steps more, and [main] two. *)
Theorem stops_soon s sched s' :
  reachable s -> stop s = true -> run sched s = Some s' -> (length sched <= 68)%nat.
Proof.
  intros Hs Hstop E. pose proof (late_reachable s Hs) as Hl.
  eapply (exec_measure act (fun s => late s /\ stop s = true) measure) in E; [|clear|done].
  - unfold measure in E. pose proof (all_left_bound (threads s)). pose proof (all_left_bound (threads s')).
    destruct Hl as [Hlen _]. unfold READERS in Hlen.
    assert (main_left (main_at s) <= 2)%nat by (destruct (main_at s); cbn; lia). lia.
  - intros a s s' [Hl Hstop] Ha. destruct (left_step a s s' Hl Hstop Ha) as [Hstop' Hlt].
    split; [|done]. split; [by eapply late_step|done].
Qed.

(** [stop] is set while reader 1 is about to read it. *)
Definition to_stop : list actor := six_threads ++ [T 0 0; T 0 0; T 0 0; M; M; M].
Definition stopped : st := default init (run to_stop init).
Definition last_turn : list actor := [M; T 0 0; T 0 0; T 0 0; T 0 0; T 0 0; T 0 0; T 0 0; M].

Lemma stops_soon_witness : stop stopped = true /\ (length last_turn <= 68)%nat.
Proof.
  split; [reflexivity|].
  apply (stops_soon stopped last_turn (default init (run last_turn stopped)));
    [exists to_stop; vm_compute; reflexivity|reflexivity|vm_compute; reflexivity].
Defined.
