(* ===== verification/SelectServer.v ===== *)
(** * week5/ex4.c: the server that uses select

    The choice of an address, the sets of descriptors, and the rounds of the main loop:
    [select], and for every ready descriptor [accept], or one [recv] after which the
    connection is closed.  As in [PollServer] the network is a parameter that answers by
    the time and the arguments. *)

From S2P Require Import Prelude Process CLib PollServer.
From Stdlib Require Import Ascii.
Local Open Scope Z_scope.
Local Open Scope c_scope.

Definition BUF_SIZE : Z := 1024.
Definition FD_SETSIZE : Z := 1024.

(** What happens for one result of [getaddrinfo]: the socket, and the errors of
    [setsockopt] and [bind]. *)
Record address := MkAddress {
  a_socket : Z + Z;
  a_setsockopt : option Z;
  a_bind : option Z
}.

Record env := MkEnv {
  e_getaddrinfo : list address + Z;
  e_listen : option Z;
  e_select : nat -> gset Z -> gset Z + Z;
  e_accept : nat -> gset Z -> Z + Z;
  e_recv : nat -> Z -> list Z + Z
}.

(** [master], [maxfd], the open descriptors, [errno], the time and what was printed. *)
Record sst := MkS {
  master : gset Z;
  maxfd : Z;
  s_opened : gset Z;
  s_errno : Z;
  s_time : nat;
  s_log : list ev
}.

Definition say (e : ev) (s : sst) : sst :=
  MkS (master s) (maxfd s) (s_opened s) (s_errno s) (s_time s) (s_log s ++ [e]).
Definition out (t : string) : sst -> sst := say (Out t).
Definition tick (s : sst) : sst :=
  MkS (master s) (maxfd s) (s_opened s) (s_errno s) (S (s_time s)) (s_log s).
Definition fail_with (e : Z) (s : sst) : sst :=
  MkS (master s) (maxfd s) (s_opened s) e (S (s_time s)) (s_log s).
Definition open_fd (d : Z) (s : sst) : sst :=
  MkS (master s) (maxfd s) ({[d]} ∪ s_opened s) (s_errno s) (s_time s) (s_log s).
Definition set_master (m : gset Z) (n : Z) (s : sst) : sst :=
  MkS m n (s_opened s) (s_errno s) (s_time s) (s_log s).

(** [die]: the message and the exit status. *)
Definition die (msg : string) (s : sst) : res (option Z * sst) :=
  Ok (Some EXIT_FAILURE, say (Perror msg (s_errno s)) s).

(** [FD_SET]: the set has [FD_SETSIZE] bits. *)
Definition FD_SET (d : Z) (m : gset Z) : res (gset Z) :=
  if (0 <=? d) && (d <? FD_SETSIZE) then Ok ({[d]} ∪ m) else Undef OutOfBounds.

(** The loop over the addresses: [sockfd] as it is left, [None] when it was never set. *)
Fixpoint choose (addrs : list address) (sockfd : option Z) (s : sst) : option Z * sst :=
  match addrs with
  | [] => (sockfd, s)
  | a :: addrs =>
      match a_socket a with
      | inr e => choose addrs (Some (-1)) (say (Perror "socket()" e) (fail_with e s))
      | inl d =>
          let s := open_fd d s in
          match a_setsockopt a, a_bind a with
          | Some e, _ => choose addrs (Some d) (say (Perror "setsockopt()" e) (fail_with e s))
          | None, Some e => choose addrs (Some d) (say (Perror "bind" e) (fail_with e s))
          | None, None => (Some d, s)
          end
      end
  end.

Section Server.
Context (E : env).

(** Everything before the loop: the listening socket, or the exit status. *)
Definition set_up (s : sst) : res ((Z + Z) * sst) :=
  match e_getaddrinfo E with
  | inr e => let* (_, s) := die "getaddrinfo()" (fail_with e s) in Ok (inr EXIT_FAILURE, s)
  | inl addrs =>
      match choose addrs None s with
      | (None, _) => Undef UninitRead
      | (Some sockfd, s) =>
          if sockfd =? -1 then Ok (inr EXIT_FAILURE, s)
          else match e_listen E with
               | Some e => let* (_, s) := die "listen()" (fail_with e s) in Ok (inr EXIT_FAILURE, s)
               | None =>
                   let* m := FD_SET sockfd ∅ in
                   Ok (inl sockfd, set_master m sockfd s)
               end
      end
  end.

(** [buffer[nbytes] = 0], [printf("{%s}", buffer)] *)
Definition show_message (bytes : list Z) : res string :=
  if Z.of_nat (length bytes) <? BUF_SIZE then c_string (bytes ++ [0]) else Undef OutOfBounds.

(** One ready descriptor: [Some] of a status when the program exits, and whether the loop
    over the descriptors is left. *)
Definition accept_new (sockfd : Z) (s : sst) : res (option Z * bool * sst) :=
  let s := out ("Trying to accept() new connection(s)" +:+ nl) s in
  match e_accept E (s_time s) (s_opened s) with
  | inr e =>
      let s := fail_with e s in
      if e =? EWOULDBLOCK then Ok (None, true, s)
      else let* (st, s) := die "accept()" s in Ok (st, true, s)
  | inl d =>
      let s := open_fd d (tick s) in
      let* m := FD_SET d (master s) in
      Ok (None, false, set_master m (Z.max (maxfd s) d) s)
  end.

Definition read_from (i : Z) (s : sst) : res (option Z * bool * sst) :=
  let s := out ("Received data from descriptor [" +:+ fmt_lld i +:+ "]" +:+ nl) s in
  match e_recv E (s_time s) i with
  | inr e => Undef OutOfBounds (* nbytes is -1: buffer[-1] is written *)
  | inl bytes =>
      let s := tick s in
      let* t := show_message bytes in
      let s := out ("{" +:+ t +:+ "}") s in
      let nbytes := Z.of_nat (length bytes) in
      let s := out (fmt_lld nbytes +:+ " bytes received" +:+ nl) s in
      if nbytes <=? 0 then
        if s_errno s =? EWOULDBLOCK then Ok (None, true, s)
        else let* (st, s) := die "recv()" s in Ok (st, true, s)
      else
        Ok (None, false,
            MkS (master s ∖ {[i]}) (maxfd s) (s_opened s ∖ {[i]}) (s_errno s) (s_time s) (s_log s))
  end.

(** [for(i = 0; i <= maxfd && nready > 0; i++)] *)
Fixpoint scan (fuel : nat) (sockfd i nready : Z) (readfds : gset Z) (s : sst)
  : res (option Z * sst) :=
  match fuel with
  | O => NoFuel
  | S fuel =>
      if (i <=? maxfd s) && (0 <? nready) then
        if decide (i ∈ readfds) then
          let* (st, brk, s) := if i =? sockfd then accept_new sockfd s else read_from i s in
          match st with
          | Some status => Ok (Some status, s)
          | None => if brk : bool then Ok (None, s)
                    else scan fuel sockfd (i + 1) (nready - 1) readfds s
          end
        else scan fuel sockfd (i + 1) nready readfds s
      else Ok (None, s)
  end.

(** The body of [for(;;)]; an index below [FD_SETSIZE] for every step of the inner loop. *)
Definition round (sockfd : Z) (s : sst) : res (option Z * sst) :=
  let s := out ("Sleeping in select()" +:+ nl) s in
  match e_select E (s_time s) (master s) with
  | inr e => die "select()" (fail_with e s)
  | inl readfds =>
      let s := tick s in
      let nready := Z.of_nat (size readfds) in
      let s := out ("Number of ready descriptors: " +:+ fmt_lld nready +:+ nl) s in
      scan (S (Z.to_nat FD_SETSIZE)) sockfd 0 nready readfds s
  end.

Fixpoint serve (n : nat) (sockfd : Z) (s : sst) : res (option Z * sst) :=
  match n with
  | O => Ok (None, s)
  | S n =>
      let* (st, s) := round sockfd s in
      match st with
      | Some status => Ok (Some status, s)
      | None => serve n sockfd s
      end
  end.

(** [main] for [n] rounds: the exit status, or [None] while it runs. *)
Definition main (n : nat) : res (option Z * sst) :=
  let* (r, s) := set_up (MkS ∅ 0 ∅ 0 0 []) in
  match r with
  | inr status => Ok (Some status, s)
  | inl sockfd => serve n sockfd s
  end.

End Server.

(** ** The server runs *)

(** What the system promises: the socket is a descriptor that fits in a set; [select]
    answers a part of the set it was given; a descriptor that [accept] gives is new and
    fits in a set; [recv] does not fail, and its message leaves room for a NUL. *)
Record env_ok (E : env) : Prop := MkEnvOk {
  ok_socket l a d : e_getaddrinfo E = inl l -> a ∈ l -> a_socket a = inl d -> 0 <= d < FD_SETSIZE;
  ok_addrs : e_getaddrinfo E <> inl [];
  ok_select t m r : e_select E t m = inl r -> r ⊆ m;
  ok_accept t o d : e_accept E t o = inl d -> 0 <= d < FD_SETSIZE /\ d ∉ o;
  ok_recv t i : exists b, e_recv E t i = inl b /\ Z.of_nat (length b) < BUF_SIZE
}.

(** The set is the listening socket and the connections; all of it is open and below
    [maxfd]. *)
Record serving (sockfd : Z) (s : sst) : Prop := MkServing {
  sv_listen : sockfd ∈ master s;
  sv_open : master s ⊆ s_opened s;
  sv_range : forall d, d ∈ master s -> 0 <= d <= maxfd s;
  sv_max : maxfd s < FD_SETSIZE
}.

Lemma serving_say sockfd e s : serving sockfd s -> serving sockfd (say e s).
Proof. intros []. by split. Qed.

Lemma serving_tick sockfd s : serving sockfd s -> serving sockfd (tick s).
Proof. intros []. by split. Qed.

Lemma serving_fail sockfd e s : serving sockfd s -> serving sockfd (fail_with e s).
Proof. intros []. by split. Qed.

#[local] Hint Resolve serving_say serving_tick serving_fail : srv.

Lemma accept_new_ok E sockfd s :
  env_ok E -> serving sockfd s ->
  exists st brk s', accept_new E sockfd s = Ok (st, brk, s') /\ serving sockfd s'.
Proof.
  intros HE H. unfold accept_new. set (s1 := out _ s).
  assert (serving sockfd s1) as H1 by (by apply serving_say).
  destruct (e_accept E (s_time s1) (s_opened s1)) as [d|e] eqn:Ea.
  - apply (ok_accept E HE) in Ea as [Hd Hnew]. unfold FD_SET.
    rewrite (proj2 (Z.leb_le 0 d)), (proj2 (Z.ltb_lt d _)) by lia. cbn [andb rbind].
    do 3 eexists. split; [done|]. destruct H1 as [A B C D]. cbn in *. split; cbn.
    + apply elem_of_union. by right.
    + by apply union_mono.
    + intros x [->%elem_of_singleton|Hx]%elem_of_union; [lia|]. specialize (C x Hx). lia.
    + lia.
  - destruct (e =? EWOULDBLOCK); do 3 eexists; (split; [done|]); auto with srv.
Qed.

Lemma show_message_ok b :
  Z.of_nat (length b) < BUF_SIZE -> exists t, show_message b = Ok t.
Proof.
  intros Hl. unfold show_message. rewrite (proj2 (Z.ltb_lt _ _) Hl). apply c_string_ok.
  apply elem_of_app. right. by left.
Qed.

Lemma read_from_ok E sockfd i s :
  env_ok E -> serving sockfd s -> i <> sockfd ->
  exists st brk s', read_from E i s = Ok (st, brk, s') /\ serving sockfd s'.
Proof.
  intros HE H Hi. unfold read_from. set (s1 := out _ s).
  assert (serving sockfd s1) as H1 by (by apply serving_say).
  destruct (ok_recv E HE (s_time s1) i) as (b & -> & Hb).
  destruct (show_message_ok b Hb) as [t ->]. cbn [rbind].
  destruct (_ <=? 0).
  - destruct (s_errno _ =? EWOULDBLOCK); do 3 eexists; (split; [done|]);
      repeat apply serving_say; by apply serving_tick.
  - do 3 eexists. split; [done|]. destruct H1 as [A B C D]. split; cbn in *.
    + apply elem_of_difference. split; [done|]. by rewrite elem_of_singleton.
    + by apply difference_mono_r.
    + intros d [Hd _]%elem_of_difference. by apply C.
    + done.
Qed.

Lemma scan_ok E sockfd fuel i nready readfds s :
  env_ok E -> serving sockfd s -> 0 <= i <= FD_SETSIZE -> FD_SETSIZE < Z.of_nat fuel + i ->
  exists st s', scan E fuel sockfd i nready readfds s = Ok (st, s') /\ serving sockfd s'.
Proof.
  intros HE. revert i nready s. induction fuel as [|fuel IH]; intros i nready s H Hi Hf; [lia|].
  cbn [scan]. destruct ((i <=? maxfd s) && (0 <? nready)) eqn:Hb; [|by exists None, s].
  apply andb_true_iff in Hb as [Hm%Z.leb_le _]. pose proof (sv_max _ _ H) as Hmax.
  destruct (decide (i ∈ readfds)); [|apply IH; [done|lia|lia]].
  destruct (Z.eqb_spec i sockfd) as [->|Hne].
  - destruct (accept_new_ok E sockfd s HE H) as (st & brk & s1 & -> & H1). cbn [rbind].
    destruct st as [z|]; [by exists (Some z), s1|]. destruct brk; [by exists None, s1|].
    apply IH; [done|lia|lia].
  - destruct (read_from_ok E sockfd i s HE H Hne) as (st & brk & s1 & -> & H1). cbn [rbind].
    destruct st as [z|]; [by exists (Some z), s1|]. destruct brk; [by exists None, s1|].
    apply IH; [done|lia|lia].
Qed.

Lemma serve_ok E sockfd n s :
  env_ok E -> serving sockfd s ->
  exists st s', serve E n sockfd s = Ok (st, s') /\ serving sockfd s'.
Proof.
  intros HE. revert s. induction n as [|n IH]; intros s H; cbn [serve]; [by exists None, s|].
  unfold round. set (s1 := out _ s). assert (serving sockfd s1) as H1 by (by apply serving_say).
  destruct (e_select E (s_time s1) (master s1)) as [readfds|e].
  - set (s2 := out _ (tick s1)).
    assert (serving sockfd s2) as H2 by (by apply serving_say, serving_tick).
    destruct (scan_ok E sockfd (S (Z.to_nat FD_SETSIZE)) 0 (Z.of_nat (size readfds)) readfds s2 HE H2)
      as (st & s3 & -> & H3); [unfold FD_SETSIZE; lia|unfold FD_SETSIZE; lia|]. cbn [rbind].
    destruct st as [z|]; [by exists (Some z), s3|]. by apply IH.
  - cbn [die rbind]. do 2 eexists. split; [done|]. by apply serving_say, serving_fail.
Qed.

Lemma choose_range addrs o s :
  (forall a d, a ∈ addrs -> a_socket a = inl d -> 0 <= d < FD_SETSIZE) ->
  (match o with Some d => d = -1 \/ 0 <= d < FD_SETSIZE /\ d ∈ s_opened s | None => addrs <> [] end) ->
  exists d s', choose addrs o s = (Some d, s') /\ (d = -1 \/ 0 <= d < FD_SETSIZE /\ d ∈ s_opened s').
Proof.
  intros Ha. revert o s. induction addrs as [|a addrs IH]; intros o s Ho; cbn [choose].
  - destruct o as [d|]; [|done]. by exists d, s.
  - assert (forall b d, b ∈ addrs -> a_socket b = inl d -> 0 <= d < FD_SETSIZE) as Ha'
      by (intros b d Hb; apply Ha; by right).
    destruct (a_socket a) as [d|e] eqn:Ed; [|apply IH; [done|by left]].
    specialize (Ha a d ltac:(by left) Ed).
    assert (d ∈ s_opened (open_fd d s)) as Hd by (cbn; set_solver).
    destruct (a_setsockopt a) as [e|]; [apply IH; [done|by right]|].
    destruct (a_bind a) as [e|]; [apply IH; [done|by right]|].
    exists d, (open_fd d s). split; [done|]. by right.
Qed.

(** While messages leave room for a NUL and no [recv] fails, the server has no undefined
    behaviour for any number of rounds, and in every state of its loop the descriptors it
    watches are open, among them the listening socket, and none is above [maxfd]. *)
Theorem select_server_runs E n :
  env_ok E ->
  exists st s, main E n = Ok (st, s) /\
    (st = None -> exists sockfd, sockfd ∈ master s /\ master s ⊆ s_opened s /\
       forall d, d ∈ master s -> 0 <= d <= maxfd s /\ maxfd s < FD_SETSIZE).
Proof.
  intros HE. unfold main, set_up. destruct (e_getaddrinfo E) as [addrs|e] eqn:Eg.
  - destruct (choose_range addrs None (MkS ∅ 0 ∅ 0 0 [])) as (d & s & -> & Hd).
    { intros a d Ha. by apply (ok_socket E HE addrs). }
    { intros ->. by apply (ok_addrs E HE). }
    destruct (Z.eqb_spec d (-1)) as [->|Hne]; cbn [rbind]; [by do 2 eexists|].
    destruct Hd as [?|[Hd Ho]]; [done|].
    destruct (e_listen E) as [e|]; [by do 2 eexists|]. unfold FD_SET.
    rewrite (proj2 (Z.leb_le 0 d)), (proj2 (Z.ltb_lt d _)) by lia. cbn [andb rbind].
    destruct (serve_ok E d n (set_master ({[d]} ∪ ∅) d s) HE) as (st & s' & -> & H').
    { split; cbn; [set_solver|set_solver| |lia]. intros x Hx. assert (x = d) by set_solver. lia. }
    do 2 eexists. split; [done|]. intros _. exists d. destruct H' as [A B C D].
    split; [done|]. split; [done|]. intros x Hx. specialize (C x Hx). lia.
  - by do 2 eexists.
Qed.

(** One client that says "hi". *)
Definition hi_env : env := {|
  e_getaddrinfo := inl [MkAddress (inl 3) None None];
  e_listen := None;
  e_select t m := if (t =? 0)%nat then inl (m ∩ {[3]}) else inl (m ∩ {[4]});
  e_accept t o := if bool_decide (4 ∈ o) then inr EWOULDBLOCK else inl 4;
  e_recv t i := inl [104; 105]
|}.

Lemma hi_env_ok : env_ok hi_env.
Proof.
  split.
  - intros l a d [= <-] ->%list_elem_of_singleton [= <-]. unfold FD_SETSIZE. lia.
  - done.
  - intros t m r. cbn. destruct (t =? 0)%nat; intros [= <-]; apply intersection_subseteq_l.
  - intros t o d. cbn. case_bool_decide; [done|]. intros [= <-]. unfold FD_SETSIZE.
    split; [lia|done].
  - intros t i. eexists. split; [done|]. unfold BUF_SIZE. cbn. lia.
Qed.

Lemma select_server_runs_witness :
  exists st s, main hi_env 2 = Ok (st, s) /\
    (st = None -> exists sockfd, sockfd ∈ master s /\ master s ⊆ s_opened s /\
       forall d, d ∈ master s -> 0 <= d <= maxfd s /\ maxfd s < FD_SETSIZE).
Proof. apply select_server_runs. exact hi_env_ok. Defined.

(** What happens to a connection that is ready. *)
Lemma read_message E i s bytes :
  e_recv E (s_time s) i = inl bytes -> bytes <> [] -> Z.of_nat (length bytes) < BUF_SIZE ->
  exists s', read_from E i s = Ok (None, false, s') /\
    master s' = master s ∖ {[i]} /\ s_opened s' = s_opened s ∖ {[i]}.
Proof.
  intros Hr Hne Hl. unfold read_from. cbn [s_time out say]. rewrite Hr.
  destruct (show_message_ok bytes Hl) as [t ->]. cbn [rbind].
  rewrite (proj2 (Z.leb_gt _ 0)) by (destruct bytes; [done|cbn; lia]).
  eexists. split; [done|]. by split.
Qed.

(** What a ready connection can do to the server, in all the cases of [recv]: a message
    that leaves room for a NUL is shown and the connection is closed; a full message, and an
    error, write outside the buffer; and a client that closes without a word ends the
    server with failure, as [errno] is not [EWOULDBLOCK] but what an earlier call left. *)
Theorem read_from_cases E i s :
  match e_recv E (s_time s) i with
  | inr _ => read_from E i s = Undef OutOfBounds
  | inl bytes =>
      (BUF_SIZE <= Z.of_nat (length bytes) -> read_from E i s = Undef OutOfBounds) /\
      (bytes = [] -> s_errno s <> EWOULDBLOCK -> exists s',
         read_from E i s = Ok (Some EXIT_FAILURE, true, s') /\
         last (s_log s') = Some (Perror "recv()" (s_errno s))) /\
      (bytes <> [] -> Z.of_nat (length bytes) < BUF_SIZE -> exists s',
         read_from E i s = Ok (None, false, s') /\
         master s' = master s ∖ {[i]} /\ s_opened s' = s_opened s ∖ {[i]})
  end.
Proof.
  destruct (e_recv E (s_time s) i) as [bytes|e] eqn:Hr.
  - split; [|split].
    + intros Hl. unfold read_from. cbn [s_time out say]. rewrite Hr. unfold show_message.
      by rewrite (proj2 (Z.ltb_ge _ _) Hl).
    + intros -> He. unfold read_from. cbn [s_time out say]. rewrite Hr. cbn.
      rewrite (proj2 (Z.eqb_neq _ _) He). cbn. eexists. split; [done|]. cbn.
      by rewrite last_snoc.
    + intros Hne Hl. by eapply read_message.
  - unfold read_from. cbn [s_time out say]. by rewrite Hr.
Qed.

(** The check after the loop over the addresses is too weak: when the last address cannot
    be bound, [sockfd] is still a descriptor, and the server goes on with a socket that is
    bound to no port. *)
Theorem unbound_socket_accepted E a d e :
  e_getaddrinfo E = inl [a] -> a_socket a = inl d -> a_setsockopt a = None ->
  a_bind a = Some e -> e_listen E = None -> 0 <= d < FD_SETSIZE ->
  exists s', set_up E (MkS ∅ 0 ∅ 0 0 []) = Ok (inl d, s') /\ s_log s' = [Perror "bind" e] /\
    master s' = {[d]}.
Proof.
  intros Hg Hs Ho Hb Hl Hd. unfold set_up. rewrite Hg. cbn [choose]. rewrite Hs, Ho, Hb.
  rewrite (proj2 (Z.eqb_neq d (-1))) by lia. rewrite Hl. unfold FD_SET.
  rewrite (proj2 (Z.leb_le 0 d)), (proj2 (Z.ltb_lt d _)) by lia. cbn [andb rbind].
  eexists. split; [done|]. split; [done|]. cbn. by rewrite (right_id_L ∅ (∪)).
Qed.

Definition busy_port : env := {|
  e_getaddrinfo := inl [MkAddress (inl 3) None (Some 98)];
  e_listen := None;
  e_select t m := inr 4; e_accept t o := inr 11; e_recv t i := inr 104
|}.

Lemma unbound_socket_accepted_witness :
  exists s', set_up busy_port (MkS ∅ 0 ∅ 0 0 []) = Ok (inl 3, s') /\
    s_log s' = [Perror "bind" 98] /\ master s' = {[3]}.
Proof.
  apply (unbound_socket_accepted busy_port (MkAddress (inl 3) None (Some 98)) 3 98); try done.
Defined.
