(* ===== verification/Grid.v ===== *)
(** * week1/examples/01_c/search1.c: the space with four nested arrays

    A level of the space is a block of the levels below, down to the points; the four
    nested loops of the allocation, of the clean-up and of the search are one function per
    level, applied four times.  The function that allocates has no return statement, so
    that its use in [main] has no defined value. *)

From S2P Require Import Prelude Process CLib Space.
From Stdlib Require Import Ascii.
Local Open Scope Z_scope.
Local Open Scope c_scope.

(** Number of dimensions. *)
Definition N : Z := 4.
Definition sizeof_pointer : Z := 8.

(** A block with its entries; [None] is the null pointer. *)
Definition level (A : Type) : Type := option (nat * list A).

Definition line : Type := level point_t.
Definition plane : Type := level line.
Definition cuboid : Type := level plane.
Definition grid : Type := level cuboid.

Section Grid.
Context (rands : nat -> Z) (mallocs : Z -> bool).

(** [for (int i = 0; i < dim; i++)] with a body that fills one entry of a block. *)
Fixpoint fill_loop {A} (fill : world -> res (A * world)) (block : option nat) (fuel : nat)
    (i dim : Z) (done : list A) (w : world) : res (list A * world) :=
  match fuel with
  | O => NoFuel
  | S fuel =>
      if i <? dim then
        match block with
        | None => Undef NullDeref
        | Some _ =>
            let* (x, w) := fill w in
            if i =? INT_MAX then Undef IntOverflow
            else fill_loop fill block fuel (i + 1) dim (done ++ [x]) w
        end
      else Ok (done, w)
  end.

(** One level: [malloc(sizeof(..) * dim)] and the loop. *)
Definition alloc_level {A} (size : Z) (fill : world -> res (A * world)) (dim : Z) (w : world)
  : res (level A * world) :=
  let '(block, w) := malloc mallocs (u64 (size * dim)) w in
  let* (xs, w) := fill_loop fill block (S (Z.to_nat dim)) 0 dim [] w in
  Ok (match block with Some id => Some (id, xs) | None => None end, w).

(** "Init space element". *)
Definition init_point (w : world) : res (point_t * world) :=
  let '(c, w) := rand_int32 rands w in
  let '(t, w) := rand_int32 rands w in
  Ok (MkPoint c t, w).

Definition alloc_and_init_space (dim1 dim2 dim3 dim4 : Z) (w : world) : res (grid * world) :=
  alloc_level sizeof_pointer
    (alloc_level sizeof_pointer
       (alloc_level sizeof_pointer
          (alloc_level sizeof_point init_point dim4) dim3) dim2) dim1 w.

End Grid.

(** The loop that frees the entries of a block, up to [dim]. *)
Fixpoint free_loop {A} (free_entry : A -> world -> res world) (xs : list A) (w : world) : res world :=
  match xs with
  | [] => Ok w
  | x :: xs => let* w := free_entry x w in free_loop free_entry xs w
  end.

(** The entries the loop visits: reading past the block, or through a null pointer, is an
    error. *)
Definition entries {A} (l : level A) (dim : Z) : res (list A) :=
  if dim =? 0 then Ok []
  else match l with
       | None => Undef NullDeref
       | Some (_, xs) => if dim <=? Z.of_nat (length xs) then Ok (take (Z.to_nat dim) xs)
                         else Undef OutOfBounds
       end.

Definition free_block {A} (l : level A) (w : world) : res world :=
  match l with Some (id, _) => Space.free id w | None => Ok w end.

Definition free_level {A} (free_entry : A -> world -> res world) (dim : Z) (l : level A) (w : world)
  : res world :=
  let* xs := entries l dim in
  let* w := free_loop free_entry xs w in
  free_block l w.

Definition free_space (dim1 dim2 dim3 : Z) : grid -> world -> res world :=
  free_level (free_level (free_level free_block dim3) dim2) dim1.

(** A loop of the search: the place of the first match, or none. *)
Fixpoint search_entries {A B} (look : A -> res (option B)) (i : Z) (xs : list A)
  : res (option (Z * B)) :=
  match xs with
  | [] => Ok None
  | x :: xs =>
      let* r := look x in
      match r with
      | Some b => Ok (Some (i, b))
      | None => search_entries look (i + 1) xs
      end
  end.

Definition search_level {A B} (look : A -> res (option B)) (dim : Z) (l : level A)
  : res (option (Z * B)) :=
  let* xs := entries l dim in search_entries look 0 xs.

Definition is_sample (sample pt : point_t) : res (option unit) :=
  Ok (if (color pt =? color sample) && (temp pt =? temp sample) then Some tt else None).

(** The four indices of the point found. *)
Definition search_for_sample (dim1 dim2 dim3 dim4 : Z) (sample : point_t) (space : grid)
  : res (option (Z * (Z * (Z * (Z * unit))))) :=
  search_level (search_level (search_level (search_level (is_sample sample) dim4) dim3) dim2) dim1
    space.

(** [atoi], stored in an [unsigned int]. *)
Definition dim_arg (s : string) : Z := u32 (atoi s).

(** [main]: the value of [alloc_and_init_space], which returns none, is used. *)
Definition search1_main (rands : nat -> Z) (mallocs : Z -> bool) (argv : list string) (w : world)
  : res (Z * world) :=
  match argv with
  | [_; a1; a2; a3; a4] =>
      let* (space, w) := alloc_and_init_space rands mallocs (dim_arg a1) (dim_arg a2) (dim_arg a3) (dim_arg a4) w in
      Undef NoReturnValue
  | _ => Ok (1, on_w (emit (Err ("Expected " +:+ fmt_lld N +:+ " dimension sizes!" +:+ nl))) w)
  end.

(** ** The search *)

(** The levels hold as many entries as the dimensions say. *)
Definition sized {A} (P : A -> Prop) (dim : Z) (l : level A) : Prop :=
  match l with
  | None => dim = 0
  | Some (_, xs) => Z.of_nat (length xs) = dim /\ Forall P xs
  end.

Definition sized_grid (d1 d2 d3 d4 : Z) : grid -> Prop :=
  sized (sized (sized (sized (fun _ => True) d4) d3) d2) d1.

(** The entries of a level, in order. *)
Definition contents {A} (l : level A) : list A :=
  match l with None => [] | Some (_, xs) => xs end.

(** All the points, in the order of the loops, with their indices. *)
Definition enumerate {A B} (points : A -> list (B * point_t)) (l : level A)
  : list ((Z * B) * point_t) :=
  concat (imap (fun i x => (fun '(b, p) => ((Z.of_nat i, b), p)) <$> points x) (contents l)).

Definition line_points (l : line) : list ((Z * unit) * point_t) :=
  enumerate (fun p => [(tt, p)]) l.

Definition points (g : grid) : list ((Z * (Z * (Z * (Z * unit)))) * point_t) :=
  enumerate (enumerate (enumerate line_points)) g.

(** The first pair whose point is the sample. *)
Fixpoint first_of {B} (sample : point_t) (l : list (B * point_t)) : option B :=
  match l with
  | [] => None
  | (b, p) :: l => if decide (p = sample) then Some b else first_of sample l
  end.

Lemma first_of_app {B} sample (a b : list (B * point_t)) :
  first_of sample (a ++ b) =
    match first_of sample a with Some x => Some x | None => first_of sample b end.
Proof.
  induction a as [|[x p] a IH]; [done|]. cbn. destruct (decide (p = sample)); [done|apply IH].
Qed.

Lemma first_of_fmap {B C} sample (f : B -> C) (l : list (B * point_t)) :
  first_of sample ((fun '(b, p) => (f b, p)) <$> l) = f <$> first_of sample l.
Proof.
  induction l as [|[x p] l IH]; [done|]. cbn. destruct (decide (p = sample)); [done|apply IH].
Qed.

Lemma entries_sized {A} (P : A -> Prop) dim l :
  sized P dim l -> entries l dim = Ok (contents l) /\ Forall P (contents l).
Proof.
  unfold sized, entries. destruct l as [[id xs]|]; cbn.
  - intros [Hl Hp]. split; [|done]. destruct (Z.eqb_spec dim 0) as [->|].
    + destruct xs; [done|cbn in Hl; lia].
    + rewrite (proj2 (Z.leb_le _ _)) by lia. rewrite take_ge by lia. done.
  - intros ->. split; [done|constructor].
Qed.

(** A level's loop finds the first match when the levels below do. *)
Lemma search_entries_first {A B} (P : A -> Prop) sample (look : A -> res (option B)) pts k xs :
  (forall x, P x -> look x = Ok (first_of sample (pts x))) -> Forall P xs ->
  search_entries look (Z.of_nat k) xs =
    Ok (first_of sample (concat (imap (fun i x =>
      (fun '(b, p) => ((Z.of_nat (k + i), b), p)) <$> pts x) xs))).
Proof.
  intros Hlook Hp. revert k. induction Hp as [|x xs Hx _ IH]; intros k; [done|].
  cbn [search_entries]. rewrite (Hlook x Hx). cbn [rbind].
  rewrite imap_cons. cbn [concat]. rewrite first_of_app, Nat.add_0_r.
  rewrite (first_of_fmap sample (fun b => (Z.of_nat k, b))).
  destruct (first_of sample (pts x)); [done|]. cbn [fmap option_fmap option_map].
  replace (Z.of_nat k + 1) with (Z.of_nat (S k)) by lia. rewrite IH. do 2 f_equal.
  f_equal. apply imap_ext. intros i y _. cbn. by rewrite Nat.add_succ_r.
Qed.

Lemma search_level_first {A B} (P : A -> Prop) sample (look : A -> res (option B)) pts dim l :
  (forall x, P x -> look x = Ok (first_of sample (pts x))) -> sized P dim l ->
  search_level look dim l = Ok (first_of sample (enumerate pts l)).
Proof.
  intros Hlook Hs. unfold search_level. destruct (entries_sized P dim l Hs) as [-> Hp].
  cbn [rbind]. by rewrite (search_entries_first P sample look pts 0).
Qed.

(** On a space whose blocks have the sizes of the four dimensions the search stays inside
    the blocks and finds the first match in the order of the indices, and nothing when no
    point is the sample. *)
Theorem search_is_first d1 d2 d3 d4 sample g :
  sized_grid d1 d2 d3 d4 g ->
  search_for_sample d1 d2 d3 d4 sample g = Ok (first_of sample (points g)).
Proof.
  intros Hg. unfold search_for_sample, points.
  apply (search_level_first (sized (sized (sized (fun _ => True) d4) d3) d2)); [|done]. intros c Hc.
  apply (search_level_first (sized (sized (fun _ => True) d4) d3)); [|done]. intros p Hp.
  apply (search_level_first (sized (fun _ => True) d4)); [|done]. intros l Hl.
  apply (search_level_first (fun _ => True)); [|done]. intros pt _.
  unfold is_sample. cbn. rewrite point_eqb. by destruct (decide (pt = sample)) as [e|e];
    [rewrite bool_decide_true by done|rewrite bool_decide_false by done].
Qed.

(** A 1 x 2 x 1 x 2 space with the sample at its last two points. *)
Definition small_grid : grid :=
  let p := Some (4, [pt 5; sample_point])%nat in
  let q := Some (6, [sample_point; sample_point])%nat in
  Some (0%nat, [Some (1%nat, [Some (2%nat, [p]); Some (5%nat, [q])])]).

Lemma search_is_first_witness :
  search_for_sample 1 2 1 2 sample_point small_grid = Ok (first_of sample_point (points small_grid)) /\
  first_of sample_point (points small_grid) = Some (0, (0, (0, (1, tt)))).
Proof.
  split; [|reflexivity]. apply search_is_first. cbn. repeat (constructor; cbn; try done).
Defined.

(** ** Blocks *)

(** The heap blocks of a level, those of its entries included. *)
Definition own_level {A} (own : A -> list (nat * rkind)) (l : level A) : list (nat * rkind) :=
  match l with
  | None => []
  | Some (id, xs) => (id, RBlk) :: concat (own <$> xs)
  end.

Definition own_point (p : point_t) : list (nat * rkind) := [].

(** [fill] gives a value with [P] and keeps its blocks in the process. *)
Definition fills {A} (own : A -> list (nat * rkind)) (P : A -> Prop)
    (fill : world -> res (A * world)) : Prop :=
  forall w base L, proc_wf (w_proc w) -> holds base L (w_proc w) ->
    exists x w', fill w = Ok (x, w') /\ P x /\ proc_wf (w_proc w') /\
      holds base (own x ++ L) (w_proc w').

Definition frees {A} (own : A -> list (nat * rkind)) (P : A -> Prop)
    (free_entry : A -> world -> res world) : Prop :=
  forall x w base L, P x -> holds base (own x ++ L) (w_proc w) ->
    exists w', free_entry x w = Ok w' /\ holds base L (w_proc w').

Lemma fill_loop_ok {A} own P (fill : world -> res (A * world)) id fuel i n done w base L :
  fills own P fill -> 0 <= i -> i + Z.of_nat n <= INT_MAX -> (n < fuel)%nat ->
  proc_wf (w_proc w) -> holds base L (w_proc w) ->
  exists ys w', fill_loop fill (Some id) fuel i (i + Z.of_nat n) done w = Ok (done ++ ys, w') /\
    length ys = n /\ Forall P ys /\ proc_wf (w_proc w') /\
    holds base (concat (own <$> ys) ++ L) (w_proc w').
Proof.
  intros Hfill. revert i n done w L. induction fuel as [|fuel IH];
    intros i n done w L Hi Hmax Hf Hwf HL; [lia|]. cbn [fill_loop]. destruct n as [|n].
  - rewrite (proj2 (Z.ltb_ge _ _)) by lia. exists [], w. by rewrite app_nil_r.
  - rewrite (proj2 (Z.ltb_lt _ _)) by lia.
    destruct (Hfill w base L Hwf HL) as (x & w1 & -> & Hx & Hwf1 & HL1). cbn [rbind].
    rewrite (proj2 (Z.eqb_neq i INT_MAX)) by lia.
    replace (i + Z.of_nat (S n)) with (i + 1 + Z.of_nat n) by lia.
    destruct (IH (i + 1) n (done ++ [x]) w1 (own x ++ L)) as (ys & w' & -> & Hl & HP & Hwf' & HL');
      [lia..|done|done|].
    exists (x :: ys), w'. rewrite <- (assoc_L app). split; [done|]. split; [cbn; lia|].
    split; [by constructor|]. split; [done|]. eapply holds_perm; [|exact HL'].
    rewrite fmap_cons. cbn [concat]. rewrite !(assoc_L app).
    by rewrite (comm app (concat (own <$> ys)) (own x)).
Qed.

Lemma alloc_level_fills {A} own P mallocs size (fill : world -> res (A * world)) dim :
  (forall n, mallocs n = true) -> 0 <= dim <= INT_MAX -> fills own P fill ->
  fills (own_level own) (sized P dim) (alloc_level mallocs size fill dim).
Proof.
  intros Hm Hd Hfill w base L Hwf HL. unfold alloc_level, malloc. rewrite Hm. cbn [acquire].
  set (w1 := MkWorld _ _).
  pose proof (proc_wf_acquire RBlk _ Hwf) as Hwf1. pose proof (holds_acquire _ _ RBlk _ Hwf HL) as HL1.
  destruct (fill_loop_ok own P fill (next_id (w_proc w)) (S (Z.to_nat dim)) 0 (Z.to_nat dim) [] w1
    base ((next_id (w_proc w), RBlk) :: L)) as (ys & w' & E & Hl & HP & Hwf' & HL');
    [done|lia|lia|lia|done|done|].
  rewrite Z.add_0_l, Z2Nat.id in E by lia. rewrite E. cbn [rbind app].
  do 2 eexists. split; [done|]. split; [cbn; split; [lia|done]|]. split; [done|].
  eapply holds_perm; [|exact HL']. cbn. by rewrite Permutation_middle.
Qed.

Lemma free_loop_ok {A} own P (free_entry : A -> world -> res world) xs w base L :
  frees own P free_entry -> Forall P xs -> holds base (concat (own <$> xs) ++ L) (w_proc w) ->
  exists w', free_loop free_entry xs w = Ok w' /\ holds base L (w_proc w').
Proof.
  intros Hfree HP. revert w. induction HP as [|x xs Hx _ IH]; intros w HL; cbn [free_loop].
  - by exists w.
  - rewrite fmap_cons in HL. cbn [concat] in HL. rewrite <- (assoc_L app) in HL.
    destruct (Hfree x w _ _ Hx HL) as (w1 & -> & HL1). cbn [rbind]. by apply IH.
Qed.

Lemma free_level_frees {A} own P (free_entry : A -> world -> res world) dim :
  frees own P free_entry ->
  frees (own_level own) (sized P dim) (free_level free_entry dim).
Proof.
  intros Hfree l w base L Hs HL. unfold free_level.
  destruct (entries_sized P dim l Hs) as [-> HP]. cbn [rbind].
  destruct l as [[id xs]|]; cbn [contents own_level] in *.
  - destruct (free_loop_ok own P free_entry xs w base ((id, RBlk) :: L) Hfree HP) as (w1 & -> & HL1).
    { eapply holds_perm; [|exact HL]. cbn. by rewrite Permutation_middle. }
    cbn [rbind]. unfold free_block, Space.free.
    destruct (holds_release _ _ _ _ _ HL1) as [-> HL2]. by eexists.
  - cbn. by exists w.
Qed.

(** A line of points is one block. *)
Lemma free_block_frees dim :
  frees (own_level own_point) (sized (fun _ => True) dim) free_block.
Proof.
  intros l w base L Hs HL. destruct l as [[id xs]|]; cbn [own_level free_block] in *.
  - assert (concat (own_point <$> xs) = []) as E by (clear; induction xs as [|x xs IH]; [done|exact IH]).
    rewrite E in HL. unfold Space.free. destruct (holds_release _ _ _ _ _ HL) as [-> HL2].
    by eexists.
  - by exists w.
Qed.

Lemma init_point_fills rands : fills own_point (fun _ => True) (init_point rands).
Proof.
  intros w base L Hwf HL. unfold init_point, rand_int32, rand. do 2 eexists.
  split; [done|]. split; [done|]. split; [exact Hwf|exact HL].
Qed.

(** For dimensions that fit in an [int], when [malloc] succeeds, the four nested loops
    give a space whose blocks have the sizes of the dimensions, on which the clean-up frees
    every block exactly once and leaves the process with the resources it had. *)
Theorem alloc_then_free rands mallocs d1 d2 d3 d4 w :
  (forall n, mallocs n = true) ->
  0 <= d1 <= INT_MAX -> 0 <= d2 <= INT_MAX -> 0 <= d3 <= INT_MAX -> 0 <= d4 <= INT_MAX ->
  proc_wf (w_proc w) ->
  exists g w' w'', alloc_and_init_space rands mallocs d1 d2 d3 d4 w = Ok (g, w') /\
    sized_grid d1 d2 d3 d4 g /\
    free_space d1 d2 d3 g w' = Ok w'' /\ live (w_proc w'') = live (w_proc w).
Proof.
  intros Hm H1 H2 H3 H4 Hwf.
  assert (fills (own_level (own_level (own_level (own_level own_point)))) (sized_grid d1 d2 d3 d4)
    (alloc_and_init_space rands mallocs d1 d2 d3 d4)) as Ha.
  { unfold alloc_and_init_space. do 4 (apply alloc_level_fills; [done|done|]).
    apply init_point_fills. }
  destruct (Ha w (live (w_proc w)) [] Hwf (holds_nil _)) as (g & w' & -> & Hg & _ & HL).
  assert (frees (own_level (own_level (own_level (own_level own_point)))) (sized_grid d1 d2 d3 d4)
    (free_space d1 d2 d3)) as Hf.
  { unfold free_space. do 3 apply free_level_frees. apply free_block_frees. }
  destruct (Hf g w' _ _ Hg HL) as (w'' & E & HL'). exists g, w', w''. split; [done|].
  split; [done|]. split; [exact E|]. by apply holds_base.
Qed.

Lemma alloc_then_free_witness :
  exists g w' w'', alloc_and_init_space (fun _ => 7) (fun _ => true) 2 1 3 2 (MkWorld proc0 0) = Ok (g, w') /\
    sized_grid 2 1 3 2 g /\
    free_space 2 1 3 g w' = Ok w'' /\ live (w_proc w'') = ∅.
Proof.
  apply (alloc_then_free (fun _ => 7) (fun _ => true) 2 1 3 2 (MkWorld proc0 0));
    try (unfold INT_MAX; lia); done.
Defined.

(** [main] uses the value of a function that returns none: with four sizes, when [malloc]
    succeeds, the program has no defined behaviour after the allocation, and never gets to
    the search. *)
Theorem search1_undefined rands mallocs prog a1 a2 a3 a4 w :
  (forall n, mallocs n = true) -> proc_wf (w_proc w) ->
  Forall (fun a => dim_arg a <= INT_MAX) [a1; a2; a3; a4] ->
  search1_main rands mallocs [prog; a1; a2; a3; a4] w = Undef NoReturnValue.
Proof.
  intros Hm Hwf Ha. repeat (apply Forall_cons in Ha as [? Ha]).
  assert (forall a, 0 <= dim_arg a) as Hpos by (intros a; apply Z.mod_pos_bound; lia).
  assert (fills (own_level (own_level (own_level (own_level own_point))))
    (sized_grid (dim_arg a1) (dim_arg a2) (dim_arg a3) (dim_arg a4))
    (alloc_and_init_space rands mallocs (dim_arg a1) (dim_arg a2) (dim_arg a3) (dim_arg a4))) as Hf.
  { unfold alloc_and_init_space. do 4 (apply alloc_level_fills; [done|by split|]).
    apply init_point_fills. }
  destruct (Hf w (live (w_proc w)) [] Hwf (holds_nil _)) as (g & w' & E & _).
  unfold search1_main. by rewrite E.
Qed.

Lemma search1_undefined_witness :
  search1_main (fun _ => 7) (fun _ => true) ["search1"; "2"; "1"; "3"; "2"]%string (MkWorld proc0 0)
    = Undef NoReturnValue.
Proof.
  apply search1_undefined; [done|done|]. repeat constructor; vm_compute; discriminate.
Defined.
