(* ===== verification/Udp.v ===== *)
(** * week5/02_sockets/ex3s.c and ex3c.c: a datagram that comes back reversed

    The server receives one datagram, prints it, reverses it in place and sends it back;
    the client sends a line of its input and prints the answer.  The system calls are
    parameters; the two programs meet in [reversed_line], where the network delivers what
    one sends to the other. *)

From S2P Require Import Prelude Process CLib PollServer.
From Stdlib Require Import Ascii.
Local Open Scope Z_scope.
Local Open Scope c_scope.

Definition BUF_SIZE : nat := 1024.

(** [memset(buffer, 0, sizeof(buffer))], and what a receive of [bytes] leaves. *)
Definition zeros : list Z := replicate BUF_SIZE 0.
Definition receive_into (buffer bytes : list Z) : list Z :=
  let bytes := take BUF_SIZE bytes in bytes ++ drop (length bytes) buffer.

(** [strlen] of a buffer. *)
Fixpoint b_strlen (buffer : list Z) : res nat :=
  match buffer with
  | [] => Undef OutOfBounds
  | b :: buffer => if b =? 0 then Ok O else let* n := b_strlen buffer in Ok (S n)
  end.

(** [CHECK_RESULT]: [Some] is the error of a call; the program prints it and exits. *)
Definition CHECK_RESULT {A} (r : A + Z) (msg : string) (log : list ev)
    (k : A -> res (Z * list ev)) : res (Z * list ev) :=
  match r with
  | inl x => k x
  | inr e => Ok (EXIT_FAILURE, log ++ [Perror msg e])
  end.

(** ** The server *)

(** The three assignments with [^=], then the loop. *)
Definition xor_swap (i j : nat) (buf : list Z) : res (list Z) :=
  match buf !! i, buf !! j with
  | Some x, Some y =>
      let x := Z.lxor x y in
      let y := Z.lxor y x in
      let x := Z.lxor x y in
      Ok (<[j := y]> (<[i := x]> buf))
  | _, _ => Undef OutOfBounds
  end.

Fixpoint rev_loop (fuel p1 p2 : nat) (buf : list Z) : res (list Z) :=
  match fuel with
  | O => NoFuel
  | S fuel =>
      if (p1 <? p2)%nat
      then let* buf := xor_swap p1 p2 buf in rev_loop fuel (S p1) (p2 - 1) buf
      else Ok buf
  end.

Definition strrev (str : list Z) : res (list Z) :=
  match str with
  | [] => Undef OutOfBounds
  | c :: _ =>
      if c =? 0 then Ok str
      else let* n := b_strlen str in rev_loop (S n) 0 (n - 1) str
  end.

(** What the server is given: its calls, the datagram with the text of its sender's address
    and port. *)
Record server_env := MkServerEnv {
  sv_socket : unit + Z;
  sv_setsockopt : unit + Z;
  sv_bind : unit + Z;
  sv_recvfrom : list Z + Z;
  sv_peer : string;
  sv_port : Z;
  sv_sendto : list Z -> unit + Z
}.

(** The status with the lines printed, and the datagram handed to [sendto]. *)
Definition server_reply (buffer : list Z) : res (list Z) :=
  let* buffer := strrev buffer in
  let* n := b_strlen buffer in
  Ok (take n buffer).

Definition server_main (V : server_env) : res (Z * list ev) :=
  CHECK_RESULT (sv_socket V) "socket" [] (fun _ =>
  CHECK_RESULT (sv_setsockopt V) "setsockopt" [] (fun _ =>
  CHECK_RESULT (sv_bind V) "bind" [] (fun _ =>
  CHECK_RESULT (sv_recvfrom V) "recvfrom" [] (fun bytes =>
    let buffer := receive_into zeros bytes in
    let* text := c_string buffer in
    let log := [Out ("Data received (" +:+ fmt_lld (Z.of_nat (length (take BUF_SIZE bytes))) +:+
                     " bytes): [" +:+ text +:+ "] from " +:+ sv_peer V +:+ ":" +:+
                     fmt_lld (sv_port V) +:+ nl)] in
    let* reply := server_reply buffer in
    CHECK_RESULT (sv_sendto V reply) "sendto" log (fun _ => Ok (0, log)))))).

(** ** The client *)

(** [fgets(buffer, n + 1, stdin)]: at most [n] characters, up to a newline. *)
Fixpoint fgets (n : nat) (stdin : list Z) : list Z :=
  match n, stdin with
  | S n, c :: stdin => if c =? 10 then [c] else c :: fgets n stdin
  | _, _ => []
  end.

(** [strchr(buffer, '\n')] and the NUL written there. *)
Fixpoint cut_newline (buffer : list Z) : res (list Z) :=
  match buffer with
  | [] => Undef OutOfBounds
  | b :: rest =>
      if b =? 10 then Ok (0 :: rest)
      else if b =? 0 then Ok buffer
      else let* rest := cut_newline rest in Ok (b :: rest)
  end.

(** What [fgets] leaves of a buffer of zeros: the characters and the rest, a NUL first. *)
Definition read_line (stdin : list Z) : list Z := receive_into zeros (fgets (BUF_SIZE - 1) stdin).

(** The datagram the client sends. *)
Definition client_datagram (stdin : list Z) : res (list Z) :=
  let* buffer := cut_newline (read_line stdin) in
  let* n := b_strlen buffer in
  Ok (take n buffer).

Record client_env := MkClientEnv {
  cl_socket : unit + Z;
  cl_sendto : list Z -> unit + Z;
  cl_recvfrom : list Z -> list Z + Z
}.

Definition client_main (C : client_env) (stdin : list Z) : res (Z * list ev) :=
  CHECK_RESULT (cl_socket C) "socket" [] (fun _ =>
    let log := [Out "Data sent: "] in
    let* d := client_datagram stdin in
    CHECK_RESULT (cl_sendto C d) "sendto" log (fun _ =>
    CHECK_RESULT (cl_recvfrom C d) "recvfrom" log (fun bytes =>
      let buffer := receive_into zeros bytes in
      let* text := c_string buffer in
      Ok (0, log ++ [Out ("Data received (" +:+ fmt_lld (Z.of_nat (length (take BUF_SIZE bytes))) +:+
                          " bytes): [" +:+ text +:+ "]" +:+ nl)])))).

(** ** strrev *)

Lemma lxor_swap x y :
  Z.lxor (Z.lxor x y) (Z.lxor y (Z.lxor x y)) = y /\ Z.lxor y (Z.lxor x y) = x.
Proof.
  assert (Z.lxor y (Z.lxor x y) = x) as E.
  { rewrite (Z.lxor_comm x y), <- Z.lxor_assoc, Z.lxor_nilpotent. apply Z.lxor_0_l. }
  split; [|done]. rewrite E, (Z.lxor_comm x y), Z.lxor_assoc, Z.lxor_nilpotent.
  apply Z.lxor_0_r.
Qed.

Lemma insert_here {A} (a : list A) x y l : <[length a := y]> (a ++ x :: l) = a ++ y :: l.
Proof. induction a as [|u a IH]; [done|]. cbn. by f_equal. Qed.

Lemma lookup_here {A} (a : list A) x l : (a ++ x :: l) !! length a = Some x.
Proof. induction a as [|u a IH]; [done|]. exact IH. Qed.

Lemma xor_swap_spec a x w z b :
  xor_swap (length a) (length (a ++ x :: w)) (a ++ x :: w ++ z :: b) = Ok (a ++ z :: w ++ x :: b).
Proof.
  unfold xor_swap. rewrite lookup_here.
  assert (forall u v, a ++ u :: w ++ v :: b = (a ++ u :: w) ++ v :: b) as E
    by (intros; by rewrite <- (assoc_L app)).
  rewrite (E x z), lookup_here. destruct (lxor_swap x z) as [-> ->].
  rewrite <- E, insert_here, E.
  replace (length (a ++ x :: w)) with (length (a ++ z :: w)) by (by rewrite !length_app).
  by rewrite insert_here, <- E.
Qed.

(** The loop reverses the window between its two ends. *)
Lemma rev_loop_spec fuel a w b :
  (length w < fuel)%nat ->
  rev_loop fuel (length a) (length a + length w - 1) (a ++ w ++ b) = Ok (a ++ reverse w ++ b).
Proof.
  revert a w b. induction fuel as [|fuel IH]; intros a w b Hf; [lia|]. cbn [rev_loop].
  destruct w as [|x w]; [by rewrite (proj2 (Nat.ltb_ge _ _)) by (cbn; lia)|].
  destruct w as [|z w _] using rev_ind.
  { by rewrite (proj2 (Nat.ltb_ge _ _)) by (cbn; lia). }
  cbn [length] in *. rewrite length_app in *. cbn [length] in *.
  rewrite (proj2 (Nat.ltb_lt _ _)) by lia.
  replace (length a + S (length w + 1) - 1)%nat with (length (a ++ x :: w)) by
    (rewrite length_app; cbn; lia).
  replace (a ++ (x :: w ++ [z]) ++ b) with (a ++ x :: w ++ z :: b)
    by (cbn [app]; by rewrite <- (assoc_L app)).
  rewrite xor_swap_spec. cbn [rbind]. specialize (IH (a ++ [z]) w (x :: b)).
  rewrite !length_app in *. cbn [length] in *.
  replace (S (length a)) with (length a + 1)%nat by lia.
  replace (length a + S (length w) - 1)%nat with (length a + 1 + length w - 1)%nat by lia.
  rewrite <- !(assoc_L app) in IH. cbn [app] in IH.
  rewrite IH by lia. rewrite reverse_cons, reverse_snoc. cbn [app].
  by rewrite <- !(assoc_L app).
Qed.

Lemma b_strlen_spec l rest : 0 ∉ l -> b_strlen (l ++ 0 :: rest) = Ok (length l).
Proof.
  induction l as [|x l IH]; [done|]. intros [Hx Hl]%not_elem_of_cons. cbn.
  rewrite (proj2 (Z.eqb_neq x 0)) by done. by rewrite IH.
Qed.

(** [strrev] reverses the text of a buffer in place, by exclusive ors of its
    characters, and leaves what follows the text. *)
Theorem strrev_reverses text rest :
  0 ∉ text -> strrev (text ++ 0 :: rest) = Ok (reverse text ++ 0 :: rest).
Proof.
  intros H0. unfold strrev. destruct text as [|x text]; [done|]. cbn [app].
  apply not_elem_of_cons in H0 as Hx. destruct Hx as [Hx _].
  rewrite (proj2 (Z.eqb_neq x 0)) by done.
  rewrite (b_strlen_spec (x :: text) rest H0 : b_strlen (x :: text ++ 0 :: rest) = _). cbn [rbind].
  apply (rev_loop_spec (S (length (x :: text))) [] (x :: text) (0 :: rest)). lia.
Qed.

Lemma strrev_reverses_witness :
  strrev ([104; 101; 108; 108; 111] ++ [0; 1]) = Ok ([111; 108; 108; 101; 104] ++ [0; 1]).
Proof. apply (strrev_reverses [104; 101; 108; 108; 111] [1]). by apply (bool_decide_eq_true_1 _). Defined.

(** ** The two programs *)

(** The bytes of a text as [%s] shows them. *)
Fixpoint shown (l : list Z) : string :=
  match l with [] => EmptyString | b :: l => String (chr b) (shown l) end.

Lemma c_string_spec l rest : 0 ∉ l -> c_string (l ++ 0 :: rest) = Ok (shown l).
Proof.
  induction l as [|x l IH]; [done|]. intros [Hx Hl]%not_elem_of_cons. cbn.
  rewrite (proj2 (Z.eqb_neq x 0)) by done. by rewrite IH.
Qed.

(** A short message in a buffer of zeros is followed by a NUL. *)
Lemma receive_into_zeros l :
  (length l < BUF_SIZE)%nat -> exists rest, receive_into zeros l = l ++ 0 :: rest.
Proof.
  intros Hl. unfold receive_into, zeros. rewrite take_ge by lia. rewrite drop_replicate.
  destruct (BUF_SIZE - length l)%nat as [|n] eqn:E; [lia|]. by exists (replicate n 0).
Qed.

Lemma server_reply_spec text rest :
  0 ∉ text -> server_reply (text ++ 0 :: rest) = Ok (reverse text).
Proof.
  intros H0. unfold server_reply.
  assert (strrev (text ++ 0 :: rest) = Ok (reverse text ++ 0 :: rest)) as ->.
  { unfold strrev. destruct text as [|x text]; [done|]. cbn [app].
    rewrite (proj2 (Z.eqb_neq x 0)) by (intros ->; apply H0; by left).
    rewrite (b_strlen_spec (x :: text) rest H0 : b_strlen (x :: text ++ 0 :: rest) = _). cbn [rbind].
    apply (rev_loop_spec (S (length (x :: text))) [] (x :: text) (0 :: rest)). lia. }
  cbn [rbind]. rewrite b_strlen_spec by (by rewrite elem_of_reverse). cbn [rbind].
  by rewrite take_app_length.
Qed.

Lemma fgets_line l rest n :
  10 ∉ l -> (length l <= n)%nat ->
  fgets n (l ++ 10 :: rest) = if decide (length l < n)%nat then l ++ [10] else l.
Proof.
  revert n. induction l as [|x l IH]; intros n Hx Hn.
  - destruct n; [done|]. cbn. by rewrite decide_True by lia.
  - destruct n as [|n]; [cbn in Hn; lia|]. apply not_elem_of_cons in Hx as [Hx Hl].
    cbn [app fgets]. rewrite (proj2 (Z.eqb_neq x 10)) by done. rewrite IH by (done || (cbn in Hn; lia)).
    cbn [length]. destruct (decide (length l < n)%nat).
    + by rewrite decide_True by lia.
    + by rewrite decide_False by lia.
Qed.

Lemma cut_newline_line l rest : 10 ∉ l -> 0 ∉ l -> cut_newline (l ++ 10 :: rest) = Ok (l ++ 0 :: rest).
Proof.
  induction l as [|x l IH]; [done|]. intros [Hx Hl]%not_elem_of_cons [Hx0 Hl0]%not_elem_of_cons.
  cbn. rewrite (proj2 (Z.eqb_neq x 10)), (proj2 (Z.eqb_neq x 0)) by done. by rewrite IH.
Qed.

Lemma cut_newline_nul l rest : 10 ∉ l -> 0 ∉ l -> cut_newline (l ++ 0 :: rest) = Ok (l ++ 0 :: rest).
Proof.
  induction l as [|x l IH]; [done|]. intros [Hx Hl]%not_elem_of_cons [Hx0 Hl0]%not_elem_of_cons.
  cbn. rewrite (proj2 (Z.eqb_neq x 10)), (proj2 (Z.eqb_neq x 0)) by done. by rewrite IH.
Qed.

Lemma client_datagram_line l rest :
  10 ∉ l -> 0 ∉ l -> (length l < BUF_SIZE)%nat -> client_datagram (l ++ 10 :: rest) = Ok l.
Proof.
  intros Hn H0 Hl. unfold client_datagram, read_line. rewrite fgets_line by (done || lia).
  assert (exists tl, cut_newline (receive_into zeros
    (if decide (length l < BUF_SIZE - 1)%nat then l ++ [10] else l)) = Ok (l ++ 0 :: tl)) as [tl ->].
  { destruct (decide _).
    - destruct (receive_into_zeros (l ++ [10])) as [tl ->]; [rewrite length_app; cbn; lia|].
      rewrite <- (assoc_L app). cbn [app]. rewrite cut_newline_line by done. by eexists.
    - destruct (receive_into_zeros l Hl) as [tl ->]. rewrite cut_newline_nul by done. by eexists. }
  cbn [rbind]. rewrite b_strlen_spec by done. cbn [rbind]. by rewrite take_app_length.
Qed.

(** The answer of the server to a datagram, as the client's [recvfrom] gets it. *)
Definition network (d : list Z) : list Z + Z :=
  match server_reply (receive_into zeros d) with Ok reply => inl reply | _ => inr 0 end.

(** The two programs together: for every line of at most 1023 characters without a NUL
    the client prints the reversed line and its length, when the calls succeed and the
    network delivers; and what the server prints is the line itself. *)
Theorem reversed_line C V l rest :
  cl_socket C = inl tt -> (forall d, cl_sendto C d = inl tt) ->
  (forall d, cl_recvfrom C d = network d) ->
  sv_socket V = inl tt -> sv_setsockopt V = inl tt -> sv_bind V = inl tt ->
  (forall d, sv_sendto V d = inl tt) -> sv_recvfrom V = inl l ->
  10 ∉ l -> 0 ∉ l -> (length l < BUF_SIZE)%nat ->
  client_main C (l ++ 10 :: rest) =
    Ok (0, [Out "Data sent: "; Out ("Data received (" +:+ fmt_lld (Z.of_nat (length l)) +:+
      " bytes): [" +:+ shown (reverse l) +:+ "]" +:+ nl)]) /\
  server_main V = Ok (0, [Out ("Data received (" +:+ fmt_lld (Z.of_nat (length l)) +:+
      " bytes): [" +:+ shown l +:+ "] from " +:+ sv_peer V +:+ ":" +:+ fmt_lld (sv_port V) +:+ nl)]).
Proof.
  intros C1 C2 C3 V1 V2 V3 V4 V5 Hn H0 Hl. destruct (receive_into_zeros l Hl) as [tl E]. split.
  - unfold client_main. rewrite C1. cbn [CHECK_RESULT]. rewrite client_datagram_line by done.
    cbn [rbind]. rewrite C2. cbn [CHECK_RESULT]. rewrite C3. unfold network.
    rewrite E, server_reply_spec by done. cbn [CHECK_RESULT].
    destruct (receive_into_zeros (reverse l)) as [tl' E']; [by rewrite length_reverse|].
    rewrite E', c_string_spec by (by rewrite elem_of_reverse). cbn [rbind app].
    rewrite take_ge by (rewrite length_reverse; lia). by rewrite length_reverse.
  - unfold server_main. rewrite V1, V2, V3, V5. cbn [CHECK_RESULT].
    rewrite E, c_string_spec by done. cbn [rbind]. rewrite server_reply_spec by done. cbn [rbind].
    rewrite V4. cbn [CHECK_RESULT]. by rewrite take_ge by lia.
Qed.

Definition hello_client : client_env := MkClientEnv (inl tt) (fun _ => inl tt) network.
Definition hello_server : server_env :=
  MkServerEnv (inl tt) (inl tt) (inl tt) (inl [104; 105; 33]) "127.0.0.1" 40000 (fun _ => inl tt).

Lemma reversed_line_witness :
  client_main hello_client [104; 105; 33; 10; 120] =
    Ok (0, [Out "Data sent: "; Out ("Data received (3 bytes): [!ih]" +:+ nl)]) /\
  server_main hello_server =
    Ok (0, [Out ("Data received (3 bytes): [hi!] from 127.0.0.1:40000" +:+ nl)]).
Proof.
  apply (reversed_line hello_client hello_server [104; 105; 33] [120]); try done;
    by apply (bool_decide_eq_true_1 _).
Defined.

(** A datagram that fills the server's buffer without a NUL is printed with [%s], and its
    length taken with [strlen], from a buffer that has no terminator. *)
Theorem full_datagram_overrun V d :
  sv_socket V = inl tt -> sv_setsockopt V = inl tt -> sv_bind V = inl tt ->
  sv_recvfrom V = inl d -> (BUF_SIZE <= length d)%nat -> 0 ∉ d ->
  server_main V = Undef OutOfBounds.
Proof.
  intros V1 V2 V3 V4 Hl H0. unfold server_main. rewrite V1, V2, V3, V4. cbn [CHECK_RESULT].
  rewrite c_string_full; [done|]. unfold receive_into, zeros.
  rewrite length_take, drop_ge by (rewrite length_replicate; lia). rewrite app_nil_r.
  intros [i [Hi _]]%elem_of_take. apply H0. by eapply list_elem_of_lookup_2.
Qed.

Lemma full_datagram_overrun_witness :
  server_main (MkServerEnv (inl tt) (inl tt) (inl tt) (inl (replicate 1024 65)) "127.0.0.1" 40000
    (fun _ => inl tt)) = Undef OutOfBounds.
Proof.
  apply (full_datagram_overrun _ (replicate 1024 65)); try done.
  by intros [? _]%elem_of_replicate.
Defined.
