(* ===== verification/MemTrace.v ===== *)
(** * week3/03_preload/libmtr.c: the library that counts malloc and free

    The interposed [malloc], [free], [realloc] and [calloc], with the buffer that serves the
    requests [dlsym] makes while the library looks up the real functions.  The real
    allocator is a parameter: what its calls answer, as a function of the time; addresses
    are integers and 0 is the null pointer.  The bytes that the library writes itself, with
    [memset] and [memmove], are kept in [memory]. *)

From S2P Require Import Prelude CLib.
From Stdlib Require Import Ascii Sorted.
Local Open Scope Z_scope.
Local Open Scope c_scope.

Definition sizeof_tmpbuff : Z := 1024.

(** The address of [tmpbuff], the real functions (once found), whether the five look-ups
    succeed, and the sizes that the first [dlsym] asks [malloc] for. *)
Record system := MkSystem {
  tmpbuff : Z;
  real_malloc : nat -> Z -> Z;
  real_calloc : nat -> Z -> Z -> Z;
  real_realloc : nat -> Z -> Z -> Z;
  real_memalign : nat -> Z -> Z -> Z;
  found_all : bool;
  dlsym_requests : list Z
}.

(** The globals of the library; [hooked] is [myfn_malloc != NULL]; [freed] are the pointers
    handed to the real [free]. *)
Record mt := MkMt {
  malloc_calls : Z;
  free_calls : Z;
  tmppos : Z;
  tmpallocs : Z;
  hooked : bool;
  initializing : bool;
  now : nat;
  freed : list Z;
  messages : list string;
  memory : gmap Z Z
}.

Definition mt0 : mt := MkMt 0 0 0 0 false false 0 [] [] ∅.

Definition say (t : string) (s : mt) : mt :=
  MkMt (malloc_calls s) (free_calls s) (tmppos s) (tmpallocs s) (hooked s) (initializing s) (now s)
    (freed s) (messages s ++ [t +:+ nl]) (memory s).
Definition count_malloc (s : mt) : mt :=
  MkMt (u64 (malloc_calls s + 1)) (free_calls s) (tmppos s) (tmpallocs s) (hooked s)
    (initializing s) (now s) (freed s) (messages s) (memory s).
Definition count_free (p : Z) (s : mt) : mt :=
  MkMt (malloc_calls s) (u64 (free_calls s + 1)) (tmppos s) (tmpallocs s) (hooked s)
    (initializing s) (now s) (freed s ++ [p]) (messages s) (memory s).
Definition take_temp (size : Z) (s : mt) : mt :=
  MkMt (malloc_calls s) (free_calls s) (u64 (tmppos s + size)) (u64 (tmpallocs s + 1)) (hooked s)
    (initializing s) (now s) (freed s) (messages s) (memory s).
Definition set_hooked (s : mt) : mt :=
  MkMt (malloc_calls s) (free_calls s) (tmppos s) (tmpallocs s) true (initializing s) (now s)
    (freed s) (messages s) (memory s).
Definition set_initializing (b : bool) (s : mt) : mt :=
  MkMt (malloc_calls s) (free_calls s) (tmppos s) (tmpallocs s) (hooked s) b (now s) (freed s)
    (messages s) (memory s).
Definition tick (s : mt) : mt :=
  MkMt (malloc_calls s) (free_calls s) (tmppos s) (tmpallocs s) (hooked s) (initializing s)
    (S (now s)) (freed s) (messages s) (memory s).

(** [memset] and [memmove] of [n] bytes; an address that was never written has no byte yet. *)
Definition set_memory (m : gmap Z Z) (s : mt) : mt :=
  MkMt (malloc_calls s) (free_calls s) (tmppos s) (tmpallocs s) (hooked s) (initializing s) (now s) (freed s)
    (messages s) m.
Fixpoint put_bytes (p : Z) (l : list (option Z)) (m : gmap Z Z) : gmap Z Z :=
  match l with [] => m | x :: l => partial_alter (fun _ => x) p (put_bytes (p + 1) l m) end.
Definition get_bytes (p : Z) (n : nat) (m : gmap Z Z) : list (option Z) := (fun i => m !! (p + Z.of_nat i)) <$> seq 0 n.
Definition memset (p c n : Z) (s : mt) : mt := set_memory (put_bytes p (replicate (Z.to_nat n) (Some c)) (memory s)) s.
Definition memmove (to from n : Z) (s : mt) : mt := set_memory (put_bytes to (get_bytes from (Z.to_nat n) (memory s)) (memory s)) s.

(** A call returns a value, or the process exits. *)
Inductive outcome (A : Type) :=
| Ret (a : A) (s : mt)
| Exit (status : Z) (s : mt).
Arguments Ret {A} a s.
Arguments Exit {A} status s.

Definition obind {A B} (m : outcome A) (k : A -> mt -> outcome B) : outcome B :=
  match m with Ret a s => k a s | Exit z s => Exit z s end.

Section Library.
Context (Y : system).

(** The branch of [malloc] taken while [init] runs. *)
Definition temp_malloc (size : Z) (s : mt) : outcome Z :=
  if u64 (tmppos s + size) <? sizeof_tmpbuff
  then Ret (tmpbuff Y + tmppos s) (take_temp size s)
  else Exit 1 (say "libmtr: too much memory requested during initialisation - increase tmpbuff size" s).

(** The requests that [dlsym] makes; [initializing] is set. *)
Fixpoint serve_dlsym (reqs : list Z) (s : mt) : outcome unit :=
  match reqs with
  | [] => Ret tt s
  | size :: reqs => obind (temp_malloc size s) (fun _ s => serve_dlsym reqs s)
  end.

(** [init], called with [initializing] set. *)
Definition init (s : mt) : outcome unit :=
  obind (serve_dlsym (dlsym_requests Y) s) (fun _ s =>
  let s := set_hooked s in
  if found_all Y then Ret tt s else Exit 1 s).

Definition temp_report (s : mt) : mt :=
  if tmppos s =? 0 then s
  else say ("libmtr: allocated " +:+ fmt_lld (tmppos s) +:+ " bytes of temp memory in " +:+
            fmt_lld (tmpallocs s) +:+ " chunks during initialization") s.

(** The first call looks the real functions up. *)
Definition init_from_malloc (s : mt) : outcome unit :=
  obind (init (set_initializing true s)) (fun _ s => Ret tt (temp_report (set_initializing false s))).

Definition malloc (size : Z) (s : mt) : outcome Z :=
  let real s := Ret (real_malloc Y (now s) size) (count_malloc (tick s)) in
  if hooked s then real s
  else if initializing s then temp_malloc size s
  else obind (init_from_malloc s) (fun _ s => real s).

(** The requests of [dlsym] when [initializing] is not set: calls of [malloc], the first of
    which looks the functions up. *)
Fixpoint ask_all (reqs : list Z) (s : mt) : outcome unit :=
  match reqs with
  | [] => Ret tt s
  | size :: reqs => obind (malloc size s) (fun _ s => ask_all reqs s)
  end.

(** [init] called by [free]. *)
Definition init_from_free (s : mt) : outcome unit :=
  obind (ask_all (dlsym_requests Y) s) (fun _ s =>
  let s := set_hooked s in
  if found_all Y then Ret tt s else Exit 1 s).

(** A pointer in the used part of the buffer; the end counts as inside. *)
Definition is_temp (ptr : Z) (s : mt) : bool :=
  (tmpbuff Y <=? ptr) && (ptr <=? tmpbuff Y + tmppos s).

Definition free (ptr : Z) (s : mt) : outcome unit :=
  obind (if hooked s then Ret tt s else init_from_free s) (fun _ s =>
  Ret tt (if is_temp ptr s then say "libmtr: freeing temp memory" s else count_free ptr s)).

Definition realloc (ptr size : Z) (s : mt) : outcome Z :=
  if hooked s then Ret (real_realloc Y (now s) ptr size) (tick s)
  else obind (malloc size s) (fun nptr s =>
       if (nptr =? 0) || (ptr =? 0) then Ret nptr s
       else obind (free ptr (memmove nptr ptr size s)) (fun _ s => Ret nptr s)).

Definition calloc (nmemb size : Z) (s : mt) : outcome Z :=
  if hooked s then Ret (real_calloc Y (now s) nmemb size) (tick s)
  else obind (malloc (u64 (nmemb * size)) s) (fun ptr s =>
       Ret ptr (if ptr =? 0 then s else memset ptr 0 (u64 (nmemb * size)) s)).

(** [memalign] does not look the functions up: before the first call of another one it calls
    through a null pointer. *)
Definition memalign (blocksize bytes : Z) (s : mt) : res (outcome Z) :=
  if hooked s then Ok (Ret (real_memalign Y (now s) blocksize bytes) (tick s)) else Undef NullDeref.

(** The destructor. *)
Definition deinitialize (s : mt) : mt :=
  if malloc_calls s =? free_calls s then s
  else say ("libmtr: WARNING: number of calls to malloc() and free() differ! [" +:+
            fmt_lld (malloc_calls s) +:+ " vs " +:+ fmt_lld (free_calls s) +:+ "]") s.

End Library.

(** ** The temporary buffer *)

(** What a sequence of requests is given: each chunk with its size. *)
Fixpoint chunks (Y : system) (reqs : list Z) (s : mt) : list (Z * Z) :=
  match reqs with
  | [] => []
  | size :: reqs => (tmpbuff Y + tmppos s, size) :: chunks Y reqs (take_temp size s)
  end.

(** [p] comes before [q] without touching it. *)
Definition before (p q : Z * Z) : Prop := p.1 + p.2 <= q.1.

Lemma serve_dlsym_spec Y reqs s :
  Forall (fun n => 0 <= n < 2 ^ 63) reqs -> 0 <= tmppos s < sizeof_tmpbuff ->
  match serve_dlsym Y reqs s with
  | Ret _ s' =>
      tmppos s' = foldr Z.add 0 reqs + tmppos s /\ tmppos s' < sizeof_tmpbuff /\
      Forall (fun c => tmpbuff Y + tmppos s <= c.1 /\ c.1 + c.2 <= tmpbuff Y + tmppos s')
        (chunks Y reqs s)
  | Exit _ _ => sizeof_tmpbuff <= foldr Z.add 0 reqs + tmppos s
  end.
Proof.
  intros H. revert s. induction H as [|n reqs Hn Hreqs IH]; intros s Hs; cbn [serve_dlsym foldr chunks].
  { split; [lia|]. split; [lia|constructor]. }
  unfold temp_malloc. unfold sizeof_tmpbuff in *. rewrite u64_small by lia.
  assert (0 <= foldr Z.add 0 reqs) as Hpos.
  { clear -Hreqs. induction Hreqs; cbn; lia. }
  destruct (Z.ltb_spec (tmppos s + n) 1024) as [Hlt|Hge]; cbn [obind]; [|lia].
  specialize (IH (take_temp n s)). cbn [tmppos take_temp] in IH.
  rewrite u64_small in IH by lia. specialize (IH ltac:(lia)).
  destruct (serve_dlsym Y reqs (take_temp n s)) as [u s'|z s'].
  - destruct IH as (E & Hl & Hc). split; [lia|]. split; [done|]. constructor.
    + cbn. lia.
    + eapply Forall_impl; [exact Hc|]. cbn. intros c. lia.
  - lia.
Qed.

Lemma chunks_sorted Y reqs s :
  Forall (fun n => 0 <= n < 2 ^ 63) reqs -> 0 <= tmppos s ->
  tmppos s + foldr Z.add 0 reqs < 2 ^ 63 ->
  StronglySorted before (chunks Y reqs s) /\
  Forall (fun c => tmpbuff Y + tmppos s <= c.1) (chunks Y reqs s).
Proof.
  intros H. revert s. induction H as [|n reqs Hn Hreqs IH]; intros s Hs Hsum; cbn [chunks foldr] in *.
  { split; constructor. }
  assert (0 <= foldr Z.add 0 reqs) as Hpos.
  { clear -Hreqs. induction Hreqs; cbn; lia. }
  destruct (IH (take_temp n s)) as [IH1 IH2]; [cbn; rewrite u64_small; lia|cbn; rewrite u64_small; lia|].
  cbn [tmppos take_temp] in IH2. rewrite u64_small in IH2 by lia. split.
  - constructor; [done|]. eapply Forall_impl; [exact IH2|]. unfold before. cbn. intros c. lia.
  - constructor; [cbn; lia|]. eapply Forall_impl; [exact IH2|]. cbn. intros c. lia.
Qed.

(** The requests that [dlsym] makes are served from the buffer without overlap and
    inside its 1024 bytes, for sizes below 2^63; when they do not fit the process exits
    instead. *)
Theorem temp_chunks_disjoint Y s s' :
  tmppos s = 0 -> Forall (fun n => 0 <= n < 2 ^ 63) (dlsym_requests Y) ->
  serve_dlsym Y (dlsym_requests Y) s = Ret tt s' ->
  StronglySorted before (chunks Y (dlsym_requests Y) s) /\
  Forall (fun c => tmpbuff Y <= c.1 /\ c.1 + c.2 < tmpbuff Y + sizeof_tmpbuff)
    (chunks Y (dlsym_requests Y) s).
Proof.
  intros H0 Hr E. pose proof (serve_dlsym_spec Y _ s Hr) as H. rewrite H0, E in H.
  destruct H as (Hsum & Hlt & Hc); [unfold sizeof_tmpbuff; lia|]. split.
  - apply chunks_sorted; [done|lia|]. unfold sizeof_tmpbuff in *. lia.
  - eapply Forall_impl; [exact Hc|]. cbn. intros c. lia.
Qed.

Definition glibc : system := {|
  tmpbuff := 4096; real_malloc t n := 100000 + 64 * Z.of_nat t; real_calloc t a b := 200000;
  real_realloc t p n := 300000; real_memalign t b n := 400000; found_all := true; dlsym_requests := [32; 72]
|}.

Lemma temp_chunks_disjoint_witness :
  StronglySorted before [(4096, 32); (4128, 72)] /\
  Forall (fun c => 4096 <= c.1 /\ c.1 + c.2 < 4096 + 1024) [(4096, 32); (4128, 72)].
Proof.
  apply (temp_chunks_disjoint glibc mt0 (take_temp 72 (take_temp 32 mt0))); [done| |reflexivity].
  repeat constructor; lia.
Defined.

(** The check of the buffer wraps around: a request of nearly 2^64 bytes is served, and
    the next one overlaps the chunks given before. *)
Theorem temp_wraps Y k s :
  hooked s = false -> initializing s = true -> 0 < k <= tmppos s -> tmppos s < sizeof_tmpbuff ->
  exists s', malloc Y (2 ^ 64 - k) s = Ret (tmpbuff Y + tmppos s) s' /\ tmppos s' = tmppos s - k.
Proof.
  intros Hh Hi Hk Hp. unfold sizeof_tmpbuff in *. unfold malloc. rewrite Hh, Hi. unfold temp_malloc.
  assert (u64 (tmppos s + (2 ^ 64 - k)) = tmppos s - k) as E.
  { unfold u64. replace (tmppos s + (2 ^ 64 - k)) with (tmppos s - k + 1 * 2 ^ 64) by lia.
    rewrite Z_mod_plus_full. apply Z.mod_small. lia. }
  rewrite E. unfold sizeof_tmpbuff. rewrite (proj2 (Z.ltb_lt _ _)) by lia.
  eexists. split; [done|]. exact E.
Qed.

Lemma temp_wraps_witness :
  exists s', malloc glibc (2 ^ 64 - 10) (set_initializing true (take_temp 32 mt0)) = Ret 4128 s' /\
    tmppos s' = 22.
Proof. apply (temp_wraps glibc 10); cbn; unfold sizeof_tmpbuff; (done || (vm_compute; split; congruence) || reflexivity). Defined.

(** ** The counts *)

(** What a program asks of the library, and one call. *)
Inductive call := Malloc (n : Z) | Free (p : Z) | Calloc (a b : Z) | Realloc (p n : Z).

Definition do_call (Y : system) (c : call) (s : mt) : outcome unit :=
  match c with
  | Malloc n => obind (malloc Y n s) (fun _ s => Ret tt s)
  | Free p => free Y p s
  | Calloc a b => obind (calloc Y a b s) (fun _ s => Ret tt s)
  | Realloc p n => obind (realloc Y p n s) (fun _ s => Ret tt s)
  end.

Fixpoint do_calls (Y : system) (cs : list call) (s : mt) : outcome unit :=
  match cs with
  | [] => Ret tt s
  | c :: cs => obind (do_call Y c s) (fun _ s => do_calls Y cs s)
  end.

Definition mallocs (cs : list call) : Z :=
  foldr (fun c n => match c with Malloc _ => n + 1 | _ => n end) 0 cs.

(** The calls of [free] on a pointer outside the temporary buffer. *)
Definition frees (Y : system) (s : mt) (cs : list call) : Z :=
  foldr (fun c n => match c with Free p => if is_temp Y p s then n else n + 1 | _ => n end) 0 cs.

Lemma is_temp_pos Y p s s' : tmppos s' = tmppos s -> is_temp Y p s' = is_temp Y p s.
Proof. intros E. unfold is_temp. by rewrite E. Qed.

Lemma frees_pos Y s s' cs : tmppos s' = tmppos s -> frees Y s' cs = frees Y s cs.
Proof.
  intros E. induction cs as [|c cs IH]; [done|]. cbn. fold (frees Y s' cs) (frees Y s cs).
  rewrite IH. destruct c; try done. by rewrite (is_temp_pos Y p s s').
Qed.

Lemma u64_add a b : u64 (u64 a + b) = u64 (a + b).
Proof. unfold u64. by rewrite Zplus_mod_idemp_l. Qed.

Lemma do_calls_spec Y cs s :
  hooked s = true ->
  exists s', do_calls Y cs s = Ret tt s' /\ hooked s' = true /\
    u64 (malloc_calls s') = u64 (malloc_calls s + mallocs cs) /\
    u64 (free_calls s') = u64 (free_calls s + frees Y s cs).
Proof.
  revert s. induction cs as [|c cs IH]; intros s Hs.
  { exists s. cbn. rewrite !Z.add_0_r. by repeat split. }
  cbn [do_calls]. destruct c as [n|p|a b|p n]; cbn [do_call].
  - unfold malloc. rewrite Hs. cbn [obind].
    destruct (IH (count_malloc (tick s)) Hs) as (s' & -> & Hh & Hm & Hf). exists s'.
    split; [done|]. split; [done|]. rewrite Hm, Hf. cbn [malloc_calls free_calls count_malloc tick].
    rewrite u64_add. split.
    + cbn. fold (mallocs cs). f_equal. lia.
    + by rewrite (frees_pos Y s).
  - unfold free. rewrite Hs. cbn [obind].
    set (s1 := if is_temp Y p s then _ else _).
    assert (hooked s1 = true /\ tmppos s1 = tmppos s /\ malloc_calls s1 = malloc_calls s /\
      u64 (free_calls s1) = u64 (free_calls s + if is_temp Y p s then 0 else 1))
      as (H1 & H2 & H3 & H4).
    { unfold s1. destruct (is_temp Y p s); cbn; rewrite ?Z.add_0_r; repeat split; try done.
      unfold u64. by rewrite Zmod_mod. }
    destruct (IH s1 H1) as (s' & -> & Hh & Hm & Hf). exists s'. split; [done|]. split; [done|].
    split; [by rewrite Hm, H3|]. rewrite Hf, <- u64_add, H4, u64_add, (frees_pos Y s) by done.
    f_equal. cbn. fold (frees Y s cs). destruct (is_temp Y p s); lia.
  - unfold calloc. rewrite Hs. cbn [obind].
    destruct (IH (tick s) Hs) as (s' & -> & Hh & Hm & Hf). exists s'.
    split; [done|]. split; [done|]. split; [done|]. by rewrite Hf, (frees_pos Y s).
  - unfold realloc. rewrite Hs. cbn [obind].
    destruct (IH (tick s) Hs) as (s' & -> & Hh & Hm & Hf). exists s'.
    split; [done|]. split; [done|]. split; [done|]. by rewrite Hf, (frees_pos Y s).
Qed.

Lemma mallocs_range cs : 0 <= mallocs cs <= Z.of_nat (length cs).
Proof.
  induction cs as [|c cs IH]; [done|]. cbn [mallocs foldr length]. fold (mallocs cs).
  destruct c; lia.
Qed.

Lemma frees_range Y s cs : 0 <= frees Y s cs <= Z.of_nat (length cs).
Proof.
  induction cs as [|c cs IH]; [done|]. cbn [frees foldr length]. fold (frees Y s cs).
  destruct c; try lia. destruct (is_temp Y p s); lia.
Qed.

(** From the first call on, the library forwards every call, and the counters count the
    calls of [malloc] and those of [free] outside the temporary buffer, null pointers
    included: the two are equal in the end exactly when those numbers are, whatever
    [calloc] and [realloc] allocated in between. *)
Theorem counts_calls Y cs s :
  hooked s = true -> malloc_calls s = 0 -> free_calls s = 0 ->
  Z.of_nat (length cs) < 2 ^ 64 ->
  exists s', do_calls Y cs s = Ret tt s' /\
    u64 (malloc_calls s') = mallocs cs /\ u64 (free_calls s') = frees Y s cs.
Proof.
  intros Hs Hm Hf Hl. destruct (do_calls_spec Y cs s Hs) as (s' & E & _ & E1 & E2).
  exists s'. split; [done|]. rewrite E1, E2, Hm, Hf, !Z.add_0_l.
  pose proof (mallocs_range cs). pose proof (frees_range Y s cs).
  rewrite !u64_small by lia. done.
Qed.

(** A program that frees what [calloc] gave it: the numbers differ, and it is warned. *)
Lemma counts_calls_witness :
  exists s', do_calls glibc [Malloc 10; Calloc 2 8; Free 100000; Free 200000]
      (set_hooked mt0) = Ret tt s' /\
    u64 (malloc_calls s') = 1 /\ u64 (free_calls s') = 2.
Proof.
  apply (counts_calls glibc [Malloc 10; Calloc 2 8; Free 100000; Free 200000] (set_hooked mt0));
    done.
Defined.

(** ** The bytes that the library writes *)

Lemma lookup_put_bytes l p m a :
  put_bytes p l m !! a = if decide (p <= a < p + Z.of_nat (length l)) then mjoin (l !! Z.to_nat (a - p)) else m !! a.
Proof.
  induction l as [|x l IH] in p |- *; cbn [put_bytes length].
  { rewrite decide_False by lia. done. }
  destruct (decide (a = p)) as [->|Hne].
  - rewrite lookup_partial_alter_eq, decide_True by lia. by rewrite Z.sub_diag.
  - rewrite lookup_partial_alter_ne, IH by done. destruct (decide (p + 1 <= a < p + 1 + Z.of_nat (length l))) as [Hin|Hout].
    + rewrite decide_True by lia. replace (Z.to_nat (a - p)) with (S (Z.to_nat (a - (p + 1)))) by lia. done.
    + rewrite decide_False by lia. done.
Qed.

(** No other operation touches the bytes. *)
Definition same_memory {A} (s : mt) (o : outcome A) : Prop := match o with Ret _ s' => memory s' = memory s | Exit _ s' => memory s' = memory s end.

Lemma same_bind {A B} s (o : outcome A) (k : A -> mt -> outcome B) :
  same_memory s o -> (forall a s', memory s' = memory s -> same_memory s (k a s')) -> same_memory s (obind o k).
Proof. intros Ho Hk. destruct o as [a s'|z s']; [by apply Hk|done]. Qed.

Lemma temp_memory Y n s : same_memory s (temp_malloc Y n s).
Proof. unfold temp_malloc. by destruct (_ <? _). Qed.

Lemma serve_memory Y reqs s0 : forall s, memory s = memory s0 -> same_memory s0 (serve_dlsym Y reqs s).
Proof.
  induction reqs as [|n reqs IH]; intros s Hs; [done|]. cbn [serve_dlsym]. apply same_bind; [|by intros; apply IH].
  pose proof (temp_memory Y n s) as H. destruct (temp_malloc Y n s); cbn in *; congruence.
Qed.

Lemma malloc_memory Y n s : same_memory s (malloc Y n s).
Proof.
  unfold malloc. destruct (hooked s); [done|]. destruct (initializing s); [apply temp_memory|].
  apply same_bind; [|by intros a s' Hs']. unfold init_from_malloc, init. apply same_bind.
  - apply same_bind; [by apply serve_memory|]. intros a s' Hs'. cbn. by destruct (found_all Y).
  - intros a s' Hs'. unfold temp_report. cbn. by destruct (tmppos s' =? 0).
Qed.

Lemma free_memory Y p s : same_memory s (free Y p s).
Proof.
  unfold free. apply same_bind; [|by intros a s' Hs'; destruct (is_temp Y p s')]. destruct (hooked s); [done|]. unfold init_from_free.
  apply same_bind; [|by intros a s' Hs'; cbn; destruct (found_all Y)]. generalize (dlsym_requests Y). intros reqs.
  assert (forall s1, memory s1 = memory s -> same_memory s (ask_all Y reqs s1)) as H; [|by apply H].
  induction reqs as [|n reqs IH]; intros s1 Hs1; [done|]. cbn [ask_all]. apply same_bind; [|by intros; apply IH].
  pose proof (malloc_memory Y n s1) as H. destruct (malloc Y n s1); cbn in *; congruence.
Qed.

(** While the functions are looked up, [calloc] gives zeroed bytes, and [realloc] the bytes of the
    block it replaces; no other byte changes. *)
Theorem early_bytes Y s :
  hooked s = false ->
  (forall a b p s', calloc Y a b s = Ret p s' -> p <> 0 ->
     forall i, memory s' !! i = if decide (p <= i < p + u64 (a * b)) then Some 0 else memory s !! i) /\
  (forall q n p s', realloc Y q n s = Ret p s' -> p <> 0 -> q <> 0 -> 0 <= n ->
     forall i, memory s' !! i = if decide (p <= i < p + n) then memory s !! (q + (i - p)) else memory s !! i).
Proof.
  intros Hh. split.
  - intros a b p s' E Hp i. unfold calloc in E. rewrite Hh in E. pose proof (malloc_memory Y (u64 (a * b)) s) as Hm.
    destruct (malloc Y (u64 (a * b)) s) as [p1 s1|]; [|done]. cbn in E, Hm. injection E as -> <-. rewrite (proj2 (Z.eqb_neq _ _) Hp).
    pose proof (u64_range (a * b)). cbn [memory memset set_memory]. rewrite lookup_put_bytes, length_replicate, Z2Nat.id, Hm by lia.
    destruct (decide (p <= i < p + u64 (a * b))) as [Hi|]; [|done]. rewrite lookup_replicate_2 by lia. done.
  - intros q n p s' E Hp Hq Hn i. unfold realloc in E. rewrite Hh in E. pose proof (malloc_memory Y n s) as Hm.
    destruct (malloc Y n s) as [p1 s1|]; [|done]. cbn [obind same_memory] in E, Hm. destruct (Z.eqb_spec p1 0) as [->|Hp1]; [cbn in E; by simplify_eq|].
    rewrite (proj2 (Z.eqb_neq _ _) Hq) in E. cbn [orb] in E. pose proof (free_memory Y q (memmove p1 q n s1)) as Hf.
    destruct (free Y q (memmove p1 q n s1)) as [u s2|]; [|done]. cbn [obind same_memory] in E, Hf. simplify_eq. rewrite Hf.
    cbn [memory memmove set_memory]. unfold get_bytes. rewrite lookup_put_bytes, length_fmap, length_seq, Z2Nat.id, Hm by lia.
    destruct (decide (p <= i < p + n)) as [Hi|]; [|done]. rewrite list_lookup_fmap, lookup_seq_lt by lia. cbn. f_equal. lia.
Qed.

Lemma early_bytes_witness :
  exists s', calloc glibc 4 2 (set_initializing true mt0) = Ret 4096 s' /\ memory s' !! 4103 = Some 0.
Proof.
  eexists. split; [vm_compute; reflexivity|].
  apply (proj1 (early_bytes glibc (set_initializing true mt0) eq_refl) 4 2 4096); [vm_compute; reflexivity|done].
Defined.

(** The product of [calloc] wraps around. *)
Lemma calloc_wraps : exists s', calloc glibc (2 ^ 33) (2 ^ 31) (set_initializing true mt0) = Ret 4096 s' /\ tmppos s' = 0.
Proof. eexists. split; vm_compute; reflexivity. Qed.

(** [memalign] as the first call of a program calls through a null pointer. *)
Lemma memalign_first Y blocksize bytes s : hooked s = false -> memalign Y blocksize bytes s = Undef NullDeref.
Proof. unfold memalign. by intros ->. Qed.
