(* ===== verification/Chat.v ===== *)
(** * week5/02_sockets: the programs that talk over TCP

    ex2s.c and ex2c.c chat: they take turns, each writing a line of a table with its NUL and
    reading the other's; ex1s.c sends a random text once and ex1c.c prints it.  The system
    calls are parameters, the loops are cut off after a number of turns, and a read gives
    what one write sent. *)

From S2P Require Import Prelude Process CLib PollServer Udp.
From Stdlib Require Import Ascii.
Local Open Scope Z_scope.
Local Open Scope c_scope.

Definition hi_arr : list string := [
  "Hi!"; "Hello!"; "Wazzup?"; "Hey, dude!"; "Howdy!"]%string.

Definition chat_arr : list string := [
  "Nice weather today!"; "You are damn right!"; "Any news?"; "It's all the same";
  "Yeah..."; "You were saying?.."; "You sure?"; "How is that possible?";
  "No news is great news"; "So, what's up?"; "That's nice"; "Oh, dear...";
  "All is quiet today"; "You look awesome!"; "I'm feeling a bit under the weather...";
  "Is everything ok?"; "I don't think so"; "OK"; "All is well that ends well";
  "It's typical"; "What were you thinking about?";
  "It's all those damned russian hackers!"; "Nice of you to ask"; "It's nothing";
  "I don't care"; "Oh, come on!"; "What kind of answer is that?"; "You are joking, right?";
  "Oh, crap!"; "Come on, I'm joking!"; "That was just a joke, stupid";
  "Better say nothing"; "Whatever..."; "This chat will not end well";
  "I have bad feeling about this..."; "Hmm, I see your point";
  "Now, don't repeat yourself!"; "That's strange..."; "I hope for the best";
  "We ought to prepare for the worst"; "As simple as that"; "Thank you!"; "Stop it!";
  "I've had enough!"; "I really don't know what to say"; "Good point";
  "And who are you to judge?"; "I think all politicians are liars";
  "I guess nothing comes easy"; "Apparently, yes"; "That is obvious, is it not?"]%string.

(** [arr[ rand() % ARR_LEN(arr) ]] *)
Definition pick (arr : list string) (rnd : Z) : res string :=
  match arr !! Z.to_nat (rnd `mod` Z.of_nat (length arr)) with
  | Some t => Ok t
  | None => Undef OutOfBounds
  end.

Definition random_reply (rnd i : Z) : res string :=
  if i =? 0 then pick hi_arr rnd else pick chat_arr rnd.

(** The bytes of a string with its NUL: [write(.., reply, strlen(reply) + 1)]. *)
Fixpoint wire (t : string) : list Z :=
  match t with
  | EmptyString => [0]
  | String c t => code c :: wire t
  end.

(** What the calls of a program answer: those before the loop with the names [perror] prints,
    and the reads and writes of each turn. *)
Record peer := MkPeer {
  p_setup : list (string * option Z);
  p_rand : nat -> Z;
  p_write : nat -> list Z -> option Z;
  p_read : nat -> list Z + Z
}.

(** The lines printed and the messages written. *)
Record talk := MkTalk { t_log : list ev; t_sent : list (list Z) }.

Definition print (e : ev) (s : talk) : talk := MkTalk (t_log s ++ [e]) (t_sent s).
Definition sends (m : list Z) (s : talk) : talk := MkTalk (t_log s) (t_sent s ++ [m]).

(** The calls before the loop, each with its check. *)
Fixpoint set_up (calls : list (string * option Z)) (s : talk) : option Z * talk :=
  match calls with
  | [] => (None, s)
  | (name, r) :: calls =>
      match r with
      | Some e => (Some EXIT_FAILURE, print (Perror name e) s)
      | None => set_up calls s
      end
  end.

(** ** The chat *)

(** [while (1)] of the server: [n] turns from the [k]-th on; the status when a call fails. *)
Fixpoint server_loop (P : peer) (n k : nat) (buffer : list Z) (s : talk) : res (option Z * talk) :=
  match n with
  | O => Ok (None, s)
  | S n =>
      let* reply := random_reply (p_rand P k) (Z.of_nat k) in
      match p_write P k (wire reply) with
      | Some e => Ok (Some EXIT_FAILURE, print (Perror "write" e) s)
      | None =>
          let s := sends (wire reply) s in
          match p_read P k with
          | inr e => Ok (Some EXIT_FAILURE, print (Perror "read" e) s)
          | inl bytes =>
              let buffer := receive_into buffer bytes in
              let s := print (Out ".") s in
              if Z.of_nat k =? INT_MAX then Undef IntOverflow
              else server_loop P n (S k) buffer s
          end
      end
  end.

(** [while (1)] of the client; the buffer keeps what earlier turns read. *)
Fixpoint client_loop (P : peer) (n k : nat) (buffer : list Z) (s : talk) : res (option Z * talk) :=
  match n with
  | O => Ok (None, s)
  | S n =>
      match p_read P k with
      | inr e => Ok (Some EXIT_FAILURE, print (Perror "read" e) s)
      | inl bytes =>
          let buffer := receive_into buffer bytes in
          let* text := c_string buffer in
          let s := print (Out ("Server: " +:+ text +:+ nl)) s in
          let* reply := random_reply (p_rand P k) (Z.of_nat k) in
          if Z.of_nat k =? INT_MAX then Undef IntOverflow
          else match p_write P k (wire reply) with
               | Some e => Ok (Some EXIT_FAILURE, print (Perror "write" e) s)
               | None =>
                   let s := print (Out ("Client: " +:+ reply +:+ nl)) (sends (wire reply) s) in
                   client_loop P n (S k) buffer s
               end
      end
  end.

Definition server_main (P : peer) (n : nat) (buffer : list Z) : res (option Z * talk) :=
  match set_up (p_setup P) (MkTalk [] []) with
  | (Some st, s) => Ok (Some st, s)
  | (None, s) => server_loop P n 0 buffer s
  end.

Definition client_main (P : peer) (n : nat) : res (option Z * talk) :=
  match set_up (p_setup P) (MkTalk [] []) with
  | (Some st, s) => Ok (Some st, s)
  | (None, s) => client_loop P n 0 zeros s
  end.

(** ** Replies *)

(** No character is a NUL, and the text with its NUL fits in the buffer. *)
Fixpoint no_nul (t : string) : bool :=
  match t with EmptyString => true | String c t => negb (code c =? 0) && no_nul t end.

Definition fits (t : string) : bool := no_nul t && (String.length t <? BUF_SIZE)%nat.

Lemma pick_total arr rnd : arr <> [] -> exists t, pick arr rnd = Ok t /\ t ∈ arr.
Proof.
  intros Hne. unfold pick. assert (0 < Z.of_nat (length arr)) by (destruct arr; [done|cbn; lia]).
  pose proof (Z.mod_pos_bound rnd (Z.of_nat (length arr)) ltac:(lia)).
  destruct (lookup_lt_is_Some_2 arr (Z.to_nat (rnd `mod` Z.of_nat (length arr)))) as [t Ht]; [lia|].
  exists t. rewrite Ht. split; [done|]. by eapply list_elem_of_lookup_2.
Qed.

(** What a reply is: a greeting first, then something to talk about; it fits. *)
Lemma random_reply_total rnd i :
  exists t, random_reply rnd i = Ok t /\ t ∈ (if i =? 0 then hi_arr else chat_arr) /\ fits t = true.
Proof.
  assert (forall t, t ∈ hi_arr -> fits t = true) as Hh.
  { apply Forall_forall. apply (bool_decide_eq_true_1 _). vm_compute. reflexivity. }
  assert (forall t, t ∈ chat_arr -> fits t = true) as Hc.
  { apply Forall_forall. apply (bool_decide_eq_true_1 _). vm_compute. reflexivity. }
  unfold random_reply. destruct (i =? 0).
  - destruct (pick_total hi_arr rnd) as (t & E & Ht); [done|]. exists t. auto.
  - destruct (pick_total chat_arr rnd) as (t & E & Ht); [done|]. exists t. auto.
Qed.

Lemma length_wire t : length (wire t) = S (String.length t).
Proof. induction t as [|c t IH]; [done|]. cbn. by rewrite IH. Qed.

Lemma chr_code c : chr (code c) = c.
Proof. unfold chr, code. rewrite N2Z.id. apply ascii_N_embedding. Qed.

(** What the other side reads of a message is the text. *)
Lemma read_wire t rest : no_nul t = true -> c_string (wire t ++ rest) = Ok t.
Proof.
  induction t as [|c t IH]; [done|]. cbn. intros [Hc Ht]%andb_true_iff.
  apply negb_true_iff in Hc. rewrite Hc, (IH Ht). cbn. by rewrite chr_code.
Qed.

Lemma receive_wire t buffer :
  fits t = true -> c_string (receive_into buffer (wire t)) = Ok t.
Proof.
  intros [Hn Hl%Nat.ltb_lt]%andb_true_iff. unfold receive_into.
  rewrite take_ge by (rewrite length_wire; lia). by apply read_wire.
Qed.

(** What a peer says in its [k]-th turn. *)
Definition said (P : peer) (k : nat) : string :=
  match random_reply (p_rand P k) (Z.of_nat k) with Ok t => t | _ => EmptyString end.

Lemma said_ok P k : random_reply (p_rand P k) (Z.of_nat k) = Ok (said P k) /\ fits (said P k) = true.
Proof.
  unfold said. destruct (random_reply_total (p_rand P k) (Z.of_nat k)) as (t & E & _ & Hf).
  by rewrite E.
Qed.

Lemma server_loop_spec P R n k buffer s :
  (forall j m, p_write P j m = None) -> (forall j, p_read P j = inl (R j)) ->
  Z.of_nat (k + n) <= INT_MAX ->
  server_loop P n k buffer s =
    Ok (None, MkTalk (t_log s ++ replicate n (Out ".")) (t_sent s ++ (wire ∘ said P <$> seq k n))).
Proof.
  intros Hw Hr. revert k buffer s. induction n as [|n IH]; intros k buffer s Hk; cbn [server_loop].
  - cbn. rewrite !app_nil_r. by destruct s.
  - destruct (said_ok P k) as [-> _]. cbn [rbind]. rewrite Hw, Hr.
    rewrite (proj2 (Z.eqb_neq _ _)) by lia. rewrite IH by lia.
    cbn [t_log t_sent print sends seq replicate fmap list_fmap]. by rewrite <- !(assoc_L app).
Qed.

Lemma client_loop_spec P said_by n k buffer s :
  (forall j m, p_write P j m = None) ->
  (forall j, p_read P j = inl (wire (said_by j)) /\ fits (said_by j) = true) ->
  Z.of_nat (k + n) <= INT_MAX ->
  client_loop P n k buffer s =
    Ok (None, MkTalk
      (t_log s ++ concat ((fun j => [Out ("Server: " +:+ said_by j +:+ nl);
                                     Out ("Client: " +:+ said P j +:+ nl)]) <$> seq k n))
      (t_sent s ++ (wire ∘ said P <$> seq k n))).
Proof.
  intros Hw Hr. revert k buffer s. induction n as [|n IH]; intros k buffer s Hk; cbn [client_loop].
  - cbn. rewrite !app_nil_r. by destruct s.
  - destruct (Hr k) as [-> Hf]. rewrite (receive_wire _ buffer Hf). cbn [rbind].
    destruct (said_ok P k) as [-> _]. cbn [rbind].
    rewrite (proj2 (Z.eqb_neq _ _)) by lia. rewrite Hw, IH by lia.
    cbn [t_log t_sent print sends seq fmap list_fmap concat]. by rewrite <- !(assoc_L app).
Qed.

Lemma set_up_ok calls s : Forall (fun c => c.2 = None) calls -> set_up calls s = (None, s).
Proof. induction 1 as [|[m r] calls Hc _ IH]; [done|]. cbn in Hc. subst r. exact IH. Qed.

(** The chat: when no call fails and each read gives what the other wrote, then for any
    number of turns below [INT_MAX] neither program has undefined behaviour; the client
    prints, in turns, exactly what the server and the client said, the server a dot per
    turn; the first words are greetings and the others come from the table of small
    talk. *)
Theorem conversation S C n buffer :
  Forall (fun c => c.2 = None) (p_setup S) -> Forall (fun c => c.2 = None) (p_setup C) ->
  (forall j m, p_write S j m = None) -> (forall j m, p_write C j m = None) ->
  (forall j, p_read C j = inl (wire (said S j))) -> (forall j, p_read S j = inl (wire (said C j))) ->
  Z.of_nat n <= INT_MAX ->
  server_main S n buffer =
    Ok (None, MkTalk (replicate n (Out ".")) (wire ∘ said S <$> seq 0 n)) /\
  client_main C n =
    Ok (None, MkTalk (concat ((fun j => [Out ("Server: " +:+ said S j +:+ nl);
                                         Out ("Client: " +:+ said C j +:+ nl)]) <$> seq 0 n))
                     (wire ∘ said C <$> seq 0 n)) /\
  (forall P j, said P j ∈ (if (j =? 0)%nat then hi_arr else chat_arr)).
Proof.
  intros S1 C1 S2 C2 HC HS Hn. split; [|split].
  - unfold server_main. rewrite set_up_ok by done.
    by rewrite (server_loop_spec S (fun j => wire (said C j))) by (done || lia).
  - unfold client_main. rewrite set_up_ok by done.
    rewrite (client_loop_spec C (said S)); [done|done| |lia].
    intros j. split; [apply HC|apply said_ok].
  - intros P j. unfold said.
    destruct (random_reply_total (p_rand P j) (Z.of_nat j)) as (t & E & Ht & _). rewrite E.
    destruct j; exact Ht.
Qed.

(** Two peers that always draw 3: a greeting, then the weather of the fourth line. *)
Definition talker (name : string) : peer :=
  MkPeer [("socket", None); (name, None)]%string (fun _ => 3) (fun _ _ => None)
    (fun k => inl (wire (if (k =? 0)%nat then "Hey, dude!" else "It's all the same"))).

Lemma conversation_witness :
  server_main (talker "bind") 2 zeros =
    Ok (None, MkTalk [Out "."; Out "."] (wire <$> ["Hey, dude!"; "It's all the same"]%string)) /\
  client_main (talker "connect") 2 =
    Ok (None, MkTalk [Out ("Server: Hey, dude!" +:+ nl); Out ("Client: Hey, dude!" +:+ nl);
                      Out ("Server: It's all the same" +:+ nl); Out ("Client: It's all the same" +:+ nl)]
                     (wire <$> ["Hey, dude!"; "It's all the same"]%string)) /\
  (forall P j, said P j ∈ (if (j =? 0)%nat then hi_arr else chat_arr)).
Proof.
  assert (forall n1 n2 j, p_read (talker n1) j = inl (wire (said (talker n2) j))) as Hr.
  { intros n1 n2 [|j]; reflexivity. }
  apply (conversation (talker "bind") (talker "connect") 2 zeros);
    [repeat apply Forall_cons_2; done|repeat apply Forall_cons_2; done|done|done|apply Hr|apply Hr|].
  vm_compute. discriminate.
Defined.

(** ** ex1s.c and ex1c.c: one random text *)

Definition MAX_MSG_LEN : Z := 10.
Definition DEFAULT_SET : string := "0123456789abcdefghijklmnopqrstuvwxyz".

(** [DEFAULT_SET[ rand() % strlen(DEFAULT_SET) ]], a byte. *)
Definition random_char (rnd : Z) : res Z :=
  match String.get (Z.to_nat (rnd `mod` strlen DEFAULT_SET)) DEFAULT_SET with
  | Some c => Ok (code c)
  | None => Undef OutOfBounds
  end.

(** The loop that fills the buffer; only its first [msg_len] bytes are used. *)
Fixpoint random_text (rands : nat -> Z) (n k : nat) : res (list Z) :=
  match n with
  | O => Ok []
  | S n => let* c := random_char (rands k) in
           let* cs := random_text rands n (S k) in Ok (c :: cs)
  end.

(** What [ex1s] writes: the length is drawn first. *)
Definition ex1s_message (rands : nat -> Z) : res (list Z) :=
  let msg_len := 1 + rands 0%nat `mod` MAX_MSG_LEN in
  random_text rands (Z.to_nat msg_len) 1.

Definition ex1s_main (P : peer) : res (Z * talk) :=
  match set_up (p_setup P) (MkTalk [] []) with
  | (Some st, s) => Ok (st, s)
  | (None, s) =>
      let* m := ex1s_message (p_rand P) in
      match p_write P 0 m with
      | Some e => Ok (EXIT_FAILURE, print (Perror "send" e) s)
      | None => Ok (0, sends m s)
      end
  end.

Definition ex1c_main (P : peer) : res (Z * talk) :=
  match set_up (p_setup P) (MkTalk [] []) with
  | (Some st, s) => Ok (st, s)
  | (None, s) =>
      match p_read P 0 with
      | inr e => Ok (EXIT_FAILURE, print (Perror "recv" e) s)
      | inl bytes =>
          let* text := c_string (receive_into zeros bytes) in
          Ok (0, print (Out ("Data received (" +:+
            fmt_lld (Z.of_nat (length (take BUF_SIZE bytes))) +:+ " bytes): [" +:+ text +:+ "]" +:+ nl)) s)
      end
  end.

Lemma random_char_total rnd : exists c, random_char rnd = Ok c /\ c <> 0.
Proof.
  unfold random_char. pose proof (Z.mod_pos_bound rnd (strlen DEFAULT_SET) ltac:(reflexivity)) as H.
  change (strlen DEFAULT_SET) with 36 in *. set (i := Z.to_nat (rnd `mod` 36)).
  assert (i < 36)%nat as Hi by lia. clearbody i. clear H.
  do 36 (destruct i as [|i]; [eexists; by split|]). lia.
Qed.

Lemma random_text_total rands n k :
  exists cs, random_text rands n k = Ok cs /\ length cs = n /\ 0 ∉ cs.
Proof.
  revert k. induction n as [|n IH]; intros k; cbn [random_text].
  - exists []. split; [done|]. split; [done|]. apply not_elem_of_nil.
  - destruct (random_char_total (rands k)) as (c & -> & Hc). cbn [rbind].
    destruct (IH (S k)) as (cs & -> & Hl & H0). cbn [rbind]. exists (c :: cs). split; [done|].
    split; [cbn; congruence|]. apply not_elem_of_cons. split; [congruence|done].
Qed.

(** The random text: whatever is drawn, the server sends between one and ten letters and
    digits, without a NUL, and the client prints exactly them and their number. *)
Theorem random_text_arrives S C :
  Forall (fun c => c.2 = None) (p_setup S) -> Forall (fun c => c.2 = None) (p_setup C) ->
  (forall m, p_write S 0 m = None) ->
  (forall m, ex1s_message (p_rand S) = Ok m -> p_read C 0 = inl m) ->
  exists m, ex1s_main S = Ok (0, MkTalk [] [m]) /\ 1 <= Z.of_nat (length m) <= 10 /\ 0 ∉ m /\
    ex1c_main C = Ok (0, MkTalk [Out ("Data received (" +:+ fmt_lld (Z.of_nat (length m)) +:+
      " bytes): [" +:+ shown m +:+ "]" +:+ nl)] []).
Proof.
  intros S1 C1 S2 HC. unfold ex1s_main, ex1c_main. rewrite !set_up_ok by done.
  unfold ex1s_message in *. unfold MAX_MSG_LEN in *.
  pose proof (Z.mod_pos_bound (p_rand S 0) 10 ltac:(lia)) as Hb.
  destruct (random_text_total (p_rand S) (Z.to_nat (1 + p_rand S 0%nat `mod` 10)) 1)
    as (m & E & Hl & H0). rewrite E in *. cbn [rbind]. rewrite S2, (HC m eq_refl).
  assert (length m < BUF_SIZE)%nat as Hlt by (unfold BUF_SIZE; lia).
  destruct (receive_into_zeros m Hlt) as [rest ->]. rewrite c_string_spec by done. cbn [rbind].
  rewrite take_ge by lia. exists m. split; [done|]. split; [lia|]. by split.
Qed.

Lemma random_text_arrives_witness :
  exists m, ex1s_main (talker "bind") = Ok (0, MkTalk [] [m]) /\ 1 <= Z.of_nat (length m) <= 10 /\ 0 ∉ m /\
    ex1c_main (MkPeer [] (fun _ => 0) (fun _ _ => None) (fun _ => inl [51; 51; 51; 51])) =
      Ok (0, MkTalk [Out ("Data received (" +:+ fmt_lld (Z.of_nat (length m)) +:+
      " bytes): [" +:+ shown m +:+ "]" +:+ nl)] []).
Proof.
  apply (random_text_arrives (talker "bind")); [repeat apply Forall_cons_2; done|constructor|done|].
  intros m H. vm_compute in H. by injection H as <-.
Defined.
