(* ===== verification/Files.v ===== *)
(** * week2/examples/01_files, week5/ex5.c and week3/02_libs/my_lib.c: small programs

    Printing a file byte by byte (ex1_fgetc.c) and line by line (ex2_getline.c), the
    absolute path of the program (ex3_getcwd.c, ex4_getcwd.c), the coloured tree of a
    folder (ex5_tree.c), the question with a time-out (ex5.c of week 5) and the generator of
    numbers (my_lib.c).  The C library's [nftw], [readlink], [get_current_dir_name] and
    [select] are parameters. *)

From S2P Require Import Prelude Process CLib PollServer Udp.
From Stdlib Require Import Ascii.
Local Open Scope Z_scope.
Local Open Scope c_scope.

(** ** ex1_fgetc.c *)

(** A number padded with zeros to a width, and its hexadecimal digits in capitals. *)
Fixpoint zeros_str (n : nat) : string :=
  match n with O => EmptyString | S n => String (chr 48) (zeros_str n) end.
Definition pad0 (width : nat) (s : string) : string :=
  zeros_str (width - String.length s) +:+ s.
Definition upper (c : ascii) : ascii :=
  if (97 <=? code c) && (code c <=? 122) then chr (code c - 32) else c.
Fixpoint upper_str (s : string) : string :=
  match s with EmptyString => EmptyString | String c s => String (upper c) (upper_str s) end.

(** [fprintf(stdout, "%03ld: %X %c\n", offset, (int)ch, ch)] *)
Definition byte_line (offset : nat) (ch : Z) : ev :=
  Out (pad0 3 (fmt_lld (Z.of_nat offset)) +:+ ": " +:+ upper_str (utoa 16 ch) +:+ " " +:+
       String (chr ch) nl).

Fixpoint fgetc_loop (offset : nat) (content : list Z) (p : proc) : proc :=
  match content with
  | [] => p
  | ch :: content => fgetc_loop (S offset) content (emit (byte_line offset ch) p)
  end.

Definition fgetc_main (k : kernel) (argv : list string) (p : proc) : res (Z * proc) :=
  match argv with
  | [prog; name] =>
      match k_open k name with
      | inr e => Ok (1, emit (ErrErrno ("ERROR: Failed to open " +:+ name +:+ ": ") e) (set_errno e p))
      | inl f =>
          let '(id, p) := acquire RFd p in
          let p := fgetc_loop 0 (f_content f) p in
          let* p := release RFd id p in Ok (0, p)
      end
  | _ => Ok (1, emit (Err ("Usage: " +:+ default "(null)" (head argv) +:+ " <file_to_read>" +:+ nl)) p)
  end.

(** ** ex2_getline.c *)

(** One call of [getline]: up to a newline, which is kept. *)
Fixpoint getline (content : list Z) : list Z * list Z :=
  match content with
  | [] => ([], [])
  | c :: content =>
      if c =? 10 then ([c], content)
      else let '(l, rest) := getline content in (c :: l, rest)
  end.

(** The loop; [usable] is [malloc_usable_size] of the buffer after each call, and a file
    has at most as many lines as bytes. *)
Fixpoint getline_loop (fuel : nat) (usable : nat -> Z) (lineno : nat) (content : list Z) (p : proc)
  : res proc :=
  match fuel with
  | O => NoFuel
  | S fuel =>
      match content with
      | [] => Ok p
      | _ =>
          let '(l, rest) := getline content in
          let* text := c_string (l ++ [0]) in
          let line := pad0 2 (fmt_lld (Z.of_nat lineno)) +:+ " [" +:+ pad0 3 (fmt_lld (usable lineno)) +:+
                      "] " +:+ pad0 3 (fmt_lld (Z.of_nat (length l))) +:+ ": " +:+ text in
          getline_loop fuel usable (S lineno) rest (emit (Out line) p)
      end
  end.

(** [getline] allocates the buffer on its first call, also at the end of the file. *)
Definition getline_main (k : kernel) (usable : nat -> Z) (argv : list string) (p : proc)
  : res (Z * proc) :=
  match argv with
  | [prog; name] =>
      match k_open k name with
      | inr e => Ok (1, perror "fopen" (set_errno e p))
      | inl f =>
          let '(id, p) := acquire RFd p in
          let '(buf, p) := acquire RBlk p in
          let* p := getline_loop (S (length (f_content f))) usable 0 (f_content f) p in
          let* p := release RBlk buf p in
          let* p := release RFd id p in Ok (0, p)
      end
  | _ => Ok (1, emit (Err ("Usage: " +:+ default "(null)" (head argv) +:+ " <file_to_read>" +:+ nl)) p)
  end.

(** ** ex3_getcwd.c and ex4_getcwd.c *)

(** The path is the current folder, a slash and the name the program was called by. *)
Definition getcwd3_main (cwd : option string) (argv0 : string) (p : proc) : res (Z * proc) :=
  let p := emit (Out ("Relative program file path: " +:+ argv0 +:+ nl)) p in
  match cwd with
  | None => Ok (0, p)
  | Some cwd =>
      let '(b_cwd, p) := acquire RBlk p in
      let p := emit (Out ("Current dir: " +:+ cwd +:+ nl)) p in
      let abspath_len := s32 (u64 (strlen argv0 + strlen cwd + 1)) in
      let '(b_abs, p) := acquire RBlk p in
      let* abspath := cbuf_write (MkCbuf EmptyString (u64 (s32 (abspath_len + 1)))) 0
                        (cwd +:+ "/" +:+ argv0) in
      let p := emit (Out ("Absolute program file path: " +:+ text abspath +:+ nl)) p in
      let* p := release RBlk b_abs p in
      let* p := release RBlk b_cwd p in Ok (0, p)
  end.

(** [while (1)] around [readlink], which fills at most [abspath_len] bytes of zeros: the path
    was cut off unless the last byte is still zero.  [inr] is the [return 1]. *)
Fixpoint readlink_loop (fuel : nat) (link : string + Z) (b_abs : nat) (abspath_len : Z) (p : proc)
  : res ((string * nat + Z) * proc) :=
  match fuel with
  | O => NoFuel
  | S fuel =>
      match link with
      | inr e => Ok (inr 1, perror "readlink" (set_errno e p))
      | inl target =>
          if strlen target <? abspath_len then Ok (inl (target, b_abs), p)
          else
            let* p := release RBlk b_abs p in
            let '(b_abs, p) := acquire RBlk p in
            readlink_loop fuel link b_abs (u64 (abspath_len * 2)) p
      end
  end.

Definition getcwd4_main (fuel : nat) (cwd : option string) (link : string + Z) (argv0 : string)
    (p : proc) : res (Z * proc) :=
  let p := emit (Out ("Relative program file path: " +:+ argv0 +:+ nl)) p in
  match cwd with
  | None => Ok (0, p)
  | Some cwd =>
      let '(b_cwd, p) := acquire RBlk p in
      let p := emit (Out ("Current dir: " +:+ cwd +:+ nl)) p in
      let '(b_abs, p) := acquire RBlk p in
      let* (r, p) := readlink_loop fuel link b_abs PATH_MAX p in
      match r with
      | inr status => Ok (status, p)
      | inl (abspath, b_abs) =>
          let p := emit (Out ("Absolute program file path: " +:+ abspath +:+ nl)) p in
          let* p := release RBlk b_abs p in
          let* p := release RBlk b_cwd p in Ok (0, p)
      end
  end.

(** ** ex5_tree.c *)

Inductive typeflag := FTW_D | FTW_DNR | FTW_SL | FTW_F | FTW_other.

Definition esc (t : string) : string := String (chr 27) t.

(** The two escapes around a line. *)
Definition colours (t : typeflag) : string * string :=
  match t with
  | FTW_D => (esc "[32m", esc "[0m")
  | FTW_DNR => (esc "[31m", esc "[0m")
  | FTW_SL => (esc "[34m", esc "[0m")
  | FTW_F => (esc "[0m", esc "[0m")
  | FTW_other => (EmptyString, EmptyString)
  end.

Fixpoint tabs (n : nat) : string :=
  match n with O => EmptyString | S n => String (chr 9) (tabs n) end.

(** [indent] has 128 bytes, the last of which must stay a NUL. *)
Definition walk_func (fpath : string) (t : typeflag) (level : nat) (p : proc) : res proc :=
  if (level <? 128)%nat then
    let '(start_esc, end_esc) := colours t in
    Ok (emit (Out (start_esc +:+ tabs level +:+ fpath +:+ end_esc +:+ nl)) p)
  else Undef OutOfBounds.

Fixpoint walk (entries : list (string * typeflag * nat)) (p : proc) : res proc :=
  match entries with
  | [] => Ok p
  | (fpath, t, level) :: entries => let* p := walk_func fpath t level p in walk entries p
  end.

(** [nftw] is what it visits and the error it ends with. *)
Definition tree_main (nftw : string -> list (string * typeflag * nat) * option Z)
    (argv : list string) (p : proc) : res (Z * proc) :=
  match argv with
  | [prog; dir] =>
      let '(entries, r) := nftw dir in
      let* p := walk entries p in
      match r with
      | Some e => Ok (1, perror "nftw" (set_errno e p))
      | None => Ok (0, p)
      end
  | _ => Ok (0, emit (Err ("Usage: " +:+ default "(null)" (head argv) +:+ " <start_dir>" +:+ nl)) p)
  end.

(** ** week5/ex5.c *)

(** [strcasecmp(a, b) == 0] with [b] in small letters. *)
Definition lower (c : ascii) : ascii :=
  if (65 <=? code c) && (code c <=? 90) then chr (code c + 32) else c.
Fixpoint lower_str (s : string) : string :=
  match s with EmptyString => EmptyString | String c s => String (lower c) (lower_str s) end.
Definition strcasecmp_eq (a b : string) : bool := String.eqb (lower_str a) (lower_str b).

(** [buffer[strlen(buffer) - 1] = 0], unless the buffer is empty. *)
Definition drop_last (s : string) : string := take_str (String.length s - 1) s.

(** [ready] is what [select] answers: an error, no input in five seconds, or input. *)
Definition ask_main (ready : option (list Z) + Z) : res (Z * list ev) :=
  let question := Out "Enter yes or no (default - yes): " in
  match ready with
  | inr e => Ok (EXIT_FAILURE, [question; Perror "select" e])
  | inl None => Ok (EXIT_SUCCESS, [question;
      Out (nl +:+ nl +:+ "No choice was made, but it's 'yes' by default" +:+ nl)])
  | inl (Some bytes) =>
      let* buffer := c_string (receive_into zeros bytes) in
      let buffer := drop_last buffer in
      let answer := if strcasecmp_eq buffer "yes" then "You agreed"
                    else if strcasecmp_eq buffer "no" then "You disagreed"
                    else "Will treat '" +:+ buffer +:+ "' as an agreement" in
      Ok (EXIT_SUCCESS, [question; Out (nl +:+ answer +:+ nl)])
  end.

(** ** my_lib.c *)

(** [1 << 31] is [INT_MIN] with gcc. *)
Definition m : Z := INT_MIN.
Definition a : Z := 1103515245.
Definition c : Z := 12345.
Definition seed0 : Z := 1.

(** [(a * seed + c) % m] in [int]. *)
Definition my_rand (seed : Z) : res Z :=
  let x := a * seed + c in
  if (INT_MIN <=? a * seed) && (a * seed <=? INT_MAX) && (INT_MIN <=? x) && (x <=? INT_MAX)
  then Ok (Z.rem x m) else Undef IntOverflow.

(** ** What they print *)

Lemma fgetc_loop_log n content p :
  log (fgetc_loop n content p) = log p ++ imap (fun i ch => byte_line (n + i) ch) content /\
  live (fgetc_loop n content p) = live p /\ next_id (fgetc_loop n content p) = next_id p.
Proof.
  revert n p. induction content as [|ch content IH]; intros n p; cbn [fgetc_loop].
  - by rewrite app_nil_r.
  - destruct (IH (S n) (emit (byte_line n ch) p)) as (E & El & En). rewrite E, El, En. cbn.
    split; [|done]. rewrite <- (assoc_L app). do 2 f_equal. cbn. rewrite Nat.add_0_r. f_equal.
    apply imap_ext. intros i x _. cbn. by rewrite Nat.add_succ_r.
Qed.

(** Every byte of the file is printed on a line of its own with its offset, and the file is
    closed. *)
Lemma fgetc_prints k prog name f p :
  k_open k name = inl f -> proc_wf p ->
  exists p', fgetc_main k [prog; name] p = Ok (0, p') /\ live p' = live p /\
    log p' = log p ++ imap byte_line (f_content f).
Proof.
  intros Hk Hwf. unfold fgetc_main. rewrite Hk. cbn [acquire].
  destruct (fgetc_loop_log 0 (f_content f) (snd (acquire RFd p))) as (El & Elive & En).
  cbn [acquire snd] in *.
  rewrite release_live by (rewrite Elive; apply lookup_insert_eq). cbn [rbind].
  eexists. split; [done|]. cbn. rewrite Elive, El. split; [|done].
  apply delete_insert_id, Hwf. lia.
Qed.

Lemma getline_app content :
  let '(l, rest) := getline content in content = l ++ rest /\ (content <> [] -> l <> []).
Proof.
  induction content as [|x content IH]; [done|]. cbn. destruct (x =? 10); [done|].
  destruct (getline content) as [l rest]. destruct IH as [-> _]. done.
Qed.

(** The lines that [getline] gives. *)
Fixpoint lines_of (fuel : nat) (content : list Z) : list (list Z) :=
  match fuel, content with
  | S fuel, _ :: _ => let '(l, rest) := getline content in l :: lines_of fuel rest
  | _, _ => []
  end.

Lemma lines_of_concat fuel content :
  (length content < fuel)%nat -> concat (lines_of fuel content) = content.
Proof.
  revert content. induction fuel as [|fuel IH]; intros content Hf; [lia|].
  destruct content as [|x content]; [done|]. cbn [lines_of].
  pose proof (getline_app (x :: content)) as H. destruct (getline (x :: content)) as [l rest].
  destruct H as [E Hne]. cbn [concat]. rewrite IH; [by rewrite E|].
  apply (f_equal length) in E. rewrite length_app in E. cbn [length] in E.
  assert (l <> []) by (by apply Hne). destruct l; [done|]. cbn in *. lia.
Qed.

(** The line printed for the [i]-th line of the file. *)
Definition numbered (usable : nat -> Z) (i : nat) (l : list Z) : ev :=
  Out (pad0 2 (fmt_lld (Z.of_nat i)) +:+ " [" +:+ pad0 3 (fmt_lld (usable i)) +:+ "] " +:+
       pad0 3 (fmt_lld (Z.of_nat (length l))) +:+ ": " +:+ shown l).

Lemma getline_loop_spec fuel usable n content p :
  (length content < fuel)%nat -> 0 ∉ content ->
  exists p', getline_loop fuel usable n content p = Ok p' /\
    live p' = live p /\ next_id p' = next_id p /\
    log p' = log p ++ imap (fun i => numbered usable (n + i)) (lines_of fuel content).
Proof.
  revert n content p. induction fuel as [|fuel IH]; intros n content p Hf H0; [lia|].
  destruct content as [|x content].
  { exists p. cbn. by rewrite app_nil_r. }
  cbn [getline_loop lines_of]. pose proof (getline_app (x :: content)) as H.
  destruct (getline (x :: content)) as [l rest]. destruct H as [E Hne].
  assert ((0 ∉ l) /\ (0 ∉ rest)) as [Hl Hr].
  { rewrite E in H0. split; intros Hin; apply H0, elem_of_app; auto. }
  rewrite c_string_spec by done. cbn [rbind].
  apply (f_equal length) in E. rewrite length_app in E. cbn [length] in E, Hf.
  assert (0 < length l)%nat by (specialize (Hne ltac:(done)); destruct l; [done|cbn; lia]).
  edestruct (IH (S n) rest) as (p' & E' & Elive & Eid & Elog); [lia|done|]. rewrite E'.
  exists p'. split; [done|]. split; [exact Elive|]. split; [exact Eid|].
  rewrite Elog. cbn [log emit]. rewrite <- (assoc_L app). f_equal. cbn. rewrite Nat.add_0_r.
  unfold numbered at 2. f_equal. apply imap_ext. intros i y _. cbn. by rewrite Nat.add_succ_r.
Qed.

(** Reading by lines loses nothing: for a file without NUL bytes the lines printed, each
    with its number and length, are a partition of the file, and buffer and file are given
    back. *)
Theorem getline_prints k usable prog name f p :
  k_open k name = inl f -> 0 ∉ f_content f -> proc_wf p ->
  exists p' lines, getline_main k usable [prog; name] p = Ok (0, p') /\ live p' = live p /\
    log p' = log p ++ imap (numbered usable) lines /\ concat lines = f_content f.
Proof.
  intros Hk H0 Hwf. unfold getline_main. rewrite Hk. cbn [acquire].
  set (p1 := MkProc _ _ _ _).
  destruct (getline_loop_spec (S (length (f_content f))) usable 0 (f_content f) p1)
    as (p' & -> & El & En & Elog); [lia|done|]. cbn [rbind]. cbn [next_id] in *.
  rewrite (release_live RBlk) by (rewrite El; apply lookup_insert_eq). cbn [rbind].
  rewrite (release_live RFd).
  2: { cbn. rewrite El. cbn. rewrite lookup_delete_ne, lookup_insert_ne by lia.
       apply lookup_insert_eq. }
  cbn [rbind]. eexists _, (lines_of (S (length (f_content f))) (f_content f)).
  split; [done|]. split; [|split; [by cbn; rewrite Elog|apply lines_of_concat; lia]].
  cbn. rewrite El. cbn. rewrite (delete_insert_id (<[_ := _]> _)); [apply delete_insert_id, Hwf; lia|].
  rewrite lookup_insert_ne by lia. apply Hwf. lia.
Qed.

Definition one_file (bytes : list Z) : kernel :=
  MkKernel (fun n => if String.eqb n "a.txt" then inl (regular bytes) else inr ENOENT)
    (fun _ => inr ENOENT).

Lemma getline_prints_witness :
  exists p' lines, getline_main (one_file [104; 10; 105]) (fun _ => 120) ["ex2"; "a.txt"]%string proc0
      = Ok (0, p') /\ live p' = ∅ /\
    log p' = imap (numbered (fun _ => 120)) lines /\ concat lines = [104; 10; 105].
Proof.
  apply (getline_prints (one_file [104; 10; 105]) (fun _ => 120) "ex2" "a.txt" (regular [104; 10; 105]) proc0);
    [done|by apply (bool_decide_eq_true_1 _)|done].
Defined.

(** ** The absolute path *)

(** The block of ex3 has exactly the size of the path. *)
Lemma getcwd3_fits cwd argv0 p :
  proc_wf p -> strlen argv0 + strlen cwd + 2 <= INT_MAX ->
  exists p', getcwd3_main (Some cwd) argv0 p = Ok (0, p') /\ live p' = live p /\
    log p' = log p ++ [Out ("Relative program file path: " +:+ argv0 +:+ nl);
      Out ("Current dir: " +:+ cwd +:+ nl);
      Out ("Absolute program file path: " +:+ cwd +:+ "/" +:+ argv0 +:+ nl)].
Proof.
  intros Hwf Hl. unfold getcwd3_main.
  set (p0 := emit _ p). assert (proc_wf p0) as Hwf0 by exact Hwf.
  pose proof (holds_nil p) as HL0. apply (holds_live _ _ p p0) in HL0; [|done].
  pose proof (holds_acquire _ _ RBlk _ Hwf0 HL0) as HL1.
  pose proof (proc_wf_acquire RBlk _ Hwf0) as Hwf1.
  change (acquire RBlk p0) with (next_id p0, snd (acquire RBlk p0)). cbv iota.
  set (p1 := emit _ (snd (acquire RBlk p0))). assert (proc_wf p1) as Hwf1' by exact Hwf1.
  apply (holds_live _ _ _ p1) in HL1; [|done].
  pose proof (holds_acquire _ _ RBlk _ Hwf1' HL1) as HL2.
  change (acquire RBlk p1) with (next_id p1, snd (acquire RBlk p1)). cbv iota.
  assert (0 <= strlen argv0 /\ 0 <= strlen cwd) as [H1 H2] by (unfold strlen; lia).
  unfold INT_MAX in Hl.
  rewrite (u64_small (strlen argv0 + strlen cwd + 1)), !s32_small, u64_small
    by (unfold INT_MIN, INT_MAX; rewrite ?s32_small; unfold INT_MIN, INT_MAX; lia).
  unfold cbuf_write. cbn [cap text take_str]. rewrite !strlen_app. change (strlen "/") with 1.
  rewrite (proj2 (Z.leb_le _ _)) by lia. cbn [rbind text].
  set (p2 := emit _ (snd (acquire RBlk p1))). apply (holds_live _ _ _ p2) in HL2; [|done].
  destruct (holds_release _ _ _ _ _ HL2) as [-> HL3]. cbn [rbind].
  destruct (holds_release _ _ _ _ _ HL3) as [-> HL4]. cbn [rbind].
  eexists. split; [done|]. split; [by apply holds_base|]. cbn.
  rewrite <- !(assoc_L app). by rewrite <- !append_assoc.
Qed.

Lemma readlink_loop_spec fuel target base L b size p :
  proc_wf p -> holds base ((b, RBlk) :: L) p -> 0 < size -> size * 2 ^ Z.of_nat fuel < 2 ^ 64 ->
  strlen target < size * 2 ^ Z.of_nat fuel ->
  exists b' p', readlink_loop (S fuel) (inl target) b size p = Ok (inl (target, b'), p') /\
    proc_wf p' /\ holds base ((b', RBlk) :: L) p' /\ log p' = log p.
Proof.
  revert b size p. induction fuel as [|fuel IH]; intros b size p Hwf HL Hs Hmax Ht;
    cbn [readlink_loop]; destruct (Z.ltb_spec (strlen target) size) as [Hlt|Hge];
    try by exists b, p.
  - change (2 ^ Z.of_nat 0) with 1 in Ht. lia.
  - destruct (holds_release _ _ _ _ _ HL) as [-> HL1]. cbn [rbind].
    set (p1 := MkProc _ _ _ _) in *.
    assert (proc_wf p1) as Hwf1.
    { apply (proc_wf_release RBlk b p p1 Hwf). by destruct (holds_release _ _ _ _ _ HL) as [-> _]. }
    pose proof (holds_acquire _ _ RBlk _ Hwf1 HL1) as HL2.
    pose proof (proc_wf_acquire RBlk _ Hwf1) as Hwf2.
    rewrite Nat2Z.inj_succ, Z.pow_succ_r in Hmax, Ht by lia.
    assert (1 <= 2 ^ Z.of_nat fuel) by (pose proof (Z.pow_pos_nonneg 2 (Z.of_nat fuel)); lia).
    rewrite u64_small by nia.
    destruct (IH (next_id p1) (size * 2) (snd (acquire RBlk p1)) Hwf2 HL2) as (b' & p' & E & H');
      [lia|nia|nia|]. exists b', p'. split; [exact E|]. exact H'.
Qed.

(** The loop that doubles the buffer ends with the whole path of the program, however long
    the link is below the limit of the fuel, and every block it allocated was freed. *)
Theorem abspath_found fuel cwd target argv0 p :
  proc_wf p -> PATH_MAX * 2 ^ Z.of_nat fuel < 2 ^ 64 -> strlen target < PATH_MAX * 2 ^ Z.of_nat fuel ->
  exists p', getcwd4_main (S fuel) (Some cwd) (inl target) argv0 p = Ok (0, p') /\ live p' = live p /\
    log p' = log p ++ [Out ("Relative program file path: " +:+ argv0 +:+ nl);
      Out ("Current dir: " +:+ cwd +:+ nl); Out ("Absolute program file path: " +:+ target +:+ nl)].
Proof.
  intros Hwf Hmax Ht. unfold getcwd4_main.
  set (p0 := emit _ p). assert (proc_wf p0) as Hwf0 by exact Hwf.
  pose proof (holds_nil p) as HL0. apply (holds_live _ _ p p0) in HL0; [|done].
  pose proof (holds_acquire _ _ RBlk _ Hwf0 HL0) as HL1.
  pose proof (proc_wf_acquire RBlk _ Hwf0) as Hwf1.
  change (acquire RBlk p0) with (next_id p0, snd (acquire RBlk p0)). cbv iota.
  set (p1 := emit _ (snd (acquire RBlk p0))). assert (proc_wf p1) as Hwf1' by exact Hwf1.
  apply (holds_live _ _ _ p1) in HL1; [|done].
  pose proof (holds_acquire _ _ RBlk _ Hwf1' HL1) as HL2.
  pose proof (proc_wf_acquire RBlk _ Hwf1') as Hwf2.
  change (acquire RBlk p1) with (next_id p1, snd (acquire RBlk p1)). cbv iota.
  destruct (readlink_loop_spec fuel target _ _ _ PATH_MAX _ Hwf2 HL2)
    as (b' & p3 & -> & Hwf3 & HL3 & Elog); [done|done|done|]. cbn [rbind].
  set (p4 := emit _ p3). apply (holds_live _ _ _ p4) in HL3; [|done].
  destruct (holds_release _ _ _ _ _ HL3) as [-> HL4]. cbn [rbind].
  destruct (holds_release _ _ _ _ _ HL4) as [-> HL5]. cbn [rbind].
  eexists. split; [done|]. split; [by apply holds_base|]. cbn. rewrite Elog. cbn.
  by rewrite <- !(assoc_L app).
Qed.

Lemma abspath_found_witness :
  exists p', getcwd4_main 2 (Some "/home") (inl "/home/user/ex4")%string "./ex4" proc0 = Ok (0, p') /\
    live p' = ∅ /\
    log p' = [Out ("Relative program file path: ./ex4" +:+ nl);
      Out ("Current dir: /home" +:+ nl); Out ("Absolute program file path: /home/user/ex4" +:+ nl)].
Proof. apply (abspath_found 1 "/home" "/home/user/ex4" "./ex4" proc0); done. Defined.

(** ** The tree, the question and the generator *)

Definition tree_line (e : string * typeflag * nat) : ev :=
  let '(fpath, t, level) := e in
  Out ((colours t).1 +:+ tabs level +:+ fpath +:+ (colours t).2 +:+ nl).

(** Every entry is printed, indented by its depth, as long as none is deeper than 127. *)
Lemma walk_prints entries p :
  Forall (fun e => e.2 < 128)%nat entries ->
  exists p', walk entries p = Ok p' /\ live p' = live p /\ log p' = log p ++ (tree_line <$> entries).
Proof.
  intros H. revert p. induction H as [|[[fpath t] level] entries Hl _ IH]; intros p; cbn [walk].
  { exists p. by rewrite app_nil_r. }
  unfold walk_func. cbn in Hl. rewrite (proj2 (Nat.ltb_lt _ _) Hl).
  destruct (colours t) as [s e] eqn:Ec. cbn [rbind].
  destruct (IH (emit (Out (s +:+ tabs level +:+ fpath +:+ e +:+ nl)) p)) as (p' & -> & El & Elog).
  exists p'. split; [done|]. split; [done|]. rewrite Elog. cbn. rewrite <- (assoc_L app).
  by rewrite Ec.
Qed.

(** An entry 128 levels down overflows the indent. *)
Lemma walk_too_deep fpath t level p : (128 <= level)%nat -> walk_func fpath t level p = Undef OutOfBounds.
Proof. intros H. unfold walk_func. by rewrite (proj2 (Nat.ltb_ge _ _) H). Qed.

Lemma shown_app x y : shown (x ++ y) = shown x +:+ shown y.
Proof. induction x as [|b x IH]; [done|]. cbn. by rewrite IH. Qed.

Lemma drop_last_snoc s ch : drop_last (s +:+ String ch EmptyString) = s.
Proof.
  unfold drop_last. rewrite length_append. cbn [String.length]. rewrite Nat.add_sub.
  induction s as [|d s IH]; [done|]. cbn. f_equal. exact IH.
Qed.

(** The answer is the line typed, whatever its case; anything but "no" agrees. *)
Lemma ask_answers l :
  0 ∉ l -> (length l < BUF_SIZE - 1)%nat ->
  ask_main (inl (Some (l ++ [10]))) =
    Ok (EXIT_SUCCESS, [Out "Enter yes or no (default - yes): ";
      Out (nl +:+ (if strcasecmp_eq (shown l) "yes" then "You agreed"
                   else if strcasecmp_eq (shown l) "no" then "You disagreed"
                   else "Will treat '" +:+ shown l +:+ "' as an agreement") +:+ nl)]).
Proof.
  intros H0 Hl. unfold ask_main.
  destruct (receive_into_zeros (l ++ [10])) as [rest ->]; [rewrite length_app; cbn; lia|].
  rewrite c_string_spec.
  - cbn [rbind]. rewrite shown_app. cbn [shown]. by rewrite drop_last_snoc.
  - rewrite elem_of_app, list_elem_of_singleton. by intros [|].
Qed.

(** The second number of the generator overflows an [int]. *)
Lemma my_rand_overflows :
  my_rand seed0 = Ok 1103527590 /\ my_rand 1103527590 = Undef IntOverflow.
Proof. by vm_compute. Qed.
