(* ===== verification/Prog.v ===== *)
(** * Programs with a state

    A monad for programs of many functions that share a state and may stop themselves: the
    database library, the watcher of directories and the print spooler are written in it.  [runs] is the
    assertion that a program returns and what then holds; its rules follow the program text,
    and the tactic [run] applies the one for the first instruction. *)

From S2P Require Import Prelude.
Local Open Scope Z_scope.

(** [Stop] is a program that ended itself with a message. *)
Inductive out (St A : Type) :=
| Ret (a : A) (s : St)
| Stop (msg : string)
| Fault (u : ub)
| Loops.
Arguments Ret {St A} a s.
Arguments Stop {St A} msg.
Arguments Fault {St A} u.
Arguments Loops {St A}.

Definition prog (St A : Type) : Type := St -> out St A.

Definition ret {St A} (a : A) : prog St A := fun s => Ret a s.
Definition bind {St A B} (m : prog St A) (k : A -> prog St B) : prog St B :=
  fun s => match m s with
           | Ret a s => k a s
           | Stop msg => Stop msg
           | Fault u => Fault u
           | Loops => Loops
           end.
Definition stop {St A} (msg : string) : prog St A := fun _ => Stop msg.
Definition fault {St A} (u : ub) : prog St A := fun _ => Fault u.
Definition loops {St A} : prog St A := fun _ => Loops.
Definition gets {St A} (f : St -> A) : prog St A := fun s => Ret (f s) s.
Definition modify {St} (f : St -> St) : prog St unit := fun s => Ret tt (f s).
Definition require {St} (b : bool) (msg : string) : prog St unit :=
  if b then ret tt else stop msg.

(** What a part of the program that is not in the monad returned. *)
Definition lift {St A} (m : res A) : prog St A :=
  match m with Ok a => ret a | Undef u => fault u | NoFuel => loops end.

Declare Scope prog_scope.
Delimit Scope prog_scope with prog.
Notation "'let!' x ':=' m 'in' k" := (bind m (fun x => k))
  (at level 10, x pattern, m at level 100, k at level 200) : prog_scope.
Notation "'do!' m 'in' k" := (bind m (fun _ => k))
  (at level 10, m at level 100, k at level 200) : prog_scope.

(** ** Reasoning

    [runs excuse m Q s]: from [s] the program returns and [Q] holds of what it returns, or it
    stops itself and there is an [excuse]; it has no undefined behaviour and does not loop. *)
Definition runs {St A} (excuse : Prop) (m : prog St A) (Q : A -> St -> Prop) (s : St) : Prop :=
  match m s with
  | Ret a s => Q a s
  | Stop _ => excuse
  | Fault _ | Loops => False
  end.

Section Rules.
Context {St : Type} {excuse : Prop}.
Implicit Types (s : St).

Lemma runs_ret {A} (a : A) (Q : A -> St -> Prop) s : Q a s -> runs excuse (ret a) Q s.
Proof. done. Qed.

Lemma runs_bind {A B} (m : prog St A) (k : A -> prog St B) Q s :
  runs excuse m (fun a => runs excuse (k a) Q) s -> runs excuse (bind m k) Q s.
Proof. unfold runs, bind. by destruct (m s). Qed.

Lemma runs_mono {A} (m : prog St A) (P Q : A -> St -> Prop) s :
  runs excuse m P s -> (forall a s, P a s -> Q a s) -> runs excuse m Q s.
Proof. unfold runs. intros H HPQ. destruct (m s); auto. Qed.

Lemma runs_gets {A} (f : St -> A) (Q : A -> St -> Prop) s : Q (f s) s -> runs excuse (gets f) Q s.
Proof. done. Qed.

Lemma runs_modify (f : St -> St) (Q : unit -> St -> Prop) s :
  Q tt (f s) -> runs excuse (modify f) Q s.
Proof. done. Qed.

Lemma runs_require (b : bool) msg (Q : unit -> St -> Prop) s :
  b = true -> Q tt s -> runs excuse (require b msg) Q s.
Proof. by intros ->. Qed.

Lemma runs_lift {A} (m : res A) a (Q : A -> St -> Prop) s :
  m = Ok a -> Q a s -> runs excuse (lift m) Q s.
Proof. by intros ->. Qed.
End Rules.

(** Without an excuse the program returns. *)
Lemma runs_returns {St A} (m : prog St A) Q (s : St) :
  runs False m Q s -> exists a s', m s = Ret a s' /\ Q a s'.
Proof. unfold runs. destruct (m s); naive_solver. Qed.

Lemma runs_excuse {St A} (P P' : Prop) (m : prog St A) Q (s : St) :
  (P -> P') -> runs P m Q s -> runs P' m Q s.
Proof. unfold runs. destruct (m s); auto. Qed.

(** One step of a symbolic execution. *)
Ltac run :=
  lazymatch goal with
  | |- runs _ (bind _ _) _ _ => apply runs_bind
  | |- runs _ (ret _) _ _ => apply runs_ret
  | |- runs _ (gets _) _ _ => apply runs_gets
  | |- runs _ (modify _) _ _ => apply runs_modify
  | |- runs _ (require _ _) _ _ => apply runs_require; [|]
  end; cbv beta.

(** The same for a program that may also have undefined behaviour or not return, but only when [bad]. *)
Definition runs_unless {St A} (bad excuse : Prop) (m : prog St A) (Q : A -> St -> Prop) (s : St) : Prop :=
  match m s with
  | Ret a s => Q a s
  | Stop _ => excuse
  | Fault _ | Loops => bad
  end.

Lemma unless_runs {St A} bad excuse (m : prog St A) Q (s : St) : runs excuse m Q s -> runs_unless bad excuse m Q s.
Proof. unfold runs, runs_unless. by destruct (m s). Qed.

(** First a part that is not bad. *)
Lemma unless_first {St A B} bad excuse (m : prog St A) (k : A -> prog St B) Q (s : St) :
  runs excuse m (fun a => runs_unless bad excuse (k a) Q) s -> runs_unless bad excuse (bind m k) Q s.
Proof. unfold runs, runs_unless, bind. by destruct (m s). Qed.

Lemma unless_bind {St A B} bad excuse (m : prog St A) (k : A -> prog St B) Q (s : St) :
  runs_unless bad excuse m (fun a => runs_unless bad excuse (k a) Q) s -> runs_unless bad excuse (bind m k) Q s.
Proof. unfold runs_unless, bind. by destruct (m s). Qed.

Lemma unless_mono {St A} (bad bad' excuse : Prop) (m : prog St A) (P Q : A -> St -> Prop) s :
  runs_unless bad excuse m P s -> (bad -> bad') -> (forall a s', m s = Ret a s' -> P a s' -> Q a s') -> runs_unless bad' excuse m Q s.
Proof. unfold runs_unless. intros H Hb HPQ. destruct (m s); auto. Qed.

(** When a part that is not bad comes first. *)
Ltac run_first :=
  lazymatch goal with
  | |- runs_unless _ _ (bind _ _) _ _ => apply unless_first
  end; cbv beta.

(** The program does not return: it loops for ever or stops itself. *)
Definition never {St A} (m : prog St A) (s : St) : Prop :=
  match m s with Ret _ _ | Fault _ => False | Stop _ | Loops => True end.

Lemma never_first {St A B} (m : prog St A) (k : A -> prog St B) s : never m s -> never (bind m k) s.
Proof. unfold never, bind. by destruct (m s). Qed.

Lemma never_then {St A B} (Q : A -> St -> Prop) (m : prog St A) (k : A -> prog St B) s :
  runs True m Q s -> (forall a s', Q a s' -> never (k a) s') -> never (bind m k) s.
Proof. unfold runs, never, bind. destruct (m s) as [a s'|msg| |]; intros Hr Hk; [by apply Hk|done..]. Qed.
