(* ===== verification/DbFile.v ===== *)
(** * Files of bytes, for the database library

    The library of literature/apue3e/apue.3e/db reads and writes two files at offsets it
    computes.  This file holds reads and writes of a region of a file, files made of chunks,
    and numbers printed in a field of fixed width. *)

From S2P Require Import Prelude CLib.
From Stdlib Require Import Ascii.
Local Open Scope Z_scope.

(** ** Bytes *)

Definition NUL : ascii := chr 0.

(** A region of a file; less when the file ends before. *)
Definition read_at (off n : nat) (l : list ascii) : list ascii := take n (drop off l).

(** A write beyond the end leaves a hole of NUL bytes. *)
Definition write_at (off : nat) (w l : list ascii) : list ascii :=
  take off (l ++ replicate (off - length l) NUL) ++ w ++ drop (off + length w) l.

Fixpoint chars (s : string) : list ascii :=
  match s with EmptyString => [] | String c s => c :: chars s end.

(** The C string in a buffer: up to the first NUL. *)
Fixpoint c_str (l : list ascii) : string :=
  match l with
  | [] => EmptyString
  | c :: l => if Ascii.eqb c NUL then EmptyString else String c (c_str l)
  end.

Fixpoint spaces (n : nat) : string :=
  match n with O => EmptyString | S n => String (chr 32) (spaces n) end.

(** [printf("%*d", width, z)] *)
Definition pad (width : nat) (z : Z) : string :=
  spaces (width - String.length (fmt_lld z)) +:+ fmt_lld z.

(** ** Laws of the bytes *)

Lemma length_chars s : length (chars s) = String.length s.
Proof. induction s as [|c s IH]; [done|]. cbn. by rewrite IH. Qed.

Lemma chars_app a b : chars (a +:+ b) = chars a ++ chars b.
Proof. induction a as [|c a IH]; [done|]. rewrite append_cons. cbn [chars app]. by rewrite IH. Qed.

(** No NUL in a text. *)
Definition plain (s : string) : Prop := NUL ∉ chars s.

Lemma c_str_chars s : plain s -> c_str (chars s) = s.
Proof.
  unfold plain. induction s as [|c s IH]; [done|]. cbn [chars c_str].
  rewrite not_elem_of_cons. intros [Hc Hs].
  destruct (Ascii.eqb_spec c NUL) as [->|_]; [done|]. f_equal. by apply IH.
Qed.

Lemma plain_app a b : plain (a +:+ b) <-> plain a /\ plain b.
Proof. unfold plain. rewrite chars_app, not_elem_of_app. done. Qed.

Lemma plain_cons c s : plain (String c s) <-> c <> NUL /\ plain s.
Proof. unfold plain. cbn [chars]. rewrite not_elem_of_cons. naive_solver. Qed.

Lemma length_spaces n : String.length (spaces n) = n.
Proof. induction n as [|n IH]; cbn; congruence. Qed.

Lemma chars_spaces n c : c ∈ chars (spaces n) -> c = chr 32.
Proof.
  induction n as [|n IH]; cbn; [by intros ?%not_elem_of_nil|]. intros [?|?]%elem_of_cons; auto.
Qed.

Lemma utoa_fuel_chars f base n acc c :
  2 <= base -> c ∈ chars (utoa_fuel f base n acc) ->
  (exists d, 0 <= d < base /\ c = digit_char d) \/ c ∈ chars acc.
Proof.
  intros Hb. revert n acc. induction f as [|f IH]; intros n acc; cbn [utoa_fuel]; [by right|].
  assert (0 <= n `mod` base < base) as Hd by (apply Z.mod_pos_bound; lia).
  assert (c ∈ chars (String (digit_char (n `mod` base)) acc) ->
    (exists d, 0 <= d < base /\ c = digit_char d) \/ c ∈ chars acc) as Hc.
  { intros [->|?]%elem_of_cons; [left; by eexists|by right]. }
  destruct (n <? base); [exact Hc|]. intros [?|?]%IH; [by left|by apply Hc].
Qed.

Lemma chars_fmt_lld z c : 0 <= z -> c ∈ chars (fmt_lld z) -> 48 <= code c <= 57.
Proof.
  intros Hz Hc. unfold fmt_lld in Hc. rewrite (proj2 (Z.ltb_ge z 0)) in Hc by done.
  apply utoa_fuel_chars in Hc as [(d & Hd & ->)|Hc]; [|by apply not_elem_of_nil in Hc|lia].
  rewrite code_digit_char by lia. rewrite (proj2 (Z.ltb_lt d 10)) by lia. lia.
Qed.

Lemma chars_pad w z c : 0 <= z -> c ∈ chars (pad w z) -> c = chr 32 \/ 48 <= code c <= 57.
Proof.
  intros Hz. unfold pad. rewrite chars_app, elem_of_app.
  intros [?%chars_spaces|?%chars_fmt_lld]; auto.
Qed.

Lemma plain_digits s : (forall c, c ∈ chars s -> c = chr 32 \/ 48 <= code c <= 57) -> plain s.
Proof. intros H Hin. apply H in Hin as [?|Hc]; [done|]. change (code NUL) with 0 in Hc. lia. Qed.

Lemma plain_fmt_lld z : 0 <= z -> plain (fmt_lld z).
Proof. intros Hz. apply plain_digits. intros c Hc. right. by eapply chars_fmt_lld. Qed.

Lemma plain_pad w z : 0 <= z -> plain (pad w z).
Proof. intros Hz. apply plain_digits. intros c Hc. by eapply chars_pad. Qed.

Lemma length_pad w z : strlen (fmt_lld z) <= Z.of_nat w -> String.length (pad w z) = w.
Proof. unfold pad, strlen. intros H. rewrite length_append, length_spaces. lia. Qed.

Lemma strlen_fmt_lld z j : 0 <= z < 10 ^ j -> 1 <= j -> strlen (fmt_lld z) <= j.
Proof.
  intros Hz Hj. unfold fmt_lld. rewrite (proj2 (Z.ltb_ge z 0)) by lia. by apply utoa_length_le.
Qed.

Lemma strlen_fmt_lld_pos z : 0 <= z -> 1 <= strlen (fmt_lld z).
Proof.
  intros Hz. unfold fmt_lld. rewrite (proj2 (Z.ltb_ge z 0)) by lia. by apply strlen_utoa_pos.
Qed.

Lemma skip_space_spaces n s : skip_space (spaces n +:+ s) = skip_space s.
Proof. induction n as [|n IH]; [done|]. exact IH. Qed.

Lemma atol_fmt z : LLONG_MIN <= z <= LLONG_MAX -> atol (fmt_lld z) = z.
Proof. intros Hz. unfold atol. by rewrite strtoll_fmt_lld. Qed.

Lemma atol_pad w z : 0 <= z <= LLONG_MAX -> atol (pad w z) = z.
Proof.
  intros Hz. unfold LLONG_MAX in *. rewrite <- (atol_fmt z) at 2 by (unfold LLONG_MIN, LLONG_MAX; lia).
  unfold atol, strtoll, pad. rewrite skip_space_spaces.
  unfold fmt_lld. rewrite (proj2 (Z.ltb_ge z 0)) by lia. rewrite skip_space_utoa by lia.
  rewrite take_sign_utoa by lia. rewrite resolve_base_plain by lia.
  by rewrite has_digit_utoa by lia.
Qed.

(** ** Files made of chunks

    The offset of a chunk is the length of the chunks before it. *)

Definition offset (cs : list (list ascii)) (k : nat) : nat := length (concat (take k cs)).

Section Chunks.
Implicit Types (cs : list (list ascii)).

Lemma concat_chunk cs k w :
  cs !! k = Some w -> concat cs = concat (take k cs) ++ w ++ concat (drop (S k) cs).
Proof.
  intros Hk. rewrite <- (take_drop_middle cs k w Hk) at 1. by rewrite concat_app.
Qed.

Lemma concat_set_chunk cs k w w' :
  cs !! k = Some w -> concat (<[k := w']> cs) = concat (take k cs) ++ w' ++ concat (drop (S k) cs).
Proof.
  intros Hk. rewrite insert_take_drop by (by eapply lookup_lt_Some). by rewrite concat_app.
Qed.

(** Reading a part of a chunk. *)
Lemma read_chunk cs k a w b :
  cs !! k = Some (a ++ w ++ b) ->
  read_at (offset cs k + length a) (length w) (concat cs) = w.
Proof.
  intros Hk. rewrite (concat_chunk _ _ _ Hk). unfold read_at, offset.
  rewrite <- length_app, <- !(assoc_L (++)), (assoc_L (++) _ a).
  by rewrite drop_app_length, take_app_length.
Qed.

(** Writing over a part of a chunk. *)
Lemma write_chunk cs k a w w' b :
  cs !! k = Some (a ++ w ++ b) -> length w = length w' ->
  write_at (offset cs k + length a) w' (concat cs) = concat (<[k := a ++ w' ++ b]> cs).
Proof.
  intros Hk Hw. rewrite (concat_set_chunk _ _ _ _ Hk), (concat_chunk _ _ _ Hk). unfold write_at, offset.
  rewrite <- length_app. set (p := concat (take k cs)). set (q := concat (drop (S k) cs)).
  replace (length (p ++ a) - length (p ++ (a ++ w ++ b) ++ q))%nat with 0%nat
    by (rewrite !length_app; lia).
  cbn [replicate]. rewrite app_nil_r. replace (p ++ (a ++ w ++ b) ++ q) with ((p ++ a) ++ w ++ b ++ q)
    by (by rewrite <- !(assoc_L (++))).
  rewrite take_app_length. rewrite <- Hw.
  rewrite drop_app_ge by lia. rewrite Nat.add_comm, Nat.add_sub.
  rewrite drop_app_length. by rewrite <- !(assoc_L (++)).
Qed.

(** Writing at the end. *)
Lemma write_end cs w : write_at (length (concat cs)) w (concat cs) = concat (cs ++ [w]).
Proof.
  unfold write_at. rewrite Nat.sub_diag. cbn [replicate].
  rewrite app_nil_r, firstn_all, drop_ge by lia. by rewrite concat_app, app_nil_r; cbn; rewrite app_nil_r.
Qed.

Lemma offset_app cs cs' k : (k <= length cs)%nat -> offset (cs ++ cs') k = offset cs k.
Proof. intros Hk. unfold offset. by rewrite take_app_le. Qed.

Lemma offset_S cs k w : cs !! k = Some w -> offset cs (S k) = (offset cs k + length w)%nat.
Proof.
  intros Hk. unfold offset. rewrite (take_S_r _ _ _ Hk), concat_app, length_app. cbn.
  by rewrite app_nil_r.
Qed.
End Chunks.
