(* ===== verification/Db.v ===== *)
(** * literature/apue3e/apue.3e/db/db.c: the database library

    A database is an index file and a data file.  The index file begins with a table of
    chain pointers in text: the free list and 137 hash chains; then come the index records,
    each with the pointer to the next record of its chain, the length of the rest, and the
    key, the offset and the length of its data record.  The pointers are offsets in the
    index file.

    The state holds the bytes of the two files, the position of the index descriptor (the
    library positions the other one before each use), the record locks the process holds, its
    blocks and descriptors, and the structure [DB].  Every system call and allocation may
    fail, as [sys_ok] tells for each in turn; the library then stops the process, except in
    [db_open].  Reads and writes that succeed are not interrupted, and no other process runs. *)

From S2P Require Import Prelude Prog Process CLib DbFile.
From Stdlib Require Import Ascii.
Local Open Scope Z_scope.
Local Open Scope prog_scope.

Definition IDXLEN_SZ : nat := 4.
Definition SEP : ascii := chr 58.
Definition SPACE : ascii := chr 32.
Definition NEWLINE : ascii := chr 10.
Definition PTR_SZ : nat := 7.
Definition PTR_MAX : Z := 9999999.
Definition NHASH_DEF : Z := 137.
Definition FREE_OFF : Z := 0.
Definition HASH_OFF : Z := Z.of_nat PTR_SZ.
Definition IDXLEN_MIN : Z := 6.
Definition IDXLEN_MAX : Z := 1024.
Definition DATLEN_MIN : Z := 2.
Definition DATLEN_MAX : Z := 1024.
Definition DB_INSERT : Z := 1.
Definition DB_REPLACE : Z := 2.
Definition DB_STORE : Z := 3.

Inductive counter :=
| cnt_delok | cnt_delerr | cnt_fetchok | cnt_fetcherr | cnt_nextrec
| cnt_stor1 | cnt_stor2 | cnt_stor3 | cnt_stor4 | cnt_storerr.

#[export] Instance counter_eq_dec : EqDecision counter.
Proof. solve_decision. Defined.

(** The descriptors, [None] for -1, and the blocks of the structure. *)
Record handles := MkHandles {
  idxfd : option nat;
  datfd : option nat;
  b_db : nat;
  b_name : nat;
  b_idxbuf : nat;
  b_datbuf : nat
}.

(** The buffers are the C strings that begin at them. *)
Record DB := MkDB {
  own : handles;
  idxbuf : string;
  datbuf : string;
  idxoff : Z;
  idxlen : Z;
  datoff : Z;
  datlen : Z;
  ptrval : Z;
  ptroff : Z;
  chainoff : Z;
  hashoff : Z;
  nhash : Z;
  cnt : counter -> Z
}.

(** A locked region: of the index file or of the data file, from, and its length, 0 for
    up to the end. *)
Definition region : Type := bool * Z * Z.

Record st := MkSt {
  idx : list ascii;
  dat : list ascii;
  ipos : Z;
  held : gset region;
  ticks : nat;
  pr : proc;
  db : DB
}.

(** ** Assignments *)

Definition upd_db (f : DB -> DB) (s : st) : st :=
  MkSt (idx s) (dat s) (ipos s) (held s) (ticks s) (pr s) (f (db s)).
Definition set_own (h : handles) (d : DB) : DB :=
  MkDB h (idxbuf d) (datbuf d) (idxoff d) (idxlen d) (datoff d) (datlen d) (ptrval d)
    (ptroff d) (chainoff d) (hashoff d) (nhash d) (cnt d).
Definition set_idxbuf (b : string) (d : DB) : DB :=
  MkDB (own d) b (datbuf d) (idxoff d) (idxlen d) (datoff d) (datlen d) (ptrval d)
    (ptroff d) (chainoff d) (hashoff d) (nhash d) (cnt d).
Definition set_datbuf (b : string) (d : DB) : DB :=
  MkDB (own d) (idxbuf d) b (idxoff d) (idxlen d) (datoff d) (datlen d) (ptrval d)
    (ptroff d) (chainoff d) (hashoff d) (nhash d) (cnt d).
Definition set_idxoff (z : Z) (d : DB) : DB :=
  MkDB (own d) (idxbuf d) (datbuf d) z (idxlen d) (datoff d) (datlen d) (ptrval d)
    (ptroff d) (chainoff d) (hashoff d) (nhash d) (cnt d).
Definition set_idxlen (z : Z) (d : DB) : DB :=
  MkDB (own d) (idxbuf d) (datbuf d) (idxoff d) z (datoff d) (datlen d) (ptrval d)
    (ptroff d) (chainoff d) (hashoff d) (nhash d) (cnt d).
Definition set_datoff (z : Z) (d : DB) : DB :=
  MkDB (own d) (idxbuf d) (datbuf d) (idxoff d) (idxlen d) z (datlen d) (ptrval d)
    (ptroff d) (chainoff d) (hashoff d) (nhash d) (cnt d).
Definition set_datlen (z : Z) (d : DB) : DB :=
  MkDB (own d) (idxbuf d) (datbuf d) (idxoff d) (idxlen d) (datoff d) z (ptrval d)
    (ptroff d) (chainoff d) (hashoff d) (nhash d) (cnt d).
Definition set_ptrval (z : Z) (d : DB) : DB :=
  MkDB (own d) (idxbuf d) (datbuf d) (idxoff d) (idxlen d) (datoff d) (datlen d) z
    (ptroff d) (chainoff d) (hashoff d) (nhash d) (cnt d).
Definition set_ptroff (z : Z) (d : DB) : DB :=
  MkDB (own d) (idxbuf d) (datbuf d) (idxoff d) (idxlen d) (datoff d) (datlen d) (ptrval d)
    z (chainoff d) (hashoff d) (nhash d) (cnt d).
Definition set_chainoff (z : Z) (d : DB) : DB :=
  MkDB (own d) (idxbuf d) (datbuf d) (idxoff d) (idxlen d) (datoff d) (datlen d) (ptrval d)
    (ptroff d) z (hashoff d) (nhash d) (cnt d).
Definition set_hash (n off : Z) (d : DB) : DB :=
  MkDB (own d) (idxbuf d) (datbuf d) (idxoff d) (idxlen d) (datoff d) (datlen d) (ptrval d)
    (ptroff d) (chainoff d) off n (cnt d).
Definition bump (c : counter) (d : DB) : DB :=
  MkDB (own d) (idxbuf d) (datbuf d) (idxoff d) (idxlen d) (datoff d) (datlen d) (ptrval d)
    (ptroff d) (chainoff d) (hashoff d) (nhash d)
    (fun c' => if decide (c' = c) then u64 (cnt d c' + 1) else cnt d c').

(** ** System calls *)

Class System := sys_ok : nat -> bool.

Section Library.
Context `{System}.

Definition tick (s : st) : st :=
  MkSt (idx s) (dat s) (ipos s) (held s) (S (ticks s)) (pr s) (db s).

(** A call whose failure stops the process with this message. *)
Definition call (msg : string) : prog st unit :=
  fun s => if sys_ok (ticks s) then Ret tt (tick s) else Stop msg.

Definition set_held (l : gset region) (s : st) : st :=
  MkSt (idx s) (dat s) (ipos s) l (ticks s) (pr s) (db s).
Definition set_ipos (z : Z) (s : st) : st :=
  MkSt (idx s) (dat s) z (held s) (ticks s) (pr s) (db s).
Definition set_idx (l : list ascii) (s : st) : st :=
  MkSt l (dat s) (ipos s) (held s) (ticks s) (pr s) (db s).
Definition set_dat (l : list ascii) (s : st) : st :=
  MkSt (idx s) l (ipos s) (held s) (ticks s) (pr s) (db s).
Definition set_pr (p : proc) (s : st) : st :=
  MkSt (idx s) (dat s) (ipos s) (held s) (ticks s) p (db s).

(** [readw_lock], [writew_lock] and [un_lock]; the regions the library locks are disjoint, so
    that an unlock gives back what a lock took. *)
Definition w_lock (r : region) (msg : string) : prog st unit :=
  do! call msg in modify (fun s => set_held ({[r]} ∪ held s) s).
Definition un_lock (r : region) (msg : string) : prog st unit :=
  do! call msg in modify (fun s => set_held (held s ∖ {[r]}) s).

(** [lseek] on the index file; the kernel refuses a negative offset. *)
Definition lseek_idx (off : Z) (msg : string) : prog st unit :=
  do! call msg in
  do! require (0 <=? off) msg in
  modify (set_ipos off).

(** [read] on the index file: less at its end. *)
Definition read_idx (n : nat) (msg : string) : prog st (list ascii) :=
  do! call msg in
  let! s := gets (fun s => s) in
  let bytes := read_at (Z.to_nat (ipos s)) n (idx s) in
  do! modify (set_ipos (ipos s + Z.of_nat (length bytes))) in
  ret bytes.

Definition write_idx (w : list ascii) (msg : string) : prog st unit :=
  do! call msg in
  modify (fun s => set_ipos (ipos s + Z.of_nat (length w))
                     (set_idx (write_at (Z.to_nat (ipos s)) w (idx s)) s)).

(** ** Reading and writing pointers and records *)

Definition _db_readptr (offset : Z) : prog st Z :=
  do! lseek_idx offset "_db_readptr: lseek error to ptr field" in
  let! asciiptr := read_idx PTR_SZ "_db_readptr: read error of ptr field" in
  do! require (length asciiptr =? PTR_SZ)%nat "_db_readptr: read error of ptr field" in
  ret (atol (c_str asciiptr)).

Definition _db_writeptr (offset ptrval : Z) : prog st unit :=
  do! require (negb ((ptrval <? 0) || (PTR_MAX <? ptrval))) "_db_writeptr: invalid ptr" in
  do! lseek_idx offset "_db_writeptr: lseek error to ptr field" in
  write_idx (chars (pad PTR_SZ ptrval)) "_db_writeptr: write error of ptr field".

(** Where the two separators of an index record are found and what stands between them. *)
Definition split_record (idxbuf : string) : (string * string * string) + string :=
  match strchr idxbuf SEP with
  | None => inr "_db_readidx: missing first separator"
  | Some i =>
      let ptr1 := drop_str (S i) idxbuf in
      match strchr ptr1 SEP with
      | None => inr "_db_readidx: missing second separator"
      | Some j =>
          let ptr2 := drop_str (S j) ptr1 in
          match strchr ptr2 SEP with
          | Some _ => inr "_db_readidx: too many separators"
          | None => inl (take_str i idxbuf, take_str j ptr1, ptr2)
          end
      end
  end%string.

(** Offset 0 is the position where the descriptor stands, and then -1 is the end of the
    file. *)
Definition _db_readidx (offset : Z) : prog st Z :=
  let! pos := gets ipos in
  let pos := if offset =? 0 then pos else offset in
  do! lseek_idx pos "_db_readidx: lseek error" in
  do! modify (upd_db (set_idxoff pos)) in
  let! head := read_idx (PTR_SZ + IDXLEN_SZ) "_db_readidx: readv error of index record" in
  if (length head =? 0)%nat && (offset =? 0) then ret (-1)
  else
    do! require (length head =? PTR_SZ + IDXLEN_SZ)%nat "_db_readidx: readv error of index record" in
    let ptrval := atol (c_str (take PTR_SZ head)) in
    do! modify (upd_db (set_ptrval ptrval)) in
    let len := u64 (atoi (c_str (drop PTR_SZ head))) in
    do! modify (upd_db (set_idxlen len)) in
    do! require (negb ((len <? IDXLEN_MIN) || (IDXLEN_MAX <? len))) "_db_readidx: invalid length" in
    let! line := read_idx (Z.to_nat len) "_db_readidx: read error of index record" in
    do! require (Z.of_nat (length line) =? len) "_db_readidx: read error of index record" in
    do! require (bool_decide (last line = Some NEWLINE)) "_db_readidx: missing newline" in
    match split_record (c_str (take (Z.to_nat len - 1) line)) with
    | inr msg => stop msg
    | inl (key, ptr1, ptr2) =>
        do! modify (upd_db (set_idxbuf key)) in
        do! modify (upd_db (set_datoff (atol ptr1))) in
        do! require (0 <=? atol ptr1) "_db_readidx: starting offset < 0" in
        do! modify (upd_db (set_datlen (u64 (atol ptr2)))) in
        do! require (negb ((u64 (atol ptr2) =? 0) || (DATLEN_MAX <? u64 (atol ptr2))))
              "_db_readidx: invalid length" in
        ret ptrval
    end.

Definition _db_readdat : prog st string :=
  let! d := gets db in
  do! call "_db_readdat: lseek error" in
  do! call "_db_readdat: read error" in
  let! file := gets dat in
  let bytes := read_at (Z.to_nat (datoff d)) (Z.to_nat (datlen d)) file in
  do! require (Z.of_nat (length bytes) =? datlen d) "_db_readdat: read error" in
  do! require (bool_decide (last bytes = Some NEWLINE)) "_db_readdat: missing newline" in
  let buf := c_str (take (Z.to_nat (datlen d) - 1) bytes) in
  do! modify (upd_db (set_datbuf buf)) in
  ret buf.

(** [None] is [SEEK_END]; an append is made under a lock of the whole data file. *)
Definition _db_writedat (data : string) (offset : option Z) : prog st unit :=
  do! match offset with
      | None => w_lock (false, 0, 0) "_db_writedat: writew_lock error"
      | Some _ => ret tt
      end in
  let! file := gets dat in
  let off := default (Z.of_nat (length file)) offset in
  do! call "_db_writedat: lseek error" in
  do! require (0 <=? off) "_db_writedat: lseek error" in
  do! modify (upd_db (set_datoff off)) in
  do! modify (upd_db (set_datlen (strlen data + 1))) in
  do! call "_db_writedat: writev error of data record" in
  do! modify (set_dat (write_at (Z.to_nat off) (chars data ++ [NEWLINE]) file)) in
  match offset with
  | None => un_lock (false, 0, 0) "_db_writedat: un_lock error"
  | Some _ => ret tt
  end.

Definition record_text (key : string) (off len : Z) : string :=
  key +:+ String SEP (fmt_lld off +:+ String SEP (fmt_lld len +:+ nl)).

(** [sprintf] writes into the 1026 bytes of [idxbuf] before the length is checked.  When
    [_db_dodelete] calls, [key] is [idxbuf] itself, and the text is copied onto itself. *)
Definition _db_writeidx (key : string) (offset : option Z) (ptrval : Z) : prog st unit :=
  do! modify (upd_db (set_ptrval ptrval)) in
  do! require (negb ((ptrval <? 0) || (PTR_MAX <? ptrval))) "_db_writeidx: invalid ptr" in
  let! d := gets db in
  let text := record_text key (datoff d) (datlen d) in
  do! (if strlen text + 1 <=? IDXLEN_MAX + 2 then ret tt else fault OutOfBounds) in
  do! modify (upd_db (set_idxbuf text)) in
  let len := strlen text in
  do! require (negb ((len <? IDXLEN_MIN) || (IDXLEN_MAX <? len))) "_db_writeidx: invalid length" in
  let asciiptrlen := pad PTR_SZ ptrval +:+ pad IDXLEN_SZ len in
  let table_end := (nhash d + 1) * Z.of_nat PTR_SZ + 1 in
  do! match offset with
      | None => w_lock (true, table_end, 0) "_db_writeidx: writew_lock error"
      | Some _ => ret tt
      end in
  let! file := gets idx in
  let off := default (Z.of_nat (length file)) offset in
  do! lseek_idx off "_db_writeidx: lseek error" in
  do! modify (upd_db (set_idxoff off)) in
  do! write_idx (chars asciiptrlen ++ chars text) "_db_writeidx: writev error of index record" in
  match offset with
  | None => un_lock (true, table_end, 0) "_db_writeidx: un_lock error"
  | Some _ => ret tt
  end.

(** ** Searching *)

(** [hval += c * i] with a signed [char] in a loop from [i = 1]; the product is taken to be in the
    range of [int], as it is for keys of less than 2^24 characters ([DbSpec.hash_products_int]). *)
Fixpoint hash_loop (key : string) (i hval : Z) : Z :=
  match key with
  | EmptyString => hval
  | String c key => hash_loop key (i + 1) (u64 (hval + s8 (code c) * i))
  end.
Definition _db_hash (nhash : Z) (key : string) : Z := hash_loop key 1 0 `mod` nhash.

(** The loop of [_db_find_and_lock]; a chain that is not cyclic is shorter than the file. *)
Fixpoint find_loop (fuel : nat) (key : string) (offset : Z) : prog st Z :=
  match fuel with
  | O => loops
  | S fuel =>
      if offset =? 0 then ret 0
      else
        let! nextoffset := _db_readidx offset in
        let! d := gets db in
        if streq (idxbuf d) key then ret offset
        else
          do! modify (upd_db (set_ptroff offset)) in
          find_loop fuel key nextoffset
  end.

Definition chain_fuel : prog st nat := gets (fun s => S (length (idx s))).

(** [true] for the return value 0, [false] for -1. *)
Definition _db_find_and_lock (key : string) (writelock : bool) : prog st bool :=
  let! d := gets db in
  let chain := u64 (_db_hash (nhash d) key * Z.of_nat PTR_SZ + hashoff d) in
  do! modify (upd_db (set_chainoff chain)) in
  do! modify (upd_db (set_ptroff chain)) in
  do! w_lock (true, chain, 1)
        (if writelock then "_db_find_and_lock: writew_lock error"
         else "_db_find_and_lock: readw_lock error")%string in
  let! offset := _db_readptr chain in
  let! fuel := chain_fuel in
  let! offset := find_loop fuel key offset in
  ret (negb (offset =? 0)).

(** The loop of [_db_findfree]: the offset of the record found, 0 for none, and where the
    pointer to it stands. *)
Fixpoint findfree_loop (fuel : nat) (keylen datlen_ offset saveoffset : Z) : prog st (Z * Z) :=
  match fuel with
  | O => loops
  | S fuel =>
      if offset =? 0 then ret (0, saveoffset)
      else
        let! nextoffset := _db_readidx offset in
        let! d := gets db in
        if (strlen (idxbuf d) =? keylen) && (datlen d =? datlen_) then ret (offset, saveoffset)
        else findfree_loop fuel keylen datlen_ nextoffset offset
  end.

Definition _db_findfree (keylen datlen_ : Z) : prog st bool :=
  do! w_lock (true, FREE_OFF, 1) "_db_findfree: writew_lock error" in
  let! offset := _db_readptr FREE_OFF in
  let! fuel := chain_fuel in
  let! (offset, saveoffset) := findfree_loop fuel keylen datlen_ offset FREE_OFF in
  let! rc := (if offset =? 0 then ret false
              else
                let! d := gets db in
                do! _db_writeptr saveoffset (ptrval d) in
                ret true) in
  do! un_lock (true, FREE_OFF, 1) "_db_findfree: un_lock error" in
  ret rc.

(** ** The operations *)

Definition unlock_chain (msg : string) : prog st unit :=
  let! d := gets db in un_lock (true, chainoff d, 1) msg.

Definition db_fetch (key : string) : prog st (option string) :=
  let! found := _db_find_and_lock key false in
  let! ptr := (if found then
                 let! data := _db_readdat in
                 do! modify (upd_db (bump cnt_fetchok)) in ret (Some data)
               else
                 do! modify (upd_db (bump cnt_fetcherr)) in ret None) in
  do! unlock_chain "db_fetch: un_lock error" in
  ret ptr.

(** [datlen] was read by [_db_readidx], so that it is 1 at least. *)
Definition _db_dodelete : prog st unit :=
  let! d := gets db in
  do! modify (upd_db (set_datbuf (spaces (Z.to_nat (datlen d - 1))))) in
  do! modify (upd_db (set_idxbuf (spaces (String.length (idxbuf d))))) in
  do! w_lock (true, FREE_OFF, 1) "_db_dodelete: writew_lock error" in
  let! d := gets db in
  do! _db_writedat (datbuf d) (Some (datoff d)) in
  let! freeptr := _db_readptr FREE_OFF in
  let! d := gets db in
  let saveptr := ptrval d in
  do! _db_writeidx (idxbuf d) (Some (idxoff d)) freeptr in
  let! d := gets db in
  do! _db_writeptr FREE_OFF (idxoff d) in
  do! _db_writeptr (ptroff d) saveptr in
  un_lock (true, FREE_OFF, 1) "_db_dodelete: un_lock error".

Definition db_delete (key : string) : prog st Z :=
  let! found := _db_find_and_lock key true in
  let! rc := (if found then
                do! _db_dodelete in
                do! modify (upd_db (bump cnt_delok)) in ret 0
              else
                do! modify (upd_db (bump cnt_delerr)) in ret (-1)) in
  do! unlock_chain "db_delete: un_lock error" in
  ret rc.

Definition set_proc_errno (e : Z) : prog st unit := modify (fun s => set_pr (set_errno e (pr s)) s).

(** A record at the end of the files, in front of its chain. *)
Definition append_record (key data : string) (ptrval : Z) : prog st unit :=
  do! _db_writedat data None in
  do! _db_writeidx key None ptrval in
  let! d := gets db in
  _db_writeptr (chainoff d) (idxoff d).

Definition store_new (key data : string) (keylen datlen_ flag : Z) : prog st Z :=
  if flag =? DB_REPLACE then
    do! modify (upd_db (bump cnt_storerr)) in
    do! set_proc_errno ENOENT in
    ret (-1)
  else
    let! d := gets db in
    let! ptrval := _db_readptr (chainoff d) in
    let! reuse := _db_findfree keylen datlen_ in
    if reuse then
      let! d := gets db in
      do! _db_writedat data (Some (datoff d)) in
      let! d := gets db in
      do! _db_writeidx key (Some (idxoff d)) ptrval in
      let! d := gets db in
      do! _db_writeptr (chainoff d) (idxoff d) in
      do! modify (upd_db (bump cnt_stor2)) in
      ret 0
    else
      do! append_record key data ptrval in
      do! modify (upd_db (bump cnt_stor1)) in
      ret 0.

Definition store_old (key data : string) (datlen_ flag : Z) : prog st Z :=
  if flag =? DB_INSERT then
    do! modify (upd_db (bump cnt_storerr)) in ret 1
  else
    let! d := gets db in
    if negb (datlen_ =? datlen d) then
      do! _db_dodelete in
      let! d := gets db in
      let! ptrval := _db_readptr (chainoff d) in
      do! append_record key data ptrval in
      do! modify (upd_db (bump cnt_stor3)) in
      ret 0
    else
      do! _db_writedat data (Some (datoff d)) in
      do! modify (upd_db (bump cnt_stor4)) in
      ret 0.

Definition db_store (key data : string) (flag : Z) : prog st Z :=
  if negb (flag =? DB_INSERT) && negb (flag =? DB_REPLACE) && negb (flag =? DB_STORE) then
    do! set_proc_errno EINVAL in ret (-1)
  else
    let keylen := strlen key in
    let datlen_ := strlen data + 1 in
    do! require (negb ((datlen_ <? DATLEN_MIN) || (DATLEN_MAX <? datlen_)))
          "db_store: invalid data length" in
    let! found := _db_find_and_lock key true in
    let! rc := (if found then store_old key data datlen_ flag
                else store_new key data keylen datlen_ flag) in
    do! unlock_chain "db_store: un_lock error" in
    ret rc.

(** ** The sequence of the records *)

Definition db_rewind : prog st unit :=
  let! d := gets db in
  let offset := u64 ((nhash d + 1) * Z.of_nat PTR_SZ) in
  do! lseek_idx (offset + 1) "db_rewind: lseek error" in
  modify (upd_db (set_idxoff (offset + 1))).

Fixpoint blank (s : string) : bool :=
  match s with EmptyString => true | String c s => Ascii.eqb c SPACE && blank s end.

(** Up to the next record whose key is not all blank; [false] at the end of the file. *)
Fixpoint nextrec_loop (fuel : nat) : prog st bool :=
  match fuel with
  | O => loops
  | S fuel =>
      let! r := _db_readidx 0 in
      if r <? 0 then ret false
      else
        let! d := gets db in
        if blank (idxbuf d) then nextrec_loop fuel else ret true
  end.

(** The key, which [strcpy] gives the caller, and the data. *)
Definition db_nextrec : prog st (option (string * string)) :=
  do! w_lock (true, FREE_OFF, 1) "db_nextrec: readw_lock error" in
  let! fuel := chain_fuel in
  let! more := nextrec_loop fuel in
  let! ptr := (if more then
                 let! d := gets db in
                 let! data := _db_readdat in
                 do! modify (upd_db (bump cnt_nextrec)) in
                 ret (Some (idxbuf d, data))
               else ret None) in
  do! un_lock (true, FREE_OFF, 1) "db_nextrec: un_lock error" in
  ret ptr.

(** ** Opening and closing *)

Definition new_block (k : rkind) : prog st nat :=
  let! s := gets (fun s => s) in
  let '(id, p) := acquire k (pr s) in
  do! modify (set_pr p) in ret id.

Definition give_back (k : rkind) (id : nat) : prog st unit :=
  let! s := gets (fun s => s) in
  let! p := lift (release k id (pr s)) in
  modify (set_pr p).

Definition no_counts : counter -> Z := fun _ => 0.

Definition _db_alloc : prog st unit :=
  do! call "_db_alloc: calloc error for DB" in
  let! d := new_block RBlk in
  do! call "_db_alloc: malloc error for name" in
  let! n := new_block RBlk in
  do! call "_db_alloc: malloc error for index buffer" in
  let! i := new_block RBlk in
  do! call "_db_alloc: malloc error for data buffer" in
  let! b := new_block RBlk in
  modify (upd_db (fun _ => MkDB (MkHandles None None d n i b) EmptyString EmptyString
                             0 0 0 0 0 0 0 0 0 no_counts)).

Definition close_opt (fd : option nat) : prog st unit :=
  match fd with None => ret tt | Some fd => give_back RFd fd end.

(** A descriptor that is closed gives up the locks of the file. *)
Definition _db_free : prog st unit :=
  let! d := gets db in
  do! close_opt (idxfd (own d)) in
  do! close_opt (datfd (own d)) in
  do! modify (set_held ∅) in
  do! give_back RBlk (b_idxbuf (own d)) in
  do! give_back RBlk (b_datbuf (own d)) in
  do! give_back RBlk (b_name (own d)) in
  give_back RBlk (b_db (own d)).

Definition db_close : prog st unit := _db_free.

(** What [open] finds: the file as it was, empty when it is created or truncated, or it
    fails. *)
Definition open_file (old : option (list ascii)) (creat trunc : bool)
  : prog st (option (list ascii * nat)) :=
  let! ok := (fun s => Ret (sys_ok (ticks s)) (tick s)) in
  if negb ok then ret None
  else
    match (if creat then Some (default [] old) else old) with
    | None => ret None
    | Some bytes => let! fd := new_block RFd in
                    ret (Some (if trunc then [] else bytes, fd))
    end.

Definition empty_table (n : nat) : list ascii :=
  concat (replicate n (chars (pad PTR_SZ 0))) ++ [NEWLINE].

Definition init_table : prog st unit :=
  do! w_lock (true, 0, 0) "db_open: writew_lock error" in
  do! call "db_open: fstat error" in
  let! file := gets idx in
  do! (if (length file =? 0)%nat then
         do! modify (set_ipos 0) in
         write_idx (empty_table (S (Z.to_nat NHASH_DEF))) "db_open: index file init write error"
       else ret tt) in
  un_lock (true, 0, 0) "db_open: un_lock error".

(** What [open] gave for the two files: -1 for one of them gives everything back, and
    [false] is the return value [NULL].  A new descriptor stands at the beginning of its
    file. *)
Definition open_files (creat trunc : bool) (i d : option (list ascii * nat)) : prog st bool :=
  do! modify (upd_db (fun db => set_own (MkHandles (snd <$> i) (snd <$> d) (b_db (own db))
        (b_name (own db)) (b_idxbuf (own db)) (b_datbuf (own db))) db)) in
  match i, d with
  | Some (fi, _), Some (fd, _) =>
      do! modify (fun s => set_ipos 0 (set_idx fi (set_dat fd s))) in
      do! (if creat && trunc then init_table else ret tt) in
      do! db_rewind in
      ret true
  | _, _ => do! _db_free in ret false
  end.

(** [old_idx] and [old_dat] are the files [pathname.idx] and [pathname.dat] before.  The
    fields [idx] and [dat] are the bytes behind the two descriptors, and say nothing when the
    database is not open. *)
Definition db_open (old_idx old_dat : option (list ascii)) (creat trunc : bool) : prog st bool :=
  do! _db_alloc in
  do! modify (upd_db (set_hash NHASH_DEF HASH_OFF)) in
  let! i := open_file old_idx creat trunc in
  let! d := open_file old_dat creat trunc in
  open_files creat trunc i d.

End Library.
