(* ===== verification/DbLayout.v ===== *)
(** * The layout of the database files

    What the bytes of the two files mean: a table of pointers and a list of slots, each a
    record of the index file with its record of the data file, in the order of both files.
    A pointer is the number of a slot; on disk it is the offset of its index record.  The
    lemmas say what the reading and writing functions of [Db] do to files laid out so. *)

From S2P Require Import Prelude Prog Process CLib DbFile Db.
From Stdlib Require Import Ascii.
Local Open Scope Z_scope.

Record slot := Slot { s_key : string; s_next : option nat; s_data : string }.

(** The head of the free list, the heads of the hash chains, and the slots. *)
Record layout := Layout { heads : list (option nat); slots : list slot }.

(** ** Offsets, which depend on the sizes of keys and data only *)

Definition size (sl : slot) : nat * nat := (String.length (s_key sl), String.length (s_data sl)).
Definition sizes (L : layout) : list (nat * nat) := size <$> slots L.

Definition datpos (zs : list (nat * nat)) (i : nat) : nat :=
  sum_list_with (fun z => S (snd z)) (take i zs).

(** The length of the text of a record. *)
Definition textlen (off : nat) (z : nat * nat) : nat :=
  fst z + 3 + String.length (fmt_lld (Z.of_nat off)) + String.length (fmt_lld (Z.of_nat (S (snd z)))).

Definition lens (zs : list (nat * nat)) : list nat :=
  imap (fun i z => 11 + textlen (datpos zs i) z)%nat zs.

(** The table and the newline after it. *)
Definition TABLE : nat := 967.

Definition idxpos (zs : list (nat * nat)) (i : nat) : nat := TABLE + sum_list (take i (lens zs)).

(** A pointer as it is on disk. *)
Definition ptr_to (zs : list (nat * nat)) (p : option nat) : Z :=
  match p with None => 0 | Some i => Z.of_nat (idxpos zs i) end.

(** ** The bytes *)

Definition ptr_field (zs : list (nat * nat)) (p : option nat) : list ascii :=
  chars (pad PTR_SZ (ptr_to zs p)).

Definition slot_text (zs : list (nat * nat)) (i : nat) (sl : slot) : string :=
  record_text (s_key sl) (Z.of_nat (datpos zs i)) (Z.of_nat (S (String.length (s_data sl)))).

Definition slot_body (zs : list (nat * nat)) (i : nat) (sl : slot) : list ascii :=
  chars (pad IDXLEN_SZ (strlen (slot_text zs i sl))) ++ chars (slot_text zs i sl).

Definition slot_bytes (zs : list (nat * nat)) (i : nat) (sl : slot) : list ascii :=
  ptr_field zs (s_next sl) ++ slot_body zs i sl.

Definition idx_chunks (L : layout) : list (list ascii) :=
  (ptr_field (sizes L) <$> heads L) ++ [[NEWLINE]] ++ imap (slot_bytes (sizes L)) (slots L).

Definition dat_chunks (L : layout) : list (list ascii) :=
  (fun sl => chars (s_data sl) ++ [NEWLINE]) <$> slots L.

(** What a key and a data text may be: no NUL, no separator in a key, and lengths that fit
    their fields. *)
Definition legal_slot (zs : list (nat * nat)) (i : nat) (sl : slot) : Prop :=
  plain (s_key sl) /\ (SEP ∉ chars (s_key sl)) /\ plain (s_data sl) /\
  DATLEN_MIN <= strlen (s_data sl) + 1 <= DATLEN_MAX /\
  IDXLEN_MIN <= strlen (slot_text zs i sl) <= IDXLEN_MAX /\
  Z.of_nat (idxpos zs i) <= PTR_MAX.

(** A pointer to a slot that there is. *)
Definition ptr_in (n : nat) (p : option nat) : Prop :=
  match p with None => True | Some i => (i < n)%nat end.

Record fits (L : layout) : Prop := MkFits {
  f_heads : length (heads L) = 138%nat;
  f_ptrs h p : heads L !! h = Some p -> ptr_in (length (slots L)) p;
  f_nexts i sl : slots L !! i = Some sl -> ptr_in (length (slots L)) (s_next sl);
  f_slots i sl : slots L !! i = Some sl -> legal_slot (sizes L) i sl
}.

(** The files of the state are laid out as [L]. *)
Record laid (L : layout) (s : st) : Prop := MkLaid {
  l_fits : fits L;
  l_idx : idx s = concat (idx_chunks L);
  l_dat : dat s = concat (dat_chunks L);
  l_nhash : nhash (db s) = NHASH_DEF;
  l_hashoff : hashoff (db s) = HASH_OFF
}.

(** ** Lengths and offsets *)

Lemma sum_list_snoc l n : sum_list (l ++ [n]) = (sum_list l + n)%nat.
Proof. induction l as [|x l IH]; cbn in *; lia. Qed.

Lemma lookup_sizes L i sl : slots L !! i = Some sl -> sizes L !! i = Some (size sl).
Proof. intros Hi. unfold sizes. by rewrite list_lookup_fmap, Hi. Qed.

Lemma strlen_record_text key off len :
  strlen (record_text key off len) = strlen key + 3 + strlen (fmt_lld off) + strlen (fmt_lld len).
Proof.
  unfold record_text. rewrite strlen_app, strlen_cons, strlen_app, strlen_cons, strlen_app.
  change (strlen nl) with 1. lia.
Qed.

Lemma length_slot_text zs i sl : String.length (slot_text zs i sl) = textlen (datpos zs i) (size sl).
Proof.
  pose proof (strlen_record_text (s_key sl) (Z.of_nat (datpos zs i))
    (Z.of_nat (S (String.length (s_data sl))))) as H.
  unfold slot_text, textlen, strlen in *. cbn [size fst snd]. lia.
Qed.

Lemma fmt_ptr_fits z : 0 <= z <= PTR_MAX -> strlen (fmt_lld z) <= Z.of_nat PTR_SZ.
Proof. intros Hz. unfold PTR_MAX, PTR_SZ in *. apply strlen_fmt_lld; lia. Qed.

Lemma length_ptr_field zs p :
  ptr_to zs p <= PTR_MAX -> length (ptr_field zs p) = PTR_SZ.
Proof.
  intros Hp. unfold ptr_field. rewrite length_chars. apply length_pad, fmt_ptr_fits.
  split; [|done]. destruct p; cbn [ptr_to]; lia.
Qed.

Lemma atol_ptr_field zs p :
  ptr_to zs p <= PTR_MAX -> atol (c_str (ptr_field zs p)) = ptr_to zs p.
Proof.
  intros Hp. assert (0 <= ptr_to zs p) by (destruct p; cbn [ptr_to]; lia).
  unfold ptr_field. rewrite c_str_chars by (by apply plain_pad).
  apply atol_pad. unfold PTR_MAX, LLONG_MAX in *. lia.
Qed.

Lemma length_sizes L : length (sizes L) = length (slots L).
Proof. apply length_fmap. Qed.

Lemma ptr_small L p : fits L -> ptr_in (length (slots L)) p -> 0 <= ptr_to (sizes L) p <= PTR_MAX.
Proof.
  intros HL Hp. destruct p as [i|]; cbn [ptr_to ptr_in] in *; [|unfold PTR_MAX; lia].
  destruct (lookup_lt_is_Some_2 (slots L) i Hp) as [sl Hi].
  destruct (f_slots _ HL i sl Hi) as (_ & _ & _ & _ & _ & ?). lia.
Qed.

Lemma length_slot_bytes L i sl :
  fits L -> slots L !! i = Some sl ->
  length (slot_bytes (sizes L) i sl) = (11 + textlen (datpos (sizes L) i) (size sl))%nat.
Proof.
  intros HL Hi. unfold slot_bytes, slot_body. rewrite !length_app, !length_chars.
  rewrite length_ptr_field by (by apply (ptr_small L), (f_nexts L HL i)).
  rewrite length_pad, length_slot_text; [done|].
  destruct (f_slots _ HL i sl Hi) as (_ & _ & _ & _ & Hl & _).
  unfold IDXLEN_MIN, IDXLEN_MAX, IDXLEN_SZ in *. apply strlen_fmt_lld; lia.
Qed.

Lemma idxpos_S L i sl :
  slots L !! i = Some sl ->
  idxpos (sizes L) (S i) = (idxpos (sizes L) i + (11 + textlen (datpos (sizes L) i) (size sl)))%nat.
Proof.
  intros Hi. unfold idxpos, lens. rewrite (take_S_r _ _ (11 + textlen (datpos (sizes L) i) (size sl))%nat).
  - rewrite sum_list_snoc. lia.
  - by rewrite list_lookup_imap, (lookup_sizes _ _ _ Hi).
Qed.

Lemma datpos_S L i sl :
  slots L !! i = Some sl ->
  datpos (sizes L) (S i) = (datpos (sizes L) i + S (String.length (s_data sl)))%nat.
Proof.
  intros Hi. unfold datpos. rewrite (take_S_r _ _ _ (lookup_sizes _ _ _ Hi)).
  rewrite sum_list_with_app. cbn. lia.
Qed.

Lemma head_chunk L h p : heads L !! h = Some p -> idx_chunks L !! h = Some (ptr_field (sizes L) p).
Proof.
  intros Hh. unfold idx_chunks. apply lookup_app_l_Some. by rewrite list_lookup_fmap, Hh.
Qed.

Lemma newline_chunk L : fits L -> idx_chunks L !! 138%nat = Some [NEWLINE].
Proof.
  intros HL. unfold idx_chunks. rewrite lookup_app_r; rewrite length_fmap, (f_heads _ HL); [done|lia].
Qed.

Lemma slot_chunk L i sl :
  fits L -> slots L !! i = Some sl -> idx_chunks L !! (139 + i)%nat = Some (slot_bytes (sizes L) i sl).
Proof.
  intros HL Hi. unfold idx_chunks. rewrite lookup_app_r; rewrite length_fmap, (f_heads _ HL); [|lia].
  rewrite lookup_app_r by (cbn; lia). cbn [length].
  replace (139 + i - 138 - 1)%nat with i by lia. by rewrite list_lookup_imap, Hi.
Qed.

Lemma dat_chunk L i sl :
  slots L !! i = Some sl -> dat_chunks L !! i = Some (chars (s_data sl) ++ [NEWLINE]).
Proof. intros Hi. unfold dat_chunks. by rewrite list_lookup_fmap, Hi. Qed.

Lemma offset_head L h : fits L -> (h <= 138)%nat -> offset (idx_chunks L) h = (7 * h)%nat.
Proof.
  intros HL. induction h as [|h IH]; intros Hh; [done|].
  destruct (lookup_lt_is_Some_2 (heads L) h) as [p Hp]; [rewrite (f_heads _ HL); lia|].
  rewrite (offset_S _ _ _ (head_chunk _ _ _ Hp)), IH by lia.
  rewrite length_ptr_field by (by apply (ptr_small L), (f_ptrs L HL h)). unfold PTR_SZ. lia.
Qed.

Lemma offset_slot L i :
  fits L -> (i <= length (slots L))%nat -> offset (idx_chunks L) (139 + i) = idxpos (sizes L) i.
Proof.
  intros HL. induction i as [|i IH]; intros Hi.
  - cbn [Nat.add]. rewrite (offset_S _ _ _ (newline_chunk _ HL)), offset_head by (done || lia).
    by unfold idxpos; rewrite take_0.
  - destruct (lookup_lt_is_Some_2 (slots L) i) as [sl Hsl]; [lia|].
    rewrite Nat.add_succ_r, (offset_S _ _ _ (slot_chunk _ _ _ HL Hsl)), IH by lia.
    by rewrite (length_slot_bytes _ _ _ HL Hsl), (idxpos_S _ _ _ Hsl).
Qed.

Lemma offset_dat L i : (i <= length (slots L))%nat -> offset (dat_chunks L) i = datpos (sizes L) i.
Proof.
  induction i as [|i IH]; intros Hi; [done|].
  destruct (lookup_lt_is_Some_2 (slots L) i) as [sl Hsl]; [lia|].
  rewrite (offset_S _ _ _ (dat_chunk _ _ _ Hsl)), IH, (datpos_S _ _ _ Hsl) by lia.
  rewrite length_app, length_chars. cbn. lia.
Qed.

(** The ends of the files. *)
Lemma length_idx L : fits L -> length (concat (idx_chunks L)) = idxpos (sizes L) (length (slots L)).
Proof.
  intros HL. rewrite <- offset_slot by done. unfold offset. rewrite firstn_all2; [done|].
  unfold idx_chunks. rewrite !length_app, length_fmap, length_imap, (f_heads _ HL). cbn. lia.
Qed.

Lemma length_dat L : length (concat (dat_chunks L)) = datpos (sizes L) (length (slots L)).
Proof.
  rewrite <- offset_dat by done. unfold offset. rewrite firstn_all2; [done|].
  unfold dat_chunks. by rewrite length_fmap.
Qed.

(** ** Places of pointers *)

Inductive loc := Head (h : nat) | Next (i : nat).

#[export] Instance loc_eq_dec : EqDecision loc.
Proof. solve_decision. Defined.

Definition loc_off (zs : list (nat * nat)) (l : loc) : Z :=
  match l with Head h => Z.of_nat (7 * h) | Next i => Z.of_nat (idxpos zs i) end.

Definition set_next (p : option nat) (sl : slot) : slot := Slot (s_key sl) p (s_data sl).

Definition lookup_loc (L : layout) (l : loc) : option (option nat) :=
  match l with Head h => heads L !! h | Next i => s_next <$> slots L !! i end.

Definition set_slot (i : nat) (sl : slot) (L : layout) : layout :=
  Layout (heads L) (<[i := sl]> (slots L)).

Definition set_loc (l : loc) (p : option nat) (L : layout) : layout :=
  match l with
  | Head h => Layout (<[h := p]> (heads L)) (slots L)
  | Next i => match slots L !! i with
              | Some sl => set_slot i (set_next p sl) L
              | None => L
              end
  end.

(** ** Changes that keep the layout in place *)

Lemma imap_set {A B} (f : nat -> A -> B) l i x :
  imap f (<[i := x]> l) = <[i := f i x]> (imap f l).
Proof.
  apply list_eq. intros j. rewrite list_lookup_imap. destruct (decide (i = j)) as [->|Hne].
  - destruct (decide (j < length l)%nat) as [Hj|Hj].
    + by rewrite !list_lookup_insert_eq by (rewrite ?length_imap; done).
    + rewrite !list_insert_ge by (rewrite ?length_imap; lia). by rewrite list_lookup_imap.
  - by rewrite !list_lookup_insert_ne, list_lookup_imap by done.
Qed.

Lemma sizes_set_slot L i sl sl' :
  slots L !! i = Some sl -> size sl' = size sl -> sizes (set_slot i sl' L) = sizes L.
Proof.
  intros Hi Hs. unfold sizes, set_slot. cbn [slots]. rewrite list_fmap_insert, Hs.
  apply list_insert_id. by rewrite list_lookup_fmap, Hi.
Qed.

Lemma sizes_set_loc L l p : sizes (set_loc l p L) = sizes L.
Proof.
  destruct l as [h|i]; cbn [set_loc]; [done|]. destruct (slots L !! i) as [sl|] eqn:Hi; [|done].
  by apply (sizes_set_slot _ _ sl).
Qed.

Lemma length_set_slot L i sl : length (slots (set_slot i sl L)) = length (slots L).
Proof. apply length_insert. Qed.

Lemma length_set_loc L l p : length (slots (set_loc l p L)) = length (slots L).
Proof. destruct l as [h|i]; cbn [set_loc]; [done|]. destruct (slots L !! i); [apply length_set_slot|done]. Qed.

Lemma idx_chunks_set_slot L i sl sl' :
  fits L -> slots L !! i = Some sl -> size sl' = size sl ->
  idx_chunks (set_slot i sl' L) = <[(139 + i)%nat := slot_bytes (sizes L) i sl']> (idx_chunks L).
Proof.
  intros HL Hi Hs. unfold idx_chunks. rewrite (sizes_set_slot _ _ _ _ Hi Hs). cbn [set_slot heads slots].
  rewrite imap_set. rewrite insert_app_r_alt by (rewrite length_fmap, (f_heads _ HL); lia).
  rewrite length_fmap, (f_heads _ HL).
  done.
Qed.

Lemma dat_chunks_set_slot L i sl :
  dat_chunks (set_slot i sl L) = <[i := chars (s_data sl) ++ [NEWLINE]]> (dat_chunks L).
Proof. unfold dat_chunks, set_slot. cbn [slots]. by rewrite list_fmap_insert. Qed.

Lemma dat_chunks_set_loc L l p : dat_chunks (set_loc l p L) = dat_chunks L.
Proof.
  destruct l as [h|i]; cbn [set_loc]; [done|]. destruct (slots L !! i) as [sl|] eqn:Hi; [|done].
  rewrite dat_chunks_set_slot. cbn [set_next s_data]. apply list_insert_id.
  by apply dat_chunk.
Qed.

(** The chunk that begins with a pointer, before and after the pointer is changed. *)
Lemma loc_chunk L l p :
  fits L -> lookup_loc L l = Some p ->
  exists k b, idx_chunks L !! k = Some (ptr_field (sizes L) p ++ b) /\
    Z.of_nat (offset (idx_chunks L) k) = loc_off (sizes L) l /\
    forall p', idx_chunks (set_loc l p' L) = <[k := ptr_field (sizes L) p' ++ b]> (idx_chunks L).
Proof.
  intros HL Hp. destruct l as [h|i]; cbn [lookup_loc loc_off set_loc] in *.
  - exists h, []. rewrite app_nil_r. split; [by apply head_chunk|].
    apply lookup_lt_Some in Hp as Hh. rewrite (f_heads _ HL) in Hh.
    split; [by rewrite offset_head by (done || lia)|]. intros p'. rewrite app_nil_r.
    unfold idx_chunks. change (sizes (Layout _ _)) with (sizes L). cbn [heads slots].
    rewrite list_fmap_insert, insert_app_l; [done|]. by rewrite length_fmap, (f_heads _ HL).
  - apply fmap_Some in Hp as (sl & Hi & ->). rewrite Hi.
    exists (139 + i)%nat, (slot_body (sizes L) i sl). split; [by apply slot_chunk|].
    apply lookup_lt_Some in Hi as Hlt. split; [by rewrite offset_slot by (done || lia)|].
    intros p'. by rewrite (idx_chunks_set_slot _ _ _ _ HL Hi).
Qed.

(** A slot that is replaced by one of the same sizes. *)
Lemma fits_set_slot L i sl sl' :
  fits L -> slots L !! i = Some sl -> size sl' = size sl ->
  plain (s_key sl') -> (SEP ∉ chars (s_key sl')) -> plain (s_data sl') ->
  ptr_in (length (slots L)) (s_next sl') -> fits (set_slot i sl' L).
Proof.
  intros HL Hi Hs Hk Hsep Hd Hp. pose proof (lookup_lt_Some _ _ _ Hi) as Hlt.
  split; rewrite ?(sizes_set_slot _ _ _ _ Hi Hs), ?length_set_slot; [apply HL|apply HL|..];
    intros j slj; cbn [set_slot slots];
    intros [(-> & <- & _)|[Hne Hj]]%list_lookup_insert_Some; try done;
    try (by eapply (f_nexts _ HL)); try (by eapply (f_slots _ HL)).
  destruct (f_slots _ HL _ _ Hi) as (_ & _ & _ & Hdl & Htl & Hpos).
  repeat split; try done.
  - unfold strlen in *. injection Hs as _ ->. lia.
  - unfold strlen in *. injection Hs as _ ->. lia.
  - unfold strlen in *. rewrite length_slot_text, Hs, <- length_slot_text. lia.
  - unfold strlen in *. rewrite length_slot_text, Hs, <- length_slot_text. lia.
Qed.

Lemma fits_set_loc L l p p0 :
  fits L -> lookup_loc L l = Some p0 -> ptr_in (length (slots L)) p -> fits (set_loc l p L).
Proof.
  intros HL Hl Hp. destruct l as [h|i]; cbn [set_loc lookup_loc] in *.
  - split; cbn [heads slots]; [by rewrite length_insert, (f_heads _ HL)| |apply HL|apply HL].
    intros h' q [(-> & <- & _)|[_ Hq]]%list_lookup_insert_Some; [done|by eapply (f_ptrs _ HL)].
  - apply fmap_Some in Hl as (sl & Hi & ->). rewrite Hi.
    destruct (f_slots _ HL _ _ Hi) as (? & ? & ? & _). by eapply fits_set_slot.
Qed.

(** ** What the functions do to files laid out so *)

(** The texts of the records. *)

Lemma strchr_none s c : (c ∉ chars s) -> strchr s c = None.
Proof.
  induction s as [|d s IH]; [done|]. cbn [chars strchr]. rewrite not_elem_of_cons. intros [Hd Hs].
  destruct (Ascii.eqb_spec d c) as [->|_]; [done|]. by rewrite IH.
Qed.

Lemma strchr_app a c b : (c ∉ chars a) -> strchr (a +:+ String c b) c = Some (String.length a).
Proof.
  induction a as [|d a IH].
  - intros _. rewrite append_nil_l. cbn [strchr]. by rewrite Ascii.eqb_refl.
  - rewrite append_cons. cbn [chars strchr String.length]. rewrite not_elem_of_cons. intros [Hd Ha].
    destruct (Ascii.eqb_spec d c) as [->|_]; [done|]. by rewrite IH.
Qed.

Lemma take_str_app a b : take_str (String.length a) (a +:+ b) = a.
Proof. induction a as [|c a IH]; [by destruct b|]. rewrite append_cons. cbn. by rewrite IH. Qed.

Lemma drop_str_app a c b : drop_str (S (String.length a)) (a +:+ String c b) = b.
Proof. induction a as [|d a IH]; [by destruct b|]. rewrite append_cons. exact IH. Qed.

Lemma sep_not_digit z : 0 <= z -> SEP ∉ chars (fmt_lld z).
Proof. intros Hz Hin%chars_fmt_lld; [|done]. change (code SEP) with 58 in Hin. lia. Qed.

Lemma split_record_text key off len :
  (SEP ∉ chars key) -> 0 <= off -> 0 <= len ->
  split_record (key +:+ String SEP (fmt_lld off +:+ String SEP (fmt_lld len))) =
    inl (key, fmt_lld off, fmt_lld len).
Proof.
  intros Hk Ho Hl. unfold split_record. rewrite (strchr_app key) by done.
  rewrite (drop_str_app key), (take_str_app key), strchr_app by (by apply sep_not_digit).
  rewrite drop_str_app, take_str_app, strchr_none by (by apply sep_not_digit). done.
Qed.

(** A record text and its last character. *)
Lemma record_text_split key off len :
  record_text key off len = (key +:+ String SEP (fmt_lld off +:+ String SEP (fmt_lld len))) +:+ nl.
Proof.
  unfold record_text. by rewrite <- !append_assoc, !append_cons, <- !append_assoc.
Qed.

(** ** Offsets in the data file fit an [off_t] *)

Lemma position_bounds L i :
  fits L -> (i <= length (slots L))%nat ->
  (datpos (sizes L) i <= 1024 * i)%nat /\ (TABLE + 17 * i <= idxpos (sizes L) i)%nat.
Proof.
  intros HL. induction i as [|i IH]; intros Hi.
  { unfold idxpos, datpos. rewrite !take_0. cbn. lia. }
  destruct (lookup_lt_is_Some_2 (slots L) i) as [sl Hsl]; [lia|].
  rewrite (datpos_S _ _ _ Hsl), (idxpos_S _ _ _ Hsl).
  destruct (f_slots _ HL _ _ Hsl) as (_ & _ & _ & Hd & Ht & _).
  unfold strlen in Ht. rewrite length_slot_text in Ht. unfold strlen, DATLEN_MAX, IDXLEN_MIN in *. lia.
Qed.

Lemma datpos_small L i :
  fits L -> (i <= length (slots L))%nat -> Z.of_nat (idxpos (sizes L) i) <= PTR_MAX ->
  Z.of_nat (datpos (sizes L) i) < 10 ^ 9.
Proof.
  intros HL Hi Hp. pose proof (position_bounds L i HL Hi). unfold PTR_MAX, TABLE in *. lia.
Qed.

(** ** One more slot *)

Definition add_slot (sl : slot) (L : layout) : layout := Layout (heads L) (slots L ++ [sl]).

Lemma sizes_add L sl : sizes (add_slot sl L) = sizes L ++ [size sl].
Proof. unfold sizes, add_slot. cbn [slots]. by rewrite fmap_app. Qed.

Lemma datpos_app zs zs' i : (i <= length zs)%nat -> datpos (zs ++ zs') i = datpos zs i.
Proof. intros Hi. unfold datpos. by rewrite take_app_le. Qed.

Lemma lens_app zs z : lens (zs ++ [z]) = lens zs ++ [11 + textlen (datpos zs (length zs)) z]%nat.
Proof.
  unfold lens. rewrite imap_app. f_equal.
  - apply imap_ext. intros i x Hi%lookup_lt_Some. by rewrite datpos_app by lia.
  - cbn [imap]. unfold compose. rewrite Nat.add_0_r. by rewrite datpos_app by lia.
Qed.

Lemma idxpos_app zs z i : (i <= length zs)%nat -> idxpos (zs ++ [z]) i = idxpos zs i.
Proof.
  intros Hi. unfold idxpos. rewrite lens_app, take_app_le; [done|]. unfold lens. by rewrite length_imap.
Qed.

Lemma ptr_to_app zs z p : ptr_in (length zs) p -> ptr_to (zs ++ [z]) p = ptr_to zs p.
Proof. destruct p as [i|]; [|done]. cbn [ptr_in ptr_to]. intros Hi. by rewrite idxpos_app by lia. Qed.

Lemma slot_bytes_app zs z i sl :
  (i <= length zs)%nat -> ptr_in (length zs) (s_next sl) ->
  slot_bytes (zs ++ [z]) i sl = slot_bytes zs i sl.
Proof.
  intros Hi Hp. unfold slot_bytes, slot_body, slot_text, ptr_field.
  by rewrite ptr_to_app, datpos_app.
Qed.

Lemma idx_chunks_add L sl :
  fits L -> ptr_in (length (slots L)) (s_next sl) ->
  idx_chunks (add_slot sl L) = idx_chunks L ++ [slot_bytes (sizes L) (length (slots L)) sl].
Proof.
  intros HL Hp. unfold idx_chunks. rewrite sizes_add. cbn [add_slot heads slots].
  rewrite <- !(assoc_L (++)). f_equal; [|f_equal].
  - apply list_fmap_ext. intros h p Hh. unfold ptr_field.
    rewrite ptr_to_app; [done|]. rewrite length_sizes. by eapply (f_ptrs _ HL).
  - rewrite imap_app. f_equal.
    + apply imap_ext. intros i x Hi. apply slot_bytes_app; rewrite length_sizes;
        [by eapply Nat.lt_le_incl, lookup_lt_Some|by eapply (f_nexts _ HL)].
    + cbn [imap]. unfold compose. rewrite Nat.add_0_r, slot_bytes_app; by rewrite ?length_sizes.
Qed.

Lemma dat_chunks_add L sl : dat_chunks (add_slot sl L) = dat_chunks L ++ [chars (s_data sl) ++ [NEWLINE]].
Proof. unfold dat_chunks, add_slot. cbn [slots]. by rewrite fmap_app. Qed.

Lemma fits_add L sl :
  fits L -> ptr_in (length (slots L)) (s_next sl) ->
  legal_slot (sizes L) (length (slots L)) sl -> fits (add_slot sl L).
Proof.
  intros HL Hp Hsl.
  assert (forall p, ptr_in (length (slots L)) p -> ptr_in (length (slots (add_slot sl L))) p) as Hin.
  { intros [i|]; cbn; [|done]. rewrite length_app. lia. }
  split; [apply HL| | |]; cbn [add_slot heads slots].
  - intros h p Hh. by eapply Hin, (f_ptrs _ HL).
  - intros i x [Hi|[_ Hi]]%lookup_app_Some; [by eapply Hin, (f_nexts _ HL)|].
    apply list_lookup_singleton_Some in Hi as [_ <-]. by apply Hin.
  - intros i x Hx. rewrite sizes_add. unfold legal_slot, slot_text.
    assert (i <= length (sizes L))%nat as Hi.
    { apply lookup_lt_Some in Hx. rewrite length_app in Hx. rewrite length_sizes. cbn in Hx. lia. }
    rewrite datpos_app, idxpos_app by done.
    apply lookup_app_Some in Hx as [Hx|[Hge Hx]]; [by apply (f_slots _ HL)|].
    apply list_lookup_singleton_Some in Hx as [Hx <-].
    replace i with (length (slots L)) by lia. exact Hsl.
Qed.

(** The structure after [_db_readidx] has read slot [i]. *)
Definition at_slot (zs : list (nat * nat)) (i : nat) (sl : slot) (d : DB) : DB :=
  set_datlen (Z.of_nat (S (String.length (s_data sl))))
    (set_datoff (Z.of_nat (datpos zs i))
      (set_idxbuf (s_key sl)
        (set_idxlen (strlen (slot_text zs i sl))
          (set_ptrval (ptr_to zs (s_next sl))
            (set_idxoff (Z.of_nat (idxpos zs i)) d))))).

Section Functions.
Context `{System}.

(** The excuse of a process that stopped itself: a system call failed. *)
Definition broken : Prop := exists n, sys_ok n = false.

(** Only the position of the descriptor and the count of calls differ. *)
Definition same (s s' : st) : Prop :=
  idx s' = idx s /\ dat s' = dat s /\ held s' = held s /\ pr s' = pr s /\ db s' = db s.

Lemma runs_call msg (Q : unit -> st -> Prop) s : Q tt (tick s) -> runs broken (call msg) Q s.
Proof. intros HQ. unfold runs, call. destruct (sys_ok (ticks s)) eqn:E; [done|]. by exists (ticks s). Qed.

Lemma runs_lseek off msg (Q : unit -> st -> Prop) s :
  0 <= off -> Q tt (set_ipos off (tick s)) -> runs broken (lseek_idx off msg) Q s.
Proof.
  intros Ho HQ. unfold lseek_idx. run. apply runs_call. run. run; [lia|]. by run.
Qed.

Lemma runs_lock r msg (Q : unit -> st -> Prop) s :
  Q tt (set_held ({[r]} ∪ held s) (tick s)) -> runs broken (w_lock r msg) Q s.
Proof. intros HQ. unfold w_lock. run. apply runs_call. by run. Qed.

Lemma runs_unlock r msg (Q : unit -> st -> Prop) s :
  Q tt (set_held (held s ∖ {[r]}) (tick s)) -> runs broken (un_lock r msg) Q s.
Proof. intros HQ. unfold un_lock. run. apply runs_call. by run. Qed.

Lemma runs_read n msg (Q : list ascii -> st -> Prop) s :
  (let bytes := read_at (Z.to_nat (ipos s)) n (idx s) in
   Q bytes (set_ipos (ipos s + Z.of_nat (length bytes)) (tick s))) ->
  runs broken (read_idx n msg) Q s.
Proof. intros HQ. unfold read_idx. run. apply runs_call. run. run. run. run. by run. Qed.

Lemma runs_write w msg (Q : unit -> st -> Prop) s :
  Q tt (set_ipos (ipos s + Z.of_nat (length w))
          (set_idx (write_at (Z.to_nat (ipos s)) w (idx s)) (tick s))) ->
  runs broken (write_idx w msg) Q s.
Proof. intros HQ. unfold write_idx. run. apply runs_call. by run. Qed.

Lemma laid_same L s s' : laid L s -> same s s' -> laid L s'.
Proof. intros [H1 H2 H3 H4 H5] (E1 & E2 & E3 & _ & E4). split; congruence. Qed.

(** [_db_readptr] at a place of the layout gives the pointer. *)
Lemma readptr_spec L l p (Q : Z -> st -> Prop) s :
  laid L s -> lookup_loc L l = Some p ->
  (forall s', same s s' -> Q (ptr_to (sizes L) p) s') ->
  runs broken (_db_readptr (loc_off (sizes L) l)) Q s.
Proof.
  intros HL Hp HQ. destruct (loc_chunk L l p (l_fits _ _ HL) Hp) as (k & b & Hk & Hoff & _).
  assert (ptr_to (sizes L) p <= PTR_MAX) as Hmax.
  { apply ptr_small; [apply HL|]. destruct l; cbn [lookup_loc] in Hp; [by eapply (f_ptrs _ (l_fits _ _ HL))|].
    apply fmap_Some in Hp as (sl & Hi & ->). by eapply (f_nexts _ (l_fits _ _ HL)). }
  unfold _db_readptr. run. apply runs_lseek; [rewrite <- Hoff; lia|]. run. apply runs_read.
  cbn [ipos set_ipos idx tick]. rewrite (l_idx _ _ HL), <- Hoff, Nat2Z.id.
  pose proof (read_chunk (idx_chunks L) k [] (ptr_field (sizes L) p) b Hk) as E.
  rewrite length_ptr_field in E by done. cbn [length] in E. rewrite Nat.add_0_r in E. rewrite E.
  run. run; [by rewrite length_ptr_field|]. run. rewrite atol_ptr_field by done. by apply HQ.
Qed.

(** [_db_writeptr] changes the pointer. *)
Lemma writeptr_spec L l p p0 (Q : unit -> st -> Prop) s :
  laid L s -> lookup_loc L l = Some p0 -> ptr_in (length (slots L)) p ->
  (forall s', laid (set_loc l p L) s' -> held s' = held s -> pr s' = pr s -> db s' = db s -> Q tt s') ->
  runs broken (_db_writeptr (loc_off (sizes L) l) (ptr_to (sizes L) p)) Q s.
Proof.
  intros HL Hp Hin HQ. destruct (loc_chunk L l p0 (l_fits _ _ HL) Hp) as (k & b & Hk & Hoff & Hset).
  pose proof (ptr_small L p (l_fits _ _ HL) Hin) as Hmax.
  assert (ptr_to (sizes L) p0 <= PTR_MAX) as Hmax0.
  { apply ptr_small; [apply HL|]. destruct l; cbn [lookup_loc] in Hp; [by eapply (f_ptrs _ (l_fits _ _ HL))|].
    apply fmap_Some in Hp as (sl & Hi & ->). by eapply (f_nexts _ (l_fits _ _ HL)). }
  unfold _db_writeptr. run. run; [lia|]. run. apply runs_lseek; [rewrite <- Hoff; lia|].
  apply runs_write. apply HQ; [|done..]. split; cbn; [by eapply fits_set_loc; [apply HL|..]| | |apply HL|apply HL].
  - change (chars (pad 7 (ptr_to (sizes L) p))) with (ptr_field (sizes L) p).
    rewrite (l_idx _ _ HL), <- Hoff, Nat2Z.id, Hset.
    pose proof (write_chunk (idx_chunks L) k [] (ptr_field (sizes L) p0) (ptr_field (sizes L) p) b Hk) as E.
    cbn [length app] in E. rewrite Nat.add_0_r in E. apply E. by rewrite !length_ptr_field by (done || apply Hmax).
  - by rewrite (l_dat _ _ HL), dat_chunks_set_loc.
Qed.
(** The two parts of a record on disk, and what the parser makes of them. *)
Lemma slot_head L i sl :
  fits L -> slots L !! i = Some sl ->
  let head := ptr_field (sizes L) (s_next sl) ++ chars (pad IDXLEN_SZ (strlen (slot_text (sizes L) i sl))) in
  length head = (PTR_SZ + IDXLEN_SZ)%nat /\
  atol (c_str (take PTR_SZ head)) = ptr_to (sizes L) (s_next sl) /\
  u64 (atoi (c_str (drop PTR_SZ head))) = strlen (slot_text (sizes L) i sl).
Proof.
  intros HL Hi head. pose proof (ptr_small L _ HL (f_nexts _ HL _ _ Hi)) as Hp.
  destruct (f_slots _ HL _ _ Hi) as (_ & _ & _ & _ & Ht & _).
  assert (length (ptr_field (sizes L) (s_next sl)) = PTR_SZ) as Hl by (by apply length_ptr_field, Hp).
  unfold IDXLEN_MIN, IDXLEN_MAX in Ht. unfold head. rewrite <- Hl, take_app_length, drop_app_length, Hl.
  rewrite atol_ptr_field by lia. rewrite c_str_chars by (apply plain_pad; lia).
  unfold atoi. rewrite atol_pad by (unfold LLONG_MAX; lia).
  rewrite s32_small, u64_small by (unfold INT_MIN, INT_MAX; lia).
  rewrite length_app, length_chars, Hl, length_pad; [done|].
  unfold IDXLEN_SZ. apply strlen_fmt_lld; lia.
Qed.

Lemma slot_parse L i sl :
  fits L -> slots L !! i = Some sl ->
  let text := slot_text (sizes L) i sl in
  last (chars text) = Some NEWLINE /\
  split_record (c_str (take (Z.to_nat (strlen text) - 1) (chars text))) =
    inl (s_key sl, fmt_lld (Z.of_nat (datpos (sizes L) i)),
         fmt_lld (Z.of_nat (S (String.length (s_data sl))))).
Proof.
  intros HL Hi text. destruct (f_slots _ HL _ _ Hi) as (Hk & Hsep & _).
  unfold text, slot_text. rewrite record_text_split. set (body := _ +:+ String SEP _).
  rewrite chars_app. change (chars nl) with [NEWLINE]. split; [apply last_snoc|].
  unfold strlen. rewrite length_append, Nat2Z.id, <- length_chars. change (String.length nl) with 1%nat.
  rewrite Nat.add_sub, take_app_length, c_str_chars; [apply split_record_text; [done|lia..]|].
  unfold body. rewrite plain_app, plain_cons, plain_app, plain_cons. repeat split; try done;
    apply plain_fmt_lld; lia.
Qed.

Lemma slot_chunk_parts L i sl :
  fits L -> slots L !! i = Some sl ->
  idx_chunks L !! (139 + i)%nat =
    Some ((ptr_field (sizes L) (s_next sl) ++ chars (pad IDXLEN_SZ (strlen (slot_text (sizes L) i sl)))) ++
          chars (slot_text (sizes L) i sl)).
Proof.
  intros HL Hi. rewrite (slot_chunk _ _ _ HL Hi). unfold slot_bytes, slot_body. by rewrite (assoc_L (++)).
Qed.

(** [_db_readidx] on a slot, by its offset or from the position of the descriptor. *)
Lemma readidx_spec L i sl off (Q : Z -> st -> Prop) s :
  laid L s -> slots L !! i = Some sl ->
  off = Z.of_nat (idxpos (sizes L) i) \/ (off = 0 /\ ipos s = Z.of_nat (idxpos (sizes L) i)) ->
  (forall s', laid L s' -> held s' = held s -> pr s' = pr s -> db s' = at_slot (sizes L) i sl (db s) ->
    ipos s' = Z.of_nat (idxpos (sizes L) (S i)) -> Q (ptr_to (sizes L) (s_next sl)) s') ->
  runs broken (_db_readidx off) Q s.
Proof.
  intros HLs Hi Hoff HQ. pose proof (l_fits _ _ HLs) as HL. pose proof (lookup_lt_Some _ _ _ Hi) as Hlt.
  destruct (slot_head L i sl HL Hi) as (Hlen & Hptr & Hl4). destruct (slot_parse L i sl HL Hi) as [Hlast Hsplit].
  destruct (f_slots _ HL _ _ Hi) as (_ & _ & _ & Hd & Ht & Hpos).
  pose proof (slot_chunk_parts L i sl HL Hi) as Hc. pose proof (datpos_small L i HL ltac:(lia) Hpos) as Hdp.
  set (text := slot_text (sizes L) i sl) in *. set (head := ptr_field _ _ ++ chars (pad _ _)) in *.
  pose proof (read_chunk _ _ [] head (chars text) Hc) as E1.
  pose proof (read_chunk _ _ head (chars text) [] ltac:(by rewrite app_nil_r)) as E2.
  rewrite offset_slot in E1, E2 by (done || lia). cbn [length] in E1. rewrite Nat.add_0_r in E1.
  rewrite Hlen in E1, E2. unfold IDXLEN_MIN, IDXLEN_MAX, DATLEN_MIN, DATLEN_MAX, strlen in *.
  unfold _db_readidx. run. run.
  assert ((if off =? 0 then ipos s else off) = Z.of_nat (idxpos (sizes L) i)) as ->.
  { destruct Hoff as [->|[-> ->]]; [|done]. destruct (Z.eqb_spec (Z.of_nat (idxpos (sizes L) i)) 0); [|done].
    pose proof (position_bounds L i HL). unfold TABLE in *. lia. }
  run. apply runs_lseek; [lia|]. run. run. run. apply runs_read.
  cbn [ipos upd_db set_ipos tick idx]. rewrite (l_idx _ _ HLs), Nat2Z.id, E1, Hlen. change ((PTR_SZ + IDXLEN_SZ =? 0)%nat) with false. cbn [andb].
  run. run; [done|]. run. run. rewrite Hptr, Hl4. run. run. run. run; [unfold IDXLEN_MIN, IDXLEN_MAX; lia|]. run. apply runs_read.
  cbn [ipos upd_db set_ipos tick idx]. rewrite (l_idx _ _ HLs).
  rewrite <- Nat2Z.inj_add, !Nat2Z.id, <- (length_chars text), E2. run. run; [lia|].
  run. run; [by rewrite Hlast|]. rewrite length_chars. rewrite Nat2Z.id in Hsplit. rewrite Hsplit.
  run. run. run. run. rewrite !atol_fmt by (unfold LLONG_MIN, LLONG_MAX; lia). run. run; [lia|].
  run. run. run. rewrite u64_small by (clear - Hd; lia).
  run; [apply negb_true_iff, orb_false_iff; split; [apply Z.eqb_neq|apply Z.ltb_ge]; unfold DATLEN_MAX; lia|]. run.
  apply HQ; try done. 1: split; try apply HLs; done.
  cbn [ipos set_ipos upd_db]. rewrite (idxpos_S _ _ _ Hi).
  unfold text. rewrite length_slot_text. unfold PTR_SZ, IDXLEN_SZ. lia.
Qed.

(** At the end of the index file. *)
Lemma readidx_end L (Q : Z -> st -> Prop) s :
  laid L s -> ipos s = Z.of_nat (idxpos (sizes L) (length (slots L))) ->
  (forall s', laid L s' -> held s' = held s -> pr s' = pr s -> ipos s' = ipos s -> Q (-1) s') ->
  runs broken (_db_readidx 0) Q s.
Proof.
  intros HLs Hpos HQ. pose proof (l_fits _ _ HLs) as HL. unfold _db_readidx. run. run.
  cbn [Z.eqb]. run. apply runs_lseek; [lia|]. run. run. run. apply runs_read.
  cbn [ipos upd_db set_ipos tick idx]. rewrite (l_idx _ _ HLs), Hpos, Nat2Z.id, <- (length_idx L HL).
  unfold read_at. rewrite drop_all, take_nil. cbn [length Nat.eqb andb]. run.
  apply HQ; try done.
  - split; try apply HLs; done.
  - cbn. rewrite length_idx by done. lia.
Qed.

(** [_db_readdat] of the slot whose index record was read. *)
Lemma readdat_spec L i sl (Q : string -> st -> Prop) s :
  laid L s -> slots L !! i = Some sl ->
  datoff (db s) = Z.of_nat (datpos (sizes L) i) ->
  datlen (db s) = Z.of_nat (S (String.length (s_data sl))) ->
  (forall s', laid L s' -> held s' = held s -> pr s' = pr s -> ipos s' = ipos s ->
    db s' = set_datbuf (s_data sl) (db s) -> Q (s_data sl) s') ->
  runs broken _db_readdat Q s.
Proof.
  intros HLs Hi Ho Hl HQ. pose proof (l_fits _ _ HLs) as HL. pose proof (lookup_lt_Some _ _ _ Hi) as Hlt.
  destruct (f_slots _ HL _ _ Hi) as (_ & _ & Hd & _).
  pose proof (read_chunk (dat_chunks L) i [] _ [] ltac:(by rewrite app_nil_r; apply dat_chunk)) as E.
  rewrite offset_dat, Nat.add_0_r in E by lia.
  assert (length (chars (s_data sl) ++ [NEWLINE]) = S (String.length (s_data sl))) as El
    by (rewrite length_app, length_chars; cbn; lia).
  rewrite El in E. unfold _db_readdat. run. run. rewrite Ho, Hl.
  run. apply runs_call. run. apply runs_call. run. run. cbn [dat tick].
  rewrite (l_dat _ _ HLs), !Nat2Z.id, E, El. run. run; [by apply Z.eqb_eq|].
  run. run; [by rewrite last_snoc|].
  replace (S (String.length (s_data sl)) - 1)%nat with (length (chars (s_data sl))) by (rewrite length_chars; lia).
  rewrite take_app_length, c_str_chars by done. run. run. run.
  apply HQ; try done. split; try apply HLs; done.
Qed.

(** [_db_writedat] over a data record of the same length. *)
Lemma writedat_spec L i sl data (Q : unit -> st -> Prop) s :
  laid L s -> slots L !! i = Some sl -> String.length data = String.length (s_data sl) -> plain data ->
  (forall s', laid (set_slot i (Slot (s_key sl) (s_next sl) data) L) s' ->
    held s' = held s -> pr s' = pr s ->
    db s' = set_datlen (Z.of_nat (S (String.length data)))
              (set_datoff (Z.of_nat (datpos (sizes L) i)) (db s)) -> Q tt s') ->
  runs broken (_db_writedat data (Some (Z.of_nat (datpos (sizes L) i)))) Q s.
Proof.
  intros HLs Hi Hlen Hplain HQ. pose proof (l_fits _ _ HLs) as HL. pose proof (lookup_lt_Some _ _ _ Hi) as Hlt.
  destruct (f_slots _ HL _ _ Hi) as (Hk & Hsep & _). set (sl' := Slot _ _ data) in *.
  assert (size sl' = size sl) as Hs by (unfold size; cbn; congruence).
  pose proof (write_chunk (dat_chunks L) i [] _ (chars data ++ [NEWLINE]) []
    ltac:(by rewrite app_nil_r; apply dat_chunk)) as E.
  rewrite offset_dat, Nat.add_0_r, app_nil_r in E by lia.
  unfold _db_writedat. run. run. run. run. run. apply runs_call. run. run; [apply Z.leb_le; unfold default, id; lia|]. unfold default, id.
  run. run. run. run. run. apply runs_call. run. run. run.
  apply HQ; try done.
  - split; [| | |apply HLs|apply HLs]; cbn [idx dat set_dat upd_db tick].
    + apply (fits_set_slot _ _ _ _ HL Hi Hs Hk Hsep Hplain), (f_nexts _ HL i sl Hi).
    + rewrite (l_idx _ _ HLs), (idx_chunks_set_slot _ _ _ _ HL Hi Hs). f_equal. symmetry.
      apply list_insert_id. rewrite (slot_chunk _ _ _ HL Hi). unfold slot_bytes, slot_body, slot_text.
      cbn [sl' s_key s_next s_data]. by rewrite Hlen.
    + rewrite (l_dat _ _ HLs), Nat2Z.id, E, dat_chunks_set_slot; [done|].
      rewrite !length_app, !length_chars. cbn [length]. lia.
  - unfold upd_db. cbn. do 2 f_equal. unfold strlen. lia.
Qed.

(** [_db_writeidx] over an index record of the same length. *)
Lemma writeidx_spec L i sl key p (Q : unit -> st -> Prop) s :
  laid L s -> slots L !! i = Some sl -> String.length key = String.length (s_key sl) ->
  plain key -> (SEP ∉ chars key) -> ptr_in (length (slots L)) p ->
  datoff (db s) = Z.of_nat (datpos (sizes L) i) ->
  datlen (db s) = Z.of_nat (S (String.length (s_data sl))) ->
  (forall s', laid (set_slot i (Slot key p (s_data sl)) L) s' ->
    held s' = held s -> pr s' = pr s ->
    db s' = set_idxoff (Z.of_nat (idxpos (sizes L) i))
              (set_idxbuf (slot_text (sizes L) i (Slot key p (s_data sl)))
                (set_ptrval (ptr_to (sizes L) p) (db s))) -> Q tt s') ->
  runs broken (_db_writeidx key (Some (Z.of_nat (idxpos (sizes L) i))) (ptr_to (sizes L) p)) Q s.
Proof.
  intros HLs Hi Hlen Hplain Hsep Hp Ho Hl HQ. pose proof (l_fits _ _ HLs) as HL.
  pose proof (lookup_lt_Some _ _ _ Hi) as Hlt. destruct (f_slots _ HL _ _ Hi) as (_ & _ & Hd & _ & Ht & _).
  set (sl' := Slot key p (s_data sl)) in *. assert (size sl' = size sl) as Hs by (unfold size; cbn; congruence).
  pose proof (ptr_small L p HL Hp) as Hpm.
  assert (strlen (slot_text (sizes L) i sl') = strlen (slot_text (sizes L) i sl)) as Htl
    by (unfold strlen; by rewrite !length_slot_text, Hs).
  assert (fits (set_slot i sl' L)) as HL' by (by eapply fits_set_slot).
  pose proof (write_chunk (idx_chunks L) (139 + i) [] (slot_bytes (sizes L) i sl)
    (slot_bytes (sizes L) i sl') []) as E.
  rewrite offset_slot, Nat.add_0_r, app_nil_r in E by (done || lia).
  assert (length (slot_bytes (sizes L) i sl) = length (slot_bytes (sizes L) i sl')) as Hb.
  { rewrite (length_slot_bytes _ _ _ HL Hi), <- (sizes_set_slot _ _ _ _ Hi Hs).
    rewrite (length_slot_bytes _ _ sl' HL'); [by rewrite Hs|]. cbn. by rewrite list_lookup_insert_eq. }
  unfold _db_writeidx. run. run. run. run; [lia|]. run. run. cbn [db upd_db set_ptrval datoff datlen nhash].
  rewrite Ho, Hl. change (record_text key _ _) with (slot_text (sizes L) i sl'). rewrite Htl.
  unfold IDXLEN_MIN, IDXLEN_MAX in *. rewrite (proj2 (Z.leb_le _ _)) by lia.
  run. run. run. run. run. run; [lia|]. run. run. run. run. unfold default, id. run.
  apply runs_lseek; [lia|]. run. run. run. apply runs_write. run.
  apply HQ; try done.
  split; [exact HL'| | |apply HLs|apply HLs]; cbn [idx dat ipos set_idx set_ipos upd_db tick].
  - rewrite (l_idx _ _ HLs), Nat2Z.id, (idx_chunks_set_slot _ _ _ _ HL Hi Hs).
    assert (chars (pad PTR_SZ (ptr_to (sizes L) p) +:+ pad IDXLEN_SZ (strlen (slot_text (sizes L) i sl))) ++
      chars (slot_text (sizes L) i sl') = slot_bytes (sizes L) i sl') as ->.
    { unfold slot_bytes, slot_body. rewrite chars_app, Htl. by rewrite (assoc_L (++)). }
    rewrite E; [by rewrite app_nil_r|rewrite app_nil_l; rewrite ?app_nil_r; by apply slot_chunk|done].
  - rewrite (l_dat _ _ HLs), dat_chunks_set_slot. f_equal. symmetry. apply list_insert_id.
    exact (dat_chunk L i sl Hi).
Qed.

(** The regions that an append locks. *)
Definition appends : gset region := {[ (false, 0, 0); (true, 967, 0) ]}.

Lemma unlock_lock (r : region) (l : gset region) : (r ∉ l) -> ({[r]} ∪ l) ∖ {[r]} = l.
Proof.
  intros Hr. apply set_eq. intros x. rewrite elem_of_difference, elem_of_union, elem_of_singleton.
  split; [by intros [[->|?] ?]|]. intros Hx. split; [by right|]. by intros ->.
Qed.

(** A record at the end of both files and at the front of its chain. *)
Lemma append_spec L h p0 p key data (Q : unit -> st -> Prop) s :
  let n := length (slots L) in
  let sl := Slot key p data in
  laid L s -> heads L !! h = Some p0 -> chainoff (db s) = loc_off (sizes L) (Head h) ->
  ptr_in n p -> legal_slot (sizes L) n sl -> appends ## held s ->
  (forall s', laid (set_loc (Head h) (Some n) (add_slot sl L)) s' ->
    held s' = held s -> pr s' = pr s -> chainoff (db s') = chainoff (db s) -> cnt (db s') = cnt (db s) ->
    own (db s') = own (db s) -> Q tt s') ->
  runs broken (append_record key data (ptr_to (sizes L) p)) Q s.
Proof.
  intros n sl HLs Hh Hco Hp Hsl Hheld HQ. pose proof (l_fits _ _ HLs) as HL.
  pose proof (ptr_small L p HL Hp) as Hpm. pose proof (fits_add L sl HL Hp Hsl) as HL1.
  destruct Hsl as (_ & _ & _ & Hd & Ht & Hpos).
  assert (((false, 0, 0) ∉ held s) /\ ((true, 967, 0) ∉ held s)) as [Hr1 Hr2]
    by (split; intros Hr; eapply Hheld, Hr; unfold appends; clear; set_solver).
  assert (length (dat s) = datpos (sizes L) n) as Hdl by (by rewrite (l_dat _ _ HLs), length_dat).
  assert (length (idx s) = idxpos (sizes L) n) as Hil by (by rewrite (l_idx _ _ HLs), length_idx).
  unfold append_record, _db_writedat. run. run. apply runs_lock. run. run. cbn [dat set_held tick].
  unfold default, id. rewrite Hdl. run. apply runs_call. run. run; [apply Z.leb_le; lia|].
  run. run. run. run. run. apply runs_call. run. run. apply runs_unlock.
  cbn [held set_held set_dat upd_db tick]. rewrite unlock_lock by done.
  unfold _db_writeidx. run. run. run. run. run; [lia|]. run. run.
  cbn [db upd_db set_held set_dat tick set_ptrval set_datlen set_datoff datoff datlen nhash].
  replace (strlen data + 1) with (Z.of_nat (S (String.length data))) by (unfold strlen; lia).
  change (record_text key _ _) with (slot_text (sizes L) n sl).
  unfold IDXLEN_MIN, IDXLEN_MAX in *. rewrite (proj2 (Z.leb_le _ _)) by lia.
  run. run. run. run. run. run; [lia|]. run. apply runs_lock. run. run.
  cbn [idx held set_held set_dat upd_db tick]. rewrite Hil. run. unfold default, id. apply runs_lseek; [lia|]. run. run.
  run. apply runs_write. apply runs_unlock.
  cbn [held set_held set_dat set_idx set_ipos upd_db tick idx]. rewrite (l_nhash _ _ HLs).
  change ((NHASH_DEF + 1) * Z.of_nat PTR_SZ + 1) with 967.
  rewrite unlock_lock by done.
  run. run. cbn [db upd_db set_held set_ipos set_idx set_dat tick set_idxoff idxoff chainoff
    set_idxbuf set_ptrval set_datlen set_datoff].
  assert (ptr_to (sizes (add_slot sl L)) (Some n) = Z.of_nat (idxpos (sizes L) n)) as Hn.
  { rewrite sizes_add. cbn [ptr_to]. by rewrite idxpos_app by (by rewrite length_sizes). }
  rewrite Hco. change (loc_off (sizes L) (Head h)) with (loc_off (sizes (add_slot sl L)) (Head h)).
  rewrite <- Hn. apply (writeptr_spec (add_slot sl L) (Head h) (Some n) p0).
  - split; [exact HL1| | |apply HLs|apply HLs].
    + cbn [idx set_held set_idx set_ipos upd_db tick ipos set_dat].
      rewrite Hn, (idx_chunks_add L sl HL Hp), Nat2Z.id, <- Hil, (l_idx _ _ HLs), write_end.
      do 3 f_equal. unfold slot_bytes, slot_body. by rewrite chars_app, (assoc_L (++)).
    + cbn [dat set_held set_idx set_ipos upd_db tick ipos set_dat].
      by rewrite dat_chunks_add, Nat2Z.id, <- Hdl, (l_dat _ _ HLs), write_end.
  - exact Hh.
  - cbn. rewrite length_app. cbn. lia.
  - intros s' Hl' Hh' Hp' Hd'. apply HQ; [exact Hl'|by rewrite Hh'|by rewrite Hp'|rewrite Hd'; cbn; done..].
Qed.

End Functions.
