(* ===== verification/DbChains.v ===== *)
(** * The chains of the database

    What the pointers of a layout mean: every slot stands in the free list or in one hash
    chain, that of its key.  The lemmas take a slot out of its chain and put it in front of
    another, as the deletion and the storing of a record do, and say what becomes of the map
    from keys to data. *)

From S2P Require Import Prelude Prog CLib DbFile Db DbLayout.
Local Open Scope Z_scope.

(** ** One chain *)

Fixpoint chain (nx : list (option nat)) (p : option nat) (c : list nat) : Prop :=
  match c with
  | [] => p = None
  | i :: c => p = Some i /\ exists q, nx !! i = Some q /\ chain nx q c
  end.

(** Where the pointer to what follows [c] stands, when the pointer to [c] stands at [l]. *)
Fixpoint last_loc (l : loc) (c : list nat) : loc :=
  match c with [] => l | i :: c => last_loc (Next i) c end.

Lemma chain_frame nx nx' p c :
  (forall i, i ∈ c -> nx' !! i = nx !! i) -> chain nx p c -> chain nx' p c.
Proof.
  revert p. induction c as [|i c IH]; intros p Hf; [done|]. intros [-> (q & Hq & Hc)].
  split; [done|]. exists q. rewrite Hf by left. split; [done|].
  apply IH; [|done]. intros j Hj. apply Hf. by right.
Qed.

Lemma last_loc_snoc l c i : last_loc l (c ++ [i]) = Next i.
Proof. revert l. induction c as [|j c IH]; intros l; [done|]. apply IH. Qed.

Lemma last_loc_cases l c :
  (c = [] /\ last_loc l c = l) \/ (exists i, i ∈ c /\ last_loc l c = Next i).
Proof.
  destruct c as [|i c _] using rev_ind; [by left|right]. exists i. rewrite last_loc_snoc.
  split; [|done]. apply elem_of_app. right. by left.
Qed.

(** Taking a slot out of a chain: one pointer changes. *)
Lemma chain_unlink nx p c1 i c2 q :
  NoDup (c1 ++ i :: c2) -> chain nx p (c1 ++ i :: c2) -> nx !! i = Some q ->
  match last_loc (Head 0) c1 with
  | Head _ => chain nx q c2
  | Next j => chain (<[j := q]> nx) p (c1 ++ c2)
  end.
Proof.
  intros Hnd Hc Hq. destruct c1 as [|j c1 _] using rev_ind.
  { cbn in *. destruct Hc as (_ & q' & Hq' & Hc). by simplify_eq. }
  rewrite last_loc_snoc. rewrite <- (assoc_L (++)) in Hc, Hnd. cbn [app] in Hc, Hnd.
  rewrite <- (assoc_L (++)). cbn [app]. revert p Hc. induction c1 as [|k c1 IH]; intros p Hc; cbn [app] in *.
  - destruct Hc as (-> & p1 & Hj & -> & q' & Hq' & Hc). simplify_eq.
    apply NoDup_cons in Hnd as [Hj' Hnd]. apply NoDup_cons in Hnd as [Hi' Hnd].
    split; [done|]. exists q. rewrite list_lookup_insert_eq by (by eapply lookup_lt_Some).
    split; [done|]. eapply chain_frame; [|done]. intros x Hx. apply list_lookup_insert_ne.
    intros ->. apply Hj'. by right.
  - destruct Hc as (-> & p1 & Hk & Hc). apply NoDup_cons in Hnd as [Hk' Hnd].
    split; [done|]. exists p1. rewrite list_lookup_insert_ne.
    + split; [done|]. by apply IH.
    + intros ->. apply Hk'. apply elem_of_app. right. by left.
Qed.

(** ** All the chains *)

Definition chains (hs nx : list (option nat)) (cs : list (list nat)) : Prop :=
  length cs = length hs /\
  forall k p c, hs !! k = Some p -> cs !! k = Some c -> chain nx p c.

(** Changing one pointer. *)
Definition put (l : loc) (p : option nat) (t : list (option nat) * list (option nat))
  : list (option nat) * list (option nat) :=
  match l with
  | Head k => (<[k := p]> (fst t), snd t)
  | Next i => (fst t, <[i := p]> (snd t))
  end.

Lemma elem_of_concat {A} (cs : list (list A)) x :
  x ∈ concat cs <-> exists k c, cs !! k = Some c /\ x ∈ c.
Proof.
  induction cs as [|d cs IH]; cbn.
  - split; [by intros ?%not_elem_of_nil|by intros (k & c & ? & _)].
  - rewrite elem_of_app, IH. split.
    + intros [Hx|(k & c & Hk & Hx)]; [by exists 0%nat, d|by exists (S k), c].
    + intros ([|k] & c & Hk & Hx); cbn in Hk; [simplify_eq; by left|right; by exists k, c].
Qed.

Lemma concat_lookup {A} (cs : list (list A)) k c x : cs !! k = Some c -> x ∈ c -> x ∈ concat cs.
Proof. intros Hk Hx. apply elem_of_concat. by exists k, c. Qed.

Lemma concat_unique {A} (cs : list (list A)) k k' c c' x :
  NoDup (concat cs) -> cs !! k = Some c -> cs !! k' = Some c' -> x ∈ c -> x ∈ c' -> k = k'.
Proof.
  revert k k'. induction cs as [|d cs IH]; intros k k' Hnd Hk Hk' Hx Hx'; [done|].
  cbn in Hnd. apply NoDup_app in Hnd as (_ & Hd & Hnd).
  destruct k as [|k], k' as [|k']; cbn in Hk, Hk'; simplify_eq; [done|..].
  - destruct (Hd x Hx). by eapply concat_lookup.
  - destruct (Hd x Hx'). by eapply concat_lookup.
  - f_equal. by eapply IH.
Qed.

Lemma NoDup_chain {A} (cs : list (list A)) k c : NoDup (concat cs) -> cs !! k = Some c -> NoDup c.
Proof.
  intros Hnd Hk. rewrite <- (take_drop_middle _ _ _ Hk), concat_app in Hnd.
  apply NoDup_app in Hnd as (_ & _ & Hnd). cbn in Hnd. by apply NoDup_app in Hnd as (? & _).
Qed.

Lemma concat_insert_perm {A} (cs : list (list A)) k c c' x :
  cs !! k = Some c -> c' ≡ₚ x :: c -> concat (<[k := c']> cs) ≡ₚ x :: concat cs.
Proof.
  intros Hk Hc. rewrite insert_take_drop by (by eapply lookup_lt_Some).
  rewrite <- (take_drop_middle _ _ _ Hk) at 3. rewrite !concat_app. cbn. rewrite Hc. cbn.
  symmetry. apply Permutation_middle.
Qed.

Lemma chains_unlink hs nx cs k c1 i c2 q :
  chains hs nx cs -> NoDup (concat cs) -> cs !! k = Some (c1 ++ i :: c2) -> nx !! i = Some q ->
  let t := put (last_loc (Head k) c1) q (hs, nx) in chains (fst t) (snd t) (<[k := c1 ++ c2]> cs).
Proof.
  intros [Hl Hc] Hnd Hk Hq t. pose proof (NoDup_chain _ _ _ Hnd Hk) as Hndk.
  pose proof (lookup_lt_Some _ _ _ Hk) as Hlt.
  destruct (lookup_lt_is_Some_2 hs k) as [p Hp]; [lia|].
  pose proof (chain_unlink nx p c1 i c2 q Hndk (Hc k p _ Hp Hk) Hq) as Hu.
  destruct (last_loc_cases (Head 0) c1) as [[-> _]|(j & Hj & E)].
  - unfold t. cbn [last_loc put fst snd app] in *. split; [by rewrite !length_insert|]. intros k' p' c' Hp' Hc'.
    destruct (decide (k = k')) as [<-|Hne].
    + rewrite list_lookup_insert_eq in Hp' by lia. rewrite list_lookup_insert_eq in Hc' by done. by simplify_eq.
    + rewrite list_lookup_insert_ne in Hp' by done. rewrite list_lookup_insert_ne in Hc' by done. by eapply Hc.
  - assert (last_loc (Head k) c1 = Next j) as E'.
    { destruct c1 as [|x c1 _] using rev_ind; [by apply not_elem_of_nil in Hj|].
      by rewrite last_loc_snoc in *. }
    rewrite E in Hu. unfold t. rewrite E'. cbn [put fst snd]. split; [by rewrite length_insert|].
    intros k' p' c' Hp' Hc'. destruct (decide (k = k')) as [<-|Hne].
    + rewrite list_lookup_insert_eq in Hc' by done. by simplify_eq.
    + rewrite list_lookup_insert_ne in Hc' by done. eapply chain_frame; [|by eapply Hc].
      intros x Hx. apply list_lookup_insert_ne. intros ->. destruct Hne.
      eapply (concat_unique cs); [done|done|exact Hc'| |done]. apply elem_of_app. by left.
Qed.

Lemma chains_link hs nx cs k c p i :
  chains hs nx cs -> cs !! k = Some c -> hs !! k = Some p -> (i ∉ concat cs) -> (i < length nx)%nat ->
  chains (<[k := Some i]> hs) (<[i := p]> nx) (<[k := i :: c]> cs).
Proof.
  intros [Hl Hc] Hk Hp Hi Hlt. split; [by rewrite !length_insert|]. intros k' p' c' Hp' Hc'.
  assert (forall k c q r, cs !! k = Some c -> chain nx q c -> chain (<[i := r]> nx) q c) as Hf.
  { intros k0 c0 q r Hc0 Hch. eapply chain_frame; [|done]. intros x Hx. apply list_lookup_insert_ne.
    intros ->. apply Hi. by eapply concat_lookup. }
  destruct (decide (k = k')) as [<-|Hne].
  - rewrite list_lookup_insert_eq in Hp' by (by eapply lookup_lt_Some).
    rewrite list_lookup_insert_eq in Hc' by (by eapply lookup_lt_Some). simplify_eq.
    split; [done|]. exists p. rewrite list_lookup_insert_eq by done. split; [done|]. eapply Hf; eauto.
  - rewrite list_lookup_insert_ne in Hp' by done. rewrite list_lookup_insert_ne in Hc' by done. eapply Hf; eauto.
Qed.

Lemma chains_grow hs nx cs p :
  chains hs nx cs -> (forall i, i ∈ concat cs -> (i < length nx)%nat) -> chains hs (nx ++ [p]) cs.
Proof.
  intros [Hl Hc] Hin. split; [done|]. intros k q c Hq Hk. eapply chain_frame; [|by eapply Hc].
  intros i Hi. apply lookup_app_l. apply Hin. by eapply concat_lookup.
Qed.

(** ** Chains and contents

    [ks] are the key and the data of each slot; the slots of [spare] are in no chain. *)

Definition pairs (ks : list (string * string)) (l : list nat) : list (string * string) :=
  omap (fun i => ks !! i) l.

Record coherent (hs nx : list (option nat)) (ks : list (string * string))
    (spare free : list nat) (bs : list (list nat)) (m : gmap string string) : Prop := MkCoherent {
  co_chains : chains hs nx (free :: bs);
  co_len : length nx = length ks;
  co_all : spare ++ free ++ concat bs ≡ₚ seq 0 (length ks);
  co_free i kv : i ∈ free -> ks !! i = Some kv -> blank (fst kv) = true;
  co_hash h c i kv : bs !! h = Some c -> i ∈ c -> ks !! i = Some kv ->
    _db_hash NHASH_DEF (fst kv) = Z.of_nat h;
  co_keys : NoDup (pairs ks (concat bs)).*1;
  co_map : m = list_to_map (pairs ks (concat bs))
}.

Lemma elem_of_pairs ks l kv : kv ∈ pairs ks l <-> exists i, i ∈ l /\ ks !! i = Some kv.
Proof. apply list_elem_of_omap. Qed.

(** Lists of pairs with the same keys in another order make the same map. *)
Lemma to_map_perm (l l' : list (string * string)) :
  l ≡ₚ l' -> NoDup l'.*1 -> (list_to_map l : gmap string string) = list_to_map l'.
Proof. intros Hl Hnd. symmetry. by apply list_to_map_proper. Qed.

#[export] Instance pairs_proper ks : Proper ((≡ₚ) ==> (≡ₚ)) (pairs ks).
Proof. intros l l' Hl. unfold pairs. by rewrite Hl. Qed.

Lemma pairs_frame ks i kv l : (i ∉ l) -> pairs (<[i := kv]> ks) l = pairs ks l.
Proof.
  induction l as [|j l IH]; [done|]. rewrite not_elem_of_cons. intros [Hj Hl]. cbn.
  rewrite list_lookup_insert_ne by done. unfold pairs in IH. by rewrite IH.
Qed.

Lemma pairs_app_frame ks kv l :
  (forall i, i ∈ l -> (i < length ks)%nat) -> pairs (ks ++ [kv]) l = pairs ks l.
Proof.
  induction l as [|j l IH]; intros Hl; [done|]. cbn. rewrite lookup_app_l by (apply Hl; left).
  unfold pairs in IH. rewrite IH; [done|]. intros i Hi. apply Hl. by right.
Qed.

Section Coherent.
#[local] Set Default Proof Using "Type*".
Context {hs nx : list (option nat)} {ks : list (string * string)}.
Context {spare free : list nat} {bs : list (list nat)} {m : gmap string string}.
Context (HC : coherent hs nx ks spare free bs m).

Lemma co_nodup : NoDup (spare ++ free ++ concat bs).
Proof. rewrite (co_all _ _ _ _ _ _ _ HC). apply NoDup_seq. Qed.

Lemma co_range i : i ∈ spare ++ free ++ concat bs -> (i < length ks)%nat.
Proof. rewrite (co_all _ _ _ _ _ _ _ HC), elem_of_seq. lia. Qed.

Lemma co_nodup_chains : NoDup (concat (free :: bs)).
Proof. pose proof co_nodup as H. by apply NoDup_app in H as (_ & _ & ?). Qed.

Lemma co_lookup k v :
  m !! k = Some v <-> exists h c i, bs !! h = Some c /\ i ∈ c /\ ks !! i = Some (k, v).
Proof.
  rewrite (co_map _ _ _ _ _ _ _ HC), <- elem_of_list_to_map by apply HC.
  rewrite elem_of_pairs. split.
  - intros (i & (h & c & Hc & Hi)%elem_of_concat & E). by exists h, c, i.
  - intros (h & c & i & Hc & Hi & E). exists i. split; [|done]. apply elem_of_concat. by exists h, c.
Qed.

(** The chain of a key decides whether the key is there. *)
Lemma co_absent k h c :
  bs !! h = Some c -> _db_hash NHASH_DEF k = Z.of_nat h ->
  (forall i kv, i ∈ c -> ks !! i = Some kv -> fst kv <> k) -> m !! k = None.
Proof.
  intros Hc Hh Hno. destruct (m !! k) as [v|] eqn:E; [|done]. exfalso.
  apply co_lookup in E as (h' & c' & i & Hc' & Hi & E).
  pose proof (co_hash _ _ _ _ _ _ _ HC _ _ _ _ Hc' Hi E) as Hh'. cbn in Hh'.
  assert (h' = h) as -> by lia. rewrite Hc in Hc'. injection Hc' as <-. by eapply Hno.
Qed.

(** Changing the data of a slot in use. *)
Lemma co_update h c i k v v' :
  bs !! h = Some c -> i ∈ c -> ks !! i = Some (k, v) ->
  coherent hs nx (<[i := (k, v')]> ks) spare free bs (<[k := v']> m).
Proof.
  intros Hc Hi E. assert (i ∈ concat bs) as Hin by (by eapply concat_lookup).
  pose proof co_nodup as Hnd. apply NoDup_app in Hnd as (_ & Hs & Hnd). apply NoDup_app in Hnd as (Hf & Hfb & Hb).
  apply list_elem_of_split in Hin as (l1 & l2 & El). rewrite El in Hb.
  assert (pairs (<[i := (k, v')]> ks) (concat bs) ≡ₚ (k, v') :: pairs ks (l1 ++ l2)) as Hp'.
  { rewrite El, <- Permutation_middle. cbn. rewrite list_lookup_insert_eq by (by eapply lookup_lt_Some).
    apply perm_skip. rewrite <- Permutation_middle in Hb. apply NoDup_cons in Hb as [Hb _].
    by rewrite <- (pairs_frame ks i (k, v') (l1 ++ l2)). }
  assert (pairs ks (concat bs) ≡ₚ (k, v) :: pairs ks (l1 ++ l2)) as Hp.
  { rewrite El, <- Permutation_middle. cbn. by rewrite E. }
  pose proof (co_keys _ _ _ _ _ _ _ HC) as Hk. rewrite Hp in Hk. cbn in Hk.
  split; rewrite ?length_insert; try apply HC.
  - intros j kv Hj [(-> & <- & _)|[_ Hl]]%list_lookup_insert_Some; [|by eapply (co_free _ _ _ _ _ _ _ HC)].
    exfalso. apply (Hfb j); [done|]. by eapply concat_lookup.
  - intros h' c' j kv Hc' Hj [(-> & <- & _)|[_ Hl]]%list_lookup_insert_Some;
      [|by eapply (co_hash _ _ _ _ _ _ _ HC)]. by eapply (co_hash _ _ _ _ _ _ _ HC _ _ _ _ Hc' Hj E).
  - by rewrite Hp'.
  - rewrite (to_map_perm _ _ Hp' Hk), (co_map _ _ _ _ _ _ _ HC).
    rewrite (to_map_perm _ _ Hp Hk). cbn. by rewrite insert_insert_eq.
Qed.

(** Taking a slot out of the free list. *)
Lemma co_take_free f1 i f2 q :
  free = f1 ++ i :: f2 -> nx !! i = Some q ->
  let t := put (last_loc (Head 0) f1) q (hs, nx) in
  coherent (fst t) (snd t) ks (i :: spare) (f1 ++ f2) bs m.
Proof.
  intros Ef Hq t. pose proof co_nodup_chains as Hndc.
  pose proof HC as [Hch Hl Ha Hf Hh Hk Hm]. rewrite Ef in Hch, Ha, Hf, Hndc.
  assert (length (snd t) = length nx) as Hlt by (unfold t; destruct (last_loc _ _); cbn; rewrite ?length_insert; done).
  split; [|by rewrite Hlt| |..]; try done.
  - apply (chains_unlink _ _ _ 0 f1 i f2 q Hch Hndc eq_refl Hq).
  - rewrite <- Ha, <- (Permutation_middle f1 f2 i). cbn. by rewrite <- (Permutation_middle spare).
  - intros j kv Hj. apply Hf. rewrite elem_of_app in Hj. rewrite elem_of_app, elem_of_cons. tauto.
Qed.

(** Taking a slot out of its hash chain. *)
Lemma co_take_live h c1 i c2 q k v :
  bs !! h = Some (c1 ++ i :: c2) -> nx !! i = Some q -> ks !! i = Some (k, v) ->
  let t := put (last_loc (Head (S h)) c1) q (hs, nx) in
  coherent (fst t) (snd t) ks (i :: spare) free (<[h := c1 ++ c2]> bs) (delete k m).
Proof.
  intros Hb Hq E t. pose proof HC as [Hch Hl Ha Hf Hh Hk Hm].
  assert (length (snd t) = length nx) as Hlt by (unfold t; destruct (last_loc _ _); cbn; rewrite ?length_insert; done).
  assert (concat bs ≡ₚ i :: concat (<[h := c1 ++ c2]> bs)) as Hp.
  { rewrite <- (list_insert_id bs h (c1 ++ i :: c2)) at 1 by done.
    rewrite <- (list_insert_insert_eq bs h (c1 ++ i :: c2) (c1 ++ c2)).
    apply concat_insert_perm with (c := c1 ++ c2); [|by rewrite Permutation_middle].
    apply list_lookup_insert_eq. by eapply lookup_lt_Some. }
  assert (pairs ks (concat bs) ≡ₚ (k, v) :: pairs ks (concat (<[h := c1 ++ c2]> bs))) as Hpp.
  { rewrite Hp. cbn. by rewrite E. }
  rewrite Hpp in Hk. cbn in Hk. pose proof Hk as Hk'. apply NoDup_cons in Hk' as [Hknot Hk'].
  split; [|by rewrite Hlt| |..]; try done.
  - apply (chains_unlink _ _ (free :: bs) (S h) c1 i c2 q Hch co_nodup_chains Hb Hq).
  - rewrite <- Ha, Hp. cbn. rewrite <- (Permutation_middle free). by rewrite <- (Permutation_middle spare).
  - intros h' c j kv [(<- & <- & _)|[_ Hc]]%list_lookup_insert_Some Hj; [|by apply (Hh h' c)].
    apply (Hh h (c1 ++ i :: c2) j); [done|]. rewrite elem_of_app in Hj. rewrite elem_of_app, elem_of_cons. tauto.
  - rewrite Hm, (to_map_perm _ _ Hpp Hk). cbn.
    rewrite delete_insert_id; [done|]. by apply not_elem_of_list_to_map.
Qed.
End Coherent.

(** Putting a spare slot, blanked, in front of the free list. *)
Lemma co_give_free hs nx ks i free bs m kv p :
  coherent hs nx ks [i] free bs m -> hs !! 0%nat = Some p -> blank (fst kv) = true ->
  coherent (<[0%nat := Some i]> hs) (<[i := p]> nx) (<[i := kv]> ks) [] (i :: free) bs m.
Proof.
  intros HC Hp Hb. pose proof (co_nodup HC) as Hnd. pose proof (co_range HC i ltac:(left)) as Hi.
  destruct HC as [Hch Hl Ha Hf Hh Hk Hm]. apply NoDup_cons in Hnd as [Hni _].
  assert ((i ∉ free) /\ (i ∉ concat bs)) as [Hnf Hnb] by (rewrite elem_of_app in Hni; tauto).
  split; rewrite ?length_insert; try done.
  - apply (chains_link _ _ (free :: bs) 0 free p i Hch eq_refl Hp Hni). lia.
  - intros j kv' [->|Hj]%elem_of_cons.
    + rewrite list_lookup_insert_eq by done. by intros [= <-].
    + rewrite list_lookup_insert_ne by (intros ->; done). by apply Hf.
  - intros h c j kv' Hc Hj. rewrite list_lookup_insert_ne; [by apply (Hh h c)|].
    intros ->. apply Hnb. by eapply concat_lookup.
  - by rewrite pairs_frame.
  - by rewrite pairs_frame.
Qed.

(** Putting a spare slot, with a new record, in front of the hash chain of its key. *)
Lemma co_give_live hs nx ks i free bs m h c p k v :
  coherent hs nx ks [i] free bs m -> bs !! h = Some c -> hs !! S h = Some p ->
  _db_hash NHASH_DEF k = Z.of_nat h -> m !! k = None ->
  coherent (<[S h := Some i]> hs) (<[i := p]> nx) (<[i := (k, v)]> ks) [] free (<[h := i :: c]> bs) (<[k := v]> m).
Proof.
  intros HC Hc Hp Hkh Hkm. pose proof (co_nodup HC) as Hnd. pose proof (co_range HC i ltac:(left)) as Hi.
  destruct HC as [Hch Hl Ha Hf Hh Hk Hm]. apply NoDup_cons in Hnd as [Hni _].
  assert ((i ∉ free) /\ (i ∉ concat bs)) as [Hnf Hnb] by (rewrite elem_of_app in Hni; tauto).
  pose proof (concat_insert_perm bs h c (i :: c) i Hc ltac:(done)) as Hperm.
  assert (pairs (<[i := (k, v)]> ks) (concat (<[h := i :: c]> bs)) ≡ₚ (k, v) :: pairs ks (concat bs)) as Hpp.
  { rewrite Hperm. cbn. rewrite list_lookup_insert_eq by done. apply perm_skip.
    by rewrite <- (pairs_frame ks i (k, v) (concat bs)). }
  assert (NoDup ((k, v) :: pairs ks (concat bs)).*1) as Hnk.
  { cbn. apply NoDup_cons. split; [|done]. apply not_elem_of_list_to_map. by rewrite <- Hm. }
  split; rewrite ?length_insert; try done.
  - apply (chains_link _ _ (free :: bs) (S h) c p i Hch Hc Hp Hni). lia.
  - rewrite <- Ha, Hperm. cbn. symmetry. apply Permutation_middle.
  - intros j kv' Hj. rewrite list_lookup_insert_ne by (intros ->; done). by apply Hf.
  - intros h' c' j kv' [(<- & <- & _)|[Hne Hc']]%list_lookup_insert_Some.
    + intros [->|Hj]%elem_of_cons.
      * rewrite list_lookup_insert_eq by done. by intros [= <-].
      * rewrite list_lookup_insert_ne; [by apply (Hh h c)|]. intros ->. apply Hnb. by eapply concat_lookup.
    + intros Hj. rewrite list_lookup_insert_ne; [by apply (Hh h' c')|].
      intros ->. apply Hnb. by eapply concat_lookup.
  - by rewrite Hpp.
  - rewrite (to_map_perm _ _ Hpp Hnk). cbn. by rewrite Hm.
Qed.

(** A new slot at the end, in no chain yet. *)
Lemma co_grow hs nx ks free bs m p kv :
  coherent hs nx ks [] free bs m ->
  coherent hs (nx ++ [p]) (ks ++ [kv]) [length ks] free bs m.
Proof.
  intros HC. pose proof (co_range HC) as Hr. destruct HC as [Hch Hl Ha Hf Hh Hk Hm]. cbn in Ha, Hr.
  assert (forall i, i ∈ concat bs -> (i < length ks)%nat) as Hrb by (intros i Hi; apply Hr, elem_of_app; by right).
  split.
  - apply chains_grow; [done|]. rewrite Hl. exact Hr.
  - rewrite !length_app. cbn. lia.
  - rewrite length_app. cbn [length]. rewrite Nat.add_1_r, seq_S, <- Ha. cbn.
    apply Permutation_cons_append.
  - intros i kv' Hi. rewrite lookup_app_l; [by apply Hf|]. apply Hr, elem_of_app. by left.
  - intros h c i kv' Hc Hi. rewrite lookup_app_l; [by apply (Hh h c)|].
    apply Hrb. by eapply concat_lookup.
  - by rewrite pairs_app_frame.
  - by rewrite pairs_app_frame.
Qed.
