(* ===== verification/DbSpec.v ===== *)
(** * The database is a finite map

    [models s m]: the files of [s] are laid out as chains that hold the map [m].  Fetching,
    storing and deleting a record have the effect of the map operation on [m], whatever the
    order of the chains and the free list; if a system call fails the process stops itself. *)

From S2P Require Import Prelude Prog Process CLib DbFile Db DbLayout DbChains.
From Stdlib Require Import Ascii.
Local Open Scope Z_scope.

(** ** Layouts and their pointers and contents *)

Definition nexts (L : layout) : list (option nat) := s_next <$> slots L.
Definition kvs (L : layout) : list (string * string) := (fun sl => (s_key sl, s_data sl)) <$> slots L.

Definition coheres (L : layout) := coherent (heads L) (nexts L) (kvs L).

Lemma lookup_nexts L i sl : slots L !! i = Some sl -> nexts L !! i = Some (s_next sl).
Proof. intros Hi. unfold nexts. by rewrite list_lookup_fmap, Hi. Qed.

Lemma lookup_kvs L i sl : slots L !! i = Some sl -> kvs L !! i = Some (s_key sl, s_data sl).
Proof. intros Hi. unfold kvs. by rewrite list_lookup_fmap, Hi. Qed.

Lemma kvs_slot L i kv :
  kvs L !! i = Some kv -> exists sl, slots L !! i = Some sl /\ s_key sl = fst kv /\ s_data sl = snd kv.
Proof. unfold kvs. rewrite list_lookup_fmap. intros (sl & Hi & ->)%fmap_Some. by exists sl. Qed.

Lemma length_kvs L : length (kvs L) = length (slots L).
Proof. apply length_fmap. Qed.

Lemma put_set_loc L l p : (heads (set_loc l p L), nexts (set_loc l p L)) = put l p (heads L, nexts L).
Proof.
  destruct l as [h|i]; [done|]. cbn [set_loc put fst snd].
  destruct (slots L !! i) as [sl|] eqn:Hi; cbn [set_slot heads].
  - f_equal. unfold nexts. cbn [set_slot slots]. by rewrite list_fmap_insert.
  - f_equal. rewrite list_insert_ge; [done|]. unfold nexts. rewrite length_fmap. by apply lookup_ge_None.
Qed.

Lemma kvs_set_loc L l p : kvs (set_loc l p L) = kvs L.
Proof.
  destruct l as [h|i]; [done|]. cbn [set_loc]. destruct (slots L !! i) as [sl|] eqn:Hi; [|done].
  unfold kvs. cbn [set_slot slots]. rewrite list_fmap_insert. apply list_insert_id.
  by rewrite list_lookup_fmap, Hi.
Qed.

Lemma nexts_set_slot L i sl : nexts (set_slot i sl L) = <[i := s_next sl]> (nexts L).
Proof. unfold nexts. cbn [set_slot slots]. by rewrite list_fmap_insert. Qed.

Lemma kvs_set_slot L i sl : kvs (set_slot i sl L) = <[i := (s_key sl, s_data sl)]> (kvs L).
Proof. unfold kvs. cbn [set_slot slots]. by rewrite list_fmap_insert. Qed.

Lemma coheres_set_loc L l p spare free bs m :
  coherent (fst (put l p (heads L, nexts L))) (snd (put l p (heads L, nexts L))) (kvs L) spare free bs m ->
  coheres (set_loc l p L) spare free bs m.
Proof. unfold coheres. rewrite kvs_set_loc, <- put_set_loc. done. Qed.

(** A pointer that is found by following a chain. *)
Lemma lookup_last_loc L l p c1 i c2 :
  lookup_loc L l = Some p -> chain (nexts L) p (c1 ++ i :: c2) ->
  lookup_loc L (last_loc l c1) = Some (Some i).
Proof.
  revert l p. induction c1 as [|j c1 IH]; intros l p Hl Hc; cbn in Hc.
  - destruct Hc as [-> _]. exact Hl.
  - destruct Hc as (-> & q & Hq & Hc). cbn [last_loc]. eapply IH; [|exact Hc].
    cbn. unfold nexts in Hq. by rewrite list_lookup_fmap in Hq.
Qed.

(** ** The abstraction *)

Definition models (s : st) (m : gmap string string) : Prop :=
  exists L free bs, laid L s /\ coheres L [] free bs m /\ held s = ∅.

(** What a caller may give: a key without NUL and separator that is not too long, and data
    without NUL of 1 to 1023 bytes. *)
Definition legal_key (key : string) : Prop :=
  plain key /\ (SEP ∉ chars key) /\ 1 <= strlen key <= 1008.
Definition legal_data (data : string) : Prop :=
  plain data /\ 1 <= strlen data <= 1023.

(** The size of the index file. *)
Definition full (L : layout) : nat := idxpos (sizes L) (length (slots L)).

Lemma full_idx L s : laid L s -> length (idx s) = full L.
Proof. intros HL. by rewrite (l_idx _ _ HL), length_idx by apply HL. Qed.

(** What an operation leaves alone, apart from the files. *)
Definition kept (s s' : st) : Prop :=
  live (pr s') = live (pr s) /\ next_id (pr s') = next_id (pr s) /\ own (db s') = own (db s).

(** Fields that searching leaves alone. *)
Definition steady (s s' : st) : Prop :=
  held s' = held s /\ pr s' = pr s /\ own (db s') = own (db s) /\
  chainoff (db s') = chainoff (db s).

(** Fields that were left alone, from the equations of each step. *)
Ltac frame :=
  repeat split;
  cbn [held pr own db upd_db set_pr set_held tick bump chainoff Z.eqb Pos.eqb]; congruence.

Lemma steady_refl s : steady s s.
Proof. by repeat split. Qed.

Lemma steady_trans s1 s2 s3 : steady s1 s2 -> steady s2 s3 -> steady s1 s3.
Proof. unfold steady. intuition congruence. Qed.

(** The record of slot [i] is the one read last. *)
Definition current (L : layout) (i : nat) (sl : slot) (d : DB) : Prop :=
  idxbuf d = s_key sl /\ idxoff d = Z.of_nat (idxpos (sizes L) i) /\
  datoff d = Z.of_nat (datpos (sizes L) i) /\ datlen d = Z.of_nat (S (String.length (s_data sl))) /\
  ptrval d = ptr_to (sizes L) (s_next sl).

Lemma current_at_slot L i sl d : current L i sl (at_slot (sizes L) i sl d).
Proof. by repeat split. Qed.

Section Spec.
Context `{System}.

(** ** Following a chain *)

Lemma ptr_to_nonzero zs i : (ptr_to zs (Some i) =? 0) = false.
Proof. apply Z.eqb_neq. cbn [ptr_to]. unfold idxpos, TABLE. lia. Qed.

Lemma readidx_step L i sl (Q : Z -> st -> Prop) s :
  laid L s -> slots L !! i = Some sl ->
  (forall s', laid L s' -> steady s s' -> current L i sl (db s') -> ptroff (db s') = ptroff (db s) ->
    Q (ptr_to (sizes L) (s_next sl)) s') ->
  runs broken (_db_readidx (ptr_to (sizes L) (Some i))) Q s.
Proof.
  intros HL Hi HQ. apply (readidx_spec L i sl); [done|done|by left|].
  intros s' HL' Hh Hp Hd _. apply HQ; [done| | |]; rewrite ?Hd.
  - repeat split; rewrite ?Hd; done.
  - apply current_at_slot.
  - done.
Qed.

Lemma find_loop_spec c L l p key fuel (Q : Z -> st -> Prop) s :
  laid L s -> chain (nexts L) p c -> ptroff (db s) = loc_off (sizes L) l -> (length c < fuel)%nat ->
  (forall s', laid L s' -> steady s s' ->
    (forall i kv, i ∈ c -> kvs L !! i = Some kv -> fst kv <> key) -> Q 0 s') ->
  (forall s' c1 i c2 sl, c = c1 ++ i :: c2 -> slots L !! i = Some sl -> s_key sl = key ->
    laid L s' -> steady s s' -> current L i sl (db s') ->
    ptroff (db s') = loc_off (sizes L) (last_loc l c1) -> Q (ptr_to (sizes L) (Some i)) s') ->
  runs broken (find_loop fuel key (ptr_to (sizes L) p)) Q s.
Proof.
  revert l p fuel s. induction c as [|i c IH]; intros l p fuel s HL Hc Hp Hf H0 H1;
    (destruct fuel as [|fuel]; [cbn in Hf; lia|]); cbn [find_loop].
  - cbn in Hc. subst p. cbn [ptr_to Z.eqb]. run. apply H0; [done|apply steady_refl|].
    by intros i kv ?%not_elem_of_nil.
  - destruct Hc as (-> & q & Hq & Hc). rewrite ptr_to_nonzero. run.
    unfold nexts in Hq. rewrite list_lookup_fmap in Hq. apply fmap_Some in Hq as (sl & Hi & ->).
    apply (readidx_step L i sl); [done|done|]. intros s1 HL1 Hs1 Hcur Hpo. run. run.
    destruct Hcur as (Hkey & Hcur). rewrite Hkey. unfold streq.
    destruct (String.eqb_spec (s_key sl) key) as [Ek|Ek].
    + run. by apply (H1 s1 [] i c sl); try done; rewrite ?Hpo.
    + run. run. cbn in Hf. apply (IH (Next i)); [split; apply HL1|done|done|lia| |].
      * intros s' HL' Hs' Hno. apply H0; [done|by eapply steady_trans|].
        intros j kv [->|Hj]%elem_of_cons Hkv; [|by eapply Hno].
        rewrite (lookup_kvs _ _ _ Hi) in Hkv. by simplify_eq.
      * intros s' c1 j c2 sl' -> Hj Hk HL' Hs' Hcur' Hpo'.
        apply (H1 s' (i :: c1) j c2 sl'); try done. by eapply steady_trans.
Qed.

Lemma findfree_loop_spec c L l p keylen dlen fuel (Q : Z * Z -> st -> Prop) s :
  laid L s -> chain (nexts L) p c -> (length c < fuel)%nat ->
  (forall s' so, laid L s' -> steady s s' -> Q (0, so) s') ->
  (forall s' c1 i c2 sl, c = c1 ++ i :: c2 -> slots L !! i = Some sl ->
    strlen (s_key sl) = keylen -> Z.of_nat (S (String.length (s_data sl))) = dlen ->
    laid L s' -> steady s s' -> current L i sl (db s') ->
    Q (ptr_to (sizes L) (Some i), loc_off (sizes L) (last_loc l c1)) s') ->
  runs broken (findfree_loop fuel keylen dlen (ptr_to (sizes L) p) (loc_off (sizes L) l)) Q s.
Proof.
  revert l p fuel s. induction c as [|i c IH]; intros l p fuel s HL Hc Hf H0 H1;
    (destruct fuel as [|fuel]; [cbn in Hf; lia|]); cbn [findfree_loop].
  - cbn in Hc. subst p. cbn [ptr_to Z.eqb]. run. apply H0; [done|apply steady_refl].
  - destruct Hc as (-> & q & Hq & Hc). rewrite ptr_to_nonzero. run.
    unfold nexts in Hq. rewrite list_lookup_fmap in Hq. apply fmap_Some in Hq as (sl & Hi & ->).
    apply (readidx_step L i sl); [done|done|]. intros s1 HL1 Hs1 Hcur Hpo. run. run.
    pose proof Hcur as (Hkey & _ & _ & Hdl & _). rewrite Hkey, Hdl.
    destruct ((strlen (s_key sl) =? keylen) && (Z.of_nat (S (String.length (s_data sl))) =? dlen)) eqn:E.
    + apply andb_prop in E as [E1%Z.eqb_eq E2%Z.eqb_eq]. run.
      by apply (H1 s1 [] i c sl).
    + cbn in Hf. apply (IH (Next i)); [done|done|lia| |].
      * intros s' so HL' Hs'. apply H0; [done|by eapply steady_trans].
      * intros s' c1 j c2 sl' -> Hj Hk Hd HL' Hs' Hcur'.
        apply (H1 s' (i :: c1) j c2 sl'); try done. by eapply steady_trans.
Qed.
(** ** Finding a key *)

(** The chain of a key. *)
Definition bucket (key : string) : nat := Z.to_nat (_db_hash NHASH_DEF key).

Lemma bucket_hash key : Z.of_nat (bucket key) = _db_hash NHASH_DEF key /\ (bucket key < 137)%nat.
Proof.
  unfold bucket, _db_hash, NHASH_DEF. pose proof (Z.mod_pos_bound (hash_loop key 1 0) 137). lia.
Qed.

(** The products [c * i] of the hash function are computed in [int]: they are in its range for every
    key of less than 2^24 characters. *)
Fixpoint hash_products (key : string) (i : Z) : list Z :=
  match key with
  | EmptyString => []
  | String c key => s8 (code c) * i :: hash_products key (i + 1)
  end.

Lemma hash_products_int key i :
  0 <= i -> i + strlen key <= 2 ^ 24 -> Forall (fun z => INT_MIN <= z <= INT_MAX) (hash_products key i).
Proof.
  revert i. induction key as [|c key IH]; intros i Hi Hl; [by apply Forall_nil|]. cbn [hash_products]. pose proof (strlen_nonneg key).
  rewrite strlen_cons in Hl. apply Forall_cons. split; [|apply IH; lia].
  assert (- 128 <= s8 (code c) <= 127) as Hc by (unfold s8; pose proof (Z.mod_pos_bound (code c + 2 ^ 7) (2 ^ 8) ltac:(done)); lia).
  unfold INT_MIN, INT_MAX. nia.
Qed.

Definition chain_lock (h : nat) : region := (true, Z.of_nat (7 * S h), 1).

(** The state with the lock of chain [h]. *)
Definition locked (h : nat) (s s' : st) : Prop :=
  held s' = {[chain_lock h]} /\ pr s' = pr s /\ own (db s') = own (db s) /\
  chainoff (db s') = Z.of_nat (7 * S h).

Lemma locked_steady h s1 s2 s3 : locked h s1 s2 -> steady s2 s3 -> locked h s1 s3.
Proof. unfold locked, steady. intuition congruence. Qed.

Section Lookup.
Context {L : layout} {free : list nat} {bs : list (list nat)} {m : gmap string string}.

Lemma coheres_bucket spare h :
  fits L -> coheres L spare free bs m -> (h < 137)%nat ->
  exists c p, bs !! h = Some c /\ heads L !! S h = Some p /\ chain (nexts L) p c /\
    (length c <= length (slots L))%nat.
Proof.
  intros HL HC Hh. pose proof (co_chains _ _ _ _ _ _ _ HC) as [Hl Hch]. rewrite (f_heads _ HL) in Hl.
  destruct (lookup_lt_is_Some_2 bs h) as [c Hc]; [cbn in Hl; lia|].
  destruct (lookup_lt_is_Some_2 (heads L) (S h)) as [p Hp]; [rewrite (f_heads _ HL); lia|].
  exists c, p. split; [done|]. split; [done|]. split; [by apply (Hch (S h))|].
  pose proof (co_all _ _ _ _ _ _ _ HC) as Ha. apply Permutation_length in Ha.
  rewrite !length_app, length_seq, length_kvs in Ha.
  rewrite <- (take_drop_middle _ _ _ Hc), concat_app, length_app in Ha. cbn in Ha.
  rewrite length_app in Ha. lia.
Qed.

Lemma coheres_free spare :
  fits L -> coheres L spare free bs m ->
  exists p, heads L !! 0%nat = Some p /\ chain (nexts L) p free /\ (length free <= length (slots L))%nat.
Proof.
  intros HL HC. pose proof (co_chains _ _ _ _ _ _ _ HC) as [Hl Hch].
  destruct (lookup_lt_is_Some_2 (heads L) 0) as [p Hp]; [rewrite (f_heads _ HL); lia|].
  exists p. split; [done|]. split; [by apply (Hch 0%nat)|].
  pose proof (co_all _ _ _ _ _ _ _ HC) as Ha. apply Permutation_length in Ha.
  rewrite !length_app, length_seq, length_kvs in Ha. lia.
Qed.

Lemma slots_fuel s : laid L s -> (length (slots L) < S (length (idx s)))%nat.
Proof.
  intros HL. rewrite (l_idx _ _ HL), length_idx by apply HL.
  pose proof (position_bounds L (length (slots L)) ltac:(apply HL) ltac:(done)). lia.
Qed.

Lemma find_and_lock_spec key w (Q : bool -> st -> Prop) s :
  laid L s -> coheres L [] free bs m -> held s = ∅ ->
  (forall s', laid L s' -> locked (bucket key) s s' -> m !! key = None -> Q false s') ->
  (forall s' c1 i c2 sl, bs !! bucket key = Some (c1 ++ i :: c2) -> slots L !! i = Some sl ->
    s_key sl = key -> m !! key = Some (s_data sl) -> laid L s' -> locked (bucket key) s s' ->
    current L i sl (db s') -> ptroff (db s') = loc_off (sizes L) (last_loc (Head (S (bucket key))) c1) ->
    Q true s') ->
  runs broken (_db_find_and_lock key w) Q s.
Proof.
  intros HL HC Hh H0 H1. destruct (bucket_hash key) as [Hbh Hlt].
  destruct (coheres_bucket [] (bucket key) ltac:(apply HL) HC Hlt) as (c & p & Hc & Hp & Hch & Hlen).
  pose proof (slots_fuel s HL) as Hfuel.
  unfold _db_find_and_lock. run. run. rewrite (l_nhash _ _ HL), (l_hashoff _ _ HL), <- Hbh.
  unfold HASH_OFF, PTR_SZ. rewrite u64_small by lia.
  replace (Z.of_nat (bucket key) * Z.of_nat 7 + Z.of_nat 7) with (loc_off (sizes L) (Head (S (bucket key))))
    by (cbn [loc_off]; lia).
  run. run. run. run. run. apply runs_lock. run.
  apply (readptr_spec L (Head (S (bucket key))) p);
    [split; apply HL|exact Hp|]. intros s1 (E1 & E2 & E3 & E4 & E5).
  unfold chain_fuel. run. run. run.
  assert (laid L s1) as HL1.
  { split; [apply HL|by rewrite E1; apply HL|by rewrite E2; apply HL|by rewrite E5; apply HL|
      by rewrite E5; apply HL]. }
  assert (locked (bucket key) s s1) as Hs1.
  { split; [rewrite E3; cbn; by rewrite Hh, (right_id_L ∅ (∪))|]. by rewrite E4, E5. }
  apply (find_loop_spec c L (Head (S (bucket key)))); [done|done|by rewrite E5|rewrite E1; cbn; lia| |].
  - intros s' HL' Hs' Hno. run. apply H0; [done|by eapply locked_steady|]. by eapply co_absent.
  - intros s' c1 i c2 sl -> Hi Hk HL' Hs' Hcur Hpo. run. rewrite ptr_to_nonzero. cbn [negb].
    apply (H1 s' c1 i c2 sl); try done; [|by eapply locked_steady].
    apply (co_lookup HC). exists (bucket key), (c1 ++ i :: c2), i. split; [done|].
    split; [apply elem_of_app; right; left|]. rewrite (lookup_kvs _ _ _ Hi). by rewrite Hk.
Qed.
End Lookup.

(** Giving back the lock of the chain. *)
Lemma unlock_chain_spec h msg (Q : unit -> st -> Prop) s s0 :
  locked h s0 s ->
  (forall s', idx s' = idx s -> dat s' = dat s -> held s' = ∅ -> pr s' = pr s -> db s' = db s -> Q tt s') ->
  runs broken (unlock_chain msg) Q s.
Proof.
  intros (Hh & _ & _ & Hc) HQ. unfold unlock_chain. run. run. apply runs_unlock. apply HQ; try done.
  cbn. rewrite Hh, Hc. apply difference_diag_L.
Qed.

Lemma laid_eq L s s' : laid L s -> idx s' = idx s -> dat s' = dat s ->
  nhash (db s') = nhash (db s) -> hashoff (db s') = hashoff (db s) -> laid L s'.
Proof. intros [H1 H2 H3 H4 H5] E1 E2 E3 E4. split; congruence. Qed.

(** ** Fetching *)

(** [db_fetch] gives the data of the key in the map, or nothing for a key that is not in it,
    changes nothing, and gives its lock back; if a system call fails it stops the process. *)
Theorem db_fetch_spec s m key :
  models s m -> runs broken (db_fetch key) (fun r s' => r = m !! key /\ models s' m /\ kept s s' /\ length (idx s') = length (idx s)) s.
Proof.
  intros (L & free & bs & HL & HC & Hh). unfold db_fetch. run.
  apply (find_and_lock_spec key false _ s HL HC Hh).
  - intros s1 HL1 Hs1 Hnone. run. run. run. run. run.
    apply (unlock_chain_spec (bucket key) _ _ _ s); [exact Hs1|]. intros s2 E1 E2 E3 E4 E5. run.
    assert (laid L s2) as HL2 by (eapply laid_eq; [exact HL1|done..| |]; by rewrite E5).
    destruct Hs1 as (_ & Hp1 & Ho1 & _). split; [done|]. split; [by exists L, free, bs|].
    rewrite (full_idx _ _ HL2), (full_idx _ _ HL). split; [|done]. unfold kept. rewrite E4, E5. cbn. by rewrite Hp1, Ho1.
  - intros s1 c1 i c2 sl Hb Hi Hk Hm HL1 Hs1 (Hkey & Hio & Hdo & Hdl & _) _. run. run.
    apply (readdat_spec L i sl); [done..|]. intros s2 HL2 Hh2 Hp2 _ Hd2. run. run. run. run.
    apply (unlock_chain_spec (bucket key) _ _ _ s).
    { destruct Hs1 as (? & ? & ? & ?). repeat split; cbn; rewrite ?Hh2, ?Hp2, ?Hd2; done. }
    intros s3 E1 E2 E3 E4 E5. run.
    assert (laid L s3) as HL3 by (eapply laid_eq; [exact HL2|done..| |]; by rewrite E5).
    destruct Hs1 as (_ & Hp1 & Ho1 & _). split; [done|]. split; [by exists L, free, bs|].
    rewrite (full_idx _ _ HL3), (full_idx _ _ HL). split; [|done].
    unfold kept. rewrite E4, E5. cbn. by rewrite Hp2, Hd2, Hp1, <- Ho1.
Qed.

(** ** Deleting *)

Lemma plain_spaces n : plain (spaces n).
Proof. apply plain_digits. intros c Hc. left. by eapply chars_spaces. Qed.

Lemma sep_spaces n : SEP ∉ chars (spaces n).
Proof. by intros Hc%chars_spaces. Qed.

Lemma blank_spaces n : blank (spaces n) = true.
Proof. induction n as [|n IH]; [done|]. exact IH. Qed.

(** Changes of pointers at different places commute. *)
Lemma put_comm l q i a b (hs nx : list (option nat)) :
  l <> Head 0 -> l <> Next i ->
  put l q (<[0%nat := a]> hs, <[i := b]> nx) =
    (<[0%nat := a]> (fst (put l q (hs, nx))), <[i := b]> (snd (put l q (hs, nx)))).
Proof.
  intros H0 Hi. destruct l as [h|j]; cbn; f_equal; apply list_insert_insert_ne; congruence.
Qed.

Lemma last_loc_not L h c1 i c2 free bs spare m :
  coheres L spare free bs m -> bs !! h = Some (c1 ++ i :: c2) ->
  last_loc (Head (S h)) c1 <> Head 0 /\ last_loc (Head (S h)) c1 <> Next i.
Proof.
  intros HC Hb. pose proof (NoDup_chain _ (S h) _ (co_nodup_chains HC) Hb) as Hnd.
  destruct (last_loc_cases (Head (S h)) c1) as [[_ ->]|(j & Hj & ->)]; [done|].
  split; [done|]. intros [= ->]. apply NoDup_app in Hnd as (_ & Hd & _). apply (Hd i Hj). left.
Qed.

Section Delete.
Context {L : layout} {free : list nat} {bs : list (list nat)} {m : gmap string string}.

(** The layout after slot [i] went from its hash chain to the free list. *)
Lemma coheres_delete h c1 i c2 sl p0 n1 n2 :
  coheres L [] free bs m -> bs !! h = Some (c1 ++ i :: c2) -> slots L !! i = Some sl ->
  heads L !! 0%nat = Some p0 ->
  coheres (set_loc (last_loc (Head (S h)) c1) (s_next sl)
            (set_loc (Head 0) (Some i) (set_slot i (Slot (spaces n1) p0 (spaces n2)) L)))
    [] (i :: free) (<[h := c1 ++ c2]> bs) (delete (s_key sl) m).
Proof.
  intros HC Hb Hi Hp0. destruct (last_loc_not L h c1 i c2 free bs [] m HC Hb) as [Hl0 Hli].
  apply coheres_set_loc. rewrite kvs_set_loc, kvs_set_slot, put_set_loc, nexts_set_slot.
  cbn [set_slot heads put fst snd s_next s_key s_data]. rewrite (put_comm _ _ _ _ _ _ _ Hl0 Hli). cbn [fst snd].
  apply co_give_free; [|..|apply blank_spaces].
  - eapply co_take_live; [exact HC|exact Hb|by apply lookup_nexts|by rewrite (lookup_kvs _ _ _ Hi)].
  - destruct (last_loc (Head (S h)) c1) as [[|k]|j]; [done| |exact Hp0].
    cbn. by rewrite list_lookup_insert_ne.
Qed.

(** The pointer to slot [i] still has its place when the slot is in the free list. *)
Lemma place_delete h c1 i c2 sl' :
  fits L -> coheres L [] free bs m -> bs !! h = Some (c1 ++ i :: c2) -> (h < 137)%nat ->
  exists p, lookup_loc (set_loc (Head 0) (Some i) (set_slot i sl' L)) (last_loc (Head (S h)) c1) = Some p.
Proof.
  intros HF HC Hb Hlt. destruct (coheres_bucket [] h HF HC Hlt) as (c & p & Hc & Hp & Hch & _).
  rewrite Hb in Hc. injection Hc as <-.
  pose proof (lookup_last_loc L (Head (S h)) p c1 i c2 Hp Hch) as Hll.
  destruct (last_loc_not L h c1 i c2 free bs [] m HC Hb) as [Hl0 Hli].
  destruct (last_loc (Head (S h)) c1) as [[|k]|j]; cbn in *; [done|..]; eexists.
  - by rewrite list_lookup_insert_ne.
  - rewrite list_lookup_insert_ne by congruence. exact Hll.
Qed.

Lemma dodelete_spec h c1 i c2 sl (Q : unit -> st -> Prop) s :
  laid L s -> coheres L [] free bs m -> held s = {[chain_lock h]} ->
  bs !! h = Some (c1 ++ i :: c2) -> slots L !! i = Some sl -> (h < 137)%nat ->
  current L i sl (db s) -> ptroff (db s) = loc_off (sizes L) (last_loc (Head (S h)) c1) ->
  (forall s' L', laid L' s' -> coheres L' [] (i :: free) (<[h := c1 ++ c2]> bs) (delete (s_key sl) m) ->
    sizes L' = sizes L -> steady s s' -> Q tt s') ->
  runs broken _db_dodelete Q s.
Proof.
  intros HL HC Hh Hb Hi Hlt (Hk & Hio & Hdo & Hdl & Hpv) Hpo HQ. pose proof (l_fits _ _ HL) as HF.
  destruct (coheres_free [] HF HC) as (p0 & Hp0 & _).
  pose proof (f_ptrs _ HF _ _ Hp0) as Hp0in. pose proof (f_nexts _ HF _ _ Hi) as Hnin.
  set (n1 := String.length (s_key sl)). set (n2 := String.length (s_data sl)).
  pose proof (coheres_delete h c1 i c2 sl p0 n1 n2 HC Hb Hi Hp0) as HC4.
  set (sl1 := Slot (s_key sl) (s_next sl) (spaces n2)). set (sl2 := Slot (spaces n1) p0 (spaces n2)) in *.
  assert (size sl1 = size sl) as Hs1 by (unfold size; cbn; by rewrite length_spaces).
  assert (size sl2 = size sl1) as Hs2 by (unfold size; cbn; by rewrite !length_spaces).
  set (L1 := set_slot i sl1 L). assert (sizes L1 = sizes L) as HZ1 by (by eapply sizes_set_slot).
  assert (slots L1 !! i = Some sl1) as Hi1 by (cbn; rewrite list_lookup_insert_eq; [done|by eapply lookup_lt_Some]).
  assert (set_slot i sl2 L1 = set_slot i sl2 L) as EL2
    by (unfold L1, set_slot; cbn; by rewrite list_insert_insert_eq).
  assert (sizes (set_slot i sl2 L) = sizes L) as HZ2 by (eapply sizes_set_slot; [done|congruence]).
  destruct (place_delete h c1 i c2 sl2 HF HC Hb Hlt) as [pl Hpl].
  unfold _db_dodelete. run. run. run. run. run. run. run. apply runs_lock. run. run.
  cbn [db upd_db set_held tick set_idxbuf set_datbuf datbuf datoff]. rewrite Hdo, Hdl.
  replace (Z.to_nat (Z.of_nat (S (String.length (s_data sl))) - 1)) with n2 by (unfold n2; lia). run.
  apply (writedat_spec L i sl); [split; apply HL|done|apply length_spaces|apply plain_spaces|].
  intros s1 HL1 Hh1 Hp1 Hd1. fold sl1 L1 in HL1. rewrite length_spaces in Hd1. run.
  apply (readptr_spec L1 (Head 0) p0); [done|exact Hp0|]. intros s2 (E1 & E2 & E3 & E4 & E5).
  assert (laid L1 s2) as HL2 by (eapply laid_eq; [exact HL1|done..| |]; by rewrite E5).
  run. run. rewrite E5, Hd1. cbn [db upd_db set_held tick set_idxbuf set_datbuf set_datlen set_datoff idxbuf idxoff ptrval].
  rewrite Hk, Hio, Hpv. fold n1. rewrite <- HZ1. run.
  apply (writeidx_spec L1 i sl1); try done.
  { apply length_spaces. } { apply plain_spaces. } { apply sep_spaces. }
  { cbn. by rewrite length_insert. }
  { rewrite E5, Hd1, HZ1. done. } { rewrite E5, Hd1. cbn. by rewrite length_spaces. }
  intros s3 HL3 Hh3 Hp3 Hd3. cbn [s_data sl1] in HL3. fold sl2 in HL3. rewrite EL2 in HL3.
  run. run. rewrite Hd3. cbn [set_idxoff idxoff].
  rewrite HZ1, <- HZ2. run. apply (writeptr_spec (set_slot i sl2 L) (Head 0) (Some i) p0);
    [done|exact Hp0|cbn; rewrite length_insert; by eapply lookup_lt_Some|].
  intros s4 HL4 Hh4 Hp4 Hd4. run. cbn [set_idxoff set_idxbuf set_ptrval ptroff].
  rewrite E5, Hd1. cbn [db upd_db set_held tick set_idxbuf set_datbuf set_datlen set_datoff ptroff].
  rewrite Hpo, <- HZ2. change (sizes (set_slot i sl2 L)) with (sizes (set_loc (Head 0) (Some i) (set_slot i sl2 L))).
  apply (writeptr_spec _ _ _ pl); [done|done| |].
  { cbn. by rewrite length_insert. }
  intros s5 HL5 Hh5 Hp5 Hd5. apply runs_unlock. eapply HQ; [|exact HC4| |].
  - split; apply HL5.
  - by rewrite !sizes_set_loc.
  - repeat split.
    + cbn. rewrite Hh5, Hh4, Hh3, E3, Hh1. cbn. rewrite unlock_lock; [done|].
      rewrite Hh. by intros ?%elem_of_singleton.
    + cbn. by rewrite Hp5, Hp4, Hp3, E4, Hp1.
    + cbn. by rewrite Hd5, Hd4, Hd3, E5, Hd1.
    + cbn. by rewrite Hd5, Hd4, Hd3, E5, Hd1.
Qed.
End Delete.

(** [db_delete] and the rest of an operation after the chain was searched: it gives the lock
    of the chain back. *)
Lemma finish_models h L free bs m s msg r (Q : Z -> st -> Prop) :
  laid L s -> coheres L [] free bs m -> held s = {[chain_lock h]} -> chainoff (db s) = Z.of_nat (7 * S h) ->
  (forall s', models s' m -> pr s' = pr s -> own (db s') = own (db s) -> length (idx s') = full L -> Q r s') ->
  runs broken (do! unlock_chain msg in ret r)%prog Q s.
Proof.
  intros HL HC Hh Hc HQ. run. apply (unlock_chain_spec h _ _ _ s); [by repeat split|].
  intros s' E1 E2 E3 E4 E5. run.
  assert (laid L s') as HL' by (eapply laid_eq; [exact HL|done..| |]; by rewrite E5).
  apply HQ; [by exists L, free, bs|done|by rewrite E5|by apply full_idx].
Qed.

(** [db_delete] takes the key out of the map and answers 0, or -1 when it is not there; no
    other key changes, and the lock of the chain is given back. *)
Theorem db_delete_spec s m key :
  models s m ->
  runs broken (db_delete key)
    (fun r s' => r = (match m !! key with Some _ => 0 | None => -1 end) /\
                 models s' (delete key m) /\ kept s s' /\ length (idx s') = length (idx s)) s.
Proof.
  intros (L & free & bs & HL & HC & Hh). destruct (bucket_hash key) as [_ Hlt]. unfold db_delete. run.
  apply (find_and_lock_spec key true _ s HL HC Hh).
  - intros s1 HL1 Hs1 Hnone. run. run. run. run.
    destruct Hs1 as (Hh1 & Hp1 & Ho1 & Hc1).
    eapply (finish_models (bucket key) L free bs m); [split; apply HL1|done|done|done|].
    intros s' Hm Hp Ho Hl. rewrite Hnone, delete_id by done. rewrite Hl, (full_idx _ _ HL).
    repeat split; [done|cbn in *; congruence..].
  - intros s1 c1 i c2 sl Hb Hi Hk Hm HL1 Hs1 Hcur Hpo. run. run.
    apply (dodelete_spec (bucket key) c1 i c2 sl _ _ HL1 HC (proj1 Hs1) Hb Hi Hlt Hcur Hpo).
    intros s2 L2 HL2 HC2 HZ2 Hs2. run. run. run.
    rewrite Hk in HC2.
    destruct (locked_steady _ _ _ _ Hs1 Hs2) as (Hh2 & Hp2 & Ho2 & Hc2).
    eapply (finish_models (bucket key) L2); [split; apply HL2|exact HC2|done|done|].
    intros s' Hm' Hp Ho Hl. rewrite Hm, Hl, (full_idx _ _ HL). unfold full. rewrite <- !length_sizes, HZ2.
    repeat split; [done|cbn in *; congruence..].
Qed.

(** ** Storing *)

(** What [db_store] does to the map. *)
Definition store_map (flag : Z) (key data : string) (m : gmap string string) : Z * gmap string string :=
  match m !! key with
  | None => if flag =? DB_REPLACE then (-1, m) else (0, <[key := data]> m)
  | Some _ => if flag =? DB_INSERT then (1, m) else (0, <[key := data]> m)
  end.

Lemma legal_new L key data p :
  fits L -> legal_key key -> legal_data data ->
  Z.of_nat (idxpos (sizes L) (length (slots L))) <= PTR_MAX ->
  legal_slot (sizes L) (length (slots L)) (Slot key p data).
Proof.
  intros HF (Hk & Hsep & Hkl) (Hd & Hdl) Hroom. pose proof (datpos_small L _ HF ltac:(done) Hroom) as Hdp.
  split; [done|]. split; [done|]. split; [done|]. cbn [s_key s_data].
  unfold DATLEN_MIN, DATLEN_MAX, IDXLEN_MIN, IDXLEN_MAX. split; [lia|]. split; [|done].
  unfold slot_text. rewrite strlen_record_text. cbn [s_key s_data].
  pose proof (strlen_fmt_lld (Z.of_nat (datpos (sizes L) (length (slots L)))) 9 ltac:(lia) ltac:(lia)).
  pose proof (strlen_fmt_lld_pos (Z.of_nat (datpos (sizes L) (length (slots L)))) ltac:(lia)).
  unfold strlen in Hdl.
  pose proof (strlen_fmt_lld (Z.of_nat (S (String.length data))) 4 ltac:(lia) ltac:(lia)).
  pose proof (strlen_fmt_lld_pos (Z.of_nat (S (String.length data))) ltac:(lia)). lia.
Qed.

(** A record at the end of the files, in front of its chain. *)
Lemma coheres_append L free bs m key data c p :
  coheres L [] free bs m -> bs !! bucket key = Some c -> heads L !! S (bucket key) = Some p ->
  m !! key = None ->
  coheres (set_loc (Head (S (bucket key))) (Some (length (slots L))) (add_slot (Slot key p data) L))
    [] free (<[bucket key := length (slots L) :: c]> bs) (<[key := data]> m).
Proof.
  intros HC Hc Hp Hno. apply coheres_set_loc. cbn [put fst snd add_slot heads].
  unfold nexts, kvs. cbn [add_slot slots]. rewrite !fmap_app. cbn [fmap list_fmap s_next s_key s_data].
  fold (nexts L) (kvs L). pose proof (co_grow _ _ _ _ _ _ p (key, data) HC) as HG.
  pose proof (co_give_live _ _ _ _ _ _ _ (bucket key) c p key data HG Hc Hp ltac:(symmetry; apply bucket_hash) Hno) as H'.
  rewrite (list_insert_id (nexts L ++ [p])), (list_insert_id (kvs L ++ [(key, data)])) in H'.
  - by rewrite length_kvs in H'.
  - by apply list_lookup_middle.
  - apply list_lookup_middle. symmetry. apply (co_len _ _ _ _ _ _ _ HC).
Qed.

Lemma appends_disjoint h : appends ## {[chain_lock h]}.
Proof.
  intros r Hr ->%elem_of_singleton. unfold appends, chain_lock in Hr.
  rewrite elem_of_union, !elem_of_singleton in Hr. destruct Hr; congruence.
Qed.

(** One record more is 1035 bytes at most. *)
Lemma full_append L l q sl :
  legal_slot (sizes L) (length (slots L)) sl -> (full (set_loc l q (add_slot sl L)) <= full L + 1035)%nat.
Proof.
  intros (_ & _ & _ & _ & Ht & _). unfold full. rewrite length_set_loc, sizes_set_loc.
  assert (slots (add_slot sl L) !! length (slots L) = Some sl) as Hn by (by apply list_lookup_middle).
  cbn [add_slot slots]. rewrite length_app, Nat.add_1_r, (idxpos_S _ _ _ Hn), sizes_add.
  rewrite idxpos_app, datpos_app by (by rewrite length_sizes).
  unfold strlen in Ht. rewrite length_slot_text in Ht. unfold IDXLEN_MAX in Ht. lia.
Qed.

(** Reading the head of the chain and appending. *)
Lemma append_models {L free bs m} key data (Q : unit -> st -> Prop) s0 s :
  laid L s -> coheres L [] free bs m -> locked (bucket key) s0 s -> m !! key = None ->
  legal_key key -> legal_data data -> Z.of_nat (idxpos (sizes L) (length (slots L))) <= PTR_MAX ->
  (forall s' L' bs', laid L' s' -> coheres L' [] free bs' (<[key := data]> m) ->
    locked (bucket key) s0 s' -> (full L' <= full L + 1035)%nat -> Q tt s') ->
  forall p, heads L !! S (bucket key) = Some p ->
  runs broken (append_record key data (ptr_to (sizes L) p)) Q s.
Proof.
  intros HL HC Hs Hno Hk Hd Hroom HQ p Hp. pose proof (l_fits _ _ HL) as HF.
  destruct (bucket_hash key) as [_ Hlt].
  destruct (coheres_bucket [] (bucket key) HF HC Hlt) as (c & p' & Hc & Hp' & _).
  rewrite Hp in Hp'. injection Hp' as <-. destruct Hs as (Hh & Hpr & Ho & Hco).
  apply (append_spec L (S (bucket key)) p p key data); try done.
  - by eapply (f_ptrs _ HF).
  - by apply legal_new.
  - rewrite Hh. apply appends_disjoint.
  - intros s' HL' Hh' Hp' Hco' _ Ho'. eapply HQ; [exact HL'|by apply coheres_append| |by apply full_append, legal_new].
    repeat split; congruence.
Qed.

(** The state when the chain is still locked, and [errno] tells that a record to replace is not
    there. *)
Definition after_store (r : Z) (h : nat) (s s' : st) : Prop :=
  held s' = {[chain_lock h]} /\ chainoff (db s') = Z.of_nat (7 * S h) /\ own (db s') = own (db s) /\
  pr s' = if r =? -1 then set_errno ENOENT (pr s) else pr s.

Section Store.
Context {L : layout} {free : list nat} {bs : list (list nat)} {m : gmap string string}.

(** [_db_findfree] finds nothing, or takes a slot of the right sizes out of the free list. *)
Lemma findfree_spec keylen dlen (Q : bool -> st -> Prop) s :
  laid L s -> coheres L [] free bs m -> ((true, FREE_OFF, 1) ∉ held s) ->
  (forall s', laid L s' -> steady s s' -> Q false s') ->
  (forall s' f1 i f2 sl, free = f1 ++ i :: f2 -> slots L !! i = Some sl ->
    strlen (s_key sl) = keylen -> Z.of_nat (S (String.length (s_data sl))) = dlen ->
    laid (set_loc (last_loc (Head 0) f1) (s_next sl) L) s' -> steady s s' -> current L i sl (db s') ->
    Q true s') ->
  runs broken (_db_findfree keylen dlen) Q s.
Proof.
  intros HL HC Hh H0 H1. pose proof (l_fits _ _ HL) as HF. destruct (coheres_free [] HF HC) as (p & Hp & Hch & Hlen).
  pose proof (slots_fuel s HL) as Hfuel. unfold _db_findfree. run. apply runs_lock. run.
  apply (readptr_spec L (Head 0) p); [split; apply HL|exact Hp|]. intros s1 (E1 & E2 & E3 & E4 & E5).
  assert (laid L s1) as HL1 by (eapply laid_eq; [exact HL|done..| |]; by rewrite E5).
  assert (held s1 ∖ {[(true, FREE_OFF, 1)]} = held s) as Hu by (rewrite E3; by apply unlock_lock).
  unfold chain_fuel. run. run. run.
  apply (findfree_loop_spec free L (Head 0) p); [done|done|rewrite E1; cbn; lia| |].
  - intros s2 so HL2 Hs2. cbn [Z.eqb]. run. run. run. apply runs_unlock. run.
    apply H0; [split; apply HL2|]. destruct Hs2 as (Eh & Ep & Eo & Ec).
    repeat split; cbn; rewrite ?Eh, ?Hu, ?Ep, ?Eo, ?Ec, ?E4, ?E5; done.
  - intros s2 f1 i f2 sl Hf Hi Hk Hd HL2 (Eh & Ep & Eo & Ec) Hcur. rewrite ptr_to_nonzero. run. run. run. run.
    pose proof Hcur as (_ & _ & _ & _ & ->).
    assert (chain (nexts L) p (f1 ++ i :: f2)) as Hch' by (by rewrite <- Hf).
    pose proof (lookup_last_loc L (Head 0) p f1 i f2 Hp Hch') as Hll.
    apply (writeptr_spec L _ _ (Some i)); [done|done|by eapply (f_nexts _ HF)|].
    intros s3 HL3 Hh3 Hp3 Hd3. run. run. apply runs_unlock. run.
    eapply (H1 _ f1 i f2 sl); try done; [split; apply HL3| |cbn; by rewrite Hd3].
    repeat split; cbn; rewrite ?Hh3, ?Hp3, ?Hd3, ?Eh, ?Hu, ?Ep, ?Eo, ?Ec, ?E4, ?E5; done.
Qed.
(** A free slot of the right sizes becomes the record of the key. *)
Lemma coheres_reuse key data f1 i f2 sl p c :
  coheres L [] free bs m -> free = f1 ++ i :: f2 -> slots L !! i = Some sl ->
  bs !! bucket key = Some c -> heads L !! S (bucket key) = Some p -> m !! key = None ->
  coheres (set_loc (Head (S (bucket key))) (Some i)
            (set_slot i (Slot key p data) (set_loc (last_loc (Head 0) f1) (s_next sl) L)))
    [] (f1 ++ f2) (<[bucket key := i :: c]> bs) (<[key := data]> m).
Proof.
  intros HC Hf Hi Hc Hp Hno. apply coheres_set_loc.
  rewrite nexts_set_slot, kvs_set_slot, kvs_set_loc. cbn [put fst snd set_slot heads s_next s_key s_data].
  assert (heads (set_loc (last_loc (Head 0) f1) (s_next sl) L) !! S (bucket key) = Some p) as Hp'.
  { destruct (last_loc_cases (Head 0) f1) as [[_ ->]|(j & _ & ->)]; cbn [set_loc];
      [cbn; by destruct (heads L)|by destruct (slots L !! j)]. }
  pose proof (co_take_free HC f1 i f2 (s_next sl) Hf (lookup_nexts _ _ _ Hi)) as HT.
  cbv zeta in HT. rewrite <- put_set_loc in HT. cbn [fst snd] in HT.
  apply (co_give_live _ _ _ _ _ _ _ (bucket key) c p key data HT Hc Hp'); [|done].
  symmetry. apply bucket_hash.
Qed.

Lemma store_new_spec key data flag (Q : Z -> st -> Prop) s0 s :
  laid L s -> coheres L [] free bs m -> locked (bucket key) s0 s -> m !! key = None ->
  legal_key key -> legal_data data -> Z.of_nat (idxpos (sizes L) (length (slots L))) <= PTR_MAX ->
  (forall r m' s' L' free' bs', store_map flag key data m = (r, m') -> laid L' s' -> coheres L' [] free' bs' m' ->
    after_store r (bucket key) s0 s' -> (full L' <= full L + 1035)%nat -> Q r s') ->
  runs broken (store_new key data (strlen key) (strlen data + 1) flag) Q s.
Proof.
  intros HL HC Hs Hno Hk Hd Hroom HQ. pose proof (l_fits _ _ HL) as HF. unfold store_map in HQ. rewrite Hno in HQ.
  unfold store_new. destruct (flag =? DB_REPLACE).
  - run. run. run. unfold set_proc_errno. run. run. eapply HQ; [done|split; apply HL|exact HC| |lia].
    destruct Hs as (? & ? & ? & ?). frame.
  - destruct (bucket_hash key) as [_ Hlt].
    destruct (coheres_bucket [] (bucket key) HF HC Hlt) as (c & p & Hc & Hp & Hch & _).
    destruct Hs as (Hsh & Hsp & Hso & Hsc).
    run. run. run. rewrite Hsc. apply (readptr_spec L (Head (S (bucket key))) p); [done|exact Hp|].
    intros s1 (E1 & E2 & E3 & E4 & E5).
    assert (laid L s1) as HL1 by (eapply laid_eq; [exact HL|done..| |]; by rewrite E5).
    run. apply findfree_spec; [done|done| | |].
    { rewrite E3, Hsh. by intros ?%elem_of_singleton. }
    + intros s2 HL2 (F1 & F2 & F3 & F4). run.
      apply (append_models (L := L) (free := free) (bs := bs) (m := m) key data _ s0); try done; [by frame|].
      intros s3 L3 bs3 HL3 HC3 Hs3 Hfull. run. run. run.
      eapply HQ; [done|split; apply HL3|exact HC3| |exact Hfull].
      destruct Hs3 as (? & ? & ? & ?). frame.
    + intros s2 f1 i f2 sl Hf Hi Hkl Hdl HL2 (F1 & F2 & F3 & F4) (Hkey & Hio & Hdo & Hdlen & Hpv).
      set (L2 := set_loc (last_loc (Head 0) f1) (s_next sl) L) in *.
      assert (sizes L2 = sizes L) as HZ2 by apply sizes_set_loc.
      assert (slots L2 !! i = Some sl) as Hi2.
      { pose proof (NoDup_chain _ 0 _ (co_nodup_chains HC) eq_refl) as Hnd. rewrite Hf in Hnd.
        unfold L2. destruct (last_loc_cases (Head 0) f1) as [[_ ->]|(j & Hj & ->)]; [exact Hi|].
        cbn [set_loc]. destruct (slots L !! j); [|exact Hi]. cbn. rewrite list_lookup_insert_ne; [exact Hi|].
        intros ->. apply NoDup_app in Hnd as (_ & Hnd & _). apply (Hnd i Hj). left. }
      destruct Hk as (Hkp & Hks & _). destruct Hd as (Hdp & _). unfold strlen in Hkl, Hdl.
      set (sl3 := Slot (s_key sl) (s_next sl) data).
      assert (size sl3 = size sl) as HS3 by (unfold size; cbn; f_equal; lia).
      assert (sizes (set_slot i sl3 L2) = sizes L2) as HZ3 by (by eapply sizes_set_slot).
      assert (slots (set_slot i sl3 L2) !! i = Some sl3) as Hi3
        by (cbn; rewrite list_lookup_insert_eq; [done|by eapply lookup_lt_Some]).
      assert (set_slot i (Slot key p data) (set_slot i sl3 L2) = set_slot i (Slot key p data) L2) as E4'
        by (unfold set_slot; cbn; by rewrite list_insert_insert_eq).
      run. run. run. rewrite Hdo, <- HZ2. apply (writedat_spec L2 i sl); [done|done|lia|done|].
      intros s3 HL3 Hh3 Hp3 Hd3. fold sl3 in HL3. run. run. rewrite Hd3. cbn [set_datlen set_datoff idxoff].
      rewrite Hio, <- HZ2, <- HZ3. replace (ptr_to (sizes L) p) with (ptr_to (sizes (set_slot i sl3 L2)) p)
        by (by rewrite HZ3, HZ2). run.
      apply (writeidx_spec _ i sl3); try done.
      { cbn. lia. }
      { cbn. rewrite length_insert. rewrite <- (length_set_loc L (last_loc (Head 0) f1) (s_next sl)) in *.
        fold L2. pose proof (f_ptrs _ HF _ _ Hp). unfold L2. by rewrite length_set_loc. }
      { by rewrite Hd3, HZ3. } { by rewrite Hd3. }
      intros s4 HL4 Hh4 Hp4 Hd4. cbn [s_data sl3] in HL4. rewrite E4' in HL4. run. run. rewrite Hd4.
      cbn [set_idxoff idxoff set_idxbuf set_ptrval chainoff]. rewrite Hd3. cbn [set_datlen set_datoff chainoff].
      rewrite F4, E5, Hsc. rewrite HZ3.
      assert (sizes (set_slot i (Slot key p data) L2) = sizes L2) as HZ4
        by (eapply sizes_set_slot; [done|unfold size; cbn; f_equal; lia]).
      rewrite <- HZ4. run. apply (writeptr_spec (set_slot i (Slot key p data) L2) (Head (S (bucket key))) (Some i) p).
      { done. }
      { cbn. unfold L2. destruct (last_loc_cases (Head 0) f1) as [[_ ->]|(j & _ & ->)]; cbn [set_loc];
          [cbn; by destruct (heads L)|by destruct (slots L !! j)]. }
      { cbn. rewrite length_insert. by eapply lookup_lt_Some. }
      intros s5 HL5 Hh5 Hp5 Hd5. run. run. run. eapply HQ; [done|split; apply HL5|by apply coheres_reuse| |].
      2: { unfold full. rewrite length_set_loc, length_set_slot, sizes_set_loc, HZ4, HZ2. unfold L2.
        rewrite length_set_loc. lia. }
      repeat split; cbn [held pr own db upd_db bump chainoff Z.eqb Pos.eqb]; rewrite ?Hd5, ?Hd4, ?Hd3;
        cbn [set_idxoff set_idxbuf set_ptrval set_datlen set_datoff chainoff own]; congruence.
Qed.

Lemma store_old_spec key data flag c1 i c2 sl (Q : Z -> st -> Prop) s0 s :
  laid L s -> coheres L [] free bs m -> locked (bucket key) s0 s ->
  bs !! bucket key = Some (c1 ++ i :: c2) -> slots L !! i = Some sl -> s_key sl = key ->
  m !! key = Some (s_data sl) -> current L i sl (db s) ->
  ptroff (db s) = loc_off (sizes L) (last_loc (Head (S (bucket key))) c1) ->
  legal_key key -> legal_data data -> Z.of_nat (idxpos (sizes L) (length (slots L))) <= PTR_MAX ->
  (forall r m' s' L' free' bs', store_map flag key data m = (r, m') -> laid L' s' -> coheres L' [] free' bs' m' ->
    after_store r (bucket key) s0 s' -> (full L' <= full L + 1035)%nat -> Q r s') ->
  runs broken (store_old key data (strlen data + 1) flag) Q s.
Proof.
  intros HL HC Hs Hb Hi Hkey Hm Hcur Hpo Hk Hd Hroom HQ. pose proof (l_fits _ _ HL) as HF.
  destruct (bucket_hash key) as [_ Hlt]. unfold store_map in HQ. rewrite Hm in HQ. unfold store_old.
  destruct (flag =? DB_INSERT).
  { run. run. run. eapply HQ; [done|split; apply HL|exact HC| |lia]. destruct Hs as (? & ? & ? & ?). frame. }
  pose proof Hcur as (_ & _ & Hdo & Hdl & _). run. run. rewrite Hdl.
  destruct (Z.eqb_spec (strlen data + 1) (Z.of_nat (S (String.length (s_data sl))))) as [El|El]; cbn [negb].
  - run. rewrite Hdo. apply (writedat_spec L i sl); [done|done|unfold strlen in El; lia|apply Hd|].
    intros s1 HL1 Hh1 Hp1 Hd1. run. run. run. eapply HQ; [done|split; apply HL1| | |].
    + unfold coheres. rewrite nexts_set_slot, kvs_set_slot. cbn [s_next s_key s_data set_slot heads].
      rewrite (list_insert_id (nexts L)) by (by apply lookup_nexts). rewrite Hkey.
      eapply co_update; [exact HC|exact Hb|apply elem_of_app; right; left|].
      rewrite (lookup_kvs _ _ _ Hi), Hkey. done.
    + destruct Hs as (? & ? & ? & ?). repeat split; cbn [held pr own db upd_db bump chainoff Z.eqb Pos.eqb];
        rewrite ?Hd1; cbn [set_datlen set_datoff chainoff own]; congruence.
    + unfold full. rewrite length_set_slot, (sizes_set_slot _ _ sl); [lia|done|].
      unfold size. cbn. f_equal. unfold strlen in El. lia.
  - run. apply (dodelete_spec (bucket key) c1 i c2 sl _ _ HL HC (proj1 Hs) Hb Hi Hlt Hcur Hpo).
    intros s1 L1 HL1 HC1 HZ1 Hs1. rewrite Hkey in HC1. pose proof (locked_steady _ _ _ _ Hs Hs1) as Hs1'.
    destruct (coheres_bucket [] (bucket key) ltac:(apply HL1) HC1 Hlt) as (c & p & Hc & Hp & _).
    run. run. run. rewrite (proj2 (proj2 (proj2 Hs1'))).
    apply (readptr_spec L1 (Head (S (bucket key))) p); [done|exact Hp|]. intros s2 (E1 & E2 & E3 & E4 & E5).
    assert (laid L1 s2) as HL2 by (eapply laid_eq; [exact HL1|done..| |]; by rewrite E5).
    run. apply (append_models (L := L1) (free := i :: free) (bs := <[bucket key := c1 ++ c2]> bs)
      (m := delete key m) key data _ s0); try done.
    + destruct Hs1' as (? & ? & ? & ?). frame.
    + apply lookup_delete_eq.
    + by rewrite <- length_sizes, HZ1, length_sizes.
    + intros s3 L3 bs3 HL3 HC3 Hs3 Hfull. rewrite insert_delete_eq in HC3. run. run. run.
      eapply HQ; [done|split; apply HL3|exact HC3| |].
      * destruct Hs3 as (? & ? & ? & ?). frame.
      * unfold full in *. rewrite <- (length_sizes L1), HZ1, length_sizes in Hfull. exact Hfull.
Qed.
End Store.

Definition stored (flag : Z) (key data : string) (m : gmap string string) (s : st) (r : Z) (s' : st) : Prop :=
  r = fst (store_map flag key data m) /\ models s' (snd (store_map flag key data m)) /\ kept s s' /\
  pr s' = (if r =? -1 then set_errno ENOENT (pr s) else pr s) /\
  (length (idx s') <= length (idx s) + 1035)%nat.

(** [db_store] puts the data under the key: [DB_INSERT] refuses a key that is there with 1,
    [DB_REPLACE] a key that is not there with -1 and [ENOENT], and [DB_STORE] none; the other keys
    are as before, whether the record was appended, written over or put into a free slot. *)
Theorem db_store_spec s m key data flag :
  models s m -> legal_key key -> legal_data data ->
  flag = DB_INSERT \/ flag = DB_REPLACE \/ flag = DB_STORE ->
  Z.of_nat (length (idx s)) <= PTR_MAX ->
  runs broken (db_store key data flag) (stored flag key data m s) s.
Proof.
  intros (L & free & bs & HL & HC & Hh) Hk Hd Hflag Hroom. rewrite (full_idx _ _ HL) in Hroom.
  assert (forall r m' s1 L1 free1 bs1, store_map flag key data m = (r, m') -> laid L1 s1 ->
    coheres L1 [] free1 bs1 m' -> after_store r (bucket key) s s1 -> (full L1 <= full L + 1035)%nat ->
    runs broken (do! unlock_chain "db_store: un_lock error" in ret r)%prog (stored flag key data m s) s1) as Hend.
  { intros r m' s1 L1 free1 bs1 Em HL1 HC1 (Eh & Ec & Eo & Ep) Hf.
    apply (finish_models (bucket key) L1 free1 bs1 m' s1); try done.
    intros s' Hm' Hp' Ho' Hl'. unfold stored. rewrite Em, Hl', (full_idx _ _ HL). cbn [fst snd].
    rewrite Hp', Ep. unfold kept. rewrite Ho', Eo, Hp', Ep. by destruct (r =? -1). }
  unfold db_store.
  replace (negb (flag =? DB_INSERT) && negb (flag =? DB_REPLACE) && negb (flag =? DB_STORE)) with false
    by (by destruct Hflag as [->|[->| ->]]).
  run. unfold DATLEN_MIN, DATLEN_MAX. pose proof (proj2 Hd) as Hdl.
  run; [apply negb_true_iff, orb_false_iff; split; apply Z.ltb_ge; lia|].
  run. apply (find_and_lock_spec key true _ s HL HC Hh).
  - intros s1 HL1 Hs1 Hnone. run. apply (store_new_spec (L := L) (free := free) (bs := bs) (m := m) key data flag _ s); done.
  - intros s1 c1 i c2 sl Hb Hi Hkey Hm HL1 Hs1 Hcur Hpo. run.
    apply (store_old_spec (L := L) (free := free) (bs := bs) (m := m) key data flag c1 i c2 sl _ s); done.
Qed.

(** A flag that is none of the three changes nothing. *)
Lemma db_store_bad_flag s key data flag :
  flag <> DB_INSERT -> flag <> DB_REPLACE -> flag <> DB_STORE ->
  db_store key data flag s = Ret (-1) (set_pr (set_errno EINVAL (pr s)) s).
Proof.
  intros H1 H2 H3. unfold db_store. by rewrite !(proj2 (Z.eqb_neq _ _)).
Qed.

(** ** The sequence of the records *)

(** The descriptor stands before slot [k]. *)
Definition before (L : layout) (k : nat) (s : st) : Prop := ipos s = Z.of_nat (idxpos (sizes L) k).

Lemma nextrec_loop_spec n L k fuel (Q : bool -> st -> Prop) s :
  laid L s -> before L k s -> (k + n = length (slots L))%nat -> (n < fuel)%nat ->
  (forall s', laid L s' -> held s' = held s -> pr s' = pr s ->
    (forall i kv, (k <= i)%nat -> kvs L !! i = Some kv -> blank (fst kv) = true) ->
    before L (length (slots L)) s' -> Q false s') ->
  (forall s' j sl, laid L s' -> held s' = held s -> pr s' = pr s -> (k <= j)%nat -> slots L !! j = Some sl ->
    blank (s_key sl) = false ->
    (forall i kv, (k <= i < j)%nat -> kvs L !! i = Some kv -> blank (fst kv) = true) ->
    current L j sl (db s') -> before L (S j) s' -> Q true s') ->
  runs broken (nextrec_loop fuel) Q s.
Proof.
  revert k fuel s. induction n as [|n IH]; intros k fuel s HL Hb Hk Hf H0 H1;
    (destruct fuel as [|fuel]; [lia|]); cbn [nextrec_loop]; run.
  - rewrite Nat.add_0_r in Hk. subst k. apply (readidx_end L); [done|done|].
    intros s' HL' Hh' Hp' Hb'. cbn [Z.ltb Z.compare]. run. apply H0; [done..| |by unfold before; rewrite Hb'].
    intros i kv Hi Hkv. apply lookup_lt_Some in Hkv. rewrite length_kvs in Hkv. lia.
  - destruct (lookup_lt_is_Some_2 (slots L) k) as [sl Hsl]; [lia|].
    apply (readidx_spec L k sl); [done|done|by right|]. intros s1 HL1 Hh1 Hp1 Hd1 Hb1.
    destruct (ptr_small L (s_next sl) ltac:(apply HL) ltac:(by eapply (f_nexts _ (l_fits _ _ HL)))) as [Hptr _].
    rewrite (proj2 (Z.ltb_ge _ 0)) by done. run. run. rewrite Hd1.
    change (idxbuf (at_slot (sizes L) k sl (db s))) with (s_key sl). destruct (blank (s_key sl)) eqn:Eb.
    + apply (IH (S k)); [done|done|lia|lia| |].
      * intros s2 HL2 Hh2 Hp2 Hall Hend. apply H0; [done|congruence|congruence| |done].
        intros i kv Hi Hkv. destruct (decide (i = k)) as [->|]; [|apply (Hall i); [lia|done]].
        rewrite (lookup_kvs _ _ _ Hsl) in Hkv. by simplify_eq.
      * intros s2 j sl2 HL2 Hh2 Hp2 Hj Hsl2 Hb2 Hall Hcur Hend.
        apply (H1 s2 j sl2); try done; [congruence|congruence|lia|].
        intros i kv Hi Hkv. destruct (decide (i = k)) as [->|]; [|apply (Hall i); [lia|done]].
        rewrite (lookup_kvs _ _ _ Hsl) in Hkv. by simplify_eq.
    + run. apply (H1 s1 k sl); try done; [intros i kv Hi; lia|]. rewrite Hd1. apply current_at_slot.
Qed.

(** The records from slot [k] on, without the blank ones. *)
Definition rest (L : layout) (k : nat) : list (string * string) :=
  filter (fun kv => blank (fst kv) = false) (drop k (kvs L)).

Lemma rest_skip L k j :
  (k <= j)%nat -> (forall i kv, (k <= i < j)%nat -> kvs L !! i = Some kv -> blank (fst kv) = true) ->
  rest L k = rest L j.
Proof.
  intros Hkj. induction Hkj as [|j Hkj IH]; intros Hall; [done|].
  rewrite IH by (intros i kv Hi; apply Hall; lia). unfold rest.
  destruct (kvs L !! j) as [kv|] eqn:Ej.
  - rewrite (drop_S _ _ _ Ej), filter_cons_False; [done|]. by rewrite (Hall j kv ltac:(lia) Ej).
  - rewrite !drop_ge; [done|..]; apply lookup_ge_None in Ej; lia.
Qed.

Lemma db_nextrec_spec L k s (Q : option (string * string) -> st -> Prop) :
  laid L s -> before L k s -> (k <= length (slots L))%nat -> held s = ∅ ->
  (forall s', laid L s' -> held s' = ∅ -> pr s' = pr s -> rest L k = [] -> Q None s') ->
  (forall s' j kv, laid L s' -> held s' = ∅ -> pr s' = pr s -> (k <= j < length (slots L))%nat ->
    rest L k = kv :: rest L (S j) -> before L (S j) s' -> Q (Some kv) s') ->
  runs broken db_nextrec Q s.
Proof.
  intros HL Hb Hk Hh H0 H1. pose proof (slots_fuel s HL) as Hfuel. unfold db_nextrec, chain_fuel.
  run. apply runs_lock. run. run. run. cbn [idx set_held tick].
  assert (forall h : gset region, h = {[(true, FREE_OFF, 1)]} ∪ held s -> h ∖ {[(true, FREE_OFF, 1)]} = ∅) as Hu.
  { intros h ->. rewrite Hh. apply unlock_lock, not_elem_of_empty. }
  apply (nextrec_loop_spec (length (slots L) - k) L k); [split; apply HL|exact Hb|lia|lia| |].
  - intros s1 HL1 Hh1 Hp1 Hall Hend. run. run. run. apply runs_unlock. run.
    apply H0; [split; apply HL1|by apply Hu|done|].
    rewrite (rest_skip L k (length (slots L)) Hk) by (intros i kv Hi; apply Hall; lia).
    unfold rest. by rewrite drop_ge by (by rewrite length_kvs).
  - intros s1 j sl HL1 Hh1 Hp1 Hj Hsl Hbl Hall (Hkey & _ & Hdo & Hdl & _) Hb1. run. run. run. run.
    apply (readdat_spec L j sl); [done..|]. intros s2 HL2 Hh2 Hp2 Hi2 Hd2. run. run. run. run. apply runs_unlock. run.
    rewrite Hkey. apply (H1 _ j); [split; apply HL2|apply Hu; cbn; by rewrite Hh2, Hh1| | | |].
    + cbn in Hp1 |- *. congruence.
    + split; [done|by eapply lookup_lt_Some].
    + rewrite (rest_skip L k j Hj Hall). unfold rest. rewrite (drop_S _ _ _ (lookup_kvs _ _ _ Hsl)).
      by rewrite filter_cons_True.
    + unfold before. cbn. by rewrite Hi2.
Qed.

(** What a caller reads with [db_rewind] and [db_nextrec] up to the end. *)
Fixpoint read_on (fuel : nat) : prog st (list (string * string)) :=
  match fuel with
  | O => loops
  | S fuel =>
      let! r := db_nextrec in
      match r with
      | None => ret []
      | Some kv => let! l := read_on fuel in ret (kv :: l)
      end
  end%prog.
Definition read_all : prog st (list (string * string)) :=
  (do! db_rewind in let! fuel := chain_fuel in read_on fuel)%prog.

Lemma read_on_spec n L k fuel s (Q : list (string * string) -> st -> Prop) :
  laid L s -> before L k s -> (k + n = length (slots L))%nat -> (n < fuel)%nat -> held s = ∅ ->
  (forall s', laid L s' -> held s' = ∅ -> pr s' = pr s -> Q (rest L k) s') ->
  runs broken (read_on fuel) Q s.
Proof.
  revert k n s Q. induction fuel as [|fuel IH]; intros k n s Q HL Hb Hk Hf Hh HQ; [lia|].
  cbn [read_on]. run. apply (db_nextrec_spec L k); [done|done|lia|done| |].
  - intros s1 HL1 Hh1 Hp1 E. run. rewrite <- E. by apply HQ.
  - intros s1 j kv HL1 Hh1 Hp1 Hj E Hb1. run. apply (IH (S j) (length (slots L) - S j)%nat); [done|done|lia|lia|done|].
    intros s2 HL2 Hh2 Hp2. run. rewrite <- E. apply HQ; [done|done|congruence].
Qed.

(** The records that are not blank are those of the map. *)
Lemma rest_map L free bs m :
  coheres L [] free bs m -> rest L 0 ≡ₚ filter (fun kv => blank (fst kv) = false) (map_to_list m).
Proof.
  intros HC. rewrite (co_map _ _ _ _ _ _ _ HC), map_to_list_to_map by apply HC.
  unfold rest. rewrite drop_0.
  assert (forall ks, pairs ks (seq 0 (length ks)) = ks) as E.
  { intros ks. unfold pairs. induction ks as [|kv ks IH] using rev_ind; [done|].
    rewrite length_app, Nat.add_1_r, seq_S, omap_app. cbn. rewrite lookup_app_r, Nat.sub_diag by done. cbn.
    f_equal. rewrite <- IH at 2. apply pairs_app_frame. intros i Hi. apply elem_of_seq in Hi. lia. }
  rewrite <- (E (kvs L)) at 1. rewrite <- (co_all _ _ _ _ _ _ _ HC). cbn [app].
  assert (forall l, (forall i, i ∈ l -> i ∈ free) -> filter (fun kv => blank (fst kv) = false) (pairs (kvs L) l) = []) as Hf.
  { induction l as [|i l IH]; intros Hl; [done|]. unfold pairs in *. cbn.
    destruct (kvs L !! i) as [kv|] eqn:Ei; [|apply IH; intros j Hj; apply Hl; by right].
    rewrite filter_cons_False; [apply IH; intros j Hj; apply Hl; by right|].
    by rewrite (co_free _ _ _ _ _ _ _ HC i kv ltac:(apply Hl; left) Ei). }
  unfold pairs at 1. rewrite omap_app, filter_app. fold (pairs (kvs L) free) (pairs (kvs L) (concat bs)).
  by rewrite Hf.
Qed.

(** C40. Reading with [db_nextrec] from [db_rewind] to the end gives every record of the map once,
    those with an all-blank key excepted, and changes nothing. *)
Theorem db_read_all s m :
  models s m ->
  runs broken read_all
    (fun l s' => l ≡ₚ filter (fun kv => blank (fst kv) = false) (map_to_list m) /\ models s' m) s.
Proof.
  intros (L & free & bs & HL & HC & Hh). pose proof (slots_fuel s HL) as Hfuel. unfold read_all, db_rewind, chain_fuel.
  run. run. run. rewrite (l_nhash _ _ HL). run.
  apply runs_lseek; [done|]. run. run. run.
  apply (read_on_spec (length (slots L)) L 0); [split; apply HL|done|done|exact Hfuel|exact Hh|].
  intros s' HL' Hh' _. split; [by eapply rest_map|]. by exists L, free, bs.
Qed.

End Spec.
