(* ===== verification/DbSession.v ===== *)
(** * Opening, closing and sessions of the database

    A session creates the database, makes any list of operations on it and closes it.  Its
    answers are those of a finite map that starts empty, and it gives back every block and
    descriptor.  The file also holds what goes wrong outside of that: keys with a separator,
    keys that are too long, a database created without [O_TRUNC], and a record fetched
    between two calls of [db_nextrec]. *)

From S2P Require Import Prelude Prog Process CLib DbFile Db DbLayout DbChains DbSpec.
From Stdlib Require Import Ascii.
Local Open Scope Z_scope.

(** ** An empty database *)

Definition empty_layout : layout := Layout (replicate 138 None) [].

Lemma empty_fits : fits empty_layout.
Proof.
  split; [done|..|done|done]. intros h p Hp. cbn [empty_layout heads] in Hp.
  apply lookup_replicate in Hp as [-> _]. done.
Qed.

Lemma empty_coheres : coheres empty_layout [] [] (replicate 137 []) ∅.
Proof.
  assert (concat (replicate 137 ([] : list nat)) = []) as E by reflexivity.
  split; cbn [empty_layout heads]; rewrite ?E; try done.
  - split; [done|]. intros k p c Hp Hc. apply lookup_replicate in Hp as [-> _].
    destruct k as [|k]; cbn [lookup list_lookup] in Hc; [by simplify_eq|].
    apply lookup_replicate in Hc as [-> _]. done.
  - constructor.
Qed.

Lemma empty_table_chunks : empty_table (S (Z.to_nat NHASH_DEF)) = concat (idx_chunks empty_layout).
Proof. by vm_compute. Qed.

Lemma length_empty_table : length (empty_table (S (Z.to_nat NHASH_DEF))) = 967%nat.
Proof. by vm_compute. Qed.

Section Session.
Context `{System}.

(** ** Blocks and descriptors *)

(** What the process holds, over what there was before. *)
Definition owns (base : gmap nat rkind) (l : list (nat * rkind)) (p : proc) : Prop :=
  proc_wf p /\ holds base l p.

Definition fd_list (fd : option nat) : list (nat * rkind) :=
  match fd with None => [] | Some fd => [(fd, RFd)] end.

(** The resources of the structure, in the order in which [_db_free] gives them back. *)
Definition resources (h : handles) : list (nat * rkind) :=
  fd_list (idxfd h) ++ fd_list (datfd h) ++
    [(b_idxbuf h, RBlk); (b_datbuf h, RBlk); (b_name h, RBlk); (b_db h, RBlk)].

(** An open database. *)
Definition opened (base : gmap nat rkind) (s : st) : Prop := owns base (resources (own (db s))) (pr s).

Lemma opened_kept base s s' : opened base s -> kept s s' -> opened base s'.
Proof.
  intros [Hwf Hl] (E1 & E2 & E3). unfold opened. rewrite E3. split.
  - intros id. rewrite E1, E2. apply Hwf.
  - by eapply holds_live.
Qed.

Lemma runs_new_block base l k (Q : nat -> st -> Prop) s :
  owns base l (pr s) -> (forall id p, owns base ((id, k) :: l) p -> Q id (set_pr p s)) ->
  runs broken (new_block k) Q s.
Proof.
  intros [Hwf Hl] HQ. apply (HQ (next_id (pr s)) (snd (acquire k (pr s)))).
  split; [by apply proc_wf_acquire|by apply holds_acquire].
Qed.

Lemma runs_give_back base l k id (Q : unit -> st -> Prop) s :
  owns base ((id, k) :: l) (pr s) ->
  (forall p, owns base l p -> Q tt (set_pr p s)) -> runs broken (give_back k id) Q s.
Proof.
  intros [Hwf Hl] HQ. destruct (holds_release _ _ _ _ _ Hl) as [E Hl']. unfold give_back. run. run. run.
  eapply runs_lift; [exact E|]. run. apply HQ. split; [by eapply proc_wf_release|done].
Qed.

Lemma runs_close_opt base l fd (Q : unit -> st -> Prop) s :
  owns base (fd_list fd ++ l) (pr s) -> (forall p, owns base l p -> Q tt (set_pr p s)) ->
  runs broken (close_opt fd) Q s.
Proof.
  intros Hl HQ. destruct fd as [fd|]; [by apply (runs_give_back base l)|].
  cbn [close_opt]. run. destruct s as [? ? ? ? ? p ?]. by apply (HQ p).
Qed.

(** [_db_free] gives back all that the structure owns. *)
Lemma db_free_spec base (Q : unit -> st -> Prop) s :
  opened base s ->
  (forall s', owns base [] (pr s') -> held s' = ∅ -> idx s' = idx s -> dat s' = dat s -> Q tt s') ->
  runs broken _db_free Q s.
Proof.
  intros Hl HQ. unfold _db_free. run. run. run. eapply runs_close_opt; [exact Hl|]. intros p1 H1.
  run. eapply runs_close_opt; [exact H1|]. intros p2 H2. run. run. run.
  eapply runs_give_back; [exact H2|]. intros p3 H3. run.
  eapply runs_give_back; [exact H3|]. intros p4 H4. run.
  eapply runs_give_back; [exact H4|]. intros p5 H5.
  eapply runs_give_back; [exact H5|]. intros p6 H6. by apply HQ.
Qed.

(** ** Opening *)

(** What [open] leaves in a file, if the file can be opened. *)
Definition content (old : option (list ascii)) (creat trunc : bool) : option (list ascii) :=
  match (if creat then Some (default [] old) else old) with
  | Some bytes => Some (if trunc then [] else bytes)
  | None => None
  end.

Lemma open_file_spec base l old creat trunc bytes (Q : option (list ascii * nat) -> st -> Prop) s :
  content old creat trunc = Some bytes -> owns base l (pr s) ->
  (forall fd p, owns base ((fd, RFd) :: l) p -> Q (Some (bytes, fd)) (set_pr p (tick s))) ->
  (broken -> Q None (tick s)) ->
  runs broken (open_file old creat trunc) Q s.
Proof.
  intros Hc Hl H1 H0. unfold open_file, content in *. run. unfold runs at 1.
  destruct (sys_ok (ticks s)) eqn:E; cbn [negb].
  - destruct (if creat then Some (default [] old) else old) as [b|]; [|done]. injection Hc as Hc. rewrite Hc.
    run. eapply runs_new_block; [exact Hl|]. intros fd p Hp. run. by apply H1.
  - run. apply H0. by exists (ticks s).
Qed.

Lemma init_table_spec (Q : unit -> st -> Prop) s :
  idx s = [] -> held s = ∅ ->
  (forall s', idx s' = empty_table (S (Z.to_nat NHASH_DEF)) -> dat s' = dat s -> held s' = ∅ ->
    pr s' = pr s -> db s' = db s -> Q tt s') ->
  runs broken init_table Q s.
Proof.
  intros Hi Hh HQ. unfold init_table. run. apply runs_lock. run. apply runs_call. run. run.
  cbn [idx set_held tick]. rewrite Hi. cbn [length Nat.eqb]. run. run. run. apply runs_write.
  apply runs_unlock. apply HQ; try done.
  - cbn [idx set_held set_ipos set_idx tick ipos]. rewrite Hi. unfold write_at. by rewrite drop_nil, app_nil_r.
  - cbn [held set_held set_ipos set_idx tick]. rewrite Hh. apply unlock_lock, not_elem_of_empty.
Qed.

Lemma db_alloc_spec base (Q : unit -> st -> Prop) s :
  owns base [] (pr s) ->
  (forall s' d n i b, own (db s') = MkHandles None None d n i b -> opened base s' -> held s' = held s -> Q tt s') ->
  runs broken _db_alloc Q s.
Proof.
  intros Hl HQ. unfold _db_alloc.
  run. apply runs_call. run. eapply runs_new_block; [exact Hl|]. intros d p1 H1.
  run. apply runs_call. run. eapply runs_new_block; [exact H1|]. intros n p2 H2.
  run. apply runs_call. run. eapply runs_new_block; [exact H2|]. intros i p3 H3.
  run. apply runs_call. run. eapply runs_new_block; [exact H3|]. intros b p4 [Hwf H4].
  run. eapply HQ; [done| |done]. split; [exact Hwf|]. cbn. eapply holds_perm; [|exact H4]. apply perm_swap.
Qed.

(** A file could not be opened. *)
Lemma open_files_fails base creat trunc i d b n ib dbuf (Q : bool -> st -> Prop) s :
  own (db s) = MkHandles None None b n ib dbuf -> i = None \/ d = None ->
  owns base (fd_list (snd <$> i) ++ fd_list (snd <$> d) ++
    [(ib, RBlk); (dbuf, RBlk); (n, RBlk); (b, RBlk)]) (pr s) ->
  (forall s', owns base [] (pr s') -> Q false s') -> runs broken (open_files creat trunc i d) Q s.
Proof.
  intros Ho Hid Hl HQ. unfold open_files. run. run.
  assert (runs broken (do! _db_free in ret false)%prog Q (upd_db (fun x =>
    set_own (MkHandles (snd <$> i) (snd <$> d) (b_db (own x)) (b_name (own x)) (b_idxbuf (own x)) (b_datbuf (own x))) x) s))
    as Hfree.
  { run. apply (db_free_spec base).
    - unfold opened. cbn. by rewrite Ho.
    - intros s3 Hs3 _ _ _. run. by apply HQ. }
  destruct i as [[fi i]|], d as [[fd d]|]; [by destruct Hid|exact Hfree..].
Qed.

(** Both files are open. *)
Lemma open_files_spec base creat trunc fi fd i d b n ib dbuf (Q : bool -> st -> Prop) s :
  own (db s) = MkHandles None None b n ib dbuf -> (creat && trunc = true -> fi = []) ->
  owns base ((i, RFd) :: (d, RFd) :: [(ib, RBlk); (dbuf, RBlk); (n, RBlk); (b, RBlk)]) (pr s) ->
  held s = ∅ -> nhash (db s) = NHASH_DEF -> hashoff (db s) = HASH_OFF ->
  (forall s', idx s' = (if creat && trunc then empty_table (S (Z.to_nat NHASH_DEF)) else fi) -> dat s' = fd ->
    held s' = ∅ -> nhash (db s') = NHASH_DEF -> hashoff (db s') = HASH_OFF -> opened base s' -> Q true s') ->
  runs broken (open_files creat trunc (Some (fi, i)) (Some (fd, d))) Q s.
Proof.
  intros Ho Hfi Hl Hh Hn Hf HQ. unfold open_files. run. run. run. run. run.
  apply (runs_mono _ (fun _ s' => idx s' = (if creat && trunc then empty_table (S (Z.to_nat NHASH_DEF)) else fi) /\
    dat s' = fd /\ held s' = ∅ /\ pr s' = pr s /\ db s' = set_own (MkHandles (Some i) (Some d) b n ib dbuf) (db s))).
  - destruct (creat && trunc).
    + apply init_table_spec; [by apply Hfi|exact Hh|]. intros s' E1 E2 E3 E4 E5. rewrite E4, E5. cbn. by rewrite Ho.
    + run. cbn. by rewrite Ho.
  - intros _ s' (E1 & E2 & E3 & E4 & E5). unfold db_rewind. run. run. run. rewrite E5. cbn [nhash set_own]. rewrite Hn.
    run. apply runs_lseek; [done|]. run. run. apply HQ; try done; [by cbn; rewrite E5..|].
    unfold opened. cbn. by rewrite E4, E5.
Qed.

(** [db_open] opens both files, or fails because a call failed and gives everything back. *)
Lemma db_open_spec base old_idx old_dat creat trunc fi fd (Q : bool -> st -> Prop) s :
  content old_idx creat trunc = Some fi -> content old_dat creat trunc = Some fd ->
  owns base [] (pr s) -> held s = ∅ ->
  (forall s', idx s' = (if creat && trunc then empty_table (S (Z.to_nat NHASH_DEF)) else fi) -> dat s' = fd ->
    held s' = ∅ -> nhash (db s') = NHASH_DEF -> hashoff (db s') = HASH_OFF -> opened base s' -> Q true s') ->
  (forall s', broken -> owns base [] (pr s') -> Q false s') ->
  runs broken (db_open old_idx old_dat creat trunc) Q s.
Proof.
  intros Hci Hcd Hp Hh H1 H0. unfold db_open. run. apply (db_alloc_spec base); [done|].
  intros s1 b n ib dbuf Ho Hl1 Hh1. rewrite Hh in Hh1. unfold opened in Hl1. rewrite Ho in Hl1. run. run. run.
  eapply (open_file_spec base); [exact Hci|exact Hl1| |].
  - intros i p Hi. run. eapply (open_file_spec base); [exact Hcd|exact Hi| |].
    + intros d p2 [Hwf Hd]. eapply (open_files_spec base); [exact Ho| | |exact Hh1|done..|exact H1].
      * intros [-> ->]%andb_prop. unfold content in Hci. by simplify_eq.
      * split; [exact Hwf|]. eapply holds_perm; [|exact Hd]. apply perm_swap.
    + intros Hb. eapply (open_files_fails base); [exact Ho|by right|exact Hi|]. intros s'. by apply H0.
  - intros Hb. run. eapply (open_file_spec base); [exact Hcd|exact Hl1| |].
    + intros d p Hd. eapply (open_files_fails base); [exact Ho|by left|exact Hd|]. intros s'. by apply H0.
    + intros _. eapply (open_files_fails base); [exact Ho|by left|exact Hl1|]. intros s'. by apply H0.
Qed.

(** ** Operations and their abstract counterparts *)

Inductive op :=
| Fetch (key : string)
| Store (key data : string) (flag : Z)
| Delete (key : string).

Inductive answer :=
| Data (d : option string)
| Code (r : Z).

Definition run_op (o : op) : prog st answer :=
  match o with
  | Fetch key => let! d := db_fetch key in ret (Data d)
  | Store key data flag => let! r := db_store key data flag in ret (Code r)
  | Delete key => let! r := db_delete key in ret (Code r)
  end%prog.

Fixpoint run_ops (l : list op) : prog st (list answer) :=
  match l with
  | [] => ret []
  | o :: l => let! a := run_op o in let! r := run_ops l in ret (a :: r)
  end%prog.

(** The same on a finite map. *)
Definition map_op (o : op) (m : gmap string string) : answer * gmap string string :=
  match o with
  | Fetch key => (Data (m !! key), m)
  | Store key data flag => let '(r, m) := store_map flag key data m in (Code r, m)
  | Delete key => (Code (match m !! key with Some _ => 0 | None => -1 end), delete key m)
  end.

Fixpoint map_ops (l : list op) (m : gmap string string) : list answer * gmap string string :=
  match l with
  | [] => ([], m)
  | o :: l => let '(a, m) := map_op o m in let '(r, m) := map_ops l m in (a :: r, m)
  end.

Definition legal (o : op) : Prop :=
  match o with
  | Store key data flag =>
      legal_key key /\ legal_data data /\ (flag = DB_INSERT \/ flag = DB_REPLACE \/ flag = DB_STORE)
  | Fetch _ | Delete _ => True
  end.

#[export] Instance legal_dec o : Decision (legal o).
Proof. destruct o; cbn [legal]; unfold legal_key, legal_data, plain; apply _. Defined.

Definition is_store (o : op) : bool := match o with Store _ _ _ => true | _ => false end.
Definition stores (l : list op) : nat := length (filter (fun o => is_store o = true) l).

(** So many stores always find room in a new database. *)
Definition MAX_STORES : Z := 9661.

(** Every store grows the index file by 1035 bytes at most, and the pointers are limited by
    [PTR_MAX]. *)
Definition room (n : nat) (s : st) : Prop := Z.of_nat (length (idx s) + 1035 * n) <= PTR_MAX + 1035.

Lemma run_op_spec o base s m (Q : answer -> st -> Prop) n :
  models s m -> opened base s -> legal o -> room (stores [o] + n) s ->
  (forall s', models s' (snd (map_op o m)) -> opened base s' -> room n s' -> Q (fst (map_op o m)) s') ->
  runs broken (run_op o) Q s.
Proof.
  intros Hm Ho Hl Hr HQ. unfold room in *. destruct o as [key|key data flag|key]; cbn [run_op map_op legal] in *; run.
  - eapply runs_mono; [by apply db_fetch_spec|]. intros r s' (-> & Hm' & Hk & Hi). run.
    apply HQ; [done|by eapply opened_kept|]. rewrite Hi. exact Hr.
  - destruct Hl as (Hk & Hd & Hf). change (stores [Store key data flag]) with 1%nat in Hr.
    eapply runs_mono; [apply db_store_spec; try done; lia|].
    intros r s' (-> & Hm' & Hkept & _ & Hi). run. destruct (store_map flag key data m) as [r m'].
    apply HQ; [done|by eapply opened_kept|]. lia.
  - eapply runs_mono; [by apply db_delete_spec|]. intros r s' (-> & Hm' & Hk & Hi). run.
    apply HQ; [done|by eapply opened_kept|]. rewrite Hi. exact Hr.
Qed.

Lemma stores_cons o l : stores (o :: l) = (stores [o] + stores l)%nat.
Proof. by destruct o. Qed.

Lemma stores_app l l' : stores (l ++ l') = (stores l + stores l')%nat.
Proof. unfold stores. by rewrite filter_app, length_app. Qed.

Lemma run_ops_spec l base s m (Q : list answer -> st -> Prop) n :
  models s m -> opened base s -> Forall legal l -> room (stores l + n) s ->
  (forall s', models s' (snd (map_ops l m)) -> opened base s' -> room n s' -> Q (fst (map_ops l m)) s') ->
  runs broken (run_ops l) Q s.
Proof.
  intros Hm Ho Hl. revert s m Q Hm Ho. induction Hl as [|o l Hop _ IH]; intros s m Q Hm Ho Hr HQ;
    cbn [run_ops map_ops] in *; run; [by apply HQ|].
  apply (run_op_spec o base s m _ (stores l + n)); [done..| |].
  { by rewrite stores_cons, <- (assoc_L Nat.add) in Hr. }
  intros s1 Hm1 Ho1 Hr1. run. destruct (map_op o m) as [a m1]. cbn [fst snd] in *.
  apply (IH s1 m1); [done..|]. intros s2 Hm2 Ho2 Hr2. run. destruct (map_ops l m1) as [r m2]. by apply HQ.
Qed.

(** ** Sessions *)

(** A program that opens the database, makes the operations and closes it, or stops when it
    cannot be opened. *)
Definition session (old_idx old_dat : option (list ascii)) (creat trunc : bool) (l : list op)
  : prog st (option (list answer)) :=
  (let! ok := db_open old_idx old_dat creat trunc in
   if ok then
     let! r := run_ops l in
     do! db_close in
     ret (Some r)
   else ret None)%prog.

(** The next session, on the files that are there. *)
Definition next_session (l : list op) : prog st (option (list answer)) :=
  (let! s := gets (fun s => s) in session (Some (idx s)) (Some (dat s)) false false l)%prog.

(** The files hold the map; the process has no lock. *)
Definition stores_map (s : st) (m : gmap string string) : Prop :=
  exists L free bs, fits L /\ idx s = concat (idx_chunks L) /\ dat s = concat (dat_chunks L) /\
    coheres L [] free bs m /\ held s = ∅.

Lemma models_files s m : models s m -> stores_map s m.
Proof. intros (L & free & bs & [] & HC & Hh). by exists L, free, bs. Qed.

Lemma files_models s s0 m :
  stores_map s0 m -> idx s = idx s0 -> dat s = dat s0 -> held s = ∅ ->
  nhash (db s) = NHASH_DEF -> hashoff (db s) = HASH_OFF -> models s m.
Proof.
  intros (L & free & bs & HF & Hi & Hd & HC & _) Ei Ed Eh En Eo. exists L, free, bs.
  split; [split; congruence|]. done.
Qed.

(** From the state where [db_open] returned: the operations, and closing. *)
Lemma use_spec l base s m (Q : option (list answer) -> st -> Prop) n :
  models s m -> opened base s -> Forall legal l -> room (stores l + n) s ->
  (forall s', stores_map s' (snd (map_ops l m)) -> owns base [] (pr s') -> room n s' ->
    Q (Some (fst (map_ops l m))) s') ->
  runs broken (let! r := run_ops l in do! db_close in ret (Some r))%prog Q s.
Proof.
  intros Hm Ho Hl Hr HQ. run. apply (run_ops_spec l base s m _ n); [done..|].
  intros s1 Hm1 Ho1 Hr1. run. apply (db_free_spec base); [done|]. intros s2 Hp2 Hh2 Ei Ed. run.
  apply HQ; [|done|unfold room; by rewrite Ei].
  apply models_files in Hm1 as (L & free & bs & HF & Hi & Hd & HC & _). exists L, free, bs.
  by rewrite Ei, Ed.
Qed.

Lemma create_spec l old_idx old_dat base s (Q : option (list answer) -> st -> Prop) n :
  owns base [] (pr s) -> held s = ∅ -> Forall legal l -> Z.of_nat (stores l + n) <= MAX_STORES ->
  (forall s', stores_map s' (snd (map_ops l ∅)) -> owns base [] (pr s') -> room n s' ->
    Q (Some (fst (map_ops l ∅))) s') ->
  (forall s', broken -> owns base [] (pr s') -> Q None s') ->
  runs broken (session old_idx old_dat true true l) Q s.
Proof.
  intros Hp Hh Hl Hn H1 H0. unfold session. run. eapply (db_open_spec base); [done..| |].
  - intros s1 Ei Ed Hh1 En Eo Ho1. apply (use_spec l base s1 ∅ _ n); [|done..| |done].
    + exists empty_layout, [], (replicate 137 []). split; [|by split; [apply empty_coheres|]].
      split; [apply empty_fits|by rewrite Ei; apply empty_table_chunks|done..].
    + cbn [andb] in Ei. unfold room. rewrite Ei, length_empty_table.   unfold PTR_MAX, MAX_STORES in *. lia.
  - intros s1 Hb Hp1. run. by apply H0.
Qed.

Lemma next_session_spec l base s m (Q : option (list answer) -> st -> Prop) n :
  stores_map s m -> owns base [] (pr s) -> Forall legal l -> room (stores l + n) s ->
  (forall s', stores_map s' (snd (map_ops l m)) -> owns base [] (pr s') -> room n s' ->
    Q (Some (fst (map_ops l m))) s') ->
  (forall s', broken -> owns base [] (pr s') -> Q None s') ->
  runs broken (next_session l) Q s.
Proof.
  intros Hm Hp Hl Hr H1 H0. assert (held s = ∅) as Hh by (by destruct Hm as (L & free & bs & Hm); apply Hm).
  unfold next_session, session. run. run. run. eapply (db_open_spec base); [done..| |].
  - intros s1 Ei Ed Hh1 En Eo Ho1. apply (use_spec l base s1 m _ n); [|done..| |done].
    + by eapply files_models.
    + unfold room. by rewrite Ei.
  - intros s1 Hb Hp1. run. by apply H0.
Qed.

(** C4. A program that creates a database, makes any legal operations on it and closes it gets the
    answers of a finite map that starts empty, whatever the files were before, and gives every
    block, descriptor and lock back; when a system call fails it stops itself or [db_open]
    answers [NULL] and nothing is left over. *)
Theorem db_session l old_idx old_dat s :
  proc_wf (pr s) -> held s = ∅ -> Forall legal l -> Z.of_nat (stores l) <= MAX_STORES ->
  runs broken (session old_idx old_dat true true l)
    (fun r s' => live (pr s') = live (pr s) /\
       (r = Some (fst (map_ops l ∅)) /\ stores_map s' (snd (map_ops l ∅)) \/ r = None /\ broken)) s.
Proof.
  intros Hwf Hh Hl Hn. apply (create_spec l old_idx old_dat (live (pr s)) s _ 0); [by split; [|apply holds_nil]|done..| | |].
  - by rewrite Nat.add_0_r.
  - intros s' Hm [_ Hp] _. split; [by apply holds_base|]. by left.
  - intros s' Hb [_ Hp]. split; [by apply holds_base|]. by right.
Qed.

(** C14. What a program stored is there for the next one: a session on the files that a first session
    left gets the answers of the map as the first session left it. *)
Theorem db_reopen l1 l2 old_idx old_dat s :
  proc_wf (pr s) -> held s = ∅ -> Forall legal (l1 ++ l2) -> Z.of_nat (stores l1 + stores l2) <= MAX_STORES ->
  runs broken (let! r1 := session old_idx old_dat true true l1 in
               match r1 with
               | Some r1 => let! r2 := next_session l2 in ret (Some r1, r2)
               | None => ret (None, None)
               end)%prog
    (fun r s' => live (pr s') = live (pr s) /\
       (r = (Some (fst (map_ops l1 ∅)), Some (fst (map_ops l2 (snd (map_ops l1 ∅))))) \/
        snd r = None /\ broken)) s.
Proof.
  intros Hwf Hh [Hl1 Hl2]%Forall_app Hn. run.
  apply (create_spec l1 old_idx old_dat (live (pr s)) s _ (stores l2)); [by split; [|apply holds_nil]|done..| |].
  - intros s1 Hm1 Hp1 Hr1. run.
    apply (next_session_spec l2 (live (pr s)) s1 (snd (map_ops l1 ∅)) _ 0); [done..|by rewrite Nat.add_0_r| |].
    + intros s2 Hm2 [_ Hp2] _. run. split; [by apply holds_base|]. by left.
    + intros s2 Hb [_ Hp2]. run. split; [by apply holds_base|]. by right.
  - intros s1 Hb [_ Hp1]. run. split; [by apply holds_base|]. by right.
Qed.

(** [o] may change what is stored under the key. *)
Definition touches (key : string) (o : op) : Prop :=
  match o with Fetch _ => False | Store k _ _ | Delete k => k = key end.

Lemma map_op_frame o key m : ~ touches key o -> snd (map_op o m) !! key = m !! key.
Proof.
  destruct o as [k|k d flag|k]; cbn; [done|intros Hk|intros Hk; by rewrite lookup_delete_ne].
  unfold store_map. destruct (m !! k); destruct (flag =? _); cbn; try done; by rewrite lookup_insert_ne.
Qed.

Lemma map_ops_frame l key m : Forall (fun o => ~ touches key o) l -> snd (map_ops l m) !! key = m !! key.
Proof.
  intros Hl. revert m. induction Hl as [|o l Ho _ IH]; intros m; [done|]. cbn [map_ops].
  pose proof (map_op_frame o key m Ho) as E. destruct (map_op o m) as [a m1]. specialize (IH m1).
  destruct (map_ops l m1). cbn in *. congruence.
Qed.

Lemma map_ops_app l1 l2 m :
  map_ops (l1 ++ l2) m =
    (fst (map_ops l1 m) ++ fst (map_ops l2 (snd (map_ops l1 m))), snd (map_ops l2 (snd (map_ops l1 m)))).
Proof.
  revert m. induction l1 as [|o l1 IH]; intros m; cbn [app map_ops fst snd].
  - by destruct (map_ops l2 m).
  - destruct (map_op o m) as [a m1]. rewrite IH. by destruct (map_ops l1 m1).
Qed.

(** C36. Data stored under a key comes back from [db_fetch], whatever was done before and whatever was
    done to other keys in between. *)
Theorem store_then_fetch l1 l2 key data old_idx old_dat s :
  proc_wf (pr s) -> held s = ∅ -> Forall legal (l1 ++ Store key data DB_STORE :: l2) ->
  Z.of_nat (stores (l1 ++ Store key data DB_STORE :: l2)) <= MAX_STORES ->
  Forall (fun o => ~ touches key o) l2 ->
  runs broken (session old_idx old_dat true true (l1 ++ Store key data DB_STORE :: l2 ++ [Fetch key]))
    (fun r _ => (exists answers, r = Some (answers ++ [Data (Some data)])) \/ r = None /\ broken) s.
Proof.
  intros Hwf Hh Hl Hn H2.
  replace (l1 ++ Store key data DB_STORE :: l2 ++ [Fetch key])
    with ((l1 ++ Store key data DB_STORE :: l2) ++ [Fetch key]) by (by rewrite <- !(assoc_L (++))).
  apply (create_spec _ old_idx old_dat (live (pr s)) s _ 0); [by split; [|apply holds_nil]|done|..].
  - apply Forall_app. split; [exact Hl|]. by repeat constructor.
  - rewrite stores_app. change (stores [Fetch key]) with 0%nat. by rewrite !Nat.add_0_r.
  - intros s' _ _ _. left. rewrite map_ops_app. cbn [fst snd map_ops map_op]. eexists. do 3 f_equal.
    rewrite map_ops_app. cbn [snd map_ops].
    assert (forall m, snd (map_op (Store key data DB_STORE) m) !! key = Some data) as E.
    { intros m. cbn. unfold store_map. by destruct (m !! key); cbn; rewrite lookup_insert_eq. }
    specialize (E (snd (map_ops l1 ∅))). destruct (map_op _ _) as [a m1]. pose proof (map_ops_frame l2 key m1 H2) as E2.
    destruct (map_ops l2 m1). cbn in *. congruence.
  - intros s' Hb _. by right.
Qed.

(** The files are tables and records in good form: every pointer is the offset of a record, every
    record is in one chain, the one of its key, or in the free list with a blank key. *)
Definition well_formed (s : st) : Prop := exists m, models s m.

(** C39. Legal operations keep the two files in good form and hold no lock afterwards. *)
Theorem ops_keep_form l base s :
  well_formed s -> opened base s -> Forall legal l -> room (stores l) s ->
  runs broken (run_ops l) (fun _ s' => well_formed s' /\ opened base s' /\ held s' = ∅) s.
Proof.
  intros [m Hm] Ho Hl Hr. apply (run_ops_spec l base s m _ 0); [done..|by rewrite Nat.add_0_r|].
  intros s' Hm' Ho' _. split; [by eexists|]. split; [done|]. by destruct Hm' as (? & ? & ? & _ & _ & ?).
Qed.
End Session.

(** ** Runs *)

(** No call fails. *)
Definition works : System := fun _ => true.

Definition st0 : st :=
  MkSt [] [] 0 ∅ 0 proc0 (MkDB (MkHandles None None 0 0 0 0) EmptyString EmptyString 0 0 0 0 0 0 0 0 0 no_counts).

Section Runs.
Local Existing Instance works.

Lemma db_session_witness :
  runs broken (session None None true true [Store "Al" "555-1" DB_INSERT; Fetch "Al"; Delete "Bo"])
    (fun r s' => live (pr s') = live (pr st0) /\
       (r = Some [Code 0; Data (Some "555-1"%string); Code (-1)] /\
         stores_map s' (snd (map_ops [Store "Al" "555-1" DB_INSERT; Fetch "Al"; Delete "Bo"] ∅)) \/
        r = None /\ broken)) st0.
Proof.
  apply (db_session [Store "Al" "555-1" DB_INSERT; Fetch "Al"; Delete "Bo"] None None st0).
  - intros id _. apply lookup_empty.
  - reflexivity.
  - by apply (bool_decide_unpack _); vm_compute.
  - vm_compute. discriminate.
Defined.

Lemma db_reopen_witness :
  runs broken (let! r1 := session None None true true [Store "Al" "555-1" DB_INSERT] in
               match r1 with
               | Some r1 => let! r2 := next_session [Fetch "Al"; Fetch "Bo"] in ret (Some r1, r2)
               | None => ret (None, None)
               end)%prog
    (fun r s' => live (pr s') = live (pr st0) /\
       (r = (Some [Code 0], Some [Data (Some "555-1"%string); Data None]) \/ snd r = None /\ broken)) st0.
Proof.
  apply (db_reopen [Store "Al" "555-1" DB_INSERT] [Fetch "Al"; Fetch "Bo"] None None st0).
  - intros id _. apply lookup_empty.
  - reflexivity.
  - by apply (bool_decide_unpack _); vm_compute.
  - vm_compute. discriminate.
Defined.

Lemma store_then_fetch_witness :
  runs broken (session None None true true ([] ++ Store "Al" "555-1" DB_STORE :: [Delete "Bo"] ++ [Fetch "Al"]))
    (fun r _ => (exists answers, r = Some (answers ++ [Data (Some "555-1"%string)])) \/ r = None /\ broken) st0.
Proof.
  apply (store_then_fetch [] [Delete "Bo"] "Al" "555-1" None None st0).
  - intros id _. apply lookup_empty.
  - reflexivity.
  - by apply (bool_decide_unpack _); vm_compute.
  - vm_compute. discriminate.
  - repeat constructor. by intros [=].
Defined.

(** Every call works, so that a program that [runs] returns. *)
Lemma not_broken : broken -> False.
Proof. by intros [n [=]]. Qed.

(** A database that was just created. *)
Lemma fresh_db : exists s, models s ∅ /\ opened ∅ s /\ room 1 s.
Proof.
  assert (runs broken (db_open None None true true)
    (fun _ s => models s ∅ /\ opened ∅ s /\ room 1 s) st0) as Hr.
  { apply (db_open_spec ∅ None None true true [] []); try reflexivity.
    - split; [intros id _; apply lookup_empty|apply (holds_nil proc0)].
    - intros s Ei Ed Hh En Eo Hop. cbn [andb] in Ei. split; [|split; [exact Hop|]].
      + exists empty_layout, [], (replicate 137 []). split; [|by split; [apply empty_coheres|]].
        split; [apply empty_fits|by rewrite Ei; apply empty_table_chunks|done..].
      + unfold room. rewrite Ei, length_empty_table. vm_compute. discriminate.
    - by intros s Hb%not_broken. }
  apply (runs_excuse _ False) in Hr; [|apply not_broken]. apply runs_returns in Hr as (a & s & _ & Hs). by exists s.
Qed.

Lemma ops_keep_form_witness :
  exists s, runs broken (run_ops [Store "Al" "555-1" DB_INSERT; Delete "Al"])
    (fun _ s' => well_formed s' /\ opened ∅ s' /\ held s' = ∅) s.
Proof.
  destruct fresh_db as (s & Hm & Ho & Hr). exists s.
  apply (ops_keep_form [Store "Al" "555-1" DB_INSERT; Delete "Al"] ∅ s).
  - by exists ∅.
  - exact Ho.
  - by apply (bool_decide_unpack _); vm_compute.
  - exact Hr.
Defined.

(** Five records, of which one is deleted and one has a key of blanks only. *)
Definition five : list op :=
  [Store "Al" "555-1" DB_INSERT; Store "Bo" "555-2" DB_INSERT; Store "  " "555-3" DB_STORE;
   Store "Cy" "555-4" DB_STORE; Delete "Bo"; Store "Di" "555-5" DB_INSERT; Delete "Di"].
Definition prepare : prog st (list answer) := (do! db_open None None true true in run_ops five)%prog.

Lemma prepared : exists a s, prepare st0 = Ret a s /\ models s (snd (map_ops five ∅)).
Proof.
  apply runs_returns, (runs_excuse broken); [apply not_broken|]. unfold prepare. run.
  apply (db_open_spec ∅ None None true true [] []); try reflexivity.
  - split; [intros id _; apply lookup_empty|apply (holds_nil proc0)].
  - intros s Ei Ed Hh En Eo Hop. cbn [andb] in Ei.
    apply (run_ops_spec five ∅ s ∅ _ 0); [|done|by apply (bool_decide_unpack _); vm_compute| |done].
    + exists empty_layout, [], (replicate 137 []). split; [|by split; [apply empty_coheres|]].
      split; [apply empty_fits|by rewrite Ei; apply empty_table_chunks|done..].
    + unfold room. rewrite Ei, length_empty_table. vm_compute. discriminate.
  - by intros s Hb%not_broken.
Qed.

Lemma bind_returns {A B} (m : prog st A) (k : A -> prog st B) s a s' :
  m s = Ret a s' -> bind m k s = k a s'.
Proof. unfold bind. by intros ->. Qed.

Lemma five_listed :
  match (let! _ := prepare in read_all)%prog st0 with
  | Ret l _ => l = [("Al", "555-1"); ("Cy", "555-4")]%string
  | _ => False
  end.
Proof. by vm_compute. Qed.

Lemma five_read : exists s', (let! _ := prepare in read_all)%prog st0 = Ret [("Al", "555-1"); ("Cy", "555-4")]%string s'.
Proof.
  pose proof five_listed as H. revert H. generalize ((let! _ := prepare in read_all)%prog st0) as o.
  intros [l s'| | |]; try contradiction. intros ->. by exists s'.
Qed.

Lemma five_map : length (map_to_list (snd (map_ops five ∅))) = 3%nat.
Proof. vm_compute. reflexivity. Qed.

Lemma db_read_all_witness :
  exists a s, prepare st0 = Ret a s /\
    runs broken read_all (fun l s' =>
      l ≡ₚ filter (fun kv => blank (fst kv) = false) (map_to_list (snd (map_ops five ∅))) /\
      models s' (snd (map_ops five ∅))) s /\
    (exists s', read_all s = Ret [("Al", "555-1"); ("Cy", "555-4")]%string s') /\
    length (map_to_list (snd (map_ops five ∅))) = 3%nat.
Proof.
  destruct prepared as (a & s & E & Hm). exists a, s. split; [exact E|].
  split; [apply (db_read_all s (snd (map_ops five ∅))); exact Hm|]. split; [|exact five_map].
  destruct five_read as [s' H]. exists s'. rewrite <- H. symmetry. exact (bind_returns _ _ _ _ _ E).
Defined.

(** ** Outside of the contract *)

(** A key with a separator is stored, and the chain cannot be read any more. *)
Lemma separator_in_key :
  session None None true true [Store "Al:ha" "x" DB_STORE; Fetch "Al:ha"] st0 =
    Stop "_db_readidx: too many separators".
Proof. by vm_compute. Qed.

(** The length of a key is not checked before it is printed into a buffer of 1026 bytes. *)
Lemma long_key :
  session None None true true [Store (spaces 1030) "x" DB_STORE] st0 = Fault OutOfBounds.
Proof. by vm_compute. Qed.

(** [O_CREAT] alone makes an empty index file without the table of the chains. *)
Lemma created_without_trunc :
  session None None true false [Fetch "Al"] st0 = Stop "_db_readptr: read error of ptr field".
Proof. by vm_compute. Qed.

(** [db_fetch] moves the descriptor that [db_nextrec] reads on from. *)
Lemma fetch_between_nextrec :
  (do! db_open None None true true in
   let! r := db_store "Al" "x" DB_STORE in
   do! db_rewind in
   let! d := db_fetch "Bo" in
   db_nextrec)%prog st0 = Stop "_db_readidx: invalid length".
Proof. by vm_compute. Qed.

(** A record whose key is all blank is stored and fetched, and not enumerated. *)
Lemma blank_key_hidden :
  match (do! db_open None None true true in
         let! r := db_store " " "x" DB_STORE in
         let! d := db_fetch " " in
         let! l := read_all in
         ret (d, l))%prog st0 with
  | Ret r _ => r = (Some "x"%string, [])
  | _ => False
  end.
Proof. by vm_compute. Qed.
End Runs.
