(* ===== verification/DirWatch.v ===== *)
(** * literature/tlpi/inotify/inotify_dtree.c: the watcher of directory trees

    The program keeps a cache of the directories below its arguments: an array of slots, each
    a watch descriptor and a pathname.  It reads the events of the inotify descriptor and
    changes the cache as the tree changed: a directory that is new is watched with all below
    it, a renamed one has its pathname and those below it rewritten, one that left the tree is
    dropped with all below it; when an event makes no sense the cache is built anew.

    The kernel is a class: what inotify, [nftw], [lstat] and [read] do.  [nftw] gives the
    whole list of what it visits before the first visit.  A buffer of events is the list of
    them and the number of bytes left.  The texts of the log are left out, except that
    printing a field which was never written is an error; [realloc], [calloc] and [strdup]
    succeed. *)

From S2P Require Import Prelude Prog Process CLib.
From Stdlib Require Import Ascii.
Local Open Scope Z_scope.
Local Open Scope prog_scope.

Definition VB_NOISY : Z := 2.
Definition NAME_MAX : Z := 255.
Definition ALLOC_INCR : nat := 200.
Definition EINTR : Z := 4.

Definition IN_MOVED_FROM : Z := 64.
Definition IN_MOVED_TO : Z := 128.
Definition IN_CREATE : Z := 256.
Definition IN_DELETE_SELF : Z := 1024.
Definition IN_MOVE_SELF : Z := 2048.
Definition IN_UNMOUNT : Z := 8192.
Definition IN_Q_OVERFLOW : Z := 16384.
Definition IN_IGNORED : Z := 32768.
Definition IN_ONLYDIR : Z := 16777216.
Definition IN_ISDIR : Z := 1073741824.

(** ** Events and the kernel *)

Record inotify_event := MkEvent {
  ev_wd : Z;
  ev_mask : Z;
  ev_cookie : Z;
  ev_len : Z;
  ev_name : string
}.

Definition ev_size (ev : inotify_event) : Z := 16 + ev_len ev.
Definition ev_sizes (evs : list inotify_event) : Z := foldr (fun ev n => ev_size ev + n) 0 evs.

Definition INOTIFY_READ_BUF_LEN : Z := 100 * (16 + NAME_MAX + 1).

Record stat := MkStat { st_isdir : bool; st_ino : Z; st_dev : Z }.

(** A call that fails gives its [errno]. *)
Class Inotify (K : Type) := {
  inotify_init : K -> (Z + Z) * K;
  close_fd : Z -> K -> K;
  inotify_add_watch : Z -> string -> Z -> K -> (Z + Z) * K;
  inotify_rm_watch : Z -> Z -> K -> option Z * K;
  (** What [nftw] visits, with whether it is a directory. *)
  nftw : string -> K -> list (string * bool);
  lstat : string -> K -> option stat;
  (** [read] on the inotify descriptor. *)
  read_events : Z -> Z -> K -> (list inotify_event + Z) * K;
  (** Whether [fopen] for writing succeeds. *)
  fopen_write : string -> K -> bool
}.

(** ** The state *)

Record watch := MkWatch { w_wd : Z; w_path : string }.

(** A slot that is not used. *)
Definition empty_slot : watch := MkWatch (-1) EmptyString.

Record wst (K : Type) := MkW {
  wlCache : list watch;
  rootDirPaths : list (option string);
  ignoreRootDirs : nat;
  dirCnt : Z;
  inotifyFd : Z;
  verboseMask : Z;
  checkCache : bool;
  dumpCache : bool;
  logfp : bool;
  abortOnCacheProblem : bool;
  readBufferSize : Z;
  said : list string;
  kern : K
}.
Arguments MkW {K}.
Arguments wlCache {K}.
Arguments rootDirPaths {K}.
Arguments ignoreRootDirs {K}.
Arguments dirCnt {K}.
Arguments inotifyFd {K}.
Arguments verboseMask {K}.
Arguments checkCache {K}.
Arguments dumpCache {K}.
Arguments logfp {K}.
Arguments abortOnCacheProblem {K}.
Arguments readBufferSize {K}.
Arguments said {K}.
Arguments kern {K}.

(** The text below [full] when [path] is [full] or a path below it: [strncmp] of the length
    of [full], and the character that follows. *)
Fixpoint strip (full path : string) : option string :=
  match full, path with
  | EmptyString, _ => Some path
  | String c full, String d path => if Ascii.eqb c d then strip full path else None
  | String _ _, EmptyString => None
  end.

Definition SLASH : ascii := chr 47.

Definition tail_under (full path : string) : option string :=
  match strip full path with
  | Some EmptyString => Some EmptyString
  | Some (String c r) => if Ascii.eqb c SLASH then Some (String c r) else None
  | None => None
  end.

Definition slash (a b : string) : string := a +:+ String SLASH b.

(** [snprintf] into a buffer of [n] bytes. *)
Definition snprintf (n : Z) (s : string) : string := take_str (Z.to_nat (n - 1)) s.

Section Watcher.
Context {K : Type} `{Inotify K}.

Definition set_wlCache (l : list watch) (s : wst K) : wst K :=
  MkW l (rootDirPaths s) (ignoreRootDirs s) (dirCnt s) (inotifyFd s) (verboseMask s) (checkCache s)
    (dumpCache s) (logfp s) (abortOnCacheProblem s) (readBufferSize s) (said s) (kern s).
Definition set_roots (l : list (option string)) (n : nat) (s : wst K) : wst K :=
  MkW (wlCache s) l n (dirCnt s) (inotifyFd s) (verboseMask s) (checkCache s)
    (dumpCache s) (logfp s) (abortOnCacheProblem s) (readBufferSize s) (said s) (kern s).
Definition set_dirCnt (n : Z) (s : wst K) : wst K :=
  MkW (wlCache s) (rootDirPaths s) (ignoreRootDirs s) n (inotifyFd s) (verboseMask s) (checkCache s)
    (dumpCache s) (logfp s) (abortOnCacheProblem s) (readBufferSize s) (said s) (kern s).
Definition set_inotifyFd (fd : Z) (s : wst K) : wst K :=
  MkW (wlCache s) (rootDirPaths s) (ignoreRootDirs s) (dirCnt s) fd (verboseMask s) (checkCache s)
    (dumpCache s) (logfp s) (abortOnCacheProblem s) (readBufferSize s) (said s) (kern s).
Definition set_switches (v : Z) (c d : bool) (s : wst K) : wst K :=
  MkW (wlCache s) (rootDirPaths s) (ignoreRootDirs s) (dirCnt s) (inotifyFd s) v c d
    (logfp s) (abortOnCacheProblem s) (readBufferSize s) (said s) (kern s).
Definition set_kern (k : K) (s : wst K) : wst K :=
  MkW (wlCache s) (rootDirPaths s) (ignoreRootDirs s) (dirCnt s) (inotifyFd s) (verboseMask s) (checkCache s)
    (dumpCache s) (logfp s) (abortOnCacheProblem s) (readBufferSize s) (said s) k.

Definition say (line : string) : prog (wst K) unit :=
  modify (fun s => MkW (wlCache s) (rootDirPaths s) (ignoreRootDirs s) (dirCnt s) (inotifyFd s) (verboseMask s)
    (checkCache s) (dumpCache s) (logfp s) (abortOnCacheProblem s) (readBufferSize s) (said s ++ [line]) (kern s)).

(** A call that changes the kernel. *)
Definition sys {A} (f : K -> A * K) : prog (wst K) A :=
  fun s => let '(a, k) := f (kern s) in Ret a (set_kern k s).

(** A message with the mask [VB_NOISY] is printed somewhere. *)
Definition noisy (s : wst K) : bool := logfp s || negb (Z.land VB_NOISY (verboseMask s) =? 0).

(** ** The cache *)

Definition freeCache : prog (wst K) unit := modify (set_wlCache []).

Definition findWatch (wd : Z) : prog (wst K) (option nat) :=
  gets (fun s => fst <$> list_find (fun w => w_wd w = wd) (wlCache s)).

(** With [-d] or [d] and without [-l] there is no file to print to. *)
Definition dumpCacheToLog : prog (wst K) unit :=
  let! s := gets (fun s => s) in
  if logfp s then ret tt else fault NullDeref.

Definition createStopFileAndAbort {A} : prog (wst K) A := do! dumpCacheToLog in stop "abort".

Definition findWatchChecked (wd : Z) : prog (wst K) (option nat) :=
  let! slot := findWatch wd in
  match slot with
  | Some j => ret (Some j)
  | None => let! s := gets (fun s => s) in
            if abortOnCacheProblem s then createStopFileAndAbort else ret None
  end.

Definition markCacheSlotEmpty (slot : nat) : prog (wst K) unit :=
  modify (fun s => set_wlCache (<[slot := empty_slot]> (wlCache s)) s).

(** The slots that [realloc] adds are printed to the log before they are written. *)
Definition findEmptyCacheSlot : prog (wst K) nat :=
  let! s := gets (fun s => s) in
  match list_find (fun w => w_wd w = -1) (wlCache s) with
  | Some (j, _) => ret j
  | None =>
      do! (if noisy s then fault UninitRead else ret tt) in
      do! modify (set_wlCache (wlCache s ++ replicate ALLOC_INCR empty_slot)) in
      ret (length (wlCache s))
  end.

(** [strncpy] leaves a pathname of [PATH_MAX] bytes or more without its NUL. *)
Definition addWatchToCache (wd : Z) (pathname : string) : prog (wst K) nat :=
  let! slot := findEmptyCacheSlot in
  do! (if strlen pathname <? PATH_MAX then ret tt else fault OutOfBounds) in
  do! modify (fun s => set_wlCache (<[slot := MkWatch wd pathname]> (wlCache s)) s) in
  ret slot.

Definition pathnameToCacheSlot (pathname : string) : prog (wst K) (option nat) :=
  gets (fun s => fst <$> list_find (fun w => 0 <= w_wd w /\ w_path w = pathname) (wlCache s)).

Definition pathnameInCache (pathname : string) : prog (wst K) bool :=
  let! slot := pathnameToCacheSlot pathname in ret (bool_decide (is_Some slot)).

(** The test of the kind of a file stands in the branch of the slots that are not used, and
    reads what the last [lstat] left, if there was one. *)
Fixpoint check_slots (l : list watch) (sb : option stat) : prog (wst K) unit :=
  match l with
  | [] => ret tt
  | w :: l =>
      if 0 <=? w_wd w then
        let! r := gets (fun s => lstat (w_path w) (kern s)) in
        check_slots l (match r with Some st => Some st | None => sb end)
      else
        match sb with
        | None => fault UninitRead
        | Some st => if st_isdir st then check_slots l sb else stop "not a directory"
        end
  end.
Definition checkCacheConsistency : prog (wst K) unit :=
  let! l := gets wlCache in check_slots l None.

(** ** The arguments *)

Fixpoint check_dirs (argv : list string) : prog (wst K) unit :=
  match argv with
  | [] => ret tt
  | p :: argv =>
      let! r := gets (fun s => lstat p (kern s)) in
      match r with
      | None => stop "lstat() failed"
      | Some st => do! require (st_isdir st) "is not a directory" in check_dirs argv
      end
  end.

Fixpoint check_same (argv : list string) (stats : list stat) : prog (wst K) unit :=
  match argv with
  | [] => ret tt
  | p :: argv =>
      let! r := gets (fun s => lstat p (kern s)) in
      match r with
      | None => stop "lstat"
      | Some st =>
          do! require (negb (existsb (fun st' => (st_ino st =? st_ino st') && (st_dev st =? st_dev st')) stats))
                "Duplicate filesystem objects" in
          check_same argv (stats ++ [st])
      end
  end.

Definition copyRootDirPaths (argv : list string) : prog (wst K) unit :=
  do! check_dirs argv in
  do! check_same argv [] in
  modify (set_roots (Some <$> argv) 0).

Definition findRootDirPath (path : string) : prog (wst K) (option nat) :=
  gets (fun s => fst <$> list_find (fun r => r = Some path) (rootDirPaths s)).

Definition isRootDirPath (path : string) : prog (wst K) bool :=
  let! r := findRootDirPath path in ret (bool_decide (is_Some r)).

Definition zapRootDirPath (path : string) : prog (wst K) unit :=
  do! say ("zapRootDirPath: " +:+ path)%string in
  let! r := findRootDirPath path in
  match r with
  | None => stop "zapRootDirPath(): path not found!"
  | Some j =>
      do! modify (fun s => set_roots (<[j := None]> (rootDirPaths s)) (S (ignoreRootDirs s)) s) in
      let! s := gets (fun s => s) in
      if (ignoreRootDirs s =? length (rootDirPaths s))%nat
      then stop "No more root paths left to monitor; bye!" else ret tt
  end.

(** ** Watching a subtree *)

Definition traverseTree (pathname : string) (isdir : bool) : prog (wst K) unit :=
  if negb isdir then ret tt
  else
    let! root := isRootDirPath pathname in
    let flags := Z.lor (Z.lor (Z.lor IN_CREATE IN_MOVED_FROM) IN_MOVED_TO) IN_DELETE_SELF in
    let flags := if root then Z.lor flags IN_MOVE_SELF else flags in
    let! s := gets (fun s => s) in
    let! r := sys (inotify_add_watch (inotifyFd s) pathname (Z.lor flags IN_ONLYDIR)) in
    match r with
    | inr e => if e =? ENOENT then ret tt else stop "inotify_add_watch"
    | inl wd =>
        let! found := findWatch wd in
        match found with
        | Some _ => ret tt
        | None =>
            do! modify (fun s => set_dirCnt (dirCnt s + 1) s) in
            let! slot := addWatchToCache wd pathname in
            ret tt
        end
    end.

Fixpoint traverse_all (l : list (string * bool)) : prog (wst K) unit :=
  match l with
  | [] => ret tt
  | (p, d) :: l => do! traverseTree p d in traverse_all l
  end.

Definition watchDir (pathname : string) : prog (wst K) Z :=
  do! modify (set_dirCnt 0) in
  let! l := gets (fun s => nftw pathname (kern s)) in
  do! traverse_all l in
  gets dirCnt.

Definition watchSubtree (path : string) : prog (wst K) unit :=
  let! cnt := watchDir path in ret tt.

(** ** Renaming and dropping a subtree *)

Definition rewrite_slot (fullPath newPrefix : string) (w : watch) : watch :=
  match tail_under fullPath (w_path w) with
  | Some r => MkWatch (w_wd w) (snprintf PATH_MAX (newPrefix +:+ r))
  | None => w
  end.

Definition rewriteCachedPaths (oldPathPrefix oldName newPathPrefix newName : string) : prog (wst K) unit :=
  let fullPath := snprintf PATH_MAX (slash oldPathPrefix oldName) in
  let newPrefix := snprintf PATH_MAX (slash newPathPrefix newName) in
  modify (fun s => set_wlCache (rewrite_slot fullPath newPrefix <$> wlCache s) s).

(** The slots [js]; -1 when a watch could not be removed. *)
Fixpoint zap_slots (pn : string) (js : list nat) (cnt : Z) : prog (wst K) Z :=
  match js with
  | [] => ret cnt
  | j :: js =>
      let! s := gets (fun s => s) in
      match wlCache s !! j with
      | None => fault OutOfBounds
      | Some w =>
          if (0 <=? w_wd w) && bool_decide (is_Some (tail_under pn (w_path w))) then
            let! r := sys (inotify_rm_watch (inotifyFd s) (w_wd w)) in
            match r with
            | Some _ => ret (-1)
            | None => do! markCacheSlotEmpty j in zap_slots pn js (cnt + 1)
            end
          else zap_slots pn js cnt
      end
  end.

Definition zapSubtree (path : string) : prog (wst K) Z :=
  let! s := gets (fun s => s) in zap_slots path (seq 0 (length (wlCache s))) 0.

Fixpoint watch_roots (l : list (option string)) : prog (wst K) unit :=
  match l with
  | [] => ret tt
  | Some p :: l => do! watchSubtree p in watch_roots l
  | None :: l => watch_roots l
  end.

Definition reinitialize (oldInotifyFd : Z) : prog (wst K) unit :=
  do! (if 0 <=? oldInotifyFd then modify (fun s => set_kern (close_fd oldInotifyFd (kern s)) s) else ret tt) in
  let! r := sys inotify_init in
  match r with
  | inr _ => stop "inotify_init"
  | inl fd =>
      do! modify (set_inotifyFd fd) in
      do! freeCache in
      let! l := gets rootDirPaths in
      watch_roots l
  end.

(** ** Events *)

(** What was consumed: the next events, all that was read, or nothing since the rest of a
    rename may still come. *)
Inductive consumed := Took (n : nat) | Discard | Again.

Definition has (ev : inotify_event) (bits : Z) : bool := negb (Z.land (ev_mask ev) bits =? 0).

(** [wlCache[slot].path], when [slot] was set. *)
Definition slot_path (slot : option nat) : prog (wst K) string :=
  match slot with
  | None => fault UninitRead
  | Some j =>
      let! l := gets wlCache in
      match l !! j with Some w => ret (w_path w) | None => fault OutOfBounds end
  end.

Definition clear_slot (slot : option nat) : prog (wst K) unit :=
  match slot with None => fault UninitRead | Some j => markCacheSlotEmpty j end.

Definition rebuild : prog (wst K) consumed :=
  let! fd := gets inotifyFd in do! reinitialize fd in ret Discard.

(** The end of [processNextInotifyEvent]. *)
Definition after_event (c : consumed) : prog (wst K) consumed :=
  let! s := gets (fun s => s) in
  do! (if checkCache s then checkCacheConsistency else ret tt) in
  do! (if dumpCache s then dumpCacheToLog else ret tt) in
  ret c.

Definition created (slot : option nat) (ev : inotify_event) : prog (wst K) consumed :=
  let! path := slot_path slot in
  let fullPath := snprintf (PATH_MAX + NAME_MAX) (slash path (ev_name ev)) in
  let! known := pathnameInCache fullPath in
  do! (if known then ret tt else watchSubtree fullPath) in
  after_event (Took 1).

Definition deleted (slot : option nat) : prog (wst K) consumed :=
  let! path := slot_path slot in
  let! root := isRootDirPath path in
  do! (if root then zapRootDirPath path else ret tt) in
  do! clear_slot slot in
  after_event (Took 1).

Definition moved_out (slot : option nat) (ev : inotify_event) : prog (wst K) consumed :=
  let! path := slot_path slot in
  let! r := zapSubtree (snprintf (PATH_MAX + NAME_MAX) (slash path (ev_name ev))) in
  if r =? -1 then rebuild else after_event (Took 1).

Definition moved_from (slot : option nat) (ev : inotify_event) (rest : list inotify_event)
    (bufSize : Z) (firstTry : bool) : prog (wst K) consumed :=
  if ev_size ev <? bufSize then
    match rest with
    | [] => fault OutOfBounds
    | next :: _ =>
        if has next IN_MOVED_TO && (ev_cookie next =? ev_cookie ev) then
          let! nextSlot := findWatchChecked (ev_wd next) in
          match nextSlot with
          | None => rebuild
          | Some _ =>
              let! old := slot_path slot in
              let! new := slot_path nextSlot in
              do! rewriteCachedPaths old (ev_name ev) new (ev_name next) in
              after_event (Took 2)
          end
        else moved_out slot ev
    end
  else if firstTry then ret Again else moved_out slot ev.

(** [slot] is [evCacheSlot], which has no value for some events. *)
Definition dispatch (slot : option nat) (ev : inotify_event) (rest : list inotify_event)
    (bufSize : Z) (firstTry : bool) : prog (wst K) consumed :=
  if has ev IN_ISDIR && has ev (Z.lor IN_CREATE IN_MOVED_TO) then created slot ev
  else if has ev IN_DELETE_SELF then deleted slot
  else if Z.land (ev_mask ev) (Z.lor IN_MOVED_FROM IN_ISDIR) =? Z.lor IN_MOVED_FROM IN_ISDIR then
    moved_from slot ev rest bufSize firstTry
  else if has ev IN_Q_OVERFLOW then
    do! (let! fd := gets inotifyFd in reinitialize fd) in after_event Discard
  else if has ev IN_UNMOUNT then
    do! clear_slot slot in after_event (Took 1)
  else if has ev IN_MOVE_SELF then
    let! path := slot_path slot in
    let! root := isRootDirPath path in
    if root then
      do! zapRootDirPath path in
      let! r := zapSubtree path in
      if r =? -1 then rebuild else after_event (Took 1)
    else after_event (Took 1)
  else after_event (Took 1).

Definition processNextInotifyEvent (evs : list inotify_event) (bufSize : Z) (firstTry : bool)
  : prog (wst K) consumed :=
  match evs with
  | [] => fault OutOfBounds
  | ev :: rest =>
      if negb (ev_wd ev =? -1) && negb (has ev IN_IGNORED) then
        let! slot := findWatchChecked (ev_wd ev) in
        match slot with
        | None => rebuild
        | Some j => dispatch (Some j) ev rest bufSize firstTry
        end
      else dispatch None ev rest bufSize firstTry
  end.

(** The loop over the buffer: [evs] are the events from [evp] on and [rem] is
    [buf + numRead - evp].  A second read that is interrupted answers -1, and the code adds it
    to [numRead]. *)
Fixpoint process_buffer (fuel : nat) (evs : list inotify_event) (rem : Z) (firstTry : bool)
  : prog (wst K) unit :=
  match fuel with
  | O => loops
  | S fuel =>
      if rem <=? 0 then ret tt
      else
        let! r := processNextInotifyEvent evs rem firstTry in
        match r with
        | Took n => process_buffer fuel (drop n evs) (rem - ev_sizes (take n evs)) true
        | Discard => process_buffer fuel [] (rem - INOTIFY_READ_BUF_LEN) true
        | Again =>
            let! fd := gets inotifyFd in
            let! r := sys (read_events fd (INOTIFY_READ_BUF_LEN - rem)) in
            match r with
            | inl more =>
                do! require (0 <? ev_sizes more) "read() from inotify fd returned 0!" in
                process_buffer fuel (evs ++ more) (rem + ev_sizes more) false
            | inr e =>
                do! require (e =? EINTR) "read" in
                process_buffer fuel evs (rem - 1) false
            end
        end
  end.

(** The buffer has [INOTIFY_READ_BUF_LEN] bytes, whatever is asked of [read]. *)
Definition processInotifyEvents (fuel : nat) : prog (wst K) unit :=
  let! s := gets (fun s => s) in
  let! r := sys (read_events (inotifyFd s)
                   (if 0 <? readBufferSize s then readBufferSize s else INOTIFY_READ_BUF_LEN)) in
  match r with
  | inr _ => stop "read"
  | inl evs =>
      do! (if INOTIFY_READ_BUF_LEN <? ev_sizes evs then fault OutOfBounds else ret tt) in
      do! require (0 <? ev_sizes evs) "read() from inotify fd returned 0!" in
      process_buffer fuel evs (ev_sizes evs) true
  end.

(** ** Commands *)

Fixpoint token (s : string) : string :=
  match s with
  | EmptyString => EmptyString
  | String c s => if isspace c then EmptyString else String c (token s)
  end.

(** [sscanf] with a [%s]: nothing is written when no text is left. *)
Definition scan_arg (s : string) : option string :=
  match token (skip_space s) with EmptyString => None | t => Some t end.

Definition with_arg {A} (arg : option string) (k : string -> prog (wst K) A) : prog (wst K) A :=
  match arg with None => fault UninitRead | Some a => k a end.

Definition active (l : list watch) : list watch := filter (fun w => 0 <= w_wd w) l.

(** The counts of pathnames that exist and that do not. *)
Fixpoint verify_slots (l : list watch) (cnt failures : Z) : prog (wst K) (Z * Z) :=
  match l with
  | [] => ret (cnt, failures)
  | w :: l =>
      let! r := gets (fun s => lstat (w_path w) (kern s)) in
      match r with
      | None => verify_slots l cnt (failures + 1)
      | Some st => if st_isdir st then verify_slots l (cnt + 1) failures
                   else stop "is not a directory"
      end
  end.

Fixpoint list_slots (j : Z) (l : list watch) : prog (wst K) unit :=
  match l with
  | [] => ret tt
  | w :: l =>
      do! (if 0 <=? w_wd w
           then say (fmt_lld j +:+ ": " +:+ fmt_lld (w_wd w) +:+ " " +:+ w_path w)%string
           else ret tt) in
      list_slots (j + 1) l
  end.

Definition on_off (b : bool) : string := if b then "on" else "off".

Definition command_help : list string :=
  ["Commands:"; "0        Rebuild cache"; "a path   Add/refresh pathname watches and cache";
   "c        Verify cached pathnames"; "d        Toggle cache dumping"; "l        List cached pathnames";
   "q        Quit"; "v [n]    Toggle/set verbose level for messages to stderr";
   "             0 = no messages"; "             1 = basic messages"; "             2 = verbose messages";
   "             3 = basic and verbose messages"; "w file   Write directory list to file";
   "x        Toggle cache checking"; "z path   Zap pathname and watches from cache"]%string.

Fixpoint say_lines (l : list string) : prog (wst K) unit :=
  match l with [] => ret tt | t :: l => do! say t in say_lines l end.

(** A line of the standard input, [None] at its end. *)
Definition executeCommand (input : option string) : prog (wst K) unit :=
  match input with
  | None | Some EmptyString => stop "bye!"
  | Some text =>
      match take_str (String.length text - 1) text with
      | EmptyString => ret tt
      | String cmd line =>
          let arg := scan_arg line in
          let! s := gets (fun s => s) in
          match code cmd with
          | 97 => with_arg arg (fun a => let! cnt := zapSubtree a in watchSubtree a)
          | 99 | 67 =>
              let! (cnt, failures) := verify_slots (active (wlCache s)) 0 0 in
              do! say ("Successfully verified " +:+ fmt_lld cnt +:+ " entries")%string in
              say ("Failures: " +:+ fmt_lld failures)%string
          | 108 => list_slots 0 (wlCache s)
          | 113 => stop "quit"
          | 118 =>
              match arg with
              | Some a => modify (set_switches (atoi a) (checkCache s) (dumpCache s))
              | None =>
                  let v := if verboseMask s =? 0 then 1 else 0 in
                  do! modify (set_switches v (checkCache s) (dumpCache s)) in
                  say (on_off (negb (v =? 0)))
              end
          | 100 =>
              do! modify (set_switches (verboseMask s) (checkCache s) (negb (dumpCache s))) in
              say (on_off (negb (dumpCache s)))
          | 120 =>
              do! modify (set_switches (verboseMask s) (negb (checkCache s)) (dumpCache s)) in
              say (on_off (negb (checkCache s)))
          | 119 =>
              with_arg arg (fun a =>
                let! ok := gets (fun s => fopen_write a (kern s)) in
                if ok then say_lines (w_path <$> active (wlCache s)) else fault NullDeref)
          | 122 => with_arg arg (fun a => let! cnt := zapSubtree a in ret tt)
          | 48 =>
              do! modify (fun s => set_kern (close_fd (inotifyFd s) (kern s)) s) in
              reinitialize (-1)
          | _ => say_lines (("Unrecognized command: " +:+ String cmd EmptyString)%string :: command_help)
          end
      end
  end.

(** ** main *)

(** What the options of the command line set. *)
Record options := MkOptions {
  o_abort : bool;
  o_check : bool;
  o_dump : bool;
  o_verbose : Z;
  o_bufsize : Z;
  o_log : bool
}.

Definition no_options : options := MkOptions false false false 0 0 false.

(** The [optstring] is [a:dxl:v:b:]. *)
Definition set_option (k : K) (opt : Z) (optarg : string) (o : options) : string + options :=
  let '(MkOptions a x d v b l) := o in
  match opt with
  | 97 => inr (MkOptions true x d v b l)
  | 120 => inr (MkOptions a true d v b l)
  | 100 => inr (MkOptions a x true v b l)
  | 118 => inr (MkOptions a x d (atoi optarg) b l)
  | 98 => inr (MkOptions a x d v (atoi optarg) l)
  | 108 => if fopen_write optarg k then inr (MkOptions a x d v b true) else inl "fopen"%string
  | _ => inl "Usage"%string
  end.

(** [opts] is what [getopt] returns in turn, each with [optarg]. *)
Fixpoint parse_options (k : K) (opts : list (Z * string)) (o : options) : string + options :=
  match opts with
  | [] => inr o
  | (opt, optarg) :: opts =>
      match set_option k opt optarg o with
      | inl msg => inl msg
      | inr o => parse_options k opts o
      end
  end.

Definition start (o : options) (k : K) : wst K :=
  MkW [] [] 0 0 (-1) (o_verbose o) (o_check o) (o_dump o) (o_log o) (o_abort o) (o_bufsize o) [] k.

(** What [select] answers in one turn: the line that can be read from the terminal, if there is
    one, and whether there are events. *)
Definition turn (fuel : nat) (input : option (option string)) (ready : bool) : prog (wst K) unit :=
  do! (match input with Some line => executeCommand line | None => ret tt end) in
  if ready then processInotifyEvents fuel else ret tt.

Fixpoint turns (fuel : nat) (l : list (option (option string) * bool)) : prog (wst K) unit :=
  match l with
  | [] => ret tt
  | (input, ready) :: l => do! turn fuel input ready in turns fuel l
  end.

(** The program up to the end of the turns [l]; [argv] is what follows the options. *)
Definition main (fuel : nat) (opts : list (Z * string)) (argv : list string)
    (l : list (option (option string) * bool)) (k : K) : out (wst K) unit :=
  match parse_options k opts no_options with
  | inl msg => Stop msg
  | inr o =>
      (do! require (negb (length argv =? 0)%nat) "Usage" in
       do! copyRootDirPaths argv in
       do! reinitialize (-1) in
       turns fuel l) (start o k)
  end.

End Watcher.
