(* ===== verification/DirPaths.v ===== *)
(** * Pathnames as texts and as lists of names

    The cache of [DirWatch] holds pathnames as texts and compares them character by
    character.  Below a root [base], a path is a list of names; [render] is its text.  A name
    has no slash, and then a text is at or below another exactly when the list is a
    continuation of the other. *)

From S2P Require Import Prelude CLib DirWatch.
From Stdlib Require Import Ascii.
Local Open Scope Z_scope.

Abbreviation path := (list string).

(** A name of a directory entry. *)
Definition name_ok (n : string) : bool := negb (bool_decide (n = EmptyString)) && bool_decide (strchr n SLASH = None).

Fixpoint below (p : path) : string :=
  match p with [] => EmptyString | n :: p => String SLASH (n +:+ below p) end.

Definition render (base : string) (p : path) : string := base +:+ below p.

(** The end of a component: the end of the text or a slash. *)
Definition ends (s : string) : Prop := match s with EmptyString => True | String c _ => c = SLASH end.

Lemma ends_below p : ends (below p).
Proof. by destruct p. Qed.

Lemma below_app p q : below (p ++ q) = below p +:+ below q.
Proof.
  induction p as [|n p IH]; [done|]. cbn [app below]. rewrite IH, append_cons. f_equal. apply append_assoc.
Qed.

Lemma render_app base p q : render base (p ++ q) = render base p +:+ below q.
Proof. unfold render. rewrite below_app. apply append_assoc. Qed.

Lemma slash_render base p n : slash (render base p) n = render base (p ++ [n]).
Proof. rewrite render_app. cbn [below]. by rewrite append_nil_r. Qed.

Lemma name_ok_cons c n : name_ok (String c n) = true -> c <> SLASH /\ strchr n SLASH = None.
Proof.
  unfold name_ok. cbn [strchr]. intros [_ Hc]%andb_prop. apply bool_decide_eq_true in Hc.
  destruct (Ascii.eqb_spec c SLASH) as [->|Hne]; [done|]. split; [done|]. by destruct (strchr n SLASH).
Qed.

(** A text without slash ends where the slash stands. *)
Lemma split_slash (n m r b : string) :
  strchr n SLASH = None -> strchr m SLASH = None -> ends r -> ends b -> n +:+ r = m +:+ b -> n = m /\ r = b.
Proof.
  revert m. induction n as [|c n IH]; intros [|d m] Hn Hm Hr Hb E;
    rewrite ?append_cons, ?append_nil_l in E; cbn [strchr] in *.
  - done.
  - subst r. cbn in Hr. subst d. by rewrite Ascii.eqb_refl in Hm.
  - subst b. cbn in Hb. subst c. by rewrite Ascii.eqb_refl in Hn.
  - injection E as -> E. destruct (Ascii.eqb d SLASH); [done|].
    destruct (strchr n SLASH) eqn:En; [done|]. destruct (strchr m SLASH) eqn:Em; [done|].
    destruct (IH m eq_refl Em Hr Hb E) as [-> ->]. done.
Qed.

Definition path_ok (p : path) : Prop := Forall (fun n => name_ok n = true) p.

Lemma name_ok_noslash n : name_ok n = true -> strchr n SLASH = None.
Proof. unfold name_ok. intros [_ Hn]%andb_prop. by apply bool_decide_eq_true in Hn. Qed.

Lemma append_inj_l (a b c : string) : a +:+ b = a +:+ c -> b = c.
Proof. induction a as [|x a IH]; [done|]. rewrite !append_cons. intros [= E]. by apply IH. Qed.

Lemma below_prefix p q r :
  path_ok p -> path_ok q -> ends r -> below q = below p +:+ r -> exists q', q = p ++ q' /\ r = below q'.
Proof.
  intros Hp. revert q. induction Hp as [|n p Hn Hp IH]; intros q Hq Hr E.
  - by exists q.
  - destruct Hq as [|m q Hm Hq]; [done|]. cbn [below] in E. rewrite append_cons in E. injection E as E.
    rewrite <- append_assoc in E.
    apply split_slash in E as [-> E]; [|by apply name_ok_noslash..|apply ends_below|].
    + destruct (IH q Hq Hr E) as (q' & -> & ->). by exists q'.
    + destruct p; [exact Hr|done].
Qed.

Lemma render_inj base p q : path_ok p -> path_ok q -> render base p = render base q -> p = q.
Proof.
  intros Hp Hq E. apply append_inj_l in E. symmetry in E. rewrite <- (append_nil_r (below p)) in E.
  apply below_prefix in E as (q' & -> & E); [|done..]. destruct q'; [by rewrite app_nil_r|done].
Qed.

(** ** [tail_under] *)

Lemma strip_spec full s r : strip full s = Some r <-> s = full +:+ r.
Proof.
  revert s. induction full as [|c full IH]; intros s.
  - rewrite append_nil_l. cbn. split; [by intros [= ->]|by intros ->].
  - rewrite append_cons. destruct s as [|d s]; cbn [strip]; [done|].
    destruct (Ascii.eqb_spec c d) as [->|Hne]; [|split; [done|intros [= -> _]; done]].
    rewrite IH. split; [by intros ->|by intros [= ->]].
Qed.

Lemma tail_under_spec full s r : tail_under full s = Some r <-> s = full +:+ r /\ ends r.
Proof.
  unfold tail_under. rewrite <- strip_spec.
  destruct (strip full s) as [[|c t]|]; cbn [ends].
  - split; [by intros [= <-]|by intros [[= <-] _]].
  - destruct (Ascii.eqb_spec c SLASH) as [->|Hne].
    + split; [by intros [= <-]|by intros [[= <-] _]].
    + split; [done|]. intros [[= <-] E]. by destruct (Hne E).
  - split; [done|]. by intros [? _].
Qed.

(** The program's test is the relation on lists. *)
Lemma tail_under_render base p q :
  path_ok p -> path_ok q ->
  tail_under (render base p) (render base q) =
    if decide (p `prefix_of` q) then Some (below (drop (length p) q)) else None.
Proof.
  intros Hp Hq. destruct (decide (p `prefix_of` q)) as [[q' ->]|Hno].
  - apply tail_under_spec. rewrite drop_app_length, render_app. split; [done|apply ends_below].
  - destruct (tail_under _ _) as [r|] eqn:E; [|done]. apply tail_under_spec in E as [E Hr].
    unfold render in E. rewrite <- append_assoc in E. apply append_inj_l in E.
    apply below_prefix in E as (q' & -> & _); [|done..]. destruct Hno. by exists q'.
Qed.

(** The empty text of a slot that is not used is below nothing. *)
Lemma tail_under_empty base n p : tail_under (render base (p ++ [n])) EmptyString = None.
Proof.
  destruct (tail_under _ _) as [r|] eqn:E; [|done]. apply tail_under_spec in E as [E _].
  rewrite render_app in E. apply (f_equal String.length) in E. cbn [below] in E.
  rewrite !length_append in E. cbn [String.length] in E. lia.
Qed.

Lemma take_str_all n s : (String.length s <= n)%nat -> take_str n s = s.
Proof.
  revert s. induction n as [|n IH]; intros [|c s] Hn; cbn in *; [done|lia|done|]. f_equal. apply IH. lia.
Qed.

(** A text that fits is printed as it is. *)
Lemma snprintf_fits n s : strlen s < n -> snprintf n s = s.
Proof. intros Hn. apply take_str_all. unfold strlen in Hn. lia. Qed.
