(* ===== verification/DirKernel.v ===== *)
(** * A kernel for the watcher of directories

    A file system with one tree of directories below [base], and an inotify instance, as
    inotify(7) describes it: a watch is on a directory and not on its pathname, events go to
    the watch of the directory whose entry changed, a directory that is removed reports
    itself and loses its watch, the two halves of a rename carry the same cookie, and a watch
    that ends is reported with [IN_IGNORED].  [change] lists what other programs do to the
    tree. *)

From S2P Require Import Prelude Prog Process CLib DirWatch DirPaths.
From Stdlib Require Import Ascii.
Local Open Scope Z_scope.

(** A directory has a number that stays with it when it is renamed. *)
Record ikern := MkIKern {
  base : string;
  tree : gmap path nat;
  next_ino : nat;
  watches : gmap Z nat;
  next_wd : Z;
  next_cookie : Z;
  queue : list inotify_event
}.

Definition set_tree (t : gmap path nat) (n : nat) (k : ikern) : ikern :=
  MkIKern (base k) t n (watches k) (next_wd k) (next_cookie k) (queue k).
Definition set_watches (w : gmap Z nat) (n : Z) (k : ikern) : ikern :=
  MkIKern (base k) (tree k) (next_ino k) w n (next_cookie k) (queue k).
Definition set_queue (q : list inotify_event) (k : ikern) : ikern :=
  MkIKern (base k) (tree k) (next_ino k) (watches k) (next_wd k) (next_cookie k) q.
Definition next_rename (k : ikern) : ikern :=
  MkIKern (base k) (tree k) (next_ino k) (watches k) (next_wd k) (next_cookie k + 1) (queue k).

(** ** The calls *)

Definition find_path (s : string) (k : ikern) : option (path * nat) :=
  snd <$> list_find (fun pi => render (base k) (fst pi) = s) (map_to_list (tree k)).

Definition wd_of (ino : nat) (k : ikern) : option Z :=
  (fun x => fst (snd x)) <$> list_find (fun wi => snd wi = ino) (map_to_list (watches k)).

Definition self_event (wd mask : Z) : inotify_event := MkEvent wd mask 0 0 EmptyString.

(** The events that fit into a buffer, and the others. *)
Fixpoint fitting (cnt : Z) (q : list inotify_event) : list inotify_event * list inotify_event :=
  match q with
  | [] => ([], [])
  | ev :: q' =>
      if ev_size ev <=? cnt then
        let '(a, b) := fitting (cnt - ev_size ev) q' in (ev :: a, b)
      else ([], q)
  end.

#[export] Instance ikern_inotify : Inotify ikern := {
  inotify_init k := (inl 3, set_queue [] (set_watches ∅ 1 k));
  close_fd _ k := set_queue [] (set_watches ∅ 1 k);
  inotify_add_watch _ s _ k :=
    match find_path s k with
    | None => (inr ENOENT, k)
    | Some (_, ino) =>
        match wd_of ino k with
        | Some wd => (inl wd, k)
        | None => (inl (next_wd k), set_watches (<[next_wd k := ino]> (watches k)) (next_wd k + 1) k)
        end
    end;
  inotify_rm_watch _ wd k :=
    match watches k !! wd with
    | None => (Some EINVAL, k)
    | Some _ => (None, set_queue (queue k ++ [self_event wd IN_IGNORED]) (set_watches (delete wd (watches k)) (next_wd k) k))
    end;
  nftw s k :=
    match find_path s k with
    | None => []
    | Some (p, _) =>
        (fun qi => (render (base k) (fst qi), true)) <$> filter (fun qi => p `prefix_of` fst qi) (map_to_list (tree k))
    end;
  lstat s k := (fun pi => MkStat true (Z.of_nat (snd pi)) 0) <$> find_path s k;
  read_events _ cnt k :=
    match queue k with
    | [] => (inr EINTR, k)
    | _ => match fitting cnt (queue k) with
           | ([], _) => (inr EINVAL, k)
           | (evs, q) => (inl evs, set_queue q k)
           end
    end;
  fopen_write _ _ := true
}.

(** ** Changes of the tree *)

Inductive change :=
| Mkdir (p : path) (n : string)
| Rmdir (p : path) (n : string)
| Rename (p : path) (n : string) (q : path) (m : string)
| MoveOut (p : path) (n : string)
| MoveIn (p : path) (n : string) (sub : list path).

(** The length of a name in an event, padded with NUL. *)
Definition name_len (n : string) : Z := (strlen n + 16) / 16 * 16.

(** An event about the entry [n] of the directory [p]. *)
Definition notify (p : path) (mask cookie : Z) (n : string) (k : ikern) : ikern :=
  match tree k !! p ≫= (fun ino => wd_of ino k) with
  | Some wd => set_queue (queue k ++ [MkEvent wd mask cookie (name_len n) n]) k
  | None => k
  end.

(** The directory [ino] is gone. *)
Definition gone (ino : nat) (k : ikern) : ikern :=
  match wd_of ino k with
  | Some wd =>
      set_queue (queue k ++ [self_event wd (Z.lor IN_DELETE_SELF IN_ISDIR); self_event wd IN_IGNORED])
        (set_watches (delete wd (watches k)) (next_wd k) k)
  | None => k
  end.

Definition leaf (p : path) (k : ikern) : bool :=
  bool_decide (filter (fun qi => p `prefix_of` fst qi /\ fst qi <> p) (map_to_list (tree k)) = []).

(** Where a rename of [a] to [b] takes a path. *)
Definition moved (a b p : path) : path :=
  if decide (a `prefix_of` p) then b ++ drop (length a) p else p.

Definition fits_path (k : ikern) (p : path) : bool := strlen (render (base k) p) <? PATH_MAX.
Definition fits_name (n : string) : bool := name_ok n && (strlen n <=? NAME_MAX).
Definition exists_path (k : ikern) (p : path) : bool := bool_decide (is_Some (tree k !! p)).

(** New directories, each with a fresh number. *)
Fixpoint grow (ps : list path) (k : ikern) : ikern :=
  match ps with
  | [] => k
  | p :: ps => grow ps (set_tree (<[p := next_ino k]> (tree k)) (S (next_ino k)) k)
  end.

(** What replaces the directory that was at the target of a rename. *)
Definition replaced (q : path) (k : ikern) : ikern -> ikern :=
  match tree k !! q with Some ino => gone ino | None => fun k => k end.

(** [None] when the call fails. *)
Definition apply_change (c : change) (k : ikern) : option ikern :=
  match c with
  | Mkdir p n =>
      if exists_path k p && negb (exists_path k (p ++ [n])) && fits_name n && fits_path k (p ++ [n]) then
        Some (notify p (Z.lor IN_CREATE IN_ISDIR) 0 n (grow [p ++ [n]] k))
      else None
  | Rmdir p n =>
      match tree k !! (p ++ [n]) with
      | Some ino =>
          if leaf (p ++ [n]) k then Some (gone ino (set_tree (delete (p ++ [n]) (tree k)) (next_ino k) k)) else None
      | None => None
      end
  | Rename p n q m =>
      let a := p ++ [n] in let b := q ++ [m] in
      let t := list_to_map (prod_map (moved a b) id <$> map_to_list (delete b (tree k))) in
      if exists_path k p && exists_path k a && exists_path k q && leaf b k && fits_name n && fits_name m &&
         negb (bool_decide (a `prefix_of` b)) && negb (bool_decide (b `prefix_of` a)) &&
         forallb (fun p => fits_path k (moved a b p)) (fst <$> map_to_list (tree k)) then
        Some (replaced b k (next_rename (set_tree t (next_ino k)
          (notify q (Z.lor IN_MOVED_TO IN_ISDIR) (next_cookie k) m
            (notify p (Z.lor IN_MOVED_FROM IN_ISDIR) (next_cookie k) n k)))))
      else None
  | MoveOut p n =>
      let a := p ++ [n] in
      if exists_path k p && exists_path k a && fits_name n then
        Some (next_rename (notify p (Z.lor IN_MOVED_FROM IN_ISDIR) (next_cookie k) n
          (set_tree (filter (fun qi => ~ a `prefix_of` fst qi) (tree k)) (next_ino k) k)))
      else None
  | MoveIn p n sub =>
      let a := p ++ [n] in
      if exists_path k p && leaf a k && fits_name n && forallb (forallb name_ok) sub &&
         bool_decide ([] ∈ sub) && forallb (fun r => bool_decide (take (length r - 1) r ∈ sub)) sub && bool_decide (NoDup sub) && forallb (fun r => fits_path k (a ++ r)) sub then
        Some (replaced a k (next_rename (notify p (Z.lor IN_MOVED_TO IN_ISDIR) (next_cookie k) n
          (grow ((a ++.) <$> sub) k))))
      else None
  end.
