(* ===== verification/DirCache.v ===== *)
(** * The cache of the watcher and what it stands for

    [caches b W l]: the slots of [l] that are used hold the watch descriptors of [W], each once
    and with the pathname of its directory.  The lemmas say what becomes of [W] when the
    program finds, adds, clears or rewrites slots. *)

From S2P Require Import Prelude Prog Process CLib DirWatch DirPaths DirKernel.
From Stdlib Require Import Ascii.
Local Open Scope Z_scope.

Definition slot_pair (w : watch) : list (Z * string) := if 0 <=? w_wd w then [(w_wd w, w_path w)] else [].
Definition pairs (l : list watch) : list (Z * string) := l ≫= slot_pair.

Lemma pairs_active l : pairs l = (fun w => (w_wd w, w_path w)) <$> active l.
Proof.
  unfold pairs, active. induction l as [|w l IH]; [done|]. cbn [mbind list_bind]. unfold slot_pair at 1.
  destruct (0 <=? w_wd w) eqn:E.
  - rewrite filter_cons_True by (by apply Z.leb_le). cbn. f_equal. exact IH.
  - rewrite filter_cons_False by (by apply Z.leb_gt in E; lia). exact IH.
Qed.

(** One slot and the others. *)
Lemma pairs_slot l j w :
  l !! j = Some w ->
  exists r, pairs l ≡ₚ slot_pair w ++ r /\ forall w', pairs (<[j := w']> l) ≡ₚ slot_pair w' ++ r.
Proof.
  intros Hj. exists (pairs (take j l) ++ pairs (drop (S j) l)). split.
  - rewrite <- (take_drop_middle l j w Hj) at 1. unfold pairs. rewrite bind_app. cbn [mbind list_bind].
    by rewrite Permutation_app_swap_app.
  - intros w'. rewrite insert_take_drop by (by eapply lookup_lt_Some). unfold pairs. rewrite bind_app. cbn [mbind list_bind].
    by rewrite Permutation_app_swap_app.
Qed.

Lemma elem_of_slot_pairs l wd p : (wd, p) ∈ pairs l <-> MkWatch wd p ∈ l /\ 0 <= wd.
Proof.
  unfold pairs. rewrite list_elem_of_bind. split.
  - intros ([wd' p'] & Hin & Hl). unfold slot_pair in Hin. cbn in Hin.
    destruct (Z.leb_spec 0 wd'); [|by apply not_elem_of_nil in Hin].
    apply list_elem_of_singleton in Hin as [= -> ->]. done.
  - intros [Hl Hwd]. exists (MkWatch wd p). split; [|done]. unfold slot_pair. cbn.
    rewrite (proj2 (Z.leb_le _ _)) by done. by left.
Qed.

Section Cache.
Context {b : string}.

Record caches (W : gmap Z path) (l : list watch) : Prop := MkCaches {
  c_pairs : pairs l ≡ₚ map_to_list (render b <$> W);
  c_idle : Forall (fun w => 0 <= w_wd w \/ w = empty_slot) l
}.

Context {W : gmap Z path} {l : list watch} (HC : caches W l).
#[local] Set Default Proof Using "HC".

Lemma caches_slot wd s : MkWatch wd s ∈ l -> 0 <= wd -> exists p, W !! wd = Some p /\ s = render b p.
Proof.
  intros Hl Hwd. assert ((wd, s) ∈ pairs l) as Hin by (by apply elem_of_slot_pairs).
  rewrite (c_pairs _ _ HC) in Hin. apply elem_of_map_to_list in Hin. rewrite lookup_fmap in Hin.
  apply fmap_Some in Hin as (p & Hp & ->). by exists p.
Qed.

Lemma caches_in wd p : W !! wd = Some p -> MkWatch wd (render b p) ∈ l /\ 0 <= wd.
Proof.
  intros Hp. apply elem_of_slot_pairs. rewrite (c_pairs _ _ HC). apply elem_of_map_to_list.
  by rewrite lookup_fmap, Hp.
Qed.

Lemma find_known wd p :
  W !! wd = Some p ->
  exists j, list_find (fun w => w_wd w = wd) l = Some (j, MkWatch wd (render b p)) /\
    l !! j = Some (MkWatch wd (render b p)).
Proof.
  intros Hp. destruct (caches_in _ _ Hp) as [Hin Hwd].
  destruct (list_find (fun w => w_wd w = wd) l) as [[j w]|] eqn:E.
  - apply list_find_Some in E as (Hj & Hw & _). destruct w as [wd' s]. cbn in Hw. subst wd'.
    assert (MkWatch wd s ∈ l) as Hs by (by eapply list_elem_of_lookup_2).
    destruct (caches_slot _ _ Hs Hwd) as (p' & Hp' & ->). rewrite Hp in Hp'. injection Hp' as <-. by exists j.
  - apply list_find_None in E. rewrite Forall_forall in E. by destruct (E _ Hin).
Qed.

Lemma find_unknown wd : W !! wd = None -> 0 <= wd -> list_find (fun w => w_wd w = wd) l = None.
Proof.
  intros Hno Hwd. apply list_find_None, Forall_forall. intros [wd' s] Hin Hw. cbn in Hw. subst wd'.
  destruct (caches_slot _ _ Hin Hwd) as (p & Hp & _). congruence.
Qed.

Lemma find_path_known p wd :
  W !! wd = Some p -> is_Some (list_find (fun w => 0 <= w_wd w /\ w_path w = render b p) l).
Proof.
  intros Hp. destruct (caches_in _ _ Hp) as [Hin Hwd].
  eapply list_find_elem_of; [exact Hin|done].
Qed.

Lemma find_path_unknown p :
  path_ok p -> (forall wd q, W !! wd = Some q -> path_ok q /\ q <> p) ->
  list_find (fun w => 0 <= w_wd w /\ w_path w = render b p) l = None.
Proof.
  intros Hok Hno. apply list_find_None, Forall_forall. intros [wd s] Hin [Hwd Hs]. cbn in *. subst s.
  destruct (caches_slot _ _ Hin Hwd) as (q & Hq & E). destruct (Hno _ _ Hq) as [Hq2 Hne].
  by apply render_inj in E.
Qed.

Lemma caches_insert j wd p :
  l !! j = Some empty_slot -> W !! wd = None -> 0 <= wd ->
  caches (<[wd := p]> W) (<[j := MkWatch wd (render b p)]> l).
Proof.
  intros Hj Hno Hwd. destruct (pairs_slot _ _ _ Hj) as (r & E & E'). split.
  - rewrite E'. unfold slot_pair at 1. cbn [w_wd w_path]. rewrite (proj2 (Z.leb_le _ _)) by done.
    rewrite fmap_insert, map_to_list_insert by (by rewrite lookup_fmap, Hno).
    cbn [app]. constructor. rewrite <- (c_pairs _ _ HC), E. done.
  - apply Forall_insert; [apply HC|]. by left.
Qed.

Lemma caches_clear j wd p :
  l !! j = Some (MkWatch wd (render b p)) -> 0 <= wd -> caches (delete wd W) (<[j := empty_slot]> l).
Proof.
  intros Hj Hwd. destruct (pairs_slot _ _ _ Hj) as (r & E & E'). split.
  - assert (W !! wd = Some p \/ exists q, W !! wd = Some q /\ render b q = render b p) as Hp.
    { right. destruct (caches_slot wd (render b p) ltac:(by eapply list_elem_of_lookup_2) Hwd) as (q & Hq & E2). by exists q. }
    assert ((render b <$> W) !! wd = Some (render b p)) as Hr.
    { rewrite lookup_fmap. destruct Hp as [->|(q & -> & <-)]; done. }
    rewrite E'. change (slot_pair empty_slot ++ r) with r. rewrite fmap_delete.
    apply (Permutation_cons_inv (a := (wd, render b p))). rewrite map_to_list_delete by done.
    rewrite <- (c_pairs _ _ HC), E. unfold slot_pair. cbn [w_wd w_path]. by rewrite (proj2 (Z.leb_le _ _)).
  - apply Forall_insert; [apply HC|]. by right.
Qed.

Lemma caches_more n : caches W (l ++ replicate n empty_slot).
Proof.
  split.
  - unfold pairs. rewrite bind_app. fold (pairs l). rewrite (c_pairs _ _ HC).
    assert (replicate n empty_slot ≫= slot_pair = []) as ->; [|by rewrite app_nil_r].
    induction n as [|n IH]; [done|]. exact IH.
  - apply Forall_app. split; [apply HC|]. apply Forall_replicate. by right.
Qed.

(** The rewriting of the pathnames below [p ++ [n]], which becomes [q ++ [m]]. *)
Lemma caches_rename p n q m :
  let a := p ++ [n] in let b' := q ++ [m] in
  path_ok a -> (forall wd r, W !! wd = Some r -> path_ok r /\ strlen (render b (moved a b' r)) < PATH_MAX) ->
  caches (moved a b' <$> W) (rewrite_slot (render b a) (render b b') <$> l).
Proof.
  intros a b' Ha HW.
  assert (forall wd s, MkWatch wd s ∈ l -> 0 <= wd -> forall r, W !! wd = Some r -> s = render b r ->
    rewrite_slot (render b a) (render b b') (MkWatch wd s) = MkWatch wd (render b (moved a b' r))) as Hrw.
  { intros wd s _ _ r Hr ->. destruct (HW _ _ Hr) as [Hok Hfit]. unfold rewrite_slot, moved in *. cbn [w_path w_wd].
    rewrite tail_under_render by done. destruct (decide (a `prefix_of` r)); [|done].
    rewrite <- render_app. by rewrite snprintf_fits. }
  assert (rewrite_slot (render b a) (render b b') empty_slot = empty_slot) as Hrw0.
  { unfold rewrite_slot. cbn [w_path empty_slot]. unfold a. by rewrite tail_under_empty. }
  split.
  - assert (pairs (rewrite_slot (render b a) (render b b') <$> l) =
      (fun wp => (fst wp, default (snd wp) ((fun r => render b (moved a b' r)) <$> W !! fst wp))) <$> pairs l) as ->.
    { assert (forall w, w ∈ l -> 0 <= w_wd w \/ w = empty_slot) as Hidle by (apply Forall_forall, HC).
      assert (forall wd s, MkWatch wd s ∈ l -> 0 <= wd -> exists r, W !! wd = Some r /\ s = render b r) as Hsl
        by (intros; by apply caches_slot).
      revert Hrw Hidle Hsl. generalize l as l'. clear l HC. intros l'. induction l' as [|w l IH]; intros Hrw Hidle Hsl; [done|].
      unfold pairs in *. cbn [fmap list_fmap mbind list_bind]. rewrite fmap_app. f_equal.
      - destruct w as [wd s]. destruct (Hidle (MkWatch wd s) ltac:(left)) as [Hwd|E].
        + cbn in Hwd. destruct (Hsl wd s ltac:(left) Hwd) as (r & Hr & Hs).
          rewrite (Hrw wd s ltac:(left) Hwd r Hr Hs). unfold slot_pair. cbn [w_wd w_path].
          rewrite (proj2 (Z.leb_le _ _)) by done. cbn. by rewrite Hr.
        + rewrite E, Hrw0. done.
      - apply IH; intros; [apply Hrw|apply Hidle|apply Hsl]; try done; by right. }
    rewrite (c_pairs _ _ HC), <- map_fmap_compose, !map_to_list_fmap, <- list_fmap_compose.
    apply Permutation_refl', list_fmap_ext. intros i [wd r] Hi.
    apply list_elem_of_lookup_2, elem_of_map_to_list in Hi. cbn. by rewrite Hi.
  - apply Forall_fmap, Forall_forall. intros w Hw. cbn.
    pose proof (proj1 (Forall_forall _ _) (c_idle _ _ HC) w Hw) as [Hwd| ->]; [left|by right].
    unfold rewrite_slot. by destruct (tail_under _ _).
Qed.
End Cache.
