(* ===== verification/DirTrack.v ===== *)
(** * The cache follows the tree

    [good W Wc s]: the watches of the kernel are on the directories [W], and the cache holds
    [Wc].  Between changes the two are the same and cover the tree; each change moves the
    first, and the lemmas show that processing its events moves the second to it. *)

From S2P Require Import Prelude Prog Process CLib DirWatch DirPaths DirKernel DirCache.
From Stdlib Require Import Ascii.
Local Open Scope Z_scope.

(** ** The kernel *)

Record kern_ok (k : ikern) : Prop := MkKernOk {
  ko_root : is_Some (tree k !! []);
  ko_path : forall p i, tree k !! p = Some i -> path_ok p /\ strlen (render (base k) p) < PATH_MAX /\ (i < next_ino k)%nat;
  ko_closed : forall p n, is_Some (tree k !! (p ++ [n])) -> is_Some (tree k !! p);
  ko_inj : forall p q i, tree k !! p = Some i -> tree k !! q = Some i -> p = q;
  ko_wd : 0 < next_wd k
}.

(** The watches are on the directories [W], each directory once. *)
Record watching (W : gmap Z path) (k : ikern) : Prop := MkWatching {
  wa_dom : forall wd, is_Some (watches k !! wd) <-> is_Some (W !! wd);
  wa_tree : forall wd p, W !! wd = Some p -> is_Some (tree k !! p) /\ watches k !! wd = tree k !! p;
  wa_inj : forall wd wd' p, W !! wd = Some p -> W !! wd' = Some p -> wd = wd';
  wa_wd : forall wd p, W !! wd = Some p -> 0 < wd < next_wd k
}.

(** Every directory is watched. *)
Definition covered (W : gmap Z path) (k : ikern) : Prop :=
  forall p, is_Some (tree k !! p) -> exists wd, W !! wd = Some p.

Lemma find_path_some k p i : kern_ok k -> tree k !! p = Some i -> find_path (render (base k) p) k = Some (p, i).
Proof.
  intros Hk Hp. destruct (ko_path _ Hk _ _ Hp) as (Hok & _).
  unfold find_path. destruct (list_find _ _) as [[j [q i']]|] eqn:E.
  - apply list_find_Some in E as (Hj & E & _). cbn in *. apply list_elem_of_lookup_2, elem_of_map_to_list in Hj.
    destruct (ko_path _ Hk _ _ Hj) as (Hok' & _). apply render_inj in E as ->; [|done..].
    rewrite Hp in Hj. by injection Hj as <-.
  - apply list_find_None in E. rewrite Forall_forall in E. destruct (E (p, i)); [|done]. by apply elem_of_map_to_list.
Qed.

Lemma wd_of_some k i wd : wd_of i k = Some wd -> watches k !! wd = Some i.
Proof.
  unfold wd_of. intros ([j [wd' i']] & E & ->)%fmap_Some. apply list_find_Some in E as (Hj & E & _). cbn in *. subst i'.
  by apply list_elem_of_lookup_2, elem_of_map_to_list in Hj.
Qed.

Lemma wd_of_none k i wd : wd_of i k = None -> watches k !! wd <> Some i.
Proof.
  unfold wd_of. intros E Hwd. apply fmap_None, list_find_None in E. rewrite Forall_forall in E.
  destruct (E (wd, i)); [|done]. by apply elem_of_map_to_list.
Qed.

Lemma wd_of_unique k i wd :
  watches k !! wd = Some i -> (forall wd', watches k !! wd' = Some i -> wd' = wd) -> wd_of i k = Some wd.
Proof.
  intros Hwd Hu. destruct (wd_of i k) as [wd'|] eqn:E.
  - apply wd_of_some in E. by rewrite (Hu _ E).
  - by destruct (wd_of_none _ _ wd E).
Qed.

Section Watching.
Context {W : gmap Z path} {k : ikern} (Hk : kern_ok k) (HW : watching W k).
#[local] Set Default Proof Using "Type*".

Lemma watched_ino wd p i : W !! wd = Some p -> tree k !! p = Some i -> wd_of i k = Some wd.
Proof.
  intros Hp Hi. destruct (wa_tree _ _ HW _ _ Hp) as [_ E]. apply wd_of_unique; [congruence|].
  intros wd' Hwd'. destruct (proj1 (wa_dom _ _ HW wd') ltac:(by eexists)) as [q Hq].
  destruct (wa_tree _ _ HW _ _ Hq) as [[j Hj] E']. assert (q = p) as ->.
  { apply (ko_inj _ Hk _ _ i); congruence. }
  by eapply wa_inj.
Qed.

Lemma unwatched_ino p i : tree k !! p = Some i -> (forall wd, W !! wd <> Some p) -> wd_of i k = None.
Proof.
  intros Hi Hno. destruct (wd_of i k) as [wd|] eqn:E; [|done]. apply wd_of_some in E.
  destruct (proj1 (wa_dom _ _ HW wd) ltac:(by eexists)) as [q Hq].
  destruct (wa_tree _ _ HW _ _ Hq) as [[j Hj] E']. assert (q = p) as -> by (apply (ko_inj _ Hk _ _ i); congruence).
  by destruct (Hno wd).
Qed.

(** A watch on one more directory. *)
Lemma watching_add p i :
  tree k !! p = Some i -> (forall wd, W !! wd <> Some p) ->
  watching (<[next_wd k := p]> W) (set_watches (<[next_wd k := i]> (watches k)) (next_wd k + 1) k) /\
  W !! next_wd k = None.
Proof.
  intros Hi Hno. assert (W !! next_wd k = None) as Hnew.
  { destruct (W !! next_wd k) as [q|] eqn:E; [|done]. apply (wa_wd _ _ HW) in E. lia. }
  split; [|done]. split; cbn [watches set_watches tree next_wd].
  - intros wd. rewrite !lookup_insert_is_Some. pose proof (wa_dom _ _ HW wd). naive_solver.
  - intros wd q [[<- <-]|[Hne Hq]]%lookup_insert_Some.
    + rewrite lookup_insert_eq. split; [by eexists|done].
    + rewrite lookup_insert_ne by done. by apply (wa_tree _ _ HW).
  - intros wd wd' q [[<- <-]|[Hne Hq]]%lookup_insert_Some [[<- E]|[Hne' Hq']]%lookup_insert_Some; try done.
    + by destruct (Hno wd').
    + subst q. by destruct (Hno wd).
    + by apply (wa_inj _ _ HW _ _ q).
  - intros wd q [[<- <-]|[Hne Hq]]%lookup_insert_Some; [pose proof (ko_wd _ Hk)|apply (wa_wd _ _ HW) in Hq]; lia.
Qed.
End Watching.

(** ** States *)

(** The options that print nothing, check nothing and read whole buffers. *)
Definition plain_options (s : wst ikern) : Prop :=
  noisy s = false /\ checkCache s = false /\ dumpCache s = false /\ readBufferSize s = 0.

Record good (W Wc : gmap Z path) (s : wst ikern) : Prop := MkGood {
  g_kern : kern_ok (kern s);
  g_watch : watching W (kern s);
  g_cache : caches (b := base (kern s)) Wc (wlCache s);
  g_names : forall wd p, Wc !! wd = Some p -> path_ok p;
  g_options : plain_options s;
  g_roots : rootDirPaths s = [Some (base (kern s))]
}.

(** The tree and the events are as before. *)
Definition same_tree (s s' : wst ikern) : Prop :=
  tree (kern s') = tree (kern s) /\ base (kern s') = base (kern s) /\ queue (kern s') = queue (kern s).

Lemma same_tree_refl s : same_tree s s.
Proof. done. Qed.

Lemma same_tree_trans s1 s2 s3 : same_tree s1 s2 -> same_tree s2 s3 -> same_tree s1 s3.
Proof. unfold same_tree. intuition congruence. Qed.

Section Specs.
Context {excuse : Prop}.

Lemma runs_findWatch wd (Q : option nat -> wst ikern -> Prop) s :
  Q (fst <$> list_find (fun w => w_wd w = wd) (wlCache s)) s -> runs excuse (findWatch wd) Q s.
Proof. done. Qed.

Lemma add_to_cache W Wc wd p (Q : nat -> wst ikern -> Prop) s :
  good W Wc s -> Wc !! wd = None -> 0 <= wd -> path_ok p -> strlen (render (base (kern s)) p) < PATH_MAX ->
  (forall j s', good W (<[wd := p]> Wc) s' -> kern s' = kern s -> Q j s') ->
  runs excuse (addWatchToCache wd (render (base (kern s)) p)) Q s.
Proof.
  intros HG Hno Hwd Hok Hlen HQ. unfold addWatchToCache, findEmptyCacheSlot. run. run. run.
  destruct HG as [Hk HW HC Hn Ho Hr].
  assert (forall j l, caches (b := base (kern s)) Wc l -> l !! j = Some empty_slot ->
    runs excuse (do! (if strlen (render (base (kern s)) p) <? PATH_MAX then ret tt else fault OutOfBounds) in
                 do! modify (fun s' => set_wlCache (<[j := MkWatch wd (render (base (kern s)) p)]> (wlCache s')) s') in
                 ret j)%prog Q (set_wlCache l s)) as Hend.
  { intros j l HCl Hj. rewrite (proj2 (Z.ltb_lt _ _)) by done. run. run. run. run. run. apply HQ; [|done].
    split; cbn; try done; [by apply caches_insert|].
    intros wd' q [[<- <-]|[_ Hq]]%lookup_insert_Some; [done|by eapply Hn]. }
  destruct (list_find (fun w => w_wd w = -1) (wlCache s)) as [[j w]|] eqn:E.
  - run. apply list_find_Some in E as (Hj & Hw & _).
    assert (w = empty_slot) as ->.
    { destruct (proj1 (Forall_forall _ _) (c_idle _ _ HC) w ltac:(by eapply list_elem_of_lookup_2)) as [|E]; [lia|exact E]. }
    assert (set_wlCache (wlCache s) s = s) as Es by (by destruct s). rewrite <- Es at 2. by apply Hend.
  - run. rewrite (proj1 Ho). run. run. run. run. apply Hend; [by apply caches_more|].
    rewrite lookup_app_r, Nat.sub_diag by done. done.
Qed.

Lemma kern_ok_watches k w n : kern_ok k -> 0 < n -> kern_ok (set_watches w n k).
Proof. intros [H1 H2 H3 H4 H5] Hn. by split. Qed.

(** Visiting a directory that is not watched. *)
Lemma traverse_new W p i (Q : unit -> wst ikern -> Prop) s :
  good W W s -> tree (kern s) !! p = Some i -> (forall wd, W !! wd <> Some p) ->
  (forall s' wd, good (<[wd := p]> W) (<[wd := p]> W) s' -> W !! wd = None -> same_tree s s' -> Q tt s') ->
  runs excuse (traverseTree (render (base (kern s)) p) true) Q s.
Proof.
  intros HG Hi Hno HQ. pose proof HG as [Hk HW HC Hn Ho Hr]. unfold traverseTree, isRootDirPath, findRootDirPath.
  cbn [negb]. repeat run. unfold sys. unfold runs at 1. cbn [inotify_add_watch ikern_inotify].
  rewrite (find_path_some _ _ _ Hk Hi), (unwatched_ino Hk HW _ _ Hi Hno).
  destruct (watching_add Hk HW _ _ Hi Hno) as [HW' Hnew]. pose proof (ko_wd _ Hk) as Hwd.
  run. apply runs_findWatch. cbn [wlCache set_kern]. rewrite (find_unknown HC) by (try done; lia).
  cbn [fmap option_fmap option_map].   run. run. run. destruct (ko_path _ Hk _ _ Hi) as (Hok & Hlen & _).
  set (s1 := set_dirCnt _ _). change (base (kern s)) with (base (kern s1)).
  apply (add_to_cache (<[next_wd (kern s) := p]> W) W); [|done|lia|done|done|].
  - split; cbn; try done. apply kern_ok_watches; [done|lia].
  - intros j s' HG' E. run. apply (HQ s' (next_wd (kern s))); [done|done|]. unfold same_tree. by rewrite E.
Qed.

(** Watching new directories. *)
Lemma traverse_all_new qs W (Q : unit -> wst ikern -> Prop) s :
  good W W s -> NoDup qs -> (forall q, q ∈ qs -> is_Some (tree (kern s) !! q) /\ forall wd, W !! wd <> Some q) ->
  (forall s' W', good W' W' s' -> W ⊆ W' -> (forall q, q ∈ qs -> exists wd, W' !! wd = Some q) -> same_tree s s' -> Q tt s') ->
  runs excuse (traverse_all ((fun q => (render (base (kern s)) q, true)) <$> qs)) Q s.
Proof.
  intros HG Hnd. revert W s HG Q. induction Hnd as [|q qs Hq Hnd IH]; intros W s HG Q Hqs HQ.
  - cbn. apply (HQ s W); [done|done| |done]. by intros q ?%not_elem_of_nil.
  - cbn [fmap list_fmap traverse_all]. run. destruct (Hqs q ltac:(left)) as [[i Hi] Hno].
    apply (traverse_new W q i); [done|done|done|]. intros s1 wd HG1 Hnew Hs1.
    pose proof Hs1 as (Et & Eb & _). rewrite <- Eb. apply (IH (<[wd := q]> W)); [done| |].
    + intros q' Hq'. rewrite Et. destruct (Hqs q' ltac:(by right)) as [Hi' Hno']. split; [done|].
      intros wd' [[_ <-]|[_ Hw]]%lookup_insert_Some; [done|by apply (Hno' wd')].
    + intros s2 W2 HG2 Hsub Hall Hs2. apply (HQ s2 W2); [done| | |by eapply same_tree_trans].
      * etrans; [|exact Hsub]. by apply insert_subseteq.
      * intros q' [->|Hq']%elem_of_cons; [|by apply Hall].
        exists wd. eapply lookup_weaken; [|exact Hsub]. apply lookup_insert_eq.
Qed.

Definition dirs_below (p : path) (k : ikern) : list path :=
  fst <$> filter (fun qi => p `prefix_of` fst qi) (map_to_list (tree k)).

Lemma elem_of_dirs_below p k q : q ∈ dirs_below p k <-> is_Some (tree k !! q) /\ p `prefix_of` q.
Proof.
  unfold dirs_below. rewrite list_elem_of_fmap. split.
  - intros ([q' i] & -> & [Hpre Hin]%list_elem_of_filter). apply elem_of_map_to_list in Hin. split; [by eexists|done].
  - intros [[i Hi] Hpre]. exists (q, i). split; [done|]. apply list_elem_of_filter. split; [done|]. by apply elem_of_map_to_list.
Qed.

Lemma NoDup_dirs_below p k : NoDup (dirs_below p k).
Proof.
  unfold dirs_below. apply (sublist_NoDup _ (fst <$> map_to_list (tree k))); [apply NoDup_fst_map_to_list|].
  apply fmap_sublist, sublist_filter.
Qed.

(** Watching a subtree that is new. *)
Lemma watchSubtree_new W p (Q : unit -> wst ikern -> Prop) s :
  good W W s -> is_Some (tree (kern s) !! p) -> (forall wd q, W !! wd = Some q -> ~ p `prefix_of` q) ->
  (forall s' W', good W' W' s' -> W ⊆ W' ->
    (forall q, is_Some (tree (kern s) !! q) -> p `prefix_of` q -> exists wd, W' !! wd = Some q) -> same_tree s s' -> Q tt s') ->
  runs excuse (watchSubtree (render (base (kern s)) p)) Q s.
Proof.
  intros HG [i Hi] Hno HQ. unfold watchSubtree, watchDir. run. run. run. run. run. run.
  cbn [nftw ikern_inotify kern set_dirCnt]. rewrite (find_path_some _ _ _ (g_kern _ _ _ HG) Hi).
  assert ((fun qi => (render (base (kern s)) (fst qi), true)) <$> filter (fun qi => p `prefix_of` fst qi) (map_to_list (tree (kern s)))
    = (fun q => (render (base (kern s)) q, true)) <$> dirs_below p (kern s)) as E.
  { unfold dirs_below. by rewrite <- list_fmap_compose. }
  rewrite E. set (s1 := set_dirCnt 0 s). change (base (kern s)) with (base (kern s1)).
  apply (traverse_all_new _ W); [|apply NoDup_dirs_below| |].
  - destruct HG. by split.
  - intros q [Hq Hpre]%elem_of_dirs_below. split; [done|]. intros wd Hwd. by apply (Hno _ _ Hwd).
  - intros s2 W2 HG2 Hsub Hall Hs2. run. run. apply (HQ s2 W2); [done|done| |done].
    intros q Hq Hpre. apply Hall, elem_of_dirs_below. done.
Qed.

(** ** Dropping a subtree *)

Definition settings (s : wst ikern) :=
  (rootDirPaths s, verboseMask s, logfp s, checkCache s, dumpCache s, readBufferSize s).

Lemma plain_settings s s' : settings s' = settings s -> plain_options s -> plain_options s'.
Proof. unfold settings, plain_options, noisy. intros [= E1 E2 E3 E4 E5 E6]. by rewrite E2, E3, E4, E5, E6. Qed.

(** A report that a watch ended. *)
Definition ignored (ev : inotify_event) : Prop := exists wd, ev = self_event wd IN_IGNORED.

(** The kernel after the watches of [W] that are not in [W'] were removed. *)
Record dropped (W W' : gmap Z path) (s s' : wst ikern) : Prop := MkDropped {
  d_kern : exists w evs, kern s' = set_queue (queue (kern s) ++ evs) (set_watches w (next_wd (kern s)) (kern s)) /\
    Forall ignored evs /\ (length evs + size W' <= size W)%nat /\ (forall wd, is_Some (w !! wd) <-> is_Some (W' !! wd)) /\
    (forall wd, is_Some (W' !! wd) -> w !! wd = watches (kern s) !! wd);
  d_settings : settings s' = settings s
}.

(** The directories [W] without those at or below [a]. *)
Definition without (a : path) (W : gmap Z path) : gmap Z path := filter (fun wp => ~ a `prefix_of` snd wp) W.

Lemma without_delete a W wd p : W !! wd = Some p -> a `prefix_of` p -> without a (delete wd W) = without a W.
Proof.
  intros Hp Ha. apply map_eq. intros wd'. unfold without. apply option_eq. intros q.
  rewrite !map_lookup_filter_Some. cbn. destruct (decide (wd' = wd)) as [->|Hne].
  - rewrite lookup_delete_eq. split; [by intros [? _]|]. intros [Hq Hno]. assert (q = p) as -> by congruence. done.
  - by rewrite lookup_delete_ne.
Qed.

Lemma without_id a W : (forall wd p, W !! wd = Some p -> ~ a `prefix_of` p) -> without a W = W.
Proof. intros Hno. apply map_filter_id. intros wd p Hp. by apply (Hno wd). Qed.

Lemma zap_slots_spec p0 n0 n j W cnt (Q : Z -> wst ikern -> Prop) s :
  let a := p0 ++ [n0] in let b := base (kern s) in
  path_ok a -> caches (b := b) W (wlCache s) -> (forall wd p, W !! wd = Some p -> path_ok p) ->
  (forall wd, is_Some (watches (kern s) !! wd) <-> is_Some (W !! wd)) ->
  length (wlCache s) = (j + n)%nat -> 0 <= cnt ->
  (forall i w, (i < j)%nat -> wlCache s !! i = Some w -> 0 <= w_wd w -> tail_under (render b a) (w_path w) = None) ->
  (forall s' cnt', 0 <= cnt' -> caches (b := b) (without a W) (wlCache s') -> dropped W (without a W) s s' -> Q cnt' s') ->
  runs excuse (zap_slots (render b a) (seq j n) cnt) Q s.
Proof.
  intros a b Ha. revert j W cnt s b. induction n as [|n IH]; intros j W cnt s b HC HW Hdom Hlen Hcnt Hdone HQ; cbn [seq zap_slots].
  - run. assert (without a W = W) as E.
    { apply without_id. intros wd p Hp Hpre. destruct (caches_in HC _ _ Hp) as [Hin Hwd].
      apply list_elem_of_lookup in Hin as [i Hi]. pose proof (lookup_lt_Some _ _ _ Hi).
      pose proof (Hdone i _ ltac:(lia) Hi Hwd) as Hno. cbn in Hno.
      rewrite tail_under_render in Hno by (try done; by eapply HW). by rewrite decide_True in Hno. }
    apply HQ; [done|by rewrite E|]. rewrite E. split; [|done]. exists (watches (kern s)), [].
    rewrite app_nil_r. split; [by destruct (kern s)|]. split; [done|]. done.
  - run. run. destruct (lookup_lt_is_Some_2 (wlCache s) j) as [w Hw]; [lia|]. rewrite Hw.
    destruct ((0 <=? w_wd w) && bool_decide (is_Some (tail_under (render b a) (w_path w)))) eqn:E.
    + apply andb_prop in E as [Hwd%Z.leb_le Hun%bool_decide_eq_true]. destruct w as [wd t]. cbn in Hwd, Hun.
      destruct (caches_slot HC wd t ltac:(by eapply list_elem_of_lookup_2) Hwd) as (p & Hp & Et). subst t.
      rewrite tail_under_render in Hun by (try done; by eapply HW).
      destruct (decide (a `prefix_of` p)) as [Hpre|]; [|by destruct Hun].
      run. unfold sys. unfold runs at 1. cbn [inotify_rm_watch ikern_inotify w_wd].
      destruct (proj2 (Hdom wd) ltac:(by eexists)) as [i Hi]. rewrite Hi. run. unfold markCacheSlotEmpty. run.
      set (s1 := set_wlCache _ _). change b with (base (kern s1)).
      apply (IH (S j) (delete wd W)); cbn [wlCache s1 set_wlCache set_kern kern base set_queue set_watches watches].
      * by eapply caches_clear.
      * intros wd' q Hq. apply lookup_delete_Some in Hq as [_ Hq]. by eapply HW.
      * intros wd'. pose proof (Hdom wd') as Hd. destruct (decide (wd' = wd)) as [->|Hne]; [by rewrite !lookup_delete_eq|].
        by rewrite !lookup_delete_ne.
      * rewrite length_insert. lia.
      * lia.
      * intros i' w' Hi' Hw' Hwd'. destruct (decide (i' = j)) as [->|Hne].
        { rewrite list_lookup_insert_eq in Hw' by (by eapply lookup_lt_Some). injection Hw' as <-. cbn in Hwd'. lia. }
        rewrite list_lookup_insert_ne in Hw' by done. apply (Hdone i' w'); [lia|done|done].
      * intros s2 cnt2 Hc2 HC2 [(w2 & evs & Ek & Hevs & Hl2 & Hd2 & Hv2) Hs2].
        rewrite (without_delete _ _ _ _ Hp Hpre) in *. apply HQ; [done|done|]. split; [|exact Hs2].
        exists w2, (self_event wd IN_IGNORED :: evs). rewrite Ek. cbn. rewrite <- (assoc_L (++)). split; [done|].
        split; [constructor; [by eexists|done]|]. split.
        { rewrite map_size_delete, Hp in Hl2. pose proof (map_size_ne_0_lookup_2 W wd ltac:(by eexists)). cbn [length]. lia. }
        split; [done|]. intros wd' Hs'. rewrite Hv2 by done. cbn.
        apply lookup_delete_ne. intros <-. destruct Hs' as [q Hq]. apply map_lookup_filter_Some in Hq as [Hq Hno].
        by simplify_eq.
    + apply (IH (S j) W); try done; [lia|]. intros i w' Hi Hw' Hwd'. destruct (decide (i = j)) as [->|Hne].
      * rewrite Hw in Hw'. injection Hw' as <-. rewrite (proj2 (Z.leb_le _ _)) in E by done. cbn [andb] in E.
        apply bool_decide_eq_false in E. by apply eq_None_not_Some.
      * apply (Hdone i w'); [lia|done|done].
Qed.

Lemma zapSubtree_spec p0 n0 W (Q : Z -> wst ikern -> Prop) s :
  let a := p0 ++ [n0] in let b := base (kern s) in
  path_ok a -> caches (b := b) W (wlCache s) -> (forall wd p, W !! wd = Some p -> path_ok p) ->
  (forall wd, is_Some (watches (kern s) !! wd) <-> is_Some (W !! wd)) ->
  (forall s' cnt', 0 <= cnt' -> caches (b := b) (without a W) (wlCache s') -> dropped W (without a W) s s' -> Q cnt' s') ->
  runs excuse (zapSubtree (render b a)) Q s.
Proof.
  intros a b Ha HC HW Hdom HQ. unfold zapSubtree. run. run.
  apply (zap_slots_spec p0 n0 _ 0 W); try done. intros; lia.
Qed.
End Specs.
