(* ===== verification/DirEvents.v ===== *)
(** * What the watcher does with an event

    For each kind of event: from a state where the cache holds [Wc], processing the event
    leaves a cache that holds the directories after it. *)

From S2P Require Import Prelude Prog Process CLib DirWatch DirPaths DirKernel DirCache DirTrack.
From Stdlib Require Import Ascii.
Local Open Scope Z_scope.

Section Events.
Context {excuse : Prop}.

Lemma render_base_neq b p n : render b (p ++ [n]) <> b.
Proof.
  intros E. assert (render b (p ++ [n]) = render b []) as E' by (cbn; unfold render; cbn; by rewrite append_nil_r).
  unfold render in E'. apply append_inj_l in E'. rewrite below_app in E'. apply (f_equal String.length) in E'.
  rewrite length_append in E'. cbn [below String.length] in E'. lia.
Qed.

Lemma not_root (Q : bool -> wst ikern -> Prop) s p n :
  rootDirPaths s = [Some (base (kern s))] -> Q false s ->
  runs excuse (isRootDirPath (render (base (kern s)) (p ++ [n]))) Q s.
Proof.
  intros Hr HQ. unfold isRootDirPath, findRootDirPath. repeat run. rewrite Hr. cbn [list_find].
  rewrite decide_False by (intros [= E]; by apply (render_base_neq (base (kern s)) p n)). exact HQ.
Qed.

Lemma runs_after c (Q : consumed -> wst ikern -> Prop) s :
  plain_options s -> Q c s -> runs excuse (after_event c) Q s.
Proof. intros (_ & Hc & Hd & _) HQ. unfold after_event. run. run. rewrite Hc, Hd. by repeat run. Qed.

Lemma runs_slot_path j w (Q : string -> wst ikern -> Prop) s :
  wlCache s !! j = Some w -> Q (w_path w) s -> runs excuse (slot_path (Some j)) Q s.
Proof. intros Hj HQ. unfold slot_path. run. run. by rewrite Hj. Qed.

Lemma runs_find_checked W Wc wd p (Q : option nat -> wst ikern -> Prop) s :
  good W Wc s -> Wc !! wd = Some p ->
  (forall j, wlCache s !! j = Some (MkWatch wd (render (base (kern s)) p)) -> Q (Some j) s) ->
  runs excuse (findWatchChecked wd) Q s.
Proof.
  intros HG Hp HQ. unfold findWatchChecked. run. apply runs_findWatch.
  destruct (find_known (g_cache _ _ _ HG) _ _ Hp) as (j & E & Hj). rewrite E. cbn [fmap option_fmap option_map fst]. run. by apply HQ.
Qed.

Lemma process_known W Wc ev rest rem ft p (Q : consumed -> wst ikern -> Prop) s :
  good W Wc s -> Wc !! ev_wd ev = Some p -> has ev IN_IGNORED = false ->
  (forall j, wlCache s !! j = Some (MkWatch (ev_wd ev) (render (base (kern s)) p)) ->
    runs excuse (dispatch (Some j) ev rest rem ft) Q s) ->
  runs excuse (processNextInotifyEvent (ev :: rest) rem ft) Q s.
Proof.
  intros HG Hp Hi HQ. unfold processNextInotifyEvent. rewrite Hi.
  destruct (caches_in (g_cache _ _ _ HG) _ _ Hp) as [_ Hwd].
  rewrite (proj2 (Z.eqb_neq _ _)) by lia. cbn [negb andb]. run.
  by apply (runs_find_checked W Wc _ p).
Qed.

(** A directory that is new, or was moved into the tree. *)
Lemma created_spec W ev rest rem ft p n (Q : consumed -> wst ikern -> Prop) s :
  let a := p ++ [n] in
  good W W s -> W !! ev_wd ev = Some p -> ev_name ev = n ->
  ev_mask ev = Z.lor IN_CREATE IN_ISDIR \/ ev_mask ev = Z.lor IN_MOVED_TO IN_ISDIR ->
  is_Some (tree (kern s) !! a) -> (forall wd q, W !! wd = Some q -> ~ a `prefix_of` q) ->
  (forall s' W', good W' W' s' -> W ⊆ W' ->
    (forall q, is_Some (tree (kern s) !! q) -> a `prefix_of` q -> exists wd, W' !! wd = Some q) ->
    same_tree s s' -> Q (Took 1) s') ->
  runs excuse (processNextInotifyEvent (ev :: rest) rem ft) Q s.
Proof.
  intros a HG Hp Hn Hm Ha Hno HQ. pose proof (g_options _ _ _ HG) as Ho.
  apply (process_known W W _ _ _ _ p); [done|done|by unfold has; destruct Hm as [-> | ->]|].
  intros j Hj. unfold dispatch. replace (has ev IN_ISDIR && has ev (Z.lor IN_CREATE IN_MOVED_TO)) with true
    by (unfold has; by destruct Hm as [-> | ->]).
  destruct Ha as [i Hi]. destruct (ko_path _ (g_kern _ _ _ HG) _ _ Hi) as (Hok & Hlen & _).
  unfold created. run. eapply runs_slot_path; [exact Hj|]. cbn [w_path]. rewrite Hn, slash_render. fold a.
  rewrite snprintf_fits by (unfold NAME_MAX; lia). unfold pathnameInCache, pathnameToCacheSlot. repeat run.
  rewrite (find_path_unknown (g_cache _ _ _ HG)); [|done|].
  - cbn [fmap option_fmap option_map]. rewrite bool_decide_eq_false_2 by (by intros [? ?]).
    apply (watchSubtree_new W); [done|by eexists|done|].
    intros s' W' HG' Hsub Hall Hs. cbv beta. apply runs_after; [apply HG'|]. by apply (HQ s' W').
  - intros wd q Hq. split; [by eapply (g_names _ _ _ HG)|]. intros ->. by apply (Hno _ _ Hq).
Qed.

(** A directory that was removed. *)
Lemma deleted_spec W Wc ev rest rem ft p n (Q : consumed -> wst ikern -> Prop) s :
  good W Wc s -> Wc !! ev_wd ev = Some (p ++ [n]) -> ev_mask ev = Z.lor IN_DELETE_SELF IN_ISDIR ->
  (forall s', good W (delete (ev_wd ev) Wc) s' -> kern s' = kern s -> Q (Took 1) s') ->
  runs excuse (processNextInotifyEvent (ev :: rest) rem ft) Q s.
Proof.
  intros HG Hp Hm HQ. apply (process_known W Wc _ _ _ _ (p ++ [n])); [done|done|by unfold has; rewrite Hm|].
  intros j Hj. unfold dispatch.
  replace (has ev IN_ISDIR && has ev (Z.lor IN_CREATE IN_MOVED_TO)) with false by (by unfold has; rewrite Hm).
  replace (has ev IN_DELETE_SELF) with true by (by unfold has; rewrite Hm).
  unfold deleted. run. eapply runs_slot_path; [exact Hj|]. cbn [w_path]. run. apply not_root; [apply HG|].
  run. run. run. unfold clear_slot, markCacheSlotEmpty. run.
  destruct (caches_in (g_cache _ _ _ HG) _ _ Hp) as [_ Hwd].
  assert (good W (delete (ev_wd ev) Wc) (set_wlCache (<[j:=empty_slot]> (wlCache s)) s)) as HG'.
  { destruct HG as [Hk HW HC Hn Ho Hr]. split; try done.
    - by eapply caches_clear.
    - intros wd q [_ Hq]%lookup_delete_Some. by eapply Hn. }
  apply runs_after; [apply HG'|]. by apply HQ.
Qed.

(** A report that a watch ended. *)
Lemma ignored_spec ev rest rem ft (Q : consumed -> wst ikern -> Prop) s :
  plain_options s -> ignored ev -> Q (Took 1) s ->
  runs excuse (processNextInotifyEvent (ev :: rest) rem ft) Q s.
Proof.
  intros Ho [wd ->] HQ. unfold processNextInotifyEvent.
  replace (has (self_event wd IN_IGNORED) IN_IGNORED) with true by done. rewrite andb_false_r.
  unfold dispatch, has. cbn [ev_mask self_event].
  change (negb (Z.land IN_IGNORED IN_ISDIR =? 0)) with false. cbn [andb].
  change (negb (Z.land IN_IGNORED IN_DELETE_SELF =? 0)) with false.
  change (Z.land IN_IGNORED (Z.lor IN_MOVED_FROM IN_ISDIR) =? Z.lor IN_MOVED_FROM IN_ISDIR) with false.
  change (negb (Z.land IN_IGNORED IN_Q_OVERFLOW =? 0)) with false.
  change (negb (Z.land IN_IGNORED IN_UNMOUNT =? 0)) with false.
  change (negb (Z.land IN_IGNORED IN_MOVE_SELF =? 0)) with false.
  by apply runs_after.
Qed.

Lemma dispatch_moved_from j ev rest rem ft (Q : consumed -> wst ikern -> Prop) s :
  ev_mask ev = Z.lor IN_MOVED_FROM IN_ISDIR -> runs excuse (moved_from (Some j) ev rest rem ft) Q s ->
  runs excuse (dispatch (Some j) ev rest rem ft) Q s.
Proof.
  intros Hm HQ. unfold dispatch.
  replace (has ev IN_ISDIR && has ev (Z.lor IN_CREATE IN_MOVED_TO)) with false by (by unfold has; rewrite Hm).
  replace (has ev IN_DELETE_SELF) with false by (by unfold has; rewrite Hm). by rewrite Hm.
Qed.

(** Both halves of a rename. *)
Lemma renamed_spec W Wc ev ev2 rest rem ft p n q m (Q : consumed -> wst ikern -> Prop) s :
  let a := p ++ [n] in let b := q ++ [m] in
  good W Wc s -> Wc !! ev_wd ev = Some p -> Wc !! ev_wd ev2 = Some q ->
  ev_name ev = n -> ev_name ev2 = m ->
  ev_mask ev = Z.lor IN_MOVED_FROM IN_ISDIR -> ev_mask ev2 = Z.lor IN_MOVED_TO IN_ISDIR ->
  ev_cookie ev = ev_cookie ev2 -> ev_size ev < rem ->
  path_ok a -> path_ok b -> strlen (render (base (kern s)) a) < PATH_MAX -> strlen (render (base (kern s)) b) < PATH_MAX ->
  (forall wd r, Wc !! wd = Some r -> strlen (render (base (kern s)) (moved a b r)) < PATH_MAX) ->
  (forall s', good W (moved a b <$> Wc) s' -> kern s' = kern s -> Q (Took 2) s') ->
  runs excuse (processNextInotifyEvent (ev :: ev2 :: rest) rem ft) Q s.
Proof.
  intros a b HG Hp Hq Hn Hn2 Hm Hm2 Hc Hsz Ha Hb Hla Hlb Hfit HQ.
  apply (process_known W Wc _ _ _ _ p); [done|done|by unfold has; rewrite Hm|].
  intros j Hj. apply dispatch_moved_from; [done|]. unfold moved_from. rewrite (proj2 (Z.ltb_lt _ _)) by done.
  replace (has ev2 IN_MOVED_TO && (ev_cookie ev2 =? ev_cookie ev)) with true
    by (rewrite Hc, Z.eqb_refl; by unfold has; rewrite Hm2).
  run. apply (runs_find_checked W Wc _ q); [done|done|]. intros j2 Hj2. run.
  eapply runs_slot_path; [exact Hj|]. run. eapply runs_slot_path; [exact Hj2|]. cbn [w_path]. run.
  unfold rewriteCachedPaths. rewrite Hn, Hn2, !slash_render. fold a b. rewrite !snprintf_fits by done. run.
  set (s1 := set_wlCache _ s). assert (good W (moved a b <$> Wc) s1) as HG'.
  { destruct HG as [Hk HW HC Hnm Ho Hr]. split; try done.
    - apply (caches_rename HC); [done|]. intros wd r Hr'. split; [by eapply Hnm|by eapply Hfit].
    - intros wd r Hr'. rewrite lookup_fmap in Hr'. apply fmap_Some in Hr' as (r' & Hr' & ->).
      pose proof (Hnm _ _ Hr') as Hok. unfold moved. destruct (decide _); [|done].
      apply Forall_app. split; [exact Hb|by apply Forall_drop]. }
  apply runs_after; [apply HG'|]. by apply HQ.
Qed.

(** The first half of a rename to the outside, when the second was waited for. *)
Lemma moved_out_spec W p n ev rest rem (Q : consumed -> wst ikern -> Prop) s :
  let a := p ++ [n] in
  plain_options s -> caches (b := base (kern s)) W (wlCache s) ->
  (forall wd r, W !! wd = Some r -> path_ok r) -> path_ok a -> strlen (render (base (kern s)) a) < PATH_MAX ->
  (forall wd, is_Some (watches (kern s) !! wd) <-> is_Some (W !! wd)) ->
  W !! ev_wd ev = Some p -> ev_name ev = n -> ev_mask ev = Z.lor IN_MOVED_FROM IN_ISDIR ->
  rem <= ev_size ev ->
  (forall s', caches (b := base (kern s)) (without a W) (wlCache s') -> dropped W (without a W) s s' -> Q (Took 1) s') ->
  runs excuse (processNextInotifyEvent (ev :: rest) rem false) Q s.
Proof.
  intros a Ho HC Hnm Ha Hla Hdom Hp Hn Hm Hrem HQ. unfold processNextInotifyEvent.
  replace (has ev IN_IGNORED) with false by (by unfold has; rewrite Hm).
  destruct (caches_in HC _ _ Hp) as [_ Hwd]. rewrite (proj2 (Z.eqb_neq _ _)) by lia. cbn [negb andb]. run.
  unfold findWatchChecked. run. apply runs_findWatch.
  destruct (find_known HC _ _ Hp) as (j & E & Hj). rewrite E. cbn [fmap option_fmap option_map fst]. run.
  apply dispatch_moved_from; [done|]. unfold moved_from. rewrite (proj2 (Z.ltb_ge _ _)) by done.
  unfold moved_out. run. eapply runs_slot_path; [exact Hj|]. cbn [w_path]. rewrite Hn, slash_render. fold a.
  rewrite snprintf_fits by (unfold NAME_MAX; lia). run.
  apply (zapSubtree_spec p n W); [done..|]. intros s' cnt Hcnt HC' Hd. cbv beta.
  rewrite (proj2 (Z.eqb_neq _ _)) by lia. apply runs_after; [|by apply HQ].
  eapply plain_settings; [apply (d_settings _ _ _ _ Hd)|done].
Qed.
(** The first time, the second half is waited for. *)
Lemma hanging_spec W p ev rest rem (Q : consumed -> wst ikern -> Prop) s :
  caches (b := base (kern s)) W (wlCache s) -> W !! ev_wd ev = Some p ->
  ev_mask ev = Z.lor IN_MOVED_FROM IN_ISDIR -> rem <= ev_size ev -> Q Again s ->
  runs excuse (processNextInotifyEvent (ev :: rest) rem true) Q s.
Proof.
  intros HC Hp Hm Hrem HQ. unfold processNextInotifyEvent.
  replace (has ev IN_IGNORED) with false by (by unfold has; rewrite Hm).
  destruct (caches_in HC _ _ Hp) as [_ Hwd]. rewrite (proj2 (Z.eqb_neq _ _)) by lia. cbn [negb andb]. run.
  unfold findWatchChecked. run. apply runs_findWatch.
  destruct (find_known HC _ _ Hp) as (j & E & Hj). rewrite E. cbn [fmap option_fmap option_map fst]. run.
  apply dispatch_moved_from; [done|]. unfold moved_from. rewrite (proj2 (Z.ltb_ge _ _)) by done. by run.
Qed.
End Events.
