(* ===== verification/DirChange.v ===== *)
(** * Changes of the tree, seen from the kernel

    What a change leaves: a kernel that is still in order, watches on the directories where
    they are now, and the events that tell of it. *)

From S2P Require Import Prelude Prog Process CLib DirWatch DirPaths DirKernel DirCache DirTrack.
From Stdlib Require Import Ascii.
Local Open Scope Z_scope.

Lemma notify_some p mask cookie n k i wd :
  tree k !! p = Some i -> wd_of i k = Some wd ->
  notify p mask cookie n k = set_queue (queue k ++ [MkEvent wd mask cookie (name_len n) n]) k.
Proof. intros Hp Hwd. unfold notify. rewrite Hp. cbn. by rewrite Hwd. Qed.

Lemma notify_frame p mask cookie n k :
  base (notify p mask cookie n k) = base k /\ watches (notify p mask cookie n k) = watches k /\
  next_wd (notify p mask cookie n k) = next_wd k /\ next_ino (notify p mask cookie n k) = next_ino k /\
  tree (notify p mask cookie n k) = tree k.
Proof. unfold notify. by destruct (_ ≫= _). Qed.

Lemma closed_prefix k p x : kern_ok k -> is_Some (tree k !! (p ++ x)) -> is_Some (tree k !! p).
Proof.
  intros Hk. induction x as [|n x IH] using rev_ind; [by rewrite app_nil_r|].
  rewrite (assoc_L (++)). intros Hs. apply IH. by eapply (ko_closed _ Hk).
Qed.

Lemma leaf_spec p k q : leaf p k = true -> is_Some (tree k !! q) -> p `prefix_of` q -> q = p.
Proof.
  unfold leaf. intros E%bool_decide_eq_true [i Hi] Hpre. destruct (decide (q = p)) as [|Hne]; [done|].
  assert ((q, i) ∈ filter (fun qi => p `prefix_of` fst qi /\ fst qi <> p) (map_to_list (tree k))) as Hin.
  { apply list_elem_of_filter. split; [done|]. by apply elem_of_map_to_list. }
  rewrite E in Hin. by apply not_elem_of_nil in Hin.
Qed.

Lemma snoc_not_prefix (p : path) n : ~ (p ++ [n]) `prefix_of` p.
Proof. intros [x E]. apply (f_equal length) in E. rewrite !length_app in E. cbn in E. lia. Qed.

(** ** New directories *)

Lemma grow_frame ps k :
  base (grow ps k) = base k /\ watches (grow ps k) = watches k /\ next_wd (grow ps k) = next_wd k /\
  next_cookie (grow ps k) = next_cookie k /\ queue (grow ps k) = queue k /\
  (forall q, q ∉ ps -> tree (grow ps k) !! q = tree k !! q) /\ (forall q, q ∈ ps -> is_Some (tree (grow ps k) !! q)).
Proof.
  revert k. induction ps as [|p ps IH]; intros k; cbn [grow].
  - repeat split; try done. by intros q ?%not_elem_of_nil.
  - destruct (IH (set_tree (<[p := next_ino k]> (tree k)) (S (next_ino k)) k)) as (E1 & E2 & E3 & E4 & E5 & E6 & E7).
    repeat split; try done.
    + intros q [Hq Hps]%not_elem_of_cons. rewrite E6 by done. cbn. by rewrite lookup_insert_ne.
    + intros q [->|Hq]%elem_of_cons; [|by apply E7].
      destruct (decide (p ∈ ps)) as [Hp|Hp]; [by apply E7|]. rewrite E6 by done. cbn. by rewrite lookup_insert_eq.
Qed.

Lemma grow_numbers ps k :
  (forall q i, tree k !! q = Some i -> (i < next_ino k)%nat) ->
  (forall p q i, tree k !! p = Some i -> tree k !! q = Some i -> p = q) ->
  (forall q i, tree (grow ps k) !! q = Some i -> (i < next_ino (grow ps k))%nat) /\
  (forall p q i, tree (grow ps k) !! p = Some i -> tree (grow ps k) !! q = Some i -> p = q).
Proof.
  revert k. induction ps as [|p ps IH]; intros k Hlt Hinj; cbn [grow]; [done|].
  apply IH; cbn [tree set_tree next_ino].
  - intros q i [[_ <-]|[_ Hq]]%lookup_insert_Some; [lia|]. apply Hlt in Hq. lia.
  - intros p1 q1 i [[<- <-]|[Hp Hp1]]%lookup_insert_Some [[<- E]|[Hq Hq1]]%lookup_insert_Some; try done.
    + apply Hlt in Hq1. lia.
    + subst i. apply Hlt in Hp1. lia.
    + by apply (Hinj _ _ i).
Qed.

Lemma grow_ok ps k :
  kern_ok k -> (forall q, q ∈ ps -> path_ok q /\ strlen (render (base k) q) < PATH_MAX) ->
  (forall q n, q ++ [n] ∈ ps -> q ∈ ps \/ is_Some (tree k !! q)) -> (forall q, q ∈ ps -> tree k !! q = None) ->
  kern_ok (grow ps k).
Proof.
  intros Hk Hps Hcl Hnew. destruct (grow_frame ps k) as (Eb & _ & Ew & _ & _ & Eold & Egot).
  destruct (grow_numbers ps k) as [Hlt Hinj].
  { intros q i Hq. by apply (ko_path _ Hk) in Hq as (_ & _ & ?). } { apply (ko_inj _ Hk). }
  assert (forall q, is_Some (tree k !! q) -> is_Some (tree (grow ps k) !! q)) as Hmono.
  { intros q Hq. rewrite Eold; [done|]. intros Hin. rewrite (Hnew _ Hin) in Hq. by destruct Hq. }
  split.
  - apply Hmono, (ko_root _ Hk).
  - intros q i Hq. rewrite Eb. split; [|split; [|by eapply Hlt]]; destruct (decide (q ∈ ps)) as [Hin|Hin];
      try (by apply Hps); rewrite Eold in Hq by done; by apply (ko_path _ Hk) in Hq as (? & ? & _).
  - intros q n Hq. destruct (decide (q ++ [n] ∈ ps)) as [Hin|Hin].
    + destruct (Hcl _ _ Hin) as [?|?]; [by apply Egot|by apply Hmono].
    + rewrite Eold in Hq by done. apply Hmono. by eapply (ko_closed _ Hk).
  - exact Hinj.
  - rewrite Ew. apply (ko_wd _ Hk).
Qed.

(** ** Renames *)

Section Moved.
Context {k : ikern} {p q : path} {n m : string}.
Let a := p ++ [n].
Let b := q ++ [m].
Context (Hk : kern_ok k) (Ha : is_Some (tree k !! a)) (Hq : is_Some (tree k !! q)) (Hleaf : leaf b k = true)
  (Hab : ~ a `prefix_of` b) (Hba : ~ b `prefix_of` a).
#[local] Set Default Proof Using "Type*".

Lemma moved_below x : moved a b (a ++ x) = b ++ x.
Proof. unfold moved. rewrite decide_True by (by apply prefix_app_r). by rewrite drop_app_length. Qed.

Lemma moved_else r : ~ a `prefix_of` r -> moved a b r = r.
Proof. intros Hr. unfold moved. by rewrite decide_False. Qed.

(** Two directories, but for the one that is replaced, do not get the same path. *)
Lemma moved_inj r1 r2 :
  is_Some (tree k !! r1) -> is_Some (tree k !! r2) -> r1 <> b -> r2 <> b -> moved a b r1 = moved a b r2 -> r1 = r2.
Proof.
  assert (forall x r, is_Some (tree k !! r) -> r <> b -> b ++ x <> r) as Hno.
  { intros x r Hr Hne E. apply Hne. apply (leaf_spec b k); [done|done|]. by exists x. }
  intros H1 H2 N1 N2 E.
  destruct (decide (a `prefix_of` r1)) as [[x ->]|P1], (decide (a `prefix_of` r2)) as [[y ->]|P2];
    rewrite ?moved_below, ?moved_else in E by done.
  - by apply (inj (app b)) in E as ->.
  - by destruct (Hno x r2 H2 N2).
  - by destruct (Hno y r1 H1 N1).
  - done.
Qed.

Definition renamed_tree : gmap path nat := list_to_map (prod_map (moved a b) id <$> map_to_list (delete b (tree k))).

Lemma renamed_lookup r i :
  renamed_tree !! r = Some i <-> exists r0, tree k !! r0 = Some i /\ r0 <> b /\ r = moved a b r0.
Proof.
  unfold renamed_tree. rewrite <- elem_of_list_to_map.
  - rewrite list_elem_of_fmap. split.
    + intros ([r0 i0] & [= -> ->] & Hin). apply elem_of_map_to_list, lookup_delete_Some in Hin as [Hne Hr].
      by exists r0.
    + intros (r0 & Hr & Hne & ->). exists (r0, i). split; [done|]. apply elem_of_map_to_list.
      by rewrite lookup_delete_ne.
  - rewrite <- list_fmap_compose.
    assert (NoDup ((fst <$> map_to_list (delete b (tree k))) : list path)) as Hnd by apply NoDup_fst_map_to_list.
    assert (forall x, x ∈ (fst <$> map_to_list (delete b (tree k))) -> is_Some (tree k !! x) /\ x <> b) as Hin.
    { intros x ([x' i0] & -> & Hx)%list_elem_of_fmap. apply elem_of_map_to_list, lookup_delete_Some in Hx as [Hne Hx].
      split; [by eexists|]. cbn. congruence. }
    replace ((fst ∘ prod_map (moved a b) id) <$> map_to_list (delete b (tree k)))
      with (moved a b <$> (fst <$> map_to_list (delete b (tree k)))) by (by rewrite <- list_fmap_compose).
    apply NoDup_fmap_2_strong; [|done]. intros x y [Hx Nx]%Hin [Hy Ny]%Hin. by apply moved_inj.
Qed.

Lemma renamed_ok :
  path_ok b -> (forall r, is_Some (tree k !! r) -> strlen (render (base k) (moved a b r)) < PATH_MAX) ->
  kern_ok (set_tree renamed_tree (next_ino k) k).
Proof.
  intros Hok Hfit. split; cbn [tree set_tree base next_ino next_wd].
  - destruct (ko_root _ Hk) as [i Hi]. exists i. apply renamed_lookup. exists []. split; [done|].
    split; [by destruct q|]. rewrite moved_else; [done|]. intros [x E]. by destruct p.
  - intros r i (r0 & Hr & Hne & ->)%renamed_lookup. destruct (ko_path _ Hk _ _ Hr) as (Hok0 & _ & Hlt).
    split; [|split; [apply Hfit; by eexists|done]]. unfold moved. destruct (decide _); [|done].
    apply Forall_app. split; [done|by apply Forall_drop].
  - intros r nm [i (r0 & Hr & Hne & E)%renamed_lookup].
    assert (forall r1, is_Some (tree k !! r1) -> r1 <> b -> is_Some (renamed_tree !! moved a b r1)) as Hgot.
    { intros r1 [i1 Hi1] Hne1. exists i1. apply renamed_lookup. by exists r1. }
    destruct (decide (a `prefix_of` r0)) as [[x ->]|P0].
    + rewrite moved_below in E. destruct x as [|nx x _] using rev_ind.
      * rewrite app_nil_r in E. apply app_inj_tail in E as [-> _].
        rewrite <- (moved_else q); [|intros [x Ex]; apply Hab; exists (x ++ [m]); unfold b; by rewrite Ex, <- (assoc_L (++))].
        apply Hgot; [done|]. intros Eb. apply (f_equal length) in Eb. unfold b in Eb. rewrite length_app in Eb. cbn in Eb. lia.
      * rewrite (assoc_L (++)) in E. apply app_inj_tail in E as [-> _]. rewrite <- moved_below. apply Hgot.
        { apply (ko_closed _ Hk _ nx). rewrite <- (assoc_L (++)). by eexists. }
        intros Eb. apply Hab. rewrite <- Eb. by apply prefix_app_r.
    + rewrite moved_else in E by done. subst r0. rewrite <- (moved_else r).
      * apply Hgot; [apply (ko_closed _ Hk _ nm); by eexists|]. intros ->. apply Hne.
        apply (leaf_spec b k); [done|by eexists|by apply prefix_app_r].
      * intros [x ->]. apply P0. rewrite <- (assoc_L (++)). by apply prefix_app_r.
  - intros r1 r2 i (s1 & H1 & N1 & ->)%renamed_lookup (s2 & H2 & N2 & ->)%renamed_lookup.
    f_equal. by apply (ko_inj _ Hk _ _ i).
  - apply (ko_wd _ Hk).
Qed.
End Moved.

(** ** Directories that leave *)

(** A set of directories that is closed below is taken out of the tree. *)
Lemma kern_ok_subtree t k :
  kern_ok k -> (forall q i, t !! q = Some i -> tree k !! q = Some i) -> is_Some (t !! []) ->
  (forall q n, is_Some (t !! (q ++ [n])) -> is_Some (t !! q)) -> kern_ok (set_tree t (next_ino k) k).
Proof.
  intros Hk Hsub Hroot Hcl. split; cbn [tree set_tree base next_ino next_wd].
  - done.
  - intros q i Hq. by apply (ko_path _ Hk), Hsub.
  - done.
  - intros q r i Hq Hr. by apply (ko_inj _ Hk _ _ i); apply Hsub.
  - apply (ko_wd _ Hk).
Qed.

Lemma removed_ok k p n :
  kern_ok k -> leaf (p ++ [n]) k = true -> kern_ok (set_tree (delete (p ++ [n]) (tree k)) (next_ino k) k).
Proof.
  intros Hk Hl. apply kern_ok_subtree; [done| | |].
  - by intros q i [_ Hq]%lookup_delete_Some.
  - rewrite lookup_delete_ne by (by destruct p). apply (ko_root _ Hk).
  - intros q x [i [Hne Hq]%lookup_delete_Some]. rewrite lookup_delete_ne.
    + apply (ko_closed _ Hk _ x). by eexists.
    + intros <-. apply Hne. symmetry. apply (leaf_spec (p ++ [n]) k); [done|by eexists|by apply prefix_app_r].
Qed.

Definition outside (a : path) (k : ikern) : gmap path nat := filter (fun qi => ~ a `prefix_of` fst qi) (tree k).

Lemma outside_lookup a k q i : outside a k !! q = Some i <-> tree k !! q = Some i /\ ~ a `prefix_of` q.
Proof. apply map_lookup_filter_Some. Qed.

Lemma outside_ok k p n : kern_ok k -> kern_ok (set_tree (outside (p ++ [n]) k) (next_ino k) k).
Proof.
  intros Hk. apply kern_ok_subtree; [done| | |].
  - by intros q i [Hq _]%outside_lookup.
  - destruct (ko_root _ Hk) as [i Hi]. exists i. apply outside_lookup. split; [done|]. intros [x E]. by destruct p.
  - intros q x [i [Hq Hno]%outside_lookup]. destruct (ko_closed _ Hk q x ltac:(by eexists)) as [j Hj].
    exists j. apply outside_lookup. split; [done|]. intros [y ->]. apply Hno. rewrite <- (assoc_L (++)). by apply prefix_app_r.
Qed.

(** The watches after a directory is gone, when its watch was [wd]. *)
Lemma gone_watched ino k wd :
  wd_of ino k = Some wd ->
  gone ino k = set_queue (queue k ++ [self_event wd (Z.lor IN_DELETE_SELF IN_ISDIR); self_event wd IN_IGNORED])
    (set_watches (delete wd (watches k)) (next_wd k) k).
Proof. intros E. unfold gone. by rewrite E. Qed.

(** Watches on directories whose paths change: [f] tells where they are now. *)
Lemma watching_map f W W' k k1 :
  watching W k -> W' ⊆ W ->
  (forall wd, is_Some (watches k1 !! wd) <-> is_Some (W' !! wd)) ->
  (forall wd, is_Some (W' !! wd) -> watches k1 !! wd = watches k !! wd) ->
  (forall wd p, W' !! wd = Some p -> tree k1 !! f p = tree k !! p) ->
  (forall wd wd' p q, W' !! wd = Some p -> W' !! wd' = Some q -> f p = f q -> p = q) ->
  next_wd k1 = next_wd k -> watching (f <$> W') k1.
Proof.
  intros HW Hsub Hdom Hval Htree Hinj Hn. split.
  - intros wd. rewrite Hdom, lookup_fmap. by rewrite fmap_is_Some.
  - intros wd r Hr. rewrite lookup_fmap in Hr. apply fmap_Some in Hr as (p & Hp & ->).
    rewrite (Htree _ _ Hp), Hval by (by eexists). by apply (wa_tree _ _ HW), (lookup_weaken W').
  - intros wd wd' r Hr Hr'. rewrite lookup_fmap in Hr, Hr'. apply fmap_Some in Hr as (p & Hp & ->).
    apply fmap_Some in Hr' as (q & Hq & E). pose proof (Hinj _ _ _ _ Hp Hq E) as <-.
    by apply (wa_inj _ _ HW _ _ p); apply (lookup_weaken W').
  - intros wd r Hr. rewrite lookup_fmap in Hr. apply fmap_Some in Hr as (p & Hp & ->).
    rewrite Hn. apply (wa_wd _ _ HW _ p). by apply (lookup_weaken W').
Qed.

Lemma watching_sub W W' k k1 :
  watching W k -> W' ⊆ W ->
  (forall wd, is_Some (watches k1 !! wd) <-> is_Some (W' !! wd)) ->
  (forall wd, is_Some (W' !! wd) -> watches k1 !! wd = watches k !! wd) ->
  (forall wd p, W' !! wd = Some p -> tree k1 !! p = tree k !! p) ->
  next_wd k1 = next_wd k -> watching W' k1.
Proof.
  intros HW Hsub Hdom Hval Htree Hn. rewrite <- (map_fmap_id W'). by apply (watching_map id W W' k).
Qed.

Lemma size_watched W k : watching W k -> size W = size (watches k).
Proof.
  intros HW. rewrite <- !(size_dom (D := gset Z)). f_equal. apply set_eq. intros wd.
  rewrite !elem_of_dom. symmetry. apply (wa_dom _ _ HW).
Qed.
