(* ===== verification/DirSession.v ===== *)
(** * The watcher and a tree that changes

    The program is started on a tree; then other programs make changes, and after each the
    watcher reads events until there are no more.  Then its cache is the list of the
    directories of the tree. *)

From S2P Require Import Prelude Prog Process CLib DirWatch DirPaths DirKernel DirCache DirTrack DirEvents DirChange.
From Stdlib Require Import Ascii.
Local Open Scope Z_scope.
Local Open Scope prog_scope.

(** ** Reading until there are no more events *)

(** Turns of the loop of [main] for as long as [select] finds events: [n] of them at most. *)
Fixpoint settle_loop (n fuel : nat) : prog (wst ikern) unit :=
  match n with
  | O => loops
  | S n =>
      let! s := gets (fun s => s) in
      if bool_decide (length (queue (kern s)) = 0%nat) then ret tt
      else do! turn fuel None true in settle_loop n fuel
  end.

(** A turn takes one event at least, and an event is looked at twice at most; the directories
    that are dropped add one event each. *)
Definition settle : prog (wst ikern) unit :=
  let! s := gets (fun s => s) in
  let n := (4 + 2 * (length (queue (kern s)) + size (watches (kern s))))%nat in
  settle_loop n n.

(** A change that can be made is made. *)
Definition happens (f : ikern -> option ikern) : prog (wst ikern) unit :=
  modify (fun s => set_kern (default (kern s) (f (kern s))) s).

Fixpoint live_through (l : list change) : prog (wst ikern) unit :=
  match l with
  | [] => ret tt
  | c :: l => do! happens (apply_change c) in do! settle in live_through l
  end.

(** The change puts a directory from outside of the tree in the place of one that is in it. *)
Definition moves_over (c : change) (k : ikern) : bool :=
  match c with
  | MoveIn p n _ => exists_path k (p ++ [n]) && bool_decide (is_Some (apply_change c k))
  | _ => false
  end.

(** None of the changes does, the tree being each time what the changes before have made of it. *)
Fixpoint none_over (l : list change) (k : ikern) : bool :=
  match l with
  | [] => true
  | c :: l => negb (moves_over c k) && none_over l (default k (apply_change c k))
  end.

(** ** Buffers *)

Lemma ev_sizes_cons ev l : ev_sizes (ev :: l) = ev_size ev + ev_sizes l.
Proof. done. Qed.

Lemma ev_sizes_app a b : ev_sizes (a ++ b) = ev_sizes a + ev_sizes b.
Proof. induction a as [|ev a IH]; [done|]. change ((ev :: a) ++ b) with (ev :: (a ++ b)). rewrite !ev_sizes_cons. rewrite IH. apply Z.add_assoc. Qed.

(** Events have a positive size, and the greatest fits 100 times into the buffer. *)
Definition sized (ev : inotify_event) : Prop := 16 <= ev_size ev <= 272.

Lemma ev_sizes_bound l : Forall sized l -> 16 * Z.of_nat (length l) <= ev_sizes l <= 272 * Z.of_nat (length l).
Proof.
  induction 1 as [|ev l [H1 H2] _ IH]; [done|]. cbn [length]. rewrite ev_sizes_cons. lia.
Qed.

Lemma sized_self wd mask : sized (self_event wd mask).
Proof. unfold sized. change (ev_size _) with 16. lia. Qed.

Lemma ignored_sized l : Forall ignored l -> Forall sized l.
Proof. intros Hl. eapply Forall_impl; [exact Hl|]. intros ev [wd ->]. apply sized_self. Qed.

Lemma fitting_spec cnt q a b :
  fitting cnt q = (a, b) -> q = a ++ b /\ (a <> [] -> ev_sizes a <= cnt).
Proof.
  revert cnt a b. induction q as [|ev q IH]; intros cnt a b E; cbn in E; [by simplify_eq|].
  destruct (Z.leb_spec (ev_size ev) cnt); [|by simplify_eq].
  destruct (fitting (cnt - ev_size ev) q) as [a' b'] eqn:E'. simplify_eq.
  destruct (IH _ _ _ E') as [-> Hs]. split; [done|]. intros _. rewrite ev_sizes_cons.
  destruct a'; [unfold ev_sizes; cbn; lia|]. specialize (Hs ltac:(done)). lia.
Qed.

Lemma fitting_all cnt q : Forall sized q -> ev_sizes q <= cnt -> fitting cnt q = (q, []).
Proof.
  intros Hq. revert cnt. induction Hq as [|ev q [H1 H2] Hq IH]; intros cnt Hc; [done|]. cbn.
  rewrite ev_sizes_cons in Hc. pose proof (ev_sizes_bound _ Hq).
  rewrite (proj2 (Z.leb_le _ _)) by lia. by rewrite IH by lia.
Qed.

(** ** What a change depends on *)

(** The watcher and its watches have no part in it: only the pathnames of the tree do. *)
Definition same_paths (k k' : ikern) : Prop := base k = base k' /\ dom (tree k) = dom (tree k').

Lemma same_paths_eq k k' : tree k' = tree k -> base k' = base k -> same_paths k k'.
Proof. by intros E ?; split; [|rewrite E]. Qed.

Lemma same_paths_trans k1 k2 k3 : same_paths k1 k2 -> same_paths k2 k3 -> same_paths k1 k3.
Proof. intros [? ?] [? ?]. split; congruence. Qed.

Lemma same_paths_some k k' p : same_paths k k' -> is_Some (tree k !! p) <-> is_Some (tree k' !! p).
Proof. intros [_ E]. by rewrite <- !elem_of_dom, E. Qed.

Lemma exists_path_same k k' p : same_paths k k' -> exists_path k p = exists_path k' p.
Proof. intros H. by apply bool_decide_ext, same_paths_some. Qed.

Lemma leaf_iff k p : leaf p k = true <-> forall q, is_Some (tree k !! q) -> p `prefix_of` q -> q = p.
Proof.
  split; [intros H q Hq; by apply (leaf_spec p k)|]. intros H. apply bool_decide_eq_true, elem_of_nil_inv.
  intros [q i] [[Hpre Hne] Hin%elem_of_map_to_list]%list_elem_of_filter. apply Hne, H; [by eexists|done].
Qed.

Lemma leaf_same k k' p : same_paths k k' -> leaf p k = leaf p k'.
Proof.
  intros H. apply eq_true_iff_eq. rewrite !leaf_iff.
  split; intros E q Hq; apply E; by apply (same_paths_some k k' q H).
Qed.

Lemma fits_path_same k k' p : same_paths k k' -> fits_path k p = fits_path k' p.
Proof. intros [E _]. unfold fits_path. by rewrite E. Qed.

Lemma fits_all_same k k' (f : path -> path) : same_paths k k' ->
  forallb (fun p => fits_path k (f p)) (map_to_list (tree k)).*1 = forallb (fun p => fits_path k' (f p)) (map_to_list (tree k')).*1.
Proof.
  intros H. apply eq_true_iff_eq. rewrite !forallb_forall.
  assert (forall k r, In r (map_to_list (tree k)).*1 <-> is_Some (tree k !! r)) as Hin.
  { intros k0 r. rewrite <- list_elem_of_In, list_elem_of_fmap. split.
    - intros ([r' i] & -> & Hr%elem_of_map_to_list). by exists i.
    - intros [i Hr]. exists (r, i). split; [done|]. by apply elem_of_map_to_list. }
  split; intros E r Hr%Hin; [rewrite <- (fits_path_same k k')|rewrite (fits_path_same k k')]; try done;
    apply E, Hin; by apply (same_paths_some k k' r H).
Qed.

Lemma fits_sub_same k k' a (sub : list path) : same_paths k k' ->
  forallb (fun r => fits_path k (a ++ r)) sub = forallb (fun r => fits_path k' (a ++ r)) sub.
Proof. intros H. induction sub as [|r sub IH]; cbn; [done|]. by rewrite (fits_path_same k k'), IH. Qed.

Lemma gone_dom i k : base (gone i k) = base k /\ dom (tree (gone i k)) = dom (tree k).
Proof. unfold gone. by destruct (wd_of i k). Qed.

Lemma replaced_dom q k k0 : base (replaced q k k0) = base k0 /\ dom (tree (replaced q k k0)) = dom (tree k0).
Proof. unfold replaced. destruct (tree k !! q); [apply gone_dom|done]. Qed.

Lemma notify_dom p mask cookie n k :
  base (notify p mask cookie n k) = base k /\ dom (tree (notify p mask cookie n k)) = dom (tree k).
Proof. by destruct (notify_frame p mask cookie n k) as (-> & _ & _ & _ & ->). Qed.

Lemma grow_dom ps k : base (grow ps k) = base k /\ dom (tree (grow ps k)) = list_to_set ps ∪ dom (tree k).
Proof.
  revert k. induction ps as [|p ps IH]; intros k; cbn [grow list_to_set]; [split; [done|set_solver]|].
  destruct (IH (set_tree (<[p := next_ino k]> (tree k)) (S (next_ino k)) k)) as [-> ->]. split; [done|].
  cbn [tree set_tree]. rewrite dom_insert_L. set_solver.
Qed.

Lemma renamed_dom (f : path -> path) (m m' : gmap path nat) : dom m = dom m' ->
  dom (list_to_map (M := gmap path nat) (prod_map f id <$> map_to_list m)) =
  dom (list_to_map (M := gmap path nat) (prod_map f id <$> map_to_list m')).
Proof.
  intros E. rewrite !dom_list_to_map_L.
  assert (forall m : gmap path nat, list_to_set (C := gset path) (prod_map f id <$> map_to_list m).*1 = set_map f (dom m)) as Hd.
  { intros m0. apply set_eq. intros r. rewrite elem_of_list_to_set, elem_of_map, <- list_fmap_compose, list_elem_of_fmap. split.
    - intros ([x i] & -> & Hx%elem_of_map_to_list). exists x. split; [done|]. by apply elem_of_dom_2 in Hx.
    - intros (x & -> & [i Hx]%elem_of_dom). exists (x, i). split; [done|]. by apply elem_of_map_to_list. }
  by rewrite !Hd, E.
Qed.

Lemma filter_dom (P : path -> Prop) `{!forall qi : path * nat, Decision (P (fst qi))} (m m' : gmap path nat) : dom m = dom m' ->
  dom (filter (fun qi => P (fst qi)) m) = dom (filter (fun qi => P (fst qi)) m').
Proof.
  intros E. apply set_eq. intros q. assert (is_Some (m !! q) <-> is_Some (m' !! q)) as Hs by (by rewrite <- !elem_of_dom, E).
  rewrite !elem_of_dom. unfold is_Some in *. setoid_rewrite map_lookup_filter_Some. cbn. naive_solver.
Qed.

Lemma same_paths_change c k k' :
  same_paths k k' -> same_paths (default k (apply_change c k)) (default k' (apply_change c k')).
Proof.
  intros H. pose proof H as [Eb Ed]. destruct c as [p n|p n|p n q m|p n|p n sub]; cbn [apply_change].
  - rewrite !(exists_path_same k k'), (fits_path_same k k') by done. destruct (_ && _); [|done]. cbn [default id].
    split; rewrite ?(proj1 (notify_dom _ _ _ _ _)), ?(proj2 (notify_dom _ _ _ _ _)), ?(proj1 (grow_dom _ _)), ?(proj2 (grow_dom _ _)); congruence.
  - pose proof (same_paths_some k k' (p ++ [n]) H) as Hs.
    destruct (tree k !! (p ++ [n])), (tree k' !! (p ++ [n])); [|by destruct (proj1 Hs ltac:(done))|by destruct (proj2 Hs ltac:(done))|exact H].
    rewrite (leaf_same k k') by done. destruct (leaf _ _); [|done]. cbn [default id].
    split; rewrite ?(proj1 (gone_dom _ _)), ?(proj2 (gone_dom _ _)); [done|]. cbn [tree set_tree]. by rewrite !dom_delete_L, Ed.
  - rewrite !(exists_path_same k k'), (leaf_same k k'), (fits_all_same k k') by done. destruct (_ && _); [|done]. cbn [default id].
    split; rewrite ?(proj1 (replaced_dom _ _ _)), ?(proj2 (replaced_dom _ _ _)); cbn [base tree next_rename set_tree];
      rewrite ?(proj1 (notify_dom _ _ _ _ _)); [done|].
    apply renamed_dom. by rewrite !dom_delete_L, Ed.
  - rewrite !(exists_path_same k k') by done. destruct (_ && _); [|done]. cbn [default id].
    split; cbn [base tree next_rename]; rewrite ?(proj1 (notify_dom _ _ _ _ _)), ?(proj2 (notify_dom _ _ _ _ _)); [done|].
    cbn [tree set_tree]. by apply (filter_dom (fun q => ~ p ++ [n] `prefix_of` q)).
  - rewrite !(exists_path_same k k'), (leaf_same k k') by done.
    rewrite (fits_sub_same k k' (p ++ [n]) sub) by done.
    destruct (_ && _); [|done]. cbn [default id].
    split; rewrite ?(proj1 (replaced_dom _ _ _)), ?(proj2 (replaced_dom _ _ _)); cbn [base tree next_rename];
      rewrite ?(proj1 (notify_dom _ _ _ _ _)), ?(proj2 (notify_dom _ _ _ _ _)), ?(proj1 (grow_dom _ _)), ?(proj2 (grow_dom _ _)); congruence.
Qed.

(** Whether a change fails is also the same. *)
Lemma moves_over_same c k k' : same_paths k k' -> moves_over c k = moves_over c k'.
Proof.
  intros H. destruct c as [| | | |p n sub]; try done. cbn [moves_over]. rewrite (exists_path_same k k') by done. f_equal.
  cbn [apply_change]. rewrite !(exists_path_same k k'), (leaf_same k k') by done.
  rewrite (fits_sub_same k k' (p ++ [n]) sub) by done.
  apply bool_decide_ext. by destruct (_ && _).
Qed.

Section Live.
Context {excuse : Prop}.

(** The first read of a turn takes [evs] of the queue. *)
Lemma turn_reads fuel evs q (Q : unit -> wst ikern -> Prop) s :
  plain_options s -> queue (kern s) = evs ++ q -> evs <> [] ->
  fitting INOTIFY_READ_BUF_LEN (queue (kern s)) = (evs, q) -> 0 < ev_sizes evs ->
  runs excuse (process_buffer fuel evs (ev_sizes evs) true) Q (set_kern (set_queue q (kern s)) s) ->
  runs excuse (turn fuel None true) Q s.
Proof.
  intros (_ & _ & _ & Hb) Hq Hne Hf Hpos HQ.
  assert (read_events (inotifyFd s) INOTIFY_READ_BUF_LEN (kern s) = (inl evs, set_queue q (kern s))) as Hread.
  { cbn [read_events ikern_inotify]. rewrite Hf. by destruct evs, (queue (kern s)). }
  assert (ev_sizes evs <= INOTIFY_READ_BUF_LEN) as Hle by (by apply (fitting_spec _ _ _ _ Hf)).
  unfold turn, processInotifyEvents. repeat run. rewrite Hb. change (0 <? 0) with false. cbv iota.
  unfold sys. unfold runs at 1. rewrite Hread. run. rewrite (proj2 (Z.ltb_ge _ _)) by done. run. run.
  run; [by apply Z.ltb_lt|]. exact HQ.
Qed.

(** The reports of ended watches change nothing. *)
Lemma process_ignored evs fuel (Q : unit -> wst ikern -> Prop) s :
  Forall ignored evs -> plain_options s -> (length evs < fuel)%nat -> Q tt s ->
  runs excuse (process_buffer fuel evs (ev_sizes evs) true) Q s.
Proof.
  intros Hevs. revert fuel. induction Hevs as [|ev evs Hev Hevs IH]; intros fuel Ho Hf HQ;
    (destruct fuel as [|fuel]; [cbn in Hf; lia|]); cbn [process_buffer].
  - exact HQ.
  - pose proof (ev_sizes_bound _ (ignored_sized _ Hevs)) as Hs. rewrite ev_sizes_cons.
    assert (ev_size ev = 16) as Esz by (by destruct Hev as [wd ->]).
    rewrite (proj2 (Z.leb_gt _ _)) by lia. run. apply ignored_spec; [done|done|].
    change (drop 1 (ev :: evs)) with evs. change (take 1 (ev :: evs)) with [ev]. replace (ev_size ev + ev_sizes evs - ev_sizes [ev]) with (ev_sizes evs) by (rewrite ev_sizes_cons; change (ev_sizes []) with 0; lia).
    apply IH; [done|cbn in Hf; lia|done].
Qed.

Lemma settle_ignored n fuel (Q : unit -> wst ikern -> Prop) s :
  Forall ignored (queue (kern s)) -> plain_options s -> (length (queue (kern s)) < fuel)%nat ->
  (length (queue (kern s)) < n)%nat -> Q tt (set_kern (set_queue [] (kern s)) s) ->
  runs excuse (settle_loop n fuel) Q s.
Proof.
  revert s. induction n as [|n IH]; intros s Hi Ho Hf Hn HQ; [lia|]. cbn [settle_loop]. run. run.
  destruct (bool_decide_reflect (length (queue (kern s)) = 0%nat)) as [E|E].
  - run. apply nil_length_inv in E. assert (set_kern (set_queue [] (kern s)) s = s) as <-; [|exact HQ].
    destruct s as [? ? ? ? ? ? ? ? ? ? ? ? [? ? ? ? ? ? ?]]. cbn in E. by subst.
  - run. destruct (fitting INOTIFY_READ_BUF_LEN (queue (kern s))) as [evs q] eqn:Ef.
    destruct (fitting_spec _ _ _ _ Ef) as [Eq _].
    assert (evs <> []) as Hne.
    { intros ->. destruct (queue (kern s)) as [|ev q'] eqn:Eq'; [done|]. inversion Hi as [|? ? [wd ->] _]; subst.
      cbn in Ef. unfold INOTIFY_READ_BUF_LEN, NAME_MAX in Ef. cbn in Ef. by destruct (fitting _ _). }
    rewrite Eq in Hi. apply Forall_app in Hi as [Hi1 Hi2]. rewrite Eq, length_app in Hf, Hn.
    pose proof (ev_sizes_bound _ (ignored_sized _ Hi1)) as Hs.
    assert (length evs <> 0%nat) by (by intros ?%nil_length_inv).
    apply (turn_reads fuel evs q); [done|done|done|done|lia|].
    apply process_ignored; [done|done|lia|]. apply IH; cbn [kern set_kern queue set_queue]; [done|done|lia|lia|exact HQ].
Qed.

Lemma process_step fuel evs rem ft (Q : unit -> wst ikern -> Prop) s :
  0 < rem ->
  runs excuse (processNextInotifyEvent evs rem ft)
    (fun r s' => exists n, r = Took n /\
       runs excuse (process_buffer fuel (drop n evs) (rem - ev_sizes (take n evs)) true) Q s') s ->
  runs excuse (process_buffer (S fuel) evs rem ft) Q s.
Proof.
  intros Hrem HP. cbn [process_buffer]. rewrite (proj2 (Z.leb_gt _ _)) by done. run.
  eapply runs_mono; [exact HP|]. by intros r s' (n & -> & HQ).
Qed.

(** A first read that takes the whole queue, and then only reports of ended watches. *)
Lemma settle_reads evs (Q : unit -> wst ikern -> Prop) s :
  plain_options s -> queue (kern s) = evs -> evs <> [] -> Forall sized evs -> (length evs <= 100)%nat ->
  (forall fuel, (length evs < fuel)%nat -> (4 < fuel)%nat ->
    runs excuse (process_buffer fuel evs (ev_sizes evs) true)
      (fun _ s1 => plain_options s1 /\ Forall ignored (queue (kern s1)) /\
        (length (queue (kern s1)) <= 2 + size (watches (kern s)))%nat /\ Q tt (set_kern (set_queue [] (kern s1)) s1))
      (set_kern (set_queue [] (kern s)) s)) ->
  runs excuse settle Q s.
Proof.
  intros Ho Hq Hne Hsz Hlen HP. unfold settle. run. run. rewrite Hq.
  assert (length evs <> 0%nat) by (by intros ?%nil_length_inv).
  pose proof (ev_sizes_bound _ Hsz) as Hs.
  set (n := (length evs + size (watches (kern s)))%nat).
  change (4 + 2 * n)%nat with (S (3 + 2 * n)). cbn [settle_loop]. run. run.
  rewrite bool_decide_eq_false_2 by (by rewrite Hq). run.
  apply (turn_reads _ evs []); [done|by rewrite app_nil_r|done| |lia|].
  { rewrite Hq. apply fitting_all; [done|]. unfold INOTIFY_READ_BUF_LEN, NAME_MAX. lia. }
  eapply runs_mono; [apply HP; lia|]. intros [] s1 (Ho1 & Hi1 & Hl1 & HQ). cbv beta.
  apply settle_ignored; [done|done|lia|lia|exact HQ].
Qed.

(** ** One change at a time *)

(** The watcher knows the tree and has read every event. *)
Definition tracked (W : gmap Z path) (s : wst ikern) : Prop :=
  good W W s /\ covered W (kern s) /\ queue (kern s) = [].

Lemma kern_ok_queue k q : kern_ok k -> kern_ok (set_queue q k).
Proof. intros [H1 H2 H3 H4 H5]. by split. Qed.

Lemma good_set_queue W Wc q s : good W Wc s -> good W Wc (set_kern (set_queue q (kern s)) s).
Proof. intros [Hk HW HC Hn Ho Hr]. split; try done; [by apply kern_ok_queue|]. by destruct HW. Qed.

Lemma tracked_emptied W s :
  good W W s -> covered W (kern s) -> tracked W (set_kern (set_queue [] (kern s)) s).
Proof. intros HG HC. split; [by apply good_set_queue|done]. Qed.

Lemma sized_name wd mask cookie n : fits_name n = true -> sized (MkEvent wd mask cookie (name_len n) n).
Proof.
  intros [_ Hn%Z.leb_le]%andb_prop. unfold sized, ev_size, name_len, NAME_MAX in *. cbn [ev_len].
  pose proof (strlen_nonneg n). Z.div_mod_to_equations. lia.
Qed.

(** A directory that is new, with the events of its parent. *)
Lemma settle_created W p n ev k1 (Q : unit -> wst ikern -> Prop) s :
  let a := p ++ [n] in
  tracked W s -> kern_ok k1 -> base k1 = base (kern s) -> watches k1 = watches (kern s) ->
  next_wd k1 = next_wd (kern s) -> queue k1 = [ev] ->
  (forall q, is_Some (tree (kern s) !! q) -> tree k1 !! q = tree (kern s) !! q) ->
  (forall q, is_Some (tree k1 !! q) -> is_Some (tree (kern s) !! q) \/ a `prefix_of` q) ->
  tree (kern s) !! a = None -> is_Some (tree k1 !! a) ->
  W !! ev_wd ev = Some p -> ev_name ev = n -> sized ev ->
  ev_mask ev = Z.lor IN_CREATE IN_ISDIR \/ ev_mask ev = Z.lor IN_MOVED_TO IN_ISDIR ->
  (forall s' W', tracked W' s' -> tree (kern s') = tree k1 -> base (kern s') = base k1 -> Q tt s') ->
  runs excuse settle Q (set_kern k1 s).
Proof.
  intros a (HG & Hcov & _) Hk1 Eb Ew En Eq Hold Hnew Ha Ha1 Hp Hn Hsz Hm HQ.
  pose proof HG as [Hk HW HC Hnm Ho Hr].
  apply (settle_reads [ev]); [exact Ho|exact Eq|done|by constructor|cbn; lia|].
  intros [|fuel] Hf1 Hf2; [lia|].
  set (s1 := set_kern (set_queue [] (kern (set_kern k1 s))) (set_kern k1 s)).
  assert (good W W s1) as HG1.
  { split; cbn [s1 kern set_kern wlCache rootDirPaths]; [by apply kern_ok_queue| |by cbn; rewrite Eb|done|done|by cbn; rewrite Eb].
    destruct HW as [D1 D2 D3 D4]. split; cbn [watches tree next_wd set_queue]; rewrite ?Ew, ?En; [done| |done|done].
    intros wd r Hwd. destruct (D2 _ _ Hwd) as [Hr1 Hr2]. rewrite Hold by done. done. }
  pose proof (ev_sizes_bound [ev] ltac:(by constructor)) as Hs. change (length [ev]) with 1%nat in Hs.
  apply process_step; [lia|]. apply (created_spec W _ _ _ _ p n); [exact HG1|done..| | |].
  - exact Ha1.
  - intros wd r Hr1 [x ->]. destruct (wa_tree _ _ HW _ _ Hr1) as [Hx _].
    apply closed_prefix in Hx; [|done]. fold a in Hx. rewrite Ha in Hx. by destruct Hx.
  - intros s2 W2 HG2 Hsub Hall (Et & Eb2 & Eq2). exists 1%nat. split; [done|].
    destruct fuel as [|fuel]; [lia|]. cbn [process_buffer drop take].
    rewrite (proj2 (Z.leb_le _ _)) by lia. run. rewrite Eq2. split; [apply HG2|]. split; [constructor|]. split; [cbn; lia|].
    apply (HQ _ W2); [|exact Et|exact Eb2]. apply tracked_emptied; [done|].
    intros q Hq. rewrite Et in Hq. destruct (Hnew q Hq) as [Hq0|Hpre].
    + destruct (Hcov q Hq0) as [wd Hwd]. exists wd. by eapply lookup_weaken.
    + by apply Hall.
Qed.

Lemma fits_name_ok n : fits_name n = true -> name_ok n = true.
Proof. by intros [? _]%andb_prop. Qed.

Lemma exists_pathP k p : exists_path k p = true <-> is_Some (tree k !! p).
Proof. unfold exists_path. by rewrite bool_decide_eq_true. Qed.

Lemma exists_pathN k p : exists_path k p = false <-> tree k !! p = None.
Proof. unfold exists_path. by rewrite bool_decide_eq_false, eq_None_not_Some. Qed.

(** The watch of a directory of the tree. *)
Lemma tracked_wd W s p :
  tracked W s -> is_Some (tree (kern s) !! p) ->
  exists wd i, W !! wd = Some p /\ tree (kern s) !! p = Some i /\ wd_of i (kern s) = Some wd.
Proof.
  intros (HG & Hcov & _) Hp. destruct (Hcov p Hp) as [wd Hwd]. destruct Hp as [i Hi]. exists wd, i.
  split; [done|]. split; [done|]. by eapply (watched_ino (g_kern _ _ _ HG) (g_watch _ _ _ HG)).
Qed.

Lemma settle_grown W p n sub mask cookie (Q : unit -> wst ikern -> Prop) s :
  let a := p ++ [n] in let ps := (a ++.) <$> sub in
  tracked W s -> is_Some (tree (kern s) !! p) -> tree (kern s) !! a = None -> fits_name n = true -> [] ∈ sub ->
  (forall r, r ∈ sub -> path_ok r /\ strlen (render (base (kern s)) (a ++ r)) < PATH_MAX) ->
  (forall r x, r ++ [x] ∈ sub -> r ∈ sub) ->
  mask = Z.lor IN_CREATE IN_ISDIR \/ mask = Z.lor IN_MOVED_TO IN_ISDIR ->
  (forall s' W', tracked W' s' -> tree (kern s') = tree (grow ps (kern s)) -> base (kern s') = base (kern s) -> Q tt s') ->
  forall k1, tree k1 = tree (notify p mask cookie n (grow ps (kern s))) -> base k1 = base (kern s) ->
    watches k1 = watches (kern s) -> next_wd k1 = next_wd (kern s) -> next_ino k1 = next_ino (grow ps (kern s)) ->
    queue k1 = queue (notify p mask cookie n (grow ps (kern s))) ->
    runs excuse settle Q (set_kern k1 s).
Proof.
  intros a ps HT Hp Ha Hn Hnil Hsub Hcl Hm HQ k1 Et Eb Ew En Ei Eq.
  pose proof HT as (HG & Hcov & Hq0). pose proof (g_kern _ _ _ HG) as Hk.
  destruct (grow_frame ps (kern s)) as (Gb & Gw & Gn & _ & Gq & Gold & Gnew).
  assert (forall q, q ∈ ps <-> exists r, q = a ++ r /\ r ∈ sub) as Hps by (intros q; apply list_elem_of_fmap).
  assert (forall q, q ∈ ps -> tree (kern s) !! q = None) as Hfresh.
  { intros q (r & -> & _)%Hps. destruct (tree (kern s) !! (a ++ r)) as [i|] eqn:E; [|done].
    assert (is_Some (tree (kern s) !! a)) as Hs by (eapply closed_prefix; [done|]; rewrite E; by eexists).
    rewrite Ha in Hs. by destruct Hs. }
  assert (path_ok a) as Hoka.
  { apply Forall_app. split; [|constructor; [by apply fits_name_ok|done]]. destruct Hp as [i Hi].
    by apply (ko_path _ Hk) in Hi as (? & _). }
  assert (kern_ok (grow ps (kern s))) as HGk.
  { apply grow_ok; [done| | |done].
    - intros q (r & -> & Hr)%Hps. destruct (Hsub r Hr) as [? ?]. split; [by apply Forall_app|done].
    - intros q x (r & E & Hr)%Hps. destruct r as [|y r _] using rev_ind.
      + rewrite app_nil_r in E. apply app_inj_tail in E as [-> _]. by right.
      + rewrite (assoc_L (++)) in E. apply app_inj_tail in E as [-> ->]. left. apply Hps. exists r. split; [done|]. by eapply Hcl. }
  destruct (tracked_wd W s p HT Hp) as (wd & i & Hwd & Hi & Hwi).
  assert (p ∉ ps) as Hpp by (intros Hin%Hfresh; by rewrite Hin in Hp; destruct Hp).
  assert (tree (grow ps (kern s)) !! p = Some i) as Hi1 by (by rewrite Gold).
  assert (wd_of i (grow ps (kern s)) = Some wd) as Hwi1 by (unfold wd_of in *; by rewrite Gw).
  rewrite (notify_some _ _ _ _ _ _ _ Hi1 Hwi1) in Et, Eq. cbn [tree queue set_queue] in Et, Eq. rewrite Gq, Hq0 in Eq.
  apply (settle_created W p n (MkEvent wd mask cookie (name_len n) n)); try done.
  - destruct HGk as [K1 K2 K3 K4 K5]. split; rewrite ?Et, ?Eb, ?Ei, ?En; try done; [by rewrite Gb in K2|apply (ko_wd _ Hk)].
  - intros q Hq. rewrite Et. apply Gold. intros Hin%Hfresh. rewrite Hin in Hq. by destruct Hq.
  - intros q Hq. rewrite Et in Hq. destruct (decide (q ∈ ps)) as [Hin|Hin]; [|left; by rewrite <- Gold].
    right. apply Hps in Hin as (r & -> & _). by apply prefix_app_r.
  - rewrite Et. apply Gnew, Hps. exists []. by rewrite app_nil_r.
  - by apply sized_name.
  - intros s' W' HT' Et' Eb'. apply (HQ s' W'); [done|congruence|congruence].
Qed.

(** The outcome of a change. *)
Definition absorbed (k1 : ikern) (Q : unit -> wst ikern -> Prop) (s : wst ikern) : Prop :=
  (forall s' W', tracked W' s' -> tree (kern s') = tree k1 -> base (kern s') = base k1 -> Q tt s') ->
  runs excuse settle Q (set_kern k1 s).

Lemma mkdir_absorbed W p n k1 Q s :
  tracked W s -> apply_change (Mkdir p n) (kern s) = Some k1 -> absorbed k1 Q s.
Proof.
  intros HT E HQ. cbn [apply_change] in E.
  destruct (exists_path (kern s) p && negb (exists_path (kern s) (p ++ [n])) && fits_name n && fits_path (kern s) (p ++ [n])) eqn:G; [|done].
  injection E as <-. apply andb_prop in G as [[[G1%exists_pathP G2%negb_true_iff%exists_pathN]%andb_prop G3]%andb_prop G4%Z.ltb_lt].
  destruct (notify_frame p (Z.lor IN_CREATE IN_ISDIR) 0 n (grow [p ++ [n]] (kern s))) as (N1 & N2 & N3 & N4 & N5).
  apply (settle_grown W p n [[]] (Z.lor IN_CREATE IN_ISDIR) 0); cbn [fmap list_fmap]; rewrite ?app_nil_r; try done; [by left| | |by left|].
  - intros r ->%list_elem_of_singleton. rewrite app_nil_r. split; [constructor|done].
  - intros r x Hr%list_elem_of_singleton. by destruct r.
  - intros s' W' HT' Et' Eb'. apply (HQ s' W'); [done|by rewrite Et', <- N5|by rewrite Eb'].
Qed.

Lemma movein_absorbed W p n sub k1 Q s :
  tracked W s -> tree (kern s) !! (p ++ [n]) = None -> apply_change (MoveIn p n sub) (kern s) = Some k1 -> absorbed k1 Q s.
Proof.
  intros HT Ha E HQ. cbn [apply_change] in E. set (a := p ++ [n]) in *.
  destruct (_ && _) eqn:G in E; [|done]. injection E as <-.
  apply andb_prop in G as [[[[[[[G1%exists_pathP _]%andb_prop G3]%andb_prop G4]%andb_prop G5]%andb_prop G6]%andb_prop _]%andb_prop G8].
  rewrite forallb_forall in G4, G6, G8. apply bool_decide_eq_true in G5.
  unfold replaced in *. rewrite Ha in *. set (k1 := next_rename _) in *.
  destruct (notify_frame p (Z.lor IN_MOVED_TO IN_ISDIR) (next_cookie (kern s)) n (grow ((a ++.) <$> sub) (kern s)))
    as (N1 & N2 & N3 & N4 & N5).
  destruct (grow_frame ((a ++.) <$> sub) (kern s)) as (Gb & Gw & Gn & _).
  apply (settle_grown W p n sub (Z.lor IN_MOVED_TO IN_ISDIR) (next_cookie (kern s))); try done; try (cbn; congruence).
  - intros r Hr%list_elem_of_In. split; [|by apply Z.ltb_lt, G8].
    apply Forall_forall. intros x Hx%list_elem_of_In. specialize (G4 r Hr). rewrite forallb_forall in G4. by apply G4.
  - intros r x Hr%list_elem_of_In. specialize (G6 _ Hr). apply bool_decide_eq_true in G6.
    rewrite length_app, Nat.add_sub, take_app_length in G6. exact G6.
  - by right.
  - intros s' W' HT' Et' Eb'. apply (HQ s' W'); [done|by rewrite Et'|]. rewrite Eb'. cbn. congruence.
Qed.

(** The two reports of a directory that was removed. *)
Lemma process_gone W wd p n fuel (Q : unit -> wst ikern -> Prop) s :
  good (delete wd W) W s -> W !! wd = Some (p ++ [n]) -> (2 < fuel)%nat ->
  (forall s', good (delete wd W) (delete wd W) s' -> kern s' = kern s -> Q tt s') ->
  runs excuse (process_buffer fuel [self_event wd (Z.lor IN_DELETE_SELF IN_ISDIR); self_event wd IN_IGNORED] 32 true) Q s.
Proof.
  intros HG Hp Hf HQ. destruct fuel as [|[|[|fuel]]]; try lia.
  apply process_step; [done|]. apply (deleted_spec (delete wd W) W _ _ _ _ p n); [done|done|done|].
  intros s' HG' Ek. exists 1%nat. split; [done|]. apply process_step; [done|].
  apply ignored_spec; [apply HG'|by exists wd|]. exists 1%nat. split; [done|]. cbn. by apply HQ.
Qed.

Lemma rmdir_absorbed W p n k1 Q s :
  tracked W s -> apply_change (Rmdir p n) (kern s) = Some k1 -> absorbed k1 Q s.
Proof.
  intros HT E HQ. cbn [apply_change] in E. set (a := p ++ [n]) in *.
  destruct (tree (kern s) !! a) as [ino|] eqn:Ha; [|done].
  destruct (leaf a (kern s)) eqn:Hl; [|done]. injection E as <-.
  pose proof HT as (HG & Hcov & Hq0). pose proof HG as [Hk HW HC Hnm Ho Hr].
  destruct (tracked_wd W s a HT ltac:(by eexists)) as (wd & i & Hwd & Hi & Hwi).
  rewrite Ha in Hi. injection Hi as <-. set (k0 := set_tree _ _ (kern s)) in *.
  assert (wd_of ino k0 = Some wd) as Hwi0 by exact Hwi. rewrite (gone_watched _ _ _ Hwi0) in *.
  cbn [queue k0 set_tree] in *. rewrite Hq0 in *. cbn [app] in *.
  set (k1 := set_queue _ _) in *.
  assert (watching (delete wd W) k1) as HW1.
  { apply (watching_sub W _ (kern s)); [done|apply delete_subseteq|..|done].
    - intros wd'. cbn. rewrite !lookup_delete_is_Some. by rewrite (wa_dom _ _ HW).
    - intros wd' [r [Hne _]%lookup_delete_Some]. cbn. by rewrite lookup_delete_ne.
    - intros wd' r [Hne Hr']%lookup_delete_Some. cbn. rewrite lookup_delete_ne; [done|].
      intros <-. apply Hne. by eapply (wa_inj _ _ HW). }
  eapply settle_reads; [exact Ho|reflexivity|done| |cbn; lia|].
  { constructor; [apply sized_self|]. constructor; [apply sized_self|constructor]. }
  intros fuel Hf1 Hf2. set (s1 := set_kern (set_queue [] (kern (set_kern k1 s))) (set_kern k1 s)).
  assert (good (delete wd W) W s1) as HG1.
  { split; try done; cbn [s1 kern set_kern].
    - apply kern_ok_queue. unfold k1. apply kern_ok_queue, kern_ok_watches; [by apply removed_ok|apply (ko_wd _ Hk)].
    - by destruct HW1. }
  apply (process_gone W wd p n); [done|done|lia|]. intros s2 HG2 Ek. rewrite Ek.
  split; [apply HG2|]. split; [constructor|]. split; [cbn; lia|].
  apply (HQ _ (delete wd W)); [|done|done]. change (set_queue [] (kern s1)) with (set_queue [] (kern s1)). rewrite <- Ek.
  apply tracked_emptied; [done|]. rewrite Ek. intros q Hq. cbn in Hq. apply lookup_delete_is_Some in Hq as [Hne Hq].
  destruct (Hcov q Hq) as [wd' Hwd']. exists wd'. rewrite lookup_delete_ne; [done|]. intros <-. congruence.
Qed.

Lemma moveout_absorbed W p n k1 Q s :
  tracked W s -> apply_change (MoveOut p n) (kern s) = Some k1 -> absorbed k1 Q s.
Proof.
  intros HT E HQ. cbn [apply_change] in E. set (a := p ++ [n]) in *.
  destruct (_ && _) eqn:G in E; [|done]. injection E as <-.
  apply andb_prop in G as [[G1%exists_pathP G2%exists_pathP]%andb_prop G3].
  pose proof HT as (HG & Hcov & Hq0). pose proof HG as [Hk HW HC Hnm Ho Hr].
  destruct (tracked_wd W s p HT G1) as (wd & i & Hwd & Hi & Hwi).
  set (k0 := set_tree (filter _ (tree (kern s))) (next_ino (kern s)) (kern s)) in *.
  assert (tree k0 !! p = Some i) as Hi0 by (apply (outside_lookup a); split; [done|apply snoc_not_prefix]).
  rewrite (notify_some _ _ _ _ k0 i wd Hi0 Hwi) in *. cbn [queue k0 set_tree] in *. rewrite Hq0 in *. cbn [app] in *.
  set (ev := MkEvent wd _ _ _ n) in *. set (k1 := next_rename _) in *.
  assert (sized ev) as Hsz by (by apply sized_name).
  destruct G2 as [ia Hia]. destruct (ko_path _ Hk _ _ Hia) as (Hoka & Hla & _).
  apply (settle_reads [ev]); [exact Ho|done|done|by constructor|cbn; lia|].
  intros fuel Hf1 Hf2. set (s1 := set_kern (set_queue [] (kern (set_kern k1 s))) (set_kern k1 s)).
  assert (ev_sizes [ev] = ev_size ev) as Ez by (rewrite ev_sizes_cons; change (ev_sizes []) with 0; lia). rewrite Ez.
  destruct fuel as [|[|[|fuel]]]; try lia. cbn [process_buffer]. destruct Hsz as [Hsz _].
  rewrite (proj2 (Z.leb_gt _ _)) by lia. run.
  apply (hanging_spec W p); [exact HC|done|done|lia|]. repeat run. unfold sys. unfold runs at 1.
  cbn [read_events ikern_inotify queue kern s1 set_kern set_queue]. run. run; [done|].
  rewrite (proj2 (Z.leb_gt _ _)) by lia. run. set (s2 := set_kern _ s1).
  apply (moved_out_spec W p n); [exact Ho|exact HC|exact Hnm|exact Hoka|exact Hla|apply HW|exact Hwd|done|done|lia|].
  intros s3 HC3 [(w & evs & Ek & Hevs & Hlen & Hdom & Hval) Hset]. fold a in HC3, Hlen, Hdom, Hval.
  change (drop 1 [ev]) with ([] : list inotify_event). change (take 1 [ev]) with [ev]. rewrite Ez.
  rewrite (proj2 (Z.leb_le _ _)) by lia. run. rewrite Ek.
  split; [by eapply plain_settings|]. split; [done|]. split.
  { cbn. rewrite (size_watched _ _ HW) in Hlen. lia. }
  set (W' := without a W) in *. rewrite <- Ek.
  assert (W' ⊆ W) as Hsub by apply map_filter_subseteq.
  apply (HQ _ W'); [|by rewrite Ek|by rewrite Ek]. apply tracked_emptied.
  - assert (kern_ok (kern s3)) as Hk3.
    { rewrite Ek. apply kern_ok_queue, kern_ok_watches; [|apply (ko_wd _ Hk)]. apply kern_ok_queue.
      destruct (outside_ok (kern s) p n Hk) as [K1 K2 K3 K4 K5]. by split. }
    split; [exact Hk3| | | | |].
    + apply (watching_sub W W' (kern s)); [done|done|..]; rewrite Ek; try done.
      intros wd' r Hr'. apply map_lookup_filter_Some in Hr' as [Hr' Hno]. destruct (wa_tree _ _ HW _ _ Hr') as [[j Hj] _].
      rewrite Hj. apply (outside_lookup a). done.
    + rewrite Ek. exact HC3.
    + intros wd' r Hr'. eapply Hnm, lookup_weaken; [exact Hr'|exact Hsub].
    + by eapply plain_settings.
    + unfold settings in Hset. injection Hset as -> _ _ _ _ _. rewrite Ek. exact Hr.
  - rewrite Ek. intros q [j [Hj Hno]%(outside_lookup a)]. destruct (Hcov q ltac:(by eexists)) as [wd' Hwd'].
    exists wd'. apply map_lookup_filter_Some. done.
Qed.

(** The two events of a rename, and the reports of the directory it replaced. *)
Lemma process_renamed W p n q m wd1 wd2 cookie gone_evs W1 fuel (Q : unit -> wst ikern -> Prop) s :
  let a := p ++ [n] in let b := q ++ [m] in
  let ev1 := MkEvent wd1 (Z.lor IN_MOVED_FROM IN_ISDIR) cookie (name_len n) n in
  let ev2 := MkEvent wd2 (Z.lor IN_MOVED_TO IN_ISDIR) cookie (name_len m) m in
  good W1 W s -> W !! wd1 = Some p -> W !! wd2 = Some q -> fits_name n = true -> fits_name m = true ->
  path_ok a -> path_ok b -> strlen (render (base (kern s)) a) < PATH_MAX -> strlen (render (base (kern s)) b) < PATH_MAX ->
  (forall wd r, W !! wd = Some r -> strlen (render (base (kern s)) (moved a b r)) < PATH_MAX) ->
  gone_evs = [] /\ W1 = moved a b <$> W \/
  (exists wd3, gone_evs = [self_event wd3 (Z.lor IN_DELETE_SELF IN_ISDIR); self_event wd3 IN_IGNORED] /\
     W1 = delete wd3 (moved a b <$> W) /\ (moved a b <$> W) !! wd3 = Some b) ->
  (4 < fuel)%nat ->
  (forall s', good W1 W1 s' -> kern s' = kern s -> Q tt s') ->
  runs excuse (process_buffer fuel (ev1 :: ev2 :: gone_evs) (ev_sizes (ev1 :: ev2 :: gone_evs)) true) Q s.
Proof.
  intros a b ev1 ev2 HG Hp Hq Hn Hm Ha Hb Hla Hlb Hfit Hgone Hf HQ.
  destruct (sized_name wd1 (Z.lor IN_MOVED_FROM IN_ISDIR) cookie n Hn) as [S1 _].
  destruct (sized_name wd2 (Z.lor IN_MOVED_TO IN_ISDIR) cookie m Hm) as [S2 _]. fold ev1 in S1. fold ev2 in S2.
  assert (0 <= ev_sizes gone_evs) as Hg0 by (destruct Hgone as [[-> _]|(wd3 & -> & _)]; done).
  rewrite !ev_sizes_cons. destruct fuel as [|fuel]; [lia|]. apply process_step; [lia|].
  apply (renamed_spec W1 W _ _ _ _ _ p n q m); try done; [lia|].
  intros s' HG' Ek. fold a b in HG'. exists 2%nat. split; [done|].
  change (drop 2 (ev1 :: ev2 :: gone_evs)) with gone_evs. change (take 2 (ev1 :: ev2 :: gone_evs)) with [ev1; ev2].
  rewrite !ev_sizes_cons. change (ev_sizes []) with 0.
  replace (ev_size ev1 + (ev_size ev2 + ev_sizes gone_evs) - (ev_size ev1 + (ev_size ev2 + 0))) with (ev_sizes gone_evs) by lia.
  destruct Hgone as [[-> E1]|(wd3 & -> & E1 & H3)].
  - destruct fuel as [|fuel]; [lia|]. cbn. apply HQ; [|done]. by rewrite <- E1 in HG'.
  - apply (process_gone (moved a b <$> W) wd3 q m); [by rewrite <- E1|exact H3|lia|].
    intros s2 HG2 Ek2. apply HQ; [by rewrite E1|congruence].
Qed.

(** What a rename leaves, whether it replaced a directory or not. *)
Lemma settle_renamed W Wb p n q m wd1 wd2 cookie gone_evs k1 (Q : unit -> wst ikern -> Prop) s :
  let a := p ++ [n] in let b := q ++ [m] in
  tracked W s -> is_Some (tree (kern s) !! a) -> is_Some (tree (kern s) !! q) -> leaf b (kern s) = true ->
  ~ a `prefix_of` b -> ~ b `prefix_of` a -> fits_name n = true -> fits_name m = true -> path_ok b ->
  (forall r, is_Some (tree (kern s) !! r) -> strlen (render (base (kern s)) (moved a b r)) < PATH_MAX) ->
  W !! wd1 = Some p -> W !! wd2 = Some q -> Wb ⊆ W ->
  (forall wd r, W !! wd = Some r -> r <> b -> Wb !! wd = Some r) -> (forall wd, Wb !! wd <> Some b) ->
  gone_evs = [] /\ Wb = W \/
  (exists wd3, gone_evs = [self_event wd3 (Z.lor IN_DELETE_SELF IN_ISDIR); self_event wd3 IN_IGNORED] /\
     Wb = delete wd3 W /\ W !! wd3 = Some b) ->
  base k1 = base (kern s) -> next_wd k1 = next_wd (kern s) -> next_ino k1 = next_ino (kern s) ->
  tree k1 = renamed_tree (k := kern s) (p := p) (q := q) (n := n) (m := m) ->
  queue k1 = MkEvent wd1 (Z.lor IN_MOVED_FROM IN_ISDIR) cookie (name_len n) n ::
             MkEvent wd2 (Z.lor IN_MOVED_TO IN_ISDIR) cookie (name_len m) m :: gone_evs ->
  (forall wd, is_Some (watches k1 !! wd) <-> is_Some (Wb !! wd)) ->
  (forall wd, is_Some (Wb !! wd) -> watches k1 !! wd = watches (kern s) !! wd) ->
  absorbed k1 Q s.
Proof.
  intros a b HT Ha Hq Hl Hab Hba Hn Hm Hokb Hfit Hwd1 Hwd2 Hsub Hkeep Hnob Hgone Eb En Ei Et Eq Hdom Hval HQ.
  pose proof HT as (HG & Hcov & Hq0). pose proof HG as [Hk HW HC Hnm Ho Hr].
  assert (forall r i, tree k1 !! r = Some i <-> exists r0, tree (kern s) !! r0 = Some i /\ r0 <> b /\ r = moved a b r0) as Hlook.
  { intros r i. rewrite Et. by apply renamed_lookup. }
  assert (moved a b b = b) as Eb' by (unfold moved; by rewrite decide_False).
  assert (moved a b a = b) as Ea' by (unfold moved; by rewrite decide_True, drop_all, app_nil_r).
  assert (kern_ok k1) as Hk1.
  { destruct (renamed_ok Hk Ha Hq Hl Hab Hba Hokb Hfit) as [K1 K2 K3 K4 K5]. rewrite <- Et in *.
    split; rewrite ?Eb, ?Ei, ?En; try done. }
  assert (forall wd r, Wb !! wd = Some r -> is_Some (tree (kern s) !! r) /\ r <> b) as HWb.
  { intros wd r Hr'. split; [by apply (wa_tree _ _ HW wd), (lookup_weaken Wb)|]. intros ->. by apply (Hnob wd). }
  assert (watching (moved a b <$> Wb) k1) as HW1.
  { apply (watching_map _ W Wb (kern s)); try done.
    - intros wd r Hr'. destruct (HWb _ _ Hr') as [[i Hi] Hne]. rewrite Hi. apply Hlook. by exists r.
    - intros wd wd' r r' Hr1 Hr2 E. destruct (HWb _ _ Hr1) as [? ?], (HWb _ _ Hr2) as [? ?].
      by apply (moved_inj Hk Ha Hq Hl Hab Hba). }
  set (evs := _ :: _ :: gone_evs) in Eq.
  assert (Forall sized evs /\ (length evs <= 4)%nat) as [Hsz Hlen].
  { destruct Hgone as [[-> _]|(wd3 & -> & _)]; (split; [|cbn; lia]);
      repeat (constructor; [first [by apply sized_name|apply sized_self]|]); constructor. }
  apply (settle_reads evs); [exact Ho|exact Eq|done|exact Hsz|lia|].
  intros fuel _ Hf. set (s1 := set_kern (set_queue [] (kern (set_kern k1 s))) (set_kern k1 s)).
  destruct Ha as [ia Hia]. pose proof (ko_path _ Hk _ _ Hia) as (Hoka & Hla & _).
  apply (process_renamed W p n q m _ _ _ _ (moved a b <$> Wb)); try done.
  - split; cbn [s1 kern set_kern wlCache rootDirPaths base set_queue]; rewrite ?Eb; try done.
    + by apply kern_ok_queue.
    + by destruct HW1.
  - cbn. by rewrite Eb.
  - cbn. rewrite Eb. fold b. rewrite <- Ea'. apply Hfit. by eexists.
  - intros wd r Hr'. cbn. rewrite Eb. by apply Hfit, (wa_tree _ _ HW wd).
  - destruct Hgone as [[-> ->]|(wd3 & -> & -> & H3)]; [by left|right]. exists wd3. split; [done|].
    rewrite fmap_delete, lookup_fmap, H3. split; [done|]. change (Some (moved a b b) = Some b). by rewrite Eb'.
  - intros s2 HG2 Ek. rewrite Ek. split; [apply HG2|]. split; [constructor|]. split; [cbn; lia|].
    rewrite <- Ek. apply (HQ _ (moved a b <$> Wb)); [|by rewrite Ek|by rewrite Ek]. apply tracked_emptied; [done|].
    rewrite Ek. intros r [i (r0 & Hr0 & Hne & ->)%Hlook]. destruct (Hcov r0 ltac:(by eexists)) as [wd Hwd].
    exists wd. by rewrite lookup_fmap, (Hkeep _ _ Hwd Hne).
Qed.

Lemma rename_absorbed W p n q m k1 Q s :
  tracked W s -> apply_change (Rename p n q m) (kern s) = Some k1 -> absorbed k1 Q s.
Proof.
  intros HT E. cbn [apply_change] in E. set (a := p ++ [n]) in *. set (b := q ++ [m]) in *.
  destruct (_ && _) eqn:G in E; [|done]. injection E as <-.
  apply andb_prop in G as [[[[[[[[G1%exists_pathP G2%exists_pathP]%andb_prop G3%exists_pathP]%andb_prop G4]%andb_prop G5]%andb_prop G6]%andb_prop
    G7%negb_true_iff%bool_decide_eq_false]%andb_prop G8%negb_true_iff%bool_decide_eq_false]%andb_prop G9].
  pose proof HT as (HG & Hcov & Hq0). pose proof HG as [Hk HW HC Hnm Ho Hr].
  assert (forall r, is_Some (tree (kern s) !! r) -> strlen (render (base (kern s)) (moved a b r)) < PATH_MAX) as Hfit.
  { intros r [i Hi]. rewrite forallb_forall in G9. apply Z.ltb_lt, (G9 r), list_elem_of_In, list_elem_of_fmap.
    exists (r, i). split; [done|]. by apply elem_of_map_to_list. }
  assert (path_ok b) as Hokb.
  { apply Forall_app. split; [destruct G3 as [i Hi]; by apply (ko_path _ Hk) in Hi as (? & _)|].
    constructor; [by apply fits_name_ok|done]. }
  destruct (tracked_wd W s p HT G1) as (wd1 & i1 & Hwd1 & Hi1 & Hwi1).
  destruct (tracked_wd W s q HT G3) as (wd2 & i2 & Hwd2 & Hi2 & Hwi2).
  rewrite (notify_some _ _ _ _ (kern s) i1 wd1 Hi1 Hwi1).
  rewrite (notify_some _ _ _ _ (set_queue _ (kern s)) i2 wd2 Hi2 Hwi2).
  set (k0 := next_rename _). unfold replaced. destruct (tree (kern s) !! b) as [ib|] eqn:Hb.
  - destruct (tracked_wd W s b HT ltac:(by eexists)) as (wd3 & i3 & Hwd3 & Hi3 & Hwi3).
    rewrite Hb in Hi3. injection Hi3 as <-. assert (wd_of ib k0 = Some wd3) as Hwi0 by exact Hwi3.
    rewrite (gone_watched _ _ _ Hwi0).
    apply (settle_renamed W (delete wd3 W) p n q m wd1 wd2 (next_cookie (kern s))
      [self_event wd3 (Z.lor IN_DELETE_SELF IN_ISDIR); self_event wd3 IN_IGNORED]); try done.
    + apply delete_subseteq.
    + intros wd r Hr' Hne. apply lookup_delete_Some. split; [|done]. intros <-. apply Hne. by pose proof (eq_trans (eq_sym Hr') Hwd3) as [= ->].
    + intros wd [Hne Hw]%lookup_delete_Some. apply Hne. by apply (wa_inj _ _ HW _ _ b).
    + right. by exists wd3.
    + cbn. by rewrite Hq0.
    + intros wd. cbn. rewrite !lookup_delete_is_Some. by rewrite (wa_dom _ _ HW).
    + intros wd [Hne _]%lookup_delete_is_Some. cbn. by rewrite lookup_delete_ne.
  - apply (settle_renamed W W p n q m wd1 wd2 (next_cookie (kern s)) []); try done.
    + intros wd Hw. destruct (wa_tree _ _ HW _ _ Hw) as [Hs _]. fold b in Hs. rewrite Hb in Hs. by destruct Hs.
    + by left.
    + cbn. by rewrite Hq0.
    + intros wd. apply (wa_dom _ _ HW).
Qed.

(** ** Starting, and starting again *)

Lemma reinitialize_spec fd (Q : unit -> wst ikern -> Prop) s :
  kern_ok (kern s) -> plain_options s -> rootDirPaths s = [Some (base (kern s))] ->
  (forall s' W', tracked W' s' -> tree (kern s') = tree (kern s) -> base (kern s') = base (kern s) -> Q tt s') ->
  runs excuse (reinitialize fd) Q s.
Proof.
  intros Hk Ho Hr HQ.
  assert (forall s0, kern_ok (kern s0) -> plain_options s0 -> rootDirPaths s0 = [Some (base (kern s0))] ->
    tree (kern s0) = tree (kern s) -> base (kern s0) = base (kern s) ->
    runs excuse (let! r := sys inotify_init in
                 match r with
                 | inr _ => stop "inotify_init"
                 | inl fd => do! modify (set_inotifyFd fd) in do! freeCache in let! l := gets rootDirPaths in watch_roots l
                 end) Q s0) as Hmain.
  { intros s0 Hk0 Ho0 Hr0 Et0 Eb0. run. unfold sys. unfold runs at 1. cbn [inotify_init ikern_inotify].
    unfold freeCache. repeat run. set (s1 := set_wlCache [] _). cbn [rootDirPaths s1 set_wlCache set_inotifyFd set_kern].
    rewrite Hr0. cbn [watch_roots]. run.
    assert (good ∅ ∅ s1) as HG.
    { split; try done; cbn [s1 kern set_wlCache set_inotifyFd set_kern wlCache rootDirPaths base set_queue set_watches].
      - apply kern_ok_queue, kern_ok_watches; [done|lia].
      - split; cbn.
        + intros wd. rewrite !lookup_empty. split; by intros [? ?].
        + by intros wd p ?%lookup_empty_Some.
        + by intros wd wd' p ?%lookup_empty_Some.
        + by intros wd p ?%lookup_empty_Some. }
    assert (render (base (kern s1)) [] = base (kern s0)) as Eb by (unfold render; cbn; apply append_nil_r).
    rewrite <- Eb. apply (watchSubtree_new ∅); [done|apply (ko_root _ Hk0)|done|].
    intros s2 W2 HG2 _ Hall (Et2 & Eb2 & Eq2). run.
    apply (HQ s2 W2); [|by rewrite Et2|by rewrite Eb2]. split; [done|]. split; [|by rewrite Eq2].
    intros q Hq. rewrite Et2 in Hq. apply Hall; [done|apply prefix_nil]. }
  unfold reinitialize. run. destruct (0 <=? fd).
  - run. apply Hmain; try done. cbn. apply kern_ok_queue, kern_ok_watches; [done|lia].
  - run. by apply Hmain.
Qed.

Lemma find_root k : kern_ok k -> exists i, find_path (base k) k = Some ([], i).
Proof.
  intros Hk. destruct (ko_root _ Hk) as [i Hi]. exists i. rewrite <- (find_path_some k [] i Hk Hi).
  unfold render. cbn. by rewrite append_nil_r.
Qed.

Lemma start_spec o k (Q : unit -> wst ikern -> Prop) :
  kern_ok k -> plain_options (start o k) ->
  (forall s' W', tracked W' s' -> tree (kern s') = tree k -> base (kern s') = base k -> Q tt s') ->
  runs excuse (do! copyRootDirPaths [base k] in reinitialize (-1)) Q (start o k).
Proof.
  intros Hk Ho HQ. destruct (find_root k Hk) as [i Hi]. unfold copyRootDirPaths, check_dirs, check_same.
  repeat run. cbn [lstat ikern_inotify kern start]. rewrite Hi. cbn [fmap option_fmap option_map snd]. run. run; [done|].
  repeat run. cbn [lstat ikern_inotify kern start]. rewrite Hi. cbn [fmap option_fmap option_map snd]. run. run; [done|].
  repeat run. by apply reinitialize_spec.
Qed.

Lemma settle_quiet (Q : unit -> wst ikern -> Prop) s : queue (kern s) = [] -> Q tt s -> runs excuse settle Q s.
Proof. intros Hq HQ. unfold settle. run. run. rewrite Hq. cbn [settle_loop Nat.add]. run. run. by rewrite Hq. Qed.

Lemma live_through_spec l k W (Q : unit -> wst ikern -> Prop) s :
  tracked W s -> same_paths k (kern s) -> none_over l k = true ->
  (forall s' W', tracked W' s' -> Q tt s') -> runs excuse (live_through l) Q s.
Proof.
  revert k W s. induction l as [|c l IH]; intros k W s HT HS HN HQ; cbn [live_through]; [run; by apply (HQ s W)|].
  cbn [none_over] in HN. apply andb_prop in HN as [Hc%negb_true_iff HN]. rewrite (moves_over_same c _ _ HS) in Hc.
  pose proof (same_paths_change c _ _ HS) as HS'. run. unfold happens. run. run.
  destruct (apply_change c (kern s)) as [k1|] eqn:E; cbn [default id] in *.
  - assert (forall Q, absorbed k1 Q s) as Habs.
    { intros Q'. destruct c as [p n|p n|p n q m|p n|p n sub].
      - by eapply mkdir_absorbed.
      - by eapply rmdir_absorbed.
      - by eapply rename_absorbed.
      - by eapply moveout_absorbed.
      - cbn [moves_over] in Hc. rewrite E in Hc. rewrite (bool_decide_eq_true_2 (is_Some (Some k1))), andb_true_r in Hc by done.
        apply exists_pathN in Hc. by eapply movein_absorbed. }
    apply Habs. intros s' W' HT' Et Eb. apply (IH _ W' s' HT' (same_paths_trans _ _ _ HS' (same_paths_eq _ _ Et Eb)) HN HQ).
  - assert (set_kern (kern s) s = s) as Es by (by destruct s). rewrite Es.
    apply settle_quiet; [apply HT|]. by apply (IH _ W s HT HS').
Qed.
End Live.

(** ** The theorems *)

(** The cache has every directory of the tree once, by its present pathname, with the watch that
    is on it. *)
Definition shows_tree (s : wst ikern) : Prop :=
  (w_path <$> active (wlCache s)) ≡ₚ ((fun pi => render (base (kern s)) (fst pi)) <$> map_to_list (tree (kern s))) /\
  Forall (fun w => exists p i, w_path w = render (base (kern s)) p /\ tree (kern s) !! p = Some i /\
            watches (kern s) !! w_wd w = Some i) (active (wlCache s)).

Lemma tracked_shows W s : tracked W s -> shows_tree s.
Proof.
  intros ([Hk HW HC Hn Ho Hr] & Hcov & _). split.
  - assert ((w_path <$> active (wlCache s)) = snd <$> pairs (wlCache s)) as ->.
    { rewrite pairs_active, <- list_fmap_compose. done. }
    rewrite (c_pairs _ _ HC), map_to_list_fmap, <- list_fmap_compose.
    replace ((snd ∘ prod_map id (render (base (kern s)))) <$> map_to_list W)
      with (render (base (kern s)) <$> (snd <$> map_to_list W)) by (by rewrite <- list_fmap_compose).
    replace ((fun pi => render (base (kern s)) (fst pi)) <$> map_to_list (tree (kern s)))
      with (render (base (kern s)) <$> (fst <$> map_to_list (tree (kern s)))) by (by rewrite <- list_fmap_compose).
    apply fmap_Permutation, NoDup_Permutation; [|apply NoDup_fst_map_to_list|].
    + apply NoDup_fmap_2_strong; [|apply NoDup_map_to_list]. intros [wd p] [wd' p'] H1%elem_of_map_to_list H2%elem_of_map_to_list E.
      cbn in E. subst p'. f_equal. by apply (wa_inj _ _ HW _ _ p).
    + intros p. rewrite !list_elem_of_fmap. split.
      * intros ([wd p'] & -> & Hp%elem_of_map_to_list). destruct (wa_tree _ _ HW _ _ Hp) as [[i Hi] _].
        exists (p', i). split; [done|]. by apply elem_of_map_to_list.
      * intros ([p' i] & -> & Hp%elem_of_map_to_list). destruct (Hcov p' ltac:(by eexists)) as [wd Hwd].
        exists (wd, p'). split; [done|]. by apply elem_of_map_to_list.
  - apply Forall_forall. intros [wd t] [Hwd Hin]%list_elem_of_filter.
    destruct (caches_slot HC wd t Hin Hwd) as (p & Hp & ->). destruct (wa_tree _ _ HW _ _ Hp) as [[i Hi] E].
    exists p, i. split; [done|]. split; [done|]. cbn [w_wd]. congruence.
Qed.

(** C13. The watcher is started on a tree; directories are made, removed, renamed, moved out and moved
    in, in any order, and after each change it reads its events.  Only a directory from outside is
    never moved in over one of the tree: there the cache goes wrong, see [moved_in_over].  The watcher
    never stops, and its cache is then the list of the directories of the tree, each with the
    watch that is on it. *)
Theorem watcher_tracks l o k :
  kern_ok k -> plain_options (start o k) -> none_over l k = true ->
  runs False (do! (do! copyRootDirPaths [base k] in reinitialize (-1)) in live_through l)
    (fun _ s => shows_tree s) (start o k).
Proof.
  intros Hk Ho Hl. run. apply start_spec; [done|done|]. intros s W HT Et Eb.
  apply (live_through_spec l k W); [done|by apply same_paths_eq|done|]. intros s' W'. by apply tracked_shows.
Qed.

(** When the queue of events overflows, or an event comes from a watch the cache does not know, the
    cache is built anew: whatever it held, it is then the list of the directories of the tree. *)
Theorem rebuild_restores ev rest rem ft s :
  kern_ok (kern s) -> plain_options s -> rootDirPaths s = [Some (base (kern s))] -> abortOnCacheProblem s = false ->
  ev_wd ev = -1 /\ ev_mask ev = IN_Q_OVERFLOW \/
    ev_wd ev <> -1 /\ has ev IN_IGNORED = false /\ Forall (fun w => w_wd w <> ev_wd ev) (wlCache s) ->
  runs False (processNextInotifyEvent (ev :: rest) rem ft) (fun r s' => r = Discard /\ shows_tree s') s.
Proof.
  intros Hk Ho Hr Hab [[Hwd Hm]|(Hwd & Hi & Hno)]; unfold processNextInotifyEvent.
  - rewrite Hwd. cbn [negb andb Z.eqb Pos.eqb]. unfold dispatch, has. rewrite Hm.
    change (negb (Z.land IN_Q_OVERFLOW IN_ISDIR =? 0)) with false. cbn [andb].
    change (negb (Z.land IN_Q_OVERFLOW IN_DELETE_SELF =? 0)) with false.
    change (Z.land IN_Q_OVERFLOW (Z.lor IN_MOVED_FROM IN_ISDIR) =? Z.lor IN_MOVED_FROM IN_ISDIR) with false.
    change (negb (Z.land IN_Q_OVERFLOW IN_Q_OVERFLOW =? 0)) with true. cbv iota.
    repeat run. apply reinitialize_spec; [done..|]. intros s' W' HT _ _. cbv beta.
    apply runs_after; [apply HT|]. split; [done|]. by eapply tracked_shows.
  - rewrite (proj2 (Z.eqb_neq _ _)), Hi by done. cbn [negb andb]. unfold findWatchChecked. run. run. apply runs_findWatch.
    rewrite (proj2 (list_find_None _ _) Hno). cbn [fmap option_fmap option_map]. run. run. rewrite Hab. run. unfold rebuild.
    repeat run. apply reinitialize_spec; [done..|]. intros s' W' HT _ _. run. split; [done|]. by eapply tracked_shows.
Qed.

(** The command [w] writes the pathnames of the cache, a line each. *)
Lemma say_lines_said l (s : wst ikern) :
  exists s', say_lines l s = Ret tt s' /\ said s' = said s ++ l.
Proof.
  revert s. induction l as [|w l IH]; intros s; [exists s; by rewrite app_nil_r|].
  cbn [say_lines]. unfold bind, say, modify. edestruct IH as (s' & -> & E). exists s'. split; [done|].
  rewrite E. cbn [said fmap list_fmap]. by rewrite <- (assoc_L (++)).
Qed.

(** The list that the command [w] writes is that of the directories. *)
Lemma write_command s :
  shows_tree s -> said s = [] ->
  exists s', executeCommand (Some ("w out" +:+ nl))%string s = Ret tt s' /\
    said s' ≡ₚ ((fun pi => render (base (kern s)) (fst pi)) <$> map_to_list (tree (kern s))).
Proof.
  intros [Hs _] H0. destruct (say_lines_said (w_path <$> active (wlCache s)) s) as (s' & E & Es). exists s'. split; [exact E|].
  by rewrite Es, H0.
Qed.

(** ** Runs *)

Definition small_tree : ikern :=
  MkIKern "/t" {[ [] := 0%nat; ["a"%string] := 1%nat; ["a"%string; "b"%string] := 2%nat ]} 3 ∅ 1 1 [].

Lemma small_tree_lookup p i :
  tree small_tree !! p = Some i ->
  p = [] /\ i = 0%nat \/ p = ["a"%string] /\ i = 1%nat \/ p = ["a"%string; "b"%string] /\ i = 2%nat.
Proof.
  cbn [tree small_tree]. intros [[<- <-]|[_ H]]%lookup_insert_Some; [by left|].
  apply lookup_insert_Some in H as [[<- <-]|[_ H]]; [by right; left|].
  apply lookup_singleton_Some in H as [<- <-]. by right; right.
Qed.

Lemma small_tree_ok : kern_ok small_tree.
Proof.
  split.
  - by eexists.
  - intros p i [[-> ->]|[[-> ->]|[-> ->]]]%small_tree_lookup; (split; [unfold path_ok; by apply (bool_decide_unpack _); vm_compute|]);
      (split; [by vm_compute|cbn; lia]).
  - intros p n [i H]. apply small_tree_lookup in H as [[E _]|[[E _]|[E _]]].
    + by destruct p.
    + destruct p as [|x [|y p]]; [by eexists|done|done].
    + destruct p as [|x [|y [|z p]]]; [done| |done|done]. injection E as -> _. by eexists.
  - intros p q i Hp%small_tree_lookup Hq%small_tree_lookup. naive_solver.
  - done.
Qed.

(** Among them is a directory moved in from outside, with one below it. *)
Lemma watcher_tracks_witness :
  runs False (do! (do! copyRootDirPaths ["/t"%string] in reinitialize (-1)) in
              live_through [Mkdir [] "c"; Rename [] "a" ["c"%string] "d"; MoveOut ["c"%string] "d";
                            MoveIn ["c"%string] "d" [[]; ["e"%string]]; Rmdir ["c"%string; "d"%string] "e"])
    (fun _ s => shows_tree s) (start no_options small_tree).
Proof.
  apply (watcher_tracks [Mkdir [] "c"; Rename [] "a" ["c"%string] "d"; MoveOut ["c"%string] "d";
                         MoveIn ["c"%string] "d" [[]; ["e"%string]]; Rmdir ["c"%string; "d"%string] "e"]
           no_options small_tree).
  - exact small_tree_ok.
  - by repeat split.
  - by vm_compute.
Defined.

Lemma rebuild_restores_witness :
  runs False (processNextInotifyEvent [MkEvent (-1) IN_Q_OVERFLOW 0 0 EmptyString] 16 true)
    (fun r s' => r = Discard /\ shows_tree s')
    (set_roots [Some "/t"%string] 0 (start no_options small_tree)).
Proof.
  apply (rebuild_restores (MkEvent (-1) IN_Q_OVERFLOW 0 0 EmptyString) [] 16 true
           (set_roots [Some "/t"%string] 0 (start no_options small_tree))).
  - exact small_tree_ok.
  - by repeat split.
  - reflexivity.
  - reflexivity.
  - by left.
Defined.

(** The pathnames of the cache at the end of a run, or why there is none. *)
Definition cached (m : prog (wst ikern) unit) (o : options) : list string + (string + option ub) :=
  match m (start o small_tree) with
  | Ret _ s => inl (w_path <$> active (wlCache s))
  | Stop msg => inr (inl msg)
  | Fault u => inr (inr (Some u))
  | Loops => inr (inr None)
  end.

Definition started : prog (wst ikern) unit := do! copyRootDirPaths ["/t"%string] in reinitialize (-1).

(** A directory that is moved into the tree in place of an empty one is not watched: when its
    event is read the cache still has the pathname, of the directory that is gone.  Nothing else
    is needed for the cache to be wrong, so [none_over] cannot be dropped. *)
Lemma moved_in_over :
  cached (do! started in do! happens (apply_change (MoveIn ["a"%string] "b" [[]; ["c"%string]])) in settle) no_options
    = inl ["/t/a"; "/t"]%string.
Proof. by vm_compute. Qed.

(** With [-x], a slot that is not used is checked with a status that was never read. *)
Lemma check_of_unused_slot :
  cached (do! started in do! happens (apply_change (Rmdir ["a"%string] "b")) in settle)
    (MkOptions false true false 0 0 false) = inr (inr (Some UninitRead)).
Proof. by vm_compute. Qed.

(** With a log, the slots that [realloc] adds are printed before they are written. *)
Lemma log_of_new_slots : cached started (MkOptions false false false 0 0 true) = inr (inr (Some UninitRead)).
Proof. by vm_compute. Qed.

(** With [-d] and no log, the dump has no file to go to. *)
Lemma dump_without_log :
  cached (do! started in do! happens (apply_change (Mkdir [] "c")) in settle)
    (MkOptions false false true 0 0 false) = inr (inr (Some NullDeref)).
Proof. by vm_compute. Qed.

(** A buffer size above that of the buffer is used for the read. *)
Lemma buffer_overrun :
  cached (do! started in
          do! happens (fun k => Some (set_queue (replicate 1701 (self_event 1 IN_IGNORED)) k)) in settle)
    (MkOptions false false false 0 100000 false) = inr (inr (Some OutOfBounds)).
Proof. by vm_compute. Qed.

(** A command that lacks its argument uses what [sscanf] did not write. *)
Lemma command_without_argument :
  cached (do! started in executeCommand (Some ("z" +:+ nl))%string) no_options = inr (inr (Some UninitRead)).
Proof. by vm_compute. Qed.
