(* ===== verification/Dll.v ===== *)
(** * Doubly linked lists of blocks

    A block of type [N] has the addresses of the next and of the previous block; [nodes h b l a] says
    that the blocks [l] of the heap [h] follow each other.  The files that have such lists bring their
    own blocks, of whose links [nx] and [pv] are the readers. *)

From S2P Require Import Prelude.

Section Nodes.
Context {N : Type} (nx pv : N -> option nat).

(** The blocks [l] follow each other from [b], the block before the first, to [a], the one after
    the last. *)
Fixpoint nodes (h : gmap nat N) (b : option nat) (l : list nat) (a : option nat) : Prop :=
  match l with
  | [] => True
  | p :: l =>
      (exists j, h !! p = Some j /\ nx j = match l with [] => a | n :: _ => Some n end /\ pv j = b) /\
      nodes h (Some p) l a
  end.

Definition or_else (x y : option nat) : option nat := match x with Some _ => x | None => y end.

Lemma nodes_app h b l1 l2 a :
  nodes h b (l1 ++ l2) a <-> nodes h b l1 (or_else (head l2) a) /\ nodes h (or_else (last l1) b) l2 a.
Proof.
  revert b. induction l1 as [|p l1 IH]; intros b; [cbn; tauto|].
  cbn [app nodes]. rewrite IH. destruct l1 as [|n l1].
  - destruct l2 as [|m l2]; cbn; tauto.
  - cbn [app]. rewrite last_cons_cons. cbn [last]. destruct (last (n :: l1)) eqn:E; [cbn; tauto|].
    by apply last_None in E.
Qed.

(** A block that is not among them may change. *)
Lemma nodes_frame h b l a p j : p ∉ l -> nodes h b l a -> nodes (<[p := j]> h) b l a.
Proof.
  revert b. induction l as [|n l IH]; intros b; [done|]. intros [Hn Hl]%not_elem_of_cons [Hj Hr].
  split; [by rewrite lookup_insert_ne|by apply IH].
Qed.

Lemma nodes_free h b l a p : p ∉ l -> nodes h b l a -> nodes (delete p h) b l a.
Proof.
  revert b. induction l as [|n l IH]; intros b; [done|]. intros [Hn Hl]%not_elem_of_cons [Hj Hr].
  split; [by rewrite lookup_delete_ne|by apply IH].
Qed.

(** The links to the outside may change: [j'] is the first, or the last, block with another. *)
Lemma nodes_first h b n l a j j' :
  n ∉ l -> h !! n = Some j -> nx j' = nx j -> nodes h b (n :: l) a -> nodes (<[n := j']> h) (pv j') (n :: l) a.
Proof.
  intros Hn Ej Enx [(j0 & Ej0 & En & _) Hr]. simplify_eq. split; [|by apply nodes_frame].
  rewrite lookup_insert_eq. exists j'. by rewrite Enx.
Qed.

Lemma nodes_last h b l n a j j' :
  n ∉ l -> h !! n = Some j -> pv j' = pv j -> nodes h b (l ++ [n]) a -> nodes (<[n := j']> h) b (l ++ [n]) (nx j').
Proof.
  intros Hn Ej Epv. rewrite !nodes_app. intros [H1 [(j0 & Ej0 & _ & Ep) _]]. simplify_eq.
  split; [by apply nodes_frame|]. split; [|done]. rewrite lookup_insert_eq. exists j'. by rewrite Epv.
Qed.

Lemma nodes_ext h h' b l a : (forall r, r ∈ l -> h !! r = h' !! r) -> nodes h b l a -> nodes h' b l a.
Proof.
  revert b. induction l as [|n l IH]; intros b He; [done|]. intros [Hj Hr]. split; [rewrite <- He by left; done|]. apply IH; [|done]. intros r Hr'. apply He. by right.
Qed.

Lemma nodes_live h b l a p : nodes h b l a -> p ∈ l -> is_Some (h !! p).
Proof.
  revert b. induction l as [|n l IH]; intros b Hn Hp; [by apply elem_of_nil in Hp|].
  destruct Hn as [(j & Ej & _) Hr]. apply elem_of_cons in Hp as [->|Hp]; [by eexists|by eapply IH].
Qed.

(** The list between two ends. *)
Record dll (h : gmap nat N) (hd tl : option nat) (l : list nat) : Prop := MkDll {
  d_nodup : NoDup l;
  d_head : hd = head l;
  d_tail : tl = last l;
  d_nodes : nodes h None l None
}.

Lemma dll_live h hd tl l p : dll h hd tl l -> p ∈ l -> is_Some (h !! p).
Proof. intros D. by apply (nodes_live h None l None), D. Qed.

Lemma dll_inner h hd tl a p b : dll h hd tl (a ++ p :: b) ->
  exists j, h !! p = Some j /\ pv j = last a /\ nx j = head b /\ (p ∉ a) /\ (p ∉ b).
Proof.
  intros [Hd _ _ Hn]. apply NoDup_app in Hd as (_ & Hab & [Hpb _]%NoDup_cons). apply nodes_app in Hn as [_ [(j & Ej & Enx & Epv) _]].
  exists j. split_and!; [done|rewrite Epv; by destruct (last a)|rewrite Enx; by destruct b| |done]. intros Hp. apply (Hab p Hp). by left.
Qed.

(** In front: [j'] is the new block, [n'] the former first one. *)
Lemma dll_push h hd tl l p j' : dll h hd tl l -> p ∉ l -> nx j' = hd -> pv j' = None ->
  match hd with
  | None => dll (<[p := j']> h) (Some p) (Some p) [p]
  | Some n => forall n0 n', h !! n = Some n0 -> nx n' = nx n0 -> pv n' = Some p -> dll (<[n := n']> (<[p := j']> h)) (Some p) tl (p :: l)
  end.
Proof.
  intros [Hd Hh Ht Hn] Hp Enx Epv. destruct l as [|n l]; cbn in Hh; subst hd.
  - constructor; cbn; [apply NoDup_singleton|done|done|]. split; [|done]. rewrite lookup_insert_eq. by eexists.
  - intros n0 n' En0 Enn Enp. apply not_elem_of_cons in Hp as [Hpn Hpl]. pose proof Hd as [Hnl _]%NoDup_cons.
    constructor; [by apply NoDup_cons; split; [apply not_elem_of_cons|]|done|by rewrite last_cons_cons|]. split.
    + rewrite lookup_insert_ne, lookup_insert_eq by done. by eexists.
    + rewrite <- Enp. eapply nodes_first; [done|by rewrite lookup_insert_ne|done|]. apply nodes_frame; [by apply not_elem_of_cons|done].
Qed.

(** At the end. *)
Lemma dll_append h hd tl l p j' : dll h hd tl l -> p ∉ l -> nx j' = None -> pv j' = tl ->
  match tl with
  | None => dll (<[p := j']> h) (Some p) (Some p) [p]
  | Some t => forall t0 t', h !! t = Some t0 -> pv t' = pv t0 -> nx t' = Some p -> dll (<[t := t']> (<[p := j']> h)) hd (Some p) (l ++ [p])
  end.
Proof.
  intros [Hd Hh Ht Hn] Hp Enx Epv. destruct l as [|t l _] using rev_ind.
  - cbn in Ht. subst tl. constructor; cbn; [apply NoDup_singleton|done|done|]. split; [|done]. rewrite lookup_insert_eq. by eexists.
  - rewrite last_snoc in Ht. subst tl. intros t0 t' Et0 Ett Etn.
    apply NoDup_app in Hd as Hd'. destruct Hd' as (_ & Htl & _). assert (t ∉ l) as Htl' by (intros Hin; by apply (Htl t Hin), list_elem_of_singleton).
    apply not_elem_of_app in Hp as [Hpl Hpt%not_elem_of_cons]. destruct Hpt as [Hpt _]. constructor.
    + apply NoDup_app. split_and!; [done| |apply NoDup_singleton]. intros z Hz ->%list_elem_of_singleton. set_solver.
    + rewrite Hh. by destruct l.
    + by rewrite last_snoc.
    + apply nodes_app. cbn [head or_else]. rewrite last_snoc. cbn [or_else]. split.
      * rewrite <- Etn. eapply nodes_last; [done|by rewrite lookup_insert_ne|done|]. apply nodes_frame; [set_solver|done].
      * split; [|done]. rewrite lookup_insert_ne, lookup_insert_eq by done. by eexists.
Qed.

(** Taken out: [h'] is [h], but that the neighbours of [p] are linked with each other. *)
Lemma dll_remove h h' hd tl a p b : dll h hd tl (a ++ p :: b) ->
  (forall r, Some r <> last a -> Some r <> head b -> h' !! r = h !! r) ->
  (forall q, last a = Some q -> exists j j', h !! q = Some j /\ h' !! q = Some j' /\ nx j' = head b /\ pv j' = pv j) ->
  (forall q, head b = Some q -> exists j j', h !! q = Some j /\ h' !! q = Some j' /\ nx j' = nx j /\ pv j' = last a) ->
  dll h' (match a with [] => head b | _ => hd end) (match b with [] => last a | _ => tl end) (a ++ b).
Proof.
  intros [Hd Hh Ht Hn] Ho Hl Hr. apply NoDup_app in Hd as (Hda & Hab & [Hpb Hdb]%NoDup_cons). apply nodes_app in Hn as [Ha [_ Hb]]. cbn [head or_else] in Ha.
  assert (forall z, z ∈ a -> z ∉ b) as Hab' by (intros z Hz Hzb; apply (Hab z Hz); by right).
  constructor; [by apply NoDup_app|rewrite Hh; by destruct a|rewrite Ht, last_app; destruct b; [by rewrite app_nil_r|by rewrite last_app]|].
  apply nodes_app. split.
  - destruct a as [|q a _] using rev_ind; [done|]. rewrite last_snoc in *. destruct (Hl q eq_refl) as (j & j' & Ej & Ej' & E1 & E2).
    apply NoDup_app in Hda as (_ & Hqa & _). assert (q ∉ a) as Hq by (intros Hin; by apply (Hqa q Hin), list_elem_of_singleton).
    assert (nodes (<[q := j']> h) None (a ++ [q]) (nx j')) as H by (by eapply nodes_last).
    replace (or_else (head b) None) with (nx j') by (rewrite E1; by destruct b). revert H. apply nodes_ext. intros r Hr'.
    destruct (decide (r = q)) as [->|Hne]; [by rewrite lookup_insert_eq|]. rewrite lookup_insert_ne by done. symmetry. apply Ho; [congruence|].
    intros E. destruct b as [|n b]; [done|]. cbn in E. simplify_eq. apply (Hab' n Hr'). by left.
  - destruct b as [|q b]; [done|]. cbn [head] in *. destruct (Hr q eq_refl) as (j & j' & Ej & Ej' & E1 & E2). apply NoDup_cons in Hdb as [Hqb Hdb].
    assert (nodes (<[q := j']> h) (pv j') (q :: b) None) as H by (by eapply nodes_first).
    replace (or_else (last a) None) with (pv j') by (rewrite E2; by destruct (last a)). revert H. apply nodes_ext. intros r Hr'.
    destruct (decide (r = q)) as [->|Hne]; [by rewrite lookup_insert_eq|]. rewrite lookup_insert_ne by done. symmetry. apply Ho; [|congruence].
    intros E. symmetry in E. apply (Hab' r); [|done]. rewrite last_Some in E. destruct E as [a' ->]. set_solver.
Qed.
End Nodes.
