(* ===== verification/PrintState.v ===== *)
(** * literature/apue3e/apue.3e/printer: the state of the print spooler

    The spooler is a client (print.c), a daemon (printd.c) and what they share (util.c, print.h,
    ipp.h).  This file holds the data of the daemon and the system it calls.

    Bytes are [Z]; memory that was never written holds whatever the parameter [garbage] says, so
    that a theorem holds of all its values.  The [n]-th call to the system that may fail is
    answered by [answer n]; it succeeds, or transfers only a part, or fails with an [errno].
    [unlink] and [close] succeed.  What arrives on a connection is a list of pieces; a read takes
    from the first one, and a wait may also end without data. *)

From S2P Require Import Prelude Process CLib Prog DbFile.
From Stdlib Require Import Ascii.
Local Open Scope Z_scope.
Local Open Scope prog_scope.

Definition EIO : Z := 5.
Definition ETIME : Z := 62.
Definition ENFILE : Z := 23.

(** ** Sizes of print.h *)

Definition FILENMSZ : Z := 64.
Definition USERNM_MAX : Z := 64.
Definition JOBNM_MAX : Z := 256.
Definition MSGLEN_MAX : Z := 512.
Definition IBUFSZ : Z := 512.
Definition HBUFSZ : Z := 512.
Definition IOBUFSZ : Z := 8192.
Definition IPP_PORT : Z := 631.
Definition QLEN : Z := 10.
Definition PR_TEXT : Z := 1.
Definition SPOOLDIR : string := "/var/spool/printer".
Definition JOBFILE : string := "jobno".
Definition DATADIR : string := "data".
Definition REQDIR : string := "reqs".

(** ** Bytes *)

Definition bytes (s : string) : list Z := code <$> chars s.
Definition CR : Z := 13.
Definition LF : Z := 10.

(** The bytes of a character array before its NUL. *)
Fixpoint until_nul (mem : list Z) : res (list Z) :=
  match mem with
  | [] => Undef OutOfBounds
  | b :: mem => if b =? 0 then Ok [] else (let* t := until_nul mem in Ok (b :: t))%c
  end.

(** [htons] and [htonl], seen as the bytes they leave in memory. *)
Definition be16 (z : Z) : list Z := [(z / 256) `mod` 256; z `mod` 256].
Definition be32 (z : Z) : list Z :=
  [(z / 16777216) `mod` 256; (z / 65536) `mod` 256; (z / 256) `mod` 256; z `mod` 256].
Fixpoint from_be (acc : Z) (l : list Z) : Z :=
  match l with [] => acc | b :: l => from_be (acc * 256 + b) l end.
Definition ntohl (l : list Z) : Z := from_be 0 l.

(** ** Requests and the lists of the daemon *)

(** [struct printreq], with its two character arrays. *)
Record printreq := MkReq { r_size : Z; r_flags : Z; usernm : list Z; jobnm : list Z }.

Definition set_flags (f : Z) (r : printreq) : printreq := MkReq (r_size r) f (usernm r) (jobnm r).

Record job := MkJob { next : option nat; prev : option nat; jobid : Z; req : printreq }.

Record worker_thread := MkWorker { w_next : option nat; w_prev : option nat; tid : Z; sockfd : nat }.

(** The blocks of the jobs by their addresses, and the two ends of the list. *)
Record queue := MkQueue { jobs : gmap nat job; jobhead : option nat; jobtail : option nat }.

Record crew := MkCrew { threads : gmap nat worker_thread; workers : option nat }.

(** ** The system *)

Inductive outcome := Fine | Short (n : Z) | Fails (e : Z).

(** What arrives: a piece of data, a wait that ends with nothing, or an error. *)
Inductive arrival := Data (bs : list Z) | Silence | Broken (e : Z).
Abbreviation conn := (list arrival).

Class World := {
  answer : nat -> outcome;
  (** What the peer of the connection made at this time is going to send. *)
  dial : nat -> conn;
  (** The address list of a host for a service: the canonical name, if it has one. *)
  getaddrinfo : string -> string -> option (option string);
  (** The text of the configuration file at this time. *)
  config : nat -> option (list Z);
  strerror : Z -> string;
  garbage : nat -> Z
}.

(** ** The state of the daemon

    [files] is the spool directory by pathname, [inbox] and [sent] what is still to be read from
    a socket and what was written to it. *)
Record pd := MkPd {
  q : queue;
  nextjob : Z;
  jobfile : list Z;
  w : crew;
  files : gmap string (list Z);
  inbox : gmap nat conn;
  sent : gmap nat (list Z);
  printer : option (option string);
  printer_name : string;
  reread : bool;
  ticks : nat;
  pr : proc
}.

Definition set_q (x : queue) (s : pd) : pd :=
  MkPd x (nextjob s) (jobfile s) (w s) (files s) (inbox s) (sent s) (printer s) (printer_name s) (reread s) (ticks s) (pr s).
Definition set_nextjob (x : Z) (s : pd) : pd :=
  MkPd (q s) x (jobfile s) (w s) (files s) (inbox s) (sent s) (printer s) (printer_name s) (reread s) (ticks s) (pr s).
Definition set_jobfile (x : list Z) (s : pd) : pd :=
  MkPd (q s) (nextjob s) x (w s) (files s) (inbox s) (sent s) (printer s) (printer_name s) (reread s) (ticks s) (pr s).
Definition set_w (x : crew) (s : pd) : pd :=
  MkPd (q s) (nextjob s) (jobfile s) x (files s) (inbox s) (sent s) (printer s) (printer_name s) (reread s) (ticks s) (pr s).
Definition set_files (x : gmap string (list Z)) (s : pd) : pd :=
  MkPd (q s) (nextjob s) (jobfile s) (w s) x (inbox s) (sent s) (printer s) (printer_name s) (reread s) (ticks s) (pr s).
Definition set_inbox (x : gmap nat conn) (s : pd) : pd :=
  MkPd (q s) (nextjob s) (jobfile s) (w s) (files s) x (sent s) (printer s) (printer_name s) (reread s) (ticks s) (pr s).
Definition set_sent (x : gmap nat (list Z)) (s : pd) : pd :=
  MkPd (q s) (nextjob s) (jobfile s) (w s) (files s) (inbox s) x (printer s) (printer_name s) (reread s) (ticks s) (pr s).
Definition set_printer (x : option (option string)) (n : string) (s : pd) : pd :=
  MkPd (q s) (nextjob s) (jobfile s) (w s) (files s) (inbox s) (sent s) x n (reread s) (ticks s) (pr s).
Definition set_reread (x : bool) (s : pd) : pd :=
  MkPd (q s) (nextjob s) (jobfile s) (w s) (files s) (inbox s) (sent s) (printer s) (printer_name s) x (ticks s) (pr s).
Definition set_pr (x : proc) (s : pd) : pd :=
  MkPd (q s) (nextjob s) (jobfile s) (w s) (files s) (inbox s) (sent s) (printer s) (printer_name s) (reread s) (ticks s) x.
Definition tick (s : pd) : pd :=
  MkPd (q s) (nextjob s) (jobfile s) (w s) (files s) (inbox s) (sent s) (printer s) (printer_name s) (reread s) (S (ticks s)) (pr s).

Section Calls.
Context `{World}.

(** ** Calls *)

Definition ask : prog pd outcome :=
  fun s => Ret (answer (ticks s)) (tick s).

Definition log_line (e : ev) : prog pd unit := modify (fun s => set_pr (emit e (pr s)) s).
Definition log_msg (t : string) : prog pd unit := log_line (Err t).
Definition log_ret (t : string) (e : Z) : prog pd unit := log_line (ErrErrno t e).

Definition take_handle (k : rkind) : prog pd nat :=
  fun s => let '(id, p) := acquire k (pr s) in Ret id (set_pr p s).

Definition give_back (k : rkind) (id : nat) : prog pd unit :=
  let! s := gets (fun s => s) in
  let! p := lift (release k id (pr s)) in
  modify (set_pr p).

Definition close (fd : nat) : prog pd unit := give_back RFd fd.

(** [malloc], whose failure ends the process. *)
Definition malloc (msg : string) : prog pd nat :=
  let! r := ask in
  match r with Fails _ => stop msg | _ => take_handle RBlk end.

(** [creat] of a file of the spool directory. *)
Definition creat (name : string) : prog pd (nat + Z) :=
  let! r := ask in
  match r with
  | Fails e => ret (inr e)
  | _ => do! modify (fun s => set_files (<[name := []]> (files s)) s) in
         let! fd := take_handle RFd in ret (inl fd)
  end.

(** [open] for reading, with the bytes of the file. *)
Definition open_rd (name : string) : prog pd (nat * list Z + Z) :=
  let! r := ask in
  let! s := gets (fun s => s) in
  match r, files s !! name with
  | Fails e, _ => ret (inr e)
  | _, None => ret (inr ENOENT)
  | _, Some content => let! fd := take_handle RFd in ret (inl (fd, content))
  end.

(** [write] at the end of a file: the number of bytes, or the [errno]. *)
Definition write_file (name : string) (bs : list Z) : prog pd (Z + Z) :=
  let! r := ask in
  let append n := do! modify (fun s => set_files (alter (fun f => f ++ take n bs) name (files s)) s) in
                  ret (inl (Z.of_nat (length (take n bs)))) in
  match r with
  | Fine => append (length bs)
  | Short n => append (Z.to_nat n)
  | Fails e => ret (inr e)
  end.

Definition unlink (name : string) : prog pd unit :=
  modify (fun s => set_files (delete name (files s)) s).

(** [write] on a socket. *)
Definition write_sock (fd : nat) (bs : list Z) : prog pd (Z + Z) :=
  let! r := ask in
  let append n := do! modify (fun s => set_sent (<[fd := default [] (sent s !! fd) ++ take n bs]> (sent s)) s) in
                  ret (inl (Z.of_nat (length (take n bs)))) in
  match r with
  | Fine => append (length bs)
  | Short n => append (Z.to_nat n)
  | Fails e => ret (inr e)
  end.

(** [read] of at most [n] bytes of a file from a position on: at least one, when there is one. *)
Definition read_file (content : list Z) (pos n : nat) : prog pd (list Z + Z) :=
  let! r := ask in
  match r with
  | Fine => ret (inl (take n (drop pos content)))
  | Short k => ret (inl (take (1 `max` (Z.to_nat k `min` n)) (drop pos content)))
  | Fails e => ret (inr e)
  end.

(** ** lib/writen.c *)

Fixpoint writen_loop (fuel : nat) (fd : nat) (bs : list Z) (n : Z) : prog pd (Z + Z) :=
  match bs with
  | [] => ret (inl n)
  | _ =>
      match fuel with
      | O => loops
      | S fuel =>
          let! r := write_sock fd bs in
          match r with
          | inr e => if Z.of_nat (length bs) =? n then ret (inr e) else ret (inl (n - Z.of_nat (length bs)))
          | inl nwritten =>
              if nwritten =? 0 then ret (inl (n - Z.of_nat (length bs)))
              else writen_loop fuel fd (drop (Z.to_nat nwritten) bs) n
          end
      end
  end.

(** Every turn but the last writes a byte. *)
Definition writen (fd : nat) (bs : list Z) : prog pd (Z + Z) :=
  writen_loop (length bs) fd bs (Z.of_nat (length bs)).

(** ** util.c: timed reads *)

(** [select] for one descriptor, then [read]. *)
Definition tread (fd : nat) (nbytes : nat) : prog pd (list Z + Z) :=
  let! s := gets (fun s => s) in
  match default [] (inbox s !! fd) with
  | [] => ret (inl [])
  | Silence :: c => do! modify (set_inbox (<[fd := c]> (inbox s))) in ret (inr ETIME)
  | Broken e :: c => do! modify (set_inbox (<[fd := c]> (inbox s))) in ret (inr e)
  | Data bs :: c =>
      let rest := drop nbytes bs in
      do! modify (set_inbox (<[fd := if bool_decide (rest = []) then c else Data rest :: c]> (inbox s))) in
      ret (inl (take nbytes bs))
  end.

(** The loop of [treadn] and of lib/readn.c: [buf] is what was read so far, [nleft] what is
    missing. *)
Fixpoint read_loop (rd : nat -> prog pd (list Z + Z)) (fuel : nat) (nleft : nat) (buf : list Z) : prog pd (list Z + Z) :=
  match nleft with
  | O => ret (inl buf)
  | _ =>
      match fuel with
      | O => loops
      | S fuel =>
          let! r := rd nleft in
          match r with
          | inr e => if bool_decide (buf = []) then ret (inr e) else ret (inl buf)
          | inl [] => ret (inl buf)
          | inl bs => read_loop rd fuel (nleft - length bs) (buf ++ bs)
          end
      end
  end.

Definition treadn (fd : nat) (nbytes : nat) : prog pd (list Z + Z) := read_loop (tread fd) nbytes nbytes [].
End Calls.

(** ** Reasoning

    A run may end the process when a call has failed; otherwise it does not. *)

Definition broken `{World} : Prop := exists n e, answer n = Fails e.

Definition drop_handle (id : nat) (p : proc) : proc := MkProc (errno p) (delete id (live p)) (next_id p) (log p).

Section Rules.
Context `{World} {excuse : Prop}.

Lemma runs_ask (Q : outcome -> pd -> Prop) s :
  (forall r, answer (ticks s) = r -> Q r (tick s)) -> runs excuse ask Q s.
Proof. intros HQ. by apply HQ. Qed.

Lemma runs_take k (Q : nat -> pd -> Prop) s :
  Q (next_id (pr s)) (set_pr (snd (acquire k (pr s))) s) -> runs excuse (take_handle k) Q s.
Proof. done. Qed.

Lemma runs_giving_back k id (Q : unit -> pd -> Prop) s :
  live (pr s) !! id = Some k -> Q tt (set_pr (drop_handle id (pr s)) s) -> runs excuse (give_back k id) Q s.
Proof. intros E HQ. unfold give_back. run. run. run. rewrite (release_live _ _ _ E). cbn [lift]. run. by run. Qed.

Lemma runs_log_line e (Q : unit -> pd -> Prop) s : Q tt (set_pr (emit e (pr s)) s) -> runs excuse (log_line e) Q s.
Proof. done. Qed.
End Rules.

Lemma runs_malloc `{World} msg (Q : nat -> pd -> Prop) s :
  Q (next_id (pr s)) (set_pr (snd (acquire RBlk (pr s))) (tick s)) -> runs broken (malloc msg) Q s.
Proof.
  intros HQ. unfold malloc. run. apply runs_ask. intros r Hr. destruct r as [|n|e]; [exact HQ..|].
  by exists (ticks s), e.
Qed.

(** [s'] is later than [s] and differs from it in what arrives and was sent and in the log only. *)
Record kept (s s' : pd) : Prop := MkKept {
  k_q : q s' = q s;
  k_nextjob : nextjob s' = nextjob s;
  k_jobfile : jobfile s' = jobfile s;
  k_w : w s' = w s;
  k_files : files s' = files s;
  k_printer : printer s' = printer s;
  k_name : printer_name s' = printer_name s;
  k_reread : reread s' = reread s;
  k_pr : keeps (pr s) (pr s');
  k_ticks : (ticks s <= ticks s')%nat
}.

(** The clock only goes on. *)
Ltac ticking :=
  repeat match goal with x := _ : pd |- _ => subst x end;
  repeat match goal with
         | H : kept ?s ?s' |- _ => apply k_ticks in H
         | H : ?T |- _ => lazymatch T with le _ _ => fail | @eq pd _ _ => fail | pd => fail | World => fail | _ => clear H end
         end;
  subst; cbn in *; lia.

#[export] Hint Extern 0 (le (ticks _) (ticks _)) => ticking : core.
#[export] Hint Extern 0 (le (S (ticks _)) (ticks _)) => ticking : core.

#[export] Instance kept_preorder : PreOrder kept.
Proof.
  split; [done|]. intros x y z [] []. split; [congruence..|by etrans|lia].
Qed.

Lemma kept_set_pr s s' p : kept s s' -> keeps (pr s) p -> kept s (set_pr p s').
Proof. intros [] Hp. by split. Qed.

(** The same after a change of the resources that was undone. *)
Lemma kept_around s i p s' p' :
  kept (set_inbox i (set_pr p (tick s))) s' -> keeps (pr s) p' -> kept s (set_pr p' s').
Proof. intros [] Hp. by split. Qed.

Lemma kept_wf s s' : kept s s' -> proc_wf (pr s) -> proc_wf (pr s').
Proof. intros Hk. by apply proc_wf_keeps, Hk. Qed.

(** The same when the files become [F]. *)
Lemma kept_files s F s1 G s2 :
  kept (set_files F s) s1 -> kept (set_files G s1) s2 -> kept (set_files G s) s2.
Proof. intros [] []. split; cbn in *; try congruence; [by etrans|lia]. Qed.

Lemma kept_files_same s s' : kept s s' -> kept (set_files (files s) s) s'.
Proof. intros []. by split. Qed.

Lemma kept_files_eq s F s' : kept (set_files F s) s' -> F = files s -> kept s s'.
Proof. intros [] ->. by split. Qed.

(** A handle that is taken, kept and given back. *)
Lemma kept_closed k F s s1 :
  proc_wf (pr s) -> kept (set_files F (set_pr (snd (acquire k (pr s))) s)) s1 ->
  live (pr s1) !! next_id (pr s) = Some k /\
  kept (set_files F s) (set_pr (drop_handle (next_id (pr s)) (pr s1)) s1).
Proof.
  intros Hw []. destruct k_pr0 as (Hl & Hn & Hlog). cbn in Hl, Hn, Hlog. split; [by rewrite Hl, lookup_insert_eq|].
  split; try assumption. unfold keeps, drop_handle. cbn. rewrite Hl. split; [by apply delete_insert_id, Hw|]. split; [lia|done].
Qed.

Lemma kept_log s s' e : kept s s' -> kept s (set_pr (emit e (pr s')) s').
Proof. intros Hk. apply kept_set_pr; [done|]. etrans; [apply Hk|]. apply keeps_emit. Qed.

Lemma kept_set_files F G s s' : kept (set_files F s) s' -> kept (set_files G s) (set_files G s').
Proof. intros []. by split. Qed.

(** A file that was made and removed again. *)
Lemma kept_unlink name x s s' :
  files s !! name = None -> kept (set_files (<[name := x]> (files s)) s) s' ->
  kept s (set_files (delete name (files s')) s').
Proof.
  intros Hf Hk. apply kept_files_eq with (F := delete name (files s')); [by eapply kept_set_files|].
  rewrite (k_files _ _ Hk). cbn. by apply delete_insert_id.
Qed.

(** ** Blame

    A call between [s] and [s'] failed, or did only a part of what it was asked for; [e] is the
    error that stands for it. *)
Definition trouble `{World} (s s' : pd) : Prop := exists t, (ticks s <= t < ticks s')%nat /\ answer t <> Fine.

Definition blamed `{World} (e : Z) (s s' : pd) : Prop :=
  exists t, (ticks s <= t < ticks s')%nat /\ (answer t = Fails e \/ e = EIO /\ exists n, answer t = Short n).

Section Blame.
Context `{World}.

Lemma blamed_trouble e s s' : blamed e s s' -> trouble s s'.
Proof. intros (t & Ht & [E|[_ [n E]]]); exists t; by rewrite E. Qed.

Lemma trouble_mono s1 s s' s2 : trouble s s' -> (ticks s1 <= ticks s)%nat -> (ticks s' <= ticks s2)%nat -> trouble s1 s2.
Proof. intros (t & Ht & E) ? ?. exists t. split; [lia|done]. Qed.

Lemma blamed_mono e s1 s s' s2 : blamed e s s' -> (ticks s1 <= ticks s)%nat -> (ticks s' <= ticks s2)%nat -> blamed e s1 s2.
Proof. intros (t & Ht & E) ? ?. exists t. split; [lia|done]. Qed.

Lemma trouble_now s s' : answer (ticks s) <> Fine -> (S (ticks s) <= ticks s')%nat -> trouble s s'.
Proof. intros E ?. exists (ticks s). split; [lia|done]. Qed.

Lemma blamed_now e s s' : answer (ticks s) = Fails e -> (S (ticks s) <= ticks s')%nat -> blamed e s s'.
Proof. intros E ?. exists (ticks s). split; [lia|by left]. Qed.

Lemma blamed_short n s s' : answer (ticks s) = Short n -> (S (ticks s) <= ticks s')%nat -> blamed EIO s s'.
Proof. intros E ?. exists (ticks s). split; [lia|]. right. split; [done|by exists n]. Qed.
End Blame.

(** ** A system in which every call succeeds and nobody speaks, and a daemon before its start *)

Definition calm : World := {|
  answer := fun _ => Fine;
  dial := fun _ => [];
  getaddrinfo := fun _ _ => None;
  config := fun _ => None;
  strerror := fun _ => "error";
  garbage := fun _ => 0
|}.

Definition pd0 : pd :=
  MkPd (MkQueue ∅ None None) 1 [] (MkCrew ∅ None) ∅ ∅ ∅ None "printer" false 0 proc0.

(** The first handles that a process takes. *)
Lemma proc_wf_first k : proc_wf (MkProc 0 {[0%nat := k]} 1 []).
Proof. intros i Hi. cbn in *. by rewrite lookup_singleton_ne by lia. Qed.

Lemma proc_wf_second k1 k2 : proc_wf (MkProc 0 {[0%nat := k1; 1%nat := k2]} 2 []).
Proof. intros i Hi. cbn in *. by rewrite lookup_insert_ne, lookup_singleton_ne by lia. Qed.
