(* ===== verification/PrintQueue.v ===== *)
(** * printd.c: the list of jobs and the list of workers

    Both are doubly linked lists of blocks.  [linked q l] says that the list of jobs runs through
    the blocks [l], in both directions; appending, putting back at the front and removing are
    those operations on [l].  The list of workers is not so lucky: a worker that is added while
    there is another is not found again. *)

From S2P Require Import Prelude Process CLib Prog Dll PrintState.
Local Open Scope Z_scope.

(** ** The links *)

Definition set_next (x : option nat) (j : job) : job := MkJob x (prev j) (jobid j) (req j).
Definition set_prev (x : option nat) (j : job) : job := MkJob (next j) x (jobid j) (req j).
Definition set_head (x : option nat) (q : queue) : queue := MkQueue (jobs q) x (jobtail q).
Definition set_tail (x : option nat) (q : queue) : queue := MkQueue (jobs q) (jobhead q) x.

(** Access to a block that is not allocated is an error. *)
Definition get_job (p : nat) (q : queue) : res job :=
  match jobs q !! p with Some j => Ok j | None => Undef OutOfBounds end.
Definition put_job (p : nat) (f : job -> job) (q : queue) : res queue :=
  match jobs q !! p with
  | Some j => Ok (MkQueue (<[p := f j]> (jobs q)) (jobhead q) (jobtail q))
  | None => Undef OutOfBounds
  end.

Local Open Scope c_scope.

(** What [add_job] does under the lock. *)
Definition enqueue (jp : nat) (q : queue) : res queue :=
  let* q := put_job jp (set_prev (jobtail q)) q in
  let* q := match jobtail q with
            | None => Ok (set_head (Some jp) q)
            | Some t => put_job t (set_next (Some jp)) q
            end in
  Ok (set_tail (Some jp) q).

Definition requeue (jp : nat) (q : queue) : res queue :=
  let* q := put_job jp (fun j => set_next (jobhead q) (set_prev None j)) q in
  let* q := match jobhead q with
            | None => Ok (set_tail (Some jp) q)
            | Some h => put_job h (set_prev (Some jp)) q
            end in
  Ok (set_head (Some jp) q).

Definition unlink_job (target : nat) (q : queue) : res queue :=
  let* t := get_job target q in
  let* q := match next t with
            | Some n => put_job n (set_prev (prev t)) q
            | None => Ok (set_tail (prev t) q)
            end in
  let* t := get_job target q in
  match prev t with
  | Some p => put_job p (set_next (next t)) q
  | None => Ok (set_head (next t) q)
  end.
Local Close Scope c_scope.
Local Open Scope prog_scope.

Section Lists.
Context `{World}.

Definition on_queue (f : queue -> res queue) : prog pd unit :=
  let! s := gets (fun s => s) in
  let! x := lift (f (q s)) in
  modify (set_q x).

(** [malloc] of a [struct job] and what is written to it before the lock is taken. *)
Definition new_job (reqp : printreq) (id : Z) : prog pd nat :=
  let! jp := malloc "malloc failed" in
  do! modify (fun s => set_q (MkQueue (<[jp := MkJob None None id reqp]> (jobs (q s))) (jobhead (q s)) (jobtail (q s))) s) in
  ret jp.

(** The condition variable is signalled when the list is as it will be. *)
Definition add_job (reqp : printreq) (id : Z) : prog pd unit :=
  let! jp := new_job reqp id in on_queue (enqueue jp).

Definition replace_job (jp : nat) : prog pd unit := on_queue (requeue jp).
Definition remove_job (target : nat) : prog pd unit := on_queue (unlink_job target).

(** [free] of a job. *)
Definition free_job (jp : nat) : prog pd unit :=
  do! give_back RBlk jp in
  modify (fun s => set_q (MkQueue (delete jp (jobs (q s))) (jobhead (q s)) (jobtail (q s))) s).

(** ** The workers *)

Definition put_worker (p : nat) (f : worker_thread -> worker_thread) (c : crew) : res crew :=
  match threads c !! p with
  | Some t => Ok (MkCrew (<[p := f t]> (threads c)) (workers c))
  | None => Undef OutOfBounds
  end.
Definition w_set_next (x : option nat) (t : worker_thread) : worker_thread :=
  MkWorker x (w_prev t) (tid t) (sockfd t).
Definition w_set_prev (x : option nat) (t : worker_thread) : worker_thread :=
  MkWorker (w_next t) x (tid t) (sockfd t).

(** The links that [add_worker] makes: the head of the list is changed when it was empty only. *)
Definition link_worker (wtp : nat) (c : crew) : res crew :=
  (let* c := put_worker wtp (fun t => w_set_next (workers c) (w_set_prev None t)) c in
   match workers c with
   | None => Ok (MkCrew (threads c) (Some wtp))
   | Some h => put_worker h (w_set_prev (Some wtp)) c
   end)%c.

(** [false] when there is no memory; the thread then ends. *)
Definition add_worker (id : Z) (fd : nat) : prog pd bool :=
  let! r := ask in
  match r with
  | Fails e => do! log_ret "add_worker: can't malloc" e in ret false
  | _ =>
      let! wtp := take_handle RBlk in
      do! modify (fun s => set_w (MkCrew (<[wtp := MkWorker None None id fd]> (threads (w s))) (workers (w s))) s) in
      let! s := gets (fun s => s) in
      let! c := lift (link_worker wtp (w s)) in
      do! modify (set_w c) in
      ret true
  end.

(** The threads from [wtp] on, in the order in which [kill_workers] cancels them. *)
Fixpoint worker_ids (fuel : nat) (wtp : option nat) (c : crew) : res (list Z) :=
  match wtp with
  | None => Ok []
  | Some p =>
      match fuel, threads c !! p with
      | O, _ => NoFuel
      | _, None => Undef OutOfBounds
      | S fuel, Some t => (let* l := worker_ids fuel (w_next t) c in Ok (tid t :: l))%c
      end
  end.

Definition kill_workers : prog pd (list Z) :=
  let! c := gets w in
  lift (worker_ids (S (size (threads c))) (workers c) c).

(** The search of [client_cleanup]. *)
Fixpoint find_worker (fuel : nat) (id : Z) (wtp : option nat) (c : crew) : res (option nat) :=
  match wtp with
  | None => Ok None
  | Some p =>
      match fuel, threads c !! p with
      | O, _ => NoFuel
      | _, None => Undef OutOfBounds
      | S fuel, Some t => if tid t =? id then Ok (Some p) else find_worker fuel id (w_next t) c
      end
  end.

Definition unlink_worker (p : nat) (c : crew) : res crew :=
  (let* c := match threads c !! p with
             | None => Undef OutOfBounds
             | Some t => match w_next t with Some n => put_worker n (w_set_prev (w_prev t)) c | None => Ok c end
             end in
   match threads c !! p with
   | None => Undef OutOfBounds
   | Some t => match w_prev t with
               | Some b => put_worker b (w_set_next (w_next t)) c
               | None => Ok (MkCrew (threads c) (w_next t))
               end
   end)%c.

Definition client_cleanup (id : Z) : prog pd unit :=
  let! c := gets w in
  let! found := lift (find_worker (S (size (threads c))) id (workers c) c) in
  match found with
  | None => ret tt
  | Some p =>
      let! c := lift (unlink_worker p c) in
      match threads c !! p with
      | None => fault OutOfBounds
      | Some t =>
          do! close (sockfd t) in
          do! give_back RBlk p in
          modify (set_w (MkCrew (delete p (threads c)) (workers c)))
      end
  end.
End Lists.

(** ** The list of jobs as a list *)

(** The blocks [l] follow each other from the head to the tail, in both directions. *)
Definition linked (x : queue) (l : list nat) : Prop := dll next prev (jobs x) (jobhead x) (jobtail x) l.

(** ** The operations *)

(** What a block holds besides its links. *)
Definition load (x : queue) (p : nat) : option (Z * printreq) := (fun j => (jobid j, req j)) <$> jobs x !! p.

(** [x'] has the blocks of [x], linked otherwise. *)
Definition same_loads (x x' : queue) : Prop := forall r, load x' r = load x r.

#[export] Instance same_loads_preorder : PreOrder same_loads.
Proof. split; [done|]. intros x y z H1 H2 r. by rewrite H2. Qed.

Lemma put_job_ok p f x j :
  jobs x !! p = Some j -> put_job p f x = Ok (MkQueue (<[p := f j]> (jobs x)) (jobhead x) (jobtail x)).
Proof. unfold put_job. by intros ->. Qed.

Lemma load_insert x p j j' hd tl : jobs x !! p = Some j -> jobid j' = jobid j -> req j' = req j ->
  same_loads x (MkQueue (<[p := j']> (jobs x)) hd tl).
Proof.
  intros Ej E1 E2 r. unfold load. cbn [jobs]. destruct (decide (r = p)) as [->|Hr]; [|by rewrite lookup_insert_ne by done].
  rewrite lookup_insert_eq, Ej. cbn. by rewrite E1, E2.
Qed.

Lemma enqueue_spec x l p j :
  linked x l -> (p ∉ l) -> jobs x !! p = Some j -> next j = None ->
  exists x', enqueue p x = Ok x' /\ linked x' (l ++ [p]) /\ same_loads x x'.
Proof.
  intros L Hp Ej Enx. pose proof (dll_append next prev _ _ _ _ p (set_prev (jobtail x) j) L Hp Enx eq_refl) as D.
  unfold enqueue. rewrite (put_job_ok _ _ _ _ Ej). cbn [rbind jobtail]. pose proof (d_tail _ _ _ _ _ _ L) as Ht. destruct (jobtail x) as [t|] eqn:Et.
  - symmetry in Ht. assert (t ∈ l) as Htl by (apply last_Some in Ht as [l0 ->]; set_solver). assert (t <> p) as Hne by congruence.
    destruct (dll_live _ _ _ _ _ _ t L Htl) as [jt Ejt]. rewrite (put_job_ok t _ _ jt) by (cbn; by rewrite lookup_insert_ne).
    cbn [rbind]. eexists. split; [done|]. split; [by apply (D jt)|].
    etrans; [by eapply (load_insert x p j (set_prev (Some t) j))|]. eapply load_insert; [cbn; by rewrite lookup_insert_ne|done|done].
  - cbn. eexists. split; [done|]. split; [|by eapply load_insert]. symmetry in Ht. by apply last_None in Ht as ->.
Qed.

Lemma requeue_spec x l p j :
  linked x l -> (p ∉ l) -> jobs x !! p = Some j ->
  exists x', requeue p x = Ok x' /\ linked x' (p :: l) /\ same_loads x x'.
Proof.
  intros L Hp Ej. pose proof (dll_push next prev _ _ _ _ p (set_next (jobhead x) (set_prev None j)) L Hp eq_refl eq_refl) as D.
  unfold requeue. rewrite (put_job_ok _ _ _ _ Ej). cbn [rbind jobhead]. pose proof (d_head _ _ _ _ _ _ L) as Hh. destruct (jobhead x) as [n|] eqn:Eh.
  - destruct l as [|n' l]; [done|]. injection Hh as <-. assert (n <> p) as Hne by set_solver.
    destruct (dll_live _ _ _ _ _ _ n L ltac:(left)) as [jn Ejn]. rewrite (put_job_ok n _ _ jn) by (cbn; by rewrite lookup_insert_ne).
    cbn [rbind]. eexists. split; [done|]. split; [by apply (D jn)|].
    etrans; [by eapply (load_insert x p j (set_next (Some n) (set_prev None j)))|]. eapply load_insert; [cbn; by rewrite lookup_insert_ne|done|done].
  - cbn. eexists. split; [done|]. split; [|by eapply load_insert]. by destruct l.
Qed.

Lemma unlink_job_spec x a p b :
  linked x (a ++ p :: b) ->
  exists x', unlink_job p x = Ok x' /\ linked x' (a ++ b) /\ same_loads x x'.
Proof.
  intros L. destruct (dll_inner _ _ _ _ _ _ _ _ L) as (j & Ej & Epv & Enx & Hpa & Hpb).
  pose proof (fun h' => dll_remove next prev (jobs x) h' _ _ a p b L) as R.
  assert (forall q, last a = Some q -> q <> p /\ is_Some (jobs x !! q) /\ head b <> Some q) as Ha.
  { intros q Hq. apply last_Some in Hq as [a0 ->]. split_and!; [set_solver|apply (dll_live _ _ _ _ _ _ q L); set_solver|].
    intros Hb. pose proof (d_nodup _ _ _ _ _ _ L) as (_ & Hab & _)%NoDup_app. apply (Hab q); [set_solver|]. destruct b as [|n b]; [done|]. cbn in Hb. simplify_eq. set_solver. }
  assert (forall n, head b = Some n -> n <> p /\ is_Some (jobs x !! n)) as Hb.
  { intros n Hn. destruct b as [|n' b]; [done|]. cbn in Hn. simplify_eq. split; [set_solver|]. apply (dll_live _ _ _ _ _ _ n L). set_solver. }
  unfold unlink_job, get_job. rewrite Ej. cbn [rbind]. rewrite Epv, Enx.
  destruct (head b) as [n|] eqn:En, (last a) as [q|] eqn:Eq.
  - destruct (Hb n eq_refl) as [Hn [jn Ejn]]. destruct (Ha q eq_refl) as (Hq & [jq Ejq] & Hnq). assert (n <> q) by congruence.
    rewrite (put_job_ok _ _ _ _ Ejn). cbn [rbind jobs]. rewrite lookup_insert_ne, Ej by done. cbn [rbind]. rewrite Epv, Enx, (put_job_ok q _ _ jq) by (cbn; by rewrite lookup_insert_ne).
    eexists. split; [done|]. split; [|etrans; [by eapply (load_insert x n jn (set_prev (Some q) jn))|eapply load_insert; [cbn; by rewrite lookup_insert_ne|done|done]]].
    unfold linked. cbn [jobs jobhead jobtail]. destruct a as [|a0 a]; [done|]. destruct b as [|b0 b]; [done|]. apply R.
    + intros r Hr1 Hr2. by rewrite !lookup_insert_ne by congruence.
    + intros q' [= <-]. eexists _, _. rewrite lookup_insert_eq. split_and!; [exact Ejq|done|done|done].
    + intros n' [= <-]. eexists _, _. rewrite lookup_insert_ne, lookup_insert_eq by congruence. split_and!; [exact Ejn|done|done|done].
  - destruct (Hb n eq_refl) as [Hn [jn Ejn]]. rewrite (put_job_ok _ _ _ _ Ejn). cbn [rbind jobs]. rewrite lookup_insert_ne, Ej by done. cbn [rbind]. rewrite Epv, Enx.
    eexists. split; [done|]. split; [|by eapply load_insert].
    apply last_None in Eq as ->. unfold linked. cbn [jobs jobhead jobtail set_head app]. destruct b as [|b0 b]; [done|]. apply R.
    + intros r Hr1 Hr2. by rewrite lookup_insert_ne by congruence.
    + done.
    + intros n' [= <-]. eexists _, _. cbn. rewrite lookup_insert_eq. split_and!; [exact Ejn|done|done|done].
  - destruct (Ha q eq_refl) as (Hq & [jq Ejq] & _). cbn [rbind set_tail jobs]. rewrite Ej. cbn [rbind]. rewrite Epv, Enx, (put_job_ok q _ _ jq) by done.
    eexists. split; [done|]. split; [|by apply (load_insert (set_tail (Some q) x) q jq (set_next None jq))]. destruct b; [|done]. unfold linked. cbn [jobs jobhead jobtail set_tail]. destruct a as [|a0 a]; [done|]. apply R.
    + intros r Hr1 Hr2. by rewrite lookup_insert_ne by congruence.
    + intros q' [= <-]. eexists _, _. rewrite lookup_insert_eq. split_and!; [exact Ejq|done|done|done].
    + done.
  - cbn [rbind set_tail jobs]. rewrite Ej. cbn [rbind]. rewrite Epv, Enx. eexists. split; [done|]. split; [|done]. apply last_None in Eq as ->. destruct b; [|done].
    by apply R.
Qed.

(** ** The queue of the daemon

    [queued s bs l held]: the list runs through the blocks [bs], which hold the jobs [l]; there are
    no other blocks of jobs but [held], which a thread has in its hand. *)
Record queued (s : pd) (bs : list nat) (l : list (Z * printreq)) (held : list nat) : Prop := MkQueued {
  qu_linked : linked (q s) bs;
  qu_load : Forall2 (fun p x => load (q s) p = Some x) bs l;
  qu_disjoint : NoDup (bs ++ held);
  qu_blocks : forall p, is_Some (jobs (q s) !! p) <-> p ∈ bs ++ held;
  qu_live : forall p, p ∈ bs ++ held -> live (pr s) !! p = Some RBlk
}.

Lemma queued_same s s' bs l held :
  queued s bs l held -> q s' = q s -> live (pr s') = live (pr s) -> queued s' bs l held.
Proof. intros [] E1 E2. split; rewrite ?E1, ?E2; done. Qed.

Lemma queued_kept s s' bs l held : queued s bs l held -> kept s s' -> queued s' bs l held.
Proof. intros Hq Hk. eapply queued_same; [done|apply Hk|apply Hk]. Qed.

Lemma same_loads_blocks x x' : same_loads x x' -> forall p, is_Some (jobs x' !! p) <-> is_Some (jobs x !! p).
Proof.
  intros Hs p. specialize (Hs p). unfold load in Hs. destruct (jobs x !! p), (jobs x' !! p); try done; split; intros; by eexists || by destruct H.
Qed.

(** An empty queue, and one with a job. *)
Lemma queued_empty s : q s = MkQueue ∅ None None -> queued s [] [] [].
Proof.
  intros E. split; rewrite ?E; cbn [app].
  - split; [apply NoDup_nil_2|done..].
  - constructor.
  - apply NoDup_nil_2.
  - intros p. cbn. rewrite lookup_empty. split; [by intros []|by intros ?%elem_of_nil].
  - by intros p ?%elem_of_nil.
Qed.

Lemma queued_one s p jid r : q s = MkQueue {[p := MkJob None None jid r]} (Some p) (Some p) ->
  live (pr s) !! p = Some RBlk -> queued s [p] [(jid, r)] [].
Proof.
  intros E Hl. split; rewrite ?E; cbn [app].
  - split; [apply NoDup_singleton|done..|]. split; [|done]. cbn. rewrite lookup_singleton_eq. by eexists.
  - constructor; [|constructor]. unfold load. cbn. by rewrite lookup_singleton_eq.
  - apply NoDup_singleton.
  - intros p'. cbn. rewrite lookup_singleton_is_Some. set_solver.
  - by intros p' ->%list_elem_of_singleton.
Qed.

Section Queued.
Context `{World}.

Lemma runs_on_queue {P : Prop} f x' (Q : unit -> pd -> Prop) s :
  f (q s) = Ok x' -> Q tt (set_q x' s) -> runs P (on_queue f) Q s.
Proof. intros E HQ. unfold on_queue. run. run. run. rewrite E. cbn [lift]. run. by run. Qed.

Lemma add_job_spec r jid bs l held (Q : unit -> pd -> Prop) s :
  proc_wf (pr s) -> queued s bs l held ->
  (forall x', let s' := set_q x' (set_pr (snd (acquire RBlk (pr s))) (tick s)) in
     queued s' (bs ++ [next_id (pr s)]) (l ++ [(jid, r)]) held -> Q tt s') ->
  runs broken (add_job r jid) Q s.
Proof.
  intros Hw [Hlk Hld Hnd Hbl Hlv] HQ. unfold add_job, new_job. run. run. apply runs_malloc. run. run. run.
  set (p := next_id (pr s)). set (s1 := set_q _ _).
  assert (p ∉ bs ++ held) as Hp.
  { intros Hin. apply Hlv in Hin. rewrite Hw in Hin by (unfold p; lia). done. }
  assert (jobs (q s) !! p = None) as Hnone.
  { destruct (jobs (q s) !! p) eqn:E; [|done]. destruct Hp. apply Hbl. by eexists. }
  assert (p ∉ bs) as Hpb by set_solver.
  assert (linked (q s1) bs) as Hlk1.
  { destruct Hlk as [? ? ? Hn]. split; cbn; [done..|]. by apply nodes_frame. }
  assert (forall p', p' <> p -> load (q s1) p' = load (q s) p') as Hl1 by (intros p' Hne; unfold load; cbn; by rewrite lookup_insert_ne).
  destruct (enqueue_spec (q s1) bs p (MkJob None None jid r) Hlk1 Hpb) as (x' & E & Hlk' & Hs'); [by apply lookup_insert_eq|done|].
  eapply runs_on_queue; [exact E|]. replace (set_q x' s1) with (set_q x' (set_pr (snd (acquire RBlk (pr s))) (tick s))) by done.
  apply HQ. split; cbn [q pr set_q set_pr].
  - done.
  - apply Forall2_app.
    + apply Forall2_same_length_lookup in Hld as [Hlen Hld]. apply Forall2_same_length_lookup. split; [done|].
      intros i p' x Ep Ex. rewrite Hs', Hl1 by (intros ->; by apply Hpb, list_elem_of_lookup_2 with i). by apply (Hld i).
    + constructor; [|done]. rewrite Hs'. unfold load. cbn. by rewrite lookup_insert_eq.
  - rewrite <- app_assoc. apply NoDup_app in Hnd as (Hn1 & Hn2 & Hn3). apply NoDup_app. split; [done|]. split.
    + intros z Hz [->|Hz']%elem_of_cons; [done|]. by apply (Hn2 z).
    + apply NoDup_cons. split; [set_solver|done].
  - intros p'. rewrite (same_loads_blocks _ _ Hs'). cbn. destruct (decide (p' = p)) as [->|Hne].
    + rewrite lookup_insert_eq. split; [set_solver|by eexists].
    + rewrite lookup_insert_ne, Hbl by done. set_solver.
  - intros p' Hin. cbn. destruct (decide (p' = p)) as [->|Hne]; [by rewrite lookup_insert_eq|].
    rewrite lookup_insert_ne by done. apply Hlv. set_solver.
Qed.

(** The queue after a change of the links and of what is in hand. *)
Lemma queued_again s x' bs l held bs' l' held' :
  queued s bs l held -> same_loads (q s) x' -> linked x' bs' ->
  Forall2 (fun p x => load (q s) p = Some x) bs' l' -> bs ++ held ≡ₚ bs' ++ held' ->
  queued (set_q x' s) bs' l' held'.
Proof.
  intros [Hlk Hld Hnd Hbl Hlv] Hs Hlk' Hld' HP. split; cbn.
  - done.
  - eapply Forall2_impl; [exact Hld'|]. intros p x E. by rewrite Hs.
  - by rewrite <- HP.
  - intros p. rewrite (same_loads_blocks _ _ Hs), Hbl. by rewrite HP.
  - intros p Hp. apply Hlv. by rewrite HP.
Qed.

Lemma replace_job_spec {P : Prop} jp x bs l held (Q : unit -> pd -> Prop) s :
  queued s bs l (jp :: held) -> load (q s) jp = Some x ->
  (forall x', queued (set_q x' s) (jp :: bs) (x :: l) held -> Q tt (set_q x' s)) ->
  runs P (replace_job jp) Q s.
Proof.
  intros Hq Hx HQ. assert (jp ∉ bs) as Hn.
  { pose proof (qu_disjoint _ _ _ _ Hq) as (_ & Hd & _)%NoDup_app. intros Hin. apply (Hd jp Hin). by left. }
  unfold load in Hx. destruct (jobs (q s) !! jp) as [j|] eqn:Ej; [|done].
  destruct (requeue_spec (q s) bs jp j (qu_linked _ _ _ _ Hq) Hn Ej) as (x' & E & Hlk & Hs).
  eapply runs_on_queue; [exact E|]. apply HQ. eapply queued_again; [exact Hq|done|done| |].
  - constructor; [by unfold load; rewrite Ej|apply Hq].
  - cbn [app]. by rewrite <- Permutation_middle.
Qed.

Lemma remove_job_spec {P : Prop} jp x bs l held (Q : unit -> pd -> Prop) s :
  queued s (jp :: bs) (x :: l) held ->
  (forall x', queued (set_q x' s) bs l (jp :: held) -> load x' jp = Some x -> Q tt (set_q x' s)) ->
  runs P (remove_job jp) Q s.
Proof.
  intros Hq HQ. destruct (unlink_job_spec (q s) [] jp bs (qu_linked _ _ _ _ Hq)) as (x' & E & Hlk & Hs).
  pose proof (qu_load _ _ _ _ Hq) as [Hx Hl]%Forall2_cons.
  eapply runs_on_queue; [exact E|]. apply HQ; [|by rewrite Hs].
  eapply queued_again; [exact Hq|done|done|done|]. cbn [app]. by rewrite <- Permutation_middle.
Qed.

Lemma free_job_spec {P : Prop} jp bs l held (Q : unit -> pd -> Prop) s :
  queued s bs l (jp :: held) ->
  (forall s', s' = set_q (MkQueue (delete jp (jobs (q s))) (jobhead (q s)) (jobtail (q s))) (set_pr (drop_handle jp (pr s)) s) ->
     queued s' bs l held -> Q tt s') ->
  runs P (free_job jp) Q s.
Proof.
  intros [Hlk Hld Hnd Hbl Hlv] HQ. unfold free_job. run.
  assert (jp ∉ bs ++ held) as Hn.
  { rewrite <- Permutation_middle in Hnd. by apply NoDup_cons in Hnd as [Hn _]. }
  apply runs_giving_back with (k := RBlk); [apply Hlv; set_solver|]. run. apply HQ; [reflexivity|].
  assert (forall p, p ∈ bs ++ held -> p <> jp) as Hne by (by intros p Hp ->).
  split; cbn.
  - destruct Hlk as [? ? ? Hns]. split; [done..|]. cbn. apply nodes_free; [set_solver|done].
  - apply Forall2_same_length_lookup in Hld as [Hlen Hld]. apply Forall2_same_length_lookup. split; [done|].
    intros i p x Ep Ex. unfold load. cbn. rewrite lookup_delete_ne; [by apply (Hld i)|].
    intros <-. apply Hn, elem_of_app. left. by eapply list_elem_of_lookup_2.
  - rewrite <- Permutation_middle in Hnd. by apply NoDup_cons in Hnd as [_ Hnd].
  - intros p. destruct (decide (p = jp)) as [->|Hp].
    + rewrite lookup_delete_eq. split; [by intros []|done].
    + rewrite lookup_delete_ne, Hbl by done. set_solver.
  - intros p Hp. rewrite lookup_delete_ne by (intros <-; by apply (Hne jp)). apply Hlv. set_solver.
Qed.
End Queued.

(** C28. The doubly linked list of jobs is a list: for every list of blocks that it runs through,
    adding a job appends it, putting a job back puts it in front, and removing one removes it from
    wherever it is; both directions of the links stay right and the jobs keep what they hold. *)
Theorem job_list_is_list x l :
  linked x l ->
  (forall p j, p ∉ l -> jobs x !! p = Some j -> next j = None ->
     exists x', enqueue p x = Ok x' /\ linked x' (l ++ [p]) /\ same_loads x x') /\
  (forall p j, p ∉ l -> jobs x !! p = Some j ->
     exists x', requeue p x = Ok x' /\ linked x' (p :: l) /\ same_loads x x') /\
  (forall a p b, l = a ++ p :: b ->
     exists x', unlink_job p x = Ok x' /\ linked x' (a ++ b) /\ same_loads x x').
Proof.
  intros Hx. split; [|split].
  - intros p j Hp Hj Hn. by eapply enqueue_spec.
  - intros p j Hp Hj. by eapply requeue_spec.
  - intros a p b ->. by apply unlink_job_spec.
Qed.

(** Two jobs in the list and a third one beside it. *)
Definition three_jobs : queue :=
  let r := MkReq 0 0 [] [] in
  MkQueue {[1%nat := MkJob (Some 2%nat) None 1 r; 2%nat := MkJob None (Some 1%nat) 2 r; 3%nat := MkJob None None 3 r]} (Some 1%nat) (Some 2%nat).

Lemma job_list_is_list_witness :
  (exists x', enqueue 3 three_jobs = Ok x' /\ linked x' [1; 2; 3]%nat /\ same_loads three_jobs x') /\
  (exists x', unlink_job 1 three_jobs = Ok x' /\ linked x' [2]%nat /\ same_loads three_jobs x').
Proof.
  destruct (job_list_is_list three_jobs [1; 2]%nat) as (H1 & _ & H3).
  - split; [by apply (bool_decide_unpack _)|reflexivity|reflexivity|].
    split; [by eexists|]. split; [by eexists|exact I].
  - split; [|by apply (H3 [] 1%nat [2%nat])].
    apply (H1 3%nat (MkJob None None 3 (MkReq 0 0 [] []))); [by apply (bool_decide_unpack _)|reflexivity|reflexivity].
Defined.
