(* ===== verification/PrintStatus.v ===== *)
(** * printd.c: the response of the printer

    [printer_status] reads the response into a block that it scans with a pointer; here the
    pointer is its offset [i], which the code keeps in step with it.  The memory of the block that
    was not written yet is [garbage]; an access outside of the block is an error.  The loop that
    looks for the end of the HTTP header need not end, so that the loops have a fuel. *)

From S2P Require Import Prelude Process CLib Prog DbFile PrintState.
From Stdlib Require Import Ascii.
Local Open Scope Z_scope.
Local Open Scope prog_scope.

(** ** The block *)

Definition peek (bp : list Z) (i : Z) : res Z :=
  if i <? 0 then Undef OutOfBounds
  else match bp !! Z.to_nat i with Some b => Ok b | None => Undef OutOfBounds end.

Definition poke (bp : list Z) (i b : Z) : res (list Z) :=
  (let* _ := peek bp i in Ok (<[Z.to_nat i := b]> bp))%c.

(** [bs] written from the offset [off] on. *)
Definition blit (bp : list Z) (off : nat) (bs : list Z) : list Z :=
  take off bp ++ bs ++ drop (off + length bs) bp.

Definition is_space (b : Z) : bool := (b =? 32) || (9 <=? b) && (b <=? 13).
Definition is_num (b : Z) : bool := (48 <=? b) && (b <=? 57).
Definition in_line (b : Z) : bool := negb (b =? CR) && negb (b =? LF).

(** [while (f( *cp )) cp++]; past the end of the block the read is an error. *)
Fixpoint skip_loop (fuel : nat) (f : Z -> bool) (bp : list Z) (i : Z) : res Z :=
  match fuel with
  | O => NoFuel
  | S fuel => (let* b := peek bp i in if f b then skip_loop fuel f bp (i + 1) else Ok i)%c
  end.
Definition skip (f : Z -> bool) (bp : list Z) (i : Z) : res Z := skip_loop (S (length bp)) f bp i.

Fixpoint text_of (l : list Z) : string :=
  match l with [] => EmptyString | b :: l => String (chr b) (text_of l) end.

Definition span (bp : list Z) (i j : Z) : list Z := take (Z.to_nat (j - i)) (drop (Z.to_nat i) bp).

Definition HTTP_INFO (x : Z) : bool := (100 <=? x) && (x <=? 199).
Definition HTTP_SUCCESS (x : Z) : bool := (200 <=? x) && (x <=? 299).
Definition STATCLASS_OK (x : Z) : bool := (0 <=? x) && (x <=? 255).

Definition lower (b : Z) : Z := if (65 <=? b) && (b <=? 90) then b + 32 else b.

(** [strncasecmp(bp + i, name, length of name) == 0] *)
Fixpoint same_name (bp : list Z) (i : Z) (name : list Z) : res bool :=
  match name with
  | [] => Ok true
  | c :: name => (let* b := peek bp i in
                  if lower b =? lower c then same_name bp (i + 1) name else Ok false)%c
  end.

Definition CONTENT_LENGTH : list Z := bytes "Content-Length:".

(** The character is read before [i < datsz] is tested. *)
Fixpoint find_c (fuel : nat) (bp : list Z) (i datsz : Z) : res Z :=
  match fuel with
  | O => NoFuel
  | S fuel => (let* b := peek bp i in
               if negb (b =? 67) && negb (b =? 99) && (i <? datsz) then find_c fuel bp (i + 1) datsz
               else Ok i)%c
  end.

(** The inner loop that looks for the end of the header: where it stops, and whether it found it. *)
Fixpoint find_end (fuel : nat) (bp : list Z) (i datsz : Z) : res (Z * bool) :=
  match fuel with
  | O => NoFuel
  | S fuel =>
      if i <? datsz - 2 then
        (let* b := peek bp i in
         if negb (b =? LF) then find_end fuel bp (i + 1) datsz else
         let* b := peek bp (i + 1) in
         if negb (b =? CR) then find_end fuel bp (i + 1) datsz else
         let* b := peek bp (i + 2) in
         if negb (b =? LF) then find_end fuel bp (i + 1) datsz else Ok (i + 3, true))%c
      else Ok (i, false)
  end.

Section Status.
Context `{World}.

(** What a block of [n] bytes from [malloc] or [realloc] holds. *)
Definition fresh_bytes (from n : nat) : list Z := garbage <$> seq from n.

(** [None] when no more could be read; else the block, and the offset of the end of the data. *)
Definition readmore (sfd : nat) (bp : list Z) (off : Z) : prog pd (list Z * option Z) :=
  let! bp :=
    if Z.of_nat (length bp) <=? off then
      let! r := ask in
      match r with
      | Fails _ => stop "readmore: can't allocate bigger read buffer"
      | _ => ret (bp ++ fresh_bytes (length bp) (Z.to_nat IOBUFSZ))
      end
    else ret bp in
  let! r := tread sfd (length bp - Z.to_nat off) in
  match r with
  | inl (_ :: _ as bs) => ret (blit bp (Z.to_nat off) bs, Some (off + Z.of_nat (length bs)))
  | _ => ret (bp, None)
  end.

(** The search for the length of the content: the block, [i], [datsz] and [len]; [None] when the
    response ends before. *)
Fixpoint find_length (fuel : nat) (sfd : nat) (bp : list Z) (i datsz : Z)
  : prog pd (option (list Z * Z * Z * Z)) :=
  match fuel with
  | O => loops
  | S fuel =>
      let! i := lift (find_c (S (length bp)) bp i datsz) in
      let! more :=
        if datsz <=? i then
          let! (bp, nr) := readmore sfd bp i in
          ret (match nr with None => None | Some nr => Some (bp, datsz + nr) end)
        else ret (Some (bp, datsz)) in
      match more with
      | None => ret None
      | Some (bp, datsz) =>
          let! m := lift (same_name bp i CONTENT_LENGTH) in
          if m : bool then
            let! c0 := lift (skip is_space bp (i + 15)) in
            let! c1 := lift (skip is_num bp c0) in
            let! bp := lift (poke bp c1 0) in
            ret (Some (bp, c1 + 1, datsz, atoi (text_of (span bp c0 c1))))
          else find_length fuel sfd bp (i + 1) datsz
      end
  end.

(** [if (i >= datsz)], "get more header". *)
Definition more_header (sfd : nat) (bp : list Z) (i datsz : Z) : prog pd (option (list Z * Z)) :=
  if datsz <=? i then
    let! (bp, nr) := readmore sfd bp i in
    ret (match nr with None => None | Some nr => Some (bp, datsz + nr) end)
  else ret (Some (bp, datsz)).

Fixpoint find_header_end (fuel : nat) (sfd : nat) (bp : list Z) (i datsz : Z)
  : prog pd (option (list Z * Z * Z)) :=
  match fuel with
  | O => loops
  | S fuel =>
      let! (i, found) := lift (find_end (S (Z.to_nat datsz)) bp i datsz) in
      let! more := more_header sfd bp i datsz in
      match more with
      | None => ret None
      | Some (bp, datsz) =>
          if found : bool then ret (Some (bp, i, datsz)) else find_header_end fuel sfd bp i datsz
      end
  end.

(** The IPP header at offset [i]: the status and the request. *)
Definition ipp_status (bp : list Z) (i : Z) : res (Z * Z) :=
  (let* b2 := peek bp (i + 2) in let* b3 := peek bp (i + 3) in
   let* b4 := peek bp (i + 4) in let* b5 := peek bp (i + 5) in
   let* b6 := peek bp (i + 6) in let* b7 := peek bp (i + 7) in
   Ok (ntohl [b2; b3], s32 (ntohl [b4; b5; b6; b7])))%c.

(** The rest of the header, and the content of length [len]; [None] when the response ends too
    early. *)
Definition ipp_content (fuel : nat) (sfd : nat) (id : Z) (bp : list Z) (i datsz len : Z)
  : prog pd (option bool) :=
  let! r := more_header sfd bp i datsz in
  match r with
  | None => ret None
  | Some (bp, datsz) =>
      let! r := find_header_end fuel sfd bp i datsz in
      match r with
      | None => ret None
      | Some (bp, i, datsz) =>
          let! r :=
            if datsz - i <? len then
              let! (bp, nr) := readmore sfd bp i in
              ret (match nr with None => None | Some _ => Some bp end)
            else ret (Some bp) in
          match r with
          | None => ret None
          | Some bp =>
              let! (st, jobid) := lift (ipp_status bp i) in
              if jobid =? id then ret (Some (STATCLASS_OK st))
              else
                do! log_msg ("jobid " +:+ fmt_lld jobid +:+ " status code " +:+ fmt_lld st)%string in
                ret (Some false)
          end
      end
  end.

(** After a status line that says success, from the end of that line on. *)
Definition ipp_response (fuel : nat) (sfd : nat) (id : Z) (bp : list Z) (i datsz : Z)
  : prog pd (option bool) :=
  let! r := find_length fuel sfd bp i datsz in
  match r with
  | None => ret None
  | Some (bp, i, datsz, len) => ipp_content fuel sfd id bp i datsz len
  end.

(** One response in the block: whether to read on, or the end of the function. *)
Definition one_response (fuel : nat) (sfd : nat) (id : Z) (bp : list Z) (datsz : Z)
  : prog pd (list Z + option bool) :=
  let! c0 := lift (skip is_space bp 8) in
  let! c1 := lift (skip is_num bp c0) in
  if c1 =? c0 then
    let! line := lift (until_nul bp) in
    do! log_msg (text_of line) in
    ret (inl bp)
  else
    let! bp := lift (poke bp c1 0) in
    let! e := lift (skip in_line bp (c1 + 1)) in
    let! bp := lift (poke bp e 0) in
    let code := atoi (text_of (span bp c0 c1)) in
    if HTTP_INFO code then ret (inl bp)
    else if negb (HTTP_SUCCESS code) then
      let! bp := lift (poke bp datsz 0) in
      let! reason := lift (until_nul (drop (Z.to_nat (c1 + 1)) bp)) in
      do! log_msg ("error: " +:+ text_of reason)%string in
      ret (inr (Some false))
    else let! r := ipp_response fuel sfd id bp e datsz in ret (inr r).

(** The [while] loop; [None] when a read failed. *)
Fixpoint responses (n : nat) (fuel : nat) (sfd : nat) (id : Z) (bp : list Z) : prog pd (option bool) :=
  match n with
  | O => loops
  | S n =>
      let! r := tread sfd (length bp) in
      match r with
      | inr _ => ret None
      | inl [] => ret (Some false)
      | inl bs =>
          let! r := one_response fuel sfd id (blit bp 0 bs) (Z.of_nat (length bs)) in
          match r with
          | inl bp => responses n fuel sfd id bp
          | inr r => ret r
          end
      end
  end.

Definition printer_status (fuel : nat) (sfd : nat) (id : Z) : prog pd bool :=
  let! bp := malloc "printer_status: can't allocate read buffer" in
  let! r := responses fuel fuel sfd id (fresh_bytes 0 (Z.to_nat IOBUFSZ)) in
  do! give_back RBlk bp in
  match r with
  | Some b => ret b
  | None => do! log_msg "error reading printer response" in ret false
  end.
End Status.

(** ** Reading the block *)

Definition at_ (A : list Z) : Z := Z.of_nat (length A).

Lemma at_app A B : at_ (A ++ B) = at_ A + at_ B.
Proof. unfold at_. rewrite length_app. lia. Qed.
Lemma at_cons b A : at_ (b :: A) = 1 + at_ A.
Proof. unfold at_. cbn [length]. lia. Qed.
Lemma at_snoc A b : at_ (A ++ [b]) = at_ A + 1.
Proof. unfold at_. rewrite length_app. cbn [length]. lia. Qed.
Lemma at_nonneg A : 0 <= at_ A.
Proof. apply Nat2Z.is_nonneg. Qed.

Lemma peek_at A b B : peek (A ++ b :: B) (at_ A) = Ok b.
Proof.
  unfold peek. pose proof (at_nonneg A). rewrite (proj2 (Z.ltb_ge _ _)) by done.
  unfold at_. by rewrite Nat2Z.id, list_lookup_middle.
Qed.

Lemma poke_at A b c B : poke (A ++ b :: B) (at_ A) c = Ok (A ++ c :: B).
Proof.
  unfold poke. rewrite peek_at. cbn [rbind]. unfold at_. rewrite Nat2Z.id.
  f_equal. rewrite insert_app_r_alt by done. by rewrite Nat.sub_diag.
Qed.

Lemma skip_loop_spec fuel f A M c B :
  (length M < fuel)%nat -> forallb f M = true -> f c = false ->
  skip_loop fuel f (A ++ M ++ c :: B) (at_ A) = Ok (at_ (A ++ M)).
Proof.
  revert A fuel. induction M as [|b M IH]; intros A fuel Hl Hf Hc; (destruct fuel as [|fuel]; [cbn in Hl; lia|]); cbn [app skip_loop].
  - rewrite peek_at. cbn [rbind]. by rewrite Hc, app_nil_r.
  - rewrite peek_at. cbn [rbind]. cbn in Hf. apply andb_true_iff in Hf as [-> Hf].
    rewrite <- (at_snoc A b).
    replace (A ++ b :: M ++ c :: B) with ((A ++ [b]) ++ M ++ c :: B) by (by rewrite <- app_assoc).
    rewrite IH by (cbn in Hl; try lia; done). by rewrite <- app_assoc.
Qed.

Lemma skip_spec f A M c B : forallb f M = true -> f c = false ->
  skip f (A ++ M ++ c :: B) (at_ A) = Ok (at_ (A ++ M)).
Proof. intros. apply skip_loop_spec; [rewrite !length_app; cbn; lia|done..]. Qed.

Lemma span_at A M B : span (A ++ M ++ B) (at_ A) (at_ (A ++ M)) = M.
Proof.
  unfold span. rewrite at_app. replace (at_ A + at_ M - at_ A) with (at_ M) by lia.
  unfold at_. rewrite !Nat2Z.id, drop_app_length. by rewrite take_app_length.
Qed.

(** ** The names and the end of a header *)

Fixpoint starts (name l : list Z) : bool :=
  match name, l with
  | [], _ => true
  | c :: name, b :: l => (lower b =? lower c) && starts name l
  | _ :: _, [] => false
  end.

Lemma same_name_spec A name l : (length name <= length l)%nat ->
  same_name (A ++ l) (at_ A) name = Ok (starts name l).
Proof.
  revert A l. induction name as [|c name IH]; intros A l Hl; [done|].
  destruct l as [|b l]; [cbn in Hl; lia|]. cbn [same_name starts]. rewrite peek_at. cbn [rbind].
  destruct (lower b =? lower c); [|done]. cbn [andb].
  rewrite <- (at_snoc A b).
  rewrite cons_middle, app_assoc. apply IH. cbn in Hl. lia.
Qed.

(** [h] has no place where [name] starts when it is followed by [l]. *)
Fixpoint free_of (name h l : list Z) : bool :=
  match h with
  | [] => true
  | b :: h' => negb (starts name (h ++ l)) && free_of name h' l
  end.

Lemma free_of_cons name b h l :
  free_of name (b :: h) l = negb (starts name ((b :: h) ++ l)) && free_of name h l.
Proof. done. Qed.

Definition not_c (b : Z) : bool := negb (b =? 67) && negb (b =? 99).

Lemma find_c_spec fuel A u c B datsz :
  (length u < fuel)%nat -> forallb not_c u = true -> not_c c = false -> at_ (A ++ u) < datsz ->
  find_c fuel (A ++ u ++ c :: B) (at_ A) datsz = Ok (at_ (A ++ u)).
Proof.
  revert A fuel. induction u as [|b u IH]; intros A fuel Hl Hu Hc Hd; (destruct fuel as [|fuel]; [cbn in Hl; lia|]);
    cbn [app find_c]; rewrite peek_at; cbn [rbind].
  - fold (not_c c). by rewrite Hc, app_nil_r.
  - fold (not_c b). cbn in Hu. apply andb_true_iff in Hu as [-> Hu].
    assert (at_ (A ++ b :: u) = at_ A + 1 + at_ u) as E by (rewrite at_app, at_cons; lia). pose proof (at_nonneg u).
    rewrite (proj2 (Z.ltb_lt _ _)) by lia. cbn [andb].
    rewrite <- (at_snoc A b).
    rewrite cons_middle, app_assoc, IH; [by rewrite <- app_assoc|cbn in Hl; lia|done|done|].
    rewrite <- app_assoc. exact Hd.
Qed.

(** Up to the first of the two letters. *)
Lemma first_c h : (exists u c h', h = u ++ c :: h' /\ forallb not_c u = true /\ not_c c = false) \/ forallb not_c h = true.
Proof.
  induction h as [|b h IH]; [by right|]. destruct (not_c b) eqn:E.
  - destruct IH as [(u & c & h' & -> & Hu & Hc)|IH].
    + left. exists (b :: u), c, h'. cbn. by rewrite E, Hu.
    + right. cbn. by rewrite E.
  - left. by exists [], b, h.
Qed.

Lemma free_of_app name u h l : free_of name (u ++ h) l = true -> free_of name h l = true.
Proof. induction u as [|b u IH]; [done|]. cbn [app free_of]. intros [_ H]%andb_true_iff. by apply IH. Qed.

Lemma starts_head N : starts CONTENT_LENGTH N = true -> exists b N', N = b :: N' /\ not_c b = false.
Proof.
  destruct N as [|b N]; [done|]. intros H. exists b, N. split; [done|].
  change (starts CONTENT_LENGTH (b :: N)) with ((lower b =? 99) && starts (drop 1 CONTENT_LENGTH) N) in H.
  apply andb_true_iff in H as [H%Z.eqb_eq _]. unfold not_c, lower in *.
  destruct ((65 <=? b) && (b <=? 90)) eqn:E; [|by rewrite (proj2 (Z.eqb_eq b 99)) by done; rewrite andb_false_r].
  by rewrite (proj2 (Z.eqb_eq b 67)) by lia.
Qed.

Lemma starts_app name N l : (length name <= length N)%nat -> starts name (N ++ l) = starts name N.
Proof.
  revert N. induction name as [|c name IH]; intros [|b N] H; try done; [cbn in H; lia|].
  cbn in *. f_equal. apply IH. lia.
Qed.

Section Lengths.
Context `{World} (sfd : nat).

(** The length is found when the header has no other place that looks like its name. *)
Lemma find_length_spec h fuel A N sp d ds c B datsz s :
  (length h < fuel)%nat -> free_of CONTENT_LENGTH h N = true ->
  length N = 15%nat -> starts CONTENT_LENGTH N = true ->
  forallb is_space sp = true -> forallb is_num (d :: ds) = true -> is_num c = false -> at_ (A ++ h) < datsz ->
  find_length fuel sfd (A ++ h ++ N ++ sp ++ (d :: ds) ++ c :: B) (at_ A) datsz s =
    Ret (Some (A ++ h ++ N ++ sp ++ (d :: ds) ++ 0 :: B, at_ (A ++ h ++ N ++ sp ++ (d :: ds)) + 1, datsz,
               atoi (text_of (d :: ds)))) s.
Proof.
  intros Hf. remember (length h) as n eqn:En. revert h En A fuel Hf.
  induction (lt_wf n) as [n _ IH]. intros h -> A fuel Hf Hfree HN HS Hsp Hds Hc Hd.
  destruct fuel as [|fuel]; [lia|]. cbn [find_length]. unfold bind at 1.
  assert (is_space d = false) as Hd0.
  { cbn in Hds. apply andb_true_iff in Hds as [Hd0 _]. unfold is_num, is_space in *. lia. }
  destruct (first_c h) as [(u & c' & h' & -> & Hu & Hc')|Hh].
  - (* a letter that does not start the name *)
    assert (starts CONTENT_LENGTH ((c' :: h') ++ N) = false) as Hno.
    { apply free_of_app in Hfree. rewrite free_of_cons in Hfree. apply andb_true_iff in Hfree as [Hno _].
      by apply negb_true_iff in Hno. }
    rewrite <- !app_assoc. cbn [app]. rewrite find_c_spec; [|rewrite !length_app; cbn; lia|done|done|].
    2:{ rewrite !at_app, at_cons in Hd. rewrite at_app. pose proof (at_nonneg h'). lia. }
    cbn [lift ret]. rewrite (proj2 (Z.leb_gt datsz (at_ (A ++ u)))).
    2:{ rewrite !at_app, at_cons in Hd. rewrite at_app. pose proof (at_nonneg h'). lia. }
    unfold bind, ret. cbn [lift ret]. rewrite app_assoc, same_name_spec.
    2:{ cbn [length]. rewrite !length_app, HN. change (length CONTENT_LENGTH) with 15%nat. lia. }
    change (c' :: h' ++ N ++ sp ++ d :: ds ++ c :: B) with ((c' :: h') ++ N ++ sp ++ d :: ds ++ c :: B).
    rewrite (app_assoc (c' :: h')), starts_app, Hno.
    2:{ rewrite length_app, HN. change (length CONTENT_LENGTH) with 15%nat. cbn. lia. }
    cbn [lift ret]. rewrite <- (at_snoc (A ++ u) c').
    replace ((A ++ u) ++ ((c' :: h') ++ N) ++ sp ++ d :: ds ++ c :: B) with
      (((A ++ u) ++ [c']) ++ h' ++ N ++ sp ++ (d :: ds) ++ c :: B) by (by rewrite <- !app_assoc).
    assert (length h' < length (u ++ c' :: h'))%nat as Hlt by (rewrite length_app; cbn; lia).
    rewrite (IH _ Hlt h' eq_refl); try done.
    + by rewrite <- !app_assoc.
    + lia.
    + apply free_of_app with (u := u ++ [c']). by rewrite <- app_assoc.
    + by rewrite <- !app_assoc.
  - (* the name *)
    destruct (starts_head N HS) as (b & N' & -> & Hb).
    change ((b :: N') ++ sp ++ (d :: ds) ++ c :: B) with (b :: (N' ++ sp ++ (d :: ds) ++ c :: B)).
    rewrite find_c_spec by (try done; rewrite !length_app; cbn; lia). cbn [lift ret].
    rewrite (proj2 (Z.leb_gt _ _)) by done. unfold bind, ret.
    rewrite app_assoc. change (b :: (N' ++ sp ++ (d :: ds) ++ c :: B)) with ((b :: N') ++ sp ++ (d :: ds) ++ c :: B).
    rewrite same_name_spec.
    2:{ rewrite length_app, HN. change (length CONTENT_LENGTH) with 15%nat. lia. }
    rewrite starts_app, HS by (by rewrite HN). cbn [lift ret].
    replace (at_ (A ++ h) + 15) with (at_ ((A ++ h) ++ b :: N')) by (rewrite (at_app _ (b :: N')); unfold at_ at 2; rewrite HN; lia).
    rewrite (app_assoc (A ++ h)). rewrite (skip_spec is_space _ sp d (ds ++ c :: B)) by done. cbn [lift ret].
    rewrite (app_assoc _ sp), (skip_spec is_num _ (d :: ds) c B) by done. cbn [lift ret].
    rewrite (app_assoc _ (d :: ds)), poke_at. cbn [lift ret].
    rewrite <- (app_assoc _ (d :: ds)), span_at. by rewrite <- !app_assoc.
Qed.
End Lengths.

Definition END_OF_HEADER : list Z := [LF; CR; LF].

Definition ends_at (l : list Z) : bool :=
  match l with a :: b :: c :: _ => (a =? LF) && (b =? CR) && (c =? LF) | _ => false end.

(** [h] has no place where the header ends when it is followed by [l]. *)
Fixpoint no_end (h l : list Z) : bool :=
  match h with
  | [] => true
  | _ :: h' => negb (ends_at (h ++ l)) && no_end h' l
  end.

Lemma ends_at_app a b : (3 <= length a)%nat -> ends_at (a ++ b) = ends_at a.
Proof. by destruct a as [|x [|y [|z a]]]; cbn; [lia..|]. Qed.

Lemma find_end_step fuel A x y z B datsz : at_ A < datsz - 2 ->
  find_end (S fuel) (A ++ x :: y :: z :: B) (at_ A) datsz =
    if ends_at [x; y; z] then Ok (at_ A + 3, true)
    else find_end fuel (A ++ x :: y :: z :: B) (at_ A + 1) datsz.
Proof.
  intros H. cbn [find_end]. rewrite (proj2 (Z.ltb_lt _ _)) by done. rewrite peek_at. cbn [rbind ends_at].
  destruct (x =? LF); [|done]. cbn [negb andb]. rewrite <- (at_snoc A x).
  rewrite (cons_middle x A), (app_assoc A [x]), peek_at. cbn [rbind].
  destruct (y =? CR); [|done]. cbn [negb andb]. rewrite at_snoc.
  replace (at_ A + 2) with (at_ ((A ++ [x]) ++ [y])) by (rewrite !at_snoc; lia).
  rewrite (cons_middle y (A ++ [x])), (app_assoc (A ++ [x]) [y]), peek_at. cbn [rbind].
  by destruct (z =? LF).
Qed.

Lemma find_end_spec h fuel A B datsz :
  (length h < fuel)%nat -> no_end h END_OF_HEADER = true -> at_ (A ++ h) + 3 <= datsz ->
  find_end fuel (A ++ h ++ END_OF_HEADER ++ B) (at_ A) datsz = Ok (at_ (A ++ h) + 3, true).
Proof.
  revert A fuel. induction h as [|b h IH]; intros A fuel Hf Hn Hd; (destruct fuel as [|fuel]; [cbn in Hf; lia|]).
  - cbn [app END_OF_HEADER]. rewrite app_nil_r in *. rewrite find_end_step by lia. done.
  - cbn [no_end] in Hn. apply andb_true_iff in Hn as [Hb%negb_true_iff Hn].
    assert (at_ (A ++ b :: h) = at_ A + 1 + at_ h) as E by (rewrite at_app, at_cons; lia). pose proof (at_nonneg h).
    assert (exists y z B', h ++ END_OF_HEADER ++ B = y :: z :: B' /\ ends_at [b; y; z] = false) as (y & z & B' & Ey & Hend).
    { destruct h as [|y [|z h]]; [by exists LF, CR, (LF :: B)|exists y, LF, (CR :: LF :: B)|exists y, z, (h ++ END_OF_HEADER ++ B)];
        split; try done. }
    cbn [app]. rewrite Ey, find_end_step by lia. rewrite Hend, <- Ey, <- (at_snoc A b), cons_middle, app_assoc.
    rewrite IH; [by rewrite <- app_assoc|cbn in Hf; lia|done|]. rewrite <- app_assoc. exact Hd.
Qed.

(** Without the end of the header the search stops two bytes before the end of the data. *)
Lemma find_end_none X fuel A B datsz :
  (length X < fuel)%nat -> no_end X [] = true -> (2 <= length X)%nat -> at_ (A ++ X) = datsz ->
  find_end fuel (A ++ X ++ B) (at_ A) datsz = Ok (datsz - 2, false).
Proof.
  revert A fuel. induction X as [|x X IH]; intros A fuel Hf Hn Hl Hd; [cbn in Hl; lia|]. destruct fuel as [|fuel]; [cbn in Hf; lia|].
  assert (at_ (A ++ x :: X) = at_ A + 1 + at_ X) as E by (rewrite at_app, at_cons; lia).
  cbn [no_end] in Hn. rewrite app_nil_r in Hn. apply andb_true_iff in Hn as [Hx%negb_true_iff Hn].
  destruct X as [|y [|z X]]; [cbn in Hl; lia| |].
  - cbn [find_end]. rewrite E in Hd. change (at_ [y]) with 1 in Hd. rewrite (proj2 (Z.ltb_ge _ _)) by lia.
    by replace (datsz - 2) with (at_ A) by lia.
  - cbn [app]. rewrite find_end_step.
    2:{ rewrite E, !at_cons in Hd. pose proof (at_nonneg X). lia. }
    change (ends_at (x :: y :: z :: X)) with (ends_at [x; y; z]) in Hx. rewrite Hx, <- (at_snoc A x), cons_middle, app_assoc.
    apply (IH (A ++ [x])); [cbn in Hf |- *; lia|done|cbn; lia|]. by rewrite <- app_assoc.
Qed.

(** ** A response that arrives in one piece *)

Record reply := MkReply {
  r_version : list Z; r_gap : list Z; r_code : list Z; r_sep : Z; r_reason : list Z; r_eol : Z;
  r_before : list Z; r_name : list Z; r_space : list Z; r_length : list Z; r_end : Z; r_after : list Z;
  r_body : list Z
}.

(** The status line, the header with the length of the content, and the content. *)
Definition status_line (r : reply) : list Z :=
  r_version r ++ r_gap r ++ r_code r ++ r_sep r :: r_reason r ++ [r_eol r].
Definition header (r : reply) (X : list Z) : list Z :=
  status_line r ++ r_before r ++ r_name r ++ r_space r ++ r_length r ++ r_end r :: X.
Definition render (r : reply) : list Z := header r (r_after r ++ END_OF_HEADER ++ r_body r).

Definition number (l : list Z) : Z := atoi (text_of l).
Definition digits (l : list Z) : bool := negb (bool_decide (l = [])) && forallb is_num l.

Definition wf_status (r : reply) : bool :=
  bool_decide (length (r_version r) = 8%nat) && forallb is_space (r_gap r) && digits (r_code r) &&
  negb (is_num (r_sep r)) && forallb in_line (r_reason r) && negb (in_line (r_eol r)) &&
  negb (HTTP_INFO (number (r_code r))).

Definition wf_length (r : reply) : bool :=
  free_of CONTENT_LENGTH (r_before r) (r_name r) && bool_decide (length (r_name r) = 15%nat) &&
  starts CONTENT_LENGTH (r_name r) && forallb is_space (r_space r) && digits (r_length r) &&
  negb (is_num (r_end r)).

Definition wf_reply (r : reply) : bool :=
  wf_status r && wf_length r && no_end (r_after r) END_OF_HEADER &&
  (8 <=? at_ (r_body r)) && (number (r_length r) <=? at_ (r_body r)) && (at_ (render r) <? IOBUFSZ).

(** What the printer says of the request [id]. *)
Definition accepts (r : reply) (id : Z) : bool :=
  HTTP_SUCCESS (number (r_code r)) &&
  (s32 (ntohl (take 4 (drop 4 (r_body r)))) =? id) && STATCLASS_OK (ntohl (take 2 (drop 2 (r_body r)))).

Lemma until_nul_ok A B : exists t, until_nul (A ++ 0 :: B) = Ok t.
Proof.
  induction A as [|a A [t IH]]; [by exists []|]. cbn. destruct (a =? 0); [by exists []|].
  rewrite IH. by exists (a :: t).
Qed.

Lemma ipp_status_spec A body G : (8 <= length body)%nat ->
  ipp_status (A ++ body ++ G) (at_ A) = Ok (ntohl (take 2 (drop 2 body)), s32 (ntohl (take 4 (drop 4 body)))).
Proof.
  intros H. destruct body as [|b0 [|b1 [|b2 [|b3 [|b4 [|b5 [|b6 [|b7 body]]]]]]]]; cbn in H; try lia.
  assert (forall i z b, z = Z.of_nat i -> [b0; b1; b2; b3; b4; b5; b6; b7] !! i = Some b ->
    peek (A ++ (b0 :: b1 :: b2 :: b3 :: b4 :: b5 :: b6 :: b7 :: body) ++ G) (at_ A + z) = Ok b) as Hp.
  { intros i z b -> Hi. unfold peek, at_. rewrite (proj2 (Z.ltb_ge _ _)) by lia.
    replace (Z.to_nat (Z.of_nat (length A) + Z.of_nat i)) with (length A + i)%nat by lia.
    rewrite lookup_app_r by lia. replace (length A + i - length A)%nat with i by lia.
    change (b0 :: b1 :: b2 :: b3 :: b4 :: b5 :: b6 :: b7 :: body) with ([b0; b1; b2; b3; b4; b5; b6; b7] ++ body).
    rewrite <- app_assoc. by rewrite (lookup_app_l_Some _ _ _ _ Hi). }
  unfold ipp_status. rewrite (Hp 2%nat 2 b2), (Hp 3%nat 3 b3), (Hp 4%nat 4 b4), (Hp 5%nat 5 b5), (Hp 6%nat 6 b6), (Hp 7%nat 7 b7) by done.
  done.
Qed.

Section Reply.
Context `{World} (sfd : nat).

(** The length of the content, from the end of the status line on. *)
Lemma length_read r fuel A X s :
  wf_length r = true -> (length (r_before r) + 1 < fuel)%nat ->
  exists P, length P = (length A + 1 + length (r_before r) + length (r_name r) + length (r_space r) + length (r_length r) + 1)%nat /\
  forall datsz, at_ A + 1 + at_ (r_before r) < datsz ->
  find_length fuel sfd ((A ++ [0]) ++ r_before r ++ r_name r ++ r_space r ++ r_length r ++ r_end r :: X) (at_ A) datsz s =
    Ret (Some (P ++ X, at_ P, datsz, number (r_length r))) s.
Proof.
  unfold wf_length, digits. repeat rewrite andb_true_iff.
  intros [[[[[Hfree HN%bool_decide_eq_true] HS] Hsp] [Hln Hld]] Hend%negb_true_iff] Hf.
  destruct (r_length r) as [|d ds] eqn:El; [done|].
  exists (A ++ (0 :: r_before r) ++ r_name r ++ r_space r ++ (d :: ds) ++ [0]). split.
  { repeat (rewrite length_app || cbn [length]). lia. }
  intros datsz Hd. rewrite <- (app_assoc A). change ([0] ++ r_before r ++ ?x) with ((0 :: r_before r) ++ x).
  rewrite find_length_spec; try done.
  - rewrite <- !app_assoc. repeat f_equal. unfold at_. repeat (rewrite length_app || cbn [length]). lia.
  - cbn [length]. lia.
  - rewrite at_app, at_cons. lia.
Qed.

(** The end of the header and the IPP header, when all is there. *)
Lemma body_read r fuel id P G len s (Q : option bool -> pd -> Prop) :
  no_end (r_after r) END_OF_HEADER = true -> 8 <= at_ (r_body r) -> len <= at_ (r_body r) -> (0 < fuel)%nat ->
  (forall s', kept s s' -> inbox s' = inbox s -> sent s' = sent s ->
     Q (Some ((s32 (ntohl (take 4 (drop 4 (r_body r)))) =? id) && STATCLASS_OK (ntohl (take 2 (drop 2 (r_body r)))))) s') ->
  let datsz := at_ P + at_ (r_after r) + 3 + at_ (r_body r) in
  runs broken (ipp_content fuel sfd id (P ++ r_after r ++ END_OF_HEADER ++ r_body r ++ G) (at_ P) datsz len) Q s.
Proof.
  intros Hne Hb Hlen Hf HQ datsz. pose proof (at_nonneg (r_after r)). pose proof (at_nonneg P).
  assert (at_ (r_after r) = Z.of_nat (length (r_after r))) as Ea by done.
  unfold ipp_content, more_header at 1. rewrite (proj2 (Z.leb_gt _ _)) by lia. run. run. cbv iota.
  apply runs_bind. destruct fuel as [|fuel]; [lia|]. cbn [find_header_end]. run.
  rewrite find_end_spec; [|lia|done|rewrite at_app; lia]. cbn [lift]. run. cbv iota.
  unfold more_header. rewrite (proj2 (Z.leb_gt _ _)) by (rewrite at_app; lia). run. run. cbv iota. run. cbv iota.
  replace (datsz - (at_ (P ++ r_after r) + 3)) with (at_ (r_body r)) by (rewrite at_app; lia).
  rewrite (proj2 (Z.ltb_ge _ _)) by done. run. run. cbv iota. run.
  replace (at_ (P ++ r_after r) + 3) with (at_ (P ++ r_after r ++ END_OF_HEADER)) by (rewrite !at_app; change (at_ END_OF_HEADER) with 3; lia).
  rewrite (app_assoc (r_after r)), (app_assoc P), ipp_status_spec by (unfold at_ in Hb; lia). cbn [lift]. run. cbv iota.
  destruct (_ =? id) eqn:Eid.
  - run. by apply HQ.
  - run. unfold log_msg. apply runs_log_line. run. apply HQ; [|done..]. split; try done. apply keeps_emit.
Qed.

(** The status line: the two characters after the code and after the line become NUL. *)
Lemma status_read r fuel id X datsz s :
  wf_status r = true ->
  exists A (reason : nat), (length A + 1 = length (status_line r))%nat /\
    one_response fuel sfd id (status_line r ++ X) datsz s =
      (if HTTP_SUCCESS (number (r_code r)) then
         let! r := ipp_response fuel sfd id ((A ++ [0]) ++ X) (at_ A) datsz in ret (inr r)
       else
         let! bp := lift (poke ((A ++ [0]) ++ X) datsz 0) in
         let! reason := lift (until_nul (drop reason bp)) in
         do! log_msg ("error: " +:+ text_of reason)%string in
         ret (inr (Some false))) s /\ (reason <= length A)%nat.
Proof.
  unfold wf_status, digits. repeat rewrite andb_true_iff.
  intros [[[[[[Hv%bool_decide_eq_true Hg] [Hcn Hcd]] Hs%negb_true_iff] Hr] He%negb_true_iff] Hi%negb_true_iff].
  set (V := r_version r ++ r_gap r). set (C := V ++ r_code r). exists ((C ++ [0]) ++ r_reason r), (length (C ++ [0])).
  split; [|split].
  { unfold C, V, status_line. repeat (rewrite length_app || cbn [length]). lia. }
  2:{ rewrite (length_app (C ++ [0])). lia. }
  unfold one_response, status_line. unfold number in *.
  assert ((r_version r ++ r_gap r ++ r_code r ++ r_sep r :: r_reason r ++ [r_eol r]) ++ X =
    V ++ r_code r ++ r_sep r :: r_reason r ++ r_eol r :: X) as ->.
  { unfold V. by repeat (rewrite <- app_assoc || cbn [app]). }
  assert (skip is_space (V ++ r_code r ++ r_sep r :: r_reason r ++ r_eol r :: X) 8 = Ok (at_ V)) as E0.
  { unfold V. rewrite <- (app_assoc (r_version r)). replace 8 with (at_ (r_version r)) by (unfold at_; by rewrite Hv).
    destruct (r_code r) as [|d ds]; [done|]. apply (skip_spec is_space (r_version r) (r_gap r) d); [done|].
    cbn in Hcd. apply andb_true_iff in Hcd as [Hd _]. unfold is_num, is_space in *. lia. }
  unfold bind at 1. rewrite E0. cbn [lift ret]. unfold bind at 1. rewrite (skip_spec is_num V) by done. cbn [lift ret]. fold C.
  assert (at_ V < at_ C) as Hlt.
  { unfold C. rewrite at_app. destruct (r_code r) as [|d ds]; [done|]. rewrite at_cons. pose proof (at_nonneg ds). lia. }
  rewrite (proj2 (Z.eqb_neq _ _)) by lia. unfold bind at 1. rewrite (app_assoc V). fold C. rewrite poke_at. cbn [lift ret].
  unfold bind at 1. rewrite <- (at_snoc C 0), cons_middle, (app_assoc C), (skip_spec in_line) by done. cbn [lift ret].
  unfold bind at 1. rewrite (app_assoc (C ++ [0])), poke_at. cbn [lift ret].
  assert (span (((C ++ [0]) ++ r_reason r) ++ 0 :: X) (at_ V) (at_ C) = r_code r) as Esp.
  { unfold C. rewrite <- !app_assoc. apply span_at. }
  rewrite Esp, Hi. replace (Z.to_nat (at_ (C ++ [0]))) with (length (C ++ [0])) by (unfold at_; lia).
  rewrite (cons_middle 0), (app_assoc _ [0]). by destruct (HTTP_SUCCESS _).
Qed.

Lemma header_cons r X : wf_status r = true -> exists b l, header r X = b :: l.
Proof.
  unfold wf_status. repeat rewrite andb_true_iff. intros [[[[[[Hv%bool_decide_eq_true _] _] _] _] _] _].
  unfold header, status_line. destruct (r_version r); [done|]. by eexists _, _.
Qed.

Lemma one_response_spec r fuel id G s (Q : list Z + option bool -> pd -> Prop) :
  wf_reply r = true -> (length (render r) < fuel)%nat -> G <> [] ->
  (forall s', kept s s' -> inbox s' = inbox s -> sent s' = sent s -> Q (inr (Some (accepts r id))) s') ->
  runs broken (one_response fuel sfd id (render r ++ G) (at_ (render r))) Q s.
Proof.
  unfold wf_reply. repeat rewrite andb_true_iff. intros [[[[[Hst Hln] Hne] Hb%Z.leb_le] Hlen%Z.leb_le] _] Hf HG HQ.
  destruct G as [|g G]; [done|].
  destruct (status_read r fuel id (r_before r ++ r_name r ++ r_space r ++ r_length r ++ r_end r :: r_after r ++
    END_OF_HEADER ++ r_body r ++ g :: G) (at_ (render r)) s Hst) as (A & reason & HA & E & Hreason).
  assert (render r ++ g :: G = status_line r ++ r_before r ++ r_name r ++ r_space r ++ r_length r ++ r_end r :: r_after r ++
    END_OF_HEADER ++ r_body r ++ g :: G) as -> by (unfold render, header; by repeat (rewrite <- app_assoc || cbn [app])).
  assert (length (render r) = length A + 1 + length (r_before r) + length (r_name r) + length (r_space r) + length (r_length r) + 1 +
    length (r_after r) + 3 + length (r_body r))%nat as Hd.
  { unfold render, header, END_OF_HEADER. rewrite length_app, <- HA. repeat (rewrite length_app || cbn [length]). lia. }
  unfold runs. rewrite E. clear E. unfold accepts in HQ. destruct (HTTP_SUCCESS _); cbn [andb] in HQ.
  - destruct (length_read r fuel A (r_after r ++ END_OF_HEADER ++ r_body r ++ g :: G) s Hln ltac:(lia)) as (P & HP & E).
    change (runs broken (let! r0 := ipp_response fuel sfd id ((A ++ [0]) ++ r_before r ++ r_name r ++ r_space r ++ r_length r ++ r_end r ::
      r_after r ++ END_OF_HEADER ++ r_body r ++ g :: G) (at_ A) (at_ (render r)) in ret (inr r0)) Q s).
    run. unfold ipp_response. run. unfold runs at 1. rewrite E by (unfold at_; lia). cbv beta iota.
    replace (at_ (render r)) with (at_ P + at_ (r_after r) + 3 + at_ (r_body r)) by (unfold at_; lia).
    apply body_read; [done..|lia|]. intros s' Hk Hi Hse. run. by apply HQ.
  - set (bp := (A ++ [0]) ++ r_before r ++ _).
    assert (exists B, bp = (A ++ [0]) ++ B ++ g :: G /\ at_ (render r) = at_ ((A ++ [0]) ++ B)) as (B & -> & ->).
    { exists (r_before r ++ r_name r ++ r_space r ++ r_length r ++ r_end r :: r_after r ++ END_OF_HEADER ++ r_body r).
      split; [unfold bp; by repeat (rewrite <- app_assoc || cbn [app])|].
      unfold at_, END_OF_HEADER in *. repeat (rewrite length_app || cbn [length]). lia. }
    match goal with |- match ?m s with _ => _ end => change (runs broken m Q s) end.
    run. rewrite app_assoc, poke_at. cbn [lift]. run. run. rewrite <- !app_assoc. rewrite drop_app_le by lia.
    cbn [app]. destruct (until_nul_ok (drop reason A) (B ++ 0 :: G)) as [t ->]. cbn [lift]. run.
    run. unfold log_msg. apply runs_log_line. run. apply HQ; [|done..]. split; try done. apply keeps_emit.
Qed.

(** A response with an HTTP header of any shape that arrives in one piece is read as what it
    says: the function answers 1 when the HTTP status is success, the IPP status is success and
    the request is that of the job, it does not leave its buffer, and it gives its block back. *)
Lemma reply_in_one_piece r rest fuel jid s :
  proc_wf (pr s) -> wf_reply r = true -> (length (render r) < fuel)%nat ->
  inbox s !! sfd = Some (Data (render r) :: rest) ->
  runs broken (printer_status fuel sfd jid)
    (fun b s' => b = accepts r jid /\ kept s s' /\ sent s' = sent s /\ inbox s' = <[sfd := rest]> (inbox s)) s.
Proof.
  intros Hp Hwf Hf Hin. pose proof Hwf as Hwf'. unfold wf_reply in Hwf'. repeat rewrite andb_true_iff in Hwf'.
  destruct Hwf' as [[[[[Hst _] _] _] _] Hsz%Z.ltb_lt].
  assert (length (render r) < Z.to_nat IOBUFSZ)%nat as Hsz' by (unfold at_ in Hsz; lia).
  unfold printer_status. run. apply runs_malloc. run. destruct fuel as [|fuel]; [lia|]. cbn [responses]. run. unfold tread. run. run.
  change (inbox (set_pr (snd (acquire RBlk (pr s))) (tick s))) with (inbox s). rewrite Hin. cbn [from_option id].
  assert (length (fresh_bytes 0 (Z.to_nat IOBUFSZ)) = Z.to_nat IOBUFSZ) as Hlf by (unfold fresh_bytes; by rewrite length_fmap, length_seq).
  rewrite Hlf, drop_ge, take_ge by lia. rewrite bool_decide_true by done. run. run. run.
  destruct (header_cons r (r_after r ++ END_OF_HEADER ++ r_body r) Hst) as (b & l & El). fold (render r) in El. rewrite El. rewrite <- El. run.
  unfold blit. cbn [take app]. change (Z.of_nat (length (render r))) with (at_ (render r)).
  apply one_response_spec; [done|lia| |].
  { intros E. apply (f_equal length) in E. rewrite length_drop, Hlf in E. cbn [length] in E. lia. }
  intros s' Hk Hin' Hse. run. run. destruct (k_pr _ _ Hk) as (Hl & Hn & Hlog). cbn in Hl, Hn, Hlog.
  apply runs_giving_back with (k := RBlk); [by rewrite Hl, lookup_insert_eq|]. cbv iota. run.
  cbn [sent inbox set_pr]. rewrite Hse, Hin'. split; [reflexivity|]. split; [|split; reflexivity].
  eapply kept_around; [exact Hk|]. unfold keeps, drop_handle. cbn [live next_id log]. rewrite Hl.
  split; [|split; [lia|done]]. apply delete_insert_id. by apply Hp.
Qed.

(** ** A response that does not *)

(** When nothing comes the answer is 0. *)
Lemma no_reply fuel jid s :
  proc_wf (pr s) -> (0 < fuel)%nat ->
  (match inbox s !! sfd with None | Some [] | Some (Silence :: _) | Some (Broken _ :: _) => True | _ => False end) ->
  runs broken (printer_status fuel sfd jid) (fun b s' => b = false /\ kept s s' /\ sent s' = sent s) s.
Proof.
  intros Hp Hf Hin. unfold printer_status. run. apply runs_malloc. run. destruct fuel as [|fuel]; [lia|]. cbn [responses].
  run. unfold tread. run. run. change (inbox (set_pr (snd (acquire RBlk (pr s))) (tick s))) with (inbox s).
  assert (live (snd (acquire RBlk (pr s))) !! next_id (pr s) = Some RBlk) as Hl by apply lookup_insert_eq.
  destruct (inbox s !! sfd) as [[|[bs| |e] c]|] eqn:Ei; cbn [from_option id]; try done; repeat run; (apply runs_giving_back with (k := RBlk); [exact Hl|]);
    cbv iota; repeat run; try (unfold log_msg; apply runs_log_line; run).
  all: split; [reflexivity|split; [|reflexivity]]; split; try reflexivity; [|cbn; lia]; unfold keeps; cbn; split;
    [by apply delete_insert_id, Hp|split; [lia|]]; first [reflexivity|by apply prefix_app_r].
Qed.

(** Whatever comes, the function changes nothing but its connection, the clock and the log, when it
    returns. *)
Definition framed {A} (m : prog pd A) : Prop :=
  forall s, runs_unless True broken m (fun _ s' => kept s s' /\ sent s' = sent s) s.

Lemma framed_ret {A} (a : A) : framed (ret a).
Proof. by intros s. Qed.

Lemma framed_bind {A B} (m : prog pd A) (k : A -> prog pd B) : framed m -> (forall a, framed (k a)) -> framed (bind m k).
Proof.
  intros Hm Hk s. apply unless_bind. eapply unless_mono; [apply Hm|done|]. intros a s1 _ [H1 E1].
  eapply unless_mono; [apply Hk|done|]. intros b s2 _ [H2 E2]. split; [by etrans|congruence].
Qed.

Lemma framed_lift {A} (m : res A) : framed (lift m).
Proof. destruct m; by intros s. Qed.

Lemma framed_loops {A} : framed (loops (A := A)).
Proof. by intros s. Qed.

Lemma framed_log t : framed (log_msg t).
Proof. intros s. split; [by apply kept_log|done]. Qed.

Lemma framed_tread n : framed (tread sfd n).
Proof.
  intros s. unfold runs_unless, tread, bind, gets. destruct (default [] (inbox s !! sfd)) as [|[bs| |e] c]; [done|..];
    (split; [by split|done]).
Qed.

Lemma framed_readmore bp off : framed (readmore sfd bp off).
Proof.
  unfold readmore. apply framed_bind.
  - destruct (_ <=? off); [|apply framed_ret]. intros s. apply unless_runs. run. apply runs_ask. intros o Ho.
    destruct o as [|n|e]; [split; [by split|done]..|]. by exists (ticks s), e.
  - intros bp'. apply framed_bind; [apply framed_tread|]. intros [[|b bs]|e]; apply framed_ret.
Qed.

Lemma framed_more bp i datsz : framed (more_header sfd bp i datsz).
Proof.
  unfold more_header. destruct (datsz <=? i); [|apply framed_ret]. apply framed_bind; [apply framed_readmore|].
  intros [? [nr|]]; apply framed_ret.
Qed.

Lemma framed_length fuel bp i datsz : framed (find_length fuel sfd bp i datsz).
Proof.
  revert bp i datsz. induction fuel as [|fuel IH]; intros bp i datsz; cbn [find_length]; [apply framed_loops|].
  apply framed_bind; [apply framed_lift|]. intros i'. apply framed_bind; [apply framed_more|].
  intros [[bp' datsz']|]; [|apply framed_ret]. apply framed_bind; [apply framed_lift|]. intros [|]; [|apply IH].
  repeat (apply framed_bind; [apply framed_lift|intros ?]). apply framed_ret.
Qed.

Lemma framed_end fuel bp i datsz : framed (find_header_end fuel sfd bp i datsz).
Proof.
  revert bp i datsz. induction fuel as [|fuel IH]; intros bp i datsz; cbn [find_header_end]; [apply framed_loops|].
  apply framed_bind; [apply framed_lift|]. intros [i' found]. apply framed_bind; [apply framed_more|].
  intros [[bp' datsz']|]; [|apply framed_ret]. destruct found; [apply framed_ret|apply IH].
Qed.

Lemma framed_content fuel id bp i datsz len : framed (ipp_content fuel sfd id bp i datsz len).
Proof.
  unfold ipp_content. apply framed_bind; [apply framed_more|]. intros [[bp1 d1]|]; [|apply framed_ret].
  apply framed_bind; [apply framed_end|]. intros [[[bp2 i2] d2]|]; [|apply framed_ret]. apply framed_bind.
  - destruct (_ <? len); [|apply framed_ret]. apply framed_bind; [apply framed_readmore|]. intros [? [nr|]]; apply framed_ret.
  - intros [bp3|]; [|apply framed_ret]. apply framed_bind; [apply framed_lift|]. intros [st jobid].
    destruct (jobid =? id); [apply framed_ret|]. apply framed_bind; [apply framed_log|]. intros _. apply framed_ret.
Qed.

Lemma framed_response fuel id bp datsz : framed (one_response fuel sfd id bp datsz).
Proof.
  unfold one_response. do 2 (apply framed_bind; [apply framed_lift|intros ?]). destruct (_ =? _).
  - apply framed_bind; [apply framed_lift|]. intros ?. apply framed_bind; [apply framed_log|]. intros _. apply framed_ret.
  - do 3 (apply framed_bind; [apply framed_lift|intros ?]). destruct (HTTP_INFO _); [apply framed_ret|]. destruct (negb _).
    + do 2 (apply framed_bind; [apply framed_lift|intros ?]). apply framed_bind; [apply framed_log|]. intros _. apply framed_ret.
    + apply framed_bind; [|intros ?; apply framed_ret]. unfold ipp_response. apply framed_bind; [apply framed_length|].
      intros [[[[bp' i] d] len]|]; [apply framed_content|apply framed_ret].
Qed.

Lemma framed_responses n fuel id bp : framed (responses n fuel sfd id bp).
Proof.
  revert bp. induction n as [|n IH]; intros bp; cbn [responses]; [apply framed_loops|].
  apply framed_bind; [apply framed_tread|]. intros [[|b bs]|e]; [apply framed_ret| |apply framed_ret].
  apply framed_bind; [apply framed_response|]. intros [bp'|r]; [apply IH|apply framed_ret].
Qed.

Lemma status_frame fuel jid s :
  proc_wf (pr s) -> runs_unless True broken (printer_status fuel sfd jid) (fun _ s' => kept s s' /\ sent s' = sent s) s.
Proof.
  intros Hp. unfold printer_status. run_first. apply runs_malloc. set (s1 := set_pr _ _). apply unless_bind.
  eapply unless_mono; [apply framed_responses|done|]. intros r s2 _ [Hk Hs]. destruct (k_pr _ _ Hk) as (Hl & Hn & Hlog). cbn in Hl, Hn, Hlog.
  apply unless_runs. run. apply runs_giving_back with (k := RBlk); [by rewrite Hl, lookup_insert_eq|].
  assert (kept s (set_pr (drop_handle (next_id (pr s)) (pr s2)) s2)) as H2.
  { apply (kept_around s (inbox s) (snd (acquire RBlk (pr s)))); [exact Hk|]. unfold keeps, drop_handle. cbn [live next_id log]. rewrite Hl.
    split; [|split; [lia|done]]. apply delete_insert_id. by apply Hp. }
  destruct r as [b|]; [run; by split|]. run. unfold log_msg. apply runs_log_line. run. split; [by apply kept_log|done].
Qed.

Lemma find_header_end_loops fuel bp i datsz s :
  find_end (S (Z.to_nat datsz)) bp i datsz = Ok (datsz - 2, false) ->
  find_header_end fuel sfd bp i datsz s = Loops.
Proof.
  revert i. induction fuel as [|fuel IH]; intros i E; [done|]. cbn [find_header_end]. unfold bind at 1. rewrite E. cbn [lift ret].
  unfold more_header, bind. rewrite (proj2 (Z.leb_gt datsz (datsz - 2))) by lia. cbn [ret].
  apply IH. cbn [find_end]. by rewrite (proj2 (Z.ltb_ge (datsz - 2) (datsz - 2))) by lia.
Qed.

(** When a response of success arrives and the first piece ends inside the header, after the length
    of the content and two bytes more, the function does not return, whatever comes next and however
    long it runs. *)
Theorem half_header_hangs r X rest fuel jid s :
  wf_status r = true -> HTTP_SUCCESS (number (r_code r)) = true -> wf_length r = true ->
  no_end X [] = true -> (2 <= length X)%nat -> at_ (header r X) < IOBUFSZ -> (length (header r X) < fuel)%nat ->
  inbox s !! sfd = Some (Data (header r X) :: rest) ->
  never (printer_status fuel sfd jid) s.
Proof.
  intros Hst Hok Hln Hne HX Hsz Hf Hin.
  assert (length (header r X) < Z.to_nat IOBUFSZ)%nat as Hsz' by (unfold at_ in Hsz; lia).
  unfold printer_status. apply (never_then (fun _ s' => inbox s' = inbox s)).
  { eapply runs_excuse; [done|]. by apply runs_malloc. }
  intros bp s1 E1. apply never_first. destruct fuel as [|fuel]; [lia|]. cbn [responses].
  assert (length (fresh_bytes 0 (Z.to_nat IOBUFSZ)) = Z.to_nat IOBUFSZ) as Hlf by (unfold fresh_bytes; by rewrite length_fmap, length_seq).
  apply (never_then (fun a _ => a = inl (header r X))).
  { unfold tread. run. run. rewrite E1, Hin. cbn [from_option id]. rewrite Hlf, take_ge by lia. by repeat run. }
  intros ? s2 ->. destruct (header_cons r X Hst) as (b & l & El). rewrite El. rewrite <- El. apply never_first.
  set (G := drop (length (header r X)) (fresh_bytes 0 (Z.to_nat IOBUFSZ))).
  change (blit _ 0 _) with (header r X ++ G). change (Z.of_nat (length (header r X))) with (at_ (header r X)).
  destruct (status_read r (S fuel) jid (r_before r ++ r_name r ++ r_space r ++ r_length r ++ r_end r :: X ++ G) (at_ (header r X)) s2 Hst)
    as (A & reason & HA & E & _). rewrite Hok in E.
  unfold never. unfold header at 1. replace ((status_line r ++ _) ++ G) with
    (status_line r ++ r_before r ++ r_name r ++ r_space r ++ r_length r ++ r_end r :: X ++ G) by (by repeat (rewrite <- app_assoc || cbn [app])).
  rewrite E. clear E.
  match goal with |- match ?m s2 with _ => _ end => change (never m s2) end. apply never_first. unfold ipp_response.
  assert (length (header r X) = length A + 1 + length (r_before r) + length (r_name r) + length (r_space r) + length (r_length r) + 1 + length X)%nat as Hd.
  { unfold header. rewrite length_app, <- HA. repeat (rewrite length_app || cbn [length]). lia. }
  destruct (length_read r (S fuel) A (X ++ G) s2 Hln ltac:(lia)) as (P & HP & E).
  apply (never_then (fun o _ => o = Some (P ++ X ++ G, at_ P, at_ (header r X), number (r_length r)))).
  { unfold runs. by rewrite E by (unfold at_; lia). }
  intros ? s3 ->. cbv iota. unfold ipp_content. apply (never_then (fun o _ => o = Some (P ++ X ++ G, at_ (header r X)))).
  { unfold more_header. rewrite (proj2 (Z.leb_gt _ _)) by (unfold at_; lia). by run. }
  intros ? s4 ->. cbv iota. apply never_first. unfold never. rewrite find_header_end_loops; [done|].
  apply find_end_none; [unfold at_; lia|done|done|]. rewrite at_app. unfold at_. lia.
Qed.
End Reply.

(** ** A response *)

Definition ok_reply (code : string) (jid : Z) : reply :=
  MkReply (bytes "HTTP/1.1") [32] (bytes code) 32 (bytes "OK") CR (LF :: bytes "Server: one" ++ [CR; LF]) (bytes "Content-length:")
    [32] (bytes "9") CR [] ([1; 1; 0; 0] ++ be32 jid ++ [3]).

(** The response without its last two lines. *)
Lemma half_header_hangs_witness :
  @never pd bool (@printer_status calm 200 0 1)
    (set_inbox {[0%nat := [Data (header (ok_reply "200" 1) (LF :: bytes "Date: now")); Data (bytes "and more")]]} pd0).
Proof.
  apply (@half_header_hangs calm 0 (ok_reply "200" 1) (LF :: bytes "Date: now") [Data (bytes "and more")] 200 1 _);
    first [by apply (bool_decide_unpack _)|by vm_compute|vm_compute; lia].
Defined.
