(* ===== verification/PrintWire.v ===== *)
(** * printd.c, print.c: what goes over the wire

    The request that the client sends ([struct printreq]), the response of the daemon
    ([struct printresp]), and the headers that the daemon writes for the printer: IPP
    (RFC 2910) after HTTP.  The buffers of the headers have fixed sizes, and writing past them is
    an error. *)

From S2P Require Import Prelude Process CLib Prog DbFile PrintState.
From Stdlib Require Import Ascii.
Local Open Scope Z_scope.
Local Open Scope c_scope.

(** ** Structures as bytes *)

(** [struct printreq] as it stands in memory after [htonl]. *)
Definition encode_req (r : printreq) : list Z := be32 (r_size r) ++ be32 (r_flags r) ++ usernm r ++ jobnm r.

Definition SIZEOF_REQ : nat := 328.

Definition decode_req (l : list Z) : printreq :=
  MkReq (ntohl (take 4 l)) (ntohl (take 4 (drop 4 l))) (take 64 (drop 8 l)) (take 256 (drop 72 l)).

(** On the machine of the daemon integers are stored with the low byte first; the control files
    hold the structure in that form. *)
Definition store_req (r : printreq) : list Z :=
  le_bytes 4 (r_size r) ++ le_bytes 4 (r_flags r) ++ usernm r ++ jobnm r.

Fixpoint from_le (l : list Z) : Z := match l with [] => 0 | b :: l => b + 256 * from_le l end.

Definition load_req (l : list Z) : printreq :=
  MkReq (from_le (take 4 l)) (from_le (take 4 (drop 4 l))) (take 64 (drop 8 l)) (take 256 (drop 72 l)).

Definition SIZEOF_RESP : nat := 520.

(** [struct printresp]; its message is an array of [MSGLEN_MAX] bytes. *)
Definition encode_resp (retcode jobid : Z) (msg : list Z) : list Z := be32 retcode ++ be32 jobid ++ msg.

(** [strncpy] pads with NUL. *)
Definition strncpy (n : nat) (t : list Z) : list Z := take n (t ++ replicate n 0).

(** ** The IPP header *)

Definition OP_PRINT_JOB : Z := 2.
Definition TAG_OPERATION_ATTR : Z := 1.
Definition TAG_END_OF_ATTR : Z := 3.
Definition TAG_NAMEWOLANG : Z := 66.
Definition TAG_URI : Z := 69.
Definition TAG_CHARSET : Z := 71.
Definition TAG_NATULANG : Z := 72.
Definition TAG_MIMETYPE : Z := 73.

(** Bytes appended to what a buffer of [n] bytes holds; [strcpy] needs room for the NUL too. *)
Definition append (n : Z) (buf bs : list Z) : res (list Z) :=
  if Z.of_nat (length buf + length bs) <=? n then Ok (buf ++ bs) else Undef OutOfBounds.
Definition append_str (n : Z) (buf t : list Z) : res (list Z) :=
  if Z.of_nat (length buf + length t) + 1 <=? n then Ok (buf ++ t) else Undef OutOfBounds.

Definition add_option (ibuf : list Z) (tag : Z) (optname optval : list Z) : res (list Z) :=
  let* ibuf := append IBUFSZ ibuf (tag :: be16 (Z.of_nat (length optname))) in
  let* ibuf := append_str IBUFSZ ibuf optname in
  let* ibuf := append IBUFSZ ibuf (be16 (Z.of_nat (length optval))) in
  append_str IBUFSZ ibuf optval.

(** [sprintf] into [str]. *)
Definition printer_uri (name : string) : res (list Z) :=
  let t := bytes ("http://" +:+ name +:+ "/ipp")%string in
  append_str 64 [] t.

Definition is_text (r : printreq) : bool := negb (Z.land (r_flags r) PR_TEXT =? 0).

Definition ipp_header (id : Z) (name : string) (r : printreq) : res (list Z) :=
  let ibuf := [1; 1] ++ be16 OP_PRINT_JOB ++ be32 id ++ [TAG_OPERATION_ATTR] in
  let* ibuf := add_option ibuf TAG_CHARSET (bytes "attributes-charset") (bytes "utf-8") in
  let* ibuf := add_option ibuf TAG_NATULANG (bytes "attributes-natural-language") (bytes "en-us") in
  let* str := printer_uri name in
  let* ibuf := add_option ibuf TAG_URI (bytes "printer-uri") str in
  let* user := until_nul (usernm r) in
  let* ibuf := add_option ibuf TAG_NAMEWOLANG (bytes "requesting-user-name") user in
  let* title := until_nul (jobnm r) in
  let* ibuf := add_option ibuf TAG_NAMEWOLANG (bytes "job-name") title in
  let p := if is_text r then bytes "text/plain" else bytes "application/postscript" in
  let* ibuf := add_option ibuf TAG_MIMETYPE (bytes "document-format") p in
  append IBUFSZ ibuf [TAG_END_OF_ATTR].

(** ** The HTTP header *)

Definition crlf : string := String (chr 13) (String (chr 10) EmptyString).

Definition http_header (len : Z) (name : string) : res (list Z) :=
  let* hbuf := append_str HBUFSZ [] (bytes ("POST /ipp HTTP/1.1" +:+ crlf)%string) in
  let* hbuf := append_str HBUFSZ hbuf (bytes ("Content-Length: " +:+ fmt_lld len +:+ crlf)%string) in
  let* hbuf := append_str HBUFSZ hbuf (bytes ("Content-Type: application/ipp" +:+ crlf)%string) in
  let* hbuf := append_str HBUFSZ hbuf (bytes ("Host: " +:+ name +:+ ":" +:+ fmt_lld IPP_PORT +:+ crlf)%string) in
  append HBUFSZ hbuf [CR; LF].

(** ** Structures and their bytes *)

Lemma until_nul_app a b : Forall (fun x => x <> 0) a -> until_nul (a ++ 0 :: b) = Ok a.
Proof. induction 1 as [|x a Hx _ IH]; [done|]. cbn. by rewrite (proj2 (Z.eqb_neq _ _)), IH. Qed.

Definition is_byte (b : Z) : Prop := 0 <= b < 256.

Lemma ntohl_be32 z : 0 <= z < 2 ^ 32 -> ntohl (be32 z) = z.
Proof.
  intros H. unfold ntohl, be32. cbn [from_be].
  change (2 ^ 32) with 4294967296 in H. Z.div_mod_to_equations. lia.
Qed.

Lemma from_be_be16 z : 0 <= z < 65536 -> ntohl (be16 z) = z.
Proof. intros H. unfold ntohl, be16. cbn [from_be]. Z.div_mod_to_equations. lia. Qed.

Lemma from_le_bytes z : 0 <= z < 2 ^ 32 -> from_le (le_bytes 4 z) = z.
Proof.
  intros H. unfold le_bytes. cbn [seq fmap list_fmap from_le]. rewrite !Z.shiftr_div_pow2 by lia.
  change (2 ^ 32) with 4294967296 in H. change (Z.of_nat 0) with 0. change (Z.of_nat 1) with 1. change (Z.of_nat 2) with 2.
  change (Z.of_nat 3) with 3. change (2 ^ (8 * 0)) with 1. change (2 ^ (8 * 1)) with 256. change (2 ^ (8 * 2)) with 65536.
  change (2 ^ (8 * 3)) with 16777216. Z.div_mod_to_equations. lia.
Qed.

(** A request as the structure can hold it. *)
Record wf_req (r : printreq) : Prop := MkWfReq {
  wf_size : 0 <= r_size r < 2 ^ 32;
  wf_flags : 0 <= r_flags r < 2 ^ 32;
  wf_usernm : length (usernm r) = 64%nat;
  wf_jobnm : length (jobnm r) = 256%nat
}.

Lemma length_encode_req r : wf_req r -> length (encode_req r) = SIZEOF_REQ.
Proof. intros []. unfold encode_req. rewrite !length_app. cbn [length be32]. unfold SIZEOF_REQ. lia. Qed.

Lemma length_store_req r : wf_req r -> length (store_req r) = SIZEOF_REQ.
Proof. intros []. unfold store_req. rewrite !length_app, !length_le_bytes. unfold SIZEOF_REQ. lia. Qed.

Lemma decode_encode_req r : wf_req r -> decode_req (encode_req r) = r.
Proof.
  intros [Hs Hf Hu Hj]. unfold decode_req, encode_req. destruct r as [sz fl u j]. cbn [r_size r_flags usernm jobnm] in *.
  assert (forall z l, take 4 (be32 z ++ l) = be32 z) as Ht by done.
  rewrite Ht, ntohl_be32 by done. rewrite (drop_app_length' (be32 sz)) by done. rewrite Ht, ntohl_be32 by done.
  rewrite !(app_assoc (be32 sz)). rewrite (drop_app_length' (be32 sz ++ be32 fl)) by done.
  rewrite (take_app_length' u) by done.
  rewrite (app_assoc _ u), drop_app_length' by (rewrite !length_app; cbn; lia). by rewrite take_ge by lia.
Qed.

Lemma load_store_req r : wf_req r -> load_req (store_req r) = r.
Proof.
  intros [Hs Hf Hu Hj]. unfold load_req, store_req. destruct r as [sz fl u j]. cbn [r_size r_flags usernm jobnm] in *.
  assert (forall z l, take 4 (le_bytes 4 z ++ l) = le_bytes 4 z) as Ht by (intros; by apply take_app_length').
  rewrite Ht, from_le_bytes by done.
  rewrite (drop_app_length' (le_bytes 4 sz)) by done. rewrite Ht, from_le_bytes by done.
  rewrite !(app_assoc (le_bytes 4 sz)). rewrite (drop_app_length' (le_bytes 4 sz ++ le_bytes 4 fl)) by done.
  rewrite (take_app_length' u) by done.
  rewrite (app_assoc _ u), drop_app_length' by (rewrite !length_app, !length_le_bytes; lia). by rewrite take_ge by lia.
Qed.

(** ** The IPP header and how it is read *)

Record attr := MkAttr { a_tag : Z; a_name : list Z; a_value : list Z }.

Definition attr_bytes (a : attr) : list Z :=
  a_tag a :: be16 (Z.of_nat (length (a_name a))) ++ a_name a ++ be16 (Z.of_nat (length (a_value a))) ++ a_value a.

Definition attr_len (a : attr) : Z := 5 + Z.of_nat (length (a_name a)) + Z.of_nat (length (a_value a)).

Lemma length_attr_bytes a : Z.of_nat (length (attr_bytes a)) = attr_len a.
Proof. unfold attr_bytes, attr_len. cbn [length]. rewrite !length_app. cbn [length be16]. lia. Qed.

(** A reader of the format of RFC 2910: one group of attributes up to its end. *)
Fixpoint parse_attrs (fuel : nat) (l : list Z) : option (list attr * list Z) :=
  match fuel, l with
  | S fuel, tag :: l' =>
      if tag =? TAG_END_OF_ATTR then Some ([], l')
      else
        let n := Z.to_nat (ntohl (take 2 l')) in
        let l1 := drop 2 l' in
        let m := Z.to_nat (ntohl (take 2 (drop n l1))) in
        let l2 := drop 2 (drop n l1) in
        if (Z.of_nat (length l2) <? Z.of_nat m)%Z then None
        else match parse_attrs fuel (drop m l2) with
             | None => None
             | Some (attrs, rest) => Some (MkAttr tag (take n l1) (take m l2) :: attrs, rest)
             end
  | _, _ => None
  end.

Record ipp_request := MkIpp { ipp_version : Z * Z; ipp_op : Z; ipp_id : Z; ipp_attrs : list attr }.

Definition parse_ipp (l : list Z) : option (ipp_request * list Z) :=
  match l with
  | maj :: min :: l =>
      match drop 6 l with
      | group :: l' =>
          if group =? TAG_OPERATION_ATTR then
            match parse_attrs (length l') l' with
            | Some (attrs, rest) => Some (MkIpp (maj, min) (ntohl (take 2 l)) (ntohl (take 4 (drop 2 l))) attrs, rest)
            | None => None
            end
          else None
      | [] => None
      end
  | _ => None
  end.

Definition wf_attr (a : attr) : Prop :=
  a_tag a <> TAG_END_OF_ATTR /\ Z.of_nat (length (a_name a)) < 65536 /\ Z.of_nat (length (a_value a)) < 65536.

Lemma parse_attrs_bytes attrs fuel rest :
  Forall wf_attr attrs -> (length attrs < fuel)%nat ->
  parse_attrs fuel (concat (attr_bytes <$> attrs) ++ TAG_END_OF_ATTR :: rest) = Some (attrs, rest).
Proof.
  intros Hw. revert fuel. induction Hw as [|[tag n v] attrs (Ht & Hn & Hv) Hw IH]; intros fuel Hf; (destruct fuel as [|fuel]; [cbn in Hf; lia|]); [done|].
  cbn [a_tag a_name a_value] in *. cbn [fmap list_fmap concat]. unfold attr_bytes at 1. cbn [a_tag a_name a_value app].
  rewrite <- !app_assoc. cbn [parse_attrs]. rewrite (proj2 (Z.eqb_neq _ _)) by done.
  set (B := concat (attr_bytes <$> attrs) ++ TAG_END_OF_ATTR :: rest).
  assert (forall z l, take 2 (be16 z ++ l) = be16 z /\ drop 2 (be16 z ++ l) = l) as Hb by done.
  destruct (Hb (Z.of_nat (length n)) (n ++ be16 (Z.of_nat (length v)) ++ v ++ B)) as [-> ->].
  rewrite from_be_be16 by lia. rewrite Nat2Z.id, drop_app_length, take_app_length.
  destruct (Hb (Z.of_nat (length v)) (v ++ B)) as [-> ->].
  rewrite from_be_be16 by lia. rewrite Nat2Z.id, drop_app_length, take_app_length.
  rewrite (proj2 (Z.ltb_ge _ _)) by (rewrite length_app; lia). unfold B. rewrite IH by (cbn in Hf; lia). done.
Qed.

Lemma add_option_spec ibuf tag n v :
  add_option ibuf tag n v =
    if Z.of_nat (length ibuf) + attr_len (MkAttr tag n v) + 1 <=? IBUFSZ
    then Ok (ibuf ++ attr_bytes (MkAttr tag n v)) else Undef OutOfBounds.
Proof.
  unfold add_option, append, append_str, attr_len. cbn [a_name a_value]. destruct (Z.leb_spec (Z.of_nat (length ibuf) +
    (5 + Z.of_nat (length n) + Z.of_nat (length v)) + 1) IBUFSZ) as [H|H].
  - cbn [length be16]. rewrite (proj2 (Z.leb_le _ _)) by lia. cbn [rbind].
    rewrite (proj2 (Z.leb_le _ _)) by (rewrite !length_app; cbn [length be16]; lia). cbn [rbind].
    rewrite (proj2 (Z.leb_le _ _)) by (rewrite !length_app; cbn [length be16]; lia). cbn [rbind].
    rewrite (proj2 (Z.leb_le _ _)) by (rewrite !length_app; cbn [length be16]; lia).
    unfold attr_bytes. cbn [a_tag a_name a_value]. by rewrite <- !app_assoc.
  - destruct (_ <=? IBUFSZ); [|done]. cbn [rbind]. destruct (_ <=? IBUFSZ); [|done]. cbn [rbind].
    destruct (_ <=? IBUFSZ); [|done]. cbn [rbind].
    rewrite (proj2 (Z.leb_gt _ _)); [done|]. rewrite !length_app. cbn [length be16]. lia.
Qed.

Definition doc_format (r : printreq) : list Z :=
  if is_text r then bytes "text/plain" else bytes "application/postscript".

(** The attributes of a job. *)
Definition job_attrs (name : string) (user title doc : list Z) : list attr :=
  [MkAttr TAG_CHARSET (bytes "attributes-charset") (bytes "utf-8");
   MkAttr TAG_NATULANG (bytes "attributes-natural-language") (bytes "en-us");
   MkAttr TAG_URI (bytes "printer-uri") (bytes ("http://" +:+ name +:+ "/ipp"));
   MkAttr TAG_NAMEWOLANG (bytes "requesting-user-name") user;
   MkAttr TAG_NAMEWOLANG (bytes "job-name") title;
   MkAttr TAG_MIMETYPE (bytes "document-format") doc].

Definition ipp_bytes (id : Z) (attrs : list attr) : list Z :=
  [1; 1] ++ be16 OP_PRINT_JOB ++ be32 id ++ [TAG_OPERATION_ATTR] ++ concat (attr_bytes <$> attrs) ++ [TAG_END_OF_ATTR].

Lemma length_bytes t : Z.of_nat (length (bytes t)) = strlen t.
Proof. unfold bytes. by rewrite length_fmap, length_chars. Qed.

(** How long the names may be. *)
Definition names_fit (name : string) (user title doc : list Z) : bool :=
  (strlen name <=? 52) &&
  (strlen name + Z.of_nat (length user) + Z.of_nat (length title) + Z.of_nat (length doc) <=? 352).

(** The options one after the other. *)
Fixpoint add_options (ibuf : list Z) (attrs : list attr) : res (list Z) :=
  match attrs with
  | [] => Ok ibuf
  | a :: attrs => let* ibuf := add_option ibuf (a_tag a) (a_name a) (a_value a) in add_options ibuf attrs
  end.

Definition attrs_len (attrs : list attr) : Z := foldr (fun a n => attr_len a + n) 0 attrs.

Lemma attrs_len_nonneg attrs : 0 <= attrs_len attrs.
Proof. induction attrs as [|a attrs IH]; [done|]. change (0 <= attr_len a + attrs_len attrs). unfold attr_len. lia. Qed.

Lemma length_attrs attrs : Z.of_nat (length (concat (attr_bytes <$> attrs))) = attrs_len attrs.
Proof.
  induction attrs as [|a attrs IH]; [done|]. cbn [fmap list_fmap concat]. rewrite length_app, Nat2Z.inj_add, length_attr_bytes.
  by rewrite IH.
Qed.

Lemma add_options_spec attrs ibuf : Z.of_nat (length ibuf) + 1 <= IBUFSZ ->
  add_options ibuf attrs =
    if Z.of_nat (length ibuf) + attrs_len attrs + 1 <=? IBUFSZ
    then Ok (ibuf ++ concat (attr_bytes <$> attrs)) else Undef OutOfBounds.
Proof.
  revert ibuf. induction attrs as [|[tag n v] attrs IH]; intros ibuf Hb.
  - cbn. rewrite (proj2 (Z.leb_le _ _)) by lia. by rewrite app_nil_r.
  - cbn [add_options a_tag a_name a_value]. rewrite add_option_spec. set (a := MkAttr tag n v).
    change (attrs_len (a :: attrs)) with (attr_len a + attrs_len attrs). pose proof (attrs_len_nonneg attrs).
    destruct (Z.leb_spec (Z.of_nat (length ibuf) + attr_len a + 1) IBUFSZ) as [Ha|Ha]; cbn [rbind].
    + rewrite IH; rewrite length_app, Nat2Z.inj_add, length_attr_bytes; [|done].
      replace (Z.of_nat (length ibuf) + attr_len a + attrs_len attrs + 1) with
        (Z.of_nat (length ibuf) + (attr_len a + attrs_len attrs) + 1) by lia.
      destruct (_ <=? IBUFSZ); [|done]. cbn [fmap list_fmap concat]. by rewrite app_assoc.
    + by rewrite (proj2 (Z.leb_gt _ _)) by lia.
Qed.

Lemma length_uri name : Z.of_nat (length (bytes ("http://" +:+ name +:+ "/ipp"))) = strlen name + 11.
Proof. rewrite length_bytes, !strlen_app. change (strlen "http://") with 7. change (strlen "/ipp") with 4. lia. Qed.

Lemma length_job_attrs name user title doc :
  attrs_len (job_attrs name user title doc) =
    150 + strlen name + Z.of_nat (length user) + Z.of_nat (length title) + Z.of_nat (length doc).
Proof.
  unfold job_attrs. cbn [attrs_len foldr]. unfold attr_len. cbn [a_name a_value]. rewrite length_uri, !length_bytes.
  repeat match goal with |- context [strlen (String ?c ?t)] =>
    let v := eval vm_compute in (strlen (String c t)) in change (strlen (String c t)) with v end. lia.
Qed.

Lemma ipp_header_spec id name r user title :
  until_nul (usernm r) = Ok user -> until_nul (jobnm r) = Ok title ->
  ipp_header id name r =
    if names_fit name user title (doc_format r)
    then Ok (ipp_bytes id (job_attrs name user title (doc_format r))) else Undef OutOfBounds.
Proof.
  intros Hu Ht. set (ibuf0 := [1; 1] ++ be16 OP_PRINT_JOB ++ be32 id ++ [TAG_OPERATION_ATTR]).
  assert (ipp_header id name r =
    (if strlen name <=? 52
     then let* ibuf := add_options ibuf0 (job_attrs name user title (doc_format r)) in append IBUFSZ ibuf [TAG_END_OF_ATTR]
     else Undef OutOfBounds)) as ->.
  { unfold ipp_header, printer_uri, append_str at 1. fold ibuf0. rewrite Hu, Ht. fold (doc_format r).
    cbn [length Nat.add app]. rewrite length_uri. destruct (Z.leb_spec (strlen name) 52).
    - rewrite (proj2 (Z.leb_le _ _)) by lia. cbn [rbind]. unfold job_attrs. cbn [add_options a_tag a_name a_value].
      rewrite !rbind_assoc. repeat (destruct (add_option _ _ _ _); cbn [rbind]; [|done..]). done.
    - rewrite (proj2 (Z.leb_gt _ _)) by lia. rewrite !add_option_spec. repeat (destruct (_ <=? IBUFSZ); cbn [rbind]; [|done]). done. }
  unfold names_fit. destruct (strlen name <=? 52); [|done]. cbn [andb].
  rewrite add_options_spec by done.
  rewrite length_job_attrs.
  change (Z.of_nat (length ibuf0)) with 9. change IBUFSZ with 512.
  replace (9 + (150 + strlen name + Z.of_nat (length user) + Z.of_nat (length title) + Z.of_nat (length (doc_format r))) + 1)
    with (strlen name + Z.of_nat (length user) + Z.of_nat (length title) + Z.of_nat (length (doc_format r)) + 160) by lia.
  destruct (Z.leb_spec (strlen name + Z.of_nat (length user) + Z.of_nat (length title) + Z.of_nat (length (doc_format r))) 352) as [Hf|Hf].
  - rewrite (proj2 (Z.leb_le _ _)) by lia. cbn [rbind]. unfold append. rewrite (proj2 (Z.leb_le _ _)); [by unfold ipp_bytes, ibuf0; rewrite <- !app_assoc|].
    rewrite length_app. change (length ibuf0) with 9%nat. cbn [length].
    assert (Z.of_nat (length (concat (attr_bytes <$> job_attrs name user title (doc_format r)))) =
      150 + strlen name + Z.of_nat (length user) + Z.of_nat (length title) + Z.of_nat (length (doc_format r))) as E by (by rewrite length_attrs, length_job_attrs).
    change IBUFSZ with 512. lia.
  - by rewrite (proj2 (Z.leb_gt _ _)) by lia.
Qed.

(** C37. The IPP header stays in its buffer exactly when the names are short enough, and then a reader
    of the protocol finds in it the operation, the number of the job, the six attributes with
    their values, and after it the document. *)
Theorem ipp_header_read_back id name r user title data :
  until_nul (usernm r) = Ok user -> until_nul (jobnm r) = Ok title -> 0 <= id < 2 ^ 32 ->
  if names_fit name user title (doc_format r) then
    exists h, ipp_header id name r = Ok h /\ Z.of_nat (length h) <= IBUFSZ /\
      parse_ipp (h ++ data) = Some (MkIpp (1, 1) OP_PRINT_JOB id (job_attrs name user title (doc_format r)), data)
  else ipp_header id name r = Undef OutOfBounds.
Proof.
  intros Hu Ht Hid. rewrite (ipp_header_spec _ _ _ _ _ Hu Ht). destruct (names_fit _ _ _ _) eqn:Hf; [|done].
  eexists. split; [done|]. unfold names_fit in Hf. apply andb_true_iff in Hf as [H1%Z.leb_le H2%Z.leb_le]. pose proof (strlen_nonneg name).
  set (attrs := job_attrs name user title (doc_format r)). split.
  - unfold ipp_bytes. rewrite !length_app. cbn [length be16 be32]. rewrite !Nat2Z.inj_add, length_attrs.
    unfold attrs. rewrite length_job_attrs. change IBUFSZ with 512. lia.
  - unfold ipp_bytes. rewrite <- !app_assoc. change (([1; 1] ++ be16 OP_PRINT_JOB ++ be32 id ++ [TAG_OPERATION_ATTR] ++ ?X)) with
      (1 :: 1 :: be16 OP_PRINT_JOB ++ be32 id ++ TAG_OPERATION_ATTR :: X). cbn [parse_ipp].
    change (drop 6 (be16 OP_PRINT_JOB ++ be32 id ++ TAG_OPERATION_ATTR :: ?X)) with (TAG_OPERATION_ATTR :: X). cbv iota.
    rewrite Z.eqb_refl. cbn [app]. rewrite parse_attrs_bytes.
    + change (take 2 (be16 OP_PRINT_JOB ++ ?X)) with (be16 OP_PRINT_JOB). change (take 4 (drop 2 (be16 OP_PRINT_JOB ++ be32 id ++ ?X))) with (be32 id).
      by rewrite ntohl_be32.
    + unfold attrs, job_attrs. pose proof (length_uri name) as Huri. repeat (apply Forall_cons; split); [..|by apply Forall_nil];
        split; try done; cbn [a_name a_value]; rewrite ?length_bytes; split; try done; try lia.
      * rewrite length_bytes in Huri. lia.
    + rewrite length_app. pose proof (length_attrs attrs) as E. unfold attrs in E |- *. rewrite length_job_attrs in E. cbn [length job_attrs] in *. lia.
Qed.

Definition http_text (len : Z) (name : string) : string :=
  "POST /ipp HTTP/1.1" +:+ crlf +:+ "Content-Length: " +:+ fmt_lld len +:+ crlf +:+
  "Content-Type: application/ipp" +:+ crlf +:+ "Host: " +:+ name +:+ ":631" +:+ crlf +:+ crlf.

Lemma append_str_ok n buf t k :
  Z.of_nat (length buf) + strlen t = k -> k + 1 <= n ->
  append_str n buf (bytes t) = Ok (buf ++ bytes t) /\ Z.of_nat (length (buf ++ bytes t)) = k.
Proof.
  intros Hk Hn. unfold append_str. rewrite length_app, Nat2Z.inj_add, length_bytes.
  split; [by rewrite (proj2 (Z.leb_le _ _)) by lia|done].
Qed.

Lemma bytes_app a b : bytes (a +:+ b) = bytes a ++ bytes b.
Proof. unfold bytes. by rewrite chars_app, fmap_app. Qed.

Lemma http_header_spec len name :
  0 <= len < 2 ^ 63 -> strlen name <= 52 -> http_header len name = Ok (bytes (http_text len name)).
Proof.
  intros Hl Hn. pose proof (strlen_nonneg name). pose proof (strlen_nonneg (fmt_lld len)).
  assert (strlen (fmt_lld len) <= 20) as Hd.
  { apply strlen_fmt_lld; [|done]. split; [lia|]. etrans; [apply Hl|done]. }
  unfold http_header.
  destruct (append_str_ok HBUFSZ [] ("POST /ipp HTTP/1.1" +:+ crlf) 20) as [-> E1]; [done..|]. cbn [rbind].
  destruct (append_str_ok HBUFSZ ([] ++ bytes ("POST /ipp HTTP/1.1" +:+ crlf)) ("Content-Length: " +:+ fmt_lld len +:+ crlf) (38 + strlen (fmt_lld len)))
    as [-> E2]; [rewrite E1, !strlen_app; change (strlen "Content-Length: ") with 16; change (strlen crlf) with 2; lia|change HBUFSZ with 512; lia|]. cbn [rbind].
  edestruct append_str_ok as [-> E3]; [rewrite E2; reflexivity|change (strlen ("Content-Type: application/ipp" +:+ crlf)) with 31; change HBUFSZ with 512; lia|]. cbn [rbind].
  edestruct append_str_ok as [-> E4]; [rewrite E3; reflexivity| |].
  { rewrite !strlen_app. change (strlen "Host: ") with 6. change (strlen ":") with 1. change (strlen (fmt_lld IPP_PORT)) with 3.
    change (strlen "Content-Type: application/ipp") with 29. change (strlen crlf) with 2. change HBUFSZ with 512. lia. }
  cbn [rbind]. unfold append. rewrite (proj2 (Z.leb_le _ _)).
  - f_equal. unfold http_text. change [CR; LF] with (bytes crlf). change (fmt_lld IPP_PORT) with "631". rewrite !bytes_app, <- !app_assoc.
    change (bytes ":631") with (bytes ":" ++ bytes "631"). by rewrite <- !app_assoc.
  - rewrite Nat2Z.inj_add, E4. rewrite !strlen_app. change (strlen "Host: ") with 6. change (strlen ":") with 1. change (strlen (fmt_lld IPP_PORT)) with 3.
    change (strlen "Content-Type: application/ipp") with 29. change (strlen crlf) with 2. change (Z.of_nat (length [CR; LF])) with 2. change HBUFSZ with 512. lia.
Qed.

(** A request for which the user and the file have these names. *)
Definition name_field (n : nat) (t : string) : list Z := strncpy n (bytes t).
Definition request (user title : string) : printreq := MkReq 0 0 (name_field 64 user) (name_field 256 title).

Lemma wf_request user title : wf_req (request user title).
Proof.
  split; [done|done|..]; cbn [usernm jobnm request]; unfold name_field, strncpy; rewrite length_take, length_app, length_replicate; lia.
Qed.

Lemma ipp_header_read_back_witness :
  let r := MkReq 3 PR_TEXT (strncpy 64 (bytes "ann")) (strncpy 256 (bytes "letter.txt")) in
  exists h, ipp_header 7 "laser" r = Ok h /\ Z.of_nat (length h) <= IBUFSZ /\
    parse_ipp (h ++ bytes "abc") =
      Some (MkIpp (1, 1) OP_PRINT_JOB 7 (job_attrs "laser" (bytes "ann") (bytes "letter.txt") (bytes "text/plain")), bytes "abc").
Proof.
  intros r. apply (ipp_header_read_back 7 "laser" r (bytes "ann") (bytes "letter.txt") (bytes "abc")); [by vm_compute..|lia].
Defined.
