(* ===== verification/PrintDaemon.v ===== *)
(** * printd.c and util.c: the print spooler daemon

    The functions of the daemon, one by one; the lists are in [PrintQueue], the response of the
    printer in [PrintStatus], the formats in [PrintWire].  A thread that ends early runs
    [client_cleanup], as the code has it.  Delays are left out, and so are the identities of the
    user the daemon runs as. *)

From S2P Require Import Prelude Process CLib Prog DbFile PrintState PrintQueue PrintStatus PrintWire.
From Stdlib Require Import Ascii.
Local Open Scope Z_scope.
Local Open Scope prog_scope.

(** ** util.c: the configuration file *)

Definition MAXCFGLINE : nat := 512.
Definition MAXKWLEN : nat := 16.

(** [fgets] of at most [n] characters, and what is left. *)
Fixpoint next_line (n : nat) (l : list Z) : list Z * list Z :=
  match n, l with
  | S n, b :: l' => if b =? LF then ([b], l') else let '(a, rest) := next_line n l' in (b :: a, rest)
  | _, _ => ([], l)
  end.

Fixpoint skip_blanks (l : list Z) : list Z :=
  match l with b :: l' => if is_space b then skip_blanks l' else l | [] => [] end.

(** The characters that are no space, [n] at most. *)
Fixpoint word (n : nat) (l : list Z) : list Z * list Z :=
  match n, l with
  | S n, b :: l' => if is_space b then ([], l) else let '(a, rest) := word n l' in (b :: a, rest)
  | _, _ => ([], l)
  end.

(** [sscanf] with [%15s %511s]: both words, when there are two. *)
Definition scan_pair (line : list Z) : option (list Z * list Z) :=
  let '(key, rest) := word (MAXKWLEN - 1) (skip_blanks line) in
  let '(val, _) := word (MAXCFGLINE - 1) (skip_blanks rest) in
  match key, val with _ :: _, _ :: _ => Some (key, val) | _, _ => None end.

Fixpoint scan_lines (fuel : nat) (keyword : list Z) (l : list Z) : option (list Z) :=
  match fuel, l with
  | S fuel, _ :: _ =>
      let '(line, rest) := next_line (MAXCFGLINE - 1) l in
      match scan_pair line with
      | Some (key, val) => if bool_decide (keyword = key) then Some val else scan_lines fuel keyword rest
      | None => scan_lines fuel keyword rest
      end
  | _, _ => None
  end.

Section Daemon.
Context `{World}.

(** Every line has a character at least. *)
Definition scan_configfile (keyword : string) : prog pd (option string) :=
  let! t := gets ticks in
  match config t with
  | None => stop "can't open /etc/printer.conf"
  | Some text => ret (text_of <$> scan_lines (length text) (bytes keyword) text)
  end.

Definition get_printserver : prog pd (option string) := scan_configfile "printserver".

Definition get_printaddr : prog pd (option (option string)) :=
  let! p := scan_configfile "printer" in
  match p with
  | Some p =>
      match getaddrinfo p "ipp" with
      | Some ailist => ret (Some ailist)
      | None => do! log_msg ("no address information for " +:+ p)%string in ret None
      end
  | None => do! log_msg "no printer address specified" in ret None
  end.

(** ** Starting *)

(** The buffer [name], before the file is read into it. *)
Definition name_buffer : list Z :=
  bytes (SPOOLDIR +:+ "/" +:+ JOBFILE)%string ++ 0 :: (garbage <$> seq 25 39).

Definition init_request : prog pd unit :=
  let! r := ask in
  do! require (match r with Fails _ => false | _ => true end) "daemon already running" in
  let! fd := take_handle RFd in
  let! r := ask in
  do! require (match r with Fails _ => false | _ => true end) "daemon already running" in
  let! s := gets (fun s => s) in
  let! r := read_file (jobfile s) 0 (Z.to_nat FILENMSZ) in
  match r with
  | inr _ => stop "can't read job file"
  | inl [] => modify (set_nextjob 1)
  | inl bs =>
      let! name := lift (until_nul (blit name_buffer 0 bs)) in
      modify (set_nextjob (s32 (atol (text_of name))))
  end.

Definition init_printer : prog pd unit :=
  let! p := get_printaddr in
  match p with
  | None => stop "exit"
  | Some canonname =>
      let name := default "printer" canonname in
      do! modify (set_printer (Some canonname) name) in
      log_msg ("printer is " +:+ name)%string
  end.

(** The number is written over what the file held, which is not cut off. *)
Definition update_jobno : prog pd unit :=
  let! r := ask in
  do! require (match r with Fails _ => false | _ => true end) "can't seek in job file" in
  let! s := gets (fun s => s) in
  let buf := bytes (fmt_lld (nextjob s)) in
  let! r := ask in
  let put n := modify (set_jobfile (blit (jobfile s) 0 (take n buf))) in
  match r with
  | Fine => put (length buf)
  | Short n => put (Z.to_nat n)
  | Fails _ => stop "can't update job file"
  end.

Definition get_newjobno : prog pd Z :=
  let! s := gets (fun s => s) in
  let jobid := nextjob s in
  do! (if jobid =? INT_MAX then fault IntOverflow else ret tt) in
  do! modify (set_nextjob (if jobid + 1 <=? 0 then 1 else jobid + 1)) in
  ret jobid.

Definition spool_path (dir : string) (name : string) : string :=
  (SPOOLDIR +:+ "/" +:+ dir +:+ "/" +:+ name)%string.
Definition data_path (id : Z) : string := spool_path DATADIR (fmt_lld id).
Definition req_path (id : Z) : string := spool_path REQDIR (fmt_lld id).

(** One entry of the folder of requests.  A file that was read is not closed. *)
Definition requeue_entry (d_name : string) : prog pd unit :=
  if streq d_name "." || streq d_name ".." then ret tt
  else
    let fname := spool_path REQDIR d_name in
    do! (if strlen fname + 1 <=? FILENMSZ then ret tt else fault OutOfBounds) in
    let! f := open_rd fname in
    match f with
    | inr _ => ret tt
    | inl (fd, content) =>
        let! r := read_file content 0 SIZEOF_REQ in
        let failed e :=
          do! close fd in
          do! log_line (ErrErrno ("build_qonstart: can't read " +:+ fname)%string e) in
          do! unlink fname in
          unlink (spool_path DATADIR d_name) in
        match r with
        | inr e => failed e
        | inl bs =>
            if (length bs =? SIZEOF_REQ)%nat then
              let jobid := s32 (atol d_name) in
              do! log_msg ("adding job " +:+ fmt_lld jobid +:+ " to queue")%string in
              add_job (load_req bs) jobid
            else failed EIO
        end
    end.

Fixpoint requeue_all (ents : list string) : prog pd unit :=
  match ents with
  | [] => ret tt
  | d_name :: ents => do! requeue_entry d_name in requeue_all ents
  end.

(** [ents] is what [readdir] gives, [None] when the folder cannot be opened. *)
Definition build_qonstart (ents : option (list string)) : prog pd unit :=
  match ents with
  | None => ret tt
  | Some ents =>
      let! dirp := take_handle RDir in
      do! requeue_all ents in
      give_back RDir dirp
  end.

(** ** A client *)

(** A response that says no: [strerror] is called with the bytes in the order of the network. *)
Definition reject_msg (e : Z) : list Z :=
  strncpy (Z.to_nat MSGLEN_MAX) (bytes (strerror (s32 (from_le (be32 e))))).
Definition reject (fd : nat) (e : Z) : prog pd unit :=
  let! r := writen fd (encode_resp e 0 (reject_msg e)) in ret tt.

(** After the text of the message the array holds what it held. *)
Definition accept_msg (id : Z) : list Z :=
  let t := bytes ("request ID " +:+ fmt_lld id)%string ++ [0] in
  t ++ (garbage <$> seq (length t) (Z.to_nat MSGLEN_MAX - length t)).

(** [strncmp(buf, "%!PS", 4) == 0]; what was not read is what the array held. *)
Definition is_postscript (buf : list Z) : bool :=
  bool_decide (take 4 (buf ++ (garbage <$> seq (length buf) 4)) = bytes "%!PS").

(** The loop that stores the data: the flags, or the error of a write. *)
Fixpoint store_data (fuel : nat) (fd : nat) (name : string) (first : bool) (flags : Z) : prog pd (Z + Z) :=
  match fuel with
  | O => loops
  | S fuel =>
      let! r := tread fd (Z.to_nat IOBUFSZ) in
      match r with
      | inr _ | inl [] => ret (inl flags)
      | inl buf =>
          let flags := if first && negb (is_postscript buf) then Z.lor flags PR_TEXT else flags in
          let! r := write_file name buf in
          match r with
          | inr e => ret (inr e)
          | inl nw => if nw =? Z.of_nat (length buf) then store_data fuel fd name false flags else ret (inr EIO)
          end
      end
  end.

(** Enough turns for what has arrived and will arrive: a turn takes a byte or an [arrival]. *)
Definition conn_size (c : conn) : nat :=
  foldr (fun a n => (match a with Data bs => S (length bs) | _ => 1 end + n)%nat) 0%nat c.

Definition store_all (fd : nat) (name : string) (flags : Z) : prog pd (Z + Z) :=
  let! s := gets (fun s => s) in
  store_data (S (conn_size (default [] (inbox s !! fd)))) fd name true flags.

(** The header: the request in the order of the machine, or the error. *)
Definition read_request (fd : nat) : prog pd (printreq + Z) :=
  let! r := treadn fd SIZEOF_REQ in
  match r with
  | inr e => ret (inr e)
  | inl bs => if (length bs =? SIZEOF_REQ)%nat then ret (inl (decode_req bs)) else ret (inr EIO)
  end.

(** The data file: the request with the flags as they are then; on an error the client is told and
    no file is left. *)
Definition spool_data (fd : nat) (req : printreq) (id : Z) : prog pd (option printreq) :=
  let name := data_path id in
  let! f := creat name in
  match f with
  | inr e =>
      do! log_line (ErrErrno ("client_thread: can't create " +:+ name)%string (s32 (from_le (be32 e)))) in
      do! reject fd e in ret None
  | inl file =>
      let! r := store_all fd name (r_flags req) in
      match r with
      | inr e =>
          do! log_line (ErrErrno ("client_thread: can't write " +:+ name)%string (s32 (from_le (be32 e)))) in
          do! close file in do! reject fd e in do! unlink name in ret None
      | inl flags => do! close file in ret (Some (set_flags flags req))
      end
  end.

(** The control file could not be written. *)
Definition control_failed (fd : nat) (file : nat) (id : Z) (e : Z) : prog pd bool :=
  do! log_line (ErrErrno ("client_thread: can't write " +:+ req_path id)%string (s32 (from_le (be32 e)))) in
  do! close file in
  do! reject fd e in
  do! unlink (req_path id) in
  do! unlink (data_path id) in
  ret false.

(** The control file; on an error both files are removed. *)
Definition spool_request (fd : nat) (req : printreq) (id : Z) : prog pd bool :=
  let name := req_path id in
  let! f := creat name in
  match f with
  | inr e =>
      do! log_line (ErrErrno ("client_thread: can't create " +:+ name)%string (s32 (from_le (be32 e)))) in
      do! reject fd e in do! unlink (data_path id) in ret false
  | inl file =>
      let! r := write_file name (store_req req) in
      match r with
      | inr e => control_failed fd file id e
      | inl nw => if nw =? Z.of_nat SIZEOF_REQ then do! close file in ret true else control_failed fd file id EIO
      end
  end.

(** From the request to the entry in the queue; [true] when the job was accepted. *)
Definition serve_client (fd : nat) : prog pd bool :=
  let! r := read_request fd in
  match r with
  | inr e => do! reject fd e in ret false
  | inl req =>
      let! jobid := get_newjobno in
      let! r := spool_data fd req jobid in
      match r with
      | None => ret false
      | Some req =>
          let! ok := spool_request fd req jobid in
          if ok : bool then
            let! r := writen fd (encode_resp 0 jobid (accept_msg jobid)) in
            do! log_msg ("adding job " +:+ fmt_lld jobid +:+ " to queue")%string in
            do! add_job req jobid in
            ret true
          else ret false
      end
  end.

(** Without memory for its record the thread ends, and its socket stays open. *)
Definition client_thread (id : Z) (fd : nat) : prog pd bool :=
  let! listed := add_worker id fd in
  let! ok := if listed : bool then serve_client fd else ret false in
  do! client_cleanup id in
  ret ok.

(** ** The printer *)

Definition MAX_TRIES : nat := 8.

(** sockets/clconn2.c: a new socket for every try; the sleeps between them double. *)
Fixpoint connect_loop (tries : nat) (last : Z) : prog pd (nat + Z) :=
  match tries with
  | O => ret (inr last)
  | S tries =>
      let! r := ask in
      match r with
      | Fails e => ret (inr e)
      | _ =>
          let! fd := take_handle RFd in
          let! r := ask in
          match r with
          | Fails e => do! close fd in connect_loop tries e
          | _ => do! modify (fun s => set_sent (<[fd := []]> (sent s)) (set_inbox (<[fd := dial (ticks s)]> (inbox s)) s)) in
                 ret (inl fd)
          end
      end
  end.
Definition connect_retry : prog pd (nat + Z) := connect_loop MAX_TRIES 0.

(** [writev] of both headers. *)
Definition write_all (fd : nat) (bs : list Z) : prog pd bool :=
  let! r := write_sock fd bs in
  ret (match r with inl n => n =? Z.of_nat (length bs) | inr _ => false end).

(** The copy of the file to the printer. *)
Fixpoint send_file (fuel : nat) (fd : nat) (content : list Z) (pos : nat) : prog pd bool :=
  match fuel with
  | O => loops
  | S fuel =>
      let! r := read_file content pos (Z.to_nat IOBUFSZ) in
      match r with
      | inr e => do! log_ret "can't read" e in ret false
      | inl [] => ret true
      | inl buf =>
          let! r := writen fd buf in
          match r with
          | inr e => do! log_ret "can't write to printer" e in ret false
          | inl nw =>
              if nw =? Z.of_nat (length buf) then send_file fuel fd content (pos + length buf)
              else do! log_msg ("short write (" +:+ fmt_lld nw +:+ "/" +:+ fmt_lld (Z.of_nat (length buf)) +:+ ") to printer")%string in
                   ret false
          end
      end
  end.

(** From the headers to the answer of the printer: whether the job is done. *)
Definition send_job (fuel : nat) (sockfd : nat) (content : list Z) (id : Z) (r : printreq) : prog pd bool :=
  let! name := gets printer_name in
  let! ibuf := lift (ipp_header id name r) in
  let extra := if is_text r then 1 else 0 in
  let! hbuf := lift (http_header (Z.of_nat (length content) + Z.of_nat (length ibuf) + extra) name) in
  let! ok := write_all sockfd (hbuf ++ ibuf) in
  if negb ok then do! log_msg "can't write to printer" in ret false
  else
    let! ok := if is_text r then write_all sockfd [8] else ret true in
    if negb ok then do! log_msg "can't write to printer" in ret false
    else
      let! ok := send_file (S (length content)) sockfd content 0 in
      if negb ok then ret false else printer_status fuel sockfd id.

(** The label [defer] for a job that is not done. *)
Definition defer (fd : nat) (sockfd : option nat) (jp : nat) : prog pd unit :=
  do! close fd in
  do! (match sockfd with Some sockfd => close sockfd | None => ret tt end) in
  replace_job jp.

(** One job, from its file on. *)
Definition print_job (fuel : nat) (jp : nat) (id : Z) (r : printreq) : prog pd unit :=
  let name := data_path id in
  let canceled what e :=
    log_line (ErrErrno ("job " +:+ fmt_lld id +:+ " canceled - can't " +:+ what +:+ " " +:+ name)%string e) in
  let! f := open_rd name in
  match f with
  | inr e => do! canceled "open"%string e in free_job jp
  | inl (fd, content) =>
      let! st := ask in
      match st with
      | Fails e => do! canceled "fstat"%string e in do! free_job jp in close fd
      | _ =>
          let! c := connect_retry in
          match c with
          | inr e =>
              do! log_line (ErrErrno ("job " +:+ fmt_lld id +:+ " deferred - can't contact printer")%string e) in
              defer fd None jp
          | inl sockfd =>
              let! done := send_job fuel sockfd content id r in
              if done : bool then
                do! unlink name in
                do! unlink (req_path id) in
                do! free_job jp in
                do! close fd in
                close sockfd
              else defer fd (Some sockfd) jp
          end
      end
  end.

(** The configuration file is read again after a signal. *)
Definition check_config : prog pd unit :=
  let! again := gets reread in
  if again : bool then
    do! modify (fun s => set_reread false (set_printer None EmptyString s)) in init_printer
  else ret tt.

(** Under the lock: the first job is taken from the list; [None] when the thread has to wait. *)
Definition pick_job : prog pd (option nat) :=
  let! h := gets (fun s => jobhead (q s)) in
  match h with
  | None => ret None
  | Some jp =>
      do! remove_job jp in
      ret (Some jp)
  end.

(** A round of [printer_thread]; [false] when it waits. *)
Definition printer_round (fuel : nat) : prog pd bool :=
  let! picked := pick_job in
  match picked with
  | None => do! log_msg "printer_thread: waiting..." in ret false
  | Some jp =>
      let! s := gets (fun s => s) in
      let! j := lift (get_job jp (q s)) in
      do! log_msg ("printer_thread: picked up job " +:+ fmt_lld (jobid j))%string in
      do! update_jobno in
      do! check_config in
      do! print_job fuel jp (jobid j) (req j) in
      ret true
  end.

(** ** Signals and start *)

Definition SIGHUP : Z := 1.
Definition SIGTERM : Z := 15.

(** One turn of [signal_thread]. *)
Definition on_signal (signo : Z) : prog pd unit :=
  if signo =? SIGHUP then modify (set_reread true)
  else
    let! killed := kill_workers in
    if signo =? SIGTERM then do! log_msg "terminate with signal" in stop "exit"
    else stop "unexpected signal".

(** sockets/initsrv2.c *)
Definition initserver : prog pd (option nat) :=
  let! r := ask in
  match r with
  | Fails _ => ret None
  | _ =>
      let! fd := take_handle RFd in
      let! r1 := ask in
      match r1 with
      | Fails _ => do! close fd in ret None
      | _ =>
          let! r2 := ask in
          match r2 with
          | Fails _ => do! close fd in ret None
          | _ =>
              let! r3 := ask in
              match r3 with
              | Fails _ => do! close fd in ret None
              | _ => ret (Some fd)
              end
          end
      end
  end.

(** A server for every address of the host. *)
Fixpoint init_servers (naddrs : nat) : prog pd (list nat) :=
  match naddrs with
  | O => ret []
  | S n =>
      let! fd := initserver in
      let! fds := init_servers n in
      ret (match fd with Some fd => fd :: fds | None => fds end)
  end.

(** [main] up to its loop. *)
Definition start_daemon (naddrs : nat) (ents : option (list string)) : prog pd (list nat) :=
  let! rendezvous := init_servers naddrs in
  do! require (negb (length rendezvous =? 0)%nat) "service not enabled" in
  do! init_request in
  do! init_printer in
  do! build_qonstart ents in
  do! log_msg "daemon initialized" in
  ret rendezvous.

(** The thread of a client whose connection was accepted. *)
Definition new_client (id : Z) (c : conn) : prog pd bool :=
  let! fd := take_handle RFd in
  do! modify (fun s => set_sent (<[fd := []]> (sent s)) (set_inbox (<[fd := c]> (inbox s)) s)) in
  client_thread id fd.

(** [accept] for a descriptor that is ready, and the thread of the client; after a failure the
    thread is started on the descriptor -1, which [FD_SET] uses as an index. *)
Definition accept_client (id : Z) (c : conn) : prog pd bool :=
  let! r := ask in
  match r with
  | Fails e => do! log_ret "accept failed" e in fault OutOfBounds
  | _ => new_client id c
  end.
End Daemon.
