(* ===== verification/PrintSpool.v ===== *)
(** * What a client gets

    The request and the data of a client may arrive in any pieces, and any call of the system may
    fail: either the job is accepted, and then the two files and the entry of the queue hold it,
    or the client is told no and nothing is left. *)

From S2P Require Import Prelude Process CLib Prog DbFile PrintState PrintQueue PrintStatus PrintWire PrintDaemon.
From Stdlib Require Import Ascii.
Local Open Scope Z_scope.
Local Open Scope prog_scope.

(** ** Pieces *)

(** What arrives in pieces, and [rest] after it: nothing, a wait without data or an error. *)
Definition nonempty (p : list Z) : Prop := p <> [].
Definition pieces_of (ps : list (list Z)) (rest : conn) : conn := (Data <$> ps) ++ rest.
Definition over (rest : conn) : Prop := match rest with Data _ :: _ => False | _ => True end.

Section Spool.
Context `{World}.

Lemma runs_tread_end {P : Prop} fd n rest (Q : list Z + Z -> pd -> Prop) s :
  inbox s !! fd = Some rest -> over rest -> (forall r s', kept s s' -> sent s' = sent s -> r = inl [] \/ (exists e, r = inr e) -> Q r s') ->
  runs P (tread fd n) Q s.
Proof.
  intros E Hr HQ. unfold tread. run. run. rewrite E. destruct rest as [|[bs| |e] c]; [|done| |]; cbn [from_option id]; repeat run;
    (apply HQ; [by split|reflexivity|eauto]).
Qed.

(** A read takes from the first piece. *)
Lemma runs_tread {P : Prop} fd n p ps rest (Q : list Z + Z -> pd -> Prop) s :
  inbox s !! fd = Some (pieces_of (p :: ps) rest) -> Forall nonempty (p :: ps) -> (0 < n)%nat ->
  (forall ps', Forall nonempty ps' -> concat (p :: ps) = take n p ++ concat ps' -> take n p <> [] ->
     Q (inl (take n p)) (set_inbox (<[fd := pieces_of ps' rest]> (inbox s)) s)) ->
  runs P (tread fd n) Q s.
Proof.
  intros E [Hp Hps]%Forall_cons Hn HQ. unfold tread. run. run. rewrite E. unfold pieces_of at 1. cbn [fmap list_fmap app from_option id].
  run. run. run.
  assert (take n p <> []) as Ht by (destruct n; [lia|]; by destruct p).
  destruct (decide (drop n p = [])) as [Hd|Hd].
  - rewrite bool_decide_true by done. apply HQ; [done| |done]. cbn [concat]. f_equal. rewrite <- (take_drop n p) at 1.
    by rewrite Hd, app_nil_r.
  - rewrite bool_decide_false by done. apply (HQ (drop n p :: ps)); [by apply Forall_cons| |done].
    cbn [concat]. by rewrite app_assoc, take_drop.
Qed.

Lemma set_inbox_same fd c s : inbox s !! fd = Some c -> set_inbox (<[fd := c]> (inbox s)) s = s.
Proof. intros E. rewrite insert_id by done. by destruct s. Qed.

Lemma set_inbox_twice fd c c' s :
  set_inbox (<[fd := c']> (inbox (set_inbox (<[fd := c]> (inbox s)) s))) (set_inbox (<[fd := c]> (inbox s)) s) =
    set_inbox (<[fd := c']> (inbox s)) s.
Proof. unfold set_inbox. cbn. by rewrite insert_insert_eq. Qed.

(** What a read does when a piece has arrived. *)
Definition reads (P : Prop) (fd : nat) (rest : conn) (rd : nat -> prog pd (list Z + Z)) : Prop :=
  forall n p ps (Q : list Z + Z -> pd -> Prop) s,
  inbox s !! fd = Some (pieces_of (p :: ps) rest) -> Forall nonempty (p :: ps) -> (0 < n)%nat ->
  (forall ps', Forall nonempty ps' -> concat (p :: ps) = take n p ++ concat ps' -> take n p <> [] ->
     Q (inl (take n p)) (set_inbox (<[fd := pieces_of ps' rest]> (inbox s)) s)) ->
  runs P (rd n) Q s.

Lemma read_loop_spec {P : Prop} rd fuel n fd buf ps rest A B (Q : list Z + Z -> pd -> Prop) s :
  reads P fd rest rd ->
  inbox s !! fd = Some (pieces_of ps rest) -> Forall nonempty ps -> concat ps = A ++ B -> length A = n -> (n <= fuel)%nat ->
  (forall ps', Forall nonempty ps' -> concat ps' = B -> Q (inl (buf ++ A)) (set_inbox (<[fd := pieces_of ps' rest]> (inbox s)) s)) ->
  runs P (read_loop rd fuel n buf) Q s.
Proof.
  intros Hrd. revert n buf ps A s Q. induction fuel as [|fuel IH]; intros n buf ps A s Q Ei Hps Hc HA Hf HQ;
    (destruct n as [|n]; [apply nil_length_inv in HA as ->; cbn [read_loop]; run;
      rewrite <- (set_inbox_same fd _ s Ei), <- (app_nil_r buf); by apply HQ|]); [lia|].
  destruct ps as [|p ps]; [by destruct A|]. cbn [read_loop]. run. apply (Hrd (S n) p ps); [done|done|lia|].
  intros ps' Hps' Hc' Ht. assert (length (take (S n) p) <= S n)%nat as Hlen by (rewrite length_take; lia).
  set (t := take (S n) p) in *. clearbody t. rewrite Hc in Hc'.
  assert (exists A', A = t ++ A' /\ concat ps' = A' ++ B) as (A' & -> & HA').
  { apply app_eq_inv in Hc' as [(k & -> & Hk)|(k & Hk & ->)]; [by exists k|].
    assert (k = []) as -> by (apply nil_length_inv; rewrite Hk, length_app in Hlen; lia).
    exists []. by rewrite Hk, !app_nil_r. }
  rewrite length_app in HA. destruct t as [|b t'] eqn:Et; [done|]. rewrite <- Et in *. cbv iota.
  apply (IH _ _ ps' A'); [cbn; by rewrite lookup_insert_eq|done|done|lia|rewrite Et in HA |- *; cbn in *; lia|].
  intros ps2 Hps2 Hc2. rewrite set_inbox_twice, <- app_assoc. by apply HQ.
Qed.

Lemma read_request_spec {P : Prop} fd ps r data rest (Q : printreq + Z -> pd -> Prop) s :
  inbox s !! fd = Some (pieces_of ps rest) -> Forall nonempty ps -> concat ps = encode_req r ++ data -> wf_req r ->
  (forall ps', Forall nonempty ps' -> concat ps' = data -> Q (inl r) (set_inbox (<[fd := pieces_of ps' rest]> (inbox s)) s)) ->
  runs P (read_request fd) Q s.
Proof.
  intros Ei Hps Hc Hr HQ. unfold read_request. run.
  eapply (read_loop_spec (tread fd) SIZEOF_REQ SIZEOF_REQ fd [] ps rest); [intros ????; apply runs_tread|done|done|done|by apply length_encode_req|done|].
  intros ps' Hps' Hc'. cbn [app]. rewrite length_encode_req, Nat.eqb_refl, decode_encode_req by done. run. by apply HQ.
Qed.

(** ** Writing *)

(** What else was written to the descriptor [fd]. *)
Definition sent_more (fd : nat) (x : list Z) (s s' : pd) : Prop :=
  (forall fd', fd' <> fd -> sent s' !! fd' = sent s !! fd') /\
  default [] (sent s' !! fd) = default [] (sent s !! fd) ++ x.

Lemma sent_more_nil fd s s' : sent s' = sent s -> sent_more fd [] s s'.
Proof. intros E. split; [by rewrite E|]. by rewrite E, app_nil_r. Qed.

Lemma sent_more_trans fd x y s s1 s2 : sent_more fd x s s1 -> sent_more fd y s1 s2 -> sent_more fd (x ++ y) s s2.
Proof.
  intros [H1 E1] [H2 E2]. split; [intros fd' Hf; by rewrite H2, H1|]. by rewrite E2, E1, app_assoc.
Qed.

(** All of [bs] was written, or a part and a call is to blame. *)
Definition told (fd : nat) (bs : list Z) (s s' : pd) : Prop :=
  sent_more fd bs s s' \/ trouble s s' /\ exists k, sent_more fd (take k bs) s s'.

Lemma told_kept fd bs s1 s s' s2 : told fd bs s s' -> sent s1 = sent s -> (ticks s1 <= ticks s)%nat ->
  sent s2 = sent s' -> (ticks s' <= ticks s2)%nat -> told fd bs s1 s2.
Proof.
  intros Ht E1 L1 E2 L2. unfold told, sent_more in *. rewrite E1, E2. destruct Ht as [|[Hb Hk]]; [by left|].
  right. split; [by eapply trouble_mono|done].
Qed.

Lemma runs_write_sock {P : Prop} fd bs (Q : Z + Z -> pd -> Prop) s :
  (forall n s', kept s s' -> inbox s' = inbox s -> sent_more fd (take n bs) s s' -> ((length bs <= n)%nat \/ trouble s s') ->
     Q (inl (Z.of_nat (length (take n bs)))) s') ->
  (forall e, trouble s (tick s) -> Q (inr e) (tick s)) ->
  runs P (write_sock fd bs) Q s.
Proof.
  intros HQ He. unfold write_sock. run. apply runs_ask. intros o Ho.
  assert (forall n, (length bs <= n)%nat \/ answer (ticks s) <> Fine -> Q (inl (Z.of_nat (length (take n bs))))
    (set_sent (<[fd := default [] (sent (tick s) !! fd) ++ take n bs]> (sent (tick s))) (tick s))) as Hn.
  { intros n Hb. apply HQ; [by split|done| |].
    - split; cbn; [intros; by rewrite lookup_insert_ne|by rewrite lookup_insert_eq].
    - destruct Hb; [by left|right]. by apply trouble_now. }
  destruct o as [|n|e].
  - repeat run. apply Hn. by left.
  - repeat run. apply Hn. right. by rewrite Ho.
  - run. apply He, trouble_now; [by rewrite Ho|done].
Qed.

(** [writen] says that it wrote everything when it did, and otherwise a call is to blame. *)
Definition written (fd : nat) (bs : list Z) (n : Z) (r : Z + Z) (s s' : pd) : Prop :=
  r = inl n /\ sent_more fd bs s s' \/ r <> inl n /\ trouble s s' /\ exists k, sent_more fd (take k bs) s s'.

Lemma writen_loop_spec {P : Prop} fuel fd bs n (Q : Z + Z -> pd -> Prop) s :
  (length bs <= fuel)%nat ->
  (forall r s', kept s s' -> inbox s' = inbox s -> written fd bs n r s s' -> Q r s') ->
  runs P (writen_loop fuel fd bs n) Q s.
Proof.
  revert bs s Q. induction fuel as [|fuel IH]; intros bs s Q Hf HQ;
    (destruct bs as [|b bs]; [cbn; apply HQ; [done..|]; left; by split; [|apply sent_more_nil]|]); [cbn in Hf; lia|].
  cbn [writen_loop]. run. apply runs_write_sock.
  - intros m s1 Hk Hi Hs Hb. destruct (Z.eqb_spec (Z.of_nat (length (take m (b :: bs)))) 0) as [E|E].
    + run. apply HQ; [done..|]. right. split; [intros [= Hr]; lia|]. split; [|by exists m].
      destruct Hb as [Hb|]; [|done]. rewrite length_take in E. cbn [length] in *. lia.
    + rewrite Nat2Z.id. rewrite length_take. apply IH; [rewrite length_drop; rewrite length_take in E; lia|].
      intros r s2 Hk2 Hi2 Hw. assert (forall k, sent_more fd (take k (drop (m `min` length (b :: bs)) (b :: bs))) s1 s2 ->
        sent_more fd (take (m + k) (b :: bs)) s s2) as Happ.
      { intros k Hs2.
        replace (take (m + k) (b :: bs)) with (take m (b :: bs) ++ take k (drop (m `min` length (b :: bs)) (b :: bs))); [by eapply sent_more_trans|].
        set (l := b :: bs). destruct (decide (m <= length l)%nat).
        - by rewrite Nat.min_l, take_take_drop by lia.
        - rewrite Nat.min_r, drop_all, take_nil, app_nil_r by lia. by rewrite !take_ge by lia. }
      apply HQ; [by etrans|congruence|]. destruct Hw as [[Hr Hs2]|(Hr & Ht & k & Hs2)].
      * left. split; [done|]. set (l := b :: bs) in *.
        specialize (Happ (length l)). rewrite (take_ge (drop _ l)), (take_ge l) in Happ by (rewrite ?length_drop; lia). by apply Happ.
      * right. split; [done|]. split; [by eapply trouble_mono; [exact Ht|apply Hk|]|]. exists (m + k)%nat. by apply Happ.
  - intros e Ht. destruct (_ =? n); run; (apply HQ; [by split|done|]); right; (split; [intros [= Hr]; cbn [length] in *; lia || done|]);
      (split; [done|]); exists 0%nat; by apply sent_more_nil.
Qed.

Lemma runs_writen {P : Prop} fd bs (Q : Z + Z -> pd -> Prop) s :
  (forall r s', kept s s' -> inbox s' = inbox s -> written fd bs (Z.of_nat (length bs)) r s s' -> Q r s') ->
  runs P (writen fd bs) Q s.
Proof. by apply writen_loop_spec. Qed.

Lemma written_told fd bs n r s s' : written fd bs n r s s' -> told fd bs s s'.
Proof. intros [[_ Hs]|(_ & Ht & Hk)]; [by left|by right]. Qed.

(** What the client was told: a response that says no, for an error that did happen; and it was
    sent in full, or a call is to blame. *)
Definition refused (fd : nat) (s s' : pd) : Prop :=
  exists e, blamed e s s' /\ told fd (encode_resp e 0 (reject_msg e)) s s'.

Lemma refused_kept fd s1 s s' s2 : refused fd s s' -> sent s1 = sent s -> (ticks s1 <= ticks s)%nat ->
  sent s2 = sent s' -> (ticks s' <= ticks s2)%nat -> refused fd s1 s2.
Proof. intros (e & Hb & Ht) ????. exists e. split; [by eapply blamed_mono|by eapply told_kept]. Qed.

(** A refusal goes to the client and changes nothing else. *)
Lemma runs_reject {P : Prop} fd e (Q : unit -> pd -> Prop) s :
  (forall s', kept s s' -> told fd (encode_resp e 0 (reject_msg e)) s s' -> Q tt s') -> runs P (reject fd e) Q s.
Proof.
  intros HQ. unfold reject. run. apply runs_writen. intros r s' Hk _ Hw. run. apply HQ; [done|]. by eapply written_told.
Qed.

(** The refusal for an error that happened between [s] and the state in which it is written. *)
Lemma refused_for fd e s s1 s' s2 : blamed e s s1 -> sent s1 = sent s -> (ticks s <= ticks s1)%nat ->
  told fd (encode_resp e 0 (reject_msg e)) s1 s' -> sent s2 = sent s' -> (ticks s1 <= ticks s')%nat -> (ticks s' <= ticks s2)%nat ->
  refused fd s s2.
Proof. intros Hb E L Ht E2 L1 L2. exists e. split; [eapply blamed_mono; [exact Hb|lia..]|by eapply told_kept]. Qed.

(** ** Files *)

Lemma alter_present {A} (f : A -> A) (m : gmap string A) k v : m !! k = Some v -> alter f k m = <[k := f v]> m.
Proof.
  intros E. apply map_eq. intros i. destruct (decide (i = k)) as [->|Hi].
  - by rewrite lookup_alter_eq, E, lookup_insert_eq.
  - by rewrite lookup_alter_ne, lookup_insert_ne by done.
Qed.

Lemma runs_write_file {P : Prop} name f bs (Q : Z + Z -> pd -> Prop) s :
  files s !! name = Some f ->
  (forall n, (length bs <= n)%nat \/ (exists k, answer (ticks s) = Short k) ->
     Q (inl (Z.of_nat (length (take n bs)))) (set_files (<[name := f ++ take n bs]> (files s)) (tick s))) ->
  (forall e, answer (ticks s) = Fails e -> Q (inr e) (tick s)) ->
  runs P (write_file name bs) Q s.
Proof.
  intros Ef HQ He. unfold write_file. run. apply runs_ask. intros o Ho.
  destruct o as [|n|e]; [| |by run; apply He]; repeat run.
  - change (files (tick s)) with (files s). rewrite (alter_present _ _ _ _ Ef). apply HQ. by left.
  - change (files (tick s)) with (files s). rewrite (alter_present _ _ _ _ Ef). apply HQ. right. by exists n.
Qed.

(** The flags after the first piece. *)
Definition text_flag (ps : list (list Z)) (flags : Z) : Z :=
  match ps with
  | [] => flags
  | p :: _ => if is_postscript (take (Z.to_nat IOBUFSZ) p) then flags else Z.lor flags PR_TEXT
  end.

Lemma store_data_spec {P : Prop} fuel fd name (first : bool) flags ps rest old s (Q : Z + Z -> pd -> Prop) :
  over rest ->
  inbox s !! fd = Some (pieces_of ps rest) -> Forall nonempty ps -> files s !! name = Some old ->
  (length (concat ps) < fuel)%nat ->
  (forall s', kept (set_files (<[name := old ++ concat ps]> (files s)) s) s' -> sent s' = sent s ->
     Q (inl (if first then text_flag ps flags else flags)) s') ->
  (forall e x s', kept (set_files (<[name := x]> (files s)) s) s' -> sent s' = sent s -> blamed e s s' -> Q (inr e) s') ->
  runs P (store_data fuel fd name first flags) Q s.
Proof.
  revert first flags ps old s Q. induction fuel as [|fuel IH]; intros first flags ps old s Q Hov Ei Hps Ef Hl HQ He; [lia|].
  cbn [store_data]. run. destruct ps as [|p ps].
  - eapply runs_tread_end; [done|done|]. intros r' s' Hk Hs Hr'. replace (if first then text_flag [] flags else flags) with flags in HQ by (by destruct first).
    assert (Q (inl flags) s') as Hgo.
    { apply HQ; [|done]. cbn [concat]. rewrite app_nil_r, insert_id by done. by apply kept_files_same. }
    by destruct Hr' as [->|[e ->]]; run.
  - apply (runs_tread fd _ p ps rest); [done|done|unfold IOBUFSZ; lia|]. intros ps' Hps' Hc Ht.
    set (buf := take (Z.to_nat IOBUFSZ) p) in *. destruct buf as [|b0 buf'] eqn:Eb; [done|]. rewrite <- Eb in *. clear Ht.
    run. eapply runs_write_file; [exact Ef| |].
    + intros n Hn. set (s1 := set_files (<[name := old ++ take n buf]> (files (set_inbox _ s))) _). destruct (Z.eqb_spec (Z.of_nat (length (take n buf))) (Z.of_nat (length buf))) as [En|En].
      * apply Nat2Z.inj in En. rewrite length_take in En.
        assert (take n buf = buf) as Et by (apply take_ge; lia).
        apply (IH _ _ ps' (old ++ buf)); [done|..].
        -- unfold s1. cbn. by rewrite lookup_insert_eq.
        -- done.
        -- unfold s1. cbn. by rewrite lookup_insert_eq, Et.
        -- rewrite Hc, length_app, Eb in Hl. cbn in Hl. lia.
        -- intros s' Hk Hs. unfold s1 in Hk, Hs. cbn in Hk, Hs. rewrite insert_insert_eq, <- app_assoc, <- Hc in Hk.
           replace (if first then text_flag (p :: ps) flags else flags) with
             (if first && negb (is_postscript buf) then Z.lor flags PR_TEXT else flags) in HQ.
           ++ apply HQ; [|done]. destruct Hk. by split.
           ++ unfold text_flag. fold buf. by destruct first, (is_postscript buf).
        -- intros e x s' Hk Hs Hb. unfold s1 in Hk, Hs. cbn in Hk, Hs. rewrite insert_insert_eq in Hk.
           apply (He e x); [|done|by eapply blamed_mono; [exact Hb|..]]. destruct Hk. by split.
      * run. apply (He EIO (old ++ take n buf)); [|done|]; [unfold s1; by split|].
        destruct Hn as [Hn|[k Hn]]; [rewrite take_ge in En by done; done|]. by apply (blamed_short k).
    + intros e Hn. run. apply (He e old); [|done|by apply blamed_now]. cbn. rewrite insert_id by done. by split.
Qed.

Lemma data_path_ne id : data_path id <> req_path id.
Proof. unfold data_path, req_path, spool_path. intros E. apply (f_equal (drop_str 19)) in E. done. Qed.

Lemma conn_size_pieces ps rest : (length (concat ps) <= conn_size (pieces_of ps rest))%nat.
Proof. induction ps as [|p ps IH]; [cbn; lia|]. cbn. rewrite length_app. unfold pieces_of, conn_size in IH. lia. Qed.

Lemma runs_creat {P : Prop} name (Q : nat + Z -> pd -> Prop) s :
  Q (inl (next_id (pr s))) (set_pr (snd (acquire RFd (pr s))) (set_files (<[name := []]> (files s)) (tick s))) ->
  (forall e, answer (ticks s) = Fails e -> Q (inr e) (tick s)) -> runs P (creat name) Q s.
Proof. intros HQ He. unfold creat. run. apply runs_ask. intros [|n|e] Ho; repeat run; try exact HQ. by apply He. Qed.

(** The data file holds what was sent, or there is none. *)
Lemma spool_data_spec {P : Prop} fd r jid ps rest s (Q : option printreq -> pd -> Prop) :
  over rest ->
  proc_wf (pr s) -> inbox s !! fd = Some (pieces_of ps rest) -> Forall nonempty ps -> files s !! data_path jid = None ->
  (forall s', kept (set_files (<[data_path jid := concat ps]> (files s)) s) s' -> sent s' = sent s ->
     Q (Some (set_flags (text_flag ps (r_flags r)) r)) s') ->
  (forall s', kept s s' -> refused fd s s' -> Q None s') ->
  runs P (spool_data fd r jid) Q s.
Proof.
  intros Hov Hw Ei Hps Hfree HQ HN. unfold spool_data. run. apply runs_creat.
  2:{ intros e He. run. apply runs_log_line. run. apply runs_reject. intros s' Hk Hs. run.
      apply HN; [|eapply (refused_for fd e s (tick s) s' s'); [by apply blamed_now|done|done|exact Hs|done|apply Hk|done]].
      etrans; [|exact Hk]. split; try done. apply keeps_emit. }
  set (s1 := set_pr _ _). assert (kept (set_files (<[data_path jid := []]> (files s)) (set_pr (snd (acquire RFd (pr s))) s)) s1) as H1 by (by split).
  run. unfold store_all. run. run. change (inbox s1) with (inbox s). rewrite Ei. cbn [from_option id].
  apply (store_data_spec _ fd _ true _ ps rest []); [done|done|done|by cbn; rewrite lookup_insert_eq|pose proof (conn_size_pieces ps rest); lia| |].
  - intros s' Hk Hs. cbn [app] in Hk. change (files s1) with (<[data_path jid := []]> (files s)) in Hk. rewrite insert_insert_eq in Hk.
    destruct (kept_closed RFd (<[data_path jid := concat ps]> (files s)) s s' Hw) as [Hl Hc].
    { eapply kept_files; [|exact Hk]. exact H1. }
    run. apply runs_giving_back with (k := RFd); [done|]. run. by apply HQ.
  - intros e x s' Hk Hs Hb. change (files s1) with (<[data_path jid := []]> (files s)) in Hk. rewrite insert_insert_eq in Hk.
    run. apply runs_log_line. run. unfold close. set (s2 := set_pr _ s').
    destruct (kept_closed RFd (<[data_path jid := x]> (files s)) s s2 Hw) as [Hl Hc].
    { apply kept_log. eapply kept_files; [|exact Hk]. exact H1. }
    apply runs_giving_back with (k := RFd); [done|]. run. apply runs_reject. intros s3 Hk3 Hs3.
    repeat run. apply HN.
    + eapply kept_unlink; [done|]. etrans; [exact Hc|exact Hk3].
    + eapply (refused_for fd e s s' s3); [by eapply blamed_mono; [exact Hb|..]|done|done|by eapply told_kept; [exact Hs3|..]|done|done|done].
Qed.

Lemma control_failed_spec {P : Prop} fd jid x e s s1 (Q : bool -> pd -> Prop) :
  proc_wf (pr s) -> files s !! req_path jid = None ->
  kept (set_files (<[req_path jid := x]> (files s)) (set_pr (snd (acquire RFd (pr s))) s)) s1 -> sent s1 = sent s ->
  blamed e s s1 ->
  (forall s', kept (set_files (delete (data_path jid) (files s)) s) s' -> refused fd s s' -> Q false s') ->
  runs P (control_failed fd (next_id (pr s)) jid e) Q s1.
Proof.
  intros Hw Hfree Hk Hs Hb HF. unfold control_failed. run. apply runs_log_line. run. unfold close. set (s2 := set_pr _ s1).
  destruct (kept_closed RFd (<[req_path jid := x]> (files s)) s s2 Hw) as [Hl Hc]; [by apply kept_log|].
  apply runs_giving_back with (k := RFd); [done|]. run. apply runs_reject. intros s3 Hk3 Hs3.
  repeat run. apply HF.
  - assert (kept (set_files (<[req_path jid := x]> (files s)) s) s3) as H3 by (by etrans). cbn [files set_files].
    rewrite (k_files _ _ H3). cbn [files set_files]. rewrite delete_insert_id by done. by eapply kept_set_files, kept_set_files.
  - eapply (refused_for fd e s s1 s3); [done|done|done|by eapply told_kept; [exact Hs3|..]|done|done|done].
Qed.

(** The control file holds the request, or there is none, nor the data file. *)
Lemma spool_request_spec {P : Prop} fd r jid s (Q : bool -> pd -> Prop) :
  proc_wf (pr s) -> wf_req r -> files s !! req_path jid = None ->
  (forall s', kept (set_files (<[req_path jid := store_req r]> (files s)) s) s' -> sent s' = sent s -> Q true s') ->
  (forall s', kept (set_files (delete (data_path jid) (files s)) s) s' -> refused fd s s' -> Q false s') ->
  runs P (spool_request fd r jid) Q s.
Proof.
  intros Hw Hr Hfree HQ HF. unfold spool_request. run. apply runs_creat.
  2:{ intros e He. run. apply runs_log_line. run. apply runs_reject. intros s' Hk Hs. repeat run.
      apply HF; [|eapply (refused_for fd e s (tick s) s'); [by apply blamed_now|done|done|exact Hs|done|apply Hk|done]].
      rewrite (k_files _ _ Hk). cbn. eapply kept_set_files with (F := files s). apply kept_files_same.
      etrans; [|exact Hk]. split; try done. apply keeps_emit. }
  set (s1 := set_pr _ _). run. eapply runs_write_file; [cbn; by rewrite lookup_insert_eq| |].
  - intros n Hn. cbn [app]. rewrite length_take, length_store_req by done. rewrite length_store_req in Hn by done.
    change (files s1) with (<[req_path jid := []]> (files s)). rewrite insert_insert_eq.
    set (s2 := set_files (<[req_path jid := take n (store_req r)]> (files s)) (tick s1)).
    assert (kept (set_files (<[req_path jid := take n (store_req r)]> (files s)) (set_pr (snd (acquire RFd (pr s))) s)) s2) as H2 by (by split).
    destruct (Z.eqb_spec (Z.of_nat (n `min` SIZEOF_REQ)) (Z.of_nat SIZEOF_REQ)) as [En|En].
    + destruct (kept_closed RFd _ s s2 Hw H2) as [Hl Hc]. run. unfold close.
      apply runs_giving_back with (k := RFd); [done|]. run. apply HQ; [|done].
      by rewrite (take_ge (store_req r)) in Hc by (rewrite length_store_req by done; lia).
    + eapply control_failed_spec; [done|done|exact H2|done| |done]. destruct Hn as [Hn|[k Hn]]; [lia|].
      eapply blamed_mono; [by apply (blamed_short k s1 s2)|done..].
  - intros e Hn. eapply (control_failed_spec fd jid []); [done|done| |done| |done]; [by split|].
    eapply blamed_mono; [by apply (blamed_now e s1 (tick s1))|done..].
Qed.

(** What the printer's thread knows of the printer. *)
Definition same_printer (s s' : pd) : Prop :=
  printer s' = printer s /\ printer_name s' = printer_name s /\ reread s' = reread s.

(** ** A client from its request to the entry in the queue *)

Lemma lor_text_bound f : 0 <= f < 2 ^ 32 -> 0 <= Z.lor f PR_TEXT < 2 ^ 32.
Proof.
  intros Hf. assert (0 <= Z.lor f PR_TEXT) as H0 by (apply Z.lor_nonneg; split; [apply Hf|done]). split; [done|].
  destruct (decide (Z.lor f PR_TEXT = 0)) as [->|]; [done|]. apply Z.log2_lt_pow2; [lia|].
  rewrite Z.log2_lor by (done || apply Hf). apply Z.max_lub_lt; [|done].
  destruct (decide (f = 0)) as [->|]; [done|]. apply Z.log2_lt_pow2; [lia|apply Hf].
Qed.

Lemma wf_text_flag ps r : wf_req r -> wf_req (set_flags (text_flag ps (r_flags r)) r).
Proof.
  intros [Hs Hf Hu Hj]. split; [done| |done..]. cbn. destruct ps as [|p ps]; [done|]. cbn.
  destruct (is_postscript _); [done|by apply lor_text_bound].
Qed.

(** The number of the request and its entry in the queue. *)
Lemma runs_newjobno {P : Prop} (Q : Z -> pd -> Prop) s :
  0 < nextjob s < INT_MAX -> Q (nextjob s) (set_nextjob (nextjob s + 1) s) -> runs P get_newjobno Q s.
Proof.
  intros Hn HQ. unfold get_newjobno. run. run. run. rewrite (proj2 (Z.eqb_neq _ _)) by lia. run. run. run.
  rewrite (proj2 (Z.leb_gt _ _)) by lia. by run.
Qed.

(** What the spool holds after the request [r] with the data [data] was accepted as the job [jid]:
    both files and the last entry of the queue, and the client was told its number, in full or a
    call is to blame. *)
Record accepted (fd : nat) (r r' : printreq) (data : list Z) (p : nat) (bs : list nat) (l : list (Z * printreq)) (held : list nat)
  (s s' : pd) : Prop := MkAccepted {
  ac_pieces : exists ps, Forall nonempty ps /\ concat ps = data /\ r' = set_flags (text_flag ps (r_flags r)) r;
  ac_files : files s' = <[req_path (nextjob s) := store_req r']> (<[data_path (nextjob s) := data]> (files s));
  ac_queue : queued s' (bs ++ [p]) (l ++ [(nextjob s, r')]) held;
  ac_sent : told fd (encode_resp 0 (nextjob s) (accept_msg (nextjob s))) s s'
}.

Lemma serve_client_spec ps rest r data fd bs l held (Q : bool -> pd -> Prop) s :
  over rest ->
  proc_wf (pr s) -> queued s bs l held -> wf_req r ->
  inbox s !! fd = Some (pieces_of ps rest) -> Forall nonempty ps -> concat ps = encode_req r ++ data ->
  0 < nextjob s < INT_MAX -> files s !! data_path (nextjob s) = None -> files s !! req_path (nextjob s) = None ->
  (forall r' s' p, accepted fd r r' data p bs l held s s' -> live (pr s) !! p = None -> proc_wf (pr s') -> nextjob s' = nextjob s + 1 -> w s' = w s -> same_printer s s' ->
     live (pr s') = <[p := RBlk]> (live (pr s)) -> Q true s') ->
  (forall s', kept (set_nextjob (nextjob s + 1) s) s' -> refused fd s s' -> Q false s') ->
  runs broken (serve_client fd) Q s.
Proof.
  intros Hov Hw Hq Hr Ei Hps Hc Hn Hfd Hfr HQ HN. unfold serve_client. run.
  eapply read_request_spec; [exact Ei|done|exact Hc|done|]. intros ps' Hps' Hc'. run. apply runs_newjobno; [done|].
  set (s0 := set_nextjob (nextjob s + 1) s). set (s1 := set_nextjob _ _). set (jid := nextjob s).
  assert (kept s0 s1) as H1 by (by split). change (nextjob (set_inbox _ s)) with jid.
  run. apply (spool_data_spec fd r jid ps' rest); [done|done|cbn; by rewrite lookup_insert_eq|done|done| |].
  2:{ intros s' Hk Hs. run. apply HN; [by etrans|]. by eapply refused_kept; [exact Hs|..]. }
  intros s2 Hk2 Hs2. rewrite Hc' in Hk2. set (r' := set_flags _ r). assert (wf_req r') as Hr' by (by apply wf_text_flag).
  cbv iota. assert (proc_wf (pr s2)) as Hw2 by (by eapply kept_wf).
  assert (files s2 = <[data_path jid := data]> (files s)) as E2 by (by rewrite (k_files _ _ Hk2)).
  run. apply (spool_request_spec fd r' jid); [done|done|rewrite E2, lookup_insert_ne by apply data_path_ne; done| |].
  2:{ intros s' Hk Hs. run. apply HN; [|by eapply refused_kept; [exact Hs|by rewrite Hs2|by apply Hk2|..]].
      rewrite E2, delete_insert_id in Hk by done. etrans; [exact H1|].
      eapply kept_files_eq; [eapply kept_files; [exact Hk2|exact Hk]|done]. }
  intros s3 Hk3 Hs3. rewrite E2 in Hk3. set (F := <[req_path jid := store_req r']> (<[data_path jid := data]> (files s))) in *.
  assert (kept (set_files F s1) s3) as Hk03 by (eapply kept_files; [exact Hk2|exact Hk3]).
  run. apply runs_writen. intros o s4 Hk4 _ Hs4. run. apply runs_log_line. run. set (s5 := set_pr _ s4).
  assert (kept (set_files F s1) s5) as Hk5.
  { apply kept_log. by etrans. }
  apply (add_job_spec r' jid bs l held); [by eapply kept_wf| |].
  { eapply queued_same; [exact Hq|by apply Hk5|by apply Hk5]. }
  intros x' s' Hq'. run. apply (HQ r' s' (next_id (pr s5))).
  - split; [by exists ps'|by apply Hk5|done|]. eapply told_kept; [eapply written_told, Hs4|by rewrite Hs3, Hs2| |done|done].
    etrans; [|apply Hk3]. apply Hk2.
  - apply Hw. by apply (k_pr _ _ Hk5).
  - apply (proc_wf_acquire RBlk). by eapply kept_wf.
  - by apply Hk5.
  - by apply Hk5.
  - by split; [|split]; apply Hk5.
  - destruct (k_pr _ _ Hk5) as [El _]. unfold s'. cbn [pr set_q set_pr live]. change (live (pr (tick s5))) with (live (pr s5)).
    unfold acquire. cbn [snd live]. by rewrite El.
Qed.

(** ** The whole thread *)

Lemma queued_without x s s' bs l held :
  queued s bs l held -> (x ∉ bs ++ held) -> q s' = q s -> live (pr s') = delete x (live (pr s)) -> queued s' bs l held.
Proof.
  intros [] Hx Eq El. split; rewrite ?Eq; try done. intros p Hp. rewrite El, lookup_delete_ne by (by intros ->). by apply qu_live.
Qed.

Lemma queued_with x k s s' bs l held :
  queued s bs l held -> live (pr s) !! x = None -> q s' = q s -> live (pr s') = <[x := k]> (live (pr s)) -> queued s' bs l held.
Proof.
  intros [] Hx Eq El. split; rewrite ?Eq; try done. intros p Hp. rewrite El, lookup_insert_ne; [by apply qu_live|].
  intros ->. by rewrite (qu_live p Hp) in Hx.
Qed.

(** The cleanup of the only worker: its socket is closed and its record is freed. *)
Lemma runs_cleanup {P : Prop} jid wtp fd (Q : unit -> pd -> Prop) s :
  w s = MkCrew {[wtp := MkWorker None None jid fd]} (Some wtp) ->
  live (pr s) !! fd = Some RFd -> live (pr s) !! wtp = Some RBlk ->
  (forall s', s' = set_w (MkCrew ∅ None) (set_pr (drop_handle wtp (drop_handle fd (pr s))) s) -> Q tt s') ->
  runs P (client_cleanup jid) Q s.
Proof.
  intros Ew Hf Hb HQ. unfold client_cleanup. run. run. rewrite Ew. cbn [find_worker workers threads].
  rewrite lookup_singleton_eq. cbn [tid]. rewrite Z.eqb_refl. cbn [lift]. run. run. run.
  unfold unlink_worker. cbn [threads]. rewrite lookup_singleton_eq. cbn [w_next w_prev rbind threads]. rewrite lookup_singleton_eq.
  cbn [w_next w_prev lift threads]. run. cbn [threads workers]. rewrite lookup_singleton_eq. cbn [sockfd]. run.
  apply runs_giving_back with (k := RFd); [done|]. run. apply runs_giving_back with (k := RBlk).
  { cbn. rewrite lookup_delete_ne; [done|]. intros ->. by rewrite Hf in Hb. }
  run. rewrite delete_singleton_eq. by apply HQ.
Qed.

(** The first worker, and the cleanup when there is none. *)
Lemma runs_add_first {P : Prop} jid fd (Q : bool -> pd -> Prop) s :
  w s = MkCrew ∅ None ->
  (forall e s', answer (ticks s) = Fails e -> kept s s' -> sent s' = sent s -> Q false s') ->
  (let wtp := next_id (pr s) in forall s', s' = set_w (MkCrew {[wtp := MkWorker None None jid fd]} (Some wtp))
     (set_pr (snd (acquire RBlk (pr s))) (tick s)) -> Q true s') ->
  runs P (add_worker jid fd) Q s.
Proof.
  intros Ew HF HT. unfold add_worker. run. apply runs_ask. intros o Ho.
  assert (runs P (let! wtp := take_handle RBlk in
      do! modify (fun s => set_w (MkCrew (<[wtp := MkWorker None None jid fd]> (threads (w s))) (workers (w s))) s) in
      let! s := gets (fun s => s) in
      let! c := lift (link_worker wtp (w s)) in
      do! modify (set_w c) in
      ret true) Q (tick s)) as Hgo.
  { run. apply runs_take. run. run. run. run. cbn [w set_w set_pr tick]. rewrite Ew. unfold link_worker, put_worker.
    cbn [threads workers]. rewrite lookup_insert_eq. cbn [rbind workers threads lift]. run. run. run. run. apply HT.
    cbn [w set_w set_pr tick threads]. rewrite insert_insert_eq. reflexivity. }
  destruct o as [|n|e]; [exact Hgo..|]. run. apply runs_log_line. run. apply (HF e); [done| |done].
  split; try reflexivity; [apply keeps_emit|cbn; lia].
Qed.

Lemma runs_no_cleanup {P : Prop} jid (Q : unit -> pd -> Prop) s :
  workers (w s) = None -> Q tt s -> runs P (client_cleanup jid) Q s.
Proof. intros Ew HQ. unfold client_cleanup. run. run. rewrite Ew. run. cbn [find_worker lift]. run. by run. Qed.

Lemma proc_wf_drop x p : proc_wf p -> proc_wf (drop_handle x p).
Proof. intros Hp i Hi. cbn. rewrite lookup_delete_None. right. by apply Hp. Qed.

(** What holds after the thread of a client. *)
Definition thread_done (fd : nat) (r : printreq) (data : list Z) (bs : list nat) (l : list (Z * printreq)) (held : list nat)
  (s : pd) (ok : bool) (s' : pd) : Prop :=
  proc_wf (pr s') /\ w s' = w s /\ same_printer s s' /\
  if ok then
    exists r' p, accepted fd r r' data p bs l held s s' /\ nextjob s' = nextjob s + 1 /\
      live (pr s') = <[p := RBlk]> (delete fd (live (pr s)))
  else
    files s' = files s /\ queued s' bs l held /\ nextjob s <= nextjob s' <= nextjob s + 1 /\
    (refused fd s s' /\ live (pr s') = delete fd (live (pr s)) \/
     (exists e, answer (ticks s) = Fails e) /\ sent s' = sent s /\ live (pr s') = live (pr s)).

Lemma client_thread_spec id fd ps rest r data bs l held s :
  over rest ->
  proc_wf (pr s) -> queued s bs l held -> w s = MkCrew ∅ None -> live (pr s) !! fd = Some RFd -> wf_req r ->
  inbox s !! fd = Some (pieces_of ps rest) -> Forall nonempty ps -> concat ps = encode_req r ++ data ->
  0 < nextjob s < INT_MAX -> files s !! data_path (nextjob s) = None -> files s !! req_path (nextjob s) = None ->
  runs broken (client_thread id fd) (thread_done fd r data bs l held s) s.
Proof.
  intros Hov Hw Hq Ew Hfd Hr Ei Hps Hc Hn Hfd1 Hfd2. unfold client_thread. run.
  apply runs_add_first; [done| |].
  - intros e s' He Hk Hs. run. run. run. apply runs_no_cleanup; [by rewrite (k_w _ _ Hk), Ew|]. run.
    split; [by eapply kept_wf|]. split; [apply Hk|]. split; [by split; [|split]; apply Hk|]. split; [apply Hk|].
    split; [by eapply queued_kept|]. split; [rewrite (k_nextjob _ _ Hk); lia|]. right. split; [by exists e|]. split; [done|apply Hk].
  - intros wtp s1 Es1. assert (live (pr s) !! wtp = None) as Hwtp by (by apply Hw).
    assert (live (pr s1) = <[wtp := RBlk]> (live (pr s))) as El1 by (by rewrite Es1).
    assert (fd <> wtp) as Hne by (intros ->; by rewrite Hfd in Hwtp).
    assert (live (pr s1) !! fd = Some RFd) as Hfd' by (by rewrite El1, lookup_insert_ne).
    assert (live (pr s1) !! wtp = Some RBlk) as Hwtp' by (by rewrite El1, lookup_insert_eq).
    assert (forall p, p ∈ bs ++ held -> p <> wtp /\ p <> fd) as Hbs.
    { intros p Hp. pose proof (qu_live _ _ _ _ Hq p Hp) as Hlp. split; intros ->; congruence. }
    assert (forall M : gmap nat rkind, M !! wtp = None -> delete wtp (delete fd (<[wtp := RBlk]> M)) = delete fd M) as Hback.
    { intros M HM. rewrite delete_insert_ne by done. apply delete_insert_id. by rewrite lookup_delete_ne. }
    run. apply (serve_client_spec ps rest r data fd bs l held); [done|by rewrite Es1; apply proc_wf_acquire| |done|by rewrite Es1|done|done|by rewrite Es1..| |].
    { apply (queued_with wtp RBlk s); [done|done|by rewrite Es1|done]. }
    + intros r' s2 p [Hps' Hfi Hqu Hse] Hp Hw2 Hn2 Ew2 Hpr2 El2.
      assert (nextjob s1 = nextjob s) as Enj by (by rewrite Es1). rewrite Enj in *. assert (p <> wtp /\ p <> fd) as [Hp1 Hp2] by (split; intros ->; congruence).
      run. apply (runs_cleanup id wtp fd).
      { rewrite Ew2, Es1. reflexivity. }
      { by rewrite El2, lookup_insert_ne. }
      { by rewrite El2, lookup_insert_ne. }
      intros s3 Es3. run. assert (live (pr s3) = <[p := RBlk]> (delete fd (live (pr s)))) as El3.
      { rewrite Es3. cbn [pr set_w set_pr drop_handle live]. rewrite El2, El1.
        rewrite !(delete_insert_ne _ _ p) by done. by rewrite Hback. }
      split; [rewrite Es3; cbn [pr set_w set_pr]; by do 2 apply proc_wf_drop|]. split; [by rewrite Es3, Ew|].
      split; [by rewrite Es3; rewrite Es1 in Hpr2|]. exists r', p. split; [|split; [by rewrite Es3|done]].
      split; [done|by rewrite Es3; cbn; rewrite Hfi, Es1| |].
      * split; rewrite ?Es3; cbn [q set_w set_pr]; [apply Hqu..|]. intros z Hz. rewrite <- Es3, El3.
        destruct (decide (z = p)) as [->|Hzp]; [by rewrite lookup_insert_eq|].
        assert (z ∈ bs ++ held) as Hz' by set_solver. destruct (Hbs z Hz') as [_ Hzf].
        rewrite lookup_insert_ne, lookup_delete_ne by done. by apply (qu_live _ _ _ _ Hq).
      * rewrite Es1 in Hse. by eapply told_kept; [exact Hse|done|done|by rewrite Es3|by rewrite Es3].
    + intros s2 Hk Hre. run. apply (runs_cleanup id wtp fd).
      { rewrite (k_w _ _ Hk), Es1. reflexivity. }
      { destruct (k_pr _ _ Hk) as [-> _]. done. }
      { destruct (k_pr _ _ Hk) as [-> _]. done. }
      intros s3 Es3. run. destruct (k_pr _ _ Hk) as (El2 & _).
      assert (live (pr s3) = delete fd (live (pr s))) as El3.
      { rewrite Es3. cbn [pr set_w set_pr drop_handle live]. rewrite El2. cbn [pr set_nextjob]. rewrite El1. by apply Hback. }
      split; [rewrite Es3; cbn [pr set_w set_pr]; do 2 apply proc_wf_drop; eapply kept_wf; [exact Hk|]; cbn; rewrite Es1; by apply proc_wf_acquire|].
      split; [by rewrite Es3, Ew|]. split; [|split; [by rewrite Es3; cbn; rewrite (k_files _ _ Hk); cbn; rewrite Es1|split; [|split; [|left]]]].
      * unfold same_printer. rewrite Es3. cbn. rewrite (k_printer _ _ Hk), (k_name _ _ Hk), (k_reread _ _ Hk). by rewrite Es1.
      * apply (queued_without fd s); [done|intros Hin; by apply (Hbs fd)| |done]. rewrite Es3. cbn. rewrite (k_q _ _ Hk). cbn. by rewrite Es1.
      * rewrite Es3. cbn. rewrite (k_nextjob _ _ Hk). cbn. rewrite Es1. cbn. lia.
      * split; [|done]. eapply refused_kept; [exact Hre|by rewrite Es1|by rewrite Es1; cbn; lia|by rewrite Es3|by rewrite Es3].
Qed.

(** A daemon that serves nobody else, when a connection has been accepted. *)
Record ready (fd : nat) (c : conn) (bs : list nat) (l : list (Z * printreq)) (held : list nat) (s : pd) : Prop := MkReady {
  rd_wf : proc_wf (pr s);
  rd_queue : queued s bs l held;
  rd_w : w s = MkCrew ∅ None;
  rd_fd : live (pr s) !! fd = Some RFd;
  rd_inbox : inbox s !! fd = Some c;
  rd_next : 0 < nextjob s < INT_MAX;
  rd_data : files s !! data_path (nextjob s) = None;
  rd_req : files s !! req_path (nextjob s) = None
}.

Lemma client_thread_ready id fd ps rest r data bs l held s :
  ready fd (pieces_of ps rest) bs l held s -> over rest -> wf_req r -> Forall nonempty ps -> concat ps = encode_req r ++ data ->
  runs broken (client_thread id fd) (thread_done fd r data bs l held s) s.
Proof. intros [] Hov Hr Hps Hc. by eapply client_thread_spec. Qed.

End Spool.

(** A request with its data in two pieces; after them the client waits for the answer. *)
Definition one_client : pd :=
  set_inbox {[0%nat := pieces_of [encode_req (request "ann" "a.txt") ++ bytes "ab"; bytes "c"] [Silence]]}
    (set_pr (MkProc 0 {[0%nat := RFd]} 1 []) pd0).

