(* ===== verification/PrintJob.v ===== *)
(** * What the printer gets

    A job is read from its file and sent after two headers; when the printer says that it has the
    job, the files of the job are removed.  Whatever call fails on the way, the job is put back at
    the head of the queue; only when its file cannot be opened it is given up. *)

From S2P Require Import Prelude Process CLib Prog DbFile PrintState Dll PrintQueue PrintStatus PrintWire PrintDaemon PrintSpool.
From Stdlib Require Import Ascii.
Local Open Scope Z_scope.
Local Open Scope prog_scope.

(** ** Documents and printers *)

(** What goes to the printer for a job. *)
Definition ipp_part (id : Z) (name : string) (r : printreq) (user title : list Z) : list Z :=
  ipp_bytes id (job_attrs name user title (doc_format r)).
Definition body_part (r : printreq) (content : list Z) : list Z := (if is_text r then [8] else []) ++ content.

Definition document (id : Z) (name : string) (r : printreq) (user title content : list Z) : list Z :=
  let body := ipp_part id name r user title ++ body_part r content in
  bytes (http_text (Z.of_nat (length body)) name) ++ body.

(** The names of a job are strings that fit the buffer of the header. *)
Record fits (name : string) (r : printreq) (user title : list Z) : Prop := MkFits {
  ft_user : until_nul (usernm r) = Ok user;
  ft_title : until_nul (jobnm r) = Ok title;
  ft_names : names_fit name user title (doc_format r) = true
}.

(** A printer that answers with a response in one piece, or not at all. *)
Definition polite (fuel : nat) (c : conn) : Prop :=
  (exists rep rest, c = Data (render rep) :: rest /\ wf_reply rep = true /\ (length (render rep) < fuel)%nat) \/
  match c with Data _ :: _ => False | _ => True end.

Definition says_done (c : conn) (id : Z) : Prop :=
  exists rep rest, c = Data (render rep) :: rest /\ wf_reply rep = true /\ accepts rep id = true.

Definition declines (c : conn) (id : Z) : Prop :=
  (exists rep rest, c = Data (render rep) :: rest /\ wf_reply rep = true /\ accepts rep id = false) \/
  match c with Data _ :: _ => False | _ => True end.

(** What the daemon takes the answer for is what it says.  Of other answers nothing is said. *)
Definition answered (fuel : nat) (c : conn) (id : Z) (b : bool) : Prop :=
  polite fuel c -> if b then says_done c id else declines c id.

Section Job.
Context `{World}.

Lemma runs_write_all {P : Prop} fd bs (Q : bool -> pd -> Prop) s :
  (forall (ok : bool) s', kept s s' -> inbox s' = inbox s -> (if ok then sent_more fd bs s s' else trouble s s') -> Q ok s') ->
  runs P (write_all fd bs) Q s.
Proof.
  intros HQ. unfold write_all. run. apply runs_write_sock.
  - intros n s' Hk Hi Hs Hn. run. apply HQ; [done..|]. rewrite length_take.
    destruct (Z.eqb_spec (Z.of_nat (n `min` length bs)) (Z.of_nat (length bs))) as [E|E].
    + by rewrite take_ge in Hs by lia.
    + destruct Hn as [Hn|]; [lia|done].
  - intros e Ht. run. apply HQ; [by split|done..].
Qed.

Lemma runs_read_file {P : Prop} content pos n (Q : list Z + Z -> pd -> Prop) s :
  (pos <= length content)%nat -> (0 < n)%nat ->
  (forall a b, drop pos content = a ++ b -> (a = [] -> b = []) -> Q (inl a) (tick s)) ->
  (forall e, answer (ticks s) = Fails e -> Q (inr e) (tick s)) -> runs P (read_file content pos n) Q s.
Proof.
  intros Hp Hn HQ He. unfold read_file. run. apply runs_ask. intros o Ho.
  assert (forall m, (0 < m)%nat -> Q (inl (take m (drop pos content))) (tick s)) as Hm.
  { intros m Hm. apply (HQ _ (drop m (drop pos content))); [by rewrite take_drop|].
    intros E. apply (f_equal length) in E. rewrite length_take in E. cbn in E.
    rewrite (nil_length_inv (drop pos content)); [by destruct m|lia]. }
  destruct o as [|k|e]; run; [apply Hm; lia..|by apply He].
Qed.

(** The whole rest of the file, or the copy failed. *)
Lemma runs_send_file {P : Prop} fuel fd content pos (Q : bool -> pd -> Prop) s :
  (length content < fuel + pos)%nat -> (pos <= length content)%nat ->
  (forall (ok : bool) s', kept s s' -> inbox s' = inbox s ->
     (if ok then sent_more fd (drop pos content) s s' else trouble s s') -> Q ok s') ->
  runs P (send_file fuel fd content pos) Q s.
Proof.
  revert pos s Q. induction fuel as [|fuel IH]; intros pos s Q Hf Hp HQ; [lia|]. cbn [send_file]. run.
  apply runs_read_file; [done|unfold IOBUFSZ; lia| |].
  2:{ intros e He. run. apply runs_log_line. run. apply HQ; [by apply kept_log; split|done|].
      apply trouble_now; [by rewrite He|done]. }
  intros a b Eab Hnil. destruct a as [|x a].
  { run. apply HQ; [by split|done|]. rewrite Eab, Hnil by done. by apply sent_more_nil. }
  assert (pos + length (x :: a) <= length content)%nat as Hle.
  { apply (f_equal length) in Eab. rewrite length_drop, length_app in Eab. cbn in *. lia. }
  run. apply runs_writen. intros r s1 Hk1 Hi1 Hw1. assert (kept s s1) as Hk by (etrans; [|exact Hk1]; by split).
  assert (r <> inl (Z.of_nat (length (x :: a))) -> trouble s s1) as Htr.
  { intros Hne. destruct Hw1 as [[E _]|(_ & Ht & _)]; [done|]. by eapply trouble_mono; [exact Ht|..]. }
  destruct r as [nw|e].
  - destruct (Z.eqb_spec nw (Z.of_nat (length (x :: a)))) as [->|Hne].
    + destruct Hw1 as [[_ Hs1]|[? _]]; [|done]. apply IH; [cbn in *; lia|done|]. intros ok s2 Hk2 Hi2 Hs2. apply HQ; [by etrans|by rewrite Hi2|].
      destruct ok; [|by eapply trouble_mono; [exact Hs2|..]]. rewrite Eab. eapply sent_more_trans; [exact Hs1|].
      by rewrite <- drop_drop, Eab, drop_app_length in Hs2.
    + run. apply runs_log_line. run. apply HQ; [by apply kept_log|done|]. eapply trouble_mono; [apply Htr; by intros [= ?]|done..].
  - run. apply runs_log_line. run. apply HQ; [by apply kept_log|done|]. by eapply trouble_mono; [apply Htr|..].
Qed.

Lemma length_ipp_part id name r user title : fits name r user title -> Z.of_nat (length (ipp_part id name r user title)) <= IBUFSZ.
Proof.
  intros [_ _ Hf]. unfold names_fit in Hf. apply andb_true_iff in Hf as [H1%Z.leb_le H2%Z.leb_le].
  unfold ipp_part, ipp_bytes. rewrite !length_app. cbn [length be16 be32]. rewrite !Nat2Z.inj_add, length_attrs, length_job_attrs.
  change IBUFSZ with 512. lia.
Qed.

Lemma runs_printer_status sfd c fuel jid (Q : bool -> pd -> Prop) s :
  proc_wf (pr s) -> inbox s !! sfd = Some c -> (0 < fuel)%nat ->
  (forall b s', kept s s' -> sent s' = sent s -> answered fuel c jid b -> Q b s') ->
  runs_unless (~ polite fuel c) broken (printer_status fuel sfd jid) Q s.
Proof.
  intros Hw Ei Hf HQ. pose proof (status_frame sfd fuel jid s Hw) as Hframe.
  assert (polite fuel c -> runs broken (printer_status fuel sfd jid) (fun b _ => if b then says_done c jid else declines c jid) s) as Hp.
  { intros [(rep & rest & -> & Hrep & Hl)|Hc].
    - eapply runs_mono; [by eapply reply_in_one_piece|]. intros b s' (-> & _).
      destruct (accepts rep jid) eqn:Ea; [by exists rep, rest|]. left. by exists rep, rest.
    - eapply runs_mono; [apply no_reply; [done|done|by rewrite Ei]|]. intros b s' (-> & _). by right. }
  unfold runs_unless, runs in *. destruct (printer_status fuel sfd jid s) as [b s'|msg|u|]; [|done|by intros ?%Hp..].
  destruct Hframe as [Hk Hs]. by apply HQ.
Qed.

(** The header can be built just for a job whose names fit. *)
Lemma ipp_header_fits id name r ibuf :
  ipp_header id name r = Ok ibuf -> exists user title, fits name r user title /\ ibuf = ipp_part id name r user title.
Proof.
  intros E. destruct (until_nul (usernm r)) as [user|u|] eqn:Hu; [destruct (until_nul (jobnm r)) as [title|u|] eqn:Ht|..].
  - pose proof (ipp_header_spec id name r user title Hu Ht) as Es. destruct (names_fit _ _ _ _) eqn:Hn; [|congruence].
    exists user, title. split; [done|]. unfold ipp_part. congruence.
  - exfalso. unfold ipp_header in E. rewrite Hu, Ht in E. by repeat match type of E with context [rbind ?m _] => destruct m; cbn [rbind] in E; try done end.
  - exfalso. unfold ipp_header in E. rewrite Hu, Ht in E. by repeat match type of E with context [rbind ?m _] => destruct m; cbn [rbind] in E; try done end.
  - exfalso. unfold ipp_header in E. rewrite Hu in E. by repeat match type of E with context [rbind ?m _] => destruct m; cbn [rbind] in E; try done end.
  - exfalso. unfold ipp_header in E. rewrite Hu in E. by repeat match type of E with context [rbind ?m _] => destruct m; cbn [rbind] in E; try done end.
Qed.

Lemma fits_ipp_header id name r user title : fits name r user title -> ipp_header id name r = Ok (ipp_part id name r user title).
Proof. intros [Hu Ht Hn]. by rewrite (ipp_header_spec id name r user title), Hn. Qed.

(** When the daemon leaves its memory or does not come back: the printer does not answer as it
    should, or the names of the job do not fit. *)
Definition mishap (fuel : nat) (c : conn) (name : string) (r : printreq) : Prop :=
  ~ polite fuel c \/ ~ exists user title, fits name r user title.

Lemma runs_send_job fuel sfd c content id r (Q : bool -> pd -> Prop) s :
  proc_wf (pr s) -> inbox s !! sfd = Some c -> (0 < fuel)%nat -> Z.of_nat (length content) < 2 ^ 62 ->
  (forall (fin : bool) s', kept s s' ->
     (if fin then answered fuel c id true /\ exists user title, fits (printer_name s) r user title /\
        sent_more sfd (document id (printer_name s) r user title content) s s'
      else trouble s s' \/ answered fuel c id false) -> Q fin s') ->
  runs_unless (mishap fuel c (printer_name s) r) broken (send_job fuel sfd content id r) Q s.
Proof.
  intros Hw Ei Hf Hlen HQ. set (name := printer_name s) in *. unfold send_job. run_first. run. fold name.
  destruct (ipp_header id name r) as [ibuf|u|] eqn:Eh; cbn [lift];
    [|by right; intros (user & title & Hfit%(fits_ipp_header id)); rewrite Hfit in Eh..].
  apply ipp_header_fits in Eh as (user & title & Hfit & ->).
  pose proof (length_ipp_part id _ _ _ _ Hfit) as Hib. pose proof (ft_names _ _ _ _ Hfit) as Hn. change IBUFSZ with 512 in Hib.
  assert (strlen name <= 52) as Hname by (by apply andb_true_iff in Hn as [Hn%Z.leb_le _]).
  run_first. run. set (len := Z.of_nat (length content) + _ + _).
  assert (len = Z.of_nat (length (ipp_part id name r user title ++ body_part r content))) as Elen.
  { unfold len, body_part. rewrite !length_app. destruct (is_text r); cbn [length]; lia. }
  run_first. rewrite http_header_spec; [|unfold len; destruct (is_text r); change (2 ^ 63) with (2 * 2 ^ 62); lia|done]. cbn [lift]. run.
  rewrite Elen. run_first. apply runs_write_all. intros ok s1 Hk1 Hi1 Hs1. destruct ok; cbn [negb].
  2:{ apply unless_runs. run. apply runs_log_line. run. apply HQ; [by apply kept_log|left; by eapply trouble_mono; [exact Hs1|..]]. }
  run_first.
  assert (forall (Q' : bool -> pd -> Prop),
    (forall (ok : bool) s', kept s s' -> inbox s' = inbox s -> (if ok then
       sent_more sfd ((bytes (http_text (Z.of_nat (length (ipp_part id name r user title ++ body_part r content))) name) ++
         ipp_part id name r user title) ++ (if is_text r then [8] else [])) s s' else trouble s s') -> Q' ok s') ->
    runs broken (if is_text r then write_all sfd [8] else ret true) Q' s1) as Hex.
  { intros Q' HQ'. destruct (is_text r).
    - apply runs_write_all. intros ok s2 Hk2 Hi2 Hs2. apply HQ'; [by etrans|congruence|].
      destruct ok; [by eapply sent_more_trans; [exact Hs1|]|by eapply trouble_mono; [exact Hs2|..]].
    - run. apply HQ'; [done..|]. by rewrite app_nil_r. }
  apply Hex. clear Hex. intros ok s2 Hk2 Hi2 Hs2. destruct ok; cbn [negb].
  2:{ apply unless_runs. run. apply runs_log_line. run. apply HQ; [by apply kept_log|left; by eapply trouble_mono; [exact Hs2|..]]. }
  run_first. apply runs_send_file; [lia..|]. intros ok s3 Hk3 Hi3 Hs3. assert (kept s s3) as Hk by (by etrans). destruct ok; cbn [negb].
  2:{ apply unless_runs. run. apply HQ; [done|]. left. by eapply trouble_mono; [exact Hs3|..]. }
  eapply unless_mono; [apply (runs_printer_status sfd c fuel id (fun b s4 => kept s3 s4 /\ sent s4 = sent s3 /\ answered fuel c id b)) | |].
  - by eapply kept_wf.
  - by rewrite Hi3, Hi2.
  - done.
  - done.
  - by left.
  - intros b s4 _ (Hk4 & Hs4 & Hb). apply HQ; [by etrans|]. destruct b; [|by right]. split; [done|].
    exists user, title. split; [done|]. unfold sent_more. rewrite Hs4.
    assert (sent_more sfd (document id name r user title content) s s3) as Hd; [|exact Hd].
    eapply (sent_more_trans sfd _ _ _ s2) in Hs3; [|exact Hs2].
    unfold document. unfold body_part at 2. rewrite drop_0, <- !app_assoc in Hs3. exact Hs3.
Qed.

(** ** The connection to the printer *)

Lemma runs_connect {P : Prop} tries last (Q : nat + Z -> pd -> Prop) s :
  proc_wf (pr s) ->
  (forall s1 fd s', kept s s1 -> fd = next_id (pr s1) ->
     s' = set_sent (<[fd := []]> (sent s1)) (set_inbox (<[fd := dial (ticks s1)]> (inbox s1)) (set_pr (snd (acquire RFd (pr s1))) s1)) ->
     Q (inl fd) s') ->
  (forall e s', kept s s' -> tries = 0%nat \/ trouble s s' -> Q (inr e) s') ->
  runs P (connect_loop tries last) Q s.
Proof.
  revert last s Q. induction tries as [|tries IH]; intros last s Q Hw HQ HE; cbn [connect_loop]; [run; apply HE; [done|by left]|].
  run. apply runs_ask. intros o Ho.
  assert (runs P (let! fd := take_handle RFd in
      let! r := ask in
      match r with
      | Fails e => do! close fd in connect_loop tries e
      | _ => do! modify (fun s => set_sent (<[fd := []]> (sent s)) (set_inbox (<[fd := dial (ticks s)]> (inbox s)) s)) in
             ret (inl fd)
      end) Q (tick s)) as Hgo.
  { run. apply runs_take. run. apply runs_ask. intros o2 Ho2. set (fd := next_id (pr (tick s))). set (s2 := tick _).
    destruct o2 as [|n|e].
    - run. run. run. by eapply (HQ (tick (tick s)) fd).
    - run. run. run. by eapply (HQ (tick (tick s)) fd).
    - run. destruct (kept_closed RFd (files s) s s2 Hw) as [Hl Hc]; [by split|].
      apply runs_giving_back with (k := RFd); [done|]. assert (kept s (set_pr (drop_handle fd (pr s2)) s2)) as Hk3 by (by eapply kept_files_eq).
      apply IH; [by eapply kept_wf| |].
      + intros s1 fd' s' Hk E1 E2. eapply HQ; [by etrans|exact E1|exact E2].
      + intros e' s' Hk _. apply HE; [by etrans|]. right. exists (S (ticks s)). change (answer (S (ticks s)) = Fails e) in Ho2.
        rewrite Ho2. split; [|done]. pose proof (k_ticks _ _ Hk) as L. cbn in L. lia. }
  destruct o as [|n|e]; [exact Hgo..|]. run. apply HE; [by split|]. right. apply trouble_now; [by rewrite Ho|done].
Qed.

(** ** One job

    [holding L s s']: [s'] is later than [s] and differs from [s] in the log, the clock, the sockets and the handles,
    which are [L]. *)
Record holding (L : gmap nat rkind) (s s' : pd) : Prop := MkHolding {
  h_q : q s' = q s;
  h_nextjob : nextjob s' = nextjob s;
  h_jobfile : jobfile s' = jobfile s;
  h_w : w s' = w s;
  h_files : files s' = files s;
  h_name : printer_name s' = printer_name s;
  h_reread : reread s' = reread s;
  h_live : live (pr s') = L;
  h_wf : proc_wf (pr s');
  h_ticks : (ticks s <= ticks s')%nat
}.

Lemma holding_start s : proc_wf (pr s) -> holding (live (pr s)) s s.
Proof. by split. Qed.

Lemma holding_kept L s s1 s2 : holding L s s1 -> kept s1 s2 -> holding L s s2.
Proof.
  intros [] Hk. pose proof (kept_wf _ _ Hk). destruct Hk as [????????(El & _)]. split; try congruence; [by auto|lia].
Qed.

Lemma holding_take k L s s1 : holding L s s1 ->
  L !! next_id (pr s1) = None /\ holding (<[next_id (pr s1) := k]> L) s (set_pr (snd (acquire k (pr s1))) s1).
Proof.
  intros []. split; [rewrite <- h_live0; by apply h_wf0|]. split; try done; [by rewrite <- h_live0|by apply proc_wf_acquire].
Qed.

Lemma holding_drop x L s s1 : holding L s s1 -> holding (delete x L) s (set_pr (drop_handle x (pr s1)) s1).
Proof. intros []. split; try done; [by rewrite <- h_live0|by apply proc_wf_drop]. Qed.

(** [close] while handles are held. *)
Lemma runs_close {P : Prop} x L (Q : unit -> pd -> Prop) s s1 :
  holding L s s1 -> L !! x = Some RFd ->
  (forall s', s' = set_pr (drop_handle x (pr s1)) s1 -> holding (delete x L) s s' -> Q tt s') -> runs P (close x) Q s1.
Proof.
  intros Hh Hx HQ. apply runs_giving_back with (k := RFd); [by rewrite (h_live _ _ _ Hh)|]. apply HQ; [done|by apply holding_drop].
Qed.

Lemma runs_open_rd {P : Prop} name content L (Q : nat * list Z + Z -> pd -> Prop) s s1 :
  holding L s s1 -> files s !! name = Some content ->
  (forall e s', answer (ticks s1) = Fails e -> s' = tick s1 -> holding L s s' -> Q (inr e) s') ->
  (forall fd s', L !! fd = None -> holding (<[fd := RFd]> L) s s' -> Q (inl (fd, content)) s') ->
  runs P (open_rd name) Q s1.
Proof.
  intros Hh Hf HE HQ. unfold open_rd. run. apply runs_ask. intros o Ho. run. run.
  change (files (tick s1)) with (files s1). rewrite (h_files _ _ _ Hh), Hf.
  assert (holding L s (tick s1)) as Ht by (by eapply holding_kept).
  destruct (holding_take RFd L s (tick s1) Ht) as [Hn Hh2].
  destruct o as [|n|e]; run; [by apply runs_take, HQ..|by apply (HE e)].
Qed.

(** What can become of a job that is in the hand of the printer's thread: a printer was called, was
    sent the whole document and said that it has it, and then the files of the job are gone; a call
    is to blame or the printer does not say so, and then the job is at the head of the queue
    again; its file could not be opened or looked at, and then it is not in the queue and its
    files stay. *)
Inductive job_done (fuel : nat) (jp : nat) (id : Z) (r : printreq) (content : list Z) (bs : list nat)
  (l : list (Z * printreq)) (held : list nat) (s s' : pd) : Prop :=
| Printed t fd user title :
    (ticks s <= t <= ticks s')%nat -> answered fuel (dial t) id true -> fits (printer_name s) r user title ->
    default [] (sent s' !! fd) = document id (printer_name s) r user title content ->
    files s' = delete (req_path id) (delete (data_path id) (files s)) ->
    queued s' bs l held -> live (pr s') = delete jp (live (pr s)) -> job_done fuel jp id r content bs l held s s'
| Deferred :
    trouble s s' \/ (exists t, (ticks s <= t <= ticks s')%nat /\ answered fuel (dial t) id false) ->
    files s' = files s -> queued s' (jp :: bs) ((id, r) :: l) held -> live (pr s') = live (pr s) ->
    job_done fuel jp id r content bs l held s s'
| Cancelled n e :
    (ticks s <= n < ticks s')%nat -> answer n = Fails e -> files s' = files s -> queued s' bs l held ->
    live (pr s') = delete jp (live (pr s)) -> job_done fuel jp id r content bs l held s s'.

(** What there is to blame when a job is put back. *)
Definition put_off (fuel : nat) (id : Z) (s s' : pd) : Prop :=
  trouble s s' \/ exists t, (ticks s <= t <= ticks s')%nat /\ answered fuel (dial t) id false.

Lemma put_off_mono fuel id s1 s s' s2 : put_off fuel id s s' -> (ticks s1 <= ticks s)%nat -> (ticks s' <= ticks s2)%nat -> put_off fuel id s1 s2.
Proof.
  intros [Ht|(t & Ht & Ha)] L1 L2; [left; by eapply trouble_mono|]. right. exists t. split; [lia|done].
Qed.

(** What a round leaves alone. *)
Record untouched (s s' : pd) : Prop := MkUntouched {
  u_nextjob : nextjob s' = nextjob s;
  u_w : w s' = w s;
  u_name : printer_name s' = printer_name s;
  u_reread : reread s' = reread s;
  u_wf : proc_wf (pr s')
}.

Lemma holding_untouched L s s' : holding L s s' -> untouched s s'.
Proof. intros []. by split. Qed.

Lemma queued_live s s' bs l held :
  queued s bs l held -> q s' = q s -> (forall p, p ∈ bs ++ held -> live (pr s') !! p = Some RBlk) -> queued s' bs l held.
Proof. intros [] Eq Hl. by split; rewrite ?Eq. Qed.

(** Both descriptors are given back. *)
Lemma two_closed (L : gmap nat rkind) fd sfd k : L !! fd = None -> <[fd := k]> L !! sfd = None ->
  delete sfd (delete fd (<[sfd := k]> (<[fd := k]> L))) = L.
Proof.
  intros H1 H2. rewrite lookup_insert_None in H2. destruct H2 as [H2 Hne].
  rewrite delete_insert_ne by done. rewrite delete_insert_id; [|by rewrite lookup_delete_ne, lookup_insert_ne].
  by apply delete_insert_id.
Qed.

(** The label [defer]: the job is at the head of the queue again, and nothing else is left. *)
Lemma runs_defer {P : Prop} fuel fd (sfd : option nat) jp id r content bs l held (Q : unit -> pd -> Prop) s s1 :
  queued s bs l (jp :: held) -> load (q s) jp = Some (id, r) -> live (pr s) !! fd = None ->
  holding (match sfd with Some sfd => <[sfd := RFd]> (<[fd := RFd]> (live (pr s))) | None => <[fd := RFd]> (live (pr s)) end) s s1 ->
  (match sfd with Some sfd => <[fd := RFd]> (live (pr s)) !! sfd = None | None => True end) ->
  put_off fuel id s s1 ->
  (forall s', untouched s s' -> jobfile s' = jobfile s -> (ticks s <= ticks s')%nat -> job_done fuel jp id r content bs l held s s' -> Q tt s') ->
  runs P (defer fd sfd jp) Q s1.
Proof.
  intros Hq Hld Hfd Hh Hs Hoff HQ. unfold defer.
  assert (forall s2, holding (live (pr s)) s s2 -> (ticks s1 <= ticks s2)%nat -> runs P (replace_job jp) Q s2) as Hrep.
  { intros s2 Hh2 L2. apply (replace_job_spec jp (id, r) bs l held).
    - eapply queued_same; [exact Hq|apply Hh2|apply Hh2].
    - by rewrite (h_q _ _ _ Hh2).
    - intros x' Hq'. apply HQ; [by destruct Hh2; split|apply Hh2|apply Hh2|].
      apply Deferred; [by apply (put_off_mono fuel id s s s1)|apply Hh2|done|apply Hh2]. }
  destruct sfd as [sfd|].
  - assert (fd <> sfd) as Hne by (intros ->; by rewrite lookup_insert_eq in Hs).
    run. eapply runs_close; [exact Hh|by rewrite lookup_insert_ne, lookup_insert_eq|]. intros s2 E2 Hh2.
    run. eapply runs_close; [exact Hh2|by rewrite lookup_delete_ne, lookup_insert_eq|]. intros s3 E3 Hh3.
    rewrite two_closed in Hh3 by done. apply Hrep; [done|by rewrite E3, E2].
  - run. eapply runs_close; [exact Hh|by rewrite lookup_insert_eq|]. intros s2 E2 Hh2. run. run.
    rewrite delete_insert_id in Hh2 by done. apply Hrep; [done|by rewrite E2].
Qed.

(** A job that is given up, while handles are held. *)
Lemma runs_free {P : Prop} jp bs l held L (Q : unit -> pd -> Prop) s s1 :
  queued s bs l (jp :: held) -> holding L s s1 -> (forall p, p ∈ bs ++ jp :: held -> L !! p = Some RBlk) ->
  (forall s', s' = set_q (MkQueue (delete jp (jobs (q s1))) (jobhead (q s1)) (jobtail (q s1))) (set_pr (drop_handle jp (pr s1)) s1) ->
     queued s' bs l held -> Q tt s') ->
  runs P (free_job jp) Q s1.
Proof.
  intros Hq Hh HL HQ. apply (free_job_spec jp bs l held).
  - eapply queued_live; [exact Hq|apply Hh|]. intros p Hp. rewrite (h_live _ _ _ Hh). by apply HL.
  - exact HQ.
Qed.

Lemma holding_set_q x L s s1 : holding L s s1 -> holding L (set_q x s) (set_q x s1).
Proof. intros []. by split. Qed.
Lemma holding_set_files x L s s1 : holding L s s1 -> holding L (set_files x s) (set_files x s1).
Proof. intros []. by split. Qed.

Lemma untouched_base s s0 s' : untouched s0 s' -> nextjob s0 = nextjob s -> w s0 = w s -> printer_name s0 = printer_name s ->
  reread s0 = reread s -> untouched s s'.
Proof. intros []. split; [congruence..|done]. Qed.

(** The answer of the printer, and what follows it. *)
Lemma print_sent fd sfd c t fuel jp id r content bs l held (Q : unit -> pd -> Prop) s s1 :
  queued s bs l (jp :: held) -> load (q s) jp = Some (id, r) -> live (pr s) !! fd = None ->
  <[fd := RFd]> (live (pr s)) !! sfd = None ->
  holding (<[sfd := RFd]> (<[fd := RFd]> (live (pr s)))) s s1 ->
  inbox s1 !! sfd = Some c -> sent s1 !! sfd = Some [] -> c = dial t -> (ticks s <= t <= ticks s1)%nat -> (0 < fuel)%nat ->
  Z.of_nat (length content) < 2 ^ 62 ->
  (forall s', untouched s s' -> jobfile s' = jobfile s -> (ticks s <= ticks s')%nat -> job_done fuel jp id r content bs l held s s' -> Q tt s') ->
  runs_unless (mishap fuel c (printer_name s) r) broken
    (let! fin := send_job fuel sfd content id r in
     if fin : bool then
       do! unlink (data_path id) in do! unlink (req_path id) in do! free_job jp in do! close fd in close sfd
     else defer fd (Some sfd) jp) Q s1.
Proof.
  intros Hq Hld Hfd Hsfd Hh Ei Es Ec Ht Hf Hlen HQ. pose proof Hsfd as Hsfd'. rewrite lookup_insert_None in Hsfd'. destruct Hsfd' as [Hs0 Hne].
  assert (forall p, p ∈ bs ++ jp :: held -> live (pr s) !! p = Some RBlk /\ p <> fd /\ p <> sfd) as Hbs.
  { intros p Hp. pose proof (qu_live _ _ _ _ Hq p Hp) as Hlp. split; [done|]. split; intros ->; congruence. }
  assert (jp ∈ bs ++ jp :: held) as Hjp by set_solver. destruct (Hbs jp Hjp) as (Hljp & Hj1 & Hj2).
  assert (printer_name s1 = printer_name s) as En by apply Hh. rewrite <- En.
  apply unless_bind. apply (runs_send_job fuel sfd c content id r); [apply Hh|done|done|done|].
  intros fin s2 Hk Hfin. assert (holding (<[sfd := RFd]> (<[fd := RFd]> (live (pr s)))) s s2) as Hh2 by (by eapply holding_kept).
  pose proof (k_ticks _ _ Hk) as L2. apply unless_runs. destruct fin.
  2:{ eapply (runs_defer fuel fd (Some sfd)); [done..| |exact HQ]. destruct Hfin as [Htr|Ha]; [left; eapply trouble_mono; [exact Htr|lia|done]|].
      right. exists t. split; [lia|by rewrite <- Ec]. }
  destruct Hfin as (Hsay & user & title & Hfit & [_ Hsent]). rewrite Es, En in Hsent. cbn in Hsent. rewrite En in Hfit.
  unfold unlink. run. run. run. run. run. cbn [files set_files]. set (F := delete (req_path id) (delete (data_path id) (files s2))).
  change (set_files F (set_files _ s2)) with (set_files F s2).
  apply (runs_free jp bs l held (<[sfd := RFd]> (<[fd := RFd]> (live (pr s)))) _ (set_files F s)); [|by apply holding_set_files| |].
  { eapply queued_same; [exact Hq|done|done]. }
  { intros p Hp. destruct (Hbs p Hp) as (? & ? & ?). by rewrite !lookup_insert_ne. }
  set (X := MkQueue _ _ _). intros s3 Es3 Hq3. set (L3 := delete jp (<[sfd := RFd]> (<[fd := RFd]> (live (pr s))))).
  assert (holding L3 (set_q X (set_files F s)) s3) as Hh3.
  { rewrite Es3. apply holding_set_q, holding_drop, holding_set_files, Hh2. }
  assert (L3 !! fd = Some RFd /\ delete fd L3 !! sfd = Some RFd) as [Hl1 Hl2].
  { unfold L3. split; repeat (rewrite lookup_delete_ne by done); rewrite ?lookup_insert_eq; [|done].
    by rewrite lookup_insert_ne, lookup_insert_eq. }
  run. eapply runs_close; [exact Hh3|exact Hl1|]. intros s4 Es4 Hh4. eapply runs_close; [exact Hh4|exact Hl2|]. intros s5 Es5 Hh5.
  assert (live (pr s5) = delete jp (live (pr s))) as El5.
  { rewrite (h_live _ _ _ Hh5). unfold L3. rewrite (delete_delete _ fd jp), (delete_delete _ sfd jp). by rewrite two_closed. }
  assert (ticks s5 = ticks s2) as L5 by (by rewrite Es5, Es4, Es3).
  apply HQ; [|by rewrite (h_jobfile _ _ _ Hh5)|lia|].
  - by eapply untouched_base; [eapply holding_untouched, Hh5|..].
  - apply (Printed _ _ _ _ _ _ _ _ _ _ t sfd user title); [lia|by rewrite <- Ec|done|by rewrite Es5, Es4, Es3|by rewrite (h_files _ _ _ Hh5); unfold F; rewrite (h_files _ _ _ Hh2)| |done].
    eapply queued_live; [exact Hq3|by rewrite Es5, Es4|]. intros p Hp. rewrite El5.
    assert (p ∈ bs ++ jp :: held /\ p <> jp) as [Hp' Hpj].
    { split; [set_solver|]. intros ->. pose proof (qu_disjoint _ _ _ _ Hq) as Hd. rewrite <- Permutation_middle in Hd.
      by apply NoDup_cons in Hd as [Hd _]. }
    rewrite lookup_delete_ne by done. by apply Hbs.
Qed.

Lemma runs_then_ret {P : Prop} (m : prog pd unit) (Q : unit -> pd -> Prop) s : runs P (do! m in ret tt) Q s -> runs P m Q s.
Proof. unfold runs, bind, ret. by destruct (m s) as [[] s'| | |]. Qed.

(** A job whose file could not be opened. *)
Lemma print_cancelled n e fuel jp id r content bs l held (Q : unit -> pd -> Prop) s s1 fds :
  answer n = Fails e -> (ticks s <= n < ticks s1)%nat -> queued s bs l (jp :: held) ->
  match fds with None => True | Some fd => live (pr s) !! fd = None end ->
  holding (match fds with None => live (pr s) | Some fd => <[fd := RFd]> (live (pr s)) end) s s1 ->
  (forall s', untouched s s' -> jobfile s' = jobfile s -> (ticks s <= ticks s')%nat -> job_done fuel jp id r content bs l held s s' -> Q tt s') ->
  runs broken (do! free_job jp in match fds with None => ret tt | Some fd => close fd end) Q s1.
Proof.
  intros Hn Hr Hq Hfd Hh HQ. run. set (L := match fds with None => live (pr s) | Some fd => <[fd := RFd]> (live (pr s)) end) in *.
  assert (forall p, p ∈ bs ++ jp :: held -> L !! p = Some RBlk) as HL.
  { intros p Hp. pose proof (qu_live _ _ _ _ Hq p Hp) as Hlp. unfold L. destruct fds as [fd|]; [|done].
    rewrite lookup_insert_ne; [done|]. intros ->. congruence. }
  assert (NoDup (jp :: bs ++ held)) as [Hjn _]%NoDup_cons by (rewrite Permutation_middle; apply Hq).
  apply (runs_free jp bs l held L _ s); [done..|]. set (X := MkQueue _ _ _). intros s2 Es2 Hq2.
  assert (holding (delete jp L) (set_q X s) s2) as Hh2 by (rewrite Es2; by apply holding_set_q, holding_drop).
  assert (ticks s2 = ticks s1) as L2 by (by rewrite Es2).
  assert (forall s3, holding (delete jp (live (pr s))) (set_q X s) s3 -> ticks s3 = ticks s2 -> Q tt s3) as Hend.
  { intros s3 Hh3 L3. apply HQ; [by eapply untouched_base; [eapply holding_untouched, Hh3|..]|by rewrite (h_jobfile _ _ _ Hh3)|lia|].
    apply (Cancelled _ _ _ _ _ _ _ _ _ _ n e); [lia|done|by rewrite (h_files _ _ _ Hh3)| |by rewrite (h_live _ _ _ Hh3)].
    eapply queued_live; [exact Hq2|by rewrite (h_q _ _ _ Hh3), (h_q _ _ _ Hh2)|]. intros p Hp. rewrite (h_live _ _ _ Hh3).
    rewrite lookup_delete_ne; [apply (qu_live _ _ _ _ Hq); set_solver|]. by intros <-. }
  destruct fds as [fd|]; [|run; by apply Hend].
  assert (jp <> fd) as Hne by (intros ->; rewrite (qu_live _ _ _ _ Hq fd) in Hfd by set_solver; done).
  eapply runs_close; [exact Hh2|unfold L; by rewrite lookup_delete_ne, lookup_insert_eq|]. intros s3 Es3 Hh3. apply Hend; [|by rewrite Es3].
  unfold L in Hh3. by rewrite delete_delete, delete_insert_id in Hh3.
Qed.

Lemma print_job_spec fuel jp id r content bs l held (Q : unit -> pd -> Prop) s :
  proc_wf (pr s) -> queued s bs l (jp :: held) -> load (q s) jp = Some (id, r) ->
  files s !! data_path id = Some content -> (0 < fuel)%nat -> Z.of_nat (length content) < 2 ^ 62 ->
  (forall s', untouched s s' -> jobfile s' = jobfile s -> (ticks s <= ticks s')%nat -> job_done fuel jp id r content bs l held s s' -> Q tt s') ->
  runs_unless (exists t, (ticks s <= t)%nat /\ mishap fuel (dial t) (printer_name s) r) broken (print_job fuel jp id r) Q s.
Proof.
  intros Hw Hq Hld Hf Hfuel Hlen HQ. unfold print_job. run_first.
  eapply runs_open_rd; [by apply holding_start|exact Hf| |].
  - intros e s1 He E1 Hh. apply unless_runs. run. apply runs_log_line.
    apply runs_then_ret. eapply (print_cancelled (ticks s) e fuel jp id r content bs l held Q s _ None); [done|rewrite E1; cbn; lia|done..| |exact HQ].
    eapply holding_kept; [exact Hh|by apply kept_log].
  - intros fd s1 Hfd Hh. run_first. apply runs_ask. intros o Ho. set (s2 := tick s1). pose proof (h_ticks _ _ _ Hh) as L1.
    assert (holding (<[fd := RFd]> (live (pr s))) s s2) as Hh2 by (by eapply holding_kept).
    assert (runs_unless (exists t, (ticks s <= t)%nat /\ mishap fuel (dial t) (printer_name s) r) broken (let! c := connect_retry in
      match c with
      | inr e =>
          do! log_line (ErrErrno ("job " +:+ fmt_lld id +:+ " deferred - can't contact printer")%string e) in defer fd None jp
      | inl sockfd =>
          let! fin := send_job fuel sockfd content id r in
          if fin : bool then
            do! unlink (data_path id) in do! unlink (req_path id) in do! free_job jp in do! close fd in close sockfd
          else defer fd (Some sockfd) jp
      end) Q s2) as Hgo.
    { run_first. apply runs_connect; [apply Hh2| |].
      - intros s3 sfd s4 Hk -> Es4. assert (holding (<[fd := RFd]> (live (pr s))) s s3) as Hh3 by (by eapply holding_kept).
        destruct (holding_take RFd _ s s3 Hh3) as [Hn Hh4]. pose proof (h_ticks _ _ _ Hh3) as L3.
        eapply unless_mono; [|intros Hm; exists (ticks s3); split; [exact L3|exact Hm]|by intros a s'; exact (fun _ H => H)].
        eapply (print_sent fd (next_id (pr s3)) _ (ticks s3)); try done.
        + rewrite Es4. by destruct Hh4; split.
        + by rewrite Es4; cbn; rewrite lookup_insert_eq.
        + by rewrite Es4; cbn; rewrite lookup_insert_eq.
      - intros e s3 Hk [|Htr]; [done|]. apply unless_runs. run. apply runs_log_line. eapply (runs_defer fuel fd None); [done..| |done| |exact HQ].
        + eapply holding_kept; [exact Hh2|by apply kept_log].
        + left. eapply trouble_mono; [exact Htr|cbn; lia|done]. }
    destruct o as [|n|e]; [exact Hgo..|]. apply unless_runs. run. apply runs_log_line.
    eapply (print_cancelled (ticks s1) e fuel jp id r content bs l held Q s _ (Some fd)); [done|unfold s2; cbn; lia|done..| |exact HQ].
    eapply holding_kept; [exact Hh2|by apply kept_log].
Qed.

(** ** A round of the printer's thread *)

(** The number that is written to the job file, whole or in part. *)
Definition recorded (s s' : pd) : Prop :=
  exists k, jobfile s' = blit (jobfile s) 0 (take k (bytes (fmt_lld (nextjob s)))).

Lemma runs_update_jobno (Q : unit -> pd -> Prop) s :
  (forall k s1, kept s s1 -> Q tt (set_jobfile (blit (jobfile s) 0 (take k (bytes (fmt_lld (nextjob s))))) s1)) ->
  runs broken update_jobno Q s.
Proof.
  intros HQ. unfold update_jobno. run. apply runs_ask. intros o Ho. run.
  assert (runs broken (require (match o with Fails _ => false | _ => true end) "can't seek in job file")
    (fun _ s' => s' = tick s) (tick s)) as Hreq.
  { by destruct o as [|n|e]; cbn; try done; exists (ticks s), e. }
  eapply runs_mono; [exact Hreq|]. intros [] s1 ->. run. run. run. apply runs_ask. intros o2 Ho2.
  assert (kept s (tick (tick s))) as Hk by (by split).
  destruct o2 as [|n|e].
  - run. by apply (HQ (length (bytes (fmt_lld (nextjob s)))) _ Hk).
  - run. by apply (HQ _ _ Hk).
  - by exists (ticks (tick s)), e.
Qed.

Lemma job_done_base fuel jp id r content bs l held s s0 s' :
  job_done fuel jp id r content bs l held s0 s' -> printer_name s0 = printer_name s -> files s0 = files s ->
  live (pr s0) = live (pr s) -> (ticks s <= ticks s0)%nat -> job_done fuel jp id r content bs l held s s'.
Proof.
  intros Hj En Ef El L. destruct Hj as [t fd user title H0 H1 H2 H3 H4 H5 H6|H0 H1 H2 H3|n e H0 H1 H2 H3 H4]; rewrite ?En, ?Ef, ?El in *.
  - eapply (Printed _ _ _ _ _ _ _ _ _ _ t fd); [lia|done..].
  - apply Deferred; [|done..]. by apply (put_off_mono fuel id s s0 s' s').
  - eapply (Cancelled _ _ _ _ _ _ _ _ _ _ n e); [lia|done..].
Qed.

(** Nothing is lost between the queue, the printer and the spool. *)
Lemma printer_round_spec fuel jp id r content bs l held (Q : bool -> pd -> Prop) s :
  proc_wf (pr s) -> queued s (jp :: bs) ((id, r) :: l) held -> reread s = false ->
  files s !! data_path id = Some content -> (0 < fuel)%nat -> Z.of_nat (length content) < 2 ^ 62 ->
  (forall s', untouched s s' -> recorded s s' -> (ticks s <= ticks s')%nat -> job_done fuel jp id r content bs l held s s' -> Q true s') ->
  runs_unless (exists t, (ticks s <= t)%nat /\ mishap fuel (dial t) (printer_name s) r) broken (printer_round fuel) Q s.
Proof.
  intros Hw Hq Hre Hf Hfuel Hlen HQ. unfold printer_round, pick_job. run_first. run. run.
  rewrite (d_head _ _ _ _ _ _ (qu_linked _ _ _ _ Hq)). cbn [head]. run.
  apply (remove_job_spec jp (id, r) bs l held); [done|]. intros x' Hq1 Hx'. run. run_first. run. run_first.
  unfold get_job. cbn [q set_q]. unfold load in Hx'. destruct (jobs x' !! jp) as [j|] eqn:Ej; [|done]. cbn in Hx'. simplify_eq.
  cbn [lift]. run. run_first. apply runs_log_line. set (s2 := set_pr _ _).
  run_first. apply runs_update_jobno. intros k s3 Hk3. set (s4 := set_jobfile _ s3).
  assert (kept (set_q x' s) s3) as Hk by (etrans; [|exact Hk3]; by apply kept_log).
  assert (ticks s <= ticks s4)%nat as L4 by exact (k_ticks _ _ Hk).
  run_first. unfold check_config. run. run. change (reread s4) with (reread s3). rewrite (k_reread _ _ Hk). cbn [reread set_q]. rewrite Hre. run.
  assert (printer_name s4 = printer_name s) as En4 by exact (k_name _ _ Hk).
  apply unless_bind. eapply unless_mono.
  - apply (print_job_spec fuel jp (jobid j) (req j) content bs l held (fun _ s' => untouched s4 s' /\ jobfile s' = jobfile s4 /\
      (ticks s4 <= ticks s')%nat /\ job_done fuel jp (jobid j) (req j) content bs l held s4 s')).
    + by apply (kept_wf _ _ Hk).
    + eapply queued_same; [exact Hq1|by apply (k_q _ _ Hk)|by apply (k_pr _ _ Hk)].
    + change (q s4) with (q s3). rewrite (k_q _ _ Hk). unfold load. cbn [q set_q]. by rewrite Ej.
    + change (files s4) with (files s3). by rewrite (k_files _ _ Hk).
    + done.
    + done.
    + by intros s'.
  - intros (t & Ht & Hm). exists t. rewrite En4 in Hm. split; [lia|done].
  - intros [] s5 _ (Hu & Ejf & L5 & Hd). apply unless_runs. run. apply HQ.
    + eapply untouched_base; [exact Hu|by apply Hk..].
    + exists k. rewrite Ejf. unfold s4. cbn [jobfile set_jobfile]. done.
    + lia.
    + eapply job_done_base; [exact Hd|exact En4|apply Hk|apply (k_pr _ _ Hk)|done].
Qed.

Lemma printer_round_waits fuel l held (Q : bool -> pd -> Prop) s :
  queued s [] l held -> (forall s', kept s s' -> Q false s') -> runs broken (printer_round fuel) Q s.
Proof.
  intros Hq HQ. unfold printer_round, pick_job. run. run. run. rewrite (d_head _ _ _ _ _ _ (qu_linked _ _ _ _ Hq)). cbn [head]. run.
  run. apply runs_log_line. run. apply HQ. by apply kept_log.
Qed.

End Job.

(** A printer that takes every job with the number 1, and a queue with that job. *)
Definition obliging : World := {|
  answer := fun _ => Fine;
  dial := fun _ => [Data (render (ok_reply "200" 1))];
  getaddrinfo := fun _ _ => None;
  config := fun _ => None;
  strerror := fun _ => "error";
  garbage := fun _ => 0
|}.

Definition one_job (r : printreq) : pd :=
  set_q (MkQueue {[0%nat := MkJob None None 1 r]} (Some 0%nat) (Some 0%nat))
    (set_files {[data_path 1 := bytes "abc"; req_path 1 := store_req r]} (set_nextjob 2 (set_pr (MkProc 0 {[0%nat := RBlk]} 1 []) pd0))).

Lemma obliging_polite t : polite 200 (@dial obliging t).
Proof. left. exists (ok_reply "200" 1), []. split; [reflexivity|]. split; [by vm_compute|vm_compute; lia]. Qed.

(** Nothing can go wrong there. *)
Lemma no_mishap t name user title : fits name (request "ann" "a.txt") user title -> ~ mishap 200 (@dial obliging t) name (request "ann" "a.txt").
Proof. intros Hf [Hp|Hn]; [by apply Hp, obliging_polite|]. apply Hn. by exists user, title. Qed.

Lemma ann_fits : fits "printer" (request "ann" "a.txt") (bytes "ann") (bytes "a.txt").
Proof. split; by vm_compute. Qed.

