(* ===== verification/PrintRestart.v ===== *)
(** * The spooler after a restart

    What a daemon that starts finds: the number of the next job in the job file, and the jobs in
    the folder of requests. *)

From S2P Require Import Prelude Process CLib Prog DbFile PrintState PrintQueue PrintStatus PrintWire PrintDaemon PrintSpool PrintJob.
From Stdlib Require Import Ascii.
Local Open Scope Z_scope.
Local Open Scope prog_scope.

(** ** Numbers in texts *)

Lemma scan_digits_then base s acc v rest :
  scan_digits base acc s = (v, EmptyString) -> has_digit base rest = false ->
  scan_digits base acc (s +:+ rest) = (v, rest).
Proof.
  intros Hs Hr. revert acc Hs. induction s as [|c s IH]; intros acc; cbn [scan_digits].
  - intros [= <-]. change (scan_digits base acc rest = (acc, rest)). destruct rest as [|c rest]; [done|].
    cbn in Hr |- *. unfold is_digit in Hr. destruct (digit_val c); [|done]. by rewrite Hr.
  - change (String c s +:+ rest) with (String c (s +:+ rest)). cbn [scan_digits].
    destruct (digit_val c) as [d|]; [|done]. destruct (d <? base); [|done]. apply IH.
Qed.

Lemma atol_fmt_then z rest : 0 <= z <= LLONG_MAX -> has_digit 10 rest = false -> atol (fmt_lld z +:+ rest) = z.
Proof.
  intros Hz Hr. unfold LLONG_MAX in *. unfold fmt_lld. rewrite (proj2 (Z.ltb_ge z 0)) by lia.
  pose proof (scan_utoa 10 z ltac:(lia) ltac:(lia)) as Hs. apply (scan_digits_then _ _ _ _ rest) in Hs; [|done].
  destruct (utoa_shape 10 z ltac:(lia)) as (d & t & Hd & E). rewrite E in *.
  destruct (digit_char_not_blank d ltac:(lia)) as (H0 & H1 & H2).
  unfold atol, strtoll. change (String (digit_char d) t +:+ rest) with (String (digit_char d) (t +:+ rest)) in *.
  cbn [skip_space]. rewrite H0. cbn [take_sign]. rewrite H1, H2.
  rewrite resolve_base_plain by lia. cbn [has_digit]. unfold is_digit. rewrite digit_val_char by lia.
  rewrite (proj2 (Z.ltb_lt d 10)) by lia.
  rewrite Hs. unfold LLONG_MAX, LLONG_MIN. rewrite (proj2 (Z.ltb_ge _ z)) by lia. by rewrite (proj2 (Z.ltb_ge z _)) by lia.
Qed.

Lemma fmt_lld_inj a b : LLONG_MIN <= a <= LLONG_MAX -> LLONG_MIN <= b <= LLONG_MAX -> fmt_lld a = fmt_lld b -> a = b.
Proof. intros Ha Hb E. by rewrite <- (atol_fmt a), <- (atol_fmt b), E. Qed.

Lemma text_of_app a b : text_of (a ++ b) = text_of a +:+ text_of b.
Proof. induction a as [|x a IH]; [done|]. cbn. by rewrite IH. Qed.

Lemma text_of_bytes t : text_of (bytes t) = t.
Proof.
  induction t as [|c t IH]; [done|]. cbn. unfold bytes in IH. rewrite IH. f_equal.
  unfold chr, code. rewrite N2Z.id. apply ascii_N_embedding.
Qed.

Lemma digits_bytes z : 0 <= z -> Forall (fun x => 48 <= x <= 57) (bytes (fmt_lld z)).
Proof.
  intros Hz. apply Forall_fmap, Forall_forall. intros c Hc. by eapply chars_fmt_lld.
Qed.

Lemma fmt_lld_mono a b : 0 <= a <= b -> strlen (fmt_lld a) <= strlen (fmt_lld b).
Proof.
  intros Hab. unfold fmt_lld. rewrite !(proj2 (Z.ltb_ge _ _)) by lia.
  destruct (utoa_length 10 b) as (k & -> & Hk & Hup & _); [lia..|]. apply utoa_length_le; lia.
Qed.

(** ** The job number *)

Definition jobno_path : list Z := bytes (SPOOLDIR +:+ "/" +:+ JOBFILE).

Lemma no_digit_left k : (k <= 24)%nat -> has_digit 10 (text_of (drop k jobno_path)) = false.
Proof.
  intros Hk. assert (forallb (fun k => negb (has_digit 10 (text_of (drop k jobno_path)))) (seq 0 25) = true) as Hall by reflexivity.
  rewrite forallb_forall in Hall. apply negb_true_iff, Hall, in_seq. lia.
Qed.

(** A number in the buffer of the pathname, whose rest stands behind it. *)
Lemma number_in_buffer `{World} n : 0 < n <= INT_MAX ->
  exists t, until_nul (blit name_buffer 0 (bytes (fmt_lld n))) = Ok t /\ s32 (atol (text_of t)) = n.
Proof.
  intros Hn. set (d := bytes (fmt_lld n)). assert (length d <= 24)%nat as Hd.
  { pose proof (strlen_fmt_lld n 10). unfold d. apply Nat2Z.inj_le. rewrite length_bytes. unfold INT_MAX in Hn. lia. }
  assert (blit name_buffer 0 d = (d ++ drop (length d) jobno_path) ++ 0 :: (garbage <$> seq 25 39)) as ->.
  { unfold blit. change name_buffer with (jobno_path ++ 0 :: (garbage <$> seq 25 39)).
    rewrite take_0, <- app_assoc. by rewrite drop_app_le. }
  rewrite until_nul_app.
  - eexists. split; [done|]. rewrite text_of_app. unfold d at 1. rewrite text_of_bytes.
    rewrite atol_fmt_then; [apply s32_small; unfold INT_MAX, INT_MIN in *; lia|unfold INT_MAX, LLONG_MAX in *; lia|by apply no_digit_left].
  - apply Forall_app. split.
    + eapply Forall_impl; [apply digits_bytes; lia|]. cbn. lia.
    + apply Forall_drop. by repeat (apply Forall_cons; split; [done|]).
Qed.

Section Number.
Context `{World}.

(** The number that the printer's thread writes to the job file is the next number after a
    restart, unless calls fail, write or read less than they were asked, or the file held a longer
    number. *)
Theorem number_survives n s :
  nextjob s = n -> 0 < n <= INT_MAX -> (length (jobfile s) <= length (bytes (fmt_lld n)))%nat ->
  (forall t k, answer t <> Short k) ->
  runs True (do! update_jobno in do! modify (set_nextjob (garbage 0)) in init_request) (fun _ s' => nextjob s' = n) s.
Proof.
  intros <- Hn Hlen Hfull. set (n := nextjob s) in *. assert (blit (jobfile s) 0 (bytes (fmt_lld n)) = bytes (fmt_lld n)) as Hblit.
  { unfold blit. rewrite take_0, drop_ge by done. by rewrite app_nil_r. }
  assert (0 < length (bytes (fmt_lld n)) <= 10)%nat as Hd.
  { pose proof (strlen_fmt_lld n 10). pose proof (strlen_fmt_lld_pos n). pose proof (length_bytes (fmt_lld n)). unfold INT_MAX in Hn. lia. }
  assert (forall (m : string) (Q : unit -> pd -> Prop) s1 o, Q tt s1 ->
    runs True (require (match o with Fails _ => false | _ => true end) m) Q s1) as Hreq by (by intros m Q s1 [|k|e]).
  unfold update_jobno. run. run. apply runs_ask. intros o _. run. apply Hreq. run. run. run. apply runs_ask. intros o2 Ho2.
  destruct o2 as [|k|e]; [|by destruct (Hfull (ticks (tick s)) k)|done]. run. run. run.
  unfold init_request. run. apply runs_ask. intros o3 _. run. apply Hreq. run. apply runs_take. run. apply runs_ask. intros o4 _.
  run. apply Hreq. run. run. run. unfold read_file. run. apply runs_ask. intros o5 Ho5.
  destruct o5 as [|k|e]; [|by apply Hfull in Ho5|by run].
  run. match goal with |- context [take _ (drop 0 ?x)] => replace (take (Z.to_nat FILENMSZ) (drop 0 x)) with (bytes (fmt_lld n)) end.
  2:{ cbn [jobfile nextjob set_nextjob set_jobfile set_pr tick]. fold n. rewrite (take_ge (bytes (fmt_lld n))), Hblit, drop_0 by lia.
      rewrite take_ge; [done|]. change (Z.to_nat FILENMSZ) with 64%nat. lia. }
  destruct (number_in_buffer n Hn) as (t & Et & En). destruct (bytes (fmt_lld n)) as [|b bs] eqn:Eb; [cbn in Hd; lia|]. rewrite <- Eb in *.
  run. rewrite Et. cbn [lift]. run. by run.
Qed.
End Number.

(** ** The folder of requests *)

(** The control file and the data file of every job of the list. *)
Definition spooled (F : gmap string (list Z)) (l : list (Z * printreq)) : Prop :=
  Forall (fun x => F !! req_path (fst x) = Some (store_req (snd x)) /\ is_Some (F !! data_path (fst x)) /\
                   wf_req (snd x) /\ 0 < fst x <= INT_MAX) l.

(** What [readdir] gives for a folder with the control files of [l]. *)
Definition dir_of (l : list (Z * printreq)) : list string := "." :: ".." :: ((fun x => fmt_lld (fst x)) <$> l).

(** The name of a control file is a number: it is not one of the two folders, its pathname fits and
    the number is read back. *)
Lemma entry_name id : 0 < id <= INT_MAX ->
  streq (fmt_lld id) "." || streq (fmt_lld id) ".." = false /\
  (strlen (req_path id) + 1 <=? FILENMSZ) = true /\ s32 (atol (fmt_lld id)) = id.
Proof.
  intros Hid. unfold INT_MAX in Hid. split; [|split].
  - assert (forall t, fmt_lld id = String "." t -> False) as Hdot.
    { intros t E. pose proof (chars_fmt_lld id "."%char ltac:(lia)) as Hc. rewrite E in Hc.
      specialize (Hc (list_elem_of_here _ _)). change (code ".") with 46 in Hc. lia. }
    unfold streq. by rewrite !(proj2 (String.eqb_neq _ _)) by (intros E; by eapply Hdot).
  - apply Z.leb_le. unfold req_path, spool_path. rewrite !strlen_app. pose proof (strlen_fmt_lld id 10).
    change (strlen SPOOLDIR) with 18. change (strlen "/") with 1. change (strlen REQDIR) with 4. unfold FILENMSZ. lia.
  - rewrite atol_fmt by (unfold LLONG_MIN, LLONG_MAX; lia). apply s32_small. unfold INT_MIN, INT_MAX. lia.
Qed.

Section Restart.
Context `{World} (Hfine : forall t, answer t = Fine).

Lemma runs_ask_fine {P : Prop} (Q : outcome -> pd -> Prop) s : Q Fine (tick s) -> runs P ask Q s.
Proof using Hfine. intros HQ. apply runs_ask. intros r Hr. rewrite Hfine in Hr. by subst. Qed.

(** What a daemon does not change while it fills its queue; the files [fds] stay open. *)
Record refilled (fds : list nat) (s s' : pd) : Prop := MkRefilled {
  rf_files : files s' = files s;
  rf_nextjob : nextjob s' = nextjob s;
  rf_jobfile : jobfile s' = jobfile s;
  rf_w : w s' = w s;
  rf_name : printer_name s' = printer_name s;
  rf_reread : reread s' = reread s;
  rf_live : live (pr s) ⊆ live (pr s');
  rf_fds : NoDup fds /\ Forall (fun fd => live (pr s) !! fd = None /\ live (pr s') !! fd = Some RFd) fds;
  rf_wf : proc_wf (pr s')
}.

Lemma refilled_trans a b s s1 s2 : refilled a s s1 -> refilled b s1 s2 -> refilled (a ++ b) s s2.
Proof.
  intros [E1 E2 E3 E4 E5 E6 Hl1 [Hn1 Hf1] Hw1] [G1 G2 G3 G4 G5 G6 Hl2 [Hn2 Hf2] Hw2].
  rewrite Forall_forall in Hf1, Hf2. split; try congruence; [by etrans| |done]. split.
  - apply NoDup_app. split; [done|]. split; [|done]. intros fd Ha Hb. destruct (Hf1 _ Ha), (Hf2 _ Hb). congruence.
  - apply Forall_app. rewrite !Forall_forall. split; intros fd Hfd.
    + destruct (Hf1 _ Hfd). split; [done|]. by eapply lookup_weaken.
    + destruct (Hf2 _ Hfd). split; [|done]. by eapply lookup_weaken_None.
Qed.

Lemma requeue_entry_spec jid r bs l held (Q : unit -> pd -> Prop) s :
  proc_wf (pr s) -> queued s bs l held -> files s !! req_path jid = Some (store_req r) -> wf_req r -> 0 < jid <= INT_MAX ->
  (forall p fd s', queued s' (bs ++ [p]) (l ++ [(jid, r)]) held -> refilled [fd] s s' -> Q tt s') ->
  runs broken (requeue_entry (fmt_lld jid)) Q s.
Proof using Hfine.
  intros Hw Hq Hf Hr Hid HQ. destruct (entry_name jid Hid) as (Hdot & Hlen & Hnum). unfold requeue_entry. rewrite Hdot.
  fold (req_path jid). rewrite Hlen. run. run. unfold open_rd. run. run. apply runs_ask_fine. run. run.
  change (files (tick s)) with (files s). rewrite Hf. run. apply runs_take. run. set (s1 := set_pr _ (tick s)). set (fd := next_id _).
  run. unfold read_file. run. apply runs_ask_fine. run.
  rewrite drop_0, take_ge, length_store_req, Nat.eqb_refl, Hnum, load_store_req by (rewrite ?length_store_req; done).
  run. apply runs_log_line. assert (live (pr s) !! fd = None) as Hfd by (by apply Hw).
  set (s2 := set_pr _ (tick s1)).
  assert (queued s2 bs l held) as Hq2 by (by eapply (queued_with fd RFd s)).
  assert (proc_wf (pr s2)) as Hw2 by (by eapply (kept_wf s1); [split; try done; apply keeps_emit|apply proc_wf_acquire]).
  apply (add_job_spec r jid bs l held); [done|done|].
  intros x' s3 Hq3. apply (HQ (next_id (pr s2)) fd); [exact Hq3|]. assert (live (pr s2) !! next_id (pr s2) = None) as Hn by (by apply Hw2).
  assert (live (pr s3) = <[next_id (pr s2) := RBlk]> (<[fd := RFd]> (live (pr s)))) as El by reflexivity.
  split; try reflexivity.
  - rewrite El. etrans; [by eapply (insert_subseteq _ fd RFd)|by apply insert_subseteq].
  - split; [apply NoDup_singleton|]. apply Forall_cons. split; [|by apply Forall_nil]. split; [done|]. rewrite El.
    rewrite lookup_insert_ne; [by rewrite lookup_insert_eq|]. intros E.
    change (live (pr s2)) with (<[fd := RFd]> (live (pr s))) in Hn. by rewrite E, lookup_insert_eq in Hn.
  - by apply (proc_wf_acquire RBlk (pr s2)).
Qed.

Lemma requeue_all_spec l1 bs l held fds (Q : unit -> pd -> Prop) s0 s :
  refilled fds s0 s -> queued s bs l held -> spooled (files s0) l1 ->
  (forall bs' fds' s', length fds' = (length fds + length l1)%nat -> queued s' (bs ++ bs') (l ++ l1) held -> refilled fds' s0 s' -> Q tt s') ->
  runs broken (requeue_all ((fun x => fmt_lld (fst x)) <$> l1)) Q s.
Proof using Hfine.
  revert bs l fds s Q. induction l1 as [|[jid r] l1 IH]; intros bs l fds s Q Hr Hq Hsp HQ; cbn [fmap list_fmap requeue_all].
  - run. apply (HQ [] fds); [cbn; lia|by rewrite !app_nil_r|done].
  - apply Forall_cons in Hsp as [(Hf & _ & Hwf & Hid) Hsp]. cbn [fst snd] in *.
    run. apply (requeue_entry_spec jid r bs l held); [apply Hr|done|by rewrite (rf_files _ _ _ Hr)|done|done|].
    intros p fd s1 Hq1 Hr1. apply (IH (bs ++ [p]) (l ++ [(jid, r)]) (fds ++ [fd])); [by eapply refilled_trans|done|done|].
    intros bs' fds' s2 Hlen Hq2 Hr2. rewrite <- !app_assoc in Hq2. apply (HQ (p :: bs') fds'); [|exact Hq2|exact Hr2].
    rewrite Hlen, length_app. cbn [length]. lia.
Qed.

Lemma skip_dots ents (Q : unit -> pd -> Prop) s :
  runs broken (requeue_all ents) Q s -> runs broken (requeue_all ("." :: ".." :: ents)) Q s.
Proof. intros HQ. change (runs broken (do! ret tt in do! ret tt in requeue_all ents) Q s). by repeat run. Qed.

(** A daemon that starts when every call succeeds finds all jobs again whose two files are in the
    spool: they are queued with their requests in the order in which the folder is read, and no
    file is touched.  But for every job a descriptor is left open. *)
Theorem restart_requeues l s :
  proc_wf (pr s) -> queued s [] [] [] -> spooled (files s) l ->
  runs False (build_qonstart (Some (dir_of l))) (fun _ s' =>
    exists bs fds, queued s' bs l [] /\ refilled fds s s' /\ length fds = length l) s.
Proof using Hfine.
  intros Hw Hq Hsp. eapply (runs_excuse broken).
  { intros (n & e & He). by rewrite Hfine in He. }
  unfold build_qonstart, dir_of. run. apply runs_take. run. set (s1 := set_pr _ s).
  assert (live (pr s) !! next_id (pr s) = None) as Hd by (by apply Hw).
  assert (refilled [] s1 s1) as Hr1 by (split; try done; [split; [apply NoDup_nil_2|by apply Forall_nil]|by apply proc_wf_acquire]).
  apply skip_dots, (requeue_all_spec l [] [] [] [] _ s1); [done|by eapply (queued_with (next_id (pr s)) RDir s)|exact Hsp|].
  intros bs fds s2 Hlen Hq2 Hr2.
  assert (live (pr s1) = <[next_id (pr s) := RDir]> (live (pr s))) as El1 by reflexivity.
  assert (live (pr s2) !! next_id (pr s) = Some RDir) as Hdir.
  { eapply lookup_weaken; [|apply Hr2]. by rewrite El1, lookup_insert_eq. }
  apply runs_giving_back with (k := RDir); [done|]. exists bs, fds. split; [|split; [|exact Hlen]].
  - eapply queued_without; [exact Hq2| |reflexivity|reflexivity]. intros Hin. by rewrite (qu_live _ _ _ _ Hq2 _ Hin) in Hdir.
  - destruct Hr2 as [????? ? Hl [Hn Hf] Hw2]. split; try done; cbn [pr set_pr drop_handle live].
    + rewrite El1 in Hl. apply map_subseteq_spec. intros i k Hi. rewrite lookup_delete_ne by (intros <-; congruence).
      eapply lookup_weaken; [|exact Hl]. rewrite lookup_insert_ne; [done|]. intros <-. congruence.
    + split; [done|]. eapply Forall_impl; [exact Hf|]. intros fd [Hf1 Hf2]. rewrite El1 in Hf1.
      apply lookup_insert_None in Hf1 as [Hf1 Hne]. split; [done|]. by rewrite lookup_delete_ne.
    + by apply proc_wf_drop.
Qed.
End Restart.

(** A daemon that has given out nine numbers and wrote the eighth. *)
Lemma number_survives_witness :
  @runs pd unit True (do! @update_jobno calm in do! modify (set_nextjob (@garbage calm 0)) in @init_request calm)
    (fun _ s' => nextjob s' = 10) (set_nextjob 10 (set_jobfile (bytes "8") pd0)).
Proof.
  apply (@number_survives calm 10 (set_nextjob 10 (set_jobfile (bytes "8") pd0)));
    [reflexivity|unfold INT_MAX; lia|vm_compute; lia|done].
Defined.

(** Two jobs in the spool. *)
Definition two_spooled : pd :=
  let a := request "ann" "a.txt" in let b := request "bob" "b.txt" in
  set_files {[data_path 7 := bytes "a"; req_path 7 := store_req a; data_path 9 := bytes "b"; req_path 9 := store_req b]} pd0.

Lemma restart_requeues_witness :
  @runs pd unit False (@build_qonstart calm (Some (dir_of [(9, request "bob" "b.txt"); (7, request "ann" "a.txt")]))) (fun _ s' =>
    exists bs fds, queued s' bs [(9, request "bob" "b.txt"); (7, request "ann" "a.txt")] [] /\ refilled fds two_spooled s' /\
      length fds = 2%nat) two_spooled.
Proof.
  apply (@restart_requeues calm); [done| |by apply queued_empty|].
  - intros i Hi. reflexivity.
  - repeat (apply Forall_cons; split); [..|by apply Forall_nil]; (split; [reflexivity|]; split; [by eexists|]; split; [apply wf_request|]; cbn; unfold INT_MAX; lia).
Defined.
