(* ===== verification/PrintFaults.v ===== *)
(** * What goes wrong in the spooler

    Two clients at the same time, and a daemon that dies while jobs wait. *)

From S2P Require Import Prelude Process CLib Prog DbFile PrintState PrintQueue PrintStatus PrintWire PrintDaemon PrintSpool PrintJob PrintRestart.
From Stdlib Require Import Ascii.
Local Open Scope Z_scope.
Local Open Scope prog_scope.

Lemma fault_after {St A B} (Q : A -> St -> Prop) (m : prog St A) (k : A -> prog St B) s u :
  runs False m Q s -> (forall a s', Q a s' -> k a s' = Fault u) -> bind m k s = Fault u.
Proof. unfold runs, bind. destruct (m s) as [a s'| | |]; try done. auto. Qed.

(** ** Two workers *)

Section Workers.
Context `{World} (Hfine : forall t, answer t = Fine).

Lemma find_worker_end fuel id c : find_worker fuel id None c = Ok None.
Proof. by destruct fuel. Qed.

(** Two threads that entered their records one after the other: the list still starts at the first. *)
Lemma runs_add_two {P : Prop} id1 id2 fd1 fd2 (Q : bool -> pd -> Prop) s :
  proc_wf (pr s) -> w s = MkCrew ∅ None ->
  (let a := next_id (pr s) in let b := S a in forall s',
     w s' = MkCrew (<[a := MkWorker None (Some b) id1 fd1]> (<[b := MkWorker (Some a) None id2 fd2]> ∅)) (Some a) ->
     live (pr s') = <[b := RBlk]> (<[a := RBlk]> (live (pr s))) -> Q true s') ->
  runs P (do! add_worker id1 fd1 in add_worker id2 fd2) Q s.
Proof using Hfine.
  intros Hw Ew HQ. run. apply runs_add_first; [done|intros e s' He; by rewrite Hfine in He|].
  intros a s1 ->. unfold add_worker. run. apply runs_ask_fine; [done|]. cbv iota. run. apply runs_take. run. run. run. run.
  set (b := next_id _). change b with (S a). cbn [w set_w set_pr tick threads workers]. unfold link_worker, put_worker. cbn [threads workers].
  rewrite lookup_insert_eq. cbn [rbind threads workers]. rewrite insert_insert_eq.
  rewrite lookup_insert_ne, lookup_singleton_eq by lia. cbn [lift]. run. run. run. run. apply HQ; [|reflexivity].
  cbn [w set_w]. unfold w_set_next, w_set_prev. cbn [w_next w_prev tid sockfd]. f_equal.
  rewrite (insert_insert_ne _ a (S a)) by lia. rewrite insert_singleton_eq. by rewrite insert_insert_ne by lia.
Qed.

(** When a second client comes while the first one is served, its record is not reached from the
    start of the list: at its end its socket is not closed.  And when the first thread ends, the
    list starts at its record that was freed, so that cancelling the workers is an error. *)
Theorem second_worker_lost id1 id2 fd1 fd2 s :
  proc_wf (pr s) -> w s = MkCrew ∅ None -> id1 <> id2 ->
  live (pr s) !! fd1 = Some RFd -> live (pr s) !! fd2 = Some RFd ->
  runs False (do! (do! add_worker id1 fd1 in add_worker id2 fd2) in client_cleanup id2)
    (fun _ s' => live (pr s') !! fd2 = Some RFd) s /\
  (do! (do! (do! add_worker id1 fd1 in add_worker id2 fd2) in client_cleanup id1) in kill_workers) s = Fault OutOfBounds.
Proof using Hfine.
  intros Hw Ew Hid Hf1 Hf2. assert (live (pr s) !! next_id (pr s) = None /\ live (pr s) !! S (next_id (pr s)) = None) as [Ha Hb].
  { split; apply Hw; lia. }
  assert (forall fd, live (pr s) !! fd = Some RFd -> fd <> next_id (pr s) /\ fd <> S (next_id (pr s))) as Hne by (by intros fd Hf; split; intros ->; congruence).
  split.
  - run. apply runs_add_two; [done..|]. cbv zeta. intros s' Ew' El'. unfold client_cleanup. run. run. rewrite Ew'. cbn [workers].
    cbn [find_worker threads]. rewrite lookup_insert_eq. cbn [tid w_next]. rewrite (proj2 (Z.eqb_neq _ _)) by done.
    rewrite find_worker_end. cbn [lift]. run. run. run. rewrite El'.
    destruct (Hne fd2 Hf2). by rewrite !lookup_insert_ne.
  - eapply (fault_after (fun _ s' => exists a, workers (w s') = Some a /\ threads (w s') !! a = None)).
    + run. apply runs_add_two; [done..|]. cbv zeta. intros s' Ew' El'. set (a := next_id (pr s)) in *. unfold client_cleanup. run. run. rewrite Ew'. cbn [workers].
      cbn [find_worker threads]. rewrite lookup_insert_eq. cbn [tid]. rewrite Z.eqb_refl. cbn [lift]. run. run. run.
      unfold unlink_worker. cbn [threads]. rewrite lookup_insert_eq. cbn [w_next w_prev rbind threads]. rewrite lookup_insert_eq.
      cbn [w_prev w_next]. unfold put_worker. cbn [threads workers]. rewrite lookup_insert_ne, lookup_insert_eq by lia. cbn [lift]. run. cbn [threads workers].
      rewrite lookup_insert_ne, lookup_insert_eq by lia. cbn [sockfd]. destruct (Hne fd1 Hf1).
      run. apply runs_giving_back with (k := RFd); [by rewrite El', !lookup_insert_ne|].
      run. apply runs_giving_back with (k := RBlk).
      { cbn [pr set_pr drop_handle live]. rewrite El', lookup_delete_ne, lookup_insert_ne, lookup_insert_eq by lia. done. }
      run. exists a. split; [done|]. cbn [w set_w threads]. apply lookup_delete_eq.
    + intros _ s' (a & E1 & E2). unfold kill_workers, bind, gets. destruct (w s') as [th wk]. cbn [workers threads] in *. subst wk.
      cbn [worker_ids threads]. by rewrite E2.
Qed.
End Workers.

(** ** A daemon that dies

    The number of the next job is written when a job is taken from the queue, not when one is
    accepted. *)

(** What the end of the process leaves. *)
Definition crash (s : pd) : pd :=
  MkPd (MkQueue ∅ None None) 1 (jobfile s) (MkCrew ∅ None) (files s) ∅ ∅ None "printer" false (ticks s) proc0.

(** The numbers of the jobs of the queue. *)
Fixpoint numbers (fuel : nat) (p : option nat) (x : queue) : list Z :=
  match fuel, p with
  | S fuel, Some p => match jobs x !! p with Some j => jobid j :: numbers fuel (next j) x | None => [] end
  | _, _ => []
  end.

Definition asks (r : printreq) (t : string) : conn := [Data (encode_req r ++ bytes t)].

(** One job is tried, another one waits, the daemon is started again, and a third one comes. *)
Definition third_after_restart (a b c : printreq) : prog pd bool :=
  let text r := set_flags (Z.lor (r_flags r) PR_TEXT) r in
  do! @new_client calm 1 (asks a "one") in
  do! @printer_round calm 10 in
  do! @new_client calm 2 (asks b "two") in
  do! modify crash in
  do! @init_request calm in
  do! @build_qonstart calm (Some (dir_of [(1, text a); (2, text b)])) in
  @new_client calm 3 (asks c "three").

Definition shown (o : out pd bool) : option (bool * list Z * option (list Z)) :=
  match o with
  | Ret ok s => Some (ok, numbers 9 (jobhead (q s)) (q s), files s !! data_path 2)
  | _ => None
  end.

(** The third job gets the number of the second one, which was accepted and waits: its data
    replace the data of the second job. *)
Theorem number_used_twice :
  shown (third_after_restart (request "ann" "a") (request "bob" "b") (request "cid" "c") pd0) =
    Some (true, [1; 2; 2], Some (bytes "three")).
Proof. vm_compute. reflexivity. Qed.

Lemma second_worker_lost_witness :
  @runs pd unit False (do! (do! @add_worker calm 1 0 in @add_worker calm 2 1) in client_cleanup 2)
    (fun _ s' => live (pr s') !! 1%nat = Some RFd) (set_pr (MkProc 0 {[0%nat := RFd; 1%nat := RFd]} 2 []) pd0) /\
  (do! (do! (do! @add_worker calm 1 0 in @add_worker calm 2 1) in client_cleanup 1) in kill_workers)
    (set_pr (MkProc 0 {[0%nat := RFd; 1%nat := RFd]} 2 []) pd0) = Fault OutOfBounds.
Proof.
  apply (@second_worker_lost calm); [reflexivity| |reflexivity|done|reflexivity|reflexivity].
  apply proc_wf_second.
Defined.
