(* ===== verification/PrintRun.v ===== *)
(** * The spooler at work

    Clients that come one after the other and rounds of the printer's thread, in any order and with
    any failures of calls: the queue stays in the order in which the jobs were accepted, and the
    files of a job stay in the spool until a printer says that it has the job. *)

From S2P Require Import Prelude Process CLib Prog DbFile PrintState PrintQueue PrintStatus PrintWire PrintDaemon PrintSpool PrintJob PrintRestart.
From Stdlib Require Import Ascii Sorted.
From stdpp Require Import sorting.
Local Open Scope Z_scope.
Local Open Scope prog_scope.

(** ** Pathnames *)

Lemma append_inj a b c : a +:+ b = a +:+ c -> b = c.
Proof. induction a as [|x a IH]; [done|]. intros [= E]. by apply IH. Qed.

Definition job_id (id : Z) : Prop := 0 <= id <= INT_MAX.

Lemma fmt_id_inj a b : job_id a -> job_id b -> fmt_lld a = fmt_lld b -> a = b.
Proof. unfold job_id, INT_MAX. intros Ha Hb. apply fmt_lld_inj; unfold LLONG_MIN, LLONG_MAX; lia. Qed.

Lemma data_path_inj a b : job_id a -> job_id b -> data_path a = data_path b -> a = b.
Proof. intros Ha Hb E. unfold data_path, spool_path in E. by do 4 apply append_inj in E; apply fmt_id_inj. Qed.

Lemma req_path_inj a b : job_id a -> job_id b -> req_path a = req_path b -> a = b.
Proof. intros Ha Hb E. unfold req_path, spool_path in E. by do 4 apply append_inj in E; apply fmt_id_inj. Qed.

Lemma data_req_ne a b : data_path a <> req_path b.
Proof. unfold data_path, req_path, spool_path. intros E. do 2 apply append_inj in E. discriminate E. Qed.

(** ** Events *)

Inductive event :=
| Client (tid : Z) (r : printreq) (data : list Z) (ps : list (list Z)) (rest : conn)
| Turn.

Section Work.
Context `{World} (fuel : nat).

(** The numbers and the data of the accepted jobs. *)
Fixpoint work (evs : list event) : prog pd (list (Z * list Z)) :=
  match evs with
  | [] => ret []
  | Client id r data ps rest :: evs =>
      let! n := gets nextjob in
      let! ok := new_client id (pieces_of ps rest) in
      let! acc := work evs in
      ret (if ok : bool then (n, data) :: acc else acc)
  | Turn :: evs => do! printer_round fuel in work evs
  end.

(** A client that speaks the protocol: a request, then its data, in any pieces. *)
Definition proper (e : event) : Prop :=
  match e with
  | Turn => True
  | Client id r data ps rest =>
      over rest /\ wf_req r /\ Forall nonempty ps /\ concat ps = encode_req r ++ data /\ Z.of_nat (length data) < 2 ^ 62
  end.

(** A job that waits. *)
Definition waiting (s : pd) (x : Z * printreq) : Prop :=
  0 < fst x < nextjob s /\ files s !! req_path (fst x) = Some (store_req (snd x)) /\
  (exists data, files s !! data_path (fst x) = Some data /\ Z.of_nat (length data) < 2 ^ 62).

(** The requests that can be in the queue: those of [l], and those of the clients with other flags. *)
Definition asked_for (l : list (Z * printreq)) (evs : list event) (r : printreq) : Prop :=
  r ∈ l.*2 \/ exists id r0 data ps rest f, Client id r0 data ps rest ∈ evs /\ r = set_flags f r0.

Record steady (s : pd) (l : list (Z * printreq)) : Prop := MkSteady {
  st_wf : proc_wf (pr s);
  st_w : w s = MkCrew ∅ None;
  st_reread : reread s = false;
  st_queue : exists bs, queued s bs l [];
  st_sorted : StronglySorted Z.lt (fst <$> l);
  st_waiting : Forall (waiting s) l;
  st_next : 0 < nextjob s <= INT_MAX;
  st_free : forall id, nextjob s <= id <= INT_MAX -> files s !! data_path id = None /\ files s !! req_path id = None
}.

(** An accepted job whose files are in the spool. *)
Definition in_spool (s : pd) (x : Z * list Z) : Prop :=
  0 < fst x < nextjob s /\ files s !! data_path (fst x) = Some (snd x) /\ is_Some (files s !! req_path (fst x)).

(** In a round from [u] to [u'] a printer was sent the whole of an accepted job and said that it
    has it. *)
Definition delivered (u u' : pd) (x : Z * list Z) : Prop :=
  exists t fd r user title, (ticks u <= t <= ticks u')%nat /\ answered fuel (dial t) (fst x) true /\
    fits (printer_name u) r user title /\
    default [] (sent u' !! fd) = document (fst x) (printer_name u) r user title (snd x).

(** One of the rounds among [evs], which start in [s0], did. *)
Definition handed (evs : list event) (s0 : pd) (x : Z * list Z) : Prop :=
  exists evs1 evs2 acc u u', evs = evs1 ++ Turn :: evs2 /\ work evs1 s0 = Ret acc u /\
    printer_round fuel u = Ret true u' /\ delivered u u' x.

(** The files of the jobs with a number that was given out. *)
Definition same_files (s s' : pd) : Prop :=
  forall id, 0 < id < nextjob s -> files s' !! data_path id = files s !! data_path id /\ files s' !! req_path id = files s !! req_path id.

Lemma waiting_mono s s' x :
  nextjob s <= nextjob s' -> same_files s s' -> waiting s x -> waiting s' x.
Proof.
  intros Hn Hf (Hx & Hr & Hd). destruct (Hf (fst x) Hx) as [E1 E2]. unfold waiting. rewrite E1, E2.
  split; [lia|done].
Qed.

Lemma in_spool_mono s s' x : nextjob s <= nextjob s' -> same_files s s' -> in_spool s x -> in_spool s' x.
Proof.
  intros Hn Hf (Hx & Hor). destruct (Hf (fst x) Hx) as [E1 E2]. unfold in_spool. rewrite E1, E2. split; [lia|done].
Qed.

(** What every event does: [from] are the requests that it may add. *)
Definition goes_on (s : pd) (l : list (Z * printreq)) (from : printreq -> Prop) (s' : pd) : Prop :=
  (exists l', steady s' l' /\ forall r, r ∈ l'.*2 -> r ∈ l.*2 \/ from r) /\
  printer_name s' = printer_name s /\ nextjob s <= nextjob s' <= nextjob s + 1.

Lemma client_step id r data ps rest l s :
  steady s l -> proper (Client id r data ps rest) -> nextjob s < INT_MAX ->
  runs broken (new_client id (pieces_of ps rest)) (fun ok s' => goes_on s l (fun r' => exists f, r' = set_flags f r) s' /\
    (forall x, in_spool s x -> in_spool s' x) /\ (ok = true -> in_spool s' (nextjob s, data))) s.
Proof.
  intros [Hw Ew Hre [bs Hq] Hso Hwa Hn Hfree] (Hov & Hr & Hps & Hc & Hlen) Hmax. unfold new_client.
  run. apply runs_take. run. run. set (fd := next_id (pr s)). set (s1 := set_sent _ _).
  destruct (Hfree (nextjob s)) as [Hf1 Hf2]; [lia|].
  assert (live (pr s) !! fd = None) as Hfd by (by apply Hw).
  eapply runs_mono.
  { apply (client_thread_spec id fd ps rest r data bs l [] s1); try done.
    - by apply proc_wf_acquire.
    - by eapply (queued_with fd RFd s).
    - apply lookup_insert_eq.
    - cbn. by rewrite lookup_insert_eq.
    - change (nextjob s1) with (nextjob s). lia. }
  intros ok s2 (Hw2 & Ew2 & (_ & En2 & Er2) & Hd). change (printer_name s1) with (printer_name s) in En2. change (reread s1) with (reread s) in Er2.
  destruct ok.
  - destruct Hd as (r' & p & [(ps' & Hps' & Hc' & ->) Hfi Hqu _] & Hnj & _). change (files s1) with (files s) in Hfi. change (nextjob s1) with (nextjob s) in *.
    set (n := nextjob s) in *. set (r' := set_flags _ r) in *.
    assert (forall m, job_id m -> m <> n -> files s2 !! data_path m = files s !! data_path m /\ files s2 !! req_path m = files s !! req_path m) as Hother.
    { intros m Hm Hne. assert (job_id n) as Hjn by (unfold job_id; lia). rewrite Hfi. split.
      - rewrite lookup_insert_ne by (intros E; by apply (data_req_ne m n)). rewrite lookup_insert_ne; [done|]. intros E. by apply Hne, data_path_inj.
      - rewrite lookup_insert_ne by (intros E; by apply Hne, req_path_inj). rewrite lookup_insert_ne; [done|]. apply data_req_ne. }
    assert (files s2 !! data_path n = Some data /\ files s2 !! req_path n = Some (store_req r')) as [Hd1 Hd2].
    { rewrite Hfi, lookup_insert_ne, !lookup_insert_eq by (intros E; by apply (data_req_ne n n)). done. }
    assert (same_files s s2) as Hsame by (intros m Hm; apply Hother; unfold job_id; lia).
    split; [split; [|split; [done|lia]]|split].
    + exists (l ++ [(n, r')]). split.
      2:{ intros x. rewrite fmap_app, elem_of_app. intros [Hx|Hx]; [by left|right]. apply list_elem_of_singleton in Hx as ->. by eexists. }
      split; [done|by rewrite Ew2|by rewrite Er2|by eexists| | |lia|].
      * rewrite fmap_app. apply StronglySorted_app_2; [|done|by repeat constructor].
        rewrite Forall_forall in Hwa. intros a b (x & -> & Hx)%list_elem_of_fmap ->%list_elem_of_singleton. apply Hwa in Hx as [Hx _]. apply Hx.
      * apply Forall_app. split; [|apply Forall_singleton].
        -- eapply Forall_impl; [exact Hwa|]. intros x Hx. eapply waiting_mono; [|exact Hsame|exact Hx]. lia.
        -- unfold waiting. cbn [fst snd]. split; [lia|]. split; [done|]. by eexists.
      * intros m Hm. destruct (Hother m) as [-> ->]; [unfold job_id; lia|lia|]. apply Hfree. lia.
    + intros x. apply in_spool_mono; [lia|done].
    + intros _. unfold in_spool. cbn [fst snd]. rewrite Hd1, Hd2. split; [lia|]. split; [done|by eexists].
  - destruct Hd as (Hfi & Hqu & Hnj & _). change (files s1) with (files s) in Hfi. change (nextjob s1) with (nextjob s) in Hnj.
    assert (same_files s s2) as Hsame by (intros m Hm; by rewrite Hfi).
    split; [split; [|split; [done|lia]]|split; [|done]].
    + exists l. split; [|by intros x Hx; left]. split; [done|by rewrite Ew2|by rewrite Er2|by eexists|done| |lia|].
      * eapply Forall_impl; [exact Hwa|]. intros x Hx. eapply waiting_mono; [|exact Hsame|exact Hx]. lia.
      * intros m Hm. rewrite Hfi. apply Hfree. lia.
    + intros x. apply in_spool_mono; [lia|done].
Qed.

(** The queue without its first job, whose files may be gone. *)
Lemma steady_rest jid r l s s' :
  steady s ((jid, r) :: l) -> untouched s s' -> (exists bs, queued s' bs l []) ->
  (forall path, files s' !! path = files s !! path \/
     files s' !! path = None /\ (path = data_path jid \/ path = req_path jid)) ->
  steady s' l.
Proof.
  intros [Hw Ew Hre _ Hso Hwa Hn Hfree] [En Ew' Ename Ere Hw'] Hq Hf.
  apply Forall_cons in Hwa as [(Hid & _) Hwa]. cbn [fst] in Hid. cbn [fmap list_fmap fst] in Hso. apply StronglySorted_inv in Hso as [Hso Hlt].
  split; [done|by rewrite Ew'|by rewrite Ere|done|done| |by rewrite En|].
  - apply Forall_forall. intros x Hx. rewrite Forall_forall in Hwa. rewrite Forall_forall in Hlt. destruct (Hwa x Hx) as (Hxn & Hr & (data & Hd & Hlen)).
    assert (jid < fst x) as Hltx by (apply Hlt, list_elem_of_fmap; by exists x).
    split; [lia|]. destruct (Hf (req_path (fst x))) as [->|[_ [E|E]]].
    + destruct (Hf (data_path (fst x))) as [->|[_ [E|E]]]; [by eauto|..].
      * apply data_path_inj in E; unfold job_id; lia.
      * by apply data_req_ne in E.
    + by apply eq_sym, data_req_ne in E.
    + apply req_path_inj in E; unfold job_id; lia.
  - rewrite En. intros id Hid'. destruct (Hfree id Hid') as [H1 H2].
    destruct (Hf (data_path id)) as [->|[-> _]], (Hf (req_path id)) as [->|[-> _]]; done.
Qed.

(** A round takes the first job, or there is none. *)
Lemma turn_step l s :
  steady s l -> (0 < fuel)%nat ->
  runs_unless (exists t r, r ∈ l.*2 /\ mishap fuel (dial t) (printer_name s) r) broken (printer_round fuel)
    (fun b s' => goes_on s l (fun _ => False) s' /\ forall x, in_spool s x -> in_spool s' x \/ b = true /\ delivered s s' x) s.
Proof.
  intros Hst Hfuel. pose proof Hst as [Hw Ew Hre [bs Hq] Hso Hwa Hn Hfree].
  destruct l as [|[jid r] l].
  - pose proof (qu_load _ _ _ _ Hq) as Hl. apply Forall2_nil_inv_r in Hl as ->.
    apply unless_runs, (printer_round_waits fuel [] []); [done|]. intros s' Hk.
    assert (same_files s s') as Hsame by (intros m Hm; by rewrite (k_files _ _ Hk)).
    split; [split; [|split; [apply Hk|rewrite (k_nextjob _ _ Hk); lia]]|].
    + exists []. split; [|by intros x Hx; left]. split; try (by apply Hk); [by eapply kept_wf|by rewrite (k_w _ _ Hk)|by rewrite (k_reread _ _ Hk)|
        exists []; by eapply queued_kept|done|by apply Forall_nil|by rewrite (k_nextjob _ _ Hk)|].
      by rewrite (k_nextjob _ _ Hk), (k_files _ _ Hk).
    + intros x Hx. left. eapply in_spool_mono; [|exact Hsame|exact Hx]. rewrite (k_nextjob _ _ Hk). lia.
  - pose proof (qu_load _ _ _ _ Hq) as Hl. apply Forall2_cons_inv_r in Hl as (jp & bs' & Hjp & Hl & ->).
    pose proof Hwa as [(Hid & Hr & (data & Hd & Hlen)) _]%Forall_cons. cbn [fst snd] in *.
    eapply unless_mono; [apply (printer_round_spec fuel jp jid r data bs' l [] (fun b s' => b = true /\ untouched s s' /\
      job_done fuel jp jid r data bs' l [] s s')); try done| |].
    { intros (t & _ & Hm). exists t, r. split; [by left|done]. }
    intros b s' _ (-> & Hu & Hdone). pose proof Hu as [En _ Ename _ _].
    assert (forall (Hsame : same_files s s') x, in_spool s x -> in_spool s' x) as Hmono.
    { intros Hsame x. apply in_spool_mono; [lia|done]. }
    destruct Hdone as [t fd user title Ht Hsay Hfit Hsent Ef Hq' _|_ Ef Hq' _|n e _ He Ef Hq' _].
    + split; [split; [|split; [done|lia]]|].
      * exists l. split; [|intros x Hx; left; by apply elem_of_cons; right]. eapply steady_rest; [exact Hst|exact Hu|by eexists|]. intros path. rewrite Ef.
        destruct (decide (path = req_path jid)) as [->|H1]; [rewrite lookup_delete_eq; by auto|]. rewrite lookup_delete_ne by done.
        destruct (decide (path = data_path jid)) as [->|H2]; [rewrite lookup_delete_eq; by auto|]. rewrite lookup_delete_ne by done. by left.
      * intros [m d] (Hm & Hor). cbn [fst snd] in *. destruct (decide (m = jid)) as [->|Hne].
        -- right. split; [done|]. destruct Hor as [Hd' _]. rewrite Hd in Hd'. injection Hd' as <-. by exists t, fd, r, user, title.
        -- left. unfold in_spool. cbn [fst snd]. rewrite Ef. split; [lia|].
           assert (job_id m /\ job_id jid) as [Hm' Hj'] by (unfold job_id; lia).
           rewrite !lookup_delete_ne; [done|..]; intros E;
             first [by apply data_req_ne in E|by apply eq_sym, data_req_ne in E|by apply Hne, eq_sym, data_path_inj|by apply Hne, eq_sym, req_path_inj].
    + split; [split; [|split; [done|lia]]|].
      * exists ((jid, r) :: l). split; [|by intros x Hx; left]. destruct Hu as [? ? ? ? ?]. split; [done|congruence|congruence|by eexists|done| |lia|rewrite Ef, En; done].
        eapply Forall_impl; [exact Hwa|]. intros x Hx. eapply waiting_mono; [|  |exact Hx]; [lia|intros m Hm; by rewrite Ef].
      * intros x Hx. left. apply Hmono; [|done]. intros m Hm. by rewrite Ef.
    + split; [split; [|split; [done|lia]]|].
      * exists l. split; [|intros x Hx; left; by apply elem_of_cons; right]. eapply steady_rest; [exact Hst|exact Hu|by eexists|]. intros path. rewrite Ef. by left.
      * intros x Hx. left. apply Hmono; [|done]. intros m Hm. by rewrite Ef.
Qed.

(** ** Any number of events *)

Lemma work_app a b s0 acc u : work a s0 = Ret acc u ->
  work (a ++ b) s0 = match work b u with Ret acc' v => Ret (acc ++ acc') v | Stop m => Stop m | Fault x => Fault x | Loops => Loops end.
Proof.
  revert s0 acc u. induction a as [|e a IH]; intros s0 acc u E; cbn [work app] in *.
  - injection E as <- <-. by destruct (work b s0).
  - destruct e as [id r data ps rest|]; unfold bind, gets, ret in *.
    + destruct (new_client id (pieces_of ps rest) s0) as [ok s1| | |]; try done.
      destruct (work a s1) as [acc1 s2| | |] eqn:E1; try done. injection E as <- <-. rewrite (IH _ _ _ E1).
      destruct (work b s2); try done. by destruct ok.
    + destruct (printer_round fuel s0) as [ok s1| | |]; try done. by apply IH.
Qed.

(** The events [evs] that come after the events [pre] have led from [s0] to [s]. *)
Lemma work_spec s0 l0 pre evs l acc0 s :
  (0 < fuel)%nat -> work pre s0 = Ret acc0 s -> printer_name s = printer_name s0 ->
  steady s l -> (forall r, r ∈ l.*2 -> asked_for l0 (pre ++ evs) r) -> Forall proper evs -> nextjob s + Z.of_nat (length evs) <= INT_MAX ->
  Forall (fun x => in_spool s x \/ handed (pre ++ evs) s0 x) acc0 ->
  runs_unless (exists t r, asked_for l0 (pre ++ evs) r /\ mishap fuel (dial t) (printer_name s0) r) broken (work evs)
    (fun acc s' => (exists l', steady s' l') /\ Forall (fun x => in_spool s' x \/ handed (pre ++ evs) s0 x) (acc0 ++ acc)) s.
Proof.
  intros Hfuel. revert pre l acc0 s. induction evs as [|e evs IH]; intros pre l acc0 s Hpre Ename Hst Hl Hev Hmax Hacc; cbn [work].
  - apply unless_runs. run. rewrite (app_nil_r acc0). by split; [exists l|].
  - apply Forall_cons in Hev as [He Hev]. cbn [length] in Hmax. rewrite (cons_middle e pre evs), (app_assoc pre) in *.
    destruct e as [id r data ps rest|].
    + run_first. run. apply unless_bind. eapply unless_mono; [apply unless_runs; eapply client_step; [exact Hst|exact He|lia]|done|].
      intros ok s' Ec (((l' & Hst' & Hl') & En & Hn) & Hmono & Hnew).
      apply unless_bind. eapply unless_mono.
      * apply (IH (pre ++ [Client id r data ps rest]) l' (acc0 ++ (if ok : bool then [(nextjob s, data)] else [])) s');
          [|congruence|done| |done|lia|].
        -- rewrite (work_app _ _ _ _ _ Hpre). cbn [work]. unfold bind, gets, ret. rewrite Ec. by destruct ok.
        -- intros x Hx. destruct (Hl' x Hx) as [Hx'|[f ->]]; [by apply Hl|]. right. exists id, r, data, ps, rest, f.
           split; [|done]. apply elem_of_app. left. apply elem_of_app. right. by apply list_elem_of_singleton.
        -- apply Forall_app. split; [eapply Forall_impl; [exact Hacc|]; cbv beta; intros x [Hx|Hx]; [left; by apply Hmono|right; exact Hx]|].
           destruct ok; [apply Forall_singleton; left; by apply Hnew|by apply Forall_nil].
      * done.
      * intros acc s'' _ [Hs Hf]. apply unless_runs. run. split; [done|]. rewrite <- (app_assoc acc0) in Hf. by destruct ok.
    + apply unless_bind. eapply unless_mono; [by apply (turn_step l)| |].
      { intros (t & r & Hr & Hm). exists t, r. rewrite Ename in Hm. split; [by apply Hl|done]. }
      intros b s' Ec (((l' & Hst' & Hl') & En & Hn) & Hmono).
      apply (IH (pre ++ [Turn]) l' acc0 s'); [|congruence|done| |done|lia|].
      * rewrite (work_app _ _ _ _ _ Hpre). cbn [work]. unfold bind, ret. rewrite Ec. by rewrite app_nil_r.
      * intros x Hx. destruct (Hl' x Hx) as [Hx'|[]]. by apply Hl.
      * eapply Forall_impl; [exact Hacc|]. intros x [Hx|Hx]; [|by right]. destruct (Hmono x Hx) as [|[-> Hdel]]; [by left|right].
        exists pre, evs, acc0, s, s'. split; [by rewrite <- app_assoc|done].
Qed.

(** C9. The daemon at work, from a state in which its books are in order: clients that come one after
    the other, each with a request and its data in any pieces, and turns of the printer's thread,
    in any order, whatever calls fail and whatever printers answer.  The numbers in the queue
    ascend, so that jobs are taken in the order in which they were accepted, a deferred one first,
    and every job of the queue has its two files.  Of every job that was accepted either both files
    are in the spool, with the data that the client sent, or in one of the rounds a printer was
    sent the whole job and, as far as it answers with well-formed responses in one piece, said that it
    has it.  The daemon stops itself only after a call has failed; it leaves its memory or does not
    come back only when a printer answers in another way or the names of a job do not fit the
    header. *)
Theorem no_accepted_job_lost evs l s :
  steady s l -> Forall proper evs -> nextjob s + Z.of_nat (length evs) <= INT_MAX -> (0 < fuel)%nat ->
  match work evs s with
  | Ret acc s' => (exists l', steady s' l') /\ Forall (fun x => in_spool s' x \/ handed evs s x) acc
  | Stop _ => broken
  | Fault _ | Loops => exists t r, asked_for l evs r /\ mishap fuel (dial t) (printer_name s) r
  end.
Proof. intros Hst Hev Hmax Hfuel. apply (work_spec s l [] evs l [] s); try done. by left. Qed.
End Work.

(** A client, a round and another client. *)
Definition busy : list event :=
  [Client 1 (request "ann" "a.txt") (bytes "abc") [encode_req (request "ann" "a.txt") ++ bytes "abc"] [Silence];
   Turn;
   Client 2 (request "bob" "b.ps") (bytes "%!PS") [encode_req (request "bob" "b.ps") ++ bytes "%!PS"] []].

Lemma no_accepted_job_lost_witness :
  match @work obliging 200 busy pd0 with
  | Ret acc s' => (exists l', steady s' l') /\ Forall (fun x => in_spool s' x \/ @handed obliging 200 busy pd0 x) acc /\
                  fst <$> acc = [1; 2]
  | _ => False
  end.
Proof.
  pose proof (@no_accepted_job_lost obliging 200 busy [] pd0) as H.
  assert (match @work obliging 200 busy pd0 with Ret acc _ => bool_decide (fst <$> acc = [1; 2]) | _ => false end = true) as E by (vm_compute; reflexivity).
  destruct (@work obliging 200 busy pd0) as [acc s'| | |]; [|discriminate E..].
  assert ((exists l', steady s' l') /\ Forall (fun x => in_spool s' x \/ @handed obliging 200 busy pd0 x) acc) as [Hs Hf].
  { apply H.
    - split; [done|done|done|exists []; by apply queued_empty|constructor|by apply Forall_nil|cbn; unfold INT_MAX; lia|].
      intros id _. split; reflexivity.
    - repeat (apply Forall_cons; split); [..|by apply Forall_nil]; [|exact I|].
      + split; [exact I|]. split; [apply wf_request|]. split; [by repeat (apply Forall_cons; split; [done|])|]. split; reflexivity.
      + split; [exact I|]. split; [apply wf_request|]. split; [by repeat (apply Forall_cons; split; [done|])|]. split; reflexivity.
    - cbn. unfold INT_MAX. lia.
    - lia. }
  split; [done|]. split; [done|]. by apply bool_decide_eq_true in E.
Defined.
