(* ===== verification/PrintClient.v ===== *)
(** * print.c: the client of the print spooler

    The command is modelled in the state type of the daemon, with its own system: [files] is the
    files it can open, [inbox] and [sent] its socket.  The composition with the daemon says that
    the file of the user becomes the data file of the job. *)

From S2P Require Import Prelude Process CLib Prog DbFile PrintState PrintQueue PrintStatus PrintWire PrintDaemon PrintSpool.
From Stdlib Require Import Ascii.
Local Open Scope Z_scope.
Local Open Scope prog_scope.

(** ** The arguments *)

(** The letters of an option: whether one was not t. *)
Fixpoint option_letters (t : string) (err : bool) : bool :=
  match t with
  | EmptyString => err
  | String c t => option_letters t (err || negb (Ascii.eqb c "t"))
  end.

(** [getopt] with the letter t, as glibc does it: operands may come before options. *)
Fixpoint parse_args (args : list string) : bool * bool * list string :=
  match args with
  | [] => (false, false, [])
  | a :: args =>
      if streq a "--" then (false, false, args)
      else
        match a with
        | String c ((String _ _) as letters) =>
            let '(text, err, ops) := parse_args args in
            if Ascii.eqb c "-" then
              (text || negb (bool_decide (List.filter (Ascii.eqb "t") (chars letters) = [])), err || option_letters letters false, ops)
            else (text, err, a :: ops)
        | _ => let '(text, err, ops) := parse_args args in (text, err, a :: ops)
        end
  end.

Section Client.
Context `{World}.

(** ** The request *)

Definition user_field (pw_name : option string) : list Z :=
  match pw_name with
  | None => bytes "unknown" ++ 0 :: (garbage <$> seq 16 56)
  | Some name => strncpy (Z.to_nat USERNM_MAX - 1) (bytes name) ++ [0]
  end.

(** A long name is cut at its front. *)
Definition job_field (fname : string) : list Z :=
  let t := bytes fname in
  let len := length t in
  if (Z.to_nat JOBNM_MAX <=? len)%nat then
    let tail := drop (len - Z.to_nat JOBNM_MAX + 5) t in
    bytes "... " ++ take (Z.to_nat JOBNM_MAX - 5) tail ++ [0]
  else t ++ 0 :: (garbage <$> seq (72 + len + 1) (Z.to_nat JOBNM_MAX - len - 1)).

(** [htonl] takes the lower 32 bits of the size. *)
Definition build_req (pw_name : option string) (nbytes : Z) (text : bool) (fname : string) : printreq :=
  MkReq (u32 nbytes) (if text then PR_TEXT else 0) (user_field pw_name) (job_field fname).

(** ** Sending the file *)

(** lib/readn.c: a wait has no end here. *)
Fixpoint wait_read (c : conn) (n : nat) : (list Z + Z) * conn :=
  match c with
  | [] => (inl [], [])
  | Silence :: c => wait_read c n
  | Broken e :: c => (inr e, c)
  | Data bs :: c =>
      let rest := drop n bs in (inl (take n bs), if bool_decide (rest = []) then c else Data rest :: c)
  end.

Definition read_sock (fd : nat) (n : nat) : prog pd (list Z + Z) :=
  let! s := gets (fun s => s) in
  let '(r, c) := wait_read (default [] (inbox s !! fd)) n in
  do! modify (set_inbox (<[fd := c]> (inbox s))) in
  ret r.

Definition readn (fd : nat) (nbytes : nat) : prog pd (list Z + Z) := read_loop (read_sock fd) nbytes nbytes [].

(** [writen], and the end of the command when it did not write all. *)
Definition must_write (fd : nat) (bs : list Z) : prog pd unit :=
  let! r := writen fd bs in
  match r with
  | inr _ => stop "can't write to print server"
  | inl nw => if nw =? Z.of_nat (length bs) then ret tt else stop "short write to print server"
  end.

(** The copy of the file; after an error of the read the number of bytes to be written is -1. *)
Fixpoint copy_file (fuel : nat) (sockfd : nat) (content : list Z) (pos : nat) : prog pd unit :=
  match fuel with
  | O => loops
  | S fuel =>
      let! r := read_file content pos (Z.to_nat IOBUFSZ) in
      match r with
      | inr _ => fault OutOfBounds
      | inl [] => ret tt
      | inl buf => do! must_write sockfd buf in copy_file fuel sockfd content (pos + length buf)
      end
  end.

(** The response: the number of the job, or the text of the refusal. *)
Definition read_response (sockfd : nat) : prog pd (Z + list Z) :=
  let! r := readn sockfd SIZEOF_RESP in
  match r with
  | inr _ => stop "can't read response from server"
  | inl res =>
      if (length res =? SIZEOF_RESP)%nat then
        if ntohl (take 4 res) =? 0 then ret (inl (ntohl (take 4 (drop 4 res))))
        else let! msg := lift (until_nul (drop 8 res)) in ret (inr msg)
      else stop "can't read response from server"
  end.

Definition submit_file (content : list Z) (sockfd : nat) (fname : string) (nbytes : Z) (text : bool) (pw_name : option string)
  : prog pd (Z + list Z) :=
  let req := build_req pw_name nbytes text fname in
  do! must_write sockfd (encode_req req) in
  do! copy_file (S (length content)) sockfd content 0 in
  read_response sockfd.

(** The addresses of the server one after the other. *)
Fixpoint contact (naddrs : nat) (err : Z) : prog pd (nat + Z) :=
  match naddrs with
  | O => ret (inr err)
  | S n =>
      let! c := connect_retry in
      match c with
      | inl sfd => ret (inl sfd)
      | inr e => contact n e
      end
  end.

(** [main]; [regular] and [naddrs] are what [fstat] and [getaddrinfo] say, [pw_name] the entry of the
    user. *)
Definition print_main (args : list string) (regular : bool) (naddrs : nat) (pw_name : option string) : prog pd (Z + list Z) :=
  let '(text, err, ops) := parse_args args in
  match err, ops with
  | false, [fname] =>
      let! f := open_rd fname in
      match f with
      | inr _ => stop "print: can't open"
      | inl (fd, content) =>
          let! st := ask in
          do! require (match st with Fails _ => false | _ => true end) "print: can't stat" in
          do! require regular "print: must be a regular file" in
          let! host := get_printserver in
          match host with
          | None => stop "print: no print server defined"
          | Some host =>
              do! require (match getaddrinfo host "print" with Some _ => true | None => false end) "print: getaddrinfo error" in
              let! c := contact naddrs 0 in
              match c with
              | inr _ => stop "print: can't contact"
              | inl sfd => submit_file content sfd fname (Z.of_nat (length content)) text pw_name
              end
          end
      end
  | _, _ => stop "usage: print [-t] filename"
  end.
End Client.

(** ** The request is one that the daemon can take *)

Definition no_nul (l : list Z) : Prop := Forall (fun x => x <> 0) l.

Definition user_text (pw_name : option string) : list Z :=
  match pw_name with None => bytes "unknown" | Some name => take 63 (bytes name) end.

(** The name of the job: at most 255 characters. *)
Definition job_text (fname : string) : list Z :=
  let t := bytes fname in
  if (256 <=? length t)%nat then bytes "... " ++ drop (length t - 251) t else t.

Lemma until_nul_pad a n : no_nul a -> (0 < n)%nat -> until_nul (a ++ replicate n 0) = Ok a.
Proof. intros Ha Hn. destruct n as [|n]; [lia|]. by apply until_nul_app. Qed.

Section Request.
Context `{World}.

Lemma user_field_spec pw : no_nul (user_text pw) ->
  length (user_field pw) = 64%nat /\ until_nul (user_field pw) = Ok (user_text pw).
Proof.
  destruct pw as [name|]; cbn [user_field user_text]; intros Hn.
  - change (Z.to_nat USERNM_MAX - 1)%nat with 63%nat. unfold strncpy. set (t := bytes name) in *.
    assert (take 63 (t ++ replicate 63 0) ++ [0] = take 63 t ++ replicate (64 - length (take 63 t)) 0) as E.
    { rewrite take_app, take_replicate, <- app_assoc. f_equal. rewrite length_take.
      change [0] with (replicate 1 0). rewrite <- replicate_add. f_equal. lia. }
    rewrite E. split; [rewrite length_app, length_replicate, length_take; lia|].
    apply until_nul_pad; [done|]. rewrite length_take. lia.
  - split; [reflexivity|by apply until_nul_app].
Qed.

Lemma job_field_spec fname : no_nul (bytes fname) ->
  length (job_field fname) = 256%nat /\ until_nul (job_field fname) = Ok (job_text fname).
Proof.
  unfold job_field, job_text. change (Z.to_nat JOBNM_MAX) with 256%nat. set (t := bytes fname). intros Hn.
  destruct (Nat.leb_spec 256 (length t)) as [Hl|Hl].
  - replace (length t - 256 + 5)%nat with (length t - 251)%nat by lia. rewrite (take_ge (drop _ t)) by (rewrite length_drop; lia).
    split; [rewrite !length_app, length_drop; cbn; lia|]. rewrite app_assoc. apply until_nul_app.
    apply Forall_app. split; [by repeat (apply Forall_cons; split; [done|])|by apply Forall_drop].
  - split; [rewrite length_app; cbn [length]; rewrite length_fmap, length_seq; lia|by apply until_nul_app].
Qed.

Lemma build_req_wf pw nbytes text fname : no_nul (user_text pw) -> no_nul (bytes fname) -> wf_req (build_req pw nbytes text fname).
Proof.
  intros Hu Ht. split; cbn [build_req r_size r_flags usernm jobnm].
  - unfold u32. by apply Z.mod_pos_bound.
  - by destruct text.
  - by apply user_field_spec.
  - by apply job_field_spec.
Qed.
End Request.

(** ** Sending and reading *)

Section Submit.
Context `{World}.

(** No call fails, and a write writes something. *)
Definition willing : Prop :=
  forall t, match answer t with Fine => True | Short n => 0 < n | Fails _ => False end.

(** Then everything is written, in one call or in several. *)
Lemma runs_writen_all {P : Prop} fuel fd bs n (Q : Z + Z -> pd -> Prop) s :
  willing -> (length bs <= fuel)%nat ->
  (forall s', kept s s' -> inbox s' = inbox s -> sent_more fd bs s s' -> Q (inl n) s') ->
  runs P (writen_loop fuel fd bs n) Q s.
Proof.
  intros Hok. revert bs s Q. induction fuel as [|fuel IH]; intros bs s Q Hf HQ;
    (destruct bs as [|b bs]; [cbn; apply HQ; [done..|]; by apply sent_more_nil|]); [cbn in Hf; lia|].
  cbn [writen_loop]. run. unfold write_sock. run. apply runs_ask. intros o Ho. specialize (Hok (ticks s)). rewrite Ho in Hok.
  assert (forall m, (0 < m)%nat -> runs P (let! r := (do! modify (fun s => set_sent (<[fd := default [] (sent s !! fd) ++ take m (b :: bs)]> (sent s)) s) in
      ret (@inl Z Z (Z.of_nat (length (take m (b :: bs)))))) in
    match r with
    | inl nwritten => if nwritten =? 0 then ret (inl (n - Z.of_nat (length (b :: bs))))
                      else writen_loop fuel fd (drop (Z.to_nat nwritten) (b :: bs)) n
    | inr e => if Z.of_nat (length (b :: bs)) =? n then ret (inr e) else ret (inl (n - Z.of_nat (length (b :: bs))))
    end) Q (tick s)) as Hm.
  { intros m Hm. repeat run. rewrite length_take. rewrite (proj2 (Z.eqb_neq _ _)) by (cbn [length]; lia). rewrite Nat2Z.id.
    set (l := b :: bs) in *. assert (0 < length l)%nat as Hl0 by (cbn; lia).
    assert (drop (m `min` length l) l = drop m l) as ->.
    { destruct (decide (m <= length l)%nat); [by rewrite Nat.min_l by lia|]. by rewrite Nat.min_r, !drop_ge by lia. }
    apply IH; [rewrite length_drop; lia|]. intros s' Hk Hi Hs. apply HQ; [etrans; [|exact Hk]; by split|by rewrite Hi|].
    rewrite <- (take_drop m l). eapply sent_more_trans; [|exact Hs].
    split; cbn; [intros; by rewrite lookup_insert_ne|by rewrite lookup_insert_eq]. }
  destruct o as [|m|e]; [| |done].
  - apply (runs_bind (St := pd)). specialize (Hm (length (b :: bs)) ltac:(cbn; lia)). unfold runs, bind in Hm |- *. exact Hm.
  - specialize (Hm (Z.to_nat m) ltac:(lia)). unfold runs, bind in Hm |- *. exact Hm.
Qed.

Lemma runs_must_write {P : Prop} fd bs (Q : unit -> pd -> Prop) s :
  willing -> (forall s', kept s s' -> inbox s' = inbox s -> sent_more fd bs s s' -> Q tt s') -> runs P (must_write fd bs) Q s.
Proof.
  intros Hok HQ. unfold must_write, writen. run. apply runs_writen_all; [done|done|]. intros s' Hk Hi Hs.
  rewrite Z.eqb_refl. run. by apply HQ.
Qed.

Lemma runs_copy_file {P : Prop} fuel fd content pos (Q : unit -> pd -> Prop) s :
  willing -> (length content < fuel + pos)%nat -> (pos <= length content)%nat ->
  (forall s', kept s s' -> inbox s' = inbox s -> sent_more fd (drop pos content) s s' -> Q tt s') ->
  runs P (copy_file fuel fd content pos) Q s.
Proof.
  intros Hok. revert pos s Q. induction fuel as [|fuel IH]; intros pos s Q Hf Hp HQ; [lia|]. cbn [copy_file]. run.
  unfold read_file. run. apply runs_ask. intros o Ho.
  assert (forall n, (0 < n)%nat -> runs P (match @inl _ Z (take n (drop pos content)) with
      | inr _ => fault OutOfBounds
      | inl [] => ret tt
      | inl buf => do! must_write fd buf in copy_file fuel fd content (pos + length buf)
      end) Q (tick s)) as Hgo.
  { intros n Hn. destruct (take n (drop pos content)) as [|x buf] eqn:E.
    - run. assert (drop pos content = []) as Ed by (destruct (drop pos content); [done|]; destruct n; [lia|done]).
      apply HQ; [by split|done|]. rewrite Ed. by apply sent_more_nil.
    - rewrite <- E. assert (pos + length (take n (drop pos content)) <= length content)%nat as Hle.
      { rewrite length_take, length_drop. lia. }
      assert (0 < length (take n (drop pos content)))%nat as Hpos by (rewrite E; cbn; lia).
      run. apply runs_must_write; [done|]. intros s1 Hk1 Hi1 Hs1. apply IH; [lia|done|].
      intros s2 Hk2 Hi2 Hs2. apply HQ; [etrans; [|exact Hk2]; etrans; [|exact Hk1]; by split|by rewrite Hi2|].
      assert (drop (pos + length (take n (drop pos content))) content = drop n (drop pos content)) as Ed.
      { rewrite <- drop_drop, length_take. destruct (Nat.le_ge_cases n (length (drop pos content))); [by rewrite Nat.min_l|].
        by rewrite Nat.min_r, !drop_ge by lia. }
      rewrite Ed in Hs2. rewrite <- (take_drop n (drop pos content)). by eapply sent_more_trans. }
  destruct o as [|n|e]; [| |specialize (Hok (ticks s)); by rewrite Ho in Hok]; run; apply Hgo; unfold IOBUFSZ; lia.
Qed.

(** A read of the client when a piece has arrived. *)
Lemma reads_read_sock {P : Prop} fd rest : reads P fd rest (read_sock fd).
Proof.
  intros n p ps Q s Ei Hps Hn HQ. assert (read_sock fd n s = tread fd n s) as E.
  { unfold read_sock, tread, bind, gets. rewrite Ei. reflexivity. }
  unfold runs. rewrite E. change (runs P (tread fd n) Q s). by eapply runs_tread.
Qed.

(** What the response says. *)
Definition answer_of (rc jid : Z) (msg : list Z) (res : Z + list Z) : Prop :=
  if rc =? 0 then res = inl jid else exists t, until_nul msg = Ok t /\ res = inr t.

Lemma runs_read_response {P : Prop} fd ps rest rc jid msg (Q : Z + list Z -> pd -> Prop) s :
  inbox s !! fd = Some (pieces_of ps rest) -> Forall nonempty ps -> concat ps = encode_resp rc jid msg ->
  0 <= rc < 2 ^ 32 -> 0 <= jid < 2 ^ 32 -> length msg = 512%nat -> (exists t, until_nul msg = Ok t) ->
  (forall res s', sent s' = sent s -> answer_of rc jid msg res -> Q res s') ->
  runs P (read_response fd) Q s.
Proof.
  intros Ei Hps Hc Hrc Hj Hm [t Ht] HQ. unfold read_response. run.
  assert (length (encode_resp rc jid msg) = SIZEOF_RESP) as Hlen by (unfold encode_resp; rewrite !length_app, Hm; done).
  eapply (read_loop_spec (read_sock fd) SIZEOF_RESP SIZEOF_RESP fd [] ps rest (encode_resp rc jid msg) []);
    [apply reads_read_sock|done|done|by rewrite app_nil_r|done|done|]. intros ps' _ _. cbn [app].
  rewrite Hlen, Nat.eqb_refl. unfold encode_resp.
  change (take 4 (be32 rc ++ ?x)) with (be32 rc). change (drop 4 (be32 rc ++ ?x)) with x. change (take 4 (be32 jid ++ msg)) with (be32 jid).
  change (drop 8 (be32 rc ++ be32 jid ++ msg)) with msg. rewrite !ntohl_be32 by done. unfold answer_of in HQ.
  destruct (rc =? 0); [run; by apply HQ|]. run. rewrite Ht. cbn [lift]. run. run. apply HQ; [done|]. by exists t.
Qed.

Lemma runs_submit_file {P : Prop} content fd fname nbytes text pw ps rest rc jid msg (Q : Z + list Z -> pd -> Prop) s :
  willing ->
  inbox s !! fd = Some (pieces_of ps rest) -> Forall nonempty ps -> concat ps = encode_resp rc jid msg ->
  0 <= rc < 2 ^ 32 -> 0 <= jid < 2 ^ 32 -> length msg = 512%nat -> (exists t, until_nul msg = Ok t) ->
  (forall res s', sent_more fd (encode_req (build_req pw nbytes text fname) ++ content) s s' -> answer_of rc jid msg res -> Q res s') ->
  runs P (submit_file content fd fname nbytes text pw) Q s.
Proof.
  intros Hok Ei Hps Hc Hrc Hj Hm Ht HQ. unfold submit_file. run. apply runs_must_write; [done|]. intros s1 Hk1 Hi1 Hs1.
  run. apply runs_copy_file; [done|lia|lia|]. intros s2 Hk2 Hi2 Hs2. rewrite drop_0 in Hs2.
  eapply runs_read_response; [by rewrite Hi2, Hi1|done..|]. intros res s3 Es3 Hans. apply HQ; [|done].
  unfold sent_more. rewrite Es3. by eapply sent_more_trans.
Qed.
End Submit.

(** C26. The client and the daemon together, each with its own system.  When no call of the client
    fails, and a write writes something, the client sends the request and then the whole file, in
    however many writes, returns, and reports the number or the text of the response.  A daemon that
    serves nobody else and to which these bytes come, in whatever pieces and whatever follows,
    accepts the job with the file as its data, under the names of the user and of the file, cut to
    what their fields hold; or a call of the daemon is to blame, and then the client is refused with
    its error and nothing is kept, or, without memory for the record of the client, nothing is done. *)
Theorem file_reaches_spool (C D : World) content fd fname text pw ps rest rc jid msg s :
  @willing C -> no_nul (user_text pw) -> no_nul (bytes fname) ->
  inbox s !! fd = Some (pieces_of ps rest) -> Forall nonempty ps -> concat ps = encode_resp rc jid msg ->
  0 <= rc < 2 ^ 32 -> 0 <= jid < 2 ^ 32 -> length msg = 512%nat -> (exists t, until_nul msg = Ok t) -> sent s !! fd = None ->
  let r := @build_req C pw (Z.of_nat (length content)) text fname in
  until_nul (usernm r) = Ok (user_text pw) /\ until_nul (jobnm r) = Ok (job_text fname) /\
  runs False (@submit_file C content fd fname (Z.of_nat (length content)) text pw) (fun res s1 =>
    answer_of rc jid msg res /\ sent s1 !! fd = Some (encode_req r ++ content) /\
    forall id dfd dps drest bs l held d,
      ready dfd (pieces_of dps drest) bs l held d -> over drest -> Forall nonempty dps -> concat dps = default [] (sent s1 !! fd) ->
      runs (@broken D) (@client_thread D id dfd) (@thread_done D dfd r content bs l held d) d) s.
Proof.
  intros Hok Hu Ht Ei Hps Hc Hrc Hj Hm Hmt Es r. split; [by apply user_field_spec|]. split; [by apply job_field_spec|].
  apply (runs_submit_file content fd fname _ text pw ps rest rc jid msg); [done..|]. intros res s1 [_ Hs] Hans. split; [done|].
  rewrite Es in Hs. cbn [from_option app] in Hs. assert (sent s1 !! fd = Some (encode_req r ++ content)) as E.
  { destruct (sent s1 !! fd) as [x|]; [cbn in Hs; by rewrite Hs|]. apply (f_equal length) in Hs. rewrite length_app, length_encode_req in Hs; [done|].
    by apply build_req_wf. }
  split; [done|].
  intros id dfd dps drest bs l held d Hr Hov Hd Hdc. apply (client_thread_ready id dfd dps drest r content bs l held d); [done..| |done|].
  - by apply build_req_wf.
  - by rewrite Hdc, E.
Qed.

(** The daemon says that the job has the number 4. *)
Definition told : pd :=
  set_inbox {[0%nat := pieces_of [encode_resp 0 4 (accept_msg (H := calm) 4)] []]} (set_pr (MkProc 0 {[0%nat := RFd]} 1 []) pd0).

Lemma file_reaches_spool_witness :
  let r := @build_req calm (Some "ann") 3 true "a.txt" in
  until_nul (usernm r) = Ok (user_text (Some "ann")) /\ until_nul (jobnm r) = Ok (job_text "a.txt") /\
  @runs pd _ False (@submit_file calm (bytes "abc") 0 "a.txt" 3 true (Some "ann")) (fun res s1 =>
    answer_of 0 4 (@accept_msg calm 4) res /\ sent s1 !! 0%nat = Some (encode_req r ++ bytes "abc") /\
    forall id dfd dps drest bs l held d,
      ready dfd (pieces_of dps drest) bs l held d -> over drest -> Forall nonempty dps -> concat dps = default [] (sent s1 !! 0%nat) ->
      runs (@broken calm) (@client_thread calm id dfd) (@thread_done calm dfd r (bytes "abc") bs l held d) d) told.
Proof.
  apply (file_reaches_spool calm calm (bytes "abc") 0 "a.txt" true (Some "ann") [encode_resp 0 4 (@accept_msg calm 4)] [] 0 4 (@accept_msg calm 4)).
  - done.
  - by repeat (apply Forall_cons; split; [done|]).
  - by repeat (apply Forall_cons; split; [done|]).
  - reflexivity.
  - by repeat (apply Forall_cons; split; [done|]).
  - reflexivity.
  - done.
  - done.
  - reflexivity.
  - exists (bytes "request ID 4"). reflexivity.
  - reflexivity.
Defined.
