(* ===== verification/RefCount.v ===== *)
(** * apue threads/mutex2.c: counted references in a hash table

    Objects are found by their number in a table of 29 chains.  Two kinds of locks protect them:
    [hashlock] the chains, [f_lock] of an object its counter.  The threads are a system of steps:
    a step is one operation of a lock or the accesses between two of them; in between, the other
    threads go on.  An access to an object that was freed is a fault, recorded in the state.
    Addresses are not used again, so that such an access cannot go unnoticed.

    What the threads do with the functions is free, but a thread holds and releases what it has a
    reference to.  Initializing a mutex and [malloc] succeed.  The counter is an [int]: where it
    overflows, the behaviour is undefined and the fault is recorded.  The runs of the theorems are
    those of [roomy_act], in which no object has [INT_MAX] references at once. *)

From S2P Require Import Prelude Steps.
Local Open Scope Z_scope.

Definition NHASH : Z := 29.
Definition HASH (id : Z) : Z := u64 id `mod` NHASH.

(** [struct foo]; [f_lock] is the thread that has the mutex. *)
Record foo := MkFoo { f_count : Z; f_lock : option nat; f_id : Z; f_next : option nat }.

Definition set_count (n : Z) (x : foo) : foo := MkFoo n (f_lock x) (f_id x) (f_next x).
Definition set_lock (o : option nat) (x : foo) : foo := MkFoo (f_count x) o (f_id x) (f_next x).
Definition set_link (n : option nat) (x : foo) : foo := MkFoo (f_count x) (f_lock x) (f_id x) n.

(** Where a thread is; every constructor is named after what it does next. *)
Inductive pc :=
| Idle
| AllocHash (p : nat) | AllocLink (p : nat) | AllocLock (p : nat) | AllocUnhash (p : nat) | AllocUnlock (p : nat)
| FindHash (id : Z) | FindWalk (id : Z) | FindLock (p : nat) | FindCount (p : nat) | FindUnlock (p : nat) | FindUnhash (r : option nat)
| HoldLock (p : nat) | HoldCount (p : nat) | HoldUnlock (p : nat)
| ReleLock (p : nat) | ReleTest (p : nat) | ReleUnlock (p : nat)
| ReleLet (p : nat) | ReleHash (p : nat) | ReleRelock (p : nat) | ReleRetest (p : nat) | ReleKeep (p : nat) | ReleUnhash
| LastUnhash (p : nat) | LastUnlock (p : nat) | LastFree (p : nat).

Record thread := MkThread { at_pc : pc; refs : list nat }.

Record st := MkSt {
  heap : gmap nat foo;
  top : nat;
  fh : gmap Z nat;
  hashlock : option nat;
  threads : list thread;
  fault : bool
}.

Definition init (n : nat) : st := MkSt ∅ 0 ∅ None (replicate n (MkThread Idle [])) false.

Definition set_heap (h : gmap nat foo) (s : st) : st := MkSt h (top s) (fh s) (hashlock s) (threads s) (fault s).
Definition set_hashlock (o : option nat) (s : st) : st := MkSt (heap s) (top s) (fh s) o (threads s) (fault s).
Definition set_fault (s : st) : st := MkSt (heap s) (top s) (fh s) (hashlock s) (threads s) true.
Definition move (t : nat) (a : pc) (r : list nat) (s : st) : st :=
  MkSt (heap s) (top s) (fh s) (hashlock s) (<[t := MkThread a r]> (threads s)) (fault s).
Definition put (p : nat) (x : foo) (s : st) : st := set_heap (<[p := x]> (heap s)) s.

(** A chain is followed from its head; it has no more objects than there are. *)
Fixpoint find_id (fuel : nat) (h : gmap nat foo) (id : Z) (p : option nat) : option (option nat) :=
  match p with
  | None => Some None
  | Some p =>
      match fuel, h !! p with
      | S fuel, Some x => if f_id x =? id then Some (Some p) else find_id fuel h id (f_next x)
      | _, _ => None
      end
  end.

(** [while (tfp->f_next != fp) tfp = tfp->f_next]: the object before [fp]. *)
Fixpoint find_before (fuel : nat) (h : gmap nat foo) (fp : nat) (tfp : nat) : option nat :=
  match fuel, h !! tfp with
  | S fuel, Some x =>
      match f_next x with
      | None => None
      | Some n => if (n =? fp)%nat then Some tfp else find_before fuel h fp n
      end
  | _, _ => None
  end.

(** The table and the heap without the object in its chain. *)
Definition unlink (fp : nat) (x : foo) (s : st) : option st :=
  let idx := HASH (f_id x) in
  match fh s !! idx with
  | None => None
  | Some tfp =>
      if (tfp =? fp)%nat then
        Some (MkSt (heap s) (top s) (match f_next x with Some n => <[idx := n]> (fh s) | None => delete idx (fh s) end)
                (hashlock s) (threads s) (fault s))
      else
        match find_before (S (size (heap s))) (heap s) fp tfp with
        | None => None
        | Some b => match heap s !! b with Some y => Some (put b (set_link (f_next x) y) s) | None => None end
        end
  end.

(** What a thread that is idle calls. *)
Inductive call := Alloc (id : Z) | Find (id : Z) | Hold (p : nat) | Rele (p : nat).

Fixpoint remove_one (p : nat) (l : list nat) : list nat :=
  match l with [] => [] | x :: l => if (x =? p)%nat then l else x :: remove_one p l end.

Definition start (t : nat) (c : call) (r : list nat) (s : st) : option st :=
  match c with
  | Alloc id =>
      let p := top s in
      let s := MkSt (<[p := MkFoo 1 None id None]> (heap s)) (S p) (fh s) (hashlock s) (threads s) (fault s) in
      Some (move t (AllocHash p) r s)
  | Find id => Some (move t (FindHash id) r s)
  | Hold p => if bool_decide (p ∈ r) then Some (move t (HoldLock p) r s) else None
  | Rele p => if bool_decide (p ∈ r) then Some (move t (ReleLock p) (remove_one p r) s) else None
  end.

(** [pthread_mutex_lock] waits while the mutex is taken; to unlock a mutex of another thread is an
    error. *)
Definition lock_hash (t : nat) (k : st -> st) (s : st) : option st :=
  match hashlock s with None => Some (k (set_hashlock (Some t) s)) | Some _ => None end.
Definition access (p : nat) (k : foo -> option st) (s : st) : option st :=
  match heap s !! p with Some x => k x | None => Some (set_fault s) end.
Definition lock (t p : nat) (k : st -> st) (s : st) : option st :=
  access p (fun x => match f_lock x with None => Some (k (put p (set_lock (Some t) x) s)) | Some _ => None end) s.
Definition unlock (t p : nat) (k : st -> st) (s : st) : option st :=
  access p (fun x => if decide (f_lock x = Some t) then Some (k (put p (set_lock None x) s)) else Some (set_fault s)) s.
(** [f_count] is an [int]: a sum that it cannot hold is undefined. *)
Definition add_count (p : nat) (d : Z) (k : st -> st) (s : st) : option st :=
  access p (fun x =>
    let n := f_count x + d in
    if (INT_MIN <=? n) && (n <=? INT_MAX) then Some (k (put p (set_count n x) s)) else Some (set_fault s)) s.

Definition or_fault (o : option st) (s : st) : option st := match o with Some s => Some s | None => Some (set_fault s) end.

Definition thread_step (t : nat) (c : call) (s : st) : option st :=
  match threads s !! t with
  | None => None
  | Some (MkThread a r) =>
      match a with
      | Idle => start t c r s
      | AllocHash p => lock_hash t (move t (AllocLink p) r) s
      | AllocLink p =>
          access p (fun x =>
            let idx := HASH (f_id x) in
            let s := put p (set_link (fh s !! idx) x) s in
            Some (move t (AllocLock p) r (MkSt (heap s) (top s) (<[idx := p]> (fh s)) (hashlock s) (threads s) (fault s)))) s
      | AllocLock p => lock t p (move t (AllocUnhash p) r) s
      | AllocUnhash p => Some (move t (AllocUnlock p) r (set_hashlock None s))
      | AllocUnlock p => unlock t p (move t Idle (p :: r)) s
      | FindHash id => lock_hash t (move t (FindWalk id) r) s
      | FindWalk id =>
          match find_id (S (size (heap s))) (heap s) id (fh s !! HASH id) with
          | None => Some (set_fault s)
          | Some None => Some (move t (FindUnhash None) r s)
          | Some (Some p) => Some (move t (FindLock p) r s)
          end
      | FindLock p => lock t p (move t (FindCount p) r) s
      | FindCount p => add_count p 1 (move t (FindUnlock p) r) s
      | FindUnlock p => unlock t p (move t (FindUnhash (Some p)) r) s
      | FindUnhash o => Some (move t Idle (match o with Some p => p :: r | None => r end) (set_hashlock None s))
      | HoldLock p => lock t p (move t (HoldCount p) r) s
      | HoldCount p => add_count p 1 (move t (HoldUnlock p) r) s
      | HoldUnlock p => unlock t p (move t Idle (p :: r)) s
      | ReleLock p => lock t p (move t (ReleTest p) r) s
      | ReleTest p =>
          access p (fun x => if f_count x =? 1 then Some (move t (ReleLet p) r s) else add_count p (-1) (move t (ReleUnlock p) r) s) s
      | ReleUnlock p => unlock t p (move t Idle r) s
      | ReleLet p => unlock t p (move t (ReleHash p) r) s
      | ReleHash p => lock_hash t (move t (ReleRelock p) r) s
      | ReleRelock p => lock t p (move t (ReleRetest p) r) s
      | ReleRetest p =>
          access p (fun x => if f_count x =? 1 then or_fault (move t (LastUnhash p) r <$> unlink p x s) s
                             else add_count p (-1) (move t (ReleKeep p) r) s) s
      | ReleKeep p => unlock t p (move t ReleUnhash r) s
      | ReleUnhash => Some (move t Idle r (set_hashlock None s))
      | LastUnhash p => Some (move t (LastUnlock p) r (set_hashlock None s))
      | LastUnlock p => unlock t p (move t (LastFree p) r) s
      | LastFree p =>
          access p (fun x => match f_lock x with
                             | None => Some (move t Idle r (set_heap (delete p (heap s)) s))
                             | Some _ => Some (set_fault s)
                             end) s
      end
  end.

Definition act (a : nat * call) (s : st) : option st := thread_step (fst a) (snd a) s.

(** ** The invariant

    What a thread has, by the place where it is. *)

Definition holds_hash (a : pc) : bool :=
  match a with
  | AllocLink _ | AllocLock _ | AllocUnhash _ | FindWalk _ | FindLock _ | FindCount _ | FindUnlock _ | FindUnhash _
  | ReleRelock _ | ReleRetest _ | ReleKeep _ | ReleUnhash | LastUnhash _ => true
  | _ => false
  end.

Definition holds_lock (a : pc) : option nat :=
  match a with
  | AllocUnhash p | AllocUnlock p | FindCount p | FindUnlock p | HoldCount p | HoldUnlock p
  | ReleTest p | ReleUnlock p | ReleLet p | ReleRetest p | ReleKeep p | LastUnhash p | LastUnlock p => Some p
  | _ => None
  end.

(** A reference that is not in the list of the thread: not yet, or not any more. *)
Definition owns (a : pc) : option nat :=
  match a with
  | AllocHash p | AllocLink p | AllocLock p | AllocUnhash p | AllocUnlock p
  | FindUnlock p | FindUnhash (Some p) | HoldUnlock p
  | ReleLock p | ReleTest p | ReleLet p | ReleHash p | ReleRelock p | ReleRetest p
  | LastUnhash p | LastUnlock p | LastFree p => Some p
  | _ => None
  end.

(** The references to [p] that a thread has. *)
Definition is_some_of (o : option nat) (p : nat) : Z := if decide (o = Some p) then 1 else 0.
Definition own (p : nat) (th : thread) : Z := sum_by (fun x => if decide (x = p) then 1 else 0) (refs th) + is_some_of (owns (at_pc th)) p.

(** No object has [INT_MAX] references, and the steps that are made from such states. *)
Definition roomy (s : st) : Prop := map_Forall (fun p _ => sum_by (own p) (threads s) < INT_MAX) (heap s).
Definition roomy_act (a : nat * call) (s : st) : option st := if decide (roomy s) then act a s else None.

(** Objects that only this thread knows: not yet in a chain, or not any more. *)
Definition private (a : pc) : option nat :=
  match a with AllocHash p | AllocLink p | LastUnhash p | LastUnlock p | LastFree p => Some p | _ => None end.

(** Objects that were found in a chain. *)
Definition found (a : pc) : option nat := match a with FindLock p | FindCount p => Some p | _ => None end.
Definition holding (a : pc) : option nat := match a with HoldLock p | HoldCount p | HoldUnlock p => Some p | _ => None end.

Definition private_in (l : list thread) (p : nat) : Prop := exists t th, l !! t = Some th /\ private (at_pc th) = Some p.

Fixpoint chain (h : gmap nat foo) (hd : option nat) (l : list nat) : Prop :=
  match l with
  | [] => hd = None
  | p :: l => hd = Some p /\ exists x, h !! p = Some x /\ chain h (f_next x) l
  end.

(** The chains hold the objects that are not private, each in the chain of its number. *)
Definition chains (s : st) : Prop :=
  exists ch : Z -> list nat, forall b, chain (heap s) (fh s !! b) (ch b) /\ NoDup (ch b) /\
    forall p, p ∈ ch b <-> exists x, heap s !! p = Some x /\ HASH (f_id x) = b /\ ~ private_in (threads s) p.

Record thread_ok (s : st) (t : nat) (th : thread) : Prop := MkOk {
  o_hash : holds_hash (at_pc th) = true <-> hashlock s = Some t;
  o_lock : forall p x, heap s !! p = Some x -> (holds_lock (at_pc th) = Some p <-> f_lock x = Some t);
  o_alive : forall p, 0 < own p th \/ holds_lock (at_pc th) = Some p \/ found (at_pc th) = Some p -> is_Some (heap s !! p);
  o_last : forall p x, private (at_pc th) = Some p -> heap s !! p = Some x -> f_count x = 1;
  o_hold : forall p, holding (at_pc th) = Some p -> p ∈ refs th;
  o_found : forall p, found (at_pc th) = Some p -> ~ private_in (threads s) p;
  o_free : forall p x, at_pc th = LastFree p -> heap s !! p = Some x -> f_lock x = None
}.

Record inv (s : st) : Prop := MkInv {
  i_fault : fault s = false;
  i_top : forall p, (top s <= p)%nat -> heap s !! p = None;
  i_owner : forall t, hashlock s = Some t -> is_Some (threads s !! t);
  i_owners : forall p x t, heap s !! p = Some x -> f_lock x = Some t -> is_Some (threads s !! t);
  i_count : forall p x, heap s !! p = Some x -> f_count x = sum_by (own p) (threads s) /\ 1 <= f_count x;
  i_threads : forall t th, threads s !! t = Some th -> thread_ok s t th;
  i_chains : chains s
}.

(** ** Sums and chains *)

Lemma count_nonneg p (l : list nat) : 0 <= sum_by (fun x => if decide (x = p) then 1 else 0) l.
Proof. pose proof (sum_by_bound (fun x => if decide (x = p) then 1 else 0) 0 1 l). specialize (H ltac:(intros y _; cbn; destruct (decide (y = p)); lia)). lia. Qed.

Lemma own_nonneg p th : 0 <= own p th.
Proof. unfold own, is_some_of. pose proof (count_nonneg p (refs th)). case_decide; lia. Qed.

Lemma own_in_refs p th : p ∈ refs th -> 0 < own p th.
Proof.
  intros Hin. unfold own. assert (0 < sum_by (fun x => if decide (x = p) then 1 else 0) (refs th)) as H.
  { induction (refs th) as [|y l IH]; [by apply elem_of_nil in Hin|]. rewrite sum_by_cons. pose proof (count_nonneg p l).
    apply elem_of_cons in Hin as [->|Hin]; [rewrite decide_True by done; lia|]. specialize (IH Hin). case_decide; lia. }
  unfold is_some_of. case_decide; lia.
Qed.

Lemma own_owns p th : owns (at_pc th) = Some p -> 0 < own p th.
Proof. intros E. unfold own, is_some_of. rewrite decide_True by done. pose proof (count_nonneg p (refs th)). lia. Qed.

Lemma own_remove p q a r : p ∈ r -> owns a = None ->
  own q (MkThread (ReleLock p) (remove_one p r)) = own q (MkThread a r).
Proof.
  intros Hin Ha. unfold own, is_some_of. cbn [refs at_pc owns]. rewrite Ha. rewrite (decide_False (P := None = Some q)) by done.
  induction r as [|y r IH]; [by apply elem_of_nil in Hin|]. cbn [remove_one]. rewrite sum_by_cons. destruct (Nat.eqb_spec y p) as [->|Hne].
  - destruct (decide (p = q)) as [->|Hpq]; [rewrite decide_True by done; lia|rewrite decide_False by congruence; lia].
  - rewrite sum_by_cons. apply elem_of_cons in Hin as [->|Hin]; [done|]. specialize (IH Hin). lia.
Qed.

(** Only the links matter to a chain. *)
Lemma chain_sim h h' hd l :
  (forall p x, p ∈ l -> h !! p = Some x -> exists x', h' !! p = Some x' /\ f_next x' = f_next x) -> chain h hd l -> chain h' hd l.
Proof.
  revert hd. induction l as [|p l IH]; intros hd Hs; [done|]. intros [-> (x & Ex & Hc)]. split; [done|].
  destruct (Hs p x) as (x' & Ex' & En); [by left|done|]. exists x'. split; [done|]. rewrite En. apply IH; [|done].
  intros q y Hq. apply Hs. by right.
Qed.

Lemma private_insert_iff l t th th' p : l !! t = Some th -> (private (at_pc th') = Some p <-> private (at_pc th) = Some p) ->
  private_in (<[t := th']> l) p <-> private_in l p.
Proof.
  intros Ht E. split; intros (u & th2 & Hu & Hp); (destruct (decide (u = t)) as [->|Hne]).
  - rewrite list_lookup_insert_eq in Hu by (by eapply lookup_lt_Some). simplify_eq. exists t, th. by rewrite <- E.
  - rewrite list_lookup_insert_ne in Hu by done. by exists u, th2.
  - simplify_eq. exists t, th'. rewrite list_lookup_insert_eq by (by eapply lookup_lt_Some). by rewrite E.
  - exists u, th2. by rewrite list_lookup_insert_ne.
Qed.

Lemma private_insert l t th th' p : l !! t = Some th -> private (at_pc th') = private (at_pc th) ->
  private_in (<[t := th']> l) p <-> private_in l p.
Proof. intros Ht E. apply (private_insert_iff _ _ th); [done|by rewrite E]. Qed.

(** The entry of a thread after another one moved, or after its own. *)
Lemma lookup_moved (l : list thread) t th th' u th2 : l !! t = Some th -> <[t := th']> l !! u = Some th2 ->
  (u = t /\ th2 = th') \/ (u <> t /\ l !! u = Some th2).
Proof.
  intros Ht Hu. destruct (decide (u = t)) as [->|Hne].
  - rewrite list_lookup_insert_eq in Hu by (by eapply lookup_lt_Some). left. by simplify_eq.
  - rewrite list_lookup_insert_ne in Hu by done. by right.
Qed.

(** ** Steps of locks

    A thread that takes or gives back a mutex, or goes on: counters and chains stay. *)

Definition relocked (h h' : gmap nat foo) : Prop := forall p, set_lock None <$> h' !! p = set_lock None <$> h !! p.

Lemma relocked_some h h' p x : relocked h h' -> h' !! p = Some x -> exists y, h !! p = Some y /\ set_lock None y = set_lock None x.
Proof. intros Hr E. specialize (Hr p). rewrite E in Hr. destruct (h !! p) as [y|]; [|done]. exists y. cbn in Hr. split; congruence. Qed.

Lemma relocked_back h h' p x : relocked h h' -> h !! p = Some x -> exists y, h' !! p = Some y /\ set_lock None y = set_lock None x.
Proof. intros Hr E. specialize (Hr p). rewrite E in Hr. destruct (h' !! p) as [y|]; [|done]. exists y. cbn in Hr. split; congruence. Qed.

Lemma set_lock_same x y : set_lock None y = set_lock None x -> f_count y = f_count x /\ f_id y = f_id x /\ f_next y = f_next x.
Proof. unfold set_lock. by intros [= -> -> ->]. Qed.

(** The mutex of the table. *)
Definition hash_move (t : nat) (a b : pc) (o o' : option nat) : Prop :=
  o' = o /\ holds_hash b = holds_hash a \/
  o = None /\ o' = Some t /\ holds_hash b = true \/
  o = Some t /\ o' = None /\ holds_hash b = false.

(** The mutex of an object. *)
Definition lock_move (t : nat) (a b : pc) (h h' : gmap nat foo) : Prop :=
  h' = h /\ holds_lock b = holds_lock a \/
  (exists p x, h !! p = Some x /\ f_lock x = None /\ h' = <[p := set_lock (Some t) x]> h /\ holds_lock a = None /\ holds_lock b = Some p) \/
  (exists p x, h !! p = Some x /\ h' = <[p := set_lock None x]> h /\ holds_lock a = Some p /\ holds_lock b = None).

Lemma lock_move_relocked t a b h h' : lock_move t a b h h' -> relocked h h'.
Proof.
  intros [[-> _]|[(p & x & Ex & _ & -> & _)|(p & x & Ex & -> & _)]] q; [done|..];
    (destruct (decide (q = p)) as [->|Hne]; [by rewrite lookup_insert_eq, Ex|by rewrite lookup_insert_ne]).
Qed.

(** What the moves mean for the thread and for the others. *)
Lemma hash_move_ok t u a b c o o' : hash_move t a b o o' -> (holds_hash a = true <-> o = Some t) -> (holds_hash c = true <-> o = Some u) ->
  (holds_hash b = true <-> o' = Some t) /\ (u <> t -> (holds_hash c = true <-> o' = Some u)).
Proof.
  intros [[-> ->]|[(-> & -> & ->)|(-> & -> & ->)]] Ha Hc; (split; [|intros Hne]); try done.
  - rewrite Hc. split; [done|intros [= ->]; done].
  - rewrite Hc. split; [intros [= ->]; done|done].
Qed.

Lemma lock_move_ok t u a b c h h' p x' : lock_move t a b h h' -> h' !! p = Some x' ->
  (forall p x, h !! p = Some x -> (holds_lock a = Some p <-> f_lock x = Some t)) ->
  (forall p x, h !! p = Some x -> (holds_lock c = Some p <-> f_lock x = Some u)) ->
  (holds_lock b = Some p <-> f_lock x' = Some t) /\ (u <> t -> (holds_lock c = Some p <-> f_lock x' = Some u)).
Proof.
  intros [[-> ->]|[(q & x & Ex & El & -> & Ea & Eb)|(q & x & Ex & -> & Ea & Eb)]] Ep Ha Hc; [by eauto|..];
    (destruct (decide (p = q)) as [->|Hne]; [rewrite lookup_insert_eq in Ep; simplify_eq; cbn|rewrite lookup_insert_ne in Ep by done]).
  - split; [done|]. intros Hu. rewrite (Hc _ _ Ex), El. split; [done|intros [= ->]; done].
  - split; [|by eauto]. rewrite <- (Ha _ _ Ep), Ea, Eb. split; [intros [= ->]; done|done].
  - split; [by rewrite Eb|]. intros Hu. rewrite (Hc _ _ Ex). split; [|done]. intros E. pose proof (proj1 (Ha _ _ Ex) Ea). congruence.
  - split; [|by eauto]. rewrite <- (Ha _ _ Ep), Ea, Eb. split; [done|intros [= ->]; done].
Qed.

(** The chains see numbers and links only. *)
Lemma chains_same s h' t th th' o' :
  threads s !! t = Some th -> private (at_pc th') = private (at_pc th) ->
  (forall p, (fun x => (f_id x, f_next x)) <$> h' !! p = (fun x => (f_id x, f_next x)) <$> heap s !! p) ->
  chains s -> chains (MkSt h' (top s) (fh s) o' (<[t := th']> (threads s)) (fault s)).
Proof.
  intros Ht Hpr Hl [ch Hch]. exists ch. intros b. destruct (Hch b) as (C1 & C2 & C3). split; [|split; [done|]]; cbn [heap fh threads].
  - eapply chain_sim; [|exact C1]. intros p x _ Ex. specialize (Hl p). rewrite Ex in Hl. destruct (h' !! p) as [y|]; [|done].
    exists y. cbn in Hl. split; congruence.
  - intros p. rewrite (C3 p). specialize (Hl p). split; intros (x & Ex & Hid & Hp); rewrite Ex in Hl; cbn in Hl.
    + destruct (h' !! p) as [y|]; [|done]. cbn in Hl. exists y. rewrite (private_insert _ _ _ _ p Ht Hpr). split; [done|]. split; congruence.
    + destruct (heap s !! p) as [y|]; [|done]. cbn in Hl. exists y. rewrite (private_insert _ _ _ _ p Ht Hpr) in Hp. split; [done|]. split; congruence.
Qed.

Lemma relocked_linked h h' : relocked h h' ->
  forall p, (fun x => (f_id x, f_next x)) <$> h' !! p = (fun x => (f_id x, f_next x)) <$> h !! p.
Proof.
  intros Hr p. specialize (Hr p). destruct (h' !! p), (h !! p); cbn in *; [|done..].
  assert (set_lock None f = set_lock None f0) as E by congruence. apply set_lock_same in E as (_ & -> & ->). done.
Qed.

(** An object that only one thread knows is owned by no other thread. *)
Lemma last_alone s u th2 t th p :
  inv s -> threads s !! u = Some th2 -> private (at_pc th2) = Some p -> threads s !! t = Some th -> u <> t ->
  own p th <= 0 /\ private_in (threads s) p.
Proof.
  intros I Hu El Ht Hne. assert (owns (at_pc th2) = Some p) as Eo by (by destruct (at_pc th2)).
  pose proof (own_owns p th2 Eo) as H2. destruct (o_alive _ _ _ (i_threads s I u th2 Hu) p (or_introl H2)) as [x Ex].
  destruct (i_count s I p x Ex) as [E _]. rewrite (o_last _ _ _ (i_threads s I u th2 Hu) p x El Ex) in E.
  pose proof (sum_by_two (own p) (threads s) u t th2 th (own_nonneg p) Hne Hu Ht). split; [lia|].
  exists u, th2. split; [done|]. by destruct (at_pc th2).
Qed.

Lemma inv_locks s t th th' h' o' :
  inv s -> threads s !! t = Some th ->
  hash_move t (at_pc th) (at_pc th') (hashlock s) o' -> lock_move t (at_pc th) (at_pc th') (heap s) h' ->
  (forall p, own p th' = own p th) -> private (at_pc th') = private (at_pc th) ->
  (forall p, holding (at_pc th') = Some p -> p ∈ refs th') ->
  (forall p, found (at_pc th') = Some p -> is_Some (heap s !! p) /\ ~ private_in (threads s) p) ->
  (forall p, holds_lock (at_pc th') = Some p -> holds_lock (at_pc th) = None -> 0 < own p th \/ ~ private_in (threads s) p) ->
  (forall p, at_pc th' = LastFree p -> holds_lock (at_pc th) = Some p) ->
  inv (MkSt h' (top s) (fh s) o' (<[t := th']> (threads s)) (fault s)).
Proof.
  intros I Ht Hhash Hlock Hown Hpr Hhold Hfound Htake Hfree. pose proof I as [Hf Htop How Hows Hc Hth Hch].
  pose proof (lock_move_relocked _ _ _ _ _ Hlock) as Hre. pose proof (Hth t th Ht) as Ok.
  assert (forall p, is_Some (heap s !! p) -> is_Some (h' !! p)) as Hdom.
  { intros p [x Ex]. destruct (relocked_back _ _ _ _ Hre Ex) as (y & Ey & _). by exists y. }
  split; cbn [heap top fh hashlock threads fault].
  - done.
  - intros p Hp. specialize (Hre p). rewrite (Htop p Hp) in Hre. by destruct (h' !! p).
  - intros u Hu. destruct (decide (u = t)) as [->|Hne]; [rewrite list_lookup_insert_eq by (by eapply lookup_lt_Some); by eexists|].
    rewrite list_lookup_insert_ne by done. apply How. destruct Hhash as [[-> _]|[(_ & -> & _)|(_ & -> & _)]]; congruence.
  - intros p x u Ex Hu. destruct (decide (u = t)) as [->|Hne]; [rewrite list_lookup_insert_eq by (by eapply lookup_lt_Some); by eexists|].
    rewrite list_lookup_insert_ne by done. destruct Hlock as [[-> _]|[(q & y & Ey & _ & -> & _)|(q & y & Ey & -> & _)]]; [by eauto|..];
      (destruct (decide (p = q)) as [->|Hpq]; [rewrite lookup_insert_eq in Ex; simplify_eq; cbn in Hu; congruence|rewrite lookup_insert_ne in Ex by done; by eauto]).
  - intros p x Ex. destruct (relocked_some _ _ _ _ Hre Ex) as (y & Ey & E). apply set_lock_same in E as (<- & _).
    rewrite (sum_by_insert _ _ _ _ _ Ht), Hown. destruct (Hc p y Ey). split; [lia|done].
  - intros u th2 Hu. apply lookup_moved with (th := th) in Hu as [[-> ->]|[Hne Hu]]; [| |done].
    + destruct Ok as [O1 O2 O3 O4 O5 O6 O7]. split; cbn [heap hashlock threads].
      * apply (hash_move_ok t t _ _ (at_pc th) _ _ Hhash O1 O1).
      * intros p x Ex. apply (lock_move_ok t t _ _ (at_pc th) _ _ p x Hlock Ex O2 O2).
      * intros p Hp. destruct Hp as [Hp|[Hp|Hp]].
        -- apply Hdom, O3. left. by rewrite <- Hown.
        -- destruct Hlock as [[-> Eb]|[(q & y & Ey & _ & -> & _ & Eb)|(q & y & Ey & -> & _ & Eb)]]; rewrite Hp in Eb; simplify_eq.
           ++ apply O3. right. by left.
           ++ rewrite lookup_insert_eq. by eexists.
        -- by apply Hdom, Hfound.
      * intros p x Hp Ex. destruct (relocked_some _ _ _ _ Hre Ex) as (y & Ey & E). apply set_lock_same in E as (<- & _).
        apply (O4 p); [congruence|done].
      * exact Hhold.
      * intros p Hp. rewrite (private_insert _ _ _ _ p Ht Hpr). by apply Hfound.
      * intros p x Hp Ex. pose proof (Hfree p Hp) as Hl. destruct Hlock as [[-> Eb]|[(q & y & Ey & _ & -> & Ea & Eb)|(q & y & Ey & -> & Ea & Eb)]].
        -- rewrite Hl, Hp in Eb. done.
        -- congruence.
        -- assert (q = p) as -> by congruence. rewrite lookup_insert_eq in Ex. by simplify_eq.
    + destruct (Hth u th2 Hu) as [U1 U2 U3 U4 U5 U6 U7]. split; cbn [heap hashlock threads].
      * by apply (hash_move_ok t u _ _ _ _ _ Hhash (o_hash _ _ _ Ok) U1).
      * intros p x Ex. by apply (lock_move_ok t u _ _ (at_pc th2) _ _ p x Hlock Ex (o_lock _ _ _ Ok) U2).
      * intros p Hp. by apply Hdom, U3.
      * intros p x Hp Ex. destruct (relocked_some _ _ _ _ Hre Ex) as (y & Ey & E). apply set_lock_same in E as (<- & _). by apply (U4 p).
      * exact U5.
      * intros p Hp. rewrite (private_insert _ _ _ _ p Ht Hpr). by apply U6.
      * intros p x Hp Ex. destruct (last_alone s u th2 t th p I Hu ltac:(by rewrite Hp) Ht Hne) as [L1 L2].
        destruct Hlock as [[-> Eb]|[(q & y & Ey & _ & -> & Ea & Eb)|(q & y & Ey & -> & Ea & Eb)]]; [by eauto|..];
          (destruct (decide (p = q)) as [->|Hpq]; [rewrite lookup_insert_eq in Ex; simplify_eq|rewrite lookup_insert_ne in Ex by done; by eauto]); [|done].
        destruct (Htake q Eb Ea); [lia|done].
  - by eapply chains_same, Hch; [|done|apply relocked_linked].
Qed.

(** A counter that changes while its mutex is held. *)
Lemma inv_count s t th th' p x d :
  inv s -> threads s !! t = Some th -> heap s !! p = Some x ->
  holds_hash (at_pc th') = holds_hash (at_pc th) -> holds_lock (at_pc th') = holds_lock (at_pc th) ->
  holds_lock (at_pc th) = Some p -> found (at_pc th') = None ->
  private (at_pc th') = private (at_pc th) -> private (at_pc th') = None ->
  (forall q, holding (at_pc th') = Some q -> q ∈ refs th') ->
  (forall q, own q th' = own q th + is_some_of (Some p) q * d) -> 1 <= f_count x + d ->
  (forall u th2, threads s !! u = Some th2 -> private (at_pc th2) <> Some p) ->
  inv (MkSt (<[p := set_count (f_count x + d) x]> (heap s)) (top s) (fh s) (hashlock s) (<[t := th']> (threads s)) (fault s)).
Proof.
  intros I Ht Ex Hh Hl Hlp Hfd Hpr Hla Hhold Hown Hd Hlast. pose proof I as [Hf Htop How Hows Hc Hth Hch].
  assert (forall q y', <[p := set_count (f_count x + d) x]> (heap s) !! q = Some y' ->
    exists y, heap s !! q = Some y /\ f_lock y' = f_lock y /\ f_count y' = f_count y + is_some_of (Some p) q * d) as Hy.
  { intros q y' Ey. unfold is_some_of. destruct (decide (q = p)) as [->|Hne].
    - rewrite lookup_insert_eq in Ey. simplify_eq. exists x. rewrite decide_True by done. cbn. split; [done|]. split; [done|lia].
    - rewrite lookup_insert_ne in Ey by done. exists y'. rewrite decide_False by congruence. split; [done|]. split; [done|lia]. }
  assert (forall q, is_Some (heap s !! q) -> is_Some (<[p := set_count (f_count x + d) x]> (heap s) !! q)) as Hdom.
  { intros q Hq. apply lookup_insert_is_Some'. by right. }
  split; cbn [heap top fh hashlock threads fault].
  - done.
  - intros q Hq. rewrite lookup_insert_ne; [by apply Htop|]. intros ->. by rewrite (Htop q Hq) in Ex.
  - intros u Hu. apply list_lookup_insert_is_Some. by apply How.
  - intros q y' u Ey Hu. apply Hy in Ey as (y & Ey & El & _). rewrite list_lookup_insert_is_Some. apply (Hows q y); [done|congruence].
  - intros q y' Ey. apply Hy in Ey as (y & Ey & _ & E). destruct (Hc q y Ey) as [Ec Hpos].
    rewrite (sum_by_insert _ _ _ _ _ Ht), Hown, E. split; [lia|]. unfold is_some_of. case_decide; simplify_eq; lia.
  - intros u th2 Hu. apply lookup_moved with (th := th) in Hu as [[-> ->]|[Hne Hu]]; [| |done].
    + destruct (Hth t th Ht) as [O1 O2 O3 O4 O5 O6 O7]. split; cbn [heap hashlock threads].
      * by rewrite Hh.
      * intros q y' Ey. apply Hy in Ey as (y & Ey & -> & _). rewrite Hl. by apply O2.
      * intros q [Hq|[Hq|Hq]]; [|rewrite Hl in Hq; apply Hdom, O3; auto|congruence].
        rewrite Hown in Hq. unfold is_some_of in Hq. apply Hdom. case_decide; simplify_eq; [done|]. apply O3. left. lia.
      * congruence.
      * done.
      * congruence.
      * intros q y' Eq. by rewrite Eq in Hla.
    + destruct (Hth u th2 Hu) as [U1 U2 U3 U4 U5 U6 U7]. split; cbn [heap hashlock threads].
      * done.
      * intros q y' Ey. apply Hy in Ey as (y & Ey & -> & _). by apply U2.
      * intros q Hq. by apply Hdom, U3.
      * intros q y' Hq Ey. apply Hy in Ey as (y & Ey & _ & ->). rewrite (U4 q y Hq Ey). unfold is_some_of. rewrite decide_False; [lia|].
        intros [= ->]. by destruct (Hlast u th2 Hu).
      * done.
      * intros q Hq. rewrite (private_insert _ _ _ _ q Ht Hpr). by apply U6.
      * intros q y' Hq Ey. apply Hy in Ey as (y & Ey & -> & _). by eapply U7.
  - eapply chains_same, Hch; [done..|]. intros q. destruct (decide (q = p)) as [->|Hne]; [by rewrite lookup_insert_eq, Ex|by rewrite lookup_insert_ne].
Qed.

(** ** Links

    The thread that holds the mutex of the table puts an object in a chain, or takes it out. *)

Definition relinked (h h' : gmap nat foo) : Prop := forall p, set_link None <$> h' !! p = set_link None <$> h !! p.

Lemma relinked_some h h' p x : relinked h h' -> h' !! p = Some x ->
  exists y, h !! p = Some y /\ f_count y = f_count x /\ f_lock y = f_lock x /\ f_id y = f_id x.
Proof.
  intros Hr E. specialize (Hr p). rewrite E in Hr. destruct (h !! p) as [y|]; [|done]. exists y. cbn in Hr.
  assert (set_link None x = set_link None y) as H by congruence. unfold set_link in H. by simplify_eq.
Qed.

Lemma relinked_put h p x n : h !! p = Some x -> relinked h (<[p := set_link n x]> h).
Proof. intros E q. destruct (decide (q = p)) as [->|Hne]; [by rewrite lookup_insert_eq, E|by rewrite lookup_insert_ne]. Qed.

Lemma hash_alone s t u th th2 : inv s -> threads s !! t = Some th -> threads s !! u = Some th2 ->
  holds_hash (at_pc th) = true -> holds_hash (at_pc th2) = true -> u = t.
Proof.
  intros I Ht Hu H1 H2. apply (o_hash _ _ _ (i_threads s I t th Ht)) in H1. apply (o_hash _ _ _ (i_threads s I u th2 Hu)) in H2. congruence.
Qed.

Lemma found_hash a p : found a = Some p -> holds_hash a = true.
Proof. by destruct a. Qed.

Lemma inv_links s t th th' h' fh' :
  inv s -> threads s !! t = Some th -> relinked (heap s) h' ->
  holds_hash (at_pc th) = true -> holds_hash (at_pc th') = true -> holds_lock (at_pc th') = holds_lock (at_pc th) ->
  found (at_pc th') = None -> holding (at_pc th') = None -> (forall p, at_pc th' <> LastFree p) ->
  (forall p x, private (at_pc th') = Some p -> heap s !! p = Some x -> f_count x = 1) ->
  (forall p, own p th' = own p th) ->
  chains (MkSt h' (top s) fh' (hashlock s) (<[t := th']> (threads s)) (fault s)) ->
  inv (MkSt h' (top s) fh' (hashlock s) (<[t := th']> (threads s)) (fault s)).
Proof.
  intros I Ht Hre Hh Hh' Hl Hfd Hhold Hfree Hpr Hown Hchains. pose proof I as [Hf Htop How Hows Hc Hth Hch].
  assert (forall p, is_Some (heap s !! p) -> is_Some (h' !! p)) as Hdom.
  { intros p [x Ex]. specialize (Hre p). rewrite Ex in Hre. by destruct (h' !! p). }
  split; cbn [heap top fh hashlock threads fault].
  - done.
  - intros p Hp. specialize (Hre p). rewrite (Htop p Hp) in Hre. by destruct (h' !! p).
  - intros u Hu. apply list_lookup_insert_is_Some. by apply How.
  - intros p x u Ex Hu. destruct (relinked_some _ _ _ _ Hre Ex) as (y & Ey & _ & E & _). apply list_lookup_insert_is_Some.
    apply (Hows p y); [done|congruence].
  - intros p x Ex. destruct (relinked_some _ _ _ _ Hre Ex) as (y & Ey & <- & _).
    rewrite (sum_by_insert _ _ _ _ _ Ht), Hown. destruct (Hc p y Ey). split; [lia|done].
  - intros u th2 Hu. apply lookup_moved with (th := th) in Hu as [[-> ->]|[Hne Hu]]; [| |done].
    + destruct (Hth t th Ht) as [O1 O2 O3 O4 O5 O6 O7]. split; cbn [heap hashlock threads].
      * rewrite Hh'. by rewrite Hh in O1.
      * intros p x Ex. destruct (relinked_some _ _ _ _ Hre Ex) as (y & Ey & _ & <- & _). rewrite Hl. by apply O2.
      * intros p. rewrite Hown, Hl, Hfd. intros Hp. apply Hdom, O3. destruct Hp as [Hp|[Hp|Hp]]; [by left|by right; left|done].
      * intros p x Hp Ex. destruct (relinked_some _ _ _ _ Hre Ex) as (y & Ey & <- & _). by apply (Hpr p).
      * by rewrite Hhold.
      * by rewrite Hfd.
      * intros p x Hp. by destruct (Hfree p).
    + destruct (Hth u th2 Hu) as [U1 U2 U3 U4 U5 U6 U7]. split; cbn [heap hashlock threads].
      * done.
      * intros p x Ex. destruct (relinked_some _ _ _ _ Hre Ex) as (y & Ey & _ & <- & _). by apply U2.
      * intros p Hp. by apply Hdom, U3.
      * intros p x Hp Ex. destruct (relinked_some _ _ _ _ Hre Ex) as (y & Ey & <- & _). by apply (U4 p).
      * done.
      * intros p Hp. destruct Hne. by apply (hash_alone s t u th th2 I Ht Hu Hh), (found_hash _ p).
      * intros p x Hp Ex. destruct (relinked_some _ _ _ _ Hre Ex) as (y & Ey & _ & <- & _). by apply (U7 p).
  - done.
Qed.

(** A chain that does not go through an object does not see its link. *)
Lemma chain_other h hd l p x : p ∉ l -> chain h hd l -> chain (<[p := x]> h) hd l.
Proof. intros Hp. apply chain_sim. intros q y Hq Ey. exists y. rewrite lookup_insert_ne; [done|]. by intros ->. Qed.

Lemma own_not_private s t th p : inv s -> threads s !! t = Some th -> 0 < own p th -> private (at_pc th) <> Some p -> ~ private_in (threads s) p.
Proof.
  intros I Ht Ho Hn (u & th2 & Hu & Hp). destruct (decide (u = t)) as [->|Hne]; [by simplify_eq|].
  destruct (last_alone s u th2 t th p I Hu Hp Ht Hne). lia.
Qed.

Lemma inv_link s t p r x :
  inv s -> threads s !! t = Some (MkThread (AllocLink p) r) -> heap s !! p = Some x ->
  inv (MkSt (<[p := set_link (fh s !! HASH (f_id x)) x]> (heap s)) (top s) (<[HASH (f_id x) := p]> (fh s)) (hashlock s)
         (<[t := MkThread (AllocLock p) r]> (threads s)) (fault s)).
Proof.
  intros I Ht Ex. apply (inv_links s t (MkThread (AllocLink p) r)); try done; [by apply relinked_put|].
  assert (private_in (threads s) p) as Hpriv by (by exists t, (MkThread (AllocLink p) r)).
  assert (~ private_in (<[t := MkThread (AllocLock p) r]> (threads s)) p) as Hpub.
  { intros (u & th2 & Hu & Hp). apply lookup_moved with (th := MkThread (AllocLink p) r) in Hu as [[-> ->]|[Hne Hu]]; [done| |done].
    destruct (last_alone s u th2 t _ p I Hu Hp Ht Hne) as [H _].
    pose proof (own_owns p (MkThread (AllocLink p) r) eq_refl). lia. }
  destruct (i_chains s I) as [ch Hch]. set (b := HASH (f_id x)) in *.
  exists (fun c => if decide (c = b) then p :: ch b else ch c). cbn [heap fh threads]. intros c.
  assert (forall c, p ∉ ch c) as Hout. { intros c' Hin. apply (Hch c') in Hin as (_ & _ & _ & Hn). done. }
  destruct (Hch c) as (C1 & C2 & C3).
  assert (forall q, q <> p -> (exists y, <[p := set_link (fh s !! b) x]> (heap s) !! q = Some y /\ HASH (f_id y) = c /\
      ~ private_in (<[t := MkThread (AllocLock p) r]> (threads s)) q) <-> q ∈ ch c) as Hq.
  { intros q Hne. rewrite (C3 q), lookup_insert_ne by done.
    pose proof (private_insert_iff (threads s) t (MkThread (AllocLink p) r) (MkThread (AllocLock p) r) q Ht
      ltac:(split; [done|]; by intros [= ->])) as E.
    split; intros (y & Ey & Hy & Hp); exists y; (split; [done|]; split; [done|]); by rewrite E in *. }
  case_decide as Hc.
  - subst c. split; [|split].
    + split; [by rewrite lookup_insert_eq|]. eexists. rewrite lookup_insert_eq. split; [done|]. by apply chain_other.
    + by constructor.
    + intros q. rewrite elem_of_cons. destruct (decide (q = p)) as [->|Hne].
      * split; [|by left]. intros _. eexists. by rewrite lookup_insert_eq.
      * rewrite Hq by done. naive_solver.
  - split; [|split; [done|]].
    + rewrite lookup_insert_ne by done. by apply chain_other.
    + intros q. destruct (decide (q = p)) as [->|Hne]; [|by rewrite Hq].
      split; [by intros []%Hout|]. rewrite lookup_insert_eq. intros (y & [= <-] & Hy & _). by destruct Hc.
Qed.

(** ** Walks along a chain *)

Lemma chain_elem h hd l p : chain h hd l -> p ∈ l -> is_Some (h !! p).
Proof.
  revert hd. induction l as [|q l IH]; intros hd Hc Hin; [by apply elem_of_nil in Hin|]. destruct Hc as (_ & x & Ex & Hc).
  apply elem_of_cons in Hin as [->|Hin]; [by exists x|by eapply IH].
Qed.

Lemma chain_length h hd l : chain h hd l -> NoDup l -> (length l <= size h)%nat.
Proof.
  intros Hc Hn. rewrite <- size_dom, <- (size_list_to_set (C := gset nat)) by done. apply subseteq_size. intros p Hp.
  apply elem_of_list_to_set in Hp. apply elem_of_dom. by eapply chain_elem.
Qed.

(** [foo_find] gives the first object of the chain that has the number. *)
Lemma find_id_chain h id hd l fuel : chain h hd l -> (length l < fuel)%nat ->
  exists r, find_id fuel h id hd = Some r /\
    match r with
    | Some p => p ∈ l /\ exists x, h !! p = Some x /\ f_id x = id
    | None => forall p x, p ∈ l -> h !! p = Some x -> f_id x <> id
    end.
Proof.
  revert hd fuel. induction l as [|q l IH]; intros hd [|fuel] Hc Hf; cbn in Hf; [lia| |lia|].
  - cbn in Hc. subst hd. exists None. split; [done|]. intros p x Hp. by apply elem_of_nil in Hp.
  - destruct Hc as (-> & x & Ex & Hc). cbn [find_id]. rewrite Ex. destruct (Z.eqb_spec (f_id x) id) as [E|Hne].
    + exists (Some q). split; [done|]. split; [by left|by exists x].
    + destruct (IH _ fuel Hc ltac:(lia)) as (r & -> & H). exists r. split; [done|]. destruct r as [p|].
      * destruct H. split; [by right|done].
      * intros p y Hp Ey. apply elem_of_cons in Hp as [->|Hp]; [congruence|by apply (H p)].
Qed.

(** The walk of [foo_rele] stops at the object before. *)
Lemma find_before_chain h hd l1 b p l2 q fuel : chain h hd (l1 ++ b :: p :: l2) -> NoDup (l1 ++ b :: p :: l2) ->
  hd = Some q -> (length l1 < fuel)%nat -> find_before fuel h p q = Some b.
Proof.
  revert hd q fuel. induction l1 as [|c l1 IH]; intros hd q [|fuel] Hc Hn -> Hf; cbn in Hf; [lia| |lia|]; cbn [find_before].
  - destruct Hc as ([= ->] & x & -> & -> & _). by rewrite Nat.eqb_refl.
  - destruct Hc as ([= ->] & x & -> & Hc). cbn [app] in Hn. apply NoDup_cons in Hn as [_ Hn]. destruct l1 as [|d l1].
    + cbn [app] in Hc. pose proof (proj1 Hc) as E. rewrite E. cbn [app] in Hn. destruct (Nat.eqb_spec b p) as [->|Hne].
      * apply NoDup_cons in Hn as [Hn _]. by destruct Hn; left.
      * apply (IH (f_next x)); [done|done|done|lia].
    + pose proof (proj1 Hc) as E. rewrite E. destruct (Nat.eqb_spec d p) as [->|Hne].
      * cbn [app] in Hn. apply NoDup_cons in Hn as [Hn _]. destruct Hn. apply elem_of_app. right. right. left.
      * apply (IH (f_next x)); [done|done|done|lia].
Qed.

(** [tfp->f_next = fp->f_next] takes the object out. *)
Lemma chain_cut h hd l1 b p l2 x y : chain h hd (l1 ++ b :: p :: l2) -> NoDup (l1 ++ b :: p :: l2) ->
  h !! b = Some y -> h !! p = Some x -> chain (<[b := set_link (f_next x) y]> h) hd (l1 ++ b :: l2).
Proof.
  intros Hc Hn Eb Ep. revert hd Hc Hn. induction l1 as [|c l1 IH]; intros hd Hc Hn.
  - destruct Hc as (-> & y' & Ey & E & x' & Ex & Hc). simplify_eq. split; [done|]. eexists. rewrite lookup_insert_eq. split; [done|].
    apply chain_other; [|done]. cbn [app] in Hn. apply NoDup_cons in Hn as [Hn _]. intros Hin. apply Hn. by right.
  - destruct Hc as (-> & z & Ez & Hc). cbn [app] in Hn. apply NoDup_cons in Hn as [Hcn Hn]. split; [done|]. exists z.
    rewrite lookup_insert_ne by (intros ->; apply Hcn, elem_of_app; right; left). split; [done|]. by apply IH.
Qed.

(** The last reference takes the object out of its chain. *)
Lemma inv_cut s t p r x ch h' fh' l1 l2 :
  inv s -> threads s !! t = Some (MkThread (ReleRetest p) r) -> heap s !! p = Some x -> f_count x = 1 -> relinked (heap s) h' ->
  (forall b q, q ∈ ch b <-> exists y, heap s !! q = Some y /\ HASH (f_id y) = b /\ ~ private_in (threads s) q) ->
  ch (HASH (f_id x)) = l1 ++ p :: l2 -> (forall b, NoDup (ch b)) ->
  chain h' (fh' !! HASH (f_id x)) (l1 ++ l2) -> (forall b, b <> HASH (f_id x) -> chain h' (fh' !! b) (ch b)) ->
  inv (MkSt h' (top s) fh' (hashlock s) (<[t := MkThread (LastUnhash p) r]> (threads s)) (fault s)).
Proof.
  intros I Ht Ex Hone Hre Hmem Hl Hnd Hc1 Hc2.
  apply (inv_links s t (MkThread (ReleRetest p) r)); try done; [by intros q y [= <-] ?; simplify_eq|].
  assert (forall q, q <> p -> private_in (<[t := MkThread (LastUnhash p) r]> (threads s)) q <-> private_in (threads s) q) as Hq.
  { intros q Hne. apply (private_insert_iff _ _ _ _ _ Ht). split; [by intros [= ->]|done]. }
  assert (private_in (<[t := MkThread (LastUnhash p) r]> (threads s)) p) as Hp.
  { exists t, (MkThread (LastUnhash p) r). by rewrite list_lookup_insert_eq by (by eapply lookup_lt_Some). }
  assert (NoDup (l1 ++ p :: l2)) as Hn by (by rewrite <- Hl).
  rewrite <- Permutation_middle, NoDup_cons in Hn. destruct Hn as [Hout Hn].
  assert (forall c q, q <> p -> q ∈ ch c <-> exists y, h' !! q = Some y /\ HASH (f_id y) = c /\
      ~ private_in (<[t := MkThread (LastUnhash p) r]> (threads s)) q) as Hm.
  { intros c q Hne. rewrite Hmem. pose proof (Hq q Hne) as E. specialize (Hre q). split; intros (y & Ey & Hy & Hpr); rewrite Ey in Hre; cbn in Hre.
    - destruct (h' !! q) as [z|]; [|done]. unfold set_link in Hre. cbn in Hre. exists z. rewrite E. split; [done|]. split; [congruence|done].
    - destruct (heap s !! q) as [z|]; [|done]. unfold set_link in Hre. cbn in Hre. exists z. rewrite <- E. split; [done|]. split; [congruence|done]. }
  exists (fun c => if decide (c = HASH (f_id x)) then l1 ++ l2 else ch c). cbn [heap fh threads]. intros c. case_decide as Hc.
  - subst c. split; [done|]. split; [done|]. intros q. destruct (decide (q = p)) as [->|Hne]; [naive_solver|].
    rewrite <- Hm by done. rewrite Hl, <- Permutation_middle, elem_of_cons. naive_solver.
  - split; [by apply Hc2|]. split; [done|]. intros q. destruct (decide (q = p)) as [->|Hne]; [|by apply Hm].
    rewrite Hmem. split; [|naive_solver]. intros (y & Ey & Hy & _). simplify_eq.
Qed.

Lemma inv_unlink s t p r x :
  inv s -> threads s !! t = Some (MkThread (ReleRetest p) r) -> heap s !! p = Some x -> f_count x = 1 ->
  exists s', unlink p x s = Some s' /\ inv (move t (LastUnhash p) r s').
Proof.
  intros I Ht Ex Hone. destruct (i_chains s I) as [ch Hch]. set (b := HASH (f_id x)).
  assert (forall c q, q ∈ ch c <-> exists y, heap s !! q = Some y /\ HASH (f_id y) = c /\ ~ private_in (threads s) q) as Hmem by (intros c; apply Hch).
  assert (forall c, NoDup (ch c)) as Hnd by (intros c; apply Hch).
  assert (p ∈ ch b) as Hin.
  { apply Hmem. exists x. split; [done|]. split; [done|]. apply (own_not_private s t _ p I Ht); [by apply own_owns|done]. }
  destruct (Hch b) as (Hc & _ & _). destruct (list_elem_of_split _ _ Hin) as (l1 & l2 & El). pose proof (chain_length _ _ _ Hc (Hnd b)) as Hlen.
  unfold unlink. fold b. rewrite El in Hc, Hlen. pose proof (Hnd b) as Hn. rewrite El in Hn.
  destruct l1 as [|q l1 _] using rev_ind.
  - destruct Hc as (E & x' & Ex' & Hc). simplify_eq. rewrite E, Nat.eqb_refl. eexists. split; [done|].
    apply (inv_cut s t p r x ch (heap s) _ [] l2); try done; fold b.
    + cbn [fh app]. destruct (f_next x); [by rewrite lookup_insert_eq|by rewrite lookup_delete_eq].
    + intros c Hne. cbn [fh]. destruct (f_next x); [rewrite lookup_insert_ne by done|rewrite lookup_delete_ne by done]; apply Hch.
  - rewrite <- app_assoc in Hc, Hn. cbn [app] in Hc, Hn.
    assert (exists d, fh s !! b = Some d /\ d <> p) as (d & Ed & Hd).
    { destruct l1 as [|d l1]; destruct Hc as (E & _); [exists q|exists d]; (split; [done|]); intros ->; cbn [app] in Hn; apply NoDup_cons in Hn as [Hn _]; apply Hn.
      - by left.
      - apply elem_of_app. right. by right; left. }
    rewrite Ed. rewrite (proj2 (Nat.eqb_neq d p) Hd).
    rewrite (find_before_chain _ _ l1 q p l2 d _ Hc Hn Ed) by (rewrite !length_app in Hlen; lia).
    destruct (chain_elem _ _ _ q Hc ltac:(apply elem_of_app; right; left)) as [y Ey]. rewrite Ey. eexists. split; [done|].
    apply (inv_cut s t p r x ch _ (fh s) (l1 ++ [q]) l2); try done; fold b.
    + by apply relinked_put.
    + rewrite <- app_assoc. cbn [app]. by eapply chain_cut.
    + intros c Hne. apply chain_other; [|apply Hch]. rewrite Hmem. intros (y' & Ey' & Hy & _).
      assert (q ∈ ch b) as Hq by (rewrite El; apply elem_of_app; left; apply elem_of_app; right; left).
      apply Hmem in Hq as (y2 & Ey2 & Hy2 & _). congruence.
Qed.

(** ** Objects come and go *)

Lemma nobody_owns s p t th : inv s -> heap s !! p = None -> threads s !! t = Some th ->
  own p th = 0 /\ holds_lock (at_pc th) <> Some p /\ found (at_pc th) <> Some p /\ private (at_pc th) <> Some p.
Proof.
  intros I Ep Ht. pose proof (o_alive _ _ _ (i_threads s I t th Ht) p) as H. pose proof (own_nonneg p th) as H0.
  rewrite Ep in H. assert (~ (0 < own p th)) as Ho by (intros Ho; destruct H; [by left|done]).
  split; [lia|]. split; [|split]; intros E; [destruct H; [by right; left|done]|destruct H; [by right; right|done]|].
  apply Ho, own_owns. by destruct (at_pc th).
Qed.

Lemma sum_none s p : inv s -> heap s !! p = None -> sum_by (own p) (threads s) = 0.
Proof.
  intros I Ep. pose proof (sum_by_bound (own p) 0 0 (threads s)) as H. specialize (H ltac:(intros th Hin;
    apply list_elem_of_lookup in Hin as (t & Ht); destruct (nobody_owns s p t th I Ep Ht); lia)). lia.
Qed.

Lemma inv_alloc s t r id :
  inv s -> threads s !! t = Some (MkThread Idle r) ->
  inv (MkSt (<[top s := MkFoo 1 None id None]> (heap s)) (S (top s)) (fh s) (hashlock s)
         (<[t := MkThread (AllocHash (top s)) r]> (threads s)) (fault s)).
Proof.
  intros I Ht. pose proof I as [Hf Htop How Hows Hc Hth Hch]. set (p := top s) in *. pose proof (Htop p (le_n p)) as Ep.
  assert (forall q, own q (MkThread (AllocHash p) r) = own q (MkThread Idle r) + is_some_of (Some p) q) as Hown.
  { intros q. unfold own. cbn [refs at_pc owns]. unfold is_some_of at 2. rewrite decide_False by done. lia. }
  assert (forall q, q <> p -> private_in (<[t := MkThread (AllocHash p) r]> (threads s)) q <-> private_in (threads s) q) as Hpr.
  { intros q Hne. apply (private_insert_iff _ _ _ _ _ Ht). split; [by intros [= ->]|done]. }
  split; cbn [heap top fh hashlock threads fault].
  - done.
  - intros q Hq. rewrite lookup_insert_ne by lia. apply Htop. lia.
  - intros u Hu. apply list_lookup_insert_is_Some. by apply How.
  - intros q x u Ex Hu. apply list_lookup_insert_is_Some. destruct (decide (q = p)) as [->|Hne].
    + rewrite lookup_insert_eq in Ex. by simplify_eq.
    + rewrite lookup_insert_ne in Ex by done. by eapply Hows.
  - intros q x Ex. rewrite (sum_by_insert _ _ _ _ _ Ht), Hown. destruct (decide (q = p)) as [->|Hne].
    + rewrite lookup_insert_eq in Ex. simplify_eq. rewrite (sum_none s p I Ep). unfold is_some_of. rewrite decide_True by done. cbn. lia.
    + rewrite lookup_insert_ne in Ex by done. destruct (Hc q x Ex). unfold is_some_of. rewrite decide_False by congruence. lia.
  - intros u th2 Hu. apply lookup_moved with (th := MkThread Idle r) in Hu as [[-> ->]|[Hne Hu]]; [| |done].
    + destruct (Hth t _ Ht) as [O1 O2 O3 O4 O5 O6 O7]. split; cbn [heap hashlock threads at_pc]; try done.
      * intros q x Ex. destruct (decide (q = p)) as [->|Hne]; [rewrite lookup_insert_eq in Ex; by simplify_eq|].
        rewrite lookup_insert_ne in Ex by done. by apply O2.
      * intros q [Hq|[Hq|Hq]]; [|done..]. apply lookup_insert_is_Some'. rewrite Hown in Hq. unfold is_some_of in Hq.
        case_decide; [left; congruence|right; apply O3; left; lia].
      * intros q x [= <-] Ex. rewrite lookup_insert_eq in Ex. by simplify_eq.
    + destruct (Hth u th2 Hu) as [U1 U2 U3 U4 U5 U6 U7]. destruct (nobody_owns s p u th2 I Ep Hu) as (N1 & N2 & N3 & N4).
      split; cbn [heap hashlock threads].
      * done.
      * intros q x Ex. destruct (decide (q = p)) as [->|Hq]; [rewrite lookup_insert_eq in Ex; by simplify_eq|].
        rewrite lookup_insert_ne in Ex by done. by apply U2.
      * intros q Hq. apply lookup_insert_is_Some'. right. by apply U3.
      * intros q x Hq Ex. rewrite lookup_insert_ne in Ex by congruence. by eapply U4.
      * done.
      * intros q Hq. rewrite Hpr by congruence. by apply U6.
      * intros q x Hq Ex. rewrite lookup_insert_ne in Ex by (intros ->; by rewrite Hq in N4). by eapply U7.
  - destruct Hch as [ch Hch]. exists ch. intros b. destruct (Hch b) as (C1 & C2 & C3). cbn [heap fh threads].
    assert (p ∉ ch b) as Hout by (rewrite C3; intros (x & Ex & _); congruence).
    split; [by apply chain_other|]. split; [done|]. intros q. destruct (decide (q = p)) as [->|Hne].
    + split; [done|]. intros (x & _ & _ & Hn). destruct Hn. exists t, (MkThread (AllocHash p) r).
      by rewrite list_lookup_insert_eq by (by eapply lookup_lt_Some).
    + rewrite C3, lookup_insert_ne by done. pose proof (Hpr q Hne). naive_solver.
Qed.

Lemma inv_free s t r p x :
  inv s -> threads s !! t = Some (MkThread (LastFree p) r) -> heap s !! p = Some x ->
  inv (MkSt (delete p (heap s)) (top s) (fh s) (hashlock s) (<[t := MkThread Idle r]> (threads s)) (fault s)).
Proof.
  intros I Ht Ex. pose proof I as [Hf Htop How Hows Hc Hth Hch].
  assert (forall q y, delete p (heap s) !! q = Some y -> q <> p /\ heap s !! q = Some y) as Hd.
  { intros q y Ey. by apply lookup_delete_Some in Ey as [? ?]. }
  assert (forall q, q <> p -> own q (MkThread Idle r) = own q (MkThread (LastFree p) r)) as Hown.
  { intros q Hq. unfold own, is_some_of. cbn [refs at_pc owns]. by rewrite (decide_False (P := Some p = Some q)) by congruence. }
  assert (own p (MkThread Idle r) = 0) as Hown0.
  { pose proof (sum_by_ge (own p) _ _ _ (own_nonneg p) Ht) as Hle. destruct (Hc p x Ex) as [E _].
    rewrite (o_last _ _ _ (Hth t _ Ht) p x eq_refl Ex) in E. pose proof (own_nonneg p (MkThread Idle r)) as H0. rewrite <- E in Hle. revert Hle H0.
    unfold own, is_some_of. cbn [refs at_pc owns]. rewrite decide_True, decide_False by done. lia. }
  assert (private_in (threads s) p) as Hp by (by exists t, (MkThread (LastFree p) r)).
  assert (forall q, q <> p -> private_in (<[t := MkThread Idle r]> (threads s)) q <-> private_in (threads s) q) as Hpr.
  { intros q Hne. apply (private_insert_iff _ _ _ _ _ Ht). split; [done|by intros [= ->]]. }
  split; cbn [heap top fh hashlock threads fault].
  - done.
  - intros q Hq. apply lookup_delete_None. right. by apply Htop.
  - intros u Hu. apply list_lookup_insert_is_Some. by apply How.
  - intros q y u Ey Hu. apply list_lookup_insert_is_Some. apply Hd in Ey as [_ Ey]. by eapply Hows.
  - intros q y Ey. apply Hd in Ey as [Hq Ey]. rewrite (sum_by_insert _ _ _ _ _ Ht), Hown by done. destruct (Hc q y Ey). lia.
  - intros u th2 Hu. apply lookup_moved with (th := MkThread (LastFree p) r) in Hu as [[-> ->]|[Hne Hu]]; [| |done].
    + destruct (Hth t _ Ht) as [O1 O2 O3 O4 O5 O6 O7]. split; cbn [heap hashlock threads at_pc]; try done.
      * intros q y Ey. apply Hd in Ey as [_ Ey]. by apply O2.
      * intros q [Hq|[Hq|Hq]]; [|done..]. assert (q <> p) as Hne by (intros ->; lia). rewrite lookup_delete_ne by done.
        apply O3. left. by rewrite <- Hown.
    + destruct (Hth u th2 Hu) as [U1 U2 U3 U4 U5 U6 U7]. split; cbn [heap hashlock threads].
      * done.
      * intros q y Ey. apply Hd in Ey as [_ Ey]. by apply U2.
      * intros q Hq. rewrite lookup_delete_ne; [by apply U3|]. intros <-.
        destruct (last_alone s t _ u th2 p I Ht eq_refl Hu ltac:(done)) as [L _]. destruct Hq as [Hq|[Hq|Hq]]; [lia| |by apply (U6 p)].
        apply (U2 p x Ex) in Hq. by rewrite (o_free _ _ _ (Hth t _ Ht) p x eq_refl Ex) in Hq.
      * intros q y Hq Ey. apply Hd in Ey as [_ Ey]. by eapply U4.
      * done.
      * intros q Hq. rewrite Hpr; [by apply U6|]. intros ->. by apply (U6 p).
      * intros q y Hq Ey. apply Hd in Ey as [_ Ey]. by eapply U7.
  - destruct Hch as [ch Hch]. exists ch. intros b. destruct (Hch b) as (C1 & C2 & C3). cbn [heap fh threads].
    assert (p ∉ ch b) as Hout by (rewrite C3; naive_solver).
    split; [|split; [done|]].
    + eapply chain_sim; [|exact C1]. intros q y Hq Ey. exists y. rewrite lookup_delete_ne; [done|]. by intros ->.
    + intros q. destruct (decide (q = p)) as [->|Hne].
      * rewrite lookup_delete_eq. split; [done|]. by intros (y & Ey & _).
      * rewrite C3, lookup_delete_ne by done. pose proof (Hpr q Hne). naive_solver.
Qed.

(** ** Every step *)

Lemma alive s t a r p :
  inv s -> threads s !! t = Some (MkThread a r) ->
  owns a = Some p \/ holds_lock a = Some p \/ found a = Some p \/ holding a = Some p \/ p ∈ r -> exists x, heap s !! p = Some x.
Proof.
  intros I Ht H. pose proof (i_threads s I t _ Ht) as O. apply (o_alive _ _ _ O p). cbn [at_pc].
  destruct H as [H|[H|[H|H]]]; [left; by apply own_owns|right; by left|right; by right|left; apply own_in_refs; cbn].
  destruct H as [H|H]; [by apply (o_hold _ _ _ O)|done].
Qed.

Lemma own_same a b r q : owns b = owns a -> own q (MkThread b r) = own q (MkThread a r).
Proof. intros E. unfold own. cbn. by rewrite E. Qed.

Lemma own_taken a p r q : owns a = Some p -> own q (MkThread Idle (p :: r)) = own q (MkThread a r).
Proof.
  intros E. unfold own, is_some_of. cbn [refs at_pc owns]. rewrite E, sum_by_cons, (decide_False (P := None = Some q)) by done.
  destruct (decide (p = q)) as [->|Hne]; [rewrite decide_True by done; lia|rewrite decide_False by congruence; lia].
Qed.

Section Moves.
Context (s s' : st) (t : nat) (a b : pc) (r r' : list nat) (I : inv s) (Ht : threads s !! t = Some (MkThread a r)).

Lemma lock_hash_inv : lock_hash t (move t b r) s = Some s' -> holds_hash b = true -> holds_lock b = holds_lock a ->
  owns b = owns a -> private b = private a -> holding b = None -> found b = None -> (forall p, b <> LastFree p) -> inv s'.
Proof using I Ht.
  unfold lock_hash. destruct (hashlock s) as [|] eqn:Eh; [done|]. intros [= <-] H1 H2 H3 H4 H5 H6 H7.
  apply (inv_locks s t (MkThread a r) (MkThread b r)); cbn [at_pc refs]; try done.
  - right. by left.
  - by left.
  - intros q. by apply own_same.
  - by rewrite H5.
  - by rewrite H6.
  - congruence.
  - intros p E. by destruct (H7 p).
Qed.

Lemma unlock_hash_inv : holds_hash a = true -> holds_hash b = false -> holds_lock b = holds_lock a ->
  (forall q, own q (MkThread b r') = own q (MkThread a r)) -> private b = private a -> holding b = None -> found b = None ->
  (forall p, b <> LastFree p) -> inv (move t b r' (set_hashlock None s)).
Proof using I Ht.
  intros H1 H2 H3 H4 H5 H6 H7 H8. apply (o_hash _ _ _ (i_threads s I t _ Ht)) in H1.
  apply (inv_locks s t (MkThread a r) (MkThread b r')); cbn [at_pc refs]; try done.
  - right. by right.
  - by left.
  - by rewrite H6.
  - by rewrite H7.
  - congruence.
  - intros p E. by destruct (H8 p).
Qed.

Lemma lock_inv p : lock t p (move t b r) s = Some s' -> is_Some (heap s !! p) -> holds_hash b = holds_hash a ->
  holds_lock a = None -> holds_lock b = Some p -> owns b = owns a -> private b = private a ->
  (forall q, holding b = Some q -> q ∈ r) -> (forall q, found b = Some q -> found a = Some q) ->
  0 < own p (MkThread a r) \/ found a = Some p -> inv s'.
Proof using I Ht.
  unfold lock, access. intros E [x Ex] H1 H2 H3 H4 H5 H6 H7 H8. rewrite Ex in E. destruct (f_lock x) as [|] eqn:El; [done|]. simplify_eq.
  pose proof (i_threads s I t _ Ht) as O. apply (inv_locks s t (MkThread a r) (MkThread b r)); cbn [at_pc refs]; try done.
  - by left.
  - right. left. by exists p, x.
  - intros q. by apply own_same.
  - intros q Hq. apply H7 in Hq. split; [apply (o_alive _ _ _ O); by right; right|by apply (o_found _ _ _ O)].
  - intros q Hq _. assert (q = p) as -> by congruence. destruct H8 as [H8|H8]; [by left|right; by apply (o_found _ _ _ O)].
  - intros q ->. done.
Qed.

Lemma unlock_inv p : unlock t p (move t b r') s = Some s' -> holds_lock a = Some p -> holds_hash b = holds_hash a ->
  holds_lock b = None -> (forall q, own q (MkThread b r') = own q (MkThread a r)) -> private b = private a -> holding b = None ->
  found b = None -> (forall q, b = LastFree q -> p = q) -> inv s'.
Proof using I Ht.
  unfold unlock, access. intros E H1 H2 H3 H4 H5 H6 H7 H8. pose proof (i_threads s I t _ Ht) as O.
  destruct (alive s t a r p I Ht) as [x Ex]; [by right; left|]. rewrite Ex in E.
  rewrite decide_True in E by (by apply (o_lock _ _ _ O p x Ex)). simplify_eq.
  apply (inv_locks s t (MkThread a r) (MkThread b r')); cbn [at_pc refs]; try done.
  - by left.
  - right. right. by exists p, x.
  - by rewrite H6.
  - by rewrite H7.
  - congruence.
  - intros q Hq. by rewrite <- (H8 q).
Qed.

Lemma plain_inv : holds_hash b = holds_hash a -> holds_lock b = holds_lock a ->
  (forall q, own q (MkThread b r') = own q (MkThread a r)) -> private b = private a -> (forall q, holding b = Some q -> q ∈ r') ->
  (forall q, found b = Some q -> is_Some (heap s !! q) /\ ~ private_in (threads s) q) -> (forall p, b <> LastFree p) ->
  inv (move t b r' s).
Proof using I Ht.
  intros H1 H2 H3 H4 H5 H6 H7. apply (inv_locks s t (MkThread a r) (MkThread b r')); cbn [at_pc refs]; try done.
  - by left.
  - by left.
  - congruence.
  - intros p E. by destruct (H7 p).
Qed.

Lemma count_inv p d x : heap s !! p = Some x -> add_count p d (move t b r) s = Some s' ->
  holds_hash b = holds_hash a -> holds_lock b = holds_lock a -> holds_lock a = Some p -> found b = None -> private a = None -> private b = None ->
  (forall q, holding b = Some q -> q ∈ r) -> (forall q, is_some_of (owns b) q = is_some_of (owns a) q + is_some_of (Some p) q * d) ->
  1 <= f_count x + d <= INT_MAX -> ~ private_in (threads s) p -> inv s'.
Proof using I Ht.
  intros Ex E H1 H2 H3 H4 H5 H6 H7 H8 [H9 H9'] H10. unfold add_count, access in E. rewrite Ex in E. cbv zeta in E.
  assert (INT_MIN <= f_count x + d) as Hmin by (unfold INT_MIN; lia).
  rewrite (proj2 (Z.leb_le _ _) Hmin), (proj2 (Z.leb_le _ _) H9') in E. cbn [andb] in E. simplify_eq.
  apply (inv_count s t (MkThread a r) (MkThread b r) p x d); cbn [at_pc refs]; try done.
  - congruence.
  - intros q. unfold own. cbn [refs at_pc]. rewrite H8. lia.
  - intros u th2 Hu E. apply H10. by exists u, th2.
Qed.
End Moves.

Lemma roomy_count s p x : inv s -> roomy s -> heap s !! p = Some x -> 1 <= f_count x < INT_MAX.
Proof. intros I Hr Ex. destruct (i_count s I p x Ex) as [E H1]. pose proof (Hr p x Ex) as H. cbn in H. lia. Qed.

Lemma shared s p x : inv s -> heap s !! p = Some x -> f_count x <> 1 -> ~ private_in (threads s) p /\ 2 <= f_count x.
Proof.
  intros I Ex Hne. split.
  - intros (u & th & Hu & Hp). by apply Hne, (o_last _ _ _ (i_threads s I u th Hu) p).
  - destruct (i_count s I p x Ex). lia.
Qed.

(** What a walk finds: an object that every thread can know, or there is none with the number. *)
Definition walk_result (s : st) (id : Z) (o : option nat) : Prop :=
  match o with
  | Some p => (exists x, heap s !! p = Some x /\ f_id x = id) /\ ~ private_in (threads s) p
  | None => forall p x, heap s !! p = Some x -> ~ private_in (threads s) p -> f_id x <> id
  end.

Lemma walk_spec s id : inv s -> exists o, find_id (S (size (heap s))) (heap s) id (fh s !! HASH id) = Some o /\ walk_result s id o.
Proof.
  intros I. destruct (i_chains s I) as [ch Hch]. destruct (Hch (HASH id)) as (Hc & Hn & Hm). pose proof (chain_length _ _ _ Hc Hn).
  destruct (find_id_chain (heap s) id _ _ (S (size (heap s))) Hc) as (o & Eo & Ho); [lia|]. exists o. split; [done|]. destruct o as [p|].
  - destruct Ho as [Hin Hx]. split; [done|]. by apply Hm in Hin as (y & _ & _ & Hp).
  - intros p x Ex Hp E. apply (Ho p x); [|done|done]. apply Hm. exists x. by rewrite E.
Qed.

Lemma walk_inv s t id r o : inv s -> threads s !! t = Some (MkThread (FindWalk id) r) -> walk_result s id o ->
  inv (match o with None => move t (FindUnhash None) r s | Some p => move t (FindLock p) r s end).
Proof.
  intros I Ht Ho. destruct o as [p|].
  - destruct Ho as [(x & Ex & _) Hp]. apply (plain_inv s t (FindWalk id) (FindLock p) r r I Ht); try done.
    intros q [= <-]. split; [by exists x|done].
  - by apply (plain_inv s t (FindWalk id) (FindUnhash None) r r I Ht).
Qed.

Lemma start_inv s t c r s' : inv s -> threads s !! t = Some (MkThread Idle r) -> start t c r s = Some s' -> inv s'.
Proof.
  intros I Ht. destruct c as [id|id|p|p]; cbn [start].
  - intros [= <-]. exact (inv_alloc s t r id I Ht).
  - intros [= <-]. apply (plain_inv s t Idle (FindHash id) r r I Ht); try done.
  - case_bool_decide as Hin; [|done]. intros [= <-]. apply (plain_inv s t Idle (HoldLock p) r r I Ht); try done.
    by intros q [= <-].
  - case_bool_decide as Hin; [|done]. intros [= <-]. apply (plain_inv s t Idle (ReleLock p) r (remove_one p r) I Ht); try done.
    intros q. by apply own_remove.
Qed.

Ltac own_pos := left; apply own_owns; reflexivity.

Lemma locks_step s t c a r s' :
  inv s -> threads s !! t = Some (MkThread a r) ->
  match a with Idle | AllocLink _ | FindWalk _ | FindCount _ | HoldCount _ | ReleTest _ | ReleRetest _ | LastFree _ => False | _ => True end ->
  thread_step t c s = Some s' -> inv s'.
Proof.
  intros I Ht Ha E. unfold thread_step in E. rewrite Ht in E. pose proof (fun p => alive s t a r p I Ht) as Hal. destruct a; try done.
  - by eapply (lock_hash_inv s s' t _ _ r I Ht) in E.
  - eapply (lock_inv s s' t _ _ r I Ht p) in E; try done; [apply Hal; by left|own_pos].
  - simplify_eq. apply (unlock_hash_inv s t _ _ r r I Ht); try done.
  - eapply (unlock_inv s s' t _ _ r _ I Ht p) in E; try done. intros q. by apply own_taken.
  - by eapply (lock_hash_inv s s' t _ _ r I Ht) in E.
  - eapply (lock_inv s s' t _ _ r I Ht p) in E; try done; [apply Hal; by right; right; left|by right].
  - eapply (unlock_inv s s' t _ _ r _ I Ht p) in E; try done.
  - simplify_eq. apply (unlock_hash_inv s t _ _ r _ I Ht); try done. intros q. destruct r0 as [p|]; [by apply own_taken|done].
  - eapply (lock_inv s s' t _ _ r I Ht p) in E; try done; [apply Hal; by right; right; right; left| |].
    + intros q [= <-]. by apply (o_hold _ _ _ (i_threads s I t _ Ht)).
    + left. apply own_in_refs. by apply (o_hold _ _ _ (i_threads s I t _ Ht)).
  - eapply (unlock_inv s s' t _ _ r _ I Ht p) in E; try done. intros q. by apply own_taken.
  - eapply (lock_inv s s' t _ _ r I Ht p) in E; try done; [apply Hal; by left|own_pos].
  - eapply (unlock_inv s s' t _ _ r _ I Ht p) in E; try done.
  - eapply (unlock_inv s s' t _ _ r _ I Ht p) in E; try done.
  - by eapply (lock_hash_inv s s' t _ _ r I Ht) in E.
  - eapply (lock_inv s s' t _ _ r I Ht p) in E; try done; [apply Hal; by left|own_pos].
  - eapply (unlock_inv s s' t _ _ r _ I Ht p) in E; try done.
  - simplify_eq. apply (unlock_hash_inv s t _ _ r r I Ht); try done.
  - simplify_eq. apply (unlock_hash_inv s t _ _ r r I Ht); try done.
  - eapply (unlock_inv s s' t _ _ r _ I Ht p) in E; try done. by intros q [= <-].
Qed.

Lemma rele_keeps s s' t a b r p x : inv s -> roomy s -> threads s !! t = Some (MkThread a r) -> heap s !! p = Some x -> f_count x <> 1 ->
  a = ReleTest p /\ b = ReleUnlock p \/ a = ReleRetest p /\ b = ReleKeep p -> add_count p (-1) (move t b r) s = Some s' -> inv s'.
Proof.
  intros I Hr Ht Ex Hne Hab E. destruct (shared s p x I Ex Hne) as [Hp Hc]. pose proof (roomy_count s p x I Hr Ex).
  apply (count_inv s s' t a b r I Ht p (-1) x Ex E); try (by destruct Hab as [[-> ->]|[-> ->]]); [|lia].
  intros q. unfold is_some_of. destruct Hab as [[-> ->]|[-> ->]]; cbn; repeat case_decide; simplify_eq; lia.
Qed.

Lemma step_inv a s s' : inv s -> roomy_act a s = Some s' -> inv s'.
Proof.
  destruct a as [t c]. unfold roomy_act, act. cbn [fst snd]. intros I E. destruct (decide (roomy s)) as [Hr|]; [|done]. destruct (threads s !! t) as [[a r]|] eqn:Ht; [|unfold thread_step in E; by rewrite Ht in E].
  pose proof (fun p => alive s t a r p I Ht) as Hal. pose proof (i_threads s I t _ Ht) as O.
  destruct a as [|p|p|p|p|p|id|id|p|p|p|o|p|p|p|p|p|p|p|p|p|p|p| |p|p|p]; try (by eapply (locks_step s t c _ r s' I Ht));
    unfold thread_step in E; rewrite Ht in E; unfold access in E.
  - by eapply start_inv.
  - destruct (Hal p) as [x Ex]; [by left|]. rewrite Ex in E. simplify_eq. exact (inv_link s t p r x I Ht Ex).
  - destruct (walk_spec s id I) as (o & Eo & Ho). rewrite Eo in E. pose proof (walk_inv s t id r o I Ht Ho). destruct o; by simplify_eq.
  - destruct (Hal p) as [x Ex]; [by right; left|]. apply (count_inv s s' t (FindCount p) (FindUnlock p) r I Ht p 1 x Ex E); try done.
    + intros q. unfold is_some_of. cbn. repeat case_decide; simplify_eq; lia.
    + pose proof (roomy_count s p x I Hr Ex). lia.
    + by apply (o_found _ _ _ O).
  - destruct (Hal p) as [x Ex]; [by right; left|]. apply (count_inv s s' t (HoldCount p) (HoldUnlock p) r I Ht p 1 x Ex E); try done.
    + intros q [= <-]. by apply (o_hold _ _ _ O).
    + intros q. unfold is_some_of. cbn. repeat case_decide; simplify_eq; lia.
    + pose proof (roomy_count s p x I Hr Ex). lia.
    + apply (own_not_private s t _ p I Ht); [|done]. by apply own_in_refs, (o_hold _ _ _ O).
  - destruct (Hal p) as [x Ex]; [by left|]. rewrite Ex in E. destruct (Z.eqb_spec (f_count x) 1) as [H1|Hne].
    + simplify_eq. by apply (plain_inv s t (ReleTest p) (ReleLet p) r r I Ht).
    + eapply (rele_keeps s s' t (ReleTest p) (ReleUnlock p)); by eauto.
  - destruct (Hal p) as [x Ex]; [by left|]. rewrite Ex in E. destruct (Z.eqb_spec (f_count x) 1) as [H1|Hne].
    + destruct (inv_unlink s t p r x I Ht Ex H1) as (s1 & E1 & I1). rewrite E1 in E. cbn in E. by simplify_eq.
    + eapply (rele_keeps s s' t (ReleRetest p) (ReleKeep p)); by eauto.
  - destruct (Hal p) as [x Ex]; [by left|]. rewrite Ex in E. rewrite (o_free _ _ _ O p x eq_refl Ex) in E. simplify_eq. exact (inv_free s t r p x I Ht Ex).
Qed.

Lemma init_inv n : inv (init n).
Proof.
  assert (forall t th, threads (init n) !! t = Some th -> th = MkThread Idle []) as Hth by (intros t th Ht; cbn in Ht; by apply lookup_replicate in Ht as [-> _]).
  split; try done.
  - intros t th Ht. rewrite (Hth t th Ht). split; try done. intros p [Hp|[Hp|Hp]]; [|done..].
    revert Hp. unfold own, is_some_of. rewrite decide_False by done. by intros [=].
  - exists (fun _ => []). intros b. split; [done|]. split; [constructor|]. intros p. rewrite elem_of_nil. split; [done|]. by intros (x & Ex & _).
Qed.

Lemma reach_ok n s : reach roomy_act (init n) s -> inv s.
Proof. apply reach_inv; [apply init_inv|]. intros a s1 s2. apply step_inv. Qed.

(** ** What the threads can rely on *)

(** The calls that are under way. *)
Definition busy (s : st) : Prop := exists t th, threads s !! t = Some th /\ at_pc th <> Idle.
Definition busy_act (a : nat * call) (s : st) : option st :=
  match threads s !! fst a with Some (MkThread Idle _) | None => None | Some _ => roomy_act a s end.

(** The steps that a call still has, at most. *)
Definition rank (a : pc) : Z :=
  match a with
  | Idle => 0
  | AllocHash _ => 5 | AllocLink _ => 4 | AllocLock _ => 3 | AllocUnhash _ => 2 | AllocUnlock _ => 1
  | FindHash _ => 6 | FindWalk _ => 5 | FindLock _ => 4 | FindCount _ => 3 | FindUnlock _ => 2 | FindUnhash _ => 1
  | HoldLock _ => 3 | HoldCount _ => 2 | HoldUnlock _ => 1
  | ReleLock _ => 9 | ReleTest _ => 8 | ReleUnlock _ => 1
  | ReleLet _ => 7 | ReleHash _ => 6 | ReleRelock _ => 5 | ReleRetest _ => 4 | ReleKeep _ => 2 | ReleUnhash => 1
  | LastUnhash _ => 3 | LastUnlock _ => 2 | LastFree _ => 1
  end.
Definition work (s : st) : Z := sum_by (fun th => rank (at_pc th)) (threads s).

Lemma unlink_threads p x s s' : unlink p x s = Some s' -> threads s' = threads s.
Proof.
  unfold unlink. destruct (fh s !! HASH (f_id x)) as [q|]; [|done]. destruct (q =? p)%nat; [by intros [= <-]|].
  destruct (find_before _ _ _ _) as [b|]; [|done]. destruct (heap s !! b); [|done]. by intros [= <-].
Qed.

(** A step of a call moves its thread to a place with fewer steps left, or faults. *)
Lemma busy_moves t c s s' a r : threads s !! t = Some (MkThread a r) -> a <> Idle -> thread_step t c s = Some s' ->
  fault s' = true \/ exists b r', threads s' = <[t := MkThread b r']> (threads s) /\ rank b < rank a.
Proof.
  intros Ht Ha. unfold thread_step. rewrite Ht. unfold lock_hash, lock, unlock, add_count, access.
  destruct a; try done; intros E; repeat case_match; simplify_eq; cbn [fault threads move set_heap set_hashlock set_fault put];
    try (by left); try (right; do 2 eexists; split; [reflexivity|cbn; lia]).
  destruct (unlink p f s) as [s1|] eqn:Eu; cbn in E; simplify_eq; [|by left]. right. do 2 eexists. cbn [threads move].
  rewrite (unlink_threads _ _ _ _ Eu). split; [reflexivity|cbn; lia].
Qed.

Lemma busy_work a s s' : inv s -> busy_act a s = Some s' -> inv s' /\ work s' < work s.
Proof.
  intros I E. unfold busy_act in E. destruct (threads s !! fst a) as [[p r]|] eqn:Ht; [|done].
  assert (p <> Idle) as Hp by (by intros ->). assert (roomy_act a s = Some s') as Er by (by destruct p). clear E.
  assert (inv s') as I' by (by eapply step_inv). split; [done|].
  assert (act a s = Some s') as Ea by (unfold roomy_act in Er; by destruct (decide (roomy s))).
  destruct (busy_moves _ _ _ _ _ _ Ht Hp Ea) as [F|(b & r' & E & Hlt)]; [by rewrite (i_fault _ I') in F|].
  unfold work. rewrite E, (sum_by_insert _ _ _ _ _ Ht). cbn [at_pc]. lia.
Qed.

Lemma work_bound s : 0 <= work s <= 9 * Z.of_nat (length (threads s)).
Proof.
  pose proof (sum_by_bound (fun th => rank (at_pc th)) 0 9 (threads s)) as H.
  specialize (H ltac:(intros [a r] _; destruct a; cbn; lia)). unfold work. lia.
Qed.

(** A thread waits for the mutex of the table, or for the mutex of an object. *)
Definition wants_hash (a : pc) : bool := match a with AllocHash _ | FindHash _ | ReleHash _ => true | _ => false end.
Definition wants (a : pc) : option nat :=
  match a with AllocLock p | FindLock p | HoldLock p | ReleLock p | ReleRelock p => Some p | _ => None end.

Lemma can_step s t a r c : inv s -> threads s !! t = Some (MkThread a r) -> a <> Idle ->
  (wants_hash a = true -> hashlock s = None) -> (forall p x, wants a = Some p -> heap s !! p = Some x -> f_lock x = None) ->
  is_Some (thread_step t c s).
Proof.
  intros I Ht Ha Hh Hl. unfold thread_step. rewrite Ht. unfold lock_hash, lock, unlock, add_count, access, or_fault.
  destruct a; try done; try (by eexists); try (by rewrite Hh; [eexists|]); try (repeat case_match; by eexists);
    (destruct (heap s !! p) as [x|] eqn:Ex; [|by eexists]; by rewrite (Hl p x eq_refl Ex); eexists).
Qed.

(** No deadlock: the mutexes of objects are taken after the one of the table, never the other way round. *)
Lemma no_deadlock s : inv s -> roomy s -> busy s -> exists a s', busy_act a s = Some s'.
Proof.
  intros I Hr (t & [a r] & Ht & Ha).
  assert (forall a, roomy_act a s = act a s) as Hact by (intros b; unfold roomy_act; by rewrite decide_True).
  assert (forall t a r, threads s !! t = Some (MkThread a r) -> a <> Idle ->
    (wants_hash a = true -> hashlock s = None) -> exists a s', busy_act a s = Some s') as Hlocks.
  { clear t a r Ht Ha. intros t a r Ht Ha Hh. destruct (wants a) as [p|] eqn:Ew.
    - destruct (alive s t a r p I Ht) as [x Ex]; [destruct a; simplify_eq; cbn; by auto|]. destruct (f_lock x) as [u|] eqn:El.
      + destruct (i_owners s I p x u Ex El) as [[b rb] Hu]. pose proof (proj2 (o_lock _ _ _ (i_threads s I u _ Hu) p x Ex) El) as Hb.
        destruct (can_step s u b rb (Find 0) I Hu) as [s' E]; [by destruct b|by destruct b|by destruct b|].
        exists (u, Find 0), s'. unfold busy_act. rewrite Hact. unfold act. cbn [fst snd]. rewrite Hu. by destruct b.
      + destruct (can_step s t a r (Find 0) I Ht Ha Hh) as [s' E]; [intros q y Hq Ey; congruence|].
        exists (t, Find 0), s'. unfold busy_act. rewrite Hact. unfold act. cbn [fst snd]. rewrite Ht. by destruct a.
    - destruct (can_step s t a r (Find 0) I Ht Ha Hh) as [s' E]; [intros q y Hq; congruence|].
      exists (t, Find 0), s'. unfold busy_act. rewrite Hact. unfold act. cbn [fst snd]. rewrite Ht. by destruct a. }
  destruct (hashlock s) as [u|] eqn:Eh; [|by eapply Hlocks].
  destruct (i_owner s I u Eh) as [[b rb] Hu]. pose proof (proj2 (o_hash _ _ _ (i_threads s I u _ Hu)) Eh) as Hb.
  apply (Hlocks u b rb Hu); by destruct b.
Qed.

(** C16. However the threads are scheduled, in every run in which no object has [INT_MAX] references
    at once ([f_count] is an [int]): no step reads or writes an object that was freed, gives back a
    mutex it does not have or overflows the counter; what a thread has a reference to exists; and
    [f_count] of every object is the number of the references to it, at least one. *)
Theorem counted n s :
  reach roomy_act (init n) s ->
  fault s = false /\
  (forall t th p, threads s !! t = Some th -> p ∈ refs th -> is_Some (heap s !! p)) /\
  (forall p x, heap s !! p = Some x -> f_count x = sum_by (own p) (threads s) /\ 1 <= f_count x).
Proof.
  intros H. pose proof (reach_ok n s H) as I. split; [by apply i_fault|]. split; [|by apply i_count].
  intros t th p Ht Hp. apply (o_alive _ _ _ (i_threads s I t th Ht)). left. by apply own_in_refs.
Qed.

(** With [INT_MAX] references one more overflows the counter. *)
Lemma one_too_many s t c p r x :
  threads s !! t = Some (MkThread (HoldCount p) r) -> heap s !! p = Some x -> f_count x = INT_MAX ->
  exists s', act (t, c) s = Some s' /\ fault s' = true.
Proof.
  intros Ht Ex Ec. unfold act, thread_step, add_count, access. cbn [fst snd]. rewrite Ht, Ex, Ec. cbv zeta.
  change ((INT_MIN <=? INT_MAX + 1) && (INT_MAX + 1 <=? INT_MAX)) with false. cbv iota. by eexists.
Qed.

(** No leak: when every thread has returned and has released what it had, nothing is left, neither
    an object nor a chain. *)
Theorem all_released n s :
  reach roomy_act (init n) s -> (forall t th, threads s !! t = Some th -> th = MkThread Idle []) -> heap s = ∅ /\ fh s = ∅.
Proof.
  intros H Hall. pose proof (reach_ok n s H) as I. assert (heap s = ∅) as Eh.
  { apply map_empty. intros p. destruct (heap s !! p) as [x|] eqn:Ex; [|done]. exfalso. destruct (i_count s I p x Ex) as [E Hpos].
    pose proof (sum_by_bound (own p) 0 0 (threads s)) as Hb. specialize (Hb ltac:(intros th Hin;
      apply list_elem_of_lookup in Hin as (t & Ht); rewrite (Hall t th Ht); unfold own, is_some_of; cbn [refs at_pc owns];
      rewrite decide_False by done; unfold sum_by; cbn; lia)). lia. }
  split; [done|]. apply map_empty. intros b. destruct (i_chains s I) as [ch Hch]. destruct (Hch b) as (Hc & _). rewrite Eh in Hc.
  destruct (ch b) as [|p l]; [done|]. destruct Hc as (_ & x & Ex & _). by rewrite lookup_empty in Ex.
Qed.

(** [foo_find] gives an object with the number that is looked for and that no thread is making
    or freeing, and NULL only when there is none. *)
Theorem find_exact n s t id r :
  reach roomy_act (init n) s -> threads s !! t = Some (MkThread (FindWalk id) r) ->
  exists o, walk_result s id o /\ forall c,
    act (t, c) s = Some (move t (match o with Some p => FindLock p | None => FindUnhash None end) r s).
Proof.
  intros H Ht. pose proof (reach_ok n s H) as I. destruct (walk_spec s id I) as (o & Eo & Ho). exists o. split; [done|]. intros c.
  unfold act, thread_step. cbn [fst snd]. rewrite Ht, Eo. by destruct o.
Qed.

(** Every call returns: the calls that are under way make at most nine steps each, in any order,
    and as long as one of them has not returned one of them can go on. *)
Theorem calls_return n s sched s' :
  reach roomy_act (init n) s -> exec busy_act sched s = Some s' ->
  Z.of_nat (length sched) <= 9 * Z.of_nat (length (threads s)) /\
  (busy s' -> roomy s' -> exists a s'', busy_act a s' = Some s'').
Proof.
  intros H E. pose proof (reach_ok n s H) as I.
  pose proof (exec_measure busy_act inv work (fun a s1 s2 => busy_work a s1 s2) sched s s' I E) as Hm.
  pose proof (work_bound s). pose proof (work_bound s'). split; [lia|]. intros Hb Hr. apply no_deadlock; [|done..].
  clear -I E. revert s I E. induction sched as [|a sched IH]; intros s I E; cbn in E; [by simplify_eq|].
  destruct (busy_act a s) as [s1|] eqn:Ea; [|done]. destruct (busy_work a s s1 I Ea). by apply (IH s1).
Qed.

(** ** A run

    While the first thread releases the last reference, and has let go of the mutex to take the one
    of the table first, the other finds the object. *)
Definition steps (t k : nat) : list (nat * call) := replicate k (t, Find 0).
Definition race : list (nat * call) :=
  (0%nat, Alloc 36) :: steps 0 5 ++ (0%nat, Rele 0) :: steps 0 3 ++ (1%nat, Find 36) :: steps 1 2.
Definition found_again : list (nat * call) := steps 1 4 ++ steps 0 5.
Definition given_back : list (nat * call) := (1%nat, Rele 0) :: steps 1 9.
Definition after (l : list (nat * call)) : st := default (init 2) (exec roomy_act l (init 2)).

Example race_kept : threads (after (race ++ found_again)) = [MkThread Idle []; MkThread Idle [0%nat]].
Proof. vm_compute. reflexivity. Qed.

(** The schedules run. *)
Lemma race_reached : reach roomy_act (init 2) (after (race ++ found_again)).
Proof. exists (race ++ found_again). vm_compute. reflexivity. Qed.
Lemma back_reached : reach roomy_act (init 2) (after (race ++ found_again ++ given_back)).
Proof. exists (race ++ found_again ++ given_back). vm_compute. reflexivity. Qed.
Lemma walk_reached : reach roomy_act (init 2) (after (take 12 race)).
Proof. exists (take 12 race). vm_compute. reflexivity. Qed.
Lemma middle_reached : reach roomy_act (init 2) (after race).
Proof. exists race. vm_compute. reflexivity. Qed.

Lemma counted_witness :
  is_Some (heap (after (race ++ found_again)) !! 0%nat) /\ heap (after (race ++ found_again)) !! 0%nat = Some (MkFoo 1 None 36 None).
Proof.
  split; [|vm_compute; reflexivity].
  apply (proj1 (proj2 (counted 2 _ race_reached)) 1%nat (MkThread Idle [0%nat])); [vm_compute; reflexivity|by left].
Defined.

Lemma all_released_witness : heap (after (race ++ found_again ++ given_back)) = ∅.
Proof.
  apply (all_released 2 _ back_reached). intros t th Ht.
  assert (threads (after (race ++ found_again ++ given_back)) = [MkThread Idle []; MkThread Idle []]) as E by (vm_compute; reflexivity).
  rewrite E in Ht. destruct t as [|[|t]]; by simplify_eq/=.
Defined.

Lemma find_exact_witness : exists o, walk_result (after (take 12 race)) 36 o.
Proof.
  destruct (find_exact 2 (after (take 12 race)) 1 36 [] walk_reached ltac:(vm_compute; reflexivity)) as (o & H & _). by exists o.
Defined.

Lemma calls_return_witness : exists a s'', busy_act a (after (race ++ steps 1 2)) = Some s''.
Proof.
  apply (calls_return 2 (after race) (steps 1 2) _ middle_reached); [vm_compute; reflexivity| |].
  - exists 0%nat, (MkThread (ReleHash 0) []). split; [vm_compute; reflexivity|done].
  - apply (bool_decide_unpack (roomy _)). vm_compute. exact I.
Defined.
