(* ===== verification/MemStream.v ===== *)
(** * apue exercises/fmemopen.c: a stream on a block of memory

    [fmemopen] makes a stream of a block that the caller lends, or that it allocates; the four
    functions it gives to [funopen] read, write, seek and close.  The block is the list of its
    bytes.  Whether [malloc] and [funopen] succeed, and what an allocated block holds at first,
    are arguments; the integers have the widths that the code gives them.

    [mfile] is what the stream stands for: a file of bytes with a position, that cannot grow
    beyond its capacity. *)

From S2P Require Import Prelude Process CLib.
From Stdlib Require Import Ascii.
Local Open Scope Z_scope.
Local Open Scope c_scope.

Definition EBADF : Z := 9.

Definition MS_READ : Z := 1.
Definition MS_WRITE : Z := 2.
Definition MS_APPEND : Z := 4.
Definition MS_TRUNCATE : Z := 8.
Definition MS_MYBUF : Z := 16.

(** [struct memstream]; [blk] is the block of the structure, [own_buf] the block of the buffer
    when the stream allocated it. *)
Record memstream := MkMs {
  blk : nat;
  own_buf : option nat;
  buf : list Z;
  rsize : Z;
  vsize : Z;
  curpos : Z;
  flags : Z
}.

Definition set_pos (pos : Z) (ms : memstream) : memstream := MkMs (blk ms) (own_buf ms) (buf ms) (rsize ms) (vsize ms) pos (flags ms).
Definition set_vsize (v : Z) (ms : memstream) : memstream := MkMs (blk ms) (own_buf ms) (buf ms) (rsize ms) v (curpos ms) (flags ms).
Definition set_buf (b : list Z) (ms : memstream) : memstream := MkMs (blk ms) (own_buf ms) b (rsize ms) (vsize ms) (curpos ms) (flags ms).

(** [flags & mask] *)
Definition has (fl mask : Z) : bool := negb (Z.land fl mask =? 0).
Definition has_all (fl mask : Z) : bool := Z.land fl mask =? mask.

(** [type_to_flags]; the text ends before its null byte. *)
Fixpoint type_to_flags (cp : string) (fl : Z) : Z :=
  match cp with
  | EmptyString => fl
  | String c cp =>
      if Ascii.eqb c "r" then if fl =? 0 then type_to_flags cp (Z.lor fl MS_READ) else 0
      else if Ascii.eqb c "w" then if fl =? 0 then type_to_flags cp (Z.lor fl (Z.lor MS_WRITE MS_TRUNCATE)) else 0
      else if Ascii.eqb c "a" then if fl =? 0 then type_to_flags cp (Z.lor fl MS_APPEND) else 0
      else if Ascii.eqb c "+" then if fl =? 0 then 0 else type_to_flags cp (Z.lor fl (Z.lor MS_READ MS_WRITE))
      else if Ascii.eqb c "b" then if fl =? 0 then 0 else type_to_flags cp fl
      else 0
  end.

(** An access to the block; the address is an offset from its start. *)
Definition peek (b : list Z) (i : Z) : res Z :=
  if i <? 0 then Undef OutOfBounds else match b !! Z.to_nat i with Some x => Ok x | None => Undef OutOfBounds end.
Definition poke (b : list Z) (i x : Z) : res (list Z) :=
  if (0 <=? i) && (i <? Z.of_nat (length b)) then Ok (<[Z.to_nat i := x]> b) else Undef OutOfBounds.

(** [memcpy] from the block, and into it. *)
Definition copy_out (b : list Z) (off n : Z) : res (list Z) :=
  if (0 <=? off) && (off + n <=? Z.of_nat (length b)) then Ok (take (Z.to_nat n) (drop (Z.to_nat off) b)) else Undef OutOfBounds.
Definition splice (off : nat) (w l : list Z) : list Z := take off l ++ w ++ drop (off + length w) l.
Definition copy_in (b : list Z) (off n : Z) (w : list Z) : res (list Z) :=
  if (0 <=? off) && (off + n <=? Z.of_nat (length b)) && (n <=? Z.of_nat (length w))
  then Ok (splice (Z.to_nat off) (take (Z.to_nat n) w) b) else Undef OutOfBounds.

(** [find_end]: the offset is compared as a [size_t]. *)
Fixpoint find_end (fuel : nat) (b : list Z) (len off : Z) : res Z :=
  match fuel with
  | O => NoFuel
  | S fuel =>
      if u64 off <? len then
        let* c := peek b off in
        if c =? 0 then Ok off else find_end fuel b len (off + 1)
      else Ok off
  end.

(** The macro [MIN] of an [int] and a [size_t], stored in an [int]. *)
Definition min_int (len b : Z) : Z := s32 (if u64 len <? b then u64 len else b).

(** [mstream_read], [mstream_write] and [mstream_seek]: the value they return, and the bytes. *)
Definition mstream_read (len : Z) (ms : memstream) (p : proc) : res (Z * list Z * memstream * proc) :=
  if negb (has (flags ms) MS_READ) then Ok (-1, [], ms, set_errno EBADF p)
  else if vsize ms <=? curpos ms then Ok (0, [], ms, p)
  else
    let nr := min_int len (u64 (vsize ms - curpos ms)) in
    let* bytes := copy_out (buf ms) (curpos ms) (u64 nr) in
    Ok (nr, bytes, set_pos (u64 (curpos ms + nr)) ms, p).

Definition terminate (ms : memstream) : res memstream :=
  if has (flags ms) (Z.lor MS_WRITE MS_APPEND) && negb (has (flags ms) MS_READ) then
    let* b := poke (buf ms) (if curpos ms <? rsize ms then curpos ms else rsize ms - 1) 0 in
    Ok (set_buf b ms)
  else Ok ms.

Definition extend (ms : memstream) : res memstream :=
  if vsize ms <? curpos ms then
    let ms := set_vsize (curpos ms) ms in
    if has_all (flags ms) (Z.lor MS_READ MS_WRITE) && (vsize ms <? rsize ms) then
      let* b := poke (buf ms) (vsize ms) 0 in Ok (set_buf b ms)
    else Ok ms
  else Ok ms.

(** [off + nw] is an [int]. *)
Definition mstream_write (w : list Z) (ms : memstream) (p : proc) : res (Z * memstream * proc) :=
  if negb (has (flags ms) (Z.lor MS_APPEND MS_WRITE)) then Ok (-1, ms, set_errno EBADF p)
  else
    let off := s32 (if has (flags ms) MS_APPEND then vsize ms else curpos ms) in
    let nw := min_int (Z.of_nat (length w)) (u64 (rsize ms - off)) in
    let* b := copy_in (buf ms) off (u64 nw) w in
    if (off + nw <? INT_MIN) || (INT_MAX <? off + nw) then Undef IntOverflow
    else
      let* ms := extend (set_pos (u64 (off + nw)) (set_buf b ms)) in
      let* ms := terminate ms in
      Ok (nw, ms, p).

Inductive whence := SEEK_SET | SEEK_CUR | SEEK_END | Other.

Definition mstream_seek (pos : Z) (w : whence) (ms : memstream) (p : proc) : res (Z * memstream * proc) :=
  let* off := match w with
              | SEEK_SET => Ok (s32 pos)
              | SEEK_END => Ok (s32 (u64 (vsize ms + pos)))
              | SEEK_CUR => Ok (s32 (u64 (curpos ms + pos)))
              | Other => Undef UninitRead
              end in
  if (off <? 0) || (vsize ms <? u64 off) then Ok (-1, ms, set_errno EINVAL p)
  else Ok (off, set_pos off ms, p).

Definition mstream_close (ms : memstream) (p : proc) : res proc :=
  let* p := (if has (flags ms) MS_MYBUF then release_opt RBlk (own_buf ms) p else Ok p) in
  release RBlk (blk ms) p.

(** [fmemopen]; [lent] is the block of the caller, [fresh] what [malloc] gives for the buffer, if
    it succeeds; [ms_ok] and [fun_ok] say whether the other calls do. *)
Definition fmemopen (ms_ok fun_ok : bool) (fresh : option (list Z)) (lent : option (list Z)) (size : Z) (type : string) (p : proc)
    : res (option memstream * proc) :=
  if size =? 0 then Ok (None, set_errno EINVAL p)
  else if negb ms_ok then Ok (None, set_errno ENOMEM p)
  else
    let '(ms, p) := acquire RBlk p in
    let fl := type_to_flags type 0 in
    let fail e p := let* p := release RBlk ms (set_errno e p) in Ok (None, p) in
    let opened own b fl pos p :=
      let v := if has fl MS_APPEND then pos else if has fl MS_TRUNCATE then 0 else size in
      let st := MkMs ms own b size v pos fl in
      if fun_ok then Ok (Some st, p)
      else
        let* p := (if has fl MS_MYBUF then release_opt RBlk own p else Ok p) in
        let* p := release RBlk ms p in Ok (None, p) in
    if fl =? 0 then fail EINVAL p
    else
      match lent with
      | None =>
          if negb (has_all fl (Z.lor MS_READ MS_WRITE)) then fail EINVAL p
          else
            match fresh with
            | None => fail ENOMEM p
            | Some b => let '(own, p) := acquire RBlk p in opened (Some own) b (Z.lor fl MS_MYBUF) 0 p
            end
      | Some b =>
          let* pos := (if has fl MS_APPEND then find_end (S (Z.to_nat size)) b size 0 else Ok 0) in
          opened None b fl pos p
      end.

(** ** What a stream stands for *)

Record mfile := MkFile {
  content : list Z;
  at_pos : nat;
  cap : nat;
  readable : bool;
  writable : bool;
  appends : bool
}.

Definition with_content (c : list Z) (pos : nat) (f : mfile) : mfile := MkFile c pos (cap f) (readable f) (writable f) (appends f).

(** A write that is not followed by reads leaves a null byte behind it, or at the very end. *)
Definition closed_text (c : list Z) (pos n : nat) : list Z := if (pos <? n)%nat then <[pos := 0]> c else <[(n - 1)%nat := 0]> c.

Definition f_read (n : nat) (f : mfile) : Z * list Z * mfile :=
  if negb (readable f) then (-1, [], f)
  else
    let bytes := take n (drop (at_pos f) (content f)) in
    (Z.of_nat (length bytes), bytes, with_content (content f) (at_pos f + length bytes) f).

Definition f_write (w : list Z) (f : mfile) : Z * mfile :=
  if negb (writable f) then (-1, f)
  else
    let off := if appends f then length (content f) else at_pos f in
    let w := take (cap f - off) w in
    let c := splice off w (content f) in
    let pos := (off + length w)%nat in
    (Z.of_nat (length w), with_content (if readable f then c else closed_text c pos (cap f)) pos f).

Definition f_seek (pos : Z) (w : whence) (f : mfile) : Z * mfile :=
  let off := match w with
             | SEEK_SET => pos
             | SEEK_CUR => Z.of_nat (at_pos f) + pos
             | SEEK_END | Other => Z.of_nat (length (content f)) + pos
             end in
  if (off <? 0) || (Z.of_nat (length (content f)) <? off) then (-1, f)
  else (off, with_content (content f) (Z.to_nat off) f).

(** ** Calls in a row *)

Inductive op := Read (len : nat) | Write (w : list Z) | Seek (pos : Z) (w : whence).

Definition call (o : op) (ms : memstream) (p : proc) : res (Z * list Z * memstream * proc) :=
  match o with
  | Read len => mstream_read (Z.of_nat len) ms p
  | Write w => let* (n, ms, p) := mstream_write w ms p in Ok (n, [], ms, p)
  | Seek pos w => let* (n, ms, p) := mstream_seek pos w ms p in Ok (n, [], ms, p)
  end.

Fixpoint calls (ops : list op) (ms : memstream) (p : proc) : res (list (Z * list Z) * memstream * proc) :=
  match ops with
  | [] => Ok ([], ms, p)
  | o :: ops =>
      let* (n, bytes, ms, p) := call o ms p in
      let* (l, ms, p) := calls ops ms p in
      Ok ((n, bytes) :: l, ms, p)
  end.

Definition f_call (o : op) (f : mfile) : Z * list Z * mfile :=
  match o with
  | Read len => f_read len f
  | Write w => let '(n, f) := f_write w f in (n, [], f)
  | Seek pos w => let '(n, f) := f_seek pos w f in (n, [], f)
  end.

Fixpoint f_calls (ops : list op) (f : mfile) : list (Z * list Z) * mfile :=
  match ops with
  | [] => ([], f)
  | o :: ops =>
      let '(n, bytes, f) := f_call o f in
      let '(l, f) := f_calls ops f in
      ((n, bytes) :: l, f)
  end.

(** The first bytes of the block are the file; the rest of the block is not part of it. *)
Record stands_for (ms : memstream) (f : mfile) : Prop := MkRel {
  r_content : take (length (content f)) (buf ms) = content f;
  r_vsize : vsize ms = Z.of_nat (length (content f));
  r_pos : curpos ms = Z.of_nat (at_pos f);
  r_cap : rsize ms = Z.of_nat (cap f);
  r_buf : (cap f <= length (buf ms))%nat;
  r_int : 0 < Z.of_nat (cap f) <= INT_MAX;
  r_end : (at_pos f <= length (content f) <= cap f)%nat;
  r_read : readable f = has (flags ms) MS_READ;
  r_write : writable f = has (flags ms) (Z.lor MS_APPEND MS_WRITE);
  r_append : appends f = has (flags ms) MS_APPEND
}.

(** Sizes and positions that an [int] can hold. *)
Definition op_ok (n : nat) (o : op) : Prop :=
  match o with
  | Read len => Z.of_nat len <= INT_MAX
  | Write w => Z.of_nat (length w) <= INT_MAX
  | Seek pos w => w <> Other /\ INT_MIN <= pos /\ pos + Z.of_nat n <= INT_MAX
  end.

(** ** Blocks *)

Lemma copy_out_ok b off n : (off + n <= length b)%nat -> copy_out b (Z.of_nat off) (Z.of_nat n) = Ok (take n (drop off b)).
Proof.
  intros H. unfold copy_out. rewrite (proj2 (Z.leb_le 0 _)) by lia. rewrite (proj2 (Z.leb_le _ _)) by lia. cbn. by rewrite !Nat2Z.id.
Qed.

Lemma copy_in_ok b off n w : (off + n <= length b)%nat -> (n <= length w)%nat ->
  copy_in b (Z.of_nat off) (Z.of_nat n) w = Ok (splice off (take n w) b).
Proof.
  intros H Hn. unfold copy_in. rewrite (proj2 (Z.leb_le 0 _)), !(proj2 (Z.leb_le _ _)) by lia. cbn. by rewrite !Nat2Z.id.
Qed.

Lemma poke_ok b i x : (i < length b)%nat -> poke b (Z.of_nat i) x = Ok (<[i := x]> b).
Proof. intros H. unfold poke. rewrite (proj2 (Z.leb_le 0 _)), (proj2 (Z.ltb_lt _ _)) by lia. cbn. by rewrite Nat2Z.id. Qed.

Lemma length_splice off w l : (off <= length l)%nat -> length (splice off w l) = (off + length w `max` (length l - off))%nat.
Proof. intros H. unfold splice. rewrite !length_app, length_take, length_drop. lia. Qed.

Lemma min_int_ok a b : Z.of_nat a <= INT_MAX -> Z.of_nat b <= INT_MAX -> min_int (Z.of_nat a) (Z.of_nat b) = Z.of_nat (a `min` b).
Proof.
  unfold INT_MAX. intros Ha Hb. unfold min_int. rewrite u64_small by lia.
  rewrite s32_small by (unfold INT_MIN, INT_MAX; destruct (Z.of_nat a <? Z.of_nat b); lia). destruct (Z.ltb_spec (Z.of_nat a) (Z.of_nat b)); lia.
Qed.

(** Writing into the block writes into the file. *)
Lemma take_splice off w l m : (off <= m)%nat -> (m <= length l)%nat -> (off + length w <= length l)%nat ->
  take (off + length w `max` (m - off)) (splice off w l) = splice off w (take m l).
Proof.
  intros H1 H2 H3. apply list_eq. intros i. unfold splice.
  destruct (decide (i < off + length w `max` (m - off))%nat) as [Hi|Hi].
  - rewrite lookup_take_lt by lia. destruct (decide (i < off)%nat) as [Ho|Ho].
    + rewrite !lookup_app_l by (rewrite length_take, ?length_take; lia). rewrite !lookup_take_lt by lia. done.
    + rewrite !(lookup_app_r (take _ _)) by (rewrite length_take, ?length_take; lia). rewrite !length_take.
      replace (off `min` length l)%nat with off by lia. replace (off `min` (m `min` length l))%nat with off by lia.
      destruct (decide (i - off < length w)%nat) as [Hw|Hw].
      * by rewrite !lookup_app_l by lia.
      * rewrite !lookup_app_r by lia. rewrite !lookup_drop, lookup_take_lt by lia. done.
  - rewrite lookup_take_ge by lia. symmetry. apply lookup_ge_None.
    rewrite !length_app, length_drop, !length_take. lia.
Qed.

(** ** Each function does to the stream what its counterpart does to the file *)

Lemma has_errno e p : live (set_errno e p) = live p.
Proof. done. Qed.

Lemma read_refines n ms f p : stands_for ms f -> Z.of_nat n <= INT_MAX ->
  exists ms' p', mstream_read (Z.of_nat n) ms p = Ok (fst (f_read n f), ms', p') /\ stands_for ms' (snd (f_read n f)) /\ live p' = live p.
Proof.
  intros R Hn. pose proof R as [H1 H2 H3 H4 H5 [H6 H6'] H7 H8 H9 H10]. unfold mstream_read, f_read. rewrite <- H8.
  destruct (readable f) eqn:Er; cbn [negb]; [|by exists ms, (set_errno EBADF p)].
  rewrite H2, H3. set (m := length (content f)) in *. destruct (Z.leb_spec (Z.of_nat m) (Z.of_nat (at_pos f))) as [Hle|Hlt].
  - exists ms, p. rewrite drop_ge by lia. rewrite take_nil. split; [done|]. split; [|done]. cbn [snd length].
    replace (at_pos f + 0)%nat with (at_pos f) by lia. split; cbn; try done; try congruence.
  - replace (u64 (Z.of_nat m - Z.of_nat (at_pos f))) with (Z.of_nat (m - at_pos f)) by (unfold INT_MAX in H6'; rewrite u64_small; lia).
    rewrite min_int_ok by lia. set (k := (n `min` (m - at_pos f))%nat).
    assert (length (take n (drop (at_pos f) (content f))) = k) as Hk by (rewrite length_take, length_drop; lia).
    rewrite (u64_small (Z.of_nat k)) by (unfold INT_MAX in *; lia). rewrite copy_out_ok by lia. cbn [rbind].
    assert (take k (drop (at_pos f) (buf ms)) = take n (drop (at_pos f) (content f))) as Eb.
    { transitivity (take n (drop (at_pos f) (take m (buf ms)))); [|by rewrite H1].
      rewrite !take_drop_commute, take_take. do 2 f_equal. lia. }
    rewrite Eb. eexists _, p. split; [cbn [fst]; rewrite Hk; reflexivity|]. split; [|done]. cbn [snd]. rewrite Hk.
    rewrite u64_small by (unfold INT_MAX in *; lia). split; cbn; try done; try congruence; fold m; lia.
Qed.

Lemma seek_refines pos w ms f p : stands_for ms f -> op_ok (cap f) (Seek pos w) ->
  exists ms' p', mstream_seek pos w ms p = Ok (fst (f_seek pos w f), ms', p') /\ stands_for ms' (snd (f_seek pos w f)) /\ live p' = live p.
Proof.
  intros R (Hw & Hlo & Hhi). pose proof R as [H1 H2 H3 H4 H5 [H6 H6'] H7 H8 H9 H10]. unfold mstream_seek, f_seek. rewrite H2, H3.
  set (m := length (content f)) in *.
  set (off := match w with SEEK_SET => pos | SEEK_CUR => Z.of_nat (at_pos f) + pos | SEEK_END | Other => Z.of_nat m + pos end).
  assert (INT_MIN <= off <= INT_MAX) as Ho by (unfold INT_MIN in *; subst off; destruct w; lia).
  assert (forall z, INT_MIN <= z <= INT_MAX -> s32 (u64 z) = z) as Hs.
  { intros z Hz. unfold INT_MIN, INT_MAX in Hz. unfold s32, u64. Z.div_mod_to_equations. lia. }
  assert (match w with SEEK_SET => Ok (s32 pos) | SEEK_CUR => Ok (s32 (u64 (Z.of_nat (at_pos f) + pos)))
          | SEEK_END => Ok (s32 (u64 (Z.of_nat m + pos))) | Other => Undef UninitRead end = Ok off) as ->.
  { subst off. destruct w; [by rewrite s32_small|by rewrite Hs|by rewrite Hs|done]. }
  cbn [rbind]. destruct (Z.ltb_spec off 0) as [Hneg|Hpos]; [by exists ms, (set_errno EINVAL p)|].
  rewrite u64_small by (unfold INT_MAX in *; lia). destruct (Z.ltb_spec (Z.of_nat m) off) as [Hgt|Hle]; [by exists ms, (set_errno EINVAL p)|].
  eexists _, p. split; [reflexivity|]. split; [|done]. cbn. split; cbn; try done; try congruence; fold m; lia.
Qed.

Lemma take_insert_comm (l : list Z) n i x : take n (<[i := x]> l) = <[i := x]> (take n l).
Proof.
  destruct (decide (i < n)%nat) as [Hi|Hi].
  - by rewrite take_insert_lt.
  - rewrite take_insert_ge by lia. rewrite list_insert_ge; [done|]. rewrite length_take. lia.
Qed.

(** The null byte of a stream that can also read lies behind the file. *)
Lemma extend_ok ms m pos c :
  curpos ms = Z.of_nat pos -> vsize ms = Z.of_nat m -> rsize ms = Z.of_nat c -> (c <= length (buf ms))%nat ->
  exists b, extend ms = Ok (set_buf b (set_vsize (Z.of_nat (m `max` pos)) ms)) /\ length b = length (buf ms) /\
    take (m `max` pos) b = take (m `max` pos) (buf ms).
Proof.
  intros Hp Hv Hr Hb. unfold extend. rewrite Hv, Hp. destruct (Z.ltb_spec (Z.of_nat m) (Z.of_nat pos)) as [Hlt|Hle].
  - replace (m `max` pos)%nat with pos by lia. cbn [flags set_vsize vsize rsize buf]. rewrite Hr.
    destruct (has_all (flags ms) _ && (Z.of_nat pos <? Z.of_nat c)) eqn:E.
    + apply andb_true_iff in E as [_ E]. apply Z.ltb_lt in E. rewrite poke_ok by lia. cbn [rbind]. exists (<[pos := 0]> (buf ms)).
      split; [done|]. split; [apply length_insert|]. by rewrite take_insert_ge by lia.
    + exists (buf ms). split; [by destruct ms|done].
  - exists (buf ms). replace (m `max` pos)%nat with m by lia. split; [|done]. rewrite <- Hv. by destruct ms.
Qed.

Lemma terminate_ok ms pos c :
  curpos ms = Z.of_nat pos -> rsize ms = Z.of_nat c -> (0 < c <= length (buf ms))%nat -> has (flags ms) (Z.lor MS_APPEND MS_WRITE) = true ->
  terminate ms = Ok (if has (flags ms) MS_READ then ms else set_buf (closed_text (buf ms) pos c) ms).
Proof.
  intros Hp Hr Hb Hw. unfold terminate. replace (Z.lor MS_WRITE MS_APPEND) with (Z.lor MS_APPEND MS_WRITE) by done. rewrite Hw.
  destruct (has (flags ms) MS_READ); [done|]. cbn [andb negb]. rewrite Hp, Hr. unfold closed_text.
  destruct (Z.ltb_spec (Z.of_nat pos) (Z.of_nat c)), (Nat.ltb_spec pos c); try lia.
  - by rewrite poke_ok by lia.
  - replace (Z.of_nat c - 1) with (Z.of_nat (c - 1)) by lia. by rewrite poke_ok by lia.
Qed.

Lemma length_closed c pos n : length (closed_text c pos n) = length c.
Proof. unfold closed_text. case_match; apply length_insert. Qed.

Lemma take_closed c pos n k : take k (closed_text c pos n) = closed_text (take k c) pos n.
Proof. unfold closed_text. case_match; apply take_insert_comm. Qed.

Lemma write_refines w ms f p : stands_for ms f -> Z.of_nat (length w) <= INT_MAX ->
  exists ms' p', mstream_write w ms p = Ok (fst (f_write w f), ms', p') /\ stands_for ms' (snd (f_write w f)) /\ live p' = live p.
Proof.
  intros R Hn. pose proof R as [H1 H2 H3 H4 H5 [H6 H6'] H7 H8 H9 H10]. unfold mstream_write, f_write. rewrite <- H9, <- H10.
  destruct (writable f) eqn:Ew; cbn [negb]; [|by exists ms, (set_errno EBADF p)].
  set (m := length (content f)) in *. set (off := if appends f then m else at_pos f).
  assert ((if appends f then vsize ms else curpos ms) = Z.of_nat off) as -> by (subst off; by destruct (appends f)).
  assert (off <= m)%nat as Hoff by (subst off; destruct (appends f); lia). rewrite s32_small by (unfold INT_MIN; lia). rewrite H4.
  replace (u64 (Z.of_nat (cap f) - Z.of_nat off)) with (Z.of_nat (cap f - off)) by (unfold INT_MAX in H6'; rewrite u64_small; lia).
  rewrite min_int_ok by lia. set (k := (length w `min` (cap f - off))%nat).
  assert (take (cap f - off) w = take k w) as ->.
  { subst k. destruct (decide (length w <= cap f - off)%nat); [rewrite !take_ge by lia; done|f_equal; lia]. }
  assert (length (take k w) = k) as Hk by (rewrite length_take; lia).
  rewrite (u64_small (Z.of_nat k)) by (unfold INT_MAX in *; lia). rewrite copy_in_ok by lia. cbn [rbind].
  rewrite (proj2 (Z.ltb_ge (Z.of_nat off + Z.of_nat k) INT_MIN)), (proj2 (Z.ltb_ge INT_MAX _)) by (unfold INT_MIN; lia). cbn [orb].
  replace (u64 (Z.of_nat off + Z.of_nat k)) with (Z.of_nat (off + k)) by (unfold INT_MAX in *; rewrite u64_small; lia).
  assert (length (splice off (take k w) (buf ms)) = length (buf ms)) as Hl by (rewrite length_splice; lia).
  destruct (extend_ok (set_pos (Z.of_nat (off + k)) (set_buf (splice off (take k w) (buf ms)) ms)) m (off + k) (cap f))
    as (b & -> & Hb1 & Hb2); [done|done|done|cbn; lia|]. cbn [buf set_pos set_buf] in Hb1, Hb2. cbn [rbind].
  rewrite (terminate_ok _ (off + k) (cap f)); cbn [curpos rsize buf flags set_pos set_buf set_vsize]; [|done|done|lia|by rewrite <- H9].
  cbn [rbind]. rewrite <- H8, Hk. eexists _, p. cbn [fst]. split; [reflexivity|]. split; [|done]. cbn [snd].
  replace (m `max` (off + k))%nat with (off + length (take k w) `max` (m - off))%nat in * by lia.
  rewrite take_splice in Hb2 by lia. subst m. rewrite H1 in Hb2.
  assert (length (splice off (take k w) (content f)) = (off + length (take k w) `max` (length (content f) - off))%nat) as Hc by (by apply length_splice).
  destruct (readable f) eqn:Er; split; cbn; rewrite ?length_closed, ?take_closed, ?Hc; try done; try congruence; try lia.
Qed.

(** Any calls in a row. *)
Lemma call_refines o ms f p : stands_for ms f -> op_ok (cap f) o ->
  exists ms' p', call o ms p = Ok (fst (f_call o f), ms', p') /\ stands_for ms' (snd (f_call o f)) /\ live p' = live p.
Proof.
  intros R Ho. destruct o as [n|w|pos w]; cbn [call f_call].
  - by apply read_refines.
  - destruct (write_refines w ms f p R Ho) as (ms' & p' & -> & R' & Hl). exists ms', p'. by destruct (f_write w f).
  - destruct (seek_refines pos w ms f p R Ho) as (ms' & p' & -> & R' & Hl). exists ms', p'. by destruct (f_seek pos w f).
Qed.

Lemma f_call_cap o f : cap (snd (f_call o f)) = cap f.
Proof.
  destruct o as [n|w|pos w]; cbn [f_call]; unfold f_read, f_write, f_seek; repeat case_match; simplify_eq; done.
Qed.

Lemma calls_refine ops ms f p : stands_for ms f -> Forall (op_ok (cap f)) ops ->
  exists ms' p', calls ops ms p = Ok (fst (f_calls ops f), ms', p') /\ stands_for ms' (snd (f_calls ops f)) /\ live p' = live p.
Proof.
  revert ms f p. induction ops as [|o ops IH]; intros ms f p R Hok; [by exists ms, p|]. apply Forall_cons in Hok as [Ho Hok]. cbn [calls f_calls].
  destruct (call_refines o ms f p R Ho) as (ms1 & p1 & E & R1 & Hl1). rewrite E. destruct (f_call o f) as [[n bytes] f1] eqn:Ef. cbn [fst snd] in *.
  rewrite <- (f_call_cap o f), Ef in Hok. destruct (IH ms1 f1 p1 R1 Hok) as (ms2 & p2 & E2 & R2 & Hl2). cbn [rbind]. rewrite E2. cbn [rbind].
  exists ms2, p2. destruct (f_calls ops f1). split; [done|]. split; [done|congruence].
Qed.

(** The blocks of a stream do not change until it is closed. *)
Definition blocks (ms : memstream) : list (nat * rkind) :=
  match own_buf ms with Some o => [(o, RBlk)] | None => [] end ++ [(blk ms, RBlk)].
Definition same_blocks (ms ms' : memstream) : Prop := blk ms' = blk ms /\ own_buf ms' = own_buf ms /\ flags ms' = flags ms.

Lemma call_blocks o ms p r ms' p' : call o ms p = Ok (r, ms', p') -> same_blocks ms ms'.
Proof.
  destruct o as [n|w|pos w]; cbn [call]; unfold mstream_read, mstream_write, mstream_seek, extend, terminate; intros E;
    repeat (case_match || inv_bind); simplify_eq; try done; cbn in *; repeat (case_match || inv_bind); simplify_eq; done.
Qed.

Lemma calls_blocks ops ms p l ms' p' : calls ops ms p = Ok (l, ms', p') -> same_blocks ms ms'.
Proof.
  revert ms p l. induction ops as [|o ops IH]; intros ms p l E; cbn [calls] in E; [by simplify_eq|]. inv_bind.
  destruct a as [[[n bytes] ms1] p1]. inv_bind. destruct a as [[l2 ms2] p2]. simplify_eq. apply call_blocks in E0 as (H1 & H2 & H3).
  apply IH in E1 as (H4 & H5 & H6). split; [congruence|]. split; congruence.
Qed.

(** ** Types *)

Inductive base := R | W | A.

(** What may follow the first letter; is there a plus? *)
Fixpoint suffix (t : string) : option bool :=
  match t with
  | EmptyString => Some false
  | String c t =>
      if Ascii.eqb c "+" then match suffix t with Some _ => Some true | None => None end
      else if Ascii.eqb c "b" then suffix t else None
  end.

Definition parse_mode (t : string) : option (base * bool) :=
  match t with
  | EmptyString => None
  | String c t =>
      match (if Ascii.eqb c "r" then Some R else if Ascii.eqb c "w" then Some W else if Ascii.eqb c "a" then Some A else None), suffix t with
      | Some b, Some plus => Some (b, plus)
      | _, _ => None
      end
  end.

Definition base_flags (b : base) : Z := match b with R => 1 | W => 10 | A => 4 end.
Definition mode_flags (m : base * bool) : Z := if snd m then Z.lor (base_flags (fst m)) 3 else base_flags (fst m).

Lemma suffix_flags t fl : fl <> 0 ->
  type_to_flags t fl = match suffix t with Some plus => if plus then Z.lor fl 3 else fl | None => 0 end.
Proof.
  revert fl. induction t as [|c t IH]; intros fl Hfl; [done|]. cbn [type_to_flags suffix].
  destruct (Ascii.eqb_spec c "+") as [->|Hp].
  { cbn. rewrite (proj2 (Z.eqb_neq fl 0) Hfl). rewrite IH by (rewrite Z.lor_eq_0_iff; tauto).
    destruct (suffix t) as [[]|]; [|done..]. by rewrite <- Z.lor_assoc. }
  destruct (Ascii.eqb_spec c "b") as [->|Hb].
  { cbn. rewrite (proj2 (Z.eqb_neq fl 0) Hfl). by apply IH. }
  rewrite (proj2 (Z.eqb_neq fl 0) Hfl). by repeat case_match.
Qed.

Lemma type_flags t : type_to_flags t 0 = match parse_mode t with Some m => mode_flags m | None => 0 end.
Proof.
  destruct t as [|c t]; [done|]. cbn [type_to_flags parse_mode].
  destruct (Ascii.eqb_spec c "r") as [->|Hr]; [cbn -[type_to_flags suffix]; rewrite suffix_flags by done; by destruct (suffix t) as [[]|]|].
  destruct (Ascii.eqb_spec c "w") as [->|Hw]; [cbn -[type_to_flags suffix]; rewrite suffix_flags by done; by destruct (suffix t) as [[]|]|].
  destruct (Ascii.eqb_spec c "a") as [->|Ha]; [cbn -[type_to_flags suffix]; rewrite suffix_flags by done; by destruct (suffix t) as [[]|]|].
  by repeat case_match.
Qed.

(** ** Opening and closing *)

Fixpoint text_len (l : list Z) : nat := match l with [] => 0 | c :: l => if c =? 0 then 0 else S (text_len l) end.

Lemma text_len_le l : (text_len l <= length l)%nat.
Proof. induction l as [|c l IH]; cbn; [lia|]. destruct (c =? 0); lia. Qed.

Lemma find_end_ok b size : (size <= length b)%nat -> Z.of_nat size <= INT_MAX ->
  forall fuel off, (off <= size)%nat -> (size - off < fuel)%nat ->
  find_end fuel b (Z.of_nat size) (Z.of_nat off) = Ok (Z.of_nat (off + text_len (drop off (take size b)))).
Proof.
  intros Hb Hi. unfold INT_MAX in Hi. induction fuel as [|fuel IH]; intros off Ho Hf; [lia|]. cbn [find_end]. rewrite u64_small by lia.
  destruct (Z.ltb_spec (Z.of_nat off) (Z.of_nat size)) as [Hlt|Hge].
  - destruct (lookup_lt_is_Some_2 b off ltac:(lia)) as [c Ec]. unfold peek. rewrite (proj2 (Z.ltb_ge _ _)) by lia. rewrite Nat2Z.id, Ec. cbn [rbind].
    rewrite (drop_S (take size b) c off) by (by rewrite lookup_take_lt by lia). cbn [text_len]. destruct (c =? 0); [by rewrite Nat.add_0_r|].
    replace (Z.of_nat off + 1) with (Z.of_nat (S off)) by lia. rewrite IH by lia. do 2 f_equal. lia.
  - rewrite drop_ge by (rewrite length_take; lia). cbn. by rewrite Nat.add_0_r.
Qed.

(** The file that a new stream stands for. *)
Definition opened_file (m : base * bool) (fresh : bool) (size : nat) (b : list Z) : mfile :=
  let c := match fst m with R => take size b | W => [] | A => if fresh then [] else take (text_len (take size b)) b end in
  MkFile c (match fst m with A => length c | _ => 0 end) size
    (match fst m with R => true | _ => snd m end) (match fst m with R => snd m | _ => true end) (match fst m with A => true | _ => false end).

(** The mode and the block of a stream that can be opened. *)
Definition can_open (ms_ok fun_ok : bool) (fresh lent : option (list Z)) (size : nat) (type : string) : option (base * bool * list Z) :=
  if (0 <? size)%nat && ms_ok && fun_ok then
    match parse_mode type with
    | Some m => match lent with
                | Some b => Some (m, b)
                | None => if snd m then (pair m <$> fresh) else None
                end
    | None => None
    end
  else None.

Lemma opened_stands (k : nat) (own : option nat) (m : base * bool) (lent : bool) (size : nat) (b : list Z) (fl : Z) :
  fl = (if lent then mode_flags m else Z.lor (mode_flags m) MS_MYBUF) -> (0 < size <= length b)%nat -> Z.of_nat size <= INT_MAX ->
  stands_for
    (MkMs k own b (Z.of_nat size)
       (if has fl MS_APPEND then (if lent then Z.of_nat (text_len (take size b)) else 0) else if has fl MS_TRUNCATE then 0 else Z.of_nat size)
       (if has fl MS_APPEND then (if lent then Z.of_nat (text_len (take size b)) else 0) else 0) fl)
    (opened_file m (negb lent) size b).
Proof.
  intros -> Hs Hi. pose proof (text_len_le (take size b)) as Ht. rewrite length_take in Ht. unfold opened_file.
  destruct m as [[] []], lent; split; cbn [content at_pos cap readable writable appends buf vsize curpos rsize flags fst snd negb mode_flags base_flags];
    try done; try (change (0 <? 0) with false); cbn; rewrite ?length_take; try (f_equal; lia); try lia;
    rewrite ?take_take; try (f_equal; lia).
Qed.

Lemma release_ok bs id L p : holds bs ((id, RBlk) :: L) p -> exists p', release RBlk id p = Ok p' /\ holds bs L p'.
Proof. intros H. apply holds_release in H as [E H]. by eexists. Qed.

Lemma close_ok bs ms p : holds bs (blocks ms) p -> has (flags ms) MS_MYBUF = bool_decide (is_Some (own_buf ms)) ->
  exists p', mstream_close ms p = Ok p' /\ live p' = bs.
Proof.
  unfold blocks, mstream_close. intros H ->. destruct (own_buf ms) as [o|]; cbn in *.
  - destruct (release_ok _ _ _ _ H) as (p1 & -> & H1). cbn. destruct (release_ok _ _ _ _ H1) as (p2 & -> & H2).
    exists p2. split; [done|]. by apply holds_base.
  - destruct (release_ok _ _ _ _ H) as (p1 & -> & H1). exists p1. split; [done|]. by apply holds_base.
Qed.

Lemma acquired p k : proc_wf p -> holds (live p) [(next_id p, k)] (snd (acquire k p)) /\ proc_wf (snd (acquire k p)).
Proof. intros H. split; [apply holds_acquire; [done|apply holds_nil]|by apply proc_wf_acquire]. Qed.

(** What [fmemopen] leaves: a stream, or nothing. *)
Definition left_by (ms_ok fun_ok : bool) (fresh lent : option (list Z)) (size : nat) (type : string) (p : proc) (r : option memstream) (p' : proc) : Prop :=
  match can_open ms_ok fun_ok fresh lent size type, r with
  | Some (m, b), Some ms =>
      stands_for ms (opened_file m (negb (bool_decide (is_Some lent))) size b) /\ holds (live p) (blocks ms) p' /\
      has (flags ms) MS_MYBUF = bool_decide (is_Some (own_buf ms))
  | None, None => live p' = live p
  | _, _ => False
  end.

Lemma mode_flags_mybuf m : has (mode_flags m) MS_MYBUF = false /\ has (Z.lor (mode_flags m) MS_MYBUF) MS_MYBUF = true /\
  has_all (mode_flags m) (Z.lor MS_READ MS_WRITE) = snd m /\ mode_flags m <> 0 /\
  has (Z.lor (mode_flags m) MS_MYBUF) MS_APPEND = has (mode_flags m) MS_APPEND.
Proof. by destruct m as [[] []]. Qed.

Section Open.
Context (ms_ok fun_ok : bool) (fresh lent : option (list Z)) (size : nat) (type : string) (p : proc).
Context (Hwf : proc_wf p) (Hi : Z.of_nat size <= INT_MAX).
Context (Hl : forall b, lent = Some b -> (size <= length b)%nat) (Hf : forall b, fresh = Some b -> length b = size).

Lemma fmemopen_left : exists r p', fmemopen ms_ok fun_ok fresh lent (Z.of_nat size) type p = Ok (r, p') /\
  left_by ms_ok fun_ok fresh lent size type p r p'.
Proof using Hwf Hi Hl Hf.
  unfold fmemopen, left_by, can_open. destruct (Nat.ltb_spec 0 size) as [Hs|Hs]; cycle 1.
  { rewrite (proj2 (Z.eqb_eq _ _)) by lia. by eexists None, _. }
  rewrite (proj2 (Z.eqb_neq _ _)) by lia. destruct ms_ok; cbn [negb andb]; [|by eexists None, _].
  destruct (acquired p RBlk Hwf) as [H0 Hwf0]. destruct (acquire RBlk p) as [k p0] eqn:Ek. assert (k = next_id p) as -> by (by injection Ek). cbn [snd] in H0, Hwf0.
  assert (forall e, exists p', release RBlk (next_id p) (set_errno e p0) = Ok p' /\ live p' = live p) as Hfail.
  { intros e. destruct (release_ok (live p) (next_id p) [] (set_errno e p0)) as (p' & -> & H'); [by eapply holds_live, H0|].
    exists p'. split; [done|]. by apply holds_base. }
  rewrite type_flags. destruct (parse_mode type) as [m|] eqn:Em; cycle 1.
  { destruct (Hfail EINVAL) as (p' & E & Hl'). cbn. rewrite E. exists None, p'. by destruct fun_ok. }
  destruct (mode_flags_mybuf m) as (M1 & M2 & M3 & M4 & M5). rewrite (proj2 (Z.eqb_neq _ _) M4). destruct lent as [b|].
  - assert ((if has (mode_flags m) MS_APPEND then find_end (S (Z.to_nat (Z.of_nat size))) b (Z.of_nat size) 0 else Ok 0) =
      Ok (if has (mode_flags m) MS_APPEND then Z.of_nat (text_len (take size b)) else 0)) as ->.
    { destruct (has (mode_flags m) MS_APPEND); [|reflexivity]. rewrite Nat2Z.id. apply (find_end_ok b size (Hl b eq_refl) Hi (S size) 0); lia. }
    cbn [rbind]. rewrite M1. destruct fun_ok; cbn [rbind].
    + eexists (Some _), p0. split; [reflexivity|]. rewrite bool_decide_true by (by eexists). cbn [negb blocks own_buf blk flags app]. split; [|by split].
      specialize (Hl b eq_refl). pose proof (opened_stands (next_id p) None m true size b _ eq_refl) as H. cbn in H. specialize (H ltac:(lia) Hi).
      destruct (has (mode_flags m) MS_APPEND); exact H.
    + destruct (release_ok (live p) (next_id p) [] p0 H0) as (p' & -> & H'). exists None, p'. split; [done|]. by apply holds_base.
  - rewrite M3. destruct (snd m); cycle 1.
    { destruct (Hfail EINVAL) as (p' & E & Hl'). cbn. rewrite E. exists None, p'. by destruct fun_ok. }
    destruct fresh as [b|]; cycle 1.
    { destruct (Hfail ENOMEM) as (p' & E & Hl'). cbn. rewrite E. exists None, p'. by destruct fun_ok. }
    cbn [negb]. pose proof (holds_acquire (live p) _ RBlk p0 Hwf0 H0) as H1. destruct (acquire RBlk p0) as [o p1] eqn:Eo.
    assert (o = next_id p0) as -> by (by injection Eo). cbn [snd] in H1. rewrite M2. cbn [release_opt]. destruct fun_ok; cbn [rbind].
    + eexists (Some _), p1. split; [reflexivity|]. rewrite bool_decide_false by (by intros []). cbn [fmap option_fmap option_map].
      split; [|by split]. specialize (Hf b eq_refl).
      pose proof (opened_stands (next_id p) (Some (next_id p0)) m false size b _ eq_refl ltac:(lia) Hi) as H. cbn in H.
      rewrite M5 in *. destruct (has (mode_flags m) MS_APPEND); exact H.
    + destruct (release_ok _ _ _ _ H1) as (p2 & -> & H2). cbn. destruct (release_ok _ _ _ _ H2) as (p3 & -> & H3).
      exists None, p3. split; [done|]. by apply holds_base.
Qed.
End Open.

(** ** A stream from [fmemopen] to [fclose] *)

Definition session (ms_ok fun_ok : bool) (fresh lent : option (list Z)) (size : Z) (type : string) (ops : list op) (p : proc)
    : res (option (list (Z * list Z) * list Z) * proc) :=
  let* (o, p) := fmemopen ms_ok fun_ok fresh lent size type p in
  match o with
  | None => Ok (None, p)
  | Some ms =>
      let* (l, ms, p) := calls ops ms p in
      let* p := mstream_close ms p in
      Ok (Some (l, buf ms), p)
  end.

(** C27. A stream answers every sequence of reads, writes and seeks as a file of bounded size does,
    touches no byte outside of its block, leaves the bytes of that file in the block and gives
    back everything it allocated; when it cannot be opened nothing is left either. *)
Theorem stream_session ms_ok fun_ok fresh lent size type ops p :
  proc_wf p -> Z.of_nat size <= INT_MAX -> (forall b, lent = Some b -> (size <= length b)%nat) -> (forall b, fresh = Some b -> length b = size) ->
  Forall (op_ok size) ops ->
  exists r p', session ms_ok fun_ok fresh lent (Z.of_nat size) type ops p = Ok (r, p') /\ live p' = live p /\
    match can_open ms_ok fun_ok fresh lent size type with
    | None => r = None
    | Some (m, b) => exists bytes, let '(l, f) := f_calls ops (opened_file m (negb (bool_decide (is_Some lent))) size b) in
        r = Some (l, bytes) /\ take (length (content f)) bytes = content f
    end.
Proof.
  intros Hwf Hi Hl Hf Hops. destruct (fmemopen_left ms_ok fun_ok fresh lent size type p Hwf Hi Hl Hf) as (r & p1 & E & H).
  unfold session. rewrite E. cbn [rbind]. unfold left_by in H. destruct (can_open _ _ _ _ _ _) as [[m b]|], r as [ms|]; try done; [|by exists None, p1].
  destruct H as (Hst & Hh & Hm). set (f := opened_file m _ size b) in *.
  destruct (calls_refine ops ms f p1 Hst Hops) as (ms2 & p2 & E2 & R2 & Hl2). rewrite E2. cbn [rbind].
  destruct (calls_blocks _ _ _ _ _ _ E2) as (B1 & B2 & B3). destruct (close_ok (live p) ms2 p2) as (p3 & -> & Hl3).
  - unfold blocks. rewrite B1, B2. by apply (holds_live _ _ p1 p2).
  - by rewrite B2, B3.
  - cbn [rbind]. eexists _, p3. split; [reflexivity|]. split; [done|]. exists (buf ms2). destruct (f_calls ops f) as [l f2]. split; [done|]. apply R2.
Qed.

Definition hello : list Z := [104; 101; 108; 108; 111].
Definition hello_ops : list op := [Write hello; Seek 0 SEEK_SET; Read 3; Write [0; 0; 0; 0]; Seek (-2) SEEK_CUR; Read 9; Seek 9 SEEK_SET].

Lemma stream_session_witness : exists r p', session true true (Some (replicate 8 7)) None 8 "wb+" hello_ops proc0 = Ok (r, p') /\ live p' = ∅.
Proof.
  destruct (stream_session true true (Some (replicate 8 7)) None 8 "wb+" hello_ops proc0) as (r & p' & E & Hl & _).
  - by intros id _.
  - by vm_compute.
  - by intros b [= <-].
  - by intros b [= <-].
  - repeat (apply Forall_cons; split); [..|by apply Forall_nil]; by vm_compute.
  - exists r, p'. by split.
Defined.

Example hello_answers :
  fst (f_calls hello_ops (opened_file (W, true) true 8 (replicate 8 7))) =
  [(5, []); (0, []); (3, [104; 101; 108]); (4, []); (5, []); (2, [0; 0]); (-1, [])].
Proof. reflexivity. Qed.

Lemma splice_nil w : splice 0 w [] = w.
Proof. unfold splice. cbn. rewrite drop_nil. apply app_nil_r. Qed.

(** What is written to a new stream of type w+ is read back after a seek to the start. *)
Theorem written_is_read w size b p :
  proc_wf p -> Z.of_nat size <= INT_MAX -> (0 < size)%nat -> length b = size -> (length w <= size)%nat ->
  exists bytes p', session true true (Some b) None (Z.of_nat size) "w+" [Write w; Seek 0 SEEK_SET; Read size] p =
    Ok (Some ([(Z.of_nat (length w), []); (0, []); (Z.of_nat (length w), w)], bytes), p').
Proof.
  intros Hwf Hi Hs Hb Hw.
  destruct (fmemopen_left true true (Some b) None size "w+" p Hwf Hi) as (r & p1 & E & H); [done|by intros ? [= <-]|].
  unfold left_by, can_open in H. rewrite (proj2 (Nat.ltb_lt _ _) Hs) in H. cbn [andb parse_mode] in H. destruct r as [ms|]; [|done]. cbn in H.
  destruct H as (Hst & Hh & Hm). set (f := opened_file _ _ _ _) in Hst. unfold session. rewrite E. cbn [rbind].
  destruct (calls_refine [Write w; Seek 0 SEEK_SET; Read size] ms f p1 Hst) as (ms2 & p2 & E2 & R2 & Hl2).
  { repeat (apply Forall_cons; split); [cbn in *; lia|cbn; unfold INT_MIN; split; [done|lia]|cbn in *; lia|by apply Forall_nil]. }
  rewrite E2. cbn [rbind]. destruct (calls_blocks _ _ _ _ _ _ E2) as (B1 & B2 & B3). destruct (close_ok (live p) ms2 p2) as (p3 & -> & Hl3).
  { unfold blocks. rewrite B1, B2. by apply (holds_live _ _ p1 p2). }
  { by rewrite B2, B3. }
  cbn [rbind]. exists (buf ms2), p3. do 4 f_equal. unfold f. cbn [f_calls f_call]. unfold f_write, opened_file. cbn [fst snd writable negb appends content at_pos cap readable].
  rewrite Nat.sub_0_r, (take_ge w) by lia. rewrite splice_nil. unfold with_content. unfold f_seek. cbn [content at_pos]. cbn -[f_read].
  rewrite (proj2 (Z.ltb_ge _ _)) by lia. cbn -[f_read]. unfold f_read. cbn [readable negb content at_pos]. cbn. rewrite !drop_0, !take_ge by lia. done.
Qed.

Lemma written_is_read_witness :
  exists bytes p', session true true (Some (replicate 8 7)) None 8 "w+" [Write hello; Seek 0 SEEK_SET; Read 8] proc0 =
    Ok (Some ([(5, []); (0, []); (5, hello)], bytes), p').
Proof. apply (written_is_read hello 8 (replicate 8 7) proc0); [by intros id _|by vm_compute|lia|done|cbn; lia]. Defined.

(** ** Offsets that an [int] does not hold *)

(** Behind the first two gigabytes the offset of a write is negative. *)
Theorem far_write_outside w ms p :
  has (flags ms) MS_APPEND = true -> INT_MAX < vsize ms < 2 ^ 32 -> mstream_write w ms p = Undef OutOfBounds.
Proof.
  unfold INT_MAX. intros Ha Hv. unfold mstream_write. assert (has (flags ms) (Z.lor MS_APPEND MS_WRITE) = true) as ->.
  { revert Ha. unfold has. intros H. apply negb_true_iff, Z.eqb_neq in H. apply negb_true_iff, Z.eqb_neq. intros E. apply H.
    rewrite Z.land_lor_distr_r in E. by apply Z.lor_eq_0_iff in E as [? _]. }
  rewrite Ha. cbn [negb]. assert (s32 (vsize ms) < 0) as Hneg by (unfold s32; Z.div_mod_to_equations; lia).
  unfold copy_in. rewrite (proj2 (Z.leb_gt 0 _)) by lia. done.
Qed.

(** A position is taken modulo 2^32. *)
Theorem seek_wraps pos ms p : mstream_seek (pos + 2 ^ 32) SEEK_SET ms p = mstream_seek pos SEEK_SET ms p.
Proof.
  unfold mstream_seek. cbn [rbind]. assert (s32 (pos + 2 ^ 32) = s32 pos) as ->; [|done].
  unfold s32. f_equal. replace (pos + 2 ^ 32 + 2 ^ 31) with (pos + 2 ^ 31 + 1 * 2 ^ 32) by lia. by rewrite Z.mod_add.
Qed.
