(* ===== verification/Qsort.v ===== *)
(** * week1/examples/01_c/qsort.c and qsort_lambda.c: the sorting of the C library

    Both programs hand a comparison function to [qsort].  [qsort] is a class: its law says what
    the standard promises of it, for comparisons that may go wrong, print and count.  The instance
    is insertion sort.  The programs print an array, sort it and print it again. *)

From S2P Require Import Prelude CLib.
From Stdlib Require Import Ascii.
From stdpp Require Import sorting.
Local Open Scope Z_scope.
Local Open Scope c_scope.

(** ** The interface *)

(** A comparison is consistent on the elements of a list. *)
Record consistent {A} (c : A -> A -> Z) (l : list A) : Prop := MkConsistent {
  c_sym : forall x y, x ∈ l -> y ∈ l -> (0 < c x y <-> c y x < 0);
  c_trans : forall x y z, x ∈ l -> y ∈ l -> z ∈ l -> c x y <= 0 -> c y z <= 0 -> c x z <= 0
}.

(** [qsort] calls the comparison on elements of the array, in an order that is not specified; the
    comparison may change a state. *)
Class Sorter := {
  qsort {A S : Type} : (A -> A -> S -> res (Z * S)) -> list A -> S -> res (list A * S);
  qsort_law {A S} (cmp : A -> A -> S -> res (Z * S)) (c : A -> A -> Z) (P : S -> Prop) l s :
    consistent c l ->
    (forall x y s, x ∈ l -> y ∈ l -> P s -> exists s', cmp x y s = Ok (c x y, s') /\ P s') -> P s ->
    exists l' s', qsort cmp l s = Ok (l', s') /\ l' ≡ₚ l /\ StronglySorted (fun x y => c x y <= 0) l' /\ P s'
}.

(** ** Insertion sort keeps the promise *)

Section Insertion.
Context {A S : Type} (cmp : A -> A -> S -> res (Z * S)).

Fixpoint insert_sorted (x : A) (l : list A) (s : S) : res (list A * S) :=
  match l with
  | [] => Ok ([x], s)
  | y :: l' =>
      let* (o, s) := cmp x y s in
      if o <=? 0 then Ok (x :: l, s)
      else let* (l', s) := insert_sorted x l' s in Ok (y :: l', s)
  end.

Fixpoint insertion_sort (l : list A) (s : S) : res (list A * S) :=
  match l with
  | [] => Ok ([], s)
  | x :: l => let* (l, s) := insertion_sort l s in insert_sorted x l s
  end.

Context (c : A -> A -> Z) (P : S -> Prop) (all : list A).
Context (Hc : consistent c all).
Context (Hcmp : forall x y s, x ∈ all -> y ∈ all -> P s -> exists s', cmp x y s = Ok (c x y, s') /\ P s').

Lemma insert_sorted_ok x l s : x ∈ all -> (forall y, y ∈ l -> y ∈ all) -> StronglySorted (fun x y => c x y <= 0) l -> P s ->
  exists l' s', insert_sorted x l s = Ok (l', s') /\ l' ≡ₚ x :: l /\ StronglySorted (fun x y => c x y <= 0) l' /\ P s'.
Proof using Hc Hcmp.
  intros Hx. revert s. induction l as [|y l IH]; intros s Hl Hs HP.
  - exists [x], s. split; [done|]. split; [done|]. split; [by repeat constructor|done].
  - apply StronglySorted_inv in Hs as [Hs Hy]. cbn [insert_sorted].
    destruct (Hcmp x y s Hx (Hl y ltac:(left)) HP) as (s1 & -> & HP1). cbn [rbind]. destruct (Z.leb_spec (c x y) 0) as [Hle|Hgt].
    + exists (x :: y :: l), s1. split; [done|]. split; [done|]. split; [|done]. constructor; [by constructor|]. constructor; [done|].
      rewrite Forall_forall in Hy |- *. intros z Hz. apply (c_trans _ _ Hc x y z); [done|by apply Hl; left|by apply Hl; right|done|by apply Hy].
    + destruct (IH s1) as (l' & s2 & E & Hp & Hs' & HP2); [by intros z Hz; apply Hl; right|done|done|]. rewrite E. cbn [rbind].
      exists (y :: l'), s2. split; [done|]. split; [rewrite Hp; apply Permutation_swap|]. split; [|done]. constructor; [done|].
      rewrite Hp. constructor; [|done]. assert (c y x < 0) by (by apply (c_sym _ _ Hc x y Hx (Hl y ltac:(left)))). lia.
Qed.

Lemma insertion_sort_ok l s : (forall y, y ∈ l -> y ∈ all) -> P s ->
  exists l' s', insertion_sort l s = Ok (l', s') /\ l' ≡ₚ l /\ StronglySorted (fun x y => c x y <= 0) l' /\ P s'.
Proof using Hc Hcmp.
  induction l as [|x l IH] in s |- *; intros Hl HP; [exists [], s; by repeat (split; [constructor|])|]. cbn [insertion_sort].
  destruct (IH s) as (l1 & s1 & -> & Hp & Hs & HP1); [by intros y Hy; apply Hl; right|done|]. cbn [rbind].
  destruct (insert_sorted_ok x l1 s1) as (l2 & s2 & -> & Hp2 & Hs2 & HP2); [by apply Hl; left|by intros y Hy; apply Hl; right; rewrite <- Hp|done|done|].
  exists l2, s2. split; [done|]. split; [by rewrite Hp2, Hp|done].
Qed.
End Insertion.

#[export] Instance insertion_sorter : Sorter.
Proof.
  refine {| qsort A S := insertion_sort |}. intros A S cmp c P l s Hc Hcmp HP. by apply (insertion_sort_ok cmp c P l Hc Hcmp).
Defined.

(** ** The two programs *)

Definition print_array {A} (print_func : A -> string) (base : list A) : string := foldr (fun x out => print_func x +:+ out) nl base.
Definition print_arr_int (el : Z) : string := fmt_lld el +:+ " ".
Definition print_arr_str (el : string) : string := el +:+ " ".

Definition minus_int (a b : Z) : res Z := if (a - b <? INT_MIN) || (INT_MAX <? a - b) then Undef IntOverflow else Ok (a - b).
Definition cmp_arr_int (a b : Z) (s : unit) : res (Z * unit) := let* o := minus_int a b in Ok (o, s).

(** The standard fixes the sign of what [strcmp] returns. *)
Fixpoint strcmp (a b : string) : Z :=
  match a, b with
  | EmptyString, EmptyString => 0
  | EmptyString, String _ _ => -1
  | String _ _, EmptyString => 1
  | String c a, String d b => if code c <? code d then -1 else if code d <? code c then 1 else strcmp a b
  end.
Definition cmp_arr_str (a b : string) (s : unit) : res (Z * unit) := Ok (strcmp a b, s).

Definition arr_i : list Z := [10; 34; -7; 1; 9].
Definition arr_s : list string := ["one"; "two"; "three"; "four"; "five"; "six"]%string.

(** [main] of qsort.c; the result is what it prints. *)
Definition qsort_main `{Sorter} : res string :=
  let out := print_array print_arr_int arr_i in
  let* (sorted_i, _) := qsort cmp_arr_int arr_i tt in
  let out := out +:+ print_array print_arr_int sorted_i +:+ print_array print_arr_str arr_s in
  let* (sorted_s, _) := qsort cmp_arr_str arr_s tt in
  Ok (out +:+ print_array print_arr_str sorted_s).

(** The comparison of qsort_lambda.c counts its calls and prints its arguments; the state is what
    was printed and the count, which stays below [INT_MAX]. *)
Definition comparison_line (k a b : Z) : string :=
  "Comparison " +:+ fmt_lld k +:+ ": " +:+ fmt_lld a +:+ " and " +:+ fmt_lld b +:+ nl.
Definition cmp_lambda (a b : Z) (s : string * Z) : res (Z * (string * Z)) :=
  let '(out, comparison) := s in
  let comparison := comparison + 1 in
  let out := out +:+ comparison_line comparison a b in
  let* o := minus_int a b in Ok (o, (out, comparison)).

Definition lambda_main `{Sorter} : res string :=
  let out := print_array print_arr_int arr_i in
  let* (sorted_i, s) := qsort cmp_lambda arr_i (out, 0) in
  Ok (fst s +:+ print_array print_arr_int sorted_i).

(** ** Both comparisons are consistent *)

Lemma minus_consistent l : consistent Z.sub l.
Proof. split; intros; lia. Qed.

Lemma minus_int_ok a b : INT_MIN <= a - b <= INT_MAX -> minus_int a b = Ok (a - b).
Proof. intros H. unfold minus_int. by rewrite (proj2 (Z.ltb_ge _ INT_MIN)), (proj2 (Z.ltb_ge INT_MAX _)) by lia. Qed.

Lemma code_inj c d : code c = code d -> c = d.
Proof. unfold code. intros E. rewrite <- (ascii_N_embedding c), <- (ascii_N_embedding d). f_equal. lia. Qed.

Lemma strcmp_opp a : forall b, strcmp b a = - strcmp a b.
Proof.
  induction a as [|c a IH]; intros [|d b]; [done..|]. cbn. destruct (Z.ltb_spec (code c) (code d)), (Z.ltb_spec (code d) (code c)); try lia. apply IH.
Qed.

Lemma strcmp_trans a : forall b d, strcmp a b <= 0 -> strcmp b d <= 0 -> strcmp a d <= 0.
Proof.
  induction a as [|x a IH]; intros [|y b] [|z d]; cbn; try lia.
  destruct (Z.ltb_spec (code x) (code y)), (Z.ltb_spec (code y) (code x)), (Z.ltb_spec (code y) (code z)), (Z.ltb_spec (code z) (code y)),
    (Z.ltb_spec (code x) (code z)), (Z.ltb_spec (code z) (code x)); try lia. apply IH.
Qed.

Lemma strcmp_eq a : forall b, strcmp a b = 0 -> a = b.
Proof.
  induction a as [|c a IH]; intros [|d b]; cbn; try done.
  destruct (Z.ltb_spec (code c) (code d)), (Z.ltb_spec (code d) (code c)); try done. intros E. f_equal; [apply code_inj; lia|by apply IH].
Qed.

Lemma strcmp_consistent l : consistent strcmp l.
Proof. split; intros; [rewrite (strcmp_opp x); lia|by eapply strcmp_trans]. Qed.

#[local] Instance minus_antisymm : AntiSymm (=) (fun x y => Z.sub x y <= 0).
Proof. intros x y. lia. Qed.
#[local] Instance strcmp_antisymm : AntiSymm (=) (fun x y => strcmp x y <= 0).
Proof. intros x y Hx Hy. apply strcmp_eq. rewrite strcmp_opp in Hy. lia. Qed.

Section Sorted.
Context `{Sorter}.

(** Numbers whose differences an [int] holds. *)
Definition close_by (l : list Z) : Prop := forall x y, x ∈ l -> y ∈ l -> INT_MIN <= x - y <= INT_MAX.

(** [qsort] with [cmp_arr_int] sorts every array of numbers that lie close enough together for
    their differences. *)
Theorem qsort_ints l : close_by l -> exists l', qsort cmp_arr_int l tt = Ok (l', tt) /\ l' ≡ₚ l /\ StronglySorted Z.le l'.
Proof.
  intros Hl. destruct (qsort_law cmp_arr_int Z.sub (fun _ => True) l tt (minus_consistent l)) as (l' & [] & E & Hp & Hs & _); [|done|].
  - intros x y [] Hx Hy _. exists tt. unfold cmp_arr_int. by rewrite minus_int_ok by (by apply Hl).
  - exists l'. split; [done|]. split; [done|]. clear E Hp. induction Hs as [|x l' Hs IH Hx]; constructor; [done|].
    eapply Forall_impl; [exact Hx|]. cbn. lia.
Qed.
End Sorted.

Lemma arr_i_close : close_by arr_i.
Proof.
  assert (Forall (fun x => -7 <= x <= 34) arr_i) as H by (repeat (apply Forall_cons; split; [lia|]); by apply Forall_nil).
  rewrite Forall_forall in H. intros x y Hx Hy. pose proof (H x Hx). pose proof (H y Hy). unfold INT_MIN, INT_MAX. lia.
Qed.

Lemma qsort_ints_witness : exists l', @qsort insertion_sorter Z unit cmp_arr_int arr_i tt = Ok (l', tt) /\ l' ≡ₚ arr_i /\ StronglySorted Z.le l'.
Proof. apply (qsort_ints arr_i), arr_i_close. Defined.

(** Far apart: the subtraction overflows. *)
Lemma qsort_overflows : cmp_arr_int INT_MIN 1 tt = Undef IntOverflow.
Proof. reflexivity. Qed.

Lemma sorted_arr_i l : l ≡ₚ arr_i -> StronglySorted (fun x y => Z.sub x y <= 0) l -> l = [-7; 1; 9; 10; 34].
Proof.
  intros Hp Hs. eapply (StronglySorted_unique (fun x y => Z.sub x y <= 0)); [done|by repeat constructor|].
  rewrite Hp. apply (bool_decide_unpack _). by vm_compute.
Qed.

Lemma sorted_arr_s l : l ≡ₚ arr_s -> StronglySorted (fun x y => strcmp x y <= 0) l -> l = ["five"; "four"; "one"; "six"; "three"; "two"]%string.
Proof.
  intros Hp Hs. eapply (StronglySorted_unique (fun x y => strcmp x y <= 0)); [done|by repeat constructor|].
  rewrite Hp. apply (bool_decide_unpack _). by vm_compute.
Qed.

Definition qsort_lines : string :=
  ("10 34 -7 1 9 " +:+ nl +:+ "-7 1 9 10 34 " +:+ nl +:+ "one two three four five six " +:+ nl +:+ "five four one six three two " +:+ nl)%string.

Section Programs.
Context `{Sorter}.

(** Whatever algorithm [qsort] is, qsort.c prints the two arrays as they are and sorted. *)
Theorem qsort_prints : qsort_main = Ok qsort_lines.
Proof.
  unfold qsort_main. destruct (qsort_law cmp_arr_int Z.sub (fun _ => True) arr_i tt (minus_consistent _)) as (li & [] & -> & Hp & Hs & _); [|done|].
  { intros x y [] Hx Hy _. exists tt. unfold cmp_arr_int. by rewrite minus_int_ok by (by apply arr_i_close). }
  destruct (qsort_law cmp_arr_str strcmp (fun _ => True) arr_s tt (strcmp_consistent _)) as (ls & [] & E & Hp2 & Hs2 & _); [by intros x y [] _ _ _; exists tt|done|].
  cbn [rbind]. rewrite E. cbn [rbind]. rewrite (sorted_arr_i li Hp Hs), (sorted_arr_s ls Hp2 Hs2). vm_compute. reflexivity.
Qed.

Fixpoint comparison_lines (k : Z) (pairs : list (Z * Z)) : string :=
  match pairs with [] => EmptyString | (a, b) :: pairs => comparison_line (k + 1) a b +:+ comparison_lines (k + 1) pairs end.

Lemma comparison_lines_snoc pairs a b k :
  comparison_lines k (pairs ++ [(a, b)]) = comparison_lines k pairs +:+ comparison_line (k + Z.of_nat (length pairs) + 1) a b.
Proof.
  induction pairs as [|[x y] pairs IH] in k |- *; cbn [app comparison_lines length].
  - rewrite append_nil_r, Z.add_0_r. done.
  - rewrite IH, append_assoc. do 3 f_equal. lia.
Qed.

(** qsort_lambda.c numbers its comparisons, each of two elements of the array, from one on, and
    then prints the array sorted. *)
Theorem lambda_prints : exists pairs, Forall (fun '(a, b) => a ∈ arr_i /\ b ∈ arr_i) pairs /\
  lambda_main = Ok (print_array print_arr_int arr_i +:+ comparison_lines 0 pairs +:+ print_array print_arr_int [-7; 1; 9; 10; 34]).
Proof.
  unfold lambda_main. set (out := print_array print_arr_int arr_i).
  destruct (qsort_law cmp_lambda Z.sub (fun s => exists pairs, Forall (fun '(a, b) => a ∈ arr_i /\ b ∈ arr_i) pairs /\
      s = (out +:+ comparison_lines 0 pairs, Z.of_nat (length pairs))) arr_i (out, 0) (minus_consistent _))
    as (l & s & -> & Hp & Hs & pairs & Hall & ->).
  - intros x y s Hx Hy (pairs & Hall & ->). eexists. unfold cmp_lambda. rewrite minus_int_ok by (by apply arr_i_close). cbn [rbind]. split; [done|].
    exists (pairs ++ [(x, y)]). split; [apply Forall_app; split; [done|by apply Forall_singleton]|].
    rewrite comparison_lines_snoc, append_assoc, length_app. cbn [length]. replace (Z.of_nat (length pairs + 1)) with (Z.of_nat (length pairs) + 1) by lia. by rewrite Z.add_0_l.
  - exists []. split; [by apply Forall_nil|]. by rewrite append_nil_r.
  - exists pairs. split; [done|]. cbn [rbind fst]. by rewrite (sorted_arr_i l Hp Hs), <- append_assoc.
Qed.
End Programs.

Lemma qsort_prints_witness : @qsort_main insertion_sorter = Ok qsort_lines.
Proof. apply qsort_prints. Defined.
