(* ===== verification/BarrierSort.v ===== *)
(** * apue threads/barrier.c: eight threads sort, a barrier, a merge

    Every thread sorts its part of [nums]; after the barrier [main] merges the parts.  The program
    sorts eight million numbers; the number per thread, [TNUM], is an argument here.  The
    [heapsort] of the BSD library is a [Sorter]; that it may fail for lack of memory, which the
    program does not look at, is left out.  The parts are disjoint, so a sort is one step of the
    system; creating a thread succeeds. *)

From S2P Require Import Prelude Steps Qsort.
From stdpp Require Import sorting.
Local Open Scope Z_scope.
Local Open Scope c_scope.

Definition NTHR : nat := 8.
Definition LONG_MAX : Z := LLONG_MAX.

Definition complong (l1 l2 : Z) (s : unit) : res (Z * unit) := Ok (if l1 =? l2 then 0 else if l1 <? l2 then -1 else 1, s).

(** [&nums[idx]], [TNUM] numbers from there. *)
Definition part (TNUM idx : nat) (nums : list Z) : list Z := take TNUM (drop idx nums).
Definition set_part (TNUM idx : nat) (w nums : list Z) : list Z := take idx nums ++ w ++ drop (idx + TNUM) nums.

Section Program.
Context `{Sorter} (TNUM : nat).

Definition NUMNUM : nat := NTHR * TNUM.

(** ** [merge]

    The inner loop looks for the smallest of the numbers that come next in their parts; [minidx]
    keeps its value from one round to the next, and has none before the first. *)
Definition look (nums : list Z) (idx : list nat) (i : nat) (acc : Z * option nat) : res (Z * option nat) :=
  let '(num, minidx) := acc in
  match idx !! i with
  | None => Undef OutOfBounds
  | Some p =>
      if (p <? (i + 1) * TNUM)%nat then
        match nums !! p with
        | None => Undef OutOfBounds
        | Some x => if x <? num then Ok (x, Some i) else Ok acc
        end
      else Ok acc
  end.

Fixpoint look_all (nums : list Z) (idx : list nat) (ts : list nat) (acc : Z * option nat) : res (Z * option nat) :=
  match ts with
  | [] => Ok acc
  | i :: ts => let* acc := look nums idx i acc in look_all nums idx ts acc
  end.

(** [n] rounds of the outer loop; the result is what they append to [snums]. *)
Fixpoint merge_loop (n : nat) (nums : list Z) (idx : list nat) (minidx : option nat) : res (list Z) :=
  match n with
  | O => Ok []
  | S n =>
      let* (_, minidx) := look_all nums idx (seq 0 NTHR) (LONG_MAX, minidx) in
      match minidx with
      | None => Undef UninitRead
      | Some m =>
          match idx !! m with
          | None => Undef OutOfBounds
          | Some p =>
              match nums !! p with
              | None => Undef OutOfBounds
              | Some x => let* snums := merge_loop n nums (<[m := S p]> idx) (Some m) in Ok (x :: snums)
              end
          end
      end
  end.

Definition merge (nums : list Z) : res (list Z) := merge_loop NUMNUM nums ((fun i => (i * TNUM)%nat) <$> seq 0 NTHR) None.

(** ** The threads *)

Inductive tpc := Sorting | Before | Waiting | Gone.
Inductive mpc := Creating | MainBefore | MainWaiting | Done (snums : res (list Z)).

(** [arrived] counts the threads that called [pthread_barrier_wait]. *)
Record st := MkSt { nums : list Z; arrived : nat; threads : list tpc; main_at : mpc }.

Inductive actor := T (i : nat) | M.

Definition thr_fn (i : nat) (s : st) : option st :=
  let move pc n a := Some (MkSt n a (<[i := pc]> (threads s)) (main_at s)) in
  match threads s !! i with
  | Some Sorting =>
      match qsort complong (part TNUM (i * TNUM) (nums s)) tt with
      | Ok (w, _) => move Before (set_part TNUM (i * TNUM) w (nums s)) (arrived s)
      | _ => None
      end
  | Some Before => move Waiting (nums s) (S (arrived s))
  | Some Waiting => if (arrived s =? NTHR + 1)%nat then move Gone (nums s) (arrived s) else None
  | Some Gone | None => None
  end.

Definition main (s : st) : option st :=
  match main_at s with
  | Creating =>
      Some (if (length (threads s) <? NTHR)%nat then MkSt (nums s) (arrived s) (threads s ++ [Sorting]) Creating
            else MkSt (nums s) (arrived s) (threads s) MainBefore)
  | MainBefore => Some (MkSt (nums s) (S (arrived s)) (threads s) MainWaiting)
  | MainWaiting =>
      if (arrived s =? NTHR + 1)%nat then Some (MkSt (nums s) (arrived s) (threads s) (Done (merge (nums s)))) else None
  | Done _ => None
  end.

Definition act (a : actor) (s : st) : option st := match a with T i => thr_fn i s | M => main s end.

(** [random] fills the array. *)
Definition init (random : nat -> Z) : st := MkSt (random <$> seq 0 NUMNUM) 0 [] Creating.

(** ** What the parts still hold *)

Definition rest (nums : list Z) (i p : nat) : list Z := take ((i + 1) * TNUM - p) (drop p nums).

Fixpoint remaining (nums : list Z) (i : nat) (idx : list nat) : list Z :=
  match idx with [] => [] | p :: idx => rest nums i p ++ remaining nums (S i) idx end.

Definition in_range (idx : list nat) : Prop := length idx = NTHR /\ forall i p, idx !! i = Some p -> (i * TNUM <= p <= (i + 1) * TNUM)%nat.

Lemma rest_step l i p x : (p < (i + 1) * TNUM)%nat -> l !! p = Some x -> rest l i p = x :: rest l i (S p).
Proof.
  intros Hp Ex. unfold rest. rewrite (drop_S l x p Ex). replace ((i + 1) * TNUM - p)%nat with (S ((i + 1) * TNUM - S p)) by lia. done.
Qed.

Lemma remaining_step l i idx m p x : idx !! m = Some p -> rest l (i + m) p = x :: rest l (i + m) (S p) ->
  remaining l i idx ≡ₚ x :: remaining l i (<[m := S p]> idx).
Proof.
  revert i m. induction idx as [|q idx IH]; intros i [|m] Em Er; cbn in Em; [done..| |].
  - simplify_eq. cbn. rewrite Nat.add_0_r in Er. by rewrite Er.
  - cbn. rewrite (IH (S i) m Em); [|by replace (S i + m)%nat with (i + S m)%nat by lia]. symmetry. apply Permutation_middle.
Qed.

Lemma elem_remaining l i idx y : y ∈ remaining l i idx <-> exists m p, idx !! m = Some p /\ y ∈ rest l (i + m) p.
Proof.
  induction idx as [|q idx IH] in i |- *; cbn [remaining].
  - rewrite elem_of_nil. split; [done|]. by intros (m & p & E & _).
  - rewrite elem_of_app, IH. split.
    + intros [Hy|(m & p & E & Hy)]; [exists 0%nat, q; by rewrite Nat.add_0_r|]. exists (S m), p. by replace (i + S m)%nat with (S i + m)%nat by lia.
    + intros ([|m] & p & E & Hy); cbn in E; [left; simplify_eq; by rewrite Nat.add_0_r in Hy|].
      right. exists m, p. by replace (S i + m)%nat with (i + S m)%nat by lia.
Qed.

Lemma remaining_start l k : forall i, length l = (NUMNUM)%nat -> (i + k <= NTHR)%nat ->
  remaining l i ((fun i => (i * TNUM)%nat) <$> seq i k) = take (k * TNUM) (drop (i * TNUM) l).
Proof.
  induction k as [|k IH]; intros i Hl Hk; [done|]. cbn [seq fmap list_fmap remaining]. rewrite IH by lia. unfold rest.
  replace ((i + 1) * TNUM - i * TNUM)%nat with TNUM by lia. replace (S i * TNUM)%nat with (i * TNUM + TNUM)%nat by lia.
  rewrite <- drop_drop. replace (S k * TNUM)%nat with (TNUM + k * TNUM)%nat by lia. by rewrite take_take_drop.
Qed.

(** ** The inner loop *)

Lemma look_all_spec l idx ts num mi : length l = NUMNUM -> in_range idx -> (forall i, i ∈ ts -> (i < NTHR)%nat) ->
  exists num' mi', look_all l idx ts (num, mi) = Ok (num', mi') /\ num' <= num /\
    (forall i p x, i ∈ ts -> idx !! i = Some p -> (p < (i + 1) * TNUM)%nat -> l !! p = Some x -> num' <= x) /\
    (num' = num /\ mi' = mi \/
     exists i p, mi' = Some i /\ idx !! i = Some p /\ (p < (i + 1) * TNUM)%nat /\ l !! p = Some num').
Proof.
  intros Hl [Hidx Hr]. revert num mi. induction ts as [|i ts IH]; intros num mi Hts.
  { exists num, mi. split; [done|]. split; [lia|]. split; [by intros i p x Hi; apply elem_of_nil in Hi|by left]. }
  assert (i < NTHR)%nat as Hi by (apply Hts; left). destruct (lookup_lt_is_Some_2 idx i ltac:(lia)) as [p Ep]. cbn [look_all]. unfold look at 1.
  rewrite Ep. destruct (Nat.ltb_spec p ((i + 1) * TNUM)) as [Hp|Hp].
  - assert (p < length l)%nat as Hpl by (rewrite Hl; unfold NUMNUM; nia). destruct (lookup_lt_is_Some_2 l p Hpl) as [x Ex]. rewrite Ex.
    set (acc := if x <? num then (x, Some i) else (num, mi)).
    replace (if x <? num then Ok (x, Some i) else Ok (num, mi)) with (Ok acc) by (subst acc; by destruct (x <? num)). cbn [rbind].
    destruct (IH (fst acc) (snd acc)) as (num' & mi' & E & Hle & Hall & Hres); [by intros j Hj; apply Hts; right|].
    rewrite <- surjective_pairing in E. exists num', mi'. split; [done|].
    assert (fst acc <= x /\ fst acc <= num) as [A1 A2] by (subst acc; destruct (Z.ltb_spec x num); cbn; lia).
    split; [lia|]. split.
    + intros j q y Hj Eq Hq Ey. apply elem_of_cons in Hj as [->|Hj]; [|by eapply Hall]. simplify_eq. lia.
    + destruct Hres as [[-> ->]|Hres]; [|by right]. subst acc. destruct (Z.ltb_spec x num); cbn; [|by left]. right. by exists i, p.
  - cbn [rbind]. destruct (IH num mi) as (num' & mi' & E & Hle & Hall & Hres); [by intros j Hj; apply Hts; right|].
    exists num', mi'. split; [done|]. split; [done|]. split; [|done].
    intros j q y Hj Eq Hq Ey. apply elem_of_cons in Hj as [->|Hj]; [simplify_eq; lia|by eapply Hall].
Qed.

(** ** The merge *)

Lemma in_range_insert idx m p : in_range idx -> idx !! m = Some p -> (p < (m + 1) * TNUM)%nat -> in_range (<[m := S p]> idx).
Proof.
  intros [Hl Hr] Em Hp. split; [by rewrite length_insert|]. intros i q E. destruct (decide (i = m)) as [->|Hne].
  - rewrite list_lookup_insert_eq in E by (by eapply lookup_lt_Some). simplify_eq. specialize (Hr m p Em). lia.
  - rewrite list_lookup_insert_ne in E by done. by apply Hr.
Qed.

Lemma merge_loop_ok l n : length l = NUMNUM -> Forall (fun x => x < LONG_MAX) l -> forall idx mi,
  in_range idx -> (forall i p, idx !! i = Some p -> StronglySorted Z.le (rest l i p)) -> length (remaining l 0 idx) = n ->
  exists out, merge_loop n l idx mi = Ok out /\ out ≡ₚ remaining l 0 idx /\ StronglySorted Z.le out.
Proof.
  intros Hl Hmax. induction n as [|n IH]; intros idx mi Hr Hs Hn.
  { exists []. split; [done|]. apply length_zero_iff_nil in Hn. rewrite Hn. split; [done|constructor]. }
  destruct (remaining l 0 idx) as [|y ys] eqn:Erem; [done|].
  assert (forall i p x, idx !! i = Some p -> (p < (i + 1) * TNUM)%nat -> l !! p = Some x -> rest l i p = x :: rest l i (S p)) as Hstep
    by (intros i p x _ Hp Ex; by apply rest_step).
  destruct (look_all_spec l idx (seq 0 NTHR) LONG_MAX mi Hl Hr) as (num & mi' & E & Hle & Hall & Hres); [by intros i Hi%elem_of_seq; lia|].
  assert (forall z, z ∈ remaining l 0 idx -> num <= z) as Hmin.
  { intros z (i & p & Ei & Hz)%elem_remaining. change (0 + i)%nat with i in Hz. assert (i < NTHR)%nat as Hi by (rewrite <- (proj1 Hr); by eapply lookup_lt_Some).
    destruct (decide (p < (i + 1) * TNUM)%nat) as [Hp|Hp].
    - destruct (lookup_lt_is_Some_2 l p) as [x Ex]; [rewrite Hl; unfold NUMNUM; nia|].
      assert (num <= x) as Hx by (apply (Hall i p x); [apply elem_of_seq; lia|done..]).
      specialize (Hs i p Ei). rewrite (Hstep i p x Ei Hp Ex) in Hs, Hz. apply StronglySorted_inv in Hs as [_ Hf]. rewrite Forall_forall in Hf.
      apply elem_of_cons in Hz as [->|Hz]; [done|]. specialize (Hf z Hz). lia.
    - unfold rest in Hz. replace ((i + 1) * TNUM - p)%nat with 0%nat in Hz by lia. by apply elem_of_nil in Hz. }
  assert (num < LONG_MAX) as Hlt.
  { rewrite Erem in Hmin. specialize (Hmin y ltac:(left)). assert (y ∈ l) as Hy; [|rewrite Forall_forall in Hmax; specialize (Hmax y Hy); lia].
    assert (y ∈ remaining l 0 idx) as (i & p & _ & Hy)%elem_remaining by (rewrite Erem; left). unfold rest in Hy.
    apply elem_of_take in Hy as (k & Hk & _). rewrite lookup_drop in Hk. by eapply list_elem_of_lookup_2. }
  destruct Hres as [[-> _]|(m & p & -> & Em & Hp & Ex)]; [lia|]. cbn [merge_loop]. rewrite E. cbn [rbind]. rewrite Em, Ex.
  pose proof (remaining_step l 0 idx m p num Em (Hstep m p num Em Hp Ex)) as Hperm.
  destruct (IH (<[m := S p]> idx) (Some m)) as (out & -> & Hp' & Hs').
  - by apply in_range_insert.
  - intros i q Eq. destruct (decide (i = m)) as [->|Hne].
    + rewrite list_lookup_insert_eq in Eq by (by eapply lookup_lt_Some). simplify_eq. specialize (Hs m p Em).
      rewrite (Hstep m p num Em Hp Ex) in Hs. by apply StronglySorted_inv in Hs as [? _].
    + rewrite list_lookup_insert_ne in Eq by done. by apply Hs.
  - rewrite <- Erem, Hperm in Hn. cbn in Hn. lia.
  - cbn [rbind]. exists (num :: out). split; [done|]. rewrite <- Erem. split; [by rewrite Hp'|]. constructor; [done|].
    rewrite Forall_forall. intros z Hz. apply Hmin. rewrite Hperm. right. by rewrite <- Hp'.
Qed.

Lemma merge_ok l : length l = NUMNUM -> Forall (fun x => x < LONG_MAX) l ->
  (forall i, (i < NTHR)%nat -> StronglySorted Z.le (part TNUM (i * TNUM) l)) ->
  exists out, merge l = Ok out /\ out ≡ₚ l /\ StronglySorted Z.le out.
Proof.
  intros Hl Hmax Hs. assert (remaining l 0 ((fun i => (i * TNUM)%nat) <$> seq 0 NTHR) = l) as Er.
  { rewrite remaining_start by (done || lia). cbn [Nat.mul]. rewrite drop_0. apply take_ge. rewrite Hl. done. }
  assert (forall i p, ((fun i => (i * TNUM)%nat) <$> seq 0 NTHR) !! i = Some p -> p = (i * TNUM)%nat /\ (i < NTHR)%nat) as Hidx.
  { intros i p E. apply list_lookup_fmap_Some in E as (j & -> & [-> Hj]%lookup_seq). done. }
  unfold merge. destruct (merge_loop_ok l NUMNUM Hl Hmax ((fun i => (i * TNUM)%nat) <$> seq 0 NTHR) None) as (out & E & Hp & Hso).
  - split; [by rewrite length_fmap, length_seq|]. intros i p [-> _]%Hidx. lia.
  - intros i p [-> Hi]%Hidx. unfold rest. replace ((i + 1) * TNUM - i * TNUM)%nat with TNUM by lia. by apply Hs.
  - by rewrite Er.
  - exists out. split; [done|]. by rewrite Er in Hp.
Qed.

(** ** The threads sort their parts *)

Lemma length_part idx l : (idx + TNUM <= length l)%nat -> length (part TNUM idx l) = TNUM.
Proof. intros Hl. unfold part. rewrite length_take, length_drop. lia. Qed.

Lemma set_part_perm idx w l : w ≡ₚ part TNUM idx l -> set_part TNUM idx w l ≡ₚ l.
Proof.
  intros Hw. unfold set_part. rewrite Hw. unfold part. rewrite <- drop_drop, take_drop. by rewrite take_drop.
Qed.

Lemma part_set_part i j w l : length w = TNUM -> (i * TNUM + TNUM <= length l)%nat ->
  part TNUM (j * TNUM) (set_part TNUM (i * TNUM) w l) = if decide (i = j) then w else part TNUM (j * TNUM) l.
Proof.
  intros Hw Hl. unfold part, set_part. assert (length (take (i * TNUM) l) = (i * TNUM)%nat) as Ht by (rewrite length_take; lia).
  case_decide as Hij.
  - subst j. rewrite drop_app_length' by done. by apply take_app_length'.
  - apply list_eq. intros k. destruct (decide (k < TNUM)%nat) as [Hk|Hk]; [|by rewrite !lookup_take_ge by lia].
    rewrite !lookup_take_lt, !lookup_drop by done. destruct (decide (j < i)%nat) as [Hlt|Hge].
    + assert (j * TNUM + k < i * TNUM)%nat by nia. rewrite lookup_app_l by lia. by rewrite lookup_take_lt by lia.
    + assert (i * TNUM + TNUM <= j * TNUM)%nat by nia. rewrite lookup_app_r by lia. rewrite lookup_app_r by lia.
      rewrite lookup_drop. f_equal. lia.
Qed.

Lemma complong_consistent l : consistent (fun x y => if x =? y then 0 else if x <? y then -1 else 1) l.
Proof.
  split; intros.
  - destruct (Z.eqb_spec x y), (Z.eqb_spec y x), (Z.ltb_spec x y), (Z.ltb_spec y x); lia.
  - destruct (Z.eqb_spec x y), (Z.eqb_spec y z), (Z.eqb_spec x z), (Z.ltb_spec x y), (Z.ltb_spec y z), (Z.ltb_spec x z); lia.
Qed.

Lemma heapsort_ok l : exists w, qsort complong l tt = Ok (w, tt) /\ w ≡ₚ l /\ StronglySorted Z.le w.
Proof.
  destruct (qsort_law complong _ (fun _ => True) l tt (complong_consistent l)) as (w & [] & E & Hp & Hs & _); [by intros x y [] _ _ _; exists tt|done|].
  exists w. split; [done|]. split; [done|]. clear E Hp. induction Hs as [|x w Hs IH Hx]; constructor; [done|].
  eapply Forall_impl; [exact Hx|]. intros y. cbn. destruct (Z.eqb_spec x y), (Z.ltb_spec x y); lia.
Qed.

(** ** The barrier *)

Definition at_barrier (pc : tpc) : Z := match pc with Waiting | Gone => 1 | _ => 0 end.
Definition main_there (m : mpc) : Z := match m with MainWaiting | Done _ => 1 | _ => 0 end.

Record inv (nums0 : list Z) (s : st) : Prop := MkInv {
  i_perm : nums s ≡ₚ nums0;
  i_count : Z.of_nat (arrived s) = sum_by at_barrier (threads s) + main_there (main_at s);
  i_threads : (length (threads s) <= NTHR)%nat;
  i_all : main_at s <> Creating -> length (threads s) = NTHR;
  i_sorted : forall i pc, threads s !! i = Some pc -> pc <> Sorting -> StronglySorted Z.le (part TNUM (i * TNUM) (nums s));
  i_done : forall r, main_at s = Done r -> arrived s = (NTHR + 1)%nat /\ exists out, r = Ok out /\ out ≡ₚ nums0 /\ StronglySorted Z.le out
}.

Lemma at_barrier_bound l : 0 <= sum_by at_barrier l <= Z.of_nat (length l).
Proof. pose proof (sum_by_bound at_barrier 0 1 l) as Hb. specialize (Hb ltac:(intros [] _; cbn; lia)). lia. Qed.

Lemma all_there l i pc : sum_by at_barrier l = Z.of_nat (length l) -> l !! i = Some pc -> pc = Waiting \/ pc = Gone.
Proof.
  intros Hs Hi. pose proof (sum_by_insert at_barrier l i pc Waiting Hi) as E. pose proof (at_barrier_bound (<[i := Waiting]> l)) as Hb.
  rewrite length_insert in Hb. destruct pc; cbn in E; [lia|lia|by left|by right].
Qed.

Section Inv.
Context (nums0 : list Z) (Hlen : length nums0 = NUMNUM) (Hmax : Forall (fun x => x < LONG_MAX) nums0).

Lemma full_sorted s : inv nums0 s -> main_at s <> Creating -> main_there (main_at s) = 1 -> arrived s = (NTHR + 1)%nat ->
  forall i pc, threads s !! i = Some pc -> pc = Waiting \/ pc = Gone.
Proof using Hlen.
  intros I Hm H1 Ha i pc Hi. eapply all_there; [|exact Hi]. pose proof (i_count _ s I) as E. rewrite Ha, H1 in E. rewrite (i_all _ s I Hm). lia.
Qed.

Lemma inv_main s s' : inv nums0 s -> main s = Some s' -> inv nums0 s'.
Proof using Hlen Hmax.
  intros I. pose proof I as [Hp Hc Ht Ha Hs Hd]. unfold main. destruct (main_at s) eqn:Em.
  - intros [= <-]. destruct (Nat.ltb_spec (length (threads s)) NTHR) as [Hlt|Hge]; split; cbn; try done.
    + rewrite sum_by_app, sum_by_one. cbn in *. lia.
    + rewrite length_app. cbn. lia.
    + intros i pc Hi Hpc. apply lookup_app_Some in Hi as [Hi|[_ Hi]]; [by eapply Hs|]. apply list_lookup_singleton_Some in Hi as [_ <-]. done.
    + intros _. lia.
  - intros [= <-]. split; cbn; try done; [|by intros _; apply Ha]. cbn in Hc. lia.
  - destruct (Nat.eqb_spec (arrived s) (NTHR + 1)) as [E|]; [|done]. intros [= <-]. split; cbn; try done; [by intros _; apply Ha|].
    intros r [= <-]. split; [done|]. destruct (merge_ok (nums s)) as (out & E1 & Hp1 & Hs1).
    + by rewrite Hp.
    + by rewrite Hp.
    + intros i Hi. destruct (lookup_lt_is_Some_2 (threads s) i) as [pc Hpc]; [rewrite Ha by done; lia|].
      apply (Hs i pc Hpc). destruct (full_sorted s I) with (i := i) (pc := pc) as [->| ->]; try done; by rewrite Em.
    + exists out. split; [done|]. by rewrite Hp in Hp1.
  - done.
Qed.

Lemma inv_thread_move s i pc pc' nums' n : inv nums0 s -> threads s !! i = Some pc -> nums' ≡ₚ nums0 ->
  Z.of_nat n = Z.of_nat (arrived s) + at_barrier pc' - at_barrier pc ->
  (forall j, j <> i -> (j < NTHR)%nat -> part TNUM (j * TNUM) nums' = part TNUM (j * TNUM) (nums s)) ->
  (pc' <> Sorting -> StronglySorted Z.le (part TNUM (i * TNUM) nums')) -> (forall r, main_at s = Done r -> n = (NTHR + 1)%nat) ->
  inv nums0 (MkSt nums' n (<[i := pc']> (threads s)) (main_at s)).
Proof using Hlen.
  intros [Hp Hc Ht Ha Hs Hd] Hi Hp' Hn Hj Hpart Hdone. split; cbn.
  - done.
  - rewrite (sum_by_insert _ _ _ _ _ Hi). lia.
  - by rewrite length_insert.
  - by rewrite length_insert.
  - intros j q Hq Hne. destruct (decide (j = i)) as [->|Hji].
    + rewrite list_lookup_insert_eq in Hq by (by eapply lookup_lt_Some). simplify_eq. by apply Hpart.
    + rewrite list_lookup_insert_ne in Hq by done. rewrite Hj; [by eapply Hs|done|]. apply lookup_lt_Some in Hq. lia.
  - intros r Hr. destruct (Hd r Hr) as [_ Hout]. split; [by eapply Hdone|done].
Qed.

Lemma inv_thr i s s' : inv nums0 s -> thr_fn i s = Some s' -> inv nums0 s'.
Proof using Hlen.
  intros I E. unfold thr_fn in E. destruct (threads s !! i) as [pc|] eqn:Hi; [|done]. pose proof (lookup_lt_Some _ _ _ Hi) as Hlt.
  pose proof (i_threads _ s I). assert (length (nums s) = NUMNUM) as Hl by (by rewrite (i_perm _ s I)).
  assert (i * TNUM + TNUM <= length (nums s))%nat as Hin by (rewrite Hl; unfold NUMNUM; nia).
  assert (forall r, main_at s = Done r -> pc = Waiting \/ pc = Gone) as Hdone.
  { intros r Hr. destruct (i_done _ s I r Hr) as [Ha _]. eapply (full_sorted s I); [..|done|exact Hi]; by rewrite Hr. }
  destruct pc; [| | |done].
  - destruct (heapsort_ok (part TNUM (i * TNUM) (nums s))) as (w & Ew & Hpw & Hsw). rewrite Ew in E. simplify_eq.
    assert (length w = TNUM) as Hlw by (by rewrite Hpw, length_part).
    apply (inv_thread_move s i Sorting); [done|done|by rewrite set_part_perm, (i_perm _ s I)|cbn; lia| | |].
    + intros j Hj _. rewrite part_set_part by done. by rewrite decide_False.
    + intros _. rewrite part_set_part by done. by rewrite decide_True.
    + intros r Hr. by destruct (Hdone r Hr).
  - simplify_eq. apply (inv_thread_move s i Before); [done|done|by apply (i_perm _ s I)|cbn; lia|done|intros _; by eapply (i_sorted _ s I)|].
    intros r Hr. by destruct (Hdone r Hr).
  - destruct (arrived s =? NTHR + 1)%nat eqn:Ea; [|done]. simplify_eq.
    apply (inv_thread_move s i Waiting); [done|done|by apply (i_perm _ s I)|cbn; lia|done|intros _; by eapply (i_sorted _ s I)|].
    intros _ _. by apply Nat.eqb_eq in Ea.
Qed.

Lemma inv_act a s s' : inv nums0 s -> act a s = Some s' -> inv nums0 s'.
Proof using Hlen Hmax. destruct a as [i|]; [apply inv_thr|apply inv_main]. Qed.
End Inv.

(** ** The end *)

Definition thread_left (pc : tpc) : Z := match pc with Sorting => 3 | Before => 2 | Waiting => 1 | Gone => 0 end.
Definition main_left (m : mpc) : Z := match m with Creating => 3 | MainBefore => 2 | MainWaiting => 1 | Done _ => 0 end.
Definition left (s : st) : Z := sum_by thread_left (threads s) + 4 * (Z.of_nat NTHR - Z.of_nat (length (threads s))) + main_left (main_at s).

Lemma act_left nums0 a s s' : inv nums0 s -> act a s = Some s' -> left s' < left s.
Proof.
  intros I E. unfold left. destruct a as [i|]; cbn [act] in E.
  - unfold thr_fn in E. destruct (threads s !! i) as [pc|] eqn:Hi; [|done]. destruct pc; [| | |done].
    + destruct (qsort _ _ _) as [[w ?]| |]; [|done..]. simplify_eq. cbn [threads main_at]. rewrite (sum_by_insert _ _ _ _ _ Hi), length_insert. cbn. lia.
    + simplify_eq. cbn [threads main_at]. rewrite (sum_by_insert _ _ _ _ _ Hi), length_insert. cbn. lia.
    + destruct (_ =? _)%nat; [|done]. simplify_eq. cbn [threads main_at]. rewrite (sum_by_insert _ _ _ _ _ Hi), length_insert. cbn. lia.
  - unfold main in E. destruct (main_at s) eqn:Em; [| | |done].
    + simplify_eq. destruct (Nat.ltb_spec (length (threads s)) NTHR); cbn [threads main_at main_left]; [|lia].
      rewrite sum_by_app, sum_by_one, length_app. cbn. lia.
    + simplify_eq. cbn. lia.
    + destruct (_ =? _)%nat; [|done]. simplify_eq. cbn. lia.
Qed.

Lemma left_nonneg nums0 s : inv nums0 s -> 0 <= left s.
Proof.
  intros I. unfold left. pose proof (i_threads _ s I). pose proof (sum_by_bound thread_left 0 3 (threads s)) as Hb.
  specialize (Hb ltac:(intros [] _; cbn; lia)). destruct (main_at s); cbn; lia.
Qed.

(** A system that cannot go on is at its end. *)
Lemma stuck_end nums0 s : inv nums0 s -> (forall a, act a s = None) ->
  (exists r, main_at s = Done r) /\ forall i pc, threads s !! i = Some pc -> pc = Gone.
Proof.
  intros I Hst. pose proof (Hst M) as Hm. cbn in Hm. unfold main in Hm.
  assert (forall i pc, threads s !! i = Some pc -> pc = Gone \/ pc = Waiting /\ arrived s <> (NTHR + 1)%nat) as Hthr.
  { intros i pc Hi. specialize (Hst (T i)). cbn in Hst. unfold thr_fn in Hst. rewrite Hi in Hst. destruct pc; [|done| |by left].
    - destruct (heapsort_ok (part TNUM (i * TNUM) (nums s))) as (w & Ew & _). by rewrite Ew in Hst.
    - destruct (Nat.eqb_spec (arrived s) (NTHR + 1)); [done|by right]. }
  assert (sum_by at_barrier (threads s) = Z.of_nat (length (threads s))) as Hsum.
  { pose proof (sum_by_bound at_barrier 1 1 (threads s)) as Hb. specialize (Hb ltac:(intros pc Hin; apply list_elem_of_lookup in Hin as (i & Hi);
      destruct (Hthr i pc Hi) as [->|[-> _]]; cbn; lia)). lia. }
  pose proof (i_count _ s I) as Hc. rewrite Hsum in Hc. destruct (main_at s) as [| | |r] eqn:Em; [done..| |].
  - rewrite (i_all _ s I) in Hc by (by rewrite Em). destruct (Nat.eqb_spec (arrived s) (NTHR + 1)); [done|]. cbn in Hc. lia.
  - split; [by exists r|]. intros i pc Hi. destruct (Hthr i pc Hi) as [->|[-> Hne]]; [done|]. by destruct (i_done _ s I r Em).
Qed.

Section Theorems.
Context (random : nat -> Z) (Hrandom : forall n, 0 <= random n < 2 ^ 31).

Lemma init_sorting : inv (random <$> seq 0 NUMNUM) (init random).
Proof. by split; cbn; try lia. Qed.

Lemma random_max : Forall (fun x => x < LONG_MAX) (random <$> seq 0 NUMNUM).
Proof using Hrandom.
  apply Forall_fmap, Forall_forall. intros n _. cbn. specialize (Hrandom n). unfold LONG_MAX, LLONG_MAX. lia.
Qed.

Lemma reach_sorting s : reach act (init random) s -> inv (random <$> seq 0 NUMNUM) s.
Proof using Hrandom.
  apply reach_inv; [apply init_sorting|]. intros a s1 s2. apply inv_act; [by rewrite length_fmap, length_seq|apply random_max].
Qed.

(** C18. However the nine threads are scheduled, what [main] merges after the barrier is the numbers
    in order: the merge stays inside of the array and always finds a next number. *)
Theorem sorts_all s r : reach act (init random) s -> main_at s = Done r ->
  exists out, r = Ok out /\ out ≡ₚ random <$> seq 0 NUMNUM /\ StronglySorted Z.le out.
Proof using Hrandom. intros Hs Hr. by apply (i_done _ s (reach_sorting s Hs)). Qed.

(** Every schedule is at its end after at most 35 steps, and it can end only when all threads
    have passed the barrier and [main] has merged. *)
Theorem sort_ends sched s : exec act sched (init random) = Some s ->
  (length sched <= 35)%nat /\
  ((forall a, act a s = None) -> (exists r, main_at s = Done r) /\ forall i pc, threads s !! i = Some pc -> pc = Gone).
Proof using Hrandom.
  intros E. pose proof (reach_sorting s (ex_intro _ sched E)) as I. split; [|by apply stuck_end with (nums0 := random <$> seq 0 NUMNUM)].
  pose proof (left_nonneg _ s I).
  apply (exec_measure act (inv (random <$> seq 0 NUMNUM)) left) in E; [|clear E I|apply init_sorting].
  - assert (left (init random) = 35) by reflexivity. lia.
  - intros a s1 s2 I1 Ea. split; [|by eapply act_left]. eapply inv_act; [by rewrite length_fmap, length_seq|apply random_max|done|done].
Qed.
End Theorems.
End Program.

(** ** A small run: two numbers for each thread *)

Definition some_numbers (n : nat) : Z := (Z.of_nat n * 7919 + 13) `mod` 101.
Definition whole : list actor :=
  replicate 9 M ++ (T <$> [3; 0; 7; 1; 2; 6; 5; 4]%nat) ++ [M] ++ (T <$> seq 0 8) ++ [M] ++ (T <$> seq 0 8).
Definition whole_end : st := default (init 2 some_numbers) (exec (act 2) whole (init 2 some_numbers)).

Lemma some_numbers_range n : 0 <= some_numbers n < 2 ^ 31.
Proof. unfold some_numbers. pose proof (Z.mod_pos_bound (Z.of_nat n * 7919 + 13) 101). lia. Qed.

Lemma whole_reached : reach (act 2) (init 2 some_numbers) whole_end.
Proof. exists whole. vm_compute. reflexivity. Qed.

Example whole_sorted : main_at whole_end = Done (Ok [0; 13; 16; 19; 22; 35; 38; 41; 54; 57; 60; 76; 79; 82; 95; 98]).
Proof. vm_compute. reflexivity. Qed.

Lemma sorts_all_witness : exists out, @merge 2 (nums whole_end) = Ok out /\ StronglySorted Z.le out.
Proof.
  destruct (sorts_all 2 some_numbers some_numbers_range whole_end (merge 2 (nums whole_end)) whole_reached) as (out & E & _ & Hs).
  - vm_compute. reflexivity.
  - exists out. split; [exact E|exact Hs].
Defined.

Lemma sort_ends_witness : (length whole <= 35)%nat.
Proof. apply (sort_ends 2 some_numbers some_numbers_range whole whole_end). vm_compute. reflexivity. Defined.

(** A number that is [LONG_MAX] is never smaller than the start of the search: with nothing else in
    the parts the merge uses an index that was never set.  [random] gives no such number. *)
Lemma merge_needs_smaller : merge 1 (replicate 8 LONG_MAX) = Undef UninitRead.
Proof. vm_compute. reflexivity. Qed.
