(* ===== verification/Transfer.v ===== *)
(** * tlpi svshm: two programs that pass blocks through shared memory

    svshm_xfr_writer.c copies its input to a segment of shared memory, block by block, and
    svshm_xfr_reader.c copies the segment to its output; two System V semaphores (binary_sems.c)
    give the turns.  The two programs are a system of steps: one call of the system, or the accesses
    between two of them.

    The input is the blocks that the calls of [read] give, [None] for one that fails; after them
    the file is at its end.  The objects do not exist before.  An interrupted [semop] is repeated
    and changes nothing; the other calls fail only where the objects are missing; a [write] is
    complete.  The counters of bytes and blocks are [int]s: a program that would exceed [INT_MAX]
    is at [WUndef] or [RUndef], from where the model does not say what happens. *)

From S2P Require Import Prelude Steps.
Local Open Scope Z_scope.

Definition BUF_SIZE : nat := 1024.

Inductive wpc := WCreate | WInitW | WInitR | WShm | WReserve | WRead | WRelease | WTest | WLast | WRmSem | WDetach | WRmShm | WDone | WFailed | WUndef.
Inductive rpc := RSemget | RShmget | RReserve | RTest | RWrite | RRelease | RDetach | RGive | RDone | RFailed | RUndef.

(** [sem] are the values of [WRITE_SEM] and [READ_SEM]; [cnt] and [buf] the segment. *)
Record st := MkSt {
  sem : option (Z * Z);
  shm : bool;
  cnt : Z;
  buf : list Z;
  todo : list (option (list Z));
  w_at : wpc; w_bytes : Z; w_xfrs : Z;
  r_at : rpc; r_bytes : Z; r_xfrs : Z;
  out : list Z
}.

Definition init (input : list (option (list Z))) : st := MkSt None false 0 (replicate BUF_SIZE 0) input WCreate 0 0 RSemget 0 0 [].

Definition set_sem (v : option (Z * Z)) (s : st) : st :=
  MkSt v (shm s) (cnt s) (buf s) (todo s) (w_at s) (w_bytes s) (w_xfrs s) (r_at s) (r_bytes s) (r_xfrs s) (out s).
Definition set_shm (b : bool) (s : st) : st :=
  MkSt (sem s) b (cnt s) (buf s) (todo s) (w_at s) (w_bytes s) (w_xfrs s) (r_at s) (r_bytes s) (r_xfrs s) (out s).
Definition set_seg (n : Z) (l : list Z) (t : list (option (list Z))) (s : st) : st :=
  MkSt (sem s) (shm s) n l t (w_at s) (w_bytes s) (w_xfrs s) (r_at s) (r_bytes s) (r_xfrs s) (out s).
Definition w_goto (pc : wpc) (s : st) : st :=
  MkSt (sem s) (shm s) (cnt s) (buf s) (todo s) pc (w_bytes s) (w_xfrs s) (r_at s) (r_bytes s) (r_xfrs s) (out s).
Definition r_goto (pc : rpc) (s : st) : st :=
  MkSt (sem s) (shm s) (cnt s) (buf s) (todo s) (w_at s) (w_bytes s) (w_xfrs s) pc (r_bytes s) (r_xfrs s) (out s).
(** The counters are [int]s; [k] goes on. *)
Definition w_count (n x : Z) (k : st -> st) (s : st) : st :=
  if (w_bytes s + n <=? INT_MAX) && (w_xfrs s + x <=? INT_MAX) then
    k (MkSt (sem s) (shm s) (cnt s) (buf s) (todo s) (w_at s) (w_bytes s + n) (w_xfrs s + x) (r_at s) (r_bytes s) (r_xfrs s) (out s))
  else w_goto WUndef s.
Definition r_count (n x : Z) (k : st -> st) (s : st) : st :=
  if (r_bytes s + n <=? INT_MAX) && (r_xfrs s + x <=? INT_MAX) then
    k (MkSt (sem s) (shm s) (cnt s) (buf s) (todo s) (w_at s) (w_bytes s) (w_xfrs s) (r_at s) (r_bytes s + n) (r_xfrs s + x) (out s))
  else r_goto RUndef s.
Definition put_out (l : list Z) (s : st) : st :=
  MkSt (sem s) (shm s) (cnt s) (buf s) (todo s) (w_at s) (w_bytes s) (w_xfrs s) (r_at s) (r_bytes s) (r_xfrs s) (out s ++ l).

Inductive semnum := WRITE_SEM | READ_SEM.
Definition value (n : semnum) (v : Z * Z) : Z := match n with WRITE_SEM => fst v | READ_SEM => snd v end.
Definition update (n : semnum) (x : Z) (v : Z * Z) : Z * Z := match n with WRITE_SEM => (x, snd v) | READ_SEM => (fst v, x) end.

(** [initSemAvailable] and [initSemInUse], [reserveSem] and [releaseSem]: [k] goes on, [failed] is
    [errExit]; [None] waits. *)
Definition initSem (n : semnum) (x : Z) (k failed : st -> st) (s : st) : option st :=
  match sem s with None => Some (failed s) | Some v => Some (k (set_sem (Some (update n x v)) s)) end.
Definition reserveSem (n : semnum) (k failed : st -> st) (s : st) : option st :=
  match sem s with
  | None => Some (failed s)
  | Some v => if 0 <? value n v then Some (k (set_sem (Some (update n (value n v - 1) v)) s)) else None
  end.
Definition releaseSem (n : semnum) (k failed : st -> st) (s : st) : option st :=
  match sem s with None => Some (failed s) | Some v => Some (k (set_sem (Some (update n (value n v + 1) v)) s)) end.

(** svshm_xfr_writer.c *)
Definition writer (s : st) : option st :=
  let failed := w_goto WFailed in
  match w_at s with
  | WCreate => Some (w_goto WInitW (match sem s with None => set_sem (Some (0, 0)) s | Some _ => s end))
  | WInitW => initSem WRITE_SEM 1 (w_goto WInitR) failed s
  | WInitR => initSem READ_SEM 0 (w_goto WShm) failed s
  | WShm => Some (w_goto WReserve (set_shm true s))
  | WReserve => reserveSem WRITE_SEM (w_goto WRead) failed s
  | WRead =>
      match todo s with
      | [] => Some (w_goto WRelease (set_seg 0 (buf s) [] s))
      | Some bytes :: t => Some (w_goto WRelease (set_seg (Z.of_nat (length bytes)) (bytes ++ drop (length bytes) (buf s)) t s))
      | None :: t => Some (failed (set_seg (-1) (buf s) t s))
      end
  | WRelease => releaseSem READ_SEM (w_goto WTest) failed s
  | WTest => Some (if cnt s =? 0 then w_goto WLast s else w_count (cnt s) 1 (w_goto WReserve) s)
  | WLast => reserveSem WRITE_SEM (w_goto WRmSem) failed s
  | WRmSem => match sem s with None => Some (failed s) | Some _ => Some (w_goto WDetach (set_sem None s)) end
  | WDetach => Some (w_goto WRmShm s)
  | WRmShm => Some (w_goto WDone (set_shm false s))
  | WDone | WFailed | WUndef => None
  end.

(** svshm_xfr_reader.c *)
Definition reader (s : st) : option st :=
  let failed := r_goto RFailed in
  match r_at s with
  | RSemget => Some (match sem s with None => failed s | Some _ => r_goto RShmget s end)
  | RShmget => Some (if shm s then r_goto RReserve s else failed s)
  | RReserve => reserveSem READ_SEM (r_goto RTest) failed s
  | RTest => Some (if cnt s =? 0 then r_goto RDetach s else r_count (cnt s) 0 (r_goto RWrite) s)
  | RWrite => Some (r_goto RRelease (put_out (take (Z.to_nat (cnt s)) (buf s)) s))
  | RRelease => releaseSem WRITE_SEM (r_count 0 1 (r_goto RReserve)) failed s
  | RDetach => Some (r_goto RGive s)
  | RGive => releaseSem WRITE_SEM (r_goto RDone) failed s
  | RDone | RFailed | RUndef => None
  end.

Inductive program := Writer | Reader.
Definition act (p : program) (s : st) : option st := match p with Writer => writer s | Reader => reader s end.

(** ** The invariant *)

Definition early (w : wpc) : bool := match w with WCreate | WInitW | WInitR | WShm => true | _ => false end.
Definition working (w : wpc) : bool := match w with WReserve | WRead | WRelease | WTest | WLast | WRmSem => true | _ => false end.
Definition starting (r : rpc) : bool := match r with RSemget | RShmget | RFailed => true | _ => false end.
Definition ending (r : rpc) : bool := match r with RDetach | RGive | RDone => true | _ => false end.
Definition waiting (w : wpc) : bool := match w with WTest | WLast | WRmSem => true | _ => false end.
Definition finished (w : wpc) : bool := match w with WDetach | WRmShm | WDone => true | _ => false end.

(** Whose turn it is, and whether that program took it already. *)
Inductive turn := WFree | WIn | RFree | RIn.
Definition sem_of (t : turn) : Z * Z := match t with WFree => (1, 0) | RFree => (0, 1) | _ => (0, 0) end.
Definition w_in (t : turn) : bool := match t with WIn => true | _ => false end.
Definition r_in (t : turn) : bool := match t with RIn => true | _ => false end.
Definition w_inside (w : wpc) : bool := match w with WRead | WRelease | WRmSem => true | _ => false end.
Definition r_inside (r : rpc) : bool := match r with RTest | RWrite | RRelease | RDetach | RGive => true | _ => false end.

(** The segment holds a block that is not yet written out. *)
Definition full (t : turn) (w : wpc) (r : rpc) : bool :=
  match t, w, r with RFree, _, _ | _, WRelease, _ | _, _, RTest | _, _, RWrite => true | _, _, _ => false end.

(** The places where the two programs can be at the same time; [z] says that the block is empty. *)
Definition legal (t : turn) (w : wpc) (r : rpc) (z : bool) : bool :=
  working w && Bool.eqb (w_inside w) (w_in t) && Bool.eqb (r_inside r) (r_in t)
  && negb (match r with RUndef => true | _ => false end) && implb (ending r) (z && waiting w) && negb (match t, r with RFree, RDone => true | _, _ => false end)
  && implb (match w with WLast | WRmSem => true | _ => false end) z
  && implb (match r with RWrite | RRelease => true | _ => false end) (negb z)
  && implb (match t, w, r with RFree, WReserve, _ | _, WReserve, RTest => true | _, _, _ => false end) (negb z)
  && implb (match t, w with WFree, (WTest | WLast) => z | _, WRmSem => true | _, _ => false end) (match r with RDone => true | _ => false end).

(** The file is at its end. *)
Definition at_eof (t : turn) (w : wpc) (r : rpc) (z : bool) : bool := z && (full t w r || waiting w || ending r).

Definition one (b : bool) : Z := if b then 1 else 0.
Definition pending (w : wpc) : bool := match w with WRelease | WTest => true | _ => false end.
Definition writing (r : rpc) : bool := match r with RWrite => true | _ => false end.
Definition releasing (r : rpc) : bool := match r with RRelease => true | _ => false end.

Section Inv.
Context (blocks : list (list Z)).
Definition all : list Z := mjoin blocks.

Record at_work (s : st) (t : turn) (z : bool) (rest : list (list Z)) : Prop := MkWork {
  k_legal : legal t (w_at s) (r_at s) z = true;
  k_shm : shm s = true;
  k_sem : sem s = Some (sem_of t);
  k_todo : todo s = Some <$> rest;
  k_rest : Forall (fun l => (0 < length l <= BUF_SIZE)%nat) rest;
  k_zero : (cnt s =? 0) = z;
  k_cnt : 0 <= cnt s;
  k_start : starting (r_at s) = true -> out s = [];
  k_data : all = out s ++ (if full t (w_at s) (r_at s) then take (Z.to_nat (cnt s)) (buf s) else []) ++ mjoin rest;
  k_eof : at_eof t (w_at s) (r_at s) z = true -> rest = [];
  k_wbytes : w_bytes s + (if pending (w_at s) then cnt s else 0) + Z.of_nat (length (mjoin rest)) = Z.of_nat (length all);
  k_wxfrs : w_xfrs s + one (pending (w_at s) && negb z) + Z.of_nat (length rest) = Z.of_nat (length blocks);
  k_rbytes : r_bytes s = Z.of_nat (length (out s)) + (if writing (r_at s) then cnt s else 0);
  k_rxfrs : r_xfrs s + one ((full t (w_at s) (r_at s) || releasing (r_at s)) && negb z) + Z.of_nat (length rest) = Z.of_nat (length blocks)
}.

(** Before the segment exists, while blocks are passed on, and after the end. *)
Inductive stage (s : st) : Prop :=
| Before :
    early (w_at s) = true -> starting (r_at s) = true -> shm s = false -> todo s = Some <$> blocks -> out s = [] -> cnt s = 0 ->
    match w_at s with WCreate => sem s = None | WInitW => exists v, sem s = Some v | WInitR => exists b, sem s = Some (1, b) | _ => sem s = Some (1, 0) end ->
    w_bytes s = 0 /\ w_xfrs s = 0 /\ r_bytes s = 0 /\ r_xfrs s = 0 -> stage s
| Passing t z rest : at_work s t z rest -> stage s
| After :
    finished (w_at s) = true -> r_at s = RDone -> sem s = None -> out s = all ->
    shm s = negb (match w_at s with WDone => true | _ => false end) ->
    w_bytes s = Z.of_nat (length all) -> r_bytes s = Z.of_nat (length all) ->
    w_xfrs s = Z.of_nat (length blocks) -> r_xfrs s = Z.of_nat (length blocks) -> stage s.

Definition inv (s : st) : Prop := length (buf s) = BUF_SIZE /\ cnt s <= Z.of_nat BUF_SIZE /\ stage s.

Context (Hblocks : Forall (fun l => (0 < length l <= BUF_SIZE)%nat) blocks).
Context (Hmax : Z.of_nat (length all) <= INT_MAX).

(** No block is empty: there are no more blocks than bytes. *)
Lemma blocks_bytes : Z.of_nat (length blocks) <= INT_MAX.
Proof using Hblocks Hmax.
  enough (Z.of_nat (length blocks) <= Z.of_nat (length all)) by lia. unfold all. clear Hmax.
  revert Hblocks. generalize blocks. induction 1 as [|l bs Hl _ IH]; [done|]. change (mjoin (l :: bs)) with (l ++ mjoin bs).
  rewrite length_app. cbn [length]. lia.
Qed.

(** ** Steps *)

Lemma room (b x : Z) : b <= INT_MAX -> x <= INT_MAX -> (b <=? INT_MAX) && (x <=? INT_MAX) = true.
Proof. intros Hb Hx. by rewrite (proj2 (Z.leb_le _ _) Hb), (proj2 (Z.leb_le _ _) Hx). Qed.

Ltac start_step s :=
  destruct s as [se sh cn bu td w wb wx r rb rx ou];
  intros Hlen Hcnt [L Hsh Hse Htd Hre Hz Hc Ho D Eo WB WX RB RX] E;
  cbn [w_at r_at sem shm cnt buf todo out w_bytes w_xfrs r_bytes r_xfrs] in *; subst se sh td.

Lemma take_block (l x : list Z) : take (Z.to_nat (Z.of_nat (length l))) (l ++ x) = l.
Proof. rewrite Nat2Z.id. by apply take_app_length. Qed.

(** The places that fit together are few: each field is a computation or an equation. *)
Ltac end_step := split; cbn [w_at r_at sem shm cnt buf todo out w_bytes w_xfrs r_bytes r_xfrs w_goto r_goto w_count r_count set_sem set_seg put_out set_shm];
  try done; try (cbn in *; lia); try (intros _; match goal with H : _ -> _ = [] |- _ => by apply H end);
  try (cbn; rewrite take_block; done).

Lemma passing_writer s s' t z rest : length (buf s) = BUF_SIZE -> cnt s <= Z.of_nat BUF_SIZE -> at_work s t z rest ->
  writer s = Some s' -> inv s'.
Proof using Hblocks Hmax.
  start_step s. unfold writer, reserveSem, releaseSem in E. cbn [w_at sem cnt buf todo] in E.
  destruct w; try done.
  - destruct t; try done. injection E as <-. split; [done|]. split; [done|]. apply (Passing _ WIn z rest).
    destruct r, z; try done; end_step.
  - destruct rest as [|l rest]; cbn in E; injection E as <-.
    + split; [done|]. split; [cbn; lia|]. destruct t; try done. apply (Passing _ WIn true []). destruct r, z; try done; end_step.
    + apply Forall_cons in Hre as [Hl Hre]. change (mjoin (l :: rest)) with (l ++ mjoin rest) in *. rewrite length_app in WB. split; [cbn; rewrite length_app, length_drop; lia|]. split; [cbn; lia|].
      destruct t; try done. apply (Passing _ WIn false rest). assert ((Z.of_nat (length l) =? 0) = false) as Hl0 by (apply Z.eqb_neq; lia).
      destruct r, z; try done; end_step.
  - destruct t; try done. injection E as <-. split; [done|]. split; [done|]. apply (Passing _ RFree z rest). destruct r, z; try done; end_step.
  - rewrite Hz in E. pose proof blocks_bytes as Hbl. destruct z.
    + injection E as <-. split; [done|]. split; [done|]. apply (Passing _ t true rest). destruct t, r; try done; end_step.
    + unfold w_count in E. cbn in WB, WX, E. rewrite room in E by lia. injection E as <-.
      split; [done|]. split; [done|]. apply (Passing _ t false rest). destruct t, r; try done; end_step.
  - destruct t; try done. injection E as <-. split; [done|]. split; [done|]. apply (Passing _ WIn z rest). destruct r, z; try done; end_step.
  - injection E as <-. split; [done|]. split; [done|]. destruct t, r, z; try done. rewrite (Eo eq_refl) in *. cbn in D, WB, WX, RB, RX.
    rewrite app_nil_r in D. apply After; cbn; try done; try lia. rewrite D. lia.
Qed.

Lemma passing_reader s s' t z rest : length (buf s) = BUF_SIZE -> cnt s <= Z.of_nat BUF_SIZE -> at_work s t z rest ->
  reader s = Some s' -> inv s'.
Proof using Hblocks Hmax.
  start_step s. unfold reader, reserveSem, releaseSem in E. cbn [r_at sem shm cnt buf todo] in E.
  destruct r; try done.
  - injection E as <-. split; [done|]. split; [done|]. apply (Passing _ t z rest). destruct t, w, z; try done; end_step.
  - injection E as <-. split; [done|]. split; [done|]. apply (Passing _ t z rest). destruct t, w, z; try done; end_step.
  - destruct t; try done. injection E as <-. split; [done|]. split; [done|]. apply (Passing _ RIn z rest). destruct w, z; try done; end_step.
  - rewrite Hz in E. pose proof blocks_bytes as Hbl. destruct z.
    + injection E as <-. split; [done|]. split; [done|]. apply Z.eqb_eq in Hz as Hz0. subst cn.
      apply (Passing _ t true rest). destruct t, w; try done; end_step.
    + assert (rb + cn <= INT_MAX /\ rx <= INT_MAX) as [Hb Hx].
      { cbn in RB. apply (f_equal length) in D. rewrite !length_app in D.
        destruct t, w; try done; cbn in D, RX; rewrite length_take in D; lia. }
      unfold r_count in E. cbn in E. rewrite room in E by lia. injection E as <-.
      split; [done|]. split; [done|]. apply (Passing _ t false rest). destruct t, w; try done; end_step.
  - injection E as <-. split; [done|]. split; [done|]. apply (Passing _ t z rest).
    assert (Z.of_nat (length (take (Z.to_nat cn) bu)) = cn) as Ht by (rewrite length_take; lia).
    destruct t, w, z; try done; end_step; cbn in *; [by rewrite <- app_assoc|rewrite length_app; lia|by rewrite <- app_assoc|rewrite length_app; lia].
  - pose proof blocks_bytes as Hbl.
    destruct t, w, z; try done; unfold r_count in E; cbn in E, RB, RX; rewrite room in E by (rewrite ?Z.add_0_r; lia || (apply (f_equal length) in D; rewrite !length_app in D; lia));
      injection E as <-; (split; [done|]; split; [done|]); apply (Passing _ WFree false rest); end_step.
  - injection E as <-. split; [done|]. split; [done|]. apply (Passing _ t z rest). destruct t, w, z; try done; end_step.
  - destruct t, w, z; try done; injection E as <-; (split; [done|]; split; [done|]); apply (Passing _ WFree true rest); end_step.
Qed.

Lemma passing_step p s s' : inv s -> act p s = Some s' -> inv s'.
Proof using Hblocks Hmax.
  intros (Hlen & Hcnt & Hs) E. destruct Hs as [Hw Hr Hsh Htd Ho Hc0 Hse Hn|t z rest K|Hw Hr Hse Ho Hsh H1 H2 H3 H4].
  - destruct p; cbn in E; [unfold writer, initSem in E|unfold reader in E].
    + destruct (w_at s) eqn:Ew; try done.
      * rewrite Hse in E. injection E as <-. split; [done|]. split; [done|]. apply Before; cbn; try done. by eexists.
      * destruct Hse as [[a b] Hse]. rewrite Hse in E. injection E as <-. split; [done|]. split; [done|]. apply Before; cbn; try done. by eexists.
      * destruct Hse as [b Hse]. rewrite Hse in E. injection E as <-. split; [done|]. split; [done|]. by apply Before.
      * injection E as <-. split; [done|]. split; [done|]. destruct Hn as (N1 & N2 & N3 & N4). apply (Passing _ WFree true blocks).
        split; cbn [w_at r_at sem shm cnt buf todo out w_bytes w_xfrs r_bytes r_xfrs w_goto set_shm]; rewrite ?Hc0, ?Ho, ?N1, ?N2, ?N3, ?N4; try done; by destruct (r_at s).
    + destruct (r_at s) eqn:Er; try done; injection E as <-.
      * destruct (sem s) eqn:Es; (split; [done|]; split; [done|]); apply Before; cbn; rewrite ?Es; try done; by destruct (w_at s).
      * rewrite Hsh. split; [done|]. split; [done|]. by apply Before.
  - destruct p; [by eapply passing_writer|by eapply passing_reader].
  - destruct p; cbn in E; [unfold writer in E|unfold reader in E; by rewrite Hr in E].
    destruct (w_at s) eqn:Ew; try done; cbn in Hsh; injection E as <-; (split; [done|]; split; [done|]); by apply After.
Qed.

Lemma init_passing : inv (init (Some <$> blocks)).
Proof. split; [done|]. split; [cbn; lia|]. by apply Before. Qed.

(** ** The end *)

Definition w_left (w : wpc) (z : bool) : Z :=
  match w with
  | WCreate => 12 | WInitW => 11 | WInitR => 10 | WShm => 9 | WReserve => 8 | WRead => 7
  | WRelease => if z then 6 else 14 | WTest => if z then 5 else 9
  | WLast => 4 | WRmSem => 3 | WDetach => 2 | WRmShm => 1 | WDone | WFailed | WUndef => 0
  end.
Definition r_left (r : rpc) (z : bool) : Z :=
  match r with
  | RSemget => 6 | RShmget => 5 | RReserve => 4 | RTest => if z then 3 else 7 | RWrite => 6 | RRelease => 5
  | RDetach => 2 | RGive => 1 | RDone | RFailed | RUndef => 0
  end.
Definition token (v : option (Z * Z)) (z : bool) : Z := match v with Some v => if z then 0 else 4 * snd v | None => 0 end.
Definition left (s : st) : Z :=
  8 * Z.of_nat (length (todo s)) + w_left (w_at s) (cnt s =? 0) + r_left (r_at s) (cnt s =? 0) + token (sem s) (cnt s =? 0).

Lemma step_left p s s' : inv s -> act p s = Some s' -> left s' < left s.
Proof.
  intros (Hlen & Hcnt & Hs) E. unfold left. destruct Hs as [Hw Hr Hsh Htd Ho Hc0 Hse Hn|t z rest K|Hw Hr Hse Ho Hsh H1 H2 H3 H4].
  - destruct p; cbn in E; [unfold writer, initSem in E|unfold reader in E].
    + destruct (w_at s) eqn:Ew; try done; [rewrite Hse in E|destruct Hse as [v Hse]; rewrite Hse in E|destruct Hse as [v Hse]; rewrite Hse in E|];
        injection E as <-; cbn; rewrite ?Hse, Hc0; cbn; lia.
    + destruct (r_at s) eqn:Er; try done; injection E as <-; destruct (sem s) eqn:Es; rewrite ?Hsh; cbn; rewrite ?Es, Hc0; cbn; lia.
  - revert E. destruct s as [se sh cn bu td w wb wx r rb rx ou]. destruct K as [L Hsh Hse Htd Hre Hz Hc Ho D Eo WB WX RB RX].
    cbn [w_at r_at sem shm cnt buf todo out w_bytes w_xfrs r_bytes r_xfrs] in *. subst se sh td.
    destruct p; cbn [act]; [unfold writer|unfold reader]; unfold reserveSem, releaseSem; cbn [w_at r_at sem shm cnt buf todo]; rewrite ?Hz.
    + destruct w; try done; [| |intros [= <-]|intros [= <-]| |intros [= <-]].
      * destruct t, r, z; try done; intros [= <-]; cbn; rewrite ?Hz; cbn; lia.
      * destruct rest as [|l rest]; cbn; intros [= <-]; cbn; rewrite ?Hz.
        -- destruct t, r, z; try done; cbn; lia.
        -- apply Forall_cons in Hre as [Hl Hre]. rewrite (proj2 (Z.eqb_neq (Z.of_nat (length l)) 0)) by lia. destruct t, r, z; try done; cbn; lia.
      * destruct t, r, z; try done; cbn; rewrite ?Hz; cbn; lia.
      * unfold w_count. cbn [w_bytes w_xfrs cnt]. destruct ((wb + cn <=? INT_MAX) && (wx + 1 <=? INT_MAX)), z, t, r; try done; cbn; rewrite ?Hz; cbn; lia.
      * destruct t, r, z; try done; intros [= <-]; cbn; rewrite ?Hz; cbn; lia.
      * destruct t, r, z; try done; cbn; rewrite ?Hz; cbn; lia.
    + unfold r_count. destruct r; try done; destruct t, w, z; try done; intros [= <-];
        repeat match goal with |- context [if ?a && ?b then _ else _] => destruct (a && b) end; cbn; rewrite ?Hz; cbn; lia.
  - destruct p; cbn in E; [unfold writer in E|unfold reader in E; by rewrite Hr in E].
    destruct (w_at s) eqn:Ew; try done; injection E as <-; cbn; rewrite ?Hse, ?Hr; cbn; destruct (cnt s =? 0); lia.
Qed.

Lemma left_bound s : inv s -> 0 <= left s.
Proof.
  intros (_ & _ & Hs). unfold left. assert (0 <= w_left (w_at s) (cnt s =? 0) /\ 0 <= r_left (r_at s) (cnt s =? 0)) as [Hw Hr]
    by (destruct (w_at s), (r_at s), (cnt s =? 0); cbn; lia).
  assert (0 <= token (sem s) (cnt s =? 0)); [|lia]. destruct Hs as [_ _ _ _ _ Hc0 _ _|t z rest K|_ _ Hse _ _ _ _ _ _].
  - rewrite Hc0. by destruct (sem s).
  - rewrite (k_sem _ _ _ _ K). destruct (cnt s =? 0), t; cbn; lia.
  - by rewrite Hse.
Qed.

Lemma stuck_ends s : inv s -> (forall p, act p s = None) -> r_at s = RFailed \/ w_at s = WDone /\ r_at s = RDone.
Proof.
  intros (_ & _ & Hs) Hst. pose proof (Hst Writer) as H1. pose proof (Hst Reader) as H2. cbn in H1, H2.
  unfold writer, reader, initSem, reserveSem, releaseSem in H1, H2. destruct Hs as [Hw Hr Hsh Htd Ho Hc0 Hse Hn|t z rest K|Hw Hr Hse Ho Hsh _ _ _ _].
  - destruct (w_at s); try done; by destruct (sem s).
  - pose proof (k_legal _ _ _ _ K) as L. rewrite (k_sem _ _ _ _ K), (k_shm _ _ _ _ K), (k_todo _ _ _ _ K) in *.
    destruct (w_at s) eqn:Ew; try done; destruct (r_at s) eqn:Er; try done; try (by left); destruct t, z; try done; by destruct rest.
  - right. destruct (w_at s); try done.
Qed.

(** C19. For an input of at most [INT_MAX] bytes (the counters are [int]s): in every state that the two
    programs reach, the output is the beginning of the input; no counter overflows; the writer
    does not fail, and the reader only where it looks for objects that are not there yet; when the
    writer has ended, the output is the input, both counted its bytes and blocks, and the objects
    are removed. *)
Theorem input_arrives s : reach act (init (Some <$> blocks)) s ->
  out s `prefix_of` all /\ w_at s <> WFailed /\ w_at s <> WUndef /\ r_at s <> RUndef /\ (r_at s = RFailed -> out s = []) /\
  (w_at s = WDone -> out s = all /\ sem s = None /\ shm s = false /\ w_bytes s = Z.of_nat (length all) /\ r_bytes s = w_bytes s /\
     w_xfrs s = Z.of_nat (length blocks) /\ r_xfrs s = w_xfrs s).
Proof using Hblocks Hmax.
  intros H. assert (inv s) as (_ & _ & I) by (revert s H; apply reach_inv; [apply init_passing|intros a s1 s2; apply passing_step]).
  destruct I as [Hw Hr Hsh Htd Ho Hc0 Hse Hn|t z rest K|Hw Hr Hse Ho Hsh H1 H2 H3 H4].
  - rewrite Ho. split; [apply prefix_nil|]. by repeat split; destruct (w_at s), (r_at s).
  - pose proof (k_legal _ _ _ _ K) as L. split; [|split; [|split; [|split; [|split]]]].
    + rewrite (k_data _ _ _ _ K). by apply prefix_app_r.
    + intros Ew. by rewrite Ew in L.
    + intros Ew. by rewrite Ew in L.
    + intros Er. rewrite Er in L. by destruct t, (w_at s).
    + intros Er. apply (k_start _ _ _ _ K). by rewrite Er.
    + intros Ew. by rewrite Ew in L.
  - split; [by rewrite Ho|]. split; [by destruct (w_at s)|]. split; [by destruct (w_at s)|]. rewrite Hr. split; [done|]. split; [done|].
    intros Ew. rewrite Ew in Hsh. cbn in Hsh. repeat split; congruence.
Qed.

(** However the two take turns they make at most 8 steps for each block and 18 more; and unless the
    reader was started too early, they stop only when both have ended. *)
Theorem transfer_ends sched s : exec act sched (init (Some <$> blocks)) = Some s ->
  Z.of_nat (length sched) <= 8 * Z.of_nat (length blocks) + 18 /\
  ((forall p, act p s = None) -> r_at s = RFailed \/ w_at s = WDone /\ r_at s = RDone).
Proof using Hblocks Hmax.
  intros E. assert (inv s) as I by (eapply (reach_inv act inv); [apply init_passing|intros a s1 s2; apply passing_step|by exists sched]).
  split; [|by apply stuck_ends]. pose proof (left_bound s I).
  apply (exec_measure act inv left) in E; [|clear E I|apply init_passing].
  - assert (left (init (Some <$> blocks)) = 8 * Z.of_nat (length blocks) + 18) as El; [|lia].
    unfold left. cbn. rewrite length_fmap. lia.
  - intros a s1 s2 I1 Ea. split; [by eapply passing_step|by apply (step_left a)].
Qed.
End Inv.

(** Past that bound the count of the writer overflows. *)
Lemma too_many_bytes s : w_at s = WTest -> 0 < cnt s -> INT_MAX < w_bytes s + cnt s -> writer s = Some (w_goto WUndef s).
Proof.
  intros Hw Hc Hb. unfold writer, w_count. rewrite Hw, (proj2 (Z.eqb_neq (cnt s) 0)) by lia.
  by rewrite (proj2 (Z.leb_gt (w_bytes s + cnt s) INT_MAX)) by lia.
Qed.

(** ** Two small runs *)

Definition W (k : nat) : list program := replicate k Writer.
Definition R (k : nat) : list program := replicate k Reader.
Definition two_blocks : list (list Z) := [[104; 101; 108; 108; 111]; [33]].
Definition turns : list program := W 4 ++ R 2 ++ W 4 ++ R 4 ++ W 3 ++ R 2 ++ W 1 ++ R 2 ++ W 3 ++ R 3 ++ W 1 ++ R 1 ++ W 4.
Definition run (input : list (option (list Z))) (l : list program) : st := default (init []) (exec act l (init input)).

Lemma turns_reached : reach act (init (Some <$> two_blocks)) (run (Some <$> two_blocks) turns).
Proof. exists turns. vm_compute. reflexivity. Qed.

Lemma input_arrives_witness : out (run (Some <$> two_blocks) turns) = [104; 101; 108; 108; 111; 33].
Proof.
  apply (input_arrives two_blocks ltac:(repeat (apply Forall_cons; split; [cbn; unfold BUF_SIZE; lia|]); by apply Forall_nil) ltac:(vm_compute; discriminate) _ turns_reached).
  vm_compute. reflexivity.
Defined.

Lemma transfer_ends_witness : Z.of_nat (length turns) <= 8 * 2 + 18.
Proof.
  apply (transfer_ends two_blocks ltac:(repeat (apply Forall_cons; split; [cbn; unfold BUF_SIZE; lia|]); by apply Forall_nil) ltac:(vm_compute; discriminate) turns
    (run (Some <$> two_blocks) turns)). vm_compute. reflexivity.
Defined.

(** When a [read] of the writer fails it ends with a message; the reader waits for ever, and the
    objects stay. *)
Definition stranded : st := run [Some [33]; None] (W 8 ++ R 6 ++ W 2).
Lemma read_error_strands :
  w_at stranded = WFailed /\ r_at stranded = RReserve /\ sem stranded = Some (0, 0) /\ shm stranded = true /\ forall p, act p stranded = None.
Proof. repeat split; try (vm_compute; reflexivity). intros []; vm_compute; reflexivity. Qed.
