(* ===== verification/Semaph.v ===== *)
(** * apue lib/semaph.c: semaphores that go away with their last user

    A semaphore is a set of three System V semaphores: its value, a counter that says how many
    processes use it, and a lock.  The processes are a system of steps: one system call is one
    step, and a process that has to wait in [semop] falls asleep, which is a step of its own,
    because a sleeper learns from another error that the set was removed.

    The set is that of one key.  A process uses one semaphore at a time, and may be killed at any
    time; the kernel then makes the adjustments that [SEM_UNDO] asked for.  Signals that are caught
    do not occur, the key is readable and writable for all. *)

From S2P Require Import Prelude Steps.
From Stdlib Require Import String.
Local Open Scope Z_scope.

Definition IPC_PRIVATE : Z := 0.
Definition SEMVMX : Z := 32767.
Definition BIGCOUNT : Z := 10000.

(** [Stale] is what an earlier call has left. *)
Inductive errno := EINVAL | EIDRM | ERANGE | EFBIG | Stale.

(** ** semop(2), semctl(2) and the end of a process

    An operation is the number of a semaphore, what is added to it, and [SEM_UNDO]. *)

Record sembuf := Sembuf { sem_num : nat; sem_op_ : Z; SEM_UNDO : bool }.

Inductive outcome := Done (vals adj : list Z) | Sleep | Failed (e : errno).

Fixpoint semop_all (ops : list sembuf) (vals adj : list Z) : outcome :=
  match ops with
  | [] => Done vals adj
  | Sembuf n op undo :: ops =>
      match vals !! n, adj !! n with
      | Some v, Some a =>
          if op =? 0 then (if v =? 0 then semop_all ops vals adj else Sleep)
          else if v + op <? 0 then Sleep
          else if SEMVMX <? v + op then Failed ERANGE
          else if negb undo then semop_all ops (<[n := v + op]> vals) adj
          else if (a - op <? - SEMVMX - 1) || (SEMVMX <? a - op) then Failed ERANGE
          else semop_all ops (<[n := v + op]> vals) (<[n := a - op]> adj)
      | _, _ => Failed EFBIG
      end
  end.

(** What the kernel does for a process that ends. *)
Definition undo_one (v a : Z) : Z := Z.max 0 (Z.min SEMVMX (v + a)).
Definition undo (vals adj : list Z) : list Z := zip_with undo_one vals adj.

(** ** The state

    [Lock id slept], [End id slept] and the like are before the [semop], [slept] after it has
    fallen asleep there. *)

Inductive create_at := Semget | Lock (id : nat) (slept : bool) | Getval (id : nat) | Setval0 (id : nat) | Setval1 (id : nat) | EndCreate (id : nat) (slept : bool).
Inductive open_at := OSemget | OSemop (id : nat) (slept : bool).
Inductive close_at := CLock (id : nat) (slept : bool) | CGetval (id : nat) | CRemove (id : nat) | CUnlock (id : nat) (slept : bool).

Inductive pc :=
| Outside
| Creating (initval : Z) (c : create_at)
| Opening (o : open_at)
| Using (id : nat)
| InOp (id : nat) (value : Z) (slept : bool)
| Closing (c : close_at)
| Removing (id : nat)
| Exited (why : option (string * errno)).

Record semid_ds := MkSet { sid : nat; vals : list Z }.
Record proc := MkProc { at_pc : pc; adj : list Z }.
Record st := MkSt { sem : option semid_ds; next_id : nat; procs : list proc }.

Definition no_adj : list Z := [0; 0; 0].
Definition init (n : nat) : st := MkSt None 0 (replicate n (MkProc Outside no_adj)).

Definition goto (i : nat) (a : pc) (s : st) : st := MkSt (sem s) (next_id s) (alter (fun p => MkProc a (adj p)) i (procs s)).

(** A process ends; [err_sys] and [err_dump] are that with a message. *)
Definition exits (i : nat) (why : option (string * errno)) (s : st) : option st :=
  match procs s !! i with
  | None => None
  | Some p => Some (MkSt ((fun x => MkSet (sid x) (undo (vals x) (adj p))) <$> sem s) (next_id s) (<[i := MkProc (Exited why) no_adj]> (procs s)))
  end.
Definition err_sys (i : nat) (msg : string) (e : errno) (s : st) : option st := exits i (Some (msg, e)) s.

Definition semget_creat (s : st) : nat * st :=
  match sem s with
  | Some x => (sid x, s)
  | None => (next_id s, MkSt (Some (MkSet (next_id s) [0; 0; 0])) (S (next_id s)) (procs s))
  end.

(** [semop] on [id]: [waiting] is the process asleep, [k] goes on. *)
Definition semop (i id : nat) (ops : list sembuf) (slept : bool) (waiting next : pc) (failed : errno -> st -> option st) (s : st) : option st :=
  match sem s, procs s !! i with
  | Some (MkSet id' v), Some p =>
      if decide (id' = id) then
        match semop_all ops v (adj p) with
        | Done v a => Some (MkSt (Some (MkSet id v)) (next_id s) (<[i := MkProc next a]> (procs s)))
        | Sleep => if slept then None else Some (goto i waiting s)
        | Failed e => failed e s
        end
      else failed (if slept then EIDRM else EINVAL) s
  | _, _ => failed (if slept then EIDRM else EINVAL) s
  end.

Definition getval (id n : nat) (k : Z -> st -> option st) (failed : errno -> st -> option st) (s : st) : option st :=
  match sem s with
  | Some (MkSet id' v) => if decide (id' = id) then match v !! n with Some x => k x s | None => failed EINVAL s end else failed EINVAL s
  | None => failed EINVAL s
  end.

(** [SETVAL] forgets what any process was to undo. *)
Definition setval (id n : nat) (x : Z) (k : st -> option st) (failed : errno -> st -> option st) (s : st) : option st :=
  match sem s with
  | Some (MkSet id' v) =>
      if decide (id' <> id) then failed EINVAL s
      else if (x <? 0) || (SEMVMX <? x) then failed ERANGE s
      else k (MkSt (Some (MkSet id (<[n := x]> v))) (next_id s) ((fun p => MkProc (at_pc p) (<[n := 0]> (adj p))) <$> procs s))
  | None => failed EINVAL s
  end.

Definition ipc_rmid (id : nat) (k : st -> option st) (failed : errno -> st -> option st) (s : st) : option st :=
  match sem s with
  | Some (MkSet id' _) =>
      if decide (id' = id) then k (MkSt None (next_id s) ((fun p => MkProc (at_pc p) no_adj) <$> procs s)) else failed EINVAL s
  | None => failed EINVAL s
  end.

(** ** The library *)

Definition op_lock : list sembuf := [Sembuf 2 0 false; Sembuf 2 1 true].
Definition op_endcreate : list sembuf := [Sembuf 1 (-1) true; Sembuf 2 (-1) true].
Definition op_open : list sembuf := [Sembuf 1 (-1) true].
Definition op_close : list sembuf := [Sembuf 2 0 false; Sembuf 2 1 true; Sembuf 1 1 true].
Definition op_unlock : list sembuf := [Sembuf 2 (-1) true].
Definition op_op (value : Z) : list sembuf := [Sembuf 0 value true].

(** [ok] is false where [semget] finds the tables full. *)
Definition sem_create (key initval : Z) (ok : bool) (c : create_at) (i : nat) (s : st) : option st :=
  match c with
  | Semget =>
      if (key =? IPC_PRIVATE) || (key =? -1) then Some (goto i Outside s)
      else if negb ok then Some (goto i Outside s)
      else let '(id, s) := semget_creat s in Some (goto i (Creating initval (Lock id false)) s)
  | Lock id slept =>
      semop i id op_lock slept (Creating initval (Lock id true)) (Creating initval (Getval id))
        (fun e s => match e with EINVAL => Some (goto i (Creating initval Semget) s) | _ => err_sys i "can't lock" e s end) s
  | Getval id =>
      getval id 1 (fun semval s => Some (goto i (Creating initval (if semval =? 0 then Setval0 id else EndCreate id false)) s)) (err_sys i "can't GETVAL") s
  | Setval0 id => setval id 0 initval (fun s => Some (goto i (Creating initval (Setval1 id)) s)) (err_sys i "can SETVAL[0]") s
  | Setval1 id => setval id 1 BIGCOUNT (fun s => Some (goto i (Creating initval (EndCreate id false)) s)) (err_sys i "can SETVAL[1]") s
  | EndCreate id slept => semop i id op_endcreate slept (Creating initval (EndCreate id true)) (Using id) (err_sys i "can't end create") s
  end.

Definition sem_open (key : Z) (o : open_at) (i : nat) (s : st) : option st :=
  match o with
  | OSemget =>
      if (key =? IPC_PRIVATE) || (key =? -1) then Some (goto i Outside s)
      else Some (match sem s with None => goto i Outside s | Some x => goto i (Opening (OSemop (sid x) false)) s end)
  | OSemop id slept => semop i id op_open slept (Opening (OSemop id true)) (Using id) (err_sys i "can't open") s
  end.

Definition sem_rm (id i : nat) (s : st) : option st :=
  ipc_rmid id (fun s => Some (goto i Outside s)) (err_sys i "can't IPC_RMID") s.

Definition sem_close (c : close_at) (i : nat) (s : st) : option st :=
  match c with
  | CLock id slept => semop i id op_close slept (Closing (CLock id true)) (Closing (CGetval id)) (err_sys i "can't semop") s
  | CGetval id =>
      getval id 1 (fun semval s =>
        if BIGCOUNT <? semval then err_sys i "sem[1] > BIGCOUNT" Stale s
        else Some (goto i (Closing (if semval =? BIGCOUNT then CRemove id else CUnlock id false)) s)) (err_sys i "can't GETVAL") s
  | CRemove id => sem_rm id i s
  | CUnlock id slept => semop i id op_unlock slept (Closing (CUnlock id true)) Outside (err_sys i "can't unlock") s
  end.

Definition sem_op (id : nat) (value : Z) (slept : bool) (i : nat) (s : st) : option st :=
  if value =? 0 then err_sys i "can't have value == 0" Stale s
  else semop i id (op_op value) slept (InOp id value true) (Using id) (err_sys i "sem_op error") s.

Definition sem_wait (id : nat) : pc := InOp id (-1) false.
Definition sem_signal (id : nat) : pc := InOp id 1 false.

(** What a process may do: a call, when it is in none; else its next step, and [semget] may fail. *)
Inductive choice := Create (initval : Z) | Open | Op (value : Z) | Close | Rm | Go | Full | Die.

Definition act (key : Z) (a : nat * choice) (s : st) : option st :=
  let '(i, ch) := a in
  match at_pc <$> procs s !! i, ch with
  | None, _ | Some (Exited _), _ => None
  | Some _, Die => exits i None s
  | Some Outside, Create v => Some (goto i (Creating v Semget) s)
  | Some Outside, Open => Some (goto i (Opening OSemget) s)
  | Some (Using id), Op v => Some (goto i (InOp id v false) s)
  | Some (Using id), Close => Some (goto i (Closing (CLock id false)) s)
  | Some (Using id), Rm => Some (goto i (Removing id) s)
  | Some (Creating v Semget), Full => sem_create key v false Semget i s
  | Some (Creating v c), Go => sem_create key v true c i s
  | Some (Opening o), Go => sem_open key o i s
  | Some (InOp id v slept), Go => sem_op id v slept i s
  | Some (Closing c), Go => sem_close c i s
  | Some (Removing id), Go => sem_rm id i s
  | _, _ => None
  end.

(** ** The invariant

    Processes that call [sem_create] with one initial value [k], that give back at most what they
    took, and that do not call [sem_rm]; [sem_open] is left to a client that knows that the
    semaphore exists, which the functions do not check. *)

Section Inv.
Context (key k : Z) (Hk : 0 <= k <= SEMVMX).

Definition units (p : proc) : Z := default 0 (adj p !! 0%nat).

Definition keeps (a : nat * choice) (s : st) : bool :=
  match snd a with
  | Create v => v =? k
  | Op v => negb (v =? 0) && (v <=? default 0 (units <$> procs s !! fst a))
  | Open | Rm => false
  | _ => true
  end.
Definition act' (a : nat * choice) (s : st) : option st := if keeps a s then act key a s else None.

Definition user (a : pc) : Z := match a with Using _ | InOp _ _ _ | Closing (CLock _ _) => 1 | _ => 0 end.
Definition holder (a : pc) : Z :=
  match a with
  | Creating _ (Semget | Lock _ _) | Closing (CLock _ _) => 0
  | Creating _ _ | Closing _ => 1
  | _ => 0
  end.
(** The set that a process uses or has locked. *)
Definition held (a : pc) : option nat :=
  match a with
  | Using id | InOp id _ _ | Closing (CLock id _ | CGetval id | CRemove id | CUnlock id _) | Creating _ (Getval id | Setval0 id | Setval1 id | EndCreate id _) => Some id
  | _ => None
  end.

Definition pc_ok (a : pc) (u : Z) : Prop :=
  match a with
  | Opening _ | Removing _ => False
  | Creating v _ => v = k
  | InOp _ v _ => v <> 0 /\ v <= u
  | Exited (Some (msg, e)) => msg = "can't lock"%string /\ e = EIDRM
  | _ => True
  end.

Definition users (l : list proc) : Z := sum_by (fun p => user (at_pc p)) l.
Definition holders (l : list proc) : Z := sum_by (fun p => holder (at_pc p)) l.
Definition taken (l : list proc) : Z := sum_by units l.

Definition holder_ok (ready : bool) (v0 v1 : Z) (a : pc) : Prop :=
  match a with
  | Creating _ (Setval0 _) => ready = false
  | Creating _ (Setval1 _) => ready = false /\ v0 = k
  | Creating _ (EndCreate _ _) | Closing (CGetval _ | CUnlock _ _) => ready = true
  | Closing (CRemove _) => ready = true /\ v1 = BIGCOUNT
  | _ => True
  end.

(** A set before and after it got its values. *)
Record set_ok (ready : bool) (v0 v1 v2 : Z) (l : list proc) : Prop := MkOk {
  o_lock : v2 = holders l; o_one : v2 <= 1; o_pos : 0 <= v0 <= k;
  o_count : if ready then v1 = BIGCOUNT - users l /\ v0 = k - taken l else v1 = 0 /\ users l = 0 /\ taken l = 0;
  o_at : forall i p, l !! i = Some p -> holder_ok ready v0 v1 (at_pc p)
}.

Record proc_ok (s : st) (p : proc) : Prop := MkPOk {
  p_adj : adj p = [units p; user (at_pc p); - holder (at_pc p)];
  p_units : 0 <= units p;
  p_pc : pc_ok (at_pc p) (units p);
  p_held : forall id, held (at_pc p) = Some id -> sid <$> sem s = Some id
}.

Record inv (s : st) : Prop := MkInv {
  i_len : Z.of_nat (List.length (procs s)) <= BIGCOUNT;
  i_proc : forall i p, procs s !! i = Some p -> proc_ok s p;
  i_set : match sem s with
          | None => users (procs s) = 0 /\ holders (procs s) = 0 /\ taken (procs s) = 0
          | Some x => exists ready v0 v1 v2, vals x = [v0; v1; v2] /\ set_ok ready v0 v1 v2 (procs s)
          end
}.

(** ** Sums *)

Lemma user_range a : 0 <= user a <= 1.
Proof. destruct a as [|? []|[]|?|? ? ?|[]|?|?]; cbn; lia. Qed.
Lemma holder_range a : 0 <= holder a <= 1.
Proof. destruct a as [|? []|[]|?|? ? ?|[]|?|?]; cbn; lia. Qed.
Lemma held_counts a : held a = None -> user a = 0 /\ holder a = 0.
Proof. destruct a as [|? []|[]|?|? ? ?|[]|?|?]; done. Qed.
Lemma held_one a id : held a = Some id -> user a + holder a = 1.
Proof. destruct a as [|? []|[]|?|? ? ?|[]|?|?]; done. Qed.

Lemma sole_holder ready v0 v1 v2 l i j p q : set_ok ready v0 v1 v2 l -> l !! i = Some p -> l !! j = Some q ->
  holder (at_pc p) = 1 -> holder (at_pc q) = 1 -> i = j.
Proof.
  intros [E1 E2 _ _ _] Hi Hj Hp Hq. destruct (decide (i = j)) as [|Hij]; [done|].
  pose proof (sum_by_two (fun p => holder (at_pc p)) l i j p q ltac:(intros z; apply holder_range) Hij Hi Hj) as H.
  cbv beta in H. unfold holders in E1. lia.
Qed.

Lemma users_ge l i p : l !! i = Some p -> user (at_pc p) <= users l.
Proof. apply (sum_by_ge (fun p => user (at_pc p))). intros z. apply user_range. Qed.
Lemma holders_ge l i p : l !! i = Some p -> holder (at_pc p) <= holders l.
Proof. apply (sum_by_ge (fun p => holder (at_pc p))). intros z. apply holder_range. Qed.

Lemma users_nonneg l : 0 <= users l.
Proof. pose proof (sum_by_bound (fun p => user (at_pc p)) 0 1 l ltac:(intros x _; apply user_range)). unfold users. lia. Qed.

Lemma users_fewer l i p : l !! i = Some p -> user (at_pc p) = 0 -> users l < Z.of_nat (List.length l).
Proof.
  intros Hi Hu. unfold users. pose proof (sum_by_insert (fun p => user (at_pc p)) l i p (MkProc (Using 0) no_adj) Hi) as E.
  pose proof (sum_by_bound (fun p => user (at_pc p)) 0 1 (<[i := MkProc (Using 0) no_adj]> l) ltac:(intros x _; apply user_range)) as B.
  rewrite length_insert in B. cbv beta in E. rewrite Hu in E. cbn in E. lia.
Qed.

(** One process changes, the set with it. *)
Lemma set_update ready v0 v1 v2 v0' v1' v2' l i p p' : set_ok ready v0 v1 v2 l -> l !! i = Some p ->
  v0' = v0 - (units p' - units p) -> v1' = v1 - (user (at_pc p') - user (at_pc p)) -> v2' = v2 + (holder (at_pc p') - holder (at_pc p)) ->
  0 <= v0' <= k -> v2' <= 1 -> (ready = false -> v0' = v0 /\ v1' = v1) -> holder_ok ready v0' v1' (at_pc p') ->
  (forall j q, j <> i -> l !! j = Some q -> holder_ok ready v0 v1 (at_pc q) -> holder_ok ready v0' v1' (at_pc q)) ->
  set_ok ready v0' v1' v2' (<[i := p']> l).
Proof.
  intros [E1 E2 E3 E4 E5] Hi -> -> -> H0 H2 Hr Ha Hn.
  pose proof (sum_by_insert (fun p => user (at_pc p)) l i p p' Hi). pose proof (sum_by_insert (fun p => holder (at_pc p)) l i p p' Hi).
  pose proof (sum_by_insert units l i p p' Hi). constructor; unfold users, holders, taken in *; [cbv beta in *; lia|done|done| |].
  - destruct ready; [cbv beta in *; lia|]. specialize (Hr eq_refl). cbv beta in *. lia.
  - intros j q Hj. destruct (decide (j = i)) as [->|Hji].
    + rewrite list_lookup_insert_eq in Hj by (by eapply lookup_lt_Some). by simplify_eq.
    + rewrite list_lookup_insert_ne in Hj by done. apply (Hn j); [done|done|]. by apply (E5 j).
Qed.

(** ** Every step keeps it *)

Lemma goto_put i a s p : procs s !! i = Some p -> goto i a s = MkSt (sem s) (next_id s) (<[i := MkProc a (adj p)]> (procs s)).
Proof.
  intros Hi. unfold goto. f_equal. apply list_eq. intros j. destruct (decide (j = i)) as [->|Hj].
  - rewrite list_lookup_alter_eq, Hi, list_lookup_insert_eq by (by eapply lookup_lt_Some). done.
  - by rewrite list_lookup_alter_ne, list_lookup_insert_ne.
Qed.

Lemma inv_put s x x' n i p' : inv s -> sem s = Some x -> sid x' = sid x -> is_Some (procs s !! i) ->
  proc_ok (MkSt (Some x') n (<[i := p']> (procs s))) p' ->
  (exists ready v0 v1 v2, vals x' = [v0; v1; v2] /\ set_ok ready v0 v1 v2 (<[i := p']> (procs s))) ->
  inv (MkSt (Some x') n (<[i := p']> (procs s))).
Proof.
  intros [Hl Hp Hs] Es Ex [q Hq] Hp' Hs'. constructor; cbn [sem procs]; [by rewrite length_insert| |done].
  intros j r Hj. destruct (decide (j = i)) as [->|Hji].
  - rewrite list_lookup_insert_eq in Hj by (by eapply lookup_lt_Some). by simplify_eq.
  - rewrite list_lookup_insert_ne in Hj by done. destruct (Hp j r Hj) as [H1 H2 H3 H4]. constructor; try done.
    intros id Hid. specialize (H4 id Hid). rewrite Es in H4. cbn in *. congruence.
Qed.

Lemma inv_goto s i p a : inv s -> procs s !! i = Some p ->
  user a = user (at_pc p) -> holder a = holder (at_pc p) -> pc_ok a (units p) ->
  (forall id, held a = Some id -> sid <$> sem s = Some id) ->
  (forall x ready v0 v1 v2, sem s = Some x -> vals x = [v0; v1; v2] -> set_ok ready v0 v1 v2 (procs s) -> holder_ok ready v0 v1 a) ->
  inv (goto i a s).
Proof.
  intros I Hi Eu Eh Ha Hh Ho. rewrite (goto_put _ _ _ _ Hi). destruct (i_proc s I i p Hi) as [H1 H2 H3 H4].
  assert (proc_ok (MkSt (sem s) (next_id s) (<[i:=MkProc a (adj p)]> (procs s))) (MkProc a (adj p))) as Hp'.
  { constructor; cbn [at_pc adj sem]; [by rewrite Eu, Eh| done| done|done]. }
  destruct (sem s) as [x|] eqn:Es.
  - eapply inv_put; [done|done|done|by exists p|done|]. pose proof (i_set s I) as Hs. rewrite Es in Hs. destruct Hs as (r & v0 & v1 & v2 & Ev & Hs).
    exists r, v0, v1, v2. split; [done|]. eapply set_update; [done|done|..]; cbn [at_pc units adj]; unfold units in *; cbn [adj]; try lia; try (apply Hs); try done.
    by eapply Ho.
  - pose proof (i_set s I) as Hs. rewrite Es in Hs. destruct Hs as (E1 & E2 & E3). constructor; cbn [sem procs]; [rewrite length_insert; apply I| |].
    + intros j r Hj. destruct (decide (j = i)) as [->|Hji].
      * rewrite list_lookup_insert_eq in Hj by (by eapply lookup_lt_Some). by simplify_eq.
      * rewrite list_lookup_insert_ne in Hj by done. destruct (i_proc s I j r Hj) as [G1 G2 G3 G4]. constructor; try done. cbn. intros id Hid. specialize (G4 id Hid). by rewrite Es in G4.
    + unfold users, holders, taken in *. rewrite !(sum_by_insert _ _ _ p) by done. cbv beta. cbn [at_pc]. change (units (MkProc a (adj p))) with (units p). lia.
Qed.

Lemma units_taken s i p : inv s -> procs s !! i = Some p -> units p <= taken (procs s).
Proof.
  intros I Hi. apply sum_by_ge_elem with (i := i); [|done]. intros q Hq.
  apply list_elem_of_lookup in Hq as [j Hj]. apply (i_proc s I j q Hj).
Qed.

(** What another process does to the counters is no concern of the one that has the lock. *)
Lemma others_ok ready v0 v1 v0' v1' a : (ready = false -> v0' = v0) -> (v1 = BIGCOUNT -> v1' = BIGCOUNT) ->
  holder_ok ready v0 v1 a -> holder_ok ready v0' v1' a.
Proof. clear Hk. intros H0 H1. destruct a as [|? []|[]|?|? ? ?|[]|?|?]; cbn; try done; [intros [-> <-]; split; [done|by apply H0]|intros [-> E]; split; [done|by apply H1]]. Qed.

Lemma inv_exits s i why s' : inv s -> exits i why s = Some s' -> pc_ok (Exited why) 0 -> inv s'.
Proof using Hk.
  intros I E Hw. unfold exits in E. destruct (procs s !! i) as [p|] eqn:Hi; [|done]. simplify_eq.
  destruct (i_proc s I i p Hi) as [H1 H2 H3 H4]. pose proof (i_set s I) as Hs.
  pose proof (user_range (at_pc p)). pose proof (holder_range (at_pc p)). pose proof (holders_ge _ _ _ Hi).
  pose proof (users_ge _ _ _ Hi). pose proof (users_nonneg (procs s)). pose proof (units_taken _ _ _ I Hi). pose proof (i_len s I).
  pose proof (sum_by_bound (fun p => user (at_pc p)) 0 1 (procs s) ltac:(intros q _; apply user_range)) as B. change (sum_by (fun p => user (at_pc p))) with users in B.
  destruct (sem s) as [x|] eqn:Es; cbn [fmap option_fmap option_map].
  - destruct Hs as (r & v0 & v1 & v2 & Ev & Hs). eapply inv_put; [done|done|done|by exists p|by constructor|].
    exists r, (v0 + units p), (v1 + user (at_pc p)), (v2 - holder (at_pc p)). pose proof Hs as [G1 G2 G3 G4 G5]. split.
    + cbn [vals]. rewrite Ev, H1. unfold undo. cbn [zip_with]. unfold undo_one, SEMVMX, BIGCOUNT in *. f_equal; [|f_equal; [|f_equal]]; destruct r; lia.
    + eapply set_update; [done|done|..]; cbn [at_pc user holder]; change (units (MkProc (Exited why) no_adj)) with 0; try lia; try done.
      * destruct r; lia.
      * intros ->. lia.
      * intros j q Hj Hq. apply others_ok; unfold BIGCOUNT in *; destruct r; try done; lia.
  - destruct Hs as (E1 & E2 & E3). constructor; cbn [sem procs]; [by rewrite length_insert| |].
    + intros j q Hj. destruct (decide (j = i)) as [->|Hji].
      * rewrite list_lookup_insert_eq in Hj by (by eapply lookup_lt_Some). simplify_eq. by constructor.
      * rewrite list_lookup_insert_ne in Hj by done. destruct (i_proc s I j q Hj) as [G1 G2 G3 G4]. constructor; try done. cbn. intros id Hid. specialize (G4 id Hid). by rewrite Es in G4.
    + unfold users, holders, taken in *. rewrite !(sum_by_insert _ _ _ p) by done. cbv beta. cbn [at_pc]. change (units (MkProc (Exited why) no_adj)) with 0. cbn [user holder]. lia.
Qed.

(** A [semop] that succeeded. *)
Lemma inv_done s i p id ready v0 v1 v2 v0' v1' v2' next u : inv s -> procs s !! i = Some p ->
  sem s = Some (MkSet id [v0; v1; v2]) -> set_ok ready v0 v1 v2 (procs s) ->
  v0' = v0 - (u - units p) -> v1' = v1 - (user next - user (at_pc p)) -> v2' = v2 + (holder next - holder (at_pc p)) ->
  0 <= u -> 0 <= v0' <= k -> v2' <= 1 -> pc_ok next u -> (held next = None \/ held next = Some id) ->
  (ready = false -> v0' = v0 /\ v1' = v1) -> holder_ok ready v0' v1' next ->
  (v2 = 1 -> holder (at_pc p) = 0 -> v1 = BIGCOUNT -> v1' = BIGCOUNT) ->
  inv (MkSt (Some (MkSet id [v0'; v1'; v2'])) (next_id s) (<[i := MkProc next [u; user next; - holder next]]> (procs s))).
Proof.
  intros I Hi Es Hs E0 E1 E2 Hu H0 H2 Hp Hh Hr Ha Hn. eapply inv_put; [done|done|done|by exists p| |].
  - constructor; cbn [at_pc adj units sem]; [done|done|done|]. intros id' Hid. destruct Hh as [Hh|Hh]; rewrite Hh in Hid; cbn; congruence.
  - exists ready, v0', v1', v2'. split; [done|]. eapply set_update; [done|done|..]; cbn [at_pc adj]; unfold units in *; cbn [adj]; try done; try lia.
    intros j q Hj Hq Hok. destruct (decide (holder (at_pc q) = 1)) as [Hq1|Hq0].
    + revert Hok. apply others_ok; [intros Er; by destruct (Hr Er)|]. pose proof (holders_ge _ _ _ Hq). pose proof (o_lock _ _ _ _ _ Hs). pose proof (o_one _ _ _ _ _ Hs).
      apply Hn; [lia|]. destruct (decide (holder (at_pc p) = 1)) as [Hp1|]; [|pose proof (holder_range (at_pc p)); lia].
      destruct Hj. by eapply sole_holder.
    + destruct (at_pc q) as [|? []|[]|?|? ? ?|[]|?|?]; done.
Qed.

Lemma lock_spec v0 v1 v2 a0 a1 : semop_all op_lock [v0; v1; v2] [a0; a1; 0] = if v2 =? 0 then Done [v0; v1; 1] [a0; a1; -1] else Sleep.
Proof. cbn. destruct (Z.eqb_spec v2 0) as [->|]; done. Qed.

Lemma unlock_spec v0 v1 a0 a1 : semop_all op_unlock [v0; v1; 1] [a0; a1; -1] = Done [v0; v1; 0] [a0; a1; 0].
Proof. done. Qed.

Lemma endcreate_spec v0 v1 a0 : 0 < v1 <= BIGCOUNT -> semop_all op_endcreate [v0; v1; 1] [a0; 0; -1] = Done [v0; v1 - 1; 0] [a0; 1; 0].
Proof.
  intros H. unfold BIGCOUNT in H. cbn -[Z.add Z.ltb]. rewrite (proj2 (Z.ltb_ge (v1 + -1) 0)) by lia. unfold SEMVMX.
  by rewrite (proj2 (Z.ltb_ge 32767 (v1 + -1))) by lia.
Qed.

Lemma close_spec v0 v1 v2 a0 : 0 <= v1 < BIGCOUNT ->
  semop_all op_close [v0; v1; v2] [a0; 1; 0] = if v2 =? 0 then Done [v0; v1 + 1; 1] [a0; 0; -1] else Sleep.
Proof.
  intros H. unfold BIGCOUNT in H. cbn -[Z.add Z.ltb]. destruct (Z.eqb_spec v2 0) as [->|]; [|done]. cbn -[Z.add Z.ltb].
  rewrite (proj2 (Z.ltb_ge (v1 + 1) 0)) by lia. unfold SEMVMX. by rewrite (proj2 (Z.ltb_ge 32767 (v1 + 1))) by lia.
Qed.

Lemma op_spec v v0 v1 v2 a0 a1 a2 : v <> 0 -> 0 <= v0 -> 0 <= a0 -> v0 + a0 <= SEMVMX -> v <= a0 ->
  semop_all (op_op v) [v0; v1; v2] [a0; a1; a2] = if v0 + v <? 0 then Sleep else Done [v0 + v; v1; v2] [a0 - v; a1; a2].
Proof.
  intros H1 H2 H3 H4 H5. unfold op_op. cbn -[Z.add Z.sub Z.ltb Z.opp SEMVMX]. rewrite (proj2 (Z.eqb_neq v 0)) by done.
  destruct (Z.ltb_spec (v0 + v) 0) as [|H6]; [done|]. assert ((SEMVMX <? v0 + v) = false) as -> by (unfold SEMVMX in *; lia).
  assert (((a0 - v <? - SEMVMX - 1) || (SEMVMX <? a0 - v)) = false) as -> by (unfold SEMVMX in *; lia). done.
Qed.

Lemma inv_new s : inv s -> sem s = None -> inv (MkSt (Some (MkSet (next_id s) [0; 0; 0])) (S (next_id s)) (procs s)).
Proof using Hk.
  intros [Hl Hp Hs] Es. rewrite Es in Hs. destruct Hs as (E1 & E2 & E3). constructor; cbn [sem procs]; [done| |].
  - intros i p Hi. destruct (Hp i p Hi) as [H1 H2 H3 H4]. constructor; try done. intros id Hid. specialize (H4 id Hid). by rewrite Es in H4.
  - exists false, 0, 0, 0. split; [done|]. constructor; [done|lia|lia|done|]. intros i p Hi. destruct (Hp i p Hi) as [_ _ _ H4].
    rewrite Es in H4. cbn in H4. destruct (at_pc p) as [|? []|[]|?|? ? ?|[]|?|?]; try done; by specialize (H4 _ eq_refl).
Qed.

(** [semop], for any failure that the invariant survives. *)
Lemma inv_semop s i p id ops slept waiting next failed s' : inv s -> procs s !! i = Some p ->
  semop i id ops slept waiting next failed s = Some s' ->
  (sid <$> sem s <> Some id -> failed (if slept then EIDRM else EINVAL) s = Some s' -> inv s') ->
  (slept = false -> inv (goto i waiting s)) ->
  (forall ready v0 v1 v2, sem s = Some (MkSet id [v0; v1; v2]) -> set_ok ready v0 v1 v2 (procs s) ->
     match semop_all ops [v0; v1; v2] (adj p) with
     | Done v a => inv (MkSt (Some (MkSet id v)) (next_id s) (<[i := MkProc next a]> (procs s)))
     | Sleep => True
     | Failed e => failed e s = Some s' -> inv s'
     end) -> inv s'.
Proof.
  intros I Hi E Hf Hw Hd. unfold semop in E. rewrite Hi in E. pose proof (i_set s I) as Hs. destruct (sem s) as [[id' v]|] eqn:Es; [|by apply Hf].
  destruct (decide (id' = id)) as [->|Hne]; [|apply Hf; [cbn; congruence|done]].
  destruct Hs as (r & v0 & v1 & v2 & Ev & Hs). cbn in Ev. subst v. specialize (Hd r v0 v1 v2 eq_refl Hs).
  destruct (semop_all ops [v0; v1; v2] (adj p)); [by simplify_eq| |by apply Hd]. destruct slept; [done|]. simplify_eq. by apply Hw.
Qed.

Lemma getval_live s id (semval : Z -> st -> option st) failed s' : inv s -> sid <$> sem s = Some id -> getval id 1 semval failed s = Some s' ->
  exists ready v0 v1 v2, sem s = Some (MkSet id [v0; v1; v2]) /\ set_ok ready v0 v1 v2 (procs s) /\ semval v1 s = Some s'.
Proof.
  intros I Hid E. unfold getval in E. pose proof (i_set s I) as Hs. destruct (sem s) as [[id' v]|]; [|done]. cbn in Hid. simplify_eq.
  destruct Hs as (r & v0 & v1 & v2 & Ev & Hs). cbn in Ev. subst v. rewrite decide_True in E by done. cbn in E. by exists r, v0, v1, v2.
Qed.

Lemma sum_zero_all {A} (f : A -> Z) l i x : (forall y, y ∈ l -> 0 <= f y) -> sum_by f l = 0 -> l !! i = Some x -> f x = 0.
Proof. intros Hf H0 Hi. pose proof (sum_by_ge_elem f l i x Hf Hi). pose proof (Hf x ltac:(by eapply list_elem_of_lookup_2)). lia. Qed.

(** Nobody has anything to undo while the set gets its values. *)
Lemma forget_none s n : inv s -> users (procs s) = 0 -> taken (procs s) = 0 -> (n <= 1)%nat ->
  (fun p => MkProc (at_pc p) (<[n := 0]> (adj p))) <$> procs s = procs s.
Proof using Hk.
  intros I Hu Ht Hn. apply list_eq. intros j. rewrite list_lookup_fmap. destruct (procs s !! j) as [p|] eqn:Hj; [|done]. cbn [fmap option_fmap option_map]. f_equal.
  destruct (i_proc s I j p Hj) as [H1 _ _ _].
  assert (units p = 0) as E0 by (eapply (sum_zero_all units); [|exact Ht|exact Hj]; intros q Hq; apply list_elem_of_lookup in Hq as [k' Hq]; apply (i_proc s I k' q Hq)).
  assert (user (at_pc p) = 0) as E1 by (eapply (sum_zero_all (fun p => user (at_pc p))); [|exact Hu|exact Hj]; intros q _; apply user_range).
  destruct p as [a l]. cbn [adj at_pc] in *. f_equal. rewrite H1, E0, E1. destruct n as [|[|n]]; [done|done|lia].
Qed.

Lemma setval_live s id n x ready v0 v1 v2 (next : st -> option st) failed s' : inv s -> sem s = Some (MkSet id [v0; v1; v2]) -> set_ok ready v0 v1 v2 (procs s) -> ready = false ->
  (n <= 1)%nat -> 0 <= x <= SEMVMX -> setval id n x next failed s = Some s' ->
  next (MkSt (Some (MkSet id (<[n := x]> [v0; v1; v2]))) (next_id s) (procs s)) = Some s'.
Proof using Hk.
  intros I Es Hs Hr Hn Hx E. unfold setval in E. rewrite Es in E. rewrite decide_False in E by tauto.
  assert (((x <? 0) || (SEMVMX <? x)) = false) as Ex by lia. rewrite Ex in E. subst ready. destruct (o_count _ _ _ _ _ Hs) as (_ & Hu & Ht).
  rewrite (forget_none s n) in E by done. done.
Qed.

Lemma live_set s id : inv s -> sid <$> sem s = Some id -> exists ready v0 v1 v2, sem s = Some (MkSet id [v0; v1; v2]) /\ set_ok ready v0 v1 v2 (procs s).
Proof.
  intros I Hid. pose proof (i_set s I) as Hs. destruct (sem s) as [[id' v]|]; [|done]. cbn in Hid. simplify_eq.
  destruct Hs as (r & v0 & v1 & v2 & Ev & Hs). cbn in Ev. subst v. by exists r, v0, v1, v2.
Qed.

(** The values are set by one process, which has the lock. *)
Lemma inv_values s i p id (ready : bool) v0 v1 v2 v0' v1' c : inv s -> procs s !! i = Some p ->
  sem s = Some (MkSet id [v0; v1; v2]) -> set_ok false v0 v1 v2 (procs s) -> holder (at_pc p) = 1 -> 0 <= v0' <= k ->
  held (Creating k c) = Some id -> holder (Creating k c) = 1 ->
  v1' = (if ready then BIGCOUNT else 0) -> (ready = true -> v0' = k) -> holder_ok ready v0' v1' (Creating k c) ->
  inv (goto i (Creating k c) (MkSt (Some (MkSet id [v0'; v1'; v2])) (next_id s) (procs s))).
Proof using Hk.
  intros I Hi Es Hs Hp H0 Hh Hc Hv1 Hv0 Ha. destruct (i_proc s I i p Hi) as [H1 H2 H3 H4].
  assert (user (at_pc p) = 0) as Hu by (destruct (at_pc p) as [|? []|[]|?|? ? ?|[]|?|?]; done).
  rewrite (goto_put _ _ _ p) by done. cbn [sem next_id procs].
  eapply (inv_put s (MkSet id [v0; v1; v2])); [done|done|done|by exists p|constructor; cbn [adj at_pc]|].
  - rewrite H1, Hu, Hp, Hc. by destruct c.
  - done.
  - done.
  - intros id' E. cbn. congruence.
  - exists ready, v0', v1', v2. split; [done|]. destruct Hs as [G1 G2 G3 G4 G5]. constructor; [|done|done| |].
    + unfold holders in *. rewrite (sum_by_insert _ _ _ p) by done. cbv beta. cbn [at_pc]. lia.
    + unfold users, taken in *. rewrite !(sum_by_insert _ _ _ p) by done. cbv beta. cbn [at_pc]. change (units (MkProc (Creating k c) (adj p))) with (units p).
      change (user (Creating k c)) with 0. destruct ready; [rewrite (Hv0 eq_refl)|]; lia.
    + intros j q Hj. destruct (decide (j = i)) as [->|Hji].
      * rewrite list_lookup_insert_eq in Hj by (by eapply lookup_lt_Some). by simplify_eq.
      * rewrite list_lookup_insert_ne in Hj by done. assert (holder (at_pc q) <> 1) as Hq by (intros Hq; apply Hji; by eapply (sole_holder false v0 v1 v2)).
        destruct (at_pc q) as [|? []|[]|?|? ? ?|[]|?|?]; done.
Qed.

Lemma create_inv s i p v ok c s' : inv s -> procs s !! i = Some p -> at_pc p = Creating v c -> sem_create key v ok c i s = Some s' -> inv s'.
Proof using Hk.
  intros I Hi Ep E. destruct (i_proc s I i p Hi) as [H1 H2 H3 H4]. rewrite Ep in *. cbn in H3. subst v. destruct c as [|id slept|id|id|id|id slept]; cbn [sem_create] in E.
  - destruct (_ || _); [simplify_eq; by eapply inv_goto; rewrite ?Ep|]. destruct ok; cbn [negb] in E; [|simplify_eq; by eapply inv_goto; rewrite ?Ep].
    unfold semget_creat in E. destruct (sem s) as [x|] eqn:Es; simplify_eq; [by eapply inv_goto; rewrite ?Ep|].
    eapply inv_goto; rewrite ?Ep; [by apply inv_new| done..].
  - eapply inv_semop; [done|done|exact E|..].
    + intros _. destruct slept; [intros Ex; by eapply inv_exits|intros Ex; simplify_eq; by eapply inv_goto; rewrite ?Ep].
    + intros ->. by eapply inv_goto; rewrite ?Ep.
    + intros r v0 v1 v2 Es Hs. rewrite H1. cbn [user holder Z.opp]. rewrite lock_spec. destruct (Z.eqb_spec v2 0) as [->|]; [|done].
      apply (inv_done s i p id r v0 v1 0 v0 v1 1 (Creating k (Getval id)) (units p)); rewrite ?Ep; try done; cbn; try lia; [apply Hs|by right].
  - specialize (H4 id eq_refl). apply getval_live in E as (r & v0 & v1 & v2 & Es & Hs & E); [|done..]. simplify_eq.
    pose proof (users_fewer _ _ _ Hi ltac:(by rewrite Ep)). pose proof (i_len s I).
    eapply inv_goto; rewrite ?Ep; [done|done|by destruct (_ =? _)|by destruct (_ =? _)|done|destruct (_ =? _); intros id' Eid; cbn in Eid; congruence|].
    intros x r' w0 w1 w2 Ex Ev Hs'. rewrite Es in Ex. simplify_eq. cbn in Ev. simplify_eq. pose proof (o_count _ _ _ _ _ Hs') as Hc.
    destruct (Z.eqb_spec w1 0); cbn; destruct r'; try done; lia.
  - specialize (H4 id eq_refl). destruct (live_set s id I H4) as (r & v0 & v1 & v2 & Es & Hs). pose proof (o_at _ _ _ _ _ Hs i p Hi) as Hr. rewrite Ep in Hr. cbn in Hr. subst r.
    eapply setval_live in E; [|done..|lia|done]. cbn in E. simplify_eq. eapply (inv_values s i p id false); rewrite ?Ep; try done; try lia. by destruct (o_count _ _ _ _ _ Hs).
  - specialize (H4 id eq_refl). destruct (live_set s id I H4) as (r & v0 & v1 & v2 & Es & Hs). pose proof (o_at _ _ _ _ _ Hs i p Hi) as Hr. rewrite Ep in Hr. cbn in Hr. destruct Hr as [-> ->].
    eapply setval_live in E; [|done..|lia|done]. cbn in E. simplify_eq. eapply (inv_values s i p id true); rewrite ?Ep; try done; lia.
  - specialize (H4 id eq_refl). eapply inv_semop; [done|done|exact E|..].
    + by rewrite H4.
    + intros ->. eapply inv_goto; rewrite ?Ep; try done; [intros id' Eid; cbn in Eid; congruence|]. intros x r v0 v1 v2 Ex Ev Hs. pose proof (o_at _ _ _ _ _ Hs i p Hi) as Hr. by rewrite Ep in Hr.
    + intros r v0 v1 v2 Es Hs. pose proof (o_at _ _ _ _ _ Hs i p Hi) as Hr. rewrite Ep in Hr. cbn in Hr. subst r.
      pose proof (holders_ge _ _ _ Hi) as Hh. rewrite Ep in Hh. cbn in Hh. pose proof Hs as [G1 G2 G3 [G4 G5] G6]. assert (v2 = 1) as -> by lia.
      pose proof (users_fewer _ _ _ Hi ltac:(by rewrite Ep)). pose proof (users_nonneg (procs s)). pose proof (i_len s I).
      rewrite H1. cbn [user holder Z.opp]. rewrite endcreate_spec by lia.
      apply (inv_done s i p id true v0 v1 1 v0 (v1 - 1) 0 (Using id) (units p)); rewrite ?Ep; try done; cbn; try lia. by right.
Qed.

(** The users leave room in the counter. *)
Lemma count_range s id ready v0 v1 v2 i p : inv s -> sem s = Some (MkSet id [v0; v1; v2]) -> set_ok ready v0 v1 v2 (procs s) ->
  procs s !! i = Some p -> user (at_pc p) = 1 -> ready = true /\ 0 <= v1 < BIGCOUNT.
Proof using Hk.
  intros I Es [_ _ _ Hc _] Hi Hu. pose proof (users_ge _ _ _ Hi). pose proof (i_len s I).
  pose proof (sum_by_bound (fun p => user (at_pc p)) 0 1 (procs s) ltac:(intros q _; apply user_range)) as B. change (sum_by (fun p => user (at_pc p))) with users in B.
  destruct ready; lia.
Qed.

Lemma lock_held ready v0 v1 v2 l i p : set_ok ready v0 v1 v2 l -> l !! i = Some p -> holder (at_pc p) = 1 -> v2 = 1.
Proof. intros [G1 G2 _ _ _] Hi Hp. pose proof (holders_ge _ _ _ Hi). lia. Qed.

(** The last user removes the set: nobody else uses it or has its lock. *)
Lemma inv_removed s i p id v0 v1 v2 : inv s -> procs s !! i = Some p -> at_pc p = Closing (CRemove id) ->
  sem s = Some (MkSet id [v0; v1; v2]) -> set_ok true v0 v1 v2 (procs s) ->
  inv (goto i Outside (MkSt None (next_id s) ((fun p => MkProc (at_pc p) no_adj) <$> procs s))).
Proof.
  intros I Hi Ep Es Hs. pose proof (o_at _ _ _ _ _ Hs i p Hi) as Hr. rewrite Ep in Hr. destruct Hr as [_ Hv]. destruct (o_count _ _ _ _ _ Hs) as [Hc _].
  rewrite (goto_put _ _ _ (MkProc (at_pc p) no_adj)) by (cbn [procs]; by rewrite list_lookup_fmap, Hi). cbn [sem next_id procs adj].
  assert (forall j q, <[i := MkProc Outside no_adj]> ((fun p => MkProc (at_pc p) no_adj) <$> procs s) !! j = Some q ->
    adj q = no_adj /\ user (at_pc q) = 0 /\ holder (at_pc q) = 0 /\ pc_ok (at_pc q) 0 /\ held (at_pc q) = None) as Hq.
  { intros j q Hj. destruct (decide (j = i)) as [->|Hji].
    - rewrite list_lookup_insert_eq in Hj by (rewrite length_fmap; by eapply lookup_lt_Some). by simplify_eq.
    - rewrite list_lookup_insert_ne, list_lookup_fmap in Hj by done. destruct (procs s !! j) as [r|] eqn:Hr; [|done]. cbn in Hj. injection Hj as <-. cbn [adj at_pc].
      destruct (i_proc s I j r Hr) as [_ _ G3 _]. pose proof (users_ge _ _ _ Hr) as Hu.
      assert (holder (at_pc r) <> 1) as Hh by (intros Hh; apply Hji; eapply (sole_holder true v0 v1 v2); try done; by rewrite Ep).
      destruct (at_pc r) as [|? []|[]|?|? ? ?|[]|?|?]; cbn in *; try done; lia. }
  constructor; cbn [procs sem]; [rewrite length_insert, length_fmap; apply I| |].
  - intros j q Hj. destruct (Hq j q Hj) as (E1 & E2 & E3 & E4 & E5). constructor; unfold units; rewrite ?E1, ?E2, ?E3; [done|done|done|by rewrite E5].
  - repeat split; apply sum_by_zero; intros q (j & Hj)%list_elem_of_lookup; destruct (Hq j q Hj) as (E1 & E2 & E3 & _); unfold units; by rewrite ?E1.
Qed.

Lemma close_inv s i p c s' : inv s -> procs s !! i = Some p -> at_pc p = Closing c -> sem_close c i s = Some s' -> inv s'.
Proof using Hk.
  intros I Hi Ep E. destruct (i_proc s I i p Hi) as [H1 H2 H3 H4]. rewrite Ep in *. destruct c as [id slept|id|id|id slept]; cbn [sem_close] in E; specialize (H4 id eq_refl).
  - eapply inv_semop; [done|done|exact E|by rewrite H4| |].
    + intros ->. eapply inv_goto; rewrite ?Ep; try done. intros id' Eid. cbn in Eid. congruence.
    + intros r v0 v1 v2 Es Hs. destruct (count_range s id r v0 v1 v2 i p) as [-> Hv1]; [done..|by rewrite Ep|].
      rewrite H1. cbn [user holder Z.opp]. rewrite close_spec by done. destruct (Z.eqb_spec v2 0) as [->|]; [|done].
      apply (inv_done s i p id true v0 v1 0 v0 (v1 + 1) 1 (Closing (CGetval id)) (units p)); rewrite ?Ep; try done; cbn; try lia; [apply Hs|by right].
  - apply getval_live in E as (r & v0 & v1 & v2 & Es & Hs & E); [|done..].
    pose proof (o_at _ _ _ _ _ Hs i p Hi) as Hr. rewrite Ep in Hr. cbn in Hr. subst r. destruct (o_count _ _ _ _ _ Hs) as [Hv1 _].
    pose proof (users_nonneg (procs s)). rewrite (proj2 (Z.ltb_ge BIGCOUNT v1)) in E by lia. simplify_eq.
    eapply inv_goto; rewrite ?Ep; try done; [by destruct (_ =? _)..|destruct (_ =? _); intros id' Eid; cbn in Eid; congruence|].
    intros x r' w0 w1 w2 Ex Ev Hs'. rewrite Es in Ex. simplify_eq. cbn in Ev. simplify_eq.
    pose proof (o_at _ _ _ _ _ Hs' i p Hi) as Hr. rewrite Ep in Hr. cbn in Hr. subst r'.
    destruct (Z.eqb_spec (BIGCOUNT - users (procs s)) BIGCOUNT); done.
  - unfold sem_rm, ipc_rmid in E. destruct (live_set s id I H4) as (r & v0 & v1 & v2 & Es & Hs). rewrite Es, decide_True in E by done. simplify_eq.
    pose proof (o_at _ _ _ _ _ Hs i p Hi) as Hr. rewrite Ep in Hr. destruct Hr as [-> _]. by eapply inv_removed.
  - eapply inv_semop; [done|done|exact E|by rewrite H4| |].
    + intros ->. eapply inv_goto; rewrite ?Ep; try done; [intros id' Eid; cbn in Eid; congruence|]. intros x r v0 v1 v2 Ex Ev Hs.
      pose proof (o_at _ _ _ _ _ Hs i p Hi) as Hr. by rewrite Ep in Hr.
    + intros r v0 v1 v2 Es Hs. assert (v2 = 1) as -> by (eapply lock_held; [done|done|by rewrite Ep]).
      rewrite H1. cbn [user holder Z.opp]. rewrite unlock_spec.
      apply (inv_done s i p id r v0 v1 1 v0 v1 0 Outside (units p)); rewrite ?Ep; try done; cbn; try lia; [apply Hs|by left].
Qed.

Lemma op_inv s i p id v slept s' : inv s -> procs s !! i = Some p -> at_pc p = InOp id v slept -> sem_op id v slept i s = Some s' -> inv s'.
Proof using Hk.
  intros I Hi Ep E. destruct (i_proc s I i p Hi) as [H1 H2 H3 H4]. rewrite Ep in *. destruct H3 as [Hv Hle]. unfold sem_op in E.
  rewrite (proj2 (Z.eqb_neq v 0)) in E by done. specialize (H4 id eq_refl). eapply inv_semop; [done|done|exact E|by rewrite H4| |].
  - intros ->. eapply inv_goto; rewrite ?Ep; try done. intros id' Eid. cbn in Eid. congruence.
  - intros r v0 v1 v2 Es Hs. destruct (count_range s id r v0 v1 v2 i p) as [-> Hv1]; [done..|by rewrite Ep|].
    pose proof (units_taken _ _ _ I Hi). pose proof Hs as [_ _ G3 [_ G4] _]. rewrite H1. cbn [user holder Z.opp]. rewrite op_spec by (try done; lia).
    destruct (Z.ltb_spec (v0 + v) 0); [done|].
    apply (inv_done s i p id true v0 v1 v2 (v0 + v) v1 v2 (Using id) (units p - v)); rewrite ?Ep; try done; cbn; try lia; [apply Hs|by right].
Qed.

Lemma sem_start n : Z.of_nat n <= BIGCOUNT -> inv (init n).
Proof.
  intros Hn. assert (forall f : proc -> Z, f (MkProc Outside no_adj) = 0 -> sum_by f (replicate n (MkProc Outside no_adj)) = 0) as Hz.
  { intros f Hf. apply sum_by_zero. intros x Hx. apply elem_of_replicate in Hx as [-> _]. done. }
  constructor; cbn [init procs sem]; [by rewrite length_replicate| |by repeat split; apply Hz].
  intros i p Hi. apply lookup_replicate in Hi as [-> _]. by constructor.
Qed.

Lemma step_keeps a s s' : inv s -> act' a s = Some s' -> inv s'.
Proof using Hk.
  intros I E. unfold act' in E. destruct (keeps a s) eqn:Hke; [|done]. destruct a as [i ch]. unfold keeps in Hke. cbn [fst snd] in Hke. unfold act in E.
  destruct (procs s !! i) as [p|] eqn:Hi; cbn [fmap option_fmap option_map] in *; [|done]. pose proof (i_proc s I i p Hi) as [H1 H2 H3 H4].
  destruct (at_pc p) as [|v c|o|id|id v slept|c|id|why] eqn:Ep; [..|done].
  all: destruct ch; try done; try (by eapply inv_exits); try (by destruct c).
  - apply Z.eqb_eq in Hke as ->. simplify_eq. by eapply inv_goto; rewrite ?Ep.
  - assert (sem_create key v true c i s = Some s') by (by destruct c). by eapply create_inv.
  - destruct c; try done. by eapply create_inv.
  - assert (exits i None s = Some s') by (by destruct c). by eapply inv_exits.
  - apply andb_true_iff in Hke as [Hz%negb_true_iff%Z.eqb_neq Hle%Z.leb_le]. simplify_eq. eapply inv_goto; rewrite ?Ep; try done.
  - simplify_eq. eapply inv_goto; rewrite ?Ep; try done.
  - by eapply op_inv.
  - by eapply close_inv.
Qed.

(** ** The last user removes the set

    While no process is killed, a set always has somebody who works on it. *)

Definition worked (a : pc) : option nat := match a with Creating _ (Lock id _) => Some id | _ => held a end.
Definition unlocking (a : pc) : bool := match a with Closing (CUnlock _ _) => true | _ => false end.
Definition pcs (s : st) : list pc := at_pc <$> procs s.
Definition live (s : st) : option nat := sid <$> sem s.

Inductive move (s s' : st) (a a' : pc) : Prop :=
| Removed : sem s' = None -> move s s' a a'
| New id : live s = None -> live s' = Some id -> worked a' = Some id -> unlocking a' = false -> user a' = 0 -> move s s' a a'
| Stay : live s' = live s -> (worked a = live s -> live s <> None -> worked a' = worked a) -> user a <= user a' ->
    (unlocking a' = true -> unlocking a = true \/ 1 <= users (procs s)) -> move s s' a a'
| Counted : live s' = live s -> worked a' = worked a -> unlocking a' = false -> holders (procs s) = 0 -> move s s' a a'
| Away : live s' = live s -> unlocking a = true -> user a' = 0 -> unlocking a' = false -> move s s' a a'.

Definition moved (i : nat) (a : pc) (s s' : st) : Prop := exists a', pcs s' = <[i := a']> (pcs s) /\ move s s' a a'.

Lemma pcs_goto i a s p : procs s !! i = Some p -> pcs (goto i a s) = <[i := a]> (pcs s).
Proof. intros Hi. rewrite (goto_put _ _ _ p) by done. unfold pcs. cbn [procs]. by rewrite list_fmap_insert. Qed.

Lemma goto_moved i a a' s p : procs s !! i = Some p -> (worked a = live s -> live s <> None -> worked a' = worked a) -> user a <= user a' ->
  (unlocking a' = true -> unlocking a = true \/ 1 <= users (procs s)) -> moved i a s (goto i a' s).
Proof. intros Hi Hw Hu Hn. exists a'. split; [by eapply pcs_goto|by apply Stay]. Qed.

Lemma semop_moved i p id ops slept waiting next failed s s' : inv s -> procs s !! i = Some p ->
  semop i id ops slept waiting next failed s = Some s' ->
  (live s <> Some id -> failed (if slept then EIDRM else EINVAL) s = Some s' -> moved i (at_pc p) s s') ->
  moved i (at_pc p) s (goto i waiting s) ->
  (forall ready v0 v1 v2, sem s = Some (MkSet id [v0; v1; v2]) -> set_ok ready v0 v1 v2 (procs s) ->
     match semop_all ops [v0; v1; v2] (adj p) with
     | Done v _ => forall s', live s' = live s -> move s s' (at_pc p) next
     | Sleep => True
     | Failed _ => False
     end) -> moved i (at_pc p) s s'.
Proof.
  intros I Hi E Hf Hw Hd. unfold semop in E. rewrite Hi in E. pose proof (i_set s I) as Hs. destruct (sem s) as [[id' v]|] eqn:Es; [|apply Hf; [unfold live; by rewrite Es|done]].
  destruct (decide (id' = id)) as [->|Hne]; [|apply Hf; [unfold live; rewrite Es; cbn; congruence|done]].
  destruct Hs as (r & v0 & v1 & v2 & Ev & Hs). cbn in Ev. subst v. specialize (Hd r v0 v1 v2 eq_refl Hs).
  destruct (semop_all ops [v0; v1; v2] (adj p)) as [v' a| |]; [|destruct slept; by simplify_eq|done]. simplify_eq. exists next. split.
  - unfold pcs. cbn [procs]. by rewrite list_fmap_insert.
  - apply Hd. unfold live. cbn. by rewrite Es.
Qed.

Lemma create_moved s i p v ok c s' : inv s -> procs s !! i = Some p -> at_pc p = Creating v c -> sem_create key v ok c i s = Some s' -> moved i (at_pc p) s s'.
Proof using Hk.
  intros I Hi Ep E. destruct (i_proc s I i p Hi) as [H1 H2 H3 H4]. rewrite Ep in H1, H3, H4. cbn in H3. subst v. destruct c as [|id slept|id|id|id|id slept]; cbn [sem_create] in E.
  - destruct (_ || _); [simplify_eq; eapply goto_moved; rewrite ?Ep; try done; by cbn|]. destruct ok; cbn [negb] in E; [|simplify_eq; eapply goto_moved; rewrite ?Ep; try done; by cbn].
    unfold semget_creat in E. destruct (sem s) as [x|] eqn:Es; simplify_eq.
    + eapply goto_moved; rewrite ?Ep; try done.
    + eexists. split; [exact (pcs_goto i _ (MkSt _ _ (procs s)) p Hi)|]. rewrite Ep. eapply New; unfold live; rewrite ?Es; done.
  - eapply semop_moved; [done|done|exact E|..]; rewrite Ep.
    + intros Hl. destruct slept; intros Ex.
      * unfold err_sys, exits in Ex. rewrite Hi in Ex. simplify_eq. eexists. split; [unfold pcs; cbn [procs]; by rewrite list_fmap_insert|].
        apply Stay; try done. unfold live; cbn; by destruct (sem s).
      * simplify_eq. by eapply goto_moved.
    + by eapply goto_moved.
    + intros r v0 v1 v2 Es Hs. rewrite H1. cbn [user holder Z.opp]. rewrite lock_spec. destruct (v2 =? 0); [|done]. intros s1 Hl. by apply Stay.
  - specialize (H4 id eq_refl). apply getval_live in E as (r & v0 & v1 & v2 & Es & Hs & E); [|done..]. simplify_eq.
    eapply goto_moved; rewrite ?Ep; try done; by destruct (_ =? _).
  - specialize (H4 id eq_refl). destruct (live_set s id I H4) as (r & v0 & v1 & v2 & Es & Hs). pose proof (o_at _ _ _ _ _ Hs i p Hi) as Hr. rewrite Ep in Hr. cbn in Hr. subst r.
    eapply setval_live in E; [|done..|lia|done]. simplify_eq. eexists. split; [exact (pcs_goto i _ (MkSt _ _ (procs s)) p Hi)|]. rewrite Ep. apply Stay; try done; unfold live; by rewrite ?Es.
  - specialize (H4 id eq_refl). destruct (live_set s id I H4) as (r & v0 & v1 & v2 & Es & Hs). pose proof (o_at _ _ _ _ _ Hs i p Hi) as Hr. rewrite Ep in Hr. cbn in Hr. destruct Hr as [-> ->].
    eapply setval_live in E; [|done..|lia|done]. simplify_eq. eexists. split; [exact (pcs_goto i _ (MkSt _ _ (procs s)) p Hi)|]. rewrite Ep. apply Stay; try done; unfold live; by rewrite ?Es.
  - specialize (H4 id eq_refl). eapply semop_moved; [done|done|exact E|..]; rewrite Ep.
    + by intros [].
    + by eapply goto_moved.
    + intros r v0 v1 v2 Es Hs. pose proof (o_at _ _ _ _ _ Hs i p Hi) as Hr. rewrite Ep in Hr. cbn in Hr. subst r.
      assert (v2 = 1) as -> by (eapply lock_held; [done|done|by rewrite Ep]). pose proof Hs as [G1 G2 G3 [G4 G5] G6].
      pose proof (users_fewer _ _ _ Hi ltac:(by rewrite Ep)). pose proof (users_nonneg (procs s)). pose proof (i_len s I).
      rewrite H1. cbn [user holder Z.opp]. rewrite endcreate_spec by lia. intros s1 Hl. by apply Stay.
Qed.

Lemma close_moved s i p c s' : inv s -> procs s !! i = Some p -> at_pc p = Closing c -> sem_close c i s = Some s' -> moved i (at_pc p) s s'.
Proof using Hk.
  intros I Hi Ep E. destruct (i_proc s I i p Hi) as [H1 H2 H3 H4]. rewrite Ep in H1, H3, H4. destruct c as [id slept|id|id|id slept]; cbn [sem_close] in E; specialize (H4 id eq_refl).
  - eapply semop_moved; [done|done|exact E|..]; rewrite Ep; [by intros []|by eapply goto_moved|].
    intros r v0 v1 v2 Es Hs. destruct (count_range s id r v0 v1 v2 i p) as [-> Hv1]; [done..|by rewrite Ep|].
    rewrite H1. cbn [user holder Z.opp]. rewrite close_spec by done. destruct (Z.eqb_spec v2 0) as [->|]; [|done]. intros s1 Hl. apply Counted; try done. by rewrite (o_lock _ _ _ _ _ Hs).
  - apply getval_live in E as (r & v0 & v1 & v2 & Es & Hs & E); [|done..].
    pose proof (o_at _ _ _ _ _ Hs i p Hi) as Hr. rewrite Ep in Hr. cbn in Hr. subst r. destruct (o_count _ _ _ _ _ Hs) as [Hv1 _].
    pose proof (users_nonneg (procs s)). rewrite (proj2 (Z.ltb_ge BIGCOUNT v1)) in E by lia. simplify_eq.
    eapply goto_moved; rewrite ?Ep; [done|by destruct (_ =? _)..|].
    destruct (Z.eqb_spec (BIGCOUNT - users (procs s)) BIGCOUNT); [done|]. intros _. right. lia.
  - unfold sem_rm, ipc_rmid in E. destruct (live_set s id I H4) as (r & v0 & v1 & v2 & Es & Hs). rewrite Es, decide_True in E by done. simplify_eq.
    exists Outside. split; [|by apply Removed]. erewrite pcs_goto by (cbn [procs]; by rewrite list_lookup_fmap, Hi). unfold pcs. cbn [procs]. f_equal. by rewrite <- list_fmap_compose.
  - eapply semop_moved; [done|done|exact E|..]; rewrite Ep; [by intros []|by eapply goto_moved; try done; left|].
    intros r v0 v1 v2 Es Hs. assert (v2 = 1) as -> by (eapply lock_held; [done|done|by rewrite Ep]).
    rewrite H1. cbn [user holder Z.opp]. rewrite unlock_spec. intros s1 Hl. by apply Away.
Qed.

Lemma op_moved s i p id v slept s' : inv s -> procs s !! i = Some p -> at_pc p = InOp id v slept -> sem_op id v slept i s = Some s' -> moved i (at_pc p) s s'.
Proof using Hk.
  intros I Hi Ep E. destruct (i_proc s I i p Hi) as [H1 H2 H3 H4]. rewrite Ep in H1, H3, H4. destruct H3 as [Hv Hle]. unfold sem_op in E.
  rewrite (proj2 (Z.eqb_neq v 0)) in E by done. specialize (H4 id eq_refl). eapply semop_moved; [done|done|exact E|..]; rewrite Ep; [by intros []|by eapply goto_moved|].
  intros r v0 v1 v2 Es Hs. destruct (count_range s id r v0 v1 v2 i p) as [-> Hv1]; [done..|by rewrite Ep|].
  pose proof (units_taken _ _ _ I Hi). pose proof Hs as [_ _ G3 [_ G4] _]. rewrite H1. cbn [user holder Z.opp]. rewrite op_spec by (try done; lia).
  destruct (v0 + v <? 0); [done|]. intros s1 Hl. by apply Stay.
Qed.

Definition alive (a : nat * choice) (s : st) : bool := match snd a with Die => false | _ => true end.
Definition act'' (a : nat * choice) (s : st) : option st := if alive a s then act' a s else None.

Lemma step_moved a s s' : inv s -> act'' a s = Some s' -> exists p, procs s !! fst a = Some p /\ moved (fst a) (at_pc p) s s'.
Proof using Hk.
  intros I E. unfold act'', act' in E. destruct (alive a s) eqn:Ha; [|done]. destruct (keeps a s) eqn:Hke; [|done]. destruct a as [i ch]. unfold keeps in Hke. cbn [fst snd] in *. unfold act in E.
  destruct (procs s !! i) as [p|] eqn:Hi; cbn [fmap option_fmap option_map] in *; [|done]. pose proof (i_proc s I i p Hi) as [H1 H2 H3 H4]. exists p. split; [done|].
  destruct (at_pc p) as [|v c|o|id|id v slept|c|id|why] eqn:Ep; [..|done]; rewrite <- Ep.
  all: destruct ch; try done; try (by destruct c); try (simplify_eq; eapply goto_moved; rewrite ?Ep; done).
  - assert (sem_create key v true c i s = Some s') by (by destruct c). by eapply create_moved.
  - destruct c; try done. by eapply create_moved.
  - by eapply op_moved.
  - by eapply close_moved.
Qed.

Record quiet (s : st) : Prop := MkQuiet {
  q_inv : inv s;
  q_work : forall id, live s = Some id -> exists i a, pcs s !! i = Some a /\ worked a = Some id;
  q_unlock : forall i a, pcs s !! i = Some a -> unlocking a = true -> 1 <= users (procs s)
}.

Lemma pcs_lookup s i a : pcs s !! i = Some a -> exists p, procs s !! i = Some p /\ at_pc p = a.
Proof. unfold pcs. rewrite list_lookup_fmap. destruct (procs s !! i) as [p|]; [|done]. cbn. intros [= <-]. by exists p. Qed.

Lemma held_live s i a : inv s -> pcs s !! i = Some a -> held a <> None -> held a = live s.
Proof. intros I (p & Hi & <-)%pcs_lookup Hh. destruct (held (at_pc p)) as [id|] eqn:E; [|done]. symmetry. by apply (i_proc s I i p Hi). Qed.

Lemma unlocking_holds a : unlocking a = true -> held a <> None /\ holder a = 1 /\ user a = 0.
Proof. destruct a as [|? []|[]|?|? ? ?|[]|?|?]; done. Qed.

Lemma users_pcs s : users (procs s) = sum_by user (pcs s).
Proof. unfold pcs, users. by rewrite sum_by_fmap. Qed.

Lemma step_quiet a s s' : quiet s -> act'' a s = Some s' -> quiet s'.
Proof using Hk.
  intros [I Hw Hu] E. pose proof E as E'. unfold act'' in E'. destruct (alive a s); [|done].
  assert (inv s') as I' by (by eapply step_keeps). clear E'. apply step_moved in E as (p & Hi & a' & Ep & M); [|done]. set (i := fst a) in *. clearbody i.
  assert (pcs s !! i = Some (at_pc p)) as Hpi by (unfold pcs; by rewrite list_lookup_fmap, Hi).
  assert (users (procs s') = users (procs s) - user (at_pc p) + user a') as Eu by (rewrite !users_pcs, Ep; by apply sum_by_insert).
  assert (Hsplit : forall j b, pcs s' !! j = Some b -> (j = i /\ b = a') \/ (j <> i /\ pcs s !! j = Some b)).
  { intros j b Hj. rewrite Ep in Hj. destruct (decide (j = i)) as [->|Hji]; [left|right; by rewrite list_lookup_insert_ne in Hj].
    rewrite list_lookup_insert_eq in Hj by (by eapply lookup_lt_Some). by simplify_eq. }
  assert (Hsame : pcs s' !! i = Some a') by (rewrite Ep; apply list_lookup_insert_eq; by eapply lookup_lt_Some).
  assert (Hother : forall j b, j <> i -> pcs s !! j = Some b -> pcs s' !! j = Some b) by (intros j b Hji Hj; by rewrite Ep, list_lookup_insert_ne).
  destruct M as [Hn|id Hl Hl' Hw' Hn Hu'|Hl Hkeep Hle Hn|Hl Hkeep Hn H0|Hl Hn Hu' Hn']; constructor; try done.
  - intros id Hid. unfold live in Hid. by rewrite Hn in Hid.
  - intros j b Hj Hb. destruct (unlocking_holds _ Hb) as (Hh & _). rewrite (held_live s' j b) in Hh by done. unfold live in Hh. by rewrite Hn in Hh.
  - intros id' Hid. exists i, a'. split; [done|congruence].
  - intros j b Hj Hb. destruct (Hsplit j b Hj) as [[-> ->]|[Hji Hj']]; [congruence|]. destruct (unlocking_holds _ Hb) as (Hh & _). by rewrite (held_live s j b), Hl in Hh.
  - intros id Hid. rewrite Hl in Hid. destruct (Hw id Hid) as (j & b & Hj & Hb). destruct (decide (j = i)) as [->|Hji]; [|exists j, b; auto].
    simplify_eq. exists i, a'. split; [done|]. rewrite Hkeep; congruence.
  - intros j b Hj Hb. destruct (Hsplit j b Hj) as [[-> ->]|[Hji Hj']]; [destruct (Hn Hb) as [Ha|]; [specialize (Hu i _ Hpi Ha)|]|specialize (Hu j b Hj' Hb)]; lia.
  - intros id Hid. rewrite Hl in Hid. destruct (Hw id Hid) as (j & b & Hj & Hb). destruct (decide (j = i)) as [->|Hji]; [|exists j, b; auto].
    simplify_eq. exists i, a'. split; [done|congruence].
  - intros j b Hj Hb. destruct (Hsplit j b Hj) as [[-> ->]|[Hji Hj']]; [congruence|]. destruct (unlocking_holds _ Hb) as (_ & Hh & _).
    apply pcs_lookup in Hj' as (q & Hq & <-). pose proof (holders_ge _ _ _ Hq). lia.
  - intros id Hid. rewrite Hl in Hid. pose proof (Hu i _ Hpi Hn) as H1. rewrite users_pcs in H1. destruct (sum_by_pos user (pcs s)) as (j & b & Hj & Hb); [lia|].
    destruct (unlocking_holds _ Hn) as (_ & _ & H0). assert (j <> i) by (intros ->; simplify_eq; lia).
    exists j, b. split; [by apply Hother|]. assert (held b <> None) as Hh by (intros Hh; destruct (held_counts b Hh); lia).
    rewrite <- (held_live s j b I Hj Hh) in Hid. by destruct b as [|? []|[]|?|? ? ?|[]|?|?].
  - intros j b Hj Hb. destruct (Hsplit j b Hj) as [[-> ->]|[Hji Hj']]; [congruence|]. specialize (Hu j b Hj' Hb). destruct (unlocking_holds _ Hn) as (_ & _ & H0). lia.
Qed.

(** C21. Whatever up to 10000 processes do that create the semaphore with the same value, use it, close
    it or are killed, a process that uses the semaphore or has its lock has the set that is there, which
    counts its users; one process has the lock at a time; and no call fails, except that of a
    creator that was asleep when the set was removed. *)
Theorem set_stays_in_use n s : Z.of_nat n <= BIGCOUNT -> reach act' (init n) s ->
  (forall i p, procs s !! i = Some p -> held (at_pc p) <> None ->
     exists v0 v1 v2, sem s = (fun id => MkSet id [v0; v1; v2]) <$> held (at_pc p) /\ (user (at_pc p) = 1 -> v1 = BIGCOUNT - users (procs s))) /\
  (forall i j p q, procs s !! i = Some p -> procs s !! j = Some q -> holder (at_pc p) = 1 -> holder (at_pc q) = 1 -> i = j) /\
  (forall i p msg e, procs s !! i = Some p -> at_pc p = Exited (Some (msg, e)) -> msg = "can't lock"%string /\ e = EIDRM).
Proof using Hk.
  intros Hn H. assert (inv s) as I by (revert s H; apply reach_inv; [by apply sem_start|intros a s1 s2; apply step_keeps]).
  split; [|split].
  - intros i p Hi Hh. destruct (held (at_pc p)) as [id|] eqn:Eh; [|done]. pose proof (p_held _ _ (i_proc s I i p Hi) _ Eh) as Hl.
    destruct (live_set s id I Hl) as (r & v0 & v1 & v2 & Es & Hs). exists v0, v1, v2. split; [by rewrite Es|]. intros Hu.
    destruct (count_range s id r v0 v1 v2 i p) as [-> _]; [done..|]. by destruct (o_count _ _ _ _ _ Hs).
  - intros i j p q Hi Hj Hp Hq. destruct (held (at_pc p)) as [id|] eqn:Eh; [|by destruct (held_counts _ Eh); lia].
    destruct (live_set s id I (p_held _ _ (i_proc s I i p Hi) _ Eh)) as (r & v0 & v1 & v2 & Es & Hs). by eapply sole_holder.
  - intros i p msg e Hi Ep. pose proof (p_pc _ _ (i_proc s I i p Hi)) as Hpc. by rewrite Ep in Hpc.
Qed.

(** C29. The processes never have more than the initial value between them, killed ones included: their
    units come back; and the value of the semaphore in use is what they have left of it. *)
Theorem units_come_back n s : Z.of_nat n <= BIGCOUNT -> reach act' (init n) s ->
  (forall i p, procs s !! i = Some p -> 0 <= units p) /\ taken (procs s) <= k /\
  (forall i p x, procs s !! i = Some p -> user (at_pc p) = 1 -> sem s = Some x -> vals x !! 0%nat = Some (k - taken (procs s))).
Proof using Hk.
  intros Hn H. assert (inv s) as I by (revert s H; apply reach_inv; [by apply sem_start|intros a s1 s2; apply step_keeps]).
  split; [intros i p Hi; apply (i_proc s I i p Hi)|split].
  - pose proof (i_set s I) as Hs. destruct (sem s) as [x|]; [|lia]. destruct Hs as (r & v0 & v1 & v2 & _ & [_ _ G3 G4 _]). destruct r; lia.
  - intros i p x Hi Hu Ex. pose proof (i_set s I) as Hs. rewrite Ex in Hs. destruct Hs as (r & v0 & v1 & v2 & Ev & Hs). rewrite Ev.
    destruct x as [id v]. cbn in Ev. subst v. destruct (count_range s id r v0 v1 v2 i p) as [-> _]; [done..|]. destruct (o_count _ _ _ _ _ Hs) as [_ ->]. done.
Qed.

(** When no process is killed, the set is gone once no process works on it. *)
Theorem last_user_removes n s : Z.of_nat n <= BIGCOUNT -> reach act'' (init n) s ->
  (forall i p, procs s !! i = Some p -> worked (at_pc p) = None) -> sem s = None.
Proof using Hk.
  intros Hn H Hw. assert (quiet s) as Q.
  { revert s H Hw. intros s H _. revert s H. apply reach_inv; [|intros a s1 s2; apply step_quiet]. constructor; [by apply sem_start|done|].
    intros i a (p & Hi & <-)%pcs_lookup. apply lookup_replicate in Hi as [-> _]. done. }
  destruct (sem s) as [x|] eqn:Es; [|done]. destruct (q_work s Q (sid x)) as (i & a & Hi & Ha); [unfold live; by rewrite Es|].
  apply pcs_lookup in Hi as (p & Hi & <-). by rewrite (Hw i p Hi) in Ha.
Qed.
End Inv.

(** ** Two races

    A creator that waits for the lock of the last user gets [EIDRM], which [sem_create] does not
    look for. *)

Definition run (key : Z) (n : nat) (l : list (nat * choice)) : option st := exec (act key) l (init n).
Definition go (i : nat) (k : nat) : list (nat * choice) := replicate k (i, Go).
Definition opened (i : nat) : list (nat * choice) := (i, Create 1) :: go i 6.

Lemma last_close_kills_creator :
  exists s, run 5 2 (opened 0 ++ [(0, Close)] ++ go 0 1 ++ [(1, Create 1)] ++ go 1 2 ++ go 0 2 ++ go 1 1)%nat = Some s /\
    procs s = [MkProc Outside no_adj; MkProc (Exited (Some ("can't lock"%string, EIDRM))) no_adj] /\ sem s = None.
Proof. eexists. split; [vm_compute; reflexivity|]. done. Qed.

Lemma open_races_with_close :
  exists s, run 5 2 (opened 0 ++ [(0, Close)] ++ go 0 2 ++ [(1, Open)] ++ go 1 2 ++ go 0 1 ++ [(1, Op (-1))] ++ go 1 1)%nat = Some s /\
    procs s = [MkProc Outside no_adj; MkProc (Exited (Some ("sem_op error"%string, EINVAL))) no_adj].
Proof. eexists. split; [vm_compute; reflexivity|]. done. Qed.

(** ** Small runs: one takes the unit and is killed while the other waits; one comes and goes *)

Definition state (n : nat) (l : list (nat * choice)) : st := default (init n) (exec (act' 5 1) l (init n)).
Definition killed : list (nat * choice) :=
  opened 0 ++ [(0%nat, Op (-1))] ++ go 0 1 ++ [(1%nat, Create 1)] ++ go 1 4 ++ [(1%nat, Op (-1))] ++ go 1 1 ++ [(0%nat, Die)] ++ go 1 1.
Definition one_user : list (nat * choice) := opened 0 ++ [(0%nat, Close)] ++ go 0 3.

Lemma killed_reached : reach (act' 5 1) (init 2) (state 2 killed).
Proof. exists killed. vm_compute. reflexivity. Qed.
Lemma one_user_reached : reach (act'' 5 1) (init 1) (state 1 one_user).
Proof. exists one_user. vm_compute. reflexivity. Qed.

Lemma set_stays_in_use_witness : procs (state 2 killed) !! 1%nat = Some (MkProc (Using 0) [1; 1; 0]) /\
  exists v0 v2, sem (state 2 killed) = Some (MkSet 0 [v0; 9999; v2]).
Proof.
  assert (procs (state 2 killed) !! 1%nat = Some (MkProc (Using 0) [1; 1; 0])) as E by (vm_compute; reflexivity). split; [exact E|].
  destruct (set_stays_in_use 5 1 ltac:(unfold SEMVMX; lia) 2 _ ltac:(unfold BIGCOUNT; lia) killed_reached) as [H _].
  destruct (H 1%nat _ E ltac:(discriminate)) as (v0 & v1 & v2 & Es & Hv). exists v0, v2. rewrite Es, (Hv eq_refl). vm_compute. reflexivity.
Defined.

Lemma units_come_back_witness : at_pc <$> procs (state 2 killed) = [Exited None; Using 0] /\ taken (procs (state 2 killed)) <= 1.
Proof.
  split; [vm_compute; reflexivity|].
  apply (units_come_back 5 1 ltac:(unfold SEMVMX; lia) 2 _ ltac:(unfold BIGCOUNT; lia) killed_reached).
Defined.

Lemma last_user_removes_witness : sem (state 1 one_user) = None.
Proof.
  apply (last_user_removes 5 1 ltac:(unfold SEMVMX; lia) 1 _ ltac:(unfold BIGCOUNT; lia) one_user_reached).
  intros [|i] p Hi; vm_compute in Hi; [by simplify_eq|destruct i; done].
Defined.
