(* ===== verification/ReadLine.v ===== *)
(** * tlpi sockets/read_line.c and read_line_buf.c: lines from a descriptor

    [readLine] reads one byte per call of [read]; [readLineBuf] keeps a buffer of ten between its
    calls.  A descriptor is the list of what its calls of [read] have to give: bytes that are there
    together, of which a call takes as many as it asks for, or an error; an empty chunk is an end
    of file, and so is the end of the list.  Buffers are lists of bytes of the size of their block. *)

From S2P Require Import Prelude.
Local Open Scope Z_scope.
Local Open Scope c_scope.

Definition EINTR : Z := 4.
Definition EINVAL : Z := 22.
Definition RL_MAX_BUF : nat := 10.

Inductive event := Chunk (bytes : list Z) | Fault (e : Z).
Inductive got := Got (bytes : list Z) | Fail (e : Z).

Definition read (n : nat) (s : list event) : got * list event :=
  match s with
  | [] => (Got [], [])
  | Fault e :: s => (Fail e, s)
  | Chunk b :: s => (Got (take n b), match drop n b with [] => s | b => Chunk b :: s end)
  end.

(** [buffer[i] = c] *)
Definition put (buffer : list Z) (i : nat) (c : Z) : res (list Z) :=
  if (i <? length buffer)%nat then Ok (<[i := c]> buffer) else Undef OutOfBounds.

(** ** [readLine]

    The result is the count, or [errno] with -1. *)
Definition answer : Type := nat + Z.

Fixpoint readLine_loop (fuel n : nat) (buffer : list Z) (totRead : nat) (s : list event) : res (answer * list Z * list event) :=
  match fuel with
  | O => NoFuel
  | S fuel =>
      match read 1 s with
      | (Fail e, s) => if e =? EINTR then readLine_loop fuel n buffer totRead s else Ok (inr e, buffer, s)
      | (Got [], s) =>
          if (totRead =? 0)%nat then Ok (inl 0%nat, buffer, s)
          else let* buffer := put buffer totRead 0 in Ok (inl totRead, buffer, s)
      | (Got (ch :: _), s) =>
          let* bt := (if (totRead <? n - 1)%nat then let* buffer := put buffer totRead ch in Ok (buffer, S totRead) else Ok (buffer, totRead)) in
          let '(buffer, totRead) := bt in
          if ch =? 10 then let* buffer := put buffer totRead 0 in Ok (inl totRead, buffer, s)
          else readLine_loop fuel n buffer totRead s
      end
  end.

(** A bound on the reads that a stream answers before its end. *)
Definition size (s : list event) : nat := sum_list_with (fun e => match e with Chunk b => S (length b) | Fault _ => 1%nat end) s.

(** [buffer] is [None] for a null pointer. *)
Definition readLine (buffer : option (list Z)) (n : nat) (s : list event) : res (answer * list Z * list event) :=
  match buffer with
  | None => Ok (inr EINVAL, [], s)
  | Some buffer => if (n =? 0)%nat then Ok (inr EINVAL, buffer, s) else readLine_loop (S (size s)) n buffer 0 s
  end.

(** ** [readLineBuf] *)

Record ReadLineBuf := MkRl { buf : list Z; next : nat; len : Z }.

(** The bytes of [buf] are those of the block before. *)
Definition readLineBufInit (block : list Z) : ReadLineBuf := MkRl block 0 0.

Definition buf_answer : Type := answer * list Z * ReadLineBuf * list event.

(** The body of the loop after the buffer has something; [again] is the next turn. *)
Definition readLineBuf_turn (again : list Z -> nat -> ReadLineBuf -> list event -> res buf_answer) (n : nat) (buffer : list Z) (cnt : nat) (rl : ReadLineBuf) (s : list event) : res buf_answer :=
  match buf rl !! next rl with
  | None => Undef OutOfBounds
  | Some c =>
      let rl := MkRl (buf rl) (S (next rl)) (len rl) in
      let* bc := (if (cnt <? n)%nat then let* buffer := put buffer cnt c in Ok (buffer, S cnt) else Ok (buffer, cnt)) in
      let '(buffer, cnt) := bc in
      if c =? 10 then Ok (inl cnt, buffer, rl, s) else again buffer cnt rl s
  end.

Fixpoint readLineBuf_loop (fuel n : nat) (buffer : list Z) (cnt : nat) (rl : ReadLineBuf) (s : list event) : res buf_answer :=
  match fuel with
  | O => NoFuel
  | S fuel =>
      if len rl <=? Z.of_nat (next rl) then
        match read RL_MAX_BUF s with
        | (Fail e, s) => Ok (inr e, buffer, MkRl (buf rl) (next rl) (-1), s)
        | (Got [], s) => Ok (inl cnt, buffer, MkRl (buf rl) (next rl) 0, s)
        | (Got b, s) => readLineBuf_turn (readLineBuf_loop fuel n) n buffer cnt (MkRl (b ++ drop (length b) (buf rl)) 0 (Z.of_nat (length b))) s
        end
      else readLineBuf_turn (readLineBuf_loop fuel n) n buffer cnt rl s
  end.

(** What was read and not yet given out. *)
Definition pending (rl : ReadLineBuf) : list Z := take (Z.to_nat (len rl) - next rl) (drop (next rl) (buf rl)).

Definition readLineBuf (rl : ReadLineBuf) (buffer : option (list Z)) (n : nat) (s : list event) : res buf_answer :=
  match buffer with
  | None => Ok (inr EINVAL, [], rl, s)
  | Some buffer => if (n =? 0)%nat then Ok (inr EINVAL, buffer, rl, s) else readLineBuf_loop (S (length (pending rl) + size s)) n buffer 0 rl s
  end.

(** ** What a line is *)

Fixpoint first_line (l : list Z) : list Z * list Z :=
  match l with
  | [] => ([], [])
  | c :: l => if c =? 10 then ([c], l) else let '(a, b) := first_line l in (c :: a, b)
  end.

Definition content (s : list event) : list Z := concat ((fun e => match e with Chunk b => b | Fault _ => [] end) <$> s).

(** No error but interruptions, no end of file before the last; and no interruptions either. *)
Definition clean (s : list event) : Prop := Forall (fun e => match e with Chunk b => b <> [] | Fault e => e = EINTR end) s.
Definition steady (s : list event) : Prop := Forall (fun e => match e with Chunk b => b <> [] | Fault _ => False end) s.

Lemma first_line_app l : fst (first_line l) ++ snd (first_line l) = l.
Proof. induction l as [|c l IH]; [done|]. cbn. destruct (c =? 10); [done|]. destruct (first_line l). cbn in *. by rewrite IH. Qed.

Lemma put_in buffer i c : (i < length buffer)%nat -> put buffer i c = Ok (<[i := c]> buffer).
Proof. intros H. unfold put. by rewrite (proj2 (Nat.ltb_lt _ _)). Qed.

Lemma take_insert_snoc (l : list Z) i c : (i < length l)%nat -> take (S i) (<[i := c]> l) = take i l ++ [c].
Proof. intros H. rewrite (take_S_r _ _ c) by (by apply list_lookup_insert_eq). by rewrite take_insert_ge by lia. Qed.

Lemma size_chunk b s : size (Chunk b :: s) = (S (length b) + size s)%nat.
Proof. done. Qed.
Lemma size_fault e s : size (Fault e :: s) = S (size s).
Proof. done. Qed.

(** What a read of a clean stream gives. *)
Lemma read_clean n s : (0 < n)%nat -> clean s ->
  match read n s with
  | (Fail e, s') => e = EINTR /\ clean s' /\ content s' = content s /\ (size s' < size s)%nat
  | (Got [], s') => s = [] /\ s' = []
  | (Got b, s') => clean s' /\ b ++ content s' = content s /\ (length b + size s' <= size s)%nat /\ (length b <= n)%nat /\ (steady s -> steady s')
  end.
Proof.
  intros Hn Hs. destruct s as [|[b|e] s]; [done| |].
  - inversion_clear Hs as [|? ? Hb Hs']. cbn [read]. destruct b as [|c b]; [done|]. destruct n as [|n]; [lia|]. cbn [take drop].
    pose proof (take_drop n b) as Hb'. pose proof (length_take b n) as H. destruct (drop n b) as [|d b'] eqn:E.
    + rewrite app_nil_r in Hb'. rewrite Hb' in *. repeat split; [done|rewrite size_chunk; cbn; lia|cbn; lia|by inversion 1].
    + assert (length b = length (take n b) + S (length b'))%nat as El by (rewrite <- Hb' at 1; by rewrite length_app).
      repeat split; [by constructor| |rewrite !size_chunk; cbn; lia|cbn; lia|inversion 1; by constructor].
      unfold content. cbn. rewrite <- Hb' at 2. by rewrite <- app_assoc.
  - inversion_clear Hs as [|? ? He Hs']. cbn [read]. repeat split; [done|done|rewrite size_fault; lia].
Qed.

(** ** The two functions read lines *)

Lemma take_snoc_insert (a : list Z) i c (l b : list Z) : (i < length a)%nat -> take (S i + length l) b = take (S i) (<[i := c]> a) ++ l ->
  take (i + length (c :: l)) b = take i a ++ c :: l.
Proof. intros Hi E. rewrite take_insert_snoc in E by done. cbn [length]. rewrite <- plus_n_Sm. cbn in E. by rewrite E, <- app_assoc. Qed.

Lemma end_line buffer t : (t < length buffer)%nat -> exists buffer', put buffer t 0 = Ok buffer' /\ length buffer' = length buffer /\
  take t buffer' = take t buffer /\ buffer' !! t = Some 0.
Proof.
  intros H. exists (<[t := 0]> buffer). rewrite put_in by done. rewrite length_insert, take_insert_ge by lia.
  by rewrite list_lookup_insert_eq.
Qed.

Lemma readLine_loop_spec fuel n : forall buffer t s, clean s -> (size s < fuel)%nat -> (t < n <= length buffer)%nat ->
  let l := take (n - 1 - t) (fst (first_line (content s))) in
  exists buffer' s', readLine_loop fuel n buffer t s = Ok (inl (t + length l)%nat, buffer', s') /\ length buffer' = length buffer /\
    take (t + length l) buffer' = take t buffer ++ l /\ ((0 < t + length l)%nat -> buffer' !! (t + length l)%nat = Some 0) /\
    clean s' /\ content s' = snd (first_line (content s)).
Proof.
  induction fuel as [|fuel IH]; intros buffer t s Hs Hf Ht; [lia|]. cbn [readLine_loop].
  pose proof (read_clean 1 s ltac:(lia) Hs) as Hr. destruct (read 1 s) as [[b|e] s'].
  - destruct b as [|c b].
    + destruct Hr as [-> ->]. cbn. rewrite take_nil. cbn. rewrite Nat.add_0_r, app_nil_r.
      destruct (Nat.eqb_spec t 0) as [->|Hz]; [exists buffer, []; repeat split; [done..|lia|done]|].
      destruct (end_line buffer t ltac:(lia)) as (b' & E & H1 & H2 & H3). rewrite E. by exists b', [].
    + destruct Hr as (Hs' & Ec & Hsz & Hl & _). destruct b as [|d b]; [|cbn in Hl; lia]. rewrite <- Ec. cbn [app first_line].
      cbn [length] in Hsz.
      destruct (Nat.ltb_spec t (n - 1)) as [Hlt|Hge].
      * rewrite put_in by lia. cbn [rbind]. destruct (Z.eqb_spec c 10) as [->|Hc].
        -- cbn [fst snd]. rewrite take_ge by (cbn; lia). cbn [length].
           destruct (end_line (<[t := 10]> buffer) (S t)) as (b' & E & H1 & H2 & H3); [rewrite length_insert; lia|].
           rewrite E. cbn [rbind]. rewrite Nat.add_1_r. exists b', s'. rewrite length_insert in H1.
           repeat split; try done. rewrite H2. by apply take_insert_snoc; lia.
        -- destruct (first_line (content s')) as [a r] eqn:Ea. cbn [fst snd].
           destruct (IH (<[t := c]> buffer) (S t) s') as (b' & s2 & E & H1 & H2 & H3 & H4 & H5); [done|lia|rewrite length_insert; lia|].
           rewrite Ea in *. cbn [fst snd] in *. destruct (n - 1 - t)%nat as [|m] eqn:Em; [lia|]. replace (n - 1 - S t)%nat with m in * by lia.
           cbn [take length]. rewrite <- plus_n_Sm in *. rewrite length_insert in *. exists b', s2. repeat split; try done.
           rewrite plus_n_Sm. apply (take_snoc_insert buffer t c (take m a) b'); [lia|done].
      * cbn [rbind]. assert (n - 1 - t = 0)%nat as Em by lia. rewrite Em. cbn [take length]. rewrite Nat.add_0_r, app_nil_r.
        destruct (Z.eqb_spec c 10) as [->|Hc].
        -- destruct (end_line buffer t ltac:(lia)) as (b' & E & H1 & H2 & H3). rewrite E. by exists b', s'.
        -- destruct (first_line (content s')) as [a r] eqn:Ea. destruct (IH buffer t s') as (b' & s2 & E & H); [done|lia|lia|].
           rewrite Ea, Em in *. cbn [fst snd take length] in *. rewrite Nat.add_0_r, app_nil_r in *. exists b', s2. by split.
  - destruct Hr as (-> & Hs' & Ec & Hsz). rewrite Z.eqb_refl. rewrite <- Ec. by apply IH; [|lia|].
Qed.

(** On any stream a call returns; a count above 0 is the index of a NUL. *)
Definition nul_at (buffer : list Z) (a : answer) : Prop := match a with inl (S c) => buffer !! S c = Some 0 | _ => True end.

Lemma read_size s : match read 1 s with
  | (Fail _, s') | (Got (_ :: _), s') => (size s' < size s)%nat
  | (Got [], _) => True
  end.
Proof.
  destruct s as [|[[|c [|d b]]|e] s]; cbn [read take drop]; try done; rewrite ?size_chunk, ?size_fault; cbn [length]; lia.
Qed.

Lemma readLine_loop_total fuel n : forall buffer t s, (size s < fuel)%nat -> (t < n <= length buffer)%nat ->
  exists a buffer' s', readLine_loop fuel n buffer t s = Ok (a, buffer', s') /\ length buffer' = length buffer /\ nul_at buffer' a.
Proof.
  induction fuel as [|fuel IH]; intros buffer t s Hf Ht; [lia|]. cbn [readLine_loop].
  pose proof (read_size s) as Hr. destruct (read 1 s) as [[[|c b]|e] s'].
  - destruct (Nat.eqb_spec t 0) as [->|Hz]; [by eexists (inl 0%nat), buffer, s'|].
    destruct (end_line buffer t ltac:(lia)) as (b' & -> & H1 & _ & H3). exists (inl t), b', s'. split_and!; [done..|]. by destruct t.
  - destruct (Nat.ltb_spec t (n - 1)) as [Hlt|Hge].
    + rewrite put_in by lia. cbn [rbind]. destruct (c =? 10).
      * destruct (end_line (<[t := c]> buffer) (S t)) as (b' & E & H1 & _ & H3); [rewrite length_insert; lia|]. rewrite E. cbn [rbind].
        exists (inl (S t)), b', s'. rewrite length_insert in H1. done.
      * destruct (IH (<[t := c]> buffer) (S t) s') as (a & b' & s2 & -> & H1 & H2); [lia|rewrite length_insert; lia|]. rewrite length_insert in H1. by exists a, b', s2.
    + cbn [rbind]. destruct (c =? 10); [|apply IH; lia].
      destruct (end_line buffer t ltac:(lia)) as (b' & -> & H1 & _ & H3). exists (inl t), b', s'. split_and!; [done..|]. by destruct t.
  - destruct (e =? EINTR); [apply IH; lia|]. by exists (inr e), buffer, s'.
Qed.

Lemma readLine_total n buffer s : (0 < n <= length buffer)%nat ->
  exists a buffer' s', readLine (Some buffer) n s = Ok (a, buffer', s') /\ length buffer' = length buffer /\ nul_at buffer' a.
Proof. intros Hn. unfold readLine. rewrite (proj2 (Nat.eqb_neq n 0)) by lia. apply readLine_loop_total; lia. Qed.

Definition rl_wf (rl : ReadLineBuf) : Prop := length (buf rl) = RL_MAX_BUF /\ len rl <= Z.of_nat RL_MAX_BUF.

Lemma pending_empty rl : len rl <= Z.of_nat (next rl) -> pending rl = [].
Proof. intros H. unfold pending. replace (Z.to_nat (len rl) - next rl)%nat with 0%nat by lia. done. Qed.

Lemma pending_cons rl : rl_wf rl -> Z.of_nat (next rl) < len rl ->
  exists c, buf rl !! next rl = Some c /\ pending rl = c :: pending (MkRl (buf rl) (S (next rl)) (len rl)).
Proof.
  intros [Hl Hm] H. destruct (lookup_lt_is_Some_2 (buf rl) (next rl)) as [c Hc]; [lia|]. exists c. split; [done|]. unfold pending. cbn [buf next len].
  rewrite (drop_S _ c) by done. replace (Z.to_nat (len rl) - next rl)%nat with (S (Z.to_nat (len rl) - S (next rl))) by lia. done.
Qed.

(** What is left to read: the buffer, then the descriptor. *)
Definition remaining (rl : ReadLineBuf) (s : list event) : list Z := pending rl ++ content s.

Definition buf_line (n cnt : nat) (buffer : list Z) (rl : ReadLineBuf) (s : list event) (r : res buf_answer) : Prop :=
  let l := take (n - cnt) (fst (first_line (remaining rl s))) in
  exists buffer' rl' s', r = Ok (inl (cnt + length l)%nat, buffer', rl', s') /\ length buffer' = length buffer /\
    take (cnt + length l) buffer' = take cnt buffer ++ l /\ rl_wf rl' /\ steady s' /\ remaining rl' s' = snd (first_line (remaining rl s)).

Lemma steady_clean s : steady s -> clean s.
Proof. unfold steady, clean. intros H. eapply Forall_impl; [exact H|]. by intros [b|e]. Qed.

(** A buffer that was just filled. *)
Lemma filled (b block : list Z) : length block = RL_MAX_BUF -> (length b <= RL_MAX_BUF)%nat ->
  let rl := MkRl (b ++ drop (length b) block) 0 (Z.of_nat (length b)) in rl_wf rl /\ pending rl = b.
Proof.
  intros Hb Hl. cbn zeta. unfold rl_wf, pending. cbn [buf len next]. rewrite length_app, length_drop, Nat2Z.id, Nat.sub_0_r. cbn [drop].
  split; [split; lia|]. apply take_app_length.
Qed.

Lemma readLineBuf_loop_spec fuel n : forall buffer cnt rl s, rl_wf rl -> steady s -> (length (pending rl) + size s < fuel)%nat -> (cnt <= n <= length buffer)%nat ->
  buf_line n cnt buffer rl s (readLineBuf_loop fuel n buffer cnt rl s).
Proof.
  induction fuel as [|fuel IH]; intros buffer cnt rl s Hrl Hs Hf Hn; [lia|]. cbn [readLineBuf_loop].
  assert (Hc : forall rl s, rl_wf rl -> steady s -> Z.of_nat (next rl) < len rl -> (length (pending rl) + size s <= fuel)%nat -> buf_line n cnt buffer rl s (readLineBuf_turn (readLineBuf_loop fuel n) n buffer cnt rl s)).
  { clear rl s Hrl Hs Hf. intros rl s Hrl Hs Hlt Hf. destruct (pending_cons rl Hrl Hlt) as (c & Hc & Ep). unfold readLineBuf_turn. rewrite Hc. unfold buf_line, remaining. rewrite Ep in Hf |- *.
    set (rl1 := MkRl (buf rl) (S (next rl)) (len rl)) in *. cbn [app first_line length] in *.
    assert (rl_wf rl1) as Hrl1 by (destruct Hrl; done). change (pending rl1 ++ content s) with (remaining rl1 s).
    destruct (Nat.ltb_spec cnt n) as [Hcn|Hcn].
    - rewrite put_in by lia. cbn [rbind]. destruct (Z.eqb_spec c 10) as [->|Hc10].
      + cbn [fst snd]. rewrite take_ge by (cbn; lia). cbn [length]. rewrite Nat.add_1_r. exists (<[cnt := 10]> buffer), rl1, s. rewrite length_insert.
        repeat split; try done; try apply Hrl1. apply take_insert_snoc. lia.
      + destruct (first_line (remaining rl1 s)) as [a r] eqn:Ea. cbn [fst snd].
        destruct (IH (<[cnt := c]> buffer) (S cnt) rl1 s) as (b' & rl2 & s2 & E & H1 & H2 & H3 & H4 & H5); [done|done|lia|rewrite length_insert; lia|].
        rewrite Ea in *. cbn [fst snd] in *. destruct (n - cnt)%nat as [|m] eqn:Em; [lia|]. replace (n - S cnt)%nat with m in * by lia.
        cbn [take length]. rewrite <- plus_n_Sm in *. rewrite length_insert in *. exists b', rl2, s2. repeat split; try done; try apply H3.
        rewrite plus_n_Sm. apply (take_snoc_insert buffer cnt c (take m a) b'); [lia|done].
    - cbn [rbind]. assert (n - cnt = 0)%nat as Em by lia. rewrite Em. cbn [take length]. rewrite Nat.add_0_r, app_nil_r.
      destruct (Z.eqb_spec c 10) as [->|Hc10]; [by exists buffer, rl1, s|].
      destruct (first_line (remaining rl1 s)) as [a r] eqn:Ea. destruct (IH buffer cnt rl1 s) as (b' & rl2 & s2 & E & H); [done|done|lia|lia|].
      rewrite Ea, Em in *. cbn [fst snd take length] in *. rewrite Nat.add_0_r, app_nil_r in *. exists b', rl2, s2. by split. }
  destruct (Z.leb_spec (len rl) (Z.of_nat (next rl))) as [Hle|Hlt]; [|apply Hc; [done|done|done|lia]].
  pose proof (read_clean RL_MAX_BUF s ltac:(unfold RL_MAX_BUF; lia) (steady_clean _ Hs)) as Hr. rewrite (pending_empty rl Hle) in Hf. cbn [length] in Hf.
  unfold buf_line, remaining. rewrite (pending_empty rl Hle). cbn [app]. destruct (read RL_MAX_BUF s) as [[b|e] s'] eqn:Er.
  - destruct b as [|c b].
    + destruct Hr as [-> ->]. cbn. rewrite take_nil. cbn. rewrite Nat.add_0_r, app_nil_r. exists buffer, (MkRl (buf rl) (next rl) 0), [].
      repeat split; [apply Hrl|done|done].
    + destruct Hr as (Hs' & Ec & Hsz & Hl & Hst). specialize (Hst Hs). destruct (filled (c :: b) (buf rl) (proj1 Hrl) Hl) as [Hw Hp].
      specialize (Hc (MkRl ((c :: b) ++ drop (length (c :: b)) (buf rl)) 0 (Z.of_nat (length (c :: b)))) s' Hw Hst ltac:(cbn; lia) ltac:(rewrite Hp; lia)).
      unfold buf_line, remaining in Hc. rewrite Hp, Ec in Hc. exact Hc.
  - destruct s as [|[b'|e'] s0]; [done|done|]. by inversion Hs.
Qed.

(** ** Calls one after the other

    The bytes that a call counts, or its error. *)
Definition said (a : answer) (buffer : list Z) : list Z + Z := match a with inl c => inl (take c buffer) | inr e => inr e end.

Fixpoint readLine_calls (k n : nat) (buffer : list Z) (s : list event) : res (list (list Z + Z)) :=
  match k with
  | O => Ok []
  | S k =>
      let* abs := readLine (Some buffer) n s in
      let '(a, buffer, s) := abs in
      let* rest := readLine_calls k n buffer s in Ok (said a buffer :: rest)
  end.

Fixpoint readLineBuf_calls (k n : nat) (buffer : list Z) (rl : ReadLineBuf) (s : list event) : res (list (list Z + Z)) :=
  match k with
  | O => Ok []
  | S k =>
      let* abrs := readLineBuf rl (Some buffer) n s in
      let '(a, buffer, rl, s) := abrs in
      let* rest := readLineBuf_calls k n buffer rl s in Ok (said a buffer :: rest)
  end.

(** The lines of a text, each cut after [n] bytes; empty ones after its end. *)
Fixpoint lines (k n : nat) (text : list Z) : list (list Z) :=
  match k with
  | O => []
  | S k => take n (fst (first_line text)) :: lines k n (snd (first_line text))
  end.

Lemma readLine_line n buffer s : clean s -> (0 < n <= length buffer)%nat ->
  let l := take (n - 1) (fst (first_line (content s))) in
  exists buffer' s', readLine (Some buffer) n s = Ok (inl (length l), buffer', s') /\ length buffer' = length buffer /\
    take (length l) buffer' = l /\ ((0 < length l)%nat -> buffer' !! length l = Some 0) /\ clean s' /\ content s' = snd (first_line (content s)).
Proof.
  intros Hs Hn. cbn zeta. unfold readLine. rewrite (proj2 (Nat.eqb_neq n 0)) by lia.
  destruct (readLine_loop_spec (S (size s)) n buffer 0 s) as (b' & s' & E & H1 & H2 & H3 & H4); [done|lia|lia|].
  rewrite Nat.sub_0_r in *. cbn [Nat.add] in *. exists b', s'. by rewrite take_0 in H2.
Qed.

Lemma readLine_lines k n : forall buffer s, clean s -> (S n <= length buffer)%nat ->
  readLine_calls k (S n) buffer s = Ok (inl <$> lines k n (content s)).
Proof.
  induction k as [|k IH]; intros buffer s Hs Hn; [done|]. cbn [readLine_calls lines].
  destruct (readLine_line (S n) buffer s) as (b' & s' & E & H1 & H2 & _ & H4 & H5); [done|lia|]. rewrite E. cbn [rbind].
  rewrite IH by (done || lia). cbn [rbind said Nat.sub] in *. rewrite Nat.sub_0_r in *. by rewrite H2, H5.
Qed.

Lemma readLineBuf_lines k n : forall buffer rl s, rl_wf rl -> steady s -> (0 < n <= length buffer)%nat ->
  readLineBuf_calls k n buffer rl s = Ok (inl <$> lines k n (remaining rl s)).
Proof.
  induction k as [|k IH]; intros buffer rl s Hrl Hs Hn; [done|]. cbn [readLineBuf_calls lines]. unfold readLineBuf.
  rewrite (proj2 (Nat.eqb_neq n 0)) by lia.
  destruct (readLineBuf_loop_spec (S (length (pending rl) + size s)) n buffer 0 rl s) as (b' & rl' & s' & E & H1 & H2 & H3 & H4 & H5); [done|done|lia|lia|].
  rewrite E. cbn [rbind]. rewrite IH by (done || lia). rewrite Nat.sub_0_r in *. cbn [rbind said Nat.add] in *. rewrite take_0 in H2. cbn [app] in H2. by rewrite H2, H5.
Qed.

(** C23. However the bytes of a text arrive, and with signals for [readLine], any number of calls of
    [readLine] with a buffer of n + 1 bytes and of [readLineBuf] with one of n give the same: the
    lines of the text, each cut after n bytes; neither leaves its buffers. *)
Theorem same_lines k n b1 b2 block s1 s2 : clean s1 -> steady s2 -> content s1 = content s2 ->
  (0 < n)%nat -> (S n <= length b1)%nat -> (n <= length b2)%nat -> length block = RL_MAX_BUF ->
  readLine_calls k (S n) b1 s1 = Ok (inl <$> lines k n (content s1)) /\
  readLineBuf_calls k n b2 (readLineBufInit block) s2 = readLine_calls k (S n) b1 s1.
Proof.
  intros H1 H2 Ec Hn Hb1 Hb2 Hb. rewrite readLine_lines by done. split; [done|].
  rewrite readLineBuf_lines; [|by split|done|lia]. unfold remaining. by rewrite pending_empty, Ec.
Qed.

Definition bytes_of (s : string) : list Z := (fun c => Z.of_N (Ascii.N_of_ascii c)) <$> String.list_ascii_of_string s.
Definition newline : list Z := [10].

Lemma same_lines_witness :
  readLineBuf_calls 3 4 (replicate 4 0) (readLineBufInit (replicate 10 0)) [Chunk (bytes_of "one"); Chunk (newline ++ bytes_of "another"); Chunk newline]
  = Ok [inl (bytes_of "one" ++ newline); inl (bytes_of "anot"); inl []].
Proof.
  destruct (same_lines 3 4 (replicate 5 0) (replicate 4 0) (replicate 10 0) [Chunk (bytes_of "on"); Fault EINTR; Chunk (bytes_of "e" ++ newline ++ bytes_of "another" ++ newline)]
    [Chunk (bytes_of "one"); Chunk (newline ++ bytes_of "another"); Chunk newline]) as [E1 E2]; try (unfold clean, steady; repeat (apply Forall_cons_2; [done|]); by apply Forall_nil); try (cbn; lia); [vm_compute; reflexivity|done|].
  rewrite E2, E1. vm_compute. reflexivity.
Defined.

(** A signal in the middle of a line: [readLine] goes on, [readLineBuf] answers -1 and the bytes
    that it had taken are gone. *)
Definition interrupted : list event := [Chunk (bytes_of "ab"); Fault EINTR; Chunk (bytes_of "c" ++ newline)].
Lemma signal_loses_bytes :
  readLine_calls 1 9 (replicate 9 0) interrupted = Ok [inl (bytes_of "abc" ++ newline)] /\
  readLineBuf_calls 2 8 (replicate 8 0) (readLineBufInit (replicate 10 0)) interrupted = Ok [inr EINTR; inl (bytes_of "c" ++ newline)].
Proof. split; vm_compute; reflexivity. Qed.
