(* ===== verification/GetNum.v ===== *)
(** * tlpi lib/get_num.c: numbers on the command line

    [getInt] and [getLong] give the number, or the text with which the program ends. *)

From S2P Require Import Prelude CLib.
Local Open Scope Z_scope.

Definition GN_NONNEG : Z := 1.
Definition GN_GT_0 : Z := 2.
Definition GN_ANY_BASE : Z := 64.
Definition GN_BASE_8 : Z := 128.
Definition GN_BASE_16 : Z := 256.

Definition has_flag (flags f : Z) : bool := negb (Z.land flags f =? 0).

Definition gnFail {A} (fname msg : string) (arg name : option string) : A + string :=
  inr (fname +:+ " error" +:+ (match name with Some name => " (in " +:+ name +:+ ")" | None => "" end) +:+ ": " +:+ msg +:+ nl +:+
       (match arg with Some (String _ _ as arg) => "        offending text: " +:+ arg +:+ nl | _ => "" end)).

Definition base_of (flags : Z) : Z :=
  if has_flag flags GN_ANY_BASE then 0 else if has_flag flags GN_BASE_8 then 8 else if has_flag flags GN_BASE_16 then 16 else 10.

Definition getNum (fname : string) (arg : option string) (flags : Z) (name : option string) : Z + string :=
  match arg with
  | None | Some EmptyString => gnFail fname "null or empty string" arg name
  | Some text =>
      let r := strtoll text (base_of flags) in
      let res := st_value r in
      if st_erange r then gnFail fname "strtol() failed" arg name
      else if negb (streq (st_end r) "") then gnFail fname "nonnumeric characters" arg name
      else if has_flag flags GN_NONNEG && (res <? 0) then gnFail fname "negative value not allowed" arg name
      else if has_flag flags GN_GT_0 && (res <=? 0) then gnFail fname "value must be > 0" arg name
      else inl res
  end.

Definition getLong (arg : option string) (flags : Z) (name : option string) : Z + string := getNum "getLong" arg flags name.

Definition getInt (arg : option string) (flags : Z) (name : option string) : Z + string :=
  match getNum "getInt" arg flags name with
  | inr text => inr text
  | inl res => if (INT_MAX <? res) || (res <? INT_MIN) then gnFail "getInt" "integer out of range" arg name else inl res
  end.

(** What a flag asks of a number. *)
Definition allowed (flags z : Z) : bool :=
  (negb (has_flag flags GN_NONNEG) || (0 <=? z)) && (negb (has_flag flags GN_GT_0) || (0 <? z)).

Lemma utoa_not_empty base n : 2 <= base <= 36 -> utoa base n <> EmptyString.
Proof. intros Hb E. pose proof (strlen_utoa_pos base n Hb) as H. by rewrite E in H. Qed.

Lemma fmt_lld_not_empty z : fmt_lld z <> EmptyString.
Proof. unfold fmt_lld. destruct (z <? 0); [done|]. by apply utoa_not_empty. Qed.

Lemma getNum_fmt fname flags name z : base_of flags = 10 -> LLONG_MIN <= z <= LLONG_MAX ->
  (allowed flags z = true -> getNum fname (Some (fmt_lld z)) flags name = inl z) /\
  (allowed flags z = false -> exists text, getNum fname (Some (fmt_lld z)) flags name = inr text).
Proof.
  intros Hb Hz. pose proof (fmt_lld_not_empty z) as Hne. unfold getNum. rewrite Hb, strtoll_fmt_lld by done.
  destruct (fmt_lld z) as [|c t] eqn:E; [done|]. cbn [st_value st_erange st_end streq String.eqb negb]. unfold allowed, gnFail. split; intros Ha.
  - destruct (has_flag flags GN_NONNEG), (has_flag flags GN_GT_0); cbn in Ha |- *; destruct (Z.ltb_spec z 0), (Z.leb_spec z 0); try done; lia.
  - destruct (has_flag flags GN_NONNEG), (has_flag flags GN_GT_0); cbn in Ha |- *; try done; destruct (Z.ltb_spec z 0), (Z.leb_spec z 0); try (by eexists); lia.
Qed.

(** [getInt] reads back the decimal text of every [long] that is an [int] and that the flags
    allow, and ends the program for every other one. *)
Theorem getInt_decimal flags name z : base_of flags = 10 -> LLONG_MIN <= z <= LLONG_MAX ->
  if allowed flags z && (INT_MIN <=? z) && (z <=? INT_MAX) then getInt (Some (fmt_lld z)) flags name = inl z
  else exists text, getInt (Some (fmt_lld z)) flags name = inr text.
Proof.
  intros Hb Hz. destruct (getNum_fmt "getInt" flags name z Hb Hz) as [H1 H2]. unfold getInt. destruct (allowed flags z) eqn:Ea; cbn [andb].
  - rewrite H1 by done. destruct (Z.leb_spec INT_MIN z), (Z.leb_spec z INT_MAX); cbn [andb].
    + by rewrite (proj2 (Z.ltb_ge INT_MAX z)), (proj2 (Z.ltb_ge z INT_MIN)) by lia.
    + rewrite (proj2 (Z.ltb_lt INT_MAX z)) by lia. by eexists.
    + rewrite (proj2 (Z.ltb_lt z INT_MIN)), orb_true_r by lia. by eexists.
    + rewrite (proj2 (Z.ltb_lt z INT_MIN)), orb_true_r by lia. by eexists.
  - destruct H2 as [text ->]; [done|]. by exists text.
Qed.

Lemma getInt_decimal_witness : getInt (Some "4711"%string) GN_GT_0 None = inl 4711.
Proof. exact (getInt_decimal GN_GT_0 None 4711 eq_refl ltac:(unfold LLONG_MIN, LLONG_MAX; lia)). Defined.

(** Blanks and a sign may come first, nothing may follow. *)
Example getInt_blank : getInt (Some " +12"%string) 0 None = inl 12 /\
  getInt (Some "12 "%string) 0 (Some "n"%string) = inr ("getInt error (in n): nonnumeric characters" +:+ nl +:+ "        offending text: 12 " +:+ nl)%string.
Proof. split; vm_compute; reflexivity. Qed.
