(* ===== verification/InetSockets.v ===== *)
(** * tlpi sockets/inet_sockets.c: sockets for a host and a service

    [getaddrinfo] gives a list of addresses, or fails; the functions walk along it until one works.
    An address says what the calls on it answer.  The list is a block and a socket a descriptor of
    the process ([Process]), so that what is left over is a leak.  The values of [errno] after a
    failed call are left out, but for the one that [inetConnect] sets. *)

From S2P Require Import Prelude CLib Process.
Local Open Scope Z_scope.
Local Open Scope c_scope.

Definition ENOSYS : Z := 38.

Record addrinfo := MkAddr { can_socket : bool; can_reuse : bool; can_bind : bool; can_connect : bool; ai_addrlen : Z }.

Fixpoint connect_loop (l : list addrinfo) (p : proc) : res (option nat * proc) :=
  match l with
  | [] => Ok (None, p)
  | rp :: l =>
      if negb (can_socket rp) then connect_loop l p
      else
        let '(sfd, p) := acquire RFd p in
        if can_connect rp then Ok (Some sfd, p)
        else let* p := release RFd sfd p in connect_loop l p
  end.

Definition inetConnect (addresses : option (list addrinfo)) (p : proc) : res (option nat * proc) :=
  match addresses with
  | None => Ok (None, set_errno ENOSYS p)
  | Some l =>
      let '(result, p) := acquire RBlk p in
      let* rp := connect_loop l p in
      let '(sfd, p) := rp in
      let* p := release RBlk result p in
      Ok (sfd, p)
  end.

(** [inl] is the socket that was bound and its address. *)
Fixpoint bind_loop (doListen : bool) (l : list addrinfo) (p : proc) : res (((nat * addrinfo) + bool) * proc) :=
  match l with
  | [] => Ok (inr true, p)
  | rp :: l =>
      if negb (can_socket rp) then bind_loop doListen l p
      else
        let '(sfd, p) := acquire RFd p in
        if doListen && negb (can_reuse rp) then let* p := release RFd sfd p in Ok (inr false, p)
        else if can_bind rp then Ok (inl (sfd, rp), p)
        else let* p := release RFd sfd p in bind_loop doListen l p
  end.

(** [listens] is what [listen] answers; the result is the socket and the length of its address. *)
Definition inetPassiveSocket (addresses : option (list addrinfo)) (doListen listens : bool) (p : proc) : res (option (nat * Z) * proc) :=
  match addresses with
  | None => Ok (None, p)
  | Some l =>
      let '(result, p) := acquire RBlk p in
      let* rp := bind_loop doListen l p in
      let '(found, p) := rp in
      let* p := release RBlk result p in
      Ok (match found with inl (sfd, rp) => if doListen && negb listens then None else Some (sfd, ai_addrlen rp) | inr _ => None end, p)
  end.

Definition inetListen (addresses : option (list addrinfo)) (listens : bool) (p : proc) : res (option (nat * Z) * proc) := inetPassiveSocket addresses true listens p.
Definition inetBind (addresses : option (list addrinfo)) (p : proc) : res (option (nat * Z) * proc) := inetPassiveSocket addresses false true p.

(** [snprintf(addrStr, addrStrLen, ...)]; [name] is the answer of [getnameinfo]. *)
Definition inetAddressStr (name : option (string * string)) (addrStrLen : nat) : string :=
  take_str (addrStrLen - 1)
    match name with
    | Some (host, service) => "(" +:+ host +:+ ", " +:+ service +:+ ")"
    | None => "(?UNKNOWN?)"
    end.

(** ** What they leave open *)

Definition owns (base : gmap nat rkind) (L : list (nat * rkind)) (p : proc) : Prop := proc_wf p /\ holds base L p.

Lemma owns_acquire base L k p id q : acquire k p = (id, q) -> owns base L p -> owns base ((id, k) :: L) q /\ log q = log p.
Proof.
  intros E [Hw Hh]. pose proof (proc_wf_acquire k p Hw) as Hw'. pose proof (holds_acquire base L k p Hw Hh) as Hh'.
  unfold acquire in E, Hw', Hh'. injection E as <- <-. done.
Qed.

Lemma owns_release base L k id p : owns base ((id, k) :: L) p -> exists q, release k id p = Ok q /\ owns base L q /\ log q = log p.
Proof.
  intros [Hw Hh]. destruct (holds_release _ _ _ _ _ Hh) as [E Hh']. eexists. split; [exact E|]. split; [|done]. split; [|done].
  by eapply proc_wf_release.
Qed.

Lemma owns_swap base a b L p : owns base (a :: b :: L) p -> owns base (b :: a :: L) p.
Proof. intros [Hw Hh]. split; [done|]. eapply holds_perm; [|exact Hh]. constructor. Qed.

Definition open_fd (r : option nat) : list (nat * rkind) := match r with Some fd => [(fd, RFd)] | None => [] end.
Definition usable (a : addrinfo) : bool := can_socket a && can_connect a.

Lemma connect_loop_owns base L l p : owns base L p ->
  exists r q, connect_loop l p = Ok (r, q) /\ owns base (open_fd r ++ L) q /\ log q = log p /\ (is_Some r <-> existsb usable l = true).
Proof.
  revert p. induction l as [|a l IH]; intros p H; cbn [connect_loop existsb].
  - exists None, p. split_and!; try done.
  - unfold usable at 1. destruct (can_socket a); cbn [negb andb]; [|by apply IH].
    destruct (acquire RFd p) as [fd q] eqn:E. destruct (owns_acquire _ _ _ _ _ _ E H) as [H' El]. destruct (can_connect a).
    + exists (Some fd), q. by split_and!.
    + destruct (owns_release _ _ _ _ _ H') as (q' & -> & H'' & El'). destruct (IH q' H'') as (r & q2 & E2 & H2 & El2 & Hr).
      exists r, q2. split; [done|]. split; [done|]. split; [congruence|done].
Qed.

(** [inetConnect] gives a connected socket exactly when one of the addresses works, and leaves no
    other descriptor open and no list of addresses. *)
Theorem connect_keeps base L ai p : owns base L p ->
  exists r q, inetConnect ai p = Ok (r, q) /\ owns base (open_fd r ++ L) q /\ log q = log p /\
    (is_Some r <-> exists l, ai = Some l /\ existsb usable l = true).
Proof.
  intros H. unfold inetConnect. destruct ai as [l|].
  - destruct (acquire RBlk p) as [blk p1] eqn:E. destruct (owns_acquire _ _ _ _ _ _ E H) as [H1 El1].
    destruct (connect_loop_owns _ _ l p1 H1) as (r & p2 & -> & H2 & El2 & Hr). cbn [rbind].
    assert (owns base ((blk, RBlk) :: open_fd r ++ L) p2) as H3 by (destruct r; [by apply owns_swap|done]).
    destruct (owns_release _ _ _ _ _ H3) as (q & -> & Hq & Eq). exists r, q. cbn [rbind]. split; [done|]. split; [done|]. split; [congruence|].
    rewrite Hr. split; [by exists l|]. by intros (l' & [= <-] & ?).
  - exists None, (set_errno ENOSYS p). split; [done|]. split; [exact H|]. split; [done|]. split; [by intros []|by intros (? & ? & _)].
Qed.

Lemma bind_loop_owns base L b l p : owns base L p ->
  exists r q, bind_loop b l p = Ok (r, q) /\ owns base (match r with inl (fd, _) => [(fd, RFd)] | inr _ => [] end ++ L) q /\ log q = log p.
Proof.
  revert p. induction l as [|a l IH]; intros p H; cbn [bind_loop].
  - by exists (inr true), p.
  - destruct (can_socket a); cbn [negb]; [|by apply IH].
    destruct (acquire RFd p) as [fd q] eqn:E. destruct (owns_acquire _ _ _ _ _ _ E H) as [H' El].
    destruct (owns_release _ _ _ _ _ H') as (q' & Er & H'' & El'). destruct (b && negb (can_reuse a)).
    + rewrite Er. exists (inr false), q'. cbn [rbind]. split; [done|]. split; [done|congruence].
    + destruct (can_bind a); [by exists (inl (fd, a)), q|]. rewrite Er. cbn [rbind].
      destruct (IH q' H'') as (r & q2 & E2 & H2 & El2). exists r, q2. split; [done|]. split; [done|congruence].
Qed.

(** A socket that is bound stays open; it is lost when [listen] fails on it. *)
Lemma passive_owns base L ai b listens p : owns base L p ->
  exists r q fd, inetPassiveSocket ai b listens p = Ok (r, q) /\ owns base (open_fd fd ++ L) q /\ log q = log p /\
    (listens = true -> fd = fst <$> r) /\ (forall x, r = Some x -> fd = Some (fst x)).
Proof.
  intros H. unfold inetPassiveSocket. destruct ai as [l|]; [|by exists None, p, None].
  destruct (acquire RBlk p) as [blk p1] eqn:E. destruct (owns_acquire _ _ _ _ _ _ E H) as [H1 El1].
  destruct (bind_loop_owns _ _ b l p1 H1) as (r & p2 & -> & H2 & El2). cbn [rbind]. destruct r as [[fd a]|w].
  - apply owns_swap in H2. destruct (owns_release _ _ _ _ _ H2) as (q & -> & Hq & Eq). eexists _, q, (Some fd). cbn [rbind].
    split; [done|]. split; [done|]. split; [congruence|]. destruct b, listens; cbn; split; try done; by intros x [= <-].
  - destruct (owns_release _ _ _ _ _ H2) as (q & -> & Hq & Eq). eexists _, q, None. cbn [rbind]. split; [done|]. split; [done|]. split; [congruence|done].
Qed.

Lemma listen_failure_leaks : exists q, inetListen (Some [MkAddr true true true true 16]) false proc0 = Ok (None, q) /\ live q = {[1%nat := RFd]}.
Proof. eexists. split; [vm_compute; reflexivity|]. by vm_compute. Qed.
