(* ===== verification/SeqNum.v ===== *)
(** * tlpi sockets/is_seqnum: a server that gives out numbers

    A client asks for so many numbers, the server answers with the first of them and counts on.
    is_seqnum_sv.c and is_seqnum_cl.c make their sockets themselves, is_seqnum_v2_sv.c and
    is_seqnum_v2_cl.c with [InetSockets]; both read with [readLine] and share the rest.

    A connection is the name of the client, what the server reads from it, and what [write] and
    [close] answer.  The server runs for as many connections as it is given. *)

From S2P Require Import Prelude CLib Process PollServer Chat Udp ReadLine GetNum InetSockets.
Local Open Scope Z_scope.
Local Open Scope c_scope.

Definition INT_LEN : nat := 30.
Definition IS_ADDR_STR_LEN : nat := 4096.
Definition NI_MAXHOST : nat := 1025.
Definition NI_MAXSERV : nat := 32.
Definition ADDRSTRLEN : nat := NI_MAXHOST + NI_MAXSERV + 10.

Record conn := MkConn { c_name : option (string * string); c_sent : list event; c_write : Z -> Z; c_close : bool }.

(** ** The server *)

(** The bytes of a text without its NUL. *)
Fixpoint bytes (t : string) : list Z := match t with EmptyString => [] | String c t => code c :: bytes t end.

(** One turn of the loop, after [accept]: the reply, if there is one, and the next number. *)
Definition serve (block : list Z) (c : conn) (cfd : nat) (seqNum : Z) (p : proc) : res (option (Z * string) * Z * proc) :=
  let* abs := readLine (Some block) INT_LEN (c_sent c) in
  let '(a, reqLenStr, _) := abs in
  match a with
  | inr _ | inl O => let* p := release RFd cfd p in Ok (None, seqNum, p)
  | inl _ =>
      let* text := c_string reqLenStr in
      let reqLen := atoi text in
      if reqLen <=? 0 then let* p := release RFd cfd p in Ok (None, seqNum, p)
      else
        let seqNumStr := take_str (INT_LEN - 1) (fmt_lld (s32 seqNum) +:+ nl) in
        let p := if c_write c (strlen seqNumStr) =? strlen seqNumStr then p else emit (Err "Error on write") p in
        let* p := release RFd cfd p in
        Ok (Some (reqLen, seqNumStr), u32 (seqNum + reqLen), if c_close c then p else emit (Err "close") p)
  end.

(** The loop; [None] is an [accept] that failed.  [addrStr] prints a client.  The replies are kept. *)
Fixpoint server_loop (addrStr : option (string * string) -> string) (block : list Z) (clients : list (option conn)) (seqNum : Z) (p : proc)
  : res (list (option (Z * string)) * Z * proc) :=
  match clients with
  | [] => Ok ([], seqNum, p)
  | None :: clients =>
      let* r := server_loop addrStr block clients seqNum (emit (Err "accept") p) in
      let '(replies, seqNum, p) := r in Ok (None :: replies, seqNum, p)
  | Some c :: clients =>
      let '(cfd, p) := acquire RFd p in
      let p := emit (Out ("Connection from " +:+ addrStr (c_name c) +:+ nl)) p in
      let* r := serve block c cfd seqNum p in
      let '(reply, seqNum, p) := r in
      let* r := server_loop addrStr block clients seqNum p in
      let '(replies, seqNum, p) := r in Ok (reply :: replies, seqNum, p)
  end.

(** What [main] of a server gets: its arguments after the name, the answers of the calls before the
    loop, the block of [reqLenStr], the clients. *)
Record server_env := MkServer {
  s_args : list string; s_signal : bool; s_addresses : option (list addrinfo); s_listen : bool; s_malloc : bool;
  s_block : list Z; s_clients : list (option conn)
}.

(** [inl]: still serving, with the replies; [inr]: the message with which it stopped. *)
Definition server_result : Type := (list (option (Z * string)) * Z) + string.

(** [argc > 1 && strcmp(argv[1], "--help") == 0], [(argc > 1) ? getInt(argv[1], 0, ...) : 0], [signal] *)
Definition start_number (V : server_env) : Z + string :=
  match s_args V with
  | arg :: _ => if streq arg "--help" then inr "Usage: %s [init-seq-num]" else getInt (Some arg) 0 (Some "init-seq-num")
  | [] => inl 0
  end.

(** is_seqnum_sv.c *)
Fixpoint v1_bind_loop (l : list addrinfo) (p : proc) : res ((option nat + string) * proc) :=
  match l with
  | [] => Ok (inl None, p)
  | rp :: l =>
      if negb (can_socket rp) then v1_bind_loop l p
      else
        let '(lfd, p) := acquire RFd p in
        if negb (can_reuse rp) then Ok (inr "setsockopt", p)
        else if can_bind rp then Ok (inl (Some lfd), p)
        else let* p := release RFd lfd p in v1_bind_loop l p
  end.

Definition v1_addrStr (name : option (string * string)) : string :=
  take_str (ADDRSTRLEN - 1)
    match name with
    | Some (host, service) => "(" +:+ host +:+ ", " +:+ service +:+ ")"
    | None => "(?UNKNOWN?)"
    end.

Definition sv_main (V : server_env) (p : proc) : res (server_result * proc) :=
  match start_number V with
  | inr text => Ok (inr text, p)
  | inl n =>
      if negb (s_signal V) then Ok (inr "signal", p)
      else
        match s_addresses V with
        | None => Ok (inr "getaddrinfo", p)
        | Some l =>
            let '(result, p) := acquire RBlk p in
            let* rp := v1_bind_loop l p in
            match rp with
            | (inr text, p) => Ok (inr text, p)
            | (inl None, p) => Ok (inr "Could not bind socket to any address", p)
            | (inl (Some lfd), p) =>
                if negb (s_listen V) then Ok (inr "listen", p)
                else
                  let* p := release RBlk result p in
                  let* r := server_loop v1_addrStr (s_block V) (s_clients V) (u32 n) p in
                  let '(replies, n, p) := r in Ok (inl (replies, n), p)
            end
        end
  end.

(** is_seqnum_v2_sv.c *)
Definition v2_sv_main (V : server_env) (p : proc) : res (server_result * proc) :=
  match start_number V with
  | inr text => Ok (inr text, p)
  | inl n =>
      if negb (s_signal V) then Ok (inr "signal", p)
      else
        let* r := inetListen (s_addresses V) (s_listen V) p in
        match r with
        | (None, p) => Ok (inr "inetListen() failed", p)
        | (Some (lfd, addrlen), p) =>
            if negb (s_malloc V) then Ok (inr "malloc", p)
            else
              let '(claddr, p) := acquire RBlk p in
              let* r := server_loop (fun name => inetAddressStr name IS_ADDR_STR_LEN) (s_block V) (s_clients V) (u32 n) p in
              let '(replies, n, p) := r in Ok (inl (replies, n), p)
        end
  end.

(** ** The client *)

(** The arguments after the name, the addresses of the host, what [write] answers, what the server
    sends, and the block of [seqNumStr]. *)
Record client_env := MkClient { k_args : list string; k_addresses : option (list addrinfo); k_write : Z -> Z; k_block : list Z }.

(** What the client sends, for the server that is reached. *)
Definition reqLenStr (K : client_env) : string := match k_args K with _ :: text :: _ => text | _ => "1" end.

(** After the connection: [inl] is what is printed, [inr] a message. *)
Definition ask (K : client_env) (answer : list event) : res (string + string) :=
  if negb (k_write K (strlen (reqLenStr K)) =? strlen (reqLenStr K)) then Ok (inr "Partial/failed write (reqLenStr)")
  else if negb (k_write K 1 =? 1) then Ok (inr "Partial/failed write (newline)")
  else
    let* abs := readLine (Some (k_block K)) INT_LEN answer in
    let '(a, seqNumStr, _) := abs in
    match a with
    | inr _ => Ok (inr "readLine")
    | inl O => Ok (inr "Unexpected EOF from server")
    | inl _ => let* text := c_string seqNumStr in Ok (inl ("Sequence number: " +:+ text))
    end.

Definition usage (K : client_env) : bool := match k_args K with [] => true | arg :: _ => streq arg "--help" end.

(** is_seqnum_cl.c *)
Definition cl_main (K : client_env) (answer : list event) (p : proc) : res ((string + string) * proc) :=
  if usage K then Ok (inr "Usage: %s server-host [sequence-len]", p)
  else
    match k_addresses K with
    | None => Ok (inr "getaddrinfo", p)
    | Some l =>
        let '(result, p) := acquire RBlk p in
        let* rp := connect_loop l p in
        match rp with
        | (None, p) => Ok (inr "Could not connect socket to any address", p)
        | (Some cfd, p) =>
            let* p := release RBlk result p in
            let* r := ask K answer in Ok (r, p)
        end
    end.

(** is_seqnum_v2_cl.c *)
Definition v2_cl_main (K : client_env) (answer : list event) (p : proc) : res ((string + string) * proc) :=
  if usage K then Ok (inr "Usage: %s server-host [sequence-len]", p)
  else
    let* r := inetConnect (k_addresses K) p in
    match r with
    | (None, p) => Ok (inr "inetConnect() failed", p)
    | (Some cfd, p) => let* r := ask K answer in Ok (r, p)
    end.

(** ** The server, whatever the clients do *)

(** The text of a buffer, up to its first NUL. *)
Fixpoint upto0 (l : list Z) : list Z := match l with [] => [] | b :: l => if b =? 0 then [] else b :: upto0 l end.

Lemma c_string_upto0 l rest : c_string (l ++ 0 :: rest) = Ok (shown (upto0 l)).
Proof. induction l as [|b l IH]; [done|]. cbn. destruct (b =? 0); [done|]. by rewrite IH. Qed.

Lemma c_string_at buffer i : buffer !! i = Some 0 -> c_string buffer = Ok (shown (upto0 (take i buffer))).
Proof. intros H. rewrite <- (take_drop_middle buffer i 0 H) at 1. apply c_string_upto0. Qed.

Lemma strlen_nl t : strlen (t +:+ nl) = strlen t + 1.
Proof. by rewrite strlen_app. Qed.

Lemma fmt_lld_short z : INT_MIN <= z <= INT_MAX -> strlen (fmt_lld z) <= 11.
Proof.
  unfold INT_MIN, INT_MAX, fmt_lld. intros Hz. assert (10 ^ 10 = 10000000000) as E by done. destruct (Z.ltb_spec z 0).
  - rewrite strlen_cons. assert (strlen (utoa 10 (- z)) <= 10); [|lia]. apply utoa_length_le; rewrite ?E; lia.
  - assert (strlen (utoa 10 z) <= 10); [|lia]. apply utoa_length_le; rewrite ?E; lia.
Qed.

Lemma s32_range z : INT_MIN <= s32 z <= INT_MAX.
Proof. unfold INT_MIN, INT_MAX, s32. pose proof (Z.mod_pos_bound (z + 2 ^ 31) (2 ^ 32) ltac:(lia)). lia. Qed.

Lemma take_str_whole n t : strlen t <= Z.of_nat n -> take_str n t = t.
Proof.
  revert n. induction t as [|c t IH]; intros [|n] H; rewrite ?strlen_cons in H; try done.
  - pose proof (strlen_nonneg t). lia.
  - cbn. rewrite IH by lia. done.
Qed.

(** The reply is not cut. *)
Definition reply (n : Z) : string := fmt_lld (s32 n) +:+ nl.
Lemma reply_whole n : take_str (INT_LEN - 1) (fmt_lld (s32 n) +:+ nl) = reply n.
Proof. apply take_str_whole. unfold reply. rewrite strlen_nl. pose proof (fmt_lld_short (s32 n) (s32_range n)). unfold INT_LEN. lia. Qed.

(** The replies are the numbers from [n] on, to [n']; the others got nothing. *)
Fixpoint granted (n : Z) (replies : list (option (Z * string))) (n' : Z) : Prop :=
  match replies with
  | [] => n' = n
  | None :: replies => granted n replies n'
  | Some (k, text) :: replies => 0 < k <= INT_MAX /\ text = reply n /\ granted (u32 (n + k)) replies n'
  end.

Lemma owns_emit base L e p : owns base L p -> owns base L (emit e p).
Proof. by intros [Hw Hh]. Qed.

Lemma owns_when_emit (b : bool) base L e p : owns base L p -> owns base L (if b then p else emit e p).
Proof. destruct b; [done|apply owns_emit]. Qed.

Lemma serve_total base L block c cfd n p : (INT_LEN <= length block)%nat -> owns base ((cfd, RFd) :: L) p ->
  exists r n' q, serve block c cfd n p = Ok (r, n', q) /\ owns base L q /\ granted n [r] n'.
Proof.
  intros Hb H. unfold serve. destruct (readLine_total INT_LEN block (c_sent c)) as (a & buf & s' & -> & Hl & Hnul); [split; [unfold INT_LEN; lia|done]|]. cbn [rbind].
  destruct (owns_release _ _ _ _ _ H) as (q & Er & Hq & _).
  destruct a as [[|i]|e]; [rewrite Er; by exists None, n, q| |rewrite Er; by exists None, n, q].
  cbn in Hnul. rewrite (c_string_at buf (S i) Hnul). cbn [rbind]. set (k := atoi _).
  destruct (Z.leb_spec k 0) as [Hk|Hk]; [rewrite Er; by exists None, n, q|]. rewrite reply_whole.
  set (p1 := if c_write c (strlen (reply n)) =? strlen (reply n) then p else _).
  destruct (owns_release base L RFd cfd p1) as (q1 & -> & Hq1 & _); [by apply owns_when_emit|]. cbn [rbind].
  eexists _, _, _. split; [done|]. split; [by apply owns_when_emit|]. split; [|done]. split; [done|]. unfold k, atoi. apply s32_range.
Qed.

Lemma granted_cons n r n1 replies n' : granted n [r] n1 -> granted n1 replies n' -> granted n (r :: replies) n'.
Proof. destruct r as [[k t]|]; cbn; [intros (? & ? & ->)|intros ->]; done. Qed.

(** Whatever the clients send, and whatever calls fail on their connections, the server goes on,
    closes every connection, and gives each client that asks for a positive number of at most
    [INT_MAX] the next numbers. *)
Theorem server_counts base L addrStr block clients n p : (INT_LEN <= length block)%nat -> owns base L p ->
  exists replies n' q, server_loop addrStr block clients n p = Ok (replies, n', q) /\ owns base L q /\
    length replies = length clients /\ granted n replies n'.
Proof.
  intros Hb. revert n p. induction clients as [|[c|] clients IH]; intros n p H; cbn [server_loop].
  - by exists [], n, p.
  - destruct (acquire RFd p) as [cfd p1] eqn:E. destruct (owns_acquire _ _ _ _ _ _ E H) as [H1 _].
    destruct (serve_total base L block c cfd n (emit (Out ("Connection from " +:+ addrStr (c_name c) +:+ nl)) p1)) as (r & n1 & q & -> & Hq & Hg); [done|by apply owns_emit|].
    cbn [rbind]. destruct (IH n1 q Hq) as (replies & n' & q' & -> & Hq' & Hlen & Hg'). cbn [rbind].
    exists (r :: replies), n', q'. split; [done|]. split; [done|]. split; [cbn; lia|]. by eapply granted_cons.
  - destruct (IH n (emit (Err "accept") p)) as (replies & n' & q' & -> & Hq' & Hlen & Hg'); [by apply owns_emit|]. cbn [rbind].
    exists (None :: replies), n', q'. split; [done|]. split; [done|]. split; [cbn; lia|done].
Qed.

(** ** The main programs of the servers *)

Lemma v1_bind_owns base L l p : owns base L p ->
  exists r q, v1_bind_loop l p = Ok (r, q) /\ (forall fd, r = inl (Some fd) -> owns base ((fd, RFd) :: L) q).
Proof.
  revert p. induction l as [|a l IH]; intros p H; cbn [v1_bind_loop]; [by exists (inl None), p|].
  destruct (can_socket a); cbn [negb]; [|by apply IH]. destruct (acquire RFd p) as [fd q] eqn:E. destruct (owns_acquire _ _ _ _ _ _ E H) as [H' _].
  destruct (can_reuse a); cbn [negb]; [|by exists (inr "setsockopt"%string), q].
  destruct (can_bind a); [exists (inl (Some fd)), q; split; [done|]; by intros fd' [= <-]|].
  destruct (owns_release _ _ _ _ _ H') as (q' & -> & H'' & _). cbn [rbind]. by apply IH.
Qed.

Lemma owns_start : owns ∅ [] proc0.
Proof. split; [done|]. split; [constructor|]. split; [by intros id ?%not_elem_of_nil|]. done. Qed.

Lemma owns_live L p : owns ∅ L p -> live p = list_to_map L.
Proof. intros [_ (_ & _ & ->)]. by rewrite (right_id_L ∅ (∪)). Qed.

(** Both servers return from every start, and while one serves it has open only the socket that
    it listens on (the second also the block of an address), and has given out the numbers from the
    one on its command line. *)
Theorem servers_serve V : (INT_LEN <= length (s_block V))%nat ->
  (exists r q, sv_main V proc0 = Ok (r, q) /\ forall replies n', r = inl (replies, n') ->
     exists n lfd, start_number V = inl n /\ granted (u32 n) replies n' /\ length replies = length (s_clients V) /\ live q = {[lfd := RFd]}) /\
  (exists r q, v2_sv_main V proc0 = Ok (r, q) /\ forall replies n', r = inl (replies, n') ->
     exists n lfd claddr, start_number V = inl n /\ granted (u32 n) replies n' /\ length replies = length (s_clients V) /\ live q = {[claddr := RBlk; lfd := RFd]}).
Proof.
  intros Hb. unfold sv_main, v2_sv_main. destruct (start_number V) as [n|text]; [|by split; eexists _, _].
  destruct (s_signal V); cbn [negb]; [|by split; eexists _, _]. split.
  - destruct (s_addresses V) as [l|]; [|by eexists _, _]. destruct (acquire RBlk proc0) as [blk p1] eqn:E.
    destruct (owns_acquire _ _ _ _ _ _ E owns_start) as [H1 _]. destruct (v1_bind_owns _ _ l p1 H1) as (r & p2 & -> & H2). cbn [rbind].
    destruct r as [[lfd|]|text]; [|by eexists _, _..]. destruct (s_listen V); cbn [negb]; [|by eexists _, _].
    specialize (H2 lfd eq_refl). apply owns_swap in H2. destruct (owns_release _ _ _ _ _ H2) as (p3 & -> & H3 & _). cbn [rbind].
    destruct (server_counts _ _ v1_addrStr _ (s_clients V) (u32 n) p3 Hb H3) as (replies & n' & q & -> & Hq & Hlen & Hg). cbn [rbind].
    eexists _, _. split; [done|]. intros replies' n1 [= <- <-]. exists n, lfd. split_and!; try done. by apply owns_live in Hq.
  - destruct (passive_owns _ _ (s_addresses V) true (s_listen V) proc0 owns_start) as (r & p1 & fd & E & H1 & _ & _ & Hfd). unfold inetListen. rewrite E. cbn [rbind].
    destruct r as [[lfd len]|]; [|by eexists _, _]. specialize (Hfd _ eq_refl). cbn in Hfd. subst fd. destruct (s_malloc V); cbn [negb]; [|by eexists _, _].
    destruct (acquire RBlk p1) as [blk p2] eqn:E2. destruct (owns_acquire _ _ _ _ _ _ E2 H1) as [H2 _].
    destruct (server_counts _ _ (fun name => inetAddressStr name IS_ADDR_STR_LEN) _ (s_clients V) (u32 n) p2 Hb H2) as (replies & n' & q & -> & Hq & Hlen & Hg). cbn [rbind].
    eexists _, _. split; [done|]. intros replies' n1 [= <- <-]. exists n, lfd, blk. split_and!; try done. by apply owns_live in Hq.
Qed.

(** ** Server and clients together *)

Lemma bytes_shown t : no_nul t = true -> shown (upto0 (bytes t)) = t.
Proof.
  induction t as [|c t IH]; [done|]. cbn. intros [Hc Ht]%andb_true_iff. destruct (code c =? 0) eqn:E; [done|].
  cbn. rewrite IH by done. f_equal. unfold chr, code. by rewrite N2Z.id, Ascii.ascii_N_embedding.
Qed.

Lemma bytes_append a b : bytes (a +:+ b) = bytes a ++ bytes b.
Proof. induction a as [|c a IH]; [done|]. cbn [bytes app]. rewrite <- IH. done. Qed.

Lemma bytes_length t : Z.of_nat (length (bytes t)) = strlen t.
Proof. induction t as [|c t IH]; [done|]. rewrite strlen_cons. cbn [bytes length]. lia. Qed.

(** Numbers as texts have neither NUL nor newline, and may be followed by a newline. *)
Fixpoint graphic (t : string) : bool := match t with EmptyString => true | String c t => (32 <? code c) && graphic t end.

Lemma graphic_no_nul t : graphic t = true -> no_nul t = true.
Proof. induction t as [|c t IH]; [done|]. cbn. intros [Hc Ht]%andb_true_iff. rewrite IH by done. by destruct (Z.eqb_spec (code c) 0); [lia|]. Qed.

Lemma graphic_digits f n acc : 0 <= n -> graphic acc = true -> graphic (utoa_fuel f 10 n acc) = true.
Proof.
  revert n acc. induction f as [|f IH]; intros n acc Hn Ha; [done|]. cbn [utoa_fuel].
  pose proof (Z.mod_pos_bound n 10 ltac:(lia)). assert (graphic (String (digit_char (n mod 10)) acc) = true) as Hg.
  { cbn [graphic]. rewrite code_digit_char, Ha by lia. destruct (Z.ltb_spec (n mod 10) 10); lia. }
  destruct (n <? 10); [done|]. apply IH; [|done]. apply Z.div_pos; lia.
Qed.

Lemma graphic_fmt z : graphic (fmt_lld z) = true.
Proof.
  unfold fmt_lld, utoa. destruct (Z.ltb_spec z 0); [|by apply graphic_digits].
  cbn [graphic]. rewrite graphic_digits by (done || lia). done.
Qed.

Lemma first_line_graphic t rest : graphic t = true -> first_line (bytes t ++ 10 :: rest) = (bytes t ++ [10], rest).
Proof.
  induction t as [|c t IH]; [done|]. cbn [bytes app first_line graphic]. intros [Hc Ht]%andb_true_iff.
  destruct (Z.eqb_spec (code c) 10); [lia|]. by rewrite IH.
Qed.

Lemma scan_digits_app base acc a rest v : scan_digits base acc a = (v, EmptyString) -> has_digit base rest = false ->
  scan_digits base acc (a +:+ rest) = (v, rest).
Proof.
  intros E Hr. revert acc E. induction a as [|c a IH]; intros acc E; [|change (String c a +:+ rest) with (String c (a +:+ rest))]; cbn [scan_digits] in E |- *.
  - injection E as ->. change (EmptyString +:+ rest) with rest. destruct rest as [|c rest]; [done|]. cbn [has_digit scan_digits] in Hr |- *. unfold is_digit in Hr.
    destruct (digit_val c); [by rewrite Hr|done].
  - destruct (digit_val c) as [d|]; [|done]. destruct (d <? base); [by apply IH|done].
Qed.

Lemma atoi_line k : 0 <= k <= INT_MAX -> atoi (fmt_lld k +:+ nl) = k.
Proof.
  intros Hk. unfold INT_MAX in Hk. unfold atoi, atol, fmt_lld. rewrite (proj2 (Z.ltb_ge k 0)) by lia.
  destruct (utoa_shape 10 k ltac:(lia)) as (d & t & Hd & E).
  assert (scan_digits 10 0 (utoa 10 k +:+ nl) = (k, nl)) as Es by (apply scan_digits_app; [apply scan_utoa; lia|done]).
  pose proof (digit_char_not_blank d ltac:(lia)) as (Hb & Hm & Hp). pose proof (has_digit_utoa 10 k ltac:(lia)) as Hh. rewrite E in Es, Hh |- *.
  change (String (digit_char d) t +:+ nl) with (String (digit_char d) (t +:+ nl)) in *. unfold strtoll. cbn [skip_space take_sign]. rewrite Hb. cbn [take_sign]. rewrite Hm, Hp. rewrite resolve_base_plain by lia.
  cbn [has_digit] in Hh |- *. rewrite Hh. rewrite Es. unfold LLONG_MAX, LLONG_MIN. rewrite (proj2 (Z.ltb_ge _ k)), (proj2 (Z.ltb_ge k _)) by lia.
  cbn [st_value]. apply s32_small. unfold INT_MIN, INT_MAX. lia.
Qed.

(** A client that asks for [v_len] numbers and the connections between it and the server, which
    carry the bytes in any pieces. *)
Record visit := MkVisit { v_client : client_env; v_len : Z; v_conn : conn; v_answer : string -> list event }.

Record good_visit (v : visit) : Prop := MkGood {
  g_len : 0 < v_len v <= INT_MAX;
  g_args : exists host, k_args (v_client v) = [host; fmt_lld (v_len v)];
  g_write : forall n, k_write (v_client v) n = n;
  g_block : (INT_LEN <= length (k_block (v_client v)))%nat;
  g_sent : clean (c_sent (v_conn v)) /\ content (c_sent (v_conn v)) = bytes (reqLenStr (v_client v) +:+ nl);
  g_answer : forall t, clean (v_answer v t) /\ content (v_answer v t) = bytes t
}.

(** A line that fits is read as it is. *)
Lemma readLine_text block s z : (INT_LEN <= length block)%nat -> INT_MIN <= z <= INT_MAX -> clean s -> content s = bytes (fmt_lld z +:+ nl) ->
  exists i buf s', readLine (Some block) INT_LEN s = Ok (inl (S i), buf, s') /\ c_string buf = Ok (fmt_lld z +:+ nl).
Proof.
  intros Hb Hz Hs Ec. destruct (readLine_line INT_LEN block s Hs) as (buf & s' & E & Hl & Ht & H0 & _ & _); [split; [unfold INT_LEN; lia|done]|].
  rewrite Ec, bytes_append in E, Ht, H0. change (bytes nl) with [10] in *. rewrite first_line_graphic in E, Ht, H0 by apply graphic_fmt. cbn [fst] in *.
  assert (Z.of_nat (length (bytes (fmt_lld z) ++ [10])) <= 29) as Hlen.
  { rewrite length_app. pose proof (bytes_length (fmt_lld z)). pose proof (fmt_lld_short z Hz). cbn [length]. lia. }
  rewrite (take_ge (bytes (fmt_lld z) ++ [10])) in E, Ht, H0 by (unfold INT_LEN; lia). rewrite length_app in *. cbn [length] in *. rewrite Nat.add_1_r in *.
  exists (length (bytes (fmt_lld z))), buf, s'. split; [done|]. rewrite (c_string_at _ _ (H0 ltac:(lia))), Ht.
  change [10] with (bytes nl). rewrite <- bytes_append. f_equal. apply bytes_shown.
  pose proof (graphic_no_nul _ (graphic_fmt z)) as Hn. revert Hn. generalize (fmt_lld z). intros t. induction t as [|c t IH]; [done|].
  change (String c t +:+ nl) with (String c (t +:+ nl)). cbn [no_nul]. intros [-> Ht']%andb_true_iff. by apply IH.
Qed.

Lemma reqLenStr_good v : good_visit v -> reqLenStr (v_client v) = fmt_lld (v_len v).
Proof. intros [_ [host E] _ _ _ _]. unfold reqLenStr. by rewrite E. Qed.

Lemma serve_good base L block v cfd n p : good_visit v -> (INT_LEN <= length block)%nat -> owns base ((cfd, RFd) :: L) p ->
  exists q, serve block (v_conn v) cfd n p = Ok (Some (v_len v, reply n), u32 (n + v_len v), q) /\ owns base L q.
Proof.
  intros G Hb H. unfold serve. destruct (g_sent v G) as [Hs Ec]. rewrite reqLenStr_good in Ec by done. pose proof (g_len v G) as Hlen. unfold INT_MAX in Hlen.
  destruct (readLine_text block _ (v_len v) Hb ltac:(unfold INT_MIN, INT_MAX; lia) Hs Ec) as (i & buf & s' & -> & Et). cbn [rbind]. rewrite Et. cbn [rbind].
  rewrite atoi_line by (unfold INT_MAX; lia). rewrite (proj2 (Z.leb_gt (v_len v) 0)) by lia. rewrite reply_whole.
  set (p1 := if c_write _ (strlen (reply n)) =? strlen (reply n) then p else _).
  destruct (owns_release base L RFd cfd p1) as (q1 & -> & Hq1 & _); [by apply owns_when_emit|]. cbn [rbind].
  eexists. split; [done|]. by apply owns_when_emit.
Qed.

Lemma ask_good v n : good_visit v -> 0 <= n <= INT_MAX -> ask (v_client v) (v_answer v (reply n)) = Ok (inl ("Sequence number: " +:+ fmt_lld n +:+ nl)).
Proof.
  intros G Hn. unfold ask. rewrite !(g_write v G), !Z.eqb_refl. cbn [negb]. destruct (g_answer v G (reply n)) as [Hs Ec].
  assert (INT_MIN <= n <= INT_MAX) as Hz by (unfold INT_MIN, INT_MAX in *; lia). unfold reply in *. rewrite s32_small in * by done.
  destruct (readLine_text _ _ n (g_block v G) Hz Hs Ec) as (i & buf & s' & -> & Et). cbn [rbind]. by rewrite Et.
Qed.

Definition total (vs : list visit) : Z := foldr (fun v n => v_len v + n) 0 vs.

Lemma total_nonneg vs : Forall good_visit vs -> 0 <= total vs.
Proof. induction 1 as [|v vs G _ IH]; [done|]. change (total (v :: vs)) with (v_len v + total vs). pose proof (g_len v G). lia. Qed.

(** C22. Clients that ask for numbers of at most [INT_MAX] in all are each told the first of the numbers
    that are left, however the connections cut the requests and answers up; so the ranges of two
    clients are disjoint. *)
Theorem clients_get_numbers base L addrStr block vs n p : (INT_LEN <= length block)%nat -> owns base L p -> Forall good_visit vs ->
  0 <= n -> n + total vs <= INT_MAX + 1 ->
  exists replies q, server_loop addrStr block ((fun v => Some (v_conn v)) <$> vs) n p = Ok (replies, n + total vs, q) /\ owns base L q /\
    forall i v, vs !! i = Some v -> exists k text, replies !! i = Some (Some (k, text)) /\
      ask (v_client v) (v_answer v text) = Ok (inl ("Sequence number: " +:+ fmt_lld (n + total (take i vs)) +:+ nl)).
Proof.
  intros Hb H Hvs. revert n p H. induction Hvs as [|v vs G Hvs IH]; intros n p H Hn Ht; cbn [fmap list_fmap server_loop total foldr] in *.
  - exists [], p. rewrite Z.add_0_r. done.
  - fold (total vs) in *. pose proof (g_len v G) as Hlen. pose proof (total_nonneg vs Hvs).
    destruct (acquire RFd p) as [cfd p1] eqn:E. destruct (owns_acquire _ _ _ _ _ _ E H) as [H1 _].
    destruct (serve_good base L block v cfd n (emit (Out ("Connection from " +:+ addrStr (c_name (v_conn v)) +:+ nl)) p1) G Hb) as (q & -> & Hq); [by apply owns_emit|].
    cbn [rbind]. assert (u32 (n + v_len v) = n + v_len v) as -> by (unfold INT_MAX in *; apply Z.mod_small; lia).
    destruct (IH (n + v_len v) q Hq ltac:(lia) ltac:(lia)) as (replies & q' & -> & Hq' & Hr). cbn [rbind].
    exists (Some (v_len v, reply n) :: replies), q'. split; [do 3 f_equal; lia|]. split; [done|]. intros [|i] w Hi; cbn in Hi.
    + injection Hi as <-. exists (v_len v), (reply n). split; [done|]. cbn. rewrite Z.add_0_r. apply ask_good; [done|lia].
    + destruct (Hr i w Hi) as (k & text & E1 & E2). exists k, text. split; [done|]. rewrite E2. cbn [take total foldr]. by rewrite Z.add_assoc.
Qed.

(** ** Small runs *)

Definition block30 : list Z := replicate 30 0.
(** Whole, and byte by byte. *)
Definition whole (t : string) : list event := match t with EmptyString => [] | _ => [Chunk (bytes t)] end.
Definition bytewise (t : string) : list event := (fun b => Chunk [b]) <$> bytes t.
Definition asks (t : string) : conn := MkConn None (whole t) (fun n => n) true.
Definition visit_of (k : Z) (how : string -> list event) : visit :=
  MkVisit (MkClient ["localhost"; fmt_lld k] None (fun n => n) block30) k (MkConn None (how (fmt_lld k +:+ nl)) (fun n => n) true) how.

Lemma whole_ok t : clean (whole t) /\ content (whole t) = bytes t.
Proof. destruct t as [|c t]; [split; [by apply Forall_nil_2|done]|]. split; [apply Forall_cons_2; [done|by apply Forall_nil_2]|]. unfold content. cbn. by rewrite app_nil_r. Qed.

Lemma bytewise_ok t : clean (bytewise t) /\ content (bytewise t) = bytes t.
Proof.
  unfold bytewise. induction (bytes t) as [|b l IH]; [split; [by apply Forall_nil_2|done]|]. destruct IH as [H1 H2]. split; [by apply Forall_cons_2|].
  unfold content in *. rewrite !fmap_cons. cbn [concat]. by rewrite H2.
Qed.

Lemma visit_good k how : 0 < k <= INT_MAX -> (forall t, clean (how t) /\ content (how t) = bytes t) -> good_visit (visit_of k how).
Proof. intros Hk Hh. constructor; try done; [by exists "localhost"%string|apply Hh]. Qed.

Lemma connect_keeps_witness : exists q, inetConnect (Some [MkAddr true true true false 16; MkAddr true true true true 16]) proc0 = Ok (Some 2%nat, q) /\ live q = {[2%nat := RFd]}.
Proof.
  destruct (connect_keeps ∅ [] (Some [MkAddr true true true false 16; MkAddr true true true true 16]) proc0 owns_start) as (r & q & E & H & _).
  exists q. assert (r = Some 2%nat) as -> by (vm_compute in E; by injection E as <- _). split; [exact E|]. by apply owns_live in H.
Defined.

Lemma server_counts_witness :
  exists replies n' q, server_loop v1_addrStr block30 [Some (asks ("2" +:+ nl)); Some (asks ("two" +:+ nl)); None; Some (asks "3")] 7 proc0 = Ok (replies, n', q) /\
    replies = [Some (2, "7" +:+ nl); None; None; Some (3, "9" +:+ nl)]%string /\ n' = 12 /\ live q = ∅.
Proof.
  destruct (server_counts ∅ [] v1_addrStr block30 [Some (asks ("2" +:+ nl)); Some (asks ("two" +:+ nl)); None; Some (asks "3")] 7 proc0 ltac:(unfold INT_LEN; cbn; lia) owns_start) as (replies & n' & q & E & Hq & _).
  exists replies, n', q. split; [exact E|]. apply owns_live in Hq. vm_compute in E. injection E as <- <- _. done.
Defined.

Definition first_server : server_env := MkServer ["100"%string] true (Some [MkAddr true true true true 16]) true true block30 [Some (asks ("2" +:+ nl))].
Lemma servers_serve_witness : exists q, v2_sv_main first_server proc0 = Ok (inl ([Some (2, "100" +:+ nl)], 102), q) /\ granted 100 [Some (2, "100" +:+ nl)] 102.
Proof.
  destruct (servers_serve first_server ltac:(unfold INT_LEN; cbn; lia)) as (_ & r & q & E & H). exists q.
  assert (r = inl ([Some (2, "100" +:+ nl)], 102)) as -> by (vm_compute in E; by injection E as <- _).
  split; [exact E|]. destruct (H _ _ eq_refl) as (n & _ & _ & En & Hg & _). assert (n = 100) as -> by (vm_compute in En; by injection En as <-). exact Hg.
Defined.

Lemma clients_get_numbers_witness :
  exists replies q, server_loop v1_addrStr block30 [Some (v_conn (visit_of 3 whole)); Some (v_conn (visit_of 5 bytewise))] 10 proc0 = Ok (replies, 18, q) /\
    exists k text, replies !! 1%nat = Some (Some (k, text)) /\ ask (v_client (visit_of 5 bytewise)) (bytewise text) = Ok (inl ("Sequence number: 13" +:+ nl)).
Proof.
  destruct (clients_get_numbers ∅ [] v1_addrStr block30 [visit_of 3 whole; visit_of 5 bytewise] 10 proc0) as (replies & q & E & _ & H).
  - unfold INT_LEN. cbn. lia.
  - apply owns_start.
  - repeat apply Forall_cons_2; [apply visit_good; [unfold INT_MAX; lia|apply whole_ok]|apply visit_good; [unfold INT_MAX; lia|apply bytewise_ok]|apply Forall_nil_2].
  - lia.
  - unfold total, INT_MAX. cbn. lia.
  - exists replies, q. split; [exact E|]. destruct (H 1%nat _ eq_refl) as (k & text & E1 & E2). exists k, text. split; [exact E1|]. exact E2.
Defined.

(** After 2^31 numbers the replies are negative; and a request that no [int] holds is taken modulo
    2^32: the client below asks for four thousand million numbers and more, and is given one. *)
Lemma reply_negative : reply (2 ^ 31) = "-2147483648" +:+ nl.
Proof. by vm_compute. Qed.
Lemma request_wraps : exists q, server_loop v1_addrStr block30 [Some (asks ("4294967297" +:+ nl)); Some (asks ("5" +:+ nl))] 0 proc0 =
  Ok ([Some (1, "0" +:+ nl); Some (5, "1" +:+ nl)], 6, q).
Proof. eexists. vm_compute. reflexivity. Qed.
