(* ===== verification/MachineCode.v ===== *)
(** * hello_a.c and hello.c: a program that is an array of machine code

    [main] of these programs of week 1 is not a function but the bytes of one.  This file has the decoding
    and the effect of the instructions that occur there, as the manual of the processor gives them,
    and runs the array.  Registers are 64 bits wide and numbered as in the encoding; memory is a
    function from addresses to bytes; the code itself is not writable.  A system call shows what it
    is asked for; [write] may answer anything. *)

From S2P Require Import Prelude CLib.
Local Open Scope Z_scope.

Definition main_array : list Z := [
  0x55;
  0x48; 0x89; 0xe5;
  0x48; 0x83; 0xec; 0x30;
  0x48; 0xb8; 0x48; 0x65; 0x6c; 0x6c; 0x6f; 0x2c; 0x20; 0x75;
  0x48; 0xba; 0x67; 0x6c; 0x79; 0x20; 0x61; 0x6e; 0x64; 0x20;
  0x48; 0x89; 0x45; 0xd0;
  0x48; 0x89; 0x55; 0xd8;
  0x48; 0xb8; 0x75; 0x6e; 0x66; 0x6f; 0x72; 0x67; 0x69; 0x76;
  0x48; 0xba; 0x69; 0x6e; 0x67; 0x20; 0x77; 0x6f; 0x72; 0x6c;
  0x48; 0x89; 0x45; 0xe0;
  0x48; 0x89; 0x55; 0xe8;
  0xc7; 0x45; 0xf0; 0x64; 0x21; 0x0a; 0x00;
  0x48; 0x8d; 0x75; 0xd0;
  0xb8; 0x01; 0x00; 0x00; 0x00;
  0xbf; 0x01; 0x00; 0x00; 0x00;
  0xba; 0x23; 0x00; 0x00; 0x00;
  0x0f; 0x05;
  0xb8; 0x3c; 0x00; 0x00; 0x00;
  0xbf; 0x2a; 0x00; 0x00; 0x00;
  0x0f; 0x05
].

(** hello.c is the same program without the comments. *)
Definition hello_array : list Z := [
  0x55; 0x48; 0x89; 0xe5; 0x48; 0x83; 0xec; 0x30; 0x48; 0xb8; 0x48; 0x65; 0x6c; 0x6c; 0x6f; 0x2c;
  0x20; 0x75; 0x48; 0xba; 0x67; 0x6c; 0x79; 0x20; 0x61; 0x6e; 0x64; 0x20; 0x48; 0x89; 0x45; 0xd0;
  0x48; 0x89; 0x55; 0xd8; 0x48; 0xb8; 0x75; 0x6e; 0x66; 0x6f; 0x72; 0x67; 0x69; 0x76; 0x48; 0xba;
  0x69; 0x6e; 0x67; 0x20; 0x77; 0x6f; 0x72; 0x6c; 0x48; 0x89; 0x45; 0xe0; 0x48; 0x89; 0x55; 0xe8;
  0xc7; 0x45; 0xf0; 0x64; 0x21; 0x0a; 0x00; 0x48; 0x8d; 0x75; 0xd0; 0xb8; 0x01; 0x00; 0x00; 0x00;
  0xbf; 0x01; 0x00; 0x00; 0x00; 0xba; 0x23; 0x00; 0x00; 0x00; 0x0f; 0x05; 0xb8; 0x3c; 0x00; 0x00;
  0x00; 0xbf; 0x2a; 0x00; 0x00; 0x00; 0x0f; 0x05
].

(** ** Instructions *)

Inductive reg := RAX | RCX | RDX | RBX | RSP | RBP | RSI | RDI.

Definition reg_of (n : Z) : reg :=
  match n with 0 => RAX | 1 => RCX | 2 => RDX | 3 => RBX | 4 => RSP | 5 => RBP | 6 => RSI | _ => RDI end.

Inductive instr :=
| Push (r : reg)
| Mov (dst src : reg)
| SubImm (r : reg) (imm : Z)
| MovImm64 (r : reg) (imm : Z)
| MovImm32 (r : reg) (imm : Z)
| Store64 (disp : Z) (src : reg)   (* to [rbp + disp] *)
| Store32 (disp imm : Z)
| Lea (r : reg) (disp : Z)
| Syscall.

Fixpoint le_value (l : list Z) : Z := match l with [] => 0 | b :: l => b + 256 * le_value l end.

(** The fields of a ModRM byte. *)
Definition mod_ (b : Z) : Z := Z.shiftr b 6.
Definition reg_ (b : Z) : Z := Z.land (Z.shiftr b 3) 7.
Definition rm_ (b : Z) : Z := Z.land b 7.

(** An instruction and its length. *)
Definition decode (code : list Z) : option (instr * nat) :=
  match code with
  | 0x0f :: 0x05 :: _ => Some (Syscall, 2%nat)
  | 0x48 :: 0x89 :: m :: rest =>
      if mod_ m =? 3 then Some (Mov (reg_of (rm_ m)) (reg_of (reg_ m)), 3%nat)
      else match rest with
           | d :: _ => if (mod_ m =? 1) && (rm_ m =? 5) then Some (Store64 (s8 d) (reg_of (reg_ m)), 4%nat) else None
           | [] => None
           end
  | 0x48 :: 0x83 :: m :: i :: _ => if (mod_ m =? 3) && (reg_ m =? 5) then Some (SubImm (reg_of (rm_ m)) (s8 i), 4%nat) else None
  | 0x48 :: 0x8d :: m :: d :: _ => if (mod_ m =? 1) && (rm_ m =? 5) then Some (Lea (reg_of (reg_ m)) (s8 d), 4%nat) else None
  | 0xc7 :: m :: d :: rest => if (mod_ m =? 1) && (rm_ m =? 5) && (reg_ m =? 0) then Some (Store32 (s8 d) (le_value (take 4 rest)), 7%nat) else None
  | 0x48 :: op :: rest => if (0xb8 <=? op) && (op <=? 0xbf) then Some (MovImm64 (reg_of (op - 0xb8)) (le_value (take 8 rest)), 10%nat) else None
  | op :: rest =>
      if (0x50 <=? op) && (op <=? 0x57) then Some (Push (reg_of (op - 0x50)), 1%nat)
      else if (0xb8 <=? op) && (op <=? 0xbf) then Some (MovImm32 (reg_of (op - 0xb8)) (le_value (take 4 rest)), 5%nat)
      else None
  | [] => None
  end.

(** ** The machine *)

Record cpu := MkCpu { regs : reg -> Z; mem : Z -> Z; rip : nat; calls : nat }.

Definition code_of (r : reg) : nat :=
  match r with RAX => 0 | RCX => 1 | RDX => 2 | RBX => 3 | RSP => 4 | RBP => 5 | RSI => 6 | RDI => 7 end.
Definition set_reg (r : reg) (v : Z) (f : reg -> Z) : reg -> Z := fun x => if (code_of x =? code_of r)%nat then v else f x.
Definition store (m : Z -> Z) (a : Z) (bs : list Z) : Z -> Z := fun x => if (a <=? x) && (x <? a + Z.of_nat (length bs)) then nth (Z.to_nat (x - a)) bs 0 else m x.
Fixpoint load (m : Z -> Z) (a : Z) (n : nat) : list Z := match n with O => [] | S n => m a :: load m (a + 1) n end.

Inductive sys := Write (fd : Z) (text : list Z) | Exit (code : Z).

(** [answers] is what the calls of [write] leave in [rax] and [rcx]. *)
Definition exec_instr (answers : nat -> Z * Z) (i : instr) (len : nat) (c : cpu) : option (list sys * option cpu) :=
  let next r m := Some (([] : list sys), Some (MkCpu r m (rip c + len) (calls c))) in
  let R := regs c in
  match i with
  | Push r => let sp := u64 (R RSP - 8) in next (set_reg RSP sp R) (store (mem c) sp (le_bytes 8 (R r)))
  | Mov d s => next (set_reg d (R s) R) (mem c)
  | SubImm r imm => next (set_reg r (u64 (R r - imm)) R) (mem c)
  | MovImm64 r imm | MovImm32 r imm => next (set_reg r imm R) (mem c)
  | Store64 d r => next R (store (mem c) (u64 (R RBP + d)) (le_bytes 8 (R r)))
  | Store32 d imm => next R (store (mem c) (u64 (R RBP + d)) (le_bytes 4 imm))
  | Lea r d => next (set_reg r (u64 (R RBP + d)) R) (mem c)
  | Syscall =>
      if R RAX =? 1 then
        Some ([Write (s32 (R RDI)) (load (mem c) (R RSI) (Z.to_nat (R RDX)))],
              Some (MkCpu (set_reg RAX (fst (answers (calls c))) (set_reg RCX (snd (answers (calls c))) R)) (mem c) (rip c + len) (S (calls c))))
      else if R RAX =? 60 then Some ([Exit (s32 (R RDI))], None)
      else None
  end.

(** [None] is a byte sequence or a call that this file does not know, or a run that was cut off. *)
Fixpoint run (code : list Z) (answers : nat -> Z * Z) (fuel : nat) (c : cpu) : option (list sys) :=
  match fuel with
  | O => None
  | S fuel =>
      match decode (drop (rip c) code) with
      | None => None
      | Some (i, len) =>
          match exec_instr answers i len c with
          | None => None
          | Some (l, None) => Some l
          | Some (l, Some c) => app l <$> run code answers fuel c
          end
      end
  end.

(** ** What the array is *)

Fixpoint disassemble (fuel : nat) (code : list Z) : option (list instr) :=
  match fuel, code with
  | _, [] => Some []
  | O, _ => None
  | S fuel, _ => match decode code with None => None | Some (i, len) => cons i <$> disassemble fuel (drop len code) end
  end.

(** The instructions of the comments beside the bytes. *)
Definition listing : list instr := [
  Push RBP; Mov RBP RSP; SubImm RSP 0x30;
  MovImm64 RAX 0x75202c6f6c6c6548; MovImm64 RDX 0x20646e6120796c67; Store64 (-0x30) RAX; Store64 (-0x28) RDX;
  MovImm64 RAX 0x766967726f666e75; MovImm64 RDX 0x6c726f7720676e69; Store64 (-0x20) RAX; Store64 (-0x18) RDX;
  Store32 (-0x10) 0xa2164; Lea RSI (-0x30); MovImm32 RAX 1; MovImm32 RDI 1; MovImm32 RDX 0x23; Syscall;
  MovImm32 RAX 0x3c; MovImm32 RDI 0x2a; Syscall
].

Lemma same_program : hello_array = main_array.
Proof. reflexivity. Qed.

Lemma comments_right : disassemble 20 main_array = Some listing.
Proof. vm_compute. reflexivity. Qed.

Definition hello_text : list Z := (fun c => code c) <$> String.list_ascii_of_string ("Hello, ugly and unforgiving world!" +:+ nl).

(** ** What it does *)

Lemma store_eq m a bs : forall x, a <= x < a + Z.of_nat (length bs) -> store m a bs x = nth (Z.to_nat (x - a)) bs 0.
Proof. intros x Hx. unfold store. destruct (Z.leb_spec a x), (Z.ltb_spec x (a + Z.of_nat (length bs))); done || lia. Qed.
Lemma store_ne m a bs : forall x, x < a \/ a + Z.of_nat (length bs) <= x -> store m a bs x = m x.
Proof. intros x Hx. unfold store. destruct (Z.leb_spec a x), (Z.ltb_spec x (a + Z.of_nat (length bs))); done || lia. Qed.

Lemma load_app m a n k : load m a (n + k) = load m a n ++ load m (a + Z.of_nat n) k.
Proof.
  revert a. induction n as [|n IH]; intros a; [cbn; by rewrite Z.add_0_r|]. cbn [Nat.add load app]. rewrite IH. do 3 f_equal. lia.
Qed.

Lemma load_ext m m' a n : (forall x, a <= x < a + Z.of_nat n -> m x = m' x) -> load m a n = load m' a n.
Proof.
  revert a. induction n as [|n IH]; intros a H; [done|]. cbn [load]. rewrite H by lia. f_equal. apply IH. intros x Hx. apply H. lia.
Qed.

Lemma load_store m a bs n : (n <= length bs)%nat -> load (store m a bs) a n = take n bs.
Proof.
  revert m a n. induction bs as [|b bs IH]; intros m a n Hn; [cbn in Hn; by replace n with 0%nat by lia|]. destruct n as [|n]; [done|]. cbn [load take].
  rewrite store_eq by (cbn [length]; lia). replace (Z.to_nat (a - a)) with 0%nat by lia. cbn [nth]. f_equal.
  rewrite <- (IH (store m a (b :: bs)) (a + 1) n) by (cbn in Hn; lia). apply load_ext. intros x Hx. cbn in Hn.
  rewrite !store_eq by (cbn [length]; lia). replace (Z.to_nat (x - a)) with (S (Z.to_nat (x - (a + 1)))) by lia. done.
Qed.

Lemma load_at m a bs a' n : a' = a -> (n <= length bs)%nat -> load (store m a bs) a' n = take n bs.
Proof. intros ->. apply load_store. Qed.

Lemma load_skip m a bs a' n : a' + Z.of_nat n <= a \/ a + Z.of_nat (length bs) <= a' -> load (store m a bs) a' n = load m a' n.
Proof. intros H. apply load_ext. intros x Hx. apply store_ne. lia. Qed.

Lemma run_step code answers fuel c i len : decode (drop (rip c) code) = Some (i, len) ->
  run code answers (S fuel) c = match exec_instr answers i len c with None => None | Some (l, None) => Some l | Some (l, Some c) => app l <$> run code answers fuel c end.
Proof. intros E. cbn [run]. by rewrite E. Qed.

Ltac machine_step := erewrite run_step by (vm_compute; reflexivity); cbn [exec_instr regs mem rip calls Nat.add set_reg code_of Nat.eqb].

(** Whatever is in the registers and in memory, with a stack of 56 bytes, the array writes its
    greeting to the standard output and exits with 42, whatever [write] answers. *)
Theorem array_greets answers R m : 56 <= R RSP < 2 ^ 64 ->
  run main_array answers 20 (MkCpu R m 0 0) = Some [Write 1 hello_text; Exit 42].
Proof.
  intros Hsp. set (b := R RSP - 8). assert (forall d, -48 <= d <= 0 -> u64 (b + d) = b + d) as Hu by (intros d Hd; apply u64_small; lia).
  assert (u64 (R RSP - 8) = b) as Hb by (apply u64_small; lia).
  do 17 machine_step. cbn [Z.eqb Pos.eqb]. do 3 machine_step. cbn [Z.eqb Pos.eqb]. 
  cbn [fmap option_fmap option_map app]. rewrite Hb, !Hu by lia. do 3 f_equal. set (M := store (store _ _ _) _ _).
  change (Z.to_nat 35) with (8 + (8 + (8 + (8 + 3))))%nat. rewrite !load_app.
  unfold M. repeat first [rewrite load_at by (rewrite ?length_le_bytes; lia)|rewrite load_skip by (rewrite length_le_bytes; lia)].
  vm_compute. reflexivity.
Qed.

Lemma array_greets_witness : run main_array (fun _ => (-1, 0)) 20 (MkCpu (fun _ => 4096) (fun _ => 0) 0 0) = Some [Write 1 hello_text; Exit 42].
Proof. apply (array_greets (fun _ => (-1, 0)) (fun _ => 4096) (fun _ => 0)). lia. Defined.
