(* ===== verification/Signals.v ===== *)
(** * Week 5, 01_signals: handlers

    The programs are systems of steps: a step is one of [main], or a signal that arrives, which runs
    the handler when it is not blocked.  Writes are complete; [rand] gives any number that is not
    negative. *)

From S2P Require Import Prelude CLib Process Steps Udp.
From Stdlib Require Import Ascii.
Local Open Scope Z_scope.
Local Open Scope c_scope.

Definition SIGINT : Z := 2.
Definition SIGQUIT : Z := 3.
Definition SIGRTMAX : Z := 64.

Definition taunt_arr : list string := [
  "Not now!"; "I'm busy!"; "Later"; "You still there!"; "It's NOT the time";
  "Listen, relax"; "You again!"; "Get off!"; "I'm in the middle of some calibrations"
]%string.

(** [taunt_arr[rand() % (sizeof(taunt_arr) / sizeof(taunt_arr[0]))]] *)
Definition taunt (rnd : Z) : res string :=
  match taunt_arr !! Z.to_nat (rnd `mod` Z.of_nat (length taunt_arr)) with Some t => Ok t | None => Undef OutOfBounds end.

(** ** The loop of ex1.c and ex2.c *)

Definition tolower (b : Z) : Z := if (65 <=? b) && (b <=? 90) then b + 32 else b.
Fixpoint c_text (l : list Z) : list Z := match l with [] => [] | b :: l => if b =? 0 then [] else b :: c_text l end.
Definition quit_line : list Z := [113; 117; 105; 116; 10].
(** [strcasecmp(buffer, "quit\n") == 0] *)
Definition quits (line : list Z) : bool := bool_decide (tolower <$> c_text line = quit_line).

(** One turn: what is left of the input, [None] when the loop is over. *)
Definition turn (stdin : list Z) : option (list Z) :=
  match fgets (BUF_SIZE - 1) stdin with
  | [] => None
  | line => if quits line then None else Some (drop (length line) stdin)
  end.

(** ** ex1.c *)

Record st1 := MkSt1 { stdin1 : option (list Z); said1 : list string }.
Inductive actor1 := Main1 | Sigint (rnd : Z).

(** [SIGINT_handler] *)
Definition SIGINT_handler (rnd : Z) (s : st1) : option st1 :=
  match taunt rnd with Ok t => Some (MkSt1 (stdin1 s) (said1 s ++ [t +:+ nl])) | _ => None end.

Definition ex1 (a : actor1) (s : st1) : option st1 :=
  match stdin1 s, a with
  | None, _ => None
  | Some l, Main1 => Some (MkSt1 (turn l) (said1 s))
  | Some _, Sigint rnd => SIGINT_handler rnd s
  end.

(** ** ex2.c

    The handler writes twice; [SIGINT] and [SIGQUIT] are blocked in it, and each is pending at most
    once.  [main] does not run meanwhile. *)

Inductive at2 := InMain | InHandler (sig : Z) | BeforeNewline (sig : Z).
Record st2 := MkSt2 { stdin2 : option (list Z); at_2 : at2; pending_int : bool; pending_quit : bool; out2 : string; lines2 : list string }.
Inductive actor2 := Main2 | Arrives (sig : Z) | Handler (rnd : Z).

Definition put_out (t : string) (s : st2) : st2 := MkSt2 (stdin2 s) (at_2 s) (pending_int s) (pending_quit s) (out2 s +:+ t) (lines2 s).
Definition go_to (a : at2) (s : st2) : st2 := MkSt2 (stdin2 s) a (pending_int s) (pending_quit s) (out2 s) (lines2 s).
Definition set_pending (i q : bool) (s : st2) : st2 := MkSt2 (stdin2 s) (at_2 s) i q (out2 s) (lines2 s).

(** A signal that is not blocked starts the handler. *)
Definition deliver (s : st2) : st2 :=
  if pending_int s then go_to (InHandler SIGINT) (set_pending false (pending_quit s) s)
  else if pending_quit s then go_to (InHandler SIGQUIT) (set_pending false false s)
  else go_to InMain s.

(** The ghost [lines2] is what was said, a line each. *)
Definition SIG_handler (rnd : Z) (s : st2) : option st2 :=
  match at_2 s with
  | InHandler sig =>
      match taunt rnd with
      | Ok t => let s := go_to (BeforeNewline sig) (put_out t s) in Some (MkSt2 (stdin2 s) (at_2 s) (pending_int s) (pending_quit s) (out2 s) (lines2 s ++ [t]))
      | _ => None
      end
  | BeforeNewline _ => Some (deliver (put_out nl s))
  | InMain => None
  end.

Definition ex2 (a : actor2) (s : st2) : option st2 :=
  match stdin2 s, a with
  | None, _ => None
  | Some l, Main2 => match at_2 s with InMain => Some (MkSt2 (turn l) InMain (pending_int s) (pending_quit s) (out2 s) (lines2 s)) | _ => None end
  | Some _, Arrives sig =>
      if negb ((sig =? SIGINT) || (sig =? SIGQUIT)) then None
      else
        let s := set_pending ((sig =? SIGINT) || pending_int s) ((sig =? SIGQUIT) || pending_quit s) s in
        Some (match at_2 s with InMain => deliver s | _ => s end)
  | Some _, Handler rnd => SIG_handler rnd s
  end.

Definition init2 (stdin : list Z) : st2 := MkSt2 (Some stdin) InMain false false "" [].

(** ** ex3_r.c and ex3_s.c *)

Definition secret_number : Z := 777.

Inductive at_r := RStart | RPid | RTest | REat | RSleep | RDone | RKilled.
Record st_r := MkR { at_receiver : at_r; time_to_go : bool; said_r : list string }.
(** A signal with its value. *)
Inductive actor_r := Receiver | Queued (sig num : Z).

Definition say (t : string) (s : st_r) : st_r := MkR (at_receiver s) (time_to_go s) (said_r s ++ [t]).
Definition r_move (a : at_r) (s : st_r) : st_r := MkR a (time_to_go s) (said_r s).

(** [SIG_handler] of ex3_r.c *)
Definition receive (num : Z) (s : st_r) : st_r :=
  if num =? secret_number then MkR (at_receiver s) true (said_r s) else say ("Not now!" +:+ nl) s.

(** [kills sig]: the default action of a signal ends the process. *)
Definition receiver (kills : Z -> bool) (pid : Z) (a : actor_r) (s : st_r) : option st_r :=
  match at_receiver s, a with
  | (RDone | RKilled), _ => None
  | RStart, Receiver => Some (r_move RPid s)
  | RPid, Receiver => Some (r_move RTest (say ("pid = " +:+ fmt_lld pid +:+ nl) s))
  | RTest, Receiver =>
      if time_to_go s then Some (r_move RDone (say ("Ok, bye..." +:+ nl) s)) else Some (r_move REat (say ("Time to eat..." +:+ nl) s))
  | REat, Receiver => Some (r_move RSleep (say ("Time to sleep..." +:+ nl) s))
  | RSleep, Receiver => Some (r_move RTest s)
  | pc, Queued sig num =>
      match pc with
      | RStart => Some (if kills sig then r_move RKilled s else s)
      | _ => Some (if sig =? SIGRTMAX then receive num s else if kills sig then r_move RKilled s else s)
      end
  end.

Definition init_r : st_r := MkR RStart false [].

(** ex3_s.c: what is printed, the status of an [exit], and the signal that is queued. *)
Inductive sender_does := Usage (text : string) (status : Z) | Queues (pid sig num : Z) (text : option string) | Complains (text : string).

Definition ex3_s (argv : list string) (sigqueue_errno : option Z) : sender_does :=
  match argv with
  | [argv0; a1; a2; a3] =>
      let pid := atoi a1 in
      let sig := atoi a2 in
      let num := atoi a3 in
      if negb (sig =? 0) && negb (pid =? 0) then Queues pid sig num (match sigqueue_errno with Some _ => Some "ERROR: sigqueue()" | None => None end)
      else Complains ("ERROR: sig = " +:+ fmt_lld sig +:+ ", pid = " +:+ fmt_lld pid +:+ nl)
  | argv0 :: _ => Usage ("Usage: " +:+ argv0 +:+ " PID SIGNUM NUM" +:+ nl) 1
  | [] => Usage ("Usage: (null) PID SIGNUM NUM" +:+ nl) 1
  end.

(** ** ex4.c: the text stays in the buffer of stdout *)

Definition ex4 : res (list string) :=
  let ptr : option Z := None in
  match ptr with None => Undef NullDeref | Some _ => Ok ["Goodbye,"; " cruel world!" +:+ nl] end.

(** ** ex1.c and ex2.c end when the input says so *)

Lemma taunt_ok rnd : exists t, taunt rnd = Ok t /\ t ∈ taunt_arr.
Proof.
  unfold taunt. pose proof (Z.mod_pos_bound rnd (Z.of_nat (length taunt_arr)) ltac:(cbn; lia)) as H.
  destruct (lookup_lt_is_Some_2 taunt_arr (Z.to_nat (rnd `mod` Z.of_nat (length taunt_arr)))) as [t E]; [lia|].
  rewrite E. exists t. split; [done|]. by eapply list_elem_of_lookup_2.
Qed.

#[export] Instance actor1_eq_dec : EqDecision actor1.
Proof. solve_decision. Defined.
Definition mains (sched : list actor1) : nat := length (filter (fun a => a = Main1) sched).

Lemma fgets_length n l : (length (fgets n l) <= length l)%nat.
Proof. revert l. induction n as [|n IH]; intros [|c l]; cbn; try lia. destruct (c =? 10); cbn; [lia|]. specialize (IH l). lia. Qed.

Lemma turn_shorter l l' : turn l = Some l' -> (length l' < length l)%nat.
Proof.
  unfold turn. pose proof (fgets_length (BUF_SIZE - 1) l) as H. destruct (fgets (BUF_SIZE - 1) l) as [|c b] eqn:E; [done|].
  destruct (quits (c :: b)); [done|]. intros [= <-]. rewrite length_drop. cbn [length] in *. lia.
Qed.

(** The loop by itself: after [k] turns. *)
Fixpoint turns (k : nat) (stdin : list Z) : option (list Z) := match k with O => Some stdin | S k => turns k stdin ≫= turn end.

Lemma turns_end k l : (length l < k)%nat -> turns k l = None.
Proof.
  intros Hk. assert (forall j, match turns j l with Some l' => (length l' + j <= length l)%nat | None => True end) as H.
  { induction j as [|j IH]; [cbn; lia|]. cbn [turns]. destruct (turns j l) as [l'|]; cbn; [|done].
    destruct (turn l') as [l2|] eqn:E; [|done]. apply turn_shorter in E. lia. }
  specialize (H k). destruct (turns k l); [lia|done].
Qed.

(** Signals do not end ex1.c and take nothing from its input: after any schedule the input is
    where the turns of [main] alone leave it, at most one more than it has bytes, and each signal
    printed one whole line of the array. *)
Theorem signals_do_not_quit input sched s : exec ex1 sched (MkSt1 (Some input) []) = Some s ->
  stdin1 s = turns (mains sched) input /\ (mains sched <= S (length input))%nat /\
  length (said1 s) = (length sched - mains sched)%nat /\ Forall (fun line => exists t, t ∈ taunt_arr /\ line = t +:+ nl) (said1 s).
Proof.
  set (P := fun (k n : nat) (s : st1) => stdin1 s = turns k input /\ (k <= S (length input))%nat /\
    length (said1 s) = n /\ Forall (fun line => exists t, t ∈ taunt_arr /\ line = t +:+ nl) (said1 s)).
  assert (forall sched k n s s', P k n s -> exec ex1 sched s = Some s' -> P (k + mains sched)%nat (n + (length sched - mains sched))%nat s') as H.
  { clear sched s. induction sched as [|a sched IH]; intros k n s s' HP E; cbn [exec] in E.
    - injection E as <-. unfold mains. cbn. by rewrite !Nat.add_0_r.
    - destruct (ex1 a s) as [s1|] eqn:Ea; [|done]. assert (mains sched <= length sched)%nat by apply length_filter.
      destruct HP as (Hin & Hk & Hs & Hf). unfold ex1 in Ea. destruct (stdin1 s) as [l|] eqn:El; [|by destruct a].
      destruct a as [|rnd].
      + injection Ea as <-. assert (mains (Main1 :: sched) = S (mains sched)) as -> by done. cbn [length].
        replace (n + (S (length sched) - S (mains sched)))%nat with (n + (length sched - mains sched))%nat by lia. rewrite <- plus_n_Sm.
        apply (IH (S k) n _ s') in E; [done|]. split_and!; cbn [stdin1 said1]; try done.
        * cbn [turns]. by rewrite <- Hin.
        * destruct (decide (length input < k)%nat) as [Hlt|]; [|lia]. by rewrite (turns_end k input Hlt) in Hin.
      + assert (mains (Sigint rnd :: sched) = mains sched) as -> by done. cbn [length].
        replace (n + (S (length sched) - mains sched))%nat with (S n + (length sched - mains sched))%nat by lia.
        unfold SIGINT_handler in Ea. destruct (taunt_ok rnd) as (t & Et & Ht). rewrite Et in Ea. injection Ea as <-.
        apply (IH k (S n) _ s') in E; [done|]. split_and!; cbn [stdin1 said1]; [by rewrite El|done|rewrite length_app; cbn; lia|].
        apply Forall_app. split; [done|]. apply Forall_cons. split; [by exists t|by apply Forall_nil]. }
  intros E. eapply (H sched 0%nat 0%nat) in E; [exact E|]. by split_and!; [done|cbn; lia|done|apply Forall_nil].
Qed.

(** ** ex2.c writes whole lines *)

Fixpoint join (l : list string) : string := match l with [] => "" | t :: l => t +:+ nl +:+ join l end.

Lemma join_snoc l t : join (l ++ [t]) = (join l +:+ t) +:+ nl.
Proof. induction l as [|u l IH]; [done|]. cbn [app join]. by rewrite IH, !append_assoc. Qed.

Definition whole (s : st2) : Prop :=
  match at_2 s with BeforeNewline _ => out2 s +:+ nl = join (lines2 s) | _ => out2 s = join (lines2 s) end /\ Forall (fun t => t ∈ taunt_arr) (lines2 s).

Lemma deliver_whole s : out2 s = join (lines2 s) -> Forall (fun t => t ∈ taunt_arr) (lines2 s) -> whole (deliver s).
Proof. intros E F. unfold deliver, whole. by repeat case_match. Qed.

(** Whatever signals arrive at ex2.c, what it has written is whole lines of the array, or one that
    lacks only its newline while the handler is between its two writes. *)
Theorem lines_whole input s : reach ex2 (init2 input) s -> whole s.
Proof.
  revert s. apply reach_inv; [by split; [|apply Forall_nil]|]. intros a s s' [E F] Ea. unfold ex2 in Ea. destruct (stdin2 s) as [l|]; [|by destruct a]. destruct a as [|sig|rnd].
  - destruct (at_2 s) eqn:Eat; [|done..]. injection Ea as <-. by split.
  - destruct (negb _); [done|]. injection Ea as <-. destruct (at_2 s) eqn:Eat; [by apply deliver_whole|..]; unfold whole; cbn; by rewrite Eat.
  - unfold SIG_handler in Ea. destruct (at_2 s) eqn:Eat; [done|..].
    + destruct (taunt_ok rnd) as (t & Et & Ht). rewrite Et in Ea. injection Ea as <-. unfold whole. cbn. rewrite join_snoc, E. split; [done|].
      apply Forall_app. split; [done|]. by apply Forall_cons.
    + injection Ea as <-. by apply deliver_whole.
Qed.

(** ** The secret number *)

Definition real_time (a : actor_r) : bool := match a with Queued sig _ => sig =? SIGRTMAX | Receiver => true end.
Definition receivers (sched : list actor_r) : Z := sum_by (fun a => match a with Receiver => 1 | _ => 0 end) sched.
Definition told (sched : list actor_r) : bool := existsb (fun a => match a with Queued _ num => num =? secret_number | Receiver => false end) sched.
(** The steps to the end once the number is known. *)
Definition rank (a : at_r) : Z := match a with RStart => 3 | RPid => 2 | RTest => 1 | REat => 3 | RSleep => 2 | RDone | RKilled => 0 end.

Lemma receiver_told kills pid sched s s' : time_to_go s = true -> at_receiver s <> RStart -> Forall (fun a => real_time a = true) sched ->
  exec (receiver kills pid) sched s = Some s' -> receivers sched + rank (at_receiver s') = rank (at_receiver s) /\ time_to_go s' = true /\ (at_receiver s <> RKilled -> at_receiver s' <> RKilled).
Proof.
  revert s. induction sched as [|a sched IH]; intros s Ht Hs Hf E; cbn [exec] in E; [by injection E as <-|].
  destruct (receiver kills pid a s) as [s1|] eqn:Ea; [|done]. apply Forall_cons in Hf as [Ha Hf]. unfold receivers. rewrite sum_by_cons. fold (receivers sched).
  assert (time_to_go s1 = true /\ at_receiver s1 <> RStart /\ rank (at_receiver s1) = rank (at_receiver s) - (match a with Receiver => 1 | _ => 0 end) /\ (at_receiver s <> RKilled -> at_receiver s1 <> RKilled)) as (H1 & H2 & H3 & H4).
  { unfold receiver in Ea. rewrite Ht in Ea. destruct a as [|sig num].
    - destruct (at_receiver s); try done; injection Ea as <-; done.
    - cbn in Ha. rewrite Ha in Ea. unfold receive in Ea. destruct (at_receiver s) eqn:Er; try done; injection Ea as <-; destruct (num =? secret_number); cbn; rewrite ?Er, ?Ht; split_and!; done || lia. }
  destruct (IH s1 H1 H2 Hf E) as (G1 & G2 & G3). split_and!; [lia|done|auto].
Qed.

(** After the handler is set, the flag says whether the number was among the signals. *)
Lemma told_sets kills pid sched s s' : at_receiver s <> RStart -> Forall (fun a => real_time a = true) sched ->
  exec (receiver kills pid) sched s = Some s' -> time_to_go s' = time_to_go s || told sched.
Proof.
  revert s. induction sched as [|a sched IH]; intros s Hs Hf E; cbn [exec] in E; [injection E as <-; by rewrite orb_false_r|].
  destruct (receiver kills pid a s) as [s1|] eqn:Ea; [|done]. apply Forall_cons in Hf as [Ha Hf].
  assert (at_receiver s1 <> RStart /\ time_to_go s1 = time_to_go s || told [a]) as [H1 H2].
  { unfold receiver in Ea. destruct a as [|sig num].
    - destruct (at_receiver s); try done; try destruct (time_to_go s) eqn:Et; injection Ea as <-; cbn; by rewrite ?Et, ?orb_false_r.
    - cbn in Ha. rewrite Ha in Ea. unfold receive in Ea. cbn. destruct (at_receiver s) eqn:Er; try done; injection Ea as <-; destruct (num =? secret_number); cbn; by rewrite ?Er, ?orb_true_r, ?orb_false_r. }
  rewrite (IH s1 H1 Hf E), H2. cbn. by rewrite orb_false_r, orb_assoc.
Qed.

(** C32. Real-time signals end ex3_r.c exactly by the secret number: without it the receiver never comes
    to its last line; after the handler is set the flag says whether the number has arrived; once it has, the
    receiver makes at most three more steps, is never stuck before the end, and is not killed. *)
Theorem secret_ends kills pid s : reach (receiver kills pid) init_r s ->
  (time_to_go s = false -> at_receiver s <> RDone) /\
  (forall sched s', at_receiver s <> RStart -> Forall (fun a => real_time a = true) sched -> exec (receiver kills pid) sched s = Some s' -> time_to_go s' = time_to_go s || told sched) /\
  (forall sched s', time_to_go s = true -> at_receiver s <> RKilled -> Forall (fun a => real_time a = true) sched -> exec (receiver kills pid) sched s = Some s' ->
     receivers sched <= 3 /\ at_receiver s' <> RKilled /\ (receiver kills pid Receiver s' = None -> at_receiver s' = RDone)).
Proof.
  intros H. assert ((time_to_go s = false -> at_receiver s <> RDone) /\ (at_receiver s = RStart -> time_to_go s = false)) as [H1 H2].
  { revert s H. apply reach_inv; [done|]. intros a s s' [I1 I2] Ea. unfold receiver in Ea. destruct (at_receiver s) eqn:Er; [..|done|done]; destruct a as [|sig num]; try (injection Ea as <-; cbn; done).
    - injection Ea as <-. destruct (kills sig); cbn; rewrite ?Er; done.
    - injection Ea as <-. unfold receive. destruct (sig =? SIGRTMAX), (num =? secret_number), (kills sig); cbn; rewrite ?Er; done.
    - destruct (time_to_go s) eqn:Et; injection Ea as <-; cbn; rewrite ?Et; done.
    - injection Ea as <-. unfold receive. destruct (sig =? SIGRTMAX), (num =? secret_number), (kills sig); cbn; rewrite ?Er; done.
    - injection Ea as <-. unfold receive. destruct (sig =? SIGRTMAX), (num =? secret_number), (kills sig); cbn; rewrite ?Er; done.
    - injection Ea as <-. unfold receive. destruct (sig =? SIGRTMAX), (num =? secret_number), (kills sig); cbn; rewrite ?Er; done. }
  split; [done|]. split; [intros sched s'; apply told_sets|]. intros sched s' Ht Hk Hf E. assert (at_receiver s <> RStart) as Hs by (intros Es; rewrite (H2 Es) in Ht; done).
  destruct (receiver_told kills pid sched s s' Ht Hs Hf E) as (G1 & G2 & G3). split_and!; [|by apply G3|].
  - assert (forall a, 0 <= rank a <= 3) as Hr by (intros []; cbn; lia). pose proof (Hr (at_receiver s)). pose proof (Hr (at_receiver s')). lia.
  - intros En. unfold receiver in En. specialize (G3 Hk). rewrite G2 in En. by destruct (at_receiver s').
Qed.

(** The sender queues it. *)
Lemma sender_queues_secret argv0 pid e : 0 < pid <= INT_MAX -> exists text, ex3_s [argv0; fmt_lld pid; "64"%string; "777"%string] e = Queues pid SIGRTMAX secret_number text.
Proof.
  intros Hp. unfold INT_MAX in Hp. assert (atoi (fmt_lld pid) = pid) as E.
  { unfold atoi, atol. rewrite strtoll_fmt_lld by (unfold LLONG_MIN, LLONG_MAX; lia). apply s32_small. unfold INT_MIN, INT_MAX. lia. }
  unfold ex3_s. rewrite E. replace (atoi "64") with 64 by (by vm_compute). replace (atoi "777") with 777 by (by vm_compute).
  destruct (Z.eqb_spec pid 0); [lia|]. by eexists.
Qed.

(** ** Small runs *)

Definition quit_input : list Z := [104; 105; 10; 81; 117; 73; 116; 10; 120].
Definition sched1 : list actor1 := [Sigint 3; Main1; Sigint 12; Main1].

Lemma signals_do_not_quit_witness : exists s, exec ex1 sched1 (MkSt1 (Some quit_input) []) = Some s /\ stdin1 s = None /\ length (said1 s) = 2%nat.
Proof.
  eexists. split; [vm_compute; reflexivity|]. set (s := MkSt1 _ _).
  destruct (signals_do_not_quit quit_input sched1 s ltac:(vm_compute; reflexivity)) as (E & _ & L & _). split; [rewrite E; vm_compute; reflexivity|exact L].
Defined.

Lemma lines_whole_witness : exists s, exec ex2 [Arrives 2; Arrives 3; Handler 0; Arrives 2; Handler 0; Handler 1] (init2 quit_input) = Some s /\
  out2 s = "Not now!" +:+ nl +:+ "I'm busy!" /\ out2 s +:+ nl = join (lines2 s).
Proof.
  eexists. split; [vm_compute; reflexivity|]. set (s := MkSt2 _ _ _ _ _ _).
  destruct (lines_whole quit_input s) as [E _]; [exists [Arrives 2; Arrives 3; Handler 0; Arrives 2; Handler 0; Handler 1]; vm_compute; reflexivity|].
  split; [vm_compute; reflexivity|exact E].
Defined.

Definition kills_all (sig : Z) : bool := true.
Definition told_r : st_r := default init_r (exec (receiver kills_all 99) [Receiver; Receiver; Receiver; Queued 64 5; Queued 64 777] init_r).
Lemma secret_ends_witness : exists s', exec (receiver kills_all 99) [Receiver; Queued 64 6; Receiver; Receiver] told_r = Some s' /\ at_receiver s' = RDone.
Proof.
  eexists. split; [vm_compute; reflexivity|]. set (s' := MkR _ _ _).
  destruct (secret_ends kills_all 99 told_r) as (_ & _ & H); [exists [Receiver; Receiver; Receiver; Queued 64 5; Queued 64 777]; vm_compute; reflexivity|].
  destruct (H [Receiver; Queued 64 6; Receiver; Receiver] s') as (_ & _ & Hn); [vm_compute; reflexivity|vm_compute; discriminate|by repeat (apply Forall_cons; split; [done|])|vm_compute; reflexivity|].
  apply Hn. vm_compute. reflexivity.
Defined.

(** A signal that comes before the handler is set ends the receiver; and [ex3_s] returns 0 although
    nothing was sent. *)
Lemma early_signal_kills : exec (receiver kills_all 99) [Queued 64 777] init_r = Some (MkR RKilled false []).
Proof. by vm_compute. Qed.
Lemma sender_complains : ex3_s ["ex3_s"; "nobody"; "64"; "777"] None = Complains ("ERROR: sig = 64, pid = 0" +:+ nl).
Proof. by vm_compute. Qed.
