(* ===== verification/Forks.v ===== *)
(** * Week 2, 02_processes, and ex1.c of week 4: parents and children

    What the calls answer is an argument of each program.  The status that [wait] gives is that of a
    process that exited, [code * 256], or the number of the signal that ended it. *)

From S2P Require Import Prelude CLib Process.
Local Open Scope Z_scope.
Local Open Scope c_scope.

Definition WIFEXITED (status : Z) : bool := Z.land status 0x7f =? 0.
Definition WEXITSTATUS (status : Z) : Z := Z.land (Z.shiftr status 8) 0xff.
Definition exited (code : Z) : Z := Z.shiftl (Z.land code 0xff) 8.
Definition fmt_x (z : Z) : string := utoa 16 (u32 z).

(** ** ex1_fork.c

    [forked] is the process number that [fork] gives the parent, or [None].  [ls] is the status with
    which the program that the child becomes ends, [None] where [execlp] fails.  Children that the
    process already had may be waited for first. *)

Record child_env := MkChild { forked : option Z; ls : option Z; earlier : list (Z * Z) }.

(** The child: its output and the status with which it ends. *)
Definition run_child (C : child_env) : list ev * Z :=
  match ls C with
  | Some status => ([], status)
  | None => ([Err ("ERROR: failed to exec()" +:+ nl)], exited 0)
  end.

(** [while (pid != wait(&status));] *)
Fixpoint wait_for (pid : Z) (waits : list (Z * Z)) : res Z :=
  match waits with
  | [] => NoFuel
  | (p, status) :: waits => if pid =? p then Ok status else wait_for pid waits
  end.

Definition report (status : Z) : list ev :=
  if WIFEXITED status && negb (WEXITSTATUS status =? 0) then [Err ("ERROR: status = " +:+ fmt_x status +:+ nl)] else [].

(** What both processes print, the child's part first. *)
Definition fork_and_wait (C : child_env) : res (list ev) :=
  match forked C with
  | None => Ok [Err ("ERROR: failed to fork()" +:+ nl)]
  | Some pid =>
      let '(out, status) := run_child C in
      let* status := wait_for pid (earlier C ++ [(pid, status)]) in
      Ok (out ++ report status)
  end.

Definition ex1_fork_main (C : child_env) : res (list ev) := fork_and_wait C.

(** ** ex3_vfork.c *)

Definition MAX_ALLOCS : Z := 1024 * 1024.
(** The macros are not in parentheses: the product below is what the compiler sees. *)
Definition reported_bytes : Z := 1024 * 1024 * 2 * 1024.
Definition ALLOC_SIZE : Z := 2 * 1024.

(** [mallocs i]: the call in turn [i] succeeds.  The number of blocks, and the message. *)
Fixpoint alloc_loop (mallocs : nat -> bool) (n i : nat) : nat * list ev :=
  match n with
  | O => (i, [])
  | S n => if mallocs i then alloc_loop mallocs n (S i) else (i, [Err ("ERROR: malloc failed at " +:+ fmt_lld (Z.of_nat i) +:+ " iteration" +:+ nl)])
  end.

Definition ex3_vfork_main (mallocs : nat -> bool) (C : child_env) : res (nat * list ev) :=
  let '(blocks, out) := alloc_loop mallocs (Z.to_nat MAX_ALLOCS) 0 in
  let out := out ++ [Err ("Allocated " +:+ fmt_lld reported_bytes +:+ " bytes in heap" +:+ nl); Err ("Now trying to fork..." +:+ nl)] in
  let* more := fork_and_wait C in Ok (blocks, out ++ more).

(** ** ex2_vfork.c and week4/01_create/ex1.c: whose variables the child changes *)

(** [shares] is [vfork]: the child runs in the memory of the parent. *)
Definition in_child {A} (shares : bool) (body : A -> A) (memory : A) : A := if shares then body memory else memory.

Definition ex2_vfork_main (shares : bool) (forked : option Z) : list ev :=
  let ab := (5, 8) in
  let ab := match forked with Some _ => in_child shares (fun '(a, b) => (a + 5, b + 2)) ab | None => ab end in
  let pid := match forked with Some pid => pid | None => -1 end in
  [Out ("pid = " +:+ fmt_lld pid +:+ nl); Out ("a + b = " +:+ fmt_lld (fst ab + snd ab) +:+ nl)].

Definition week4_ex1_main (forked : option Z) : list ev * Z :=
  let variable := 0 in
  match forked with
  | None => ([Perror "fork" 0], EXIT_FAILURE)
  | Some _ => let variable := in_child false (fun _ => 1) variable in ([Out ("variable = " +:+ fmt_lld variable +:+ nl)], EXIT_SUCCESS)
  end.

(** ** ex1_zombie.c

    [forks] are the answers of [fork]; [killed pid] is the status of a child that was killed while it
    slept.  A wait takes the children in any order: [order] is the order. *)

Definition NZ : nat := 10.

Definition child_status (killed : Z -> option Z) (pid : Z) : Z := match killed pid with Some status => status | None => exited 0xff end.

(** [status] is not set before the first [wait] that finds a child. *)
Fixpoint wait_loop (n : nat) (children : list Z) (killed : Z -> option Z) (status : option Z) : res (list ev) :=
  match n with
  | O => Ok []
  | S n =>
      let '(status, children) := match children with [] => (status, []) | pid :: children => (Some (child_status killed pid), children) end in
      match status with
      | None => Undef UninitRead
      | Some x => let* out := wait_loop n children killed status in Ok (Err ("status = " +:+ fmt_x x +:+ nl) :: out)
      end
  end.

Definition ex1_zombie_main (forks : list (option Z)) (order : list Z -> list Z) (killed : Z -> option Z) : res (list ev) :=
  let children := omap id (take NZ forks) in
  wait_loop NZ (order children) killed None.

(** ** ex4_atexit.c *)

Definition cleaner_one (code : Z) : ev := Out ("cleaner_one() called" +:+ nl).
Definition cleaner_two (code : Z) : ev := Out ("cleaner_two() called [exit code = " +:+ fmt_lld code +:+ "]" +:+ nl).

(** [exit]: the handlers, the last one first. *)
Definition exit_with (handlers : list (Z -> ev)) (code : Z) : list ev := (fun h => h code) <$> reverse handlers.

Definition ex4_atexit_main : list ev * Z :=
  let handlers := [cleaner_one] ++ [cleaner_two] in
  ([Out ("starting main()" +:+ nl); Out ("before exit()" +:+ nl)] ++ exit_with handlers 42, 42).

(** ** ex5_popen.c: [process] is the first line of the output and the status, [None] where [popen] fails. *)

Definition ex5_popen_main (process : option (string * Z)) : res (list ev) :=
  match process with
  | None => Undef NullDeref
  | Some (line, status) => Ok [Out ("Process output: [" +:+ take_str 1023 line +:+ "]" +:+ nl); Out ("Process return code: [" +:+ fmt_lld status +:+ "]" +:+ nl)]
  end.

(** ** What they do *)

Lemma wait_for_skip pid l status rest : (forall x, x ∈ l -> fst x <> pid) -> wait_for pid (l ++ (pid, status) :: rest) = Ok status.
Proof.
  induction l as [|[p st] l IH]; intros H; cbn [app wait_for]; [by rewrite Z.eqb_refl|].
  destruct (Z.eqb_spec pid p) as [->|]; [by destruct (H (p, st) ltac:(left))|]. apply IH. intros x Hx. apply H. by right.
Qed.

Lemma exit_status code : 0 <= code < 256 -> WIFEXITED (exited code) = true /\ WEXITSTATUS (exited code) = code.
Proof.
  intros H. assert (exited code = code * 256) as ->.
  { unfold exited. change 0xff with (Z.ones 8). rewrite Z.land_ones by lia. change (2 ^ 8) with 256. rewrite Z.mod_small by lia. by rewrite Z.shiftl_mul_pow2 by lia. }
  unfold WIFEXITED, WEXITSTATUS. change 0xff with (Z.ones 8). change 0x7f with (Z.ones 7). rewrite Z.shiftr_div_pow2 by lia. rewrite !Z.land_ones by lia.
  change (2 ^ 8) with 256. change (2 ^ 7) with 128. rewrite Z.div_mul, (Z.mod_small code) by lia. split; [|done].
  apply Z.eqb_eq. replace (code * 256) with (code * 2 * 128) by lia. apply Z.mod_mul. lia.
Qed.

(** When [ls] runs and exits with a code, the parent reports exactly the codes that are not 0,
    whatever children it had before. *)
Theorem fork_reports pid code before : 0 <= code < 256 -> (forall x, x ∈ before -> fst x <> pid) ->
  ex1_fork_main (MkChild (Some pid) (Some (exited code)) before) =
  Ok (if code =? 0 then [] else [Err ("ERROR: status = " +:+ fmt_x (exited code) +:+ nl)]).
Proof.
  intros Hc Hb. unfold ex1_fork_main, fork_and_wait. cbn [forked run_child ls earlier]. rewrite wait_for_skip by done. cbn [rbind app].
  unfold report. destruct (exit_status code Hc) as [-> ->]. by destruct (code =? 0).
Qed.

Lemma fork_reports_witness : ex1_fork_main (MkChild (Some 7) (Some (exited 2)) [(5, 0)]) = Ok [Err ("ERROR: status = 200" +:+ nl)].
Proof. rewrite (fork_reports 7 2 [(5, 0)]); [vm_compute; reflexivity|lia|]. intros x Hx. apply list_elem_of_singleton in Hx as ->. discriminate. Defined.

(** A child whose [execlp] fails returns 0, so that the parent takes it for a success; a [ls] that is
    ended by a signal is not reported either. *)
Lemma exec_failure_is_success pid : ex1_fork_main (MkChild (Some pid) None []) = Ok [Err ("ERROR: failed to exec()" +:+ nl)] /\
  ex1_fork_main (MkChild (Some pid) (Some 9) []) = Ok [].
Proof. unfold ex1_fork_main, fork_and_wait. cbn [forked run_child ls earlier app wait_for]. rewrite Z.eqb_refl. split; vm_compute; reflexivity. Qed.

(** The message of ex3_vfork.c does not depend on what was allocated. *)
Lemma alloc_loop_fails n i : alloc_loop (fun _ => false) (S n) i = (i, [Err ("ERROR: malloc failed at " +:+ fmt_lld (Z.of_nat i) +:+ " iteration" +:+ nl)]).
Proof. done. Qed.
Lemma nothing_allocated C out : fork_and_wait C = Ok out -> exists first, ex3_vfork_main (fun _ => false) C =
  Ok (0%nat, [first; Err ("Allocated " +:+ fmt_lld (Z.of_nat (Z.to_nat MAX_ALLOCS) * ALLOC_SIZE) +:+ " bytes in heap" +:+ nl); Err ("Now trying to fork..." +:+ nl)] ++ out).
Proof.
  intros E. unfold ex3_vfork_main. assert (reported_bytes = MAX_ALLOCS * ALLOC_SIZE) as -> by done. generalize MAX_ALLOCS, (eq_refl : (0 <? MAX_ALLOCS) = true).
  intros m Hm%Z.ltb_lt. rewrite Z2Nat.id by lia. destruct (Z.to_nat m) as [|n] eqn:En; [lia|]. rewrite alloc_loop_fails, E. by eexists.
Qed.

(** The child of [fork] changes its own copy, that of [vfork] the variables of the parent. *)
Lemma whose_variables pid : ex2_vfork_main false (Some pid) = [Out ("pid = " +:+ fmt_lld pid +:+ nl); Out ("a + b = 13" +:+ nl)] /\
  ex2_vfork_main true (Some pid) = [Out ("pid = " +:+ fmt_lld pid +:+ nl); Out ("a + b = 20" +:+ nl)] /\
  week4_ex1_main (Some pid) = ([Out ("variable = 0" +:+ nl)], EXIT_SUCCESS).
Proof. split_and!; reflexivity. Qed.

Lemma handlers_backwards : ex4_atexit_main = ([Out ("starting main()" +:+ nl); Out ("before exit()" +:+ nl); Out ("cleaner_two() called [exit code = 42]" +:+ nl); Out ("cleaner_one() called" +:+ nl)], 42).
Proof. vm_compute. reflexivity. Qed.

Lemma wait_loop_all n children killed status : (forall pid, killed pid = None) -> length children = n ->
  wait_loop n children killed status = Ok (replicate n (Err ("status = ff00" +:+ nl))).
Proof.
  intros Hk. revert children status. induction n as [|n IH]; intros [|pid children] status Hl; try done. cbn [wait_loop]. unfold child_status. rewrite Hk.
  rewrite IH by (cbn in Hl; lia). cbn [rbind replicate]. do 2 f_equal. 
Qed.

(** When every [fork] succeeds and no child is killed, ex1_zombie.c prints the status of each of the
    ten, in whatever order they are found. *)
Theorem zombies_counted forks order killed : (forall pid, killed pid = None) -> (forall l, order l ≡ₚ l) -> length (omap id (take NZ forks)) = NZ ->
  ex1_zombie_main forks order killed = Ok (replicate NZ (Err ("status = ff00" +:+ nl))).
Proof. intros Hk Ho Hl. unfold ex1_zombie_main. apply wait_loop_all; [done|]. by rewrite (Ho _). Qed.

Lemma zombies_counted_witness : ex1_zombie_main (Some <$> [1; 2; 3; 4; 5; 6; 7; 8; 9; 10]) (@reverse Z) (fun _ => None) = Ok (replicate 10 (Err ("status = ff00" +:+ nl))).
Proof. apply (zombies_counted (Some <$> [1; 2; 3; 4; 5; 6; 7; 8; 9; 10]) (@reverse Z) (fun _ => None)); [done|apply reverse_Permutation|done]. Defined.

(** Where [fork] failed there is one child less to find: its line repeats the status before, and
    without any child the status was never written. *)
Lemma failed_fork_repeats : ex1_zombie_main (Some 1 :: replicate 9 None) id (fun _ => Some 9) = Ok (replicate 10 (Err ("status = 9" +:+ nl))) /\
  ex1_zombie_main (replicate 10 None) id (fun _ => None) = Undef UninitRead.
Proof. split; vm_compute; reflexivity. Qed.
