(* ===== verification/Creation.v ===== *)
(** * Week 4, 01_create: threads that are created, joined and cancelled

    Each program is a system of steps of its threads.  A call of [sleep] is a step and orders nothing;
    [pthread_create] succeeds where the state does not say otherwise. *)

From S2P Require Import Prelude CLib Process Steps.
Local Open Scope Z_scope.
Local Open Scope c_scope.

(** ** ex2.c: a variable that two threads use without a lock *)

Inductive race_at := RCreate | RSleep | RRead | RDone.
Record race := MkRace { r_main : race_at; r_child : option bool; variable : Z; r_out : list string }.
Inductive two := MainThread | Child.

(** [r_child]: [Some true] before the assignment. *)
Definition ex2 (a : two) (s : race) : option race :=
  match a with
  | MainThread =>
      match r_main s with
      | RCreate => Some (MkRace RSleep (Some true) (variable s) (r_out s))
      | RSleep => Some (MkRace RRead (r_child s) (variable s) (r_out s))
      | RRead => Some (MkRace RDone (r_child s) (variable s) (r_out s ++ ["variable = " +:+ fmt_lld (variable s) +:+ nl]))
      | RDone => None
      end
  | Child =>
      match r_child s, r_main s with
      | Some true, (RSleep | RRead) => Some (MkRace (r_main s) (Some false) 1 (r_out s))
      | _, _ => None
      end
  end.

Definition ex2_init : race := MkRace RCreate None 0 [].

(** ** ex3.c: a stack of a given size, and the value that a thread returns *)

Definition wanted_stack : Z := 8 * 1024.

(** The least stack of the system, its default one, and whether [pthread_create] works. *)
Record limits := MkLimits { stack_min : Z; stack_default : Z; creates : bool }.

(** [pthread_attr_setstacksize]; its result is overwritten by that of [pthread_create]. *)
Definition setstacksize (L : limits) (size : Z) : Z := if size <? stack_min L then stack_default L else size.

Definition thread_func3 : list string * Z := (["child thread: entered, waiting..." +:+ nl; "child thread: exiting..." +:+ nl]%string, 777).

(** The stack of the thread, the output of [main] and that of the thread, and the status. *)
Definition ex3_main (L : limits) : option Z * list string * list string * Z :=
  let size := setstacksize L wanted_stack in
  let out := ["main thread: started, creating child..." +:+ nl]%string in
  if negb (creates L) then (None, out, [], EXIT_FAILURE)
  else
    let '(said, ret) := thread_func3 in
    (Some size, out ++ ["main thread: exiting..." +:+ nl; "main thread: child thread returned " +:+ fmt_lld (s32 ret) +:+ nl]%string, said, 0).

(** ** ex4.c: a thread that is cancelled

    Cancellation is deferred: a request is acted upon at a cancellation point, which [printf] (POSIX
    lets it be one: [prints], a parameter, says whether it is), [pthread_testcancel] and [sleep] are. *)

Definition PTHREAD_CANCELED : Z := -1.

Inductive c_at := CStart | CPrint | CTest | CSleep | CCleanup | CEnded.
Inductive m_at := MStart | MCreate | MSleep | MCancel | MJoin | MPrint | MDone.
Record canc := MkCanc { m4 : m_at; c4 : option c_at; requested : bool; ret4 : Z; out4 : list string }.

Definition entered : string := "child thread: entered, waiting..." +:+ nl.
Definition cleaned : string := "clean up!" +:+ nl.

(** Where a request is pending the cleanup handler is run instead. *)
Definition point (next : c_at) (said : list string) (s : canc) : canc :=
  if requested s then MkCanc (m4 s) (Some CCleanup) (requested s) (ret4 s) (out4 s)
  else MkCanc (m4 s) (Some next) (requested s) (ret4 s) (out4 s ++ said).

(** [printf] in the child. *)
Definition print_point (prints : bool) (next : c_at) (said : list string) (s : canc) : canc :=
  if prints then point next said s else MkCanc (m4 s) (Some next) (requested s) (ret4 s) (out4 s ++ said).

Definition ex4_child (prints : bool) (s : canc) : option canc :=
  match c4 s with
  | None | Some CEnded => None
  | Some CStart => Some (MkCanc (m4 s) (Some CPrint) (requested s) (ret4 s) (out4 s))
  | Some CPrint => Some (print_point prints CTest [entered] s)
  | Some CTest => Some (point CSleep [] s)
  | Some CSleep => Some (point CTest [] s)
  | Some CCleanup => Some (MkCanc (m4 s) (Some CEnded) (requested s) (ret4 s) (out4 s ++ [cleaned]))
  end.

Definition ex4_main (s : canc) : option canc :=
  match m4 s with
  | MStart => Some (MkCanc MCreate (c4 s) (requested s) (ret4 s) (out4 s ++ ["main thread: started, creating child..." +:+ nl]))
  | MCreate => Some (MkCanc MSleep (Some CStart) (requested s) (ret4 s) (out4 s))
  | MSleep => Some (MkCanc MCancel (c4 s) (requested s) (ret4 s) (out4 s))
  | MCancel => Some (MkCanc MJoin (c4 s) true (ret4 s) (out4 s))
  | MJoin => match c4 s with Some CEnded => Some (MkCanc MPrint (c4 s) (requested s) PTHREAD_CANCELED (out4 s)) | _ => None end
  | MPrint => Some (MkCanc MDone (c4 s) (requested s) (ret4 s) (out4 s ++ ["main thread: child thread returned " +:+ fmt_lld (s32 (ret4 s)) +:+ nl]))
  | MDone => None
  end.

Definition ex4 (prints : bool) (a : two) (s : canc) : option canc :=
  match a with MainThread => ex4_main s | Child => ex4_child prints s end.
Definition ex4_init : canc := MkCanc MStart None false 0 [].

(** ** ex_tgid.c: four threads *)

Inductive t_at := TPrint | TCreate | TSleep | TJoin | TEnded.
Inductive p_at := PCreate1 | PCreate2 | PPrint | PSleep | PJoin1 | PJoin2 | PDone.

(** The threads 1, 2 and 3; [faults] is a [pthread_join] of an identifier that was never written. *)
Record tgid := MkTgid { p_main : p_at; thread1 : option t_at; thread2 : option t_at; thread3 : option t_at; faults : bool; t_out : list string }.
Inductive num := One | Two | Three.
Inductive who := Process | Thread (n : num).

Definition thread (n : num) (s : tgid) : option t_at := match n with One => thread1 s | Two => thread2 s | Three => thread3 s end.
Definition t_move (n : num) (a : t_at) (s : tgid) : tgid :=
  match n with
  | One => MkTgid (p_main s) (Some a) (thread2 s) (thread3 s) (faults s) (t_out s)
  | Two => MkTgid (p_main s) (thread1 s) (Some a) (thread3 s) (faults s) (t_out s)
  | Three => MkTgid (p_main s) (thread1 s) (thread2 s) (Some a) (faults s) (t_out s)
  end.
Definition p_move (a : p_at) (s : tgid) : tgid := MkTgid a (thread1 s) (thread2 s) (thread3 s) (faults s) (t_out s).
Definition t_print (l : list string) (s : tgid) : tgid := MkTgid (p_main s) (thread1 s) (thread2 s) (thread3 s) (faults s) (t_out s ++ l).
Definition fault (s : tgid) : tgid := MkTgid (p_main s) (thread1 s) (thread2 s) (thread3 s) true (t_out s).
Definition intArg (n : num) : Z := match n with One => 1 | Two => 2 | Three => 3 end.

(** The three lines; the numbers are the answers of the calls.  They are one step: no theorem is
    about how lines of several threads mix. *)
Definition ids (pid tid self : Z) (name : string) : list string :=
  [name +:+ " getpid() = " +:+ fmt_lld pid +:+ nl; name +:+ " gettid() = " +:+ fmt_lld tid +:+ nl; name +:+ " pthread_self() = " +:+ fmt_lld self +:+ nl].

Section Tgid.
Context (pid : Z) (tid self : Z -> Z).

Definition threadMethod (n : num) (s : tgid) : option tgid :=
  match thread n s with
  | None | Some TEnded => None
  | Some TPrint => Some (t_move n TCreate (t_print (ids pid (tid (intArg n)) (self (intArg n)) ("[Thread " +:+ fmt_lld (intArg n) +:+ "]")) s))
  | Some TCreate => Some (t_move n TSleep (if intArg n =? 1 then t_move Three TPrint s else s))
  | Some TSleep => Some (t_move n TJoin s)
  | Some TJoin =>
      if intArg n =? 1 then match thread3 s with Some TEnded => Some (t_move n TEnded s) | _ => None end
      else Some (fault s)
  end.

Definition tgid_main (s : tgid) : option tgid :=
  match p_main s with
  | PCreate1 => Some (p_move PCreate2 (t_move One TPrint s))
  | PCreate2 => Some (p_move PPrint (t_move Two TPrint s))
  | PPrint => Some (p_move PSleep (t_print (ids pid (tid 0) (self 0) "[Process]") s))
  | PSleep => Some (p_move PJoin1 s)
  | PJoin1 => match thread1 s with Some TEnded => Some (p_move PJoin2 s) | _ => None end
  | PJoin2 => match thread2 s with Some TEnded => Some (p_move PDone s) | _ => None end
  | PDone => None
  end.

(** Nothing follows undefined behaviour. *)
Definition ex_tgid (a : who) (s : tgid) : option tgid :=
  if faults s then None else match a with Process => tgid_main s | Thread n => threadMethod n s end.

Definition tgid_init : tgid := MkTgid PCreate1 None None None false [].

(** ** ex_tgid.c never ends well *)

Definition created (o : option t_at) : bool := match o with Some _ => true | None => false end.
(** [TPrint] or [TCreate], or not yet there. *)
Definition fresh (o : option t_at) : bool := match o with None | Some (TPrint | TCreate) => true | _ => false end.
Definition early (a : p_at) : bool := match a with PCreate1 | PCreate2 => true | _ => false end.

Record tgid_inv (s : tgid) : Prop := MkTInv {
  t_1 : thread1 s <> Some TEnded; t_2 : thread2 s <> Some TEnded; t_3 : thread3 s <> Some TEnded;
  t_main : p_main s <> PJoin2 /\ p_main s <> PDone;
  t_first : created (thread1 s) = match p_main s with PCreate1 => false | _ => true end;
  t_second : created (thread2 s) = negb (early (p_main s));
  t_third : created (thread3 s) = negb (fresh (thread1 s))
}.

Definition t_left (o : option t_at) : Z := match o with None => 5 | Some TPrint => 4 | Some TCreate => 3 | Some TSleep => 2 | Some TJoin => 1 | Some TEnded => 0 end.
Definition p_left (a : p_at) : Z := match a with PCreate1 => 6 | PCreate2 => 5 | PPrint => 4 | PSleep => 3 | PJoin1 => 2 | PJoin2 => 1 | PDone => 0 end.
Definition tgid_left (s : tgid) : Z := p_left (p_main s) + t_left (thread1 s) + t_left (thread2 s) + t_left (thread3 s) + (if faults s then 0 else 1).

Lemma tgid_step a s s' : tgid_inv s -> ex_tgid a s = Some s' -> tgid_inv s' /\ tgid_left s' < tgid_left s.
Proof.
  intros [H1 H2 H3 [Hp Hd] Hf Hs Ht] E. unfold ex_tgid in E. destruct s as [m o1 o2 o3 f out]. cbn [p_main thread1 thread2 thread3 faults t_out] in *.
  destruct f; [done|]. destruct a as [|n]; unfold tgid_main, threadMethod, thread in E; cbn [p_main thread1 thread2 thread3 faults t_out] in E.
  - destruct m; try done; try (injection E as <-); try (destruct o1 as [[]|]; done);
      (destruct o1 as [a1|]; try done; destruct o2 as [a2|]; try done; split; [by constructor|unfold tgid_left; cbn; destruct o3; lia]).
  - destruct n; cbn [intArg Z.eqb Pos.eqb] in E.
    + destruct o1 as [[]|]; try done; [..|destruct o3 as [[]|]; done]; injection E as <-; destruct o3 as [a3|]; try done; (split; [by constructor|unfold tgid_left; cbn; lia]).
    + destruct o2 as [[]|]; try done; injection E as <-; (split; [by constructor|unfold tgid_left; cbn; lia]).
    + destruct o3 as [[]|]; try done; injection E as <-; (split; [by constructor|unfold tgid_left; cbn; lia]).
Qed.

(** However its threads are scheduled, ex_tgid.c does not end: after at most 22 steps it has
    joined a thread by an identifier that was never written, which is undefined; [main] never
    returns before that. *)
Theorem never_ends_well sched s : exec ex_tgid sched tgid_init = Some s ->
  (length sched <= 22)%nat /\ p_main s <> PDone /\ ((forall a, ex_tgid a s = None) -> faults s = true).
Proof.
  intros E. assert (tgid_inv tgid_init) as I0 by (by constructor).
  assert (tgid_inv s) as I by (eapply (reach_inv ex_tgid tgid_inv); [exact I0|intros a s1 s2 I1 Ea; by eapply tgid_step|by exists sched]).
  split_and!.
  - eapply (exec_measure ex_tgid tgid_inv tgid_left) in E; [|intros a s1 s2 I1 Ea; by eapply tgid_step|done].
    change (tgid_left tgid_init) with 22 in E. assert (0 <= tgid_left s); [|lia]. unfold tgid_left, p_left, t_left. repeat case_match; lia.
  - apply (t_main s I).
  - intros Hn. destruct (faults s) eqn:Ef; [done|]. pose proof (Hn Process) as Hm. pose proof (Hn (Thread Two)) as H2. unfold ex_tgid in Hm, H2. rewrite Ef in Hm, H2.
    pose proof (t_second s I) as Hs. pose proof (t_2 s I) as He. unfold threadMethod, tgid_main, thread in Hm, H2.
    destruct (thread2 s) as [[]|]; try done. by destruct (p_main s).
Qed.
End Tgid.

Lemma never_ends_well_witness : exists s, exec (ex_tgid 10 id id) [Process; Process; Thread Two; Thread Two; Thread Two; Thread Two] tgid_init = Some s /\ faults s = true /\ p_main s <> PDone.
Proof.
  eexists. split; [vm_compute; reflexivity|]. set (s := MkTgid _ _ _ _ _ _). split; [done|].
  apply (never_ends_well 10 id id [Process; Process; Thread Two; Thread Two; Thread Two; Thread Two] s). vm_compute. reflexivity.
Defined.

(** ** ex4.c cleans up once *)

Definition started_line : string := "main thread: started, creating child..." +:+ nl.
Definition returned_line : string := "main thread: child thread returned -1" +:+ nl.

(** What the main thread printed before the child, what the child printed, and what came after it;
    [e] says that the request came after the child's first line. *)
Definition before4 (m : m_at) : list string := match m with MStart => [] | _ => [started_line] end.
Definition said4 (e : bool) (c : option c_at) : list string :=
  match c with
  | None | Some (CStart | CPrint) => []
  | Some (CTest | CSleep) => [entered]
  | Some CCleanup => if e then [entered] else []
  | Some CEnded => (if e then [entered] else []) ++ [cleaned]
  end.
Definition after4 (m : m_at) : list string := match m with MDone => [returned_line] | _ => [] end.

Definition canc_ctl (m : m_at) (c : option c_at) (r : bool) (v : Z) : bool :=
  match m, c with
  | (MStart | MCreate), None => negb r
  | (MSleep | MCancel), Some (CStart | CPrint | CTest | CSleep) => negb r
  | MJoin, Some _ => r
  | (MPrint | MDone), Some CEnded => r && (v =? PTHREAD_CANCELED)
  | _, _ => false
  end.

Definition canc_inv (s : canc) : Prop :=
  canc_ctl (m4 s) (c4 s) (requested s) (ret4 s) = true /\ exists e, out4 s = before4 (m4 s) ++ said4 e (c4 s) ++ after4 (m4 s).

Lemma ex4_main_inv s s' : canc_inv s -> ex4_main s = Some s' -> canc_inv s'.
Proof.
  intros [Hc [e Ho]] E. destruct s as [m c r v out]. cbn [m4 c4 requested ret4 out4] in *. subst out.
  destruct m; cbn in E; try (destruct c as [[]|]; try done); injection E as <-; (split; [try done|exists e; try done]); cbn in Hc.
  all: try (by destruct r).
  apply andb_true_iff in Hc as [_ ->%Z.eqb_eq]. cbn [out4 m4 c4 ret4 before4 said4 after4]. rewrite app_nil_r, <- app_assoc. by destruct e.
Qed.

Lemma ex4_child_inv pp s s' : canc_inv s -> ex4_child pp s = Some s' -> canc_inv s'.
Proof.
  intros [Hc [e Ho]] E. destruct s as [m c r v out]. cbn [m4 c4 requested ret4 out4] in *. subst out.
  destruct pp, c as [[]|]; try done; destruct m; try done; destruct r; try done; cbn in E; injection E as <-; (split; [done|]); cbn [out4 m4 c4 ret4 before4 said4 after4].
  all: first [by exists e | by exists true | by exists false | by destruct e; [exists true|exists false]].
Qed.

(** The steps that are left once the request is made. *)
Definition canc_left (pp : bool) (s : canc) : Z :=
  let late := if pp then 0 else 1 in
  match m4 s with MJoin => 2 | MPrint => 1 | _ => 0 end +
  match c4 s with Some CStart => 3 + late | Some CPrint => 2 + late | Some (CTest | CSleep) => 2 | Some CCleanup => 1 | _ => 0 end.
Definition asked (s : canc) : Prop := canc_inv s /\ requested s = true.

Lemma asked_step pp a s s' : asked s -> ex4 pp a s = Some s' -> asked s' /\ canc_left pp s' < canc_left pp s.
Proof.
  intros [I R] E. assert (canc_inv s') as I' by (destruct a; [by apply (ex4_main_inv s)|by apply (ex4_child_inv pp s)]).
  destruct I as [Hc _]. destruct s as [m c r v out]. cbn [m4 c4 requested ret4 out4] in *. subst r. unfold asked.
  destruct pp, a; destruct m; try done; destruct c as [[]|]; try done; cbn in E; injection E as <-; (split; [split; [exact I'|done]|unfold canc_left; cbn [m4 c4]; lia]).
Qed.

(** C33. However the threads of ex4.c are scheduled: when [main] has returned, the cleanup handler ran
    exactly once, after the child's first line if that was printed at all, and -1 was reported as the
    thread's value; the child never said that it exits.  And once the request is made, at most five
    steps are left, or six where [printf] is no cancellation point, and nothing stops before [main]
    has returned. *)
Theorem cancelled_cleans_up prints sched s : exec (ex4 prints) sched ex4_init = Some s ->
  (m4 s = MDone -> out4 s = [started_line; cleaned; returned_line] \/ out4 s = [started_line; entered; cleaned; returned_line])
  /\ (requested s = true -> forall more s', exec (ex4 prints) more s = Some s' ->
       (length more <= if prints then 5 else 6)%nat /\ ((forall a, ex4 prints a s' = None) -> m4 s' = MDone)).
Proof.
  intros E. assert (canc_inv s) as I.
  { eapply (reach_inv (ex4 prints) canc_inv ex4_init); [by split; [|by exists true]|intros [] s1 s2; [apply ex4_main_inv|apply ex4_child_inv]|by exists sched]. }
  split.
  - intros Hm. destruct I as [Hc [e ->]]. rewrite Hm in *. destruct (c4 s) as [[]|]; try done. destruct e; [by right|by left].
  - intros R more s' E'. assert (asked s) as A by done. split.
    + eapply (exec_measure (ex4 prints) asked (canc_left prints)) in E'; [|intros a s1 s2; apply asked_step|done].
      unfold canc_left in E'. destruct prints; repeat case_match; lia.
    + intros Hn. assert (asked s') as [I' R'] by (eapply (reach_inv (ex4 prints) asked s); [exact A|intros a s1 s2 A1 E1; by eapply asked_step|by exists more]).
      destruct I' as [Hc _]. pose proof (Hn MainThread) as H1. pose proof (Hn Child) as H2.
      unfold ex4, ex4_main, ex4_child in H1, H2. rewrite R' in Hc. destruct (m4 s'); try done; destruct (c4 s') as [[]|]; done.
Qed.

Lemma cancelled_cleans_up_witness : exists s, exec (ex4 true) [MainThread; MainThread; Child; Child; MainThread; MainThread; Child; Child; MainThread; MainThread] ex4_init = Some s /\ out4 s = [started_line; entered; cleaned; returned_line].
Proof.
  eexists. split; [vm_compute; reflexivity|]. set (s := MkCanc _ _ _ _ _).
  destruct (cancelled_cleans_up true [MainThread; MainThread; Child; Child; MainThread; MainThread; Child; Child; MainThread; MainThread] s) as [H _]; [vm_compute; reflexivity|].
  destruct (H eq_refl) as [H1|H1]; [|exact H1]. exfalso. apply (f_equal (@length string)) in H1. vm_compute in H1. discriminate.
Defined.

(** ** ex2.c, ex3.c *)

(** Both values are printed by some schedule: the [sleep] decides nothing. *)
Lemma either_is_printed : exists a b s t, exec ex2 a ex2_init = Some s /\ exec ex2 b ex2_init = Some t
  /\ r_main s = RDone /\ r_main t = RDone /\ r_out s = ["variable = 0" +:+ nl] /\ r_out t = ["variable = 1" +:+ nl].
Proof. exists [MainThread; MainThread; MainThread], [MainThread; Child; MainThread; MainThread]. do 2 eexists. by vm_compute. Qed.

(** Where the least stack is above 8 KiB, as it is on Linux (16 KiB), the thread of ex3.c runs on a
    stack of the default size, and nothing is reported. *)
Lemma stack_request_is_lost d : exists out said, ex3_main (MkLimits 16384 d true) = (Some d, out, said, 0).
Proof. by repeat eexists. Qed.
