(* ===== verification/MyStdlib.v ===== *)
(** * mystdlib.c: a C library of three functions, and the program that is linked with it

    Week 1, 03_syscalls/mystdlib.  Memory is a partial function from addresses to bytes; the kernel's
    answer to [write] is a parameter.  A run gives the system calls that it makes. *)

From S2P Require Import Prelude CLib MachineCode.
Local Open Scope Z_scope.
Local Open Scope c_scope.

Definition space := Z -> option Z.

Definition get (m : space) (a : Z) : res Z := match m a with Some b => Ok b | None => Undef OutOfBounds end.

(** The loop of [strlen]: the address after the zero. *)
Fixpoint scan (fuel : nat) (m : space) (str : Z) : res Z :=
  match fuel with
  | O => NoFuel
  | S fuel => let* c := get m str in if c =? 0 then Ok (str + 1) else scan fuel m (str + 1)
  end.

(** The difference of pointers is a [ptrdiff_t] and is returned as an [int]. *)
Definition my_strlen (fuel : nat) (m : space) (str : Z) : res Z :=
  if str =? 0 then Ok (-1) else let* fin := scan fuel m str in Ok (s32 (s64 (fin - str - 1))).

Fixpoint get_bytes (m : space) (a : Z) (n : nat) : res (list Z) :=
  match n with O => Ok [] | S n => let* b := get m a in let* l := get_bytes m (a + 1) n in Ok (b :: l) end.

Definition MY_STDOUT : Z := 1.
Definition SYS_write : Z := 1.
Definition SYS_exit : Z := 60.

(** What the call is given, and the low half of [rax] after it.  A buffer that is not all there is
    the caller's fault. *)
Definition my_write (answer : Z -> list Z -> Z) (m : space) (fd buf count : Z) : res (list sys * Z) :=
  if (fd =? -1) || (buf =? 0) || (count <=? 0) then Ok ([], -1)
  else let* l := get_bytes m buf (Z.to_nat count) in Ok ([Write fd l], s32 (answer fd l)).

Definition my_exit (code : Z) : list sys := [Exit code].

(** [main] of hello.c: the literal is at the address [hello]; [exit] does not return. *)
Definition hello_main (answer : Z -> list Z -> Z) (fuel : nat) (m : space) (hello : Z) : res (list sys) :=
  let* n := my_strlen fuel m hello in
  let* (l, _) := my_write answer m MY_STDOUT hello n in
  Ok (l ++ my_exit 0).

(** [_start]: a [main] that returns, and what the process asks of the kernel. *)
Definition start (main : list sys * Z) : list sys := let '(l, code) := main in l ++ my_exit code.

(** ** Theorems *)

(** [m] has the bytes [l] and a zero at [a]. *)
Definition string_at (m : space) (a : Z) (l : list Z) : Prop :=
  (forall i b, l !! i = Some b -> m (a + Z.of_nat i) = Some b /\ b <> 0) /\ m (a + Z.of_nat (length l)) = Some 0.

Lemma string_at_cons m a b l : string_at m a (b :: l) -> m a = Some b /\ b <> 0 /\ string_at m (a + 1) l.
Proof.
  intros [H1 H2]. destruct (H1 0%nat b eq_refl) as [Hb Hn]. rewrite Z.add_0_r in Hb. split_and!; [done|done|]. split.
  - intros i c Hi. destruct (H1 (S i) c Hi) as [E ?]. split; [|done]. rewrite <- E. f_equal. lia.
  - rewrite <- H2. f_equal. cbn [length]. lia.
Qed.

Lemma scan_string m l : forall a fuel, string_at m a l -> (length l < fuel)%nat -> scan fuel m a = Ok (a + Z.of_nat (length l) + 1).
Proof.
  induction l as [|b l IH]; intros a [|fuel] H Hf; cbn [length] in *; try lia.
  - destruct H as [_ H]. cbn [length] in H. rewrite Z.add_0_r in *. cbn [scan]. unfold get. rewrite H. done.
  - apply string_at_cons in H as (Hb & Hn & H). cbn [scan]. unfold get. rewrite Hb. cbn [rbind]. destruct (Z.eqb_spec b 0); [done|].
    rewrite IH by (done || lia). f_equal. lia.
Qed.

Lemma strlen_of m l a fuel : string_at m a l -> a <> 0 -> (length l < fuel)%nat -> Z.of_nat (length l) < 2 ^ 63 ->
  my_strlen fuel m a = Ok (s32 (Z.of_nat (length l))).
Proof.
  intros H Ha Hf Hl. unfold my_strlen. destruct (Z.eqb_spec a 0); [done|]. rewrite (scan_string m l) by done. cbn [rbind].
  replace (a + Z.of_nat (length l) + 1 - a - 1) with (Z.of_nat (length l)) by lia. by rewrite (s64_small (Z.of_nat (length l))) by (unfold LLONG_MIN, LLONG_MAX; lia).
Qed.

Lemma get_bytes_string m l : forall a, string_at m a l -> get_bytes m a (length l) = Ok l.
Proof.
  induction l as [|b l IH]; intros a H; [done|]. apply string_at_cons in H as (Hb & _ & H). cbn [length get_bytes]. unfold get at 1. rewrite Hb. cbn [rbind].
  by rewrite IH.
Qed.

(** The program's literal, in UTF-8. *)
Definition hello_bytes : list Z := [
  0xd0; 0xa5; 0xd0; 0xb5; 0xd0; 0xbb; 0xd0; 0xbb; 0xd0; 0xbe; 0xd1; 0x83; 0x2c; 0x20;
  0xd0; 0xb2; 0xd0; 0xbe; 0xd1; 0x80; 0xd0; 0xbb; 0xd0; 0xb4; 0x21; 0x0a].

(** A C string of at most INT_MAX bytes at any address but 0 is measured exactly, and written in
    one call: the kernel is given its bytes without the zero, and the caller the low half of the
    answer, so that an error is a negative error number and not -1. *)
Theorem string_is_written answer m a l fd fuel : string_at m a l -> a <> 0 -> l <> [] -> fd <> -1 -> Z.of_nat (length l) <= INT_MAX -> (length l < fuel)%nat ->
  exists n, my_strlen fuel m a = Ok n /\ n = Z.of_nat (length l) /\ my_write answer m fd a n = Ok ([Write fd l], s32 (answer fd l)).
Proof.
  intros H Ha Hl Hfd Hm Hf. unfold INT_MAX in Hm. exists (Z.of_nat (length l)). rewrite (strlen_of m l) by (done || lia). rewrite s32_small by (unfold INT_MIN, INT_MAX; lia). split_and!; [done|done|].
  unfold my_write. destruct (Z.eqb_spec fd (-1)); [done|]. destruct (Z.eqb_spec a 0); [done|]. destruct l as [|b l]; [done|].
  destruct (Z.leb_spec (Z.of_nat (length (b :: l))) 0) as [Hz|Hz]; [cbn [length] in Hz; lia|]. cbn [orb]. by rewrite Nat2Z.id, (get_bytes_string m (b :: l)).
Qed.

Definition at_64 (l : list Z) : space := fun x => if x <? 64 then None else (l ++ [0]) !! Z.to_nat (x - 64).

Lemma string_is_written_witness : exists n, my_strlen 30 (at_64 hello_bytes) 64 = Ok n /\ n = 26 /\ my_write (fun _ _ => -9) (at_64 hello_bytes) 7 64 n = Ok ([Write 7 hello_bytes], -9).
Proof.
  apply (string_is_written (fun _ _ => -9) (at_64 hello_bytes) 64 hello_bytes 7 30); [|done|done|done|vm_compute; discriminate|vm_compute; lia].
  split; [|reflexivity]. intros i b Hi. do 26 (destruct i as [|i]; [injection Hi as <-; split; [reflexivity|discriminate]|]). discriminate.
Defined.

(** The program writes its greeting and exits with 0, whatever [write] answers. *)
Lemma hello_runs answer m a : string_at m a hello_bytes -> a <> 0 -> hello_main answer 30 m a = Ok [Write 1 hello_bytes; Exit 0].
Proof.
  intros H Ha. unfold hello_main. rewrite (strlen_of m hello_bytes) by (try done; vm_compute; lia). cbn [rbind].
  change (s32 (Z.of_nat (length hello_bytes))) with 26. unfold my_write. destruct (Z.eqb_spec a 0); [done|].
  change (Z.to_nat 26) with (length hello_bytes). by rewrite (get_bytes_string m hello_bytes).
Qed.

(** A string of 2 GiB has a negative length, and is not written. *)
Lemma long_string_is_negative : s32 (2 ^ 31) < 0 /\ forall answer m fd a, my_write answer m fd a (s32 (2 ^ 31)) = Ok ([], -1).
Proof. split; [done|]. intros. unfold my_write. change (s32 (2 ^ 31) <=? 0) with true. by rewrite orb_true_r. Qed.
