(* ===== verification/Producers.v ===== *)
(** * tlpi/threads/prod_condvar.c: producers and a consumer with a condition variable

    [main] makes one producer for each argument and consumes what they make, sleeping on [cond] while
    there is nothing.  A producer signals after it has given the mutex back.  A step is one operation
    on the mutex or on [cond], a test, or one access of [avail] by a producer; a waiter may wake up
    without a signal.  The calls on the mutex and [pthread_create] succeed; the lines that are printed
    are left out.  After undefined behaviour, an overflow of [int], nothing follows. *)

From S2P Require Import Prelude CLib Steps.
Local Open Scope Z_scope.

Inductive owner := Main | Producer (i : nat).
Inductive ppc := PNext | PLock | PRead | PStore (v : Z) | PUnlock | PSignal | PDone.
Record producer := MkP { cnt : Z; turn_j : Z; p_at : ppc }.
Inductive mpc := MCreate (argv : list string) | MLock | MTest | MWaiting | MWoken | MConsume | MUnlock | MExit | MUndef.

Record st := MkSt {
  avail : Z; mutex : option owner; prods : list producer;
  main_at : mpc; totRequired : Z; numConsumed : Z; done_ : bool
}.

Definition init (argv : list string) : st := MkSt 0 None [] (MCreate argv) 0 0 false.

Definition set_prod (i : nat) (p : producer) (s : st) : st :=
  MkSt (avail s) (mutex s) (<[i := p]> (prods s)) (main_at s) (totRequired s) (numConsumed s) (done_ s).
Definition set_mutex (o : option owner) (s : st) : st :=
  MkSt (avail s) o (prods s) (main_at s) (totRequired s) (numConsumed s) (done_ s).
Definition set_main (m : mpc) (s : st) : st :=
  MkSt (avail s) (mutex s) (prods s) m (totRequired s) (numConsumed s) (done_ s).
Definition set_avail (v : Z) (s : st) : st :=
  MkSt v (mutex s) (prods s) (main_at s) (totRequired s) (numConsumed s) (done_ s).

Definition fits (z : Z) : bool := (INT_MIN <=? z) && (z <=? INT_MAX).

(** [pthread_cond_signal]; only [main] ever waits. *)
Definition wake (s : st) : st := match main_at s with MWaiting => set_main MWoken s | _ => s end.

Definition producer_step (i : nat) (s : st) : option st :=
  match prods s !! i with
  | None => None
  | Some p =>
      let go a := set_prod i (MkP (cnt p) (turn_j p) a) in
      match p_at p with
      | PNext => Some (go (if turn_j p <? cnt p then PLock else PDone) s)
      | PLock => match mutex s with None => Some (go PRead (set_mutex (Some (Producer i)) s)) | Some _ => None end
      | PRead => Some (go (PStore (avail s)) s)
      | PStore v => Some (if fits (v + 1) then go PUnlock (set_avail (v + 1) s) else set_main MUndef s)
      | PUnlock => Some (go PSignal (set_mutex None s))
      | PSignal => Some (set_prod i (MkP (cnt p) (turn_j p + 1) PNext) (wake s))
      | PDone => None
      end
  end.

(** [totRequired += atoi(argv[j])] and the new thread. *)
Definition create (arg : string) (rest : list string) (s : st) : st :=
  if fits (totRequired s + atoi arg)
  then MkSt (avail s) (mutex s) (prods s ++ [MkP (atoi arg) 0 PNext]) (MCreate rest) (totRequired s + atoi arg) (numConsumed s) (done_ s)
  else set_main MUndef s.

(** One unit. *)
Definition consume (s : st) : st :=
  if fits (numConsumed s + 1)
  then MkSt (avail s - 1) (mutex s) (prods s) (main_at s) (totRequired s) (numConsumed s + 1) (totRequired s <=? numConsumed s + 1)
  else set_main MUndef s.

Definition main_step (s : st) : option st :=
  match main_at s with
  | MCreate (arg :: rest) => Some (create arg rest s)
  | MCreate [] => Some (set_main MLock s)
  | MLock | MWoken => match mutex s with None => Some (set_main MTest (set_mutex (Some Main) s)) | Some _ => None end
  | MTest => Some (if avail s =? 0 then set_main MWaiting (set_mutex None s) else set_main MConsume s)
  | MConsume => Some (if 0 <? avail s then consume s else set_main MUnlock s)
  | MUnlock => Some (set_main (if done_ s then MExit else MLock) (set_mutex None s))
  | MWaiting | MExit | MUndef => None
  end.

Inductive actor := Mn | P (i : nat) | Spurious.

Definition act (a : actor) (s : st) : option st :=
  match main_at s, a with
  | (MExit | MUndef), _ => None
  | MWaiting, Spurious => Some (wake s)
  | _, Spurious => None
  | _, Mn => main_step s
  | _, P i => producer_step i s
  end.

(** ** The invariant *)

Definition holds (a : ppc) : bool := match a with PRead | PStore _ | PUnlock => true | _ => false end.
Definition main_holds (m : mpc) : bool := match m with MTest | MConsume | MUnlock => true | _ => false end.
(** The units that a producer has made. *)
Definition made (p : producer) : Z := turn_j p + match p_at p with PUnlock | PSignal => 1 | _ => 0 end.
Definition p_ok (p : producer) : bool :=
  (0 <=? turn_j p) && match p_at p with PNext => turn_j p <=? cnt p | PDone => turn_j p =? cnt p | _ => turn_j p <? cnt p end.
Definition to_signal (p : producer) : bool := match p_at p with PUnlock | PSignal => true | _ => false end.

Definition to_come (m : mpc) : Z := match m with MCreate rest => sum_by atoi rest | _ => 0 end.
Definition rest_ok (m : mpc) : Prop := match m with MCreate rest => Forall (fun a => 0 <= atoi a) rest | _ => True end.

Section Inv.
Context (total : Z).

(** What [main] knows where it is. *)
Definition main_ok (s : st) : Prop :=
  match main_at s with
  | MCreate _ | MLock | MTest | MWoken => done_ s = false
  | MWaiting => done_ s = false /\ (0 < avail s -> exists i p, prods s !! i = Some p /\ to_signal p = true)
  | MConsume => True
  | MUnlock => avail s = 0
  | MExit => done_ s = true /\ avail s = 0
  | MUndef => False
  end.

Record inv (s : st) : Prop := MkInv {
  i_lock : forall i p, prods s !! i = Some p -> holds (p_at p) = true -> mutex s = Some (Producer i);
  i_owner : forall i, mutex s = Some (Producer i) -> exists p, prods s !! i = Some p /\ holds (p_at p) = true;
  i_main : main_holds (main_at s) = match mutex s with Some Main => true | _ => false end;
  i_store : forall i p v, prods s !! i = Some p -> p_at p = PStore v -> v = avail s;
  i_prods : forall i p, prods s !! i = Some p -> p_ok p = true;
  i_units : numConsumed s + avail s = sum_by made (prods s);
  i_avail : 0 <= avail s /\ 0 <= numConsumed s;
  i_tot : totRequired s = sum_by cnt (prods s) /\ totRequired s + to_come (main_at s) = total;
  i_rest : rest_ok (main_at s);
  i_done : done_ s = (total <=? numConsumed s);
  i_pc : main_ok s
}.

Lemma cnt_of_p_ok p : p_ok p = true -> 0 <= made p <= cnt p.
Proof. destruct p as [c j a]. unfold p_ok, made. destruct a; cbn; intros; lia. Qed.

(** What a producer has still to make. *)
Definition spare (p : producer) : Z := cnt p - made p.

Lemma sum_spare l : sum_by made l + sum_by spare l = sum_by cnt l.
Proof. induction l as [|p l IH]; [done|]. rewrite !sum_by_cons. unfold spare in *. lia. Qed.

Lemma spare_nonneg s : inv s -> forall p, p ∈ prods s -> 0 <= spare p.
Proof. intros I p Hp. apply list_elem_of_lookup in Hp as [i Hi]. pose proof (cnt_of_p_ok p (i_prods s I i p Hi)). unfold spare. lia. Qed.

(** Nothing is consumed that was not made, and the total is not passed. *)
Lemma consumed_le s : inv s -> numConsumed s + avail s <= totRequired s <= total.
Proof.
  intros I. rewrite (i_units s I). destruct (i_tot s I) as [Et El]. split.
  - rewrite Et, <- sum_spare. pose proof (sum_by_nonneg spare (prods s) (spare_nonneg s I)). lia.
  - pose proof (i_rest s I) as Hr. unfold to_come, rest_ok in *. destruct (main_at s) as [rest| | | | | | | |]; try lia.
    pose proof (sum_by_nonneg atoi rest (fun y Hy => proj1 (Forall_forall _ _) Hr y Hy)). lia.
Qed.

Lemma consumed_lt s i p : inv s -> prods s !! i = Some p -> 0 < spare p -> numConsumed s + avail s < total.
Proof.
  intros I Hp H. pose proof (sum_by_ge_elem spare (prods s) i p (spare_nonneg s I) Hp). pose proof (consumed_le s I) as [_ Ht].
  rewrite (i_units s I). destruct (i_tot s I) as [Et _]. rewrite <- sum_spare in Et. lia.
Qed.

(** A step of producer [i] that keeps the books. *)
Lemma producer_upd s i p p' mu av m : inv s -> prods s !! i = Some p ->
  (holds (p_at p') = true <-> mu = Some (Producer i)) -> (forall o, o <> Producer i -> mu = Some o <-> mutex s = Some o) ->
  (forall v, p_at p' = PStore v -> v = av) -> (av <> avail s -> mutex s = Some (Producer i)) -> 0 <= av ->
  p_ok p' = true -> made p' - made p = av - avail s -> cnt p' = cnt p ->
  (m = main_at s \/ (main_at s = MWaiting /\ m = MWoken)) ->
  let s' := MkSt av mu (<[i := p']> (prods s)) m (totRequired s) (numConsumed s) (done_ s) in
  main_ok s' -> inv s'.
Proof.
  intros I Hp Hh Ho Hst Hav H0 Hok Hmade Hc Hm s' Hpc. pose proof (lookup_lt_Some _ _ _ Hp) as Hlt.
  assert (main_holds m = main_holds (main_at s) /\ to_come m = to_come (main_at s) /\ (rest_ok (main_at s) -> rest_ok m)) as (Em & Et & Er) by (destruct Hm as [->|[-> ->]]; done).
  constructor; unfold s'; cbn [avail mutex prods main_at totRequired numConsumed done_]; try done.
  - intros k q Hk Hq. apply list_lookup_insert_Some in Hk as [(-> & <- & _)|(Hne & Hk)]; [by apply Hh|].
    apply Ho; [congruence|]. by apply (i_lock s I k q).
  - intros k Hk. destruct (decide (k = i)) as [->|Hne].
    + exists p'. split; [by apply list_lookup_insert_eq|by apply Hh].
    + apply Ho in Hk; [|congruence]. destruct (i_owner s I k Hk) as (q & Hq & Hhq). exists q. by rewrite list_lookup_insert_ne.
  - rewrite Em, (i_main s I). destruct (Ho Main ltac:(done)) as [H1 H2]. destruct mu as [[|k]|], (mutex s) as [[|k']|]; try done; first [by specialize (H1 eq_refl)|by specialize (H2 eq_refl)].
  - intros k q v Hk Hq. apply list_lookup_insert_Some in Hk as [(-> & <- & _)|(Hne & Hk)]; [by apply Hst|].
    rewrite (i_store s I k q v Hk Hq). destruct (decide (av = avail s)) as [->|Hd]; [done|]. specialize (Hav Hd).
    assert (mutex s = Some (Producer k)) by (apply (i_lock s I k q Hk); by rewrite Hq). congruence.
  - intros k q Hk. apply list_lookup_insert_Some in Hk as [(-> & <- & _)|(Hne & Hk)]; [done|]. by apply (i_prods s I k q).
  - rewrite (sum_by_insert made _ i p) by done. pose proof (i_units s I). lia.
  - pose proof (i_avail s I). lia.
  - rewrite (sum_by_insert cnt _ i p) by done. rewrite Et. pose proof (i_tot s I). lia.
  - apply Er, I.
  - apply (i_done s I).
Qed.

(** What [main] knows after a step of producer [i]. *)
Lemma main_ok_update s i p p' mu av : inv s -> prods s !! i = Some p -> main_at s <> MExit ->
  (av = avail s /\ (to_signal p = true -> to_signal p' = true)) \/ (mutex s = Some (Producer i) /\ to_signal p' = true) ->
  main_ok (MkSt av mu (<[i := p']> (prods s)) (main_at s) (totRequired s) (numConsumed s) (done_ s)).
Proof.
  intros I Hp Hx H. pose proof (lookup_lt_Some _ _ _ Hp) as Hlt. pose proof (i_pc s I) as Hpc. pose proof (i_main s I) as Hm. unfold main_ok in *. cbn [main_at done_ avail prods].
  destruct (main_at s); try done; try (by destruct H as [[-> _]|[H _]]; [|rewrite H in Hm]).
  destruct Hpc as [Hd Hw]. split; [done|]. intros Hav. destruct H as [[-> Hs]|[_ Hs]]; [|exists i, p'; by rewrite list_lookup_insert_eq].
  destruct (Hw Hav) as (k & q & Hk & Hq). destruct (decide (k = i)) as [->|Hne].
  - simplify_eq. exists i, p'. rewrite list_lookup_insert_eq by done. auto.
  - exists k, q. by rewrite list_lookup_insert_ne.
Qed.

Lemma INT_MIN_neg : INT_MIN < 0.
Proof. done. Qed.

Ltac try_upd := unfold p_ok, made; cbn; try lia; try done; try (by left); try (by right); try (left; split; done); try (intros o Ho; split; congruence); try congruence; try (by intuition (try done)).

Lemma producer_inv i s s' : total <= INT_MAX -> main_at s <> MExit -> inv s -> producer_step i s = Some s' -> inv s'.
Proof.
  intros HT Hx I E. unfold producer_step in E. destruct (prods s !! i) as [p|] eqn:Hp; [|done].
  pose proof (i_prods s I i p Hp) as Hok. pose proof (i_lock s I i p Hp) as Hl. pose proof (i_avail s I) as [Ha Hc].
  assert (mutex s = Some (Producer i) -> holds (p_at p) = true) as Hl'.
  { intros Hm. destruct (i_owner s I i Hm) as (q & Hq & Hh). by rewrite Hp in Hq; simplify_eq. }
  pose proof (main_ok_update s i p) as Hf. pose proof (producer_upd s i p) as Hu.
  assert (forall v, p_at p = PStore v -> v = avail s) as Hv by (intros v; apply (i_store s I i p v Hp)).
  destruct p as [c j a]. cbn [p_at cnt turn_j] in *. unfold p_ok in Hok. destruct a as [| | |v| | |]; cbn in Hl, Hl', Hok.
  all: try specialize (Hl eq_refl).
  - injection E as <-. destruct (Z.ltb_spec j c); (apply Hu; [..|apply Hf]; try_upd).
  - destruct (mutex s) eqn:Em; [done|]. injection E as <-. apply Hu; [..|apply Hf]; try_upd.
  - injection E as <-. apply Hu; [..|apply Hf]; try_upd.
  - specialize (Hv v eq_refl) as ->. pose proof (consumed_lt s i _ I Hp ltac:(unfold spare, made; cbn; lia)) as Hle.
    assert (fits (avail s + 1) = true) as Ef by (unfold fits; pose proof (INT_MIN_neg); lia). rewrite Ef in E. injection E as <-. apply Hu; [..|apply Hf]; try_upd.
  - injection E as <-. apply Hu; [..|apply Hf]; try_upd.
  - injection E as <-. pose proof (i_pc s I) as Hpc. unfold wake. destruct (main_at s) eqn:Em; unfold set_prod, set_main; cbn; rewrite <- ?Em; (apply Hu; [..|unfold main_ok in *; rewrite ?Em in *; cbn; try apply Hpc]; try_upd).
  - done.
Qed.

(** A step that leaves the producers and the mutex alone. *)
Lemma main_upd s m av n d : inv s -> main_holds m = main_holds (main_at s) -> to_come m = to_come (main_at s) -> rest_ok m ->
  n + av = numConsumed s + avail s -> 0 <= av -> 0 <= n -> (av <> avail s -> mutex s = Some Main) -> d = (total <=? n) ->
  let s' := MkSt av (mutex s) (prods s) m (totRequired s) n d in main_ok s' -> inv s'.
Proof.
  intros I Em Et Er Hn Ha H0 Hav Hd s' Hpc. constructor; unfold s'; cbn [avail mutex prods main_at totRequired numConsumed done_]; try done; try apply I.
  - rewrite Em. apply I.
  - intros i p v Hp Hv. rewrite (i_store s I i p v Hp Hv). destruct (decide (av = avail s)) as [->|Hne]; [done|]. specialize (Hav Hne).
    assert (mutex s = Some (Producer i)) by (apply (i_lock s I i p Hp); by rewrite Hv). congruence.
  - rewrite Hn. apply I.
  - rewrite Et. apply I.
Qed.

(** [main] takes the mutex, or gives it back. *)
Lemma main_takes s m : inv s -> mutex s = None -> main_holds m = true -> to_come (main_at s) = 0 -> to_come m = 0 -> rest_ok m ->
  main_ok (set_main m (set_mutex (Some Main) s)) -> inv (set_main m (set_mutex (Some Main) s)).
Proof.
  intros I Hm Hh E0 E1 Hr Hpc. constructor; cbn [set_main set_mutex avail mutex prods main_at totRequired numConsumed done_]; try done; try apply I.
  - intros i p Hp H. pose proof (i_lock s I i p Hp H). congruence.
  - rewrite E1, <- E0. apply I.
Qed.

Lemma main_gives s m : inv s -> main_holds (main_at s) = true -> main_holds m = false -> to_come (main_at s) = 0 -> to_come m = 0 -> rest_ok m ->
  main_ok (set_main m (set_mutex None s)) -> inv (set_main m (set_mutex None s)).
Proof.
  intros I Hm Hh E0 E1 Hr Hpc. rewrite (i_main s I) in Hm. destruct (mutex s) as [[|k]|] eqn:Em; try done.
  constructor; cbn [set_main set_mutex avail mutex prods main_at totRequired numConsumed done_]; try done; try apply I.
  - intros i p Hp H. pose proof (i_lock s I i p Hp H). congruence.
  - rewrite E1, <- E0. apply I.
Qed.

Lemma create_good s arg rest : total <= INT_MAX -> inv s -> main_at s = MCreate (arg :: rest) -> inv (create arg rest s).
Proof.
  intros HT I Em. pose proof (i_tot s I) as [Et El]. pose proof (i_rest s I) as Hr. rewrite Em in El, Hr. cbn in El, Hr. rewrite sum_by_cons in El. apply Forall_cons in Hr as [Ha Hr].
  assert (0 <= sum_by atoi rest) as Hs by (apply sum_by_nonneg; intros y Hy; by apply (proj1 (Forall_forall _ _) Hr)).
  pose proof (consumed_le s I) as Hle. pose proof (i_avail s I) as Hav. unfold create.
  assert (fits (totRequired s + atoi arg) = true) as -> by (unfold fits; pose proof INT_MIN_neg; lia).
  assert (forall k q, (prods s ++ [MkP (atoi arg) 0 PNext]) !! k = Some q -> prods s !! k = Some q \/ q = MkP (atoi arg) 0 PNext) as Hk.
  { intros k q Hk. apply lookup_app_Some in Hk as [Hk|[_ Hk]]; [by left|]. right. by apply list_lookup_singleton_Some in Hk as [_ <-]. }
  pose proof (i_main s I) as Hm. rewrite Em in Hm.
  constructor; cbn [avail mutex prods main_at totRequired numConsumed done_]; try done; try apply I.
  - intros k q Hq Hh. apply Hk in Hq as [Hq| ->]; [by apply (i_lock s I k q)|done].
  - intros k Hmu. destruct (i_owner s I k Hmu) as (q & Hq & Hh). exists q. split; [by apply lookup_app_l_Some|done].
  - intros k q v Hq Hv. apply Hk in Hq as [Hq| ->]; [by apply (i_store s I k q)|done].
  - intros k q Hq. apply Hk in Hq as [Hq| ->]; [by apply (i_prods s I k)|]. unfold p_ok. cbn. lia.
  - rewrite sum_by_app, sum_by_one. unfold made at 2. cbn. rewrite <- (i_units s I). lia.
  - rewrite sum_by_app, sum_by_one, Et. cbn. unfold to_come. lia.
  - pose proof (i_pc s I) as Hpc. unfold main_ok in *. rewrite Em in Hpc. done.
Qed.

Lemma main_inv s s' : 1 <= total <= INT_MAX -> inv s -> main_step s = Some s' -> inv s'.
Proof.
  intros HT I E. unfold main_step in E. pose proof (i_pc s I) as Hpc. pose proof (i_avail s I) as [Ha Hn]. pose proof (i_done s I) as Hd. unfold main_ok in Hpc.
  destruct (main_at s) as [[|arg rest]| | | | | | | |] eqn:Em; try done.
  - injection E as <-. by apply main_upd; rewrite ?Em; try apply I.
  - injection E as <-. apply create_good; [lia|done|done].
  - destruct (mutex s) eqn:Emu; [done|]. injection E as <-. by apply main_takes; rewrite ?Em, ?Emu.
  - injection E as <-. destruct (Z.eqb_spec (avail s) 0) as [H0|H0].
    + apply main_gives; rewrite ?Em; try done. unfold main_ok. cbn. split; [done|lia].
    + by apply main_upd; rewrite ?Em; try apply I.
  - destruct (mutex s) eqn:Emu; [done|]. injection E as <-. by apply main_takes; rewrite ?Em, ?Emu.
  - injection E as <-. destruct (Z.ltb_spec 0 (avail s)) as [H0|H0].
    + pose proof (consumed_le s I) as Hle. unfold consume. assert (fits (numConsumed s + 1) = true) as -> by (unfold fits; pose proof INT_MIN_neg; lia).
      pose proof (i_main s I) as Hm. pose proof (i_tot s I) as [_ El]. rewrite Em in *. apply main_upd; rewrite ?Em; try done; try lia; try (unfold main_ok; by rewrite ?Em).
      * intros _. by destruct (mutex s) as [[]|].
      * cbn in El. by replace (totRequired s) with total by lia.
    + apply main_upd; rewrite ?Em; try done; try apply I. unfold main_ok. cbn. lia.
  - injection E as <-. destruct (done_ s) eqn:Ed; apply main_gives; rewrite ?Em; try done; unfold main_ok; cbn; rewrite ?Ed; done.
Qed.

Lemma act_inv a s s' : 1 <= total <= INT_MAX -> inv s -> act a s = Some s' -> inv s'.
Proof.
  intros HT I E. assert (main_at s <> MExit) as Hx by (intros Hx; unfold act in E; by rewrite Hx in E).
  assert ((a = Mn /\ main_step s = Some s') \/ (exists i, a = P i /\ producer_step i s = Some s') \/ (main_at s = MWaiting /\ s' = wake s)) as [[_ E']|[(i & _ & E')|[Hw ->]]].
  { unfold act in E. destruct (main_at s), a; try done; eauto; try (by injection E as <-; eauto). }
  - by apply (main_inv s).
  - apply (producer_inv i s); lia || done.
  - unfold wake. pose proof (i_pc s I) as Hpc. pose proof (i_avail s I) as [Ha Hn]. unfold main_ok in Hpc. rewrite Hw in *. apply main_upd; rewrite ?Hw; try done; try apply I. apply Hpc.
Qed.

Lemma init_good argv : Forall (fun a => 0 <= atoi a) argv -> total = sum_by atoi argv -> 1 <= total -> inv (init argv).
Proof.
  intros Hf Ht H1. constructor; cbn; try done; try lia.
Qed.

(** ** The number of steps *)

Definition p_rank (p : producer) : Z :=
  let r := cnt p - turn_j p in
  match p_at p with
  | PNext => 14 * r + 1 | PLock => 14 * r | PRead => 14 * r - 1 | PStore _ => 14 * r - 2
  | PUnlock => 14 * r - 8 | PSignal => 14 * r - 9 | PDone => 0
  end.
Definition m_rank (s : st) : Z :=
  match main_at s with
  | MCreate rest => sum_by (fun a => 14 * atoi a + 2) rest + 3
  | MLock | MWoken => 2 | MTest => 1 | MConsume => if avail s =? 0 then 4 else 0 | MUnlock => 3 | MWaiting | MExit | MUndef => 0
  end.
Definition rank (s : st) : Z := sum_by p_rank (prods s) + 5 * avail s + m_rank s.
(** A wakeup without a signal. *)
Definition spurious (a : actor) : Z := match a with Spurious => 3 | _ => 0 end.

Lemma rank_nonneg s : inv s -> 0 <= rank s.
Proof.
  intros I. pose proof (i_avail s I). assert (0 <= sum_by p_rank (prods s)).
  { apply sum_by_nonneg. intros p Hp. apply list_elem_of_lookup in Hp as [i Hi]. pose proof (i_prods s I i p Hi) as Hok. unfold p_ok, p_rank in *. destruct (p_at p); lia. }
  assert (0 <= m_rank s); [|unfold rank; lia]. pose proof (i_rest s I) as Hr. unfold m_rank, rest_ok in *. destruct (main_at s) as [rest| | | | | | | |]; try lia.
  - enough (0 <= sum_by (fun a => 14 * atoi a + 2) rest) by lia. apply sum_by_nonneg. intros y Hy. pose proof (proj1 (Forall_forall _ _) Hr y Hy). cbn in *. lia.
  - destruct (avail s =? 0); lia.
Qed.

Lemma producer_rank i s s' : total <= INT_MAX -> inv s -> producer_step i s = Some s' -> main_at s' <> MUndef -> rank s' < rank s.
Proof.
  intros HT I E Hu. unfold producer_step in E. destruct (prods s !! i) as [p|] eqn:Hp; [|done]. pose proof (i_prods s I i p Hp) as Hok. unfold p_ok in Hok.
  pose proof (i_main s I) as Hm. pose proof (i_lock s I i p Hp) as Hl.
  assert (forall p' av mu m, rank (MkSt av mu (<[i := p']> (prods s)) m (totRequired s) (numConsumed s) (done_ s)) =
    sum_by p_rank (prods s) - p_rank p + p_rank p' + 5 * av + m_rank (MkSt av mu (<[i := p']> (prods s)) m (totRequired s) (numConsumed s) (done_ s))) as Hr.
  { intros. unfold rank. cbn [prods avail]. by rewrite (sum_by_insert p_rank _ i p). }
  unfold rank at 2. destruct p as [c j a]. cbn [p_at cnt turn_j] in *. destruct a as [| | |v| | |]; cbn in Hl, Hok.
  - injection E as <-. unfold set_prod. rewrite Hr. unfold m_rank, p_rank. cbn. destruct (Z.ltb_spec j c); lia.
  - destruct (mutex s); [done|]. injection E as <-. unfold set_prod. cbn. rewrite Hr. unfold m_rank, p_rank. cbn. lia.
  - injection E as <-. unfold set_prod. rewrite Hr. unfold m_rank, p_rank. cbn. lia.
  - specialize (Hl eq_refl). rewrite (i_store s I i _ v Hp eq_refl) in *. destruct (fits (avail s + 1)); injection E as <-; [|done]. unfold set_prod, set_avail. cbn. rewrite Hr.
    rewrite Hl in Hm. unfold m_rank, p_rank. cbn. destruct (main_at s); try done; lia.
  - injection E as <-. unfold set_prod. cbn. rewrite Hr. unfold m_rank, p_rank. cbn. lia.
  - injection E as <-. unfold wake. destruct (main_at s) eqn:Em; unfold set_prod, set_main; cbn; rewrite ?Hr; unfold m_rank, p_rank; cbn; rewrite ?Em; lia.
  - done.
Qed.

Lemma main_rank s s' : inv s -> main_step s = Some s' -> main_at s' <> MUndef -> rank s' < rank s.
Proof.
  intros I E Hu. pose proof (i_avail s I). unfold main_step in E. unfold rank, m_rank. destruct (main_at s) as [[|arg rest]| | | | | | | |] eqn:Em; try done.
  - injection E as <-. cbn. change (sum_by _ []) with 0. lia.
  - injection E as <-. unfold create in *. destruct (fits _); [|done]. cbn. rewrite sum_by_app, sum_by_one, sum_by_cons. unfold p_rank at 2. cbn. lia.
  - destruct (mutex s); [done|]. injection E as <-. cbn. lia.
  - injection E as <-. destruct (Z.eqb_spec (avail s) 0) as [E0|E0]; cbn; [lia|]. destruct (Z.eqb_spec (avail s) 0); [done|lia].
  - destruct (mutex s); [done|]. injection E as <-. cbn. lia.
  - injection E as <-. destruct (Z.ltb_spec 0 (avail s)) as [E0|E0].
    + unfold consume in *. destruct (fits _); [|done]. cbn [set_main avail mutex prods main_at]. rewrite Em. destruct (Z.eqb_spec (avail s - 1) 0), (Z.eqb_spec (avail s) 0); lia.
    + cbn. destruct (Z.eqb_spec (avail s) 0); lia.
  - injection E as <-. cbn. destruct (done_ s); cbn; lia.
Qed.

Lemma act_rank a s s' : 1 <= total <= INT_MAX -> inv s -> act a s = Some s' -> inv s' /\ rank s' < rank s + spurious a.
Proof.
  intros HT I E. pose proof (act_inv a s s' HT I E) as I'. split; [done|]. assert (main_at s' <> MUndef) as Hu by (intros Hu; pose proof (i_pc s' I') as Hpc; unfold main_ok in Hpc; by rewrite Hu in Hpc).
  assert ((a = Mn /\ main_step s = Some s') \/ (exists i, a = P i /\ producer_step i s = Some s') \/ (a = Spurious /\ main_at s = MWaiting /\ s' = wake s)) as [[-> E']|[(i & -> & E')|(-> & Hw & ->)]].
  { unfold act in E. destruct (main_at s), a; try done; eauto; try (by injection E as <-; eauto 6). }
  - pose proof (main_rank s s' I E' Hu). cbn. lia.
  - pose proof (producer_rank i s s' ltac:(lia) I E' Hu). cbn. lia.
  - unfold wake. rewrite Hw. unfold rank, m_rank. cbn. rewrite Hw. lia.
Qed.

(** ** Nobody sleeps for ever *)

Lemma sum_eq_done l : (forall i p, l !! i = Some p -> p_ok p = true /\ p_at p = PDone) -> sum_by made l = sum_by cnt l.
Proof.
  intros H. apply sum_by_ext. intros p Hp. apply list_elem_of_lookup in Hp as [i Hi]. destruct (H i p Hi) as [Hok Ha]. unfold p_ok, made in *. rewrite Ha in *. lia.
Qed.

Lemma stuck_exited s : 1 <= total <= INT_MAX -> inv s -> (forall a, a <> Spurious -> act a s = None) -> main_at s = MExit.
Proof.
  intros HT I Hn. pose proof (Hn Mn ltac:(done)) as Hm. pose proof (fun i => Hn (P i) ltac:(done)) as Hp. pose proof (i_pc s I) as Hpc. unfold main_ok in Hpc.
  assert (main_at s = MExit \/ main_at s <> MExit) as [|Hx] by (destruct (main_at s); first [by left|by right]); [done|]. exfalso.
  assert (main_step s = None) as Hm' by (unfold act in Hm; destruct (main_at s); done).
  assert (forall i, producer_step i s = None) as Hp' by (intros i; specialize (Hp i); unfold act in Hp; destruct (main_at s); done).
  assert (mutex s = None) as Hmu.
  { destruct (mutex s) as [[|i]|] eqn:Em; [|exfalso|done].
    - pose proof (i_main s I) as Hh. rewrite Em in Hh. unfold main_step in Hm'. by destruct (main_at s) as [[]| | | | | | | |].
    - destruct (i_owner s I i Em) as (p & Ep & Hh). specialize (Hp' i). unfold producer_step in Hp'. rewrite Ep in Hp'. by destruct (p_at p). }
  assert (forall i p, prods s !! i = Some p -> p_ok p = true /\ p_at p = PDone) as Hd.
  { intros i p Ep. split; [by apply (i_prods s I i)|]. specialize (Hp' i). unfold producer_step in Hp'. rewrite Ep, Hmu in Hp'. by destruct (p_at p). }
  unfold main_step in Hm'. rewrite Hmu in Hm'. destruct (main_at s) as [[]| | | | | | | |] eqn:Em; try done. destruct Hpc as [Hf Hw].
  assert (avail s = 0) as H0.
  { pose proof (i_avail s I). destruct (decide (avail s = 0)) as [|Hne]; [done|]. destruct (Hw ltac:(lia)) as (i & p & Ep & Hs). destruct (Hd i p Ep) as [_ Ha]. unfold to_signal in Hs. by rewrite Ha in Hs. }
  pose proof (i_units s I) as Hsum. rewrite (sum_eq_done _ Hd) in Hsum. destruct (i_tot s I) as [Et El]. rewrite Em in El. cbn in El.
  rewrite (i_done s I) in Hf. apply Z.leb_gt in Hf. lia.
Qed.
End Inv.

(** ** What the program does *)

(** However the threads are scheduled, whenever waits end without a signal, and although the
    producers signal after they have given the mutex back: no unit is lost or counted twice, no
    overflow occurs, and when [main] ends it has consumed every unit that was to be made. *)
Theorem units_accounted argv sched s : Forall (fun a => 0 <= atoi a) argv -> 1 <= sum_by atoi argv <= INT_MAX ->
  exec act sched (init argv) = Some s ->
  numConsumed s + avail s = sum_by made (prods s) /\ 0 <= numConsumed s <= sum_by atoi argv /\ 0 <= avail s /\ main_at s <> MUndef /\
  (main_at s = MExit -> numConsumed s = sum_by atoi argv).
Proof.
  intros Hf Ht E. assert (inv (sum_by atoi argv) s) as I.
  { eapply (reach_inv act (inv (sum_by atoi argv)) (init argv)); [apply init_good; lia || done|intros a s1 s2; by apply act_inv|by exists sched]. }
  pose proof (consumed_le _ s I). pose proof (i_avail _ s I). pose proof (i_pc _ s I) as Hpc. unfold main_ok in Hpc.
  split_and!; [apply I|lia|lia|lia|intros Hu; by rewrite Hu in Hpc|]. intros Hx. rewrite Hx in Hpc. destruct Hpc as [Hd _]. rewrite (i_done _ s I) in Hd. lia.
Qed.

(** C30. When no argument is negative and the units asked for are at least one and at most [INT_MAX]
    together, the program does end: of every schedule at most 14 steps belong to a unit, 2 to an
    argument, 3 to a wakeup without a signal and 3 to the rest; and a schedule cannot stop, with
    nobody able to go on but by such a wakeup, before [main] has ended and consumed every unit.
    ([nothing_to_wait_for] and [negative_cuts_short] show what happens outside of these arguments.) *)
Theorem no_lost_wakeup argv sched s : Forall (fun a => 0 <= atoi a) argv -> 1 <= sum_by atoi argv <= INT_MAX ->
  exec act sched (init argv) = Some s ->
  Z.of_nat (length sched) <= 14 * sum_by atoi argv + 2 * Z.of_nat (length argv) + 3 + sum_by spurious sched /\
  ((forall a, a <> Spurious -> act a s = None) -> main_at s = MExit /\ numConsumed s = sum_by atoi argv).
Proof.
  intros Hf Ht E. set (total := sum_by atoi argv) in *.
  destruct (exec_budget act (inv total) rank spurious (fun a s s' => act_rank total a s s' Ht) sched (init argv) s) as [I Hl]; [by apply init_good; try lia|done|].
  split.
  2:{ intros Hn. pose proof (stuck_exited total s Ht I Hn) as Hx. split; [done|].
      pose proof (i_pc _ s I) as Hpc. unfold main_ok in Hpc. rewrite Hx in Hpc. destruct Hpc as [Hd H0].
      rewrite (i_done _ s I) in Hd. pose proof (consumed_le _ s I). lia. }
  pose proof (rank_nonneg total s I). change (sum_by spurious sched) with (foldr (fun a n => spurious a + n) 0 sched).
  enough (rank (init argv) = 14 * total + 2 * Z.of_nat (length argv) + 3) by lia.
  unfold rank, m_rank, total. cbn. change (sum_by p_rank []) with 0. clear. induction argv as [|a l IH]; [done|]. rewrite !sum_by_cons in *. cbn [length]. lia.
Qed.

Definition two_one : list string := ["2"; "1"]%string.
Definition run21 : list actor :=
  [Mn; Mn; Mn; Mn; Mn; Spurious; Mn; Mn; P 0; P 0; P 0; P 0; P 0; P 0; Mn; P 1; Mn; Mn].

Lemma units_accounted_witness : exists s, exec act run21 (init two_one) = Some s /\ numConsumed s + avail s = sum_by made (prods s).
Proof.
  eexists. split; [vm_compute; reflexivity|]. set (s := MkSt _ _ _ _ _ _ _).
  apply (units_accounted two_one run21 s); [by repeat (apply Forall_cons; split; [vm_compute; discriminate|])|vm_compute; split; discriminate|vm_compute; reflexivity].
Defined.

(** [main] falls asleep before anything is made, the producers make their three units and end, and
    [main] consumes them: then nobody can go on. *)
Definition whole : list actor := replicate 5 Mn ++ replicate 13 (P 0) ++ replicate 7 (P 1) ++ replicate 7 Mn.

Lemma no_lost_wakeup_witness : exists s, exec act whole (init two_one) = Some s /\
  Z.of_nat (length whole) <= 14 * 3 + 2 * 2 + 3 + 0 /\ (forall a, a <> Spurious -> act a s = None) /\ main_at s = MExit /\ numConsumed s = 3.
Proof.
  eexists. split; [vm_compute; reflexivity|]. set (s := MkSt _ _ _ _ _ _ _).
  assert (forall a, a <> Spurious -> act a s = None) as Hn by (intros a _; reflexivity).
  destruct (no_lost_wakeup two_one whole s) as [Hl Hx]; [by repeat (apply Forall_cons; split; [vm_compute; discriminate|])|vm_compute; split; discriminate|vm_compute; reflexivity|].
  split; [exact Hl|]. split; [exact Hn|]. exact (Hx Hn).
Defined.

(** Without a unit to be made, as when there are no arguments, [main] waits for ever. *)
Lemma nothing_to_wait_for : exists s, exec act [Mn; Mn; Mn] (init []) = Some s /\ main_at s = MWaiting /\ forall a, a <> Spurious -> act a s = None.
Proof. eexists. split; [vm_compute; reflexivity|]. split; [done|]. by intros []. Qed.

(** A negative argument lowers the number of units that [main] waits for: it ends with one left. *)
Lemma negative_cuts_short : exists sched s, exec act sched (init ["2"; "-1"]%string) = Some s /\ main_at s = MExit /\ numConsumed s = 1.
Proof. exists [Mn; Mn; Mn; P 0; P 0; P 0; P 0; P 0; Mn; Mn; Mn; Mn; Mn]. eexists. by vm_compute. Qed.
