(* ===== verification/Multijoin.v ===== *)
(** * tlpi/threads/thread_multijoin.c: joining whichever thread terminates

    [main] makes a thread for each argument; a thread that is about to end says so in the table
    [thread], under [threadMutex], and signals [threadDied]; [main] sleeps until there is such a
    thread, and then looks through the whole table and joins all of them, with the mutex in its
    hand.  A step is one operation on the mutex, the condition variable or a thread, one test, or one
    change of the shared data; a waiter may wake up without a signal.  The calls on the mutex and
    [pthread_create] succeed, and so does [calloc]; a [sleep] orders nothing. *)

From S2P Require Import Prelude CLib Steps GetNum.
Local Open Scope Z_scope.

Inductive owner := Main | Worker (i : nat).
Inductive tstate := TS_ALIVE | TS_TERMINATED | TS_JOINED.
Inductive tpc := TSleep | TLock | TCount | TSet | TUnlock | TSignal | TReturned.
Record thr := MkThr { sleepTime : Z; state : tstate; t_at : tpc }.
Inductive mpc :=
| MCreate (rest : list string) | MTest | MLock | MTestUnjoined | MWaiting | MWoken
| MScan (idx : nat) | MJoin (idx : nat) | MReap (idx : nat) | MUnlock
| MExit | MFail (text : string) | MUndef.

(** [reaped] is the list of the lines "Reaped thread ... (numLive=...)". *)
Record st := MkSt {
  mutex : option owner; totThreads : nat; numLive : Z; numUnjoined : Z; table : list thr; main_at : mpc; reaped : list (nat * Z)
}.

Definition usage (argv0 : string) : string := "Usage: " +:+ argv0 +:+ " num-secs..." +:+ nl.

Definition init (argv0 : string) (args : list string) : st :=
  MkSt None 0 0 0 [] (match args with [] => MFail (usage argv0) | a :: _ => if streq a "--help" then MFail (usage argv0) else MCreate args end) [].

Definition set_main (m : mpc) (s : st) : st := MkSt (mutex s) (totThreads s) (numLive s) (numUnjoined s) (table s) m (reaped s).
Definition set_mutex (o : option owner) (s : st) : st := MkSt o (totThreads s) (numLive s) (numUnjoined s) (table s) (main_at s) (reaped s).
Definition set_thr (i : nat) (t : thr) (s : st) : st := MkSt (mutex s) (totThreads s) (numLive s) (numUnjoined s) (<[i := t]> (table s)) (main_at s) (reaped s).
Definition set_unjoined (n : Z) (s : st) : st := MkSt (mutex s) (totThreads s) (numLive s) n (table s) (main_at s) (reaped s).

Definition wake (s : st) : st := match main_at s with MWaiting => set_main MWoken s | _ => s end.

Definition threadFunc (i : nat) (s : st) : option st :=
  match table s !! i with
  | None => None
  | Some t =>
      let go a := set_thr i (MkThr (sleepTime t) (state t) a) in
      match t_at t with
      | TSleep => Some (go TLock s)
      | TLock => match mutex s with None => Some (go TCount (set_mutex (Some (Worker i)) s)) | Some _ => None end
      | TCount => Some (go TSet (set_unjoined (numUnjoined s + 1) s))
      | TSet => Some (set_thr i (MkThr (sleepTime t) TS_TERMINATED TUnlock) s)
      | TUnlock => Some (go TSignal (set_mutex None s))
      | TSignal => Some (go TReturned (wake s))
      | TReturned => None
      end
  end.

(** The next thread; after the last one the counters are set. *)
Definition create (rest : list string) (s : st) : st :=
  match rest with
  | arg :: rest =>
      match getInt (Some arg) GN_NONNEG None with
      | inr text => set_main (MFail text) s
      | inl n => MkSt (mutex s) (totThreads s) (numLive s) (numUnjoined s) (table s ++ [MkThr n TS_ALIVE TSleep]) (MCreate rest) (reaped s)
      end
  | [] => MkSt (mutex s) (length (table s)) (Z.of_nat (length (table s))) (numUnjoined s) (table s) MTest (reaped s)
  end.

(** After [pthread_join] of thread [idx]. *)
Definition reap (idx : nat) (s : st) : st :=
  match table s !! idx with
  | None => set_main MUndef s
  | Some t => MkSt (mutex s) (totThreads s) (numLive s - 1) (numUnjoined s - 1) (<[idx := MkThr (sleepTime t) TS_JOINED (t_at t)]> (table s)) (MScan (S idx)) (reaped s ++ [(idx, numLive s - 1)])
  end.

Definition main_step (s : st) : option st :=
  match main_at s with
  | MCreate rest => Some (create rest s)
  | MTest => Some (set_main (if 0 <? numLive s then MLock else MExit) s)
  | MLock | MWoken => match mutex s with None => Some (set_main MTestUnjoined (set_mutex (Some Main) s)) | Some _ => None end
  | MTestUnjoined => Some (if numUnjoined s =? 0 then set_main MWaiting (set_mutex None s) else set_main (MScan 0) s)
  | MScan idx =>
      if (idx <? totThreads s)%nat then
        match table s !! idx with
        | None => Some (set_main MUndef s)
        | Some t => Some (set_main (match state t with TS_TERMINATED => MJoin idx | _ => MScan (S idx) end) s)
        end
      else Some (set_main MUnlock s)
  | MJoin idx =>
      match table s !! idx with
      | None => Some (set_main MUndef s)
      | Some t =>
          match state t, t_at t with
          | TS_JOINED, _ => Some (set_main MUndef s)
          | _, TReturned => Some (set_main (MReap idx) s)
          | _, _ => None
          end
      end
  | MReap idx => Some (reap idx s)
  | MUnlock => Some (set_main MTest (set_mutex None s))
  | MWaiting | MExit | MFail _ | MUndef => None
  end.

Inductive actor := Mn | T (i : nat) | Spurious.

Definition act (a : actor) (s : st) : option st :=
  match main_at s, a with
  | (MExit | MFail _ | MUndef), _ => None
  | MWaiting, Spurious => Some (wake s)
  | _, Spurious => None
  | _, Mn => main_step s
  | _, T i => threadFunc i s
  end.

(** ** The invariant *)

Definition holds (a : tpc) : bool := match a with TCount | TSet | TUnlock => true | _ => false end.
Definition main_holds (m : mpc) : bool := match m with MTestUnjoined | MScan _ | MJoin _ | MReap _ | MUnlock => true | _ => false end.
Definition t_ok (t : thr) : bool :=
  match state t, t_at t with
  | TS_ALIVE, (TSleep | TLock | TCount | TSet) => true
  | TS_TERMINATED, (TUnlock | TSignal | TReturned) => true
  | TS_JOINED, TReturned => true
  | _, _ => false
  end.
Definition unjoined (t : thr) : Z := match state t, t_at t with TS_TERMINATED, _ | TS_ALIVE, TSet => 1 | _, _ => 0 end.
Definition joined (t : thr) : bool := match state t with TS_JOINED => true | _ => false end.
Definition live (t : thr) : Z := if joined t then 0 else 1.
Definition to_signal (t : thr) : bool := match t_at t with TSet | TUnlock | TSignal => true | _ => false end.
Definition terminated (t : thr) : bool := match state t with TS_TERMINATED => true | _ => false end.

Section Inv.
Context (n : nat).

Definition creating (m : mpc) : option (list string) := match m with MCreate rest => Some rest | _ => None end.

(** No thread before [idx] waits to be joined. *)
Definition seen (idx : nat) (s : st) : Prop := forall k t, (k < idx)%nat -> table s !! k = Some t -> terminated t = false.

Definition main_ok (s : st) : Prop :=
  match main_at s with
  | MCreate _ | MTest | MFail _ => True
  | MExit => numLive s <= 0
  | MLock | MTestUnjoined | MWoken => 0 < numLive s
  | MWaiting => 0 < numLive s /\ (0 < numUnjoined s -> exists i t, table s !! i = Some t /\ to_signal t = true)
  | MScan idx => seen idx s
  | MJoin idx => seen idx s /\ exists t, table s !! idx = Some t /\ terminated t = true
  | MReap idx => seen idx s /\ exists t, table s !! idx = Some t /\ terminated t = true /\ t_at t = TReturned
  | MUnlock => numUnjoined s = 0
  | MUndef => False
  end.

Definition counted (s : st) : Prop :=
  match main_at s with
  | MCreate rest => (length (table s) + length rest = n)%nat /\ reaped s = [] /\ forall i t, table s !! i = Some t -> joined t = false
  | MFail _ => True
  | _ => length (table s) = n /\ totThreads s = n /\ numLive s = sum_by live (table s)
  end.

Record inv (s : st) : Prop := MkInv {
  i_lock : forall i t, table s !! i = Some t -> holds (t_at t) = true -> mutex s = Some (Worker i);
  i_owner : forall i, mutex s = Some (Worker i) -> exists t, table s !! i = Some t /\ holds (t_at t) = true;
  i_main : main_holds (main_at s) = match mutex s with Some Main => true | _ => false end;
  i_table : forall i t, table s !! i = Some t -> t_ok t = true;
  i_unjoined : numUnjoined s = sum_by unjoined (table s);
  i_counted : counted s;
  i_reaped : forall i, i ∈ (reaped s).*1 <-> exists t, table s !! i = Some t /\ joined t = true;
  i_once : NoDup (reaped s).*1;
  i_lines : creating (main_at s) = None -> (exists m, main_at s = MFail m) \/ (reaped s).*2 = (fun k => Z.of_nat n - 1 - Z.of_nat k) <$> seq 0 (length (reaped s)) /\ numLive s = Z.of_nat n - Z.of_nat (length (reaped s));
  i_pc : main_ok s
}.

(** A step of thread [i] that keeps the books. *)
Lemma worker_upd s i t t' mu u m : inv s -> table s !! i = Some t ->
  (holds (t_at t') = true <-> mu = Some (Worker i)) -> (forall o, o <> Worker i -> mu = Some o <-> mutex s = Some o) ->
  t_ok t' = true -> unjoined t' - unjoined t = u - numUnjoined s -> joined t' = joined t ->
  (m = main_at s \/ (main_at s = MWaiting /\ m = MWoken)) ->
  let s' := MkSt mu (totThreads s) (numLive s) u (<[i := t']> (table s)) m (reaped s) in
  main_ok s' -> inv s'.
Proof.
  intros I Ht Hh Ho Hok Hu Hj Hm s' Hpc. pose proof (lookup_lt_Some _ _ _ Ht) as Hlt.
  assert (forall f : thr -> bool, f t' = f t -> forall k, (exists q, <[i := t']> (table s) !! k = Some q /\ f q = true) <-> exists q, table s !! k = Some q /\ f q = true) as Hex.
  { intros f Hf k. destruct (decide (k = i)) as [->|Hne]; [|by rewrite list_lookup_insert_ne by done]. rewrite list_lookup_insert_eq by done.
    split; intros (q & Hq & Hfq); [exists t|exists t']; (split; [done|]); simplify_eq; congruence. }
  constructor; unfold s'; cbn [mutex totThreads numLive numUnjoined table main_at reaped]; try done.
  - intros k q Hk Hq. apply list_lookup_insert_Some in Hk as [(-> & <- & _)|(Hne & Hk)]; [by apply Hh|].
    apply Ho; [congruence|]. by apply (i_lock s I k q).
  - intros k Hk. destruct (decide (k = i)) as [->|Hne].
    + exists t'. split; [by apply list_lookup_insert_eq|by apply Hh].
    + apply Ho in Hk; [|congruence]. destruct (i_owner s I k Hk) as (q & Hq & Hhq). exists q. by rewrite list_lookup_insert_ne.
  - assert (main_holds m = main_holds (main_at s)) as -> by (destruct Hm as [->|[-> ->]]; done).
    rewrite (i_main s I). destruct (Ho Main ltac:(done)) as [H1 H2]. destruct mu as [[|k]|], (mutex s) as [[|k']|]; try done; first [by specialize (H1 eq_refl)|by specialize (H2 eq_refl)].
  - intros k q Hk. apply list_lookup_insert_Some in Hk as [(-> & <- & _)|(Hne & Hk)]; [done|]. by apply (i_table s I k q).
  - rewrite (sum_by_insert unjoined _ i t) by done. pose proof (i_unjoined s I). lia.
  - pose proof (i_counted s I) as Hc. unfold counted in *. cbn [main_at table reaped totThreads numLive].
    assert (sum_by live (<[i := t']> (table s)) = sum_by live (table s)) as El by (rewrite (sum_by_insert live _ i t) by done; unfold live; rewrite Hj; lia).
    rewrite length_insert, El. destruct Hm as [->|[Em ->]]; [|by rewrite Em in Hc]. destruct (main_at s); try done. destruct Hc as (? & ? & Hn). split_and!; [done|done|].
    intros k q Hk. apply list_lookup_insert_Some in Hk as [(-> & <- & _)|(Hne & Hk)]; [rewrite Hj|]; by eapply Hn.
  - intros k. rewrite (Hex joined Hj k). apply I.
  - apply I.
  - pose proof (i_lines s I) as Hl. destruct Hm as [->|[Em ->]]; [done|]. intros _. right. rewrite Em in Hl. by destruct (Hl eq_refl) as [[? ?]|].
Qed.

(** What [main] knows after it. *)
Lemma main_ok_upd s i t t' mu u : inv s -> table s !! i = Some t -> t_at t <> TReturned ->
  (u = numUnjoined s \/ mutex s = Some (Worker i) /\ to_signal t' = true) -> (terminated t' = terminated t \/ mutex s = Some (Worker i)) ->
  (main_at s = MWaiting -> to_signal t = true -> to_signal t' = true) ->
  main_ok (MkSt mu (totThreads s) (numLive s) u (<[i := t']> (table s)) (main_at s) (reaped s)).
Proof.
  intros I Ht Hr Hu Hte Hs. pose proof (lookup_lt_Some _ _ _ Ht) as Hlt. pose proof (i_pc s I) as Hpc. pose proof (i_main s I) as Hm.
  assert (main_holds (main_at s) = true -> u = numUnjoined s /\ terminated t' = terminated t) as Hh.
  { intros E. rewrite E in Hm. destruct (mutex s) as [[]|]; try done. destruct Hu as [?|[? _]], Hte as [?|?]; done. }
  assert (terminated t' = terminated t -> forall idx, seen idx s -> seen idx (MkSt mu (totThreads s) (numLive s) u (<[i := t']> (table s)) (main_at s) (reaped s))) as Hseen.
  { intros E idx H k q Hk Hq. cbn in Hq. apply list_lookup_insert_Some in Hq as [(-> & <- & _)|(Hne & Hq)]; [rewrite E|]; by eapply H. }
  unfold main_ok in *. cbn [main_at numLive numUnjoined table]. destruct (main_at s) as [| | | | | |idx|idx|idx| | | |]; try done.
  - destruct Hpc as [Hl Hw]. split; [done|]. intros Hpos. destruct Hu as [->|[_ Hs']]; [|exists i, t'; by rewrite list_lookup_insert_eq].
    destruct (Hw Hpos) as (k & q & Hk & Hq). destruct (decide (k = i)) as [->|Hne]; [simplify_eq; exists i, t'; rewrite list_lookup_insert_eq by done; auto|].
    exists k, q. by rewrite list_lookup_insert_ne.
  - destruct (Hh eq_refl) as [_ E]. by apply Hseen.
  - destruct (Hh eq_refl) as [_ E]. destruct Hpc as (H & q & Hq & Hqt). split; [by apply Hseen|]. destruct (decide (idx = i)) as [->|Hne].
    + simplify_eq. exists t'. by rewrite list_lookup_insert_eq, E.
    + exists q. by rewrite list_lookup_insert_ne.
  - destruct (Hh eq_refl) as [_ E]. destruct Hpc as (H & q & Hq & Hqt & Hqr). split; [by apply Hseen|]. destruct (decide (idx = i)) as [->|Hne]; [by simplify_eq|].
    exists q. by rewrite list_lookup_insert_ne.
  - destruct (Hh eq_refl) as [-> _]. done.
Qed.

Ltac try_upd := unfold t_ok, unjoined, joined, terminated; cbn; try lia; try done; try (by left); try (by right); try (intros o Ho; split; congruence); try congruence; try (by intuition (try done)).

Lemma worker_good i s s' : inv s -> threadFunc i s = Some s' -> inv s'.
Proof.
  intros I E. unfold threadFunc in E. destruct (table s !! i) as [t|] eqn:Ht; [|done].
  pose proof (i_table s I i t Ht) as Hok. pose proof (i_lock s I i t Ht) as Hl.
  assert (mutex s = Some (Worker i) -> holds (t_at t) = true) as Hl'.
  { intros Hm. destruct (i_owner s I i Hm) as (q & Hq & Hh). by rewrite Ht in Hq; simplify_eq. }
  pose proof (main_ok_upd s i t) as Hf. pose proof (worker_upd s i t) as Hu.
  destruct t as [z x a]. cbn [t_at state sleepTime] in *. unfold t_ok in Hok. cbn in Hok. destruct a; cbn in Hl, Hl'; destruct x; try done.
  all: try specialize (Hl eq_refl).
  - injection E as <-. apply Hu; [..|apply Hf]; try_upd.
  - destruct (mutex s) eqn:Em; [done|]. injection E as <-. apply Hu; [..|apply Hf]; try_upd.
  - injection E as <-. apply Hu; [..|apply Hf]; try_upd.
  - injection E as <-. apply Hu; [..|apply Hf]; try_upd.
  - injection E as <-. apply Hu; [..|apply Hf]; try_upd.
  - injection E as <-. unfold wake. pose proof (i_pc s I) as Hpc. unfold main_ok in Hpc. destruct (main_at s) eqn:Em; unfold set_thr, set_main; cbn; rewrite ?Em; (apply Hu; [..|first [exact Hpc|apply Hf|unfold main_ok; cbn; apply Hpc]]; try_upd).
Qed.

Definition plain (m : mpc) : bool := match m with MCreate _ | MFail _ => false | _ => true end.

Lemma counted_plain s : plain (main_at s) = true -> counted s <-> length (table s) = n /\ totThreads s = n /\ numLive s = sum_by live (table s).
Proof. unfold counted. by destruct (main_at s). Qed.

Lemma lines_plain s : inv s -> plain (main_at s) = true -> (reaped s).*2 = (fun k => Z.of_nat n - 1 - Z.of_nat k) <$> seq 0 (length (reaped s)) /\ numLive s = Z.of_nat n - Z.of_nat (length (reaped s)).
Proof. intros I H. destruct (i_lines s I) as [[m E]|?]; [by destruct (main_at s)|by rewrite E in H|done]. Qed.

(** A step of [main] that changes nothing but the mutex. *)
Lemma main_change s m mu : inv s -> plain (main_at s) = true -> plain m = true ->
  (mu = mutex s /\ main_holds m = main_holds (main_at s)) \/ (mutex s = None /\ mu = Some Main /\ main_holds m = true) \/ (main_holds (main_at s) = true /\ mu = None /\ main_holds m = false) ->
  main_ok (set_main m (set_mutex mu s)) -> inv (set_main m (set_mutex mu s)).
Proof.
  intros I Hp Hm Hmu Hpc. pose proof (i_main s I) as Hh.
  assert (forall k, mu = Some (Worker k) <-> mutex s = Some (Worker k)) as Hw.
  { intros k. destruct Hmu as [[-> _]|[(-> & -> & _)|(E & -> & _)]]; [done|done|]. rewrite E in Hh. by destruct (mutex s) as [[]|]. }
  constructor; cbn [set_main set_mutex mutex totThreads numLive numUnjoined table main_at reaped]; try done; try apply I.
  - intros i t Ht H. apply Hw. by apply (i_lock s I i t).
  - intros i Hi. apply Hw in Hi. by apply (i_owner s I i).
  - destruct Hmu as [[-> ->]|[(_ & -> & ->)|(_ & -> & ->)]]; done.
  - apply counted_plain; [done|]. cbn. apply counted_plain; [done|apply I].
  - intros _. right. by apply lines_plain.
Qed.

Lemma reap_good s idx : inv s -> main_at s = MReap idx -> inv (reap idx s).
Proof.
  intros I Em. pose proof (i_pc s I) as Hpc. unfold main_ok in Hpc. rewrite Em in Hpc. destruct Hpc as (Hseen & t & Ht & Htt & Htr). unfold reap. rewrite Ht.
  pose proof (lookup_lt_Some _ _ _ Ht) as Hlt. destruct t as [z x a]. cbn [t_at sleepTime] in *. subst a. unfold terminated in Htt. cbn in Htt. destruct x; try done.
  pose proof (proj1 (counted_plain s ltac:(by rewrite Em)) (i_counted s I)) as (Hn & Htot & Hlive). pose proof (lines_plain s I ltac:(by rewrite Em)) as [Hl2 Hl]. pose proof (i_main s I) as Hh. rewrite Em in Hh.
  constructor; cbn [mutex totThreads numLive numUnjoined table main_at reaped]; try done.
  - intros k q Hk Hq. apply list_lookup_insert_Some in Hk as [(-> & <- & _)|(Hne & Hk)]; [done|]. by apply (i_lock s I k q).
  - intros k Hk. by rewrite Hk in Hh.
  - intros k q Hk. apply list_lookup_insert_Some in Hk as [(-> & <- & _)|(Hne & Hk)]; [done|]. by apply (i_table s I k q).
  - rewrite (sum_by_insert unjoined _ idx _ _ Ht), (i_unjoined s I). unfold unjoined at 3 4. cbn. lia.
  - unfold counted. cbn. rewrite length_insert, (sum_by_insert live _ idx _ _ Ht). unfold live at 2 3. cbn. split_and!; [done|done|lia].
  - intros k. rewrite fmap_app, elem_of_app, (i_reaped s I k). cbn. rewrite list_elem_of_singleton. destruct (decide (k = idx)) as [->|Hne].
    + split; [|by right]. intros _. eexists. by rewrite list_lookup_insert_eq.
    + rewrite list_lookup_insert_ne by done. split; [by intros [?|?]|by left].
  - rewrite fmap_app. apply NoDup_app. split_and!; [apply I| |by apply NoDup_singleton]. intros k Hk Hk'. cbn in Hk'. apply list_elem_of_singleton in Hk' as ->.
    apply (i_reaped s I) in Hk as (q & Hq & Hj). rewrite Ht in Hq. by simplify_eq.
  - intros _. right. rewrite fmap_app, length_app, Hl2. cbn. rewrite Nat.add_1_r, seq_S, fmap_app. cbn. split; [do 2 f_equal; lia|lia].
  - unfold main_ok. cbn. intros k q Hk Hq. cbn in Hq. apply list_lookup_insert_Some in Hq as [(-> & <- & _)|(Hne & Hq)]; [done|]. apply (Hseen k q); [lia|done].
Qed.

Lemma create_joined s rest : inv s -> main_at s = MCreate rest -> inv (create rest s).
Proof.
  intros I Em. pose proof (i_counted s I) as Hc. unfold counted in Hc. rewrite Em in Hc. destruct Hc as (Hn & Hr & Hj). pose proof (i_main s I) as Hm. rewrite Em in Hm.
  destruct rest as [|arg rest]; cbn [create].
  - cbn in Hn. rewrite Nat.add_0_r in Hn. constructor; cbn [mutex totThreads numLive numUnjoined table main_at reaped]; try done; try apply I.
    + unfold counted. cbn. split_and!; [done|done|]. clear -Hj. induction (table s) as [|t l IH]; [done|]. rewrite sum_by_cons. unfold live at 1. rewrite (Hj 0%nat t eq_refl). specialize (IH (fun i q => Hj (S i) q)). cbn [length]. lia.
    + intros _. right. rewrite Hr. cbn. split; [done|lia].
  - destruct (getInt (Some arg) GN_NONNEG None) as [z|text].
    + assert (forall k q, (table s ++ [MkThr z TS_ALIVE TSleep]) !! k = Some q -> table s !! k = Some q \/ q = MkThr z TS_ALIVE TSleep) as Hk.
      { intros k q Hk. apply lookup_app_Some in Hk as [Hk|[_ Hk]]; [by left|]. right. by apply list_lookup_singleton_Some in Hk as [_ <-]. }
      constructor; cbn [mutex totThreads numLive numUnjoined table main_at reaped]; try done; try apply I.
      * intros k q Hq Hh. apply Hk in Hq as [Hq| ->]; [by apply (i_lock s I k q)|done].
      * intros k Hmu. destruct (i_owner s I k Hmu) as (q & Hq & Hh). exists q. split; [by apply lookup_app_l_Some|done].
      * intros k q Hq. apply Hk in Hq as [Hq| ->]; [by apply (i_table s I k)|done].
      * rewrite sum_by_app, sum_by_one, (i_unjoined s I). cbn. lia.
      * unfold counted. cbn. rewrite length_app. cbn in Hn |- *. split_and!; [lia|done|]. intros k q Hq. apply Hk in Hq as [Hq| ->]; [by eapply Hj|done].
      * intros k. rewrite Hr. cbn. split; [by intros ?%not_elem_of_nil|]. intros (q & Hq & Hjq). apply Hk in Hq as [Hq| ->]; [by rewrite (Hj k q Hq) in Hjq|done].
    + constructor; cbn [set_main mutex totThreads numLive numUnjoined table main_at reaped]; try done; try apply I. intros _. left. by eexists.
Qed.

Lemma scan_lookup s idx : inv s -> plain (main_at s) = true -> (idx < totThreads s)%nat -> exists t, table s !! idx = Some t.
Proof. intros I Hp Hi. destruct (proj1 (counted_plain s Hp) (i_counted s I)) as (Hn & Htot & _). apply lookup_lt_is_Some_2. lia. Qed.

(** While [main] has the mutex, what is counted is what it will find. *)
Lemma none_left s : inv s -> main_holds (main_at s) = true -> seen (length (table s)) s -> numUnjoined s = 0.
Proof.
  intros I Hm Hs. rewrite (i_unjoined s I). apply sum_by_zero. intros t Ht. apply list_elem_of_lookup in Ht as [i Hi]. pose proof (Hs i t (lookup_lt_Some _ _ _ Hi) Hi) as Htt.
  unfold unjoined, terminated in *. pose proof (i_lock s I i t Hi) as Hl. pose proof (i_main s I) as Hh. rewrite Hm in Hh.
  destruct (state t); try done. destruct (t_at t); try done. cbn in Hl. rewrite (Hl eq_refl) in Hh. done.
Qed.

Lemma main_good s s' : inv s -> main_step s = Some s' -> inv s'.
Proof.
  intros I E. unfold main_step in E. pose proof (i_pc s I) as Hpc. unfold main_ok in Hpc.
  assert (plain (main_at s) = true -> forall m, plain m = true -> main_holds m = main_holds (main_at s) -> main_ok (set_main m s) -> inv (set_main m s)) as Hset.
  { intros Hp m Hm Hh Hok. pose proof (main_change s m (mutex s) I Hp Hm (or_introl (conj eq_refl Hh))) as H. by destruct s; apply H. }
  destruct (main_at s) as [rest| | | | | |idx|idx|idx| | | |] eqn:Em; try done.
  - injection E as <-. by apply create_joined.
  - injection E as <-. apply Hset; try done; [by destruct (0 <? _)..|]. unfold main_ok. cbn. destruct (Z.ltb_spec 0 (numLive s)); cbn; [done|lia].
  - destruct (mutex s) eqn:Emu; [done|]. injection E as <-. apply main_change; rewrite ?Em; auto.
  - injection E as <-. destruct (Z.eqb_spec (numUnjoined s) 0) as [H0|H0].
    + apply main_change; rewrite ?Em; auto. unfold main_ok. cbn. split; [done|lia].
    + apply Hset; try done. unfold main_ok. cbn. intros k q Hk. lia.
  - destruct (mutex s) eqn:Emu; [done|]. injection E as <-. apply main_change; rewrite ?Em; auto.
  - destruct (Nat.ltb_spec idx (totThreads s)) as [Hlt|Hge].
    + destruct (scan_lookup s idx I ltac:(by rewrite Em) Hlt) as [t Ht]. rewrite Ht in E. injection E as <-. apply Hset; try done; [by destruct (state t)..|].
      unfold main_ok. cbn. assert (terminated t = false -> seen (S idx) s) as Hs.
      { intros Hf k q Hk Hq. destruct (decide (k = idx)) as [->|Hne]; [by simplify_eq|]. apply (Hpc k q); [lia|done]. }
      unfold terminated in Hs. destruct (state t) eqn:Est; [by apply Hs| |by apply Hs]. split; [done|]. exists t. unfold terminated. by rewrite Est.
    + injection E as <-. apply Hset; try done. unfold main_ok. cbn. apply none_left; [done|by rewrite Em|].
      destruct (proj1 (counted_plain s ltac:(by rewrite Em)) (i_counted s I)) as (Hn & Htot & _). intros k q Hk. apply Hpc. lia.
  - destruct Hpc as (Hs & t & Ht & Htt). rewrite Ht in E. unfold terminated in Htt. destruct (state t) eqn:Est; try done. destruct (t_at t) eqn:Eat; try done. injection E as <-.
    apply Hset; try done. unfold main_ok. cbn. split; [done|]. exists t. unfold terminated. by rewrite Est.
  - injection E as <-. by apply reap_good.
  - injection E as <-. apply main_change; rewrite ?Em; auto. unfold main_ok. done.
Qed.

Lemma act_cases a s s' : act a s = Some s' -> (a = Mn /\ main_step s = Some s') \/ (exists i, a = T i /\ threadFunc i s = Some s') \/ (a = Spurious /\ main_at s = MWaiting /\ s' = set_main MWoken s).
Proof. unfold act, wake. intros E. destruct (main_at s) eqn:Em, a; try done; eauto; try (injection E as <-; eauto 6). Qed.

Lemma act_good a s s' : inv s -> act a s = Some s' -> inv s'.
Proof.
  intros I E. destruct (act_cases a s s' E) as [[_ E']|[(i & _ & E')|(_ & Hw & ->)]]; [by apply (main_good s)|by apply (worker_good i s)|].
  pose proof (i_pc s I) as Hpc. unfold main_ok in Hpc. rewrite Hw in Hpc.
  change (inv (set_main MWoken (set_mutex (mutex s) s))). apply main_change; rewrite ?Hw; auto. apply Hpc.
Qed.

Lemma init_joined argv0 args : length args = n -> inv (init argv0 args).
Proof.
  intros Hn. unfold init. assert (forall m, (exists text, m = MFail text) \/ m = MCreate args -> inv (MkSt None 0 0 0 [] m [])) as H.
  { intros m Hm. constructor; cbn; try done; try (by destruct Hm as [[? ->]| ->]).
    - intros i. split; [by intros ?%not_elem_of_nil|by intros (? & ? & _)].
    - constructor.
    - destruct Hm as [[? ->]| ->]; [|done]. left. by eexists. }
  apply H. destruct args as [|a l]; [left; by eexists|]. destruct (streq a "--help"); [left; by eexists|by right].
Qed.

(** ** The number of steps *)

Definition N : Z := Z.of_nat n.
Definition t_rank (t : thr) : Z :=
  match t_at t with TSleep => 3 * N + 15 | TLock => 3 * N + 14 | TCount => 3 * N + 13 | TSet => 5 | TUnlock => 4 | TSignal => 3 | TReturned => 0 end.
(** A look through the table is paid for by the thread that is counted first. *)
Definition look (s : st) : Z := if numUnjoined s =? 0 then 0 else 3 * N + 2.
Definition left_after (idx : nat) (s : st) : Z := 3 * Z.of_nat (n - idx) + 1 + (if numUnjoined s =? 0 then 4 else 0).
Definition m_rank (s : st) : Z :=
  match main_at s with
  | MCreate rest => (3 * N + 16) * Z.of_nat (length rest) + 4 + look s
  | MTest => 3 + look s | MLock | MWoken => 2 + look s | MTestUnjoined => 1 + look s | MWaiting => look s
  | MScan idx => left_after idx s | MJoin idx => left_after idx s - 1 | MReap idx => left_after idx s - 2
  | MUnlock => 4 | MExit | MFail _ | MUndef => 0
  end.
Definition rank (s : st) : Z := sum_by t_rank (table s) + 5 * numUnjoined s + m_rank s.
Definition spurious (a : actor) : Z := match a with Spurious => 3 | _ => 0 end.

Lemma N_nonneg : 0 <= N.
Proof. unfold N. lia. Qed.

Lemma unjoined_nonneg s : inv s -> 0 <= numUnjoined s.
Proof. intros I. rewrite (i_unjoined s I). apply sum_by_nonneg. intros t _. unfold unjoined. destruct (state t), (t_at t); lia. Qed.

Lemma m_rank_nonneg s : inv s -> 0 <= m_rank s.
Proof.
  intros I. pose proof N_nonneg. assert (0 <= look s) by (unfold look; destruct (_ =? _); lia). pose proof (i_pc s I) as Hpc. unfold main_ok, m_rank, left_after in *.
  destruct (main_at s) as [| | | | | |idx|idx|idx| | | |] eqn:Em; try lia; destruct (numUnjoined s =? 0); try lia; (destruct Hpc as (_ & t & Ht & _); apply lookup_lt_Some in Ht; pose proof (proj1 (counted_plain s ltac:(by rewrite Em)) (i_counted s I)); lia).
Qed.

Lemma rank_pos s : inv s -> 0 <= rank s.
Proof.
  intros I. pose proof (m_rank_nonneg s I). pose proof (unjoined_nonneg s I). pose proof N_nonneg.
  assert (0 <= sum_by t_rank (table s)); [|unfold rank; lia]. apply sum_by_nonneg. intros t _. unfold t_rank. destruct (t_at t); lia.
Qed.

Lemma worker_rank i s s' : inv s -> threadFunc i s = Some s' -> rank s' < rank s.
Proof.
  intros I E. pose proof N_nonneg as HN. pose proof (unjoined_nonneg s I) as Hu. unfold threadFunc in E. destruct (table s !! i) as [t|] eqn:Ht; [|done]. pose proof (i_main s I) as Hm. pose proof (i_lock s I i t Ht) as Hl.
  assert (forall t' mu u m, rank (MkSt mu (totThreads s) (numLive s) u (<[i := t']> (table s)) m (reaped s)) =
    sum_by t_rank (table s) - t_rank t + t_rank t' + 5 * u + m_rank (MkSt mu (totThreads s) (numLive s) u (<[i := t']> (table s)) m (reaped s))) as Hr.
  { intros. unfold rank. cbn [table numUnjoined]. by rewrite (sum_by_insert t_rank _ i t). }
  unfold rank at 2. destruct t as [z x a]. cbn [t_at state sleepTime] in *. destruct a; cbn in Hl.
  - injection E as <-. unfold set_thr. rewrite Hr. unfold m_rank, look, left_after, t_rank. cbn. lia.
  - destruct (mutex s); [done|]. injection E as <-. unfold set_thr. cbn. rewrite Hr. unfold m_rank, look, left_after, t_rank. cbn. lia.
  - injection E as <-. unfold set_thr, set_unjoined. cbn. rewrite Hr. rewrite (Hl eq_refl) in Hm. unfold m_rank, look, left_after, t_rank. cbn.
    destruct (Z.eqb_spec (numUnjoined s + 1) 0), (Z.eqb_spec (numUnjoined s) 0); destruct (main_at s); try done; lia.
  - injection E as <-. unfold set_thr. rewrite Hr. unfold m_rank, look, left_after, t_rank. cbn. lia.
  - injection E as <-. unfold set_thr. cbn. rewrite Hr. unfold m_rank, look, left_after, t_rank. cbn. lia.
  - injection E as <-. unfold wake. destruct (main_at s) eqn:Em; unfold set_thr, set_main; cbn; rewrite ?Hr; unfold m_rank, look, left_after, t_rank; cbn; rewrite ?Em; lia.
  - done.
Qed.

Lemma main_lowers s s' : inv s -> main_step s = Some s' -> rank s' < rank s.
Proof.
  intros I E. pose proof N_nonneg as HN. pose proof (unjoined_nonneg s I) as Hu. pose proof (i_pc s I) as Hpc. unfold main_ok in Hpc.
  unfold main_step in E. unfold rank, m_rank, look, left_after. destruct (main_at s) as [[|arg rest]| | | | | |idx|idx|idx| | | |] eqn:Em; try done.
  - injection E as <-. cbn. lia.
  - assert (0 <= (3 * N + 16) * Z.of_nat (length rest)) as Hk by nia. cbn [length]. rewrite Nat2Z.inj_succ, Z.mul_succ_r.
    injection E as <-. cbn [create]. destruct (getInt _ _ _) as [z|text]; cbn; [|destruct (numUnjoined s =? 0); lia]. rewrite sum_by_app, sum_by_one. unfold t_rank at 2. cbn. destruct (numUnjoined s =? 0); lia.
  - injection E as <-. cbn. destruct (0 <? numLive s); cbn; destruct (numUnjoined s =? 0); lia.
  - destruct (mutex s); [done|]. injection E as <-. cbn. lia.
  - injection E as <-. destruct (Z.eqb_spec (numUnjoined s) 0) as [E0|E0]; cbn; [destruct (Z.eqb_spec (numUnjoined s) 0); [lia|done]|].
    destruct (Z.eqb_spec (numUnjoined s) 0); [done|]. unfold N. lia.
  - destruct (mutex s); [done|]. injection E as <-. cbn. lia.
  - pose proof (proj1 (counted_plain s ltac:(by rewrite Em)) (i_counted s I)) as (Hn & Htot & _). destruct (Nat.ltb_spec idx (totThreads s)) as [Hlt|Hge].
    + destruct (scan_lookup s idx I ltac:(by rewrite Em) Hlt) as [t Ht]. rewrite Ht in E. injection E as <-. cbn. destruct (state t); lia.
    + injection E as <-. cbn. assert (numUnjoined s = 0) as -> by (apply none_left; [done|by rewrite Em|]; intros k q Hk; apply Hpc; lia). cbn. lia.
  - destruct Hpc as (_ & t & Ht & Htt). rewrite Ht in E. unfold terminated in Htt. destruct (state t), (t_at t); try done; injection E as <-; cbn; lia.
  - pose proof (proj1 (counted_plain s ltac:(by rewrite Em)) (i_counted s I)) as (Hn & Htot & _).
    destruct Hpc as (_ & t & Ht & _ & Hret). pose proof (lookup_lt_Some _ _ _ Ht) as Hlt. injection E as <-. unfold reap. rewrite Ht. cbn. rewrite (sum_by_insert t_rank _ idx _ _ Ht). unfold t_rank at 2 3. cbn. rewrite Hret.
    destruct (Z.eqb_spec (numUnjoined s) 0) as [E0|E0]; destruct (Z.eqb_spec (numUnjoined s - 1) 0); lia.
  - injection E as <-. cbn. rewrite Hpc. cbn. lia.
Qed.

Lemma act_lowers a s s' : inv s -> act a s = Some s' -> inv s' /\ rank s' < rank s + spurious a.
Proof.
  intros I E. split; [by apply (act_good a s)|]. destruct (act_cases a s s' E) as [[-> E']|[(i & -> & E')|(-> & Hw & ->)]].
  - pose proof (main_lowers s s' I E'). cbn. lia.
  - pose proof (worker_rank i s s' I E'). cbn. lia.
  - unfold rank, m_rank, look. rewrite Hw. cbn. lia.
Qed.

Lemma rank_init argv0 args : length args = n -> rank (init argv0 args) <= (3 * N + 16) * N + 4.
Proof.
  intros Hn. pose proof N_nonneg. unfold rank, init, m_rank, look. cbn. change (sum_by t_rank []) with 0.
  destruct args as [|a l]; cbn [main_at]; [nia|]. destruct (streq a "--help"); cbn [main_at]; [nia|]. rewrite Hn. fold N. lia.
Qed.

(** ** Nobody sleeps for ever *)

Lemma join_stuck s : inv s -> (forall a, a <> Spurious -> act a s = None) -> main_at s = MExit \/ exists text, main_at s = MFail text.
Proof.
  intros I Hn. pose proof (Hn Mn ltac:(done)) as Hm. pose proof (fun i => Hn (T i) ltac:(done)) as Ht. pose proof (i_pc s I) as Hpc. unfold main_ok in Hpc.
  assert ((main_at s = MExit \/ exists text, main_at s = MFail text) \/ main_at s <> MExit /\ (forall text, main_at s <> MFail text) /\ main_step s = None /\ (forall i, threadFunc i s = None)) as [|(Hx & Hx' & Hm' & Ht')]; [|done|].
  { unfold act in Hm, Ht. destruct (main_at s) eqn:Em; first [by left; left|by left; right; eexists|by right]. }
  exfalso.
  assert (forall i t, table s !! i = Some t -> t_at t = TReturned \/ (t_at t = TLock /\ mutex s <> None)) as Hd.
  { intros i t Et. specialize (Ht' i). unfold threadFunc in Ht'. rewrite Et in Ht'. destruct (t_at t); try done; [|by left]. right. split; [done|]. by destruct (mutex s). }
  destruct (mutex s) as [[|i]|] eqn:Emu.
  - pose proof (i_main s I) as Hh. rewrite Emu in Hh. unfold main_step in Hm'. destruct (main_at s) as [| | | | | |idx|idx|idx| | | |]; try done.
    + destruct (idx <? totThreads s)%nat; [|done]. by destruct (table s !! idx).
    + destruct Hpc as (_ & t & Et & Htt). rewrite Et in Hm'. pose proof (i_table s I idx t Et) as Hok. unfold t_ok, terminated in *. destruct (state t); try done. destruct (Hd idx t Et) as [Ha|[Ha _]]; by rewrite Ha in *.
  - destruct (i_owner s I i Emu) as (t & Et & Hh). destruct (Hd i t Et) as [Ha|[Ha _]]; by rewrite Ha in Hh.
  - assert (forall i t, table s !! i = Some t -> t_at t = TReturned) as Hr by (intros i t Et; destruct (Hd i t Et) as [|[_ ?]]; done).
    unfold main_step in Hm'. rewrite Emu in Hm'. destruct (main_at s) as [[]| | | | | |idx|idx|idx| | | |] eqn:Em; try done.
    all: try (by destruct Hx); try (by edestruct Hx'); try (pose proof (i_main s I) as Hh; by rewrite Em, Emu in Hh).
    + destruct Hpc as [Hl Hw]. destruct (proj1 (counted_plain s ltac:(by rewrite Em)) (i_counted s I)) as (_ & _ & Hlive).
      destruct (decide (0 < numUnjoined s)) as [Hp|Hp].
      * destruct (Hw Hp) as (i & t & Et & Hs). unfold to_signal in Hs. by rewrite (Hr i t Et) in Hs.
      * rewrite Hlive in Hl. destruct (sum_by_pos live (table s) Hl) as (i & t & Et & Hlt). pose proof (i_table s I i t Et) as Hok. pose proof (Hr i t Et) as Ha.
        assert (1 <= numUnjoined s); [|lia]. rewrite (i_unjoined s I). pose proof (sum_by_ge unjoined (table s) i t ltac:(intros y; unfold unjoined; destruct (state y), (t_at y); lia) Et) as Hge.
        unfold live, joined, t_ok, unjoined in *. rewrite Ha in *. destruct (state t); try done; lia.
Qed.
End Inv.

(** ** What the program does *)

(** C31. However the threads are scheduled, whenever waits end without a signal, and for any
    arguments: a thread is joined only after it has said that it ends, at most once, and the lines
    that are printed count down; when [main] has ended normally it has joined every thread, and the
    lines name each thread once.  No thread that is not in the table is touched. *)
Theorem joined_once argv0 args sched s : exec act sched (init argv0 args) = Some s ->
  let n := length args in
  main_at s <> MUndef /\ NoDup (reaped s).*1 /\ (forall i, i ∈ (reaped s).*1 -> exists t, table s !! i = Some t /\ t_at t = TReturned) /\
  (main_at s = MExit -> (reaped s).*1 ≡ₚ seq 0 n /\ (reaped s).*2 = (fun k => Z.of_nat n - 1 - Z.of_nat k) <$> seq 0 n).
Proof.
  intros E n. assert (inv n s) as I.
  { eapply (reach_inv act (inv n) (init argv0 args)); [by apply init_joined|intros a s1 s2; by apply act_good|by exists sched]. }
  assert (main_at s <> MUndef) as Hu by (intros Hu; pose proof (i_pc n s I) as Hpc; unfold main_ok in Hpc; by rewrite Hu in Hpc).
  split_and!; [done|apply I| |].
  - intros i Hi. apply (i_reaped n s I) in Hi as (t & Ht & Hj). exists t. split; [done|]. pose proof (i_table n s I i t Ht) as Hok. unfold joined, t_ok in *. destruct (state t), (t_at t); done.
  - intros Hx. destruct (lines_plain n s I ltac:(by rewrite Hx)) as [Hl2 Hl]. destruct (proj1 (counted_plain n s ltac:(by rewrite Hx)) (i_counted n s I)) as (Hn & _ & Hlive).
    assert (numLive s <= 0) as H0 by (pose proof (i_pc n s I) as Hpc; unfold main_ok in Hpc; by rewrite Hx in Hpc).
    assert (length (reaped s) = n) as Hlen.
    { assert (0 <= numLive s); [|lia]. rewrite Hlive. apply sum_by_nonneg. intros t _. unfold live. by destruct (joined t). }
    rewrite Hlen in Hl2. split; [|done]. apply submseteq_length_Permutation; [|rewrite length_seq, length_fmap; lia].
    apply NoDup_submseteq; [apply I|]. intros i Hi. apply (i_reaped n s I) in Hi as (t & Ht & _). apply lookup_lt_Some in Ht. apply elem_of_seq. lia.
Qed.

(** It ends: every schedule has at most 3n^2 + 16n + 4 steps, and three for each wakeup without a
    signal; and it stops only when [main] has ended, normally or with a message about an argument. *)
Theorem joining_ends argv0 args sched s : exec act sched (init argv0 args) = Some s ->
  let n := Z.of_nat (length args) in
  Z.of_nat (length sched) <= 3 * n * n + 16 * n + 4 + sum_by spurious sched /\
  ((forall a, a <> Spurious -> act a s = None) -> main_at s = MExit \/ exists text, main_at s = MFail text).
Proof.
  intros E n. set (k := length args).
  destruct (exec_budget act (inv k) (rank k) spurious (fun a s s' => act_lowers k a s s') sched (init argv0 args) s) as [I Hl]; [by apply init_joined|done|].
  split; [|by apply (join_stuck k)]. pose proof (rank_pos k s I). pose proof (rank_init k argv0 args eq_refl). change (sum_by spurious sched) with (foldr (fun a n => spurious a + n) 0 sched).
  unfold N in *. fold n in H0. subst k. nia.
Qed.

Definition args2 : list string := ["1"; "0"]%string.
Definition run2 : list actor :=
  [Mn; Mn; Mn; Mn; Mn; Mn; Spurious; Mn; Mn] ++ replicate 6 (T 1) ++ replicate 8 Mn ++ replicate 6 (T 0) ++ replicate 10 Mn.

Lemma joined_once_witness : exists s, exec act run2 (init "multijoin" args2) = Some s /\ main_at s = MExit /\ (reaped s).*1 ≡ₚ [0; 1]%nat /\ reaped s = [(1%nat, 1); (0%nat, 0)].
Proof.
  eexists. split; [vm_compute; reflexivity|]. set (s := MkSt _ _ _ _ _ _ _). split; [reflexivity|]. split; [|reflexivity].
  destruct (joined_once "multijoin" args2 run2 s) as (_ & _ & _ & H); [vm_compute; reflexivity|]. destruct (H eq_refl) as [H1 _]. exact H1.
Defined.

Lemma joining_ends_witness : exists s, exec act run2 (init "multijoin" args2) = Some s /\ Z.of_nat (length run2) <= 3 * 2 * 2 + 16 * 2 + 4 + 3 /\ main_at s = MExit.
Proof.
  eexists. split; [vm_compute; reflexivity|]. set (s := MkSt _ _ _ _ _ _ _).
  destruct (joining_ends "multijoin" args2 run2 s) as [H _]; [vm_compute; reflexivity|split; [exact H|reflexivity]].
Defined.
