(* ===== verification/Intro.v ===== *)
(** * The small programs of weeks 1 and 3 that compute something

    war.c (week 1), 02_dyn.c and 03_dl.c (week 3), which draw numbers from my_lib.c, and
    mem_leak/tmp.c. *)

From S2P Require Import Prelude CLib Process Files.
Local Open Scope Z_scope.
Local Open Scope c_scope.

(** ** war.c *)

(** [fgets] into [n + 1] bytes. *)
Fixpoint fgets_line (n : nat) (stdin : string) : string :=
  match n, stdin with
  | S n, String c s => if code c =? 10 then String c "" else String c (fgets_line n s)
  | _, _ => ""
  end.

Definition confirm_total_war (stdin : string) : list ev * bool :=
  let buf := fgets_line 9 stdin in
  ([Out ("Feeling confident? (yes/no)" +:+ nl)], negb (strlen buf =? 0) && match buf with String c _ => (code c =? 121) | _ => false end).

(** [launch_rockets] is not in the repository. *)
Definition war_main (launch_rockets : list ev) (stdin : string) : list ev :=
  let '(out, yes) := confirm_total_war stdin in
  out ++ (if yes then launch_rockets else [Out ("Next time then..." +:+ nl)]).

(** ** 02_dyn.c, 03_dl.c *)

Definition fmt_u (z : Z) : string := utoa 10 (u32 z).
Definition numbers_N : nat := 5.

Fixpoint draw (n : nat) (seed : Z) : res (list ev) :=
  match n with
  | O => Ok []
  | S n => let* seed := my_rand seed in let* out := draw n seed in Ok (Out (fmt_u seed +:+ nl) :: out)
  end.

Definition dyn_main (time : Z) : res (list ev) := draw numbers_N (s32 time).

(** [lib]: what [dlopen] found, with whether the two symbols are there; [dlerror] is what it says. *)
Definition dl_main (lib : option (bool * bool)) (dlerror : string) (time : Z) : res (list ev * Z) :=
  match lib with
  | None => Ok ([Out ("ERROR: dlopen: " +:+ dlerror +:+ nl)], 1)
  | Some (my_srand_fptr, my_rand_fptr) =>
      if negb my_srand_fptr || negb my_rand_fptr then Ok ([Out ("ERROR: dlsym: " +:+ dlerror +:+ nl)], 1)
      else let* out := draw numbers_N (s32 time) in Ok (out, 0)
  end.

(** ** mem_leak/tmp.c *)

Definition strcat (b : cbuf) (s : string) : res cbuf := cbuf_write b (String.length (text b)) s.

Definition get_abs_path (path : cbuf) (dir fname : string) : res (cbuf * list ev) :=
  let* path1 := strcat path dir in
  let* path1 := strcat path1 "/" in
  let* path1 := strcat path1 fname in
  Ok (path1, [Out (text path +:+ nl)]).

Fixpoint paths (n : nat) : res (list ev) :=
  match n with
  | O => Ok []
  | S n =>
      let* r := get_abs_path (MkCbuf "" 255) "Hanh" "Nguyen" in
      let '(path, out) := r in
      let* rest := paths n in
      Ok (out ++ [Out (text path +:+ nl)] ++ rest)
  end.

Definition leak_main : res (list ev) := paths 5.

(** ** What they do *)

Lemma first_letter_decides launch stdin : war_main launch stdin = Out ("Feeling confident? (yes/no)" +:+ nl) ::
  match stdin with String c _ => if (code c =? 121) then launch else [Out ("Next time then..." +:+ nl)] | _ => [Out ("Next time then..." +:+ nl)] end.
Proof.
  destruct stdin as [|c s]; [done|]. unfold war_main, confirm_total_war. cbn [fgets_line].
  destruct (code c =? 10); cbn [app]; by (unfold strlen; cbn [String.length]; rewrite (proj2 (Z.eqb_neq (Z.of_nat _) 0)) by lia).
Qed.

Lemma take_whole s : take_str (String.length s) s = s.
Proof. induction s as [|c s IH]; [done|]. cbn. by rewrite IH. Qed.

(** A path is put together exactly when it fits with its terminator. *)
Lemma abs_path_fits path dir fname : 0 <= cap path ->
  get_abs_path path dir fname =
  if strlen (text path) + strlen dir + 1 + strlen fname + 1 <=? cap path
  then Ok (MkCbuf (text path +:+ dir +:+ "/" +:+ fname) (cap path), [Out (text path +:+ nl)]) else Undef OutOfBounds.
Proof.
  intros _. assert (forall (b : cbuf) s, strcat b s = if strlen (text b) + strlen s + 1 <=? cap b then Ok (MkCbuf (text b +:+ s) (cap b)) else Undef OutOfBounds) as Hc.
  { intros b s. unfold strcat, cbuf_write. fold (strlen (text b)). destruct (_ <=? _); [|done]. do 2 f_equal. f_equal. apply take_whole. }
  assert (forall s, 0 <= strlen s) as Hs by (intros s; unfold strlen; lia). pose proof (Hs dir). pose proof (Hs fname). pose proof (Hs (text path)).
  unfold get_abs_path. rewrite Hc. destruct (Z.leb_spec (strlen (text path) + strlen dir + 1) (cap path)); cbn [rbind]; [|by rewrite (proj2 (Z.leb_gt _ _)) by lia].
  rewrite Hc. cbn [text cap]. rewrite strlen_app. change (strlen "/") with 1. destruct (Z.leb_spec (strlen (text path) + strlen dir + 1 + 1) (cap path)); cbn [rbind]; [|by rewrite (proj2 (Z.leb_gt _ _)) by lia].
  rewrite Hc. cbn [text cap]. rewrite !strlen_app. change (strlen "/") with 1.
  destruct (Z.leb_spec (strlen (text path) + strlen dir + 1 + strlen fname + 1) (cap path)); cbn [rbind]; [|done]. by rewrite <- !append_assoc.
Qed.

Lemma leak_prints : leak_main = Ok (concat (replicate 5 [Out nl; Out ("Hanh/Nguyen" +:+ nl)])).
Proof. vm_compute. reflexivity. Qed.

(** The library gives what linking with it gives. *)
Lemma dl_as_dyn dlerror time out : dyn_main time = Ok out <-> dl_main (Some (true, true)) dlerror time = Ok (out, 0).
Proof. unfold dyn_main, dl_main. cbn [negb orb]. destruct (draw numbers_N (s32 time)); cbn [rbind]; split; congruence. Qed.

(** From every time since the third second of the epoch the product in [my_rand] does not fit. *)
Lemma first_number_overflows time : 2 <= time <= INT_MAX -> dyn_main time = Undef IntOverflow.
Proof.
  intros H. unfold dyn_main, INT_MAX in *. rewrite s32_small by (unfold INT_MIN, INT_MAX; lia). unfold numbers_N. cbn [draw]. unfold my_rand.
  assert ((a * time <=? INT_MAX) = false) as -> by (unfold a, INT_MAX; lia). by rewrite andb_false_r.
Qed.
