(* ===== verification/JobQueue.v ===== *)
(** * apue.3e/threads/rwlock.c: a queue of jobs behind a reader-writer lock

    The four functions of the queue as steps of any number of threads.  A call that changes the queue
    is made of waiting for the write lock, its changes, and the unlocking; [job_find] takes a step
    for each job that it looks at, under the read lock, which it may be refused.  The caller's part is
    in [legal]: a job is inserted that is not in the queue, one is removed that is, and two threads
    do not move one job at a time. *)

From S2P Require Import Prelude Steps Dll.
Local Open Scope Z_scope.
Local Open Scope c_scope.

Record job := MkJob { j_next : option nat; j_prev : option nat; j_id : Z }.
Record queue := MkQueue { heap : gmap nat job; q_head : option nat; q_tail : option nat }.

Definition set_next (x : option nat) (j : job) : job := MkJob x (j_prev j) (j_id j).
Definition set_prev (x : option nat) (j : job) : job := MkJob (j_next j) x (j_id j).
Definition set_head (x : option nat) (q : queue) : queue := MkQueue (heap q) x (q_tail q).
Definition set_tail (x : option nat) (q : queue) : queue := MkQueue (heap q) (q_head q) x.

Definition get (p : nat) (q : queue) : res job := match heap q !! p with Some j => Ok j | None => Undef OutOfBounds end.
Definition put (p : nat) (f : job -> job) (q : queue) : res queue :=
  match heap q !! p with Some j => Ok (MkQueue (<[p := f j]> (heap q)) (q_head q) (q_tail q)) | None => Undef OutOfBounds end.
(** A store through a pointer that may be null. *)
Definition put_at (p : option nat) (f : job -> job) (q : queue) : res queue := match p with Some p => put p f q | None => Undef NullDeref end.

(** [err] is what [pthread_rwlock_init] answers. *)
Definition queue_init (err : Z) (q : queue) : queue * Z := (set_tail None (set_head None q), if err =? 0 then 0 else err).

Definition job_insert (jp : nat) (q : queue) : res queue :=
  let* q := put jp (set_next (q_head q)) q in
  let* q := put jp (set_prev None) q in
  let* q := match q_head q with Some _ => put_at (q_head q) (set_prev (Some jp)) q | None => Ok (set_tail (Some jp) q) end in
  Ok (set_head (Some jp) q).

Definition job_append (jp : nat) (q : queue) : res queue :=
  let* q := put jp (set_next None) q in
  let* q := put jp (set_prev (q_tail q)) q in
  let* q := match q_tail q with Some _ => put_at (q_tail q) (set_next (Some jp)) q | None => Ok (set_head (Some jp) q) end in
  Ok (set_tail (Some jp) q).

Definition job_remove (jp : nat) (q : queue) : res queue :=
  if bool_decide (q_head q = Some jp) then
    let* j := get jp q in
    let q := set_head (j_next j) q in
    if bool_decide (q_tail q = Some jp) then Ok (set_tail None q)
    else let* j := get jp q in put_at (j_next j) (set_prev (j_prev j)) q
  else if bool_decide (q_tail q = Some jp) then
    let* j := get jp q in
    let q := set_tail (j_prev j) q in
    put_at (j_prev j) (set_next (j_next j)) q
  else
    let* j := get jp q in
    let* q := put_at (j_prev j) (set_next (j_next j)) q in
    let* j := get jp q in
    put_at (j_next j) (set_prev (j_prev j)) q.

(** ** The threads *)

Inductive op := Insert (jp : nat) | Append (jp : nat) | Remove (jp : nat).
Definition job_of (o : op) : nat := match o with Insert jp | Append jp | Remove jp => jp end.
Definition change (o : op) : queue -> res queue := match o with Insert jp => job_insert jp | Append jp => job_append jp | Remove jp => job_remove jp end.

Inductive pc := Idle | WantWrite (o : op) | Writing (o : op) | WrUnlock | WantRead (id : Z) | Looking (id : Z) (cur : option nat) | RdUnlock (id : Z) (r : option nat).
Inductive rwlock := Free | Readers (n : nat) | Writer (t : nat).

(** [made] are the changes in their order, [returned] what the calls of [job_find] returned. *)
Record st := MkSt { q : queue; q_lock : rwlock; threads : list pc; made : list op; returned : list (nat * option nat); fault : option ub }.

Definition move (t : nat) (a : pc) (s : st) : st := MkSt (q s) (q_lock s) (<[t := a]> (threads s)) (made s) (returned s) (fault s).
Definition set_lock (l : rwlock) (s : st) : st := MkSt (q s) l (threads s) (made s) (returned s) (fault s).
Definition answer (t : nat) (r : option nat) (s : st) : st := MkSt (q s) (q_lock s) (threads s) (made s) (returned s ++ [(t, r)]) (fault s).
Definition crash (u : ub) (s : st) : st := MkSt (q s) (q_lock s) (threads s) (made s) (returned s) (Some u).

Definition thread_step (t : nat) (s : st) : option st :=
  match threads s !! t with
  | None | Some Idle => None
  | Some (WantWrite o) => match q_lock s with Free => Some (move t (Writing o) (set_lock (Writer t) s)) | _ => None end
  | Some (Writing o) =>
      match change o (q s) with
      | Ok q' => Some (MkSt q' (q_lock s) (<[t := WrUnlock]> (threads s)) (made s ++ [o]) (returned s) (fault s))
      | Undef u => Some (crash u s)
      | NoFuel => None
      end
  | Some WrUnlock => Some (move t Idle (set_lock Free s))
  | Some (WantRead id) =>
      match q_lock s with
      | Free => Some (move t (Looking id (q_head (q s))) (set_lock (Readers 1) s))
      | Readers n => Some (move t (Looking id (q_head (q s))) (set_lock (Readers (S n)) s))
      | Writer _ => None
      end
  | Some (Looking id None) => Some (move t (RdUnlock id None) s)
  | Some (Looking id (Some p)) =>
      match get p (q s) with
      | Ok j => Some (move t (if j_id j =? id then RdUnlock id (Some p) else Looking id (j_next j)) s)
      | Undef u => Some (crash u s)
      | NoFuel => None
      end
  | Some (RdUnlock id r) =>
      match q_lock s with
      | Readers (S (S n)) => Some (answer t r (move t Idle (set_lock (Readers (S n)) s)))
      | _ => Some (answer t r (move t Idle (set_lock Free s)))
      end
  end.

(** ** The list *)

Definition apply (l : list nat) (o : op) : list nat :=
  match o with Insert jp => jp :: l | Append jp => l ++ [jp] | Remove jp => filter (fun p => p <> jp) l end.
Definition content (s : st) : list nat := fold_left apply (made s) [].

Definition pending (a : pc) : option nat := match a with WantWrite o | Writing o => Some (job_of o) | _ => None end.

Definition fits (l : list nat) (h : gmap nat job) (o : op) : bool :=
  match o with
  | Insert jp | Append jp => bool_decide (jp ∉ l) && bool_decide (is_Some (h !! jp))
  | Remove jp => bool_decide (jp ∈ l)
  end.
Definition legal (o : op) (s : st) : bool := fits (content s) (heap (q s)) o && forallb (fun a => negb (bool_decide (pending a = Some (job_of o)))) (threads s).

Inductive actor := Change (t : nat) (o : op) | Find (t : nat) (id : Z) | Refused (t : nat) | Step (t : nat).

Definition act (a : actor) (s : st) : option st :=
  match fault s, a with
  | Some _, _ => None
  | None, Change t o => match threads s !! t with Some Idle => if legal o s then Some (move t (WantWrite o) s) else None | _ => None end
  | None, Find t id => match threads s !! t with Some Idle => Some (move t (WantRead id) s) | _ => None end
  | None, Refused t => match threads s !! t with Some (WantRead id) => Some (answer t None (move t Idle s)) | _ => None end
  | None, Step t => thread_step t s
  end.

Definition init (h : gmap nat job) (n : nat) : st := MkSt (fst (queue_init 0 (MkQueue h None None))) Free (replicate n Idle) [] [] None.

(** ** The changes are changes of a list *)

Definition linked (q : queue) (l : list nat) : Prop := dll j_next j_prev (heap q) (q_head q) (q_tail q) l.

(** Only links were changed. *)
Definition same_ids (h h' : gmap nat job) : Prop := forall p, j_id <$> h' !! p = j_id <$> h !! p.

#[export] Instance same_ids_preorder : PreOrder same_ids.
Proof. split; [done|]. intros x y z H1 H2 p. by rewrite H2. Qed.

Lemma same_ids_insert h p j j' : h !! p = Some j -> j_id j' = j_id j -> same_ids h (<[p := j']> h).
Proof. intros Ej E r. destruct (decide (r = p)) as [->|Hr]; [rewrite lookup_insert_eq, Ej; cbn; by rewrite E|by rewrite lookup_insert_ne]. Qed.

Lemma put_ok p f q j : heap q !! p = Some j -> put p f q = Ok (MkQueue (<[p := f j]> (heap q)) (q_head q) (q_tail q)).
Proof. unfold put. by intros ->. Qed.

Lemma put_twice p f g q j : heap q !! p = Some j ->
  rbind (put p f q) (put p g) = Ok (MkQueue (<[p := g (f j)]> (heap q)) (q_head q) (q_tail q)).
Proof. intros Ej. rewrite (put_ok _ _ _ _ Ej). cbn [rbind]. erewrite put_ok by (cbn; apply lookup_insert_eq). cbn. by rewrite insert_insert_eq. Qed.

Lemma job_insert_spec q l p j : linked q l -> p ∉ l -> heap q !! p = Some j ->
  exists q', job_insert p q = Ok q' /\ linked q' (p :: l) /\ same_ids (heap q) (heap q').
Proof.
  intros L Hp Ej. pose proof (dll_push j_next j_prev _ _ _ _ p (set_prev None (set_next (q_head q) j)) L Hp eq_refl eq_refl) as D.
  assert (same_ids (heap q) (<[p := set_prev None (set_next (q_head q) j)]> (heap q))) as H1 by (by eapply same_ids_insert).
  unfold job_insert. rewrite (put_ok _ _ _ _ Ej). cbn [rbind]. erewrite put_ok by (cbn; apply lookup_insert_eq). cbn [rbind q_head heap q_tail]. rewrite insert_insert_eq.
  pose proof (d_head _ _ _ _ _ _ L) as Hh. destruct (q_head q) as [n|] eqn:Eh.
  - destruct l as [|n' l]; [done|]. injection Hh as <-. assert (n <> p) as Hne by set_solver.
    destruct (dll_live _ _ _ _ _ _ n L ltac:(left)) as [jn Ejn]. cbn [put_at]. erewrite put_ok by (cbn; by rewrite lookup_insert_ne).
    cbn [rbind]. eexists. split; [done|]. split; [by apply (D jn)|]. cbn. etrans; [exact H1|]. eapply same_ids_insert; [by rewrite lookup_insert_ne|done].
  - cbn [rbind]. eexists. split; [done|]. split; [|exact H1]. by destruct l.
Qed.

Lemma job_append_spec q l p j : linked q l -> p ∉ l -> heap q !! p = Some j ->
  exists q', job_append p q = Ok q' /\ linked q' (l ++ [p]) /\ same_ids (heap q) (heap q').
Proof.
  intros L Hp Ej. pose proof (dll_append j_next j_prev _ _ _ _ p (set_prev (q_tail q) (set_next None j)) L Hp eq_refl eq_refl) as D.
  assert (same_ids (heap q) (<[p := set_prev (q_tail q) (set_next None j)]> (heap q))) as H1 by (by eapply same_ids_insert).
  unfold job_append. rewrite (put_ok _ _ _ _ Ej). cbn [rbind q_tail]. erewrite put_ok by (cbn; apply lookup_insert_eq). cbn [rbind q_head heap q_tail]. rewrite insert_insert_eq.
  pose proof (d_tail _ _ _ _ _ _ L) as Ht. destruct (q_tail q) as [t|] eqn:Et.
  - symmetry in Ht. assert (t ∈ l) as Htl by (apply last_Some in Ht as [l0 ->]; set_solver). assert (t <> p) as Hne by congruence.
    destruct (dll_live _ _ _ _ _ _ t L Htl) as [jt Ejt]. cbn [put_at]. erewrite put_ok by (cbn; by rewrite lookup_insert_ne).
    cbn [rbind]. eexists. split; [done|]. split; [by apply (D jt)|]. cbn. etrans; [exact H1|]. eapply same_ids_insert; [by rewrite lookup_insert_ne|done].
  - cbn [rbind]. eexists. split; [done|]. split; [|exact H1]. symmetry in Ht. by apply last_None in Ht as ->.
Qed.

Lemma filter_others (l : list nat) p : (p ∉ l) -> filter (fun x => x <> p) l = l.
Proof. induction l as [|x l IH]; intros H; [done|]. rewrite filter_cons_True by set_solver. f_equal. apply IH. set_solver. Qed.

Lemma filter_middle (a b : list nat) p : (p ∉ a) -> (p ∉ b) -> filter (fun x => x <> p) (a ++ p :: b) = a ++ b.
Proof.
  intros Ha Hb. rewrite filter_app, filter_cons_False by (by intros []). by rewrite !filter_others.
Qed.

Lemma job_remove_spec q a p b : linked q (a ++ p :: b) ->
  exists q', job_remove p q = Ok q' /\ linked q' (a ++ b) /\ same_ids (heap q) (heap q').
Proof.
  intros L. destruct (dll_inner _ _ _ _ _ _ _ _ L) as (j & Ej & Epv & Enx & Hpa & Hpb).
  pose proof (fun h' => dll_remove j_next j_prev (heap q) h' _ _ a p b L) as R. pose proof (d_head _ _ _ _ _ _ L) as Hh. pose proof (d_tail _ _ _ _ _ _ L) as Ht.
  assert (forall n, n ∈ a \/ n ∈ b -> n <> p /\ exists jn, heap q !! n = Some jn) as Hlive.
  { intros n Hn. split; [set_solver|]. apply (dll_live _ _ _ _ _ _ n L). set_solver. }
  assert (forall n, n ∈ a -> n ∈ b -> False) as Hab.
  { intros n Ha Hb. pose proof (d_nodup _ _ _ _ _ _ L) as (_ & H & _)%NoDup_app. apply (H n Ha). by right. }
  unfold job_remove, get. rewrite Ej. cbn [rbind]. destruct a as [|a0 a0s] eqn:Ea.
  - cbn [app head] in Hh. rewrite Hh. rewrite bool_decide_true by done. cbn [set_head q_tail heap q_head]. destruct b as [|n b].
    + cbn in Ht. rewrite Ht, bool_decide_true by done. eexists. split; [done|]. split; [|done]. unfold linked. cbn. rewrite Enx. by apply R.
    + rewrite bool_decide_false by (rewrite Ht; cbn [app]; rewrite last_cons_cons; intros E; apply last_Some in E as [l' E]; apply Hpb; rewrite E; set_solver).
      rewrite Ej. cbn [rbind]. rewrite Enx, Epv. cbn [head last put_at].
      destruct (Hlive n) as [Hne [jn Ejn]]; [right; left|]. erewrite put_ok by done. eexists. split; [done|]. split; [|by eapply same_ids_insert].
      unfold linked. cbn [heap q_head q_tail head app]. apply R.
      * intros r _ Hr. rewrite lookup_insert_ne; [done|]. intros ->. done.
      * done.
      * intros n' [= <-]. eexists _, _. rewrite lookup_insert_eq. split_and!; [exact Ejn|done|done|done].
  - destruct (last (a0 :: a0s)) as [t|] eqn:El; [|by apply last_None in El]. assert (t ∈ a0 :: a0s) as Hta by (apply last_Some in El as [l' ->]; set_solver).
    rewrite bool_decide_false by (rewrite Hh; cbn; intros [= ->]; apply Hpa; left). destruct (Hlive t ltac:(by left)) as [Hnt [jt Ejt]]. destruct b as [|n b].
    + rewrite bool_decide_true by (rewrite Ht; apply last_snoc). rewrite Epv, Enx. cbn [put_at set_tail]. erewrite put_ok by done. eexists. split; [done|]. split; [|by eapply same_ids_insert].
      unfold linked. cbn [heap q_head q_tail head]. apply R.
      * intros r Hr _. rewrite lookup_insert_ne; [done|]. intros ->. done.
      * intros t' [= <-]. eexists _, _. rewrite lookup_insert_eq. split_and!; [exact Ejt|done|done|done].
      * done.
    + destruct (Hlive n ltac:(right; left)) as [Hnn [jn Ejn]]. assert (n <> t) as Hne by (intros ->; apply (Hab t); [done|left]).
      rewrite bool_decide_false by (rewrite Ht, last_app, last_cons_cons; destruct (last (n :: b)) as [m|] eqn:Em; [|by apply last_None in Em]; intros [= ->]; apply last_Some in Em as [l' Em]; apply Hpb; rewrite Em; set_solver).
      rewrite Epv, Enx. cbn [head put_at]. erewrite put_ok by done. cbn [rbind heap]. rewrite lookup_insert_ne, Ej by done. cbn [rbind]. rewrite Epv, Enx. cbn [head put_at].
      erewrite put_ok by (cbn; by rewrite lookup_insert_ne). eexists. split; [done|]. split.
      * unfold linked. cbn [heap q_head q_tail]. apply R.
        -- intros r Hr Hr'. rewrite !lookup_insert_ne; [done| |]; intros ->; done.
        -- intros t' [= <-]. eexists _, _. rewrite lookup_insert_ne, lookup_insert_eq by done. split_and!; [exact Ejt|done|done|done].
        -- intros n' [= <-]. eexists _, _. rewrite lookup_insert_eq. split_and!; [exact Ejn|done|done|done].
      * etrans; [by eapply (same_ids_insert _ t jt (set_next (Some n) jt))|]. eapply same_ids_insert; [cbn; by rewrite lookup_insert_ne|done].
Qed.

Lemma change_spec q l o : linked q l -> fits l (heap q) o = true ->
  exists q', change o q = Ok q' /\ linked q' (apply l o) /\ same_ids (heap q) (heap q').
Proof.
  intros L H. destruct o as [jp|jp|jp]; cbn in H.
  - apply andb_true_iff in H as [H1%bool_decide_eq_true [j Ej]%bool_decide_eq_true]. by apply (job_insert_spec q l jp j).
  - apply andb_true_iff in H as [H1%bool_decide_eq_true [j Ej]%bool_decide_eq_true]. by apply (job_append_spec q l jp j).
  - apply bool_decide_eq_true in H. apply list_elem_of_split in H as (a & b & ->). destruct (dll_inner _ _ _ _ _ _ _ _ L) as (_ & _ & _ & _ & Ha & Hb).
    cbn [apply]. rewrite filter_middle by done. by apply job_remove_spec.
Qed.

(** ** The invariant *)

Definition writes (a : pc) : bool := match a with Writing _ | WrUnlock => true | _ => false end.
Definition reads (a : pc) : Z := match a with Looking _ _ | RdUnlock _ _ => 1 | _ => 0 end.
Definition op_of (a : pc) : option op := match a with WantWrite o | Writing o => Some o | _ => None end.
Definition count (l : rwlock) : Z := match l with Readers n => Z.of_nat n | _ => 0 end.
Definition taken (l : rwlock) : Prop := match l with Readers n => (0 < n)%nat | _ => True end.

Lemma reads_nonneg a : 0 <= reads a.
Proof. destruct a; cbn; lia. Qed.

Lemma pending_op a : pending a = job_of <$> op_of a.
Proof. by destruct a. Qed.

Lemma same_ids_live h h' p : same_ids h h' -> is_Some (h !! p) <-> is_Some (h' !! p).
Proof. intros H. specialize (H p). destruct (h !! p), (h' !! p); cbn in H; split; intros [? ?]; done || by eexists. Qed.

Lemma elem_of_apply l o p : p <> job_of o -> p ∈ apply l o <-> p ∈ l.
Proof.
  intros Hp. destruct o as [jp|jp|jp]; cbn in *; [by rewrite elem_of_cons; intuition|rewrite elem_of_app, list_elem_of_singleton; intuition|].
  rewrite list_elem_of_filter. intuition.
Qed.

Lemma fits_apply l h h' o o' : job_of o' <> job_of o -> same_ids h h' -> fits l h o' = true -> fits (apply l o) h' o' = true.
Proof.
  intros Hn Hs H. assert (bool_decide (job_of o' ∈ apply l o) = bool_decide (job_of o' ∈ l)) as E by (apply bool_decide_ext, elem_of_apply, Hn).
  assert (bool_decide (is_Some (h' !! job_of o')) = bool_decide (is_Some (h !! job_of o'))) as E' by (apply bool_decide_ext; symmetry; by apply same_ids_live).
  destruct o' as [jp|jp|jp]; cbn in *; rewrite ?bool_decide_not in *; by rewrite E, ?E'.
Qed.

Section Inv.
Context (h0 : gmap nat job).

(** The first job of a thread in a list. *)
Definition wanted (id : Z) (p : nat) : Prop := j_id <$> h0 !! p = Some id.
#[local] Instance wanted_dec id p : Decision (wanted id p).
Proof. unfold wanted. apply _. Defined.
Definition first_of (id : Z) (l : list nat) : option nat := head (filter (wanted id) l).

Definition reader_ok (l : list nat) (a : pc) : Prop :=
  match a with
  | Looking id cur => exists x y, l = x ++ y /\ cur = head y /\ filter (wanted id) x = []
  | RdUnlock id r => r = first_of id l
  | _ => True
  end.

Record inv (s : st) : Prop := MkInv {
  i_fault : fault s = None;
  i_write : forall t a, threads s !! t = Some a -> writes a = true -> q_lock s = Writer t;
  i_writer : forall t, q_lock s = Writer t -> exists a, threads s !! t = Some a /\ writes a = true;
  i_readers : sum_by reads (threads s) = count (q_lock s) /\ taken (q_lock s);
  i_list : linked (q s) (content s);
  i_ids : same_ids h0 (heap (q s));
  i_fits : forall t a o, threads s !! t = Some a -> op_of a = Some o -> fits (content s) (heap (q s)) o = true;
  i_apart : forall t u a b p, threads s !! t = Some a -> threads s !! u = Some b -> pending a = Some p -> pending b = Some p -> t = u;
  i_reader : forall t a, threads s !! t = Some a -> reader_ok (content s) a
}.

(** A step of thread [t] that leaves the queue alone. *)
Lemma move_inv s t a a' lk ret : inv s -> threads s !! t = Some a ->
  (writes a' = true <-> lk = Writer t) -> (forall u, u <> t -> lk = Writer u <-> q_lock s = Writer u) ->
  count lk - count (q_lock s) = reads a' - reads a -> taken lk ->
  (op_of a' = None \/ op_of a' = op_of a \/ exists o, op_of a' = Some o /\ legal o s = true) -> reader_ok (content s) a' ->
  inv (MkSt (q s) lk (<[t := a']> (threads s)) (made s) ret (fault s)).
Proof.
  intros I Ht Hw Hlk Hc Htk Hop Hr. pose proof (lookup_lt_Some _ _ _ Ht) as Hlt.
  assert (forall u b, <[t := a']> (threads s) !! u = Some b -> (u = t /\ b = a') \/ (u <> t /\ threads s !! u = Some b)) as Hu.
  { intros u b Hb. apply list_lookup_insert_Some in Hb as [(-> & <- & _)|(Hne & Hb)]; [by left|by right]. }
  assert (forall o, op_of a' = Some o -> fits (content s) (heap (q s)) o = true /\ forall u b, u <> t -> threads s !! u = Some b -> pending b <> Some (job_of o)) as Ho.
  { intros o Eo. destruct Hop as [E|[E|(o' & E & Hl)]]; [congruence| |].
    - rewrite E in Eo. split; [by apply (i_fits s I t a)|]. intros u b Hne Hb Hp. apply Hne. apply (i_apart s I u t b a (job_of o)); try done. by rewrite pending_op, Eo.
    - rewrite E in Eo. simplify_eq. unfold legal in Hl. apply andb_true_iff in Hl as [Hf Hall]. split; [done|]. intros u b _ Hb Hp.
      rewrite forallb_forall in Hall. specialize (Hall b ltac:(apply list_elem_of_In; by eapply list_elem_of_lookup_2)). by rewrite bool_decide_true in Hall. }
  constructor; cbn [q q_lock threads made returned fault]; try apply I.
  - intros u b Hb Hwb. apply Hu in Hb as [[-> ->]|[Hne Hb]]; [by apply Hw|]. apply Hlk; [done|]. by apply (i_write s I u b).
  - intros u Eu. destruct (decide (u = t)) as [->|Hne].
    + exists a'. split; [by apply list_lookup_insert_eq|by apply Hw].
    + apply Hlk in Eu; [|done]. destruct (i_writer s I u Eu) as (b & Hb & Hwb). exists b. by rewrite list_lookup_insert_ne.
  - destruct (i_readers s I) as [Es _]. rewrite (sum_by_insert reads _ t a) by done. split; [lia|done].
  - intros u b o Hb Eo. apply Hu in Hb as [[-> ->]|[Hne Hb]]; [by apply Ho|]. by apply (i_fits s I u b).
  - intros u v b c p Hb Hc' Pb Pc. apply Hu in Hb as [[-> ->]|[Hne Hb]], Hc' as [[-> ->]|[Hne' Hc']]; try done.
    + rewrite pending_op in Pb. destruct (op_of a') as [o|] eqn:Eo; [|done]. cbn in Pb. simplify_eq. destruct (Ho o eq_refl) as [_ H]. by destruct (H v c Hne' Hc').
    + rewrite pending_op in Pc. destruct (op_of a') as [o|] eqn:Eo; [|done]. cbn in Pc. simplify_eq. destruct (Ho o eq_refl) as [_ H]. by destruct (H u b Hne Hb).
    + by apply (i_apart s I u v b c p).
  - intros u b Hb. apply Hu in Hb as [[-> ->]|[Hne Hb]]; [done|]. by apply (i_reader s I u b).
Qed.

(** While a thread writes, none reads. *)
Lemma no_readers s t u a : inv s -> q_lock s = Writer t -> threads s !! u = Some a -> reads a = 0.
Proof.
  intros I Hl Hu. destruct (i_readers s I) as [Es _]. rewrite Hl in Es. cbn in Es. pose proof (sum_by_ge reads (threads s) u a reads_nonneg Hu). pose proof (reads_nonneg a). lia.
Qed.

Lemma change_inv s t o q' : inv s -> threads s !! t = Some (Writing o) -> change o (q s) = Ok q' -> linked q' (apply (content s) o) -> same_ids (heap (q s)) (heap q') ->
  inv (MkSt q' (q_lock s) (<[t := WrUnlock]> (threads s)) (made s ++ [o]) (returned s) (fault s)).
Proof.
  intros I Ht _ HL Hids. pose proof (lookup_lt_Some _ _ _ Ht) as Hlt. pose proof (i_write s I t _ Ht eq_refl) as Hl.
  assert (content (MkSt q' (q_lock s) (<[t := WrUnlock]> (threads s)) (made s ++ [o]) (returned s) (fault s)) = apply (content s) o) as Hc by (unfold content; cbn; by rewrite fold_left_app).
  assert (forall u b, <[t := WrUnlock]> (threads s) !! u = Some b -> (u = t /\ b = WrUnlock) \/ (u <> t /\ threads s !! u = Some b)) as Hu.
  { intros u b Hb. apply list_lookup_insert_Some in Hb as [(-> & <- & _)|(Hne & Hb)]; [by left|by right]. }
  constructor; rewrite ?Hc; cbn [q q_lock threads made returned fault]; try apply I; try done.
  - intros u b Hb Hwb. apply Hu in Hb as [[-> ->]|[Hne Hb]]; [done|]. by apply (i_write s I u b).
  - intros u Eu. rewrite Hl in Eu. injection Eu as <-. eexists. by rewrite list_lookup_insert_eq.
  - rewrite (sum_by_insert reads _ t _ _ Ht). cbn. rewrite Z.sub_0_r, Z.add_0_r. apply I.
  - etrans; [apply I|done].
  - intros u b o' Hb Eo. apply Hu in Hb as [[-> ->]|[Hne Hb]]; [done|]. eapply fits_apply; [|exact Hids|by apply (i_fits s I u b)].
    intros E. apply Hne. apply (i_apart s I u t b (Writing o) (job_of o)); try done. by rewrite pending_op, Eo, <- E.
  - intros u v b c p Hb Hc' Pb Pc. apply Hu in Hb as [[-> ->]|[Hne Hb]], Hc' as [[-> ->]|[Hne' Hc']]; try done. by apply (i_apart s I u v b c p).
  - intros u b Hb. apply Hu in Hb as [[-> ->]|[Hne Hb]]; [done|]. pose proof (no_readers s t u b I Hl Hb). by destruct b.
Qed.

Lemma look_inv s t id p : inv s -> threads s !! t = Some (Looking id (Some p)) ->
  exists j, get p (q s) = Ok j /\ inv (move t (if j_id j =? id then RdUnlock id (Some p) else Looking id (j_next j)) s).
Proof.
  intros I Ht. destruct (i_reader s I t _ Ht) as (x & y & Hl & Hp & Hx). destruct y as [|p' y]; [done|]. injection Hp as <-.
  pose proof (i_list s I) as L. unfold linked in L. rewrite Hl in L. destruct (dll_inner _ _ _ _ _ _ _ _ L) as (j & Ej & _ & Enx & _ & _).
  exists j. unfold get. rewrite Ej. split; [done|]. pose proof (i_ids s I p) as Hid. rewrite Ej in Hid. cbn in Hid.
  assert (taken (q_lock s)) as Htk by apply (i_readers s I).
  apply (move_inv s t _ _ (q_lock s) (returned s) I Ht); try done.
  - split; [by destruct (j_id j =? id)|]. intros E. destruct (i_writer s I t E) as (a & Ha & Hw). rewrite Ht in Ha. by simplify_eq.
  - destruct (j_id j =? id); cbn; lia.
  - left. by destruct (j_id j =? id).
  - destruct (Z.eqb_spec (j_id j) id) as [He|He]; cbn.
    + unfold first_of. rewrite Hl, filter_app, Hx. cbn [app]. rewrite filter_cons_True; [done|]. unfold wanted. by rewrite <- Hid, He.
    + exists (x ++ [p]), y. rewrite <- app_assoc. split_and!; [done|done|]. rewrite filter_app, Hx. cbn [app]. rewrite filter_cons_False; [done|]. unfold wanted. rewrite <- Hid. congruence.
Qed.

Lemma thread_step_inv s t s' : inv s -> thread_step t s = Some s' -> inv s'.
Proof.
  intros I E. unfold thread_step in E. destruct (threads s !! t) as [a|] eqn:Ht; [|done].
  destruct (i_readers s I) as [Es Htk]. pose proof (sum_by_ge reads _ t a reads_nonneg Ht) as Hge.
  assert (forall a' lk ret, (writes a' = true <-> lk = Writer t) -> (forall u, u <> t -> lk = Writer u <-> q_lock s = Writer u) -> count lk - count (q_lock s) = reads a' - reads a -> taken lk ->
    (op_of a' = None \/ op_of a' = op_of a \/ exists o, op_of a' = Some o /\ legal o s = true) -> reader_ok (content s) a' -> inv (MkSt (q s) lk (<[t := a']> (threads s)) (made s) ret (fault s))) as M by (intros; by apply (move_inv s t a)).
  destruct a as [|o|o| |id|id [p|]|id r]; try done.
  - destruct (q_lock s) eqn:El; try done. injection E as <-. apply M; try done; [by intros u Hu; split; [intros [= ->]|]|by right; left].
  - destruct (change_spec (q s) (content s) o) as (q' & Eq & HL & Hids); [apply I|by apply (i_fits s I t _ o Ht)|]. rewrite Eq in E. injection E as <-. by apply (change_inv s t o).
  - pose proof (i_write s I t _ Ht eq_refl) as El. injection E as <-. apply M; try done; [by intros u Hu; rewrite El; split; [|intros [= ->]]|by rewrite El|by left].
  - assert (forall n, q_lock s = Free /\ n = 1%nat \/ (exists k, q_lock s = Readers k /\ n = S k) -> inv (move t (Looking id (q_head (q s))) (set_lock (Readers n) s))) as H.
    { intros n Hn. apply M; try done.
      - intros u Hu. destruct Hn as [[-> _]|(k & -> & _)]; done.
      - cbn. destruct Hn as [[-> ->]|(k & -> & ->)]; cbn; lia.
      - cbn. destruct Hn as [[_ ->]|(k & _ & ->)]; lia.
      - by left.
      - cbn. exists [], (content s). split_and!; [done|apply (d_head _ _ _ _ _ _ (i_list s I))|done]. }
    destruct (q_lock s) as [|n|u] eqn:El; try done; injection E as <-; apply H; [by left|right; by eexists].
  - destruct (look_inv s t id p I Ht) as (j & Ej & Ij). rewrite Ej in E. by injection E as <-.
  - injection E as <-. destruct (i_reader s I t _ Ht) as (x & y & Hl & Hp & Hx). destruct y; [|done]. apply M; try done; [|cbn; lia|by left|].
    + split; [done|]. intros El. destruct (i_writer s I t El) as (a & Ha & Hw). rewrite Ht in Ha. by simplify_eq.
    + cbn. unfold first_of. rewrite Hl, app_nil_r, Hx. done.
  - cbn in Hge. rewrite Es in Hge. destruct (q_lock s) as [|[|[|n]]|u] eqn:El; cbn in Hge; try lia; injection E as <-; apply M; try done; first [by left|cbn; lia].
Qed.

Lemma act_queue a s s' : inv s -> act a s = Some s' -> inv s'.
Proof.
  intros I E. pose proof (i_readers s I) as [_ Htk]. unfold act in E. rewrite (i_fault s I) in E. destruct a as [t o|t id|t|t]; [..|by apply (thread_step_inv s t)].
  all: destruct (threads s !! t) as [a|] eqn:Ht; try done; destruct a; try done.
  all: assert (q_lock s <> Writer t) as Hnw by (intros El; destruct (i_writer s I t El) as (b & Hb & Hw); rewrite Ht in Hb; by simplify_eq).
  - destruct (legal o s) eqn:Hlg; [|done]. injection E as <-. apply (move_inv s t Idle (WantWrite o) (q_lock s) (returned s) I Ht); try done; [cbn; lia|right; right; by exists o].
  - injection E as <-. apply (move_inv s t Idle (WantRead id) (q_lock s) (returned s) I Ht); try done; [cbn; lia|by left].
  - injection E as <-. apply (move_inv s t (WantRead id) Idle (q_lock s) _ I Ht); try done; [cbn; lia|by left].
Qed.

Lemma init_inv_queue n : inv (init h0 n).
Proof.
  assert (forall t a, replicate n Idle !! t = Some a -> a = Idle) as Hr by (intros t a Ha; by apply lookup_replicate in Ha as [-> _]).
  constructor; cbn; try done.
  - intros t a Ha Hw. by rewrite (Hr t a Ha) in Hw.
  - split; [|done]. apply sum_by_zero. intros a Ha. apply list_elem_of_lookup in Ha as [i Hi]. by rewrite (Hr i a Hi).
  - constructor; [constructor|done|done|done].
  - intros t a o Ha Ho. by rewrite (Hr t a Ha) in Ho.
  - intros t u a b p Ha Hb Pa. by rewrite (Hr t a Ha) in Pa.
  - intros t a Ha. by rewrite (Hr t a Ha).
Qed.

Lemma some_thread_moves s t a : inv s -> threads s !! t = Some a -> a <> Idle -> exists u s', act (Step u) s = Some s'.
Proof.
  intros I Ht Ha. unfold act. rewrite (i_fault s I). destruct (i_readers s I) as [Es Htk].
  assert (forall u b, threads s !! u = Some b -> writes b = true \/ 0 < reads b -> exists s', thread_step u s = Some s') as Hmove.
  { intros u b Hb Hwr. unfold thread_step. rewrite Hb. destruct b as [|o|o| |id|id [p|]|id r]; try (by eexists); try (cbn in Hwr; destruct Hwr; done || lia).
    - destruct (change_spec (q s) (content s) o) as (q' & -> & _ & _); [apply I|by apply (i_fits s I u _ o Hb)|]. by eexists.
    - destruct (look_inv s u id p I Hb) as (j & -> & _). by eexists.
    - destruct (q_lock s) as [|[|[|n]]|w]; by eexists. }
  destruct (q_lock s) as [|n|w] eqn:El.
  - exists t. unfold thread_step. rewrite Ht, El. destruct a as [|o|o| |id|id [p|]|id r]; try done; try (by eexists).
    + pose proof (i_write s I t _ Ht eq_refl). congruence.
    + pose proof (sum_by_ge reads _ t _ reads_nonneg Ht). cbn in *. lia.
  - cbn in Es, Htk. destruct (sum_by_pos reads (threads s)) as (u & b & Hb & Hr); [lia|]. exists u. apply (Hmove u b Hb). by right.
  - destruct (i_writer s I w El) as (b & Hb & Hw). exists w. apply (Hmove w b Hb). by left.
Qed.
End Inv.

(** C17. However any number of threads use the queue, as long as each call is legal when it is made: no
    pointer is followed that is null or leads nowhere; while a thread changes the queue no other
    changes it or looks at it; the links form, in both directions, the list that the changes in
    their order make of the empty list; a search finds the first job of its thread in that list, or
    that there is none; and while a call is not finished some thread can go on. *)
Theorem queue_is_list h n s : reach act (init h n) s ->
  fault s = None /\
  (forall t u a b, t <> u -> threads s !! t = Some a -> threads s !! u = Some b -> writes a = true -> writes b = false /\ reads b = 0) /\
  linked (q s) (content s) /\
  (forall t id r, threads s !! t = Some (RdUnlock id r) -> r = first_of h id (content s)) /\
  (forall t a, threads s !! t = Some a -> a <> Idle -> exists u s', act (Step u) s = Some s').
Proof.
  intros H. assert (inv h s) as I by (eapply (reach_inv act (inv h) (init h n)); [apply init_inv_queue|intros a s1 s2; apply act_queue|done]).
  split_and!; [apply I| |apply I| |].
  - intros t u a b Hne Ha Hb Hw. pose proof (i_write h s I t a Ha Hw) as El. split; [|by apply (no_readers h s t u b I El)].
    destruct (writes b) eqn:Eb; [|done]. pose proof (i_write h s I u b Hb Eb). congruence.
  - intros t id r Hr. apply (i_reader h s I t _ Hr).
  - intros t a Ha Hne. by apply (some_thread_moves h s t a I).
Qed.

Definition three : gmap nat job := list_to_map [(1%nat, MkJob None None 7); (2%nat, MkJob None None 8); (3%nat, MkJob None None 8)].
(** Jobs 1 and 3 are appended and 2 is put in front; then a search for 8 and the removal of 1. *)
Definition calls : list actor :=
  [Change 0 (Append 1); Change 1 (Insert 2); Step 0; Step 0; Step 0; Step 1; Step 1; Step 1; Change 0 (Append 3); Step 0; Step 0; Step 0;
   Find 0 8; Change 1 (Remove 1); Step 0; Find 2 7; Step 2; Step 0; Step 2; Step 2; Step 2; Step 0; Step 1; Step 1; Step 1].

Lemma queue_is_list_witness : exists s, exec act calls (init three 3) = Some s /\ linked (q s) [2; 3]%nat /\ returned s = [(2, Some 1); (0, Some 2)]%nat.
Proof.
  eexists. split; [vm_compute; reflexivity|]. set (s := MkSt _ _ _ _ _ _). split; [|reflexivity].
  destruct (queue_is_list three 3 s) as (_ & _ & H & _); [exists calls; vm_compute; reflexivity|]. exact H.
Defined.
