(* ===== verification/MsgFiles.v ===== *)
(** * tlpi/svmsg/svmsg_file_server.c, svmsg_file_client.c: files through message queues

    Any number of clients ask the server for a file each; the server forks a child for each request,
    which sends the file to the queue of its client in messages of at most 8192 bytes.  A step is one
    system call.  A queue holds [req_cap] requests, or [cap] bytes of answers, and who sends to a
    full one waits.  The files are what they are when the system starts; [read] may give fewer bytes
    than asked for, and at least one, and it may fail, as each [msgsnd] of a child may; no process is
    killed, and [fork], [msgget] and the calls of the client on queues that are there succeed.
    [numMsgs] is an [int]: a client that would count past [INT_MAX] is at [CUndef]. *)

From S2P Require Import Prelude CLib Process Steps.
Local Open Scope Z_scope.

Definition RESP_MSG_SIZE : Z := 8192.

(** [struct responseMsg]: its type with the data that goes with it. *)
Inductive msg := Failure (text : string) | Data (bytes : list Z) | End_.

Definition msg_size (m : msg) : Z := match m with Failure t => strlen t + 1 | Data d => Z.of_nat (length d) | End_ => 0 end.

(** The child that serves a client, from the moment of the request. *)
Inductive h_at := HNone | HQueued | HOpen | HFail | HRead (rest : list Z) | HSend (data rest : list Z) | HEnd | HDone.
(** The client: before its request, at its first [msgrcv], in the loop, before and after [exit]. *)
Inductive c_at := CStart | CFirst | CLoop | CLeave (text : string) (status : Z) | CDone (text : string) (status : Z) | CUndef.

(** [got] are the bytes that were in [resp.data]; the program counts them only.  [erred] records
    whether a [read] or [msgsnd] of the child failed; no program looks at it. *)
Record client := MkClient { pathname : string; at_c : c_at; has_queue : bool; inbox : list msg; got : list Z; totBytes : Z; numMsgs : Z; served : h_at; erred : bool }.
Record st := MkSt { clients : list client; requests : list nat }.

Section System.
Context (files : string -> option (list Z)) (req_cap : nat) (cap : Z).

(** [main] of the client up to its request. *)
Definition client_init (argv0 : string) (args : list string) : client :=
  let stop text := MkClient "" (CDone text EXIT_FAILURE) false [] [] 0 0 HNone false in
  match args with
  | [path] =>
      if streq path "--help" then stop ("Usage: " +:+ argv0 +:+ " pathname" +:+ nl)
      else if PATH_MAX - 1 <? strlen path then stop ("Command-line usage error: pathname too long (max: " +:+ fmt_lld (PATH_MAX - 1) +:+ " bytes)" +:+ nl)
      else MkClient path CStart true [] [] 0 0 HNone false
  | _ => stop ("Usage: " +:+ argv0 +:+ " pathname" +:+ nl)
  end.

Definition c_move (a : c_at) (c : client) : client := MkClient (pathname c) a (has_queue c) (inbox c) (got c) (totBytes c) (numMsgs c) (served c) (erred c).
Definition serve (h : h_at) (c : client) : client := MkClient (pathname c) (at_c c) (has_queue c) (inbox c) (got c) (totBytes c) (numMsgs c) h (erred c).
Definition err (c : client) : client := MkClient (pathname c) (at_c c) (has_queue c) (inbox c) (got c) (totBytes c) (numMsgs c) (served c) true.
Definition post (m : msg) (c : client) : client := MkClient (pathname c) (at_c c) (has_queue c) (inbox c ++ [m]) (got c) (totBytes c) (numMsgs c) (served c) (erred c).
Definition room (m : msg) (c : client) : bool := sum_by msg_size (inbox c) + msg_size m <=? cap.

Definition bytes_of (m : msg) : list Z := match m with Data d => d | _ => [] end.
Definition is_data (m : msg) : bool := match m with Data _ => true | _ => false end.

(** A message is taken from the queue and counted; [mtype] decides how it goes on. *)
Definition count_msg (m : msg) (rest : list msg) (c : client) : client :=
  let tot := totBytes c + msg_size m in
  let num := numMsgs c + 1 in
  MkClient (pathname c)
    (if INT_MAX <? num then CUndef
     else if is_data m then CLoop else CLeave ("Received " +:+ fmt_lld tot +:+ " bytes (" +:+ fmt_lld num +:+ " messages)" +:+ nl) EXIT_SUCCESS)
    (has_queue c) rest (got c ++ bytes_of m) tot num (served c) (erred c).

Definition receive (c : client) : option client :=
  match inbox c with
  | [] => None
  | m :: rest =>
      match at_c c, m with
      | CFirst, Failure text => Some (MkClient (pathname c) (CLeave (text +:+ nl) EXIT_FAILURE) (has_queue c) rest (got c) (totBytes c) (numMsgs c) (served c) (erred c))
      | _, _ => Some (count_msg m rest c)
      end
  end.

(** [exit] runs [removeQueue]. *)
Definition leave (text : string) (status : Z) (c : client) : client := MkClient (pathname c) (CDone text status) false [] (got c) (totBytes c) (numMsgs c) (served c) (erred c).

(** What the call that a child makes does: [read] gives [k] bytes, [msgsnd] sends, or the call
    fails. *)
Inductive fate := Gives (k : nat) | Fails.

(** A step of [serveRequest].  [read] ends the loop with 0 and with -1, [msgsnd] with -1; the last
    [msgsnd] is made in any case, and its result is not looked at. *)
Definition serveRequest (o : fate) (c : client) : option client :=
  match served c with
  | HNone | HQueued | HDone => None
  | HOpen => Some (serve (match files (pathname c) with None => HFail | Some content => HRead content end) c)
  | HFail =>
      match o with
      | Fails => Some (serve HDone (err c))
      | Gives _ => let m := Failure "Couldn't open" in if room m c then Some (serve HDone (post m c)) else None
      end
  | HRead rest =>
      match o with
      | Fails => Some (serve HEnd (err c))
      | Gives k =>
          match rest with
          | [] => Some (serve HEnd c)
          | _ => if (0 <? k)%nat && (Z.of_nat k <=? RESP_MSG_SIZE) && (k <=? length rest)%nat then Some (serve (HSend (take k rest) (drop k rest)) c) else None
          end
      end
  | HSend data rest =>
      match o with
      | Fails => Some (serve HEnd (err c))
      | Gives _ => if room (Data data) c then Some (serve (HRead rest) (post (Data data) c)) else None
      end
  | HEnd =>
      match o with
      | Fails => Some (serve HDone (err c))
      | Gives _ => if room End_ c then Some (serve HDone (post End_ c)) else None
      end
  end.

Inductive actor := Client (i : nat) | Server | Child (i : nat) (o : fate).

Definition set_client (i : nat) (c : client) (s : st) : st := MkSt (<[i := c]> (clients s)) (requests s).

Definition act (a : actor) (s : st) : option st :=
  match a with
  | Client i =>
      match clients s !! i with
      | None => None
      | Some c =>
          match at_c c with
          | CStart => if (length (requests s) <? req_cap)%nat then Some (MkSt (<[i := serve HQueued (c_move CFirst c)]> (clients s)) (requests s ++ [i])) else None
          | CFirst | CLoop => (fun c => set_client i c s) <$> receive c
          | CLeave text status => Some (set_client i (leave text status c) s)
          | CDone _ _ | CUndef => None
          end
      end
  | Server =>
      match requests s with
      | [] => None
      | i :: rest => match clients s !! i with None => None | Some c => Some (MkSt (<[i := serve HOpen c]> (clients s)) rest) end
      end
  | Child i o => match clients s !! i with None => None | Some c => (fun c => set_client i c s) <$> serveRequest o c end
  end.

Definition init (argv0 : string) (args : list (list string)) : st := MkSt (client_init argv0 <$> args) [].

(** ** The invariant *)

(** Messages with a part of the file, none empty. *)
Definition parts (l : list msg) : Prop := Forall (fun m => is_data m = true /\ bytes_of m <> []) l.
Definition bytes (l : list msg) : list Z := concat (bytes_of <$> l).
#[local] Arguments bytes : simpl never.
#[local] Arguments parts : simpl never.

Lemma bytes_of_app a b : bytes (a ++ b) = bytes a ++ bytes b.
Proof. unfold bytes. by rewrite fmap_app, concat_app. Qed.

(** What the client has, what is in its queue and what is still to come make the file. *)
Definition stream (content : list Z) (rest : list Z) (c : client) : Prop := parts (inbox c) /\ got c ++ bytes (inbox c) ++ rest = content.
(** [l] is the file, or a beginning of it when a call of the child failed. *)
Definition sent (content l : list Z) (c : client) : Prop := l `prefix_of` content /\ (erred c = false -> l = content).
Definition closed (content : list Z) (c : client) : Prop :=
  exists ds tl, inbox c = ds ++ tl /\ parts ds /\ sent content (got c ++ bytes ds) c /\ (tl = [End_] \/ tl = [] /\ erred c = true).

Definition coming (content : list Z) (c : client) : Prop :=
  match served c with
  | HRead rest => stream content rest c /\ erred c = false
  | HSend d rest => stream content (d ++ rest) c /\ d <> [] /\ Z.of_nat (length d) <= RESP_MSG_SIZE /\ erred c = false
  | HEnd => parts (inbox c) /\ sent content (got c ++ bytes (inbox c)) c
  | HDone => closed content c
  | _ => False
  end.

Definition refused : string := "Couldn't open" +:+ nl.
Definition received (content : list Z) (num : Z) : string := "Received " +:+ fmt_lld (Z.of_nat (length content)) +:+ " bytes (" +:+ fmt_lld num +:+ " messages)" +:+ nl.

Definition result (c : client) (text : string) (status : Z) : Prop :=
  match files (pathname c) with
  | None => text = refused /\ status = EXIT_FAILURE
  | Some content => sent content (got c) c /\ status = EXIT_SUCCESS /\ exists num, 1 <= num <= Z.of_nat (length (got c)) + 1 /\ text = received (got c) num
  end.

Definition begun (c : client) : Prop := inbox c = [] /\ got c = [] /\ totBytes c = 0 /\ numMsgs c = 0 /\ has_queue c = true /\ erred c = false.
Definition counted (c : client) : Prop := totBytes c = Z.of_nat (length (got c)) /\ 0 <= numMsgs c <= Z.of_nat (length (got c)) /\ has_queue c = true.

Definition first_ok (c : client) : Prop :=
  match served c with
  | HQueued | HOpen => begun c
  | HFail => begun c /\ files (pathname c) = None
  | HDone => files (pathname c) = None /\ (inbox c = [Failure "Couldn't open"] \/ inbox c = [] /\ erred c = true) \/ exists content, files (pathname c) = Some content /\ coming content c
  | _ => exists content, files (pathname c) = Some content /\ coming content c
  end.

Definition cl_ok (c : client) : Prop :=
  match at_c c with
  | CStart => served c = HNone /\ begun c
  | CFirst => first_ok c /\ counted c /\ got c = []
  | CLoop => (exists content, files (pathname c) = Some content /\ coming content c) /\ counted c
  | CLeave text status => served c = HDone /\ result c text status
  | CDone text status => has_queue c = false /\ inbox c = [] /\ (served c = HNone \/ served c = HDone /\ result c text status)
  | CUndef => False
  end.

Record inv (s : st) : Prop := MkInv {
  i_clients : forall i c, clients s !! i = Some c -> cl_ok c;
  i_nodup : NoDup (requests s);
  i_requests : forall i, i ∈ requests s <-> exists c, clients s !! i = Some c /\ served c = HQueued
}.

Lemma coming_file c content : coming content c -> served c <> HNone /\ served c <> HQueued /\ served c <> HOpen /\ served c <> HFail.
Proof. unfold coming. by destruct (served c). Qed.

(** ** One client *)

Lemma post_parts l d : parts l -> d <> [] -> parts (l ++ [Data d]).
Proof. intros H Hd. apply Forall_app. split; [done|]. by apply Forall_singleton. Qed.

Lemma stream_sent content rest c : stream content rest c -> got c ++ bytes (inbox c) `prefix_of` content.
Proof. intros [_ <-]. rewrite (assoc_L (++)). by apply prefix_app_r. Qed.

(** The child goes on with the file. *)
Lemma coming_step o c c' content : files (pathname c) = Some content -> coming content c -> serveRequest o c = Some c' ->
  coming content c' /\ served c' <> HQueued /\ at_c c' = at_c c /\ pathname c' = pathname c /\ got c' = got c /\ totBytes c' = totBytes c /\ numMsgs c' = numMsgs c /\ has_queue c' = has_queue c.
Proof.
  intros Hf H E. unfold serveRequest, coming in *. destruct (served c) as [| | | |rest|d rest| |] eqn:Es; try done.
  - destruct H as [H He]. destruct o as [k|].
    + destruct rest as [|b rest].
      { injection E as <-. cbn. split_and!; try done; [apply H|split; [by eapply stream_sent|]]. intros _. destruct H as [_ <-]. by rewrite !app_nil_r. }
      destruct ((0 <? k)%nat && (Z.of_nat k <=? RESP_MSG_SIZE) && (k <=? length (b :: rest))%nat) eqn:Ek; [|done].
      injection E as <-. cbn [serve served at_c pathname got totBytes numMsgs has_queue erred]. split_and!; try done.
      * destruct H as [Hp Hs]. split; [done|]. cbn [got inbox serve]. by rewrite take_drop.
      * destruct k; [done|]. done.
      * rewrite length_take. cbn [length] in *. lia.
    + injection E as <-. cbn. split_and!; try done; [apply H|split; [by eapply stream_sent|done]].
  - destruct H as (H & Hd & _ & He). destruct o as [k|].
    + destruct (room _ _); [|done]. injection E as <-. destruct H as [Hp Hs]. cbn. split_and!; try done. split; cbn; [by apply post_parts|].
      rewrite bytes_of_app. change (bytes [Data d]) with (d ++ []). rewrite app_nil_r, <- app_assoc. exact Hs.
    + injection E as <-. cbn. split_and!; try done; [apply H|split; [by eapply stream_sent|done]].
  - destruct H as [Hp Hs]. destruct o as [k|].
    + destruct (room _ _); [|done]. injection E as <-. cbn. split_and!; try done. exists (inbox c), [End_]. split_and!; [done|done| |by left]. exact Hs.
    + injection E as <-. cbn. split_and!; try done. exists (inbox c), []. cbn. rewrite app_nil_r. split_and!; [done|done| |by right]. split; [apply Hs|done].
Qed.

Lemma child_ok k c c' : cl_ok c -> serveRequest k c = Some c' -> cl_ok c' /\ served c' <> HQueued /\ served c <> HQueued.
Proof.
  intros H E. assert (served c <> HQueued) as Hq by (intros Eq; unfold serveRequest in E; by rewrite Eq in E). split; [|split]; [|..|done].
  - unfold cl_ok in H. destruct (at_c c) eqn:Ea.
    + destruct H as [Es _]. unfold serveRequest in E. by rewrite Es in E.
    + destruct H as (H & Hc & Hg). unfold first_ok in H.
      assert ((exists content, files (pathname c) = Some content /\ coming content c) \/ served c = HOpen /\ begun c \/ served c = HFail /\ begun c /\ files (pathname c) = None) as [(content & Hf & Hm)|[[Es Hb]|(Es & Hb & Hf)]].
      { destruct (served c) eqn:Es; auto; try done; unfold serveRequest in E; by rewrite Es in E. }
      * destruct (coming_step k c c' content Hf Hm E) as (Hm' & Hq' & Ha & Hp & Hgo & Ht & Hn & Hh). unfold cl_ok. rewrite Ha, Ea. split_and!.
        -- unfold first_ok. pose proof (coming_file c' content Hm') as (? & ? & ? & ?). destruct (served c'); try done; first [right|idtac]; exists content; by rewrite Hp.
        -- unfold counted in *. by rewrite Ht, Hgo, Hn, Hh.
        -- by rewrite Hgo.
      * unfold serveRequest in E. rewrite Es in E. injection E as <-. unfold cl_ok. cbn [at_c serve]. rewrite Ea. split_and!; try done. unfold first_ok. cbn [served serve pathname].
        destruct Hb as (Hi & Hgo & Ht & Hn & Hq' & He). destruct (files (pathname c)) as [content|]; [|by split_and!]. exists content. split; [done|]. unfold coming. cbn. split; [|done]. split; cbn; rewrite Hi; [constructor|by rewrite Hgo].
      * unfold serveRequest in E. rewrite Es in E. destruct Hb as (Hi & _). destruct k as [k|]; [destruct (room _ _); [|done]|]; injection E as <-; unfold cl_ok; cbn [at_c serve post err]; rewrite Ea; split_and!; try done; unfold first_ok; cbn; left; (split; [done|]).
        -- left. by rewrite Hi.
        -- right. done.
    + destruct H as [(content & Hf & Hm) Hc]. destruct (coming_step k c c' content Hf Hm E) as (Hm' & Hq' & Ha & Hp & Hgo & Ht & Hn & Hh). unfold cl_ok. rewrite Ha, Ea.
      split; [exists content; by rewrite Hp|]. unfold counted in *. by rewrite Ht, Hgo, Hn, Hh.
    + destruct H as [Es _]. unfold serveRequest in E. by rewrite Es in E.
    + destruct H as (_ & _ & [Es|[Es _]]); unfold serveRequest in E; by rewrite Es in E.
    + done.
  - unfold serveRequest in E. destruct (served c) as [| | | |[|b rest]|d rest| |]; try done; repeat (case_match; try done); injection E as <-; try done; cbn; by destruct (files (pathname c)).
Qed.

Lemma parts_cons m l : parts (m :: l) -> exists d, m = Data d /\ d <> [] /\ parts l.
Proof. intros [[Hm Hb] Hl]%Forall_cons. destruct m as [|d|]; try done. by exists d. Qed.

Lemma next_message content c m rest : coming content c -> inbox c = m :: rest ->
  (exists d, m = Data d /\ d <> [] /\ coming content (count_msg m rest c)) \/ (m = End_ /\ served c = HDone /\ sent content (got c) c).
Proof.
  intros H Ei. assert (forall rest', stream content rest' c -> exists d, m = Data d /\ d <> [] /\ stream content rest' (count_msg m rest c)) as Hs.
  { intros rest' [Hp Hg]. rewrite Ei in *. destruct (parts_cons _ _ Hp) as (d & -> & Hd & Hp'). exists d. split_and!; [done|done|]. split; [done|]. cbn. rewrite <- Hg.
    change (Data d :: rest) with ([Data d] ++ rest). rewrite bytes_of_app. change (bytes [Data d]) with (d ++ []). by rewrite app_nil_r, <- !app_assoc. }
  assert (forall ds tl, parts (m :: ds) -> sent content (got c ++ bytes (m :: ds)) c -> rest = ds ++ tl ->
    exists d, m = Data d /\ d <> [] /\ parts ds /\ sent content (got (count_msg m rest c) ++ bytes ds) (count_msg m rest c)) as Hq.
  { intros ds tl Hp Hg _. destruct (parts_cons _ _ Hp) as (d & -> & Hd & Hp'). exists d. split_and!; [done..|]. unfold sent in *. cbn.
    change (Data d :: ds) with ([Data d] ++ ds) in Hg. rewrite bytes_of_app in Hg. change (bytes [Data d]) with (d ++ []) in Hg. by rewrite app_nil_r, (assoc_L (++)) in Hg. }
  unfold coming in *. cbn [served count_msg]. destruct (served c) as [| | | |r|d r| |]; try done.
  - left. destruct H as [H He]. destruct (Hs _ H) as (d' & -> & Hd' & H'). by exists d'.
  - destruct H as (H & Hd & Hl & He). left. destruct (Hs _ H) as (d' & -> & Hd' & H'). by exists d'.
  - left. destruct H as [Hp Hg]. rewrite Ei in Hp, Hg. destruct (Hq rest [] Hp Hg) as (d & -> & Hd & Hp' & Hg'); [by rewrite app_nil_r|]. by exists d.
  - destruct H as (ds & tl & Ed & Hp & Hg & Ht). rewrite Ei in Ed. destruct ds as [|m' ds]; cbn in Ed.
    + right. destruct Ht as [-> |[-> _]]; [|done]. injection Ed as -> _. unfold bytes in Hg. cbn in Hg. by rewrite app_nil_r in Hg.
    + left. injection Ed as -> ->. destruct (Hq ds tl Hp Hg) as (d & -> & Hd & Hp' & Hg'); [done|]. exists d. split_and!; [done|done|]. by exists ds, tl.
Qed.

Lemma coming_prefix content c : coming content c -> got c `prefix_of` content.
Proof.
  assert (forall x, got c `prefix_of` got c ++ x) as Hx by (intros x; by apply prefix_app_r).
  unfold coming. destruct (served c) as [| | | |r|d r| |]; try done.
  - by intros [[_ <-] _].
  - by intros [[_ <-] _].
  - intros [_ [Hp _]]. etrans; [apply Hx|exact Hp].
  - intros (ds & tl & _ & _ & [Hp _] & _). etrans; [apply Hx|exact Hp].
Qed.

(** No file has so many bytes that the messages could not be counted. *)
Context (Hsmall : forall path content, files path = Some content -> Z.of_nat (length content) < INT_MAX).

Lemma count_ok content c m rest : files (pathname c) = Some content -> coming content c -> counted c -> inbox c = m :: rest -> cl_ok (count_msg m rest c).
Proof using Hsmall.
  intros Hf Hm (Ht & Hn & Hq) Ei. assert (numMsgs c + 1 <= INT_MAX) as Hmax.
  { pose proof (Hsmall _ _ Hf). pose proof (prefix_length _ _ (coming_prefix _ _ Hm)). lia. }
  destruct (next_message content c m rest Hm Ei) as [(d & -> & Hd & H)|(-> & Es & Hg)]; unfold cl_ok; cbn [count_msg at_c is_data];
    rewrite (proj2 (Z.ltb_ge INT_MAX (numMsgs c + 1)) Hmax).
  - split; [by exists content|]. unfold counted. cbn. rewrite length_app. assert (length d <> 0%nat) by (by destruct d). split_and!; [lia|lia|lia|done].
  - split; [done|]. unfold result. cbn [pathname count_msg got bytes_of]. rewrite Hf, app_nil_r. split_and!; [exact Hg|done|]. exists (numMsgs c + 1). split; [lia|].
    unfold received. cbn [msg_size]. by rewrite Z.add_0_r, Ht.
Qed.

Lemma receive_ok c c' : cl_ok c -> at_c c = CFirst \/ at_c c = CLoop -> receive c = Some c' -> cl_ok c' /\ served c' = served c.
Proof using Hsmall.
  intros H Ha E. unfold receive in E. destruct (inbox c) as [|m rest] eqn:Ei; [done|]. destruct Ha as [Ha|Ha]; unfold cl_ok in H; rewrite Ha in *.
  - destruct H as (H & Hc & Hg).
    assert (files (pathname c) = None /\ served c = HDone /\ m :: rest = [Failure "Couldn't open"] \/ exists content, files (pathname c) = Some content /\ coming content c) as [(Hf & Es & [= -> ->])|(content & Hf & Hm)].
    { unfold first_ok in H. destruct (served c) eqn:Es; try (destruct H as [[Hi _] _]; by rewrite Hi in Ei); try (destruct H as [Hi _]; by rewrite Hi in Ei); try (by right). destruct H as [[Hf [Hi|[Hi _]]]|H]; [left; by rewrite <- Ei|by rewrite Hi in Ei|by right]. }
    + injection E as <-. split; [|done]. unfold cl_ok. cbn. split; [done|]. unfold result. cbn. by rewrite Hf.
    + assert (c' = count_msg m rest c) as -> by (destruct (next_message content c m rest Hm Ei) as [(d & -> & _)|(-> & _)]; by injection E as <-). split; [|done]. by apply (count_ok content).
  - destruct H as [(content & Hf & Hm) Hc]. injection E as <-. split; [|done]. by apply (count_ok content).
Qed.

Lemma client_init_ok argv0 args : cl_ok (client_init argv0 args) /\ served (client_init argv0 args) = HNone.
Proof.
  unfold client_init. destruct args as [|path [|? ?]]; [split; [|done]; unfold cl_ok; cbn; auto| |split; [|done]; unfold cl_ok; cbn; auto].
  destruct (streq path "--help"); [split; [|done]; unfold cl_ok; cbn; auto|]. destruct (_ <? _); (split; [|done]); unfold cl_ok; cbn; auto. by split_and!.
Qed.

(** ** The system *)

Lemma set_client_inv s i c c' : inv s -> clients s !! i = Some c -> cl_ok c' -> served c' <> HQueued -> served c <> HQueued -> inv (set_client i c' s).
Proof.
  intros I Hc Hok Hq' Hq. pose proof (lookup_lt_Some _ _ _ Hc) as Hlt. constructor; cbn.
  - intros j d Hd. apply list_lookup_insert_Some in Hd as [(-> & <- & _)|(Hne & Hd)]; [done|]. by apply (i_clients s I j).
  - apply I.
  - intros j. rewrite (i_requests s I j). destruct (decide (j = i)) as [->|Hne]; [|by rewrite list_lookup_insert_ne].
    rewrite list_lookup_insert_eq by done. split; intros (d & Hd & Es); [rewrite Hc in Hd|]; simplify_eq.
Qed.

Lemma act_files a s s' : inv s -> act a s = Some s' -> inv s'.
Proof using Hsmall.
  intros I E. destruct a as [i| |i k]; cbn [act] in E.
  - destruct (clients s !! i) as [c|] eqn:Hc; [|done]. pose proof (i_clients s I i c Hc) as Hok. pose proof (lookup_lt_Some _ _ _ Hc) as Hlt. destruct (at_c c) as [| | |text status| |] eqn:Ea; try done.
    + destruct (_ <? _)%nat; [|done]. injection E as <-. unfold cl_ok in Hok. rewrite Ea in Hok. destruct Hok as [Es Hb].
      assert (i ∉ requests s) as Hni by (intros Hin; apply (i_requests s I) in Hin as (d & Hd & Ed); rewrite Hc in Hd; simplify_eq; congruence).
      constructor; cbn.
      * intros j d Hd. apply list_lookup_insert_Some in Hd as [(-> & <- & _)|(Hne & Hd)]; [|by apply (i_clients s I j)]. unfold cl_ok. cbn. destruct Hb as (Hi & Hg & Ht & Hn & Hq & He). unfold first_ok, counted, begun. cbn. rewrite Hg, Ht, Hn. cbn. split_and!; done || lia.
      * apply NoDup_app. split_and!; [apply I| |by apply NoDup_singleton]. intros j Hj ->%list_elem_of_singleton. done.
      * intros j. rewrite elem_of_app, (i_requests s I j), list_elem_of_singleton. destruct (decide (j = i)) as [->|Hne].
        -- rewrite list_lookup_insert_eq by done. split; [by eexists|by right].
        -- rewrite list_lookup_insert_ne by done. intuition.
    + destruct (receive c) as [c'|] eqn:Er; [|done]. injection E as <-. destruct (receive_ok c c' Hok ltac:(by left) Er) as [Hok' Es].
      assert (served c <> HQueued) as Hq. { intros Eq. unfold cl_ok in Hok. rewrite Ea in Hok. destruct Hok as (H & _). unfold first_ok in H. rewrite Eq in H. unfold receive in Er. destruct H as [Hi _]. by rewrite Hi in Er. }
      apply (set_client_inv s i c); try done. by rewrite Es.
    + destruct (receive c) as [c'|] eqn:Er; [|done]. injection E as <-. destruct (receive_ok c c' Hok ltac:(by right) Er) as [Hok' Es].
      assert (served c <> HQueued) as Hq. { unfold cl_ok in Hok. rewrite Ea in Hok. destruct Hok as [(content & _ & Hm) _]. apply (coming_file c content Hm). }
      apply (set_client_inv s i c); try done. by rewrite Es.
    + injection E as <-. unfold cl_ok in Hok. rewrite Ea in Hok. destruct Hok as [Es Hr]. apply (set_client_inv s i c); [done|done| |cbn; by rewrite Es|by rewrite Es]. unfold cl_ok. cbn. split_and!; [done|done|]. right. split; [done|exact Hr].
  - destruct (requests s) as [|i rest] eqn:Er; [done|]. destruct (clients s !! i) as [c|] eqn:Hc; [|done]. injection E as <-. pose proof (lookup_lt_Some _ _ _ Hc) as Hlt.
    assert (served c = HQueued) as Eq by (assert (i ∈ requests s) as Hin by (rewrite Er; left); apply (i_requests s I) in Hin as (d & Hd & Ed); rewrite Hc in Hd; by simplify_eq).
    pose proof (i_clients s I i c Hc) as Hok. pose proof (i_nodup s I) as Hnd. rewrite Er in Hnd. apply NoDup_cons in Hnd as [Hni Hnd]. constructor; cbn.
    + intros j d Hd. apply list_lookup_insert_Some in Hd as [(-> & <- & _)|(Hne & Hd)]; [|by apply (i_clients s I j)].
      unfold cl_ok in *. cbn. destruct (at_c c); [by destruct Hok; congruence| |destruct Hok as [(content & _ & Hm) _]; by apply coming_file in Hm as (_ & ? & _)|by destruct Hok; congruence|by destruct Hok as (_ & _ & [?|[? _]]); congruence|done].
      destruct Hok as (H & Hct & Hg). unfold first_ok in H. by rewrite Eq in H.
    + done.
    + intros j. pose proof (i_requests s I j) as Hj. rewrite Er, elem_of_cons in Hj. destruct (decide (j = i)) as [->|Hne].
      * rewrite list_lookup_insert_eq by done. split; [done|]. intros (d & [= <-] & Ed). done.
      * rewrite list_lookup_insert_ne by done. rewrite <- Hj. intuition.
  - destruct (clients s !! i) as [c|] eqn:Hc; [|done]. destruct (serveRequest k c) as [c'|] eqn:Es; [|done]. injection E as <-.
    destruct (child_ok k c c' (i_clients s I i c Hc) Es) as (Hok & Hq' & Hq). by apply (set_client_inv s i c).
Qed.

Lemma init_files argv0 args : inv (init argv0 args).
Proof.
  assert (forall i c, (client_init argv0 <$> args) !! i = Some c -> cl_ok c /\ served c = HNone) as H.
  { intros i c Hc. rewrite list_lookup_fmap in Hc. destruct (args !! i); [|done]. injection Hc as <-. apply client_init_ok. }
  constructor; cbn; [by intros i c Hc; apply (H i c)|constructor|]. intros i. split; [by intros ?%not_elem_of_nil|]. intros (c & Hc & Es). destruct (H i c Hc). congruence.
Qed.

(** ** The number of steps *)

Definition file_size (c : client) : Z := match files (pathname c) with Some content => Z.of_nat (length content) | None => 0 end.
Definition h_rank (c : client) : Z :=
  match served c with
  | HNone => 3 * file_size c + 9 | HQueued => 3 * file_size c + 8 | HOpen => 3 * file_size c + 7 | HFail => 2
  | HRead rest => 3 * Z.of_nat (length rest) + 6 | HSend _ rest => 3 * Z.of_nat (length rest) + 8 | HEnd => 3 | HDone => 0
  end.
Definition at_rank (c : client) : Z := match at_c c with CStart => 3 | CFirst | CLoop => 2 | CLeave _ _ => 1 | CDone _ _ | CUndef => 0 end.
Definition rank_of (c : client) : Z := match at_c c with CDone _ _ => 0 | _ => at_rank c + Z.of_nat (length (inbox c)) + h_rank c end.
Definition rank (s : st) : Z := sum_by rank_of (clients s).

Lemma rank_of_nonneg c : 0 <= rank_of c.
Proof. unfold rank_of, at_rank, h_rank, file_size. destruct (at_c c), (served c), (files (pathname c)); lia. Qed.

Lemma serve_rank o c c' : cl_ok c -> serveRequest o c = Some c' -> rank_of c' < rank_of c.
Proof.
  intros H E. assert (match at_c c with CDone _ _ => False | _ => True end) as Hd.
  { unfold cl_ok in H. destruct (at_c c); try done. destruct H as (_ & _ & [Es|[Es _]]); unfold serveRequest in E; by rewrite Es in E. }
  unfold serveRequest in E. unfold rank_of, at_rank, h_rank, file_size.
  destruct (served c) as [| | | |rest|d rest| |] eqn:Es; try done.
  - injection E as <-. cbn. destruct (at_c c), (files (pathname c)); cbn; done || lia.
  - destruct o as [k|]; [destruct (room _ _); [|done]|]; injection E as <-; cbn; rewrite ?length_app; cbn; destruct (at_c c); done || lia.
  - destruct o as [k|]; [destruct rest as [|b rest]|].
    + injection E as <-. cbn. destruct (at_c c); done || lia.
    + destruct ((0 <? k)%nat && (Z.of_nat k <=? RESP_MSG_SIZE) && (k <=? length (b :: rest))%nat) eqn:Ek; [|done]. injection E as <-. cbn [serve at_c inbox served]. rewrite length_drop. apply andb_true_iff in Ek as [[Hk _]%andb_true_iff Hk']. apply Nat.ltb_lt in Hk. apply Nat.leb_le in Hk'.
      destruct (at_c c); done || lia.
    + injection E as <-. cbn. destruct (at_c c); done || lia.
  - destruct o as [k|]; [destruct (room _ _); [|done]|]; injection E as <-; cbn; rewrite ?length_app; cbn; destruct (at_c c); done || lia.
  - destruct o as [k|]; [destruct (room _ _); [|done]|]; injection E as <-; cbn; rewrite ?length_app; cbn; destruct (at_c c); done || lia.
Qed.

Lemma receive_rank c c' : at_c c = CFirst \/ at_c c = CLoop -> receive c = Some c' -> rank_of c' < rank_of c.
Proof.
  intros Ha E. unfold receive in E. destruct (inbox c) as [|m rest] eqn:Ei; [done|]. unfold rank_of, at_rank, h_rank, file_size.
  assert (c' = count_msg m rest c \/ exists t s, c' = MkClient (pathname c) (CLeave t s) (has_queue c) rest (got c) (totBytes c) (numMsgs c) (served c) (erred c)) as [->|(t & x & ->)].
  { destruct Ha as [Ha|Ha]; rewrite Ha in E; [destruct m|]; injection E as <-; eauto. }
  - cbn. rewrite Ei. cbn [length]. destruct (INT_MAX <? _), Ha as [-> | ->], (is_data m); lia.
  - cbn. rewrite Ei. cbn [length]. destruct Ha as [-> | ->]; lia.
Qed.

Lemma act_rank_files a s s' : inv s -> act a s = Some s' -> inv s' /\ rank s' < rank s.
Proof using Hsmall.
  intros I E. split; [by apply (act_files a s)|]. unfold rank.
  assert (forall i c c', clients s !! i = Some c -> rank_of c' < rank_of c -> sum_by rank_of (<[i := c']> (clients s)) < sum_by rank_of (clients s)) as H by (intros i c c' Hc Hr; rewrite (sum_by_insert rank_of _ i c) by done; lia).
  destruct a as [i| |i k]; cbn [act] in E.
  - destruct (clients s !! i) as [c|] eqn:Hc; [|done]. pose proof (i_clients s I i c Hc) as Hok. destruct (at_c c) as [| | |text status| |] eqn:Ea; try done.
    + destruct (_ <? _)%nat; [|done]. injection E as <-. cbn [clients]. apply (H i c); [done|]. unfold cl_ok in Hok. rewrite Ea in Hok. destruct Hok as [Es _]. unfold rank_of, at_rank, h_rank, file_size. cbn. rewrite Ea, Es. lia.
    + destruct (receive c) as [c'|] eqn:Er; [|done]. injection E as <-. apply (H i c); [done|]. apply receive_rank; [by left|done].
    + destruct (receive c) as [c'|] eqn:Er; [|done]. injection E as <-. apply (H i c); [done|]. apply receive_rank; [by right|done].
    + injection E as <-. apply (H i c); [done|]. pose proof (rank_of_nonneg c). unfold rank_of, at_rank, h_rank in *. cbn. rewrite Ea in *. unfold cl_ok in Hok. rewrite Ea in Hok. destruct Hok as [-> _]. lia.
  - destruct (requests s) as [|i rest] eqn:Er; [done|]. destruct (clients s !! i) as [c|] eqn:Hc; [|done]. injection E as <-. cbn [clients]. apply (H i c); [done|].
    assert (served c = HQueued) as Eq by (assert (i ∈ requests s) as Hin by (rewrite Er; left); apply (i_requests s I) in Hin as (d & Hd & Ed); rewrite Hc in Hd; by simplify_eq).
    pose proof (i_clients s I i c Hc) as Hok. unfold rank_of, at_rank, h_rank, file_size. cbn. rewrite Eq. unfold cl_ok in Hok. destruct (at_c c); try lia. destruct Hok as (_ & _ & [?|[? _]]); congruence.
  - destruct (clients s !! i) as [c|] eqn:Hc; [|done]. destruct (serveRequest k c) as [c'|] eqn:Es; [|done]. injection E as <-. apply (H i c); [done|]. apply (serve_rank k); [by apply (i_clients s I i)|done].
Qed.

Lemma rank_init_files argv0 args : rank (init argv0 args) <= sum_by (fun a => 3 * match a with [path] => match files path with Some content => Z.of_nat (length content) | None => 0 end | _ => 0 end + 12) args.
Proof.
  unfold rank, init. cbn. induction args as [|a args IH]; [done|]. rewrite fmap_cons, !sum_by_cons. enough (rank_of (client_init argv0 a) <= 3 * match a with [path] => match files path with Some content => Z.of_nat (length content) | None => 0 end | _ => 0 end + 12) by lia.
  unfold client_init. destruct a as [|path [|? ?]]; cbn; [lia| |lia]. destruct (streq path "--help"); [cbn; destruct (files path); lia|]. destruct (_ <? _); cbn; [destruct (files path); lia|]. unfold rank_of, at_rank, h_rank, file_size. cbn. destruct (files path); lia.
Qed.

(** ** Nobody waits for ever *)

Lemma child_moves c : RESP_MSG_SIZE <= cap -> cl_ok c -> at_c c = CFirst \/ at_c c = CLoop -> inbox c = [] -> served c <> HQueued ->
  erred c = true \/ exists o c', serveRequest o c = Some c'.
Proof.
  intros Hcap H Ha Hi Hq. unfold RESP_MSG_SIZE in *.
  assert ((exists content, coming content c) \/ served c = HOpen \/ served c = HFail \/ erred c = true) as [[content Hm]|[Es|[Es|?]]]; [..|by left].
  { unfold cl_ok in H. destruct Ha as [Ha|Ha]; rewrite Ha in H.
    - destruct H as (H & _). unfold first_ok in H. destruct (served c) eqn:Es; try done; auto; try (destruct H as (content & _ & H); left; by exists content).
      destruct H as [[_ [H|[_ H]]]|(content & _ & H)]; [by rewrite Hi in H|auto|left; by exists content].
    - destruct H as [(content & _ & H) _]. left. by exists content. }
  - unfold coming in Hm. unfold serveRequest, room. rewrite Hi. destruct (served c) as [| | | |[|b rest]|d rest| |] eqn:Es; try done.
    + right. exists (Gives 0). by eexists.
    + right. exists (Gives 1). by eexists.
    + right. exists (Gives 0). destruct Hm as (_ & _ & Hl & _). unfold RESP_MSG_SIZE in Hl. rewrite (proj2 (Z.leb_le _ cap)) by (unfold sum_by; cbn; lia). by eexists.
    + right. exists (Gives 0). rewrite (proj2 (Z.leb_le _ cap)) by (unfold sum_by; cbn; lia). by eexists.
    + destruct Hm as (ds & tl & Ed & _ & _ & Ht). rewrite Hi in Ed. symmetry in Ed. apply app_eq_nil in Ed as [-> ->]. destruct Ht as [?|[_ ?]]; [done|by left].
  - right. exists (Gives 0). unfold serveRequest. rewrite Es. by eexists.
  - right. exists (Gives 0). unfold serveRequest, room. rewrite Es, Hi. change (sum_by msg_size [] + msg_size (Failure "Couldn't open")) with 14. rewrite (proj2 (Z.leb_le 14 cap)) by lia. by eexists.
Qed.

Lemma stuck_served s : (1 <= req_cap)%nat -> RESP_MSG_SIZE <= cap -> inv s -> (forall a, act a s = None) -> forall i c, clients s !! i = Some c -> erred c = true \/ exists text status, at_c c = CDone text status.
Proof.
  intros Hr Hcap I Hn i c Hc. pose proof (i_clients s I i c Hc) as Hok.
  assert (requests s = []) as Hreq.
  { pose proof (Hn Server) as Hs. cbn in Hs. destruct (requests s) as [|j rest] eqn:Er; [done|]. assert (j ∈ requests s) as Hin by (rewrite Er; left). apply (i_requests s I) in Hin as (d & Hd & _). by rewrite Hd in Hs. }
  pose proof (Hn (Client i)) as Ha. cbn [act] in Ha. rewrite Hc in Ha.
  destruct (decide (erred c = true)) as [|Hne]; [by left|right].
  assert (at_c c = CFirst \/ at_c c = CLoop -> False) as Hwait.
  { intros Hw. assert (receive c = None) as Hrec by (destruct Hw as [Hw|Hw]; rewrite Hw in Ha; by destruct (receive c)).
    assert (inbox c = []) as Hi by (unfold receive in Hrec; destruct (inbox c) as [|m rest]; [done|]; destruct Hw as [Hw|Hw]; rewrite Hw in Hrec; by destruct m).
    assert (served c <> HQueued) as Hq by (intros Eq; assert (i ∈ requests s) as Hin by (apply (i_requests s I); by exists c); rewrite Hreq in Hin; by apply not_elem_of_nil in Hin).
    destruct (child_moves c Hcap Hok Hw Hi Hq) as [?|(o & c' & E)]; [done|]. specialize (Hn (Child i o)). cbn [act] in Hn. by rewrite Hc, E in Hn. }
  destruct (at_c c) as [| | |text status|text status|] eqn:Ea; [|exfalso; apply Hwait; by left|exfalso; apply Hwait; by right|done|by eexists _, _|unfold cl_ok in Hok; by rewrite Ea in Hok].
  rewrite Hreq in Ha. by destruct req_cap as [|?]; [lia|].
Qed.
End System.

(** ** What the clients are told *)

(** C20. However clients, server and children take turns, in whatever pieces the files are read,
    whatever the queues hold, and whichever [read]s and [msgsnd]s of the children fail: a client
    that ends was refused for its arguments, or told that its file could not be opened, or says how
    many bytes it has received, and exits with success; these are a beginning of its own file, and
    the whole file if no [read] or [msgsnd] of its child failed; and no queue of it is left.  No
    client counts past [INT_MAX], if the files are smaller than that. *)
Theorem each_gets_its_file files req_cap cap argv0 args s i c :
  (forall path content, files path = Some content -> Z.of_nat (length content) < INT_MAX) ->
  reach (act files req_cap cap) (init argv0 args) s -> clients s !! i = Some c ->
  at_c c <> CUndef /\ forall text status, at_c c = CDone text status ->
  has_queue c = false /\ inbox c = [] /\
  (served c = HNone \/
   match files (pathname c) with
   | None => text = "Couldn't open" +:+ nl /\ status = EXIT_FAILURE
   | Some content => got c `prefix_of` content /\ (erred c = false -> got c = content) /\ status = EXIT_SUCCESS /\
       exists num, text = "Received " +:+ fmt_lld (Z.of_nat (length (got c))) +:+ " bytes (" +:+ fmt_lld num +:+ " messages)" +:+ nl
   end).
Proof.
  intros Hsmall H Hc. assert (inv files s) as I by (eapply (reach_inv (act files req_cap cap) (inv files) (init argv0 args)); [apply init_files|intros a s1 s2; by apply act_files|done]).
  pose proof (i_clients files s I i c Hc) as Hok. unfold cl_ok in Hok. split; [by intros Ea; rewrite Ea in Hok|].
  intros text status Ha. rewrite Ha in Hok. destruct Hok as (? & ? & Hres). split; [done|]. split; [done|].
  destruct Hres as [?|[_ Hres]]; [by left|right]. unfold result in Hres. destruct (files (pathname c)); [|done].
  destruct Hres as ([Hp Hs] & Hst & num & _ & Ht). split_and!; [done..|]. by exists num.
Qed.

(** Every client is served: a schedule has at most three steps for each byte asked for and twelve
    for each client, and stops only when every client has ended, but for those whose child had a
    call fail (its last message may be the one that was not sent), if a queue holds one request and
    one message of the largest size. *)
Theorem all_are_served files req_cap cap argv0 args sched s :
  (forall path content, files path = Some content -> Z.of_nat (length content) < INT_MAX) -> (1 <= req_cap)%nat -> RESP_MSG_SIZE <= cap ->
  exec (act files req_cap cap) sched (init argv0 args) = Some s ->
  Z.of_nat (length sched) <= sum_by (fun a => 3 * match a with [path] => match files path with Some content => Z.of_nat (length content) | None => 0 end | _ => 0 end + 12) args /\
  ((forall a, act files req_cap cap a s = None) -> forall i c, clients s !! i = Some c -> erred c = true \/ exists text status, at_c c = CDone text status).
Proof.
  intros Hsmall Hr Hcap E. assert (inv files s) as I by (eapply (reach_inv (act files req_cap cap) (inv files) (init argv0 args)); [apply init_files|intros a s1 s2; by apply act_files|by exists sched]). split.
  - eapply (exec_measure (act files req_cap cap) (inv files) (rank files)) in E; [|intros a s1 s2; by apply act_rank_files|apply init_files].
    pose proof (rank_init_files files argv0 args). assert (0 <= rank files s); [|lia]. apply sum_by_nonneg. intros c _. apply rank_of_nonneg.
  - intros Hn. by apply (stuck_served files req_cap cap).
Qed.

Definition two_files (path : string) : option (list Z) := if streq path "a" then Some [1; 2; 3] else None.
Definition ask_two : list (list string) := [["a"]; ["b"]]%string.
Definition child (i k : nat) : actor := Child i (Gives k).
Definition serve_two : list actor :=
  [Client 1; Client 0; Server; Server; child 0 0; child 1 0; child 0 2; child 0 0; Client 0; child 1 0; child 0 1; Client 1; child 0 0; child 0 0; child 0 0; Client 0; Client 0; Client 0; Client 1].

(** A read that fails after two bytes: the client is told two bytes, and that this was the file. *)
Definition cut_short : list actor :=
  [Client 0; Server; child 0 0; child 0 2; child 0 0; Child 0 Fails; child 0 0; Client 0; Client 0; Client 0].

Lemma two_files_small path content : two_files path = Some content -> Z.of_nat (length content) < INT_MAX.
Proof. unfold two_files. destruct (streq path "a"); [|done]. by intros [= <-]. Qed.

Lemma truncated_is_success : exists s c, exec (act two_files 2 8192) cut_short (init "client" [["a"%string]]) = Some s /\
  clients s !! 0%nat = Some c /\ at_c c = CDone ("Received 2 bytes (2 messages)" +:+ nl) EXIT_SUCCESS /\ got c = [1; 2].
Proof. eexists _, _. split; [vm_compute; reflexivity|]. split_and!; vm_compute; reflexivity. Qed.

(** Both runs: the file whole, and the file cut short by a failing [read]. *)
Lemma each_gets_its_file_witness :
  (exists s c, exec (act two_files 2 8192) serve_two (init "client" ask_two) = Some s /\ clients s !! 0%nat = Some c /\
     at_c c = CDone ("Received 3 bytes (3 messages)" +:+ nl) 0 /\ erred c = false /\ (erred c = false -> got c = [1; 2; 3])) /\
  exists s c, exec (act two_files 2 8192) cut_short (init "client" [["a"%string]]) = Some s /\ clients s !! 0%nat = Some c /\
     erred c = true /\ got c `prefix_of` [1; 2; 3].
Proof.
  split; eexists _, _.
  - split; [vm_compute; reflexivity|]. set (s := MkSt _ _). split; [vm_compute; reflexivity|]. set (c := MkClient _ _ _ _ _ _ _ _ _). split; [vm_compute; reflexivity|]. split; [reflexivity|].
    destruct (each_gets_its_file two_files 2 8192 "client" ask_two s 0 c two_files_small) as [_ H]; [exists serve_two; vm_compute; reflexivity|vm_compute; reflexivity|].
    destruct (H ("Received 3 bytes (3 messages)" +:+ nl) 0 ltac:(vm_compute; reflexivity)) as (_ & _ & [?|(_ & Hg & _)]); [discriminate|exact Hg].
  - split; [vm_compute; reflexivity|]. set (s := MkSt _ _). split; [vm_compute; reflexivity|]. set (c := MkClient _ _ _ _ _ _ _ _ _). split; [reflexivity|].
    destruct (each_gets_its_file two_files 2 8192 "client" [["a"%string]] s 0 c two_files_small) as [_ H]; [exists cut_short; vm_compute; reflexivity|vm_compute; reflexivity|].
    destruct (H ("Received 2 bytes (2 messages)" +:+ nl) 0 ltac:(vm_compute; reflexivity)) as (_ & _ & [?|(Hp & _)]); [discriminate|exact Hp].
Defined.

Lemma all_are_served_witness : exists s, exec (act two_files 2 8192) serve_two (init "client" ask_two) = Some s /\ Z.of_nat (length serve_two) <= 3 * 3 + 12 + 12 /\ requests s = [].
Proof.
  eexists. split; [vm_compute; reflexivity|]. set (s := MkSt _ _).
  destruct (all_are_served two_files 2 8192 "client" ask_two serve_two s two_files_small) as [H _]; [lia|unfold RESP_MSG_SIZE; lia|vm_compute; reflexivity|split; [exact H|reflexivity]].
Defined.
